(* ===== verification/_CoqProject ===== *)
-Q . S2P
Prelude.v
GoStrings.v
Interfaces.v
Boot.v
ProcessMonitor.v
ProcessStorage.v
Events.v
Connection.v
ConnectionLife.v
Ztunnel.v
AccessLogTail.v
Buffer.v
BufferOrder.v
Sender.v
Delivery.v
Tracing.v
Http2.v
Http2Loop.v
Partition.v
PartitionLaws.v
GoHttp.v
Http1.v
Http1Stream.v
Http1Laws.v
Http1Exchange.v
Http1Waiting.v
Http1Reader.v
Http1Loop.v
Http2Ends.v
Protocols.v
Elf.v
ZtOffsets.v
ZtIdentity.v
ZtIdentityLaws.v
Kernel.v
KernelUpload.v
KernelConn.v
KernelTransfer.v
KernelLaws.v
KernelTrace.v
Windows.v
NetWatch.v
Checkers.v
CheckersLaws.v
TaskManager.v
TaskManagerLaws.v
Continuous.v
ContinuousLaws.v
ContinuousNet.v
Traffic.v
Layer4.v
NetMeters.v
NetAnalyzer.v
TrafficLaws.v
NetAnalyzerLaws.v
