(* ===== verification/Prelude.v ===== *)
(** * A verification development for Apache SkyWalking Rover

    Rover is an agent that runs on a node, watches processes with BPF programs and sends
    access logs and profiles to a backend.  This development models the access log: from
    the system calls in the kernel to the messages of the gRPC stream, with the module
    system that starts it and the ztunnel collector that completes its addresses; and the
    part of profiling that decides what is profiled and when, the task manager and
    continuous profiling, with the traffic analysis of the network task.

    ** The program and its parts

    A log travels through the program as follows; each part names the files that model it.

    - The BPF programs (src/bpf/accesslog, src/bpf/include) keep the active connections,
      guess the protocol of a payload, upload it in chunks, and submit connect, detail and
      close samples: Kernel.v (structs, maps, process filter), KernelUpload.v (protocol
      inference and upload), KernelConn.v (connect, accept, close), KernelTransfer.v (read
      and write system calls).  A program is a function on [kstate], one step each.
    - User space decodes the samples (src/pkg/tools/btf/reader.go,
      src/pkg/accesslog/events): Events.v.
    - A partition of the protocol analysis (src/pkg/accesslog/collector/protocols: queue.go,
      connection.go, protocol.go) puts details and data into the buffers of their
      connection and runs the analyzers: Partition.v.  The buffers
      (src/pkg/tools/buffer/buffer.go) are Buffer.v; the HTTP/2 analyzer (http2.go, http.go)
      is Http2.v, and the trace contexts of its headers (src/pkg/tools/tracing) Tracing.v.
      The HTTP/1 analyzer (http1.go) and its reader (src/pkg/profiling/task/network/analyze/
      layer7/protocols/http1/reader) are Http1.v, over the parts of bufio, net/textproto and
      net/url in GoHttp.v; Protocols.v joins both to the manager of a partition.
    - The process storage (src/pkg/process/finders/storage.go, context.go, manager.go) holds
      the processes the finders detect and tells its listeners: ProcessStorage.v.
    - The connection manager (src/pkg/accesslog/common/connection.go, filter.go) is such a
      listener; it knows the monitored processes, ProcessMonitor.v, and the connections,
      Connection.v.
    - The ztunnel collector (src/pkg/accesslog/collector/ztunnel) is a flush listener of the
      manager: the correlation in Ztunnel.v, the access log tailer and the admin dump in
      AccessLogTail.v, the identity probe with its calibration in ZtIdentity.v.  The field
      offsets of a ztunnel binary (src/pkg/tools/ztunnel) are ZtOffsets.v, over the debug
      info of src/pkg/tools/elf in Elf.v.
    - The forwarder, the queue of logs and the runner (src/pkg/accesslog/forwarder,
      common/queue.go, runner.go) turn events into batches: Delivery.v.  The sender
      (src/pkg/accesslog/sender) sends them: Sender.v.
    - The modules are started and shut down by src/pkg/boot/module.go: Boot.v.

    Profiling has a control part that is separate from the access log.

    - The task manager (src/pkg/profiling/task: manager.go, context.go, base) makes tasks
      of the commands of the backend, starts, extends, replaces and stops them:
      TaskManager.v.
    - Continuous profiling (src/pkg/profiling/continuous) measures processes in windows of
      seconds (base/windows.go): Windows.v.  The checkers compare the windows with the
      policies of the services (checker, checker/common): Checkers.v.  checkers.go and the
      triggers ask for the policies, run the checkers and start tasks of the task manager
      for the causes: Continuous.v.  The events of the HTTP checkers come from the BPF
      programs of checker/bpf/network: which processes are watched is in NetWatch.v, how the
      buffers become events in ContinuousNet.v.
    - The task of network profiling (src/pkg/profiling/task/network/analyze) follows the
      connections of its processes (base/context.go): NetAnalyzer.v.  It combines them to
      the traffic between two processes (base/traffic.go): Traffic.v, with the counters and
      histograms of layer 4 (layer4): Layer4.v, and sends meters of it (base/metrics.go):
      NetMeters.v.

    Interfaces.v holds the third-party packages as classes with the laws of their
    documentation and a concrete instance of each; GoStrings.v holds the functions of the
    package strings; this file holds what every part shares.

    ** How Go and C are represented

    - An integer is a [Z]; [u8] ... [i64] are written where an operation can leave its
      width.  In the C files a struct member truncates on assignment.
    - A function that can fail returns [res]: a value, an error value or a panic.  A method
      is [act]: it runs on the state of its receiver.  A nil dereference and an index out
      of range are panics, and theorems say which functions do not panic.
    - Objects that are shared (connections, buffers, list elements) live in stores and are
      named by references; a slice is an array with a visible length.
    - The order of [range] over a map is the class [RangeOrder]: a theorem that does not
      mention it holds for every order.
    - The clock, files, user memory, the netlink query, JSON and HPACK decoding are
      arguments.  A method is one step, so locks have no counterpart; the consuming loops
      of Delivery.v take the logs that arrive while they run.
    - The goroutines of a task are threads in the state of TaskManager.v; an event of the
      manager wakes one of them, and an operation that waits for ever is an error value.
    - A float64 is the IEEE number of the standard library's [SpecFloat].

    ** What is shown

    - Boot.v: the start order is the topological order of the dependencies, errors are
      exactly missing and circular modules; a run shuts down what it started, in reverse.
    - Events.v: decoding is the inverse of the layout, and fails exactly on short samples.
    - Buffer.v, BufferOrder.v: reading refines a byte stream; appending keeps the order and
      its fast path agrees with the scan; removing, slicing and combining keep the stream;
      deleting details is exact.
    - Kernel*.v: the chunks of an upload reassemble to the payload through the decoder and
      the buffer of user space (KernelLaws.v); data follow the announcement of their
      connection in every run of the programs of processes and system calls (KernelTrace.v).
    - Http2.v, Http2Loop.v, Http2Ends.v: what is logged for a whole stream and what is
      deleted; the frame loop ends, and panics only if a stream was split.  PartitionLaws.v: events are routed in every reachable state, and a
      protocol break loses no detail; HTTP/2 implements the interface of protocols.
    - Http1Stream.v, Http1Laws.v, Http1Exchange.v, Http1Waiting.v: the reader refines the
      byte stream of the connection, so messages are read back however they are cut; an
      exchange whose bodies have a length, or end with the chunk of the head, becomes one
      log; responses find their requests; an exchange without its
      details is tried three times.  Http1Reader.v, Http1Loop.v: on every input the reader
      and the analysis end and do not panic.  Protocols.v: HTTP/1 implements the interface of
      protocols too, so the routing holds for the protocols of the program.
    - ProcessStorage.v: the events tell a listener exactly the stored processes; the report
      to the backend is exact.
    - ProcessMonitor.v: the kernel maps agree with the monitored processes.
      ConnectionLife.v: in any sequence of operations the manager does not panic, holds a
      connection for a bounded time and keeps it until its logs are sent.
    - Ztunnel.v, AccessLogTail.v, ZtIdentityLaws.v: what the collector resolves and when it
      stops waiting; the tailer reads every line once; compact events agree with windows;
      calibration is sound and settles, and the path falls back.
    - ZtOffsets.v, Elf.v: validation, resolution and the build id parser are exact; the
      arguments of a Go function do not overlap.
    - Delivery.v, Sender.v, Tracing.v: every log is accounted for; the server learns the
      logs with their connection; trace contexts round trip.
    - TaskManagerLaws.v: in every reachable state one run for an identity of tasks.
    - Windows.v, NetWatch.v, CheckersLaws.v, ContinuousLaws.v, ContinuousNet.v: a window refines the
      log of its values; the checkers have the processes of the policies, report exactly
      what is due and do not panic; the cached policies follow the backend; a trigger
      respects its silence; the watched processes follow the outcomes of the kernel, and an
      exchange of HTTP/1 yields its event.
    - TrafficLaws.v, NetAnalyzerLaws.v: the ends of a connection find each other, combining
      conserves the counters of each process, and a flush reports what is known to be
      written since the last one.

    Where modelling showed that the code does not do what it means to, an [Example]
    evaluates the definitions on the input that shows it.

    ** Fuel

    Recursion that is not structural takes fuel, and the fuel is proved enough:
    [appendToResolve] one more than the modules (Boot.v, [ResolveDependency_correct]); the
    read loops of the buffer a step for every byte and chunk (Buffer.v,
    [Peek_refines_stream]); the note parser the length of its input (Elf.v); the frame loop
    the square of the weight of the chunks, since a round leaves a byte or a chunk behind
    and a removal restarts at skipped chunks (Http2Ends.v, [Analyze_terminates]); the
    loops of the HTTP/1 reader the bytes and chunks in front of it, and its analysis the
    square of their weight (Http1Reader.v, Http1Loop.v); the consuming loops the logs that
    wait and arrive (Delivery.v, [logs_conserved]); the sending loop the waiting batches
    (Sender.v, [batches_delivered]); deleting details the location of the buffer, as an
    original is older than its slice.

    ** Not modelled

    - The tickers, locks and data races of Go: the methods are steps.
    - The readable content of an HTTP/1 message (character sets, gzip), which only layer 7
      of profiling asks for, and the authority of absolute URLs, which is an argument.
    - The BPF probes of packets (src/bpf/accesslog/l24), of TLS libraries and of the two
      socket mappings of ztunnel, whose registers depend on the architecture; the reads of
      kernel structs are arguments.
    - The runners of the profiling tasks (perf events, stacks and symbols), the layer 7
      analysis of the network task, and the BPF programs of profiling.
    - The process finders (Kubernetes and /proc), the backend connection, configuration,
      logging, the collectors that only attach probes, and what opens files or ELF images:
      they are input and output over libraries. *)

From stdpp Require Import base gmap list strings pretty sorting.
From Stdlib Require Import ZArith Lia.

Open Scope Z_scope.

Declare Scope go_scope.
Delimit Scope go_scope with go.

(** ** Fixed-width integers

    A Go integer is a [Z] kept inside its width; an operation that can leave
    the width is written with the wrap-around below. *)

Definition u8 (z : Z) : Z := z mod 2 ^ 8.
Definition u16 (z : Z) : Z := z mod 2 ^ 16.
Definition u32 (z : Z) : Z := z mod 2 ^ 32.
Definition u64 (z : Z) : Z := z mod 2 ^ 64.
Definition i32 (z : Z) : Z := (z + 2 ^ 31) mod 2 ^ 32 - 2 ^ 31.
Definition i64 (z : Z) : Z := (z + 2 ^ 63) mod 2 ^ 64 - 2 ^ 63.

(** Nanoseconds in a second: the unit of [time.Duration]. *)
Definition second : Z := 1000000000.

(** ** Results: a value, an error value, or a run-time panic *)

Inductive res (E A : Type) : Type :=
| Ok (a : A)
| Err (e : E)
| Panic.
Arguments Ok {E A} a.
Arguments Err {E A} e.
Arguments Panic {E A}.

Global Instance res_ret E : MRet (res E) := λ A a, Ok a.
Global Instance res_bind E : MBind (res E) := λ A B f m,
  match m with
  | Ok a => f a
  | Err e => Err e
  | Panic => Panic
  end.

(** A nil dereference or an out-of-range index is [None] in the option type;
    [must] turns it into a panic of the enclosing computation. *)
Definition must {E A} (o : option A) : res E A :=
  match o with
  | Some a => Ok a
  | None => Panic
  end.

(** A method: it runs on the receiver's state, returns a value, an error or a
    panic, and leaves the receiver in a state in every case. *)
Definition act (S E A : Type) : Type := S → res E A * S.

Global Instance act_ret S E : MRet (act S E) := λ A a s, (Ok a, s).
Global Instance act_bind S E : MBind (act S E) := λ A B f m s,
  match m s with
  | (Ok a, s') => f a s'
  | (Err e, s') => (Err e, s')
  | (Panic, s') => (Panic, s')
  end.

Definition get {S E} : act S E S := λ s, (Ok s, s).
Definition put {S E} (s : S) : act S E unit := λ _, (Ok tt, s).
Definition modify {S E} (f : S → S) : act S E unit := λ s, (Ok tt, f s).
Definition raise {S E A} (e : E) : act S E A := λ s, (Err e, s).
Definition lift {S E A} (r : res E A) : act S E A := λ s, (r, s).

(** A method runs to a value with the post-condition [Q]: no error, no panic. *)
Definition wp {S E A} (m : act S E A) (Q : A → S → Prop) (s : S) : Prop :=
  match m s with
  | (Ok a, s') => Q a s'
  | _ => False
  end.

(** A [for range] loop that threads a state and stops at the first error. *)
Fixpoint for_range {E S A} (f : S → A → res E S) (s : S) (l : list A) : res E S :=
  match l with
  | [] => Ok s
  | x :: l' => s' ← f s x; for_range f s' l'
  end.

(** ** [sort.Slice]

    Below thirteen elements [sort.Slice] is an insertion sort: each element
    moves left past its predecessors while [less] holds of it and the
    predecessor.  [ins_right] works on the reversed sorted prefix. *)

Fixpoint ins_right {A} (less : A → A → bool) (x : A) (rprefix : list A) : list A :=
  match rprefix with
  | [] => [x]
  | y :: r => if less x y then y :: ins_right less x r else x :: y :: r
  end.

Definition sort_Slice {A} (less : A → A → bool) (l : list A) : list A :=
  reverse (foldl (λ acc x, ins_right less x acc) [] l).

(** ** Slices

    A slice is the part of its backing array from its first element to its
    capacity, with the length that is visible. *)

Record slice (A : Type) : Type := MkSlice {
  s_arr : list A;
  s_len : nat
}.
Arguments MkSlice {A} s_arr s_len.
Arguments s_arr {A} s.
Arguments s_len {A} s.

Definition elems {A} (s : slice A) : list A := take (s_len s) (s_arr s).

(** [s[lo:hi]]: the bound is the capacity, not the length. *)
Definition reslice {A} (s : slice A) (lo hi : Z) : option (slice A) :=
  if decide (0 ≤ lo ∧ lo ≤ hi ∧ hi ≤ Z.of_nat (length (s_arr s)))
  then Some (MkSlice (drop (Z.to_nat lo) (s_arr s)) (Z.to_nat (hi - lo)))
  else None.

(** The slice of a whole array. *)
Definition whole {A} (l : list A) : slice A := MkSlice l (length l).

(** ** Doubly linked lists ([container/list])

    An element has an identity, which is what a [*list.Element] pointer
    compares, and a value.  A removed element keeps its value but has no
    neighbours, as [Remove] clears its links. *)

Record elem (A : Type) : Type := Elem {
  eid : positive;
  evalue : A
}.
Arguments Elem {A} eid evalue.
Arguments eid {A} e.
Arguments evalue {A} e.

Section linked_list.
Context {A : Type}.
Implicit Types (l : list (elem A)) (e : elem A) (id : positive).

Fixpoint next_of l id : option (elem A) :=
  match l with
  | [] => None
  | e :: l' => if decide (eid e = id) then head l' else next_of l' id
  end.

Fixpoint prev_from (before : option (elem A)) l id : option (elem A) :=
  match l with
  | [] => None
  | e :: l' => if decide (eid e = id) then before else prev_from (Some e) l' id
  end.

Definition prev_of l id : option (elem A) := prev_from None l id.

(** The list from the element [id] on; empty when the element is not in it. *)
Fixpoint suffix_from l id : list (elem A) :=
  match l with
  | [] => []
  | e :: l' => if decide (eid e = id) then l else suffix_from l' id
  end.

Definition remove_id id l : list (elem A) := filter (λ e, eid e ≠ id) l.

Fixpoint insert_before (x : elem A) id l : list (elem A) :=
  match l with
  | [] => []
  | e :: l' => if decide (eid e = id) then x :: l else e :: insert_before x id l'
  end.

Definition unique l : Prop := NoDup (eid <$> l).
End linked_list.

(** ** Lemmas *)

Lemma filter_keep {A} (P : A → Prop) {HP : ∀ x, Decision (P x)} (l : list A) :
  (∀ x, x ∈ l → P x) → filter P l = l.
Proof.
  induction l as [|x l IH]; intros H; [done|].
  rewrite filter_cons_True by (apply H; left). f_equal. apply IH. intros y Hy. apply H. by right.
Qed.

Section linked_list_lemmas.
Context {A : Type}.
Implicit Types (l : list (elem A)) (e : elem A) (id : positive).

Lemma unique_mid l1 e l2 :
  unique (l1 ++ e :: l2) →
  Forall (λ x, eid x ≠ eid e) l1 ∧ Forall (λ x, eid x ≠ eid e) l2 ∧ unique (l1 ++ l2).
Proof.
  unfold unique. rewrite fmap_app, fmap_cons.
  intros H.
  assert (Hp : (eid <$> l1) ++ eid e :: (eid <$> l2) ≡ₚ eid e :: ((eid <$> l1) ++ (eid <$> l2)))
    by (symmetry; apply Permutation_middle).
  rewrite Hp, NoDup_cons, <- fmap_app in H. destruct H as [Hni Hnd].
  rewrite fmap_app, elem_of_app in Hni.
  split_and!; [| |done]; apply Forall_forall; intros x Hx Heq; apply Hni.
  - left. rewrite <- Heq. by apply list_elem_of_fmap_2.
  - right. rewrite <- Heq. by apply list_elem_of_fmap_2.
Qed.

Lemma next_of_app_ne l1 l2 id :
  Forall (λ x, eid x ≠ id) l1 → next_of (l1 ++ l2) id = next_of l2 id.
Proof. induction 1; simpl; [done|]. by rewrite decide_False. Qed.

Lemma suffix_from_app_ne l1 l2 id :
  Forall (λ x, eid x ≠ id) l1 → suffix_from (l1 ++ l2) id = suffix_from l2 id.
Proof. induction 1; simpl; [done|]. by rewrite decide_False. Qed.

Lemma next_of_mid l1 e l2 : unique (l1 ++ e :: l2) → next_of (l1 ++ e :: l2) (eid e) = head l2.
Proof.
  intros (H & _ & _)%unique_mid. rewrite next_of_app_ne by done.
  simpl. by rewrite decide_True.
Qed.

Lemma suffix_from_mid l1 e l2 :
  unique (l1 ++ e :: l2) → suffix_from (l1 ++ e :: l2) (eid e) = e :: l2.
Proof.
  intros (H & _ & _)%unique_mid. rewrite suffix_from_app_ne by done.
  simpl. by rewrite decide_True.
Qed.

Lemma remove_id_mid l1 e l2 : unique (l1 ++ e :: l2) → remove_id (eid e) (l1 ++ e :: l2) = l1 ++ l2.
Proof.
  intros (H1 & H2 & _)%unique_mid. unfold remove_id.
  rewrite filter_app, filter_cons_False by naive_solver.
  rewrite Forall_forall in H1. rewrite Forall_forall in H2. by rewrite !filter_keep.
Qed.

Lemma remove_id_head e l : unique (e :: l) → remove_id (eid e) (e :: l) = l.
Proof. intros H. by apply (remove_id_mid [] e l). Qed.

Lemma unique_app_l l1 l2 : unique (l1 ++ l2) → unique l1.
Proof. unfold unique. rewrite fmap_app, NoDup_app. naive_solver. Qed.

Lemma unique_app_r l1 l2 : unique (l1 ++ l2) → unique l2.
Proof. unfold unique. rewrite fmap_app, NoDup_app. naive_solver. Qed.

Lemma unique_cons_inv e l : unique (e :: l) → unique l.
Proof. apply (unique_app_r [e]). Qed.
End linked_list_lemmas.

Lemma length_elems {A} (s : slice A) :
  (s_len s ≤ length (s_arr s))%nat → length (elems s) = s_len s.
Proof. intros. unfold elems. rewrite length_take. lia. Qed.

Lemma reslice_Some {A} (s t : slice A) lo hi :
  reslice s lo hi = Some t →
  (0 ≤ lo ∧ lo ≤ hi ∧ hi ≤ Z.of_nat (length (s_arr s))) ∧
  t = MkSlice (drop (Z.to_nat lo) (s_arr s)) (Z.to_nat (hi - lo)).
Proof. unfold reslice. case_decide; naive_solver. Qed.

(** Stepping a method: the rewriting database [act] runs its state operations. *)
Section act_lemmas.
Context {S E : Type}.

Lemma bind_get {B} (f : S → act S E B) s : (get ≫= f) s = f s s.
Proof. done. Qed.

Lemma bind_put {B} t (f : unit → act S E B) s : (put t ≫= f) s = f tt t.
Proof. done. Qed.

Lemma bind_modify {B} g (f : unit → act S E B) s : (modify g ≫= f) s = f tt (g s).
Proof. done. Qed.

Lemma bind_lift_ok {A B} (a : A) (f : A → act S E B) s : (lift (Ok a) ≫= f) s = f a s.
Proof. done. Qed.

Lemma bind_lift_panic {A B} (f : A → act S E B) s : (lift Panic ≫= f) s = (Panic, s).
Proof. done. Qed.

Lemma bind_ret {A B} (a : A) (f : A → act S E B) s : (mret a ≫= f) s = f a s.
Proof. done. Qed.

Lemma act_ret_run {A} (a : A) (s : S) : (mret a : act S E A) s = (Ok a, s).
Proof. done. Qed.

Lemma bind_ok {A B} (m : act S E A) (f : A → act S E B) s a t :
  m s = (Ok a, t) → (m ≫= f) s = f a t.
Proof. unfold mbind, act_bind. by intros ->. Qed.

Lemma bind_assoc {A B C} (m : act S E A) (f : A → act S E B) (g : B → act S E C) s :
  ((m ≫= f) ≫= g) s = (m ≫= λ a, f a ≫= g) s.
Proof. unfold mbind, act_bind. by destruct (m s) as [[]]. Qed.

Lemma bind_raise {A B} e (f : A → act S E B) s : (raise e ≫= f) s = (Err e, s).
Proof. done. Qed.

Lemma bind_err {A B} (m : act S E A) (f : A → act S E B) s e t :
  m s = (Err e, t) → (m ≫= f) s = (Err e, t).
Proof. unfold mbind, act_bind. by intros ->. Qed.
End act_lemmas.

(** The rules of [wp]. *)
Section wp_lemmas.
Context {S E : Type}.

Lemma wp_bind {A B} (m : act S E A) (f : A → act S E B) Q s :
  wp m (λ a, wp (f a) Q) s → wp (m ≫= f) Q s.
Proof. unfold wp, mbind, act_bind. by destruct (m s) as [[]]. Qed.

Lemma wp_mono {A} (m : act S E A) (P Q : A → S → Prop) s :
  wp m P s → (∀ a s', P a s' → Q a s') → wp m Q s.
Proof. unfold wp. destruct (m s) as [[] ?]; naive_solver. Qed.

Lemma wp_ret {A} (a : A) (Q : A → S → Prop) s : Q a s → wp (mret a : act S E A) Q s.
Proof. done. Qed.

Lemma wp_get (Q : S → S → Prop) s : Q s s → wp (get : act S E S) Q s.
Proof. done. Qed.

Lemma wp_put t (Q : unit → S → Prop) s : Q tt t → wp (put t : act S E unit) Q s.
Proof. done. Qed.

Lemma wp_modify f (Q : unit → S → Prop) s : Q tt (f s) → wp (modify f : act S E unit) Q s.
Proof. done. Qed.

Lemma wp_must {A} (o : option A) a (Q : A → S → Prop) s :
  o = Some a → Q a s → wp (lift (must o) : act S E A) Q s.
Proof. by intros ->. Qed.

Lemma wp_run {A} (m : act S E A) (Q : A → S → Prop) s :
  wp m Q s ↔ ∃ a s', m s = (Ok a, s') ∧ Q a s'.
Proof. unfold wp. destruct (m s) as [[] ?]; naive_solver. Qed.
End wp_lemmas.

Lemma for_range_ind {E S A} (P : S → Prop) (f : S → A → res E S) l s s' :
  (∀ s x s1, x ∈ l → P s → f s x = Ok s1 → P s1) →
  P s → for_range f s l = Ok s' → P s'.
Proof.
  revert s. induction l as [|x l IH]; intros s Hf Hs; simpl.
  { by intros [= <-]. }
  destruct (f s x) as [s1| |] eqn:Hfx; simpl; try done.
  apply IH.
  - intros t y t1 Hy. apply Hf. by right.
  - eapply Hf; [left|done|done].
Qed.

Lemma for_range_prefix_ind {E S A} (P : list A → S → Prop) (f : S → A → res E S) l s s' :
  P [] s → (∀ pre x s s', P pre s → f s x = Ok s' → P (pre ++ [x]) s') →
  for_range f s l = Ok s' → P l s'.
Proof.
  intros H0 Hstep.
  assert (Hgen : ∀ pre s, P pre s → for_range f s l = Ok s' → P (pre ++ l) s').
  { clear H0 s. induction l as [|x l IH]; intros pre s HP; simpl.
    - intros [= <-]. by rewrite app_nil_r.
    - destruct (f s x) as [s1| |] eqn:Hf; cbn; [|done..]. intros Hl.
      replace (pre ++ x :: l) with ((pre ++ [x]) ++ l) by (by rewrite <-app_assoc).
      eapply IH; [|done]. by eapply Hstep. }
  by apply (Hgen []).
Qed.

Lemma for_range_app {E S A} (f : S → A → res E S) l1 l2 s :
  for_range f s (l1 ++ l2) = (s' ← for_range f s l1; for_range f s' l2).
Proof.
  revert s. induction l1 as [|x l1 IH]; intros s; simpl; [done|].
  destruct (f s x); simpl; [apply IH|done|done].
Qed.

(** A loop of checks passes when every check does. *)
Lemma for_range_checks {E A} (f : A → res E unit) l :
  for_range (λ _ x, f x) tt l = Ok tt ↔ Forall (λ x, f x = Ok tt) l.
Proof.
  induction l as [|x l IH]; simpl; [done|]. rewrite Forall_cons, <-IH.
  destruct (f x) as [[]| |]; simpl; naive_solver.
Qed.

Lemma for_range_no_panic {E S A} (f : S → A → res E S) l s :
  (∀ s x, f s x ≠ Panic) → for_range f s l ≠ Panic.
Proof.
  intros Hf. revert s. induction l as [|x l IH]; intros s; simpl; [done|].
  specialize (Hf s x). destruct (f s x); simpl; [apply IH|done|done].
Qed.

Lemma for_range_total {E A S} (f : S → A → res E S) s l :
  (∀ s x, x ∈ l → ∃ s', f s x = Ok s') → ∃ s', for_range f s l = Ok s'.
Proof.
  revert s. induction l as [|x l IH]; intros s Hf; [by eexists|]. cbn [for_range].
  destruct (Hf s x) as [s' ->]; [by left|]. cbn [mbind res_bind]. apply IH. intros s2 y Hy. apply Hf. by right.
Qed.

Lemma mapM_total {E A B} (f : A → res E B) l :
  (∀ x, x ∈ l → ∃ y, f x = Ok y) → ∃ ys, mapM f l = Ok ys.
Proof.
  induction l as [|x l IH]; intros Hf; [by exists []|]. destruct (Hf x) as [y Hy]; [left|].
  destruct IH as [ys Hys]; [intros z Hz; apply Hf; by right|]. exists (y :: ys). cbn. by rewrite Hy, Hys.
Qed.

Lemma i64_small z : - 2 ^ 63 ≤ z < 2 ^ 63 → i64 z = z.
Proof. intros H. unfold i64. rewrite Z.mod_small; lia. Qed.
Lemma i32_small z : - 2 ^ 31 ≤ z < 2 ^ 31 → i32 z = z.
Proof. intros H. unfold i32. rewrite Z.mod_small; lia. Qed.

Lemma strongly_sorted_lookup {A} (R : relation A) l :
  (∀ i j x y, l !! i = Some x → l !! j = Some y → (i < j)%nat → R x y) → StronglySorted R l.
Proof.
  induction l as [|x l IH]; intros Hl; constructor.
  - apply IH. intros i j y z Hy Hz Hij. apply (Hl (S i) (S j)); [done..|lia].
  - apply Forall_lookup. intros i y Hy. apply (Hl 0%nat (S i)); [done..|lia].
Qed.

Lemma bind_fmap {A B C} (g : A → B) (f : B → list C) l : (g <$> l) ≫= f = l ≫= λ x, f (g x).
Proof. induction l as [|x l IH]; csimpl; [done|]. by rewrite <-IH. Qed.

(** Skipping whole pieces of one length. *)
Lemma drop_pieces {A B} (f : A → list B) l i x n :
  l !! i = Some x → (∀ j y, l !! j = Some y → (j < i)%nat → length (f y) = n) →
  drop (n * i) (l ≫= f) = f x ++ (drop (S i) l ≫= f).
Proof.
  revert l. induction i as [|i IH]; intros [|y l] Hx Hl; simplify_eq/=.
  - by rewrite Nat.mul_0_r, drop_0.
  - rewrite Nat.mul_succ_r, Nat.add_comm, <-(Hl 0%nat y eq_refl ltac:(lia)) at 1.
    rewrite drop_app_add. apply IH; [done|]. intros j z Hz Hj. apply (Hl (S j)); [done|lia].
Qed.

(** Sorting by a total order does not depend on the order of the input. *)
Lemma merge_sort_perm {A} (R : relation A) `{∀ x y, Decision (R x y)} `{!Transitive R}
    `{!AntiSymm eq R} `{!Total R} l1 l2 :
  l1 ≡ₚ l2 → merge_sort R l1 = merge_sort R l2.
Proof.
  intros Hp. apply (Sorted_unique R); [apply Sorted_merge_sort, _..|].
  by rewrite !merge_sort_Permutation.
Qed.

Lemma ins_right_perm {A} (less : A → A → bool) x r : ins_right less x r ≡ₚ x :: r.
Proof.
  induction r as [|y r IH]; simpl; [done|].
  destruct (less x y); [|done]. rewrite IH. apply Permutation_swap.
Qed.

Lemma sort_Slice_perm {A} (less : A → A → bool) l : sort_Slice less l ≡ₚ l.
Proof.
  unfold sort_Slice. rewrite reverse_Permutation.
  assert (H : ∀ acc, foldl (λ acc x, ins_right less x acc) acc l ≡ₚ acc ++ l).
  { induction l as [|x l IH]; intros acc; simpl; [by rewrite app_nil_r|].
    rewrite IH, ins_right_perm. apply Permutation_middle. }
  by rewrite H.
Qed.

(** ** Automation of the development *)

Create HintDb rover.
#[export] Hint Resolve unique_app_l unique_app_r unique_cons_inv : rover.
#[export] Hint Rewrite @bind_get @bind_put @bind_modify @bind_lift_ok @bind_lift_panic @bind_ret
  @bind_raise @bind_assoc @act_ret_run : act.

(** Run the state operations at the front of a method. *)
Ltac step_act := repeat (progress (autorewrite with act; cbn [must])).

(** Step [wp] through the state operations at the front of a method. *)
Ltac wp_step :=
  lazymatch goal with
  | |- wp (mbind _ _) _ _ => apply wp_bind
  | |- wp (mret _) _ _ => apply wp_ret
  | |- wp get _ _ => apply wp_get
  | |- wp (put _) _ _ => apply wp_put
  | |- wp (modify _) _ _ => apply wp_modify
  end.
Ltac wp_steps := repeat wp_step; cbn beta.

(** Follow every branch of a method. *)
Ltac explore :=
  repeat (progress (step_act;
    try match goal with
        | |- context [lift (must ?o) ≫= _] => destruct o eqn:?
        | |- context [lift (must ?o) _] => destruct o eqn:?
        | _ => case_match
        end; simplify_eq/=)).

(** ** Methods that respect a preorder on their state *)

Definition respects {S E A} (R : S → S → Prop) (m : act S E A) : Prop := ∀ s, R s (snd (m s)).

Section respects_lemmas.
Context {S E : Type} (R : S → S → Prop) `{!PreOrder R}.

Lemma respects_ret {A} (a : A) : respects R (mret a : act S E A).
Proof. intros s. simpl. reflexivity. Qed.
Lemma respects_get : respects R (get : act S E S).
Proof. intros s. simpl. reflexivity. Qed.
Lemma respects_lift {A} (r : res E A) : respects R (lift r : act S E A).
Proof. intros s. simpl. reflexivity. Qed.
Lemma respects_raise {A} (e : E) : respects R (raise e : act S E A).
Proof. intros s. simpl. reflexivity. Qed.
Lemma respects_modify f : (∀ s, R s (f s)) → respects R (modify f : act S E unit).
Proof. intros Hf s. apply Hf. Qed.
Lemma respects_bind {A B} (m : act S E A) (f : A → act S E B) :
  respects R m → (∀ a, respects R (f a)) → respects R (m ≫= f).
Proof.
  intros Hm Hf s. unfold mbind, act_bind. specialize (Hm s).
  destruct (m s) as [[a| |] s']; [|done..]. etrans; [exact Hm|]. apply Hf.
Qed.
(** [put] after [get]. *)
Lemma respects_get_bind {A} (f : S → act S E A) :
  (∀ s, R s (snd (f s s))) → respects R (get ≫= f).
Proof. intros Hf s. apply Hf. Qed.
End respects_lemmas.

Create HintDb respects.
#[export] Hint Resolve respects_ret respects_get respects_lift respects_raise : respects.

Ltac respects_step :=
  lazymatch goal with
  | |- respects _ (mbind _ _) => apply respects_bind; [apply _| |intros ?]
  | |- respects _ (match ?x with _ => _ end) => destruct x eqn:?
  | |- respects _ (let '(_, _) := ?x in _) => destruct x eqn:?
  | |- respects _ _ => solve [eauto with respects typeclass_instances]
  end.
Ltac respects_all := repeat (cbv zeta; respects_step).
