(* ===== verification/GoStrings.v ===== *)
(** * The parts of Go's [strings] package the sources use

    Index, cutting, splitting and trimming of byte strings, with the laws the
    parsers of the development rely on. *)

From stdpp Require Import base list strings.
From Stdlib Require Import ZArith Lia Ascii.
From S2P Require Import Prelude.

(** [strings.Index]: the first position of [sub] in [s], or -1. *)
Fixpoint Index (s sub : string) : Z :=
  if String.prefix sub s then 0
  else match s with
       | EmptyString => -1
       | String _ s' => let i := Index s' sub in if i <? 0 then -1 else i + 1
       end.

Fixpoint LastIndex (s sub : string) : Z :=
  match s with
  | EmptyString => if decide (sub = EmptyString) then 0 else -1
  | String _ s' =>
    let i := LastIndex s' sub in
    if 0 <=? i then i + 1 else if String.prefix sub s then 0 else -1
  end.

Definition Contains (s sub : string) : bool := 0 <=? Index s sub.

Definition HasPrefix (s p : string) : bool := String.prefix p s.

(** [s[i:]] and [s[:i]] for an index inside the string. *)
Fixpoint str_drop (n : nat) (s : string) : string :=
  match n, s with
  | S n, String _ s' => str_drop n s'
  | _, _ => s
  end.

Fixpoint str_take (n : nat) (s : string) : string :=
  match n, s with
  | S n, String c s' => String c (str_take n s')
  | _, _ => EmptyString
  end.

Definition HasSuffix (s p : string) : bool :=
  (String.length p <=? String.length s)%nat &&
  String.eqb (str_drop (String.length s - String.length p) s) p.

Definition TrimPrefix (s p : string) : string :=
  if HasPrefix s p then str_drop (String.length p) s else s.

Definition TrimSuffix (s p : string) : string :=
  if HasSuffix s p then str_take (String.length s - String.length p) s else s.

(** [string(b)] of a byte slice, and [[]byte(s)]. *)
Fixpoint string_of_bytes (b : list Z) : string :=
  match b with
  | [] => EmptyString
  | c :: b' => String (ascii_of_nat (Z.to_nat c)) (string_of_bytes b')
  end.

Definition code (c : ascii) : Z := Z.of_nat (nat_of_ascii c).

Fixpoint bytes_of_string (s : string) : list Z :=
  match s with
  | EmptyString => []
  | String c s' => code c :: bytes_of_string s'
  end.

(** [strings.Cut]. *)
Definition Cut (s sep : string) : string * string * bool :=
  let i := Index s sep in
  if i <? 0 then (s, EmptyString, false)
  else (str_take (Z.to_nat i) s, str_drop (Z.to_nat i + String.length sep) s, true).

(** [strings.SplitN(s, sep, n)] for a non-empty separator: at most [n] parts. *)
Fixpoint split_parts (n : nat) (s sep : string) : list string :=
  match n with
  | O => []
  | S O => [s]
  | S n => match Cut s sep with
           | (before, after, true) => before :: split_parts n after sep
           | (_, _, false) => [s]
           end
  end.

(** [strings.Split]: the length of the string bounds the number of parts. *)
Definition Split (s sep : string) : list string := split_parts (String.length s + 2) s sep.

Definition SplitN (s sep : string) (n : nat) : list string := split_parts n s sep.

(** [strings.Join]. *)
Fixpoint Join (l : list string) (sep : string) : string :=
  match l with
  | [] => EmptyString
  | [s] => s
  | s :: l => s +:+ sep +:+ Join l sep
  end.

(** A property of every character, and that a character does not occur. *)
Fixpoint all_chars (P : ascii → bool) (s : string) : bool :=
  match s with
  | EmptyString => true
  | String c s' => P c && all_chars P s'
  end.

Definition lacks (c : ascii) (s : string) : bool := all_chars (λ d, negb (bool_decide (d = c))) s.

(** ASCII white space, as [strings.TrimSpace] removes it. *)
Definition is_space (c : ascii) : bool :=
  let n := nat_of_ascii c in
  (n =? 32)%nat || ((9 <=? n)%nat && (n <=? 13)%nat).

Fixpoint trim_left (f : ascii → bool) (s : string) : string :=
  match s with
  | EmptyString => EmptyString
  | String c s' => if f c then trim_left f s' else s
  end.

Fixpoint trim_right (f : ascii → bool) (s : string) : string :=
  match s with
  | EmptyString => EmptyString
  | String c s' =>
    match trim_right f s' with
    | EmptyString => if f c then EmptyString else String c EmptyString
    | t => String c t
    end
  end.

Definition TrimSpace (s : string) : string := trim_right is_space (trim_left is_space s).

Definition lower_ascii (c : ascii) : ascii :=
  let n := nat_of_ascii c in
  if (65 <=? n)%nat && (n <=? 90)%nat then ascii_of_nat (n + 32) else c.

Fixpoint ToLower (s : string) : string :=
  match s with
  | EmptyString => EmptyString
  | String c s' => String (lower_ascii c) (ToLower s')
  end.

(** ** Lemmas *)

Lemma str_app_cons c s t : String c s +:+ t = String c (s +:+ t).
Proof. done. Qed.

Lemma str_app_assoc (s t u : string) : s +:+ t +:+ u = (s +:+ t) +:+ u.
Proof. induction s as [|c s IH]; [done|]. by rewrite !str_app_cons, IH. Qed.

Lemma str_app_nil t : EmptyString +:+ t = t.
Proof. done. Qed.

Lemma str_app_nil_r (s : string) : s +:+ EmptyString = s.
Proof. induction s as [|c s IH]; [done|]. by rewrite str_app_cons, IH. Qed.

Lemma str_take_drop n s : str_take n s +:+ str_drop n s = s.
Proof.
  revert s. induction n as [|n IH]; intros [|c s]; simpl; try done.
  by rewrite str_app_cons, IH.
Qed.

Lemma str_drop_length n s : String.length (str_drop n s) = (String.length s - n)%nat.
Proof. revert s. induction n as [|n IH]; intros [|c s]; simpl; auto. Qed.

Lemma str_app_length s t : String.length (s +:+ t) = (String.length s + String.length t)%nat.
Proof. induction s as [|c s IH]; [done|]. rewrite str_app_cons. simpl. by rewrite IH. Qed.

Lemma str_drop_app s t : str_drop (String.length s) (s +:+ t) = t.
Proof. induction s as [|c s IH]; [by destruct t|]. rewrite str_app_cons. apply IH. Qed.

Lemma str_take_app s t : str_take (String.length s) (s +:+ t) = s.
Proof. induction s as [|c s IH]; [by destruct t|]. rewrite str_app_cons. simpl. by rewrite IH. Qed.

Lemma str_app_inj_r s t u : s +:+ u = t +:+ u → s = t.
Proof.
  intros H. assert (Hl : String.length s = String.length t).
  { apply (f_equal String.length) in H. rewrite !str_app_length in H. lia. }
  by rewrite <-(str_take_app s u), <-(str_take_app t u), H, Hl.
Qed.

Lemma str_drop_add n m s : str_drop (n + m) s = str_drop m (str_drop n s).
Proof. revert s. induction n as [|n IH]; intros [|c s]; simpl; try done. by destruct m. Qed.

Lemma prefix_cons c p d s :
  String.prefix (String c p) (String d s) = if ascii_dec c d then String.prefix p s else false.
Proof. done. Qed.

Lemma prefix_app_iff p s : String.prefix p s = true ↔ ∃ t, s = p +:+ t.
Proof.
  revert s. induction p as [|c p IH]; intros s; simpl.
  - split; [by exists s|]. by destruct s.
  - destruct s as [|d s]; [split; [done|]; intros [t Ht]; done|].
    rewrite prefix_cons. destruct (ascii_dec c d) as [->|Hne].
    + rewrite IH. split; intros [t Ht]; exists t; [by rewrite Ht|].
      rewrite str_app_cons in Ht. by injection Ht.
    + split; [done|]. intros [t Ht]. rewrite str_app_cons in Ht. injection Ht as -> _. done.
Qed.

Lemma Index_unfold s sub :
  Index s sub = if String.prefix sub s then 0
                else match s with
                     | EmptyString => -1
                     | String _ s' => let i := Index s' sub in if i <? 0 then -1 else i + 1
                     end.
Proof. by destruct s. Qed.

(** A position found is one: the string decomposes there, and not before. *)
Lemma Index_found s sub :
  0 ≤ Index s sub →
  s = str_take (Z.to_nat (Index s sub)) s +:+ sub +:+
      str_drop (Z.to_nat (Index s sub) + String.length sub) s.
Proof.
  induction s as [|c s IH]; rewrite Index_unfold.
  - destruct (String.prefix sub "") eqn:E; [|simpl; lia].
    apply prefix_app_iff in E as [t Ht]. intros _. simpl. destruct sub; [by destruct t|done].
  - destruct (String.prefix sub (String c s)) eqn:E.
    + apply prefix_app_iff in E as [t ->]. intros _. simpl. by rewrite str_drop_app.
    + cbv zeta. destruct (Index s sub <? 0) eqn:Hi; [simpl; lia|]. intros _.
      replace (Z.to_nat (Index s sub + 1)) with (S (Z.to_nat (Index s sub))) by lia.
      simpl str_take. simpl str_drop. rewrite str_app_cons. f_equal. apply IH. lia.
Qed.

Lemma Cut_found s sep before after :
  Cut s sep = (before, after, true) → s = before +:+ sep +:+ after.
Proof.
  unfold Cut. destruct (Index s sep <? 0) eqn:Hi; [done|]. intros [= <- <-].
  apply Index_found. lia.
Qed.

Lemma Cut_not_found s sep before after :
  Cut s sep = (before, after, false) → before = s ∧ Index s sep < 0.
Proof. unfold Cut. destruct (Index s sep <? 0) eqn:Hi; [|done]. intros [= <- <-]. split; [done|lia]. Qed.

Lemma split_parts_step n s sep :
  split_parts (S (S n)) s sep =
    match Cut s sep with
    | (before, after, true) => before :: split_parts (S n) after sep
    | (_, _, false) => [s]
    end.
Proof. done. Qed.

Lemma split_parts_cons n s sep : split_parts (S n) s sep ≠ [].
Proof.
  destruct n; [done|]. rewrite split_parts_step. by destruct (Cut s sep) as [[? ?] []].
Qed.

(** Splitting loses nothing: joining the parts gives the string back. *)
Lemma split_parts_join n s sep : Join (split_parts (S n) s sep) sep = s.
Proof.
  revert s. induction n as [|n IH]; intros s; [done|]. rewrite split_parts_step.
  destruct (Cut s sep) as [[before after] []] eqn:E; [|done].
  apply Cut_found in E as ->. specialize (IH after).
  pose proof (split_parts_cons n after sep).
  destruct (split_parts (S n) after sep) as [|x l]; [done|].
  change (Join (before :: x :: l) sep) with (before +:+ sep +:+ Join (x :: l) sep).
  by rewrite IH.
Qed.

Lemma Split_Join s sep : Join (Split s sep) sep = s.
Proof. unfold Split. rewrite Nat.add_comm. apply split_parts_join. Qed.

Lemma prefix_char c d s : String.prefix (String c EmptyString) (String d s) = bool_decide (c = d).
Proof.
  simpl. destruct (ascii_dec c d) as [->|Hn]; [by rewrite bool_decide_true; destruct s|].
  by rewrite bool_decide_false.
Qed.

Lemma Index_lacks c s : lacks c s = true → Index s (String c EmptyString) = -1.
Proof.
  unfold lacks. induction s as [|d s IH]; intros Hs; [done|].
  cbn [all_chars] in Hs. apply andb_true_iff in Hs as [Hd Hs].
  rewrite Index_unfold, prefix_char, bool_decide_false, IH; [done|done|].
  intros ->. by rewrite bool_decide_true in Hd.
Qed.

(** The first occurrence of a character is where a text without it ends. *)
Lemma Index_first c s t :
  lacks c s = true →
  Index (s +:+ String c EmptyString +:+ t) (String c EmptyString) = Z.of_nat (String.length s).
Proof.
  unfold lacks. induction s as [|d s IH]; intros Hs.
  - rewrite str_app_nil, str_app_cons, Index_unfold, prefix_char. by rewrite bool_decide_true.
  - cbn [all_chars] in Hs. apply andb_true_iff in Hs as [Hd Hs].
    rewrite str_app_cons, Index_unfold, prefix_char, bool_decide_false, IH; [|done|].
    + cbv zeta. destruct (Z.ltb_spec (Z.of_nat (String.length s)) 0); [lia|].
      cbn [String.length]. lia.
    + intros ->. by rewrite bool_decide_true in Hd.
Qed.

Lemma Cut_lacks c s t :
  lacks c s = true → Cut (s +:+ String c EmptyString +:+ t) (String c EmptyString) = (s, t, true).
Proof.
  intros Hs. unfold Cut. rewrite (Index_first c s t Hs). destruct (Z.ltb_spec (Z.of_nat (String.length s)) 0); [lia|].
  rewrite Nat2Z.id, str_take_app, str_drop_add, str_drop_app. done.
Qed.

(** Joined parts without the separator are split again. *)
Lemma split_parts_of_Join c n l :
  l ≠ [] → Forall (λ s, lacks c s = true) l → (length l < n)%nat →
  split_parts n (Join l (String c EmptyString)) (String c EmptyString) = l.
Proof.
  intros Hne Hl. revert n. induction Hl as [|s l Hs Hl IH]; intros n Hn; [done|].
  destruct n as [|[|n]]; simpl in Hn; [lia..|]. rewrite split_parts_step.
  destruct l as [|s' l].
  - cbn [Join]. unfold Cut. by rewrite Index_lacks.
  - change (Join (s :: s' :: l) (String c EmptyString)) with
      (s +:+ String c EmptyString +:+ Join (s' :: l) (String c EmptyString)).
    rewrite Cut_lacks by done. f_equal. apply IH; [done|simpl in *; lia].
Qed.

Lemma Join_length c l : (length l <= String.length (Join l (String c EmptyString)) + 1)%nat.
Proof.
  induction l as [|s [|s' l] IH]; [simpl; lia..|].
  change (Join (s :: s' :: l) (String c EmptyString)) with
    (s +:+ String c EmptyString +:+ Join (s' :: l) (String c EmptyString)).
  rewrite !str_app_length. cbn [String.length length] in *. lia.
Qed.

Lemma Split_of_Join c l :
  l ≠ [] → Forall (λ s, lacks c s = true) l →
  Split (Join l (String c EmptyString)) (String c EmptyString) = l.
Proof.
  intros Hne Hl. unfold Split. apply split_parts_of_Join; [done..|].
  pose proof (Join_length c l). lia.
Qed.

(** ** Bytes *)

Lemma string_of_bytes_of s : string_of_bytes (bytes_of_string s) = s.
Proof.
  induction s as [|c s IH]; simpl; [done|]. rewrite IH. unfold code.
  by rewrite Nat2Z.id, ascii_nat_embedding.
Qed.

Lemma bytes_of_app s t : bytes_of_string (s +:+ t) = bytes_of_string s ++ bytes_of_string t.
Proof. induction s as [|c s IH]; [done|]. rewrite str_app_cons. simpl. by rewrite IH. Qed.

Lemma string_of_app a b : string_of_bytes (a ++ b) = string_of_bytes a +:+ string_of_bytes b.
Proof. induction a as [|c a IH]; [done|]. simpl. rewrite IH. done. Qed.

Lemma code_inj c d : code c = code d → c = d.
Proof.
  unfold code. intros H%Nat2Z.inj. rewrite <- (ascii_nat_embedding c), H. apply ascii_nat_embedding.
Qed.

Lemma bytes_lack c s : lacks c s = true → code c ∉ bytes_of_string s.
Proof.
  induction s as [|d s IH]; simpl; intros H; [by intros ?%elem_of_nil|].
  apply andb_true_iff in H as [Hd Hs]. apply negb_true_iff, bool_decide_eq_false in Hd.
  intros [Heq|Hin]%elem_of_cons; [by apply code_inj in Heq|by apply IH].
Qed.

Lemma bytes_of_length s : length (bytes_of_string s) = String.length s.
Proof. induction s; simpl; congruence. Qed.
