(* ===== verification/Interfaces.v ===== *)
(** * Interfaces to code outside the sources

    The third-party packages the sources call, as classes of operations with the
    laws their documentation states, and a concrete instance of each:

    - [RangeOrder]: the unspecified order of Go's [range] over a map;
    - [EbpfMap]: a BPF map (github.com/cilium/ebpf);
    - [ExpiringCache]: the expiring cache (k8s.io/apimachinery/pkg/util/cache);
    - [ConcurrentMap]: the concurrent map (github.com/orcaman/concurrent-map);
    - [LruCache]: the bounded cache (github.com/hashicorp/golang-lru);
    - [MemoryReader]: reads of another process' memory (the interface memoryReader
      of ztunnel_identity_decode.go, over /proc/<pid>/mem).

    Each container has a [view], the finite map of its contents, and its laws
    state what an operation does to the view. *)

From stdpp Require Import base gmap list strings.
From Stdlib Require Import ZArith Lia.
From S2P Require Import Prelude.

(** ** [range] over a map *)

Class RangeOrder := {
  range {K V} `{Countable K} : gmap K V → list (K * V);
  range_perm {K V} `{Countable K} (m : gmap K V) : range m ≡ₚ map_to_list m
}.

Definition keys_order : RangeOrder :=
  {| range K V _ _ m := map_to_list m; range_perm K V _ _ m := reflexivity _ |}.

(** ** BPF maps *)

Inductive ebpf_error : Type := ErrKeyNotExist | ErrOther.

Class EbpfMap (K V M : Type) `{Countable K} := {
  em_view : M → gmap K V;
  em_Lookup : K → M → ebpf_error + V;
  em_Update : K → V → M → option ebpf_error * M;
  em_Delete : K → M → option ebpf_error * M;
  em_Iterate : M → list (K * V);
  em_Lookup_spec k m :
    match em_Lookup k m with
    | inr v => em_view m !! k = Some v
    | inl ErrKeyNotExist => em_view m !! k = None
    | inl ErrOther => True
    end;
  em_Update_spec k v m :
    em_view (snd (em_Update k v m)) =
      match fst (em_Update k v m) with
      | None => <[k := v]> (em_view m)
      | Some _ => em_view m
      end;
  em_Delete_spec k m :
    em_view (snd (em_Delete k m)) =
      match fst (em_Delete k m) with
      | None => delete k (em_view m)
      | Some _ => em_view m
      end;
  em_Delete_missing k m : fst (em_Delete k m) = Some ErrKeyNotExist → em_view m !! k = None;
  em_Iterate_spec m : em_Iterate m ≡ₚ map_to_list (em_view m)
}.

(** A BPF hash map with a limit on its entries. *)
Record bpf_hash (K V : Type) `{Countable K} : Type := MkBpfHash {
  bh_entries : gmap K V;
  bh_max : nat
}.
Arguments MkBpfHash {K V _ _} bh_entries bh_max.
Arguments bh_entries {K V _ _} b.
Arguments bh_max {K V _ _} b.

Global Program Instance bpf_hash_map (K V : Type) `{Countable K} : EbpfMap K V (bpf_hash K V) := {|
  em_view m := bh_entries m;
  em_Lookup k m := match bh_entries m !! k with Some v => inr v | None => inl ErrKeyNotExist end;
  em_Update k v m :=
    if decide (is_Some (bh_entries m !! k) ∨ (size (bh_entries m) < bh_max m)%nat)
    then (None, MkBpfHash (<[k := v]> (bh_entries m)) (bh_max m))
    else (Some ErrOther, m);
  em_Delete k m :=
    match bh_entries m !! k with
    | Some _ => (None, MkBpfHash (delete k (bh_entries m)) (bh_max m))
    | None => (Some ErrKeyNotExist, m)
    end;
  em_Iterate m := map_to_list (bh_entries m)
|}.
Next Obligation. intros K V ? ? k m. simpl. by destruct (bh_entries m !! k). Qed.
Next Obligation. intros K V ? ? k v m. simpl. by case_decide. Qed.
Next Obligation. intros K V ? ? k m. simpl. by destruct (bh_entries m !! k). Qed.
Next Obligation. intros K V ? ? k m. simpl. by destruct (bh_entries m !! k). Qed.
Next Obligation. done. Qed.

(** The same without a limit. *)
Record bpf_room (K V : Type) `{Countable K} : Type := MkBpfRoom { br_entries : gmap K V }.
Arguments MkBpfRoom {K V _ _} br_entries.
Arguments br_entries {K V _ _} b.

Global Program Instance bpf_room_map (K V : Type) `{Countable K} : EbpfMap K V (bpf_room K V) := {|
  em_view m := br_entries m;
  em_Lookup k m := match br_entries m !! k with Some v => inr v | None => inl ErrKeyNotExist end;
  em_Update k v m := (None, MkBpfRoom (<[k := v]> (br_entries m)));
  em_Delete k m :=
    match br_entries m !! k with
    | Some _ => (None, MkBpfRoom (delete k (br_entries m)))
    | None => (Some ErrKeyNotExist, m)
    end;
  em_Iterate m := map_to_list (br_entries m)
|}.
Next Obligation. intros K V ? ? k m. simpl. by destruct (br_entries m !! k). Qed.
Next Obligation. done. Qed.
Next Obligation. intros K V ? ? k m. simpl. by destruct (br_entries m !! k). Qed.
Next Obligation. intros K V ? ? k m. simpl. by destruct (br_entries m !! k). Qed.
Next Obligation. done. Qed.

(** ** Expiring caches

    Times are nanoseconds of the clock the cache reads. *)

Class ExpiringCache (K V C : Type) := {
  ec_empty : C;
  ec_Set : Z → K → V → Z → C → C;
  ec_Get : Z → K → C → option V;
  ec_Delete : K → C → C;
  ec_Len : C → Z;
  ec_Get_empty t k : ec_Get t k ec_empty = None;
  ec_Get_Set t now k v ttl c :
    now ≤ t → ec_Get t k (ec_Set now k v ttl c) = if decide (t < now + ttl) then Some v else None;
  ec_Get_Set_ne t now k k' v ttl c : k ≠ k' → ec_Get t k (ec_Set now k' v ttl c) = ec_Get t k c;
  ec_Get_Delete t k c : ec_Get t k (ec_Delete k c) = None;
  ec_Get_Delete_ne t k k' c : k ≠ k' → ec_Get t k (ec_Delete k' c) = ec_Get t k c;
  (** [Len] counts the stored entries, so it is positive while one can be read. *)
  ec_Len_pos t k c : is_Some (ec_Get t k c) → 0 < ec_Len c;
  ec_Len_nonneg c : 0 ≤ ec_Len c
}.

(** The instance: the value and its expiry by key. *)
Notation expiring K V := (gmap K (V * Z)) (only parsing).

Global Program Instance expiring_cache (K V : Type) `{Countable K} :
    ExpiringCache K V (expiring K V) := {|
  ec_empty := ∅;
  ec_Set now k v ttl c := <[k := (v, now + ttl)]> c;
  ec_Get t k c := '(v, expiry) ← c !! k; if decide (t < expiry) then Some v else None;
  ec_Delete k c := delete k c;
  ec_Len c := Z.of_nat (size c)
|}.
Next Obligation. done. Qed.
Next Obligation. intros. cbn beta. by rewrite lookup_insert_eq. Qed.
Next Obligation. intros. cbn beta. by rewrite lookup_insert_ne. Qed.
Next Obligation. intros. cbn beta. by rewrite lookup_delete_eq. Qed.
Next Obligation. intros. cbn beta. by rewrite lookup_delete_ne. Qed.
Next Obligation.
  intros K V ? ? t k c [v Hv]. simpl in *. destruct (c !! k) as [[v' e]|] eqn:E; [|done].
  assert (size c ≠ 0%nat); [|lia]. intros Hz%map_size_empty_inv. by rewrite Hz in E.
Qed.
Next Obligation. intros. simpl. lia. Qed.

(** ** Concurrent maps *)

Class ConcurrentMap (V M : Type) := {
  cm_view : M → gmap string V;
  cm_New : M;
  cm_Get : string → M → option V;
  cm_Set : string → V → M → M;
  cm_Remove : string → M → M;
  (** The entries in the order [IterCb] visits them. *)
  cm_Items : M → list (string * V);
  cm_New_spec : cm_view cm_New = ∅;
  cm_Get_spec k m : cm_Get k m = cm_view m !! k;
  cm_Set_spec k v m : cm_view (cm_Set k v m) = <[k := v]> (cm_view m);
  cm_Remove_spec k m : cm_view (cm_Remove k m) = delete k (cm_view m);
  cm_Items_spec m : cm_Items m ≡ₚ map_to_list (cm_view m)
}.

Notation shared_map V := (gmap string V) (only parsing).

Global Program Instance shared_concurrent_map (V : Type) : ConcurrentMap V (shared_map V) := {|
  cm_view m := m;
  cm_New := ∅;
  cm_Get k m := m !! k;
  cm_Set k v m := <[k := v]> m;
  cm_Remove k m := delete k m;
  cm_Items m := map_to_list m
|}.
Solve Obligations with done.

(** ** Bounded caches *)

Class LruCache (K V C : Type) `{Countable K} := {
  lru_view : C → gmap K V;
  (** [New] fails on a size that is not positive. *)
  lru_New : Z → option C;
  lru_Get : K → C → option V * C;
  lru_Add : K → V → C → C;
  lru_New_spec n :
    match lru_New n with
    | Some c => 0 < n ∧ lru_view c = ∅
    | None => n ≤ 0
    end;
  lru_Get_fst k c : fst (lru_Get k c) = lru_view c !! k;
  lru_Get_view k c : lru_view (snd (lru_Get k c)) = lru_view c;
  lru_Add_eq k v c : lru_view (lru_Add k v c) !! k = Some v;
  (** An addition may evict entries, but adds no other. *)
  lru_Add_sub k v c : lru_view (lru_Add k v c) ⊆ <[k := v]> (lru_view c)
}.

(** The instance: the entries by recency, one more than [lru_more] at most. *)
Record lru_list (K V : Type) : Type := MkLruList {
  lru_more : nat;
  lru_entries : list (K * V)
}.
Arguments MkLruList {K V} lru_more lru_entries.
Arguments lru_more {K V} l.
Arguments lru_entries {K V} l.

Section lru_list.
Context {K V : Type} `{Countable K}.

Definition lru_forget (k : K) (l : list (K * V)) : list (K * V) := filter (λ e, fst e ≠ k) l.

Lemma lru_forget_lookup (l : list (K * V)) k k' :
  k' ≠ k → (list_to_map (lru_forget k l) : gmap K V) !! k' = (list_to_map l : gmap K V) !! k'.
Proof.
  intros Hne. unfold lru_forget. induction l as [|[j v] l IH]; [done|].
  rewrite filter_cons. simpl. case_decide as Hj; simpl.
  - destruct (decide (j = k')) as [->|]; [by rewrite !lookup_insert_eq|].
    by rewrite !lookup_insert_ne by done.
  - subst j. by rewrite lookup_insert_ne by done.
Qed.

Lemma lru_take_sub n (l : list (K * V)) : (list_to_map (take n l) : gmap K V) ⊆ list_to_map l.
Proof.
  revert n. induction l as [|[k v] l IH]; intros [|n]; simpl; try apply map_empty_subseteq.
  by apply insert_mono.
Qed.

Lemma lru_front k v (l : list (K * V)) :
  (list_to_map ((k, v) :: lru_forget k l) : gmap K V) = <[k := v]> (list_to_map l).
Proof.
  apply map_eq. intros k'. simpl. destruct (decide (k' = k)) as [->|Hne].
  - by rewrite !lookup_insert_eq.
  - rewrite !lookup_insert_ne by done. by apply lru_forget_lookup.
Qed.

Global Program Instance lru_list_cache : LruCache K V (lru_list K V) := {|
  lru_view c := list_to_map (lru_entries c);
  lru_New n := if decide (0 < n) then Some (MkLruList (Z.to_nat (n - 1)) []) else None;
  lru_Get k c :=
    match (list_to_map (lru_entries c) : gmap K V) !! k with
    | Some v => (Some v, MkLruList (lru_more c) ((k, v) :: lru_forget k (lru_entries c)))
    | None => (None, c)
    end;
  lru_Add k v c :=
    MkLruList (lru_more c) (take (S (lru_more c)) ((k, v) :: lru_forget k (lru_entries c)))
|}.
Next Obligation. intros n. simpl. case_decide; [done|lia]. Qed.
Next Obligation. intros k c. simpl. by destruct (list_to_map _ !! k) eqn:E. Qed.
Next Obligation.
  intros k c. cbn beta. destruct ((list_to_map (lru_entries c) : gmap K V) !! k) as [v|] eqn:E;
    [|done]. cbn [snd lru_entries]. rewrite lru_front. by apply insert_id.
Qed.
Next Obligation. intros k v c. simpl. apply lookup_insert_eq. Qed.
Next Obligation.
  intros k v c. cbn [lru_entries]. etransitivity; [apply lru_take_sub|]. by rewrite lru_front.
Qed.
End lru_list.

(** ** Memory of another process *)

Definition is_byte (b : Z) : Prop := 0 ≤ b < 256.

Class MemoryReader (R : Type) := {
  (** [ReadAt n addr]: [n] bytes from [addr], or an error. *)
  ReadAt : nat → Z → R → option (list Z);
  ReadAt_length n a r bs : ReadAt n a r = Some bs → length bs = n;
  ReadAt_bytes n a r bs : ReadAt n a r = Some bs → Forall is_byte bs;
  (** A part of what was read reads the same. *)
  ReadAt_part n a r bs i k :
    ReadAt n a r = Some bs → (i + k ≤ n)%nat →
    ReadAt k (a + Z.of_nat i) r = Some (take k (drop i bs))
}.

(** The instance: mapped addresses with their bytes. *)
Notation mapped_memory := (gmap Z Z) (only parsing).

Definition read_mapped (n : nat) (a : Z) (m : gmap Z Z) : option (list Z) :=
  mapM (λ i, (λ b, b mod 256) <$> m !! (a + Z.of_nat i)) (seq 0 n).

Global Program Instance mapped_reader : MemoryReader (gmap Z Z) := {| ReadAt := read_mapped |}.
Next Obligation.
  intros n a m bs Hm. apply mapM_Some_1, Forall2_length in Hm. by rewrite <-Hm, length_seq.
Qed.
Next Obligation.
  intros n a m bs Hm. apply mapM_Some_1 in Hm. apply Forall_lookup. intros i b Hb.
  destruct (Forall2_lookup_r _ _ _ _ _ Hm Hb) as (j & _ & Hj).
  apply fmap_Some in Hj as (x & _ & ->). unfold is_byte. apply Z.mod_pos_bound. lia.
Qed.
Next Obligation.
  intros n a m bs i k Hm Hk. apply mapM_Some_1 in Hm. apply mapM_Some_2.
  apply Forall2_same_length_lookup. split.
  - apply Forall2_length in Hm. rewrite length_seq in *. rewrite length_take, length_drop. lia.
  - intros j x b Hx Hb. apply lookup_seq in Hx as [-> Hj].
    rewrite lookup_take_lt, lookup_drop in Hb by done.
    destruct (Forall2_lookup_r _ _ _ _ _ Hm Hb) as (y & Hy & Hyb).
    apply lookup_seq in Hy as [-> _]. rewrite <-Hyb. do 2 f_equal. lia.
Qed.
