(* ===== verification/Boot.v ===== *)
(** * Module boot: dependency resolution, start-up and shutdown

    Models [ModuleStarter] of src/pkg/boot/module.go: the modules of the
    configuration are ordered so that every module follows the modules it
    requires ([ResolveDependency], [appendToResolve]), started in that order
    and shut down in the reverse order ([Run], [shutdownModules]).

    [appendToResolve] is recursive on the dependency graph; the fuel that is
    passed, one more than the number of declared modules, is proved enough. *)

From stdpp Require Import base gmap list strings.
From Stdlib Require Import ZArith Lia.
From S2P Require Import Prelude.

(** ** Data *)

(** A [module.Module]: its name, whether its configuration is active, the
    names it requires and whether its [Start] returns an error. *)
Record Module : Type := MkModule {
  Name : string;
  IsActive : bool;
  RequiredModules : list string;
  StartFails : bool
}.

Definition loggerModuleName : string := "logger".

Record ModuleStarter : Type := MkStarter {
  activeModules : list Module;
  moduleMap : gmap string Module;
  visited : gset string;
  orderedModules : list Module;
  startedModules : list Module
}.

Inductive boot_error : Type :=
| RequiredNotDeclared (modName required : string)
| CyclicDependency (modName : string) (parent : option string)
| NoModuleActive
| StartFailure (modName : string)
| OutOfFuel.

(** What [Run] makes the modules do, in order. *)
Inductive boot_event : Type :=
| EvStart (modName : string)
| EvNotify (modName : string)
| EvCallback
| EvShutdown (modName : string).

(** ** Operations *)

Definition NewModuleStarter (modules : list Module) : ModuleStarter :=
  MkStarter (filter (λ m, IsActive m = true) modules)
    (foldl (λ mm m, <[Name m := m]> mm) ∅ modules) ∅ [] [].

Definition mark_visited (n : string) (m : ModuleStarter) : ModuleStarter :=
  MkStarter (activeModules m) (moduleMap m) ({[n]} ∪ visited m) (orderedModules m)
    (startedModules m).

Definition append_ordered (md : Module) (m : ModuleStarter) : ModuleStarter :=
  MkStarter (activeModules m) (moduleMap m) (visited m) (orderedModules m ++ [md])
    (startedModules m).

(** A missing entry of [moduleMap] is a nil [Module]: calling [Name] on it panics. *)
Fixpoint appendToResolve (fuel : nat) (m : ModuleStarter) (md parentModule : option Module)
  : res boot_error ModuleStarter :=
  match fuel with
  | O => Err OutOfFuel
  | S fuel =>
    match md with
    | None => Panic
    | Some md =>
      if decide (Name md ∈ visited m) then
        if decide (Name md ∈ Name <$> orderedModules m) then Ok m
        else Err (CyclicDependency (Name md) (Name <$> parentModule))
      else
        m' ← for_range (λ m r, appendToResolve fuel m (moduleMap m !! r) (Some md))
               (mark_visited (Name md) m) (RequiredModules md);
        Ok (append_ordered md m')
    end
  end.

Definition logger_first (x _ : Module) : bool := bool_decide (Name x = loggerModuleName).

Definition checkRequired (m : ModuleStarter) (md : Module) : res boot_error ModuleStarter :=
  for_range (λ m r, match moduleMap m !! r with
                    | None => Err (RequiredNotDeclared (Name md) r)
                    | Some _ => Ok m
                    end) m (RequiredModules md).

(** A call from the loop over the active modules, without parent. *)
Definition resolveActive (m : ModuleStarter) (md : Module) : res boot_error ModuleStarter :=
  appendToResolve (S (size (moduleMap m))) m (Some md) None.
Arguments resolveActive : simpl never.

Definition ResolveDependency (m : ModuleStarter) : res boot_error ModuleStarter :=
  let m := MkStarter (sort_Slice logger_first (activeModules m)) (moduleMap m) (visited m)
             (orderedModules m) (startedModules m) in
  m ← for_range checkRequired m (activeModules m);
  for_range resolveActive m (activeModules m).

Definition append_started (md : Module) (m : ModuleStarter) : ModuleStarter :=
  MkStarter (activeModules m) (moduleMap m) (visited m) (orderedModules m)
    (startedModules m ++ [md]).

(** The deferred [shutdownModules]: a failing shutdown is only logged. *)
Definition shutdownModules (m : ModuleStarter) : list boot_event :=
  EvShutdown <$> (Name <$> reverse (startedModules m)).

(** The start loop of [Run]: the modules it started, the events, and the
    module whose [Start] failed. *)
Fixpoint startLoop (m : ModuleStarter) (ms : list Module)
  : ModuleStarter * list boot_event * option string :=
  match ms with
  | [] => (m, [], None)
  | md :: ms =>
    if StartFails md then (m, [EvStart (Name md)], Some (Name md))
    else let '(m', ev, e) := startLoop (append_started md m) ms in
         (m', EvStart (Name md) :: ev, e)
  end.

(** [Run] returns after a failed start, or after a signal, a cancelled context
    or a shutdown notification ends the wait; the deferred shutdown runs in
    every case once the start loop was entered.  [startUpSuccessCallback] says
    whether a callback was given. *)
Definition Run (startUpSuccessCallback : bool) (m : ModuleStarter) : list boot_event * res boot_error unit :=
  match ResolveDependency m with
  | Err e => ([], Err e)
  | Panic => ([], Panic)
  | Ok m =>
    match orderedModules m with
    | [] => ([], Err NoModuleActive)
    | ms =>
      let '(m', ev, failed) := startLoop m ms in
      match failed with
      | Some n => (ev ++ shutdownModules m', Err (StartFailure n))
      | None => (ev ++ (EvNotify <$> (Name <$> startedModules m')) ++
                 (if startUpSuccessCallback then [EvCallback] else []) ++ shutdownModules m', Ok tt)
      end
    end
  end.

(** ** Specification *)

(** A start order: no name twice, and every requirement started before. *)
Inductive start_order : list Module → Prop :=
| so_nil : start_order []
| so_snoc ms md :
    start_order ms →
    Name md ∉ Name <$> ms →
    (∀ r, r ∈ RequiredModules md → r ∈ Name <$> ms) →
    start_order (ms ++ [md]).

(** [depends mm a b]: the declared module [a] requires [b]. *)
Definition depends (mm : gmap string Module) (a b : string) : Prop :=
  ∃ md, mm !! a = Some md ∧ b ∈ RequiredModules md.

(** Every requirement of a declared module is declared. *)
Definition closed (mm : gmap string Module) : Prop :=
  ∀ a b, depends mm a b → is_Some (mm !! b).

(** ** Lemmas *)

Definition names (m : ModuleStarter) : list string := Name <$> orderedModules m.

(** Modules whose resolution has begun and not ended. *)
Definition pending (m : ModuleStarter) (n : string) : Prop := n ∈ visited m ∧ n ∉ names m.

Definition map_named (mm : gmap string Module) : Prop := ∀ n md, mm !! n = Some md → Name md = n.

Record boot_inv (m : ModuleStarter) : Prop := {
  inv_order : start_order (orderedModules m);
  inv_sub : ∀ n, n ∈ names m → n ∈ visited m;
  inv_declared : ∀ md, md ∈ orderedModules m → moduleMap m !! Name md = Some md
}.

(** What a successful resolution of one module leaves. *)
Record resolved (m m' : ModuleStarter) : Prop := {
  rs_map : moduleMap m' = moduleMap m;
  rs_active : activeModules m' = activeModules m;
  rs_started : startedModules m' = startedModules m;
  rs_pending : ∀ n, pending m' n ↔ pending m n;
  rs_visited : visited m ⊆ visited m';
  rs_prefix : orderedModules m `prefix_of` orderedModules m'
}.

(** The three ways a resolution step ends: resolved, with [done] holding of the
    new state; a dependency cycle through the module the error names; or the
    dereference of a nil module, when some requirement is not declared. *)
Definition outcome (m : ModuleStarter) (done : ModuleStarter → Prop)
    (r : res boot_error ModuleStarter) : Prop :=
  match r with
  | Ok m' => boot_inv m' ∧ resolved m m' ∧ done m'
  | Err (CyclicDependency n _) => tc (depends (moduleMap m)) n n
  | Err _ => False
  | Panic => ¬ closed (moduleMap m)
  end.

(** The modules whose resolution has not begun. *)
Definition unvisited (m : ModuleStarter) : nat := size (dom (moduleMap m) ∖ visited m).

(** The premises under which [x] is resolved in state [m]. *)
Record ready (fuel : nat) (m : ModuleStarter) (x : string) : Prop := {
  rd_inv : boot_inv m;
  rd_named : map_named (moduleMap m);
  rd_fuel : (unvisited m < fuel)%nat;
  rd_path : ∀ n, pending m n → tc (depends (moduleMap m)) n x
}.

Global Instance resolved_preorder : PreOrder resolved.
Proof.
  split.
  - intros m. by split.
  - intros m1 m2 m3 [? ? ? Hp ? ?] [? ? ? Hq ? ?].
    split; try congruence; [|set_solver|by etrans]. intros n. by rewrite Hq, Hp.
Qed.

Lemma resolved_names m m' n : resolved m m' → n ∈ names m → n ∈ names m'.
Proof.
  intros [_ _ _ _ _ [k Hk]]. unfold names. rewrite Hk, fmap_app. set_solver.
Qed.

Lemma resolved_unvisited m m' : resolved m m' → (unvisited m' ≤ unvisited m)%nat.
Proof.
  intros Hr. unfold unvisited. rewrite (rs_map _ _ Hr).
  apply subseteq_size. pose proof (rs_visited _ _ Hr). set_solver.
Qed.

Lemma resolved_ready fuel m m' x : boot_inv m' → resolved m m' → ready fuel m x → ready fuel m' x.
Proof.
  intros Hi Hr [_ Hn Hf Hp]. split; [done| | |].
  - by rewrite (rs_map _ _ Hr).
  - pose proof (resolved_unvisited _ _ Hr). lia.
  - intros n Hpn. rewrite (rs_map _ _ Hr). by apply Hp, (rs_pending _ _ Hr).
Qed.

(** A loop whose every step has an [outcome] has one, with all elements done. *)
Lemma for_range_outcome {A} (f : ModuleStarter → A → res boot_error ModuleStarter)
    (key : A → string) (P : ModuleStarter → A → Prop) l m :
  (∀ m m' x, boot_inv m' → resolved m m' → P m x → P m' x) →
  (∀ m x, x ∈ l → P m x → outcome m (λ m', key x ∈ names m') (f m x)) →
  boot_inv m → (∀ x, x ∈ l → P m x) →
  outcome m (λ m', ∀ x, x ∈ l → key x ∈ names m') (for_range f m l).
Proof.
  intros HP Hf. revert m. induction l as [|x l IH]; intros m Hm HPm; simpl.
  { split_and!; [done..|set_solver]. }
  pose proof (Hf m x ltac:(left) (HPm x ltac:(left))) as Hx.
  destruct (f m x) as [m1|e|]; simpl in *; [|done|done].
  destruct Hx as (Hm1 & Hr1 & Hd1).
  assert (outcome m1 (λ m', ∀ x, x ∈ l → key x ∈ names m') (for_range f m1 l)) as Hl.
  { apply IH; [|done|].
    - intros m2 y Hy. apply Hf. by right.
    - intros y Hy. eapply HP; [done|exact Hr1|]. apply HPm. by right. }
  destruct (for_range f m1 l) as [m2|e|]; simpl in *.
  - destruct Hl as (? & Hr2 & Hd2). split_and!; [done|by etrans|].
    intros y [->|Hy]%elem_of_cons; [by eapply resolved_names|by apply Hd2].
  - by rewrite <- (rs_map _ _ Hr1).
  - by rewrite <- (rs_map _ _ Hr1).
Qed.

Lemma append_resolved m m' md :
  resolved (mark_visited (Name md) m) m' → Name md ∉ visited m →
  (∀ n, n ∈ names m → n ∈ visited m) → resolved m (append_ordered md m').
Proof.
  intros Hr Hv Hsub. destruct Hr as [? ? ? Hp Hvis [k Hk]]. split; simpl in *; try done.
  - intros n. specialize (Hp n). specialize (Hsub n). unfold pending, names in *. simpl in *.
    rewrite fmap_app, elem_of_app. simpl. set_solver.
  - set_solver.
  - exists (k ++ [md]). rewrite Hk. by rewrite (assoc_L (++)).
Qed.

Lemma append_inv m m' md :
  boot_inv m → boot_inv m' → resolved (mark_visited (Name md) m) m' →
  moduleMap m !! Name md = Some md →
  Name md ∉ visited m → (∀ r, r ∈ RequiredModules md → r ∈ names m') →
  boot_inv (append_ordered md m').
Proof.
  intros Hi Hi' Hr Hmd Hv Hreq.
  assert (Hni : Name md ∉ names m').
  { assert (pending m' (Name md)) as [_ ?]; [|done].
    apply (rs_pending _ _ Hr). split; [simpl; set_solver|].
    intros Hn. by apply Hv, (inv_sub _ Hi). }
  split; simpl.
  - constructor; [apply Hi'|done|done].
  - intros n. unfold names. simpl. rewrite fmap_app, elem_of_app.
    intros [Hn|Hn]; [by apply (inv_sub _ Hi')|].
    apply (rs_visited _ _ Hr). simpl in *. set_solver.
  - intros x [Hx|Hx%list_elem_of_singleton]%elem_of_app; [by apply (inv_declared _ Hi')|].
    subst x. by rewrite (rs_map _ _ Hr).
Qed.

(** Marking [md] keeps the invariant. *)
Lemma mark_inv m md : boot_inv m → boot_inv (mark_visited (Name md) m).
Proof.
  intros [? Hs ?]. split; [done| |done]. intros n Hin. apply Hs in Hin. simpl. set_solver.
Qed.

(** Marking [md] makes its requirements ready with one unit of fuel less. *)
Lemma mark_ready fuel m md r :
  ready (S fuel) m (Name md) → moduleMap m !! Name md = Some md → Name md ∉ visited m →
  r ∈ RequiredModules md → ready fuel (mark_visited (Name md) m) r.
Proof.
  intros [Hi Hn Hf Hp] Hmd Hv Hr.
  assert (Hd : depends (moduleMap m) (Name md) r) by (by exists md).
  split; [|done| |].
  - by apply mark_inv.
  - unfold unvisited in *. simpl.
    assert (dom (moduleMap m) ∖ ({[Name md]} ∪ visited m) ⊂ dom (moduleMap m) ∖ visited m) as Hs.
    { apply elem_of_dom_2 in Hmd. split; [set_solver|]. intros H. set_solver. }
    apply subset_size in Hs. lia.
  - intros n [Hnv Hnn]. simpl in *. destruct (decide (n = Name md)) as [->|Hne].
    + by apply tc_once.
    + eapply tc_r; [|exact Hd]. apply Hp. split; [set_solver|done].
Qed.

Lemma append_outcome fuel m md parent :
  ready fuel m (Name md) → moduleMap m !! Name md = Some md →
  outcome m (λ m', Name md ∈ names m') (appendToResolve fuel m (Some md) parent).
Proof.
  revert m md parent. induction fuel as [|fuel IH]; intros m md parent Hrd Hmd; simpl.
  { pose proof (rd_fuel _ _ _ Hrd). lia. }
  case_decide as Hv.
  { case_decide as Ho; simpl; [split_and!; [apply Hrd|done..]|].
    by apply (rd_path _ _ _ Hrd). }
  set (m0 := mark_visited (Name md) m).
  assert (Hloop : outcome m0 (λ m', ∀ r, r ∈ RequiredModules md → r ∈ names m')
    (for_range (λ m r, appendToResolve fuel m (moduleMap m !! r) (Some md)) m0
       (RequiredModules md))).
  { apply (for_range_outcome _ id (λ m' r, ready fuel m' r ∧ moduleMap m' = moduleMap m)).
    - intros m1 m2 r Hi Hr [H1 H2]. split; [by eapply resolved_ready|].
      by rewrite (rs_map _ _ Hr).
    - intros m1 r Hr [H1 H2]. destruct (moduleMap m1 !! r) as [rd|] eqn:Hlk.
      + pose proof (rd_named _ _ _ H1 _ _ Hlk) as <-. by apply IH.
      + destruct fuel; [pose proof (rd_fuel _ _ _ H1); lia|]. simpl. intros Hcl.
        destruct (Hcl (Name md) r) as [? ?]; [|congruence]. exists md. by rewrite H2.
    - apply mark_inv, Hrd.
    - intros r Hr. split; [|done]. by apply mark_ready. }
  destruct (for_range _ m0 _) as [m1|e|]; simpl; [|done|done].
  destruct Hloop as (Hi1 & Hr1 & Hreq). split_and!.
  - eapply append_inv; [apply Hrd|done..].
  - apply append_resolved; [done|done|apply Hrd].
  - unfold names. simpl. rewrite fmap_app. set_solver.
Qed.

Lemma moduleMap_lookup modules n md :
  NoDup (Name <$> modules) →
  moduleMap (NewModuleStarter modules) !! n = Some md ↔ md ∈ modules ∧ Name md = n.
Proof.
  simpl. induction modules as [|x l IH] using rev_ind; intros Hnd; simpl.
  { rewrite lookup_empty. split; [done|]. intros [?%elem_of_nil _]. done. }
  rewrite fmap_app in Hnd. apply NoDup_app in Hnd as (Hl & Hx & _).
  rewrite foldl_app. simpl. rewrite elem_of_app, list_elem_of_singleton.
  destruct (decide (Name x = n)) as [<-|Hne].
  - rewrite lookup_insert_eq. split; [naive_solver|].
    intros [[Hin|<-] Hn]; [|done]. destruct (Hx (Name md)).
    + by apply list_elem_of_fmap_2.
    + simpl. rewrite Hn. set_solver.
  - rewrite lookup_insert_ne by done. rewrite IH by done. naive_solver.
Qed.

Lemma NewModuleStarter_inv modules :
  boot_inv (NewModuleStarter modules).
Proof. split; simpl; [constructor|set_solver..]. Qed.

(** [checkRequired] leaves the state alone and fails on an undeclared name. *)
Lemma checkRequired_spec m md :
  match checkRequired m md with
  | Ok m' => m' = m
  | Err (RequiredNotDeclared a b) =>
      a = Name md ∧ b ∈ RequiredModules md ∧ moduleMap m !! b = None
  | _ => False
  end.
Proof.
  unfold checkRequired. induction (RequiredModules md) as [|r l IH]; simpl; [done|].
  destruct (moduleMap m !! r) as [rd|] eqn:Hr; simpl; [|set_solver].
  destruct (for_range _ m l) as [m'|[]|]; set_solver.
Qed.

Lemma check_all_spec m l :
  match for_range checkRequired m l with
  | Ok m' => m' = m
  | Err (RequiredNotDeclared a b) =>
      ∃ md, md ∈ l ∧ Name md = a ∧ b ∈ RequiredModules md ∧ moduleMap m !! b = None
  | _ => False
  end.
Proof.
  induction l as [|x l IH]; simpl; [done|].
  pose proof (checkRequired_spec m x) as Hx.
  destruct (checkRequired m x) as [m1|[]|]; simpl in *; try done.
  - subst m1. destruct (for_range _ m l) as [m'|[]|]; set_solver.
  - exists x. set_solver.
Qed.

Lemma start_order_NoDup ms : start_order ms → NoDup (Name <$> ms).
Proof.
  induction 1 as [|ms md _ IH Hn _]; [constructor|].
  rewrite fmap_app. apply NoDup_app. split_and!; [done| |apply NoDup_singleton].
  intros x Hx ->%list_elem_of_singleton. done.
Qed.

Lemma logger_first_last r x :
  Name x = loggerModuleName → last (ins_right logger_first x r) = Some x.
Proof.
  intros Hx. assert (Hl : ∀ y, logger_first x y = true) by (intros y; by apply bool_decide_eq_true).
  induction r as [|y r IH]; simpl; [done|]. rewrite Hl, last_cons. by rewrite IH.
Qed.

Lemma ins_right_keeps_logger r x y :
  last r = Some y → Name y = loggerModuleName →
  ∃ z, last (ins_right logger_first x r) = Some z ∧ Name z = loggerModuleName.
Proof.
  intros Hl Hy. destruct (decide (Name x = loggerModuleName)) as [Hx|Hx].
  { exists x. split; [by apply logger_first_last|done]. }
  exists y. split; [|done]. destruct r as [|z r]; [done|]. simpl.
  unfold logger_first. rewrite bool_decide_eq_false_2 by done. by rewrite last_cons_cons.
Qed.

(** The sort puts the logger module in front. *)
Lemma sort_logger_head l x :
  x ∈ l → Name x = loggerModuleName →
  ∃ y, head (sort_Slice logger_first l) = Some y ∧ Name y = loggerModuleName.
Proof.
  intros Hin Hx. unfold sort_Slice. setoid_rewrite head_reverse.
  induction l as [|z l IH] using rev_ind; [set_solver|].
  rewrite foldl_app. simpl. apply elem_of_app in Hin as [Hin|Hin%list_elem_of_singleton].
  - destruct IH as (y & Hy & Hn); [done|]. by eapply ins_right_keeps_logger.
  - subst z. exists x. split; [by apply logger_first_last|done].
Qed.

Lemma startLoop_spec m ms :
  let '(m', ev, failed) := startLoop m ms in
  ∃ up rest, ms = up ++ rest ∧ startedModules m' = startedModules m ++ up ∧
    Forall (λ md, StartFails md = false) up ∧
    match failed with
    | None => rest = [] ∧ ev = EvStart <$> (Name <$> up)
    | Some n => ∃ md, head rest = Some md ∧ StartFails md = true ∧ Name md = n ∧
                  ev = (EvStart <$> (Name <$> up)) ++ [EvStart n]
    end.
Proof.
  revert m. induction ms as [|md ms IH]; intros m; simpl.
  { exists [], []. split_and!; [done|by rewrite app_nil_r|constructor|done|done]. }
  destruct (StartFails md) eqn:Hf; simpl.
  { exists [], (md :: ms). split_and!; [done|by rewrite app_nil_r|constructor|by exists md]. }
  specialize (IH (append_started md m)).
  destruct (startLoop _ ms) as [[m' ev] failed].
  destruct IH as (up & rest & -> & Hst & Hup & Hev). exists (md :: up), rest.
  split_and!; [done| |by constructor|].
  - rewrite Hst. simpl. by rewrite <- (assoc_L (++)).
  - destruct failed as [n|].
    + destruct Hev as (x & ? & ? & ? & ->). by exists x.
    + by destruct Hev as [-> ->].
Qed.

(** Every outcome of [ResolveDependency] on a configuration. *)
Lemma resolve_cases modules :
  NoDup (Name <$> modules) →
  let mm := moduleMap (NewModuleStarter modules) in
  match ResolveDependency (NewModuleStarter modules) with
  | Ok m' => boot_inv m' ∧ resolved (MkStarter (sort_Slice logger_first
        (activeModules (NewModuleStarter modules))) mm ∅ [] []) m' ∧
      ∀ md, md ∈ modules → IsActive md = true → Name md ∈ names m'
  | Err (RequiredNotDeclared a b) =>
      ∃ md, md ∈ modules ∧ IsActive md = true ∧ Name md = a ∧ b ∈ RequiredModules md ∧
        mm !! b = None
  | Err (CyclicDependency n _) => tc (depends mm) n n
  | Err _ => False
  | Panic => ¬ closed mm
  end.
Proof.
  intros Hnd mm. unfold ResolveDependency. simpl.
  set (act := sort_Slice _ _). set (m0 := MkStarter act _ _ _ _).
  assert (Hact : ∀ md, md ∈ act ↔ md ∈ modules ∧ IsActive md = true).
  { intros md. unfold act. rewrite sort_Slice_perm, list_elem_of_filter. naive_solver. }
  pose proof (check_all_spec m0 act) as Hck.
  destruct (for_range checkRequired m0 act) as [m1|[]|]; simpl; try done; last first.
  { destruct Hck as (md & [??]%Hact & ? & ? & ?). by exists md. }
  subst m1.
  assert (Hm0 : boot_inv m0) by (split; simpl; [constructor|set_solver..]).
  assert (Hout : outcome m0 (λ m', ∀ x, x ∈ act → Name x ∈ names m')
    (for_range resolveActive m0 act)).
  { apply (for_range_outcome _ Name
      (λ m _, boot_inv m ∧ moduleMap m = mm ∧ ∀ n, ¬ pending m n)); [..|done|].
    - intros m m' _ Hi Hr (? & ? & Hp). split_and!; [done|by rewrite (rs_map _ _ Hr)|].
      intros n Hn. by apply (Hp n), (rs_pending _ _ Hr).
    - intros m md [Hmd ?]%Hact (Hi & Hm & Hp). unfold resolveActive. apply append_outcome.
      + split; [done|..|].
        * rewrite Hm. intros n x Hx. by apply moduleMap_lookup in Hx as [_ ?].
        * unfold unvisited. apply Nat.lt_succ_r. rewrite <- size_dom.
          apply subseteq_size. set_solver.
        * intros n Hn. by destruct (Hp n).
      + rewrite Hm. by apply moduleMap_lookup.
    - intros x _. split_and!; [done..|]. intros n [Hn _]. by apply not_elem_of_empty in Hn. }
  change (activeModules m0) with act. destruct (for_range _ m0 act) as [m2|[]|]; simpl in *; try done.
  destruct Hout as (? & ? & Hall). split_and!; try done.
  intros md Hmd Ha. by apply Hall, Hact.
Qed.

(** Resolution only appends to the order. *)
Lemma append_keeps_head lg fuel m md parent m' :
  head (orderedModules m) = Some lg →
  appendToResolve fuel m md parent = Ok m' → head (orderedModules m') = Some lg.
Proof.
  revert m md parent m'. induction fuel as [|fuel IH]; intros m [x|] parent m' Hm; simpl; try done.
  case_decide; [case_decide; [congruence|done]|].
  destruct (for_range _ _ _) as [m3| |] eqn:H3; simpl; try done. intros [= <-]. simpl.
  apply (for_range_ind (λ m, head (orderedModules m) = Some lg)) in H3.
  - by destruct (orderedModules m3).
  - intros ma r mb _ Ha. by apply IH.
  - done.
Qed.

(** The first appended module is the logger when it is active and requires nothing. *)
Lemma resolve_logger_head modules m' lg :
  NoDup (Name <$> modules) → lg ∈ modules → IsActive lg = true →
  Name lg = loggerModuleName → RequiredModules lg = [] →
  ResolveDependency (NewModuleStarter modules) = Ok m' → head (orderedModules m') = Some lg.
Proof.
  intros Hnd Hin Ha Hn Hreq. unfold ResolveDependency. simpl.
  destruct (sort_logger_head (filter (λ m, IsActive m = true) modules) lg) as (y & Hy & Hyn);
    [by apply list_elem_of_filter|done|].
  assert (y ∈ modules) as Hym.
  { apply head_Some_elem_of in Hy. rewrite sort_Slice_perm in Hy.
    by apply list_elem_of_filter in Hy as [_ ?]. }
  assert (y = lg) as ->.
  { assert (moduleMap (NewModuleStarter modules) !! loggerModuleName = Some y)
      as H1 by (by apply moduleMap_lookup).
    assert (moduleMap (NewModuleStarter modules) !! loggerModuleName = Some lg)
      as H2 by (by apply moduleMap_lookup). congruence. }
  destruct (sort_Slice _ _) as [|z rest] eqn:Hs; [done|]. injection Hy as ->.
  set (m0 := MkStarter _ _ _ _ _). pose proof (check_all_spec m0 (lg :: rest)) as Hck.
  destruct (for_range checkRequired m0 _) as [m1|[]|]; simpl; try done. subst m1.
  change (activeModules m0) with (lg :: rest). simpl for_range.
  assert (resolveActive m0 lg = Ok (append_ordered lg (mark_visited (Name lg) m0))) as ->.
  { unfold resolveActive. simpl. rewrite Hreq. by case_decide. }
  intros Hrest.
  apply (for_range_ind (λ m, head (orderedModules m) = Some lg)) in Hrest; [done| |done].
  intros m md m2 _. apply append_keeps_head.
Qed.

(** ** Properties *)

(** C3: on every configuration without duplicate module names, dependency
    resolution ends in one of four ways.  It succeeds with an order that has no
    module twice, every requirement before the module that needs it, only
    declared modules and every active one; it names an active module with an
    undeclared requirement; it names a module on a real dependency cycle; or it
    dereferences a nil module, and then some declared module has an undeclared
    requirement.  It never loops. *)
Theorem ResolveDependency_correct modules :
  NoDup (Name <$> modules) →
  let mm := moduleMap (NewModuleStarter modules) in
  match ResolveDependency (NewModuleStarter modules) with
  | Ok m' =>
      start_order (orderedModules m') ∧
      (∀ md, md ∈ orderedModules m' → md ∈ modules) ∧
      (∀ md, md ∈ modules → IsActive md = true → Name md ∈ Name <$> orderedModules m')
  | Err (RequiredNotDeclared a b) =>
      ∃ md, md ∈ modules ∧ IsActive md = true ∧ Name md = a ∧ b ∈ RequiredModules md ∧
        ∀ x, x ∈ modules → Name x ≠ b
  | Err (CyclicDependency n _) => tc (depends mm) n n
  | Err _ => False
  | Panic => ¬ closed mm
  end.
Proof.
  intros Hnd mm. pose proof (resolve_cases modules Hnd) as H.
  destruct (ResolveDependency _) as [m'|[]|]; try done.
  - destruct H as (Hi & Hr & Hall). split_and!; [apply Hi| |done].
    intros md Hmd. apply (inv_declared _ Hi) in Hmd. rewrite (rs_map _ _ Hr) in Hmd.
    by apply moduleMap_lookup in Hmd as [? _].
  - destruct H as (md & ? & ? & ? & ? & Hnone). exists md. split_and!; try done.
    intros x Hx <-. assert (mm !! Name x = Some x) by (by apply moduleMap_lookup).
    unfold mm in *. congruence.
Qed.

Definition sample_modules : list Module :=
  [MkModule "access_log" true ["core"; "process_discovery"] false;
   MkModule "process_discovery" true ["core"] false;
   MkModule "core" true [] false;
   MkModule "profiling" false ["core"] false;
   MkModule "logger" true [] false].

Lemma sample_modules_nodup : NoDup (Name <$> sample_modules).
Proof. apply (bool_decide_unpack _). vm_compute. exact I. Qed.

Lemma ResolveDependency_correct_witness :
  match ResolveDependency (NewModuleStarter sample_modules) with
  | Ok m' => start_order (orderedModules m')
  | _ => True
  end ∧
  match ResolveDependency (NewModuleStarter sample_modules) with
  | Ok m' => Name <$> orderedModules m' = ["logger"; "core"; "process_discovery"; "access_log"]
  | _ => False
  end.
Proof.
  split; [|vm_compute; reflexivity].
  pose proof (ResolveDependency_correct sample_modules sample_modules_nodup) as H.
  destruct (ResolveDependency _); [apply H|exact I|exact I].
Defined.

(** The logger module, when active and without requirements, is started
    before every other module. *)
Theorem logger_started_first modules lg :
  NoDup (Name <$> modules) → lg ∈ modules → IsActive lg = true →
  Name lg = loggerModuleName → RequiredModules lg = [] →
  match ResolveDependency (NewModuleStarter modules) with
  | Ok m' => head (orderedModules m') = Some lg
  | _ => True
  end.
Proof.
  intros. destruct (ResolveDependency _) eqn:E; [|done|done].
  by eapply resolve_logger_head.
Qed.

Lemma logger_started_first_witness :
  match ResolveDependency (NewModuleStarter sample_modules) with
  | Ok m' => head (orderedModules m') = Some (MkModule "logger" true [] false)
  | _ => True
  end.
Proof.
  apply logger_started_first;
    [exact sample_modules_nodup|right; right; right; right; left|reflexivity..].
Defined.

(** C30: a run starts a prefix of the resolved order and shuts down exactly the
    started modules, in the reverse order; the start-success notification
    reaches every module, and only when all of them started.  Nothing is started
    when the resolution fails or yields no module. *)
Theorem Run_trace modules cb :
  NoDup (Name <$> modules) →
  match ResolveDependency (NewModuleStarter modules) with
  | Err e => Run cb (NewModuleStarter modules) = ([], Err e)
  | Panic => Run cb (NewModuleStarter modules) = ([], Panic)
  | Ok m' =>
    ∃ up rest, orderedModules m' = up ++ rest ∧
      Forall (λ md, StartFails md = false) up ∧
      let starts := EvStart <$> (Name <$> up) in
      let stops := EvShutdown <$> (Name <$> reverse up) in
      Run cb (NewModuleStarter modules) =
        match rest, up with
        | [], [] => ([], Err NoModuleActive)
        | [], _ => (starts ++ (EvNotify <$> (Name <$> up)) ++
                   (if cb : bool then [EvCallback] else []) ++ stops, Ok tt)
        | md :: _, _ =>
            (starts ++ [EvStart (Name md)] ++ stops, Err (StartFailure (Name md)))
        end
  end.
Proof.
  intros Hnd. pose proof (resolve_cases modules Hnd) as Hc. unfold Run.
  destruct (ResolveDependency _) as [m'|e|]; [|done|done].
  destruct Hc as (_ & Hr & _). pose proof (rs_started _ _ Hr) as Hst. clear Hr.
  pose proof (startLoop_spec m' (orderedModules m')) as H.
  destruct (orderedModules m') as [|x ms] eqn:Ho.
  { exists [], []. by repeat constructor. }
  destruct (startLoop m' (x :: ms)) as [[m2 ev] failed].
  destruct H as (up & rest & Hms & Hs & Hok & Hf). rewrite Hst in Hs. simpl in Hs.
  exists up, rest. split_and!; [done..|]. unfold shutdownModules. rewrite Hs. simpl.
  destruct failed as [n|].
  - destruct Hf as (md & Hh & Hmd & <- & ->). destruct rest; [done|]. injection Hh as ->.
    by rewrite <- (assoc_L (++)).
  - destruct Hf as [-> ->]. by destruct up.
Qed.

Lemma Run_trace_witness :
  Run true (NewModuleStarter sample_modules) =
    ((EvStart <$> ["logger"; "core"; "process_discovery"; "access_log"]) ++
     (EvNotify <$> ["logger"; "core"; "process_discovery"; "access_log"]) ++
     [EvCallback] ++ (EvShutdown <$> ["access_log"; "process_discovery"; "core"; "logger"]), Ok tt) ∧
  match ResolveDependency (NewModuleStarter sample_modules) with
  | Ok m' => ∃ up rest, orderedModules m' = up ++ rest ∧ Forall (λ md, StartFails md = false) up
  | _ => True
  end.
Proof.
  split; [vm_compute; reflexivity|].
  pose proof (Run_trace sample_modules true sample_modules_nodup) as H.
  destruct (ResolveDependency _); [|exact I|exact I].
  destruct H as (up & rest & ? & ? & _). exists up, rest. split; assumption.
Defined.

(** A module that is not active but required by an active one is still
    resolved, and when one of its own requirements is not declared the resolution
    dereferences a nil module instead of reporting the missing name: the check
    covers the direct requirements of the active modules only. *)
Example inactive_requirement_panics :
  ResolveDependency (NewModuleStarter
    [MkModule "access_log" true ["process_discovery"] false;
     MkModule "process_discovery" false ["core"] false]) = Panic.
Proof. vm_compute. reflexivity. Qed.
