(* ===== verification/ProcessMonitor.v ===== *)
(** * The monitored processes of the connection manager

    Models the process side of [ConnectionManager] (src/pkg/accesslog/common/
    connection.go) and the monitor filter (filter.go): which processes are
    monitored, the BPF maps that mirror the decision, the cgroups whose short-lived
    processes the kernel reports, the verdicts that outlive a process, and the
    index of local addresses.

    The BPF maps and the verdict cache are instances of the classes of
    Interfaces.v.  The filter and the cgroup resolution are what the manager is
    given: the filter is any function that selects processes, and
    [StaticMonitorFilter] is the one the access log module installs. *)

From stdpp Require Import base gmap list strings.
From Stdlib Require Import ZArith Lia.
From S2P Require Import Prelude GoStrings Interfaces.

(** ** Data *)

(** What the Kubernetes finder knows of a process. *)
Record KubernetesProcess : Type := MkKubernetesProcess {
  PodNamespace : string;
  PodName : string;
  ContainerName : string;
  CGroupID : string
}.

(** A detected process; [Kubernetes] holds the finder's process when the detect
    type is Kubernetes. *)
Record ProcessInterface : Type := MkProcess {
  Pid : Z;
  Kubernetes : option KubernetesProcess;
  ServiceName : string;
  ProcessName : string;
  ExposeHosts : list string
}.

Inductive ProcessVerdict : Type :=
| ProcessVerdictUnknown
| ProcessVerdictMonitored
| ProcessVerdictApproved
| ProcessVerdictRejected.

Notation processVerdictKeepTime := (60 * second) (only parsing).

(** The calls the process listeners receive. *)
Inductive listener_call : Type :=
| OnNewProcessMonitoring (pid : Z)
| OnProcessRemoved (pid : Z).

(** ** The static filter *)

Record StaticMonitorFilter : Type := MkStaticMonitorFilter {
  namespaces : gset string;
  clusters : gset string;
  originalNamespaces : list string
}.

Definition convertArrayToMapBool (a : list string) : gset string := list_to_set a.

Definition NewStaticMonitorFilter (ns cs : list string) : StaticMonitorFilter :=
  MkStaticMonitorFilter (convertArrayToMapBool ns) (convertArrayToMapBool cs) ns.

Definition clusterExclude (s : StaticMonitorFilter) (entity : ProcessInterface) : bool :=
  match Cut (ServiceName entity) "::" with
  | (cluster, _, found) => found && bool_decide (cluster ∈ clusters s)
  end.

Definition include_process (selfPid : Z) (s : StaticMonitorFilter) (entity : ProcessInterface)
  : bool :=
  negb (Pid entity =? selfPid) &&
  match Kubernetes entity with
  | None => false
  | Some k => negb (bool_decide (PodNamespace k ∈ namespaces s)) && negb (clusterExclude s entity)
  end.

Fixpoint ShouldIncludeProcesses (selfPid : Z) (s : StaticMonitorFilter)
    (processes : list ProcessInterface) : list ProcessInterface :=
  match processes with
  | [] => []
  | entity :: rest =>
    if include_process selfPid s entity
    then entity :: ShouldIncludeProcesses selfPid s rest
    else ShouldIncludeProcesses selfPid s rest
  end.

(** ** The state *)

Section state.
Context {M C : Type}.

Record Monitor : Type := MkMonitor {
  monitoringProcesses : gmap Z (list ProcessInterface);
  localIPWithPid : gmap string Z;
  processMonitorMap : M;
  processNotMonitorMap : option M;
  cgroupAllowlistMap : option M;
  allowedCgroups : gmap Z (gset Z);
  processVerdicts : C;
  notified : list listener_call
}.

Definition set_monitoring (x : gmap Z (list ProcessInterface)) (m : Monitor) : Monitor :=
  MkMonitor x (localIPWithPid m) (processMonitorMap m) (processNotMonitorMap m)
    (cgroupAllowlistMap m) (allowedCgroups m) (processVerdicts m) (notified m).
Definition set_localIP (x : gmap string Z) (m : Monitor) : Monitor :=
  MkMonitor (monitoringProcesses m) x (processMonitorMap m) (processNotMonitorMap m)
    (cgroupAllowlistMap m) (allowedCgroups m) (processVerdicts m) (notified m).
Definition set_monitorMap (x : M) (m : Monitor) : Monitor :=
  MkMonitor (monitoringProcesses m) (localIPWithPid m) x (processNotMonitorMap m)
    (cgroupAllowlistMap m) (allowedCgroups m) (processVerdicts m) (notified m).
Definition set_notMonitorMap (x : option M) (m : Monitor) : Monitor :=
  MkMonitor (monitoringProcesses m) (localIPWithPid m) (processMonitorMap m) x
    (cgroupAllowlistMap m) (allowedCgroups m) (processVerdicts m) (notified m).
Definition set_allowed (a : option M) (x : gmap Z (gset Z)) (m : Monitor) : Monitor :=
  MkMonitor (monitoringProcesses m) (localIPWithPid m) (processMonitorMap m)
    (processNotMonitorMap m) a x (processVerdicts m) (notified m).
Definition set_verdicts (x : C) (m : Monitor) : Monitor :=
  MkMonitor (monitoringProcesses m) (localIPWithPid m) (processMonitorMap m)
    (processNotMonitorMap m) (cgroupAllowlistMap m) (allowedCgroups m) x (notified m).
Definition notify (x : listener_call) (m : Monitor) : Monitor :=
  MkMonitor (monitoringProcesses m) (localIPWithPid m) (processMonitorMap m)
    (processNotMonitorMap m) (cgroupAllowlistMap m) (allowedCgroups m) (processVerdicts m)
    (notified m ++ [x]).
End state.
Arguments Monitor M C : clear implicits.

(** ** Operations *)

Section monitor.
Context `{RangeOrder} {M C : Type} `{!EbpfMap Z Z M} `{!ExpiringCache Z ProcessVerdict C}.
(** [monitorFilter.ShouldIncludeProcesses], and the resolution of a container's
    cgroup when the host has one. *)
Context (filterProcesses : list ProcessInterface → list ProcessInterface).
Context (cgroupSeeder : option (string → option Z)).
Notation Mon := (Monitor M C).

Definition updateMonitorStatusForProcess (pid : Z) (monitor : bool) (m : Mon) : Mon :=
  if monitor then set_monitorMap (snd (em_Update pid 1 (processMonitorMap m))) m
  else set_monitorMap (snd (em_Delete pid (processMonitorMap m))) m.

Definition recordProcessVerdict (now pid : Z) (v : ProcessVerdict) (m : Mon) : Mon :=
  set_verdicts (ec_Set now pid v processVerdictKeepTime (processVerdicts m)) m.

Definition rejectProcessInBPF (pid : Z) (m : Mon) : Mon :=
  match processNotMonitorMap m with
  | None => m
  | Some nm => set_notMonitorMap (Some (snd (em_Update (u32 pid) 1 nm))) m
  end.

(** [len(c.monitoringProcesses[int32(pid)]) > 0] *)
Definition ProcessIsMonitor (pid : Z) (m : Mon) : bool :=
  match monitoringProcesses m !! i32 pid with
  | Some (_ :: _) => true
  | _ => false
  end.

Definition ProcessVerdictOf (now pid : Z) (m : Mon) : ProcessVerdict :=
  if ProcessIsMonitor pid m then ProcessVerdictMonitored
  else match ec_Get now (i32 pid) (processVerdicts m) with
       | Some v => v
       | None => ProcessVerdictUnknown
       end.

(** The cgroups of the Kubernetes processes whose container resolves. *)
Definition cgroupIDsOf (seeder : string → option Z) (processes : list ProcessInterface) : list Z :=
  omap (λ p, k ← Kubernetes p; seeder (CGroupID k)) processes.

Definition allow_cgroup (pid : Z) (m : Mon) (cgroupID : Z) : Mon :=
  match allowedCgroups m !! cgroupID with
  | Some pids =>
    set_allowed (cgroupAllowlistMap m) (<[cgroupID := {[pid]} ∪ pids]> (allowedCgroups m)) m
  | None =>
    match cgroupAllowlistMap m with
    | None => m
    | Some am =>
      match em_Update cgroupID 1 am with
      | (None, am') => set_allowed (Some am') (<[cgroupID := {[pid]}]> (allowedCgroups m)) m
      | (Some _, am') => set_allowed (Some am') (allowedCgroups m) m
      end
    end
  end.

Definition allowCgroupsOfProcesses (pid : Z) (processes : list ProcessInterface) (m : Mon) : Mon :=
  match cgroupAllowlistMap m, cgroupSeeder with
  | Some _, Some seeder => foldl (allow_cgroup pid) m (cgroupIDsOf seeder processes)
  | _, _ => m
  end.

Definition disallow_cgroup (pid : Z) (m : Mon) (cgroupID : Z) : Mon :=
  match allowedCgroups m !! cgroupID with
  | None => m
  | Some pids =>
    let pids' := pids ∖ {[pid]} in
    if decide (pids' = ∅) then
      set_allowed
        (match cgroupAllowlistMap m with
         | Some am => Some (snd (em_Delete cgroupID am))
         | None => None
         end) (delete cgroupID (allowedCgroups m)) m
    else set_allowed (cgroupAllowlistMap m) (<[cgroupID := pids']> (allowedCgroups m)) m
  end.

Definition disallowCgroupsOfProcesses (pid : Z) (processes : list ProcessInterface) (m : Mon)
  : Mon :=
  match cgroupAllowlistMap m, cgroupSeeder with
  | Some _, Some seeder => foldl (disallow_cgroup pid) m (cgroupIDsOf seeder processes)
  | _, _ => m
  end.

(** Enter the hosts of a pid's processes into the address index. *)
Definition addHosts (pid : Z) (processes : list ProcessInterface) (idx : gmap string Z)
  : gmap string Z :=
  foldl (λ idx host, <[host := pid]> idx) idx (processes ≫= ExposeHosts).

Definition rebuildLocalIPWithPID (m : Mon) : Mon :=
  set_localIP (foldl (λ idx e, addHosts (fst e) (snd e) idx) ∅ (range (monitoringProcesses m))) m.

Definition RemoveProcess (now pid : Z) (m : Mon) : Mon :=
  let m := disallowCgroupsOfProcesses pid (default [] (monitoringProcesses m !! pid)) m in
  let m := set_monitoring (delete pid (monitoringProcesses m)) m in
  let m := updateMonitorStatusForProcess pid false m in
  let m := recordProcessVerdict now pid ProcessVerdictApproved m in
  let m := rebuildLocalIPWithPID m in
  notify (OnProcessRemoved pid) m.

Definition AddNewProcess (now pid : Z) (entities : list ProcessInterface) (m : Mon) : Mon :=
  let monitorProcesses := filterProcesses entities in
  if decide (monitorProcesses = []) then RemoveProcess now pid m
  else
    match monitoringProcesses m !! pid with
    | Some _ => m
    | None =>
      let m := set_monitoring (<[pid := monitorProcesses]> (monitoringProcesses m)) m in
      let m := updateMonitorStatusForProcess pid true m in
      let m := recordProcessVerdict now pid ProcessVerdictMonitored m in
      let m := allowCgroupsOfProcesses pid monitorProcesses m in
      let m := set_localIP (addHosts pid monitorProcesses (localIPWithPid m)) m in
      notify (OnNewProcessMonitoring pid) m
    end.

(** The processes of a discovery round that pass the filter. *)
Definition shouldMonitoringProcesses (processes : gmap Z (list ProcessInterface))
  : gmap Z (list ProcessInterface) :=
  omap (λ p, match filterProcesses p with [] => None | mp => Some mp end) processes.

Definition RecheckAllProcesses (processes : gmap Z (list ProcessInterface)) (m : Mon) : Mon :=
  let m := set_monitoring (shouldMonitoringProcesses processes) m in
  let processInBPF : gmap Z unit :=
    list_to_map ((λ e, (fst e, tt)) <$> em_Iterate (processMonitorMap m)) in
  let m := foldl (λ m e, match monitoringProcesses m !! fst e with
                         | Some _ => m
                         | None => notify (OnProcessRemoved (fst e))
                                     (updateMonitorStatusForProcess (fst e) false m)
                         end) m (range processInBPF) in
  let m := foldl (λ m e, match processInBPF !! fst e with
                         | Some _ => m
                         | None => notify (OnNewProcessMonitoring (fst e))
                                     (updateMonitorStatusForProcess (fst e) true m)
                         end) m (range (monitoringProcesses m)) in
  rebuildLocalIPWithPID m.

(** [ShouldMonitorExecuting] asks the process finders, which may register the
    process through [AddNewProcess] before they answer; [procExists] is whether
    /proc still has the pid. *)
Definition OnNewProcessExecuting (ShouldMonitorExecuting : Mon → bool * Mon) (procExists : bool)
    (now pid : Z) (m : Mon) : Mon :=
  match ShouldMonitorExecuting m with
  | (true, m) => m
  | (false, m) =>
    let m := updateMonitorStatusForProcess pid false m in
    if procExists
    then rejectProcessInBPF pid (recordProcessVerdict now pid ProcessVerdictRejected m)
    else m
  end.

Definition ProcessIsDetectBy (pid : Z) (m : Mon) : bool :=
  existsb (λ p, match Kubernetes p with Some _ => true | None => false end)
    (default [] (monitoringProcesses m !! i32 pid)).
End monitor.

(** ** Lemmas on the kernel maps and the address index *)

Section kernel_maps.
Context `{RangeOrder} {M C : Type} `{!EbpfMap Z Z M} `{!ExpiringCache Z ProcessVerdict C}.
Notation Mon := (Monitor M C).

(** The kernel accepts the writes for a key. *)
Definition writable (k : Z) : Prop :=
  (∀ v (m : M), fst (em_Update k v m) = None) ∧ (∀ m : M, fst (em_Delete k m) ≠ Some ErrOther).

Lemma allowCgroups_monitoring seeder pid ps (m : Mon) :
  monitoringProcesses (allowCgroupsOfProcesses seeder pid ps m) = monitoringProcesses m.
Proof.
  unfold allowCgroupsOfProcesses. destruct (cgroupAllowlistMap m), seeder; try done.
  generalize (cgroupIDsOf o ps). intros cgs. revert m.
  induction cgs as [|cg cgs IH]; intros m; simpl; [done|]. rewrite IH.
  unfold allow_cgroup. destruct (allowedCgroups m !! cg); [done|].
  destruct (cgroupAllowlistMap m) as [am|]; [|done]. by destruct (em_Update cg 1 am) as [[]].
Qed.

Lemma disallowCgroups_monitoring seeder pid ps (m : Mon) :
  monitoringProcesses (disallowCgroupsOfProcesses seeder pid ps m) = monitoringProcesses m.
Proof.
  unfold disallowCgroupsOfProcesses. destruct (cgroupAllowlistMap m), seeder; try done.
  generalize (cgroupIDsOf o ps). intros cgs. revert m.
  induction cgs as [|cg cgs IH]; intros m; simpl; [done|]. rewrite IH.
  unfold disallow_cgroup. destruct (allowedCgroups m !! cg); [|done]. by case_decide.
Qed.

Lemma delete_view k (m : M) : writable k → em_view (snd (em_Delete k m)) !! k = None.
Proof.
  intros [_ Hw]. rewrite em_Delete_spec. specialize (Hw m).
  destruct (fst (em_Delete k m)) as [e|] eqn:E; [|apply lookup_delete_eq].
  destruct e; [by apply em_Delete_missing in E|done].
Qed.

Lemma delete_view_ne k k' (m : M) :
  k' ≠ k → em_view (snd (em_Delete k m)) !! k' = em_view m !! k'.
Proof. intros Hne. rewrite em_Delete_spec. case_match; [done|by apply lookup_delete_ne]. Qed.

Lemma update_view k v (m : M) : writable k → em_view (snd (em_Update k v m)) !! k = Some v.
Proof. intros [Hw _]. rewrite em_Update_spec, Hw. apply lookup_insert_eq. Qed.

Lemma update_view_ne k k' v (m : M) :
  k' ≠ k → em_view (snd (em_Update k v m)) !! k' = em_view m !! k'.
Proof. intros Hne. rewrite em_Update_spec. case_match; [done|by apply lookup_insert_ne]. Qed.

(** The address index of a list of monitored processes. *)
Lemma addHosts_lookup pid ps idx host p :
  addHosts pid ps idx !! host = Some p →
  idx !! host = Some p ∨ p = pid ∧ host ∈ ps ≫= ExposeHosts.
Proof.
  unfold addHosts. generalize (ps ≫= ExposeHosts). intros hs. revert idx.
  induction hs as [|h hs IH]; intros idx; simpl; [by left|].
  intros [Hi|[-> Hin]]%IH; [|right; split; [done|by right]].
  apply lookup_insert_Some in Hi as [[-> ->]|[_ ?]]; [right; split; [done|left]|by left].
Qed.

Lemma rebuild_index (m : Mon) host pid :
  localIPWithPid (rebuildLocalIPWithPID m) !! host = Some pid →
  ∃ ps, monitoringProcesses m !! pid = Some ps ∧ host ∈ ps ≫= ExposeHosts.
Proof.
  unfold rebuildLocalIPWithPID. simpl.
  assert (Hr : ∀ e, e ∈ range (monitoringProcesses m) →
    monitoringProcesses m !! fst e = Some (snd e)).
  { intros [k v] He. rewrite range_perm in He. by apply elem_of_map_to_list in He. }
  assert (Hidx : ∀ idx : gmap string Z, (∀ h p, idx !! h = Some p →
      ∃ ps, monitoringProcesses m !! p = Some ps ∧ h ∈ ps ≫= ExposeHosts) →
    ∀ l, (∀ e, e ∈ l → monitoringProcesses m !! fst e = Some (snd e)) →
    foldl (λ idx e, addHosts (fst e) (snd e) idx) idx l !! host = Some pid →
    ∃ ps, monitoringProcesses m !! pid = Some ps ∧ host ∈ ps ≫= ExposeHosts).
  { intros idx Hi l. revert idx Hi. induction l as [|e l IH]; intros idx Hi Hl; simpl; [by apply Hi|].
    apply IH; [|intros x Hx; apply Hl; by right].
    intros h p [?|[-> Hin]]%addHosts_lookup; [by apply Hi|].
    exists (snd e). split; [apply Hl; left|done]. }
  apply Hidx; [|done]. intros h p. by rewrite lookup_empty.
Qed.

(** The two loops of [RecheckAllProcesses] over the kernel's map. *)
Lemma recheck_remove_loop (l : list (Z * unit)) (m : Mon) :
  let m' := foldl (λ m e, match monitoringProcesses m !! fst e with
                          | Some _ => m
                          | None => notify (OnProcessRemoved (fst e))
                                      (updateMonitorStatusForProcess (fst e) false m)
                          end) m l in
  (monitoringProcesses m' = monitoringProcesses m ∧ cgroupAllowlistMap m' = cgroupAllowlistMap m ∧
   allowedCgroups m' = allowedCgroups m) ∧
  ∀ pid, writable pid → is_Some (em_view (processMonitorMap m') !! pid) ↔
    is_Some (em_view (processMonitorMap m) !! pid) ∧
    (pid ∈ l.*1 → is_Some (monitoringProcesses m !! pid)).
Proof.
  revert m. induction l as [|[k []] l IH]; intros m; simpl; [split; [done|set_solver]|].
  destruct (monitoringProcesses m !! k) as [ps|] eqn:Hk.
  - destruct (IH m) as [H1 H2]. split; [done|]. intros pid Hw. rewrite (H2 pid Hw), elem_of_cons.
    split; [|naive_solver]. intros [? Hl]. split; [done|]. intros [->|?]; [by eexists|by apply Hl].
  - destruct (IH (notify (OnProcessRemoved k) (updateMonitorStatusForProcess k false m))) as [H1 H2].
    split; [done|]. intros pid Hw. rewrite (H2 pid Hw). simpl. rewrite elem_of_cons.
    destruct (decide (pid = k)) as [->|Hne].
    + rewrite delete_view, Hk by done. split; [by intros [[? ?] _]|].
      intros [_ Hl]. by destruct (Hl ltac:(by left)).
    + rewrite delete_view_ne by done. naive_solver.
Qed.

Lemma recheck_add_loop (B : gmap Z unit) (l : list (Z * list ProcessInterface)) (m : Mon) :
  let m' := foldl (λ m e, match B !! fst e with
                          | Some _ => m
                          | None => notify (OnNewProcessMonitoring (fst e))
                                      (updateMonitorStatusForProcess (fst e) true m)
                          end) m l in
  (monitoringProcesses m' = monitoringProcesses m ∧ cgroupAllowlistMap m' = cgroupAllowlistMap m ∧
   allowedCgroups m' = allowedCgroups m) ∧
  ∀ pid, writable pid → is_Some (em_view (processMonitorMap m') !! pid) ↔
    is_Some (em_view (processMonitorMap m) !! pid) ∨ (pid ∈ l.*1 ∧ B !! pid = None).
Proof.
  revert m. induction l as [|[k ps] l IH]; intros m; simpl; [split; [done|set_solver]|].
  destruct (B !! k) as [[]|] eqn:Hk.
  - destruct (IH m) as [H1 H2]. split; [done|]. intros pid Hw. rewrite (H2 pid Hw), elem_of_cons.
    destruct (decide (pid = k)) as [->|Hne]; [rewrite Hk|]; naive_solver.
  - destruct (IH (notify (OnNewProcessMonitoring k) (updateMonitorStatusForProcess k true m))) as [H1 H2].
    split; [done|]. intros pid Hw. rewrite (H2 pid Hw). simpl. rewrite elem_of_cons.
    destruct (decide (pid = k)) as [->|Hne].
    + rewrite update_view by done. split; [naive_solver|]. intros _. left. by eexists.
    + rewrite update_view_ne by done. naive_solver.
Qed.

Lemma range_keys {V} (B : gmap Z V) pid : pid ∈ (range B).*1 ↔ is_Some (B !! pid).
Proof.
  rewrite range_perm. split.
  - intros ([k v] & -> & He)%list_elem_of_fmap. apply elem_of_map_to_list in He. by eexists.
  - intros [v Hv]. apply list_elem_of_fmap. exists (pid, v). split; [done|].
    by apply elem_of_map_to_list.
Qed.

Lemma iterate_keys (m : M) pid :
  is_Some ((list_to_map ((λ e, (fst e, tt)) <$> em_Iterate m) : gmap Z unit) !! pid) ↔
  is_Some (em_view m !! pid).
Proof.
  rewrite <- elem_of_dom, dom_list_to_map, elem_of_list_to_set.
  rewrite <- list_fmap_compose. change (fst ∘ _) with (λ e : Z * Z, fst e).
  rewrite list_elem_of_fmap. split.
  - intros ([k v] & -> & He). rewrite em_Iterate_spec in He.
    apply elem_of_map_to_list in He. by eexists.
  - intros [v Hv]. exists (pid, v). split; [done|]. rewrite em_Iterate_spec.
    by apply elem_of_map_to_list.
Qed.
End kernel_maps.

(** ** Specification *)

Section invariant.
Context `{RangeOrder} {M C : Type} `{!EbpfMap Z Z M} `{!ExpiringCache Z ProcessVerdict C}.
Context (filterProcesses : list ProcessInterface → list ProcessInterface).
Notation Mon := (Monitor M C).
Notation writable := (writable (M := M)).

(** What user space and the kernel agree on:
    - no monitored process is an empty list, and the kernel monitors exactly the monitored
      processes, among the pids whose writes it accepts;
    - a cgroup that is counted has a pid and is allowed in the kernel, and an allowed one
      whose writes the kernel accepts is counted;
    - the address index names only monitored pids, under hosts they expose. *)
Record monitor_inv (m : Mon) : Prop := {
  mi_nonempty : ∀ pid, monitoringProcesses m !! pid ≠ Some [];
  mi_kernel : ∀ pid, writable pid → is_Some (em_view (processMonitorMap m) !! pid) ↔
                     is_Some (monitoringProcesses m !! pid);
  mi_counted : ∀ cg, allowedCgroups m !! cg ≠ Some ∅;
  mi_allowed : ∀ cg, is_Some (allowedCgroups m !! cg) →
    ∃ am, cgroupAllowlistMap m = Some am ∧ is_Some (em_view am !! cg);
  mi_allowlist : ∀ cg am, cgroupAllowlistMap m = Some am → writable cg →
    is_Some (em_view am !! cg) → is_Some (allowedCgroups m !! cg);
  mi_index : ∀ host pid, localIPWithPid m !! host = Some pid →
    ∃ ps, monitoringProcesses m !! pid = Some ps ∧ host ∈ ps ≫= ExposeHosts
}.

(** With the resolution [seeder] of containers, the pids counted for a cgroup are exactly the
    monitored ones with a process in it. *)
Definition counts_exact (seeder : string → option Z) (m : Mon) : Prop :=
  is_Some (cgroupAllowlistMap m) ∧
  ∀ cg pid, writable cg →
    pid ∈ default ∅ (allowedCgroups m !! cg) ↔
    ∃ ps, monitoringProcesses m !! pid = Some ps ∧ cg ∈ cgroupIDsOf seeder ps.

(** The processes that come and go, the rescan of all of them, and the report of a process
    that starts, which the finders took or refused. *)
Inductive monitor_event : Type :=
| MonitorAdd (now pid : Z) (entities : list ProcessInterface)
| MonitorRemove (now pid : Z)
| MonitorRecheck (processes : gmap Z (list ProcessInterface))
| MonitorExecuting (taken procExists : bool) (now pid : Z).

(** The resolution of containers may differ from event to event. *)
Definition monitor_do (cgroupSeeder : option (string → option Z)) (e : monitor_event) (m : Mon) : Mon :=
  match e with
  | MonitorAdd now pid entities => AddNewProcess filterProcesses cgroupSeeder now pid entities m
  | MonitorRemove now pid => RemoveProcess cgroupSeeder now pid m
  | MonitorRecheck processes => RecheckAllProcesses filterProcesses processes m
  | MonitorExecuting taken procExists now pid =>
    OnNewProcessExecuting (λ m, (taken, m)) procExists now pid m
  end.

(** The finders refuse a starting process only if it is not monitored. *)
Definition event_ok (e : monitor_event) (m : Mon) : Prop :=
  match e with
  | MonitorExecuting taken _ _ pid => taken = false → monitoringProcesses m !! pid = None
  | _ => True
  end.

(** ** Lemmas *)

(** What allowing or disallowing cgroups changes: the allowlist and its counts. *)
Definition same_but_cgroups (m m' : Mon) : Prop :=
  monitoringProcesses m' = monitoringProcesses m ∧ localIPWithPid m' = localIPWithPid m ∧
  processMonitorMap m' = processMonitorMap m ∧
  (is_Some (cgroupAllowlistMap m) → is_Some (cgroupAllowlistMap m')).

(** The part of the invariant on cgroups. *)
Definition mirrored (m : Mon) : Prop :=
  (∀ cg, allowedCgroups m !! cg ≠ Some ∅) ∧
  (∀ cg, is_Some (allowedCgroups m !! cg) →
     ∃ am, cgroupAllowlistMap m = Some am ∧ is_Some (em_view am !! cg)) ∧
  (∀ cg am, cgroupAllowlistMap m = Some am → writable cg →
     is_Some (em_view am !! cg) → is_Some (allowedCgroups m !! cg)).

Definition pids_of (m : Mon) (cg : Z) : gset Z := default ∅ (allowedCgroups m !! cg).

Lemma same_but_cgroups_refl (m : Mon) : same_but_cgroups m m.
Proof. by repeat split. Qed.

Lemma same_but_cgroups_trans (m1 m2 m3 : Mon) :
  same_but_cgroups m1 m2 → same_but_cgroups m2 m3 → same_but_cgroups m1 m3.
Proof. unfold same_but_cgroups. intros (? & ? & ? & ?) (? & ? & ? & ?). split_and!; [congruence..|auto]. Qed.

(** Another set of pids for a cgroup that is counted. *)
Lemma mirrored_recount (m : Mon) cg pids pids' :
  mirrored m → allowedCgroups m !! cg = Some pids → pids' ≠ ∅ →
  mirrored (set_allowed (cgroupAllowlistMap m) (<[cg := pids']> (allowedCgroups m)) m).
Proof.
  intros (H1 & H2 & H3) Hcg Hne. split_and!; simpl.
  - intros x. rewrite lookup_insert_Some. intros [[_ Hx]|[_ Hx]]; [done|by eapply H1].
  - intros x Hx. apply H2. destruct (decide (x = cg)) as [->|]; [by eexists|].
    by rewrite lookup_insert_ne in Hx.
  - intros x am Ham Hw Hv. destruct (decide (x = cg)) as [->|]; [rewrite lookup_insert_eq; by eexists|].
    rewrite lookup_insert_ne by done. by eapply H3.
Qed.

Lemma allow_cgroup_spec pid (m : Mon) cg :
  mirrored m →
  let m' := allow_cgroup pid m cg in
  mirrored m' ∧ same_but_cgroups m m' ∧
  (is_Some (cgroupAllowlistMap m) → ∀ x, writable x →
     pids_of m' x = if decide (x = cg) then {[pid]} ∪ pids_of m x else pids_of m x).
Proof.
  intros Hm. pose proof Hm as (H1 & H2 & H3). unfold allow_cgroup, pids_of.
  destruct (allowedCgroups m !! cg) as [pids|] eqn:Hcg; simpl.
  - split_and!; [by apply (mirrored_recount m cg pids); [..|set_solver]|by repeat split|].
    intros _ x _. case_decide as Hd; [subst x|by rewrite lookup_insert_ne by done].
    by rewrite lookup_insert_eq, Hcg.
  - destruct (cgroupAllowlistMap m) as [am|] eqn:Ham; [|split_and!; [done|by apply same_but_cgroups_refl|by intros []]].
    pose proof (em_Update_spec cg 1 am) as Hs. pose proof (λ x, update_view_ne cg x 1 am) as Hne.
    destruct (em_Update cg 1 am) as [[e|] am'] eqn:Hup; simpl in *.
    + split_and!; [split_and!; simpl; rewrite ?Hs|by repeat split|].
      * done.
      * intros x Hx. exists am'. split; [done|]. destruct (H2 x Hx) as (? & [= <-] & Hv). by rewrite Hs.
      * intros x ? [= <-] Hw. rewrite Hs. by apply (H3 x am).
      * intros _ x [Hw _]. case_decide as Hd; [subst x|done]. specialize (Hw 1 am). by rewrite Hup in Hw.
    + split_and!; [split_and!; simpl|by repeat split|].
      * intros x. rewrite lookup_insert_Some. intros [[_ Hx]|[_ Hx]]; [set_solver|by eapply H1].
      * intros x Hx. exists am'. split; [done|]. rewrite Hs.
        destruct (decide (x = cg)) as [->|Hd]; [rewrite lookup_insert_eq; by eexists|].
        rewrite lookup_insert_ne in Hx by done. rewrite lookup_insert_ne by done. by destruct (H2 x Hx) as (? & [= <-] & Hv).
      * intros x ? [= <-] Hw. destruct (decide (x = cg)) as [->|Hd]; [rewrite lookup_insert_eq; by eexists|].
        rewrite lookup_insert_ne by done. rewrite Hne by done. by apply (H3 x am).
      * intros _ x _. case_decide as Hd; [subst x|by rewrite lookup_insert_ne by done].
        rewrite lookup_insert_eq, Hcg. simpl. set_solver.
Qed.

Lemma disallow_cgroup_spec pid (m : Mon) cg :
  mirrored m →
  let m' := disallow_cgroup pid m cg in
  mirrored m' ∧ same_but_cgroups m m' ∧
  (∀ x, pids_of m' x = if decide (x = cg) then pids_of m x ∖ {[pid]} else pids_of m x).
Proof.
  intros Hm. pose proof Hm as (H1 & H2 & H3). unfold disallow_cgroup, pids_of.
  destruct (allowedCgroups m !! cg) as [pids|] eqn:Hcg; simpl.
  - case_decide as Hempty; simpl.
    + destruct (H2 cg) as (am & Ham & Hv); [by eexists|]. rewrite Ham.
      split_and!; [split_and!; simpl|repeat split; by eexists|].
      * intros x. rewrite lookup_delete_Some. intros [_ ?]. by eapply H1.
      * intros x Hx. eexists. split; [done|]. destruct (decide (x = cg)) as [->|Hd].
        { rewrite lookup_delete_eq in Hx. by destruct Hx. }
        rewrite lookup_delete_ne in Hx by done. rewrite delete_view_ne by done.
        destruct (H2 x Hx) as (? & ? & ?). by simplify_eq.
      * intros x ? [= <-] Hw. destruct (decide (x = cg)) as [->|Hd].
        { rewrite delete_view by done. by intros []. }
        rewrite delete_view_ne, lookup_delete_ne by done. by apply (H3 x am).
      * intros x. case_decide as Hd; [subst x|by rewrite lookup_delete_ne by done].
        rewrite lookup_delete_eq, Hcg. simpl. by rewrite Hempty.
    + split_and!; [by apply (mirrored_recount m cg pids)|by repeat split|].
      intros x. case_decide as Hd; [subst x|by rewrite lookup_insert_ne by done].
      by rewrite lookup_insert_eq, Hcg.
  - split_and!; [done|by apply same_but_cgroups_refl|]. intros x. case_decide; [subst x|done].
    rewrite Hcg. simpl. set_solver.
Qed.

Lemma allow_cgroups_spec pid cgs (m : Mon) :
  mirrored m →
  let m' := foldl (allow_cgroup pid) m cgs in
  mirrored m' ∧ same_but_cgroups m m' ∧
  (is_Some (cgroupAllowlistMap m) → ∀ x p, writable x →
     p ∈ pids_of m' x ↔ p ∈ pids_of m x ∨ (p = pid ∧ x ∈ cgs)).
Proof.
  revert m. induction cgs as [|cg cgs IH]; intros m Hm; simpl.
  { split_and!; [done|by apply same_but_cgroups_refl|]. set_solver. }
  destruct (allow_cgroup_spec pid m cg Hm) as (H1 & H2 & H3).
  destruct (IH _ H1) as (H4 & H5 & H6).
  split_and!; [done|by eapply same_but_cgroups_trans|].
  intros Ha x p Hw. rewrite (H6 ltac:(by apply H2) x p Hw), (H3 Ha x Hw). case_decide; set_solver.
Qed.

Lemma disallow_cgroups_spec pid cgs (m : Mon) :
  mirrored m →
  let m' := foldl (disallow_cgroup pid) m cgs in
  mirrored m' ∧ same_but_cgroups m m' ∧
  ∀ x p, p ∈ pids_of m' x ↔ p ∈ pids_of m x ∧ ¬ (p = pid ∧ x ∈ cgs).
Proof.
  revert m. induction cgs as [|cg cgs IH]; intros m Hm; simpl.
  { split_and!; [done|by apply same_but_cgroups_refl|]. set_solver. }
  destruct (disallow_cgroup_spec pid m cg Hm) as (H1 & H2 & H3).
  destruct (IH _ H1) as (H4 & H5 & H6).
  split_and!; [done|by eapply same_but_cgroups_trans|].
  intros x p. rewrite H6, H3. case_decide; set_solver.
Qed.

(** The same for the whole operations, whatever is configured. *)
Lemma allowCgroups_spec cgroupSeeder pid ps (m : Mon) :
  mirrored m →
  let m' := allowCgroupsOfProcesses cgroupSeeder pid ps m in
  mirrored m' ∧ same_but_cgroups m m' ∧
  (∀ seeder, cgroupSeeder = Some seeder → is_Some (cgroupAllowlistMap m) → ∀ x p, writable x →
     p ∈ pids_of m' x ↔ p ∈ pids_of m x ∨ (p = pid ∧ x ∈ cgroupIDsOf seeder ps)).
Proof.
  intros Hm. unfold allowCgroupsOfProcesses.
  destruct (cgroupAllowlistMap m) as [am|] eqn:Ham, cgroupSeeder as [seeder|];
    try (split_and!; [done|by apply same_but_cgroups_refl|]; [by intros ? ?|..] || by intros ? ? []).
  destruct (allow_cgroups_spec pid (cgroupIDsOf seeder ps) m Hm) as (H1 & H2 & H3).
  split_and!; [done|done|]. intros ? [= <-] _. apply H3. by eexists.
Qed.

Lemma disallowCgroups_spec cgroupSeeder pid ps (m : Mon) :
  mirrored m →
  let m' := disallowCgroupsOfProcesses cgroupSeeder pid ps m in
  mirrored m' ∧ same_but_cgroups m m' ∧
  (∀ seeder, cgroupSeeder = Some seeder → is_Some (cgroupAllowlistMap m) → ∀ x p,
     p ∈ pids_of m' x ↔ p ∈ pids_of m x ∧ ¬ (p = pid ∧ x ∈ cgroupIDsOf seeder ps)).
Proof.
  intros Hm. unfold disallowCgroupsOfProcesses.
  destruct (cgroupAllowlistMap m) as [am|] eqn:Ham, cgroupSeeder as [seeder|];
    try (split_and!; [done|by apply same_but_cgroups_refl|]; [by intros ? ?|..] || by intros ? ? []).
  destruct (disallow_cgroups_spec pid (cgroupIDsOf seeder ps) m Hm) as (H1 & H2 & H3).
  split_and!; [done|done|]. by intros ? [= <-] _.
Qed.

Lemma inv_mirrored (m : Mon) : monitor_inv m → mirrored m.
Proof. by intros []. Qed.

Lemma RemoveProcess_inv cgroupSeeder now pid (m : Mon) :
  monitor_inv m →
  let m' := RemoveProcess cgroupSeeder now pid m in
  monitor_inv m' ∧
  ∀ seeder, cgroupSeeder = Some seeder → counts_exact seeder m → counts_exact seeder m'.
Proof.
  intros Hi. pose proof (inv_mirrored m Hi) as Hmir. destruct Hi as [Hne Hk _ _ _ Hx].
  unfold RemoveProcess. set (ps := default [] _).
  destruct (disallowCgroups_spec cgroupSeeder pid ps m Hmir) as ((H1 & H2 & H3) & Hsame & Hp).
  set (m1 := disallowCgroupsOfProcesses _ _ _ _) in *. destruct Hsame as (Hm1 & _ & Hk1 & Hal).
  split; [split; simpl; try done|].
  - intros p. rewrite Hm1, lookup_delete_Some. intros [_ ?]. by eapply Hne.
  - intros p Hw. rewrite Hm1, Hk1. destruct (decide (p = pid)) as [->|].
    + rewrite delete_view, lookup_delete_eq by done. by split; intros [].
    + rewrite delete_view_ne, lookup_delete_ne by done. by apply Hk.
  - intros host p Hh.
    by apply (rebuild_index (set_monitoring (delete pid (monitoringProcesses m1)) m1)) in Hh.
  - intros seeder -> [Hsome Hc]. split; [by apply Hal|]. intros cg p Hw. simpl.
    specialize (Hp seeder eq_refl Hsome cg p). unfold pids_of in Hp. rewrite Hp, (Hc cg p Hw), Hm1.
    destruct (decide (p = pid)) as [->|Hpn].
    + rewrite lookup_delete_eq. split; [|naive_solver].
      intros [(ps' & Hps' & Hin) Hno]. destruct Hno. split; [done|]. unfold ps. by rewrite Hps'.
    + rewrite lookup_delete_ne by done. naive_solver.
Qed.

Lemma AddNewProcess_inv cgroupSeeder now pid entities (m : Mon) :
  monitor_inv m →
  let m' := AddNewProcess filterProcesses cgroupSeeder now pid entities m in
  monitor_inv m' ∧
  ∀ seeder, cgroupSeeder = Some seeder → counts_exact seeder m → counts_exact seeder m'.
Proof.
  intros Hi. unfold AddNewProcess. case_decide as Hf; [by apply RemoveProcess_inv|].
  destruct (monitoringProcesses m !! pid) as [ps0|] eqn:Hpid; [done|].
  pose proof (inv_mirrored m Hi) as Hmir. destruct Hi as [Hne Hk _ _ _ Hx].
  set (mp := filterProcesses entities) in *. cbv zeta.
  set (m0 := recordProcessVerdict _ _ _ _). change (mirrored m) with (mirrored m0) in Hmir.
  destruct (allowCgroups_spec cgroupSeeder pid mp m0 Hmir) as ((H1 & H2 & H3) & Hsame & Hp).
  set (m1 := allowCgroupsOfProcesses _ _ _ _) in *. destruct Hsame as (Hm1 & Hx1 & Hk1 & Hal).
  split; [split; simpl; try done|].
  - intros p. rewrite Hm1. simpl. rewrite lookup_insert_Some. intros [[_ ?]|[_ ?]]; [done|by eapply Hne].
  - intros p Hw. rewrite Hk1, Hm1. simpl. destruct (decide (p = pid)) as [->|].
    + rewrite update_view, lookup_insert_eq by done. split; by eexists.
    + rewrite update_view_ne, lookup_insert_ne by done. by apply Hk.
  - intros host p [Hh|[-> Hin]]%addHosts_lookup.
    + rewrite Hx1 in Hh. simpl in Hh. destruct (Hx _ _ Hh) as (ps & Hps & Hin).
      exists ps. rewrite Hm1. simpl. rewrite lookup_insert_ne by congruence. done.
    + exists mp. rewrite Hm1. simpl. by rewrite lookup_insert_eq.
  - intros seeder -> [Hsome Hc]. split; [by apply Hal|]. intros cg p Hw. simpl.
    specialize (Hp seeder eq_refl Hsome cg p Hw). unfold pids_of in Hp. simpl in Hp.
    rewrite Hp, (Hc cg p Hw), Hm1. simpl. destruct (decide (p = pid)) as [->|Hpn].
    + rewrite lookup_insert_eq. split; [intros [(? & ? & _)|[_ ?]]; [congruence|by exists mp]|].
      intros (? & [= <-] & ?). by right.
    + rewrite lookup_insert_ne by done. naive_solver.
Qed.

(** A recheck brings the kernel's monitor map in line with the rescanned processes, whatever
    it held before. *)
Lemma RecheckAllProcesses_inv processes (m : Mon) :
  monitor_inv m → monitor_inv (RecheckAllProcesses filterProcesses processes m).
Proof.
  intros [_ _ H1 H2 H3 _]. unfold RecheckAllProcesses.
  set (m0 := set_monitoring _ m). set (B := list_to_map _).
  destruct (recheck_remove_loop (range B) m0) as [(Hm1 & Ha1 & Hc1) Hk1]. set (m1 := foldl _ m0 _) in *.
  destruct (recheck_add_loop B (range (monitoringProcesses m1)) m1) as [(Hm2 & Ha2 & Hc2) Hk2].
  set (m2 := foldl _ m1 _) in *. rewrite Hm1 in Hm2. rewrite Ha1 in Ha2. rewrite Hc1 in Hc2.
  split; simpl.
  - intros pid. rewrite Hm2. simpl. unfold shouldMonitoringProcesses. rewrite lookup_omap.
    destruct (processes !! pid) as [ps|]; simpl; [|done]. by destruct (filterProcesses ps).
  - intros pid Hw. rewrite (Hk2 pid Hw), (Hk1 pid Hw), !range_keys, Hm2, Hm1.
    assert (HB : is_Some (B !! pid) ↔ is_Some (em_view (processMonitorMap m0) !! pid))
      by apply iterate_keys. rewrite <- HB.
    destruct (B !! pid) as [[]|] eqn:E; [naive_solver|].
    split; [intros [[[? ?] _]|[? _]]; done|]. intros ?. by right.
  - rewrite Hc2. exact H1.
  - rewrite Hc2, Ha2. exact H2.
  - rewrite Hc2, Ha2. exact H3.
  - exact (rebuild_index m2).
Qed.

Lemma OnNewProcessExecuting_inv taken procExists now pid (m : Mon) :
  (taken = false → monitoringProcesses m !! pid = None) → monitor_inv m →
  monitor_inv (OnNewProcessExecuting (λ m, (taken, m)) procExists now pid m).
Proof.
  intros Ht [Hne Hk H1 H2 H3 Hx]. unfold OnNewProcessExecuting. destruct taken; [done|].
  specialize (Ht eq_refl). set (m1 := updateMonitorStatusForProcess pid false m).
  assert (Hi : monitor_inv m1).
  { split; simpl; [done| |done..]. intros p Hw. destruct (decide (p = pid)) as [->|].
    - rewrite delete_view, Ht by done. by split; intros [].
    - rewrite delete_view_ne by done. by apply Hk. }
  destruct procExists; [|done]. unfold rejectProcessInBPF. destruct Hi.
  by destruct (processNotMonitorMap _).
Qed.
End invariant.

(** ** Properties *)


(** A Kubernetes process of the default namespace in the container "c1". *)
Definition sample_process (pid : Z) : ProcessInterface :=
  MkProcess pid (Some (MkKubernetesProcess "default" "pod-1" "c1" "c1")) "cluster::svc" "java"
    ["10.0.0.1"].

Definition sample_seeder (container : string) : option Z :=
  if String.eqb container "c1" then Some 77 else None.

Definition sample_filter : list ProcessInterface → list ProcessInterface :=
  ShouldIncludeProcesses 1 (NewStaticMonitorFilter ["kube-system"] []).

Notation sample_monitor := (Monitor (bpf_room Z Z) (expiring Z ProcessVerdict)).

Definition fresh_monitor : sample_monitor :=
  MkMonitor ∅ ∅ (MkBpfRoom ∅) (Some (MkBpfRoom ∅)) (Some (MkBpfRoom ∅)) ∅ ∅ [].

Lemma room_writable k : writable (M := bpf_room Z Z) k.
Proof. split; [done|]. intros m. simpl. by destruct (br_entries m !! k). Qed.

Lemma fresh_monitor_inv : monitor_inv fresh_monitor.
Proof.
  split; simpl.
  - intros pid. by rewrite lookup_empty.
  - intros pid _. by rewrite !lookup_empty.
  - intros cg. by rewrite lookup_empty.
  - intros cg. rewrite lookup_empty. by intros [].
  - intros cg am [= <-] _. simpl. by rewrite !lookup_empty.
  - intros host pid. by rewrite lookup_empty.
Qed.

Lemma fresh_monitor_counts : counts_exact sample_seeder fresh_monitor.
Proof.
  split; [by eexists|]. intros cg pid _. simpl. rewrite lookup_empty. simpl. split; [set_solver|].
  intros (ps & Hps & _). by rewrite lookup_empty in Hps.
Qed.

#[local] Existing Instance keys_order.

Definition one_process : sample_monitor :=
  AddNewProcess sample_filter (Some sample_seeder) 0 5 [sample_process 5] fresh_monitor.


(** A process the filter refuses is recorded as approved.  A refused process is
    handed to the removal, which records the verdict of a process that passed every
    filter, so for a minute its access logs count as approved. *)
Example refused_process_is_approved :
  let refused := MkProcess 5 (Some (MkKubernetesProcess "kube-system" "pod-1" "c1" "c1"))
                   "cluster::svc" "java" [] in
  sample_filter [refused] = [] ∧
  ProcessVerdictOf second 5
    (AddNewProcess sample_filter (Some sample_seeder) 0 5 [refused] fresh_monitor) =
    ProcessVerdictApproved.
Proof. vm_compute. split; reflexivity. Qed.

(** A recheck leaves the cgroup allowlist alone, so a process it drops keeps
    its cgroup allowed for ever: the later removal of the process finds no entry to
    take the cgroups from. *)
Example recheck_leaks_cgroup :
  let m := RemoveProcess (Some sample_seeder) 0 5 (RecheckAllProcesses sample_filter ∅ one_process) in
  monitoringProcesses m = ∅ ∧ allowedCgroups m !! 77 = Some {[5]} ∧
  (em_view <$> cgroupAllowlistMap m) = Some {[77 := 1]}.
Proof. vm_compute. repeat split; reflexivity. Qed.

(** The verdict of a process follows its life: monitored while it is monitored,
    approved for a minute after it was removed, and unknown from then on. *)
Theorem verdict_lifecycle `{RangeOrder} {M C} `{!EbpfMap Z Z M}
    `{!ExpiringCache Z ProcessVerdict C} filterProcesses seeder now pid entities t
    (m : Monitor M C) :
  - 2 ^ 31 ≤ pid < 2 ^ 31 → now ≤ t → filterProcesses entities ≠ [] →
  monitoringProcesses m !! pid = None →
  let added := AddNewProcess filterProcesses seeder now pid entities m in
  let removed := RemoveProcess seeder now pid m in
  ProcessVerdictOf t pid added = ProcessVerdictMonitored ∧
  ProcessVerdictOf t pid removed =
    if decide (t < now + processVerdictKeepTime) then ProcessVerdictApproved
    else ProcessVerdictUnknown.
Proof.
  intros Hpid Ht Hf Hnone added removed.
  assert (Hi : i32 pid = pid) by (unfold i32; rewrite Z.mod_small; lia).
  unfold ProcessVerdictOf, ProcessIsMonitor. rewrite Hi. split.
  - unfold added, AddNewProcess. rewrite decide_False, Hnone by done. cbv zeta. simpl.
    rewrite allowCgroups_monitoring. simpl. rewrite lookup_insert_eq.
    by destruct (filterProcesses entities).
  - unfold removed, RemoveProcess. simpl.
    rewrite disallowCgroups_monitoring, lookup_delete_eq, ec_Get_Set by done. by case_decide.
Qed.

Lemma verdict_lifecycle_witness :
  ProcessVerdictOf (2 * second) 5
    (AddNewProcess sample_filter (Some sample_seeder) second 5 [sample_process 5] fresh_monitor) =
    ProcessVerdictMonitored ∧
  ProcessVerdictOf (62 * second) 5 (RemoveProcess (Some sample_seeder) second 5 fresh_monitor) =
    ProcessVerdictUnknown.
Proof.
  destruct (verdict_lifecycle sample_filter (Some sample_seeder) second 5 [sample_process 5]
    (2 * second) fresh_monitor) as [H1 _];
    [lia|unfold second; lia|vm_compute; discriminate|reflexivity|].
  destruct (verdict_lifecycle sample_filter (Some sample_seeder) second 5 [sample_process 5]
    (62 * second) fresh_monitor) as [_ H2];
    [lia|unfold second; lia|vm_compute; discriminate|reflexivity|].
  split; [exact H1|]. rewrite H2. vm_compute. reflexivity.
Defined.
