(* ===== verification/ProcessStorage.v ===== *)
(** * The processes of the node

    Models the process storage (src/pkg/process/finders/storage.go, context.go): the
    processes the finders detect, their report to the backend, and the events that tell
    the listeners about them; with the entity of a process (src/pkg/process/api/process.go)
    and the questions [ProcessManager] passes on to its finders (manager.go).

    A [*ProcessContext] is shared between the storage and the events, so contexts live in a
    store.  A finder is a record of operations.  The backend is a function from a request to
    its reply, [None] for an error, and the requests are recorded.  A send to the event
    queue waits for room, so the queue is a list.  The tickers and the mutex are not
    modelled: every method is one step.

    The connection manager of ProcessMonitor.v is one of the listeners. *)

From stdpp Require Import base gmap list strings.
From Stdlib Require Import ZArith Lia.
From S2P Require Import Prelude GoStrings Interfaces ProcessMonitor.

(** ** Data *)

Record ProcessEntity : Type := MkProcessEntity {
  Layer : string;
  ent_ServiceName : string;
  InstanceName : string;
  ent_ProcessName : string;
  Labels : list string
}.

(** A nil entity is the same as none. *)
Definition SameWith (e other : option ProcessEntity) : bool :=
  match e, other with
  | Some e, Some other =>
    bool_decide (Layer e = Layer other) && bool_decide (ent_ServiceName e = ent_ServiceName other) &&
    bool_decide (InstanceName e = InstanceName other) &&
    bool_decide (ent_ProcessName e = ent_ProcessName other)
  | _, _ => false
  end.

Record DetectedProcess : Type := MkDetectedProcess {
  det_Pid : Z;
  det_Entity : option ProcessEntity;
  det_Kubernetes : option KubernetesProcess;
  det_ExposePorts : list Z;
  det_ExposeHosts : list string
}.

Inductive ProcessUploadStatus : Type := NotReport | ReportSuccess | Ignore.

Record ProcessContext : Type := MkProcessContext {
  ctx_id : string;
  syncStatus : ProcessUploadStatus;
  detectProcess : DetectedProcess;
  detectType : Z;
  exposedPorts : gset Z
}.
Definition ctx_Pid (p : ProcessContext) : Z := det_Pid (detectProcess p).
Definition ctx_Entity (p : ProcessContext) : option ProcessEntity := det_Entity (detectProcess p).
Definition PortIsExpose (port : Z) (p : ProcessContext) : bool := bool_decide (port ∈ exposedPorts p).
Definition DetectNewExposePort (port : Z) (p : ProcessContext) : ProcessContext :=
  MkProcessContext (ctx_id p) (syncStatus p) (detectProcess p) (detectType p)
    ({[ port ]} ∪ exposedPorts p).

(** What a listener reads of a process. *)
Definition process_interface (p : ProcessContext) : ProcessInterface :=
  MkProcess (ctx_Pid p) (det_Kubernetes (detectProcess p))
    (from_option ent_ServiceName "" (ctx_Entity p)) (from_option ent_ProcessName "" (ctx_Entity p))
    (det_ExposeHosts (detectProcess p)).

Inductive ProcessOperate : Type := ProcessOperateAdd | ProcessOperateDelete.

Record processEvent : Type := MkProcessEvent {
  ev_pid : Z;
  ev_processes : list positive;
  ev_operate : ProcessOperate
}.

(** A listener over a state of its own. *)
Record ProcessListener (W : Type) : Type := MkProcessListener {
  on_AddNewProcess : Z → list ProcessInterface → W → W;
  on_RemoveProcess : Z → list ProcessInterface → W → W;
  on_RecheckAllProcesses : gmap Z (list ProcessInterface) → W → W
}.
Arguments MkProcessListener {W} on_AddNewProcess on_RemoveProcess on_RecheckAllProcesses.
Arguments on_AddNewProcess {W} p.
Arguments on_RemoveProcess {W} p.
Arguments on_RecheckAllProcesses {W} p.

(** What the kernel captured of a process that has just started. *)
Record ProcessExecuteContext : Type := MkProcessExecuteContext {
  exec_Pid : Z;
  exec_CgroupID : Z;
  exec_Comm : string
}.

(** What the storage and the manager ask of a finder: [P] are the properties of a report,
    [D] an answer of the backend, [N] the properties of a keep alive.  The judgement of a
    process can add it to the storage, so it runs on a state [X]. *)
Record ProcessFinder (P D N X : Type) : Type := MkProcessFinder {
  BuildEBPFProcess : DetectedProcess → P;
  ParseProcessID : DetectedProcess → D → string;
  BuildNecessaryProperties : DetectedProcess → N;
  fnd_ShouldMonitor : Z → X → bool * X;
  (** A finder that implements [ExecutingProcessFinder]. *)
  fnd_ShouldMonitorExecuting : option (ProcessExecuteContext → X → bool * X);
  (** A finder that implements [cgroupResolvingFinder]. *)
  fnd_cgroup : option (bool * (string → option Z))
}.
Arguments MkProcessFinder {P D N X} _ _ _ _ _ _.
Arguments BuildEBPFProcess {P D N X} p.
Arguments ParseProcessID {P D N X} p.
Arguments BuildNecessaryProperties {P D N X} p.
Arguments fnd_ShouldMonitor {P D N X} p.
Arguments fnd_ShouldMonitorExecuting {P D N X} p.
Arguments fnd_cgroup {P D N X} p.

Inductive backend_call (P N : Type) : Type :=
| ReportProcesses (properties : list P)
| KeepAlive (processes : list (ProcessEntity * N)).
Arguments ReportProcesses {P N} properties.
Arguments KeepAlive {P N} processes.

Record ProcessStorage (P N : Type) : Type := MkProcessStorage {
  processes : gmap Z (list positive);
  contexts : gmap positive ProcessContext;
  next_context : positive;
  eventQueue : list processEvent;
  initListenQueue : list positive;
  listeners : list positive;
  reportedCount : Z;
  calls : list (backend_call P N)
}.
Arguments MkProcessStorage {P N} _ _ _ _ _ _ _ _.
Arguments processes {P N} p.
Arguments contexts {P N} p.
Arguments next_context {P N} p.
Arguments eventQueue {P N} p.
Arguments initListenQueue {P N} p.
Arguments listeners {P N} p.
Arguments reportedCount {P N} p.
Arguments calls {P N} p.

(** ** The event builder *)

Notation eventBuilder := (gmap Z (list positive)).

Definition AddProcess (pid : Z) (pi : positive) (b : eventBuilder) : eventBuilder :=
  <[pid := default [] (b !! pid) ++ [pi]]> b.

Section storage.
Context `{RangeOrder} {P D N X : Type}.
Context (finders : gmap Z (ProcessFinder P D N X)).
Context (ReportClient : list P → option (list D)) (KeepAliveClient : list (ProcessEntity * N) → bool).
Context (propertiesReportFactor : Z).
Notation St := (ProcessStorage P N).
Notation st_op A := (act St Empty_set A).

Definition set_processes (x : gmap Z (list positive)) (s : St) : St :=
  MkProcessStorage x (contexts s) (next_context s) (eventQueue s) (initListenQueue s) (listeners s)
    (reportedCount s) (calls s).
Definition set_context (ref : positive) (p : ProcessContext) (s : St) : St :=
  MkProcessStorage (processes s) (<[ref := p]> (contexts s)) (next_context s) (eventQueue s)
    (initListenQueue s) (listeners s) (reportedCount s) (calls s).
Definition set_count (n : Z) (s : St) : St :=
  MkProcessStorage (processes s) (contexts s) (next_context s) (eventQueue s) (initListenQueue s)
    (listeners s) n (calls s).
Definition push_events (l : list processEvent) (s : St) : St :=
  MkProcessStorage (processes s) (contexts s) (next_context s) (eventQueue s ++ l)
    (initListenQueue s) (listeners s) (reportedCount s) (calls s).
Definition call (c : backend_call P N) (s : St) : St :=
  MkProcessStorage (processes s) (contexts s) (next_context s) (eventQueue s) (initListenQueue s)
    (listeners s) (reportedCount s) (calls s ++ [c]).

Definition context_of (ref : positive) : st_op ProcessContext :=
  s ← get; lift (must (contexts s !! ref)).

Definition Send (operate : ProcessOperate) (b : eventBuilder) (s : St) : St :=
  push_events ((λ x, MkProcessEvent x.1 x.2 operate) <$> range b) s.

(** ** Detection *)

(** The process of a list with the same pid and entity. *)
Fixpoint find_same (p : DetectedProcess) (l : list positive) (m : gmap positive ProcessContext)
  : option positive :=
  match l with
  | [] => None
  | ref :: l =>
    match m !! ref with
    | Some c =>
      if (det_Pid p =? ctx_Pid c) && SameWith (det_Entity p) (ctx_Entity c) then Some ref
      else find_same p l m
    | None => find_same p l m
    end
  end.

Definition constructNewProcessContext (finder : Z) (p : DetectedProcess) (s : St) : positive * St :=
  (next_context s,
   MkProcessStorage (processes s)
     (<[next_context s := MkProcessContext "" NotReport p finder (list_to_set (det_ExposePorts p))]>
        (contexts s))
     (Pos.succ (next_context s)) (eventQueue s) (initListenQueue s) (listeners s) (reportedCount s)
     (calls s)).

Definition finder_processes (finder : Z) (s : St) : list positive := default [] (processes s !! finder).

(** One process of [AddNewProcessInFinder]; a nil process is skipped. *)
Definition add_process (finder : Z) (st : eventBuilder * St) (p : option DetectedProcess)
  : eventBuilder * St :=
  match p with
  | None => st
  | Some p =>
    let '(b, s) := st in
    match find_same p (finder_processes finder s) (contexts s) with
    | Some _ => (b, s)
    | None =>
      let '(ref, s) := constructNewProcessContext finder p s in
      (AddProcess (det_Pid p) ref b,
       set_processes (<[finder := finder_processes finder s ++ [ref]]> (processes s)) s)
    end
  end.

Definition AddNewProcessInFinder (finder : Z) (ps : list (option DetectedProcess)) (s : St) : St :=
  let '(b, s) := foldl (add_process finder) (∅, s) ps in
  Send ProcessOperateAdd b s.

(** One process of [SyncAllProcessInFinder]: the new list, the builder, and which of the
    existing processes were found. *)
Definition sync_process (finder : Z) (existing : list positive)
    (st : list positive * eventBuilder * gmap positive bool * St) (p : option DetectedProcess)
  : list positive * eventBuilder * gmap positive bool * St :=
  match p with
  | None => st
  | Some p =>
    let '(new, b, hasFounded, s) := st in
    match find_same p existing (contexts s) with
    | Some ref => (new ++ [ref], b, <[ref := true]> hasFounded, s)
    | None =>
      let '(ref, s) := constructNewProcessContext finder p s in
      (new ++ [ref], AddProcess (det_Pid p) ref b, hasFounded, s)
    end
  end.

(** The events of the processes that are dead. *)
Definition dead_builder (hasFounded : gmap positive bool) (m : gmap positive ProcessContext)
  : eventBuilder :=
  foldl (λ b x, if x.2 : bool then b
                else match m !! x.1 with
                     | Some c => AddProcess (ctx_Pid c) x.1 b
                     | None => b
                     end) ∅ (range hasFounded).

Definition SyncAllProcessInFinder (finder : Z) (ps : list (option DetectedProcess)) (s : St) : St :=
  let existing := finder_processes finder s in
  let hasFounded : gmap positive bool := foldl (λ m ref, <[ref := false]> m) ∅ existing in
  let '(new, b, hasFounded, s) := foldl (sync_process finder existing) ([], ∅, hasFounded, s) ps in
  let s := Send ProcessOperateAdd b s in
  let s := set_processes (<[finder := new]> (processes s)) s in
  Send ProcessOperateDelete (dead_builder hasFounded (contexts s)) s.

(** ** The report *)

(** A new id is logged with the name of the process, which dereferences its entity. *)
Definition updateProcessToUploadSuccess (ref : positive) (id : string) : st_op unit :=
  pc ← context_of ref;
  let reported := bool_decide (ctx_id pc = id) in
  modify (set_context ref (MkProcessContext id ReportSuccess (detectProcess pc) (detectType pc)
                             (exposedPorts pc)));;
  if reported then mret tt else _ ← lift (must (ctx_Entity pc)); mret tt.

Definition set_status (ref : positive) (status : ProcessUploadStatus) : st_op unit :=
  pc ← context_of ref;
  modify (set_context ref (MkProcessContext (ctx_id pc) status (detectProcess pc) (detectType pc)
                             (exposedPorts pc))).

Definition updateProcessToUploadIgnored (ref : positive) : st_op unit := set_status ref Ignore.

(** The first answer with an id for the process. *)
Definition reported_id (f : ProcessFinder P D N X) (p : DetectedProcess) (replies : list D) : option string :=
  list.head (filter (λ id, id ≠ "") (ParseProcessID f p <$> replies)).

(** A finder that is not registered is a nil interface. *)
Fixpoint build_properties (refs : list positive) : st_op (list P) :=
  match refs with
  | [] => mret []
  | ref :: refs =>
    ps ← context_of ref;
    f ← lift (must (finders !! detectType ps));
    rest ← build_properties refs;
    mret (BuildEBPFProcess f (detectProcess ps) :: rest)
  end.

Fixpoint apply_replies (replies : list D) (refs : list positive) (b : eventBuilder)
  : st_op eventBuilder :=
  match refs with
  | [] => mret b
  | ref :: refs =>
    ps ← context_of ref;
    f ← lift (must (finders !! detectType ps));
    match reported_id f (detectProcess ps) replies with
    | Some id =>
      updateProcessToUploadSuccess ref id;;
      apply_replies replies refs (AddProcess (ctx_Pid ps) ref b)
    | None =>
      updateProcessToUploadIgnored ref;;
      apply_replies replies refs b
    end
  end.

(** [true] is the error of the backend. *)
Definition processesReport (waitReportProcesses : list positive) : st_op bool :=
  if decide (waitReportProcesses = []) then mret false
  else
    properties ← build_properties waitReportProcesses;
    modify (call (ReportProcesses properties));;
    match ReportClient properties with
    | None => mret true
    | Some replies =>
      b ← apply_replies replies waitReportProcesses ∅;
      modify (Send ProcessOperateAdd b);;
      mret false
    end.

Fixpoint build_pings (refs : list positive) : st_op (list (ProcessEntity * N)) :=
  match refs with
  | [] => mret []
  | ref :: refs =>
    ps ← context_of ref;
    if decide (ctx_id ps = "") then set_status ref NotReport;; build_pings refs
    else
      e ← lift (must (ctx_Entity ps));
      f ← lift (must (finders !! detectType ps));
      rest ← build_pings refs;
      mret ((e, BuildNecessaryProperties f (detectProcess ps)) :: rest)
  end.

Definition processesKeepAlive (waitKeepAliveProcess : list positive) : st_op bool :=
  if decide (waitKeepAliveProcess = []) then mret false
  else
    pings ← build_pings waitKeepAliveProcess;
    modify (call (KeepAlive pings));;
    mret (KeepAliveClient pings).

(** The stored processes, in the order of the loops over [processes]. *)
Definition all_refs (s : St) : list positive := concat (range (processes s)).*2.

Definition has_status (s : St) (status : ProcessUploadStatus) (ref : positive) : bool :=
  match contexts s !! ref, status with
  | Some (MkProcessContext _ NotReport _ _ _), NotReport => true
  | Some (MkProcessContext _ ReportSuccess _ _ _), ReportSuccess => true
  | Some (MkProcessContext _ Ignore _ _ _), Ignore => true
  | _, _ => false
  end.

(** The errors of the report and of the keep alive; a factor of zero divides by zero. *)
Definition reportAllProcesses : st_op (bool * bool) :=
  s ← get;
  if decide (processes s = ∅) then mret (false, false)
  else
    let waitReport := filter (λ r, has_status s NotReport r = true) (all_refs s) in
    let keepAlive := filter (λ r, has_status s ReportSuccess r = true) (all_refs s) in
    let count := i64 (reportedCount s + 1) in
    modify (set_count count);;
    if propertiesReportFactor =? 0 then lift Panic
    else
      let shouldReportProperties := Z.rem count propertiesReportFactor =? 0 in
      let waitReport := if shouldReportProperties then waitReport ++ keepAlive else waitReport in
      let keepAlive := if shouldReportProperties then [] else keepAlive in
      e1 ← processesReport waitReport;
      e2 ← processesKeepAlive keepAlive;
      mret (e1, e2).

(** ** Queries *)

Definition GetAllProcesses (s : St) : list positive := all_refs s.
Definition FindAllRegisteredProcesses (s : St) : list positive :=
  filter (λ r, has_status s ReportSuccess r = true) (all_refs s).
Definition FindProcessByID (processID : string) (s : St) : option positive :=
  list.head (filter (λ r, ctx_id <$> contexts s !! r = Some processID) (all_refs s)).
Definition FindProcessByPID (pid : Z) (s : St) : list positive :=
  filter (λ r, ctx_Pid <$> contexts s !! r = Some pid) (all_refs s).

(** ** Listeners *)

Definition AddListener (l : positive) (s : St) : St :=
  MkProcessStorage (processes s) (contexts s) (next_context s) (eventQueue s)
    (initListenQueue s ++ [l]) (listeners s ++ [l]) (reportedCount s) (calls s).
Definition DeleteListener (l : positive) (s : St) : St :=
  MkProcessStorage (processes s) (contexts s) (next_context s) (eventQueue s) (initListenQueue s)
    (filter (λ l', l' ≠ l) (listeners s)) (reportedCount s) (calls s).

(** The processes of an event as the listener sees them. *)
Definition interfaces (refs : list positive) (s : St) : list ProcessInterface :=
  omap (λ ref, process_interface <$> contexts s !! ref) refs.

Context {W : Type} (listener : positive → ProcessListener W).

Definition consumeProcessEvent (ls : list positive) (e : processEvent) (s : St) (w : W) : W :=
  foldl (λ w l,
    match ev_operate e with
    | ProcessOperateAdd => on_AddNewProcess (listener l) (ev_pid e) (interfaces (ev_processes e) s) w
    | ProcessOperateDelete => on_RemoveProcess (listener l) (ev_pid e) (interfaces (ev_processes e) s) w
    end) w ls.

Definition notifyToRecheckAllProcesses (ls : list positive) (s : St) (w : W) : W :=
  let events := foldl (λ b ref, match contexts s !! ref with
                                | Some pc => AddProcess (ctx_Pid pc) ref b
                                | None => b
                                end) ∅ (all_refs s) in
  foldl (λ w l, on_RecheckAllProcesses (listener l) ((λ refs, interfaces refs s) <$> events) w) w ls.

(** What the goroutine of [StartReport] does with the next event, with the next listener,
    and on the tick. *)
Definition take_event (s : St) (w : W) : St * W :=
  match eventQueue s with
  | [] => (s, w)
  | e :: rest =>
    (MkProcessStorage (processes s) (contexts s) (next_context s) rest (initListenQueue s)
       (listeners s) (reportedCount s) (calls s), consumeProcessEvent (listeners s) e s w)
  end.
Definition take_listener (s : St) (w : W) : St * W :=
  match initListenQueue s with
  | [] => (s, w)
  | l :: rest =>
    (MkProcessStorage (processes s) (contexts s) (next_context s) (eventQueue s) rest (listeners s)
       (reportedCount s) (calls s), notifyToRecheckAllProcesses [l] s w)
  end.
Definition on_tick (s : St) (w : W) : W :=
  if decide (listeners s = []) then w else notifyToRecheckAllProcesses (listeners s) s w.
End storage.

(** ** The manager's questions to the finders *)

Section questions.
Context {P D N X : Type}.
Notation Finder := (ProcessFinder P D N X).

(** Every finder is asked, also after one agreed. *)
Definition ShouldMonitor (pid : Z) (fs : list Finder) (x : X) : bool * X :=
  foldl (λ st f, let '(b, x) := fnd_ShouldMonitor f pid st.2 in (if b then true else st.1, x))
    (false, x) fs.

Definition CgroupResolvable (fs : list Finder) : bool :=
  existsb (λ f, match fnd_cgroup f with Some (resolvable, _) => resolvable | None => false end) fs.

Fixpoint CgroupIDByContainer (containerID : string) (fs : list Finder) : option Z :=
  match fs with
  | [] => None
  | f :: fs =>
    match fnd_cgroup f with
    | Some (_, byContainer) =>
      match byContainer containerID with
      | Some id => Some id
      | None => CgroupIDByContainer containerID fs
      end
    | None => CgroupIDByContainer containerID fs
    end
  end.

Definition ExecutingProcessesWanted (fs : list Finder) : bool :=
  existsb (λ f, bool_decide (is_Some (fnd_ShouldMonitorExecuting f))) fs.

Definition Finders_ShouldMonitorExecuting (exec : ProcessExecuteContext) (fs : list Finder) (x : X)
  : bool * X :=
  foldl (λ st f,
    let '(b, x) := match fnd_ShouldMonitorExecuting f with
                   | Some executing => executing exec st.2
                   | None => fnd_ShouldMonitor f (exec_Pid exec) st.2
                   end in
    (if b then true else st.1, x)) (false, x) fs.
End questions.

(** The connection manager as a listener; a removal does not look at the processes. *)
Definition monitor_listener `{RangeOrder} {M C : Type} `{!EbpfMap Z Z M}
    `{!ExpiringCache Z ProcessVerdict C}
    (filterProcesses : list ProcessInterface → list ProcessInterface)
    (cgroupSeeder : option (string → option Z)) (now : Z) : ProcessListener (Monitor M C) :=
  MkProcessListener (AddNewProcess filterProcesses cgroupSeeder now)
    (λ pid _, RemoveProcess cgroupSeeder now pid) (RecheckAllProcesses filterProcesses).

(** ** Specification: what the events tell *)

(** The processes a listener knows after an event. *)
Definition track_event (known : gset positive) (e : processEvent) : gset positive :=
  match ev_operate e with
  | ProcessOperateAdd => known ∪ list_to_set (ev_processes e)
  | ProcessOperateDelete => known ∖ list_to_set (ev_processes e)
  end.
Definition track (known : gset positive) (es : list processEvent) : gset positive :=
  foldl track_event known es.

Section spec.
Context `{RangeOrder} {P D N X : Type}.
Context (finders : gmap Z (ProcessFinder P D N X)).
Notation St := (ProcessStorage P N).

Definition stored (s : St) : gset positive := list_to_set (all_refs s).

(** Steps of the storage, with the events that are taken from the queue.  The backend can
    answer anything. *)
Inductive storage_run : St → list processEvent → St → Prop :=
| run_start s : storage_run s [] s
| run_add s es s' finder ps :
  storage_run s es s' → storage_run s es (AddNewProcessInFinder finder ps s')
| run_sync s es s' finder ps :
  storage_run s es s' → storage_run s es (SyncAllProcessInFinder finder ps s')
| run_report s es s' report keep factor r s'' :
  storage_run s es s' →
  reportAllProcesses finders report keep factor s' = (Ok r, s'') → storage_run s es s''
| run_port s es s' ref c port :
  storage_run s es s' → contexts s' !! ref = Some c →
  storage_run s es (set_context ref (DetectNewExposePort port c) s')
| run_event {W} (listener : positive → ProcessListener W) w s es s' e rest :
  storage_run s es s' → eventQueue s' = e :: rest →
  storage_run s (es ++ [e]) (take_event listener s' w).1.

Definition storage_start : St := MkProcessStorage ∅ ∅ 1 [] [] [] 0 [].
End spec.

(** ** Event builders *)

Definition members (b : eventBuilder) : gset positive :=
  ⋃ ((λ x : Z * list positive, list_to_set x.2) <$> map_to_list b).

Lemma elem_of_members r b : r ∈ members b ↔ ∃ pid l, b !! pid = Some l ∧ r ∈ l.
Proof.
  unfold members. rewrite elem_of_union_list. split.
  - intros (x & (y & -> & Hy)%list_elem_of_fmap & Hr). destruct y as [pid l].
    apply elem_of_map_to_list in Hy. apply elem_of_list_to_set in Hr. eauto.
  - intros (pid & l & Hl & Hr). exists (list_to_set l). split; [|by apply elem_of_list_to_set].
    apply list_elem_of_fmap. exists (pid, l). split; [done|]. by apply elem_of_map_to_list.
Qed.

Lemma members_AddProcess pid r b : members (AddProcess pid r b) = members b ∪ {[ r ]}.
Proof.
  apply set_eq. intros x. unfold AddProcess. rewrite elem_of_union, elem_of_singleton, !elem_of_members.
  split.
  - intros (pid' & l & Hl & Hx). apply lookup_insert_Some in Hl as [[<- <-]|[_ Hl]]; [|by left; eauto].
    apply elem_of_app in Hx as [Hx|Hx%list_elem_of_singleton]; [left|by right].
    destruct (b !! pid) as [l|] eqn:Hb; [by eauto|by apply elem_of_nil in Hx].
  - intros [(pid' & l & Hl & Hx)| ->].
    + destruct (decide (pid' = pid)) as [->|Hne].
      * exists pid, (l ++ [r]). rewrite lookup_insert_eq, Hl. split; [done|]. apply elem_of_app. by left.
      * exists pid', l. by rewrite lookup_insert_ne.
    + exists pid, (default [] (b !! pid) ++ [r]). rewrite lookup_insert_eq. split; [done|].
      apply elem_of_app. right. by apply list_elem_of_singleton.
Qed.

Lemma members_empty : members ∅ = ∅.
Proof. unfold members. by rewrite map_to_list_empty. Qed.

Lemma track_app known es es' : track known (es ++ es') = track (track known es) es'.
Proof. apply foldl_app. Qed.

Section tracking.
Context `{RangeOrder} {P D N X : Type}.
Context (finders : gmap Z (ProcessFinder P D N X)).
Notation St := (ProcessStorage P N).

(** The events of a builder. *)
Definition events_of (operate : ProcessOperate) (b : eventBuilder) : list processEvent :=
  (λ x, MkProcessEvent x.1 x.2 operate) <$> range b.

Lemma track_adds known (l : list (Z * list positive)) r :
  r ∈ track known ((λ x, MkProcessEvent x.1 x.2 ProcessOperateAdd) <$> l) ↔
  r ∈ known ∨ ∃ x, x ∈ l ∧ r ∈ x.2.
Proof.
  revert known. induction l as [|x l IH]; intros known; simpl; [set_solver|].
  unfold track in *. simpl. rewrite IH. unfold track_event. simpl.
  rewrite elem_of_union, elem_of_list_to_set. set_solver.
Qed.

Lemma track_deletes known (l : list (Z * list positive)) r :
  r ∈ track known ((λ x, MkProcessEvent x.1 x.2 ProcessOperateDelete) <$> l) ↔
  r ∈ known ∧ ¬ ∃ x, x ∈ l ∧ r ∈ x.2.
Proof.
  revert known. induction l as [|x l IH]; intros known; simpl; [set_solver|].
  unfold track in *. simpl. rewrite IH. unfold track_event. simpl.
  rewrite elem_of_difference, elem_of_list_to_set. set_solver.
Qed.

Lemma in_range_members (b : eventBuilder) r :
  (∃ x, x ∈ range b ∧ r ∈ x.2) ↔ r ∈ members b.
Proof.
  rewrite elem_of_members. setoid_rewrite range_perm. split.
  - intros ([pid l] & Hx%elem_of_map_to_list & Hr). eauto.
  - intros (pid & l & Hl & Hr). exists (pid, l). by rewrite elem_of_map_to_list.
Qed.

Lemma track_events known operate b :
  track known (events_of operate b) =
  match operate with
  | ProcessOperateAdd => known ∪ members b
  | ProcessOperateDelete => known ∖ members b
  end.
Proof.
  apply set_eq. intros r. unfold events_of. destruct operate.
  - by rewrite track_adds, elem_of_union, in_range_members.
  - by rewrite track_deletes, elem_of_difference, in_range_members.
Qed.

(** ** The invariant of the storage *)

Record storage_ok (s : St) : Prop := {
  so_refs finder refs r : processes s !! finder = Some refs → r ∈ refs →
    ∃ c, contexts s !! r = Some c ∧ detectType c = finder;
  so_fresh r : is_Some (contexts s !! r) → (r < next_context s)%positive;
  so_ids r c : contexts s !! r = Some c → syncStatus c = ReportSuccess → ctx_id c ≠ ""
}.

Lemma elem_of_stored (s : St) r : r ∈ stored s ↔ ∃ finder refs, processes s !! finder = Some refs ∧ r ∈ refs.
Proof.
  unfold stored, all_refs. rewrite elem_of_list_to_set, list_elem_of_In, in_concat. split.
  - intros (refs & Hin%list_elem_of_In & Hr%list_elem_of_In). rewrite range_perm in Hin.
    apply list_elem_of_fmap in Hin as ([f l] & -> & Hl%elem_of_map_to_list). eauto.
  - intros (f & refs & Hl & Hr). exists refs. rewrite <- !list_elem_of_In. split; [|done].
    rewrite range_perm. apply list_elem_of_fmap. exists (f, refs). by rewrite elem_of_map_to_list.
Qed.

(** A step that appends events which tell what it changes. *)
Definition tells (s s' : St) : Prop :=
  storage_ok s → storage_ok s' ∧
  ∃ es, eventQueue s' = eventQueue s ++ es ∧ track (stored s) es = stored s'.

#[local] Instance tells_preorder : PreOrder tells.
Proof.
  split.
  - intros s Hs. split; [done|]. exists []. by rewrite app_nil_r.
  - intros s1 s2 s3 H12 H23 H1. destruct (H12 H1) as [H2 (es & Hq & Ht)].
    destruct (H23 H2) as [H3 (es' & Hq' & Ht')]. split; [done|]. exists (es ++ es').
    by rewrite Hq', Hq, app_assoc, track_app, Ht, Ht'.
Qed.

(** ** Detection tells what it changes *)

Lemma construct_ok finder p (s : St) :
  storage_ok s →
  let '(ref, s') := constructNewProcessContext finder p s in
  storage_ok s' ∧ ref = next_context s ∧
  (∃ c, contexts s' !! ref = Some c ∧ detectType c = finder) ∧
  (∀ r, is_Some (contexts s !! r) → contexts s' !! r = contexts s !! r) ∧
  processes s' = processes s ∧ eventQueue s' = eventQueue s.
Proof.
  intros [Hr Hf Hi]. simpl.
  assert (Hold : ∀ r, is_Some (contexts s !! r) →
    <[next_context s := MkProcessContext "" NotReport p finder (list_to_set (det_ExposePorts p))]>
      (contexts s) !! r = contexts s !! r).
  { intros r Hs. apply Hf in Hs. rewrite lookup_insert_ne; [done|lia]. }
  split; [|split; [done|split; [|by split_and!]]].
  - split; simpl.
    + intros f refs r Hp Hin. destruct (Hr f refs r Hp Hin) as (c & Hc & Ht). exists c.
      rewrite Hold by by eexists. done.
    + intros r Hs. apply lookup_insert_is_Some in Hs as [<-|[_ Hs]]; [lia|]. apply Hf in Hs. lia.
    + intros r c Hc. apply lookup_insert_Some in Hc as [[<- <-]|[_ Hc]]; [done|]. by eapply Hi.
  - eexists. rewrite lookup_insert_eq. done.
Qed.

#[local] Opaque constructNewProcessContext.

Lemma set_processes_ok (s : St) finder refs :
  storage_ok s → (∀ r, r ∈ refs → ∃ c, contexts s !! r = Some c ∧ detectType c = finder) →
  storage_ok (set_processes (<[finder := refs]> (processes s)) s).
Proof.
  intros [Hr Hf Hi] Hnew. split; simpl; [|done..]. intros f l r Hl Hin.
  apply lookup_insert_Some in Hl as [[<- <-]|[_ Hl]]; [by apply Hnew|by eapply Hr].
Qed.

Lemma push_events_ok (s : St) es : storage_ok s → storage_ok (push_events es s).
Proof. by intros []. Qed.

Lemma in_finder (s : St) finder r :
  r ∈ finder_processes finder s ↔ ∃ refs, processes s !! finder = Some refs ∧ r ∈ refs.
Proof.
  unfold finder_processes. destruct (processes s !! finder) as [l|]; simpl; [naive_solver|].
  split; [by intros ?%elem_of_nil|by intros (? & ? & ?)].
Qed.

(** The stored processes when the list of a finder is replaced. *)
Lemma stored_replace (s : St) finder refs r :
  r ∈ stored (set_processes (<[finder := refs]> (processes s)) s) ↔
  r ∈ refs ∨ ∃ f l, f ≠ finder ∧ processes s !! f = Some l ∧ r ∈ l.
Proof.
  rewrite elem_of_stored. simpl. split.
  - intros (f & l & Hl & Hr). apply lookup_insert_Some in Hl as [[<- <-]|[Hne Hl]]; [by left|].
    right. exists f, l. done.
  - intros [Hr|(f & l & Hne & Hl & Hr)].
    + exists finder, refs. by rewrite lookup_insert_eq.
    + exists f, l. by rewrite lookup_insert_ne.
Qed.

Lemma stored_split (s : St) finder r :
  r ∈ stored s ↔ r ∈ finder_processes finder s ∨ ∃ f l, f ≠ finder ∧ processes s !! f = Some l ∧ r ∈ l.
Proof.
  rewrite elem_of_stored, in_finder. split.
  - intros (f & l & Hl & Hr). destruct (decide (f = finder)) as [->|Hne]; [left; eauto|right; eauto].
  - intros [(l & Hl & Hr)|(f & l & _ & Hl & Hr)]; eauto.
Qed.

(** Adding. *)
Definition add_inv (s : St) (st : eventBuilder * St) : Prop :=
  storage_ok st.2 ∧ eventQueue st.2 = eventQueue s ∧ stored st.2 = stored s ∪ members st.1.

Lemma add_process_inv s finder st p : add_inv s st → add_inv s (add_process finder st p).
Proof.
  destruct st as [b s1], p as [p|]; [|done]. intros (Hok & Hq & Hst). simpl in *.
  destruct (find_same p (finder_processes finder s1) (contexts s1)); [done|].
  pose proof (construct_ok finder p s1 Hok) as Hc.
  destruct (constructNewProcessContext finder p s1) as [ref s2].
  destruct Hc as (Hok2 & -> & Hctx & Hold & Hp & Hq2). split; [|split].
  - apply set_processes_ok; [done|]. intros r [Hr|Hr%list_elem_of_singleton]%elem_of_app; [|by subst].
    apply in_finder in Hr as (refs & Hl & Hr). exact (so_refs _ Hok2 finder refs r Hl Hr).
  - simpl. by rewrite Hq2.
  - simpl. rewrite members_AddProcess. apply set_eq. intros r.
    rewrite stored_replace, elem_of_app, list_elem_of_singleton, union_assoc_L, <- Hst,
      elem_of_union, elem_of_singleton, (stored_split s1 finder).
    unfold finder_processes. rewrite Hp. tauto.
Qed.

Lemma Add_tells finder ps (s : St) : tells s (AddNewProcessInFinder finder ps s).
Proof.
  intros Hs. unfold AddNewProcessInFinder.
  assert (Hinv : add_inv s (foldl (add_process finder) (∅, s) ps)).
  { assert (H0 : add_inv s (∅, s)).
    { split; [done|]. split; [done|]. simpl. rewrite members_empty. set_solver. }
    revert H0. generalize (∅ : eventBuilder, s). induction ps as [|p ps IH]; intros st Hst; [done|].
    apply IH. by apply add_process_inv. }
  destruct (foldl (add_process finder) (∅, s) ps) as [b s1]. destruct Hinv as (Hok & Hq & Hst).
  simpl in *. split; [by apply push_events_ok|]. exists (events_of ProcessOperateAdd b).
  split; [simpl; by rewrite Hq|]. rewrite track_events. by rewrite <- Hst.
Qed.

(** Synchronising: what the loop over the detected processes has collected. *)
Record sync_inv (s : St) (finder : Z) (existing : list positive) (new : list positive)
    (b : eventBuilder) (hasFounded : gmap positive bool) (s1 : St) : Prop := {
  si_ok : storage_ok s1;
  si_queue : eventQueue s1 = eventQueue s;
  si_processes : processes s1 = processes s;
  si_typed r : r ∈ new → ∃ c, contexts s1 !! r = Some c ∧ detectType c = finder;
  si_dom : dom hasFounded = list_to_set existing;
  si_new r : r ∈ new ↔ r ∈ members b ∨ hasFounded !! r = Some true;
  si_fresh r : r ∈ members b → r ∉ stored s ∧ r ∉ existing
}.

Lemma find_same_in p l m ref : find_same p l m = Some ref → ref ∈ l.
Proof.
  induction l as [|r l IH]; simpl; [done|]. destruct (m !! r) as [c|]; [|intros; right; auto].
  case_match; [intros [= <-]; left|intros; right; auto].
Qed.

Lemma sync_process_inv s finder new b hf s1 p :
  storage_ok s → let existing := finder_processes finder s in
  sync_inv s finder existing new b hf s1 →
  let '(new', b', hf', s2) := sync_process finder existing (new, b, hf, s1) p in
  sync_inv s finder existing new' b' hf' s2.
Proof.
  intros Hs existing Hinv. destruct p as [p|]; [|done]. simpl.
  pose proof Hinv as [Hok Hq Hp Ht Hd Hn Hfr].
  destruct (find_same p existing (contexts s1)) as [ref|] eqn:Hfind.
  - apply find_same_in in Hfind. split; try done.
    + intros r [Hr|Hr%list_elem_of_singleton]%elem_of_app; [by apply Ht|subst r].
      apply in_finder in Hfind as (refs & Hl & Hin). rewrite <- Hp in Hl.
      exact (so_refs _ Hok finder refs ref Hl Hin).
    + rewrite dom_insert_L, Hd. apply set_eq. intros x. set_solver.
    + intros r. rewrite elem_of_app, list_elem_of_singleton, Hn, lookup_insert_Some.
      destruct (decide (r = ref)); naive_solver.
  - pose proof (construct_ok finder p s1 Hok) as Hc.
    destruct (constructNewProcessContext finder p s1) as [ref s2].
    destruct Hc as (Hok2 & -> & Hctx & Hold & Hp2 & Hq2).
    assert (Hlow : ∀ f l r, processes s !! f = Some l → r ∈ l → r ≠ next_context s1).
    { intros f l r Hl Hr ->. rewrite <- Hp in Hl. destruct (so_refs _ Hok f l _ Hl Hr) as (c & Hc & _).
      apply mk_is_Some, (so_fresh _ Hok) in Hc. lia. }
    split; [done|congruence|congruence| |done| |].
    + intros r [Hr|Hr%list_elem_of_singleton]%elem_of_app; [|by subst].
      destruct (Ht r Hr) as (c & Hc & Hty). exists c. rewrite Hold by by eexists. done.
    + intros r. rewrite elem_of_app, list_elem_of_singleton, Hn, members_AddProcess. set_solver.
    + intros r. rewrite members_AddProcess, elem_of_union, elem_of_singleton. intros [Hr| ->]; [by apply Hfr|].
      split; [rewrite elem_of_stored|unfold existing; rewrite in_finder].
      * intros (f & l & Hl & Hr). by apply (Hlow f l _ Hl Hr).
      * intros (l & Hl & Hr). by apply (Hlow finder l _ Hl Hr).
Qed.

Lemma sync_fold_inv s finder ps st :
  storage_ok s →
  (let '(new, b, hf, s1) := st in sync_inv s finder (finder_processes finder s) new b hf s1) →
  let '(new, b, hf, s1) := foldl (sync_process finder (finder_processes finder s)) st ps in
  sync_inv s finder (finder_processes finder s) new b hf s1.
Proof.
  intros Hs. revert st. induction ps as [|p ps IH]; intros st Hst; [done|]. simpl. apply IH.
  destruct st as [[[new b] hf] s1]. by apply sync_process_inv.
Qed.

Lemma initial_founded l (m : gmap positive bool) :
  let m' := foldl (λ m ref, <[ref := false]> m) m l in
  dom m' = dom m ∪ list_to_set l ∧ ∀ r, m' !! r = Some true → m !! r = Some true.
Proof.
  revert m. induction l as [|x l IH]; intros m; simpl; [split; [set_solver|done]|].
  destruct (IH (<[x := false]> m)) as [Hd Hl]. split; [rewrite Hd, dom_insert_L; set_solver|].
  intros r Hr. apply Hl in Hr. apply lookup_insert_Some in Hr. naive_solver.
Qed.

(** The dead processes are the existing ones that were not found. *)
Lemma dead_builder_members (hf : gmap positive bool) m r :
  (∀ x, is_Some (hf !! x) → is_Some (m !! x)) →
  r ∈ members (dead_builder hf m) ↔ hf !! r = Some false.
Proof.
  intros Hm. unfold dead_builder. rewrite <- elem_of_map_to_list, <- (range_perm hf).
  assert (Hall : ∀ x, x ∈ range hf → is_Some (m !! x.1)).
  { intros [x v] Hx. rewrite range_perm, elem_of_map_to_list in Hx. apply Hm. by eexists. }
  revert Hall. generalize (range hf). intros l Hall.
  transitivity (r ∈ members ∅ ∨ (r, false) ∈ l); [|rewrite members_empty; set_solver].
  generalize (∅ : eventBuilder). induction l as [|[x v] l IH]; intros b; [set_solver|]. simpl.
  destruct (Hall (x, v)) as [c Hc]; [set_solver|]. rewrite IH by set_solver. simpl in Hc.
  destruct v; [|rewrite Hc, members_AddProcess]; set_solver.
Qed.

Lemma one_finder (s : St) f l finder r :
  storage_ok s → f ≠ finder → processes s !! f = Some l → r ∈ l → r ∉ finder_processes finder s.
Proof.
  intros Hs Hne Hl Hr (l' & Hl' & Hr')%in_finder.
  destruct (so_refs _ Hs f l r Hl Hr) as (c & Hc & Ht).
  destruct (so_refs _ Hs finder l' r Hl' Hr') as (c' & Hc' & Ht'). congruence.
Qed.

Lemma sync_result s finder new b hf s1 m :
  storage_ok s → sync_inv s finder (finder_processes finder s) new b hf s1 →
  (∀ x, is_Some (hf !! x) → is_Some (m !! x)) →
  (stored s ∪ members b) ∖ members (dead_builder hf m) =
  stored (set_processes (<[finder := new]> (processes s1)) s1).
Proof.
  intros Hs [Hok Hq Hp Ht Hd Hn Hfr] Hm. apply set_eq. intros r.
  rewrite elem_of_difference, elem_of_union, dead_builder_members by done.
  rewrite stored_replace, (stored_split s finder), Hn, Hp.
  assert (Hdom : r ∈ finder_processes finder s ↔ is_Some (hf !! r)).
  { rewrite <- elem_of_dom, Hd, elem_of_list_to_set. done. }
  assert (Hother : ∀ f l, f ≠ finder → processes s !! f = Some l → r ∈ l → hf !! r = None).
  { intros f l Hne Hl Hr. apply eq_None_not_Some. rewrite <- Hdom. by eapply one_finder. }
  assert (Hmem : r ∈ members b → hf !! r = None).
  { intros Hr. apply eq_None_not_Some. rewrite <- Hdom. by apply Hfr. }
  destruct (hf !! r) as [[]|] eqn:Hr.
  - assert (r ∈ finder_processes finder s) by (apply Hdom; by eexists). naive_solver.
  - split; [by intros [_ []]|]. intros [[Hb|?]|(f & l & Hne & Hl & Hin)]; [|done|].
    + by apply Hmem in Hb.
    + by specialize (Hother f l Hne Hl Hin).
  - assert (r ∉ finder_processes finder s) by (rewrite Hdom; by intros []). naive_solver.
Qed.

Lemma Sync_tells finder ps (s : St) : tells s (SyncAllProcessInFinder finder ps s).
Proof.
  intros Hs. unfold SyncAllProcessInFinder. set (existing := finder_processes finder s).
  set (hf0 := foldl (λ m ref, <[ref := false]> m) (∅ : gmap positive bool) existing).
  destruct (initial_founded existing ∅) as [Hd0 Ht0]. fold hf0 in Hd0, Ht0.
  pose proof (sync_fold_inv s finder ps ([], ∅, hf0, s) Hs) as Hinv. simpl in Hinv.
  fold existing in Hinv.
  destruct (foldl (sync_process finder existing) ([], ∅, hf0, s) ps) as [[[new b] hf] s1].
  assert (Hi : sync_inv s finder existing new b hf s1).
  { apply Hinv. split; [done..| | | |].
    - intros r Hr. by apply elem_of_nil in Hr.
    - rewrite Hd0, dom_empty_L. set_solver.
    - intros r. rewrite members_empty. split; [by intros ?%elem_of_nil|].
      intros [?|Hr%Ht0]; [set_solver|]. by rewrite lookup_empty in Hr.
    - intros r. rewrite members_empty. set_solver. }
  pose proof Hi as [Hok Hq Hp Ht Hd Hn Hfr].
  set (s2 := set_processes (<[finder := new]> (processes (Send ProcessOperateAdd b s1)))
               (Send ProcessOperateAdd b s1)).
  assert (Hm : ∀ x, is_Some (hf !! x) → is_Some (contexts s2 !! x)).
  { intros x Hx. apply elem_of_dom in Hx. rewrite Hd in Hx. apply elem_of_list_to_set in Hx.
    apply in_finder in Hx as (l & Hl & Hx). rewrite <- Hp in Hl.
    destruct (so_refs _ Hok finder l x Hl Hx) as (c & Hc & _). by eexists. }
  assert (Hok2 : storage_ok s2) by by apply set_processes_ok; [apply push_events_ok|].
  split; [by apply push_events_ok|].
  exists (events_of ProcessOperateAdd b ++ events_of ProcessOperateDelete (dead_builder hf (contexts s2))).
  split; [simpl; by rewrite Hq, <- app_assoc|]. rewrite track_app, !track_events.
  rewrite (sync_result s finder new b hf s1 (contexts s2) Hs Hi Hm). done.
Qed.

(** ** The report tells what it changes *)

(** Only the report status of contexts changes. *)
Definition mild (s s' : St) : Prop :=
  processes s' = processes s ∧ eventQueue s' = eventQueue s ∧ (storage_ok s → storage_ok s').

#[local] Instance mild_preorder : PreOrder mild.
Proof.
  split; [by intros s|]. intros s1 s2 s3 (? & ? & ?) (? & ? & ?). split; [congruence|].
  split; [congruence|auto].
Qed.

Lemma mild_context ref c c' (s : St) :
  contexts s !! ref = Some c → detectType c' = detectType c →
  (syncStatus c' = ReportSuccess → ctx_id c' ≠ "" ∨ c' = c) →
  mild s (set_context ref c' s).
Proof.
  intros Hc Ht Hid. split; [done|]. split; [done|]. intros [Hr Hf Hi]. split; simpl.
  - intros f refs r Hp Hin. destruct (Hr f refs r Hp Hin) as (x & Hx & Hty).
    destruct (decide (r = ref)) as [->|Hne].
    + exists c'. rewrite lookup_insert_eq. split; congruence.
    + exists x. by rewrite lookup_insert_ne.
  - intros r [<-|[_ Hs]]%lookup_insert_is_Some; [apply Hf; by eexists|by apply Hf].
  - intros r x [[<- <-]|[_ Hx]]%lookup_insert_Some Hst; [|by eapply Hi].
    destruct (Hid Hst) as [?| ->]; [done|by eapply Hi].
Qed.

Lemma mild_context_of ref : respects mild (context_of ref : act St Empty_set _).
Proof. unfold context_of. respects_all. Qed.
#[local] Hint Resolve mild_context_of : respects.

Lemma mild_success ref id : id ≠ "" → respects mild (updateProcessToUploadSuccess ref id : act St Empty_set _).
Proof.
  intros Hid s. unfold updateProcessToUploadSuccess, context_of. step_act.
  destruct (contexts s !! ref) as [c|] eqn:Hc; step_act; [|reflexivity].
  assert (Hm : mild s (set_context ref (MkProcessContext id ReportSuccess (detectProcess c)
    (detectType c) (exposedPorts c)) s)) by (eapply mild_context; [done|done|]; simpl; by left).
  case_bool_decide; [done|]. destruct (ctx_Entity c); by step_act.
Qed.

Lemma mild_status ref status :
  status ≠ ReportSuccess → respects mild (set_status ref status : act St Empty_set _).
Proof.
  intros Hs s. unfold set_status, context_of. step_act.
  destruct (contexts s !! ref) as [c|] eqn:Hc; step_act; [|reflexivity].
  by eapply mild_context.
Qed.

Lemma reported_id_nonempty (f : ProcessFinder P D N X) p replies id :
  reported_id f p replies = Some id → id ≠ "".
Proof.
  unfold reported_id. intros Hh. assert (Hin : id ∈ filter (λ id, id ≠ "") (ParseProcessID f p <$> replies)).
  { destruct (filter _ _); [done|]. simplify_eq/=. left. }
  by apply list_elem_of_filter in Hin as [? _].
Qed.

Lemma mild_build_properties refs : respects mild (build_properties finders refs).
Proof. induction refs; simpl; respects_all. Qed.

Lemma mild_build_pings refs : respects mild (build_pings finders refs).
Proof.
  pose proof (λ ref, mild_status ref NotReport ltac:(done)). induction refs; simpl; respects_all.
Qed.

Lemma apply_replies_members replies refs b s b' s' :
  apply_replies finders replies refs b s = (Ok b', s') →
  mild s s' ∧ members b' ⊆ members b ∪ list_to_set refs.
Proof.
  revert b s. induction refs as [|ref refs IH]; intros b s; simpl.
  { intros [= <- <-]. split; [reflexivity|set_solver]. }
  unfold context_of at 1. step_act. destruct (contexts s !! ref) as [c|] eqn:Hc; step_act; [|done].
  destruct (finders !! detectType c) as [f|]; step_act; [|done].
  destruct (reported_id f (detectProcess c) replies) as [id|] eqn:Hid.
  - pose proof (mild_success ref id (reported_id_nonempty f _ _ id Hid) s) as Hm.
    unfold mbind, act_bind. destruct (updateProcessToUploadSuccess ref id s) as [[]]; [|done..].
    intros [Hm' Hb]%IH. split; [by etrans|]. rewrite members_AddProcess in Hb. set_solver.
  - pose proof (mild_status ref Ignore ltac:(done) s) as Hm.
    unfold mbind, act_bind, updateProcessToUploadIgnored.
    destruct (set_status ref Ignore s) as [[]]; [|done..].
    intros [Hm' Hb]%IH. split; [by etrans|]. set_solver.
Qed.

Lemma mild_tells (s s' : St) : mild s s' → tells s s'.
Proof.
  intros (Hp & Hq & Hok) Hs. split; [auto|]. exists []. rewrite app_nil_r. split; [done|].
  unfold stored, all_refs. simpl. by rewrite Hp.
Qed.

Lemma mild_call c : respects mild (modify (call c) : act St Empty_set unit).
Proof. apply respects_modify. intros s. split; [done|]. split; [done|]. by intros []. Qed.

(** Known processes are told again. *)
Lemma Send_tells b (s : St) : members b ⊆ stored s → tells s (Send ProcessOperateAdd b s).
Proof.
  intros Hb Hs. split; [by apply push_events_ok|]. exists (events_of ProcessOperateAdd b).
  split; [done|]. rewrite track_events. apply set_eq. intros r. rewrite elem_of_union. set_solver.
Qed.

Lemma processesReport_tells client refs (s s' : St) r :
  list_to_set refs ⊆ stored s → processesReport finders client refs s = (Ok r, s') →
  tells s s' ∧ stored s' = stored s.
Proof.
  intros Hrefs. unfold processesReport. destruct (decide (refs = [])); [intros [= <- <-]; split; [reflexivity|done]|].
  pose proof (mild_build_properties refs s) as Hm1. unfold mbind at 1, act_bind at 1.
  destruct (build_properties finders refs s) as [[ps| |] s1]; [|done..]. simpl in Hm1.
  pose proof (mild_call (ReportProcesses ps) s1) as Hm2. step_act.
  set (s2 := call (ReportProcesses ps) s1) in *. assert (Hm : mild s s2) by by etrans.
  assert (Hst : ∀ s', mild s s' → stored s' = stored s).
  { intros s3 (Hp & _). unfold stored, all_refs. by rewrite Hp. }
  destruct (client ps) as [replies|]; [|intros [= <- <-]; split; [by apply mild_tells|by apply Hst]].
  unfold mbind, act_bind. destruct (apply_replies finders replies refs ∅ s2) as [[b| |] s3] eqn:Ha; [|done..].
  apply apply_replies_members in Ha as [Hm3 Hb]. rewrite members_empty in Hb.
  assert (Hm' : mild s s3) by by etrans. intros [= <- <-]. split; [|exact (Hst s3 Hm')].
  etrans; [by apply mild_tells|]. apply Send_tells. rewrite (Hst s3 Hm'). set_solver.
Qed.

Lemma report_tells client keep factor (s s' : St) r :
  reportAllProcesses finders client keep factor s = (Ok r, s') → tells s s'.
Proof.
  unfold reportAllProcesses. step_act. destruct (decide (processes s = ∅)); [intros [= <- <-]; reflexivity|].
  step_act. set (s1 := set_count _ s).
  assert (Hm1 : mild s s1) by (split; [done|]; split; [done|]; by intros []).
  destruct (factor =? 0); [done|]. set (wait := if _ =? 0 then _ ++ _ else _).
  assert (Hw : list_to_set wait ⊆ stored s1).
  { intros x. unfold stored. change (all_refs s1) with (all_refs s). rewrite !elem_of_list_to_set.
    unfold wait. case_match; rewrite ?elem_of_app, !list_elem_of_filter; tauto. }
  unfold mbind at 1, act_bind at 1.
  destruct (processesReport finders client wait s1) as [[e1| |] s2] eqn:Hr; [|done..].
  apply processesReport_tells in Hr as [Ht _]; [|done].
  unfold processesKeepAlive. destruct (decide _); [intros [= <- <-]; etrans; [by apply mild_tells|done]|].
  pose proof (mild_build_pings (if Z.rem (i64 (reportedCount s + 1)) factor =? 0 then []
    else filter (λ r, has_status s ReportSuccess r = true) (all_refs s)) s2) as Hm3.
  unfold mbind, act_bind. destruct (build_pings _ _ s2) as [[ps| |] s3]; [|done..]. intros [= <- <-].
  etrans; [by apply mild_tells|]. etrans; [exact Ht|]. apply mild_tells. etrans; [exact Hm3|].
  apply (mild_call (KeepAlive ps)).
Qed.

Lemma run_tells es s :
  storage_run finders storage_start es s →
  storage_ok s ∧ track ∅ (es ++ eventQueue s) = stored s.
Proof.
  remember (storage_start : St) as s0 eqn:H0. intros Hrun.
  assert (Hstep : ∀ es' s1 s2, storage_ok s1 ∧ track ∅ (es' ++ eventQueue s1) = stored s1 → tells s1 s2 →
    storage_ok s2 ∧ track ∅ (es' ++ eventQueue s2) = stored s2).
  { intros es' s1 s2 [Hok Ht] Htell. destruct (Htell Hok) as [Hok2 (new & Hq & Hnew)]. split; [done|].
    by rewrite Hq, app_assoc, track_app, Ht. }
  induction Hrun as [s1|s es s' f ps _ IH|s es s' f ps _ IH|s es s' c k n r s'' _ IH Hr|
    s es s' ref c port _ IH Hc|W l w s es s' e rest _ IH Hq]; subst.
  - split; [by split; simpl; intros; simplify_map_eq; match goal with Hx : is_Some _ |- _ => destruct Hx end|].
    apply set_eq. intros r. rewrite elem_of_stored. simpl. setoid_rewrite lookup_empty.
    split; [set_solver|by intros (? & ? & ? & _)].
  - eapply Hstep; [by apply IH|apply Add_tells].
  - eapply Hstep; [by apply IH|apply Sync_tells].
  - eapply Hstep; [by apply IH|by eapply report_tells].
  - eapply Hstep; [by apply IH|]. apply mild_tells. eapply mild_context; [done|done|].
    destruct IH as [Hok _]; [done|]. intros Hst. left. exact (so_ids _ Hok ref c Hc Hst).
  - destruct IH as [[Hr Hf Hi] Ht]; [done|]. unfold take_event. rewrite Hq in *. simpl.
    split; [by split|]. by rewrite <- app_assoc.
Qed.

(** ** The report is exact *)

(** A context after the answers of the backend. *)
Definition report_as (replies : list D) (c : ProcessContext) : ProcessContext :=
  match reported_id <$> finders !! detectType c with
  | Some id_of =>
    match id_of (detectProcess c) replies with
    | Some id => MkProcessContext id ReportSuccess (detectProcess c) (detectType c) (exposedPorts c)
    | None => MkProcessContext (ctx_id c) Ignore (detectProcess c) (detectType c) (exposedPorts c)
    end
  | None => c
  end.

(** The properties that are sent for a list of processes. *)
Definition properties_of (s : St) (refs : list positive) : list P :=
  omap (λ r, match contexts s !! r with
             | Some c => (λ f, BuildEBPFProcess f (detectProcess c)) <$> finders !! detectType c
             | None => None
             end) refs.

(** The processes that are sent with their properties. *)
Definition to_report (factor : Z) (s : St) : list positive :=
  filter (λ r, has_status s NotReport r = true) (all_refs s) ++
  (if Z.rem (i64 (reportedCount s + 1)) factor =? 0
   then filter (λ r, has_status s ReportSuccess r = true) (all_refs s) else []).

(** The finders of the stored processes are registered, and entities are not nil. *)
Definition detected_by_finders (s : St) : Prop :=
  ∀ r c, contexts s !! r = Some c → is_Some (finders !! detectType c) ∧ is_Some (ctx_Entity c).

Definition set_contexts (m : gmap positive ProcessContext) (s : St) : St :=
  MkProcessStorage (processes s) m (next_context s) (eventQueue s) (initListenQueue s) (listeners s)
    (reportedCount s) (calls s).

Lemma build_properties_ok refs s :
  detected_by_finders s → (∀ r, r ∈ refs → is_Some (contexts s !! r)) →
  build_properties finders refs s = (Ok (properties_of s refs), s).
Proof.
  intros Hf. induction refs as [|ref refs IH]; intros Hin; [done|]. simpl. unfold context_of. step_act.
  destruct (Hin ref) as [c Hc]; [left|]. rewrite Hc. step_act.
  destruct (Hf ref c Hc) as [[f Hfd] _]. rewrite Hfd. step_act.
  rewrite (bind_ok _ _ _ _ _ (IH ltac:(intros; apply Hin; by right))). step_act.
  done.
Qed.

Lemma apply_replies_ok replies refs b s :
  detected_by_finders s → (∀ r, r ∈ refs → is_Some (contexts s !! r)) →
  ∃ b', apply_replies finders replies refs b s =
    (Ok b', set_contexts (foldl (λ m r, alter (report_as replies) r m) (contexts s) refs) s).
Proof.
  revert b s. induction refs as [|ref refs IH]; intros b s Hf Hin; [exists b; by destruct s|]. simpl.
  unfold context_of at 1. step_act. destruct (Hin ref) as [c Hc]; [left|]. rewrite Hc. step_act.
  destruct (Hf ref c Hc) as [[f Hfd] He]. rewrite Hfd. step_act.
  set (s1 := set_contexts (alter (report_as replies) ref (contexts s)) s).
  assert (Hf1 : detected_by_finders s1).
  { intros r x Hx. simpl in Hx. apply lookup_alter_Some in Hx as [(-> & y & Hy & ->)|[_ Hx]]; [|by eapply Hf].
    destruct (Hf _ y Hy) as [Hfy Hey]. unfold report_as. repeat case_match; done. }
  assert (Hin1 : ∀ r, r ∈ refs → is_Some (contexts s1 !! r)).
  { intros r Hr. simpl. apply lookup_alter_is_Some. apply Hin. by right. }
  assert (Hs1 : ∀ c', report_as replies c = c' → set_context ref c' s = s1).
  { intros c' <-. unfold s1, set_context, set_contexts. f_equal. apply map_eq. intros r.
    destruct (decide (r = ref)) as [->|Hne].
    - by rewrite lookup_insert_eq, lookup_alter_eq, Hc.
    - by rewrite lookup_insert_ne, lookup_alter_ne. }
  assert (Hra : report_as replies c = match reported_id f (detectProcess c) replies with
    | Some id => MkProcessContext id ReportSuccess (detectProcess c) (detectType c) (exposedPorts c)
    | None => MkProcessContext (ctx_id c) Ignore (detectProcess c) (detectType c) (exposedPorts c)
    end) by (unfold report_as; by rewrite Hfd).
  destruct (reported_id f (detectProcess c) replies) as [id|].
  - unfold updateProcessToUploadSuccess, context_of. step_act. rewrite Hc. step_act.
    rewrite (Hs1 _ Hra). destruct (IH (AddProcess (ctx_Pid c) ref b) s1 Hf1 Hin1) as [b' Hb'].
    exists b'. destruct He as [e ->]. case_bool_decide; step_act; exact Hb'.
  - unfold updateProcessToUploadIgnored, set_status, context_of. step_act. rewrite Hc. step_act.
    rewrite (Hs1 _ Hra). destruct (IH b s1 Hf1 Hin1) as [b' Hb']. exists b'. exact Hb'.
Qed.

Lemma foldl_alter_lookup (g : ProcessContext → ProcessContext) (refs : list positive)
    (m : gmap positive ProcessContext) r :
  (∀ c, g (g c) = g c) →
  foldl (λ m r, alter g r m) m refs !! r = if decide (r ∈ refs) then g <$> m !! r else m !! r.
Proof.
  intros Hg. revert m. induction refs as [|ref refs IH]; intros m; cbn [foldl].
  { by rewrite decide_False by apply not_elem_of_nil. }
  rewrite IH. destruct (decide (r = ref)) as [->|Hne].
  - rewrite lookup_alter_eq. rewrite (decide_True (P := ref ∈ ref :: refs)) by left.
    destruct (decide (ref ∈ refs)), (m !! ref); simpl; by rewrite ?Hg.
  - rewrite lookup_alter_ne by done. destruct (decide (r ∈ refs)).
    + by rewrite decide_True by by right.
    + rewrite decide_False; [done|]. by intros [->|?]%elem_of_cons.
Qed.

Lemma report_as_idemp replies c : report_as replies (report_as replies c) = report_as replies c.
Proof.
  unfold report_as at 2 3. destruct (finders !! detectType c) as [f|] eqn:Hf; simpl.
  - destruct (reported_id f (detectProcess c) replies) as [id|] eqn:Hi; unfold report_as; simpl;
      rewrite Hf; simpl; by rewrite Hi.
  - unfold report_as. by rewrite Hf.
Qed.

Lemma has_status_iff (s : St) status r :
  has_status s status r = true ↔ ∃ c, contexts s !! r = Some c ∧ syncStatus c = status.
Proof.
  unfold has_status. destruct (contexts s !! r) as [[id [] p t e]|]; [| | |naive_solver];
    destruct status; naive_solver.
Qed.

(** What a report does to the contexts. *)
Lemma processesReport_ok client refs s :
  detected_by_finders s → (∀ r, r ∈ refs → is_Some (contexts s !! r)) →
  ∃ s', processesReport finders client refs s =
      (Ok (bool_decide (refs ≠ [] ∧ client (properties_of s refs) = None)), s') ∧
    (∀ r, contexts s' !! r =
       match client (properties_of s refs) with
       | Some replies => if decide (r ∈ refs) then report_as replies <$> contexts s !! r
                         else contexts s !! r
       | None => contexts s !! r
       end) ∧
    calls s' = calls s ++ (if decide (refs = []) then [] else [ReportProcesses (properties_of s refs)]) ∧
    processes s' = processes s.
Proof.
  intros Hf Hin. unfold processesReport. destruct (decide (refs = [])) as [->|Hne].
  { exists s. rewrite bool_decide_false by naive_solver. split; [done|]. rewrite app_nil_r.
    split; [|done]. intros r. destruct (client _); [|done]. by rewrite decide_False by set_solver. }
  rewrite (bind_ok _ _ _ _ _ (build_properties_ok refs s Hf Hin)). step_act.
  set (s1 := call (ReportProcesses (properties_of s refs)) s).
  destruct (client (properties_of s refs)) as [replies|]; step_act.
  - destruct (apply_replies_ok replies refs ∅ s1 Hf Hin) as [b Hb].
    rewrite (bind_ok _ _ _ _ _ Hb). step_act. eexists.
    rewrite bool_decide_false by naive_solver. split; [done|]. split; [|done].
    intros r. simpl. apply foldl_alter_lookup, report_as_idemp.
  - exists s1. by rewrite bool_decide_true.
Qed.

Lemma build_pings_ok refs s :
  detected_by_finders s →
  (∀ r, r ∈ refs → ∃ c, contexts s !! r = Some c ∧ ctx_id c ≠ "") →
  ∃ pings, build_pings finders refs s = (Ok pings, s) ∧ length pings = length refs.
Proof.
  intros Hf. induction refs as [|ref refs IH]; intros Hin; [by exists []|]. simpl.
  unfold context_of. step_act. destruct (Hin ref) as (c & Hc & Hid); [left|]. rewrite Hc. step_act.
  rewrite decide_False by done. destruct (Hf ref c Hc) as [[f Hfd] [e He]]. rewrite He, Hfd. step_act.
  destruct IH as (pings & Hp & Hl); [intros; apply Hin; by right|].
  rewrite (bind_ok _ _ _ _ _ Hp). step_act. eexists. split; [done|]. simpl. by rewrite Hl.
Qed.

Lemma to_report_contexts factor s r : r ∈ to_report factor s → is_Some (contexts s !! r).
Proof.
  unfold to_report. rewrite elem_of_app. intros [Hr|Hr].
  - apply list_elem_of_filter in Hr as [Hr _]. apply has_status_iff in Hr as (c & -> & _). done.
  - case_match; [|by apply elem_of_nil in Hr].
    apply list_elem_of_filter in Hr as [Hr _]. apply has_status_iff in Hr as (c & -> & _). done.
Qed.

Lemma report_as_settled replies c :
  is_Some (finders !! detectType c) → syncStatus (report_as replies c) ≠ NotReport.
Proof. intros [f Hf]. unfold report_as. rewrite Hf. simpl. by case_match. Qed.

(** The pings leave the contexts as they are. *)
Lemma processesKeepAlive_ok keep factor s s2 :
  storage_ok s → detected_by_finders s2 →
  (∀ r, r ∉ to_report factor s → contexts s2 !! r = contexts s !! r) →
  ∃ e2 s3, processesKeepAlive finders keep
      (if Z.rem (i64 (reportedCount s + 1)) factor =? 0 then []
       else filter (λ r, has_status s ReportSuccess r = true) (all_refs s)) s2 = (Ok e2, s3) ∧
    contexts s3 = contexts s2.
Proof.
  intros Hs Hf Hsame. unfold processesKeepAlive. destruct (decide _) as [|Hne]; [by eexists _, s2|].
  unfold to_report in Hsame. destruct (Z.rem _ _ =? 0); [done|].
  set (refs := filter (λ r, has_status s ReportSuccess r = true) (all_refs s)) in *.
  destruct (build_pings_ok refs s2 Hf) as (pings & Hp & _).
  { intros r [Hst Hin]%list_elem_of_filter. apply has_status_iff in Hst as (c & Hc & Hst).
    exists c. split; [|exact (so_ids _ Hs r c Hc Hst)]. rewrite Hsame; [done|].
    rewrite app_nil_r, list_elem_of_filter, has_status_iff. intros [(c' & Hc' & Hst') _]. congruence. }
  rewrite (bind_ok _ _ _ _ _ Hp). step_act. by eexists _, _.
Qed.

Lemma detected_reported replies s s2 :
  detected_by_finders s →
  (∀ r, contexts s2 !! r = contexts s !! r ∨ contexts s2 !! r = report_as replies <$> contexts s !! r) →
  detected_by_finders s2.
Proof.
  intros Hf Hc r c. destruct (Hc r) as [-> | ->]; [apply Hf|].
  destruct (contexts s !! r) as [x|] eqn:Hx; [|done]. intros [= <-].
  destruct (Hf r x Hx) as [Hfx Hex]. unfold report_as. repeat case_match; done.
Qed.

(** After a report without an error no process waits. *)
Lemma none_waits client factor (s s' : St) :
  detected_by_finders s → storage_ok s →
  (∀ r, contexts s' !! r =
     match client (properties_of s (to_report factor s)) with
     | Some replies => if decide (r ∈ to_report factor s) then report_as replies <$> contexts s !! r
                       else contexts s !! r
     | None => contexts s !! r
     end) →
  bool_decide (to_report factor s ≠ [] ∧ client (properties_of s (to_report factor s)) = None) = false →
  ∀ r, r ∈ stored s → has_status s' NotReport r = false.
Proof.
  intros Hf Hs Hc He r Hr. apply not_true_is_false. rewrite has_status_iff, Hc.
  intros (c & Hrc & Hst). apply bool_decide_eq_false in He.
  assert (Hw : ∀ x, contexts s !! r = Some x → syncStatus x = NotReport → r ∈ to_report factor s).
  { intros x Hx Hsx. unfold to_report. apply elem_of_app. left. apply list_elem_of_filter.
    split; [apply has_status_iff; eauto|]. unfold stored in Hr. by apply elem_of_list_to_set in Hr. }
  destruct (client _) as [replies|].
  - destruct (decide (r ∈ to_report factor s)); [|by eauto].
    destruct (contexts s !! r) as [x|] eqn:Hx; [|done]. simplify_eq/=.
    destruct (Hf r x Hx) as [Hfx _]. by eapply report_as_settled.
  - apply He. split; [|done]. intros Hnil. specialize (Hw c Hrc Hst). rewrite Hnil in Hw.
    by apply elem_of_nil in Hw.
Qed.

Lemma no_refs (s : St) : processes s = ∅ → all_refs s = [].
Proof.
  intros Hemp. unfold all_refs. rewrite Hemp.
  assert (Hp : range (∅ : gmap Z (list positive)) = []); [|by rewrite Hp].
  apply Permutation_nil_r. rewrite range_perm. by rewrite map_to_list_empty.
Qed.

(** C34: the listeners know the processes.  In every run of the storage, a listener that adds
    and removes what the events tell it knows, when it has taken the events of the queue,
    exactly the processes that are stored, whatever the finders detect and the backend
    answers. *)
Theorem events_track_processes es (s : St) :
  storage_run finders storage_start es s → track ∅ (es ++ eventQueue s) = stored s.
Proof. intros Hrun. by apply run_tells. Qed.

(** C35: the report to the backend.  When the report factor is not zero, the finders of the
    stored processes are registered and their entities are not nil (a factor of zero
    panics, see [zero_factor_panics]), a report in any state that is reached does not panic
    and sends the processes that were not reported, all of them in every n-th round; when the backend answers, each of
    these has the first id that its finder reads from the answers, or is ignored, and no
    stored process waits; nothing else changes, and an error leaves every process as it
    was. *)
Theorem report_exact client keep factor es (s : St) :
  storage_run finders storage_start es s → detected_by_finders s → factor ≠ 0 →
  let wait := to_report factor s in
  ∃ e1 e2 s', reportAllProcesses finders client keep factor s = (Ok (e1, e2), s') ∧
    e1 = bool_decide (wait ≠ [] ∧ client (properties_of s wait) = None) ∧
    (∀ r, contexts s' !! r =
       match client (properties_of s wait) with
       | Some replies => if decide (r ∈ wait) then report_as replies <$> contexts s !! r
                         else contexts s !! r
       | None => contexts s !! r
       end) ∧
    (e1 = false → ∀ r, r ∈ stored s → has_status s' NotReport r = false).
Proof.
  intros [Hs _]%run_tells Hf Hfactor wait.
  assert (Hwait : to_report factor s = wait) by done.
  unfold reportAllProcesses. step_act. destruct (decide (processes s = ∅)) as [Hemp|Hne].
  { pose proof (no_refs s Hemp) as Hrefs. assert (Hw : wait = []) by (unfold wait, to_report; rewrite Hrefs; by case_match).
    exists false, false, s. rewrite Hw. rewrite bool_decide_false by naive_solver.
    split; [done|]. split; [done|]. split; [intros r; case_match; [by rewrite decide_False by apply not_elem_of_nil|done]|].
    intros _ r Hr. unfold stored in Hr. rewrite Hrefs in Hr. set_solver. }
  step_act. destruct (Z.eqb_spec factor 0); [done|].
  assert (Hw : (if Z.rem (i64 (reportedCount s + 1)) factor =? 0
    then filter (λ r, has_status s NotReport r = true) (all_refs s) ++
         filter (λ r, has_status s ReportSuccess r = true) (all_refs s)
    else filter (λ r, has_status s NotReport r = true) (all_refs s)) = wait).
  { unfold wait, to_report. case_match; [done|by rewrite app_nil_r]. }
  rewrite Hw. set (s1 := set_count _ s).
  destruct (processesReport_ok client wait s1 Hf (to_report_contexts factor s)) as (s2 & Hr & Hc & _ & _).
  rewrite (bind_ok _ _ _ _ _ Hr).
  destruct (processesKeepAlive_ok keep factor s s2 Hs) as (e2 & s3 & Hk & Hc3).
  { destruct (client (properties_of s1 wait)) as [replies|].
    - apply (detected_reported replies s); [done|]. intros r. rewrite Hc. case_decide; auto.
    - intros r c. rewrite Hc. apply Hf. }
  { intros r Hnr. rewrite Hc. destruct (client _); [|done]. by rewrite decide_False. }
  rewrite (bind_ok _ _ _ _ _ Hk). step_act. eexists _, e2, s3. split; [done|]. split; [done|].
  rewrite Hc3. split; [exact Hc|]. apply none_waits; [done|done|]. intros r. rewrite Hc3. apply Hc.
Qed.
End tracking.

(** ** A concrete storage *)

#[local] Existing Instance keys_order.

Module StorageSample.
(** A finder whose reports are pids, and whose answers are pids with ids. *)
Definition finder : ProcessFinder Z (Z * string) unit unit :=
  MkProcessFinder det_Pid (λ p d, if det_Pid p =? d.1 then d.2 else "") (λ _, tt)
    (λ _ x, (true, x)) None None.
Definition finders : gmap Z (ProcessFinder Z (Z * string) unit unit) := {[ 1 := finder ]}.

Definition process (pid : Z) (name : string) : DetectedProcess :=
  MkDetectedProcess pid (Some (MkProcessEntity "K8S" "svc" "pod" name [])) None [80] [].

(** Two processes are detected, and the backend knows the first. *)
Definition detected : ProcessStorage Z unit :=
  AddNewProcessInFinder 1 [Some (process 7 "a"); None; Some (process 8 "b")] storage_start.
Definition client (ps : list Z) : option (list (Z * string)) := Some [(7, "id7"%string)].

Lemma detected_run : storage_run finders storage_start [] detected.
Proof. apply run_add, run_start. Qed.

Definition statuses (s : ProcessStorage Z unit) : list (Z * string * ProcessUploadStatus) :=
  omap (λ r, (λ c, (ctx_Pid c, ctx_id c, syncStatus c)) <$> contexts s !! r) (all_refs s).

(** The connection manager, which monitors every process. *)
Definition manager : positive → ProcessListener (Monitor (bpf_room Z Z) (expiring Z ProcessVerdict)) :=
  λ _, monitor_listener id None 0.
Definition idle : Monitor (bpf_room Z Z) (expiring Z ProcessVerdict) :=
  MkMonitor ∅ ∅ (MkBpfRoom ∅) None None ∅ ∅ [].
Definition take (x : ProcessStorage Z unit * Monitor (bpf_room Z Z) (expiring Z ProcessVerdict)) :=
  take_event manager x.1 x.2.
End StorageSample.

Lemma events_track_processes_witness :
  track ∅ ([] ++ eventQueue StorageSample.detected) = stored StorageSample.detected.
Proof.
  exact (events_track_processes StorageSample.finders [] StorageSample.detected StorageSample.detected_run).
Defined.

Lemma report_exact_witness :
  ∃ e2 s', reportAllProcesses StorageSample.finders StorageSample.client (λ _, false) 10
      StorageSample.detected = (Ok (false, e2), s') ∧
    ∀ r, r ∈ stored StorageSample.detected → has_status s' NotReport r = false.
Proof.
  destruct (report_exact StorageSample.finders StorageSample.client (λ _, false) 10 []
    StorageSample.detected) as (e1 & e2 & s' & Hrun & He & _ & Hn).
  - exact StorageSample.detected_run.
  - intros r c Hc. destruct r as [r|[r|r|]|]; vm_compute in Hc; simplify_eq; split; by eexists.
  - done.
  - assert (e1 = false) as -> by (rewrite He; vm_compute; reflexivity).
    exists e2, s'. split; [exact Hrun|]. apply Hn. reflexivity.
Defined.

(** A reported process has its id, and the other is ignored. *)
Example sample_reported :
  StorageSample.statuses (snd (reportAllProcesses StorageSample.finders StorageSample.client
    (λ _, false) 10 StorageSample.detected)) = [(7, "id7", ReportSuccess); (8, "", Ignore)].
Proof. vm_compute. reflexivity. Qed.

(** A factor of zero ends in a division by zero. *)
Example zero_factor_panics :
  fst (reportAllProcesses StorageSample.finders StorageSample.client (λ _, false) 0
    StorageSample.detected) = Panic.
Proof. vm_compute. reflexivity. Qed.

(** When the entity of a pid changes, the storage tells the new process before it removes
    the old one, and the connection manager removes by pid: the process is stored, but not
    monitored until the next recheck. *)
Example renamed_process_unmonitored :
  let s0 := AddListener 1 (AddNewProcessInFinder 1 [Some (StorageSample.process 7 "a")] storage_start) in
  let '(s1, w1) := StorageSample.take (s0, StorageSample.idle) in
  let s2 := SyncAllProcessInFinder 1 [Some (StorageSample.process 7 "b")] s1 in
  let '(s3, w3) := StorageSample.take (StorageSample.take (s2, w1)) in
  is_Some (monitoringProcesses w1 !! 7) ∧ eventQueue s3 = [] ∧
  length (FindProcessByPID 7 s3) = 1%nat ∧ monitoringProcesses w3 !! 7 = None ∧
  is_Some (monitoringProcesses (on_tick StorageSample.manager s3 w3) !! 7).
Proof. vm_compute. split_and!; try done; by eexists. Qed.
