(* ===== verification/Events.v ===== *)
(** * BPF events: the sample reader and the event layouts

    Models [BytesReader] and [sizeCalcReader] of src/pkg/tools/btf/reader.go as
    two instances of the [Reader] interface, and the event structs of
    src/pkg/accesslog/events with their [ReadFrom] methods, each written once
    against the interface, as the code writes them.

    Shown here: a [ReadFrom] over a [BytesReader] is the inverse of the packed
    little-endian layout the BPF side emits, and it reports an error exactly
    when the sample is shorter than the size [sizeCalcReader] computes. *)

From stdpp Require Import base list strings pretty.
From Stdlib Require Import ZArith Lia.
From S2P Require Import Prelude.

(** ** The reader interface *)

(** A computation that advances a reader. *)
Definition rd (R A : Type) : Type := R → A * R.

Global Instance rd_ret R : MRet (rd R) := λ A a r, (a, r).
Global Instance rd_bind R : MBind (rd R) := λ A B f m r, let '(a, r') := m r in f a r'.

Class Reader (R : Type) := {
  HasError : R → bool;
  ReadUint64 : rd R Z;
  ReadUint32 : rd R Z;
  ReadUint16 : rd R Z;
  ReadUint8 : rd R Z;
  (** The array argument is filled in place: its new contents are returned. *)
  ReadUint8Array : list Z → Z → rd R (list Z)
}.

(** The error of an out-of-bound read: offset, read size and sample size. *)
Record bound_error : Type := MkBoundError {
  be_offset : Z;
  be_size : Z;
  be_sample : Z
}.

Record BytesReader : Type := MkBytesReader {
  Sample : list Z;
  CurrentOffset : Z;
  sampleLen : Z;
  err : option bound_error
}.

Definition NewReader (sample : list Z) : BytesReader :=
  MkBytesReader sample 0 (Z.of_nat (length sample)) None.

(** The value of little-endian bytes ([binary.LittleEndian]). *)
Fixpoint le_Z (l : list Z) : Z :=
  match l with
  | [] => 0
  | b :: l' => b + 256 * le_Z l'
  end.

(** [copy(a, src)] into an array: the prefix of [a] is overwritten. *)
Definition copy_into (a src : list Z) : list Z :=
  take (length a) src ++ drop (length src) a.

Definition read (size : Z) : rd BytesReader (option (list Z)) := λ r,
  match err r with
  | Some _ => (None, r)
  | None =>
    if decide (sampleLen r < CurrentOffset r + size) then
      (None, MkBytesReader (Sample r) (CurrentOffset r) (sampleLen r)
               (Some (MkBoundError (CurrentOffset r) size (sampleLen r))))
    else
      (Some (take (Z.to_nat size) (drop (Z.to_nat (CurrentOffset r)) (Sample r))),
       MkBytesReader (Sample r) (CurrentOffset r + size) (sampleLen r) None)
  end.

Definition readUint (size : Z) : rd BytesReader Z :=
  bytes ← read size; mret (match bytes with None => 0 | Some b => le_Z b end).

Definition readArray (a : list Z) (size : Z) : rd BytesReader (list Z) :=
  bytes ← read size; mret (match bytes with None => a | Some b => copy_into a b end).

Global Instance bytes_reader : Reader BytesReader := {|
  HasError r := match err r with None => false | Some _ => true end;
  ReadUint64 := readUint 8;
  ReadUint32 := readUint 4;
  ReadUint16 := readUint 2;
  ReadUint8 := readUint 1;
  ReadUint8Array := readArray
|}.

Record sizeCalcReader : Type := MkSizeCalc { size : Z }.

Definition newSizeCalcReader : sizeCalcReader := MkSizeCalc 0.

Definition calc {A} (k : Z) (a : A) : rd sizeCalcReader A := λ r, (a, MkSizeCalc (size r + k)).

Global Instance size_reader : Reader sizeCalcReader := {|
  HasError _ := false;
  ReadUint64 := calc 8 0;
  ReadUint32 := calc 4 0;
  ReadUint16 := calc 2 0;
  ReadUint8 := calc 1 0;
  ReadUint8Array a k := calc k a
|}.

(** ** Event structs *)

Record SocketCloseEvent : Type := MkSocketCloseEvent {
  close_ConnectionID : Z; close_RandomID : Z; close_StartTime : Z; close_EndTime : Z;
  close_PID : Z; close_SocketFD : Z; close_Success : Z
}.

Record SocketConnectEvent : Type := MkSocketConnectEvent {
  ConID : Z; connect_RandomID : Z; connect_StartTime : Z; connect_EndTime : Z;
  connect_PID : Z; connect_SocketFD : Z;
  FuncName : Z; Role : Z; SocketFamily : Z; ConnectSuccess : Z; Pad0 : Z;
  RemoteAddrV4 : Z; RemoteAddrPort : Z; RemoteAddrV6 : list Z;
  LocalAddrV4 : Z; LocalAddrPort : Z; LocalAddrV6 : list Z;
  ConnTrackUpstreamIPl : Z; ConnTrackUpstreamIPh : Z; ConnTrackUpstreamPort : Z
}.

Record SocketDetailEvent : Type := MkSocketDetailEvent {
  detail_ConnectionID : Z; detail_RandomID : Z; detail_DataID0 : Z;
  detail_StartTime : Z; detail_EndTime : Z;
  L4Duration : Z; L3Duration : Z; L3LocalDuration : Z; L3OutputDuration : Z;
  L3ResolveMacDuration : Z; L3NetFilterDuration : Z; L2Duration : Z;
  L2ReadySendDuration : Z; L2SendDuration : Z; L2PackageToQueueDuration : Z;
  L3TotalRcvDuration : Z; IfIndex : Z;
  L4PackageRcvFromQueueDuration : Z; L4TotalPackageSize : Z;
  L2EnterQueueCount : Z; L4PackageCount : Z; L4RetransmitPackageCount : Z;
  L3ResolveMacCount : Z; L3NetFilterCount : Z;
  FunctionName : Z; detail_Protocol : Z; SSL : Z
}.

Record SocketDataUploadEvent : Type := MkSocketDataUploadEvent {
  Protocol0 : Z; HaveReduce : Z; Direction0 : Z; Finished : Z;
  Sequence0 : Z; DataLen : Z; StartTime0 : Z; EndTime0 : Z;
  data_ConnectionID : Z; data_RandomID : Z; DataID0 : Z; PrevDataID0 : Z;
  TotalSize0 : Z; BufferBytes : list Z
}.

Definition ZTunnelConnectionResultWindow : Z := 512.

Record ZTunnelConnectionResultEvent : Type := MkConnectionResultEvent {
  result_PID : Z; Window : Z; Data : list Z
}.

Record ZTunnelConnectionResultCompactEvent : Type := MkCompactEvent {
  compact_PID : Z; SrcIP : Z; DstIP : Z; SrcPort : Z; DstPort : Z;
  Reporter : Z; SecurityPolicy : Z; HasDirection : Z; compact_Pad0 : Z; compact_Pad1 : Z;
  SrcPrincipalNsPtr : Z; SrcPrincipalSaPtr : Z; DstPrincipalNsPtr : Z; DstPrincipalSaPtr : Z;
  SrcNamespacePtr : Z; DstNamespacePtr : Z; SrcClusterPtr : Z; DstClusterPtr : Z
}.

Record ZTunnelSocketMappingEvent : Type := MkSocketMappingEvent {
  OriginalSrcIP : Z; OriginalDestIP : Z; OriginalSrcPort : Z; OriginalDestPort : Z;
  LoadBalancedDestIP : Z; LoadBalancedDestPort : Z; mapping_Pad0 : Z; mapping_Pad1 : Z
}.

(** ** The [ReadFrom] methods *)

Section read_from.
Context {R : Type} `{Reader R}.

Definition SocketCloseEvent_ReadFrom (c : SocketCloseEvent) : rd R SocketCloseEvent :=
  connectionID ← ReadUint64; randomID ← ReadUint64;
  startTime ← ReadUint64; endTime ← ReadUint64;
  pid ← ReadUint32; socketFD ← ReadUint32; success ← ReadUint32;
  mret (MkSocketCloseEvent connectionID randomID startTime endTime pid socketFD success).

Definition SocketConnectEvent_ReadFrom (c : SocketConnectEvent) : rd R SocketConnectEvent :=
  conID ← ReadUint64; randomID ← ReadUint64;
  startTime ← ReadUint64; endTime ← ReadUint64;
  pid ← ReadUint32; socketFD ← ReadUint32;
  funcName ← ReadUint8; role ← ReadUint8; socketFamily ← ReadUint8;
  connectSuccess ← ReadUint8; pad0 ← ReadUint32;
  remoteAddrV4 ← ReadUint32; remoteAddrPort ← ReadUint32;
  remoteAddrV6 ← ReadUint8Array (RemoteAddrV6 c) 16;
  localAddrV4 ← ReadUint32; localAddrPort ← ReadUint32;
  localAddrV6 ← ReadUint8Array (LocalAddrV6 c) 16;
  ipl ← ReadUint64; iph ← ReadUint64; port ← ReadUint32;
  mret (MkSocketConnectEvent conID randomID startTime endTime pid socketFD funcName role
          socketFamily connectSuccess pad0 remoteAddrV4 remoteAddrPort remoteAddrV6
          localAddrV4 localAddrPort localAddrV6 ipl iph port).

Definition SocketDetailEvent_ReadFrom (d : SocketDetailEvent) : rd R SocketDetailEvent :=
  connectionID ← ReadUint64; randomID ← ReadUint64; dataID0 ← ReadUint64;
  startTime ← ReadUint64; endTime ← ReadUint64;
  l4 ← ReadUint32; l3 ← ReadUint32; l3Local ← ReadUint32; l3Output ← ReadUint32;
  l3ResolveMac ← ReadUint32; l3NetFilter ← ReadUint32; l2 ← ReadUint32;
  l2ReadySend ← ReadUint32; l2Send ← ReadUint32; l2PackageToQueue ← ReadUint32;
  l3TotalRcv ← ReadUint32; ifIndex ← ReadUint32;
  l4PackageRcvFromQueue ← ReadUint64; l4TotalPackageSize ← ReadUint64;
  l2EnterQueueCount ← ReadUint8; l4PackageCount ← ReadUint8;
  l4RetransmitPackageCount ← ReadUint8; l3ResolveMacCount ← ReadUint8;
  l3NetFilterCount ← ReadUint8; functionName ← ReadUint8; protocol ← ReadUint8;
  ssl ← ReadUint8;
  mret (MkSocketDetailEvent connectionID randomID dataID0 startTime endTime l4 l3 l3Local
          l3Output l3ResolveMac l3NetFilter l2 l2ReadySend l2Send l2PackageToQueue l3TotalRcv
          ifIndex l4PackageRcvFromQueue l4TotalPackageSize l2EnterQueueCount l4PackageCount
          l4RetransmitPackageCount l3ResolveMacCount l3NetFilterCount functionName protocol ssl).

Definition SocketDataUploadEvent_ReadFrom (s : SocketDataUploadEvent)
  : rd R SocketDataUploadEvent :=
  protocol0 ← ReadUint8; haveReduce ← ReadUint8; direction0 ← ReadUint8; finished ← ReadUint8;
  sequence0 ← ReadUint16; dataLen ← ReadUint16;
  startTime0 ← ReadUint64; endTime0 ← ReadUint64;
  connectionID ← ReadUint64; randomID ← ReadUint64;
  dataID0 ← ReadUint64; prevDataID0 ← ReadUint64; totalSize0 ← ReadUint64;
  buffer ← ReadUint8Array (BufferBytes s) 20480;
  mret (MkSocketDataUploadEvent protocol0 haveReduce direction0 finished sequence0 dataLen
          startTime0 endTime0 connectionID randomID dataID0 prevDataID0 totalSize0 buffer).

Definition ZTunnelConnectionResultEvent_ReadFrom (z : ZTunnelConnectionResultEvent)
  : rd R ZTunnelConnectionResultEvent :=
  pid ← ReadUint32; window ← ReadUint32;
  data ← ReadUint8Array (Data z) (Z.of_nat (length (Data z)));
  mret (MkConnectionResultEvent pid window data).

Definition ZTunnelConnectionResultCompactEvent_ReadFrom (z : ZTunnelConnectionResultCompactEvent)
  : rd R ZTunnelConnectionResultCompactEvent :=
  pid ← ReadUint32; srcIP ← ReadUint32; dstIP ← ReadUint32;
  srcPort ← ReadUint16; dstPort ← ReadUint16;
  reporter ← ReadUint8; securityPolicy ← ReadUint8; hasDirection ← ReadUint8; pad0 ← ReadUint8;
  pad1 ← ReadUint32;
  srcNs ← ReadUint64; srcSa ← ReadUint64; dstNs ← ReadUint64; dstSa ← ReadUint64;
  srcNamespace ← ReadUint64; dstNamespace ← ReadUint64;
  srcCluster ← ReadUint64; dstCluster ← ReadUint64;
  mret (MkCompactEvent pid srcIP dstIP srcPort dstPort reporter securityPolicy hasDirection
          pad0 pad1 srcNs srcSa dstNs dstSa srcNamespace dstNamespace srcCluster dstCluster).

Definition ZTunnelSocketMappingEvent_ReadFrom (z : ZTunnelSocketMappingEvent)
  : rd R ZTunnelSocketMappingEvent :=
  srcIP ← ReadUint32; destIP ← ReadUint32; srcPort ← ReadUint16; destPort ← ReadUint16;
  lbIP ← ReadUint32; lbPort ← ReadUint16; pad0 ← ReadUint16; pad1 ← ReadUint32;
  mret (MkSocketMappingEvent srcIP destIP srcPort destPort lbIP lbPort pad0 pad1).
End read_from.

(** The [EventReader] interface of the event structs. *)
Class EventReader (E : Type) := ReadFrom : ∀ {R} `{Reader R}, E → rd R E.

Global Instance close_reader : EventReader SocketCloseEvent := @SocketCloseEvent_ReadFrom.
Global Instance connect_reader : EventReader SocketConnectEvent := @SocketConnectEvent_ReadFrom.
Global Instance detail_reader : EventReader SocketDetailEvent := @SocketDetailEvent_ReadFrom.
Global Instance data_reader : EventReader SocketDataUploadEvent := @SocketDataUploadEvent_ReadFrom.
Global Instance result_reader : EventReader ZTunnelConnectionResultEvent :=
  @ZTunnelConnectionResultEvent_ReadFrom.
Global Instance compact_reader : EventReader ZTunnelConnectionResultCompactEvent :=
  @ZTunnelConnectionResultCompactEvent_ReadFrom.
Global Instance mapping_reader : EventReader ZTunnelSocketMappingEvent :=
  @ZTunnelSocketMappingEvent_ReadFrom.

(** The sample size [newPerfRecordBuilder] reserves for an [EventReader]. *)
Definition perfRecordSize {E} `{EventReader E} (data : E) : Z :=
  size (snd (ReadFrom data newSizeCalcReader)) + 8.

(** ** Accessors of the events *)

Definition ParseConnectionID (connectionID : Z) : Z * Z :=
  (u32 (Z.shiftr connectionID 32), u32 (Z.land connectionID 0xFFFFFFFF)).

Definition data_GenerateConnectionID (s : SocketDataUploadEvent) : string :=
  pretty (data_ConnectionID s) +:+ "_" +:+ pretty (data_RandomID s).

(** [s.Buffer[:s.DataLen]] of the 20480-byte array. *)
Definition data_BufferData (s : SocketDataUploadEvent) : option (slice Z) :=
  reslice (whole (BufferBytes s)) 0 (DataLen s).

Definition data_IsStart (s : SocketDataUploadEvent) : bool := Sequence0 s =? 0.
Definition data_IsFinished (s : SocketDataUploadEvent) : bool := Finished s =? 1.
Definition data_HaveReduceDataAfterChunk (s : SocketDataUploadEvent) : bool := HaveReduce s =? 1.

(** ** Specification: the packed layout of an event *)

(** A field of a packed struct: an unsigned integer of [n] bytes, or bytes. *)
Inductive field : Type :=
| FInt (n : nat) (v : Z)
| FArr (a : list Z).

Fixpoint le_bytes (n : nat) (v : Z) : list Z :=
  match n with
  | O => []
  | S n => v mod 256 :: le_bytes n (v / 256)
  end.

Definition encode_field (f : field) : list Z :=
  match f with FInt n v => le_bytes n v | FArr a => a end.

Definition encode (fs : list field) : list Z := fs ≫= encode_field.

(** Every integer field holds a value of its width. *)
Definition fits (fs : list field) : Prop :=
  Forall (λ f, match f with FInt n v => 0 ≤ v < 256 ^ Z.of_nat n | FArr _ => True end) fs.

Definition layout_close (c : SocketCloseEvent) : list field :=
  [FInt 8 (close_ConnectionID c); FInt 8 (close_RandomID c);
   FInt 8 (close_StartTime c); FInt 8 (close_EndTime c);
   FInt 4 (close_PID c); FInt 4 (close_SocketFD c); FInt 4 (close_Success c)].

Definition layout_connect (c : SocketConnectEvent) : list field :=
  [FInt 8 (ConID c); FInt 8 (connect_RandomID c);
   FInt 8 (connect_StartTime c); FInt 8 (connect_EndTime c);
   FInt 4 (connect_PID c); FInt 4 (connect_SocketFD c);
   FInt 1 (FuncName c); FInt 1 (Role c); FInt 1 (SocketFamily c);
   FInt 1 (ConnectSuccess c); FInt 4 (Pad0 c);
   FInt 4 (RemoteAddrV4 c); FInt 4 (RemoteAddrPort c); FArr (RemoteAddrV6 c);
   FInt 4 (LocalAddrV4 c); FInt 4 (LocalAddrPort c); FArr (LocalAddrV6 c);
   FInt 8 (ConnTrackUpstreamIPl c); FInt 8 (ConnTrackUpstreamIPh c);
   FInt 4 (ConnTrackUpstreamPort c)].

Definition layout_detail (d : SocketDetailEvent) : list field :=
  [FInt 8 (detail_ConnectionID d); FInt 8 (detail_RandomID d);
   FInt 8 (detail_DataID0 d); FInt 8 (detail_StartTime d);
   FInt 8 (detail_EndTime d);
   FInt 4 (L4Duration d); FInt 4 (L3Duration d); FInt 4 (L3LocalDuration d);
   FInt 4 (L3OutputDuration d); FInt 4 (L3ResolveMacDuration d);
   FInt 4 (L3NetFilterDuration d); FInt 4 (L2Duration d);
   FInt 4 (L2ReadySendDuration d); FInt 4 (L2SendDuration d);
   FInt 4 (L2PackageToQueueDuration d); FInt 4 (L3TotalRcvDuration d);
   FInt 4 (IfIndex d); FInt 8 (L4PackageRcvFromQueueDuration d);
   FInt 8 (L4TotalPackageSize d); FInt 1 (L2EnterQueueCount d);
   FInt 1 (L4PackageCount d); FInt 1 (L4RetransmitPackageCount d);
   FInt 1 (L3ResolveMacCount d); FInt 1 (L3NetFilterCount d);
   FInt 1 (FunctionName d); FInt 1 (detail_Protocol d); FInt 1 (SSL d)].

Definition layout_data (s : SocketDataUploadEvent) : list field :=
  [FInt 1 (Protocol0 s); FInt 1 (HaveReduce s); FInt 1 (Direction0 s);
   FInt 1 (Finished s); FInt 2 (Sequence0 s); FInt 2 (DataLen s);
   FInt 8 (StartTime0 s); FInt 8 (EndTime0 s);
   FInt 8 (data_ConnectionID s); FInt 8 (data_RandomID s);
   FInt 8 (DataID0 s); FInt 8 (PrevDataID0 s); FInt 8 (TotalSize0 s);
   FArr (BufferBytes s)].

Definition layout_compact (z : ZTunnelConnectionResultCompactEvent) : list field :=
  [FInt 4 (compact_PID z); FInt 4 (SrcIP z); FInt 4 (DstIP z);
   FInt 2 (SrcPort z); FInt 2 (DstPort z);
   FInt 1 (Reporter z); FInt 1 (SecurityPolicy z); FInt 1 (HasDirection z);
   FInt 1 (compact_Pad0 z); FInt 4 (compact_Pad1 z);
   FInt 8 (SrcPrincipalNsPtr z); FInt 8 (SrcPrincipalSaPtr z);
   FInt 8 (DstPrincipalNsPtr z); FInt 8 (DstPrincipalSaPtr z);
   FInt 8 (SrcNamespacePtr z); FInt 8 (DstNamespacePtr z);
   FInt 8 (SrcClusterPtr z); FInt 8 (DstClusterPtr z)].

Definition layout_mapping (z : ZTunnelSocketMappingEvent) : list field :=
  [FInt 4 (OriginalSrcIP z); FInt 4 (OriginalDestIP z);
   FInt 2 (OriginalSrcPort z); FInt 2 (OriginalDestPort z);
   FInt 4 (LoadBalancedDestIP z); FInt 2 (LoadBalancedDestPort z);
   FInt 2 (mapping_Pad0 z); FInt 4 (mapping_Pad1 z)].

Definition layout_result (z : ZTunnelConnectionResultEvent) : list field :=
  [FInt 4 (result_PID z); FInt 4 (Window z); FArr (Data z)].

(** The reader that has consumed [pre] and has [rest] in front of it. *)
Definition reader_at (pre rest : list Z) : BytesReader :=
  MkBytesReader (pre ++ rest) (Z.of_nat (length pre)) (Z.of_nat (length (pre ++ rest))) None.

(** [ReadFrom] into a fresh struct [c] inverts the packed layout and stops right
    after it, for every event [e] that fits its layout and has [c]'s array sizes. *)
Definition reads_layout {E} `{EventReader E} (layout : E → list field) (sized : E → E → Prop)
  : Prop :=
  ∀ e c rest, fits (layout e) → sized e c →
    ReadFrom c (NewReader (encode (layout e) ++ rest)) = (e, reader_at (encode (layout e)) rest).

(** [ReadFrom] fails on exactly the samples shorter than the computed size. *)
Definition error_iff_short (E : Type) `{EventReader E} : Prop :=
  ∀ (c : E) (s : list Z),
    HasError (snd (ReadFrom c (NewReader s))) = true ↔
    Z.of_nat (length s) < size (snd (ReadFrom c newSizeCalcReader)).

(** ** Lemmas *)

Lemma le_bytes_length n v : length (le_bytes n v) = n.
Proof. revert v. induction n; intros; simpl; auto. Qed.

Lemma le_Z_bytes n v : 0 ≤ v < 256 ^ Z.of_nat n → le_Z (le_bytes n v) = v.
Proof.
  revert v. induction n as [|n IH]; intros v Hv.
  - simpl in *. lia.
  - cbn [le_bytes le_Z]. rewrite IH.
    + pose proof (Z.div_mod v 256). lia.
    + rewrite Nat2Z.inj_succ, Z.pow_succ_r in Hv by lia.
      split; [apply Z.div_pos; lia|]. apply Z.div_lt_upper_bound; lia.
Qed.

Lemma read_chunk pre b rest k :
  k = Z.of_nat (length b) →
  read k (reader_at pre (b ++ rest)) = (Some b, reader_at (pre ++ b) rest).
Proof.
  intros ->. unfold read, reader_at. simpl.
  rewrite decide_False by (rewrite !length_app; lia).
  rewrite !Nat2Z.id, drop_app_length, take_app_length.
  rewrite <- (assoc_L (++)), (length_app pre b). by rewrite Nat2Z.inj_add.
Qed.

Lemma readUint_at pre n v rest k :
  k = Z.of_nat n → 0 ≤ v < 256 ^ Z.of_nat n →
  readUint k (reader_at pre (le_bytes n v ++ rest)) = (v, reader_at (pre ++ le_bytes n v) rest).
Proof.
  intros -> Hv. unfold readUint, mbind, rd_bind.
  rewrite read_chunk by (by rewrite le_bytes_length). simpl. by rewrite le_Z_bytes.
Qed.

Lemma copy_into_full a b : length a = length b → copy_into a b = b.
Proof.
  intros H. unfold copy_into. rewrite drop_ge by lia. rewrite take_ge by lia.
  apply app_nil_r.
Qed.

Lemma readArray_at pre a b rest k :
  k = Z.of_nat (length b) → length a = length b →
  readArray a k (reader_at pre (b ++ rest)) = (b, reader_at (pre ++ b) rest).
Proof.
  intros Hk Ha. unfold readArray, mbind, rd_bind. rewrite read_chunk by done.
  simpl. by rewrite copy_into_full.
Qed.

Lemma encode_cons f fs : encode (f :: fs) = encode_field f ++ encode fs.
Proof. done. Qed.

(** Consume the next field of a packed layout. *)
Ltac read_field :=
  first
    [ rewrite readUint_at by (first [reflexivity|assumption])
    | rewrite readArray_at by (first [reflexivity|congruence|lia]) ].

Ltac split_fits :=
  unfold fits in *;
  repeat match goal with
  | H : Forall _ (_ :: _) |- _ => apply Forall_cons in H as [? H]
  end.

Ltac read_layout :=
  split_fits; rewrite !encode_cons; cbn [encode_field]; rewrite <- !(assoc_L (++));
  unfold mbind, rd_bind; cbn [ReadUint64 ReadUint32 ReadUint16 ReadUint8 ReadUint8Array bytes_reader];
  repeat read_field;
  change (encode []) with (@nil Z); rewrite ?app_nil_r, ?app_nil_l, <- ?(assoc_L (++));
  change (mret ?a) with (λ r : BytesReader, (a, r)); cbv beta; f_equal.

(** The states of the two readers after the same reads of the sample [s]. *)
Definition in_step (s : list Z) (b : BytesReader) (c : sizeCalcReader) : Prop :=
  sampleLen b = Z.of_nat (length s) ∧
  match err b with
  | None => CurrentOffset b = size c ∧ size c ≤ sampleLen b
  | Some _ => sampleLen b < size c
  end.

Definition lockstep {A B} (m : rd BytesReader A) (n : rd sizeCalcReader B) : Prop :=
  ∀ s b c, in_step s b c → in_step s (snd (m b)) (snd (n c)).

Lemma lockstep_ret {A B} (x : A) (y : B) : lockstep (mret x) (mret y).
Proof. by intros s b c. Qed.

Lemma lockstep_bind {A A' B B'} (m : rd BytesReader A) (n : rd sizeCalcReader A')
    (f : A → rd BytesReader B) (g : A' → rd sizeCalcReader B') :
  lockstep m n → (∀ x y, lockstep (f x) (g y)) → lockstep (m ≫= f) (n ≫= g).
Proof.
  intros Hm Hf s b c Hi. unfold mbind, rd_bind.
  specialize (Hm s b c Hi). destruct (m b), (n c). by apply Hf.
Qed.

Lemma lockstep_read {A} k (a : A) : 0 ≤ k → lockstep (read k) (calc k a).
Proof.
  intros Hk s b c [Hl Hi]. unfold read, in_step. destruct (err b) eqn:He; simpl.
  - rewrite He. split; [done|lia].
  - case_decide; simpl; (split; [done|lia]).
Qed.

Lemma lockstep_map {A B C} (m : rd BytesReader A) k (f : A → B) (z : C) :
  lockstep m (calc k z) → lockstep (a ← m; mret (f a)) (calc k z).
Proof.
  intros Hm s b c Hi. specialize (Hm s b c Hi). unfold mbind, rd_bind. by destruct (m b).
Qed.

Lemma lockstep_uint {C} k (v : C) : 0 ≤ k → lockstep (readUint k) (calc k v).
Proof. intros. by apply lockstep_map, lockstep_read. Qed.

Lemma lockstep_array {C} a k (v : C) : 0 ≤ k → lockstep (readArray a k) (calc k v).
Proof. intros. by apply lockstep_map, lockstep_read. Qed.

#[export] Hint Resolve lockstep_ret lockstep_bind : rover.
#[export] Hint Extern 1 (lockstep (readUint _) _) => (apply lockstep_uint; lia) : rover.
#[export] Hint Extern 1 (lockstep (readArray _ _) _) => (apply lockstep_array; lia) : rover.

Lemma lockstep_error {E} `{EventReader E} :
  (∀ c : E, lockstep (ReadFrom c) (ReadFrom c)) → error_iff_short E.
Proof.
  intros Hl c s. specialize (Hl c s (NewReader s) newSizeCalcReader).
  destruct Hl as [Hn Hm]; [split; [done|]; simpl; lia|].
  unfold HasError, bytes_reader. destruct (err _); [|naive_solver lia].
  split; [lia|done].
Qed.

(** The arrays of an event and of the struct it is read into have one size. *)
Definition same_connect (e c : SocketConnectEvent) : Prop :=
  length (RemoteAddrV6 e) = 16%nat ∧ length (RemoteAddrV6 c) = 16%nat ∧
  length (LocalAddrV6 e) = 16%nat ∧ length (LocalAddrV6 c) = 16%nat.

Definition same_data (e c : SocketDataUploadEvent) : Prop :=
  Z.of_nat (length (BufferBytes e)) = 20480 ∧ length (BufferBytes c) = length (BufferBytes e).

Definition same_result (e c : ZTunnelConnectionResultEvent) : Prop :=
  Z.of_nat (length (Data e)) = ZTunnelConnectionResultWindow ∧ length (Data c) = length (Data e).

(** Unfold one event's [ReadFrom] and its layout, and read the layout. *)
Tactic Notation "read_event" reference(reader) reference(readfrom) reference(layout) :=
  intros e c rest Hf Hs; unfold layout in *;
  change (NewReader ?l) with (reader_at [] l);
  unfold ReadFrom, reader, readfrom;
  try (destruct Hs as (? & ? & ? & ?)); try (destruct Hs as (? & ?));
  read_layout; by destruct e.

Tactic Notation "lockstep_event" reference(reader) reference(readfrom) :=
  apply lockstep_error; intros c; unfold ReadFrom, reader, readfrom;
  cbn [ReadUint64 ReadUint32 ReadUint16 ReadUint8 ReadUint8Array bytes_reader size_reader];
  repeat (apply lockstep_bind; [auto with rover|intros ? ?]); auto with rover.

Lemma close_layout_read : reads_layout layout_close (λ _ _, True).
Proof. read_event close_reader SocketCloseEvent_ReadFrom layout_close. Qed.

Lemma connect_layout_read : reads_layout layout_connect same_connect.
Proof. read_event connect_reader SocketConnectEvent_ReadFrom layout_connect. Qed.

Lemma detail_layout_read : reads_layout layout_detail (λ _ _, True).
Proof. read_event detail_reader SocketDetailEvent_ReadFrom layout_detail. Qed.

Lemma data_layout_read : reads_layout layout_data same_data.
Proof. read_event data_reader SocketDataUploadEvent_ReadFrom layout_data. Qed.

Lemma result_layout_read : reads_layout layout_result same_result.
Proof. read_event result_reader ZTunnelConnectionResultEvent_ReadFrom layout_result. Qed.

Lemma compact_layout_read : reads_layout layout_compact (λ _ _, True).
Proof. read_event compact_reader ZTunnelConnectionResultCompactEvent_ReadFrom layout_compact. Qed.

Lemma mapping_layout_read : reads_layout layout_mapping (λ _ _, True).
Proof. read_event mapping_reader ZTunnelSocketMappingEvent_ReadFrom layout_mapping. Qed.

Lemma close_error : error_iff_short SocketCloseEvent.
Proof. lockstep_event close_reader SocketCloseEvent_ReadFrom. Qed.

Lemma connect_error : error_iff_short SocketConnectEvent.
Proof. lockstep_event connect_reader SocketConnectEvent_ReadFrom. Qed.

Lemma detail_error : error_iff_short SocketDetailEvent.
Proof. lockstep_event detail_reader SocketDetailEvent_ReadFrom. Qed.

Lemma data_error : error_iff_short SocketDataUploadEvent.
Proof. lockstep_event data_reader SocketDataUploadEvent_ReadFrom. Qed.

Lemma result_error : error_iff_short ZTunnelConnectionResultEvent.
Proof. lockstep_event result_reader ZTunnelConnectionResultEvent_ReadFrom. Qed.

Lemma compact_error : error_iff_short ZTunnelConnectionResultCompactEvent.
Proof. lockstep_event compact_reader ZTunnelConnectionResultCompactEvent_ReadFrom. Qed.

Lemma mapping_error : error_iff_short ZTunnelSocketMappingEvent.
Proof. lockstep_event mapping_reader ZTunnelSocketMappingEvent_ReadFrom. Qed.

#[export] Hint Resolve close_layout_read connect_layout_read detail_layout_read data_layout_read
  result_layout_read compact_layout_read mapping_layout_read : rover.
#[export] Hint Resolve close_error connect_error detail_error data_error result_error
  compact_error mapping_error : rover.

(** ** Properties *)

(** C28: reading is the inverse of the BPF layout.  For every event struct, a
    [BytesReader] over the packed bytes of an event (with anything after them)
    returns exactly that event, reports no error and stops at its last byte. *)
Theorem ReadFrom_roundtrip :
  reads_layout layout_close (λ _ _, True) ∧
  reads_layout layout_connect same_connect ∧
  reads_layout layout_detail (λ _ _, True) ∧
  reads_layout layout_data same_data ∧
  reads_layout layout_result same_result ∧
  reads_layout layout_compact (λ _ _, True) ∧
  reads_layout layout_mapping (λ _ _, True).
Proof. split_and!; auto with rover. Qed.

(** C29: a sample is reported broken exactly when it is shorter than the size the
    size-calculating reader computes for the same struct, for every event struct. *)
Theorem ReadFrom_error_iff_short :
  error_iff_short SocketCloseEvent ∧ error_iff_short SocketConnectEvent ∧
  error_iff_short SocketDetailEvent ∧ error_iff_short SocketDataUploadEvent ∧
  error_iff_short ZTunnelConnectionResultEvent ∧
  error_iff_short ZTunnelConnectionResultCompactEvent ∧
  error_iff_short ZTunnelSocketMappingEvent.
Proof. split_and!; auto with rover. Qed.

(** The compact event of 88 bytes: its sample, read back. *)
Example compact_sample :
  let e := MkCompactEvent 7 0x0100000A 0x0200000A 40000 80 1 0 1 0 0 1 2 3 4 5 6 7 8 in
  size (snd (ReadFrom e newSizeCalcReader)) = 88 ∧
  fst (ReadFrom e (NewReader (encode (layout_compact e)))) = e.
Proof. split; vm_compute; reflexivity. Qed.

Lemma ParseConnectionID_split pid fd :
  0 ≤ pid < 2 ^ 32 → 0 ≤ fd < 2 ^ 32 → ParseConnectionID (pid * 2 ^ 32 + fd) = (pid, fd).
Proof.
  intros Hp Hf. unfold ParseConnectionID, u32. change 0xFFFFFFFF with (Z.ones 32).
  rewrite Z.land_ones, Z.shiftr_div_pow2 by lia.
  rewrite Z.div_add_l, Z.div_small, Z.add_0_r by lia.
  rewrite Zmod_mod, (Z.add_comm (pid * _)), Z_mod_plus_full, !Z.mod_small by lia. done.
Qed.
