(* ===== verification/Connection.v ===== *)
(** * The connections of the connection manager

    Models the connection side of [ConnectionManager] (src/pkg/accesslog/common/
    connection.go): connections by id, their addresses, protocol and TLS mode, the
    bounded wait for the resolution of a remote address, the delayed deletion, and
    the statistics of unresolved remotes.

    A [*ConnectionInfo] is shared between the manager, the flush listeners and the
    pending logs, so connections live in a store and the concurrent map holds
    references.  Flush listeners are records of operations over a state [L] of
    their own; the ztunnel collector of Ztunnel.v is one.  [now] is the reading of
    the clock, in nanoseconds, during the call. *)

From stdpp Require Import base gmap list strings pretty.
From Stdlib Require Import ZArith Lia.
From S2P Require Import Prelude GoStrings Interfaces ProcessMonitor Events.

(** ** Constants *)

Definition connectionDeleteDelayTime : Z := 25 * second.
Notation connectionCheckExistTime := (30 * second) (only parsing).
Definition unresolvedRemoteMaxTrack : nat := 100.
Notation unresolvedRemoteTopCount := 10%nat (only parsing).
Definition resolutionDeferMargin : Z := 15 * second.
Notation defaultFlushPeriod := (5 * second) (only parsing).

(** ** Data *)

Inductive ConnectionRole : Type :=
| ConnectionRoleUnknown | ConnectionRoleClient | ConnectionRoleServer.

Global Instance ConnectionRole_eq_dec : EqDecision ConnectionRole.
Proof. solve_decision. Defined.

Record SocketPair : Type := MkSocketPair {
  Family : Z;
  socket_Role : ConnectionRole;
  socket_SrcIP : string;
  socket_SrcPort : Z;
  socket_DestIP : string;
  socket_DestPort : Z;
  NeedConnTrack : bool;
  ConnTrackResolved : bool
}.

(** The address messages of the access log protocol. *)
Inductive ConnectionAddress : Type :=
| ConnectionAddress_Kubernetes (service pod container process : string) (port : Z)
| ConnectionAddress_Ip (host : string) (port : Z).

Inductive TLSMode : Type := TLSMode_Plain | TLSMode_TLS.
Inductive ProtocolType : Type := ProtocolType_TCP | ProtocolType_HTTP_1 | ProtocolType_HTTP_2.
Inductive DetectPoint : Type := DetectPoint_client | DetectPoint_server.

Global Instance TLSMode_eq_dec : EqDecision TLSMode.
Proof. solve_decision. Defined.
Global Instance ProtocolType_eq_dec : EqDecision ProtocolType.
Proof. solve_decision. Defined.

Inductive DetectBy : Type := ZTUNNEL_OUTBOUND_FUNC | ZTUNNEL_INBOUND_FUNC.

Global Instance DetectBy_eq_dec : EqDecision DetectBy.
Proof. solve_decision. Defined.

(** The ztunnel attachment of a connection; its security policy is always mTLS. *)
Record ZTunnelAttachment : Type := MkZTunnelAttachment {
  RealDestinationIp : string;
  By : DetectBy;
  Addition : list (string * string)
}.

Record AccessLogConnection : Type := MkAccessLogConnection {
  Local : option ConnectionAddress;
  Remote : option ConnectionAddress;
  rpc_Role : DetectPoint;
  TlsMode : TLSMode;
  Protocol : ProtocolType;
  Attachment : option ZTunnelAttachment
}.

Record ConnectionInfo : Type := MkConnectionInfo {
  ConnectionID : Z;
  RandomID : Z;
  RPCConnection : option AccessLogConnection;
  MarkDeletable : bool;
  conn_PID : Z;
  Socket : option SocketPair;
  LastCheckExistTime : Z;
  DeleteAfter : option Z;
  ProtocolBreak : bool;
  (** [None] is the zero time. *)
  CreatedAt : option Z;
  ResolutionDeadline : option Z
}.

Record ActiveConnection : Type := MkActiveConnection {
  active_RandomID : Z;
  active_PID : Z;
  active_SocketFD : Z;
  active_Role : Z;
  active_SocketFamily : Z;
  active_Protocol : Z;
  active_SSL : Z;
  SkipDataUpload : Z
}.

(** The events connections are looked up for. *)
Inductive Event : Type :=
| ConnectEventWithSocket (e : SocketConnectEvent) (SocketPair : option SocketPair)
| CloseEventWithNotify (e : SocketCloseEvent)
| DetailEvent (e : SocketDetailEvent).

Definition GetConnectionID (ev : Event) : Z :=
  match ev with
  | ConnectEventWithSocket e _ => ConID e
  | CloseEventWithNotify e => close_ConnectionID e
  | DetailEvent e => detail_ConnectionID e
  end.

Definition GetRandomID (ev : Event) : Z :=
  match ev with
  | ConnectEventWithSocket e _ => connect_RandomID e
  | CloseEventWithNotify e => close_RandomID e
  | DetailEvent e => detail_RandomID e
  end.

(** [fmt.Sprintf("%d_%d", conID, ranID)] *)
Definition connectionKey (conID ranID : Z) : string := pretty conID +:+ "_" +:+ pretty ranID.

Definition getSocketPairFromConnectEvent (ev : Event)
  : option SocketConnectEvent * option SocketPair :=
  match ev with
  | ConnectEventWithSocket e s => (Some e, s)
  | _ => (None, None)
  end.

Definition set_rpc (rpc : option AccessLogConnection) (c : ConnectionInfo) : ConnectionInfo :=
  MkConnectionInfo (ConnectionID c) (RandomID c) rpc (MarkDeletable c) (conn_PID c) (Socket c)
    (LastCheckExistTime c) (DeleteAfter c) (ProtocolBreak c) (CreatedAt c) (ResolutionDeadline c).
Definition set_markDeletable (b : bool) (c : ConnectionInfo) : ConnectionInfo :=
  MkConnectionInfo (ConnectionID c) (RandomID c) (RPCConnection c) b (conn_PID c) (Socket c)
    (LastCheckExistTime c) (DeleteAfter c) (ProtocolBreak c) (CreatedAt c) (ResolutionDeadline c).
Definition set_lastCheck (t : Z) (c : ConnectionInfo) : ConnectionInfo :=
  MkConnectionInfo (ConnectionID c) (RandomID c) (RPCConnection c) (MarkDeletable c) (conn_PID c)
    (Socket c) t (DeleteAfter c) (ProtocolBreak c) (CreatedAt c) (ResolutionDeadline c).
Definition set_deleteAfter (d : option Z) (c : ConnectionInfo) : ConnectionInfo :=
  MkConnectionInfo (ConnectionID c) (RandomID c) (RPCConnection c) (MarkDeletable c) (conn_PID c)
    (Socket c) (LastCheckExistTime c) d (ProtocolBreak c) (CreatedAt c) (ResolutionDeadline c).
Definition set_protocolBreak (b : bool) (c : ConnectionInfo) : ConnectionInfo :=
  MkConnectionInfo (ConnectionID c) (RandomID c) (RPCConnection c) (MarkDeletable c) (conn_PID c)
    (Socket c) (LastCheckExistTime c) (DeleteAfter c) b (CreatedAt c) (ResolutionDeadline c).
Definition set_deadline (d : option Z) (c : ConnectionInfo) : ConnectionInfo :=
  MkConnectionInfo (ConnectionID c) (RandomID c) (RPCConnection c) (MarkDeletable c) (conn_PID c)
    (Socket c) (LastCheckExistTime c) (DeleteAfter c) (ProtocolBreak c) (CreatedAt c) d.

(** ** Connection tracking (src/pkg/tools/ip/conntrack.go)

    An IP address is its canonical text, which is what [ParseIP] reads and [String]
    prints, so [Equal] is equality. *)

Record IPTuple : Type := MkIPTuple {
  tuple_Src : option string;
  tuple_Dst : option string;
  (** The ports of [Proto], when there is one. *)
  tuple_Proto : option (option Z * option Z)
}.

Record Con : Type := MkCon { Origin : option IPTuple; Reply : option IPTuple }.

Record ConnTrack : Type := MkConnTrack {
  queryCount : Z;
  resolvedCount : Z;
  notFoundCount : Z;
  ignoredCount : Z
}.

Definition ipTupleValid (t : option IPTuple) : bool :=
  match t with
  | Some (MkIPTuple (Some _) (Some _) (Some (Some _, Some _))) => true
  | _ => false
  end.

Definition ipTuplesEqual (a b : IPTuple) : bool :=
  bool_decide (tuple_Src a = tuple_Src b) && bool_decide (tuple_Dst a = tuple_Dst b) &&
  bool_decide (tuple_Proto a = tuple_Proto b).

Definition parseSocketToTuple (addr : SocketPair) : IPTuple :=
  MkIPTuple (Some (socket_SrcIP addr)) (Some (socket_DestIP addr))
    (Some (Some (socket_SrcPort addr), Some (socket_DestPort addr))).

Fixpoint filterValidateReply (sessions : list Con) (origin : IPTuple) : option IPTuple :=
  match sessions with
  | [] => None
  | s :: rest =>
    if negb (ipTupleValid (Origin s)) || negb (ipTupleValid (Reply s))
    then filterValidateReply rest origin
    else match Origin s with
         | Some o => if ipTuplesEqual origin o then Reply s else filterValidateReply rest origin
         | None => filterValidateReply rest origin
         end
  end.

(** [tools.IsLocalHostAddress]: [hostAddresses] are the addresses of the host's
    interfaces, read once at start. *)
Definition IsLocalHostAddress (hostAddresses : gset string) (address : string) : bool :=
  bool_decide (address ∈ hostAddresses) || bool_decide (address = "0.0.0.0").

Definition ShouldIgnoreConntrack (hostAddresses : gset string)
    (originalDestIP conntrackIP : string) (conntrackPort : Z) : bool :=
  (conntrackPort =? 15001) && IsLocalHostAddress hostAddresses conntrackIP &&
  negb (IsLocalHostAddress hostAddresses originalDestIP).

(** [query] is [conntrack.Nfct.Get]: the sessions of a tuple, or an error. *)
Definition UpdateRealPeerAddress (hostAddresses : gset string)
    (query : IPTuple → option (list Con)) (c : ConnTrack) (addr : SocketPair)
  : ConnTrack * SocketPair :=
  let tuple := parseSocketToTuple addr in
  let missed := MkConnTrack (queryCount c + 1) (resolvedCount c) (notFoundCount c + 1)
                  (ignoredCount c) in
  match query tuple with
  | None => (missed, addr)
  | Some sessions =>
    match filterValidateReply sessions tuple with
    | Some (MkIPTuple (Some src) _ (Some (Some port, _))) =>
      if negb (ShouldIgnoreConntrack hostAddresses (socket_DestIP addr) src port)
      then (MkConnTrack (queryCount c + 1) (resolvedCount c + 1) (notFoundCount c)
              (ignoredCount c),
            MkSocketPair (Family addr) (socket_Role addr) (socket_SrcIP addr)
              (socket_SrcPort addr) src (socket_DestPort addr) false true)
      else (MkConnTrack (queryCount c + 1) (resolvedCount c) (notFoundCount c)
              (ignoredCount c + 1), addr)
    | _ => (missed, addr)
    end
  end.

(** ** The manager's state *)

(** What a flush listener does.  [ReadyToFlushConnection] also says whether the
    listener reports the connection's resolution to [RecordResolutionLatency]; the
    event is [None] when a mapping pushes the connection. *)
Record ResolutionAwareFlusher (L : Type) : Type := MkResolutionAware {
  IsResolutionPending : Z → ConnectionInfo → L → bool * ConnectionInfo * L;
  FinalizeConnection : Z → ConnectionInfo → L → L;
  UnresolvedReason : Z → ConnectionInfo → L → string * ConnectionInfo * L
}.
Arguments MkResolutionAware {L} _ _ _.
Arguments IsResolutionPending {L} r.
Arguments FinalizeConnection {L} r.
Arguments UnresolvedReason {L} r.

Record FlusherListener (L : Type) : Type := MkFlusherListener {
  ReadyToFlushConnection : Z → option Event → ConnectionInfo → L → bool * ConnectionInfo * L;
  resolutionAware : option (ResolutionAwareFlusher L)
}.
Arguments MkFlusherListener {L} _ _.
Arguments ReadyToFlushConnection {L} f.
Arguments resolutionAware {L} f.

(** The counters of the summary report. *)
Record ResolveStats : Type := MkResolveStats {
  remoteAddressBuildCount : Z;
  unresolvedRemoteCount : Z;
  ztunnelResolvedRemoteCount : Z;
  conntrackResolvedRemoteCount : Z;
  unresolvedRemotes : gmap string Z;
  unresolvedByReason : gmap string Z;
  resolutionLatencyUnder1s : Z;
  resolutionLatency1to5s : Z;
  resolutionLatency5to15s : Z;
  resolutionLatencyOver15s : Z;
  resolutionLatencyMaxMilli : Z
}.

Section manager_state.
Context {M C CM AM PB L : Type}.

Record Manager : Type := MkManager {
  monitor : Monitor M C;
  connections : CM;
  heap : gmap positive ConnectionInfo;
  next_ref : positive;
  activeConnectionMap : AM;
  connectionProtocolBreakMap : PB;
  connectTracker : option ConnTrack;
  stats : ResolveStats;
  listeners : L
}.

Definition set_connections (x : CM) (m : Manager) : Manager :=
  MkManager (monitor m) x (heap m) (next_ref m) (activeConnectionMap m)
    (connectionProtocolBreakMap m) (connectTracker m) (stats m) (listeners m).
Definition set_heap (x : gmap positive ConnectionInfo) (m : Manager) : Manager :=
  MkManager (monitor m) (connections m) x (next_ref m) (activeConnectionMap m)
    (connectionProtocolBreakMap m) (connectTracker m) (stats m) (listeners m).
Definition set_next (x : positive) (m : Manager) : Manager :=
  MkManager (monitor m) (connections m) (heap m) x (activeConnectionMap m)
    (connectionProtocolBreakMap m) (connectTracker m) (stats m) (listeners m).
Definition set_active (x : AM) (m : Manager) : Manager :=
  MkManager (monitor m) (connections m) (heap m) (next_ref m) x
    (connectionProtocolBreakMap m) (connectTracker m) (stats m) (listeners m).
Definition set_breaks (x : PB) (m : Manager) : Manager :=
  MkManager (monitor m) (connections m) (heap m) (next_ref m) (activeConnectionMap m) x
    (connectTracker m) (stats m) (listeners m).
Definition set_tracker (x : option ConnTrack) (m : Manager) : Manager :=
  MkManager (monitor m) (connections m) (heap m) (next_ref m) (activeConnectionMap m)
    (connectionProtocolBreakMap m) x (stats m) (listeners m).
Definition set_stats (x : ResolveStats) (m : Manager) : Manager :=
  MkManager (monitor m) (connections m) (heap m) (next_ref m) (activeConnectionMap m)
    (connectionProtocolBreakMap m) (connectTracker m) x (listeners m).
Definition set_listeners (x : L) (m : Manager) : Manager :=
  MkManager (monitor m) (connections m) (heap m) (next_ref m) (activeConnectionMap m)
    (connectionProtocolBreakMap m) (connectTracker m) (stats m) x.
End manager_state.
Arguments Manager M C CM AM PB L : clear implicits.

Definition add_built (s : ResolveStats) : ResolveStats :=
  MkResolveStats (remoteAddressBuildCount s + 1) (unresolvedRemoteCount s)
    (ztunnelResolvedRemoteCount s) (conntrackResolvedRemoteCount s) (unresolvedRemotes s)
    (unresolvedByReason s) (resolutionLatencyUnder1s s) (resolutionLatency1to5s s)
    (resolutionLatency5to15s s) (resolutionLatencyOver15s s) (resolutionLatencyMaxMilli s).
Definition add_resolved (z c : Z) (s : ResolveStats) : ResolveStats :=
  MkResolveStats (remoteAddressBuildCount s) (unresolvedRemoteCount s)
    (ztunnelResolvedRemoteCount s + z) (conntrackResolvedRemoteCount s + c) (unresolvedRemotes s)
    (unresolvedByReason s) (resolutionLatencyUnder1s s) (resolutionLatency1to5s s)
    (resolutionLatency5to15s s) (resolutionLatencyOver15s s) (resolutionLatencyMaxMilli s).
Definition set_unresolved (n : Z) (pairs reasons : gmap string Z) (s : ResolveStats)
  : ResolveStats :=
  MkResolveStats (remoteAddressBuildCount s) n (ztunnelResolvedRemoteCount s)
    (conntrackResolvedRemoteCount s) pairs reasons (resolutionLatencyUnder1s s)
    (resolutionLatency1to5s s) (resolutionLatency5to15s s) (resolutionLatencyOver15s s)
    (resolutionLatencyMaxMilli s).
Definition add_latency (a b c d ms : Z) (s : ResolveStats) : ResolveStats :=
  MkResolveStats (remoteAddressBuildCount s) (unresolvedRemoteCount s)
    (ztunnelResolvedRemoteCount s) (conntrackResolvedRemoteCount s) (unresolvedRemotes s)
    (unresolvedByReason s) (resolutionLatencyUnder1s s + a) (resolutionLatency1to5s s + b)
    (resolutionLatency5to15s s + c) (resolutionLatencyOver15s s + d)
    (Z.max (resolutionLatencyMaxMilli s) ms).

(** The statistics of an unresolved remote: the count of a new pair is dropped
    once [unresolvedRemoteMaxTrack] pairs are tracked. *)
Definition recordUnresolvedRemote (reason socketPair : string) (s : ResolveStats) : ResolveStats :=
  let key := reason +:+ " " +:+ socketPair in
  let reasons := <[reason := default 0 (unresolvedByReason s !! reason) + 1]>
                   (unresolvedByReason s) in
  let pairs :=
    match unresolvedRemotes s !! key with
    | None => if (unresolvedRemoteMaxTrack <=? base.size (unresolvedRemotes s))%nat
              then unresolvedRemotes s
              else <[key := 1]> (unresolvedRemotes s)
    | Some n => <[key := n + 1]> (unresolvedRemotes s)
    end in
  set_unresolved (unresolvedRemoteCount s + 1) pairs reasons s.

Definition sortByCount `{RangeOrder} (m : gmap string Z) (topN : nat) : string :=
  if decide (m = ∅) then "none"
  else
    let sorted := sort_Slice (λ i j, snd j <? snd i) (range m) in
    let sorted := if (0 <? topN)%nat && (topN <? length sorted)%nat then take topN sorted
                  else sorted in
    Join ((λ s, fst s +:+ "=" +:+ pretty (snd s)) <$> sorted) ", ".

Definition drainUnresolvedRemotes `{RangeOrder} (s : ResolveStats)
  : (string * string) * ResolveStats :=
  ((sortByCount (unresolvedRemotes s) unresolvedRemoteTopCount,
    sortByCount (unresolvedByReason s) 0),
   set_unresolved (unresolvedRemoteCount s) ∅ ∅ s).

Definition resolutionGraceFor (flushPeriod : Z) : Z :=
  let grace := flushPeriod + resolutionDeferMargin in
  let maxGrace := connectionDeleteDelayTime - flushPeriod in
  let grace := if maxGrace <? grace then maxGrace else grace in
  if grace <? 0 then 0 else grace.

(** The flush period of the configuration: [parsed] is what [time.ParseDuration]
    makes of it, if it parses. *)
Definition flushPeriodOf (parsed : option Z) : Z :=
  match parsed with
  | Some p => if 0 <? p then p else defaultFlushPeriod
  | None => defaultFlushPeriod
  end.

(** [RecordResolutionLatency] *)
Definition RecordResolutionLatency (now : Z) (conn : ConnectionInfo) (s : ResolveStats)
  : ResolveStats :=
  match CreatedAt conn with
  | None => s
  | Some created =>
    let d := now - created in
    let ms := Z.quot d 1000000 in
    if d <? second then add_latency 1 0 0 0 ms s
    else if d <? 5 * second then add_latency 0 1 0 0 ms s
    else if d <? 15 * second then add_latency 0 0 1 0 ms s
    else add_latency 0 0 0 1 ms s
  end.

Definition rebuildRPCConnectionWithTLSModeAndProtocol (tls : TLSMode) (protocol : ProtocolType)
    (original : AccessLogConnection) : AccessLogConnection :=
  MkAccessLogConnection (Local original) (Remote original) (rpc_Role original) tls protocol
    (Attachment original).

(** The TLS mode and the protocol a detail event leaves a connection with. *)
Definition detailTLSMode (e : SocketDetailEvent) (rpc : AccessLogConnection) : TLSMode :=
  if (SSL e =? 1) && bool_decide (TlsMode rpc = TLSMode_Plain) then TLSMode_TLS else TlsMode rpc.

Definition detailProtocol (protocolBreak : bool) (e : SocketDetailEvent)
    (rpc : AccessLogConnection) : ProtocolType :=
  let protocol :=
    if negb protocolBreak && negb (detail_Protocol e =? 0) &&
       bool_decide (Protocol rpc = ProtocolType_TCP)
    then if detail_Protocol e =? 1 then ProtocolType_HTTP_1
         else if detail_Protocol e =? 2 then ProtocolType_HTTP_2
         else Protocol rpc
    else Protocol rpc in
  if protocolBreak && bool_decide (Protocol rpc ≠ ProtocolType_TCP) then ProtocolType_TCP
  else protocol.

(** ** Operations *)

Section manager.
Context `{RangeOrder} {M C CM AM PB L : Type}.
Context `{!EbpfMap Z Z M} `{!ExpiringCache Z ProcessVerdict C} `{!ConcurrentMap positive CM}.
Context `{!EbpfMap Z ActiveConnection AM} `{!ExpiringCache string bool PB}.
(** The registered flush listeners, the grace period, the host's addresses and the
    kernel's connection tracking. *)
Context (flushListeners : list (FlusherListener L)) (resolutionGracePeriod : Z).
Context (hostAddresses : gset string) (query : IPTuple → option (list Con)).
Notation Mgr := (Manager M C CM AM PB L).

Definition deref (ref : positive) : act Mgr Empty_set ConnectionInfo :=
  s ← get; lift (must (heap s !! ref)).

Definition assign (ref : positive) (c : ConnectionInfo) : act Mgr Empty_set unit :=
  modify (λ s, set_heap (<[ref := c]> (heap s)) s).

Definition update_stats (f : ResolveStats → ResolveStats) : act Mgr Empty_set unit :=
  modify (λ s, set_stats (f (stats s)) s).

(** A listener at work on a connection. *)
Definition run_listener {A} (ref : positive)
    (f : ConnectionInfo → L → A * ConnectionInfo * L) : act Mgr Empty_set A :=
  c ← deref ref;
  s ← get;
  match f c (listeners s) with
  | (a, c', l') => modify (set_listeners l');; assign ref c';; mret a
  end.

Fixpoint notifyFlush (now : Z) (ev : option Event) (ref : positive)
    (ls : list (FlusherListener L)) : act Mgr Empty_set unit :=
  match ls with
  | [] => mret tt
  | flush :: rest =>
    resolved ← run_listener ref (ReadyToFlushConnection flush now ev);
    c ← deref ref;
    (if resolved : bool then update_stats (RecordResolutionLatency now c) else mret tt);;
    notifyFlush now ev ref rest
  end.

Fixpoint anyPending (now : Z) (ref : positive) (ls : list (FlusherListener L))
  : act Mgr Empty_set bool :=
  match ls with
  | [] => mret false
  | l :: rest =>
    match resolutionAware l with
    | None => anyPending now ref rest
    | Some r =>
      pending ← run_listener ref (IsResolutionPending r now);
      if pending : bool then mret true else anyPending now ref rest
    end
  end.

Definition ShouldDeferForResolution (now : Z) (conn : option positive)
  : act Mgr Empty_set bool :=
  match conn with
  | None => mret false
  | Some ref =>
    if resolutionGracePeriod <=? 0 then mret false
    else
      pending ← anyPending now ref flushListeners;
      if negb pending then mret false
      else
        c ← deref ref;
        match ResolutionDeadline c with
        | None =>
          assign ref (set_deadline (Some (now + resolutionGracePeriod)) c);; mret true
        | Some deadline => mret (now <? deadline)
        end
  end.

Definition connectionPostHandle (now : Z) (ref : positive) (ev : Event)
  : act Mgr Empty_set unit :=
  c ← deref ref;
  (match ev with
   | CloseEventWithNotify _ => assign ref (set_markDeletable true c)
   | DetailEvent e =>
     rpc ← lift (must (RPCConnection c));
     assign ref (set_rpc (Some (rebuildRPCConnectionWithTLSModeAndProtocol
       (detailTLSMode e rpc) (detailProtocol (ProtocolBreak c) e rpc) rpc)) c)
   | ConnectEventWithSocket _ _ => mret tt
   end);;
  notifyFlush now (Some ev) ref flushListeners.

(** The address of a monitored Kubernetes process, or the source address of the
    socket. *)
Definition buildLocalAddress (mon : Monitor M C) (pid port : Z) (socket : SocketPair)
  : ConnectionAddress :=
  let kubernetes := omap (λ pi, k ← Kubernetes pi; Some (pi, k))
                      (default [] (monitoringProcesses mon !! i32 pid)) in
  match kubernetes with
  | (pi, k) :: _ =>
    ConnectionAddress_Kubernetes (ServiceName pi) (PodName k) (ContainerName k)
      (ProcessName pi) port
  | [] => ConnectionAddress_Ip (socket_SrcIP socket) port
  end.

Definition buildAddressFromRemote (ipHost : string) (port : Z) : ConnectionAddress :=
  ConnectionAddress_Ip ipHost port.

(** The query of the connection tracking; without a tracker it panics. *)
Definition trackPeer (socket : SocketPair) : act Mgr Empty_set SocketPair :=
  if NeedConnTrack socket then
    s ← get;
    t ← lift (must (connectTracker s));
    match UpdateRealPeerAddress hostAddresses query t socket with
    | (t', socket') => modify (set_tracker (Some t'));; mret socket'
    end
  else mret socket.

(** The remote address, with the socket as the connection tracking rewrote it;
    [None] when the remote is the host itself. *)
Definition buildRemoteAddress (socket : SocketPair)
  : act Mgr Empty_set (option ConnectionAddress * SocketPair) :=
  if IsLocalHostAddress hostAddresses (socket_DestIP socket) then mret (None, socket)
  else
    s ← get;
    socket ← trackPeer socket;
    update_stats add_built;;
    match localIPWithPid (monitor s) !! socket_DestIP socket with
    | Some pid =>
      if negb (pid =? 0)
      then mret (Some (buildLocalAddress (monitor s) (u32 pid) (socket_DestPort socket) socket),
                 socket)
      else mret (Some (buildAddressFromRemote (socket_DestIP socket) (socket_DestPort socket)),
                 socket)
    | None =>
      mret (Some (buildAddressFromRemote (socket_DestIP socket) (socket_DestPort socket)), socket)
    end.

Definition buildConnection (now : Z) (e : SocketConnectEvent) (socket : SocketPair)
    (local remote : ConnectionAddress) (conKey : string) : act Mgr Empty_set ConnectionInfo :=
  let role := match socket_Role socket with
              | ConnectionRoleServer => DetectPoint_server
              | _ => DetectPoint_client
              end in
  let rpc := MkAccessLogConnection (Some local) (Some remote) role TLSMode_Plain
               ProtocolType_TCP None in
  s ← get;
  protocolBreak ←
    match ec_Get now conKey (connectionProtocolBreakMap s) with
    | Some v => modify (λ s, set_breaks (ec_Delete conKey (connectionProtocolBreakMap s)) s);;
                mret v
    | None => mret false
    end;
  mret (MkConnectionInfo (ConID e) (connect_RandomID e) (Some rpc) false (connect_PID e)
          (Some socket) now None protocolBreak (Some now) None).

(** A new object of the store. *)
Definition alloc (c : ConnectionInfo) : act Mgr Empty_set positive :=
  s ← get;
  put (set_next (Pos.succ (next_ref s)) (set_heap (<[next_ref s := c]> (heap s)) s));;
  mret (next_ref s).

Definition Find (now : Z) (ev : Event) : act Mgr Empty_set (option positive) :=
  let key := connectionKey (GetConnectionID ev) (GetRandomID ev) in
  s ← get;
  match cm_Get key (connections s) with
  | Some ref => connectionPostHandle now ref ev;; mret (Some ref)
  | None =>
    match getSocketPairFromConnectEvent ev with
    | (Some e, Some socket) =>
      let localPID := fst (ParseConnectionID (GetConnectionID ev)) in
      let localAddress := buildLocalAddress (monitor s) localPID (socket_SrcPort socket) socket in
      built ← buildRemoteAddress socket;
      match built with
      | (None, _) => mret None
      | (Some remoteAddress, socket) =>
        c ← buildConnection now e socket localAddress remoteAddress key;
        ref ← alloc c;
        modify (λ s, set_connections (cm_Set key ref (connections s)) s);;
        connectionPostHandle now ref ev;;
        mret (Some ref)
      end
    | _ => mret None
    end
  end.

Definition checkConnectionIsExist (now : Z) (ref : positive) : act Mgr Empty_set bool :=
  con ← deref ref;
  if now - LastCheckExistTime con <? connectionCheckExistTime then mret true
  else
    let con := set_lastCheck now con in
    assign ref con;;
    s ← get;
    match em_Lookup (ConnectionID con) (activeConnectionMap s) with
    | inl ErrKeyNotExist => assign ref (set_markDeletable true con);; mret false
    | inl ErrOther => mret false
    | inr activateConn =>
      if negb (active_RandomID activateConn =? 0) &&
         negb (active_RandomID activateConn =? RandomID con)
      then assign ref (set_markDeletable true con);; mret false
      else mret true
    end.

(** Every listener that takes part in the resolution sees the final state. *)
Fixpoint finalizeAll (now : Z) (c : ConnectionInfo) (ls : list (FlusherListener L)) (l : L) : L :=
  match ls with
  | [] => l
  | f :: rest =>
    match resolutionAware f with
    | Some r => finalizeAll now c rest (FinalizeConnection r now c l)
    | None => finalizeAll now c rest l
    end
  end.

(** The first reason a listener gives. *)
Fixpoint unresolvedReasonOf (now : Z) (ref : positive) (ls : list (FlusherListener L))
  : act Mgr Empty_set string :=
  match ls with
  | [] => mret "unresolved"
  | f :: rest =>
    match resolutionAware f with
    | None => unresolvedReasonOf now ref rest
    | Some r =>
      rs ← run_listener ref (UnresolvedReason r now);
      if decide (rs = "") then unresolvedReasonOf now ref rest else mret rs
    end
  end.

Definition socketSource (c : ConnectionInfo) : string :=
  match Socket c with
  | Some s => socket_SrcIP s +:+ ":" +:+ pretty (socket_SrcPort s)
  | None => "unknown"
  end.

Definition recordConnectionResolveResult (now : Z) (ref : positive) : act Mgr Empty_set unit :=
  connection ← deref ref;
  match RPCConnection connection with
  | None => mret tt
  | Some rpc =>
    modify (λ s, set_listeners (finalizeAll now connection flushListeners (listeners s)) s);;
    match Remote rpc with
    | Some (ConnectionAddress_Ip host port) =>
      if decide (is_Some (Attachment rpc)) then update_stats (add_resolved 1 0)
      else if match Socket connection with Some s => ConnTrackResolved s | None => false end
      then update_stats (add_resolved 0 1)
      else
        reason ← unresolvedReasonOf now ref flushListeners;
        update_stats (recordUnresolvedRemote reason
          (socketSource connection +:+ "->" +:+ host +:+ ":" +:+ pretty port))
    | _ => mret tt
    end
  end.

(** One connection of the deletion round: whether it is to be deleted now. *)
Definition checkDeletable (now : Z) (ref : positive) : act Mgr Empty_set bool :=
  con ← deref ref;
  s ← get;
  shouldDelete ←
    (if MarkDeletable con || negb (ProcessIsMonitor (conn_PID con) (monitor s)) then mret true
     else exist ← checkConnectionIsExist now ref; mret (negb exist));
  con ← deref ref;
  if negb shouldDelete then mret false
  else
    match DeleteAfter con with
    | None =>
      assign ref (set_deleteAfter (Some (now + connectionDeleteDelayTime)) con);;
      mret (now + connectionDeleteDelayTime <? now)
    | Some after => mret (after <? now)
    end.

Fixpoint collectDeletable (now : Z) (items : list (string * positive))
  : act Mgr Empty_set (gmap string positive) :=
  match items with
  | [] => mret ∅
  | (key, ref) :: rest =>
    del ← checkDeletable now ref;
    deletable ← collectDeletable now rest;
    mret (if del : bool then <[key := ref]> deletable else deletable)
  end.

Fixpoint deleteConnections (now : Z) (items : list (string * positive)) : act Mgr Empty_set unit :=
  match items with
  | [] => mret tt
  | (key, ref) :: rest =>
    recordConnectionResolveResult now ref;;
    modify (λ s, set_connections (cm_Remove key (connections s)) s);;
    deleteConnections now rest
  end.

Definition OnBuildConnectionLogFinished (now : Z) : act Mgr Empty_set unit :=
  s ← get;
  deletableConnections ← collectDeletable now (cm_Items (connections s));
  deleteConnections now (range deletableConnections).

(** Tell the kernel to stop uploading the data of a connection. *)
Definition skipDataUpload (conID ranID : Z) : act Mgr Empty_set unit :=
  s ← get;
  match em_Lookup conID (activeConnectionMap s) with
  | inl _ => mret tt
  | inr a =>
    if negb (active_RandomID a =? ranID) then mret tt
    else
      let a := MkActiveConnection (active_RandomID a) (active_PID a) (active_SocketFD a)
                 (active_Role a) (active_SocketFamily a) (active_Protocol a) (active_SSL a) 1 in
      modify (set_active (snd (em_Update conID a (activeConnectionMap s))))
  end.

Definition SkipAllDataAnalyzeAndDowngradeProtocol (now conID ranID : Z)
  : act Mgr Empty_set unit :=
  let key := connectionKey conID ranID in
  s ← get;
  (match cm_Get key (connections s) with
   | Some ref => c ← deref ref; assign ref (set_protocolBreak true c)
   | None =>
     modify (λ s, set_breaks (ec_Set now key true (60 * second) (connectionProtocolBreakMap s)) s)
   end);;
  skipDataUpload conID ranID.

(** A connection the mapping of a source address can resolve. *)
Definition retroCandidate (srcIP : string) (srcPort : Z) (c : ConnectionInfo) : bool :=
  match Socket c, RPCConnection c with
  | Some s, Some rpc =>
    negb (bool_decide (is_Some (Attachment rpc))) &&
    bool_decide (socket_Role s = ConnectionRoleClient) &&
    bool_decide (socket_SrcIP s = srcIP) && (socket_SrcPort s =? srcPort)
  | _, _ => false
  end.

Fixpoint retroResolve (now : Z) (srcIP : string) (srcPort : Z)
    (items : list (string * positive)) : act Mgr Empty_set unit :=
  match items with
  | [] => mret tt
  | (_, ref) :: rest =>
    c ← deref ref;
    (if retroCandidate srcIP srcPort c then notifyFlush now None ref flushListeners
     else mret tt);;
    retroResolve now srcIP srcPort rest
  end.

Definition RetroResolveBySrc (now : Z) (srcIP : string) (srcPort : Z) : act Mgr Empty_set unit :=
  s ← get; retroResolve now srcIP srcPort (cm_Items (connections s)).

Definition OnConnectionClose (e : SocketCloseEvent) : Event := CloseEventWithNotify e.

(** A tick of the cleaner of the kernel's active connections: the close events of
    the connections whose descriptor is gone, in the order they are queued.
    [fdExists] is whether /proc still has the descriptor. *)
Fixpoint cleanActive (fdExists : Z → Z → bool) (items : list (Z * ActiveConnection))
  : act Mgr Empty_set (list Event) :=
  match items with
  | [] => mret []
  | (conID, a) :: rest =>
    let '(pid, fd) := ParseConnectionID conID in
    if fdExists pid fd then cleanActive fdExists rest
    else
      s ← get;
      match em_Delete conID (activeConnectionMap s) with
      | (Some _, am) => modify (set_active am);; cleanActive fdExists rest
      | (None, am) =>
        modify (set_active am);;
        evs ← cleanActive fdExists rest;
        mret (OnConnectionClose (MkSocketCloseEvent conID (active_RandomID a) 0 0
                (active_PID a) (active_SocketFD a) 0) :: evs)
      end
  end.

Definition cleanActiveConnections (fdExists : Z → Z → bool) : act Mgr Empty_set (list Event) :=
  s ← get; cleanActive fdExists (em_Iterate (activeConnectionMap s)).
End manager.
