(* ===== verification/ConnectionLife.v ===== *)
(** * The life of a connection in the manager

    Theorems about Connection.v over arbitrary sequences of the manager's
    operations: no operation panics, a connection is never held for its resolution
    longer than the grace period, and it stays in the manager long enough for the
    logs that were held to be sent.  The flush listeners are any listeners that
    satisfy [LawfulListener]. *)

From stdpp Require Import base gmap list strings pretty.
From Stdlib Require Import ZArith Lia.
From S2P Require Import Prelude GoStrings Interfaces ProcessMonitor Events Connection.

(** ** What a listener may do *)

Definition with_attachment (a : option ZTunnelAttachment) (rpc : AccessLogConnection)
  : AccessLogConnection :=
  MkAccessLogConnection (Local rpc) (Remote rpc) (rpc_Role rpc) (TlsMode rpc) (Protocol rpc) a.

(** Only the attachment changes, and it is never taken away. *)
Inductive attaches (c : ConnectionInfo) : ConnectionInfo → Prop :=
| attaches_same : attaches c c
| attaches_new rpc a :
  RPCConnection c = Some rpc → attaches c (set_rpc (Some (with_attachment (Some a) rpc)) c).

Class LawfulListener {L} (f : FlusherListener L) : Prop := {
  ready_attaches now ev c l : attaches c (snd (fst (ReadyToFlushConnection f now ev c l)));
  pending_attaches r now c l :
    resolutionAware f = Some r → attaches c (snd (fst (IsResolutionPending r now c l)));
  reason_attaches r now c l :
    resolutionAware f = Some r → attaches c (snd (fst (UnresolvedReason r now c l)))
}.

(** ** Sequences of operations *)

Section operations.
Context `{RangeOrder} {M C CM AM PB L : Type}.
Context `{!EbpfMap Z Z M} `{!ExpiringCache Z ProcessVerdict C} `{!ConcurrentMap positive CM}.
Context `{!EbpfMap Z ActiveConnection AM} `{!ExpiringCache string bool PB}.
Context (flushListeners : list (FlusherListener L)) (grace : Z).
Context (hostAddresses : gset string) (query : IPTuple → option (list Con)).
Notation Mgr := (Manager M C CM AM PB L).

(** The operations of the manager; the set of monitored processes and the state of
    the listeners change between them. *)
Inductive op : Type :=
| OpFind (ev : Event)
| OpDefer (ref : positive)
| OpFinish
| OpSkip (conID ranID : Z)
| OpRetro (srcIP : string) (srcPort : Z)
| OpClean (fdExists : Z → Z → bool)
| OpReport
| OpMonitor (mon : Monitor M C)
| OpListeners (l : L).

Definition exec (now : Z) (o : op) : act Mgr Empty_set unit :=
  match o with
  | OpFind ev => Find flushListeners hostAddresses query now ev;; mret tt
  | OpDefer ref =>
    s ← get;
    match heap s !! ref with
    | Some _ => ShouldDeferForResolution flushListeners grace now (Some ref);; mret tt
    | None => mret tt
    end
  | OpFinish => OnBuildConnectionLogFinished flushListeners now
  | OpSkip conID ranID => SkipAllDataAnalyzeAndDowngradeProtocol now conID ranID
  | OpRetro srcIP srcPort => RetroResolveBySrc flushListeners now srcIP srcPort
  | OpClean fdExists => cleanActiveConnections fdExists;; mret tt
  | OpReport => modify (λ s, set_stats (snd (drainUnresolvedRemotes (stats s))) s)
  | OpMonitor mon =>
    modify (λ s, MkManager mon (connections s) (heap s) (next_ref s) (activeConnectionMap s)
                   (connectionProtocolBreakMap s) (connectTracker s) (stats s) (listeners s))
  | OpListeners l => modify (set_listeners l)
  end.

Fixpoint run (ops : list (Z * op)) : act Mgr Empty_set unit :=
  match ops with
  | [] => mret tt
  | (now, o) :: rest => exec now o;; run rest
  end.

(** The manager knows a connection by the reference [ref] under the key [k]. *)
Definition holds (s : Mgr) (k : string) (ref : positive) : Prop :=
  cm_view (connections s) !! k = Some ref.

(** ** Well-formedness *)

Definition conn_ok (k : string) (c : ConnectionInfo) : Prop :=
  connectionKey (ConnectionID c) (RandomID c) = k ∧ is_Some (RPCConnection c).

Record manager_inv (s : Mgr) : Prop := {
  inv_refs k ref : holds s k ref → ∃ c, heap s !! ref = Some c ∧ conn_ok k c;
  inv_fresh ref c : heap s !! ref = Some c → (ref < next_ref s)%positive;
  inv_tracker : is_Some (connectTracker s)
}.

(** ** How a connection evolves *)

Definition rpc_evolves (r r' : AccessLogConnection) : Prop :=
  Local r' = Local r ∧ Remote r' = Remote r ∧ rpc_Role r' = rpc_Role r ∧
  (TlsMode r = TLSMode_TLS → TlsMode r' = TLSMode_TLS) ∧
  (is_Some (Attachment r) → is_Some (Attachment r')).

Record conn_evolves (c c' : ConnectionInfo) : Prop := {
  ev_ids : ConnectionID c' = ConnectionID c ∧ RandomID c' = RandomID c ∧ conn_PID c' = conn_PID c ∧
    Socket c' = Socket c ∧ CreatedAt c' = CreatedAt c;
  ev_rpc r : RPCConnection c = Some r → ∃ r', RPCConnection c' = Some r' ∧ rpc_evolves r r';
  ev_deletable : MarkDeletable c = true → MarkDeletable c' = true;
  ev_break : ProtocolBreak c = true → ProtocolBreak c' = true;
  ev_deleteAfter d : DeleteAfter c = Some d → DeleteAfter c' = Some d;
  ev_deadline d : ResolutionDeadline c = Some d → ResolutionDeadline c' = Some d
}.

Definition heap_evolves (s s' : Mgr) : Prop :=
  ∀ ref c, heap s !! ref = Some c → ∃ c', heap s' !! ref = Some c' ∧ conn_evolves c c'.

(** What every operation guarantees. *)
Record evolves (s s' : Mgr) : Prop := {
  e_inv : manager_inv s → manager_inv s';
  e_heap : heap_evolves s s'
}.

(** The delayed deletion is left alone. *)
Definition keeps_delay (s s' : Mgr) : Prop :=
  ∀ ref c c', heap s !! ref = Some c → heap s' !! ref = Some c' → DeleteAfter c' = DeleteAfter c.

(** A delayed deletion that starts at [now] ends [connectionDeleteDelayTime] later. *)
Definition delays (now : Z) (s s' : Mgr) : Prop :=
  ∀ ref c c', heap s !! ref = Some c → heap s' !! ref = Some c' →
    DeleteAfter c' = DeleteAfter c ∨
    DeleteAfter c = None ∧ DeleteAfter c' = Some (now + connectionDeleteDelayTime).

(** A connection whose delayed deletion is due. *)
Definition due (now : Z) (c : ConnectionInfo) : Prop :=
  ∃ d, DeleteAfter c = Some d ∧ d < now.

(** No connection leaves the manager. *)
Definition keeps_connections (s s' : Mgr) : Prop := ∀ k ref, holds s k ref → holds s' k ref.

(** What every operation but the deletion round guarantees. *)
Definition quiet (s s' : Mgr) : Prop :=
  evolves s s' ∧ keeps_delay s s' ∧ keeps_connections s s'.

(** The same, and the set of connections and of processes is left alone. *)
Definition touches (s s' : Mgr) : Prop :=
  quiet s s' ∧ connections s' = connections s ∧ monitor s' = monitor s.
End operations.
Arguments op M C L : clear implicits.

(** ** Evolution is a preorder, and the primitive changes respect it *)

Section evolution.
Context `{RangeOrder} {M C CM AM PB L : Type}.
Context `{!EbpfMap Z Z M} `{!ExpiringCache Z ProcessVerdict C} `{!ConcurrentMap positive CM}.
Context `{!EbpfMap Z ActiveConnection AM} `{!ExpiringCache string bool PB}.
Notation Mgr := (Manager M C CM AM PB L).
Implicit Types (s : Mgr) (c : ConnectionInfo).

Global Instance rpc_evolves_preorder : PreOrder rpc_evolves.
Proof.
  unfold rpc_evolves. split; [done|].
  intros r1 r2 r3 (H1 & H2 & H3 & H4 & H5) (K1 & K2 & K3 & K4 & K5).
  rewrite K1, K2, K3. split_and!; auto.
Qed.

Global Instance conn_evolves_preorder : PreOrder conn_evolves.
Proof.
  split.
  - intros c. split; try done. intros r Hr. by exists r.
  - intros c1 c2 c3 [Hi Hr Hd Hb Ha Hl] [Ki Kr Kd Kb Ka Kl]. split; auto.
    + destruct Hi as (<- & <- & <- & <- & <-). done.
    + intros r (r2 & (r3 & Hr3 & K)%Kr & K2)%Hr. exists r3. split; [done|]. by trans r2.
Qed.

Global Instance evolves_preorder : PreOrder (@evolves M C CM AM PB L _).
Proof.
  split.
  - intros s. split; [done|]. intros ref c Hc. by exists c.
  - intros s1 s2 s3 [Hi Hh] [Ki Kh]. split; [tauto|].
    intros ref c (c2 & (c3 & Hc3 & E3)%Kh & E2)%Hh. exists c3. split; [done|]. by trans c2.
Qed.

Global Instance quiet_preorder : PreOrder (@quiet M C CM AM PB L _).
Proof.
  split.
  - intros s. split_and!; [done| |by intros ??].
    intros ref c c' H1 H2. rewrite H1 in H2. by simplify_eq.
  - intros s1 s2 s3 (He & Hd & Hc) (Ke & Kd & Kc). split_and!; [by trans s2| |].
    + intros ref c c' H1 H3. destruct (e_heap _ _ He _ _ H1) as (c2 & H2 & _).
      by rewrite (Kd _ _ _ H2 H3), (Hd _ _ _ H1 H2).
    + intros k ref Hk. by apply Kc, Hc.
Qed.

Global Instance touches_preorder : PreOrder (@touches M C CM AM PB L _).
Proof.
  split; [intros s; split_and!; [reflexivity|done|done]|].
  intros s1 s2 s3 (Hq & Hc & Hm) (Kq & Kc & Km). split_and!; [by trans s2|congruence|congruence].
Qed.

Lemma touches_heap s s' ref c :
  touches s s' → heap s !! ref = Some c → ∃ c', heap s' !! ref = Some c' ∧ conn_evolves c c'.
Proof. intros (((_ & H1) & _) & _). apply H1. Qed.

Lemma inv_same s s' :
  heap s' = heap s → next_ref s' = next_ref s → connections s' = connections s →
  (is_Some (connectTracker s) → is_Some (connectTracker s')) →
  manager_inv s → manager_inv s'.
Proof.
  intros Hh Hn Hc Ht [H1 H2 H3]. split; unfold holds in *.
  - rewrite Hc, Hh. apply H1.
  - rewrite Hn, Hh. apply H2.
  - by apply Ht.
Qed.

Lemma quiet_same s s' :
  heap s' = heap s → next_ref s' = next_ref s → connections s' = connections s →
  (is_Some (connectTracker s) → is_Some (connectTracker s')) →
  quiet s s'.
Proof.
  intros Hh Hn Hc Ht. split_and!; [split| |].
  - by apply inv_same.
  - intros ref c Hr. rewrite Hh. by exists c.
  - intros ref c c'. rewrite Hh. intros. by simplify_eq.
  - intros k ref. unfold holds. by rewrite Hc.
Qed.

Lemma conn_ok_evolves k c c' : conn_ok k c → conn_evolves c c' → conn_ok k c'.
Proof.
  intros [Hk [r Hr]] [(Hi & Hj & _) Hrpc _ _ _ _]. split; [by rewrite Hi, Hj|].
  destruct (Hrpc r Hr) as (r' & -> & _). by eexists.
Qed.

Lemma assign_evolves s ref c c' :
  heap s !! ref = Some c → conn_evolves c c' →
  evolves s (set_heap (<[ref := c']> (heap s)) s).
Proof.
  intros Hc He. split.
  - intros [H1 H2 H3]. split; simpl; [| |done].
    + intros k ref' (c0 & Hc0 & Hok)%H1. destruct (decide (ref' = ref)) as [->|Hne].
      * exists c'. rewrite lookup_insert_eq. split; [done|]. simplify_eq.
        by eapply conn_ok_evolves.
      * exists c0. by rewrite lookup_insert_ne.
    + intros ref' c0. rewrite lookup_insert_Some. intros [[<- <-]|[_ ?]]; by eapply H2.
  - intros ref' c0 Hc0. simpl. destruct (decide (ref' = ref)) as [->|Hne].
    + exists c'. rewrite lookup_insert_eq. by simplify_eq.
    + exists c0. by rewrite lookup_insert_ne.
Qed.

Lemma assign_quiet s ref c c' :
  heap s !! ref = Some c → conn_evolves c c' → DeleteAfter c' = DeleteAfter c →
  quiet s (set_heap (<[ref := c']> (heap s)) s).
Proof.
  intros Hc He Hd. split_and!; [by eapply assign_evolves| |by intros k r Hk].
  intros ref' c0 c0' H0. simpl. rewrite lookup_insert_Some.
  intros [[<- <-]|[_ ?]]; by simplify_eq.
Qed.

Lemma attaches_evolves c c' : attaches c c' → conn_evolves c c'.
Proof.
  intros [|rpc a Hr]; [done|]. split; try done.
  intros r Hr'. simplify_eq. eexists. split; [done|]. repeat split; simpl; try done.
Qed.

Lemma attaches_delay c c' : attaches c c' → DeleteAfter c' = DeleteAfter c.
Proof. by intros []. Qed.

Lemma attaches_deadline c c' : attaches c c' → ResolutionDeadline c' = ResolutionDeadline c.
Proof. by intros []. Qed.

(** The rules for the store. *)
Lemma wp_deref ref c (Q : ConnectionInfo → Mgr → Prop) s :
  heap s !! ref = Some c → Q c s → wp (deref ref) Q s.
Proof. intros Hc HQ. unfold deref. wp_steps. by eapply wp_must. Qed.

Lemma wp_run_listener {A} ref c (f : ConnectionInfo → L → A * ConnectionInfo * L) s :
  heap s !! ref = Some c → (∀ c l, attaches c (snd (fst (f c l)))) →
  wp (run_listener ref f)
    (λ a s', touches s s' ∧ a = fst (fst (f c (listeners s))) ∧
       heap s' !! ref = Some (snd (fst (f c (listeners s))))) s.
Proof.
  intros Hc Hf. unfold run_listener. apply wp_bind, (wp_deref _ c); [done|]. wp_steps.
  specialize (Hf c (listeners s)). destruct (f c (listeners s)) as [[a c'] l']. simpl in *.
  unfold assign. wp_steps. split_and!; [split_and!; [|done|done]|done|apply lookup_insert_eq].
  trans (set_listeners l' s); [by apply quiet_same|].
  apply assign_quiet with c; [done|by apply attaches_evolves|by apply attaches_delay].
Qed.
End evolution.

Section specifications.
Context `{RangeOrder} {M C CM AM PB L : Type}.
Context `{!EbpfMap Z Z M} `{!ExpiringCache Z ProcessVerdict C} `{!ConcurrentMap positive CM}.
Context `{!EbpfMap Z ActiveConnection AM} `{!ExpiringCache string bool PB}.
Context (flushListeners : list (FlusherListener L)) (grace : Z).
Context (hostAddresses : gset string) (query : IPTuple → option (list Con)).
Hypothesis lawful : Forall LawfulListener flushListeners.
Notation Mgr := (Manager M C CM AM PB L).
Implicit Types (s : Mgr) (c : ConnectionInfo).

Lemma touches_stats f s : touches s (set_stats f s).
Proof. split_and!; [by apply quiet_same|done|done]. Qed.

Lemma maybe_stats_touches (b : bool) f s :
  wp (if b then update_stats f else mret tt) (λ _ s', touches s s' ∧ heap s' = heap s) s.
Proof.
  destruct b; [unfold update_stats|]; wp_steps; [|done]. split; [apply touches_stats|done].
Qed.

Lemma notifyFlush_touches now ev ref c ls s :
  Forall LawfulListener ls → heap s !! ref = Some c →
  wp (notifyFlush now ev ref ls) (λ _ s', touches s s') s.
Proof.
  intros Hl. revert c s. induction Hl as [|f ls Hf _ IH]; intros c s Hc; simpl; [by wp_steps|].
  apply wp_bind. eapply wp_mono; [by eapply wp_run_listener; [|intros; apply ready_attaches]|].
  intros resolved s1 (Ht & _ & H1). apply wp_bind. eapply wp_deref; [done|]. apply wp_bind.
  eapply wp_mono; [apply maybe_stats_touches|]. intros _ s2 [K1 K2].
  eapply wp_mono; [eapply IH; by rewrite K2|]. intros ? s3 K3. simpl in *.
  trans s1; [done|]. by trans s2.
Qed.

(** The listeners are asked in order; the connection's deadline is left alone. *)
Lemma anyPending_touches now ref c ls s :
  Forall LawfulListener ls → heap s !! ref = Some c →
  wp (anyPending now ref ls)
    (λ _ s', touches s s' ∧
       ∃ c', heap s' !! ref = Some c' ∧ ResolutionDeadline c' = ResolutionDeadline c) s.
Proof.
  intros Hl. revert c s. induction Hl as [|f ls Hf _ IH]; intros c s Hc; simpl.
  { wp_steps. split; [done|]. by exists c. }
  destruct (resolutionAware f) as [r|] eqn:Hr; [|by apply IH].
  apply wp_bind. eapply wp_mono; [by eapply wp_run_listener; [|intros; apply pending_attaches]|].
  intros pending s1 (Ht & Hp & H1). simpl in *.
  pose proof (attaches_deadline _ _ (pending_attaches r now c (listeners s) Hr)) as Hd.
  destruct pending.
  { wp_steps. split; [done|]. by eexists. }
  eapply wp_mono; [by eapply IH|]. intros b s2 (Ht2 & c2 & Hc2 & Hd2). simpl.
  split; [by trans s1|]. exists c2. split; [done|]. by rewrite Hd2.
Qed.

(** The outcome of [ShouldDeferForResolution] on a connection. *)
Lemma ShouldDefer_spec now ref c s :
  heap s !! ref = Some c →
  wp (ShouldDeferForResolution flushListeners grace now (Some ref))
    (λ b s', touches s s' ∧
       ∃ c', heap s' !! ref = Some c' ∧
         match ResolutionDeadline c with
         | Some d => b = true → now < d
         | None => if b then ResolutionDeadline c' = Some (now + grace)
                   else ResolutionDeadline c' = None
         end) s.
Proof.
  intros Hc. unfold ShouldDeferForResolution. case_match.
  { wp_steps. split; [done|]. exists c. split; [done|]. by destruct (ResolutionDeadline c). }
  apply wp_bind. eapply wp_mono; [by eapply anyPending_touches|].
  intros pending s1 (Ht & c1 & Hc1 & Hd1). simpl. destruct pending; simpl.
  2: { wp_steps. split; [done|]. exists c1. split; [done|].
       rewrite Hd1. by destruct (ResolutionDeadline c). }
  apply wp_bind, (wp_deref _ c1); [done|]. rewrite <- Hd1.
  destruct (ResolutionDeadline c1) as [d|] eqn:Hd; unfold assign; wp_steps.
  - split; [done|]. exists c1. split; [done|]. intros Hlt. by apply Z.ltb_lt in Hlt.
  - split.
    + trans s1; [done|]. split_and!; [|done|done].
      apply assign_quiet with c1; [done| |done]. split; try done; simpl.
      * intros r Hr. by exists r.
      * by rewrite Hd.
    + eexists. simpl. by rewrite lookup_insert_eq.
Qed.

Lemma connectionPostHandle_touches now ref c ev s :
  heap s !! ref = Some c → is_Some (RPCConnection c) →
  wp (connectionPostHandle flushListeners now ref ev) (λ _ s', touches s s') s.
Proof.
  intros Hc [rpc Hr]. unfold connectionPostHandle. apply wp_bind, (wp_deref _ c); [done|].
  apply wp_bind.
  assert (K : ∀ c', conn_evolves c c' → DeleteAfter c' = DeleteAfter c →
    wp (assign ref c') (λ _, wp (notifyFlush now (Some ev) ref flushListeners)
                               (λ _ s', touches s s')) s).
  { intros c' He Hd. unfold assign. wp_steps.
    eapply wp_mono; [eapply notifyFlush_touches; [done|apply lookup_insert_eq]|].
    intros ? s2 Ht. simpl in Ht. etrans; [|exact Ht].
    split_and!; [by apply assign_quiet with c|done|done]. }
  destruct ev as [e so|e|e].
  - wp_steps. by eapply notifyFlush_touches.
  - apply K; [|done]. split; try done. intros r Hr'. by exists r.
  - apply wp_bind, (wp_must _ rpc); [done|]. apply K; [|done].
    split; try done. simpl. intros r Hr'. simplify_eq. eexists. split; [done|].
    unfold rpc_evolves, rebuildRPCConnectionWithTLSModeAndProtocol, detailTLSMode. simpl.
    split_and!; try done. intros ->. by rewrite andb_false_r.
Qed.

(** A new connection enters the manager under its key. *)
Lemma alloc_quiet key c s :
  conn_ok key c → cm_view (connections s) !! key = None → 
  manager_inv s →
  quiet s (set_connections (cm_Set key (next_ref s) (connections s))
             (set_next (Pos.succ (next_ref s)) (set_heap (<[next_ref s := c]> (heap s)) s))).
Proof.
  intros Hok Hnone Hinv.
  assert (Hne : ∀ ref c0, heap s !! ref = Some c0 → ref ≠ next_ref s).
  { intros ref c0 Hr ->. apply (inv_fresh _ Hinv) in Hr. lia. }
  split_and!; [split| |].
  - intros _. split; unfold holds; simpl; [| |apply Hinv].
    + intros k ref. rewrite cm_Set_spec, lookup_insert_Some. intros [[<- <-]|[_ Hk]].
      * exists c. by rewrite lookup_insert_eq.
      * destruct (inv_refs _ Hinv k ref Hk) as (c0 & Hc0 & Hok0). exists c0.
        by rewrite lookup_insert_ne by (symmetry; by eapply Hne).
    + intros ref c0. rewrite lookup_insert_Some. intros [[<- _]|[_ Hr]]; [lia|].
      apply (inv_fresh _ Hinv) in Hr. lia.
  - intros ref c0 Hr. exists c0. simpl. by rewrite lookup_insert_ne by (symmetry; by eapply Hne).
  - intros ref c0 c0' Hr. simpl. rewrite lookup_insert_ne by (symmetry; by eapply Hne).
    intros. by simplify_eq.
  - intros k ref Hk. unfold holds in *. simpl. rewrite cm_Set_spec, lookup_insert_ne; congruence.
Qed.

Lemma trackPeer_touches socket s :
  is_Some (connectTracker s) → wp (trackPeer hostAddresses query socket) (λ _ s', touches s s') s.
Proof.
  intros [t Ht]. unfold trackPeer. case_match; [|by wp_steps]. wp_step. wp_step.
  apply wp_bind, (wp_must _ t); [done|]. destruct (UpdateRealPeerAddress _ _ _ _). wp_steps.
  split_and!; [by apply quiet_same|done|done].
Qed.

Lemma buildRemoteAddress_touches socket s :
  is_Some (connectTracker s) →
  wp (buildRemoteAddress hostAddresses query socket) (λ _ s', touches s s') s.
Proof.
  intros Ht. unfold buildRemoteAddress. case_match; [by wp_steps|].
  wp_step. wp_step. apply wp_bind. eapply wp_mono; [by apply trackPeer_touches|].
  intros so s1 K1. simpl. apply wp_bind. unfold update_stats. wp_steps.
  assert (touches s (set_stats (add_built (stats s1)) s1)).
  { trans s1; [done|]. apply touches_stats. }
  repeat case_match; by wp_steps.
Qed.

Lemma buildConnection_touches now e so local remote key s :
  wp (buildConnection now e so local remote key)
    (λ c s', touches s s' ∧ ConnectionID c = ConID e ∧ RandomID c = connect_RandomID e ∧
       is_Some (RPCConnection c)) s.
Proof.
  unfold buildConnection. wp_steps. destruct (ec_Get now key (connectionProtocolBreakMap s)); wp_steps.
  - split_and!; try done. split_and!; [by apply quiet_same|done|done].
  - by split_and!.
Qed.

Lemma Find_quiet now ev s :
  manager_inv s →
  wp (Find flushListeners hostAddresses query now ev)
    (λ o s', quiet s s' ∧ monitor s' = monitor s ∧
                          match o with
                          | Some ref =>
                            holds s' (connectionKey (GetConnectionID ev) (GetRandomID ev)) ref
                          | None => True
                          end) s.
Proof.
  intros Hinv. unfold Find. wp_step. wp_step. rewrite cm_Get_spec.
  set (key := connectionKey _ _).
  destruct (cm_view (connections s) !! key) as [ref|] eqn:Hk.
  { destruct (inv_refs _ Hinv key ref Hk) as (c & Hc & _ & Hr).
    apply wp_bind. eapply wp_mono; [by eapply connectionPostHandle_touches|].
    intros _ s' (Hq & Hcs & Hm). wp_steps. split_and!; [done..|]. unfold holds. by rewrite Hcs. }
  destruct ev as [e [so|]|e|e]; simpl; [|by wp_steps|by wp_steps|by wp_steps].
  apply wp_bind. eapply wp_mono; [apply buildRemoteAddress_touches, Hinv|].
  intros [[remote|] so'] s1 (Hq1 & Hc1 & Hm1); [|by wp_steps].
  apply wp_bind. eapply wp_mono; [apply buildConnection_touches|].
  intros c s2 ((Hq2 & Hc2 & Hm2) & Hid & Hrand & Hrpc). unfold alloc. wp_steps.
  assert (Hq : quiet s s2) by (by trans s1).
  assert (Ha : quiet s2 (set_connections (cm_Set key (next_ref s2) (connections s2))
     (set_next (Pos.succ (next_ref s2)) (set_heap (<[next_ref s2 := c]> (heap s2)) s2)))).
  { apply alloc_quiet; [|by rewrite Hc2, Hc1|by apply Hq].
    split; [|done]. rewrite Hid, Hrand. done. }
  eapply wp_mono; [eapply connectionPostHandle_touches; [apply lookup_insert_eq|done]|].
  intros _ s3 (Hq3 & Hc3 & Hm3). wp_steps. split_and!.
  - trans s2; [done|]. etrans; [exact Ha|exact Hq3].
  - rewrite Hm3. simpl. by rewrite Hm2.
  - unfold holds. rewrite Hc3. simpl. by rewrite cm_Set_spec, lookup_insert_eq.
Qed.

Lemma skipDataUpload_quiet conID ranID s : wp (skipDataUpload conID ranID) (λ _ s', quiet s s') s.
Proof.
  unfold skipDataUpload. wp_step. wp_step. case_match; [by wp_steps|].
  case_match; wp_steps; [done|]. by apply quiet_same.
Qed.

Lemma Skip_quiet now conID ranID s :
  manager_inv s →
  wp (SkipAllDataAnalyzeAndDowngradeProtocol now conID ranID) (λ _ s', quiet s s') s.
Proof.
  intros Hinv. unfold SkipAllDataAnalyzeAndDowngradeProtocol. wp_step. wp_step. apply wp_bind.
  rewrite cm_Get_spec. set (key := connectionKey _ _).
  assert (Hact : ∀ s1, quiet s s1 → wp (skipDataUpload conID ranID) (λ _ s', quiet s s') s1).
  { intros s1 Hq. eapply wp_mono; [apply skipDataUpload_quiet|]. intros ? s2 Hq2. by trans s1. }
  destruct (cm_view (connections s) !! key) as [ref|] eqn:Hk.
  - destruct (inv_refs _ Hinv key ref Hk) as (c & Hc & _).
    apply wp_bind, (wp_deref _ c); [done|]. unfold assign. wp_step. apply Hact.
    apply assign_quiet with c; [done| |done]. split; try done. intros r Hr. by exists r.
  - wp_step. apply Hact. by apply quiet_same.
Qed.

(** The connections of the manager are in the store, and stay there. *)
Definition stored (s : Mgr) (items : list (string * positive)) : Prop :=
  ∀ k ref, (k, ref) ∈ items → is_Some (heap s !! ref).

Lemma stored_items s : manager_inv s → stored s (cm_Items (connections s)).
Proof.
  intros Hinv k ref Hin. rewrite cm_Items_spec, elem_of_map_to_list in Hin.
  destruct (inv_refs _ Hinv k ref Hin) as (c & Hc & _). by exists c.
Qed.

Lemma stored_cons s k ref items :
  stored s ((k, ref) :: items) → (∃ c, heap s !! ref = Some c) ∧ stored s items.
Proof.
  intros Hs. split; [apply (Hs k ref); left|]. intros k' ref' Hin. apply (Hs k' ref'). by right.
Qed.

Lemma stored_evolves s s' items : evolves s s' → stored s items → stored s' items.
Proof.
  intros [_ Hh] Hs k ref [c Hc]%Hs. destruct (Hh ref c Hc) as (c' & Hc' & _). by exists c'.
Qed.

Lemma Retro_quiet now srcIP srcPort s :
  manager_inv s → wp (RetroResolveBySrc flushListeners now srcIP srcPort) (λ _ s', quiet s s') s.
Proof.
  intros Hinv. unfold RetroResolveBySrc. wp_step. wp_step.
  pose proof (stored_items s Hinv) as Hs. clear Hinv. revert Hs.
  generalize (cm_Items (connections s)). intros items. revert s.
  induction items as [|[k ref] items IH]; intros s Hs; simpl; [by wp_steps|].
  apply stored_cons in Hs as [[c Hc] Hs]. apply wp_bind, (wp_deref _ c); [done|]. apply wp_bind.
  assert (K : wp (if retroCandidate srcIP srcPort c then notifyFlush now None ref flushListeners
                  else mret tt) (λ _ s', quiet s s') s).
  { case_match; [|by wp_steps]. eapply wp_mono; [by eapply notifyFlush_touches|].
    by intros ? s' [? _]. }
  eapply wp_mono; [apply K|]. intros ? s1 Hq. eapply wp_mono; [apply IH|].
  - by eapply stored_evolves; [apply Hq|].
  - intros ? s2 Hq2. by trans s1.
Qed.

Lemma clean_quiet fdExists s :
  wp (cleanActiveConnections fdExists) (λ _ s', quiet s s') s.
Proof.
  unfold cleanActiveConnections. wp_step. wp_step. generalize (em_Iterate (activeConnectionMap s)).
  intros items. revert s. induction items as [|[conID a] items IH]; intros s; simpl; [by wp_steps|].
  case_match; [apply IH|]. wp_step. wp_step.
  destruct (em_Delete conID (activeConnectionMap s)) as [[e|] am]; wp_step; wp_step.
  - eapply wp_mono; [apply IH|]. intros ? s2 Hq. etrans; [|exact Hq]. by apply quiet_same.
  - apply wp_bind. eapply wp_mono; [apply IH|]. intros evs s2 Hq. wp_steps.
    etrans; [|exact Hq]. by apply quiet_same.
Qed.

Lemma checkConnectionIsExist_touches now ref c s :
  heap s !! ref = Some c → wp (checkConnectionIsExist now ref) (λ _ s', touches s s') s.
Proof.
  intros Hc. unfold checkConnectionIsExist. apply wp_bind, (wp_deref _ c); [done|].
  case_match; [by wp_steps|].
  assert (K : ∀ c', conn_evolves c c' → DeleteAfter c' = DeleteAfter c →
    touches s (set_heap (<[ref := c']> (heap s)) s)).
  { intros c' He Hd. split_and!; [by apply assign_quiet with c|done|done]. }
  assert (K1 : conn_evolves c (set_lastCheck now c)).
  { split; try done. intros r Hr. by exists r. }
  assert (K2 : ∀ s1, touches s s1 → heap s1 !! ref = Some (set_lastCheck now c) →
    touches s (set_heap (<[ref := set_markDeletable true (set_lastCheck now c)]> (heap s1)) s1)).
  { intros s1 Ht H1. trans s1; [done|]. split_and!; [|done|done].
    eapply assign_quiet; [done| |done]. split; try done. intros r Hr. by exists r. }
  unfold assign. wp_steps. simpl.
  destruct (em_Lookup _ _) as [[]|a]; [| |case_match]; wp_steps;
    first [by apply K | by apply K2; [apply K|apply lookup_insert_eq]].
Qed.

(** A round looks at one connection: it is deleted only when its delay is over,
    and it is when it is known to be closed or its process is not monitored. *)
Lemma checkDeletable_spec now ref c s :
  heap s !! ref = Some c →
  wp (checkDeletable now ref)
    (λ b s', evolves s s' ∧ connections s' = connections s ∧ monitor s' = monitor s ∧
       delays now s s' ∧ (b = true → due now c) ∧
       (MarkDeletable c || negb (ProcessIsMonitor (conn_PID c) (monitor s)) = true →
        due now c → b = true)) s.
Proof.
  intros Hc. unfold checkDeletable. apply wp_bind, (wp_deref _ c); [done|]. wp_step. wp_step.
  apply wp_bind.
  set (certain := MarkDeletable c || negb (ProcessIsMonitor (conn_PID c) (monitor s))).
  assert (K : wp (if certain then mret true
                  else exist ← checkConnectionIsExist now ref; mret (negb exist))
                (λ b s', touches s s' ∧ (certain = true → b = true)) s).
  { destruct certain; [by wp_steps|]. apply wp_bind.
    eapply wp_mono; [by eapply checkConnectionIsExist_touches|]. intros b s1 Ht. by wp_steps. }
  eapply wp_mono; [apply K|]. intros b s1 [Ht Hb]. simpl.
  destruct (touches_heap _ _ _ _ Ht Hc) as (c1 & Hc1 & He1).
  destruct Ht as ((Hev & Hdelay & _) & Hcs & Hm).
  assert (Hda : DeleteAfter c1 = DeleteAfter c) by (by eapply Hdelay).
  assert (Hds : delays now s s1) by (intros r x x' Hx Hx'; left; by eapply Hdelay).
  apply wp_bind, (wp_deref _ c1); [done|]. destruct b; simpl.
  2: { wp_steps. split_and!; try done. intros Hcert. by apply Hb in Hcert. }
  unfold due. rewrite <- Hda. destruct (DeleteAfter c1) as [d|] eqn:Hd; unfold assign; wp_steps.
  - split_and!; try done.
    + intros Hlt. exists d. split; [done|]. by apply Z.ltb_lt.
    + intros _ (d' & [= <-] & Hlt). by apply Z.ltb_lt.
  - split_and!; try done.
    + trans s1; [done|]. apply assign_evolves with c1; [done|]. split; try done; simpl.
      * intros r Hr. by exists r.
      * by rewrite Hd.
    + intros r x x' Hx. simpl. rewrite lookup_insert_Some. intros [[<- <-]|[_ Hx']].
      * right. by simplify_eq.
      * by eapply Hds.
    + unfold connectionDeleteDelayTime, second. intros Hlt%Z.ltb_lt. lia.
    + intros _ (d' & ? & _). done.
Qed.

Lemma delays_trans now s1 s2 s3 :
  heap_evolves s1 s2 → delays now s1 s2 → delays now s2 s3 → delays now s1 s3.
Proof.
  intros Hh H1 H2 ref c c' Hc Hc'. destruct (Hh _ _ Hc) as (c2 & Hc2 & _).
  destruct (H1 _ _ _ Hc Hc2) as [E|[E1 E2]], (H2 _ _ _ Hc2 Hc') as [F|[F1 F2]]; [left|right|right|];
    try split; congruence.
Qed.

(** A deadline that is due at the end of a step was already there. *)
Lemma due_back now s s' ref c c' :
  delays now s s' → heap s !! ref = Some c → heap s' !! ref = Some c' → due now c' → due now c.
Proof.
  intros Hd Hc Hc' (d & Hda & Hlt). destruct (Hd _ _ _ Hc Hc') as [E|[E1 E2]].
  - exists d. by rewrite <- E.
  - exfalso. rewrite E2 in Hda. simplify_eq. unfold connectionDeleteDelayTime, second in Hlt. lia.
Qed.

(** Certainly closed, as far as the round knows. *)
Definition closed (s : Mgr) (c : ConnectionInfo) : bool :=
  MarkDeletable c || negb (ProcessIsMonitor (conn_PID c) (monitor s)).

Lemma closed_evolves s s' c c' :
  monitor s' = monitor s → conn_evolves c c' → closed s c = true → closed s' c' = true.
Proof.
  unfold closed. intros -> [(_ & _ & -> & _) _ Hd _ _ _] [H1|H1]%orb_true_iff;
    apply orb_true_iff; [left; by apply Hd|by right].
Qed.

Lemma collectDeletable_spec now items s :
  stored s items → NoDup items.*1 →
  wp (collectDeletable now items)
    (λ del s', evolves s s' ∧ connections s' = connections s ∧ monitor s' = monitor s ∧
       delays now s s' ∧
       (∀ k ref, del !! k = Some ref →
          (k, ref) ∈ items ∧ ∀ c, heap s !! ref = Some c → due now c) ∧
       (∀ k ref c, (k, ref) ∈ items → heap s !! ref = Some c → closed s c = true → due now c →
          del !! k = Some ref)) s.
Proof.
  revert s. induction items as [|[k ref] items IH]; intros s Hs Hnd; simpl.
  { wp_steps. split_and!; try done.
    - intros r c c' H1 H2. left. by simplify_eq.
    - by intros k ref ? ?%elem_of_nil. }
  apply stored_cons in Hs as [[c Hc] Hs]. apply NoDup_cons in Hnd as [Hk Hnd].
  apply wp_bind. eapply wp_mono; [by eapply checkDeletable_spec|].
  intros b s1 (He & Hcs & Hm & Hd & Hb & Hb'). apply wp_bind.
  eapply wp_mono; [apply IH; [by eapply stored_evolves|done]|].
  intros del s2 (He2 & Hcs2 & Hm2 & Hd2 & Hdel & Hdel'). wp_steps.
  split_and!; [by trans s1|congruence|congruence|by eapply delays_trans; [apply He|..]| |].
  - intros k' ref' Hin.
    assert ((b = true ∧ k' = k ∧ ref' = ref) ∨ del !! k' = Some ref') as [(-> & -> & ->)|Hin'].
    { destruct b; [apply lookup_insert_Some in Hin as [[<- <-]|[_ ?]]; auto|by right]. }
    + split; [left|]. intros c0 Hc0. simplify_eq. by apply Hb.
    + destruct (Hdel _ _ Hin') as [Hi Hdue]. split; [by right|]. intros c0 Hc0.
      destruct (e_heap _ _ He _ _ Hc0) as (c1 & Hc1 & _). eapply due_back; [exact Hd|exact Hc0|exact Hc1|by apply Hdue].
  - intros k' ref' c0 Hin Hc0 Hcl Hdue. apply elem_of_cons in Hin as [[= -> ->]|Hin].
    + simplify_eq. rewrite (Hb' Hcl Hdue). apply lookup_insert_eq.
    + destruct (e_heap _ _ He _ _ Hc0) as (c1 & Hc1 & Hev).
      assert (Hk' : k' ≠ k).
      { intros ->. apply Hk. apply list_elem_of_fmap. by exists (k, ref'). }
      assert (del !! k' = Some ref').
      { eapply Hdel'; [done|done|by eapply closed_evolves|].
        destruct Hdue as (d & Hda & Hlt). exists d. split; [|done]. by apply (ev_deleteAfter _ _ Hev). }
      destruct b; [by rewrite lookup_insert_ne|done].
Qed.

Lemma unresolvedReasonOf_touches now ref c ls s :
  Forall LawfulListener ls → heap s !! ref = Some c →
  wp (unresolvedReasonOf now ref ls) (λ _ s', touches s s') s.
Proof.
  intros Hl. revert c s. induction Hl as [|f ls Hf _ IH]; intros c s Hc; simpl; [by wp_steps|].
  destruct (resolutionAware f) as [r|] eqn:Hr; [|by eapply IH].
  apply wp_bind. eapply wp_mono; [by eapply wp_run_listener; [|intros; apply reason_attaches]|].
  intros rs s1 (Ht & _ & H1). case_decide; [|by wp_steps].
  eapply wp_mono; [by eapply IH|]. intros ? s2 Ht2. by trans s1.
Qed.

Lemma recordConnectionResolveResult_touches now ref c s :
  heap s !! ref = Some c →
  wp (recordConnectionResolveResult flushListeners now ref) (λ _ s', touches s s') s.
Proof.
  intros Hc. unfold recordConnectionResolveResult, update_stats.
  apply wp_bind, (wp_deref _ c); [done|]. destruct (RPCConnection c) as [rpc|]; [|by wp_steps].
  wp_step. wp_step. set (s1 := set_listeners _ s).
  assert (Ht : touches s s1) by (split_and!; [by apply quiet_same|done|done]).
  assert (Hst : ∀ s2 x, touches s1 s2 → touches s (set_stats x s2)).
  { intros s2 x Hs2. trans s1; [done|]. trans s2; [done|]. apply touches_stats. }
  destruct (Remote rpc) as [[]|]; [by wp_steps| |by wp_steps].
  do 2 (case_match; [wp_steps; by apply Hst|]). apply wp_bind.
  eapply wp_mono; [by eapply unresolvedReasonOf_touches|]. intros reason s2 Ht2. wp_steps.
  by apply Hst.
Qed.

Lemma remove_evolves k s : evolves s (set_connections (cm_Remove k (connections s)) s).
Proof.
  split; [|intros r c Hc; by exists c]. intros [H1 H2 H3]. split; [|done|done].
  intros k' ref. unfold holds. simpl. rewrite cm_Remove_spec, lookup_delete_Some. intros [_ Hk].
  by apply H1.
Qed.

Lemma deleteConnections_spec now items s :
  stored s items →
  wp (deleteConnections flushListeners now items)
    (λ _ s', evolves s s' ∧ keeps_delay s s' ∧
       ∀ k ref, holds s' k ref ↔ holds s k ref ∧ k ∉ items.*1) s.
Proof.
  revert s. induction items as [|[k ref] items IH]; intros s Hs; simpl.
  { wp_steps. split_and!; [done| |].
    - intros r c c' H1 H2. by simplify_eq.
    - intros k ref. split; [|tauto]. split; [done|]. apply not_elem_of_nil. }
  apply stored_cons in Hs as [[c Hc] Hs]. apply wp_bind.
  eapply wp_mono; [by eapply recordConnectionResolveResult_touches|].
  intros ? s1 ((He & Hd & _) & Hcs & _). wp_step. wp_step. set (s2 := set_connections _ s1).
  assert (He2 : evolves s s2) by (trans s1; [done|apply remove_evolves]).
  eapply wp_mono; [apply IH; by eapply stored_evolves|].
  intros ? s3 (He3 & Hd3 & Hh). simpl. split_and!; [by trans s2| |].
  - intros r x x' Hx Hx'. destruct (e_heap _ _ He _ _ Hx) as (x1 & Hx1 & _).
    rewrite (Hd3 r x1 x'); [|done|done]. by eapply Hd.
  - intros k' ref'. rewrite Hh. unfold holds at 1, s2. simpl.
    rewrite cm_Remove_spec, lookup_delete_Some, Hcs, not_elem_of_cons. unfold holds.
    split; [intros ([? ?] & ?)|intros (? & ? & ?)]; split_and!; congruence || done.
Qed.

(** The deletion round: a connection leaves the manager only when its delay is
    over, and it leaves then if it is certainly closed. *)
Lemma OnBuildConnectionLogFinished_spec now s :
  manager_inv s →
  wp (OnBuildConnectionLogFinished flushListeners now)
    (λ _ s', evolves s s' ∧ delays now s s' ∧
       (∀ k ref, holds s' k ref → holds s k ref) ∧
       ∀ k ref c, holds s k ref → heap s !! ref = Some c →
         (¬ due now c → holds s' k ref) ∧
         (closed s c = true → due now c → ¬ holds s' k ref)) s.
Proof.
  intros Hinv. unfold OnBuildConnectionLogFinished. wp_step. wp_step. apply wp_bind.
  pose proof (cm_Items_spec (connections s)) as Hperm.
  assert (Hnd : NoDup (cm_Items (connections s)).*1).
  { rewrite Hperm. apply NoDup_fst_map_to_list. }
  eapply wp_mono; [apply collectDeletable_spec; [by apply stored_items|done]|].
  intros del s1 (He & Hcs & Hm & Hd & Hdel & Hdel'). simpl.
  assert (Hrange : ∀ k ref, (k, ref) ∈ range del ↔ del !! k = Some ref).
  { intros k ref. rewrite range_perm. apply elem_of_map_to_list. }
  eapply wp_mono; [apply deleteConnections_spec|].
  { intros k ref Hin%Hrange. apply Hdel in Hin as [Hin _].
    eapply stored_evolves; [done|by apply stored_items|done]. }
  intros ? s2 (He2 & Hd2 & Hh). simpl. split_and!; [by trans s1| | |].
  - eapply delays_trans; [apply He|done|]. intros r c c' Hc Hc'. left. by eapply Hd2.
  - intros k ref. rewrite Hh. unfold holds. rewrite Hcs. tauto.
  - intros k ref c Hk Hc. rewrite !Hh. unfold holds in *. rewrite Hcs. split.
    + intros Hdue. split; [done|]. rewrite list_elem_of_fmap.
      intros ([k' ref'] & -> & Hin%Hrange). apply Hdel in Hin as [Hin Hall]. apply Hdue.
      rewrite Hperm, elem_of_map_to_list in Hin. simpl in Hk.
      simplify_eq. by apply Hall.
    + intros Hcl Hdue [_ Hnot]. apply Hnot, list_elem_of_fmap. exists (k, ref). split; [done|].
      apply Hrange, Hdel' with c; try done. by rewrite Hperm, elem_of_map_to_list.
Qed.

(** ** Sequences of operations *)

Notation exec := (exec flushListeners grace hostAddresses query).
Notation run := (run flushListeners grace hostAddresses query).

(** Every operation runs to its end, and keeps the connections that are not due. *)
Lemma exec_spec now o s :
  manager_inv s →
  wp (exec now o) (λ _ s', evolves s s' ∧ delays now s s' ∧
    ∀ k ref c, holds s k ref → heap s !! ref = Some c → ¬ due now c → holds s' k ref) s.
Proof.
  intros Hinv.
  assert (Hq : ∀ s', quiet s s' → evolves s s' ∧ delays now s s' ∧
    ∀ k ref c, holds s k ref → heap s !! ref = Some c → ¬ due now c → holds s' k ref).
  { intros s' (He & Hd & Hc). split_and!; [done| |intros; by apply Hc].
    intros r c c' H1 H2. left. by eapply Hd. }
  destruct o as [ev|ref| |conID ranID|srcIP srcPort|fdExists| |mon|l]; simpl.
  - apply wp_bind. eapply wp_mono; [by apply Find_quiet|]. intros ? s' [? _]. wp_steps. by apply Hq.
  - wp_step. wp_step. destruct (heap s !! ref) as [c|] eqn:Hc; [|wp_steps; by apply Hq].
    apply wp_bind. eapply wp_mono; [by eapply ShouldDefer_spec|].
    intros ? s' [[? _] _]. wp_steps. by apply Hq.
  - eapply wp_mono; [by apply OnBuildConnectionLogFinished_spec|].
    intros ? s' (He & Hd & _ & Hk). split_and!; [done|done|].
    intros k ref c Hh Hc. by apply (Hk k ref c Hh Hc).
  - eapply wp_mono; [by apply Skip_quiet|]. intros ? s'. apply Hq.
  - eapply wp_mono; [by apply Retro_quiet|]. intros ? s'. apply Hq.
  - apply wp_bind. eapply wp_mono; [apply clean_quiet|]. intros ? s' ?. wp_steps. by apply Hq.
  - wp_steps. apply Hq, quiet_same; done.
  - wp_steps. apply Hq, quiet_same; done.
  - wp_steps. apply Hq, quiet_same; done.
Qed.

Lemma run_spec ops s :
  manager_inv s → wp (run ops) (λ _ s', evolves s s') s.
Proof.
  revert s. induction ops as [|[now o] ops IH]; intros s Hinv; simpl; [by wp_steps|].
  apply wp_bind. eapply wp_mono; [by apply exec_spec|]. intros ? s1 (He & _). simpl.
  eapply wp_mono; [apply IH, He, Hinv|]. intros ? s2 He2. by trans s1.
Qed.

(** A connection whose deletion has not been scheduled at [t0] is in the manager
    until the delay has passed. *)
Lemma run_survives t0 ops s k ref c :
  manager_inv s → holds s k ref → heap s !! ref = Some c →
  (∀ d, DeleteAfter c = Some d → t0 + connectionDeleteDelayTime ≤ d) →
  (∀ now o, (now, o) ∈ ops → t0 ≤ now ≤ t0 + connectionDeleteDelayTime) →
  wp (run ops) (λ _ s', manager_inv s' ∧ holds s' k ref) s.
Proof.
  revert s c. induction ops as [|[now o] ops IH]; intros s c Hinv Hk Hc Hd Ht; simpl; [by wp_steps|].
  apply wp_bind. eapply wp_mono; [by apply exec_spec|]. intros ? s1 (He & Hds & Hkeep). simpl.
  assert (Hnow : t0 ≤ now ≤ t0 + connectionDeleteDelayTime) by (apply (Ht now o); left).
  destruct (e_heap _ _ He _ _ Hc) as (c1 & Hc1 & _).
  apply (IH s1 c1).
  - by apply He.
  - eapply Hkeep; [done|done|]. intros (d & Hda & Hlt). apply Hd in Hda. lia.
  - done.
  - intros d Hda. destruct (Hds _ _ _ Hc Hc1) as [E|[_ E]]; rewrite E in Hda; [by apply Hd|].
    simplify_eq. lia.
  - intros now' o' Hin. apply (Ht now' o'). by right.
Qed.
End specifications.

(** ** Theorems *)

Section theorems.
Context `{RangeOrder} {M C CM AM PB L : Type}.
Context `{!EbpfMap Z Z M} `{!ExpiringCache Z ProcessVerdict C} `{!ConcurrentMap positive CM}.
Context `{!EbpfMap Z ActiveConnection AM} `{!ExpiringCache string bool PB}.
Context (flushListeners : list (FlusherListener L)).
Context (hostAddresses : gset string) (query : IPTuple → option (list Con)).
Notation Mgr := (Manager M C CM AM PB L).

(** C32: no sequence of the manager's operations panics when it has a connection
    tracker and its listeners only attach: each runs to its end, keeps the manager
    well formed (each key maps to a stored connection of that key with an access
    log message), and on the way a connection keeps its identity and addresses,
    does not lose TLS or its attachment, is not un-marked, and keeps its deadline
    and its deletion time once set. *)
Theorem manager_never_panics grace (ops : list (Z * op M C L)) (s : Mgr) :
  Forall LawfulListener flushListeners → manager_inv s →
  ∃ s', run flushListeners grace hostAddresses query ops s = (Ok tt, s') ∧
    manager_inv s' ∧ heap_evolves s s'.
Proof.
  intros Hl Hinv. pose proof (run_spec flushListeners grace hostAddresses query Hl ops s Hinv) as Hr.
  apply wp_run in Hr as ([] & s' & Hrun & [He Hh]). exists s'. split_and!; [done|by apply He|done].
Qed.

(** C33: the wait for a resolution is bounded per connection.  Once a connection was
    held at [t0], whatever operations follow, asking again at or after [t0] plus the
    grace period never holds it again. *)
Theorem deferral_bounded grace t0 ref c (s s1 : Mgr) (ops : list (Z * op M C L)) now :
  Forall LawfulListener flushListeners → manager_inv s →
  heap s !! ref = Some c → ResolutionDeadline c = None →
  ShouldDeferForResolution flushListeners grace t0 (Some ref) s = (Ok true, s1) →
  t0 + grace ≤ now →
  ∃ s2 s3, run flushListeners grace hostAddresses query ops s1 = (Ok tt, s2) ∧
    ShouldDeferForResolution flushListeners grace now (Some ref) s2 = (Ok false, s3).
Proof.
  intros Hl Hinv Hc Hn Hdefer Hnow.
  pose proof (ShouldDefer_spec flushListeners grace Hl t0 ref c s Hc) as Hs.
  unfold wp in Hs. rewrite Hdefer, Hn in Hs. destruct Hs as (Ht & c1 & Hc1 & Hd1).
  assert (Hinv1 : manager_inv s1) by (by apply Ht).
  pose proof (run_spec flushListeners grace hostAddresses query Hl ops s1 Hinv1) as Hr.
  apply wp_run in Hr as ([] & s2 & Hrun & He). destruct (e_heap _ _ He _ _ Hc1) as (c2 & Hc2 & Hev).
  pose proof (ShouldDefer_spec flushListeners grace Hl now ref c2 s2 Hc2) as Hs2.
  apply wp_run in Hs2 as (b & s3 & Hd2 & _ & c3 & _ & Hb).
  rewrite (ev_deadline _ _ Hev _ Hd1) in Hb. exists s2, s3. split; [done|].
  destruct b; [|done]. assert (now < t0 + grace) by (by apply Hb). lia.
Qed.

(** C31: a log that is held is not lost to the deletion of its connection.  With the
    grace period the manager derives from the flush period, a connection first held
    at [t0], before its deletion was scheduled, is in the manager during every
    operation until the first flush after its deadline. *)
Theorem deferred_log_not_dropped flushPeriod t0 k ref c (s s1 : Mgr) (ops : list (Z * op M C L)) :
  Forall LawfulListener flushListeners → manager_inv s → 0 < flushPeriod →
  holds s k ref → heap s !! ref = Some c → ResolutionDeadline c = None → DeleteAfter c = None →
  ShouldDeferForResolution flushListeners (resolutionGraceFor flushPeriod) t0 (Some ref) s
    = (Ok true, s1) →
  (∀ now o, (now, o) ∈ ops → t0 ≤ now ≤ t0 + resolutionGraceFor flushPeriod + flushPeriod) →
  ∃ s2, run flushListeners (resolutionGraceFor flushPeriod) hostAddresses query ops s1 = (Ok tt, s2) ∧
    holds s2 k ref.
Proof.
  intros Hl Hinv Hf Hk Hc Hn Hda Hdefer Htimes.
  pose proof (ShouldDefer_spec flushListeners (resolutionGraceFor flushPeriod) Hl t0 ref c s Hc) as Hs.
  unfold wp in Hs. rewrite Hdefer, Hn in Hs. destruct Hs as (((He & Hdelay & Hkeep) & _) & c1 & Hc1 & Hd1).
  assert (Hpos : 0 < resolutionGraceFor flushPeriod).
  { unfold ShouldDeferForResolution in Hdefer.
    destruct (resolutionGraceFor flushPeriod <=? 0) eqn:E; [done|]. by apply Z.leb_gt in E. }
  assert (Hbound : resolutionGraceFor flushPeriod + flushPeriod ≤ connectionDeleteDelayTime).
  { revert Hpos. unfold resolutionGraceFor. repeat case_match; lia. }
  assert (Hr : wp (run flushListeners (resolutionGraceFor flushPeriod) hostAddresses query ops)
                 (λ _ s', manager_inv s' ∧ holds s' k ref) s1).
  { eapply run_survives with (t0 := t0) (c := c1); try done; [by apply He|by apply Hkeep| |].
    - intros d Hd. rewrite (Hdelay _ _ _ Hc Hc1), Hda in Hd. done.
    - intros now o Hin. apply Htimes in Hin. lia. }
  apply wp_run in Hr as ([] & s2 & Hrun & _ & Hh). by exists s2.
Qed.

(** The deletion round.  No connection enters; one leaves only if its deletion
    was scheduled for a time before this round, and does leave then if it is marked
    or its process is not monitored; a deletion scheduled in this round is for
    [connectionDeleteDelayTime] from now, so nothing is deleted in the round that
    finds it closed. *)
Theorem OnBuildConnectionLogFinished_exact now (s : Mgr) :
  Forall LawfulListener flushListeners → manager_inv s →
  ∃ s', OnBuildConnectionLogFinished flushListeners now s = (Ok tt, s') ∧ manager_inv s' ∧
    delays now s s' ∧ (∀ k ref, holds s' k ref → holds s k ref) ∧
    ∀ k ref c, holds s k ref → heap s !! ref = Some c →
      (¬ due now c → holds s' k ref) ∧
      (MarkDeletable c = true ∨ ProcessIsMonitor (conn_PID c) (monitor s) = false →
       due now c → ¬ holds s' k ref).
Proof.
  intros Hl Hinv. pose proof (OnBuildConnectionLogFinished_spec flushListeners Hl now s Hinv) as Hs.
  apply wp_run in Hs as ([] & s' & Hrun & He & Hd & Hback & Hk). exists s'.
  split_and!; [done|by apply He|done|done|]. intros k ref c Hh Hc.
  destruct (Hk k ref c Hh Hc) as [H1 H2]. split; [done|]. intros Hcl. apply H2.
  unfold closed. apply orb_true_iff. destruct Hcl as [?| ->]; [by left|by right].
Qed.
End theorems.

(** ** A concrete manager

    One connection of a monitored process, and a listener that always waits. *)

#[local] Existing Instance keys_order.

Module Sample.
Definition waiting : FlusherListener unit :=
  MkFlusherListener (λ _ _ c l, (false, c, l))
    (Some (MkResolutionAware (λ _ c l, (true, c, l)) (λ _ _ l, l) (λ _ c l, ("waiting", c, l)))).

Notation Mgr := (Manager (bpf_room Z Z) (expiring Z ProcessVerdict) (shared_map positive)
  (bpf_room Z ActiveConnection) (expiring string bool) unit).

Definition sample_monitor : Monitor (bpf_room Z Z) (expiring Z ProcessVerdict) :=
  MkMonitor {[ 7 := [MkProcess 7 None "svc" "p" []] ]} ∅ (MkBpfRoom ∅) None None ∅ ∅ [].

Definition socket : SocketPair :=
  MkSocketPair 2 ConnectionRoleClient "10.0.0.1" 4000 "10.96.0.1" 80 false false.

Definition rpc : AccessLogConnection :=
  MkAccessLogConnection (Some (ConnectionAddress_Ip "10.0.0.1" 4000))
    (Some (ConnectionAddress_Ip "10.96.0.1" 80)) DetectPoint_client TLSMode_Plain
    ProtocolType_TCP None.

(** A connection of pid 7, with its deletion time. *)
Definition conn (deleteAfter : option Z) : ConnectionInfo :=
  MkConnectionInfo (7 * 2 ^ 32 + 3) 5 (Some rpc) (bool_decide (is_Some deleteAfter)) 7
    (Some socket) 0 deleteAfter false (Some 0) None.

Definition key : string := connectionKey (7 * 2 ^ 32 + 3) 5.

Definition no_stats : ResolveStats := MkResolveStats 0 0 0 0 ∅ ∅ 0 0 0 0 0.

Definition mgr (c : ConnectionInfo) : Mgr :=
  MkManager sample_monitor {[ key := 1%positive ]} {[ 1%positive := c ]} 2 (MkBpfRoom ∅) ∅
    (Some (MkConnTrack 0 0 0 0)) no_stats tt.

Lemma waiting_lawful : Forall LawfulListener [waiting].
Proof. repeat constructor; simpl; intros; simplify_eq; constructor. Qed.

Lemma mgr_inv d : manager_inv (mgr (conn d)).
Proof.
  split; [| |by eexists].
  - intros k ref Hk. unfold holds in Hk. simpl in Hk.
    apply lookup_singleton_Some in Hk as [<- <-]. exists (conn d). split; [apply lookup_singleton_eq|].
    split; [reflexivity|by eexists].
  - simpl. intros ref c [<- <-]%lookup_singleton_Some. lia.
Qed.
End Sample.

Lemma manager_never_panics_witness :
  ∃ s', run [Sample.waiting] (20 * second) ∅ (λ _, None)
          [(1, OpDefer 1); (second, OpFinish); (60 * second, OpFinish)]
          (Sample.mgr (Sample.conn None)) = (Ok tt, s') ∧
    manager_inv s' ∧ heap_evolves (Sample.mgr (Sample.conn None)) s'.
Proof.
  apply manager_never_panics;
    [apply Sample.waiting_lawful|apply Sample.mgr_inv].
Defined.

Definition deferred_state : Sample.Mgr :=
  Eval vm_compute in snd (ShouldDeferForResolution
    [Sample.waiting] (20 * second) 0 (Some 1%positive) (Sample.mgr (Sample.conn None))).

Lemma deferral_bounded_witness :
  ∃ s2 s3, run [Sample.waiting] (20 * second) ∅ (λ _, None)
      [(second, OpFinish)] deferred_state = (Ok tt, s2) ∧
    ShouldDeferForResolution [Sample.waiting] (20 * second)
      (20 * second) (Some 1%positive) s2 = (Ok false, s3).
Proof.
  apply deferral_bounded with (t0 := 0) (c := Sample.conn None)
    (s := Sample.mgr (Sample.conn None));
    [apply Sample.waiting_lawful|apply Sample.mgr_inv|reflexivity|reflexivity
    |vm_compute; reflexivity|done].
Defined.

Lemma deferred_log_not_dropped_witness :
  ∃ s2, run [Sample.waiting]
      (resolutionGraceFor (5 * second)) ∅ (λ _, None)
      [(second, OpMonitor (MkMonitor ∅ ∅ (MkBpfRoom ∅) None None ∅ ∅ []));
       (5 * second, OpFinish); (25 * second, OpFinish)] deferred_state = (Ok tt, s2) ∧
    holds s2 Sample.key 1.
Proof.
  apply deferred_log_not_dropped with (t0 := 0) (c := Sample.conn None)
    (s := Sample.mgr (Sample.conn None));
    [apply Sample.waiting_lawful|apply Sample.mgr_inv|done|reflexivity|reflexivity|reflexivity
    |reflexivity|vm_compute; reflexivity|].
  intros now o Hin. rewrite !elem_of_cons, elem_of_nil in Hin.
  destruct Hin as [[= -> _]|[[= -> _]|[[= -> _]|[]]]]; vm_compute; split; discriminate.
Defined.

Lemma OnBuildConnectionLogFinished_exact_witness :
  ∃ s', OnBuildConnectionLogFinished [Sample.waiting] (30 * second)
    (Sample.mgr (Sample.conn (Some (29 * second)))) = (Ok tt, s') ∧ ¬ holds s' Sample.key 1.
Proof.
  destruct (OnBuildConnectionLogFinished_exact [Sample.waiting]
    (30 * second) (Sample.mgr (Sample.conn (Some (29 * second)))) Sample.waiting_lawful
    (Sample.mgr_inv _)) as (s' & Hrun & _ & _ & _ & H).
  exists s'. split; [exact Hrun|].
  destruct (H Sample.key 1%positive (Sample.conn (Some (29 * second)))) as [_ H2];
    [reflexivity|reflexivity|].
  apply H2; [by left|]. exists (29 * second). split; [reflexivity|]. vm_compute. reflexivity.
Defined.

(** ** Downgraded protocols *)

Definition protocol_of (c : ConnectionInfo) : option ProtocolType := Protocol <$> RPCConnection c.

Section downgrade.
Context `{RangeOrder} {M C CM AM PB L : Type}.
Context `{!EbpfMap Z Z M} `{!ExpiringCache Z ProcessVerdict C} `{!ConcurrentMap positive CM}.
Context `{!EbpfMap Z ActiveConnection AM} `{!ExpiringCache string bool PB}.
Context (flushListeners : list (FlusherListener L)).
Context (hostAddresses : gset string) (query : IPTuple → option (list Con)).
Notation Mgr := (Manager M C CM AM PB L).

Lemma attaches_protocol c c' : attaches c c' → protocol_of c' = protocol_of c.
Proof. unfold protocol_of. intros [|rpc a Hr]; [done|]. simpl. by rewrite Hr. Qed.

Lemma notifyFlush_protocol now ev ref c ls (s : Mgr) :
  Forall LawfulListener ls → heap s !! ref = Some c →
  wp (notifyFlush now ev ref ls)
    (λ _ s', ∃ c', heap s' !! ref = Some c' ∧ protocol_of c' = protocol_of c) s.
Proof.
  intros Hl. revert c s. induction Hl as [|f ls Hf _ IH]; intros c s Hc; simpl.
  { wp_steps. by exists c. }
  apply wp_bind. eapply wp_mono; [by eapply wp_run_listener; [|intros; apply ready_attaches]|].
  intros resolved s1 (_ & _ & H1). apply wp_bind. eapply wp_deref; [done|]. apply wp_bind.
  eapply wp_mono; [apply maybe_stats_touches|]. intros _ s2 [_ K2]. rewrite <- K2 in H1.
  eapply wp_mono; [by eapply IH|]. intros ? s3 (c' & Hc' & Hp). exists c'. split; [done|].
  rewrite Hp. apply attaches_protocol, ready_attaches.
Qed.

Lemma Skip_breaks now conID ranID ref (s : Mgr) :
  manager_inv s → holds s (connectionKey conID ranID) ref →
  wp (SkipAllDataAnalyzeAndDowngradeProtocol now conID ranID)
    (λ _ s', manager_inv s' ∧ ∃ c, heap s' !! ref = Some c ∧ ProtocolBreak c = true) s.
Proof.
  intros Hinv Hk. destruct (inv_refs _ Hinv _ ref Hk) as (c & Hc & _).
  unfold SkipAllDataAnalyzeAndDowngradeProtocol. wp_step. wp_step. rewrite cm_Get_spec.
  unfold holds in Hk. rewrite Hk. apply wp_bind, wp_bind, (wp_deref _ c); [done|].
  unfold assign. wp_step. eapply wp_mono; [apply skipDataUpload_quiet|].
  intros ? s1 (He & _). assert (Hev : conn_evolves c (set_protocolBreak true c)).
  { split; try done. intros r Hr. by exists r. }
  assert (He' : evolves s s1) by (etrans; [by eapply assign_evolves|exact He]).
  split; [by apply He'|].
  destruct (e_heap _ _ He ref (set_protocolBreak true c)) as (c1 & Hc1 & Hev1).
  { apply lookup_insert_eq. }
  exists c1. split; [done|]. by apply (ev_break _ _ Hev1).
Qed.

Lemma Find_detail_broken now ref (e : SocketDetailEvent) (s : Mgr) c :
  Forall LawfulListener flushListeners → manager_inv s →
  holds s (connectionKey (detail_ConnectionID e) (detail_RandomID e)) ref →
  heap s !! ref = Some c → ProtocolBreak c = true →
  wp (Find flushListeners hostAddresses query now (DetailEvent e))
    (λ o s', o = Some ref ∧ ∃ c', heap s' !! ref = Some c' ∧
       protocol_of c' = Some ProtocolType_TCP) s.
Proof.
  intros Hl Hinv Hk Hc Hb. destruct (inv_refs _ Hinv _ ref Hk) as (c' & Hc' & _ & [rpc Hrpc]).
  rewrite Hc in Hc'. simplify_eq. unfold Find. wp_step. wp_step. rewrite cm_Get_spec. simpl.
  unfold holds in Hk. rewrite Hk. apply wp_bind. unfold connectionPostHandle.
  apply wp_bind, (wp_deref _ c'); [done|]. apply wp_bind, wp_bind, (wp_must _ rpc); [done|].
  unfold assign. wp_step.
  eapply wp_mono; [eapply notifyFlush_protocol; [done|apply lookup_insert_eq]|].
  intros ? s3 (c3 & Hc3 & Hp3). wp_steps. split; [done|]. exists c3. split; [done|].
  rewrite Hp3. unfold protocol_of, detailProtocol. simpl. rewrite Hb. simpl.
  case_bool_decide as Hp; [done|]. by destruct (Protocol rpc).
Qed.

(** A downgrade is permanent.  After the analysis of a connection is given up,
    whatever operations follow, as long as the manager still holds the connection
    every detail event leaves it with the plain TCP protocol. *)
Theorem downgrade_is_permanent grace t0 now conID ranID ref (s : Mgr) (ops : list (Z * op M C L))
    (e : SocketDetailEvent) :
  Forall LawfulListener flushListeners → manager_inv s →
  holds s (connectionKey conID ranID) ref →
  detail_ConnectionID e = conID → detail_RandomID e = ranID →
  ∃ s1 s2, SkipAllDataAnalyzeAndDowngradeProtocol t0 conID ranID s = (Ok tt, s1) ∧
    run flushListeners grace hostAddresses query ops s1 = (Ok tt, s2) ∧
    (holds s2 (connectionKey conID ranID) ref →
     ∃ s3 c, Find flushListeners hostAddresses query now (DetailEvent e) s2 = (Ok (Some ref), s3) ∧
       heap s3 !! ref = Some c ∧ protocol_of c = Some ProtocolType_TCP).
Proof.
  intros Hl Hinv Hk <- <-. pose proof (Skip_breaks t0 _ _ ref s Hinv Hk) as Hs.
  apply wp_run in Hs as ([] & s1 & Hskip & Hinv1 & c1 & Hc1 & Hb1). exists s1.
  pose proof (run_spec flushListeners grace hostAddresses query Hl ops s1 Hinv1) as Hr.
  apply wp_run in Hr as ([] & s2 & Hrun & He). exists s2. split_and!; [done|done|]. intros Hk2.
  destruct (e_heap _ _ He _ _ Hc1) as (c2 & Hc2 & Hev).
  pose proof (Find_detail_broken now ref e s2 c2 Hl (e_inv _ _ He Hinv1) Hk2 Hc2
    (ev_break _ _ Hev Hb1)) as Hf.
  apply wp_run in Hf as (o & s3 & Hfind & -> & c3 & Hc3 & Hp). by exists s3, c3.
Qed.
End downgrade.

(** A detail event of the sample connection. *)
Definition sample_detail : SocketDetailEvent :=
  MkSocketDetailEvent (7 * 2 ^ 32 + 3) 5 0 0 0 0 0 0 0 0 0 0 0 0 0 0 0 0 0 0 0 0 0 0 0 1 1.

Lemma downgrade_is_permanent_witness :
  ∃ s1 s2, SkipAllDataAnalyzeAndDowngradeProtocol 0 (7 * 2 ^ 32 + 3) 5 (Sample.mgr (Sample.conn None))
      = (Ok tt, s1) ∧
    run [Sample.waiting] (20 * second) ∅ (λ _, None)
      [(second, OpFind (DetailEvent sample_detail)); (2 * second, OpFinish)] s1 = (Ok tt, s2) ∧
    (holds s2 Sample.key 1 →
     ∃ s3 c, Find [Sample.waiting] ∅ (λ _, None) (3 * second) (DetailEvent sample_detail) s2
         = (Ok (Some 1%positive), s3) ∧
       heap s3 !! 1%positive = Some c ∧ protocol_of c = Some ProtocolType_TCP).
Proof.
  apply downgrade_is_permanent;
    [apply Sample.waiting_lawful|apply Sample.mgr_inv|reflexivity|reflexivity|reflexivity].
Defined.

(** ** Statistics of unresolved remotes *)

Definition occurrences (x : string) (l : list string) : Z := Z.of_nat (length (filter (x =.) l)).

(** The report entry of an unresolved pair. *)
Definition pair_key (e : string * string) : string := fst e +:+ " " +:+ snd e.

Definition recordAll (s : ResolveStats) (l : list (string * string)) : ResolveStats :=
  foldl (λ s e, recordUnresolvedRemote (fst e) (snd e) s) s l.

Lemma occurrences_snoc x y l :
  occurrences x (l ++ [y]) = occurrences x l + (if decide (x = y) then 1 else 0).
Proof.
  unfold occurrences. rewrite filter_app, length_app.
  case_decide; [rewrite filter_cons_True by done|rewrite filter_cons_False by done];
    rewrite filter_nil; simpl; lia.
Qed.

Record stats_exact (n : Z) (l : list (string * string)) (s : ResolveStats) : Prop := {
  se_count : unresolvedRemoteCount s = n + Z.of_nat (length l);
  se_reasons r : default 0 (unresolvedByReason s !! r) = occurrences r l.*1;
  se_bound : (base.size (unresolvedRemotes s) ≤ unresolvedRemoteMaxTrack)%nat;
  se_small : (base.size (unresolvedRemotes s) ≤ length l)%nat;
  se_pairs k : 0 ≤ default 0 (unresolvedRemotes s !! k) ≤ occurrences k (pair_key <$> l);
  se_exact k : (length l ≤ unresolvedRemoteMaxTrack)%nat →
    default 0 (unresolvedRemotes s !! k) = occurrences k (pair_key <$> l)
}.

#[local] Opaque unresolvedRemoteMaxTrack.

(** One more record. *)
Lemma record_exact n l e s :
  stats_exact n l s → stats_exact n (l ++ [e]) (recordUnresolvedRemote (fst e) (snd e) s).
Proof.
  intros [Hn Hr Hb Hs Hp He]. unfold recordUnresolvedRemote. fold (pair_key e).
  split; simpl; rewrite ?length_app, ?fmap_app; simpl; try lia.
  - intros r. rewrite occurrences_snoc. destruct (decide (r = fst e)) as [->|Hne].
    + rewrite lookup_insert_eq. simpl. by rewrite Hr.
    + rewrite lookup_insert_ne by done. rewrite Hr. lia.
  - destruct (unresolvedRemotes s !! pair_key e) eqn:E.
    { rewrite map_size_insert_Some; [done|by eexists]. }
    case_match eqn:Hle; [done|]. apply Nat.leb_gt in Hle. rewrite map_size_insert_None by done. lia.
  - destruct (unresolvedRemotes s !! pair_key e) eqn:E.
    { rewrite map_size_insert_Some; [lia|by eexists]. }
    case_match; [lia|]. rewrite map_size_insert_None by done. lia.
  - intros k. specialize (Hp k). rewrite occurrences_snoc.
    destruct (unresolvedRemotes s !! pair_key e) eqn:E; [|case_match].
    + destruct (decide (k = pair_key e)) as [->|Hne]; [|rewrite lookup_insert_ne by done; lia].
      rewrite lookup_insert_eq. rewrite E in Hp. simpl in *. lia.
    + case_decide; lia.
    + destruct (decide (k = pair_key e)) as [->|Hne]; [|rewrite lookup_insert_ne by done; lia].
      rewrite lookup_insert_eq. rewrite E in Hp. simpl in *. lia.
  - intros k Hle. specialize (He k ltac:(lia)). rewrite occurrences_snoc.
    destruct (unresolvedRemotes s !! pair_key e) eqn:E; [|case_match eqn:Hfull].
    + destruct (decide (k = pair_key e)) as [->|Hne]; [|rewrite lookup_insert_ne by done; lia].
      rewrite lookup_insert_eq. rewrite E in He. simpl in *. lia.
    + apply Nat.leb_le in Hfull. lia.
    + destruct (decide (k = pair_key e)) as [->|Hne]; [|rewrite lookup_insert_ne by done; lia].
      rewrite lookup_insert_eq. rewrite E in He. simpl in *. lia.
Qed.

(** the report of unresolved remotes.  After a report was drained, recording any
    list of unresolved connections adds its length to the total, counts every
    reason exactly, tracks at most [unresolvedRemoteMaxTrack] socket pairs without
    ever over-counting one, and counts every pair exactly while no more connections
    than that were recorded. *)
Theorem unresolved_report_exact `{RangeOrder} (s : ResolveStats) (l : list (string * string)) :
  stats_exact (unresolvedRemoteCount s) l (recordAll (snd (drainUnresolvedRemotes s)) l).
Proof.
  induction l as [|e l IH] using rev_ind.
  - split; simpl; try (unfold occurrences; simpl; lia || done).
    rewrite map_size_empty. lia.
  - unfold recordAll in *. rewrite foldl_snoc. by apply record_exact.
Qed.

(** ** New connections *)

Section new_connection.
Context `{RangeOrder} {M C CM AM PB L : Type}.
Context `{!EbpfMap Z Z M} `{!ExpiringCache Z ProcessVerdict C} `{!ConcurrentMap positive CM}.
Context `{!EbpfMap Z ActiveConnection AM} `{!ExpiringCache string bool PB}.
Context (hostAddresses : gset string) (query : IPTuple → option (list Con)).
Notation Mgr := (Manager M C CM AM PB L).

(** The remote address of a socket the connection tracking has looked at. *)
Definition remoteOf (mon : Monitor M C) (so : SocketPair) : ConnectionAddress :=
  match localIPWithPid mon !! socket_DestIP so with
  | Some pid => if pid =? 0 then ConnectionAddress_Ip (socket_DestIP so) (socket_DestPort so)
                else buildLocalAddress mon (u32 pid) (socket_DestPort so) so
  | None => ConnectionAddress_Ip (socket_DestIP so) (socket_DestPort so)
  end.

(** a connect event of an unknown connection.  It is ignored when its remote is
    the host itself.  Otherwise, with a tracker or when no tracking is needed, the
    manager holds a new connection under the event's key with the addresses of the
    socket as the connection tracking left it, plain TCP, not deletable, broken
    only if its analysis was given up in the last minute.  Without a tracker, a
    socket that needs tracking panics. *)
Theorem Find_connect now e so (s : Mgr) :
  let ev := ConnectEventWithSocket e (Some so) in
  let key := connectionKey (ConID e) (connect_RandomID e) in
  cm_view (connections s) !! key = None →
  match IsLocalHostAddress hostAddresses (socket_DestIP so), NeedConnTrack so, connectTracker s with
  | true, _, _ => Find [] hostAddresses query now ev s = (Ok None, s)
  | false, true, None => fst (Find [] hostAddresses query now ev s) = Panic
  | false, needed, tracker =>
    let so' := match needed, tracker with
               | true, Some t => snd (UpdateRealPeerAddress hostAddresses query t so)
               | _, _ => so
               end in
    let rpc := MkAccessLogConnection
      (Some (buildLocalAddress (monitor s) (fst (ParseConnectionID (ConID e))) (socket_SrcPort so) so))
      (Some (remoteOf (monitor s) so'))
      (match socket_Role so' with ConnectionRoleServer => DetectPoint_server
                                | _ => DetectPoint_client end)
      TLSMode_Plain ProtocolType_TCP None in
    ∃ s', Find [] hostAddresses query now ev s = (Ok (Some (next_ref s)), s') ∧
      holds s' key (next_ref s) ∧
      heap s' = <[next_ref s := MkConnectionInfo (ConID e) (connect_RandomID e) (Some rpc) false
        (connect_PID e) (Some so') now None
        (default false (ec_Get now key (connectionProtocolBreakMap s))) (Some now) None]> (heap s)
  end.
Proof.
  intros ev key Hk. unfold Find, buildRemoteAddress, trackPeer, buildConnection, alloc,
    connectionPostHandle, deref, update_stats, ev. simpl. fold key. step_act.
  rewrite cm_Get_spec, Hk.
  destruct (IsLocalHostAddress hostAddresses (socket_DestIP so)) eqn:Hl; [by step_act|].
  unfold remoteOf, buildAddressFromRemote, holds.
  destruct (NeedConnTrack so) eqn:Hn; [destruct (connectTracker s) as [t|] eqn:Ht|]; step_act;
    try (rewrite Ht; step_act; try done);
    try (destruct (UpdateRealPeerAddress hostAddresses query t so) as [t' so']); step_act; simpl.
  all: destruct (localIPWithPid (monitor s) !! _) as [pid|]; [destruct (pid =? 0)|]; simpl; step_act.
  all: simpl; destruct (ec_Get now key (connectionProtocolBreakMap s)) eqn:Hg; simpl;
    rewrite ?Hg; step_act; simpl; rewrite lookup_insert_eq; step_act; eexists; (split; [done|]); simpl;
    by rewrite cm_Set_spec, lookup_insert_eq.
Qed.
End new_connection.

(** A connect event whose socket needs connection tracking. *)
Definition sample_connect : SocketConnectEvent :=
  MkSocketConnectEvent (9 * 2 ^ 32 + 1) 6 0 0 9 1 0 1 2 1 0 0 0 [] 0 0 [] 0 0 0.

Definition tracked_socket : SocketPair :=
  MkSocketPair 2 ConnectionRoleClient "10.0.0.2" 4001 "10.96.0.1" 80 true false.

Lemma Find_connect_witness :
  fst (Find [] ∅ (λ _, None) 0 (ConnectEventWithSocket sample_connect (Some tracked_socket))
    (set_tracker None (Sample.mgr (Sample.conn None)))) = Panic ∧
  ∃ s', Find [] ∅ (λ _, None) 0 (ConnectEventWithSocket sample_connect (Some tracked_socket))
      (Sample.mgr (Sample.conn None)) = (Ok (Some 2%positive), s').
Proof.
  split.
  - exact (Find_connect ∅ (λ _, None) 0 sample_connect tracked_socket
      (set_tracker None (Sample.mgr (Sample.conn None))) eq_refl).
  - destruct (Find_connect ∅ (λ _, None) 0 sample_connect tracked_socket
      (Sample.mgr (Sample.conn None))) as (s' & H & _); [reflexivity|]. exists s'. exact H.
Defined.
