(* ===== verification/Ztunnel.v ===== *)
(** * The ztunnel collector

    Models the correlation state of the ztunnel collector
    (src/pkg/accesslog/collector/ztunnel/ztunnel.go, ztunnel_identity.go): the caches
    of load-balanced addresses and of identities that the kernel events fill, and the
    flush listener that attaches them to connections.  Reading the ztunnel binary,
    attaching probes and polling are not modelled; the collector's state changes
    through the handlers below.

    The collector is a flush listener of the manager of Connection.v
    ([collector_listener]); [collector_lawful] discharges the interface the theorems
    of ConnectionLife.v assume. *)

From stdpp Require Import base gmap list strings pretty.
From Stdlib Require Import ZArith Lia Ascii.
From S2P Require Import Prelude GoStrings Interfaces ProcessMonitor Events Connection ConnectionLife.

(** ** Data *)

Definition ZTunnelSrcOnlyMappingExpireDuration : Z := 5 * 60 * second.
Definition ZTunnelIPMappingExpireDuration : Z := 60 * second.

(** The sources of a mapping. *)
Notation sourceTrackOutbound := "track_outbound"%string (only parsing).
Notation sourceConnectionResult := "connection_result"%string (only parsing).
Definition sourceRecordInternal : string := "record_internal".
Notation sourceAccessLog := "access_log"%string (only parsing).
Notation sourceAdminDump := "admin_dump"%string (only parsing).
Notation sourceInbound := "inbound"%string (only parsing).

Record LoadBalanceAddress : Type := MkLoadBalanceAddress {
  lb_IP : string;
  lb_Port : Z;
  From : DetectBy;
  Source : string
}.

Record WorkloadIdentity : Type := MkWorkloadIdentity {
  Cluster : string;
  Namespace : string;
  ServiceAccount : string
}.

Record splitHorizonIndex : Type := MkSplitHorizonIndex {
  network : string;
  byVIP : gmap string string
}.

(** The sections of the ztunnel /config_dump the collector reads. *)
Record ztunnelServiceEntry : Type := MkServiceEntry {
  Vips : list string;
  (** The endpoints by uid; their contents are not read. *)
  Endpoints : gmap string unit
}.

Record ztunnelWorkloadEntry : Type := MkWorkloadEntry {
  ClusterID : string;
  workload_Namespace : string;
  workload_ServiceAccount : string;
  WorkloadIps : list string
}.

Record ztunnelConnection : Type := MkZTunnelConnection {
  Src : string;
  OriginalDst : string;
  ActualDst : string
}.

Record ztunnelConnectionDump : Type := MkConnectionDump {
  Inbound : list ztunnelConnection;
  Outbound : list ztunnelConnection
}.

Record ztunnelConfigDump : Type := MkConfigDump {
  config_Network : string;
  Workloads : list ztunnelWorkloadEntry;
  Services : list ztunnelServiceEntry;
  WorkloadState : gmap string (option ztunnelConnectionDump)
}.

Record Counters : Type := MkCounters {
  mappingEventCount : Z;
  mappingHitCount : Z;
  mappingMissCount : Z;
  emptyCacheMissCount : Z;
  invalidMappingCount : Z;
  resolvedBySource : gmap string Z;
  accessLogParsedCount : Z;
  accessLogBacklogSkipped : Z;
  adminOutboundMappingCount : Z;
  adminInboundSeenCount : Z;
  ztunnelConnectEventSeen : Z;
  ztunnelInboundTaggedSeen : Z;
  dstIdentityByAccessLog : Z;
  dstIdentityMissed : Z;
  peerIdentityByAccessLog : Z;
  peerIdentityMissed : Z
}.

(** ** Splitting names *)

Definition spiffePathSegment (s key : string) : string :=
  let i := Index s key in
  if i <? 0 then ""
  else
    let rest := str_drop (Z.to_nat i + String.length key) s in
    let e := Index rest "/" in
    if 0 <=? e then str_take (Z.to_nat e) rest else rest.

Definition parseSpiffeNsSa (spiffe : string) : option (string * string) :=
  if negb (HasPrefix spiffe "spiffe://") then None
  else
    let ns := spiffePathSegment spiffe "/ns/" in
    let sa := spiffePathSegment spiffe "/sa/" in
    if decide (ns = "" ∨ sa = "") then None else Some (ns, sa).

Definition identityFromAccessLog (cluster identity : string) : option WorkloadIdentity :=
  match parseSpiffeNsSa identity with
  | Some (ns, sa) => Some (MkWorkloadIdentity cluster ns sa)
  | None => if decide (cluster = "") then None else Some (MkWorkloadIdentity cluster "" "")
  end.

Notation splitHorizonWorkloadMarker := "SplitHorizonWorkload"%string (only parsing).
Definition eastWestGatewayServiceAccount : string := "ambient-east-west-gateway".

Fixpoint marker_scan (parts : list string) : option string :=
  match parts with
  | part :: rest =>
    match decide (part = splitHorizonWorkloadMarker), rest with
    | left _, next :: _ => if decide (next = "") then None else Some next
    | _, _ => marker_scan rest
    end
  | [] => None
  end.

Definition gatewayNamespaceFromSplitHorizonUID (uid : string) : option string :=
  marker_scan (Split uid "/").

(** The loop over the endpoints: [None] is the early return. *)
Fixpoint gateway_loop (gatewayNS : string) (uids : list string) : option string :=
  match uids with
  | [] => Some gatewayNS
  | uid :: rest =>
    match gatewayNamespaceFromSplitHorizonUID uid with
    | None => None
    | Some ns => gateway_loop ns rest
    end
  end.

Definition splitHorizonGatewayNamespace `{RangeOrder} (endpoints : gmap string unit)
  : option string :=
  match gateway_loop "" (fst <$> range endpoints) with
  | Some ns => if decide (ns = "") then None else Some ns
  | None => None
  end.

Definition buildSplitHorizonGateways `{RangeOrder} (dump : ztunnelConfigDump)
  : splitHorizonIndex :=
  MkSplitHorizonIndex (config_Network dump)
    (foldl (λ idx svc,
       match splitHorizonGatewayNamespace (Endpoints svc) with
       | None => idx
       | Some ns => foldl (λ idx vip, if decide (vip = "") then idx else <[vip := ns]> idx)
                      idx (Vips svc)
       end) ∅ (Services dump)).

Definition buildWorkloadIdentities (dump : ztunnelConfigDump) : gmap string WorkloadIdentity :=
  foldl (λ out w,
    foldl (λ out ip, if decide (ip = "") then out
                     else <[ip := MkWorkloadIdentity (ClusterID w) (workload_Namespace w)
                                    (workload_ServiceAccount w)]> out)
      out (WorkloadIps w)) ∅ (Workloads dump).

(** ** Additions *)

Definition appendKV (kvs : list (string * string)) (key value : string) : list (string * string) :=
  if decide (value = "") then kvs else kvs ++ [(key, value)].

Definition identityToKVs (prefix : string) (id : option WorkloadIdentity)
  : list (string * string) :=
  match id with
  | None => []
  | Some id =>
    let kvs := appendKV [] (prefix +:+ "_CLUSTER") (Cluster id) in
    let kvs := appendKV kvs (prefix +:+ "_NS") (Namespace id) in
    appendKV kvs (prefix +:+ "_SERVICE") (ServiceAccount id)
  end.

Definition additionHasKey (kvs : list (string * string)) (key : string) : bool :=
  existsb (λ kv, bool_decide (fst kv = key)) kvs.

(** ** Cache keys *)

Definition convertBPFIPToString (ipAddr : Z) : string :=
  pretty (Z.shiftr ipAddr 24) +:+ "." +:+ pretty (Z.land (Z.shiftr ipAddr 16) 255) +:+ "." +:+
  pretty (Z.land (Z.shiftr ipAddr 8) 255) +:+ "." +:+ pretty (Z.land ipAddr 255).

Definition buildIPMappingCacheKey (localIP : string) (localPort : Z) (remoteIP : string)
    (remotePort : Z) : string :=
  localIP +:+ ":" +:+ pretty localPort +:+ "-" +:+ remoteIP +:+ ":" +:+ pretty remotePort.

Definition buildSrcOnlyCacheKey (localIP : string) (localPort : Z) : string :=
  "src:" +:+ localIP +:+ ":" +:+ pretty localPort.

Definition isPlausibleSrcOnlyMapping (e : ZTunnelSocketMappingEvent) : bool :=
  if (OriginalSrcIP e =? 0) || (LoadBalancedDestIP e =? 0) then false
  else if (OriginalSrcPort e =? 0) || (LoadBalancedDestPort e =? 0) then false
  else negb (Z.shiftr (LoadBalancedDestIP e) 24 =? 127).

Definition isPlausibleLBMapping (e : ZTunnelSocketMappingEvent) : bool :=
  isPlausibleSrcOnlyMapping e && negb (OriginalDestIP e =? 0) && negb (OriginalDestPort e =? 0).

(** [ROVER_ZTUNNEL_IDENTITY_UPROBE_ENABLED] *)
Definition identityUprobeEnabled (env : string) : bool :=
  negb (bool_decide (ToLower (TrimSpace env) ∈ ["false"; "0"; "no"; "off"])).

(** ** The collector's state *)

Section collector_state.
Context {IC SC WC : Type}.

Record Collector : Type := MkCollector {
  (** The pid of the ztunnel that is collected. *)
  collectingProcess : option Z;
  ipMappingCache : IC;
  ipMappingExpireDuration : Z;
  seenEventSrcs : SC;
  accessLogSeenSrcs : SC;
  dstIdentityCache : WC;
  peerIdentityCache : WC;
  workloadIdentities : option (gmap string WorkloadIdentity);
  splitHorizonGateways : option splitHorizonIndex;
  accessLogFollowing : bool;
  (** [identitySource != nil && identitySource.Active()] *)
  identityActive : bool;
  counters : Counters
}.

Definition set_ipMapping (x : IC) (z : Collector) : Collector :=
  MkCollector (collectingProcess z) x (ipMappingExpireDuration z) (seenEventSrcs z)
    (accessLogSeenSrcs z) (dstIdentityCache z) (peerIdentityCache z) (workloadIdentities z)
    (splitHorizonGateways z) (accessLogFollowing z) (identityActive z) (counters z).
Definition set_seenEvents (x : SC) (z : Collector) : Collector :=
  MkCollector (collectingProcess z) (ipMappingCache z) (ipMappingExpireDuration z) x
    (accessLogSeenSrcs z) (dstIdentityCache z) (peerIdentityCache z) (workloadIdentities z)
    (splitHorizonGateways z) (accessLogFollowing z) (identityActive z) (counters z).
Definition set_logSeen (x : SC) (z : Collector) : Collector :=
  MkCollector (collectingProcess z) (ipMappingCache z) (ipMappingExpireDuration z)
    (seenEventSrcs z) x (dstIdentityCache z) (peerIdentityCache z) (workloadIdentities z)
    (splitHorizonGateways z) (accessLogFollowing z) (identityActive z) (counters z).
Definition set_identities (dst peer : WC) (z : Collector) : Collector :=
  MkCollector (collectingProcess z) (ipMappingCache z) (ipMappingExpireDuration z)
    (seenEventSrcs z) (accessLogSeenSrcs z) dst peer (workloadIdentities z)
    (splitHorizonGateways z) (accessLogFollowing z) (identityActive z) (counters z).
Definition set_indexes (w : option (gmap string WorkloadIdentity)) (g : option splitHorizonIndex)
    (z : Collector) : Collector :=
  MkCollector (collectingProcess z) (ipMappingCache z) (ipMappingExpireDuration z)
    (seenEventSrcs z) (accessLogSeenSrcs z) (dstIdentityCache z) (peerIdentityCache z) w g
    (accessLogFollowing z) (identityActive z) (counters z).
Definition set_counters (x : Counters) (z : Collector) : Collector :=
  MkCollector (collectingProcess z) (ipMappingCache z) (ipMappingExpireDuration z)
    (seenEventSrcs z) (accessLogSeenSrcs z) (dstIdentityCache z) (peerIdentityCache z)
    (workloadIdentities z) (splitHorizonGateways z) (accessLogFollowing z) (identityActive z) x.
End collector_state.
Arguments Collector IC SC WC : clear implicits.

(** Increments of the counters. *)
Definition add_event (event invalid : Z) (c : Counters) : Counters :=
  MkCounters (mappingEventCount c + event) (mappingHitCount c) (mappingMissCount c)
    (emptyCacheMissCount c) (invalidMappingCount c + invalid) (resolvedBySource c)
    (accessLogParsedCount c) (accessLogBacklogSkipped c) (adminOutboundMappingCount c)
    (adminInboundSeenCount c) (ztunnelConnectEventSeen c) (ztunnelInboundTaggedSeen c)
    (dstIdentityByAccessLog c) (dstIdentityMissed c) (peerIdentityByAccessLog c)
    (peerIdentityMissed c).
Definition add_attach (hit miss empty : Z) (sources : gmap string Z) (c : Counters) : Counters :=
  MkCounters (mappingEventCount c) (mappingHitCount c + hit) (mappingMissCount c + miss)
    (emptyCacheMissCount c + empty) (invalidMappingCount c) sources
    (accessLogParsedCount c) (accessLogBacklogSkipped c) (adminOutboundMappingCount c)
    (adminInboundSeenCount c) (ztunnelConnectEventSeen c) (ztunnelInboundTaggedSeen c)
    (dstIdentityByAccessLog c) (dstIdentityMissed c) (peerIdentityByAccessLog c)
    (peerIdentityMissed c).
Definition add_inbound (seen tagged : Z) (c : Counters) : Counters :=
  MkCounters (mappingEventCount c) (mappingHitCount c) (mappingMissCount c)
    (emptyCacheMissCount c) (invalidMappingCount c) (resolvedBySource c)
    (accessLogParsedCount c) (accessLogBacklogSkipped c) (adminOutboundMappingCount c)
    (adminInboundSeenCount c) (ztunnelConnectEventSeen c + seen)
    (ztunnelInboundTaggedSeen c + tagged) (dstIdentityByAccessLog c) (dstIdentityMissed c)
    (peerIdentityByAccessLog c) (peerIdentityMissed c).
Definition add_identity (dst dstMiss peer peerMiss : Z) (c : Counters) : Counters :=
  MkCounters (mappingEventCount c) (mappingHitCount c) (mappingMissCount c)
    (emptyCacheMissCount c) (invalidMappingCount c) (resolvedBySource c)
    (accessLogParsedCount c) (accessLogBacklogSkipped c) (adminOutboundMappingCount c)
    (adminInboundSeenCount c) (ztunnelConnectEventSeen c) (ztunnelInboundTaggedSeen c)
    (dstIdentityByAccessLog c + dst) (dstIdentityMissed c + dstMiss)
    (peerIdentityByAccessLog c + peer) (peerIdentityMissed c + peerMiss).
Definition add_accessLog (parsed skipped : Z) (c : Counters) : Counters :=
  MkCounters (mappingEventCount c) (mappingHitCount c) (mappingMissCount c)
    (emptyCacheMissCount c) (invalidMappingCount c) (resolvedBySource c)
    (accessLogParsedCount c + parsed) (accessLogBacklogSkipped c + skipped)
    (adminOutboundMappingCount c) (adminInboundSeenCount c) (ztunnelConnectEventSeen c)
    (ztunnelInboundTaggedSeen c) (dstIdentityByAccessLog c) (dstIdentityMissed c)
    (peerIdentityByAccessLog c) (peerIdentityMissed c).
Definition set_admin (outbound inbound : Z) (c : Counters) : Counters :=
  MkCounters (mappingEventCount c) (mappingHitCount c) (mappingMissCount c)
    (emptyCacheMissCount c) (invalidMappingCount c) (resolvedBySource c)
    (accessLogParsedCount c) (accessLogBacklogSkipped c) outbound inbound
    (ztunnelConnectEventSeen c) (ztunnelInboundTaggedSeen c) (dstIdentityByAccessLog c)
    (dstIdentityMissed c) (peerIdentityByAccessLog c) (peerIdentityMissed c).

Definition no_counters : Counters :=
  MkCounters 0 0 0 0 0
    (list_to_map ((., 0) <$> [sourceTrackOutbound; sourceConnectionResult; sourceRecordInternal;
                               sourceAccessLog; sourceAdminDump]))
    0 0 0 0 0 0 0 0 0 0.

(** ** Handlers *)

Section collector.
Context `{RangeOrder} {IC SC WC : Type}.
Context `{!ExpiringCache string LoadBalanceAddress IC} `{!ExpiringCache string unit SC}.
Context `{!ExpiringCache string WorkloadIdentity WC}.
Notation Col := (Collector IC SC WC).

Definition newZTunnelCollector (expireTime : Z) : Col :=
  MkCollector None ec_empty expireTime ec_empty ec_empty ec_empty ec_empty None None false false
    no_counters.

(** A mapping event of the kernel, and the source address to push it for. *)
Definition handleMappingEvent (now : Z) (event : ZTunnelSocketMappingEvent) (z : Col)
  : option (string * Z) * Col :=
  let localIP := convertBPFIPToString (OriginalSrcIP event) in
  let localPort := OriginalSrcPort event in
  let lbIP := convertBPFIPToString (LoadBalancedDestIP event) in
  let z := set_counters (add_event 1 0 (counters z)) z in
  let z := if negb (OriginalSrcIP event =? 0) && negb (OriginalSrcPort event =? 0)
           then set_seenEvents (ec_Set now (buildSrcOnlyCacheKey localIP localPort) tt
                                  (5 * 60 * second) (seenEventSrcs z)) z
           else z in
  if OriginalDestIP event =? 0 then
    if negb (isPlausibleSrcOnlyMapping event)
    then (None, set_counters (add_event 0 1 (counters z)) z)
    else
      (Some (localIP, localPort),
       set_ipMapping (ec_Set now (buildSrcOnlyCacheKey localIP localPort)
         (MkLoadBalanceAddress lbIP (LoadBalancedDestPort event) ZTUNNEL_OUTBOUND_FUNC
            sourceConnectionResult)
         ZTunnelSrcOnlyMappingExpireDuration (ipMappingCache z)) z)
  else if negb (isPlausibleLBMapping event)
  then (None, set_counters (add_event 0 1 (counters z)) z)
  else
    let remoteIP := convertBPFIPToString (OriginalDestIP event) in
    (None,
     set_ipMapping (ec_Set now (buildIPMappingCacheKey localIP localPort remoteIP
                                  (OriginalDestPort event))
       (MkLoadBalanceAddress lbIP (LoadBalancedDestPort event) ZTUNNEL_OUTBOUND_FUNC
          sourceTrackOutbound)
       (ipMappingExpireDuration z) (ipMappingCache z)) z).

(** Whether a connect event goes on to the connection log: the ztunnel's own
    connect to a local workload does not. *)
Definition OnConnectEvent (now : Z) (e : option SocketConnectEvent) (s : option SocketPair)
    (z : Col) : bool * Col :=
  match collectingProcess z, e, s with
  | Some pid, Some e, Some s =>
    if negb (u32 pid =? connect_PID e) then (true, z)
    else
      let z := set_counters (add_inbound 1 0 (counters z)) z in
      if negb (bool_decide (socket_Role s = ConnectionRoleClient)) then (true, z)
      else
        let z := set_counters (add_inbound 0 1 (counters z)) z in
        let key := buildIPMappingCacheKey (socket_DestIP s) (socket_DestPort s) (socket_SrcIP s)
                     (socket_SrcPort s) in
        (false, set_ipMapping (ec_Set now key (MkLoadBalanceAddress "" 0 ZTUNNEL_INBOUND_FUNC
                   sourceInbound) (ipMappingExpireDuration z) (ipMappingCache z)) z)
  | _, _, _ => (true, z)
  end.

Definition lookupSplitHorizonGateway (destIP : string) (z : Col) : option string :=
  match splitHorizonGateways z with
  | None => None
  | Some idx =>
    if decide (network idx = "" ∨ destIP = "") then None
    else byVIP idx !! (network idx +:+ "/" +:+ destIP)
  end.

Definition resolveDstIdentity (now : Z) (c : ConnectionInfo) (z : Col) : option WorkloadIdentity :=
  match Socket c with
  | None => None
  | Some s =>
    let cached := ec_Get now (buildSrcOnlyCacheKey (socket_SrcIP s) (socket_SrcPort s))
                    (dstIdentityCache z) in
    match lookupSplitHorizonGateway (socket_DestIP s) z with
    | None => cached
    | Some gatewayNS =>
      Some (MkWorkloadIdentity (match cached with Some c => Cluster c | None => "" end)
              gatewayNS eastWestGatewayServiceAccount)
    end
  end.

Definition accessLogEnabled (z : Col) : bool := accessLogFollowing z || identityActive z.

Definition buildDstAddition (now : Z) (c : ConnectionInfo) (z : Col) : list (string * string) :=
  identityToKVs "DST" (resolveDstIdentity now c z).

Definition buildPeerAddition (now : Z) (c : ConnectionInfo) (z : Col) : list (string * string) :=
  match Socket c with
  | None => []
  | Some s =>
    match ec_Get now (socket_DestIP s) (peerIdentityCache z) with
    | Some id => identityToKVs "PEER" (Some id)
    | None => []
    end
  end.

Definition buildConnectionAddition (now : Z) (c : ConnectionInfo) (address : LoadBalanceAddress)
    (z : Col) : list (string * string) :=
  match From address with
  | ZTUNNEL_OUTBOUND_FUNC => buildDstAddition now c z
  | ZTUNNEL_INBOUND_FUNC => buildPeerAddition now c z
  end.

Definition cacheDstIdentity (now : Z) (srcIP : string) (srcPort : Z)
    (id : option WorkloadIdentity) (z : Col) : Col :=
  match id with
  | None => z
  | Some id =>
    set_identities (ec_Set now (buildSrcOnlyCacheKey srcIP srcPort) id
                      ZTunnelSrcOnlyMappingExpireDuration (dstIdentityCache z))
      (peerIdentityCache z) z
  end.

Definition cachePeerIdentity (now : Z) (srcIP : string) (id : option WorkloadIdentity) (z : Col)
  : Col :=
  match id with
  | None => z
  | Some id =>
    if decide (srcIP = "") then z
    else set_identities (dstIdentityCache z)
           (ec_Set now srcIP id ZTunnelSrcOnlyMappingExpireDuration (peerIdentityCache z)) z
  end.

Definition cacheDstIdentityFromAccessLog (now : Z) (srcIP : string) (srcPort : Z)
    (cluster identity : string) (z : Col) : Col :=
  cacheDstIdentity now srcIP srcPort (identityFromAccessLog cluster identity) z.

Definition cachePeerIdentityFromAccessLog (now : Z) (srcIP cluster identity : string) (z : Col)
  : Col :=
  cachePeerIdentity now srcIP (identityFromAccessLog cluster identity) z.

Definition refreshWorkloadIdentities (dump : ztunnelConfigDump) (z : Col) : Col :=
  set_indexes (Some (buildWorkloadIdentities dump)) (splitHorizonGateways z) z.

Definition refreshSplitHorizonGateways (dump : ztunnelConfigDump) (z : Col) : Col :=
  set_indexes (workloadIdentities z) (Some (buildSplitHorizonGateways dump)) z.

(** The mapping of a socket: by source and destination, or by the source alone. *)
Definition mappingOf (now : Z) (s : SocketPair) (z : Col) : option LoadBalanceAddress :=
  match ec_Get now (buildIPMappingCacheKey (socket_SrcIP s) (socket_SrcPort s) (socket_DestIP s)
                      (socket_DestPort s)) (ipMappingCache z) with
  | Some a => Some a
  | None => ec_Get now (buildSrcOnlyCacheKey (socket_SrcIP s) (socket_SrcPort s))
              (ipMappingCache z)
  end.

Definition ReadyToFlush (now : Z) (c : ConnectionInfo) (z : Col) : bool * ConnectionInfo * Col :=
  match Socket c, RPCConnection c with
  | Some s, Some rpc =>
    match Attachment rpc with
    | Some _ => (false, c, z)
    | None =>
      let bump hit miss empty := set_counters
        (add_attach hit miss empty (resolvedBySource (counters z)) (counters z)) z in
      if ec_Len (ipMappingCache z) =? 0 then
        (false, c, match collectingProcess z with Some _ => bump 0 0 1 | None => z end)
      else
        match mappingOf now s z with
        | None => (false, c, bump 0 1 0)
        | Some address =>
          let sources := match resolvedBySource (counters z) !! Source address with
                         | Some n => <[Source address := n + 1]> (resolvedBySource (counters z))
                         | None => resolvedBySource (counters z)
                         end in
          let a := MkZTunnelAttachment (lb_IP address) (From address)
                     (buildConnectionAddition now c address z) in
          (true, set_rpc (Some (with_attachment (Some a) rpc)) c,
           set_counters (add_attach 1 0 0 sources (counters z)) z)
        end
    end
  | _, _ => (false, c, z)
  end.

(** Whether the flush waits for the identity of an attached connection; the
    identity is filled in when it is settled. *)
Definition isDstIdentityPending (now : Z) (c : ConnectionInfo) (z : Col) : bool * ConnectionInfo :=
  if negb (accessLogEnabled z) then (false, c)
  else
    match Socket c, RPCConnection c with
    | Some s, Some rpc =>
      match Attachment rpc with
      | Some ztun =>
        if negb (bool_decide (By ztun = ZTUNNEL_OUTBOUND_FUNC)) then (false, c)
        else if additionHasKey (Addition ztun) "DST_CLUSTER" then (false, c)
        else
          let key := buildSrcOnlyCacheKey (socket_SrcIP s) (socket_SrcPort s) in
          let id := resolveDstIdentity now c z in
          let lineSeen := bool_decide (is_Some (ec_Get now key (accessLogSeenSrcs z))) in
          if match id with Some id => negb (bool_decide (Cluster id = "")) | None => false end
             || lineSeen
          then
            match id with
            | Some _ =>
              (false, set_rpc (Some (with_attachment
                 (Some (MkZTunnelAttachment (RealDestinationIp ztun) (By ztun)
                          (identityToKVs "DST" id))) rpc)) c)
            | None => (false, c)
            end
          else (true, c)
      | None => (false, c)
      end
    | _, _ => (false, c)
    end.

Definition IsResolutionPendingZ (now : Z) (c : ConnectionInfo) (z : Col) : bool * ConnectionInfo :=
  match collectingProcess z, RPCConnection c, Socket c with
  | Some _, Some rpc, Some s =>
    match Attachment rpc with
    | Some _ => isDstIdentityPending now c z
    | None =>
      if negb (bool_decide (socket_Role s = ConnectionRoleClient)) then (false, c)
      else if ConnTrackResolved s then (false, c)
      else match Remote rpc with
           | Some (ConnectionAddress_Ip _ _) => (true, c)
           | _ => (false, c)
           end
    end
  | _, _, _ => (false, c)
  end.

Definition FinalizeConnectionZ (c : ConnectionInfo) (z : Col) : Col :=
  match RPCConnection c with
  | None => z
  | Some rpc =>
    match Attachment rpc with
    | None => z
    | Some ztun =>
      match By ztun with
      | ZTUNNEL_OUTBOUND_FUNC =>
        if additionHasKey (Addition ztun) "DST_CLUSTER"
        then set_counters (add_identity 1 0 0 0 (counters z)) z
        else set_counters (add_identity 0 1 0 0 (counters z)) z
      | ZTUNNEL_INBOUND_FUNC =>
        if (0 <? length (Addition ztun))%nat
        then set_counters (add_identity 0 0 1 0 (counters z)) z
        else set_counters (add_identity 0 0 0 1 (counters z)) z
      end
    end
  end.

Definition UnresolvedReasonZ (now : Z) (c : ConnectionInfo) (z : Col) : string * ConnectionInfo :=
  match collectingProcess z with
  | None => ("no-ztunnel-process-on-node", c)
  | Some _ =>
    let '(pending, c) := IsResolutionPendingZ now c z in
    if negb pending then ("not-a-ztunnel-outbound-leg", c)
    else if ec_Len (ipMappingCache z) =? 0 then ("ztunnel-mapping-cache-empty", c)
    else
      match Socket c with
      | Some s =>
        match ec_Get now (buildSrcOnlyCacheKey (socket_SrcIP s) (socket_SrcPort s))
                (seenEventSrcs z) with
        | Some _ => ("ztunnel-event-seen-but-unapplied", c)
        | None => ("no-ztunnel-event-for-src", c)
        end
      | None => ("no-ztunnel-event-for-src", c)
      end
  end.

(** The collector as a flush listener of the manager. *)
Definition collector_listener : FlusherListener Col :=
  MkFlusherListener (λ now _ c z, ReadyToFlush now c z)
    (Some (MkResolutionAware
      (λ now c z, let '(b, c') := IsResolutionPendingZ now c z in (b, c', z))
      (λ now c z, FinalizeConnectionZ c z)
      (λ now c z, let '(r, c') := UnresolvedReasonZ now c z in (r, c', z)))).

(** A round of [findZTunnelProcessAndCollect]: [running] is whether the current
    process still runs, [found] the first process whose executable is a ztunnel.
    It says whether the probes are attached again. *)
Definition findZTunnelProcessAndCollect (running : bool) (found : option Z) (z : Col)
  : bool * Col :=
  let set_process p := MkCollector p (ipMappingCache z) (ipMappingExpireDuration z)
    (seenEventSrcs z) (accessLogSeenSrcs z) (dstIdentityCache z) (peerIdentityCache z)
    (workloadIdentities z) (splitHorizonGateways z) (accessLogFollowing z) (identityActive z)
    (counters z) in
  match collectingProcess z, running with
  | Some _, true => (false, z)
  | _, _ =>
    match found with
    | None => (false, set_process None)
    | Some pid => (true, set_process (Some pid))
    end
  end.
End collector.

(** A mapping event reaches the manager: the collector stores it and pushes it to
    the connections of its source. *)
Section push.
Context `{RangeOrder} {M C CM AM PB IC SC WC : Type}.
Context `{!EbpfMap Z Z M} `{!ExpiringCache Z ProcessVerdict C} `{!ConcurrentMap positive CM}.
Context `{!EbpfMap Z ActiveConnection AM} `{!ExpiringCache string bool PB}.
Context `{!ExpiringCache string LoadBalanceAddress IC} `{!ExpiringCache string unit SC}.
Context `{!ExpiringCache string WorkloadIdentity WC}.
Notation Col := (Collector IC SC WC).
Notation Mgr := (Manager M C CM AM PB Col).

Definition retroPush (now : Z) (push : option (string * Z)) : act Mgr Empty_set unit :=
  match push with
  | Some (srcIP, srcPort) => RetroResolveBySrc [collector_listener] now srcIP srcPort
  | None => mret tt
  end.

Definition OnMappingEvent (now : Z) (event : ZTunnelSocketMappingEvent) : act Mgr Empty_set unit :=
  s ← get;
  let '(push, z) := handleMappingEvent now event (listeners s) in
  modify (set_listeners z);;
  retroPush now push.
End push.

(** ** The listener's interface *)

Section lawful.
Context `{RangeOrder} {IC SC WC : Type}.
Context `{!ExpiringCache string LoadBalanceAddress IC} `{!ExpiringCache string unit SC}.
Context `{!ExpiringCache string WorkloadIdentity WC}.
Notation Col := (Collector IC SC WC).

Lemma isDstIdentityPending_attaches now c (z : Col) :
  attaches c (snd (isDstIdentityPending now c z)).
Proof.
  unfold isDstIdentityPending. repeat case_match; simpl; (constructor; done).
Qed.

Lemma IsResolutionPendingZ_attaches now c (z : Col) :
  attaches c (snd (IsResolutionPendingZ now c z)).
Proof.
  unfold IsResolutionPendingZ.
  repeat case_match; try apply isDstIdentityPending_attaches; constructor.
Qed.

Global Instance collector_lawful : LawfulListener (@collector_listener IC SC WC _ _ _).
Proof.
  split; simpl.
  - intros now _ c z. unfold ReadyToFlush. repeat case_match; simpl; (constructor; done).
  - intros r now c z [= <-]. simpl. pose proof (IsResolutionPendingZ_attaches now c z).
    by destruct (IsResolutionPendingZ now c z).
  - intros r now c z [= <-]. simpl. unfold UnresolvedReasonZ.
    pose proof (IsResolutionPendingZ_attaches now c z).
    destruct (IsResolutionPendingZ now c z) as [b c']. simpl in *.
    repeat case_match; simplify_eq; done || constructor.
Qed.

Lemma collectors_lawful : Forall LawfulListener [@collector_listener IC SC WC _ _ _].
Proof. repeat constructor; apply collector_lawful. Qed.

(** The flush of a connection only counts. *)
Lemma ReadyToFlush_counts now c (z : Col) :
  ∃ x, snd (ReadyToFlush now c z) = set_counters x z.
Proof.
  assert (Hid : z = set_counters (counters z) z) by (by destruct z).
  unfold ReadyToFlush. repeat case_match; simpl; eauto.
Qed.

(** Attaching a mapped connection. *)
Lemma ReadyToFlush_hit now c so rpc a (z : Col) :
  Socket c = Some so → RPCConnection c = Some rpc → Attachment rpc = None →
  mappingOf now so z = Some a →
  fst (ReadyToFlush now c z) =
    (true, set_rpc (Some (with_attachment (Some (MkZTunnelAttachment (lb_IP a) (From a)
       (buildConnectionAddition now c a z))) rpc)) c).
Proof.
  intros Hs Hr Ha Hm. unfold ReadyToFlush. rewrite Hs, Hr, Ha.
  assert (Hlen : (ec_Len (ipMappingCache z) =? 0) = false).
  { apply Z.eqb_neq. revert Hm. unfold mappingOf. case_match; intros Hm;
      (eassert (0 < ec_Len (ipMappingCache z)) by (eapply ec_Len_pos; by eexists)); lia. }
  by rewrite Hlen, Hm.
Qed.

(** What a source-only event stores is found for a socket of that source, unless
    the socket has a mapping of its own. *)
Lemma handleMappingEvent_maps now e so (z : Col) :
  OriginalDestIP e = 0 → isPlausibleSrcOnlyMapping e = true →
  socket_SrcIP so = convertBPFIPToString (OriginalSrcIP e) →
  socket_SrcPort so = OriginalSrcPort e →
  ec_Get now (buildIPMappingCacheKey (socket_SrcIP so) (socket_SrcPort so) (socket_DestIP so)
    (socket_DestPort so)) (ipMappingCache z) = None →
  fst (handleMappingEvent now e z) = Some (socket_SrcIP so, socket_SrcPort so) ∧
  mappingOf now so (snd (handleMappingEvent now e z)) =
    Some (MkLoadBalanceAddress (convertBPFIPToString (LoadBalancedDestIP e))
            (LoadBalancedDestPort e) ZTUNNEL_OUTBOUND_FUNC sourceConnectionResult).
Proof.
  intros Hd Hp Hip Hport Hnone. unfold handleMappingEvent. rewrite Hd, Hp. simpl.
  split; [by rewrite Hip, Hport|]. unfold mappingOf. rewrite <- Hip, <- Hport. simpl.
  set (key := buildSrcOnlyCacheKey (socket_SrcIP so) (socket_SrcPort so)).
  set (full := buildIPMappingCacheKey _ _ _ _) in *.
  assert (Hc : ∀ (b : bool) (x : Col) sc, ipMappingCache (if b then set_seenEvents sc x else x) =
                                           ipMappingCache x) by (by intros []).
  rewrite Hc. simpl.
  assert (Hlive : ∀ v (ic : IC), ec_Get now key (ec_Set now key v ZTunnelSrcOnlyMappingExpireDuration ic)
                                = Some v).
  { intros v ic. rewrite ec_Get_Set by lia. rewrite decide_True; [done|].
    unfold ZTunnelSrcOnlyMappingExpireDuration, second. lia. }
  destruct (decide (full = key)) as [->|Hne]; [by rewrite Hlive|].
  by rewrite ec_Get_Set_ne, Hnone, Hlive.
Qed.
End lawful.

Section resolution.
Context `{RangeOrder} {M C CM AM PB IC SC WC : Type}.
Context `{!EbpfMap Z Z M} `{!ExpiringCache Z ProcessVerdict C} `{!ConcurrentMap positive CM}.
Context `{!EbpfMap Z ActiveConnection AM} `{!ExpiringCache string bool PB}.
Context `{!ExpiringCache string LoadBalanceAddress IC} `{!ExpiringCache string unit SC}.
Context `{!ExpiringCache string WorkloadIdentity WC}.
Notation Col := (Collector IC SC WC).
Notation Mgr := (Manager M C CM AM PB Col).
Implicit Types (s : Mgr).

(** Offering one connection to the collector. *)
Lemma notify_collector now ev ref c s :
  heap s !! ref = Some c →
  wp (notifyFlush now ev ref [collector_listener])
    (λ _ s', heap s' = <[ref := snd (fst (ReadyToFlush now c (listeners s)))]> (heap s) ∧
       listeners s' = snd (ReadyToFlush now c (listeners s))) s.
Proof.
  intros Hc. cbn [notifyFlush]. apply wp_bind. unfold run_listener, assign, update_stats.
  apply wp_bind, (wp_deref _ c); [done|]. wp_step. wp_step. simpl.
  destruct (ReadyToFlush now c (listeners s)) as [[b c'] z']. wp_steps.
  apply (wp_deref _ c'); [apply lookup_insert_eq|]. apply wp_bind. by destruct b; wp_steps.
Qed.

(** Offering connections other than [ref] leaves it alone, and the mappings too. *)
Lemma retroResolve_frame now srcIP srcPort ref items s :
  stored s items → Forall (λ e, snd e ≠ ref) items →
  wp (retroResolve [collector_listener] now srcIP srcPort items)
    (λ _ s', heap s' !! ref = heap s !! ref ∧
       (∀ r, is_Some (heap s !! r) → is_Some (heap s' !! r)) ∧
       ∃ x, listeners s' = set_counters x (listeners s)) s.
Proof.
  intros Hst Hne. revert s Hst. induction Hne as [|[k r] items Hr _ IH]; intros s Hst; simpl.
  { wp_steps. split_and!; [done|done|]. exists (counters (listeners s)). by destruct (listeners s). }
  simpl in Hr. apply stored_cons in Hst as [[c Hc] Hst].
  apply wp_bind, (wp_deref _ c); [done|]. apply wp_bind.
  assert (K : wp (if retroCandidate srcIP srcPort c then notifyFlush now None r [collector_listener]
                  else mret tt)
    (λ _ s', heap s' !! ref = heap s !! ref ∧
       (∀ r, is_Some (heap s !! r) → is_Some (heap s' !! r)) ∧
       ∃ x, listeners s' = set_counters x (listeners s)) s).
  { case_match.
    - eapply wp_mono; [by apply notify_collector|]. intros ? s1 [-> ->]. split_and!.
      + by rewrite lookup_insert_ne.
      + intros r' Hr'. destruct (decide (r = r')) as [->|]; [rewrite lookup_insert_eq; by eexists|].
        by rewrite lookup_insert_ne.
      + apply ReadyToFlush_counts.
    - wp_steps. split_and!; [done|done|]. exists (counters (listeners s)). by destruct (listeners s). }
  eapply wp_mono; [apply K|]. intros ? s1 (Hh & Hdom & x & Hx).
  eapply wp_mono; [apply IH; intros k' r' Hin; by eapply Hdom, Hst|].
  intros ? s2 (Hh2 & Hdom2 & y & Hy). simpl. split_and!; [by rewrite Hh2| |].
  - intros r' Hr'. by apply Hdom2, Hdom.
  - exists y. by rewrite Hy, Hx.
Qed.

(** The position of a connection among the items of the manager. *)
Lemma items_split s k ref :
  manager_inv s → holds s k ref →
  ∃ l1 l2, cm_Items (connections s) = l1 ++ (k, ref) :: l2 ∧
    Forall (λ e, snd e ≠ ref) l1 ∧ Forall (λ e, snd e ≠ ref) l2.
Proof.
  intros Hinv Hk. pose proof (cm_Items_spec (connections s)) as Hperm.
  assert (Hin : (k, ref) ∈ cm_Items (connections s)).
  { rewrite Hperm. by apply elem_of_map_to_list. }
  assert (Hnd : NoDup (cm_Items (connections s)).*1).
  { rewrite Hperm. apply NoDup_fst_map_to_list. }
  assert (Huniq : ∀ k', (k', ref) ∈ cm_Items (connections s) → k' = k).
  { intros k'. rewrite Hperm, elem_of_map_to_list. intros Hk'.
    destruct (inv_refs _ Hinv k ref Hk) as (c & Hc & [<- _]).
    destruct (inv_refs _ Hinv k' ref Hk') as (c' & Hc' & [<- _]). by simplify_eq. }
  apply list_elem_of_split in Hin as (l1 & l2 & Heq). exists l1, l2. split; [done|].
  rewrite Heq in Hnd, Huniq. rewrite fmap_app, NoDup_app, fmap_cons, NoDup_cons in Hnd.
  destruct Hnd as (_ & Hd1 & Hd2 & _).
  split; apply Forall_forall; intros [k' r'] Hin Hr; simpl in Hr; subst r'.
  - assert (k' = k) as -> by (apply Huniq, elem_of_app; by left).
    apply (Hd1 k); [by apply (list_elem_of_fmap_2 fst _ (k, ref))|left].
  - assert (k' = k) as -> by (apply Huniq, elem_of_app; right; by right).
    apply Hd2. by apply (list_elem_of_fmap_2 fst _ (k, ref)).
Qed.

Lemma retroResolve_app now srcIP srcPort l1 l2 Q s :
  wp (retroResolve [collector_listener] now srcIP srcPort l1)
    (λ _, wp (retroResolve [collector_listener] now srcIP srcPort l2) Q) s →
  wp (retroResolve [collector_listener] now srcIP srcPort (l1 ++ l2)) Q s.
Proof.
  revert s. induction l1 as [|[k r] l1 IH]; intros s Hwp; [done|].
  cbn [retroResolve app] in *. unfold wp in *. revert Hwp. unfold mbind, act_bind.
  destruct (deref r s) as [[c| |] s1]; try done. destruct (retroCandidate srcIP srcPort c).
  - destruct (notifyFlush now None r [collector_listener] s1) as [[[]| |] s2]; try done. apply IH.
  - apply IH.
Qed.

(** Pushing the source of a connection that has a mapping attaches it. *)
Lemma RetroResolve_attaches now k ref c so rpc a s :
  manager_inv s → holds s k ref → heap s !! ref = Some c →
  Socket c = Some so → socket_Role so = ConnectionRoleClient →
  RPCConnection c = Some rpc → Attachment rpc = None →
  mappingOf now so (listeners s) = Some a →
  wp (RetroResolveBySrc [collector_listener] now (socket_SrcIP so) (socket_SrcPort so))
    (λ _ s', ∃ kvs, heap s' !! ref = Some (set_rpc (Some (with_attachment
       (Some (MkZTunnelAttachment (lb_IP a) (From a) kvs)) rpc)) c)) s.
Proof.
  intros Hinv Hk Hc Hso Hrole Hrpc Hat Hmap. unfold RetroResolveBySrc. wp_step. wp_step.
  pose proof (stored_items s Hinv) as Hst.
  destruct (items_split s k ref Hinv Hk) as (l1 & l2 & Heq & H1 & H2). rewrite Heq in *.
  assert (Hst1 : stored s l1) by (intros k' r' Hin; apply (Hst k' r'), elem_of_app; by left).
  assert (Hst2 : stored s l2) by (intros k' r' Hin; apply (Hst k' r'), elem_of_app; right; by right).
  apply retroResolve_app. eapply wp_mono; [by apply retroResolve_frame|].
  intros ? s1 (Hh1 & Hdom1 & x & Hx). cbn [retroResolve]. rewrite Hc in Hh1.
  apply wp_bind, (wp_deref _ c); [done|]. apply wp_bind.
  assert (Hcand : retroCandidate (socket_SrcIP so) (socket_SrcPort so) c = true).
  { unfold retroCandidate. rewrite Hso, Hrpc, Hat, Hrole, Z.eqb_refl.
    rewrite bool_decide_false by (by intros [? ?]). by rewrite !bool_decide_true. }
  rewrite Hcand. eapply wp_mono; [by apply notify_collector|]. intros ? s2 [Hh2 Hl2].
  assert (Hm1 : mappingOf now so (listeners s1) = Some a) by (rewrite Hx; exact Hmap).
  pose proof (ReadyToFlush_hit now c so rpc a _ Hso Hrpc Hat Hm1) as Hhit. rewrite Hhit in Hh2.
  eapply wp_mono; [apply retroResolve_frame; [|done]|].
  - intros k' r' Hin. rewrite Hh2. destruct (decide (ref = r')) as [->|];
      [rewrite lookup_insert_eq; by eexists|rewrite lookup_insert_ne by done; by eapply Hdom1, Hst2].
  - intros ? s3 (Hh3 & _). rewrite Hh3, Hh2, lookup_insert_eq. by eexists.
Qed.

(** A mapping event resolves the connection it is for.  When the kernel reports
    the real destination of a source address, a client connection of that source
    which the manager holds without an attachment, and which has no mapping of its
    own, has the reported destination attached when the event has been handled; the
    manager stays well formed. *)
Theorem mapping_event_resolves now (e : ZTunnelSocketMappingEvent) k ref c so rpc s :
  manager_inv s → holds s k ref → heap s !! ref = Some c →
  Socket c = Some so → socket_Role so = ConnectionRoleClient →
  socket_SrcIP so = convertBPFIPToString (OriginalSrcIP e) →
  socket_SrcPort so = OriginalSrcPort e →
  RPCConnection c = Some rpc → Attachment rpc = None →
  OriginalDestIP e = 0 → isPlausibleSrcOnlyMapping e = true →
  ec_Get now (buildIPMappingCacheKey (socket_SrcIP so) (socket_SrcPort so) (socket_DestIP so)
    (socket_DestPort so)) (ipMappingCache (listeners s)) = None →
  ∃ s' c' rpc' a, OnMappingEvent now e s = (Ok tt, s') ∧ manager_inv s' ∧
    heap s' !! ref = Some c' ∧ RPCConnection c' = Some rpc' ∧ Attachment rpc' = Some a ∧
    RealDestinationIp a = convertBPFIPToString (LoadBalancedDestIP e) ∧
    By a = ZTUNNEL_OUTBOUND_FUNC.
Proof.
  intros Hinv Hk Hc Hso Hrole Hip Hport Hrpc Hat Hd Hp Hnone.
  destruct (handleMappingEvent_maps now e so (listeners s) Hd Hp Hip Hport Hnone) as [Hpush Hmap].
  set (s1 := set_listeners (snd (handleMappingEvent now e (listeners s))) s).
  assert (Hinv1 : manager_inv s1) by (eapply inv_same; [..|exact Hinv]; done).
  assert (Hrun : OnMappingEvent now e s =
    RetroResolveBySrc [collector_listener] now (socket_SrcIP so) (socket_SrcPort so) s1).
  { unfold OnMappingEvent, retroPush. step_act.
    destruct (handleMappingEvent now e (listeners s)) as [push z]. simpl in *. subst push.
    by step_act. }
  pose proof (RetroResolve_attaches now k ref c so rpc _ s1 Hinv1 Hk Hc Hso Hrole Hrpc Hat Hmap)
    as Hatt.
  pose proof (Retro_quiet [collector_listener] collectors_lawful now (socket_SrcIP so)
    (socket_SrcPort so) s1 Hinv1) as Hq.
  rewrite Hrun. apply wp_run in Hatt as ([] & s' & Hs' & kvs & Hc').
  unfold wp in Hq. rewrite Hs' in Hq. destruct Hq as [He _].
  eexists s', _, _, _. split_and!; [exact Hs'|by apply He|exact Hc'|reflexivity..].
Qed.
End resolution.

(** ** SPIFFE identities *)

Fixpoint no_slash (s : string) : Prop :=
  match s with
  | EmptyString => True
  | String c s => c ≠ "/"%char ∧ no_slash s
  end.

(** The path segment behind the first segment [key] that has one. *)
Fixpoint segment_after (key : string) (segs : list string) : string :=
  match segs with
  | k :: ((n :: _) as rest) => if decide (k = key) then n else segment_after key rest
  | _ => ""
  end.

Definition segment_key (key : string) : string := "/" +:+ key +:+ "/".

Lemma Index_slash_app x rest sub :
  no_slash x →
  Index (x +:+ "/" +:+ rest) ("/" +:+ sub) =
    if String.prefix sub rest then Z.of_nat (String.length x)
    else let i := Index rest ("/" +:+ sub) in
         if i <? 0 then -1 else Z.of_nat (String.length x) + 1 + i.
Proof.
  induction x as [|c x IH]; intros Hx.
  - rewrite str_app_nil, str_app_cons, str_app_nil. rewrite Index_unfold.
    change ("/" +:+ sub) with (String "/" sub). rewrite prefix_cons.
    destruct (ascii_dec "/" "/") as [_|]; [|done].
    destruct (String.prefix sub rest); [done|]. cbn zeta. simpl String.length.
    destruct (Index rest (String "/" sub) <? 0); lia.
  - destruct Hx as [Hc Hx]. rewrite str_app_cons, Index_unfold.
    change ("/" +:+ sub) with (String "/" sub) at 1. rewrite prefix_cons.
    destruct (ascii_dec "/" c); [congruence|]. rewrite IH by done. cbn zeta. simpl String.length.
    destruct (String.prefix sub rest); [case_match; lia|].
    destruct (Index rest ("/" +:+ sub) <? 0) eqn:E; [done|]. case_match; lia.
Qed.

Lemma Index_no_slash x sub : no_slash x → Index x ("/" +:+ sub) = -1.
Proof.
  induction x as [|c x IH]; intros Hx; [done|]. destruct Hx as [Hc Hx]. rewrite Index_unfold.
  change ("/" +:+ sub) with (String "/" sub). rewrite prefix_cons.
  destruct (ascii_dec "/" c); [congruence|]. change (String "/" sub) with ("/" +:+ sub).
  by rewrite IH.
Qed.

Lemma prefix_segment key x rest :
  no_slash key → no_slash x →
  String.prefix (key +:+ "/") (x +:+ "/" +:+ rest) = bool_decide (x = key).
Proof.
  revert x. induction key as [|c key IH]; intros [|d x] Hk Hx.
  - rewrite !str_app_nil, str_app_cons, prefix_cons, str_app_nil.
    destruct (ascii_dec "/" "/"); [|done]. by destruct rest.
  - destruct Hx as [Hd _]. rewrite str_app_nil, str_app_cons, prefix_cons.
    destruct (ascii_dec "/" d); [congruence|]. by rewrite bool_decide_false.
  - destruct Hk as [Hc _]. rewrite str_app_nil, !str_app_cons, prefix_cons.
    destruct (ascii_dec c "/"); [congruence|]. by rewrite bool_decide_false.
  - destruct Hk as [_ Hk], Hx as [_ Hx]. rewrite !str_app_cons, prefix_cons.
    destruct (ascii_dec c d) as [->|Hne]; [rewrite IH by done|].
    + apply bool_decide_ext. naive_solver.
    + symmetry. apply bool_decide_false. naive_solver.
Qed.

Lemma prefix_no_slash key x : no_slash x → String.prefix (key +:+ "/") x = false.
Proof.
  intros Hx. destruct (String.prefix (key +:+ "/") x) eqn:E; [|done].
  apply prefix_app_iff in E as [t ->]. exfalso. induction key as [|c key IH].
  - rewrite str_app_nil, str_app_cons in Hx. by destruct Hx.
  - apply IH. rewrite !str_app_cons in Hx. by destruct Hx.
Qed.

(** The head segment of a path. *)
Lemma head_segment n (r : list string) :
  no_slash n →
  (let rest := Join (n :: r) "/" in
   let e := Index rest "/" in if 0 <=? e then str_take (Z.to_nat e) rest else rest) = n.
Proof.
  intros Hn. destruct r as [|n' r]; cbn [Join]; cbn zeta.
  - pose proof (Index_no_slash n "" Hn) as Hi. change ("/" +:+ "") with "/" in Hi. by rewrite Hi.
  - pose proof (Index_slash_app n (Join (n' :: r) "/") "" Hn) as Hi.
    change ("/" +:+ "") with "/" in Hi. cbn [Join] in Hi. rewrite Hi.
    assert (H : ∀ t, String.prefix "" t = true) by (by intros []). rewrite H. cbn iota.
    rewrite (proj2 (Z.leb_le _ _) (Nat2Z.is_nonneg _)), Nat2Z.id. apply str_take_app.
Qed.

Lemma spiffe_skip x rest key :
  no_slash x → String.prefix (key +:+ "/") rest = false →
  spiffePathSegment (x +:+ "/" +:+ rest) (segment_key key) =
  spiffePathSegment rest (segment_key key).
Proof.
  intros Hx Hp. unfold spiffePathSegment, segment_key. rewrite Index_slash_app, Hp by done. cbn zeta.
  destruct (Index rest ("/" +:+ key +:+ "/") <? 0) eqn:E; [done|].
  apply Z.ltb_ge in E. rewrite (proj2 (Z.ltb_ge (Z.of_nat (String.length x) + 1 + _) 0)) by lia.
  set (i := Index rest ("/" +:+ key +:+ "/")) in *. set (n := String.length ("/" +:+ key +:+ "/")).
  assert (H : str_drop (Z.to_nat (Z.of_nat (String.length x) + 1 + i) + n) (x +:+ "/" +:+ rest) =
              str_drop (Z.to_nat i + n) rest); [|by rewrite H].
  replace (Z.to_nat (Z.of_nat (String.length x) + 1 + i) + n)%nat
    with (String.length x + (1 + (Z.to_nat i + n)))%nat by lia.
  by rewrite str_drop_add, str_drop_app.
Qed.

Lemma spiffe_hit x r n key :
  no_slash x → no_slash n → 
  spiffePathSegment (x +:+ "/" +:+ key +:+ "/" +:+ Join (n :: r) "/") (segment_key key) = n.
Proof.
  intros Hx Hn. unfold spiffePathSegment, segment_key. rewrite Index_slash_app by done.
  assert (Hp : String.prefix (key +:+ "/") (key +:+ "/" +:+ Join (n :: r) "/") = true).
  { apply prefix_app_iff. exists (Join (n :: r) "/"). by rewrite str_app_assoc. }
  rewrite Hp, (proj2 (Z.ltb_ge _ _) (Nat2Z.is_nonneg _)), Nat2Z.id.
  rewrite str_drop_add, str_drop_app.
  assert (Hd : str_drop (String.length ("/" +:+ key +:+ "/"))
                 ("/" +:+ key +:+ "/" +:+ Join (n :: r) "/") = Join (n :: r) "/").
  { replace ("/" +:+ key +:+ "/" +:+ Join (n :: r) "/")
      with (("/" +:+ key +:+ "/") +:+ Join (n :: r) "/") by (by rewrite <- !str_app_assoc).
    apply str_drop_app. }
  rewrite Hd. by apply head_segment.
Qed.

(** Extracting a segment of a path is finding the first segment named [key] that is
    not the first one, and taking the next. *)
Lemma spiffePathSegment_Join key x segs :
  no_slash key → no_slash x → Forall no_slash segs →
  spiffePathSegment (Join (x :: segs) "/") (segment_key key) = segment_after key segs.
Proof.
  intros Hk. revert x. induction segs as [|k segs IH]; intros x Hx Hsegs.
  - unfold spiffePathSegment, segment_key. cbn [Join]. by rewrite Index_no_slash.
  - apply Forall_cons in Hsegs as [Hk' Hsegs]. destruct segs as [|n segs].
    + cbn [Join segment_after]. rewrite spiffe_skip; [|done|by apply prefix_no_slash].
      by apply (IH k).
    + change (Join (x :: k :: n :: segs) "/") with (x +:+ "/" +:+ Join (k :: n :: segs) "/").
      change (Join (k :: n :: segs) "/") with (k +:+ "/" +:+ Join (n :: segs) "/").
      cbn [segment_after]. destruct (decide (k = key)) as [->|Hne].
      * apply Forall_cons in Hsegs as [Hn _]. by apply spiffe_hit.
      * rewrite spiffe_skip; [by apply (IH k)|done|].
        rewrite prefix_segment by done. by apply bool_decide_false.
Qed.

(** A SPIFFE identity of a path. *)
Definition spiffe (segs : list string) : string := Join ("spiffe:" :: "" :: segs) "/".

Lemma parse_spiffe segs :
  Forall no_slash segs →
  parseSpiffeNsSa (spiffe segs) =
    let ns := segment_after "ns" ("" :: segs) in
    let sa := segment_after "sa" ("" :: segs) in
    if decide (ns = "" ∨ sa = "") then None else Some (ns, sa).
Proof.
  intros Hsegs. unfold parseSpiffeNsSa, spiffe.
  assert (HasPrefix (Join ("spiffe:" :: "" :: segs) "/") "spiffe://" =
          match segs with [] => false | _ => true end) as ->.
  { destruct segs as [|y segs]; [done|]. apply prefix_app_iff. by exists (Join (y :: segs) "/"). }
  destruct segs as [|y segs]; [done|]. cbn [negb].
  rewrite (spiffePathSegment_Join "ns"), (spiffePathSegment_Join "sa"); try done;
    simpl; try (repeat split; done); by constructor.
Qed.

(** Identities round-trip.  The namespace and service account of an identity in
    the canonical form spiffe://<trust domain>/ns/<namespace>/sa/<account> are read
    back, unless the trust domain is called ns or sa or the namespace sa. *)
Theorem parseSpiffe_roundtrip td ns sa :
  no_slash td → no_slash ns → no_slash sa → ns ≠ "" → sa ≠ "" →
  td ≠ "ns" → td ≠ "sa" → ns ≠ "sa" →
  parseSpiffeNsSa ("spiffe://" +:+ td +:+ "/ns/" +:+ ns +:+ "/sa/" +:+ sa) = Some (ns, sa).
Proof.
  intros Ht Hn Hs Hne Hse H1 H2 H3.
  replace ("spiffe://" +:+ td +:+ "/ns/" +:+ ns +:+ "/sa/" +:+ sa)
    with (spiffe [td; "ns"; ns; "sa"; sa]) by done.
  rewrite parse_spiffe by (repeat constructor; simpl; done).
  cbn [segment_after]. cbn zeta. repeat (case_decide; try done); naive_solver.
Qed.

Lemma parseSpiffe_roundtrip_witness :
  parseSpiffeNsSa "spiffe://cluster.local/ns/default/sa/bookinfo" = Some ("default", "bookinfo").
Proof.
  apply (parseSpiffe_roundtrip "cluster.local" "default" "bookinfo"); try done;
    repeat split; done.
Defined.

(** A namespace called sa is misread: the account of an identity in it is
    always read as sa. *)
Example namespace_sa_misread :
  parseSpiffeNsSa "spiffe://cluster.local/ns/sa/sa/bookinfo" = Some ("sa", "sa") ∧
  parseSpiffeNsSa "spiffe://ns/ns/default/sa/bookinfo" = Some ("ns", "bookinfo").
Proof. split; vm_compute; reflexivity. Qed.

(** ** East-west gateways *)

Lemma Cut_slash x rest : no_slash x → Cut (x +:+ "/" +:+ rest) "/" = (x, rest, true).
Proof.
  intros Hx. unfold Cut. pose proof (Index_slash_app x rest "" Hx) as Hi.
  change ("/" +:+ "") with "/" in Hi.
  assert (Hp : String.prefix "" rest = true) by (by destruct rest). rewrite Hp in Hi.
  rewrite Hi, (proj2 (Z.ltb_ge _ _) (Nat2Z.is_nonneg _)), Nat2Z.id, str_take_app.
  by rewrite str_drop_add, str_drop_app.
Qed.

Lemma Cut_no_slash x : no_slash x → Cut x "/" = (x, "", false).
Proof.
  intros Hx. unfold Cut. pose proof (Index_no_slash x "" Hx) as Hi.
  change ("/" +:+ "") with "/" in Hi. by rewrite Hi.
Qed.

Lemma split_parts_Join n x segs :
  no_slash x → Forall no_slash segs → (length segs < n)%nat →
  split_parts (S n) (Join (x :: segs) "/") "/" = x :: segs.
Proof.
  intros Hx Hsegs. revert n x Hx. induction Hsegs as [|y segs Hy _ IH]; intros [|n] x Hx Hn; simpl in Hn;
    try lia; rewrite split_parts_step.
  - cbn [Join]. by rewrite Cut_no_slash.
  - change (Join (x :: y :: segs) "/") with (x +:+ "/" +:+ Join (y :: segs) "/").
    rewrite Cut_slash by done. f_equal. apply IH; [done|lia].
Qed.

Lemma length_Join x segs : (length segs ≤ String.length (Join (x :: segs) "/"))%nat.
Proof.
  revert x. induction segs as [|y segs IH]; intros x; [simpl; lia|].
  change (Join (x :: y :: segs) "/") with (x +:+ "/" +:+ Join (y :: segs) "/").
  rewrite !str_app_length. specialize (IH y). simpl in *. lia.
Qed.

(** Splitting undoes joining. *)
Lemma Split_path x segs :
  no_slash x → Forall no_slash segs → Split (Join (x :: segs) "/") "/" = x :: segs.
Proof.
  intros Hx Hsegs. unfold Split. pose proof (length_Join x segs).
  replace (String.length (Join (x :: segs) "/") + 2)%nat
    with (S (S (String.length (Join (x :: segs) "/")))) by lia.
  apply split_parts_Join; [done|done|lia].
Qed.

Lemma marker_scan_app segs ns rest :
  Forall (λ x, x ≠ splitHorizonWorkloadMarker) segs → ns ≠ "" →
  marker_scan (segs ++ splitHorizonWorkloadMarker :: ns :: rest) = Some ns.
Proof.
  intros Hs Hns. induction Hs as [|x segs Hx _ IH]; cbn [marker_scan app].
  - destruct (decide _); [|done]. by rewrite decide_False.
  - destruct (decide (x = splitHorizonWorkloadMarker)); done.
Qed.

Lemma gateway_loop_Some uids : ∀ acc ns,
  gateway_loop acc uids = Some ns →
  Forall (λ uid, is_Some (gatewayNamespaceFromSplitHorizonUID uid)) uids ∧
  (uids = [] ∧ ns = acc ∨
   ∃ uid, uid ∈ uids ∧ gatewayNamespaceFromSplitHorizonUID uid = Some ns).
Proof.
  induction uids as [|uid uids IH]; intros acc ns Hl; simpl in Hl.
  - simplify_eq. split; [done|by left].
  - destruct (gatewayNamespaceFromSplitHorizonUID uid) as [ns'|] eqn:E; [|done].
    apply IH in Hl as [Hall Hl]. split; [constructor; [by eexists|done]|]. right.
    destruct Hl as [[-> ->]|(u & Hu & Hns)].
    + exists uid. split; [left|done].
    + exists u. split; [by right|done].
Qed.

Lemma gateway_loop_None uids : ∀ acc,
  gateway_loop acc uids = None →
  ∃ uid, uid ∈ uids ∧ gatewayNamespaceFromSplitHorizonUID uid = None.
Proof.
  induction uids as [|uid uids IH]; intros acc Hl; simpl in Hl; [done|].
  destruct (gatewayNamespaceFromSplitHorizonUID uid) eqn:E.
  - apply IH in Hl as (u & Hu & Hn). exists u. split; [by right|done].
  - exists uid. split; [left|done].
Qed.

Lemma marker_scan_nonempty parts ns : marker_scan parts = Some ns → ns ≠ "".
Proof.
  induction parts as [|p parts IH]; cbn [marker_scan]; [done|].
  destruct (decide (p = _)); [destruct parts as [|n parts]; [done|case_decide; naive_solver]|done].
Qed.

Lemma range_uids `{RangeOrder} (endpoints : gmap string unit) uid :
  uid ∈ fst <$> range endpoints ↔ is_Some (endpoints !! uid).
Proof.
  rewrite range_perm, list_elem_of_fmap. split.
  - intros ([u []] & -> & Hin%elem_of_map_to_list). by eexists.
  - intros [[] Hu]. exists (uid, tt). split; [done|]. by apply elem_of_map_to_list.
Qed.

(** which services are behind an east-west gateway, whatever the order of the
    endpoints.  The gateway namespace of a service exists exactly when it has
    endpoints and every one of them is a split-horizon endpoint, and it is then the
    namespace of one of them; and the namespace of an endpoint uid in the documented
    shape, with any number of network segments in front, is the gateway's. *)
Theorem splitHorizonGateway_exact `{RangeOrder} (endpoints : gmap string unit) :
  match splitHorizonGatewayNamespace endpoints with
  | Some ns =>
    (∀ uid, is_Some (endpoints !! uid) → is_Some (gatewayNamespaceFromSplitHorizonUID uid)) ∧
    ∃ uid, is_Some (endpoints !! uid) ∧ gatewayNamespaceFromSplitHorizonUID uid = Some ns
  | None =>
    endpoints = ∅ ∨
    ∃ uid, is_Some (endpoints !! uid) ∧ gatewayNamespaceFromSplitHorizonUID uid = None
  end ∧
  ∀ net segs ns rest,
    Forall no_slash (net :: segs ++ ns :: rest) →
    Forall (λ x, x ≠ splitHorizonWorkloadMarker) (net :: segs) → ns ≠ "" →
    gatewayNamespaceFromSplitHorizonUID
      (Join ((net :: segs) ++ splitHorizonWorkloadMarker :: ns :: rest) "/") = Some ns.
Proof.
  split.
  - unfold splitHorizonGatewayNamespace.
    destruct (gateway_loop "" (fst <$> range endpoints)) as [ns|] eqn:E.
    + apply gateway_loop_Some in E as [Hall Hns]. rewrite Forall_forall in Hall.
      destruct Hns as [[Hnil ->]|(uid & Hin & Hns)].
      * rewrite decide_True by done. left. apply map_eq. intros uid. rewrite lookup_empty.
        destruct (endpoints !! uid) eqn:Hu; [|done].
        assert (Hin : uid ∈ fst <$> range endpoints) by (apply range_uids; by eexists).
        rewrite Hnil in Hin. by apply elem_of_nil in Hin.
      * rewrite decide_False by (by eapply marker_scan_nonempty). split.
        -- intros u Hu. by apply Hall, range_uids.
        -- exists uid. split; [by apply range_uids|done].
    + right. apply gateway_loop_None in E as (uid & Hin & Hn). exists uid.
      split; [by apply range_uids|done].
  - intros net segs ns rest Hsl Hm Hns. unfold gatewayNamespaceFromSplitHorizonUID.
    apply Forall_cons in Hsl as [Hnet Hsl]. apply Forall_app in Hsl as [Hsegs Hrest].
    rewrite <- app_comm_cons, Split_path; [by apply (marker_scan_app (net :: segs))|done|].
    apply Forall_app. split; [done|]. constructor; [|done]. repeat split; done.
Qed.

(** ** Mappings and identities *)

Section mappings.
Context `{RangeOrder} {IC SC WC : Type}.
Context `{!ExpiringCache string LoadBalanceAddress IC} `{!ExpiringCache string unit SC}.
Context `{!ExpiringCache string WorkloadIdentity WC}.
Notation Col := (Collector IC SC WC).

(** What a mapping event may store, and under which key. *)
Definition event_mapping (e : ZTunnelSocketMappingEvent) (key : string) (a : LoadBalanceAddress)
  : Prop :=
  let localIP := convertBPFIPToString (OriginalSrcIP e) in
  lb_IP a = convertBPFIPToString (LoadBalancedDestIP e) ∧ lb_Port a = LoadBalancedDestPort e ∧
  From a = ZTUNNEL_OUTBOUND_FUNC ∧
  OriginalSrcIP e ≠ 0 ∧ OriginalSrcPort e ≠ 0 ∧ LoadBalancedDestIP e ≠ 0 ∧
  LoadBalancedDestPort e ≠ 0 ∧ Z.shiftr (LoadBalancedDestIP e) 24 ≠ 127 ∧
  (OriginalDestIP e = 0 ∧ key = buildSrcOnlyCacheKey localIP (OriginalSrcPort e) ∨
   OriginalDestIP e ≠ 0 ∧ OriginalDestPort e ≠ 0 ∧
   key = buildIPMappingCacheKey localIP (OriginalSrcPort e)
           (convertBPFIPToString (OriginalDestIP e)) (OriginalDestPort e)).

Lemma plausible_src e :
  isPlausibleSrcOnlyMapping e = true →
  OriginalSrcIP e ≠ 0 ∧ OriginalSrcPort e ≠ 0 ∧ LoadBalancedDestIP e ≠ 0 ∧
  LoadBalancedDestPort e ≠ 0 ∧ Z.shiftr (LoadBalancedDestIP e) 24 ≠ 127.
Proof.
  unfold isPlausibleSrcOnlyMapping. intros Hp. repeat case_match; try done.
  apply orb_false_iff in H0 as [H2 H3], H1 as [H4 H5]. apply negb_true_iff in Hp.
  rewrite !Z.eqb_neq in *. done.
Qed.

Lemma ec_Get_Set_cases {V CC} `{!ExpiringCache string V CC} t now k k' (v w : V) ttl (c : CC) :
  now ≤ t → ec_Get t k (ec_Set now k' v ttl c) = Some w →
  ec_Get t k c = Some w ∨ k = k' ∧ w = v.
Proof.
  intros Ht. destruct (decide (k = k')) as [->|Hne].
  - rewrite ec_Get_Set by done. case_decide; naive_solver.
  - rewrite ec_Get_Set_ne by done. by left.
Qed.

(** A wrong reading of the ztunnel's memory does not reach a connection.  An
    address found in the mapping cache after an event was there before, or is the
    event's own destination under the event's own key, and then the event has a
    source, a destination that is not a loopback address, and for a mapping with a
    service address that address too. *)
Theorem mapping_cache_plausible now t (e : ZTunnelSocketMappingEvent) key a (z : Col) :
  now ≤ t →
  ec_Get t key (ipMappingCache (snd (handleMappingEvent now e z))) = Some a →
  ec_Get t key (ipMappingCache z) = Some a ∨ event_mapping e key a.
Proof.
  intros Ht. unfold handleMappingEvent, event_mapping.
  assert (Hc : ∀ (b : bool) (x : Col) sc, ipMappingCache (if b then set_seenEvents sc x else x) =
                                           ipMappingCache x) by (by intros []).
  destruct (OriginalDestIP e =? 0) eqn:Hd.
  - apply Z.eqb_eq in Hd. destruct (isPlausibleSrcOnlyMapping e) eqn:Hp; simpl; rewrite Hc; simpl;
      [|by left]. intros [?|[-> ->]]%ec_Get_Set_cases; [by left|right|done].
    apply plausible_src in Hp. naive_solver.
  - apply Z.eqb_neq in Hd. unfold isPlausibleLBMapping.
    destruct (isPlausibleSrcOnlyMapping e) eqn:Hp; simpl; [|rewrite Hc; by left].
    destruct (OriginalDestIP e =? 0) eqn:Hd'; [by apply Z.eqb_eq in Hd'|]. simpl.
    destruct (OriginalDestPort e =? 0) eqn:Hdp; simpl; rewrite Hc; simpl; [by left|].
    intros [?|[-> ->]]%ec_Get_Set_cases; [by left|right|done].
    apply plausible_src in Hp. apply Z.eqb_neq in Hdp. naive_solver.
Qed.

(** An attached outbound connection is released for the flush exactly when its
    destination cluster is on the attachment or the line of its access log was seen;
    the real destination never changes on the way. *)
Theorem identity_release now c so rpc ztun (z : Col) :
  is_Some (collectingProcess z) → accessLogEnabled z = true →
  Socket c = Some so → RPCConnection c = Some rpc → Attachment rpc = Some ztun →
  By ztun = ZTUNNEL_OUTBOUND_FUNC →
  ∃ pending c' ztun', IsResolutionPendingZ now c z = (pending, c') ∧
    c' = set_rpc (Some (with_attachment (Some ztun') rpc)) c ∧
    RealDestinationIp ztun' = RealDestinationIp ztun ∧ By ztun' = By ztun ∧
    (pending = false ↔
     additionHasKey (Addition ztun') "DST_CLUSTER" = true ∨
     is_Some (ec_Get now (buildSrcOnlyCacheKey (socket_SrcIP so) (socket_SrcPort so))
                (accessLogSeenSrcs z))).
Proof.
  intros [pid Hpid] Hlog Hso Hrpc Hat Hby.
  assert (Hsame : c = set_rpc (Some (with_attachment (Some ztun) rpc)) c).
  { destruct c, rpc. simpl in *. by subst. }
  unfold IsResolutionPendingZ, isDstIdentityPending.
  rewrite Hpid, Hso, Hrpc, Hat, Hlog, Hby. cbn [negb]. rewrite bool_decide_true by done. cbn [negb].
  destruct (additionHasKey (Addition ztun) "DST_CLUSTER") eqn:Hkey.
  { eexists _, _, ztun. split_and!; try done. by split; [left|]. }
  set (key := buildSrcOnlyCacheKey _ _).
  destruct (resolveDstIdentity now c z) as [id|] eqn:Hid.
  - destruct (decide (Cluster id = "")) as [Hcl|Hcl].
    + rewrite (bool_decide_true _ Hcl). cbn [negb orb]. case_bool_decide as Hseen.
      * eexists _, _, _. split_and!; [done|done|done|done|]. split; [by right|done].
      * eexists _, _, ztun. split_and!; try done. split; [done|]. rewrite Hkey. by intros [?|?].
    + rewrite (bool_decide_false _ Hcl). cbn [negb orb].
      eexists _, _, _. split_and!; [done|done|done|done|]. split; [|done]. intros _. left. simpl.
      unfold appendKV. rewrite (decide_False (P := Cluster id = "")) by done. by repeat case_decide.
  - cbn [orb]. case_bool_decide as Hseen; eexists _, _, ztun; split_and!; try done.
    + split; [by right|done].
    + split; [done|]. rewrite Hkey. by intros [?|?].
Qed.

(** The identity outcomes counted so far. *)
Definition identity_outcomes (z : Col) : Z :=
  dstIdentityByAccessLog (counters z) + dstIdentityMissed (counters z) +
  peerIdentityByAccessLog (counters z) + peerIdentityMissed (counters z).

Lemma FinalizeConnectionZ_counts c (z : Col) :
  identity_outcomes (FinalizeConnectionZ c z) =
    identity_outcomes z +
    match RPCConnection c ≫= Attachment with Some _ => 1 | None => 0 end.
Proof.
  unfold FinalizeConnectionZ, identity_outcomes.
  destruct (RPCConnection c) as [rpc|]; simpl; [|lia]. destruct (Attachment rpc) as [a|]; simpl; [|lia].
  destruct (By a); case_match; simpl; lia.
Qed.
End mappings.

(** ** Witnesses *)

#[local] Existing Instance keys_order.

Module ZSample.
Notation Col := (Collector (expiring string LoadBalanceAddress) (expiring string unit)
  (expiring string WorkloadIdentity)).
Notation Mgr := (Manager (bpf_room Z Z) (expiring Z ProcessVerdict) (shared_map positive)
  (bpf_room Z ActiveConnection) (expiring string bool) Col).

(** A collector that follows the access log of the ztunnel with pid 3. *)
Definition col : Col :=
  MkCollector (Some 3) ∅ ZTunnelIPMappingExpireDuration ∅ ∅ ∅ ∅ None None true false no_counters.

Definition mgr : Mgr :=
  MkManager Sample.sample_monitor {[ Sample.key := 1%positive ]}
    {[ 1%positive := Sample.conn None ]} 2 (MkBpfRoom ∅) ∅ (Some (MkConnTrack 0 0 0 0))
    Sample.no_stats col.

Lemma zmgr_inv : manager_inv mgr.
Proof.
  split; [| |by eexists].
  - intros k ref Hk. unfold holds in Hk. simpl in Hk.
    apply lookup_singleton_Some in Hk as [<- <-]. exists (Sample.conn None).
    split; [apply lookup_singleton_eq|]. split; [reflexivity|by eexists].
  - simpl. intros ref c [<- <-]%lookup_singleton_Some. lia.
Qed.

(** 10.0.0.1:4000 goes to 10.1.2.3:8080. *)
Definition event : ZTunnelSocketMappingEvent :=
  MkSocketMappingEvent 167772161 0 4000 0 167838211 8080 0 0.
End ZSample.

Lemma mapping_event_resolves_witness :
  ∃ s' c' rpc' a, OnMappingEvent 0 ZSample.event ZSample.mgr = (Ok tt, s') ∧
    heap s' !! 1%positive = Some c' ∧ RPCConnection c' = Some rpc' ∧ Attachment rpc' = Some a ∧
    RealDestinationIp a = "10.1.2.3".
Proof.
  destruct (mapping_event_resolves 0 ZSample.event Sample.key 1%positive (Sample.conn None)
    Sample.socket Sample.rpc ZSample.mgr) as (s' & c' & rpc' & a & H1 & _ & H2 & H3 & H4 & H5 & _);
    [apply ZSample.zmgr_inv|reflexivity|reflexivity|reflexivity|reflexivity|vm_compute; reflexivity
    |reflexivity|reflexivity|reflexivity|reflexivity|reflexivity|reflexivity|].
  exists s', c', rpc', a. split_and!; [exact H1|exact H2|exact H3|exact H4|].
  rewrite H5. vm_compute. reflexivity.
Defined.

Lemma mapping_cache_plausible_witness :
  event_mapping ZSample.event (buildSrcOnlyCacheKey "10.0.0.1" 4000)
    (MkLoadBalanceAddress "10.1.2.3" 8080 ZTUNNEL_OUTBOUND_FUNC sourceConnectionResult).
Proof.
  destruct (mapping_cache_plausible 0 1 ZSample.event (buildSrcOnlyCacheKey "10.0.0.1" 4000)
    (MkLoadBalanceAddress "10.1.2.3" 8080 ZTUNNEL_OUTBOUND_FUNC sourceConnectionResult)
    ZSample.col) as [H|H]; [lia|vm_compute; reflexivity|discriminate H|exact H].
Defined.

Lemma identity_release_witness :
  ∃ pending c', IsResolutionPendingZ 0
    (set_rpc (Some (with_attachment (Some (MkZTunnelAttachment "10.1.2.3" ZTUNNEL_OUTBOUND_FUNC []))
       Sample.rpc)) (Sample.conn None)) ZSample.col = (pending, c') ∧ pending ≠ false.
Proof.
  destruct (identity_release 0
    (set_rpc (Some (with_attachment (Some (MkZTunnelAttachment "10.1.2.3" ZTUNNEL_OUTBOUND_FUNC []))
       Sample.rpc)) (Sample.conn None)) Sample.socket
    (with_attachment (Some (MkZTunnelAttachment "10.1.2.3" ZTUNNEL_OUTBOUND_FUNC [])) Sample.rpc)
    (MkZTunnelAttachment "10.1.2.3" ZTUNNEL_OUTBOUND_FUNC []) ZSample.col)
    as (pending & c' & ztun' & H & _); [by eexists|reflexivity..|].
  exists pending, c'. split; [exact H|]. vm_compute in H. injection H. intros _ <-. discriminate.
Defined.
