(* ===== verification/AccessLogTail.v ===== *)
(** * The fallback sources of the ztunnel collector

    Models the tailer of the ztunnel access log (src/pkg/accesslog/collector/ztunnel/
    ztunnel_accesslog.go) and the mappings of the admin dump (ztunnel_admin.go): the
    parsing of a line, what a line does to the collector of Ztunnel.v, and the tail
    loop over rotated and truncated files.

    [encoding/json] and [time.Parse] are arguments: [unmarshal] gives the members of a
    JSON object whose values are strings, [parse_time] the nanoseconds of a timestamp.
    The tail loop reads files by inode; the reader's buffer is not visible, since every
    poll reads to the end of the file. *)

From stdpp Require Import base gmap list strings pretty.
From Stdlib Require Import ZArith Lia Ascii.
From S2P Require Import Prelude GoStrings Interfaces ProcessMonitor Events Connection ConnectionLife Ztunnel.

(** ** Addresses *)

(** [strconv.Atoi], on 64-bit integers. *)
Fixpoint digits (acc : Z) (s : string) : option Z :=
  match s with
  | EmptyString => Some acc
  | String c s' =>
    let n := Z.of_nat (nat_of_ascii c) in
    if (48 <=? n) && (n <=? 57) then digits (10 * acc + (n - 48)) s' else None
  end.

Definition unsigned_digits (s : string) : option Z :=
  match s with EmptyString => None | _ => digits 0 s end.

Definition Atoi (s : string) : option Z :=
  let r := match s with
           | String "-" s' => Z.opp <$> unsigned_digits s'
           | String "+" s' => unsigned_digits s'
           | _ => unsigned_digits s
           end in
  n ← r; if (- 2 ^ 63 <=? n) && (n <? 2 ^ 63) then Some n else None.

(** [strings.LastIndexByte] and [strings.IndexByte]. *)
Fixpoint LastIndexByte (s : string) (b : ascii) : Z :=
  match s with
  | EmptyString => -1
  | String c s' =>
    let i := LastIndexByte s' b in
    if 0 <=? i then i + 1 else if decide (c = b) then 0 else -1
  end.

Definition has_byte (s : string) (b : ascii) : bool := 0 <=? LastIndexByte s b.

(** [net.SplitHostPort]. *)
Definition SplitHostPort (hostport : string) : option (string * string) :=
  let i := LastIndexByte hostport ":" in
  if i <? 0 then None
  else
    let before := str_take (Z.to_nat i) hostport in
    let port := str_drop (Z.to_nat i + 1) hostport in
    match hostport with
    | String "[" _ =>
      let e := Index hostport "]" in
      if e <? 0 then None
      else if negb (e + 1 =? i) then None
      else
        let host := str_take (Z.to_nat e - 1) (str_drop 1 hostport) in
        if has_byte (str_drop 1 hostport) "[" || has_byte (str_drop (Z.to_nat e + 1) hostport) "]"
        then None
        else Some (host, port)
    | _ =>
      if has_byte before ":" then None
      else if has_byte hostport "[" || has_byte hostport "]" then None
      else Some (before, port)
    end.

Definition parseZTunnelAddress (addr : string) : option (string * Z) :=
  if decide (addr = "") then None
  else '(ip, portStr) ← SplitHostPort addr; port ← Atoi portStr; Some (ip, port).

(** ** Access log lines *)

Record ztunnelAccessLogFields : Type := MkFields {
  srcAddr : string;
  podAddr : string;
  direction : string;
  message : string;
  dstCluster : string;
  dstIdentity : string;
  srcCluster : string;
  srcIdentity : string
}.

Notation msgConnectionComplete := "connection complete"%string (only parsing).
Notation msgConnectionOpened := "connection opened"%string (only parsing).
Notation directionOutbound := "outbound"%string (only parsing).
Notation directionInbound := "inbound"%string (only parsing).

Definition tab : string := String (ascii_of_nat 9) "".
Definition newline : string := String (ascii_of_nat 10) "".

Definition is_newline (c : ascii) : bool := bool_decide (c = ascii_of_nat 10).
Definition is_quote (c : ascii) : bool := bool_decide (c = ascii_of_nat 34).

(** Trimming quotes on both sides, and newlines on the right. *)
Definition TrimQuotes (s : string) : string := trim_right is_quote (trim_left is_quote s).
Definition TrimNewlines (s : string) : string := trim_right is_newline s.

(** The part of a string before its first space or tab. *)
Fixpoint until_blank (s : string) : string :=
  match s with
  | EmptyString => EmptyString
  | String c s' =>
    if bool_decide (c = " "%char ∨ c = ascii_of_nat 9) then EmptyString
    else String c (until_blank s')
  end.

Definition extractLogField (s key : string) : string :=
  let i := Index s key in
  if i <? 0 then "" else until_blank (str_drop (Z.to_nat i + String.length key) s).

Section lines.
Context (unmarshal : string → option (gmap string string)) (parse_time : string → option Z).

Definition parseZTunnelAccessLogFields (payload : string) : option ztunnelAccessLogFields :=
  if HasPrefix (TrimSpace payload) "{" then
    m ← unmarshal payload;
    let field k := default "" (m !! k) in
    let pod := field "dst.hbone_addr" in
    let pod := if decide (pod = "") then field "dst.addr" else pod in
    Some (MkFields (field "src.addr") pod (field "direction") (field "message")
            (field "dst.cluster") (field "dst.identity") (field "src.cluster")
            (field "src.identity"))
  else if negb (Contains payload (tab +:+ "access" +:+ tab)) then None
  else
    let pod := extractLogField payload "dst.hbone_addr=" in
    let pod := if decide (pod = "") then extractLogField payload "dst.addr=" else pod in
    let message := if Contains payload msgConnectionComplete then msgConnectionComplete
                   else if Contains payload msgConnectionOpened then msgConnectionOpened
                   else "" in
    Some (MkFields (extractLogField payload "src.addr=") pod
            (TrimQuotes (extractLogField payload "direction=")) message
            (TrimQuotes (extractLogField payload "dst.cluster="))
            (TrimQuotes (extractLogField payload "dst.identity="))
            (TrimQuotes (extractLogField payload "src.cluster="))
            (TrimQuotes (extractLogField payload "src.identity="))).

(** The timestamp and the payload of a line in either on-disk format. *)
Definition splitLine (line : string) : option (string * string) :=
  let line := TrimNewlines line in
  if HasPrefix line "{" then
    m ← unmarshal line;
    Some (default "" (m !! "time"), TrimNewlines (default "" (m !! "log")))
  else
    match SplitN line " " 4 with
    | [ts; _; flag; payload] => if decide (flag = "F") then Some (ts, payload) else None
    | _ => None
    end.

Context {IC SC WC : Type}.
Context `{!ExpiringCache string LoadBalanceAddress IC} `{!ExpiringCache string unit SC}.
Context `{!ExpiringCache string WorkloadIdentity WC}.
Notation Col := (Collector IC SC WC).

(** The outbound part of a line: the identity, that the line was seen, and the
    mapping where the probes left a gap. *)
Definition applyOutbound (now : Z) (f : ztunnelAccessLogFields) (srcIP : string) (sp : Z)
    (podIP : string) (pp : Z) (z : Col) : Col :=
  let z := set_counters (add_accessLog 1 0 (counters z)) z in
  let z := cacheDstIdentityFromAccessLog now srcIP sp (dstCluster f) (dstIdentity f) z in
  let key := buildSrcOnlyCacheKey srcIP sp in
  let z := set_logSeen (ec_Set now key tt ZTunnelSrcOnlyMappingExpireDuration
             (accessLogSeenSrcs z)) z in
  match ec_Get now key (ipMappingCache z) with
  | Some _ => z
  | None =>
    set_ipMapping (ec_Set now key (MkLoadBalanceAddress podIP (u16 pp) ZTUNNEL_OUTBOUND_FUNC
                     sourceAccessLog) ZTunnelSrcOnlyMappingExpireDuration (ipMappingCache z))
      (set_counters (add_event 1 0 (counters z)) z)
  end.

(** A parsed line, and the source address to push. *)
Definition applyFields (now : Z) (f : ztunnelAccessLogFields) (z : Col)
  : option (string * Z) * Col :=
  if decide (direction f = directionInbound) then
    match parseZTunnelAddress (srcAddr f) with
    | Some (srcIP, _) =>
      if decide (srcIP = "") then (None, z)
      else (None, cachePeerIdentityFromAccessLog now srcIP (srcCluster f) (srcIdentity f) z)
    | None => (None, z)
    end
  else if decide (direction f ≠ directionOutbound ∨ srcAddr f = "" ∨ podAddr f = "") then (None, z)
  else if decide (message f ≠ msgConnectionComplete ∧ message f ≠ msgConnectionOpened)
  then (None, z)
  else
    match parseZTunnelAddress (srcAddr f), parseZTunnelAddress (podAddr f) with
    | Some (srcIP, sp), Some (podIP, pp) =>
      if decide (podIP = "") then (None, z)
      else if HasPrefix podIP "127." then (None, z)
      else (Some (srcIP, u16 sp), applyOutbound now f srcIP sp podIP pp z)
    | _, _ => (None, z)
    end.

(** [cutoff] is the start of the tailer less thirty seconds, once it started. *)
Definition handleAccessLogLine (now : Z) (cutoff : option Z) (line : string) (z : Col)
  : option (string * Z) * Col :=
  match splitLine line with
  | None => (None, z)
  | Some (ts, payload) =>
    if decide (payload = "") then (None, z)
    else
      if match cutoff, parse_time ts with Some c, Some t => t <? c | _, _ => false end
      then (None, set_counters (add_accessLog 0 1 (counters z)) z)
      else
        match parseZTunnelAccessLogFields payload with
        | None => (None, z)
        | Some f => applyFields now f z
        end
  end.
End lines.

(** ** The admin dump *)

Section admin.
Context `{RangeOrder} {IC SC WC : Type}.
Context `{!ExpiringCache string LoadBalanceAddress IC} `{!ExpiringCache string unit SC}.
Context `{!ExpiringCache string WorkloadIdentity WC}.
Notation Col := (Collector IC SC WC).

Definition applyAdminConnection (now : Z) (z : Col) (conn : ztunnelConnection) : Col :=
  match parseZTunnelAddress (Src conn), parseZTunnelAddress (OriginalDst conn),
        parseZTunnelAddress (ActualDst conn) with
  | Some (srcIP, srcPort), Some (origIP, origPort), Some (actualIP, actualPort) =>
    let key := buildIPMappingCacheKey srcIP srcPort origIP origPort in
    let z := match ec_Get now key (ipMappingCache z) with
             | Some _ => z
             | None => set_counters (set_admin (adminOutboundMappingCount (counters z) + 1)
                         (adminInboundSeenCount (counters z)) (counters z)) z
             end in
    set_ipMapping (ec_Set now key (MkLoadBalanceAddress actualIP (u16 actualPort)
                     ZTUNNEL_OUTBOUND_FUNC sourceAdminDump)
                     (ipMappingExpireDuration z) (ipMappingCache z)) z
  | _, _, _ => z
  end.

(** The connections of every workload of a dump, in the order of the iteration. *)
Definition dumpConnections (dump : ztunnelConfigDump) : list ztunnelConnectionDump :=
  omap snd (range (WorkloadState dump)).

Definition applyAdminConnectionMappings (now : Z) (dump : ztunnelConfigDump) (z : Col) : Col :=
  let alive := foldl (λ n d, n + Z.of_nat (length (Inbound d))) 0 (dumpConnections dump) in
  let z := foldl (applyAdminConnection now) z (dumpConnections dump ≫= Outbound) in
  set_counters (set_admin (adminOutboundMappingCount (counters z)) alive (counters z)) z.

(** A poll of the admin port: [body] is the parsed dump, if the request and the
    parsing succeed. *)
Definition pollAdminConfigDump (now : Z) (body : option ztunnelConfigDump) (z : Col) : Col :=
  match body with
  | None => z
  | Some dump =>
    applyAdminConnectionMappings now dump
      (refreshSplitHorizonGateways dump (refreshWorkloadIdentities dump z))
  end.
End admin.

(** ** Reading lines *)

(** [bufio.Reader.ReadString] on the text up to the end of the file: the line with
    its newline or, at the end, what is left; the rest; and whether the end was hit. *)
Fixpoint ReadString (s : string) : string * string * bool :=
  match s with
  | EmptyString => ("", "", true)
  | String c s' =>
    if is_newline c then (newline, s', false)
    else match ReadString s' with
         | (line, rest, eof) => (String c line, rest, eof)
         end
  end.

(** The lines that are handled and the count of bytes that are consumed.  A partial
    line at the end is consumed and not handled. *)
Fixpoint drainReader (fuel : nat) (s : string) : list string * Z :=
  match fuel with
  | O => ([], 0)
  | S fuel =>
    match ReadString s with
    | (line, rest, eof) =>
      let n := Z.of_nat (String.length line) in
      let handled := if HasSuffix line newline then [line] else [] in
      if eof : bool then (handled, n)
      else match drainReader fuel rest with
           | (lines, m) => (handled ++ lines, n + m)
           end
    end
  end.

Definition drain (s : string) : list string * Z := drainReader (S (String.length s)) s.

(** ** The tail loop *)

Record tailer : Type := MkTailer {
  (** The path and the inode of the open file, and whether the descriptor is still
      open; the reader is where [offset] is. *)
  current : string;
  file : option Z;
  file_closed : bool;
  offset : Z;
  following : bool
}.

Definition new_tailer : tailer := MkTailer "" None false 0 false.

(** What a poll finds: whether a ztunnel is collected, the newest log file with the
    inode [os.Stat] reports and the one [os.Open] opens, and the contents by inode. *)
Record tail_view : Type := MkTailView {
  collecting : bool;
  latest : option (string * option Z * option Z);
  contents : Z → string
}.

(** Draining the open file from the current offset. *)
Definition drainFile (w : tail_view) (t : tailer) : list string * tailer :=
  match file t, file_closed t with
  | Some i, false =>
    match drain (str_drop (Z.to_nat (offset t)) (contents w i)) with
    | (lines, n) => (lines, MkTailer (current t) (file t) false (offset t + n) (following t))
    end
  | _, _ => ([], t)
  end.

Definition set_following (b : bool) (t : tailer) : tailer :=
  MkTailer (current t) (file t) (file_closed t) (offset t) b.

Definition needReopen (path : string) (stat : option Z) (t : tailer) : bool :=
  match file t with
  | None => true
  | Some i =>
    negb (bool_decide (path = current t)) ||
    match stat with
    | Some i' => file_closed t || negb (i' =? i)
    | None => false
    end
  end.

(** One tick of the tailer: the lines it handles. *)
Definition tailTick (w : tail_view) (t : tailer) : list string * tailer :=
  if negb (collecting w) then ([], set_following false t)
  else
    match latest w with
    | None => ([], set_following false t)
    | Some (path, stat, opened) =>
      if needReopen path stat t then
        match drainFile w t with
        | (rest, t) =>
          match opened with
          | None => (rest, MkTailer (current t) (file t) (bool_decide (is_Some (file t)))
                             (offset t) (following t))
          | Some i =>
            match drainFile w (MkTailer path (Some i) false 0 true) with
            | (lines, t) => (rest ++ lines, t)
            end
          end
        end
      else
        let shrunk := match file t with
                      | Some i => negb (file_closed t) &&
                                  (Z.of_nat (String.length (contents w i)) <? offset t)
                      | None => false
                      end in
        drainFile w (if shrunk then MkTailer (current t) (file t) (file_closed t) 0 (following t)
                     else t)
    end.

(** ** Whole lines *)

Fixpoint no_newline (s : string) : Prop :=
  match s with
  | EmptyString => True
  | String c s => is_newline c = false ∧ no_newline s
  end.

(** A complete line of a log. *)
Definition is_line (l : string) : Prop := ∃ x, no_newline x ∧ l = x +:+ newline.

Fixpoint text (ls : list string) : string :=
  match ls with
  | [] => ""
  | l :: ls => l +:+ text ls
  end.

Lemma text_app l1 l2 : text (l1 ++ l2) = text l1 +:+ text l2.
Proof. induction l1 as [|l l1 IH]; [done|]. simpl. by rewrite IH, str_app_assoc. Qed.

Lemma ReadString_line x rest :
  no_newline x → ReadString (x +:+ newline +:+ rest) = (x +:+ newline, rest, false).
Proof.
  induction x as [|c x IH]; intros Hx; [done|]. destruct Hx as [Hc Hx].
  rewrite !str_app_cons. cbn [ReadString]. by rewrite Hc, IH.
Qed.

Lemma ReadString_partial x : no_newline x → ReadString x = (x, "", true).
Proof. induction x as [|c x IH]; intros Hx; [done|]. destruct Hx as [Hc Hx]. simpl. by rewrite Hc, IH. Qed.

Lemma HasSuffix_line x : HasSuffix (x +:+ newline) newline = true.
Proof.
  unfold HasSuffix. rewrite str_app_length. apply andb_true_iff. split.
  - apply Nat.leb_le. lia.
  - replace (String.length x + String.length newline - String.length newline)%nat
      with (String.length x) by lia. rewrite str_drop_app. reflexivity.
Qed.

Lemma HasSuffix_partial x : no_newline x → HasSuffix x newline = false.
Proof.
  intros Hx. unfold HasSuffix. apply andb_false_iff. right. apply String.eqb_neq.
  generalize (String.length x - String.length newline)%nat. induction x as [|c x IH]; intros n.
  - by destruct n.
  - destruct Hx as [Hc Hx]. destruct n; simpl; [|by apply IH].
    intros [= -> _]. done.
Qed.

Lemma drainReader_lines ls x fuel :
  Forall is_line ls → no_newline x → (length ls < fuel)%nat →
  drainReader fuel (text ls +:+ x) = (ls, Z.of_nat (String.length (text ls +:+ x))).
Proof.
  intros Hls Hx. revert fuel. induction Hls as [|l ls (y & Hy & ->) _ IH]; intros [|fuel] Hf;
    simpl in Hf; try lia; cbn [drainReader text].
  - rewrite str_app_nil, ReadString_partial by done. by rewrite HasSuffix_partial.
  - rewrite <- !str_app_assoc, ReadString_line by done. rewrite HasSuffix_line, IH by (done || lia).
    cbn [app]. rewrite !str_app_length. f_equal. lia.
Qed.

Lemma length_text ls : Forall is_line ls → (length ls ≤ String.length (text ls))%nat.
Proof.
  induction 1 as [|l ls (x & _ & ->) _ IH]; [done|]. cbn [text length].
  rewrite !str_app_length. simpl. lia.
Qed.

(** Draining whole lines and a partial one. *)
Lemma drain_lines ls x :
  Forall is_line ls → no_newline x →
  drain (text ls +:+ x) = (ls, Z.of_nat (String.length (text ls +:+ x))).
Proof.
  intros Hls Hx. unfold drain. apply drainReader_lines; [done|done|].
  pose proof (length_text ls Hls). rewrite str_app_length. lia.
Qed.

Lemma drain_text ls : Forall is_line ls → drain (text ls) = (ls, Z.of_nat (String.length (text ls))).
Proof.
  intros Hls. pose proof (drain_lines ls "" Hls I) as H. by rewrite str_app_nil_r in H.
Qed.

(** ** Exactly-once delivery *)

(** A node's log: the files by inode, the active file, and what the tailer has
    handled of what was written. *)
Record log_system : Type := MkLogSystem {
  files : gmap Z string;
  active : Z;
  active_path : string;
  tail : tailer;
  handled : list string;
  written : list string
}.

Definition content_of (s : log_system) (i : Z) : string := default "" (files s !! i).

(** What a poll of the system sees. *)
Definition view_of (s : log_system) : tail_view :=
  MkTailView true (Some (active_path s, Some (active s), Some (active s))) (content_of s).

(** The ztunnel writes whole lines, the kubelet rotates to a new file (under a new
    path or the same) that the tailer has not left behind, and the tailer polls. *)
Inductive log_step : log_system → log_system → Prop :=
| step_write s l :
  is_line l →
  log_step s (MkLogSystem (<[active s := content_of s (active s) +:+ l]> (files s)) (active s)
                (active_path s) (tail s) (handled s) (written s ++ [l]))
| step_rotate s i path :
  files s !! i = None → file (tail s) = Some (active s) →
  log_step s (MkLogSystem (<[i := ""]> (files s)) i path (tail s) (handled s) (written s))
| step_poll s lines t :
  tailTick (view_of s) (tail s) = (lines, t) →
  log_step s (MkLogSystem (files s) (active s) (active_path s) t (handled s ++ lines) (written s)).

Definition log_init (i : Z) (path : string) : log_system :=
  MkLogSystem {[ i := "" ]} i path new_tailer [] [].

(** What is still to be read of a file. *)
Definition unread (s : log_system) (i : Z) (ls : list string) : Prop :=
  Forall is_line ls ∧ 0 ≤ offset (tail s) ∧
  ∃ pre, String.length pre = Z.to_nat (offset (tail s)) ∧ content_of s i = pre +:+ text ls.

(** Nothing is lost between the file the tailer has open and the active one. *)
Record log_inv (s : log_system) : Prop := {
  li_open : file_closed (tail s) = false;
  li_active : is_Some (files s !! active s);
  li_lines : Forall is_line (written s);
  li_rest :
    match file (tail s) with
    | None => handled s = [] ∧ content_of s (active s) = text (written s)
    | Some i =>
      is_Some (files s !! i) ∧
      if decide (i = active s)
      then current (tail s) = active_path s ∧
           ∃ rest, written s = handled s ++ rest ∧ unread s i rest
      else ∃ old new, written s = handled s ++ old ++ new ∧ unread s i old ∧
             Forall is_line new ∧ content_of s (active s) = text new
    end
}.

Lemma drainFile_unread w t i pre ls :
  file t = Some i → file_closed t = false → 0 ≤ offset t →
  String.length pre = Z.to_nat (offset t) → contents w i = pre +:+ text ls → Forall is_line ls →
  drainFile w t =
    (ls, MkTailer (current t) (Some i) false (Z.of_nat (String.length (contents w i))) (following t)).
Proof.
  intros Hf Hc Ho Hp Hw Hls. unfold drainFile. rewrite Hf, Hc, Hw, <- Hp, str_drop_app.
  rewrite drain_text by done. repeat f_equal. rewrite str_app_length. lia.
Qed.

(** A poll handles exactly what was not handled. *)
Lemma poll_complete s lines t :
  log_inv s → tailTick (view_of s) (tail s) = (lines, t) →
  written s = handled s ++ lines ∧
  t = MkTailer (active_path s) (Some (active s)) false
        (Z.of_nat (String.length (content_of s (active s)))) (following t).
Proof.
  intros [Hopen _ Hlines Hrest] Htick. unfold tailTick in Htick. cbn [view_of collecting latest negb] in Htick.
  assert (Hnew : ∀ ls, Forall is_line ls → content_of s (active s) = text ls →
    drainFile (view_of s) (MkTailer (active_path s) (Some (active s)) false 0 true) =
      (ls, MkTailer (active_path s) (Some (active s)) false
             (Z.of_nat (String.length (content_of s (active s)))) true)).
  { intros ls Hls Hc. by apply drainFile_unread with (pre := ""). }
  unfold needReopen in Htick. destruct (file (tail s)) as [i|] eqn:Hf.
  - destruct Hrest as [_ Hrest]. rewrite Hopen in Htick. cbn [orb] in Htick. case_decide as Hi.
    + subst i. destruct Hrest as (Hcur & rest & Hw & Hls & Ho & pre & Hp & Hc).
      rewrite Hcur, Z.eqb_refl, bool_decide_true in Htick by done. cbn [negb orb andb] in Htick.
      rewrite (proj2 (Z.ltb_ge _ _)) in Htick.
      2: { simpl. rewrite Hc, str_app_length. lia. }
      rewrite (drainFile_unread _ _ (active s) pre rest) in Htick by done. simplify_eq.
      split; [done|]. simpl. by rewrite Hcur.
    + destruct Hrest as (old & new & Hw & (Hls & Ho & pre & Hp & Hc) & Hn & Hcn).
      rewrite (proj2 (Z.eqb_neq (active s) i)) in Htick by congruence. cbn [negb] in Htick.
      rewrite orb_true_r in Htick.
      rewrite (drainFile_unread _ _ i pre old), (Hnew new) in Htick by done. simplify_eq. done.
  - destruct Hrest as [Hh Hc]. unfold drainFile at 1 in Htick. rewrite Hf in Htick.
    rewrite (Hnew (written s)) in Htick by done. simplify_eq. by rewrite Hh.
Qed.

Lemma lines_snoc ls l : Forall is_line ls → is_line l → Forall is_line (ls ++ [l]).
Proof. intros. apply Forall_app. by split; [|constructor]. Qed.

Lemma text_snoc ls l : text (ls ++ [l]) = text ls +:+ l.
Proof. rewrite text_app. simpl. by rewrite str_app_nil_r. Qed.

Lemma log_write_inv s l :
  is_line l → log_inv s →
  log_inv (MkLogSystem (<[active s := content_of s (active s) +:+ l]> (files s)) (active s)
             (active_path s) (tail s) (handled s) (written s ++ [l])).
Proof.
  intros Hl [Hopen Hact Hlines Hrest].
  split; simpl; [done|by rewrite lookup_insert_eq; eexists|by apply lines_snoc|].
  unfold content_of in *. simpl. destruct (file (tail s)) as [i|].
  - destruct Hrest as [Hi Hrest]. split.
    { destruct (decide (active s = i)) as [->|]; [by rewrite lookup_insert_eq; eexists|].
      by rewrite lookup_insert_ne. }
    case_decide as Hd.
    + subst i. destruct Hrest as (Hcur & rest & Hw & Hls & Ho & pre & Hp & Hc). split; [done|].
      exists (rest ++ [l]). rewrite Hw, app_assoc. split; [done|].
      split_and!; [by apply lines_snoc|done|]. exists pre. split; [done|].
      unfold content_of in *. simpl. rewrite lookup_insert_eq. simpl.
      by rewrite Hc, text_snoc, str_app_assoc.
    + destruct Hrest as (old & new & Hw & (Hls & Ho & pre & Hp & Hc) & Hn & Hcn).
      exists old, (new ++ [l]). rewrite Hw, !app_assoc. split_and!; [done| |by apply lines_snoc|].
      * split_and!; [done|done|]. exists pre. split; [done|]. unfold content_of in *. simpl.
        by rewrite lookup_insert_ne.
      * rewrite lookup_insert_eq. simpl. by rewrite Hcn, text_snoc.
  - destruct Hrest as [Hh Hc]. split; [done|]. rewrite lookup_insert_eq. simpl.
    by rewrite Hc, text_snoc.
Qed.

Lemma log_rotate_inv s i path :
  files s !! i = None → file (tail s) = Some (active s) → log_inv s →
  log_inv (MkLogSystem (<[i := ""]> (files s)) i path (tail s) (handled s) (written s)).
Proof.
  intros Hi Hf [Hopen Hact Hlines Hrest]. rewrite Hf, decide_True in Hrest by done.
  destruct Hrest as [Hin (Hcur & rest & Hw & Hls & Ho & pre & Hp & Hc)].
  assert (Hne : active s ≠ i) by (intros Heq; rewrite Heq, Hi in Hact; by destruct Hact).
  split; simpl; [done|by rewrite lookup_insert_eq; eexists|done|]. rewrite Hf. split.
  { by rewrite lookup_insert_ne by done. }
  rewrite decide_False by done. exists rest, []. rewrite app_nil_r. split_and!; [done| |done|].
  - split_and!; [done|done|]. exists pre. split; [done|]. unfold content_of in *. simpl.
    by rewrite lookup_insert_ne by done.
  - unfold content_of. simpl. by rewrite lookup_insert_eq.
Qed.

Lemma log_step_inv s s' : log_inv s → log_step s s' → log_inv s'.
Proof.
  intros Hinv Hs. destruct Hs as [s l Hl|s i path Hi Hf|s lines t Ht].
  - by apply log_write_inv.
  - by apply log_rotate_inv.
  - destruct (poll_complete s lines t Hinv Ht) as [Hw ->]. destruct Hinv as [_ Hact Hlines _].
    split; simpl; [done|done|done|]. split; [done|]. rewrite decide_True by done. split; [done|].
    exists []. rewrite app_nil_r. split; [done|]. split_and!; [done|simpl; lia|].
    exists (content_of s (active s)). simpl. split; [by rewrite Nat2Z.id|]. by rewrite str_app_nil_r.
Qed.

(** C40: the tailer delivers every line exactly once and in order.  Whatever the
    ztunnel writes in whole lines, however the kubelet rotates its log (to a new
    path or under the same path), as long as the tailer polls between two rotations:
    the lines handled are always a prefix of the lines written, and after a poll they
    are all of them. *)
Theorem tailer_exactly_once i path s lines t :
  rtc log_step (log_init i path) s →
  (∃ rest, written s = handled s ++ rest) ∧
  (tailTick (view_of s) (tail s) = (lines, t) → handled s ++ lines = written s).
Proof.
  intros Hr. assert (Hinv : log_inv s).
  { assert (H0 : log_inv (log_init i path)).
    { unfold log_init. split; simpl; [done|by rewrite lookup_singleton_eq; eexists|done|].
      split; [done|]. unfold content_of. simpl. by rewrite lookup_singleton_eq. }
    revert H0. induction Hr as [|s1 s2 s3 Hs _ IH]; intros H1; [done|].
    apply IH. by eapply log_step_inv. }
  split.
  - destruct (tailTick (view_of s) (tail s)) as [ls t'] eqn:E.
    exists ls. by apply (poll_complete s ls t').
  - intros Ht. symmetry. by apply (poll_complete s lines t).
Qed.

Lemma tailer_exactly_once_witness :
  let l := "line" +:+ newline in
  let s := MkLogSystem {[ 1 := l ]} 1 "0.log" new_tailer [] [l] in
  rtc log_step (log_init 1 "0.log") s ∧
  handled s ++ fst (tailTick (view_of s) (tail s)) = [l].
Proof.
  intros l s. assert (Hr : rtc log_step (log_init 1 "0.log") s).
  { apply rtc_once. assert (Hl : is_line l) by (exists "line"; by repeat split).
    exact (step_write (log_init 1 "0.log") l Hl). }
  split; [exact Hr|].
  destruct (tailTick (view_of s) (tail s)) as [ls t] eqn:E.
  exact (proj2 (tailer_exactly_once 1 "0.log" s ls t Hr) E).
Defined.

(** A line that is written in two parts, with a poll in between, is lost: the first
    part is consumed and dropped, and the rest is handled as a line of its own. *)
Example partial_line_lost :
  let w s := MkTailView true (Some ("0.log", Some 1, Some 1)) (λ _, s) in
  let (lines1, t1) := tailTick (w "2026 stdout F first") new_tailer in
  let (lines2, t2) := tailTick (w ("2026 stdout F first half" +:+ newline)) t1 in
  lines1 ++ lines2 = [" half" +:+ newline].
Proof. vm_compute. reflexivity. Qed.

(** ** What a line may change *)

Section line_effects.
Context (unmarshal : string → option (gmap string string)) (parse_time : string → option Z).
Context {IC SC WC : Type}.
Context `{!ExpiringCache string LoadBalanceAddress IC} `{!ExpiringCache string unit SC}.
Context `{!ExpiringCache string WorkloadIdentity WC}.
Notation Col := (Collector IC SC WC).

Lemma cacheDst_mappings now srcIP srcPort cl id (z : Col) :
  ipMappingCache (cacheDstIdentityFromAccessLog now srcIP srcPort cl id z) = ipMappingCache z.
Proof. unfold cacheDstIdentityFromAccessLog, cacheDstIdentity. by case_match. Qed.

Lemma cachePeer_mappings now srcIP cl id (z : Col) :
  ipMappingCache (cachePeerIdentityFromAccessLog now srcIP cl id z) = ipMappingCache z.
Proof.
  unfold cachePeerIdentityFromAccessLog, cachePeerIdentity. case_match; [|done]. by case_decide.
Qed.

(** A line leaves the mappings alone, or enters one real destination under the key of
    its source. *)
Lemma handleAccessLogLine_mappings now cutoff line (z : Col) :
  let r := handleAccessLogLine unmarshal parse_time now cutoff line z in
  ipMappingCache (snd r) = ipMappingCache z ∨
  ∃ srcIP sp podIP pp,
    podIP ≠ "" ∧ HasPrefix podIP "127." = false ∧ fst r = Some (srcIP, u16 sp) ∧
    ec_Get now (buildSrcOnlyCacheKey srcIP sp) (ipMappingCache z) = None ∧
    ipMappingCache (snd r) =
      ec_Set now (buildSrcOnlyCacheKey srcIP sp)
        (MkLoadBalanceAddress podIP (u16 pp) ZTUNNEL_OUTBOUND_FUNC sourceAccessLog)
        ZTunnelSrcOnlyMappingExpireDuration (ipMappingCache z).
Proof.
  cbv zeta. unfold handleAccessLogLine.
  destruct (splitLine unmarshal line) as [[ts payload]|]; [|by left].
  case_decide; [by left|]. case_match; [by left|].
  destruct (parseZTunnelAccessLogFields unmarshal payload) as [f|]; [|by left].
  unfold applyFields. case_decide.
  { destruct (parseZTunnelAddress (srcAddr f)) as [[srcIP p]|]; [|by left].
    case_decide; [by left|]. left. apply cachePeer_mappings. }
  case_decide; [by left|]. case_decide; [by left|].
  destruct (parseZTunnelAddress (srcAddr f)) as [[srcIP sp]|]; [|by left].
  destruct (parseZTunnelAddress (podAddr f)) as [[podIP pp]|]; [|by left].
  case_decide; [by left|]. destruct (HasPrefix podIP "127.") eqn:Hl; [by left|].
  unfold applyOutbound. cbn [snd fst]. cbv zeta.
  destruct (ec_Get now (buildSrcOnlyCacheKey srcIP sp) _) eqn:Hg;
    cbn [ipMappingCache set_logSeen set_ipMapping set_counters] in *;
    rewrite cacheDst_mappings in *; [by left|].
  right. exists srcIP, sp, podIP, pp. by split_and!.
Qed.

(** The access log only fills gaps.  Handling a line, whatever it is, leaves a
    mapping that is live in the cache as it is, for all times; and a mapping that
    appears is an outbound one for a destination that is not a loopback address. *)
Theorem access_log_fills_gaps now t cutoff line key (z : Col) :
  now ≤ t →
  let z' := snd (handleAccessLogLine unmarshal parse_time now cutoff line z) in
  (is_Some (ec_Get now key (ipMappingCache z)) →
   ec_Get t key (ipMappingCache z') = ec_Get t key (ipMappingCache z)) ∧
  ∀ a, ec_Get t key (ipMappingCache z') = Some a →
    ec_Get t key (ipMappingCache z) = Some a ∨
    lb_IP a ≠ "" ∧ HasPrefix (lb_IP a) "127." = false ∧ From a = ZTUNNEL_OUTBOUND_FUNC ∧
    Source a = sourceAccessLog.
Proof.
  intros Ht z'. unfold z'.
  destruct (handleAccessLogLine_mappings now cutoff line z)
    as [->|(srcIP & sp & podIP & pp & Hne & Hl & _ & Hg & ->)]; [split; [done|by left]|]. split.
  - intros Hs. apply ec_Get_Set_ne. intros ->. rewrite Hg in Hs. by destruct Hs.
  - intros a [Ha|[-> ->]]%ec_Get_Set_cases; [by left| |done]. by right.
Qed.
End line_effects.

Lemma access_log_fills_gaps_witness :
  let line := "2026-01-01T00:00:00Z stdout F x" +:+ tab +:+ "access" +:+ tab +:+
    "connection complete src.addr=10.0.0.1:4000 dst.hbone_addr=10.1.2.3:8080 direction=outbound" +:+
    newline in
  let z' := snd (handleAccessLogLine (λ _, None) (λ _, None) 0 None line ZSample.col) in
  ec_Get 0 (buildSrcOnlyCacheKey "10.0.0.1" 4000) (ipMappingCache z') =
    Some (MkLoadBalanceAddress "10.1.2.3" 8080 ZTUNNEL_OUTBOUND_FUNC sourceAccessLog) ∧
  HasPrefix "10.1.2.3" "127." = false.
Proof.
  intros line z'. assert (H : ec_Get 0 (buildSrcOnlyCacheKey "10.0.0.1" 4000) (ipMappingCache z') =
    Some (MkLoadBalanceAddress "10.1.2.3" 8080 ZTUNNEL_OUTBOUND_FUNC sourceAccessLog))
    by (vm_compute; reflexivity).
  split; [exact H|].
  destruct (access_log_fills_gaps (λ _, None) (λ _, None) 0 0 None line
    (buildSrcOnlyCacheKey "10.0.0.1" 4000) ZSample.col ltac:(lia)) as [_ H2].
  destruct (H2 _ H) as [Hz|(_ & Hl & _)]; [discriminate Hz|exact Hl].
Defined.
