(* ===== verification/Buffer.v ===== *)
(** * The socket data buffer

    Models src/pkg/tools/buffer/buffer.go: the ordered list of socket data
    chunks of one connection and direction, the reading position in it, the
    details of the same data, slices and their combination, expiration.

    - [SocketDataBuffer]: a chunk, an event of the BPF program or a limited view
      of another chunk; [BufferData] is a Go slice of the event's array, and an
      out-of-range re-slice is a panic.
    - [Buffer]: the fields of the struct.  List elements have identities, and a
      [Position] holds an element, so an element that was removed from the list
      has no successor, as in container/list.  Identities of new elements come
      from the caller.  The lock has no counterpart: every method is one step.
      [sync.Pool] recycling of chunk arrays has no counterpart either.
    - [heap]: buffers by reference, for the operations that follow
      [originalBuffer] ([Slice], [CombineSlices], [BuildDetails], [DeleteDetails]).

    The abstract state of a reader is the byte stream in front of it
    ([readable]); the reading operations are shown to refine it. *)

From stdpp Require Import base gmap list sorting.
From Stdlib Require Import ZArith Lia.
From S2P Require Import Prelude Events.

(** ** Chunks *)

Inductive SocketDataBuffer : Type :=
| Upload (e : SocketDataUploadEvent)
| SocketDataEventLimited (b : SocketDataBuffer) (From Size : Z).

(** The event a chunk is a view of: the methods [SocketDataEventLimited] does not
    override are the embedded chunk's. *)
Fixpoint event_of (b : SocketDataBuffer) : SocketDataUploadEvent :=
  match b with
  | Upload e => e
  | SocketDataEventLimited b _ _ => event_of b
  end.

Fixpoint BufferData (b : SocketDataBuffer) : option (slice Z) :=
  match b with
  | Upload e => data_BufferData e
  | SocketDataEventLimited b From Size => d ← BufferData b; reslice d From Size
  end.

Definition BufferLen (b : SocketDataBuffer) : Z :=
  match b with
  | Upload e => DataLen e
  | SocketDataEventLimited _ From Size => Size - From
  end.

Definition BufferStartPosition (b : SocketDataBuffer) : Z :=
  match b with
  | Upload _ => 0
  | SocketDataEventLimited _ From _ => From
  end.

Definition DataID (b : SocketDataBuffer) : Z := DataID0 (event_of b).
Definition PrevDataID (b : SocketDataBuffer) : Z := PrevDataID0 (event_of b).
Definition DataSequence (b : SocketDataBuffer) : Z := Sequence0 (event_of b).
Definition IsStart (b : SocketDataBuffer) : bool := data_IsStart (event_of b).
Definition IsFinished (b : SocketDataBuffer) : bool := data_IsFinished (event_of b).
Definition HaveReduceDataAfterChunk (b : SocketDataBuffer) : bool :=
  data_HaveReduceDataAfterChunk (event_of b).
Definition StartTime (b : SocketDataBuffer) : Z := StartTime0 (event_of b).

Notation SocketDataDetail := SocketDetailEvent.
Definition detail_DataID (d : SocketDataDetail) : Z := detail_DataID0 d.
Definition detail_Time (d : SocketDataDetail) : Z := detail_StartTime d.

(** ** The buffer *)

Notation chunk := (elem SocketDataBuffer).

Record Position : Type := MkPosition {
  element : option chunk;
  bufIndex : Z
}.

Record DataIDRange : Type := MkDataIDRange {
  From : Z;
  To : Z;
  IsToBufferReadFinished : bool
}.

Record Buffer : Type := MkBuffer {
  dataEvents : list chunk;
  detailEvents : list SocketDataDetail;
  validated : bool;
  shouldResetPosition : bool;
  head : option Position;
  current : option Position;
  latestExpiredDataID : Z;
  originalBuffer : option positive;
  endPosition : option Position
}.

Definition set_dataEvents (l : list chunk) (r : Buffer) : Buffer :=
  MkBuffer l (detailEvents r) (validated r) (shouldResetPosition r) (head r) (current r)
    (latestExpiredDataID r) (originalBuffer r) (endPosition r).
Definition set_detailEvents (l : list SocketDataDetail) (r : Buffer) : Buffer :=
  MkBuffer (dataEvents r) l (validated r) (shouldResetPosition r) (head r) (current r)
    (latestExpiredDataID r) (originalBuffer r) (endPosition r).
Definition set_shouldResetPosition (b : bool) (r : Buffer) : Buffer :=
  MkBuffer (dataEvents r) (detailEvents r) (validated r) b (head r) (current r)
    (latestExpiredDataID r) (originalBuffer r) (endPosition r).
Definition set_head (p : option Position) (r : Buffer) : Buffer :=
  MkBuffer (dataEvents r) (detailEvents r) (validated r) (shouldResetPosition r) p (current r)
    (latestExpiredDataID r) (originalBuffer r) (endPosition r).
Definition set_current (p : option Position) (r : Buffer) : Buffer :=
  MkBuffer (dataEvents r) (detailEvents r) (validated r) (shouldResetPosition r) (head r) p
    (latestExpiredDataID r) (originalBuffer r) (endPosition r).
Definition set_latestExpiredDataID (z : Z) (r : Buffer) : Buffer :=
  MkBuffer (dataEvents r) (detailEvents r) (validated r) (shouldResetPosition r) (head r)
    (current r) z (originalBuffer r) (endPosition r).

Inductive read_error : Type := EOF | ErrNotComplete | OutOfFuel.

(** Methods that return no error. *)
Notation method A := (act Buffer read_error A).

Definition NewBuffer : Buffer := MkBuffer [] [] false false None None 0 None None.

(** ** Positions *)

Definition position_value (p : Position) : option SocketDataBuffer := evalue <$> element p.
Definition position_DataID (p : Position) : option Z := DataID <$> position_value p.
Definition position_PrevDataID (p : Position) : option Z := PrevDataID <$> position_value p.
Definition position_Seq (p : Position) : option Z := DataSequence <$> position_value p.

(** [r.current.bufIndex == r.current.element.Value.BufferLen()] *)
Definition position_finished (p : Position) : option bool :=
  v ← position_value p; Some (bufIndex p =? BufferLen v).

(** [r.Position()]: a clone of the current position; nil panics. *)
Definition Position_ : method Position := r ← get; lift (must (current r)).

Definition IsCurrentPacketReadFinished : method bool :=
  r ← get; p ← lift (must (current r)); lift (must (position_finished p)).

Definition nextElement (r : Buffer) (e : chunk) : option chunk := next_of (dataEvents r) (eid e).

(** The elements a loop over [Next] visits from [e] on: a removed element is
    visited and has no successor. *)
Definition elems_from (l : list chunk) (e : option chunk) : list chunk :=
  match e with
  | None => []
  | Some e => match suffix_from l (eid e) with [] => [e] | l' => l' end
  end.

Definition Clean : method unit :=
  modify (λ r, MkBuffer [] [] (validated r) (shouldResetPosition r) None None
                 (latestExpiredDataID r) (originalBuffer r) None).

Definition ResetForLoopReading (r : Buffer) : Buffer := set_current None (set_head None r).

Definition PrepareForReading : method bool :=
  r ← get;
  if decide (dataEvents r = []) then mret false
  else
    let r := if shouldResetPosition r
             then set_shouldResetPosition false (ResetForLoopReading r) else r in
    let h := match head r with
             | Some (MkPosition (Some e) i) => MkPosition (Some e) i
             | _ => MkPosition (list.head (dataEvents r)) 0
             end in
    _ ← put (set_current (Some h) (set_head (Some h) r));
    mret true.

(** ** Reading

    A read into a byte array of length [plen] returns the bytes it copied. *)

(** Move the current position: [r.current.element = e; r.current.bufIndex = i]. *)
Definition move_current (e : option chunk) (i : Z) (r : Buffer) : Buffer :=
  set_current (Some (MkPosition e i)) r.

Definition ReadFromCurrent (plen : Z) : method (chunk * list Z) :=
  r ← get;
  p ← lift (must (current r));
  e ← lift (must (element p));
  let residueSize := BufferLen (evalue e) - bufIndex p in
  if decide (0 < residueSize) then
    let readLen := if decide (residueSize < plen) then residueSize else plen in
    d ← lift (must (BufferData (evalue e) ≫= λ d, reslice d (bufIndex p) (bufIndex p + readLen)));
    _ ← put (move_current (Some e) (bufIndex p + readLen) r);
    mret (e, elems d)
  else mret (e, []).

Definition read0 (currentElement : chunk) (plen : Z) : method (list Z) :=
  let n := BufferLen (evalue currentElement) in
  let readLen := if decide (n < plen) then n else plen in
  d ← lift (must (BufferData (evalue currentElement) ≫= λ d, reslice d 0 readLen));
  _ ← modify (move_current (Some currentElement) readLen);
  mret (elems d).

(** The next chunk may be read after the current one, whose reading position is
    [index]: both belong to the same data in sequence order, or a finished data is
    followed by the start of another, or the same chunk continues. *)
Definition shouldRead (valid : bool) (curEvent nextEvent : SocketDataBuffer) (index : Z) : bool :=
  valid ||
  ((DataID curEvent =? DataID nextEvent) && (DataSequence curEvent + 1 =? DataSequence nextEvent)) ||
  (IsStart nextEvent && IsFinished curEvent) ||
  ((DataID curEvent =? DataID nextEvent) && (DataSequence curEvent =? DataSequence nextEvent) &&
   (index <=? BufferStartPosition nextEvent)).

Definition Read (plen : Z) : method (list Z) :=
  if decide (plen = 0) then mret []
  else
    r ← get;
    match current r with
    | Some (MkPosition (Some _) index) =>
      '(e, bytes) ← ReadFromCurrent plen;
      if decide (bytes ≠ []) then mret bytes
      else
        match nextElement r e with
        | None => raise EOF
        | Some next =>
          if shouldRead (validated r) (evalue e) (evalue next) index
          then read0 next plen
          else raise ErrNotComplete
        end
    | _ => raise EOF
    end.

(** The loop of [Peek]: [p[readIndex:]] receives the bytes, so they concatenate. *)
Fixpoint peek_loop (fuel : nat) (plen : Z) : method (list Z) :=
  if decide (plen ≤ 0) then mret []
  else
    match fuel with
    | O => raise OutOfFuel
    | S fuel =>
      bytes ← Read plen;
      rest ← peek_loop fuel (plen - Z.of_nat (length bytes));
      mret (bytes ++ rest)
    end.

(** A read loop advances by a byte or by an element in every iteration. *)
Definition read_fuel (r : Buffer) (plen : Z) : nat := Z.to_nat plen + length (dataEvents r) + 1.

Definition Peek (plen : Z) : method (list Z) := λ r,
  match current r with
  | None => (Panic, r)
  | Some tmpPosition =>
    let '(result, r') := peek_loop (read_fuel r plen) plen r in
    (result, set_current (Some tmpPosition) r')
  end.

(** The loop of [ReadUntilBufferFull] on the array [data]: every read starts at
    the front of the array, [data[:reduceLen]]. *)
Fixpoint full_loop (fuel : nat) (data : list Z) (reduceLen : Z) : method (list Z) :=
  if decide (reduceLen ≤ 0) then mret data
  else
    match fuel with
    | O => raise OutOfFuel
    | S fuel =>
      bytes ← Read reduceLen;
      full_loop fuel (bytes ++ drop (length bytes) data) (reduceLen - Z.of_nat (length bytes))
    end.

Definition ReadUntilBufferFull (data : list Z) : method (list Z) := λ r,
  let plen := Z.of_nat (length data) in
  full_loop (read_fuel r plen) data plen r.

(** ** Moving a position *)

Fixpoint offset_loop (fuel : nat) (l : list chunk) (forward : bool) (curEle : option chunk)
    (curIndex offset : Z) : option Position :=
  match fuel, curEle with
  | S fuel, Some e =>
    let nextElement := if forward then next_of l (eid e) else prev_of l (eid e) in
    let bufferLen := BufferLen (evalue e) in
    if decide (0 ≤ curIndex + offset < bufferLen) then
      Some (MkPosition (Some e) (curIndex + offset))
    else if decide (0 < offset) then
      offset_loop fuel l forward nextElement 0 (offset - (bufferLen - curIndex))
    else
      match nextElement with
      | None => None
      | Some _ => offset_loop fuel l forward nextElement bufferLen (offset + curIndex)
      end
  | _, _ => None
  end.

Definition OffsetPosition (offset : Z) : method (option Position) :=
  r ← get;
  p ← lift (must (current r));
  if decide (offset = 0) then mret (Some p)
  else mret (offset_loop (S (length (dataEvents r))) (dataEvents r) (bool_decide (0 < offset))
               (element p) (bufIndex p) offset).

(** ** Sizes and lookups *)

(** [Len] takes every element for as long as the head's. *)
Definition Len (r : Buffer) : Z :=
  match head r with
  | Some (MkPosition (Some e) startIndex) =>
      foldl (λ acc _, acc + BufferLen (evalue e)) (- startIndex)
        (elems_from (dataEvents r) (Some e))
  | _ => 0
  end.

Definition data_size (r : Buffer) (h : Position) : Z :=
  match elems_from (dataEvents r) (element h) with
  | [] => 0
  | e :: l => foldl (λ acc e, acc + BufferLen (evalue e)) (BufferLen (evalue e) - bufIndex h) l
  end.

(** [DataSize] prepares a buffer that is not being read, and resets it after. *)
Definition DataSize : method Z :=
  r ← get;
  match head r with
  | Some h => mret (data_size r h)
  | None =>
    ok ← PrepareForReading;
    if ok : bool then
      r ← get;
      h ← lift (must (head r));
      _ ← modify ResetForLoopReading;
      mret (data_size r h)
    else mret 0
  end.

Definition FindFirstDataBuffer (r : Buffer) (dataID : Z) : option SocketDataBuffer :=
  evalue <$> list.head (filter (λ e, DataID (evalue e) = dataID) (dataEvents r)).

Definition FirstSocketBuffer (r : Buffer) : option SocketDataBuffer :=
  evalue <$> list.head (dataEvents r).
Definition LastSocketBuffer (r : Buffer) : option SocketDataBuffer :=
  evalue <$> last (dataEvents r).
Definition TotalBuffer (r : Buffer) : list SocketDataBuffer := evalue <$> dataEvents r.
Definition DataLength (r : Buffer) : Z := Z.of_nat (length (dataEvents r)).

Definition DetectNotSendingLastPosition (r : Buffer) : option Position :=
  e ← list.head (filter (λ e, IsFinished (evalue e) && HaveReduceDataAfterChunk (evalue e) = true)
                   (dataEvents r));
  Some (MkPosition (Some e) (BufferLen (evalue e))).

Definition BuildTotalDataIDRange (r : Buffer) : res read_error (option DataIDRange) :=
  if decide (dataEvents r = []) then Ok None
  else
    e ← must (match endPosition r with Some p => Some p | None => current r end);
    toIndex ← must (position_DataID e);
    finished ← must (position_finished e);
    h ← must (head r);
    from ← must (position_DataID h);
    Ok (Some (MkDataIDRange from toIndex finished)).

(** ** Removing what was read *)

(** The detail loop of [RemoveReadElements]: deletion starts at the first detail
    inside the data ids that were read and stops behind the last of them. *)
Fixpoint remove_details (first last : Z) (startDelete : bool) (l : list SocketDataDetail)
  : list SocketDataDetail :=
  match l with
  | [] => []
  | d :: l' =>
    if negb startDelete && (first <=? detail_DataID d) && (detail_DataID d <=? last) then
      remove_details first last true l'
    else if startDelete && (last <? detail_DataID d) then l
    else if startDelete then remove_details first last true l'
    else d :: remove_details first last false l'
  end.

(** The element loop: remove from [next] up to the current element.  Returns the
    list, the element it stopped at, and whether anything was removed. *)
Fixpoint remove_until (fuel : nat) (l : list chunk) (next cur : option chunk) (moved : bool)
  : list chunk * option chunk * bool :=
  match fuel, next with
  | S fuel, Some e =>
    if decide (eid <$> cur = Some (eid e)) then (l, next, moved)
    else remove_until fuel (remove_id (eid e) l) (next_of l (eid e)) cur true
  | _, _ => (l, next, moved)
  end.

Definition remove_read_details (r : Buffer) (h c : Position) : list SocketDataDetail :=
  match element h, element c with
  | Some he, Some ce =>
    let firstDataID := DataID (evalue he) in
    let lastDataID := DataID (evalue ce) in
    if (firstDataID =? lastDataID) && negb (BufferLen (evalue ce) =? bufIndex c)
    then detailEvents r
    else remove_details firstDataID lastDataID false (detailEvents r)
  | _, _ => detailEvents r
  end.

Definition RemoveReadElements (includeDetails : bool) : method bool :=
  r ← get;
  h ← lift (must (head r));
  c ← lift (must (current r));
  let r := if includeDetails then set_detailEvents (remove_read_details r h c) r else r in
  let '(l, next, moved) :=
    remove_until (S (length (dataEvents r))) (dataEvents r) (element h) (element c) false in
  let r := set_dataEvents l r in
  match next with
  | Some e =>
    if decide (BufferLen (evalue e) = bufIndex c) then
      _ ← put (set_head (Some (MkPosition (next_of l (eid e)) 0))
                 (set_dataEvents (remove_id (eid e) l) r));
      mret false
    else
      _ ← put (set_head (Some (MkPosition (if moved then Some e else element h) (bufIndex c))) r);
      mret false
  | None =>
    if moved then _ ← put r; mret true
    else _ ← put (set_head (Some (MkPosition (element h) (bufIndex c))) r); mret false
  end.

Definition SkipCurrentElement : method bool :=
  r ← get;
  c ← lift (must (current r));
  h ← lift (must (head r));
  let next := element c ≫= nextElement r in
  _ ← put (set_current (Some (MkPosition (element c) 0))
             (set_head (Some (MkPosition next (bufIndex h))) r));
  mret (match next with None => true | Some _ => false end).

(** ** Appending in order *)

(** The insertion scan: before the first element that [after] holds of, at the
    back when there is none. *)
Fixpoint insert_scan {A} (after : A → bool) (x : A) (l : list A) : list A :=
  match l with
  | [] => [x]
  | y :: l' => if after y then x :: l else y :: insert_scan after x l'
  end.

Definition AppendDetailEvent (event : SocketDataDetail) (r : Buffer) : Buffer :=
  set_detailEvents
    (match last (detailEvents r) with
     | None => [event]
     | Some b =>
       if detail_DataID b <? detail_DataID event then detailEvents r ++ [event]
       else insert_scan (λ x, detail_DataID event <? detail_DataID x) event (detailEvents r)
     end) r.

(** An existing chunk that the scan puts [event] in front of. *)
Definition chunk_after (event : SocketDataBuffer) (x : chunk) : bool :=
  (DataID event <? DataID (evalue x)) ||
  ((DataID (evalue x) =? DataID event) && (DataSequence event <? DataSequence (evalue x))).

(** [id] is the identity of the element that holds the new chunk. *)
Definition AppendDataEvent (id : positive) (event : SocketDataBuffer) : method unit :=
  r ← get;
  let x := Elem id event in
  let r' :=
    match last (dataEvents r) with
    | None => set_shouldResetPosition true (set_dataEvents [x] r)
    | Some b =>
      if DataID (evalue b) <? DataID event then set_dataEvents (dataEvents r ++ [x]) r
      else set_dataEvents (insert_scan (chunk_after event) x (dataEvents r)) r
    end in
  _ ← put r';
  match current r' with
  | None => mret tt
  | Some c =>
    did ← lift (must (position_DataID c));
    if DataID event <? did then put (set_shouldResetPosition true r') else mret tt
  end.

(** [Merge]: the new elements get the identities [id], [id + 1], ... *)
Fixpoint merge_data (id : positive) (l : list SocketDataBuffer) : method unit :=
  match l with
  | [] => mret tt
  | b :: l' => _ ← AppendDataEvent id b; merge_data (Pos.succ id) l'
  end.

Definition Merge (id : positive) (other : option Buffer) : method unit :=
  match other with
  | None => mret tt
  | Some other =>
    _ ← merge_data id (evalue <$> dataEvents other);
    modify (λ r, foldl (λ r d, AppendDetailEvent d r) r (detailEvents other))
  end.

(** ** Expiration *)

(** Delete from the front while [checker] agrees, threading the state it writes. *)
Fixpoint deleteEventsWithJudgement {S A} (checker : S → A → bool * S) (s : S) (l : list A)
  : list A * Z * S :=
  match l with
  | [] => ([], 0, s)
  | x :: l' =>
    let '(del, s') := checker s x in
    if del : bool then
      let '(rest, count, s'') := deleteEventsWithJudgement checker s' l' in
      (rest, count + 1, s'')
    else (l, 0, s')
  end.

(** [host.Time]: the wall clock, in nanoseconds, of a BPF timestamp. *)
Definition host_Time (bootTime bpfTime : Z) : Z := bootTime + i64 bpfTime.

Definition data_expired (bootTime expireTime : Z) (latest : Z) (e : chunk) : bool * Z :=
  if host_Time bootTime (StartTime (evalue e)) <? expireTime
  then (true, DataID (evalue e)) else (false, latest).

Definition detail_expired (bootTime expireTime latest : Z) (d : SocketDataDetail) : bool :=
  ((0 <? latest) && (detail_DataID d <=? latest)) ||
  ((0 <? detail_Time d) && (host_Time bootTime (detail_Time d) <? expireTime)).

Definition DeleteExpireEvents (bootTime now expireDuration : Z) (r : Buffer) : Z * Buffer :=
  let expireTime := now - expireDuration in
  let '(data, n, latest) :=
    deleteEventsWithJudgement (data_expired bootTime expireTime) (latestExpiredDataID r)
      (dataEvents r) in
  let '(details, m, _) :=
    deleteEventsWithJudgement (λ (_ : unit) d, (detail_expired bootTime expireTime latest d, tt)) tt
      (detailEvents r) in
  (n + m, set_detailEvents details (set_dataEvents data (set_latestExpiredDataID latest r))).

(** ** Buffers by reference *)

Record heap : Type := MkHeap {
  buffers : gmap positive Buffer;
  fresh : positive
}.

(** Elements of a new list with consecutive identities from [id]. *)
Fixpoint number (id : positive) (l : list SocketDataBuffer) : list chunk :=
  match l with
  | [] => []
  | b :: l' => Elem id b :: number (Pos.succ id) l'
  end.

(** Allocate a buffer over new elements for [values]; it starts at [index] of its
    first element. *)
Definition alloc (values : list SocketDataBuffer) (valid : bool) (index : Z)
    (original : option positive) (endp : option Position) (h : heap) : heap * positive :=
  let l := number (fresh h) values in
  let loc := (fresh h + Pos.of_succ_nat (length values))%positive in
  let p := MkPosition (list.head l) index in
  (MkHeap (<[loc := MkBuffer l [] valid false (Some p) (Some p) 0 original endp]> (buffers h))
     (Pos.succ loc), loc).

(** The elements of a walk that come before the element [id]. *)
Fixpoint walk_to (id : positive) (l : list chunk) : list chunk :=
  match l with
  | [] => []
  | e :: l' => if decide (eid e = id) then [] else e :: walk_to id l'
  end.

(** The chunks of [Slice]: whole chunks up to the end element, and the limited one. *)
Definition slice_values (r : Buffer) (start endp : Position) : option (list SocketDataBuffer) :=
  e ← element endp;
  Some ((evalue <$> walk_to (eid e) (elems_from (dataEvents r) (element start)))
        ++ [SocketDataEventLimited (evalue e) 0 (bufIndex endp)]).

Notation heap_op A := (act heap read_error A).

Definition deref (loc : positive) : heap_op Buffer := h ← get; lift (must (buffers h !! loc)).

Definition Slice (self : positive) (valid : bool) (start endp : Position) : heap_op positive :=
  r ← deref self;
  values ← lift (must (slice_values r start endp));
  h ← get;
  let '(h', loc) := alloc values valid (bufIndex start) (Some self) (Some endp) h in
  _ ← put h';
  mret loc.

(** The chunks one buffer contributes to a combination: its list, the first chunk
    cut at the head's index. *)
Definition combine_values (b : Buffer) : option (list SocketDataBuffer) :=
  match head b with
  | None => Some []
  | Some h =>
    if decide (0 < bufIndex h) then
      match dataEvents b with
      | [] => None
      | e :: l => Some (SocketDataEventLimited (evalue e) (bufIndex h) (BufferLen (evalue e))
                          :: (evalue <$> l))
      end
    else Some (evalue <$> dataEvents b)
  end.

Fixpoint combine_all (bs : list (option Buffer)) : option (list SocketDataBuffer) :=
  match bs with
  | [] => Some []
  | None :: bs => combine_all bs
  | Some b :: bs => v ← combine_values b; rest ← combine_all bs; Some (v ++ rest)
  end.

(** The end position of the last buffer that is not nil; [Position] on a buffer
    that is not being read panics. *)
Definition combine_end (bs : list (option Buffer)) : res read_error (option Position) :=
  match list.head (reverse (omap id bs)) with
  | None => Ok None
  | Some b =>
    match endPosition b with
    | Some p => Ok (Some p)
    | None => p ← must (current b); Ok (Some p)
    end
  end.

Definition deref_opt (o : option positive) : heap_op (option Buffer) :=
  match o with
  | None => mret None
  | Some loc => b ← deref loc; mret (Some b)
  end.

Fixpoint deref_all (os : list (option positive)) : heap_op (list (option Buffer)) :=
  match os with
  | [] => mret []
  | o :: os => b ← deref_opt o; bs ← deref_all os; mret (b :: bs)
  end.

Definition CombineSlices (valid : bool) (original : option positive) (bufs : list (option positive))
  : heap_op (option positive) :=
  match bufs with
  | [] => mret None
  | [b] => mret b
  | _ =>
    bs ← deref_all bufs;
    values ← lift (must (combine_all bs));
    endp ← lift (combine_end bs);
    h ← get;
    let '(h', loc) := alloc values valid 0 original endp h in
    _ ← put h';
    mret (Some loc)
  end.

(** ** Details of a data range *)

Definition in_range (from to : Z) (d : SocketDataDetail) : bool :=
  (from <=? detail_DataID d) && (detail_DataID d <=? to).

Definition BuildDetails (self : positive) : heap_op (list SocketDataDetail) :=
  r ← deref self;
  match originalBuffer r with
  | None => mret (detailEvents r)
  | Some o =>
    hd ← lift (must (head r));
    fromDataID ← lift (must (position_DataID hd));
    e ← lift (must (match endPosition r with Some p => Some p | None => current r end));
    endDataID ← lift (must (position_DataID e));
    original ← deref o;
    mret (filter (λ d, in_range fromDataID endDataID d = true) (detailEvents original))
  end.

Definition IsIncludeAllDetails (i : DataIDRange) (l : list SocketDataDetail) : bool :=
  bool_decide (l ≠ []) && forallb (in_range (From i) (To i)) l.

Definition DataIDRange_Append (i other : DataIDRange) : DataIDRange :=
  MkDataIDRange (if From other <? From i then From other else From i)
    (if To i <? To other then To other else To i)
    (IsToBufferReadFinished other).

(** The loop of [DeleteDetails] over one list: it stops at the last data id when
    that data is not read to its end. *)
Fixpoint delete_range (i : DataIDRange) (l : list SocketDataDetail) : list SocketDataDetail :=
  match l with
  | [] => []
  | d :: l' =>
    if in_range (From i) (To i) d then
      if negb (IsToBufferReadFinished i) && (detail_DataID d =? To i) then l
      else delete_range i l'
    else d :: delete_range i l'
  end.

(** The loop on the buffer's own list. *)
Definition delete_own (i : DataIDRange) (self : positive) : heap_op unit :=
  r ← deref self;
  modify (λ h, MkHeap (<[self := set_detailEvents (delete_range i (detailEvents r)) r]>
                         (buffers h)) (fresh h)).

(** [DeleteDetails] follows the chain of original buffers first. *)
Fixpoint DeleteDetails (fuel : nat) (i : DataIDRange) (self : positive) : heap_op unit :=
  match fuel with
  | O => raise OutOfFuel
  | S fuel =>
    r ← deref self;
    _ ← match originalBuffer r with
        | Some o => DeleteDetails fuel i o
        | None => mret tt
        end;
    delete_own i self
  end.

(** ** Specification: the byte stream in front of a reader *)

Definition bytes (b : SocketDataBuffer) : list Z :=
  match BufferData b with Some d => elems d | None => [] end.

(** A chunk whose length is inside its array, and limits inside the chunk. *)
Fixpoint wf_chunk (b : SocketDataBuffer) : Prop :=
  match b with
  | Upload e => 0 ≤ DataLen e ≤ Z.of_nat (length (BufferBytes e))
  | SocketDataEventLimited b From Size => wf_chunk b ∧ 0 ≤ From ≤ Size ∧ Size ≤ BufferLen b
  end.

(** The bytes a reader can take from the front of [l] before it must stop. *)
Fixpoint chain (valid : bool) (l : list chunk) : list Z :=
  match l with
  | [] => []
  | e :: l' =>
    bytes (evalue e) ++
    match l' with
    | [] => []
    | e' :: _ => if shouldRead valid (evalue e) (evalue e') (BufferLen (evalue e))
                 then chain valid l' else []
    end
  end.

(** Why it stops. *)
Fixpoint chain_end (valid : bool) (l : list chunk) : read_error :=
  match l with
  | [] => EOF
  | e :: l' =>
    match l' with
    | [] => EOF
    | e' :: _ => if shouldRead valid (evalue e) (evalue e') (BufferLen (evalue e))
                 then chain_end valid l' else ErrNotComplete
    end
  end.

Definition ahead (r : Buffer) : list chunk :=
  match current r with
  | Some (MkPosition (Some e) _) => suffix_from (dataEvents r) (eid e)
  | _ => []
  end.

Definition readable (r : Buffer) : list Z :=
  match current r with
  | Some p => drop (Z.to_nat (bufIndex p)) (chain (validated r) (ahead r))
  | None => []
  end.

Definition read_end (r : Buffer) : read_error := chain_end (validated r) (ahead r).

(** A buffer that is being read: the current position is inside an element of
    the list. *)
Record reading (r : Buffer) (e : chunk) (i : Z) (post : list chunk) : Prop := {
  rd_list : ∃ pre, dataEvents r = pre ++ e :: post;
  rd_unique : unique (dataEvents r);
  rd_wf : Forall (λ x, wf_chunk (evalue x)) (dataEvents r);
  rd_current : current r = Some (MkPosition (Some e) i);
  rd_index : 0 ≤ i ≤ BufferLen (evalue e)
}.

(** Only the current position differs. *)
Definition moved (r r' : Buffer) : Prop := ∃ p, r' = set_current p r.

(** ** Lemmas on chunks *)

Lemma reslice_inside {A} (d : slice A) lo hi :
  (s_len d ≤ length (s_arr d))%nat → 0 ≤ lo ≤ hi → hi ≤ Z.of_nat (s_len d) →
  ∃ d', reslice d lo hi = Some d' ∧ (s_len d' ≤ length (s_arr d'))%nat ∧
    Z.of_nat (s_len d') = hi - lo ∧
    elems d' = take (Z.to_nat (hi - lo)) (drop (Z.to_nat lo) (elems d)).
Proof.
  intros Hcap Hlo Hhi. unfold reslice. rewrite decide_True by lia.
  eexists. split; [done|]. simpl. rewrite length_drop. split_and!; [lia|lia|].
  unfold elems. simpl. rewrite skipn_firstn_comm, take_take. f_equal. lia.
Qed.

Lemma wf_data b :
  wf_chunk b →
  ∃ d, BufferData b = Some d ∧ (s_len d ≤ length (s_arr d))%nat ∧
    Z.of_nat (s_len d) = BufferLen b ∧ 0 ≤ BufferLen b.
Proof.
  induction b as [e|b IH f s]; simpl.
  - intros H. unfold data_BufferData.
    destruct (reslice_inside (whole (BufferBytes e)) 0 (DataLen e)) as (d & -> & ? & ? & _);
      simpl; [lia|lia|lia|]. exists d. split_and!; [done|done|lia|lia].
  - intros (Hb & H1 & H2). destruct (IH Hb) as (d & -> & ? & ? & ?). simpl.
    destruct (reslice_inside d f s) as (d' & -> & ? & ? & _); [lia|lia|lia|].
    exists d'. split_and!; [done|done|lia|lia].
Qed.

Lemma wf_length b : wf_chunk b → Z.of_nat (length (bytes b)) = BufferLen b.
Proof.
  intros (d & Hd & Hl & Hn & _)%wf_data. unfold bytes. rewrite Hd.
  by rewrite length_elems.
Qed.

(** A re-slice of a chunk's data is the same part of its bytes. *)
Lemma wf_reslice b lo hi :
  wf_chunk b → 0 ≤ lo ≤ hi → hi ≤ BufferLen b →
  ∃ d, (BufferData b ≫= λ d, reslice d lo hi) = Some d ∧
    elems d = take (Z.to_nat (hi - lo)) (drop (Z.to_nat lo) (bytes b)).
Proof.
  intros (d & Hd & Hl & Hn & ?)%wf_data Hlo Hhi. unfold bytes. rewrite Hd. simpl.
  destruct (reslice_inside d lo hi) as (d' & -> & _ & _ & He); [done|lia|lia|by eauto].
Qed.

Lemma limited_bytes b f s :
  wf_chunk (SocketDataEventLimited b f s) →
  bytes (SocketDataEventLimited b f s) = take (Z.to_nat (s - f)) (drop (Z.to_nat f) (bytes b)).
Proof.
  intros (Hb & ? & ?). unfold bytes at 1. simpl.
  by destruct (wf_reslice b f s) as (d & -> & ->).
Qed.

(** ** Lemmas on reading *)

(** Run a method up to its first test. *)
Ltac run := repeat (progress (autorewrite with act; cbn [must element bufIndex])).

Lemma reading_ahead r e i post : reading r e i post → ahead r = e :: post.
Proof.
  intros [[pre Hl] Hu _ Hc _]. unfold ahead. rewrite Hc, Hl. rewrite Hl in Hu.
  by apply suffix_from_mid.
Qed.

Lemma reading_next r e i post : reading r e i post → nextElement r e = list.head post.
Proof.
  intros [[pre Hl] Hu _ _ _]. unfold nextElement. rewrite Hl in *. by apply next_of_mid.
Qed.

Lemma reading_wf r e i post :
  reading r e i post → wf_chunk (evalue e) ∧ Forall (λ x, wf_chunk (evalue x)) post.
Proof.
  intros [[pre Hl] _ Hwf _ _]. rewrite Hl in Hwf.
  apply Forall_app in Hwf as [_ Hwf]. by apply Forall_cons in Hwf.
Qed.

Lemma reading_readable r e i post :
  reading r e i post → readable r = drop (Z.to_nat i) (chain (validated r) (e :: post)).
Proof.
  intros H. unfold readable. by rewrite (reading_ahead _ _ _ _ H), (rd_current _ _ _ _ H).
Qed.

(** Moving inside the current element, or to the next one. *)
Lemma reading_move r e i post j :
  reading r e i post → 0 ≤ j ≤ BufferLen (evalue e) →
  reading (move_current (Some e) j r) e j post.
Proof. intros [? ? ? ? ?] ?. by split. Qed.

Lemma reading_advance r e i e' post j :
  reading r e i (e' :: post) → 0 ≤ j ≤ BufferLen (evalue e') →
  reading (move_current (Some e') j r) e' j post.
Proof.
  intros [[pre Hl] ? ? ? ?] ?. split; try done. exists (pre ++ [e]). simpl.
  by rewrite <- (assoc_L (++)).
Qed.

Lemma reading_moved r r' e i post : reading r e i post → moved r r' → dataEvents r' = dataEvents r.
Proof. by intros _ [p ->]. Qed.

(** Reading at the end of an element: what is readable lies behind it. *)
Lemma readable_exhausted r e post :
  reading r e (BufferLen (evalue e)) post →
  readable r = match post with
               | [] => []
               | e' :: _ => if shouldRead (validated r) (evalue e) (evalue e') (BufferLen (evalue e))
                            then chain (validated r) post else []
               end.
Proof.
  intros H. rewrite (reading_readable _ _ _ _ H).
  pose proof (reading_wf _ _ _ _ H) as [Hwf _]. pose proof (wf_length _ Hwf) as Hlen.
  simpl. rewrite drop_app_ge by lia.
  replace (Z.to_nat _ - length _)%nat with 0%nat by lia. by destruct post.
Qed.

Lemma ReadFromCurrent_inside r e i post n :
  reading r e i post → 0 < n → i < BufferLen (evalue e) →
  ∃ k, k = n `min` (BufferLen (evalue e) - i) ∧
  ReadFromCurrent n r =
    (Ok (e, take (Z.to_nat k) (drop (Z.to_nat i) (bytes (evalue e)))),
     move_current (Some e) (i + k) r).
Proof.
  intros H Hn Hi. pose proof (reading_wf _ _ _ _ H) as [Hwf _].
  pose proof (rd_index _ _ _ _ H). eexists. split; [done|].
  unfold ReadFromCurrent. run. rewrite (rd_current _ _ _ _ H).
  run. rewrite decide_True by lia.
  set (k := if decide _ then _ else _).
  assert (k = n `min` (BufferLen (evalue e) - i)) as <- by (unfold k; case_decide; lia).
  assert (0 ≤ k ≤ BufferLen (evalue e) - i) by (unfold k; case_decide; lia).
  destruct (wf_reslice (evalue e) i (i + k)) as (d & Hd & Hel); [done|lia|lia|].
  rewrite Hd. run. rewrite Hel. by replace (i + k - i) with k by lia.
Qed.

Lemma ReadFromCurrent_exhausted r e post n :
  reading r e (BufferLen (evalue e)) post → ReadFromCurrent n r = (Ok (e, []), r).
Proof.
  intros H. unfold ReadFromCurrent. run. rewrite (rd_current _ _ _ _ H).
  run. by rewrite decide_False by lia.
Qed.

Lemma read0_spec r e n :
  wf_chunk (evalue e) → 0 < n →
  read0 e n r = (Ok (take (Z.to_nat (n `min` BufferLen (evalue e))) (bytes (evalue e))),
                 move_current (Some e) (n `min` BufferLen (evalue e)) r).
Proof.
  intros Hwf Hn. destruct (wf_data _ Hwf) as (_ & _ & _ & _ & ?).
  unfold read0. cbn zeta.
  replace (if decide (BufferLen (evalue e) < n) then BufferLen (evalue e) else n)
    with (n `min` BufferLen (evalue e)) by (case_decide; lia).
  destruct (wf_reslice (evalue e) 0 (n `min` BufferLen (evalue e))) as (d & Hd & Hel);
    [done|lia|lia|]. rewrite Hd. run. by rewrite Hel, Z.sub_0_r.
Qed.

Lemma readable_inside r e i post k :
  reading r e i post → 0 ≤ k → i + k ≤ BufferLen (evalue e) →
  readable r = take (Z.to_nat k) (drop (Z.to_nat i) (bytes (evalue e))) ++
               readable (move_current (Some e) (i + k) r).
Proof.
  intros H Hk Hik. pose proof (rd_index _ _ _ _ H).
  assert (H' : reading (move_current (Some e) (i + k) r) e (i + k) post)
    by (apply (reading_move _ _ i); [done|lia]).
  rewrite (reading_readable _ _ _ _ H), (reading_readable _ _ _ _ H').
  pose proof (reading_wf _ _ _ _ H) as [Hlen%wf_length _]. simpl.
  rewrite !drop_app_le by lia. rewrite (assoc_L (++)). f_equal.
  rewrite <- (take_drop (Z.to_nat k) (drop (Z.to_nat i) _)) at 1. f_equal.
  rewrite drop_drop. f_equal. lia.
Qed.

Lemma read_end_move r e i post e' i' post' :
  reading r e i post → reading (move_current (Some e') i' r) e' i' post' →
  chain_end (validated r) (e' :: post') = chain_end (validated r) (e :: post) →
  read_end (move_current (Some e') i' r) = read_end r.
Proof.
  intros H H' He. unfold read_end.
  by rewrite (reading_ahead _ _ _ _ H), (reading_ahead _ _ _ _ H').
Qed.

Lemma Read_inside r e i post n :
  reading r e i post → 0 < n → i < BufferLen (evalue e) →
  ∃ k, k = n `min` (BufferLen (evalue e) - i) ∧
  Read n r = (Ok (take (Z.to_nat k) (drop (Z.to_nat i) (bytes (evalue e)))),
              move_current (Some e) (i + k) r) ∧
  Z.of_nat (length (take (Z.to_nat k) (drop (Z.to_nat i) (bytes (evalue e))))) = k.
Proof.
  intros H Hn Hi. pose proof (reading_wf _ _ _ _ H) as [Hlen%wf_length _].
  pose proof (rd_index _ _ _ _ H).
  destruct (ReadFromCurrent_inside _ _ _ _ _ H Hn Hi) as (k & Hk & Hr). exists k.
  assert (Hl : Z.of_nat (length (take (Z.to_nat k) (drop (Z.to_nat i) (bytes (evalue e))))) = k)
    by (rewrite length_take, length_drop; lia).
  split_and!; [done| |done].
  unfold Read. rewrite decide_False by lia. run.
  rewrite (rd_current _ _ _ _ H), (bind_ok _ _ _ _ _ Hr). rewrite decide_True; [done|].
  intros E. rewrite E in Hl. simpl in Hl. lia.
Qed.

Lemma Read_exhausted r e post n :
  reading r e (BufferLen (evalue e)) post → 0 < n →
  Read n r = match post with
             | [] => (Err EOF, r)
             | e' :: _ => if shouldRead (validated r) (evalue e) (evalue e') (BufferLen (evalue e))
                          then read0 e' n r else (Err ErrNotComplete, r)
             end.
Proof.
  intros H Hn. unfold Read. rewrite decide_False by lia. run.
  rewrite (rd_current _ _ _ _ H), (bind_ok _ _ _ _ _ (ReadFromCurrent_exhausted _ _ _ _ H)).
  rewrite decide_False by naive_solver. rewrite (reading_next _ _ _ _ H).
  destruct post as [|e' post]; simpl; [done|]. by destruct (shouldRead _ _ _ _).
Qed.

(** What one read does: it takes a prefix of what is readable and advances, or
    nothing is readable and it reports why. *)
Lemma Read_step r e i post n :
  reading r e i post → 0 < n →
  (∃ bs e' i' post', Read n r = (Ok bs, move_current (Some e') i' r) ∧
     reading (move_current (Some e') i' r) e' i' post' ∧
     readable r = bs ++ readable (move_current (Some e') i' r) ∧
     read_end (move_current (Some e') i' r) = read_end r ∧
     Z.of_nat (length bs) ≤ n ∧
     (bs ≠ [] ∧ post' = post ∧ Z.of_nat (length bs) = n `min` (BufferLen (evalue e) - i) ∨
      i = BufferLen (evalue e) ∧ post = e' :: post')) ∨
  (readable r = [] ∧ Read n r = (Err (read_end r), r)).
Proof.
  intros H Hn. pose proof (rd_index _ _ _ _ H).
  destruct (decide (i < BufferLen (evalue e))) as [Hi|Hi].
  - left. destruct (Read_inside _ _ _ _ _ H Hn Hi) as (k & Hk & Hr & Hl).
    set (bs := take _ _) in *.
    assert (reading (move_current (Some e) (i + k) r) e (i + k) post)
      by (apply (reading_move _ _ i); [done|lia]).
    exists bs, e, (i + k), post. split_and!; [done|done| | |lia|].
    + apply (readable_inside _ _ _ post); [done|lia|lia].
    + by eapply read_end_move.
    + left. split_and!; [|done|lia]. intros E. rewrite E in Hl. simpl in Hl. lia.
  - assert (i = BufferLen (evalue e)) as -> by lia.
    rewrite (Read_exhausted _ _ _ _ H Hn), (readable_exhausted _ _ _ H).
    unfold read_end. rewrite (reading_ahead _ _ _ _ H).
    destruct post as [|e' post]; [by right|]. cbn [chain_end].
    destruct (shouldRead _ _ _ _) eqn:Hsr; [|by right]. left.
    pose proof (reading_wf _ _ _ _ H) as [_ [Hwf' _]%Forall_cons].
    destruct (wf_data _ Hwf') as (_ & _ & _ & _ & ?).
    pose proof (wf_length _ Hwf') as Hl'.
    set (k := n `min` BufferLen (evalue e')).
    assert (Hz : reading (move_current (Some e') 0 r) e' 0 post)
      by (eapply reading_advance; [done|lia]).
    assert (Hk : reading (move_current (Some e') k r) e' k post)
      by (eapply reading_advance; [done|lia]).
    exists (take (Z.to_nat k) (bytes (evalue e'))), e', k, post.
    split_and!; [by rewrite read0_spec|done| | |rewrite length_take; lia|by right].
    + pose proof (readable_inside _ _ _ _ k Hz) as Hin. rewrite drop_0 in Hin.
      rewrite (reading_readable _ _ _ _ Hz) in Hin. simpl Z.to_nat in Hin.
      rewrite drop_0 in Hin. apply Hin; lia.
    + unfold read_end. by rewrite (reading_ahead _ _ _ _ Hk).
Qed.

(** The result of a loop that wants [n] bytes in front of [r]. *)
Definition wants (r : Buffer) (n : Z) (out : list Z → Prop) (res' : res read_error (list Z) * Buffer)
  : Prop :=
  ∃ e' i' post', reading (snd res') e' i' post' ∧ snd res' = move_current (Some e') i' r ∧
  if decide (n ≤ Z.of_nat (length (readable r)))
  then ∃ d, fst res' = Ok d ∧ out d ∧ readable (snd res') = drop (Z.to_nat n) (readable r)
  else fst res' = Err (read_end r).

Lemma wants_zero r e i post n (out : list Z → Prop) d :
  reading r e i post → n ≤ 0 → out d → wants r n out (Ok d, r).
Proof.
  intros H Hn Ho. exists e, i, post. split_and!; [done| |].
  - simpl. unfold move_current. rewrite <- (rd_current _ _ _ _ H). by destruct r.
  - rewrite decide_True by lia. exists d. split_and!; [done|done|].
    by replace (Z.to_nat n) with 0%nat by lia.
Qed.

Lemma wants_stop r e i post n out :
  reading r e i post → 0 < n → readable r = [] → wants r n out (Err (read_end r), r).
Proof.
  intros H Hn He. exists e, i, post. split_and!; [done| |].
  - simpl. unfold move_current. rewrite <- (rd_current _ _ _ _ H). by destruct r.
  - by rewrite decide_False by (rewrite He; simpl; lia).
Qed.

(** A loop continues from the state a read left. *)
Lemma wants_step r e i n bs (out out' : list Z → Prop) res' :
  let r' := move_current e i r in
  readable r = bs ++ readable r' → read_end r' = read_end r → Z.of_nat (length bs) ≤ n →
  (∀ d, out' d → out d) →
  wants r' (n - Z.of_nat (length bs)) out' res' → wants r n out res'.
Proof.
  intros r' Hr Hend Hl Hout (e1 & i1 & post1 & H1 & Hs & Hcase).
  exists e1, i1, post1. split_and!; [done| |].
  - rewrite Hs. done.
  - rewrite Hr, length_app. rewrite Hend in Hcase.
    destruct (decide (n - _ ≤ _)); [rewrite decide_True by lia|by rewrite decide_False by lia].
    destruct Hcase as (d & ? & ? & Hd). exists d. split_and!; [done|by apply Hout|].
    rewrite Hd, drop_app_ge by lia. f_equal. lia.
Qed.

Lemma fuel_step fuel (e : chunk) i n post (bs : list Z) e' (post' : list chunk) :
  (Z.to_nat n + length post < S fuel)%nat → 0 < n → Z.of_nat (length bs) ≤ n →
  (bs ≠ [] ∧ post' = post ∧ Z.of_nat (length bs) = n `min` (BufferLen (evalue e) - i) ∨
   i = BufferLen (evalue e) ∧ post = e' :: post') →
  (Z.to_nat (n - Z.of_nat (length bs)) + length post' < fuel)%nat.
Proof.
  intros Hf Hn Hl [(Hb & -> & _)|[_ ->]]; simpl in *; [|lia].
  destruct bs; [done|]. simpl in *. lia.
Qed.

Lemma peek_loop_spec fuel r e i post n :
  reading r e i post → (Z.to_nat n + length post < fuel)%nat →
  wants r n (λ d, d = take (Z.to_nat n) (readable r)) (peek_loop fuel n r).
Proof.
  revert r e i post n. induction fuel as [|fuel IH]; intros r e i post n H Hf; [lia|].
  cbn [peek_loop]. case_decide as Hn.
  { eapply wants_zero; [done|done|]. by replace (Z.to_nat n) with 0%nat by lia. }
  destruct (Read_step r e i post n) as [Hstep|[He Hr]]; [done|lia|..]; last first.
  { rewrite (bind_err _ _ _ _ _ Hr). by eapply wants_stop; [done|lia|]. }
  destruct Hstep as (bs & e' & i' & post' & Hr & H' & Hrd & Hend & Hl & Hdec).
  rewrite (bind_ok _ _ _ _ _ Hr).
  specialize (IH _ _ _ _ (n - Z.of_nat (length bs)) H').
  destruct IH as (e1 & i1 & post1 & H1 & Hs & Hcase); [by eapply fuel_step; [done|lia|..]|].
  destruct (peek_loop fuel _ _) as [[d|er|] r1] eqn:Hp; simpl in *.
  - rewrite (bind_ok _ _ _ _ _ Hp). run.
    eapply (wants_step _ _ _ _ bs _ (λ d', d' = bs ++ d)); [exact Hrd|done|done|..].
    + intros d' ->. destruct (decide _) in Hcase; [|done].
      destruct Hcase as (d0 & [= <-] & -> & _).
      rewrite Hrd, take_app_ge by lia. f_equal. f_equal. lia.
    + exists e1, i1, post1. split_and!; [done|done|]. destruct (decide _); [|done].
      destruct Hcase as (d0 & [= <-] & _ & ?). eauto.
  - rewrite (bind_err _ _ _ _ _ Hp).
    eapply (wants_step _ _ _ _ bs _ (λ _, False)); [exact Hrd|done|done|done|].
    exists e1, i1, post1. split_and!; [done|done|]. destruct (decide _); [naive_solver|done].
  - destruct (decide _); [naive_solver|done].
Qed.

Lemma full_loop_spec fuel r e i post n data :
  reading r e i post → (Z.to_nat n + length post < fuel)%nat →
  wants r n (λ _, True) (full_loop fuel data n r).
Proof.
  revert r e i post n data. induction fuel as [|fuel IH]; intros r e i post n data H Hf; [lia|].
  cbn [full_loop]. case_decide as Hn; [by eapply wants_zero|].
  destruct (Read_step r e i post n) as [Hstep|[He Hr]]; [done|lia|..]; last first.
  { rewrite (bind_err _ _ _ _ _ Hr). by eapply wants_stop; [done|lia|]. }
  destruct Hstep as (bs & e' & i' & post' & Hr & H' & Hrd & Hend & Hl & Hdec).
  rewrite (bind_ok _ _ _ _ _ Hr).
  eapply (wants_step _ _ _ _ bs _ (λ _, True)); [exact Hrd|done|done|done|].
  eapply IH; [done|]. by eapply fuel_step; [done|lia|..].
Qed.

Lemma reading_fuel r e i post n :
  reading r e i post → (Z.to_nat n + length post < read_fuel r n)%nat.
Proof.
  intros [[pre Hl] _ _ _ _]. unfold read_fuel. rewrite Hl, length_app. simpl. lia.
Qed.

(** ** Properties of reading *)

(** [Peek] refines the byte stream.  On a buffer that is being read, it
    returns exactly the first [n] bytes in front of the reader when that many can
    be read, across as many chunks as it takes; otherwise it reports why reading
    stops (the end of the data, or a gap in it).  The position does not move, and
    the loop always ends. *)
Theorem Peek_refines_stream r e i post n :
  reading r e i post →
  Peek n r = (if decide (n ≤ Z.of_nat (length (readable r)))
              then Ok (take (Z.to_nat n) (readable r)) else Err (read_end r), r).
Proof.
  intros H. unfold Peek. rewrite (rd_current _ _ _ _ H).
  destruct (peek_loop_spec (read_fuel r n) r e i post n H) as (e1 & i1 & post1 & _ & Hs & Hc);
    [by eapply reading_fuel|].
  destruct (peek_loop _ _ _) as [out r1]. simpl in *. f_equal.
  - case_decide; [by destruct Hc as (d & -> & -> & _)|done].
  - rewrite Hs. unfold move_current, set_current. simpl.
    rewrite <- (rd_current _ _ _ _ H). by destruct r.
Qed.

(** Chunks of three consecutive parts of one data, for the examples. *)
Definition sample_event (dataID seq fin : Z) (b : list Z) : SocketDataUploadEvent :=
  MkSocketDataUploadEvent 1 0 1 fin seq (Z.of_nat (length b)) (1000 * dataID) 0 0 0 dataID
    (dataID - 1) (Z.of_nat (length b)) b.

Definition sample_chunk (id : positive) (dataID seq fin : Z) (b : list Z) : chunk :=
  Elem id (Upload (sample_event dataID seq fin b)).

Definition sample_list : list chunk :=
  [sample_chunk 1 5 0 0 [97; 98]; sample_chunk 2 5 1 0 [99; 100];
   sample_chunk 3 5 2 1 [101; 102; 103]].

Definition sample_buffer (i : Z) : Buffer :=
  let p := Some (MkPosition (list.head sample_list) i) in
  MkBuffer sample_list [] false false p p 0 None None.

Lemma sample_reading i : 0 ≤ i ≤ 2 →
  reading (sample_buffer i) (sample_chunk 1 5 0 0 [97; 98]) i
    [sample_chunk 2 5 1 0 [99; 100]; sample_chunk 3 5 2 1 [101; 102; 103]].
Proof.
  intros Hi. split; [by exists []| | |done|simpl; lia].
  - apply (bool_decide_unpack _). vm_compute. exact I.
  - repeat constructor; simpl; lia.
Qed.

Lemma Peek_refines_stream_witness :
  Peek 5 (sample_buffer 1) = (Ok [98; 99; 100; 101; 102], sample_buffer 1) ∧
  Peek 9 (sample_buffer 1) = (Err EOF, sample_buffer 1).
Proof.
  split; (rewrite (Peek_refines_stream _ _ _ _ _ (sample_reading 1 ltac:(lia)));
          vm_compute; reflexivity).
Defined.

(** [ReadUntilBufferFull] succeeds exactly when the bytes are available and
    then moves the reader over exactly that many bytes; otherwise it reports why
    reading stops.  When the current chunk holds them all the array is filled with
    them. *)
Theorem ReadUntilBufferFull_position r e i post data :
  reading r e i post →
  let n := Z.of_nat (length data) in
  let '(out, r') := ReadUntilBufferFull data r in
  if decide (n ≤ Z.of_nat (length (readable r))) then
    readable r' = drop (length data) (readable r) ∧
    (∃ d, out = Ok d ∧ (n ≤ BufferLen (evalue e) - i → d = take (length data) (readable r)))
  else out = Err (read_end r).
Proof.
  intros H n. unfold ReadUntilBufferFull. fold n.
  pose proof (full_loop_spec (read_fuel r n) r e i post n data H) as Hw.
  destruct (decide (0 < n ≤ BufferLen (evalue e) - i)) as [Hin|Hout].
  - clear Hw. assert (Hi : i < BufferLen (evalue e)) by lia.
    destruct (Read_inside _ _ _ _ n H (proj1 Hin) Hi) as (k & Hk & Hr & Hl).
    pose proof (readable_inside _ _ _ _ k H) as Hrd.
    assert (k = n) as -> by lia. set (bs := take _ _) in *.
    assert (length bs = length data) as Hlen by lia.
    replace (read_fuel r n) with (S (S (Z.to_nat n + length (dataEvents r) - 1)))
      by (unfold read_fuel; lia).
    cbn [full_loop]. rewrite decide_False by lia. rewrite (bind_ok _ _ _ _ _ Hr).
    rewrite decide_True by lia. rewrite act_ret_run, Hlen, drop_all, app_nil_r.
    rewrite Hrd, length_app by lia. rewrite decide_True by lia.
    split; [rewrite drop_app_ge by lia; by replace (length data - length bs)%nat with 0%nat by lia|].
    exists bs. split; [done|]. intros _. by rewrite take_app_le, take_ge by lia.
  - destruct Hw as (e1 & i1 & post1 & _ & _ & Hc); [by eapply reading_fuel|].
    destruct (full_loop _ _ _ _) as [out r1] eqn:Hf. simpl in *.
    case_decide; [|done]. destruct Hc as (d & -> & _ & Hrd). unfold n in Hrd.
    rewrite Nat2Z.id in Hrd. split; [done|]. exists d. split; [done|]. intros ?.
    assert (n ≤ 0) by (pose proof (rd_index _ _ _ _ H); lia). destruct data; [|simpl in *; lia].
    by destruct (read_fuel r n); injection Hf as <- <-.
Qed.

Lemma ReadUntilBufferFull_position_witness :
  let '(out, r') := ReadUntilBufferFull [0; 0] (sample_buffer 0) in
  readable r' = [99; 100; 101; 102; 103] ∧ out = Ok [97; 98].
Proof.
  pose proof (ReadUntilBufferFull_position _ _ _ _ [0; 0] (sample_reading 0 ltac:(lia))) as H.
  vm_compute in H |- *. destruct H as [H1 (d & H2 & H3)]. split; [exact H1|].
  rewrite H2, H3; [reflexivity|]. discriminate.
Defined.

(** four operations deviate from the stream.  Across a chunk boundary
    [ReadUntilBufferFull] starts again at the front of the array, so it overwrites
    the first chunk's bytes and never writes the tail.  [Len] counts the head's
    length once per chunk: seven bytes in three chunks are six.  Skipping the
    current chunk keeps the head's index, so a byte of the next chunk is never read.
    [OffsetPosition] moving back over a chunk boundary takes the length of the chunk
    it leaves for the length of the one it enters: forward by four and back by four
    is off by one. *)
Example reading_deviations :
  (fst (ReadUntilBufferFull [0; 0; 0; 0] (sample_buffer 0)) = Ok [99; 100; 0; 0] ∧
   fst (Peek 4 (sample_buffer 0)) = Ok [97; 98; 99; 100]) ∧
  (Len (sample_buffer 0) = 6 ∧ fst (DataSize (sample_buffer 0)) = Ok 7) ∧
  (let '(_, r1) := SkipCurrentElement (sample_buffer 1) in
   let '(_, r2) := PrepareForReading r1 in
   fst (Peek 1 r2) = Ok [100]) ∧
  (fst (OffsetPosition 4 (move_current (sample_list !! 1%nat) 0 (sample_buffer 0))) =
     Ok (Some (MkPosition (last sample_list) 2)) ∧
   fst (OffsetPosition (-4) (move_current (last sample_list) 2 (sample_buffer 0))) =
     Ok (Some (MkPosition (sample_list !! 1%nat) 1))).
Proof. vm_compute. repeat split; reflexivity. Qed.
