(* ===== verification/BufferOrder.v ===== *)
(** * The socket data buffer: order, removal, slices

    The theorems on the operations of Buffer.v that change the lists: appended
    events stay ordered by data id and sequence (and the fast path of the append
    agrees with the scan), expiration drops the longest expired prefix, removing
    what was read keeps the stream, a slice and the rest make up the stream, a
    combination is the concatenation of its parts. *)

From stdpp Require Import base gmap list sorting.
From Stdlib Require Import ZArith Lia.
From S2P Require Import Prelude Events Buffer.

(** ** Specification *)

(** The order of the chunk list: data id first, then the sequence. *)
Definition chunk_le (x y : chunk) : Prop :=
  DataID (evalue x) < DataID (evalue y) ∨
  DataID (evalue x) = DataID (evalue y) ∧ DataSequence (evalue x) ≤ DataSequence (evalue y).

Definition detail_le (x y : SocketDataDetail) : Prop := detail_DataID x ≤ detail_DataID y.

Record buffer_inv (r : Buffer) : Prop := {
  bi_unique : unique (dataEvents r);
  bi_data : StronglySorted chunk_le (dataEvents r);
  bi_details : StronglySorted detail_le (detailEvents r)
}.

(** The operations of a buffer that change it in place.  New chunks come in elements
    that are not in the list. *)
Inductive buffer_step : Buffer → Buffer → Prop :=
| step_append_data id ev r :
    id ∉ eid <$> dataEvents r → buffer_step r (snd (AppendDataEvent id ev r))
| step_append_detail d r : buffer_step r (AppendDetailEvent d r)
| step_merge id other r :
    (∀ k, (id ≤ k)%positive → k ∉ eid <$> dataEvents r) → buffer_step r (snd (Merge id other r))
| step_expire boot now d r : buffer_step r (snd (DeleteExpireEvents boot now d r))
| step_remove inc r : buffer_step r (snd (RemoveReadElements inc r))
| step_skip r : buffer_step r (snd (SkipCurrentElement r))
| step_prepare r : buffer_step r (snd (PrepareForReading r))
| step_read n r : buffer_step r (snd (Read n r))
| step_peek n r : buffer_step r (snd (Peek n r))
| step_full data r : buffer_step r (snd (ReadUntilBufferFull data r))
| step_reset r : buffer_step r (ResetForLoopReading r)
| step_size r : buffer_step r (snd (DataSize r))
| step_clean r : buffer_step r (snd (Clean r)).

(** The operations on a store of buffers that change some of them: one operates on itself, or
    the details of a range are deleted from a buffer and from those it was sliced from. *)
Inductive store_step : heap → heap → Prop :=
| store_own loc r r' h :
    buffers h !! loc = Some r → buffer_step r r' →
    store_step h (MkHeap (<[loc := r']> (buffers h)) (fresh h))
| store_delete_details fuel i loc h : store_step h (snd (DeleteDetails fuel i loc h)).

Definition store_inv (h : heap) : Prop := ∀ loc r, buffers h !! loc = Some r → buffer_inv r.

(** A chunk that comes before another one: by data id, then by sequence. *)
Definition comes_before (x y : SocketDataBuffer) : Prop :=
  DataID x < DataID y ∨ DataID x = DataID y ∧ DataSequence x < DataSequence y.

(** The bytes from a position to the end of the list, gaps or not. *)
Definition stream (l : list chunk) (p : Position) : list Z :=
  drop (Z.to_nat (bufIndex p)) (elems_from l (element p) ≫= λ e, bytes (evalue e)).

(** ** Lemmas: ordered insertion *)

Section insert_scan.
Context {A : Type} (R : relation A) `{!Transitive R} (after : A → bool) (x : A).

Lemma insert_scan_perm l : insert_scan after x l ≡ₚ x :: l.
Proof.
  induction l as [|y l IH]; simpl; [done|]. destruct (after y); [done|].
  rewrite IH. apply Permutation_swap.
Qed.

Lemma insert_scan_sorted l :
  (∀ y, y ∈ l → if after y then R x y else R y x) →
  StronglySorted R l → StronglySorted R (insert_scan after x l).
Proof.
  intros Hx Hs. induction Hs as [|y l Hs IH Hall]; simpl; [by repeat constructor|].
  pose proof (Hx y ltac:(left)) as Hy. destruct (after y).
  - constructor; [by constructor|]. constructor; [done|].
    eapply Forall_impl; [done|]. intros z ?. by etrans.
  - constructor; [apply IH; intros z Hz; apply Hx; by right|].
    rewrite insert_scan_perm. by constructor.
Qed.

Lemma insert_scan_back l :
  (∀ y, y ∈ l → after y = false) → insert_scan after x l = l ++ [x].
Proof.
  induction l as [|y l IH]; intros H; simpl; [done|].
  rewrite (H y) by left. f_equal. apply IH. intros z ?. apply H. by right.
Qed.

(** In a sorted list nothing lies behind the last element. *)
Lemma sorted_last l b y :
  StronglySorted R l → last l = Some b → y ∈ l → y = b ∨ R y b.
Proof.
  induction 1 as [|z l Hs IH Hall]; [done|]. rewrite last_cons.
  destruct (last l) as [b'|] eqn:Hl.
  - intros [= ->] [->|Hy]%elem_of_cons; [|by apply IH]. right.
    rewrite Forall_forall in Hall. apply Hall. by apply last_Some_elem_of.
  - apply last_None in Hl as ->. intros [= ->] ->%list_elem_of_singleton. by left.
Qed.
End insert_scan.

Global Instance chunk_le_trans : Transitive chunk_le.
Proof. intros x y z [?|[? ?]] [?|[? ?]]; unfold chunk_le; lia. Qed.

Global Instance detail_le_trans : Transitive detail_le.
Proof. intros x y z ? ?. unfold detail_le in *. lia. Qed.

Lemma chunk_after_spec ev id y :
  if chunk_after ev y then chunk_le (Elem id ev) y else chunk_le y (Elem id ev).
Proof.
  unfold chunk_after, chunk_le. simpl.
  destruct (DataID ev <? DataID (evalue y)) eqn:H1; simpl; [lia|].
  destruct (DataID (evalue y) =? DataID ev) eqn:H2; simpl; [|lia].
  destruct (DataSequence ev <? DataSequence (evalue y)) eqn:H3; lia.
Qed.

(** The fast path of the append: behind the last data id is where the scan ends. *)
Lemma append_fast_path ev l b id :
  StronglySorted chunk_le l → last l = Some b → DataID (evalue b) < DataID ev →
  insert_scan (chunk_after ev) (Elem id ev) l = l ++ [Elem id ev].
Proof.
  intros Hs Hl Hlt. apply insert_scan_back. intros y Hy. unfold chunk_after.
  destruct (sorted_last _ _ _ _ Hs Hl Hy) as [->|[?|[? ?]]]; lia.
Qed.

Lemma detail_fast_path ev l b :
  StronglySorted detail_le l → last l = Some b → detail_DataID b < detail_DataID ev →
  insert_scan (λ x, detail_DataID ev <? detail_DataID x) ev l = l ++ [ev].
Proof.
  intros Hs Hl Hlt. apply insert_scan_back. intros y Hy.
  destruct (sorted_last _ _ _ _ Hs Hl Hy) as [->|?]; unfold detail_le in *; lia.
Qed.

Lemma AppendDetailEvent_scan ev r :
  StronglySorted detail_le (detailEvents r) →
  detailEvents (AppendDetailEvent ev r) =
    insert_scan (λ x, detail_DataID ev <? detail_DataID x) ev (detailEvents r).
Proof.
  intros Hs. unfold AppendDetailEvent. simpl.
  destruct (last (detailEvents r)) as [b|] eqn:Hl.
  - destruct (_ <? _) eqn:Hlt; [|done]. by rewrite (detail_fast_path _ _ b) by (done || lia).
  - by apply last_None in Hl as ->.
Qed.

(** The list the append leaves, fast path or scan. *)
Lemma AppendDataEvent_list id ev r :
  StronglySorted chunk_le (dataEvents r) →
  dataEvents (snd (AppendDataEvent id ev r)) =
    insert_scan (chunk_after ev) (Elem id ev) (dataEvents r) ∧
  detailEvents (snd (AppendDataEvent id ev r)) = detailEvents r.
Proof.
  intros Hs. unfold AppendDataEvent. step_act.
  set (r' := match last (dataEvents r) with None => _ | Some _ => _ end).
  assert (dataEvents r' = insert_scan (chunk_after ev) (Elem id ev) (dataEvents r) ∧
          detailEvents r' = detailEvents r) as [H1 H2].
  { unfold r'. destruct (last (dataEvents r)) as [b|] eqn:Hl.
    - destruct (_ <? _) eqn:Hlt; simpl; [|done].
      by rewrite (append_fast_path _ _ b) by (done || lia).
    - by apply last_None in Hl as ->. }
  destruct (current r') as [c|]; [|done]. destruct (position_DataID c); step_act; [|done].
  by destruct (_ <? _).
Qed.

(** ** Lemmas: removal keeps a sublist *)

Lemma sublist_sorted {A} (R : relation A) l k :
  l `sublist_of` k → StronglySorted R k → StronglySorted R l.
Proof.
  induction 1 as [|x l k Hsub IH|x l k Hsub IH]; intros Hs; [constructor| |].
  - apply StronglySorted_inv in Hs as [Hs Hall]. constructor; [by apply IH|].
    rewrite Forall_forall in *. intros y Hy. apply Hall. by eapply elem_of_sublist.
  - apply StronglySorted_inv in Hs as [Hs _]. by apply IH.
Qed.

Lemma sublist_unique (l k : list chunk) : l `sublist_of` k → unique k → unique l.
Proof.
  intros Hs. unfold unique. intros Hn. eapply sublist_NoDup; [exact Hn|].
  clear Hn. induction Hs; simpl; constructor; auto.
Qed.

Lemma buffer_inv_sublist r r' :
  dataEvents r' `sublist_of` dataEvents r → detailEvents r' `sublist_of` detailEvents r →
  buffer_inv r → buffer_inv r'.
Proof.
  intros H1 H2 [? ? ?]. split; [by eapply sublist_unique|by eapply sublist_sorted..].
Qed.

Lemma delete_judged {S A} (checker : S → A → bool * S) (s : S) (l : list A) :
  let '(l', n, s') := deleteEventsWithJudgement checker s l in
  ∃ gone, l = gone ++ l' ∧ n = Z.of_nat (length gone).
Proof.
  revert s. induction l as [|x l IH]; intros s; simpl; [by exists []|].
  destruct (checker s x) as [[] s1]; [|by exists []].
  specialize (IH s1). destruct (deleteEventsWithJudgement _ s1 l) as [[l' n] s2].
  destruct IH as (gone & -> & ->). exists (x :: gone). simpl. split; [done|lia].
Qed.

Lemma remove_until_sublist fuel l next cur moved :
  fst (fst (remove_until fuel l next cur moved)) `sublist_of` l.
Proof.
  revert l next moved. induction fuel as [|fuel IH]; intros l next moved; simpl; [done|].
  destruct next as [e|]; [|done]. case_decide; [done|].
  etrans; [apply IH|]. apply sublist_filter.
Qed.

Lemma remove_details_sublist a b st l : remove_details a b st l `sublist_of` l.
Proof.
  revert st. induction l as [|d l IH]; intros st; simpl; [done|].
  destruct (_ && _); [by constructor|]. destruct (st && _); [done|].
  destruct st; by constructor.
Qed.

Lemma read_details_sublist r h c : remove_read_details r h c `sublist_of` detailEvents r.
Proof.
  unfold remove_read_details. destruct (element h), (element c); try done.
  destruct (_ && _); [done|]. apply remove_details_sublist.
Qed.

Lemma RemoveReadElements_sublist inc r :
  let r' := snd (RemoveReadElements inc r) in
  dataEvents r' `sublist_of` dataEvents r ∧ detailEvents r' `sublist_of` detailEvents r.
Proof.
  unfold RemoveReadElements. step_act.
  destruct (head r) as [h|]; step_act; [|done]. destruct (current r) as [c|]; step_act; [|done].
  set (r1 := if inc then _ else _).
  assert (Hd : dataEvents r1 = dataEvents r) by (unfold r1; by destruct inc).
  assert (Hs : detailEvents r1 `sublist_of` detailEvents r)
    by (unfold r1; destruct inc; [apply read_details_sublist|done]).
  rewrite Hd.
  pose proof (remove_until_sublist (S (length (dataEvents r))) (dataEvents r) (element h)
                (element c) false) as Hl.
  destruct (remove_until _ _ _ _ _) as [[l next] mv]. simpl in Hl.
  destruct next as [e|].
  - case_decide; step_act; simpl; (split; [|done]); [|done].
    etrans; [|exact Hl]. apply sublist_filter.
  - by destruct mv.
Qed.

(** Reading moves the current position only. *)
Lemma Read_lists n r :
  dataEvents (snd (Read n r)) = dataEvents r ∧ detailEvents (snd (Read n r)) = detailEvents r.
Proof.
  unfold Read, ReadFromCurrent, read0. case_decide; [done|].
  explore; done.
Qed.

Lemma SkipCurrentElement_lists r :
  let r' := snd (SkipCurrentElement r) in
  dataEvents r' = dataEvents r ∧ detailEvents r' = detailEvents r.
Proof. unfold SkipCurrentElement. explore; done. Qed.

Lemma PrepareForReading_lists r :
  let r' := snd (PrepareForReading r) in
  dataEvents r' = dataEvents r ∧ detailEvents r' = detailEvents r.
Proof. unfold PrepareForReading. explore; done. Qed.

Lemma DataSize_lists r :
  let r' := snd (DataSize r) in
  dataEvents r' = dataEvents r ∧ detailEvents r' = detailEvents r.
Proof. unfold DataSize, PrepareForReading. explore; done. Qed.

Lemma DeleteExpireEvents_sublist boot now d r :
  let r' := snd (DeleteExpireEvents boot now d r) in
  dataEvents r' `sublist_of` dataEvents r ∧ detailEvents r' `sublist_of` detailEvents r.
Proof.
  unfold DeleteExpireEvents.
  pose proof (delete_judged (data_expired boot (now - d)) (latestExpiredDataID r) (dataEvents r)) as H1.
  destruct (deleteEventsWithJudgement _ _ (dataEvents r)) as [[data n] latest].
  pose proof (delete_judged (λ (_ : unit) d0, (detail_expired boot (now - d) latest d0, tt)) tt
                (detailEvents r)) as H2.
  destruct (deleteEventsWithJudgement _ _ (detailEvents r)) as [[details m] u]. simpl.
  destruct H1 as (g1 & -> & _), H2 as (g2 & -> & _).
  by split; apply sublist_inserts_l.
Qed.

(** ** Lemmas: streams *)

Lemma stream_at pre e post i :
  unique (pre ++ e :: post) →
  stream (pre ++ e :: post) (MkPosition (Some e) i) =
    drop (Z.to_nat i) ((e :: post) ≫= λ x, bytes (evalue x)).
Proof. intros Hu. unfold stream, elems_from. simpl. by rewrite suffix_from_mid. Qed.

Lemma stream_at_cons pre e post i :
  unique (pre ++ e :: post) → wf_chunk (evalue e) → 0 ≤ i ≤ BufferLen (evalue e) →
  stream (pre ++ e :: post) (MkPosition (Some e) i) =
    drop (Z.to_nat i) (bytes (evalue e)) ++ (post ≫= λ x, bytes (evalue x)).
Proof.
  intros Hu Hwf%wf_length Hi. rewrite stream_at by done. simpl.
  by rewrite drop_app_le by lia.
Qed.

Lemma stream_front e post i :
  unique (e :: post) → wf_chunk (evalue e) → 0 ≤ i ≤ BufferLen (evalue e) →
  stream (e :: post) (MkPosition (Some e) i) =
    drop (Z.to_nat i) (bytes (evalue e)) ++ (post ≫= λ x, bytes (evalue x)).
Proof. apply (stream_at_cons []). Qed.

(** The removal loop takes out exactly the elements in front of the current one. *)
Lemma remove_until_run fuel pre w c post moved :
  unique (pre ++ w ++ c :: post) → (length w < fuel)%nat →
  remove_until fuel (pre ++ w ++ c :: post) (list.head (w ++ [c])) (Some c) moved =
    (pre ++ c :: post, Some c, match w with [] => moved | _ => true end).
Proof.
  revert w moved. induction fuel as [|fuel IH]; intros w moved Hu Hf; [lia|].
  destruct w as [|e w]; simpl; [by rewrite decide_True|].
  assert (eid c ≠ eid e) as Hne.
  { apply unique_mid in Hu as (_ & Hall & _).
    rewrite Forall_app, Forall_cons in Hall. tauto. }
  rewrite decide_False by naive_solver.
  simpl in Hu.
  rewrite remove_id_mid by done. rewrite next_of_mid by done.
  apply unique_mid in Hu as (_ & _ & Hu). simpl in Hf.
  replace (list.head (w ++ c :: post)) with (list.head (w ++ [c])) by (by destruct w).
  rewrite IH by (done || lia). by destruct w.
Qed.

(** What [RemoveReadElements] leaves when the head is [w]'s first element, or the
    current one. *)
Lemma RemoveReadElements_run r inc pre w c post i j :
  dataEvents r = pre ++ w ++ c :: post → unique (dataEvents r) →
  head r = Some (MkPosition (list.head (w ++ [c])) j) →
  current r = Some (MkPosition (Some c) i) →
  ∃ r', RemoveReadElements inc r = (Ok false, r') ∧
    if decide (BufferLen (evalue c) = i)
    then dataEvents r' = pre ++ post ∧ head r' = Some (MkPosition (list.head post) 0)
    else dataEvents r' = pre ++ c :: post ∧ head r' = Some (MkPosition (Some c) i).
Proof.
  intros Hl Hu Hh Hc. unfold RemoveReadElements. step_act. rewrite Hh, Hc. step_act.
  set (r1 := if inc then _ else _).
  assert (dataEvents r1 = dataEvents r) as -> by (unfold r1; by destruct inc).
  rewrite Hl in *. cbn [element bufIndex].
  rewrite remove_until_run by (done || rewrite !length_app; simpl; lia).
  assert (Hu' : unique (pre ++ c :: post)).
  { clear -Hu. unfold unique in *. rewrite !fmap_app in *. eapply sublist_NoDup; [exact Hu|].
    apply sublist_app; [done|]. by apply sublist_inserts_l. }
  case_decide; step_act; eexists; (split; [done|]); simpl.
  - by rewrite remove_id_mid, next_of_mid.
  - split; [done|]. by destruct w.
Qed.

(** The chunks between two positions. *)
Lemma walk_to_run pre w c post :
  unique (pre ++ w ++ c :: post) → walk_to (eid c) (w ++ c :: post) = w.
Proof.
  intros Hu%unique_app_r. induction w as [|e w IH]; simpl; [by rewrite decide_True|].
  rewrite decide_False.
  - f_equal. apply IH. by eapply unique_cons_inv.
  - apply (unique_mid []) in Hu as (_ & Hall & _).
    rewrite Forall_app, Forall_cons in Hall. naive_solver.
Qed.

Lemma elems_from_run pre w (c : chunk) post :
  unique (pre ++ w ++ c :: post) →
  elems_from (pre ++ w ++ c :: post) (list.head (w ++ [c])) = w ++ c :: post.
Proof.
  intros Hu. destruct w as [|e w]; simpl; unfold elems_from; by rewrite suffix_from_mid.
Qed.

Lemma slice_values_run r pre w c post i j :
  dataEvents r = pre ++ w ++ c :: post → unique (dataEvents r) →
  slice_values r (MkPosition (list.head (w ++ [c])) i) (MkPosition (Some c) j) =
    Some ((evalue <$> w) ++ [SocketDataEventLimited (evalue c) 0 j]).
Proof.
  intros Hl Hu. unfold slice_values. simpl. rewrite Hl in *.
  by rewrite elems_from_run, (walk_to_run pre) by done.
Qed.

Lemma number_values id l : evalue <$> number id l = l.
Proof. revert id. induction l as [|b l IH]; intros id; simpl; [done|]. by rewrite IH. Qed.

Lemma number_ids id l x : x ∈ number id l → (id ≤ eid x)%positive.
Proof.
  revert id. induction l as [|b l IH]; intros id; simpl; [by intros ?%elem_of_nil|].
  intros [->|Hx]%elem_of_cons; [simpl; lia|]. apply IH in Hx. lia.
Qed.

Lemma number_unique id l : unique (number id l).
Proof.
  revert id. induction l as [|b l IH]; intros id; [constructor|]. simpl. constructor.
  - intros (x & Hx & Hin)%list_elem_of_fmap. apply number_ids in Hin. simpl in *. lia.
  - apply IH.
Qed.

(** The stream of a buffer over new elements is made of the chunks it was given. *)
Lemma stream_number id values i :
  stream (number id values) (MkPosition (list.head (number id values)) i) =
    drop (Z.to_nat i) (values ≫= bytes).
Proof.
  assert (Hv : (number id values ≫= λ x, bytes (evalue x)) = (values ≫= bytes)).
  { revert id. induction values as [|b l IH]; intros id; [done|].
    simpl number. by rewrite !bind_cons, IH. }
  pose proof (number_unique id values) as Hu.
  destruct (number id values) as [|e l] eqn:E; simpl in *.
  - unfold stream. simpl. by rewrite <- Hv, drop_nil.
  - rewrite (stream_at [] e l) by done. by rewrite <- Hv.
Qed.

Lemma alloc_spec values valid i original endp h :
  let '(h', loc) := alloc values valid i original endp h in
  let l := number (fresh h) values in
  let p := Some (MkPosition (list.head l) i) in
  buffers h' !! loc = Some (MkBuffer l [] valid false p p 0 original endp) ∧
  (∀ x, (x < fresh h)%positive → buffers h' !! x = buffers h !! x).
Proof.
  unfold alloc. simpl. split; [apply lookup_insert_eq|].
  intros x Hx. apply lookup_insert_ne. lia.
Qed.

Lemma values_bytes l : ((evalue <$> l) ≫= bytes) = (l ≫= λ x, bytes (evalue x)).
Proof. induction l as [|x l IH]; [done|]. by rewrite fmap_cons, !bind_cons, IH. Qed.

(** The chunks of a slice, followed by what is behind its end. *)
Lemma slice_stream pre w c post i j s :
  unique (pre ++ w ++ c :: post) →
  Forall (λ x, wf_chunk (evalue x)) (pre ++ w ++ c :: post) →
  list.head (w ++ [c]) = Some s → 0 ≤ i ≤ BufferLen (evalue s) →
  0 ≤ j ≤ BufferLen (evalue c) → (w = [] → i ≤ j) →
  stream (pre ++ w ++ c :: post) (MkPosition (Some s) i) =
    drop (Z.to_nat i) (((evalue <$> w) ++ [SocketDataEventLimited (evalue c) 0 j]) ≫= bytes) ++
    stream (pre ++ w ++ c :: post) (MkPosition (Some c) j).
Proof.
  intros Hu Hwf Hs Hi Hj Hij.
  apply Forall_app in Hwf as [_ [Hww [Hwc Hwp]%Forall_cons]%Forall_app].
  assert (He : stream (pre ++ w ++ c :: post) (MkPosition (Some c) j) =
    drop (Z.to_nat j) (bytes (evalue c)) ++ (post ≫= λ x, bytes (evalue x))).
  { rewrite (assoc_L (++)) in *. by apply stream_at_cons. }
  rewrite He, bind_app, values_bytes, bind_singleton.
  rewrite limited_bytes by (simpl; split_and!; done || lia). rewrite Z.sub_0_r, drop_0.
  unfold stream. cbn [element bufIndex]. rewrite <- Hs, elems_from_run by done.
  rewrite bind_app, bind_cons, <- drop_app_le.
  - rewrite <- !(assoc_L (++)), (assoc_L (++) (take _ _)), take_drop. done.
  - pose proof (wf_length _ Hwc). rewrite length_app, length_take.
    destruct w as [|x w]; simpl in Hs; simplify_eq; [specialize (Hij eq_refl); simpl; lia|].
    apply Forall_cons in Hww as [Hx%wf_length _]. rewrite bind_cons, length_app. lia.
Qed.

Lemma foldl_lens (l : list chunk) acc :
  Forall (λ x, wf_chunk (evalue x)) l →
  foldl (λ acc e, acc + BufferLen (evalue e)) acc l =
    acc + Z.of_nat (length (l ≫= λ x, bytes (evalue x))).
Proof.
  intros H. revert acc. induction H as [|x l Hx Hl IH]; intros acc; simpl; [lia|].
  rewrite IH, length_app, Nat2Z.inj_add, (wf_length _ Hx). unfold mbind. lia.
Qed.

(** [data_size] is the length of the stream. *)
Lemma data_size_stream r pre e post i :
  dataEvents r = pre ++ e :: post → unique (dataEvents r) →
  Forall (λ x, wf_chunk (evalue x)) (dataEvents r) → 0 ≤ i ≤ BufferLen (evalue e) →
  data_size r (MkPosition (Some e) i) =
    Z.of_nat (length (stream (dataEvents r) (MkPosition (Some e) i))).
Proof.
  intros Hl Hu Hwf Hi. unfold data_size. rewrite Hl in *. simpl.
  apply Forall_app in Hwf as [_ [He Hp]%Forall_cons].
  rewrite suffix_from_mid by done. rewrite foldl_lens by done.
  rewrite stream_at_cons, length_app, length_drop by done.
  pose proof (wf_length _ He). lia.
Qed.

(** The stream of one part of a combination. *)
Lemma combine_values_stream b e l i :
  dataEvents b = e :: l → unique (dataEvents b) → wf_chunk (evalue e) →
  head b = Some (MkPosition (Some e) i) → 0 ≤ i ≤ BufferLen (evalue e) →
  ∃ values, combine_values b = Some values ∧
    (values ≫= bytes) = stream (dataEvents b) (MkPosition (Some e) i).
Proof.
  intros Hl Hu Hwf Hh Hi. unfold combine_values. rewrite Hh. simpl. rewrite Hl in *.
  rewrite stream_front by done. case_decide; eexists; (split; [done|]).
  - rewrite bind_cons, values_bytes. f_equal. rewrite limited_bytes by (simpl; split_and!; done || lia).
    pose proof (wf_length _ Hwf). rewrite take_ge by (rewrite length_drop; lia). done.
  - rewrite fmap_cons, bind_cons, values_bytes. by replace i with 0 by lia.
Qed.

(** ** Lemmas: the order *)

Lemma AppendDataEvent_inv id ev r :
  id ∉ eid <$> dataEvents r → buffer_inv r → buffer_inv (snd (AppendDataEvent id ev r)).
Proof.
  intros Hid [Hu Hd Hdt]. destruct (AppendDataEvent_list id ev r Hd) as [H1 H2].
  split; [| |by rewrite H2].
  - unfold unique. rewrite H1, insert_scan_perm. by constructor.
  - rewrite H1. apply insert_scan_sorted; [apply _| |done]. intros y _. apply chunk_after_spec.
Qed.

Lemma AppendDetailEvent_inv d r : buffer_inv r → buffer_inv (AppendDetailEvent d r).
Proof.
  intros [Hu Hd Hdt]. split; [done|done|]. rewrite AppendDetailEvent_scan by done.
  apply insert_scan_sorted; [apply _| |done].
  intros y _. unfold detail_le. destruct (_ <? _) eqn:?; lia.
Qed.

Lemma merge_data_inv l id r :
  (∀ k, (id ≤ k)%positive → k ∉ eid <$> dataEvents r) → buffer_inv r →
  buffer_inv (snd (merge_data id l r)).
Proof.
  revert id r. induction l as [|b l IH]; intros id r Hf Hi; [done|]. cbn [merge_data].
  pose proof (AppendDataEvent_inv id b r (Hf id ltac:(lia)) Hi) as Hi1.
  pose proof (proj1 (AppendDataEvent_list id b r (bi_data _ Hi))) as Hl.
  unfold mbind, act_bind. destruct (AppendDataEvent id b r) as [[u|e|] r1]; cbn [snd] in *; [|done..].
  apply IH; [|done]. intros k Hk. rewrite Hl, insert_scan_perm, fmap_cons.
  apply not_elem_of_cons. split; [simpl; lia|]. apply Hf. lia.
Qed.

Lemma Merge_inv id other r :
  (∀ k, (id ≤ k)%positive → k ∉ eid <$> dataEvents r) → buffer_inv r →
  buffer_inv (snd (Merge id other r)).
Proof.
  intros Hf Hi. destruct other as [other|]; [|done]. unfold Merge.
  pose proof (merge_data_inv (evalue <$> dataEvents other) id r Hf Hi) as Hi1.
  unfold mbind, act_bind. destruct (merge_data _ _ r) as [[u|e|] r1]; cbn [snd] in *; [|done..].
  unfold modify. cbn [snd]. revert r1 Hi1.
  induction (detailEvents other) as [|d l IH]; intros r1 Hi1; [done|].
  cbn [foldl]. by apply IH, AppendDetailEvent_inv.
Qed.

(** An operation that leaves both lists as they are. *)
Definition same_lists (r r' : Buffer) : Prop :=
  dataEvents r' = dataEvents r ∧ detailEvents r' = detailEvents r.

Lemma buffer_inv_same r r' : same_lists r r' → buffer_inv r → buffer_inv r'.
Proof. intros [H1 H2]. apply buffer_inv_sublist; by rewrite ?H1, ?H2. Qed.

Lemma peek_loop_lists fuel n r : same_lists r (snd (peek_loop fuel n r)).
Proof.
  revert n r. induction fuel as [|fuel IH]; intros n r; simpl; case_decide; try done.
  unfold mbind, act_bind. pose proof (Read_lists n r) as Hr.
  destruct (Read n r) as [[b|e|] r1]; cbn [snd] in *; [|done..].
  specialize (IH (n - Z.of_nat (length b)) r1).
  destruct (peek_loop _ _ r1) as [[x|e|] r2]; 
    destruct Hr, IH; split; cbn in *; congruence.
Qed.

Lemma full_loop_lists fuel data n r : same_lists r (snd (full_loop fuel data n r)).
Proof.
  revert data n r. induction fuel as [|fuel IH]; intros data n r; simpl; case_decide; try done.
  unfold mbind, act_bind. pose proof (Read_lists n r) as Hr.
  destruct (Read n r) as [[b|e|] r1]; cbn [snd] in *; [|done..].
  specialize (IH (b ++ drop (length b) data) (n - Z.of_nat (length b)) r1).
  destruct Hr, IH. split; congruence.
Qed.

Lemma Peek_lists n r : same_lists r (snd (Peek n r)).
Proof.
  unfold Peek. destruct (current r); [|done].
  pose proof (peek_loop_lists (read_fuel r n) n r) as H. by destruct (peek_loop _ _ r) as [o r'].
Qed.

Lemma buffer_step_inv r r' : buffer_step r r' → buffer_inv r → buffer_inv r'.
Proof.
  intros Hs. destruct Hs; intros Hi.
  - by apply AppendDataEvent_inv.
  - by apply AppendDetailEvent_inv.
  - by apply Merge_inv.
  - eapply buffer_inv_sublist; [apply DeleteExpireEvents_sublist..|done].
  - eapply buffer_inv_sublist; [apply RemoveReadElements_sublist..|done].
  - eapply buffer_inv_same; [apply SkipCurrentElement_lists|done].
  - eapply buffer_inv_same; [apply PrepareForReading_lists|done].
  - eapply buffer_inv_same; [apply Read_lists|done].
  - eapply buffer_inv_same; [apply Peek_lists|done].
  - eapply buffer_inv_same; [apply full_loop_lists|done].
  - by eapply (buffer_inv_same r).
  - eapply buffer_inv_same; [apply DataSize_lists|done].
  - split; simpl; constructor.
Qed.

Lemma delete_range_sublist i l : delete_range i l `sublist_of` l.
Proof.
  induction l as [|d l IH]; simpl; [done|].
  destruct (in_range _ _ _); [|by constructor]. destruct (_ && _); [done|]. by constructor.
Qed.

Lemma delete_own_inv i loc h : store_inv h → store_inv (snd (delete_own i loc h)).
Proof.
  intros Hi. unfold delete_own, deref, mbind, act_bind, get. cbn.
  destruct (buffers h !! loc) as [r|] eqn:Hr; [|done]. cbn. intros l r'. cbn.
  rewrite lookup_insert_Some. intros [[<- <-]|[_ H]]; [|by eapply Hi].
  eapply buffer_inv_sublist; [| |by eapply Hi]; [done|apply delete_range_sublist].
Qed.

Lemma DeleteDetails_inv fuel i loc h : store_inv h → store_inv (snd (DeleteDetails fuel i loc h)).
Proof.
  revert loc h. induction fuel as [|fuel IH]; intros loc h Hi; [done|]. cbn [DeleteDetails].
  assert (Hd : deref loc h = (must (buffers h !! loc), h)) by (unfold deref; by step_act).
  unfold mbind, act_bind. rewrite Hd. destruct (buffers h !! loc) as [r|]; cbn [must]; [|exact Hi].
  destruct (originalBuffer r) as [o|]; [|by apply delete_own_inv].
  specialize (IH o h Hi). destruct (DeleteDetails fuel i o h) as [[u|e|] h1]; [|done..].
  by apply delete_own_inv.
Qed.

(** Where the scan stops: nothing before it comes after the new chunk, everything behind does. *)
Lemma insert_scan_split id ev l :
  StronglySorted chunk_le l →
  ∃ before after, l = before ++ after ∧
    insert_scan (chunk_after ev) (Elem id ev) l = before ++ Elem id ev :: after ∧
    Forall (λ x, ¬ comes_before ev (evalue x)) before ∧
    Forall (λ x, comes_before ev (evalue x)) after.
Proof.
  induction 1 as [|y l Hs IH Hall]; simpl; [by exists [], []|].
  destruct (chunk_after ev y) eqn:Ha.
  - exists [], (y :: l). split_and!; [done..|].
    assert (comes_before ev (evalue y)) as Hy by (unfold chunk_after, comes_before in *; lia).
    constructor; [done|]. eapply Forall_impl; [exact Hall|]. intros z. cbn.
    unfold comes_before, chunk_le in *. lia.
  - destruct IH as (bs & as' & -> & -> & Hb & Hf). exists (y :: bs), as'.
    split_and!; [done..| |done]. constructor; [|done].
    unfold chunk_after, comes_before in *. lia.
Qed.

Lemma shouldResetPosition_same (r : Buffer) l :
  set_shouldResetPosition (shouldResetPosition r) (set_dataEvents l r) = set_dataEvents l r.
Proof. by destruct r. Qed.

(** ** Properties *)

(** C5: the order of every buffer of a store is an invariant.  Element identities stay unique,
    the chunks stay ordered by data id and sequence and the details by data id, whatever
    operation changes a buffer in place, and when details of a range are deleted from a
    buffer and from those it was sliced from. *)
Theorem buffer_inv_preserved h h' : store_inv h → store_step h h' → store_inv h'.
Proof.
  intros Hi Hst. destruct Hst as [loc r r' h Hr Hs|fuel i loc h]; [|by apply DeleteDetails_inv].
  intros l x. cbn. rewrite lookup_insert_Some. intros [[<- <-]|[_ H]]; [|by eapply Hi].
  eapply buffer_step_inv; [done|]. by eapply Hi.
Qed.

Lemma sample_inv i : buffer_inv (sample_buffer i).
Proof.
  split; [| |constructor].
  - apply (bool_decide_unpack _). vm_compute. exact I.
  - repeat first [apply SSorted_cons|apply SSorted_nil|apply Forall_cons_2|apply Forall_nil_2];
      right; (split; [reflexivity|discriminate]).
Qed.

Lemma buffer_inv_preserved_witness :
  let r := snd (AppendDataEvent 9 (Upload (sample_event 4 0 1 [1])) (sample_buffer 0)) in
  store_inv (MkHeap (<[1%positive := r]> {[1%positive := sample_buffer 0]}) 2) ∧
  (eid <$> dataEvents r) = [9; 1; 2; 3]%positive.
Proof.
  split; [|vm_compute; reflexivity].
  apply (buffer_inv_preserved (MkHeap {[1%positive := sample_buffer 0]} 2)).
  - intros l r. cbn. rewrite lookup_singleton_Some. intros [<- <-]. apply sample_inv.
  - eapply store_own; [apply lookup_singleton_eq|].
    apply step_append_data. apply (bool_decide_unpack _). vm_compute. exact I.
Defined.

(** C6: appending a chunk inserts it, and only it, in its place: every chunk in front of it has
    a smaller data id, or the same one and a sequence that is not larger, and every chunk
    behind it has a larger data id, or the same one and a larger sequence.  The reader is
    told to start over when the list was empty or the chunk has a smaller data id than the
    one being read, nothing else changes, and the append panics exactly when the buffer has a
    reading position without an element. *)
Theorem AppendDataEvent_functional id ev r :
  buffer_inv r →
  ∃ before after,
    dataEvents r = before ++ after ∧
    Forall (λ x, ¬ comes_before ev (evalue x)) before ∧
    Forall (λ x, comes_before ev (evalue x)) after ∧
    AppendDataEvent id ev r =
      (match current r with Some (MkPosition None _) => Panic | _ => Ok tt end,
       set_shouldResetPosition
         (shouldResetPosition r || bool_decide (dataEvents r = []) ||
          match current r with
          | Some (MkPosition (Some e) _) => bool_decide (DataID ev < DataID (evalue e))
          | _ => false
          end)
         (set_dataEvents (before ++ Elem id ev :: after) r)).
Proof.
  intros [_ Hs _]. destruct (insert_scan_split id ev _ Hs) as (bs & as' & Hl & Hi & Hb & Ha).
  exists bs, as'. split_and!; [done..|]. rewrite <- Hi. clear Hb Ha Hi.
  unfold AppendDataEvent. step_act.
  set (r' := match last (dataEvents r) with None => _ | Some _ => _ end).
  assert (r' = set_shouldResetPosition (shouldResetPosition r || bool_decide (dataEvents r = []))
      (set_dataEvents (insert_scan (chunk_after ev) (Elem id ev) (dataEvents r)) r)) as ->.
  { unfold r'. destruct (last (dataEvents r)) as [b|] eqn:Hb.
    - rewrite bool_decide_eq_false_2, orb_false_r by (intros E; by rewrite E in Hb).
      rewrite shouldResetPosition_same.
      destruct (_ <? _) eqn:Hlt; [|done]. by rewrite (append_fast_path _ _ b) by (done || lia).
    - apply last_None in Hb as ->. by rewrite bool_decide_eq_true_2, orb_true_r by done. }
  cbn [current set_shouldResetPosition set_dataEvents].
  destruct (current r) as [[[e|] i]|]; step_act; rewrite ?orb_false_r; try done.
  cbn. step_act. destruct (_ <? _) eqn:Hlt.
  - by rewrite (bool_decide_eq_true_2 (_ < _)), orb_true_r by lia.
  - by rewrite (bool_decide_eq_false_2 (_ < _)), orb_false_r by lia.
Qed.

Lemma AppendDataEvent_functional_witness :
  ∃ before after, sample_list = before ++ after ∧
    AppendDataEvent 9 (Upload (sample_event 5 1 1 [1])) (sample_buffer 0) =
    (Ok tt, set_dataEvents (before ++ sample_chunk 9 5 1 1 [1] :: after) (sample_buffer 0)).
Proof.
  destruct (AppendDataEvent_functional 9 (Upload (sample_event 5 1 1 [1])) _ (sample_inv 0))
    as (bs & as' & Hl & _ & _ & H).
  exists bs, as'. split; [exact Hl|]. rewrite H. reflexivity.
Defined.

(** C4: removing what was read neither loses nor repeats a byte: when the head is
    at or before the current element, the next round starts at a position whose
    bytes to the end of the buffer are exactly those in front of the reader, and
    the chunks before it are gone. *)
Theorem RemoveReadElements_stream r inc w c post i j :
  dataEvents r = w ++ c :: post → buffer_inv r →
  Forall (λ x, wf_chunk (evalue x)) (dataEvents r) →
  head r = Some (MkPosition (list.head (w ++ [c])) j) →
  current r = Some (MkPosition (Some c) i) → 0 ≤ i ≤ BufferLen (evalue c) →
  ∃ r' h, RemoveReadElements inc r = (Ok false, r') ∧ head r' = Some h ∧
    stream (dataEvents r') h = stream (dataEvents r) (MkPosition (Some c) i) ∧
    dataEvents r' = (if decide (BufferLen (evalue c) = i) then post else c :: post).
Proof.
  intros Hl [Hu _ _] Hwf Hh Hc Hi.
  destruct (RemoveReadElements_run r inc [] w c post i j) as (r' & Hr & Hcase); [done..|].
  rewrite Hl in *. apply Forall_app in Hwf as [_ [Hwc Hwp]%Forall_cons].
  assert (Hup : unique (c :: post)) by eauto with rover.
  rewrite (stream_at_cons w) by done.
  pose proof (wf_length _ Hwc) as Hlen.
  case_decide as Hd; destruct Hcase as [Hl' Hh']; eexists _, _; (split_and!; [done|done| |done]);
    rewrite Hl'; simpl.
  - rewrite drop_ge by lia. simpl. destruct post as [|e post]; [done|].
    apply (stream_at [] e post 0). by apply (unique_app_r [c]).
  - by rewrite stream_front by done.
Qed.

Lemma RemoveReadElements_stream_witness :
  ∃ r' h, RemoveReadElements true (sample_buffer 1) = (Ok false, r') ∧ head r' = Some h ∧
    stream (dataEvents r') h = [98; 99; 100; 101; 102; 103].
Proof.
  destruct (RemoveReadElements_stream (sample_buffer 1) true []
    (sample_chunk 1 5 0 0 [97; 98])
    [sample_chunk 2 5 1 0 [99; 100]; sample_chunk 3 5 2 1 [101; 102; 103]] 1 1)
    as (r' & h & H1 & H2 & H3 & _);
    [reflexivity|apply sample_inv|repeat constructor; simpl; lia|reflexivity|reflexivity
    |simpl; lia|].
  exists r', h. split; [exact H1|]. split; [exact H2|]. rewrite H3. vm_compute. reflexivity.
Defined.

(** A slice and the rest make up the stream: the bytes of the slice, followed
    by the bytes behind its end, are the bytes behind its start.  The slice is a
    new buffer and the original is not touched. *)
Theorem Slice_splits_stream h self r pre w c post i j valid s :
  buffers h !! self = Some r → (self < fresh h)%positive →
  dataEvents r = pre ++ w ++ c :: post → unique (dataEvents r) →
  Forall (λ x, wf_chunk (evalue x)) (dataEvents r) →
  list.head (w ++ [c]) = Some s → 0 ≤ i ≤ BufferLen (evalue s) →
  0 ≤ j ≤ BufferLen (evalue c) → (w = [] → i ≤ j) →
  let start := MkPosition (Some s) i in
  let endp := MkPosition (Some c) j in
  ∃ loc h' b hp, Slice self valid start endp h = (Ok loc, h') ∧
    buffers h' !! loc = Some b ∧ buffers h' !! self = Some r ∧
    head b = Some hp ∧ originalBuffer b = Some self ∧
    stream (dataEvents r) start = stream (dataEvents b) hp ++ stream (dataEvents r) endp.
Proof.
  intros Hr Hfr Hl Hu Hwf Hs Hi Hj Hij start endp.
  unfold Slice, deref. step_act. rewrite Hr. step_act. unfold start, endp. rewrite <- Hs.
  rewrite (slice_values_run _ pre w c post) by done. step_act.
  set (values := (evalue <$> w) ++ _).
  pose proof (alloc_spec values valid i (Some self) (Some endp) h) as Ha.
  cbn [bufIndex]. fold endp. destruct (alloc _ _ _ _ _ _) as [h' loc]. step_act.
  destruct Ha as (Hb & Hold). eexists _, _, _, _.
  split_and!; [done|exact Hb|by rewrite Hold|done|done|].
  rewrite Hl in *. simpl. rewrite stream_number, Hs. by apply (slice_stream pre w c post i j s).
Qed.

Definition sample_heap : heap := MkHeap {[4%positive := sample_buffer 0]} 5.

Lemma Slice_splits_stream_witness :
  ∃ loc h' b hp,
    Slice 4 true (MkPosition (Some (sample_chunk 1 5 0 0 [97; 98])) 1)
      (MkPosition (Some (sample_chunk 3 5 2 1 [101; 102; 103])) 2) sample_heap = (Ok loc, h') ∧
    buffers h' !! loc = Some b ∧ head b = Some hp ∧
    stream (dataEvents b) hp ++ [103] = [98; 99; 100; 101; 102; 103].
Proof.
  destruct (Slice_splits_stream sample_heap 4 (sample_buffer 0) []
    [sample_chunk 1 5 0 0 [97; 98]; sample_chunk 2 5 1 0 [99; 100]]
    (sample_chunk 3 5 2 1 [101; 102; 103]) [] 1 2 true (sample_chunk 1 5 0 0 [97; 98]))
    as (loc & h' & b & hp & H1 & H2 & _ & H3 & _ & H4);
    [reflexivity|reflexivity|reflexivity|apply sample_inv|repeat constructor; simpl; lia
    |reflexivity|simpl; lia|simpl; lia|discriminate|].
  exists loc, h', b, hp. split; [exact H1|]. split; [exact H2|]. split; [exact H3|].
  symmetry. exact H4.
Defined.

(** A buffer as [Slice] makes it: its head is inside its first chunk. *)
Definition slice_shaped (b : Buffer) : Prop :=
  ∃ e l i, dataEvents b = e :: l ∧ unique (dataEvents b) ∧ wf_chunk (evalue e) ∧
    head b = Some (MkPosition (Some e) i) ∧ 0 ≤ i ≤ BufferLen (evalue e) ∧
    (is_Some (endPosition b) ∨ is_Some (current b)).

(** The bytes of a buffer from its head. *)
Definition head_stream (b : Buffer) : list Z :=
  match head b with Some h => stream (dataEvents b) h | None => [] end.

Lemma combine_all_stream bs :
  Forall (λ o, match o with Some b => slice_shaped b | None => True end) bs →
  ∃ values, combine_all bs = Some values ∧ (values ≫= bytes) = (omap id bs ≫= head_stream).
Proof.
  induction 1 as [|[b|] bs Hb Hbs (values & IH1 & IH2)]; cbn [combine_all];
    [by exists []| |by exists values].
  destruct Hb as (e & l & i & Hl & Hu & Hwf & Hh & Hi & _).
  destruct (combine_values_stream b e l i) as (v & -> & Hv); [done..|].
  rewrite IH1. exists (v ++ values). split; [done|].
  change (omap id (Some b :: bs)) with (b :: omap id bs).
  rewrite bind_app, bind_cons, Hv, IH2. unfold head_stream at 2. by rewrite Hh.
Qed.

Lemma combine_end_ok bs :
  Forall (λ o, match o with Some b => slice_shaped b | None => True end) bs →
  ∃ p, combine_end bs = Ok p.
Proof.
  intros H. unfold combine_end. destruct (list.head _) as [b|] eqn:E; [|by eexists].
  assert (Some b ∈ bs) as Hb.
  { apply head_Some_elem_of in E. rewrite elem_of_reverse in E.
    apply list_elem_of_omap in E as (o & Ho & Heq). simpl in Heq. by subst o. }
  rewrite Forall_forall in H. apply H in Hb as (e & l & i & _ & _ & _ & _ & _ & Hp).
  destruct (endPosition b); [by eexists|]. destruct Hp as [[? ?]|[p ->]]; [done|]. by exists (Some p).
Qed.

Lemma deref_all_ok h os bs :
  Forall2 (λ o b, match o with Some loc => b = buffers h !! loc ∧ is_Some b | None => b = None end)
    os bs →
  deref_all os h = (Ok bs, h).
Proof.
  induction 1 as [|o b os bs Ho Hs IH]; simpl; [done|].
  destruct o as [loc|]; simpl; unfold deref.
  - destruct Ho as [-> [x Hx]]. step_act. rewrite Hx. step_act.
    rewrite (bind_ok _ _ _ _ _ IH). done.
  - subst b. step_act. rewrite (bind_ok _ _ _ _ _ IH). done.
Qed.

(** a combination of slices is their concatenation: reading it from its head
    gives the bytes of the parts, in order, and nil parts are skipped. *)
Theorem CombineSlices_concat h valid original o1 o2 os bs :
  Forall2 (λ o b, match o with Some loc => b = buffers h !! loc ∧ is_Some b | None => b = None end)
    (o1 :: o2 :: os) bs →
  Forall (λ o, match o with Some b => slice_shaped b | None => True end) bs →
  ∃ loc h' b, CombineSlices valid original (o1 :: o2 :: os) h = (Ok (Some loc), h') ∧
    buffers h' !! loc = Some b ∧ originalBuffer b = original ∧
    head_stream b = (omap id bs ≫= head_stream).
Proof.
  intros Hd Hs. destruct (combine_all_stream bs Hs) as (values & Hv & Hst).
  destruct (combine_end_ok bs Hs) as [p Hp].
  unfold CombineSlices. rewrite (bind_ok _ _ _ _ _ (deref_all_ok _ _ _ Hd)). rewrite Hv, Hp.
  step_act. pose proof (alloc_spec values valid 0 original p h) as Ha.
  destruct (alloc _ _ _ _ _ _) as [h' loc]. destruct Ha as [Hb _]. step_act.
  eexists _, _, _. split_and!; [done|exact Hb|done|].
  unfold head_stream at 1. simpl. rewrite stream_number. by rewrite <- Hst, drop_0.
Qed.

Definition sample_heap2 : heap :=
  MkHeap {[4%positive := sample_buffer 1; 5%positive := sample_buffer 0]} 6.

Lemma sample_slice_shaped i : 0 ≤ i ≤ 2 → slice_shaped (sample_buffer i).
Proof.
  intros Hi. eexists _, _, i. split_and!; [reflexivity|apply sample_inv|simpl; lia|reflexivity
    |simpl; lia|simpl; lia|right; by eexists].
Qed.

Lemma CombineSlices_concat_witness :
  ∃ loc h' b, CombineSlices true (Some 4%positive) [Some 4; None; Some 5]%positive sample_heap2 =
      (Ok (Some loc), h') ∧ buffers h' !! loc = Some b ∧
    head_stream b = [98; 99; 100; 101; 102; 103; 97; 98; 99; 100; 101; 102; 103].
Proof.
  destruct (CombineSlices_concat sample_heap2 true (Some 4%positive) (Some 4%positive) None
    [Some 5%positive] [Some (sample_buffer 1); None; Some (sample_buffer 0)])
    as (loc & h' & b & H1 & H2 & _ & H3).
  - repeat constructor; eexists; reflexivity.
  - repeat constructor; apply sample_slice_shaped; lia.
  - exists loc, h', b. split; [exact H1|]. split; [exact H2|]. rewrite H3. vm_compute. reflexivity.
Defined.

(** The forward loop of [OffsetPosition] moves over exactly [offset] bytes. *)
Lemma offset_loop_forward fuel pre e post i offset :
  unique (pre ++ e :: post) → Forall (λ x, wf_chunk (evalue x)) (e :: post) →
  0 ≤ i ≤ BufferLen (evalue e) → 0 ≤ offset → (0 < offset ∨ i = 0) →
  (length post < fuel)%nat →
  let l := pre ++ e :: post in
  match offset_loop fuel l true (Some e) i offset with
  | Some p => stream l p = drop (Z.to_nat offset) (stream l (MkPosition (Some e) i)) ∧
      offset < Z.of_nat (length (stream l (MkPosition (Some e) i)))
  | None => Z.of_nat (length (stream l (MkPosition (Some e) i))) ≤ offset
  end.
Proof.
  revert pre e post i offset. induction fuel as [|fuel IH];
    intros pre e post i offset Hu Hwf Hi Ho Hor Hf l; [lia|].
  apply Forall_cons in Hwf as [Hwe Hwp]. pose proof (wf_length _ Hwe) as Hlen.
  assert (Hst : stream l (MkPosition (Some e) i) =
    drop (Z.to_nat i) (bytes (evalue e)) ++ (post ≫= λ x, bytes (evalue x)))
    by (by apply stream_at_cons).
  cbn [offset_loop]. case_decide as Hin.
  { unfold l in *. rewrite Hst, stream_at_cons by (done || lia).
    rewrite drop_app_le by (rewrite length_drop; lia). rewrite drop_drop.
    rewrite length_app, length_drop. split; [|lia]. do 2 f_equal. lia. }
  assert (Hnext : next_of l (eid e) = list.head post) by (by apply next_of_mid).
  rewrite Hnext. destruct post as [|e' post].
  { assert (Z.of_nat (length (stream l (MkPosition (Some e) i))) ≤ offset) as Hle
      by (rewrite Hst, app_nil_r, length_drop; lia).
    case_decide; [by destruct fuel|]. done. }
  assert (Hl : l = (pre ++ [e]) ++ e' :: post) by (unfold l; by rewrite <- (assoc_L (++))).
  assert (Hgo : ∀ o, o = offset - (BufferLen (evalue e) - i) → 0 ≤ o →
    match offset_loop fuel l true (Some e') 0 o with
    | Some p => stream l p = drop (Z.to_nat offset) (stream l (MkPosition (Some e) i)) ∧
        offset < Z.of_nat (length (stream l (MkPosition (Some e) i)))
    | None => Z.of_nat (length (stream l (MkPosition (Some e) i))) ≤ offset
    end).
  { intros o -> Hpos. rewrite Hst. apply Forall_cons in Hwp as Hw2. destruct Hw2 as [Hwe' _].
    destruct (wf_data _ Hwe') as (_ & _ & _ & _ & ?).
    unfold l in Hu. rewrite Hl. unfold l in Hl. rewrite Hl in Hu.
    specialize (IH (pre ++ [e]) e' post 0 (offset - (BufferLen (evalue e) - i))).
    cbv zeta in IH. rewrite (stream_at (pre ++ [e])) in IH by done.
    change (Z.to_nat 0) with 0%nat in IH. rewrite drop_0 in IH.
    assert (Hd : length (drop (Z.to_nat i) (bytes (evalue e))) = Z.to_nat (BufferLen (evalue e) - i))
      by (rewrite length_drop; lia).
    specialize (IH Hu Hwp ltac:(lia) ltac:(lia) ltac:(lia) ltac:(simpl in Hf; lia)).
    destruct (offset_loop _ _ _ _ _ _) as [p|]; rewrite length_app, Hd; [|lia].
    destruct IH as [IH1 IH2]. split; [|lia].
    rewrite IH1, drop_app_ge by lia. f_equal. lia. }
  simpl. case_decide; [apply Hgo; lia|].
  assert (offset = 0 ∧ i = 0 ∧ BufferLen (evalue e) = 0) as (-> & -> & ->) by lia.
  apply Hgo; lia.
Qed.

(** moving a position forward skips exactly that many bytes of the stream, and
    there is no position when the stream is not longer than that. *)
Theorem OffsetPosition_forward r pre e post i offset :
  dataEvents r = pre ++ e :: post → unique (dataEvents r) →
  Forall (λ x, wf_chunk (evalue x)) (dataEvents r) →
  current r = Some (MkPosition (Some e) i) → 0 ≤ i ≤ BufferLen (evalue e) → 0 < offset →
  let s := stream (dataEvents r) (MkPosition (Some e) i) in
  ∃ p, OffsetPosition offset r = (Ok p, r) ∧
    match p with
    | Some p => stream (dataEvents r) p = drop (Z.to_nat offset) s ∧ offset < Z.of_nat (length s)
    | None => Z.of_nat (length s) ≤ offset
    end.
Proof.
  intros Hl Hu Hwf Hc Hi Ho s. unfold OffsetPosition. step_act. rewrite Hc. step_act.
  rewrite decide_False by lia. rewrite bool_decide_eq_true_2 by lia. cbn [element bufIndex].
  eexists. split; [done|]. unfold s. rewrite Hl in *.
  apply Forall_app in Hwf as [_ Hwf].
  apply offset_loop_forward; [done|done|done|lia|by left|].
  rewrite length_app. simpl. lia.
Qed.

Lemma OffsetPosition_forward_witness :
  ∃ p, OffsetPosition 4 (sample_buffer 1) = (Ok (Some p), sample_buffer 1) ∧
    stream (dataEvents (sample_buffer 1)) p = [102; 103].
Proof.
  destruct (OffsetPosition_forward (sample_buffer 1) [] (sample_chunk 1 5 0 0 [97; 98])
    [sample_chunk 2 5 1 0 [99; 100]; sample_chunk 3 5 2 1 [101; 102; 103]] 1 4)
    as ([p|] & H1 & H2);
    [reflexivity|apply sample_inv|repeat constructor; simpl; lia|reflexivity|simpl; lia|lia| |].
  - exists p. split; [exact H1|]. rewrite (proj1 H2). vm_compute. reflexivity.
  - vm_compute in H2. exfalso. apply H2. reflexivity.
Defined.

Lemma delete_data_spec boot t latest l :
  let '(l', n, latest') := deleteEventsWithJudgement (data_expired boot t) latest l in
  ∃ gone, l = gone ++ l' ∧ n = Z.of_nat (length gone) ∧
    Forall (λ e, host_Time boot (StartTime (evalue e)) < t) gone ∧
    latest' = match last gone with Some e => DataID (evalue e) | None => latest end ∧
    match l' with e :: _ => t ≤ host_Time boot (StartTime (evalue e)) | [] => True end.
Proof.
  revert latest. induction l as [|x l IH]; intros latest; simpl; [by exists []|].
  unfold data_expired at 1. destruct (_ <? t) eqn:Hlt.
  - specialize (IH (DataID (evalue x))).
    destruct (deleteEventsWithJudgement _ _ l) as [[l' n] latest'].
    destruct IH as (gone & -> & -> & Hall & -> & Hnext). exists (x :: gone).
    split_and!; [done|simpl; lia|constructor; [lia|done]| |done].
    rewrite last_cons. by destruct (last gone).
  - exists []. split_and!; [done|done|constructor|done|lia].
Qed.

Lemma delete_detail_spec (f : SocketDataDetail → bool) l :
  let '(l', n, _) := deleteEventsWithJudgement (λ (_ : unit) d, (f d, tt)) tt l in
  ∃ gone, l = gone ++ l' ∧ n = Z.of_nat (length gone) ∧ Forall (λ d, f d = true) gone ∧
    match l' with d :: _ => f d = false | [] => True end.
Proof.
  induction l as [|x l IH]; simpl; [by exists []|]. destruct (f x) eqn:Hf; [|by exists []].
  destruct (deleteEventsWithJudgement _ _ l) as [[l' n] u].
  destruct IH as (gone & -> & -> & Hall & Hnext). exists (x :: gone).
  split_and!; [done|simpl; lia|by constructor|done].
Qed.

(** expiration removes the longest expired prefix of the chunks, remembers the
    data id of the last one, and then the longest prefix of details that belong to
    it or are expired themselves; the count is the number of removed events, and
    nothing else of the buffer changes. *)
Theorem DeleteExpireEvents_functional boot now d r :
  let t := now - d in
  let '(count, r') := DeleteExpireEvents boot now d r in
  ∃ goneData goneDetails,
    dataEvents r = goneData ++ dataEvents r' ∧ detailEvents r = goneDetails ++ detailEvents r' ∧
    count = Z.of_nat (length goneData) + Z.of_nat (length goneDetails) ∧
    Forall (λ e, host_Time boot (StartTime (evalue e)) < t) goneData ∧
    match dataEvents r' with
    | e :: _ => t ≤ host_Time boot (StartTime (evalue e)) | [] => True end ∧
    latestExpiredDataID r' =
      match last goneData with Some e => DataID (evalue e) | None => latestExpiredDataID r end ∧
    Forall (λ x, detail_expired boot t (latestExpiredDataID r') x = true) goneDetails ∧
    match detailEvents r' with
    | x :: _ => detail_expired boot t (latestExpiredDataID r') x = false | [] => True end ∧
    head r' = head r ∧ current r' = current r.
Proof.
  intros t. unfold DeleteExpireEvents. fold t.
  pose proof (delete_data_spec boot t (latestExpiredDataID r) (dataEvents r)) as H1.
  destruct (deleteEventsWithJudgement _ _ (dataEvents r)) as [[data n] latest].
  pose proof (delete_detail_spec (detail_expired boot t latest) (detailEvents r)) as H2.
  destruct (deleteEventsWithJudgement _ _ (detailEvents r)) as [[details m] u]. simpl.
  destruct H1 as (g1 & ? & ? & ? & ? & ?), H2 as (g2 & ? & ? & ? & ?).
  exists g1, g2. split_and!; try done. lia.
Qed.

(** A detail that [DeleteDetails] must delete: inside the range, except the last
    data id when that data was not read to its end. *)
Definition deletable (i : DataIDRange) (d : SocketDataDetail) : Prop :=
  From i ≤ detail_DataID d ≤ To i ∧ (IsToBufferReadFinished i = true ∨ detail_DataID d ≠ To i).

Global Instance deletable_dec i d : Decision (deletable i d).
Proof. unfold deletable. apply _. Defined.

Lemma delete_range_filter i l :
  StronglySorted detail_le l → delete_range i l = filter (λ d, ¬ deletable i d) l.
Proof.
  induction 1 as [|d l Hs IH Hall]; simpl; [done|].
  assert (in_range (From i) (To i) d = true ↔ From i ≤ detail_DataID d ≤ To i) as Hr
    by (unfold in_range; lia).
  rewrite filter_cons.
  destruct (in_range _ _ d) eqn:Hin.
  - destruct (negb _ && _) eqn:Hstop.
    + apply andb_true_iff in Hstop as [Hf%negb_true_iff Heq%Z.eqb_eq].
      assert (Hkeep : ∀ x, To i ≤ detail_DataID x → ¬ deletable i x)
        by (intros x Hx [? [?|?]]; [congruence|lia]).
      rewrite decide_True by (apply Hkeep; lia). f_equal. symmetry. apply filter_keep.
      intros x Hx. rewrite Forall_forall in Hall. apply Hall in Hx.
      apply Hkeep. unfold detail_le in Hx. lia.
    + rewrite decide_False; [done|]. intros Hno. apply Hno. split; [by apply Hr|].
      apply andb_false_iff in Hstop as [Hf%negb_false_iff|Hne%Z.eqb_neq]; [by left|by right].
  - rewrite decide_True; [by f_equal|]. intros [Hc _]. apply Hr in Hc. done.
Qed.

(** [original h loc o]: the buffer at [loc] is a slice of the one at [o]. *)
Definition original (h : heap) (loc o : positive) : Prop :=
  ∃ b, buffers h !! loc = Some b ∧ originalBuffer b = Some o.

(** References point to older buffers of the heap. *)
Definition heap_ok (h : heap) : Prop :=
  ∀ loc o, original h loc o → (o < loc)%positive ∧ is_Some (buffers h !! o).

(** The effect of [DeleteDetails] on the buffers of the chain of [self]. *)
Definition details_deleted (i : DataIDRange) (self : positive) (h h' : heap) : Prop :=
  ∀ loc b, buffers h !! loc = Some b →
    (rtc (original h) self loc →
       buffers h' !! loc = Some (set_detailEvents (delete_range i (detailEvents b)) b)) ∧
    (¬ rtc (original h) self loc → buffers h' !! loc = Some b).

Lemma rtc_original_le h self loc : heap_ok h → rtc (original h) self loc → (loc ≤ self)%positive.
Proof. intros Hok. induction 1 as [|x y z Hxy _ IH]; [lia|]. apply Hok in Hxy as [? _]. lia. Qed.

Lemma rtc_original_inv h self b loc :
  buffers h !! self = Some b → rtc (original h) self loc ↔
  loc = self ∨ ∃ o, originalBuffer b = Some o ∧ rtc (original h) o loc.
Proof.
  intros Hb. split.
  - intros Hr. inversion Hr as [|x y z (b' & Hb' & Ho) Hyz]; subst; [by left|].
    right. exists y. split; [congruence|done].
  - intros [->|(o & Ho & Hr)]; [done|]. eapply rtc_l; [|exact Hr]. by exists b.
Qed.

(** The last step of [DeleteDetails], in a heap where the rest of the chain is done. *)
Lemma delete_own_run i h self b h1 :
  buffers h !! self = Some b → buffers h1 !! self = Some b →
  (∀ loc x, buffers h !! loc = Some x → loc ≠ self →
     (rtc (original h) self loc →
        buffers h1 !! loc = Some (set_detailEvents (delete_range i (detailEvents x)) x)) ∧
     (¬ rtc (original h) self loc → buffers h1 !! loc = Some x)) →
  ∃ h', delete_own i self h1 = (Ok tt, h') ∧ details_deleted i self h h'.
Proof.
  intros Hb Hs Hrest. unfold delete_own, deref. step_act. rewrite Hs. step_act.
  eexists. split; [done|]. intros loc x Hx. simpl. destruct (decide (loc = self)) as [->|Hne].
  - rewrite lookup_insert_eq. simplify_eq. split; [done|]. intros Hno. by destruct Hno.
  - rewrite lookup_insert_ne by done. by apply Hrest.
Qed.

Lemma DeleteDetails_run i n h self :
  heap_ok h → is_Some (buffers h !! self) → (Pos.to_nat self ≤ n)%nat →
  ∃ h', DeleteDetails n i self h = (Ok tt, h') ∧ details_deleted i self h h'.
Proof.
  revert h self. induction n as [|n IH]; intros h self Hok [b Hb] Hn; [lia|].
  cbn [DeleteDetails]. unfold deref. step_act. rewrite Hb. step_act.
  destruct (originalBuffer b) as [o|] eqn:Ho.
  - destruct (Hok self o) as [Hlt Hsome]; [by exists b|].
    destruct (IH h o Hok Hsome ltac:(lia)) as (h1 & Hrun & Hdel).
    rewrite (bind_ok _ _ _ _ _ Hrun). apply (delete_own_run _ _ _ b); [done| |].
    + apply (Hdel self b Hb). intros Hr%rtc_original_le; [lia|done].
    + intros loc x Hx Hne. specialize (Hdel loc x Hx).
      rewrite (rtc_original_inv h self b loc Hb). naive_solver.
  - rewrite bind_ret. apply (delete_own_run _ _ _ b); [done..|]. intros loc x Hx Hne.
    rewrite (rtc_original_inv h self b loc Hb). naive_solver.
Qed.

(** Deleting the details of a range ends on every chain of slices, and deletes
    from the buffer and from every buffer it was sliced from, and from no other,
    exactly the details of the data in the range, sparing the last data when it
    was not read to its end. *)
Theorem DeleteDetails_exact i h self :
  heap_ok h → is_Some (buffers h !! self) →
  (∀ loc b, buffers h !! loc = Some b → StronglySorted detail_le (detailEvents b)) →
  ∃ h', DeleteDetails (Pos.to_nat self) i self h = (Ok tt, h') ∧
    ∀ loc b, buffers h !! loc = Some b →
      (rtc (original h) self loc → buffers h' !! loc =
         Some (set_detailEvents (filter (λ d, ¬ deletable i d) (detailEvents b)) b)) ∧
      (¬ rtc (original h) self loc → buffers h' !! loc = Some b).
Proof.
  intros Hok Hs Hsorted. destruct (DeleteDetails_run i (Pos.to_nat self) h self Hok Hs) as (h' & Hr & Hd);
    [lia|].
  exists h'. split; [done|]. intros loc b Hb. destruct (Hd loc b Hb) as [H1 H2].
  split; [|done]. rewrite <- delete_range_filter by (by eapply Hsorted). done.
Qed.

Definition sample_detail (dataID : Z) : SocketDataDetail :=
  MkSocketDetailEvent 0 0 dataID 0 0 0 0 0 0 0 0 0 0 0 0 0 0 0 0 0 0 0 0 0 0 0 0.

Definition sample_heap3 : heap :=
  MkHeap {[4%positive := set_detailEvents (sample_detail <$> [4; 5; 6; 6; 7]) (sample_buffer 0);
           5%positive := MkBuffer sample_list [] true false None None 0 (Some 4%positive) None]} 6.

Lemma sample_heap3_lookup loc b :
  buffers sample_heap3 !! loc = Some b →
  loc = 4%positive ∧ b = set_detailEvents (sample_detail <$> [4; 5; 6; 6; 7]) (sample_buffer 0) ∨
  loc = 5%positive ∧ b = MkBuffer sample_list [] true false None None 0 (Some 4%positive) None.
Proof.
  simpl. rewrite lookup_insert_Some, lookup_singleton_Some. naive_solver.
Qed.

Lemma DeleteDetails_exact_witness :
  ∃ h', DeleteDetails (Pos.to_nat 5) (MkDataIDRange 5 6 false) 5 sample_heap3 = (Ok tt, h') ∧
    ((λ b, detail_DataID0 <$> detailEvents b) <$> buffers h' !! 4%positive) = Some [4; 6; 6; 7].
Proof.
  destruct (DeleteDetails_exact (MkDataIDRange 5 6 false) sample_heap3 5) as (h' & Hr & Hd).
  - intros loc o (b & [[-> ->]|[-> ->]]%sample_heap3_lookup & Ho); simpl in Ho; simplify_eq.
    split; [reflexivity|]. eexists. reflexivity.
  - eexists. reflexivity.
  - intros loc b [[-> ->]|[-> ->]]%sample_heap3_lookup; simpl; repeat constructor;
      unfold detail_le; simpl; lia.
  - exists h'. split; [exact Hr|].
    destruct (Hd 4%positive _ eq_refl) as [H4 _]. rewrite H4; [vm_compute; reflexivity|].
    apply rtc_once. eexists. split; reflexivity.
Defined.
