(* ===== verification/Sender.v ===== *)
(** * Sending access logs

    Models the sender (src/pkg/accesslog/sender/sender.go, logs.go): the batch of logs
    by connection, its split, the list of waiting batches, and the messages of one
    stream.

    A batch maps the [*ConnectionInfo] of the manager, a reference, to its logs; the
    RPC connection is read through the reference when a message is built.  The gRPC
    client is an interface: a stream that is opened or not, and whose [Send] succeeds
    or not; [LawfulStream] is the documented behaviour that a failed [Send] aborts the
    stream.  The mutex serialises the operations and is not modelled, nor are timeouts,
    the closing of the stream, whose error is only logged, and the log messages. *)

From stdpp Require Import base gmap list strings.
From Stdlib Require Import ZArith Lia.
From S2P Require Import Prelude GoStrings Interfaces ProcessMonitor Events Connection.

(** ** Messages of the access log protocol *)

Inductive ReadSyscall : Type :=
| ReadSyscall_Read | ReadSyscall_Readv | ReadSyscall_Recv | ReadSyscall_RecvFrom
| ReadSyscall_RecvMsg | ReadSyscall_RecvMmsg.
Inductive WriteSyscall : Type :=
| WriteSyscall_Send | WriteSyscall_SendTo | WriteSyscall_SendMsg | WriteSyscall_SendMmsg
| WriteSyscall_SendFile | WriteSyscall_Write | WriteSyscall_Writev.

(** The metrics of a write, per layer. *)
Record WriteMetrics : Type := MkWriteMetrics {
  w4_TotalDuration : Z; w4_TotalTransmitPackageCount : Z; w4_TotalRetransmitPackageCount : Z;
  w4_TotalPackageSize : Z;
  w3_TotalDuration : Z; w3_TotalLocalDuration : Z; w3_TotalOutputDuration : Z;
  w3_TotalResolveMACCount : Z; w3_TotalResolveMACDuration : Z;
  w3_TotalNetFilterCount : Z; w3_TotalNetFilterDuration : Z;
  w2_TotalDuration : Z; w2_Ifindex : Z; w2_TotalEnterQueueBufferCount : Z;
  w2_TotalReadySendDuration : Z; w2_TotalNetDeviceSendDuration : Z
}.

(** The metrics of a read, per layer. *)
Record ReadMetrics : Type := MkReadMetrics {
  r2_Ifindex : Z; r2_TotalPackageCount : Z; r2_TotalPackageSize : Z;
  r2_TotalPackageToQueueDuration : Z; r2_TotalRcvPackageFromQueueDuration : Z;
  r3_TotalDuration : Z; r3_TotalRecvDuration : Z; r3_TotalLocalDuration : Z;
  r3_TotalNetFilterCount : Z; r3_TotalNetFilterDuration : Z;
  r4_TotalDuration : Z
}.

(** Times are offsets from the boot of the host, in nanoseconds. *)
Inductive AccessLogKernelLog : Type :=
| KernelLog_Connect (startTime endTime : Z) (success : bool)
| KernelLog_Accept (startTime endTime : Z)
| KernelLog_Close (startTime endTime : Z) (success : bool)
| KernelLog_Write (startTime endTime : Z) (syscall : WriteSyscall) (metrics : WriteMetrics)
| KernelLog_Read (startTime endTime : Z) (syscall : ReadSyscall) (metrics : ReadMetrics).

Inductive HTTPVersion : Type := HTTPVersion_HTTP1 | HTTPVersion_HTTP2.
Inductive HTTPMethod : Type :=
| Method_Get | Method_Post | Method_Put | Method_Delete | Method_Head | Method_Options
| Method_Trace | Method_Connect | Method_Patch.

Inductive TraceInfoProvider : Type := TraceInfoProvider_SkyWalking | TraceInfoProvider_Zipkin.

Record AccessLogTraceInfo : Type := MkTraceInfo {
  TraceId : string; TraceSegmentId : string; SpanId : string; Provider : TraceInfoProvider
}.

Record AccessLogHTTPProtocol : Type := MkHTTPProtocol {
  http_StartTime : Z; http_EndTime : Z; http_Version : HTTPVersion;
  req_Method : HTTPMethod; req_Path : string;
  req_SizeOfHeadersBytes : Z; req_SizeOfBodyBytes : Z;
  req_Trace : option AccessLogTraceInfo; req_Host : string;
  resp_StatusCode : Z; resp_SizeOfHeadersBytes : Z; resp_SizeOfBodyBytes : Z
}.

Record EBPFAccessLogNodeInfo : Type := MkNodeInfo {
  node_Name : string;
  (** Index, MTU and name. *)
  NetInterfaces : list (Z * Z * string);
  BootTime : Z * Z;
  ClusterName : string;
  ExcludeNamespaces : list string
}.

Record EBPFAccessLogMessage : Type := MkMessage {
  msg_Node : option EBPFAccessLogNodeInfo;
  msg_Connection : option AccessLogConnection;
  msg_KernelLogs : list AccessLogKernelLog;
  msg_ProtocolLog : option AccessLogHTTPProtocol
}.

(** ** Batches *)

Definition maxLogsPerSend : nat := Z.to_nat 10000.

Record ConnectionProtocolLog : Type := MkConnectionProtocolLog {
  cp_kernels : list AccessLogKernelLog;
  cp_protocol : AccessLogHTTPProtocol
}.

Record ConnectionLogs : Type := MkConnectionLogs {
  kernels : list AccessLogKernelLog;
  protocols : list ConnectionProtocolLog
}.

Definition newConnectionLogs : ConnectionLogs := MkConnectionLogs [] [].

Notation BatchLogs := (gmap positive ConnectionLogs).

Definition batch_AppendKernelLog (connection : positive) (log : AccessLogKernelLog) (l : BatchLogs)
  : BatchLogs :=
  let logs := default newConnectionLogs (l !! connection) in
  <[connection := MkConnectionLogs (kernels logs ++ [log]) (protocols logs)]> l.

Definition batch_AppendProtocolLog (connection : positive) (ks : list AccessLogKernelLog)
    (p : AccessLogHTTPProtocol) (l : BatchLogs) : BatchLogs :=
  let logs := default newConnectionLogs (l !! connection) in
  <[connection := MkConnectionLogs (kernels logs)
                    (protocols logs ++ [MkConnectionProtocolLog ks p])]> l.

(** One connection of the split: the batches in reverse, and the count of the last. *)
Definition split_step (st : list BatchLogs * nat) (x : positive * ConnectionLogs)
  : list BatchLogs * nat :=
  let '(result, currentCount) := st in
  if decide (currentCount mod maxLogsPerSend = 0)%nat
  then ({[x.1 := x.2]} :: result, 1%nat)
  else match result with
       | currentBatch :: rest => (<[x.1 := x.2]> currentBatch :: rest, S currentCount)
       | [] => ([], S currentCount)
       end.

Definition splitBatchLogs `{RangeOrder} (l : BatchLogs) : list BatchLogs :=
  reverse (fst (foldl split_step ([], 0%nat) (range l))).

(** ** The stream *)

(** A stream of the client, and whether sending a message on it succeeds.  [Send] does not
    wait for the server: the messages that were accepted are those for which it returned no
    error, and the server receives a prefix of them, in their order. *)
Class CollectStream (T : Type) := {
  stream_Send : EBPFAccessLogMessage → T → bool * T;
  (** The messages that were accepted. *)
  stream_accepted : T → list EBPFAccessLogMessage;
  stream_Send_accepted m t :
    stream_accepted (snd (stream_Send m t)) =
      stream_accepted t ++ (if fst (stream_Send m t) then [m] else [])
}.

(** An error of [Send] aborts the stream, as the documentation of gRPC says. *)
Class LawfulStream (T : Type) `{CollectStream T} := {
  stream_aborts m m' t :
    fst (stream_Send m t) = false → fst (stream_Send m' (snd (stream_Send m t))) = false
}.

(** What the sender's messages are built from. *)
Record SenderContext : Type := MkSenderContext {
  connection_heap : gmap positive ConnectionInfo;
  nodeName : string;
  AllNetworkInterfaces : gmap Z (Z * string);
  hostBootTime : Z * Z;
  clusterName : string;
  excludeNamespaces : list string
}.

Section sender.
Context `{RangeOrder} {T : Type} `{!CollectStream T}.
Implicit Types (g : SenderContext).

Definition BuildNodeInfo g (needs : bool) : option EBPFAccessLogNodeInfo :=
  if negb needs then None
  else Some (MkNodeInfo (nodeName g)
               ((λ '(i, (mtu, name)), (i32 i, i32 mtu, name)) <$> range (AllNetworkInterfaces g))
               (hostBootTime g) (clusterName g) (excludeNamespaces g)).

(** The RPC connection is read through the reference, which must be valid. *)
Definition buildAccessLogMessage g (firstLog firstConnection : bool) (conn : positive)
    (kernelLogs : list AccessLogKernelLog) (protocolLog : option AccessLogHTTPProtocol)
  : res Empty_set EBPFAccessLogMessage :=
  if firstConnection then
    c ← must (connection_heap g !! conn);
    Ok (MkMessage (BuildNodeInfo g firstLog) (RPCConnection c) kernelLogs protocolLog)
  else Ok (MkMessage (BuildNodeInfo g firstLog) None kernelLogs protocolLog).

(** The variables of [sendLogs]: the flags, the last error and the stream. *)
Record sending : Type := MkSending {
  firstLog : bool;
  firstConnection : bool;
  sendError : bool;
  streaming : T
}.

Definition send_one g (conn : positive) (ks : list AccessLogKernelLog)
    (p : option AccessLogHTTPProtocol) (v : sending) : res Empty_set sending :=
  m ← buildAccessLogMessage g (firstLog v) (firstConnection v) conn ks p;
  let '(ok, t) := stream_Send m (streaming v) in
  Ok (MkSending false false (negb ok) t).

Fixpoint send_protocols g (conn : positive) (ps : list ConnectionProtocolLog) (v : sending)
  : res Empty_set sending :=
  match ps with
  | [] => Ok v
  | p :: rest =>
    v ← send_one g conn (cp_kernels p) (Some (cp_protocol p)) v;
    send_protocols g conn rest v
  end.

(** The loop over the connections; [true] is the error that ends it. *)
Fixpoint send_connections g (items : list (positive * ConnectionLogs)) (v : sending)
  : res Empty_set (bool * sending) :=
  match items with
  | [] => Ok (false, v)
  | (connection, logs) :: rest =>
    if decide (kernels logs = [] ∧ protocols logs = []) then send_connections g rest v
    else
      v ← (if decide (kernels logs = []) then Ok v
           else send_one g connection (kernels logs) None v);
      v ← send_protocols g connection (protocols logs) v;
      if sendError v then Ok (true, v)
      else send_connections g rest (MkSending (firstLog v) true (sendError v) (streaming v))
  end.

(** Whether sending failed, and the stream; [collect] is the stream that is opened.  The
    error of the [CloseAndRecv] at the end is only logged. *)
Definition sendLogs g (collect : option T) (batch : BatchLogs) : res Empty_set (bool * option T) :=
  match collect with
  | None => Ok (true, None)
  | Some t =>
    '(failed, v) ← send_connections g (range batch) (MkSending true true false t);
    Ok (failed, Some (streaming v))
  end.

(** ** The list of waiting batches *)

Record GRPCSender : Type := MkGRPCSender {
  logs : list BatchLogs;
  (** The channel of capacity one. *)
  notify : bool
}.

Definition AddBatch (batch : BatchLogs) (s : GRPCSender) : GRPCSender :=
  MkGRPCSender (logs s ++ splitBatchLogs batch) true.

Definition popLogs (s : GRPCSender) : option (BatchLogs * GRPCSender) :=
  match logs s with
  | [] => None
  | b :: rest => Some (b, MkGRPCSender rest (notify s))
  end.

(** [streams] gives the stream of the i-th call, [n] is a bound on the batches.  The
    result is the count of the connections that were lost, if sending failed, and the
    streams that were used. *)
Fixpoint handleLogs g (streams : nat → option T) (n i : nat) (s : GRPCSender)
  : res Empty_set (option nat * list T * GRPCSender) :=
  match n with
  | O => Ok (None, [], s)
  | S n =>
    match popLogs s with
    | None => Ok (None, [], s)
    | Some (b, s) =>
      '(failed, t) ← sendLogs g (streams i) b;
      if failed : bool then Ok (Some (base.size b), option_list t, s)
      else '(r, ts, s) ← handleLogs g streams n (S i) s;
           Ok (r, option_list t ++ ts, s)
    end
  end.

(** What the goroutine of [Start] does on a notification. *)
Definition on_notify g (streams : nat → option T) (s : GRPCSender)
  : res Empty_set (option nat * list T * GRPCSender) :=
  handleLogs g streams (S (length (logs s))) 0 (MkGRPCSender (logs s) false).
End sender.

(** ** The server's view *)

(** The parts of the messages of one connection. *)
Definition bodies (logs : ConnectionLogs)
  : list (list AccessLogKernelLog * option AccessLogHTTPProtocol) :=
  (if decide (kernels logs = []) then [] else [(kernels logs, None)]) ++
  ((λ p, (cp_kernels p, Some (cp_protocol p))) <$> protocols logs).

(** A server keeps the connection of the last message that named one. *)
Fixpoint receive (current : option AccessLogConnection) (ms : list EBPFAccessLogMessage)
  : list (option AccessLogConnection * list AccessLogKernelLog * option AccessLogHTTPProtocol) :=
  match ms with
  | [] => []
  | m :: rest =>
    let current := match msg_Connection m with Some c => Some c | None => current end in
    (current, msg_KernelLogs m, msg_ProtocolLog m) :: receive current rest
  end.

(** What the server should learn from a batch. *)
Definition contents (g : SenderContext) (items : list (positive * ConnectionLogs)) :=
  '(ref, logs) ← items;
  (λ b, (connection_heap g !! ref ≫= RPCConnection, b.1, b.2)) <$> bodies logs.

(** The connections of a batch are known and have their RPC message. *)
Definition connections_known (g : SenderContext) (items : list (positive * ConnectionLogs)) : Prop :=
  ∀ ref logs, (ref, logs) ∈ items → is_Some (connection_heap g !! ref ≫= RPCConnection).

Section messages.
Context `{RangeOrder}.
Implicit Types (g : SenderContext).

Definition connection_messages g (first : bool) (rpc : option AccessLogConnection)
    (bs : list (list AccessLogKernelLog * option AccessLogHTTPProtocol))
  : list EBPFAccessLogMessage :=
  match bs with
  | [] => []
  | b :: bs => MkMessage (BuildNodeInfo g first) rpc b.1 b.2
               :: ((λ b, MkMessage None None b.1 b.2) <$> bs)
  end.

(** The messages of a stream on which every [Send] succeeds. *)
Fixpoint stream_messages g (first : bool) (items : list (positive * ConnectionLogs))
  : list EBPFAccessLogMessage :=
  match items with
  | [] => []
  | (ref, logs) :: rest =>
    connection_messages g first (connection_heap g !! ref ≫= RPCConnection) (bodies logs) ++
    stream_messages g (first && bool_decide (bodies logs = [])) rest
  end.

Lemma receive_same c bs :
  receive c ((λ b, MkMessage None None b.1 b.2) <$> bs) = (λ b, (c, b.1, b.2)) <$> bs.
Proof. induction bs as [|b bs IH]; simpl; [done|]. f_equal. apply IH. Qed.

Lemma receive_app c ms ms' :
  ∃ c', receive c (ms ++ ms') = receive c ms ++ receive c' ms'.
Proof.
  revert c. induction ms as [|m ms IH]; intros c; simpl; [by exists c|].
  destruct (IH (match msg_Connection m with Some c => Some c | None => c end)) as [c' ->].
  by exists c'.
Qed.

Lemma receive_take k c ms : receive c (take k ms) = take k (receive c ms).
Proof.
  revert k c. induction ms as [|m ms IH]; intros [|k] c; simpl; [done..|]. by rewrite IH.
Qed.

Lemma receive_length c ms : length (receive c ms) = length ms.
Proof. revert c. induction ms as [|m ms IH]; intros c; simpl; [done|]. by rewrite IH. Qed.

Lemma receive_connection g first rpc bs c :
  receive c (connection_messages g first (Some rpc) bs) = (λ b, (Some rpc, b.1, b.2)) <$> bs.
Proof. destruct bs as [|b bs]; simpl; [done|]. f_equal. apply receive_same. Qed.

Lemma receive_stream g first items c :
  connections_known g items →
  receive c (stream_messages g first items) = contents g items.
Proof.
  revert first c. induction items as [|[ref logs] items IH]; intros first c Hk; [done|].
  simpl. unfold contents. simpl. fold (contents g items).
  destruct (Hk ref logs) as [rpc Hr]; [left|]. rewrite Hr.
  destruct (receive_app c (connection_messages g first (Some rpc) (bodies logs))
    (stream_messages g (first && bool_decide (bodies logs = [])) items)) as [c' ->].
  rewrite receive_connection, IH; [done|]. intros r l Hin. apply (Hk r l). by right.
Qed.

(** Only the first message of a stream describes the node. *)
Lemma stream_messages_node g items :
  match stream_messages g true items with
  | [] => True
  | m :: ms => msg_Node m = BuildNodeInfo g true ∧ Forall (λ m, msg_Node m = None) ms
  end.
Proof.
  assert (Hf : ∀ l, Forall (λ m, msg_Node m = None) (stream_messages g false l)).
  { intros l. induction l as [|[ref logs] l IH]; simpl; [constructor|]. apply Forall_app.
    split; [|done]. unfold connection_messages. destruct (bodies logs); constructor; [done|].
    by apply Forall_fmap, Forall_true. }
  induction items as [|[ref logs] l IH]; simpl; [done|].
  unfold connection_messages. destruct (bodies logs) as [|b bs]; simpl; [done|].
  split; [done|]. apply Forall_app. split; [by apply Forall_fmap, Forall_true|done].
Qed.
End messages.

Section sending_lemmas.
Context `{RangeOrder} {T : Type} `{!CollectStream T} `{!LawfulStream T}.
Implicit Types (g : SenderContext) (t : T).

(** The bodies of a connection one after the other. *)
Fixpoint send_bodies g (conn : positive)
    (bs : list (list AccessLogKernelLog * option AccessLogHTTPProtocol)) (v : sending (T := T))
  : res Empty_set sending :=
  match bs with
  | [] => Ok v
  | b :: bs => v ← send_one g conn b.1 b.2 v; send_bodies g conn bs v
  end.

Lemma send_protocols_bodies g conn ps v :
  send_protocols g conn ps v =
    send_bodies g conn ((λ p, (cp_kernels p, Some (cp_protocol p))) <$> ps) v.
Proof.
  revert v. induction ps as [|p ps IH]; intros v; simpl; [done|].
  destruct (send_one _ _ _ _ _); simpl; [apply IH|done..].
Qed.

Lemma send_connection_bodies g conn logs v :
  (v ← (if decide (kernels logs = []) then Ok v else send_one g conn (kernels logs) None v);
   send_protocols g conn (protocols logs) v) = send_bodies g conn (bodies logs) v.
Proof.
  unfold bodies. case_decide; simpl; [apply send_protocols_bodies|].
  destruct (send_one _ _ _ _ _); simpl; [apply send_protocols_bodies|done..].
Qed.

(** A stream whose last message was refused takes no other. *)
Definition dead t : Prop := ∀ m, fst (stream_Send m t) = false.

Lemma dead_after m t : fst (stream_Send m t) = false → dead (snd (stream_Send m t)).
Proof. intros Hf m'. by apply stream_aborts. Qed.

Lemma dead_accepted m t : dead t → stream_accepted (snd (stream_Send m t)) = stream_accepted t.
Proof. intros Hd. by rewrite stream_Send_accepted, Hd, app_nil_r. Qed.

(** Bodies after the first one of their connection. *)
Lemma send_rest_spec g conn bs e t :
  (e = true → dead t) →
  ∃ k t', send_bodies g conn bs (MkSending false false e t) =
            Ok (MkSending false false (e || bool_decide (k < length bs)%nat) t') ∧
    stream_accepted t' = stream_accepted t ++ take k ((λ b, MkMessage None None b.1 b.2) <$> bs) ∧
    (k ≤ length bs)%nat ∧ (e = true → k = 0%nat).
Proof.
  revert e t. induction bs as [|b bs IH]; intros e t Hd.
  { exists 0%nat, t. simpl. by rewrite app_nil_r, orb_false_r. }
  set (m := MkMessage None None b.1 b.2).
  change (send_bodies g conn (b :: bs) (MkSending false false e t)) with
    (v ← (let '(ok, t') := stream_Send m t in Ok (MkSending false false (negb ok) t'));
     send_bodies g conn bs v).
  pose proof (stream_Send_accepted m t) as Hr.
  pose proof (dead_after m t) as Ha. destruct (stream_Send m t) as [ok t1] eqn:Hs. simpl in *.
  destruct (IH (negb ok) t1) as (k & t' & -> & Hr' & Hk & Hk0); [by destruct ok; [|auto]|].
  destruct ok; simpl in *.
  - exists (S k), t'. rewrite Hr', Hr, <- app_assoc. split_and!; [|done|lia|].
    + destruct e; [exfalso; specialize (Hd eq_refl m); by rewrite Hs in Hd|]. simpl.
      do 3 f_equal. apply bool_decide_ext. lia.
    + intros ->. specialize (Hd eq_refl m). by rewrite Hs in Hd.
  - exists 0%nat, t'. rewrite Hr', Hr, Hk0 by done. simpl.
    rewrite !app_nil_r. split_and!; [|done|lia|done].
    by rewrite orb_true_r.
Qed.

Lemma send_first_spec g fl conn c b bs t :
  connection_heap g !! conn = Some c →
  ∃ k t', send_bodies g conn (b :: bs) (MkSending fl true false t) =
            Ok (MkSending false false (bool_decide (k < length (b :: bs))%nat) t') ∧
    stream_accepted t' =
      stream_accepted t ++ take k (connection_messages g fl (RPCConnection c) (b :: bs)) ∧
    (k ≤ length (b :: bs))%nat.
Proof.
  intros Hc. cbn [send_bodies]. unfold send_one at 1, buildAccessLogMessage. rewrite Hc. simpl.
  set (m := MkMessage (BuildNodeInfo g fl) (RPCConnection c) b.1 b.2).
  pose proof (stream_Send_accepted m t) as Hr. pose proof (dead_after m t) as Ha.
  destruct (stream_Send m t) as [ok t1]. simpl in *.
  destruct (send_rest_spec g conn bs (negb ok) t1) as (k & t' & -> & Hr' & Hk & Hk0);
    [by destruct ok; [|auto]|]. destruct ok; simpl in *.
  - exists (S k), t'. rewrite Hr', Hr, <- app_assoc. split_and!; [|done|lia].
    do 2 f_equal. apply bool_decide_ext. lia.
  - exists 0%nat, t'. rewrite Hr', Hr, Hk0 by done. simpl. rewrite !app_nil_r.
    split_and!; [done|done|lia].
Qed.

Lemma connection_messages_length g fl rpc bs :
  length (connection_messages g fl rpc bs) = length bs.
Proof. destruct bs; simpl; [done|]. by rewrite length_fmap. Qed.

Lemma bodies_empty logs : bodies logs = [] ↔ kernels logs = [] ∧ protocols logs = [].
Proof.
  unfold bodies. case_decide as Hk.
  - rewrite Hk. simpl. destruct (protocols logs); simpl; naive_solver.
  - simpl. naive_solver.
Qed.

Lemma send_connections_cons g ref lg rest v :
  bodies lg ≠ [] →
  send_connections g ((ref, lg) :: rest) v =
    (v ← send_bodies g ref (bodies lg) v;
     if sendError v then Ok (true, v)
     else send_connections g rest (MkSending (firstLog v) true (sendError v) (streaming v))).
Proof.
  intros Hb. rewrite <- send_connection_bodies. cbn [send_connections].
  rewrite decide_False by (by rewrite <- bodies_empty).
  by destruct (if decide (kernels lg = []) then _ else _).
Qed.

(** A stream takes a prefix of the messages; it is all of them unless sending fails. *)
Lemma send_connections_spec g fl items t :
  connections_known g items →
  ∃ k v, send_connections g items (MkSending fl true false t) =
           Ok (bool_decide (k < length (stream_messages g fl items))%nat, v) ∧
    stream_accepted (streaming v) = stream_accepted t ++ take k (stream_messages g fl items) ∧
    (k ≤ length (stream_messages g fl items))%nat.
Proof.
  revert fl t. induction items as [|[ref lg] items IH]; intros fl t Hk.
  { exists 0%nat, (MkSending fl true false t). simpl. by rewrite app_nil_r. }
  assert (Hk' : connections_known g items) by (intros r l Hin; apply (Hk r l); by right).
  destruct (Hk ref lg) as [rpc (c & Hc & Hrpc)%bind_Some]; [left|].
  destruct (bodies lg) as [|b bs] eqn:Hb.
  { cbn [send_connections stream_messages]. rewrite Hb, decide_True by (by apply bodies_empty).
    rewrite bool_decide_true, andb_true_r by done. by apply IH. }
  rewrite send_connections_cons by (by rewrite Hb). cbn [stream_messages].
  rewrite Hb, Hc, bool_decide_false, andb_false_r by done. cbn [option_bind mbind].
  destruct (send_first_spec g fl ref c b bs t Hc) as (k & t' & -> & Hrec & Hle).
  set (ms := connection_messages g fl (RPCConnection c) (b :: bs)) in *.
  assert (Hlen : length ms = length (b :: bs)) by apply connection_messages_length.
  cbn [mbind res_bind]. cbn [sendError firstLog streaming]. rewrite length_app, Hlen.
  case_bool_decide as Hlt.
  - exists k. eexists. rewrite bool_decide_true by lia. split; [done|].
    cbn [streaming]. rewrite Hrec, take_app_le by lia. split; [done|lia].
  - destruct (IH false t' Hk') as (k' & v & -> & Hv & Hk'').
    exists (length ms + k')%nat, v. rewrite take_app_add'  by done.
    rewrite Hv, Hrec, (take_ge ms k) by lia. rewrite app_assoc. split_and!; [|done|lia].
    do 2 f_equal. apply bool_decide_ext. lia.
Qed.

(** What a notification does: every waiting batch is delivered, or sending fails at one
    of them; the batches before it are delivered, of it a prefix, and the ones behind it
    wait. *)
Lemma handleLogs_spec g (streams : nat → option T) n i s :
  (length (logs s) < n)%nat →
  (∀ b, b ∈ logs s → connections_known g (range b)) →
  (∀ j t, streams j = Some t → stream_accepted t = []) →
  ∃ lost ts s', handleLogs g streams n i s = Ok (lost, ts, s') ∧
    let view := ts ≫= λ t, receive None (stream_accepted t) in
    match lost with
    | None => logs s' = [] ∧ view = logs s ≫= λ b, contents g (range b)
    | Some count => ∃ sent b k, logs s = sent ++ b :: logs s' ∧ count = base.size b ∧
        view = (sent ≫= λ b, contents g (range b)) ++ take k (contents g (range b))
    end ∧ notify s' = notify s.
Proof.
  revert i s. induction n as [|n IH]; intros i [lg nt] Hn Hk Hs; simpl in *; [lia|].
  unfold popLogs. simpl. destruct lg as [|b lg].
  { by exists None, [], (MkGRPCSender [] nt). }
  simpl. destruct (streams i) as [t|] eqn:Ht; simpl.
  2:{ exists (Some (base.size b)), [], (MkGRPCSender lg nt). split; [done|]. simpl.
      split; [|done]. by exists [], b, 0%nat. }
  destruct (send_connections_spec g true (range b) t) as (k & v & -> & Hv & Hle); [apply Hk; left|].
  simpl. rewrite (Hs i t Ht) in Hv. simpl in Hv.
  assert (Hrec : receive None (stream_accepted (streaming v)) = take k (contents g (range b))).
  { rewrite Hv, receive_take, receive_stream; [done|]. apply Hk. left. }
  case_bool_decide as Hlt.
  - eexists (Some (base.size b)), _, (MkGRPCSender lg nt). split; [done|]. simpl. split; [|done].
    exists [], b, k. rewrite app_nil_r. done.
  - destruct (IH (S i) (MkGRPCSender lg nt)) as (lost & ts & s' & -> & Hres & Hnt);
      [simpl in *; lia|intros b' Hb'; apply Hk; by right|done|].
    exists lost, (streaming v :: ts), s'. split; [done|]. split; [|done].
    cbv zeta in Hres |- *. cbn [logs] in Hres |- *.
    rewrite take_ge in Hrec
      by (rewrite <- (receive_stream g true _ None), receive_length by (apply Hk; left); lia).
    rewrite bind_cons, Hrec. destruct lost as [count|].
    + destruct Hres as (sent & b' & k' & -> & -> & ->). exists (b :: sent), b', k'.
      by rewrite bind_cons, app_assoc.
    + destruct Hres as [-> ->]. by split.
Qed.
End sending_lemmas.

(** ** The split *)

#[local] Opaque maxLogsPerSend.

(** The state of the split after the connections [xs]. *)
Record split_ok (xs : list (positive * ConnectionLogs)) (st : list BatchLogs * nat) : Prop := {
  so_content : (st.1 ≫= map_to_list) ≡ₚ xs;
  so_last : match st.1 with
            | [] => st.2 = 0%nat
            | b :: rest => base.size b = st.2 ∧ (0 < st.2 ≤ maxLogsPerSend)%nat ∧
                           Forall (λ b, base.size b = maxLogsPerSend) rest
            end
}.

Lemma maxLogsPerSend_pos : (0 < maxLogsPerSend)%nat.
Proof. apply Nat.ltb_lt. vm_compute. reflexivity. Qed.

Lemma split_step_ok xs st x :
  split_ok xs st → x.1 ∉ xs.*1 → split_ok (xs ++ [x]) (split_step st x).
Proof.
  destruct st as [result cnt], x as [ref lg]. intros [Hc Hl] Hx.
  cbn [fst snd] in *. pose proof maxLogsPerSend_pos. unfold split_step. case_decide as Hm.
  - split; cbn [fst snd].
    + rewrite bind_cons, map_to_list_singleton, Hc. by rewrite Permutation_app_comm.
    + rewrite map_size_singleton. split_and!; [done|lia|lia|].
      destruct result as [|b rest]; [constructor|]. destruct Hl as (Hb & Hcnt & Hf).
      constructor; [|done]. rewrite Hb.
      apply Nat.Div0.mod_divides in Hm as [q ->]. destruct q; [lia|]. destruct q; [lia|]. nia.
  - destruct result as [|b rest].
    { subst. by rewrite Nat.Div0.mod_0_l in Hm. }
    destruct Hl as (Hb & Hcnt & Hf). rewrite bind_cons in Hc.
    assert (Hnone : b !! ref = None).
    { apply eq_None_not_Some. intros [lg' Hsome]. apply Hx.
      apply list_elem_of_fmap. exists (ref, lg'). split; [done|]. rewrite <- Hc.
      apply elem_of_app. left. by apply elem_of_map_to_list. }
    split; cbn [fst snd].
    + rewrite bind_cons, map_to_list_insert by done. cbn [app]. rewrite Hc.
      by rewrite Permutation_app_comm.
    + rewrite map_size_insert_None, Hb by done. split_and!; [done|lia| |done].
      assert (cnt ≠ maxLogsPerSend); [|lia]. intros ->. by rewrite Nat.Div0.mod_same in Hm.
Qed.

Lemma split_ok_foldl xs ys st :
  split_ok xs st → NoDup (xs ++ ys).*1 → split_ok (xs ++ ys) (foldl split_step st ys).
Proof.
  revert xs st. induction ys as [|y ys IH]; intros xs st Hst Hnd; simpl; [by rewrite app_nil_r|].
  rewrite cons_middle, app_assoc. apply IH; [|by rewrite <- app_assoc].
  apply split_step_ok; [done|]. rewrite fmap_app in Hnd. apply NoDup_app in Hnd as (_ & Hd & _).
  intros Hin. apply (Hd _ Hin). by left.
Qed.

Lemma range_keys_unique `{RangeOrder} {V} (m : gmap positive V) : NoDup (range m).*1.
Proof. rewrite range_perm. apply NoDup_fst_map_to_list. Qed.

Lemma splitBatchLogs_ok `{RangeOrder} (l : BatchLogs) :
  split_ok (range l) (foldl split_step ([], 0%nat) (range l)).
Proof. apply (split_ok_foldl [] _); [by split|]. apply range_keys_unique. Qed.

(** No connection is lost or doubled, and the batches are full but the last one. *)
Lemma splitBatchLogs_partition `{RangeOrder} (l : BatchLogs) :
  (splitBatchLogs l ≫= map_to_list) ≡ₚ map_to_list l ∧
  ∀ i b, splitBatchLogs l !! i = Some b →
    (0 < base.size b ≤ maxLogsPerSend)%nat ∧
    (S i < length (splitBatchLogs l) → base.size b = maxLogsPerSend)%nat.
Proof.
  unfold splitBatchLogs. destruct (splitBatchLogs_ok l) as [Hc Hl].
  destruct (foldl split_step ([], 0%nat) (range l)) as [result cnt]. simpl in *. split.
  - rewrite <- (range_perm l), <- Hc. by rewrite reverse_Permutation.
  - intros i b Hi. destruct result as [|b0 rest]; [done|]. destruct Hl as (Hb & Hcnt & Hf).
    rewrite reverse_cons in Hi |- *. rewrite length_app, length_reverse. simpl.
    apply lookup_snoc_Some in Hi as [[Hlt Hi]|[-> <-]].
    + apply list_elem_of_lookup_2 in Hi. rewrite elem_of_reverse in Hi.
      rewrite Forall_forall in Hf.
      rewrite (Hf _ Hi). lia.
    + rewrite length_reverse. lia.
Qed.

Global Instance contents_proper g : Proper ((≡ₚ) ==> (≡ₚ)) (contents g).
Proof. intros l l' Hl. unfold contents. by apply bind_Permutation. Qed.

(** The contents of a batch do not depend on how it is split. *)
Lemma contents_split `{RangeOrder} g (l : BatchLogs) :
  (splitBatchLogs l ≫= λ b, contents g (range b)) ≡ₚ contents g (map_to_list l).
Proof.
  destruct (splitBatchLogs_partition l) as [Hc _]. rewrite <- Hc. clear Hc.
  induction (splitBatchLogs l) as [|b bs IH]; [done|]. rewrite !bind_cons, IH.
  unfold contents at 3. rewrite bind_app. by rewrite (range_perm b).
Qed.

Section theorems.
Context `{RangeOrder} {T : Type} `{!CollectStream T} `{!LawfulStream T}.

Lemma receive_prefix c ms ms' : ms `prefix_of` ms' → receive c ms `prefix_of` receive c ms'.
Proof. intros [k ->]. destruct (receive_app c ms k) as [c' ->]. by eexists. Qed.

(** C23: delivery.  When a batch is added and the sender is notified, it terminates
    without a panic.  If no sending fails, the messages that the streams accepted tell a
    server, which keeps the connection of the last message that named one, the logs of
    every connection of the waiting batches and of the new one, each once and with its
    connection.  Otherwise they tell the batches before the failing one and a prefix of
    that one, the rest still waits, and nothing wakes the sender until the next batch.  A
    server that received only the first messages of a stream learned the first of these
    logs, with the same connections. *)
Theorem batches_delivered (g : SenderContext) (streams : nat → option T) batch s :
  (∀ b, b ∈ logs s → connections_known g (map_to_list b)) →
  connections_known g (map_to_list batch) →
  (∀ j t, streams j = Some t → stream_accepted t = []) →
  ∃ lost ts s', on_notify g streams (AddBatch batch s) = Ok (lost, ts, s') ∧
    notify s' = false ∧
    let view := ts ≫= λ t, receive None (stream_accepted t) in
    match lost with
    | None => logs s' = [] ∧
        view ≡ₚ (logs s ≫= λ b, contents g (map_to_list b)) ++ contents g (map_to_list batch)
    | Some count => ∃ sent b k,
        logs s ++ splitBatchLogs batch = sent ++ b :: logs s' ∧ count = base.size b ∧
        view = (sent ≫= λ b, contents g (range b)) ++ take k (contents g (range b))
    end ∧
    ∀ t ms, t ∈ ts → ms `prefix_of` stream_accepted t →
      receive None ms `prefix_of` receive None (stream_accepted t).
Proof.
  intros Hs Hb Hst. unfold on_notify, AddBatch. cbn [logs].
  destruct (handleLogs_spec g streams (S (length (logs s ++ splitBatchLogs batch))) 0
    (MkGRPCSender (logs s ++ splitBatchLogs batch) false)) as (lost & ts & s' & -> & Hres & Hn).
  - cbn [logs]. lia.
  - intros b [Hin|Hin]%elem_of_app; cbn [logs] in *.
    + intros ref lg Hr. rewrite range_perm in Hr. by apply (Hs b Hin ref lg).
    + intros ref lg Hr. rewrite range_perm in Hr. apply (Hb ref lg).
      destruct (splitBatchLogs_partition batch) as [<- _]. apply list_elem_of_bind.
      by exists b.
  - done.
  - exists lost, ts, s'. split; [done|]. split; [done|]. cbv zeta in *. cbn [logs] in Hres.
    split; [|intros t ms _; apply receive_prefix].
    destruct lost as [count|]; [done|]. destruct Hres as [-> ->]. split; [done|].
    rewrite bind_app, contents_split. apply Permutation_app; [|done].
    clear. induction (logs s) as [|b bs IH]; [done|]. rewrite !bind_cons.
    apply Permutation_app.
    + by rewrite (range_perm b).
    + apply IH.
Qed.
End theorems.

(** ** A concrete stream

    It takes [room] messages. *)

#[local] Existing Instance keys_order.

Record sample_stream : Type := MkSampleStream {
  sample_room : nat;
  sample_accepted : list EBPFAccessLogMessage
}.

Global Program Instance sample_collect : CollectStream sample_stream := {|
  stream_Send m t :=
    match sample_room t with
    | O => (false, t)
    | S n => (true, MkSampleStream n (sample_accepted t ++ [m]))
    end;
  stream_accepted := sample_accepted
|}.
Next Obligation. intros m [[|n] r]; simpl; [by rewrite app_nil_r|done]. Qed.

Global Instance sample_lawful : LawfulStream sample_stream.
Proof. split. by intros m m' [[|n] r]. Qed.

Module SenderSample.
Definition rpc : AccessLogConnection :=
  MkAccessLogConnection (Some (ConnectionAddress_Ip "10.0.0.1" 4000))
    (Some (ConnectionAddress_Ip "10.96.0.1" 80)) DetectPoint_client TLSMode_Plain
    ProtocolType_HTTP_1 None.
Definition info : ConnectionInfo :=
  MkConnectionInfo 9 5 (Some rpc) false 7 None 0 None false None None.
Definition http : AccessLogHTTPProtocol :=
  MkHTTPProtocol 1 4 HTTPVersion_HTTP1 Method_Get "/" 10 0 None "a" 200 8 0.
Definition context : SenderContext :=
  MkSenderContext {[ 1%positive := info ]} "node" {[ 0 := (1500, "eth0"%string) ]} (0, 0) "c" [].
Definition batch : BatchLogs :=
  batch_AppendProtocolLog 1 [KernelLog_Connect 1 2 true] http
    (batch_AppendKernelLog 1 (KernelLog_Accept 0 1) ∅).

Lemma known : connections_known context (map_to_list batch).
Proof.
  intros ref lg. rewrite elem_of_map_to_list.
  unfold batch, batch_AppendProtocolLog, batch_AppendKernelLog.
  intros [[<- _]|[_ [[<- _]|[_ Hn]]%lookup_insert_Some]]%lookup_insert_Some; [by eexists..|].
  by rewrite lookup_empty in Hn.
Qed.
End SenderSample.

Lemma batches_delivered_witness :
  ∃ lost ts s',
    on_notify SenderSample.context (λ _, Some (MkSampleStream 5 []))
      (AddBatch SenderSample.batch (MkGRPCSender [] false)) = Ok (lost, ts, s') ∧
    notify s' = false ∧
    let view := ts ≫= λ t, receive None (stream_accepted t) in
    match lost with
    | None => logs s' = [] ∧
        view ≡ₚ contents SenderSample.context (map_to_list SenderSample.batch)
    | Some count => ∃ sent b k,
        splitBatchLogs SenderSample.batch = sent ++ b :: logs s' ∧ count = base.size b ∧
        view = (sent ≫= λ b, contents SenderSample.context (range b)) ++
                 take k (contents SenderSample.context (range b))
    end ∧
    ∀ t ms, t ∈ ts → ms `prefix_of` stream_accepted t →
      receive None ms `prefix_of` receive None (stream_accepted t).
Proof.
  apply (batches_delivered SenderSample.context (λ _, Some (MkSampleStream 5 []))
    SenderSample.batch (MkGRPCSender [] false)).
  - intros b Hb. by apply elem_of_nil in Hb.
  - apply SenderSample.known.
  - intros j t Ht. by injection Ht as <-.
Defined.

(** The sample is delivered. *)
Example sample_delivered :
  (λ r, match r with
        | Ok (None, [t], _) => length (receive None (stream_accepted t)) = 2%nat
        | _ => False
        end)
    (on_notify SenderSample.context (λ _, Some (MkSampleStream 5 []))
       (AddBatch SenderSample.batch (MkGRPCSender [] false))).
Proof. vm_compute. reflexivity. Qed.
