(* ===== verification/Delivery.v ===== *)
(** * From events to batches

    Models the way of an event to the sender: the log builders of the forwarder
    (src/pkg/accesslog/forwarder), the bounded queue of logs (common/queue.go), and the
    runner that consumes it (runner.go), over the connection manager of Connection.v and
    the sender of Sender.v.

    The producers run beside the consumer, so the consuming loops take the logs that
    arrive while they run: one list for every receive and every re-append.  Channels are
    lists with a capacity.  [now] is the reading of the clock during the call,
    [pidExists] the answer of the operating system, [None] an error. *)

From stdpp Require Import base gmap list strings.
From Stdlib Require Import ZArith Lia.
From S2P Require Import Prelude GoStrings Interfaces Events Buffer ProcessMonitor Connection ConnectionLife Sender.

(** ** The log builders *)

Inductive SocketOperationType : Type :=
| SocketOperationTypeConnect | SocketOperationTypeAccept | SocketOperationTypeClose
| SocketOperationTypeWrite | SocketOperationTypeRead | SocketOperationTypeUnknown.

Definition GetSocketOperationType (f : Z) : SocketOperationType :=
  match f with
  | 1 => SocketOperationTypeConnect
  | 2 => SocketOperationTypeAccept
  | 3 => SocketOperationTypeClose
  | 4 | 5 | 6 | 7 | 8 | 9 | 10 | 17 | 18 | 20 => SocketOperationTypeWrite
  | 11 | 12 | 13 | 14 | 15 | 16 | 19 | 21 => SocketOperationTypeRead
  | _ => SocketOperationTypeUnknown
  end.

Definition parseReadSyscall (funcName : Z) : ReadSyscall :=
  match funcName with
  | 11 => ReadSyscall_Read
  | 12 => ReadSyscall_Readv
  | 13 => ReadSyscall_Recv
  | 14 => ReadSyscall_RecvFrom
  | 15 => ReadSyscall_RecvMsg
  | 16 => ReadSyscall_RecvMmsg
  | _ => ReadSyscall_Read
  end.

Definition parseWriteSyscall (funcName : Z) : WriteSyscall :=
  match funcName with
  | 4 => WriteSyscall_Send
  | 5 => WriteSyscall_SendTo
  | 6 => WriteSyscall_SendMsg
  | 7 => WriteSyscall_SendMmsg
  | 8 => WriteSyscall_SendFile
  | 9 => WriteSyscall_Write
  | 10 => WriteSyscall_Writev
  | _ => WriteSyscall_Write
  end.

(** The builders assert the type of their event, and panic if it is another. *)
Definition kernelTransferLogBuilder (event : Event) : res Empty_set (option AccessLogKernelLog) :=
  match event with
  | DetailEvent e =>
    match GetSocketOperationType (FunctionName e) with
    | SocketOperationTypeWrite =>
      Ok (Some (KernelLog_Write (detail_StartTime e) (detail_EndTime e)
        (parseWriteSyscall (FunctionName e))
        (MkWriteMetrics (L4Duration e) (L4PackageCount e) (L4RetransmitPackageCount e)
           (i64 (L4TotalPackageSize e))
           (L3Duration e) (L3LocalDuration e) (L3OutputDuration e)
           (L3ResolveMacCount e) (L3ResolveMacDuration e)
           (L3NetFilterCount e) (L3NetFilterDuration e)
           (L2Duration e) (IfIndex e) (L2EnterQueueCount e)
           (L2ReadySendDuration e) (L2SendDuration e))))
    | SocketOperationTypeRead =>
      Ok (Some (KernelLog_Read (detail_StartTime e) (detail_EndTime e)
        (parseReadSyscall (FunctionName e))
        (MkReadMetrics (IfIndex e) (L4PackageCount e) (L4TotalPackageSize e)
           (L2PackageToQueueDuration e) (L4PackageRcvFromQueueDuration e)
           (L3Duration e) (L3TotalRcvDuration e) (L3LocalDuration e)
           (L3NetFilterCount e) (L3NetFilterDuration e)
           (L4Duration e))))
    | _ => Ok None
    end
  | _ => Panic
  end.

Definition closeLogBuilder (event : Event) : res Empty_set (option AccessLogKernelLog) :=
  match event with
  | CloseEventWithNotify e =>
    if close_StartTime e =? 0 then Ok None
    else Ok (Some (KernelLog_Close (close_StartTime e) (close_EndTime e) (close_Success e =? 1)))
  | _ => Panic
  end.

Definition connectLogBuilder (event : Event) : res Empty_set (option AccessLogKernelLog) :=
  match event with
  | ConnectEventWithSocket e _ =>
    match FuncName e with
    | 1 => Ok (Some (KernelLog_Connect (connect_StartTime e) (connect_EndTime e)
                       (ConnectSuccess e =? 1)))
    | 2 => Ok (Some (KernelLog_Accept (connect_StartTime e) (connect_EndTime e)))
    | _ => Ok None
    end
  | _ => Panic
  end.

Inductive LogType : Type := LogTypeConnect | LogTypeKernelTransfer | LogTypeClose.

Definition BuildKernelLogFromEvent (tp : LogType) (event : Event)
  : res Empty_set (option AccessLogKernelLog) :=
  match tp with
  | LogTypeConnect => connectLogBuilder event
  | LogTypeKernelTransfer => kernelTransferLogBuilder event
  | LogTypeClose => closeLogBuilder event
  end.

(** ** The queue *)

Record kernelLogEvent : Type := MkKernelLogEvent {
  logType : LogType;
  log_event : Event
}.

Record ProtocolEventData : Type := MkProtocolEventData {
  KernelLogs : list SocketDetailEvent;
  ProtocolLogData : option AccessLogHTTPProtocol
}.

(** A channel of logs with the count of the logs that found it full. *)
Record log_chan (X : Type) : Type := MkLogChan { waiting : list X; drops : Z }.
Arguments MkLogChan {X} waiting drops.
Arguments waiting {X} l.
Arguments drops {X} l.

(** A non-blocking send; [true] if there was room. *)
Definition chan_send {X} (cap : nat) (x : X) (c : log_chan X) : bool * log_chan X :=
  if decide (length (waiting c) < cap)%nat then (true, MkLogChan (waiting c ++ [x]) (drops c))
  else (false, MkLogChan (waiting c) (drops c + 1)).

Definition offer {X} (cap : nat) (xs : list X) (c : log_chan X) : log_chan X :=
  foldl (λ c x, snd (chan_send cap x c)) c xs.

Record Queue : Type := MkQueue {
  kernelLogs : log_chan kernelLogEvent;
  protocolLogs : log_chan ProtocolEventData;
  maxFlushCount : Z
}.

(** [make] panics on a negative capacity. *)
Definition NewQueue (maxFlush : Z) : res Empty_set Queue :=
  if maxFlush * 3 <? 0 then Panic
  else Ok (MkQueue (MkLogChan [] 0) (MkLogChan [] 0) maxFlush).

Definition capacity (q : Queue) : nat := Z.to_nat (maxFlushCount q * 3).

(** Whether a goroutine is started to consume the queue. *)
Definition consumeIfNeed (q : Queue) : bool :=
  maxFlushCount q <=? Z.of_nat (length (waiting (kernelLogs q)) + length (waiting (protocolLogs q))).

Definition AppendKernelLog (log : kernelLogEvent) (q : Queue) : bool * Queue :=
  let '(sent, c) := chan_send (capacity q) log (kernelLogs q) in
  let q := MkQueue c (protocolLogs q) (maxFlushCount q) in
  (sent && consumeIfNeed q, q).

Definition AppendProtocolLog (log : ProtocolEventData) (q : Queue) : bool * Queue :=
  let '(sent, c) := chan_send (capacity q) log (protocolLogs q) in
  let q := MkQueue (kernelLogs q) c (maxFlushCount q) in
  (sent && consumeIfNeed q, q).

Definition SendTransferNoProtocolEvent (e : SocketDetailEvent) (q : Queue) : bool * Queue :=
  AppendKernelLog (MkKernelLogEvent LogTypeKernelTransfer (DetailEvent e)) q.

(** ** Draining a channel *)

Section drain.
Context {St X B : Type} (cap : nat) (handle : X → B → act St Empty_set (B * bool)).

(** The delayed logs go back while there is room. *)
Fixpoint flush_delayed (arrivals : list (list X)) (c : log_chan X) (delayAppends : list X)
  : log_chan X :=
  let c := offer cap (hd [] arrivals) c in
  match delayAppends with
  | [] => offer cap (concat (tail arrivals)) c
  | x :: rest =>
    if decide (length (waiting c) < cap)%nat
    then flush_delayed (tail arrivals) (MkLogChan (waiting c ++ [x]) (drops c)) rest
    else offer cap (concat (tail arrivals)) c
  end.

(** The receive loop; [n] bounds the logs that can be received. *)
Fixpoint drain (n : nat) (arrivals : list (list X)) (c : log_chan X) (delayAppends : list X)
    (batch : B) : act St Empty_set (B * log_chan X) :=
  match n with
  | O => mret (batch, c)
  | S n =>
    let c := offer cap (hd [] arrivals) c in
    match waiting c with
    | [] => mret (batch, flush_delayed (tail arrivals) c delayAppends)
    | x :: rest =>
      '(batch, delay) ← handle x batch;
      drain n (tail arrivals) (MkLogChan rest (drops c))
        (if delay : bool then delayAppends ++ [x] else delayAppends) batch
    end
  end.

Definition receive_bound (arrivals : list (list X)) (c : log_chan X) : nat :=
  S (length (waiting c) + length (concat arrivals)).
End drain.

(** ** The runner *)

Notation kernelAccessLogCacheTime := (10 * second) (only parsing).

Definition event_Timestamp (bootTime : Z) (ev : Event) : Z :=
  host_Time bootTime match ev with
                     | ConnectEventWithSocket e _ => connect_StartTime e
                     | CloseEventWithNotify e => close_StartTime e
                     | DetailEvent e => detail_StartTime e
                     end.

Section runner.
Context `{RangeOrder} {M C CM AM PB L : Type}.
Context `{!EbpfMap Z Z M} `{!ExpiringCache Z ProcessVerdict C} `{!ConcurrentMap positive CM}.
Context `{!EbpfMap Z ActiveConnection AM} `{!ExpiringCache string bool PB}.
Context (flushListeners : list (FlusherListener L)) (grace : Z).
Context (hostAddresses : gset string) (query : IPTuple → option (list Con)).
Context (pidExists : Z → option bool) (bootTime : Z).
Notation Mgr := (Manager M C CM AM PB L).

Definition shouldReportProcessLog (pid : Z) (s : Mgr) : bool :=
  if ProcessIsMonitor pid (monitor s) then true
  else match pidExists (i32 pid) with
       | None => false
       | Some exists_ => negb exists_
       end.

Definition buildKernelLog (now : Z) (kernelLog : kernelLogEvent)
  : act Mgr Empty_set (option positive * option AccessLogKernelLog * bool) :=
  let ev := log_event kernelLog in
  let pid := fst (ParseConnectionID (GetConnectionID ev)) in
  s ← get;
  if negb (shouldReportProcessLog pid s) then mret (None, None, false)
  else
    connection ← Find flushListeners hostAddresses query now ev;
    match connection with
    | None =>
      if kernelAccessLogCacheTime <? now - event_Timestamp bootTime ev
      then mret (None, None, false) else mret (None, None, true)
    | Some ref =>
      defer ← ShouldDeferForResolution flushListeners grace now (Some ref);
      if defer : bool then mret (None, None, true)
      else
        event ← lift (BuildKernelLogFromEvent (logType kernelLog) ev);
        mret (Some ref, event, false)
    end.

(** The logs of the related details, those without a log left out. *)
Fixpoint relatedLogs (details : list SocketDetailEvent)
  : res Empty_set (list AccessLogKernelLog) :=
  match details with
  | [] => Ok []
  | kl :: rest =>
    event ← BuildKernelLogFromEvent LogTypeKernelTransfer (DetailEvent kl);
    logs ← relatedLogs rest;
    Ok (match event with Some e => e :: logs | None => logs end)
  end.

Definition buildProtocolLog (now : Z) (protocolLog : ProtocolEventData)
  : act Mgr Empty_set
      (option positive * list AccessLogKernelLog * option AccessLogHTTPProtocol * bool) :=
  match KernelLogs protocolLog with
  | [] => mret (None, [], None, false)
  | firstKernelLog :: _ =>
    let ev := DetailEvent firstKernelLog in
    let pid := fst (ParseConnectionID (GetConnectionID ev)) in
    s ← get;
    if negb (shouldReportProcessLog pid s) then mret (None, [], None, false)
    else
      connection ← Find flushListeners hostAddresses query now ev;
      match connection with
      | None =>
        if kernelAccessLogCacheTime <? now - event_Timestamp bootTime ev
        then mret (None, [], None, false) else mret (None, [], None, true)
      | Some ref =>
        defer ← ShouldDeferForResolution flushListeners grace now (Some ref);
        if defer : bool then mret (None, [], None, true)
        else
          kernelLogs ← lift (relatedLogs (KernelLogs protocolLog));
          mret (Some ref, kernelLogs, ProtocolLogData protocolLog, false)
      end
  end.

(** One received log: the batch and whether it is delayed. *)
Definition handleKernelLog (now : Z) (kernelLog : kernelLogEvent) (batch : BatchLogs)
  : act Mgr Empty_set (BatchLogs * bool) :=
  built ← buildKernelLog now kernelLog;
  match built with
  | (Some connection, Some curLog, _) =>
    mret (batch_AppendKernelLog connection curLog batch, false)
  | (_, _, delay) => mret (batch, delay)
  end.

Definition handleProtocolLog (now : Z) (protocolLog : ProtocolEventData) (batch : BatchLogs)
  : act Mgr Empty_set (BatchLogs * bool) :=
  built ← buildProtocolLog now protocolLog;
  match built with
  | (Some connection, k :: ks, Some p, _) =>
    mret (batch_AppendProtocolLog connection (k :: ks) p batch, false)
  | (_, _, _, delay) => mret (batch, delay)
  end.

Definition buildKernelLogs (cap : nat) (now : Z) (arrivals : list (list kernelLogEvent))
    (c : log_chan kernelLogEvent) (batch : BatchLogs)
  : act Mgr Empty_set (BatchLogs * log_chan kernelLogEvent) :=
  drain cap (handleKernelLog now) (receive_bound arrivals c) arrivals c [] batch.

Definition buildProtocolLogs (cap : nat) (now : Z) (arrivals : list (list ProtocolEventData))
    (c : log_chan ProtocolEventData) (batch : BatchLogs)
  : act Mgr Empty_set (BatchLogs * log_chan ProtocolEventData) :=
  drain cap (handleProtocolLog now) (receive_bound arrivals c) arrivals c [] batch.

(** The kernel logs are drained first; the protocol logs that arrive meanwhile wait in
    their channel. *)
Definition buildConnectionLogs (now : Z) (ka : list (list kernelLogEvent))
    (pa : list (list ProtocolEventData)) (q : Queue) (batch : BatchLogs)
  : act Mgr Empty_set (BatchLogs * Queue) :=
  '(batch, kc) ← buildKernelLogs (capacity q) now ka (kernelLogs q) batch;
  '(batch, pc) ← buildProtocolLogs (capacity q) now pa (protocolLogs q) batch;
  OnBuildConnectionLogFinished flushListeners now;;
  mret (batch, MkQueue kc pc (maxFlushCount q)).

(** [connected] is the status of the backend; [locked] that another call is consuming. *)
Definition Consume (now : Z) (connected locked : bool) (ka : list (list kernelLogEvent))
    (pa : list (list ProtocolEventData)) (q : Queue) (gs : GRPCSender)
  : act Mgr Empty_set (Queue * GRPCSender) :=
  if locked || negb connected then mret (q, gs)
  else
    '(batch, q) ← buildConnectionLogs now ka pa q ∅;
    mret (q, AddBatch batch gs).
End runner.

(** ** What becomes of a log *)

Inductive verdict : Type :=
| EmitKernel (ref : positive) (log : AccessLogKernelLog)
| EmitProtocol (ref : positive) (ks : list AccessLogKernelLog) (p : AccessLogHTTPProtocol)
| Delay
| Discard.

Definition is_delay (v : verdict) : bool := match v with Delay => true | _ => false end.

Definition apply_verdict (b : BatchLogs) (v : verdict) : BatchLogs :=
  match v with
  | EmitKernel ref log => batch_AppendKernelLog ref log b
  | EmitProtocol ref ks p => batch_AppendProtocolLog ref ks p b
  | _ => b
  end.

(** The logs that are delayed, in their order. *)
Fixpoint delayed {X} (xs : list X) (vs : list verdict) : list X :=
  match xs, vs with
  | x :: xs, v :: vs => if is_delay v then x :: delayed xs vs else delayed xs vs
  | _, _ => []
  end.

(** A channel [c] and the logs [arrivals] of the producers against the channel [c']
    that is left: every log is received, with a verdict, or arrives too late to be
    received and waits, or found the channel full and is counted.  The delayed logs
    wait again; only the last of them can be lost, and only when the channel is full,
    which takes logs of producers. *)
Record drained {X} (ok : X → verdict → Prop) (cap : nat) (arrivals : list (list X))
    (c c' : log_chan X) (recv : list X) (vs : list verdict) (lost : list X) : Prop := {
  dr_verdicts : Forall2 ok recv vs;
  dr_order : waiting c `prefix_of` recv;
  dr_conserved : ∃ kept late dropped,
    waiting c ++ concat arrivals ≡ₚ recv ++ late ++ dropped ∧
    delayed recv vs = kept ++ lost ∧ waiting c' ≡ₚ kept ++ late ∧
    drops c' = drops c + Z.of_nat (length dropped);
  dr_bounded : (length (waiting c') ≤ cap)%nat;
  dr_full : lost ≠ [] → length (waiting c') = cap;
  dr_alone : concat arrivals = [] →
    recv = waiting c ∧ lost = [] ∧ waiting c' = delayed recv vs ∧ drops c' = drops c
}.

Lemma drained_mono {X} (ok ok' : X → verdict → Prop) cap arrivals c c' recv vs lost :
  (∀ x v, ok x v → ok' x v) →
  drained ok cap arrivals c c' recv vs lost → drained ok' cap arrivals c c' recv vs lost.
Proof. intros Hm []. split; [|done..]. by eapply Forall2_impl. Qed.

Section chan_lemmas.
Context {X : Type} (cap : nat).
Implicit Types (c : log_chan X).

Lemma offer_cons x xs c : offer cap (x :: xs) c = offer cap xs (snd (chan_send cap x c)).
Proof. done. Qed.

Lemma offer_spec xs c :
  (length (waiting c) ≤ cap)%nat →
  ∃ acc rej, waiting (offer cap xs c) = waiting c ++ acc ∧
    drops (offer cap xs c) = drops c + Z.of_nat (length rej) ∧
    acc ++ rej ≡ₚ xs ∧ (length (waiting (offer cap xs c)) ≤ cap)%nat.
Proof.
  revert c. induction xs as [|x xs IH]; intros c Hc.
  { exists [], []. simpl. rewrite app_nil_r. split_and!; [done|lia|done|done]. }
  rewrite offer_cons. unfold chan_send. case_decide as Hlt; simpl.
  - destruct (IH (MkLogChan (waiting c ++ [x]) (drops c))) as (acc & rej & Hw & Hd & Hp & Hl);
      [simpl; rewrite length_app; simpl; lia|]. simpl in *.
    exists (x :: acc), rej. rewrite Hw, <- app_assoc. split_and!; [done|done|by rewrite <- Hp|].
    by rewrite <- app_assoc, <- Hw in *.
  - destruct (IH (MkLogChan (waiting c) (drops c + 1))) as (acc & rej & Hw & Hd & Hp & Hl); [done|].
    simpl in *. exists acc, (x :: rej). rewrite Hw, Hd. simpl length.
    split_and!; [done|lia| |by rewrite <- Hw]. rewrite <- Hp. by rewrite Permutation_middle.
Qed.

Lemma offer_nil c : offer cap [] c = c.
Proof. done. Qed.

Lemma flush_spec late c dl :
  (length (waiting c) ≤ cap)%nat →
  ∃ kept lost acc rej, dl = kept ++ lost ∧
    waiting (flush_delayed cap late c dl) ≡ₚ waiting c ++ kept ++ acc ∧
    drops (flush_delayed cap late c dl) = drops c + Z.of_nat (length rej) ∧
    acc ++ rej ≡ₚ concat late ∧
    (length (waiting (flush_delayed cap late c dl)) ≤ cap)%nat ∧
    (lost ≠ [] → length (waiting (flush_delayed cap late c dl)) = cap).
Proof.
  revert late c. induction dl as [|x dl IH]; intros late c Hc; simpl.
  all: destruct (offer_spec (hd [] late) c Hc) as (a1 & r1 & Hw & Hd & Hp & Hl).
  all: assert (Hlate : concat late = hd [] late ++ concat (tail late)) by (by destruct late).
  - destruct (offer_spec (concat (tail late)) _ Hl) as (a2 & r2 & Hw2 & Hd2 & Hp2 & Hl2).
    exists [], [], (a1 ++ a2), (r1 ++ r2). rewrite Hw2, Hw, Hd2, Hd, Hlate, length_app.
    split_and!; [done|solve_Permutation|lia| |by rewrite <- Hw, <- Hw2|done].
    rewrite <- Hp, <- Hp2. solve_Permutation.
  - case_decide as Hlt.
    + destruct (IH (tail late) (MkLogChan (waiting (offer cap (hd [] late) c) ++ [x])
        (drops (offer cap (hd [] late) c)))) as (kept & lost & a2 & r2 & -> & Hw2 & Hd2 & Hp2 & Hl2 & Hf2);
        [simpl; rewrite length_app; simpl; lia|]. simpl in *.
      exists (x :: kept), lost, (a1 ++ a2), (r1 ++ r2). rewrite length_app.
      split_and!; [done|rewrite Hw2, Hw; solve_Permutation|lia| |done|done].
      rewrite Hlate, <- Hp, <- Hp2. solve_Permutation.
    + destruct (offer_spec (concat (tail late)) _ Hl) as (a2 & r2 & Hw2 & Hd2 & Hp2 & Hl2).
      exists [], (x :: dl), (a1 ++ a2), (r1 ++ r2).
      assert (Hfull : length (waiting (offer cap (concat (tail late)) (offer cap (hd [] late) c))) = cap).
      { pose proof (f_equal length Hw2) as Hlen. rewrite length_app in Hlen. lia. }
      rewrite Hw2, Hw, Hd2, Hd, Hlate, length_app.
      split_and!; [done|solve_Permutation|lia| |by rewrite <- Hw, <- Hw2|by rewrite <- Hw, <- Hw2].
      rewrite <- Hp, <- Hp2. solve_Permutation.
Qed.
End chan_lemmas.

Lemma flush_alone {X} cap late (w dl : list X) d :
  concat late = [] → (length w + length dl ≤ cap)%nat →
  flush_delayed cap late (MkLogChan w d) dl = MkLogChan (w ++ dl) d.
Proof.
  intros Hl. assert (Hh : hd [] late = [] ∧ concat (tail late) = []).
  { destruct late as [|h late]; [done|]. by apply app_eq_nil in Hl. }
  clear Hl. revert late w Hh. induction dl as [|x dl IH]; intros late w [Hh Ht] Hlen; simpl.
  - rewrite Hh, Ht, !offer_nil. by rewrite app_nil_r.
  - rewrite Hh, offer_nil. simpl in *. rewrite decide_True by lia.
    rewrite IH; [by rewrite <- app_assoc| |rewrite length_app; simpl; lia].
    destruct late as [|h late]; [done|]. simpl in *.
    destruct late as [|h' late]; [done|]. by apply app_eq_nil in Ht.
Qed.

Lemma delayed_app {X} (xs ys : list X) vs ws :
  length xs = length vs → delayed (xs ++ ys) (vs ++ ws) = delayed xs vs ++ delayed ys ws.
Proof.
  revert vs. induction xs as [|x xs IH]; intros [|v vs] Hl; simpl; [done..|].
  rewrite IH by (simpl in Hl; lia). by destruct (is_delay v).
Qed.

Lemma delayed_length {X} (xs : list X) vs : (length (delayed xs vs) ≤ length xs)%nat.
Proof.
  revert vs. induction xs as [|x xs IH]; intros [|v vs]; simpl; [lia..|].
  specialize (IH vs). destruct (is_delay v); simpl; lia.
Qed.

Section drain_lemmas.
Context {St X : Type} (cap : nat) (handle : X → BatchLogs → act St Empty_set (BatchLogs * bool)).
Context (R : St → St → Prop) `{!PreOrder R} (Inv : St → Prop).
Context (P : X → Prop) (ok : St → X → verdict → Prop).
Context (Inv_R : ∀ s s', R s s' → Inv s → Inv s').
Context (ok_R : ∀ s s' x v, R s s' → ok s x v → ok s' x v).
Context (handle_ok : ∀ s x b, Inv s → P x →
  wp (handle x b) (λ r s', R s s' ∧ ∃ v, ok s' x v ∧ r = (apply_verdict b v, is_delay v)) s).

Lemma drain_loop n arrivals (c : log_chan X) dl b s :
  Inv s → Forall P (waiting c ++ concat arrivals) → (length (waiting c) ≤ cap)%nat →
  (length (waiting c) + length (concat arrivals) < n)%nat →
  wp (drain cap handle n arrivals c dl b)
    (λ r s', R s s' ∧ ∃ recv vs late dropped,
       Forall2 (ok s') recv vs ∧ r.1 = foldl apply_verdict b vs ∧
       r.2 = flush_delayed cap late (MkLogChan [] (drops c + Z.of_nat (length dropped)))
               (dl ++ delayed recv vs) ∧
       waiting c ++ concat arrivals ≡ₚ recv ++ dropped ++ concat late ∧
       waiting c `prefix_of` recv ∧
       (concat arrivals = [] → recv = waiting c ∧ dropped = [] ∧ concat late = [])) s.
Proof.
  revert arrivals c dl b s. induction n as [|n IH]; intros arrivals c dl b s Hinv HP Hcap Hn; [lia|].
  cbn [drain]. destruct (offer_spec cap (hd [] arrivals) c Hcap) as (acc & rej & Hw & Hd & Hp & Hl).
  assert (Ha : concat arrivals = hd [] arrivals ++ concat (tail arrivals)) by (by destruct arrivals).
  rewrite Ha in *. rewrite <- Hp in HP, Hn.
  destruct (offer cap (hd [] arrivals) c) as [w d]. simpl in Hw, Hd, Hl. cbn [waiting drops].
  assert (Halone : hd [] arrivals ++ concat (tail arrivals) = [] →
    acc = [] ∧ rej = [] ∧ concat (tail arrivals) = []).
  { intros [Hh ->]%app_eq_nil. rewrite Hh in Hp. apply Permutation_nil_r, app_eq_nil in Hp.
    by destruct Hp as [-> ->]. }
  destruct w as [|x w].
  - symmetry in Hw. apply app_eq_nil in Hw as [Hw0 ->]. wp_steps. split; [done|].
    exists [], [], (tail arrivals), rej. rewrite Hw0, Hd. simpl.
    split_and!; [constructor|done|by rewrite app_nil_r|by rewrite <- Hp|done|].
    by intros (_ & -> & ->)%Halone.
  - apply wp_bind. eapply wp_mono.
    { apply handle_ok; [done|]. rewrite Forall_forall in HP. apply HP.
      rewrite !app_assoc, <- Hw. do 2 (apply elem_of_app; left). left. }
    intros r s1 (HR & v & Hok & ->). cbn beta iota.
    eapply wp_mono; [apply IH|].
    + by apply (Inv_R s).
    + rewrite !app_assoc, <- Hw, !Forall_app, Forall_cons in HP.
      destruct HP as [[[_ ?] _] ?]. by apply Forall_app.
    + simpl in Hl. simpl. lia.
    + apply (f_equal length) in Hw. rewrite !length_app in *. simpl in *. lia.
    + intros [b' c'] s2 (HR2 & recv & vs & late & dropped & Hoks & Hb & Hc & Hperm & Hpre & Hal).
      simpl in *. split; [by trans s1|].
      exists (x :: recv), (v :: vs), late, (rej ++ dropped). split_and!.
      * constructor; [by apply (ok_R s1)|done].
      * done.
      * rewrite Hc, Hd, length_app. f_equal; [f_equal; lia|]. simpl.
        destruct (is_delay v); [by rewrite <- app_assoc|done].
      * rewrite <- Hp, !app_assoc, <- Hw. simpl. constructor. rewrite (Permutation_app_comm w), <- app_assoc.
        rewrite Hperm. solve_Permutation.
      * destruct Hpre as [k ->]. exists (acc ++ k). by rewrite app_comm_cons, Hw, app_assoc.
      * intros (-> & -> & Ht)%Halone. rewrite app_nil_r in Hw. subst.
        destruct (Hal Ht) as (-> & -> & ->). done.
Qed.

Lemma drain_spec arrivals (c : log_chan X) b s :
  Inv s → Forall P (waiting c ++ concat arrivals) → (length (waiting c) ≤ cap)%nat →
  wp (drain cap handle (receive_bound arrivals c) arrivals c [] b)
    (λ r s', R s s' ∧ ∃ recv vs lost,
       drained (ok s') cap arrivals c r.2 recv vs lost ∧ r.1 = foldl apply_verdict b vs) s.
Proof.
  intros Hinv HP Hcap. eapply wp_mono; [apply drain_loop; [done..|unfold receive_bound; lia]|].
  intros [b' c'] s' (HR & recv & vs & late & dropped & Hok & Hb & Hc & Hperm & Hpre & Hal).
  split; [done|]. simpl in *. exists recv, vs.
  destruct (flush_spec cap late (MkLogChan [] (drops c + Z.of_nat (length dropped)))
    (delayed recv vs)) as (kept & lost & acc & rej & Hdl & Hw & Hd & Hp & Hl & Hf); [simpl; lia|].
  rewrite <- Hc in Hw, Hd, Hl, Hf. simpl in *. exists lost. split; [|done]. split; [done|done| |done|done|].
  - exists kept, acc, (dropped ++ rej). rewrite Hperm, Hw, Hd, length_app, <- Hp.
    split_and!; [solve_Permutation|done|done|lia].
  - intros Ha. destruct (Hal Ha) as (Hrecv & -> & Hlate).
    assert (Hlen : (length (delayed recv vs) ≤ cap)%nat).
    { pose proof (delayed_length recv vs). rewrite Hrecv in H at 2. lia. }
    rewrite flush_alone in Hc by done. simpl in Hc. rewrite Hlate in Hp.
    apply Permutation_nil_r, app_eq_nil in Hp as [-> _]. subst c'. simpl in *.
    apply Permutation_length in Hw. rewrite Hdl in Hw at 1. rewrite !length_app in Hw. simpl in Hw.
    split_and!; [done| |done|lia]. apply length_zero_iff_nil. lia.
Qed.
End drain_lemmas.

(** ** The verdicts of the runner *)

Section runner_lemmas.
Context `{RangeOrder} {M C CM AM PB L : Type}.
Context `{!EbpfMap Z Z M} `{!ExpiringCache Z ProcessVerdict C} `{!ConcurrentMap positive CM}.
Context `{!EbpfMap Z ActiveConnection AM} `{!ExpiringCache string bool PB}.
Context (flushListeners : list (FlusherListener L)) (grace : Z).
Context (hostAddresses : gset string) (query : IPTuple → option (list Con)).
Context (pidExists : Z → option bool) (bootTime now : Z) (mon : Monitor M C).
Context (Hlawful : Forall LawfulListener flushListeners).
Notation Mgr := (Manager M C CM AM PB L).
Implicit Types (s : Mgr).

(** The logs of a process are reported: it is monitored, or it is gone. *)
Definition reported (ev : Event) : Prop :=
  let pid := fst (ParseConnectionID (GetConnectionID ev)) in
  ProcessIsMonitor pid mon = true ∨ pidExists (i32 pid) = Some false.

(** Too old to wait for its connection. *)
Definition expired (ev : Event) : Prop :=
  kernelAccessLogCacheTime < now - event_Timestamp bootTime ev.

(** [ref] is the connection with the ids of the event. *)
Definition known_as s (ev : Event) (ref : positive) : Prop :=
  ∃ c, heap s !! ref = Some c ∧ conn_ok (connectionKey (GetConnectionID ev) (GetRandomID ev)) c.

Definition kernel_ok s (x : kernelLogEvent) (v : verdict) : Prop :=
  match v with
  | EmitKernel ref log =>
    BuildKernelLogFromEvent (logType x) (log_event x) = Ok (Some log) ∧
    known_as s (log_event x) ref ∧ reported (log_event x)
  | EmitProtocol _ _ _ => False
  | Delay => reported (log_event x)
  | Discard => ¬ reported (log_event x) ∨ expired (log_event x) ∨
               BuildKernelLogFromEvent (logType x) (log_event x) = Ok None
  end.

Definition protocol_ok s (x : ProtocolEventData) (v : verdict) : Prop :=
  match v with
  | EmitProtocol ref ks p =>
    relatedLogs (KernelLogs x) = Ok ks ∧ ks ≠ [] ∧ ProtocolLogData x = Some p ∧
    ∃ first rest, KernelLogs x = first :: rest ∧ known_as s (DetailEvent first) ref ∧
      reported (DetailEvent first)
  | EmitKernel _ _ => False
  | Delay => ∃ first rest, KernelLogs x = first :: rest ∧ reported (DetailEvent first)
  | Discard => relatedLogs (KernelLogs x) = Ok [] ∨ ProtocolLogData x = None ∨
      ∃ first rest, KernelLogs x = first :: rest ∧
        (¬ reported (DetailEvent first) ∨ expired (DetailEvent first))
  end.

(** The log has the event its builder expects. *)
Definition log_typed (x : kernelLogEvent) : Prop :=
  match logType x, log_event x with
  | LogTypeConnect, ConnectEventWithSocket _ _ | LogTypeKernelTransfer, DetailEvent _
  | LogTypeClose, CloseEventWithNotify _ => True
  | _, _ => False
  end.

Lemma shouldReport_reported s ev :
  monitor s = mon →
  shouldReportProcessLog pidExists (fst (ParseConnectionID (GetConnectionID ev))) s = true ↔
  reported ev.
Proof.
  intros <-. unfold shouldReportProcessLog, reported. case_match; [naive_solver|].
  destruct (pidExists _) as [[]|]; naive_solver.
Qed.

Lemma typed_builds x : log_typed x →
  ∃ o, BuildKernelLogFromEvent (logType x) (log_event x) = Ok o.
Proof.
  destruct x as [[] []]; simpl; try done; intros _;
    unfold connectLogBuilder, kernelTransferLogBuilder, closeLogBuilder; repeat case_match; by eexists.
Qed.

Lemma relatedLogs_total ds : ∃ ks, relatedLogs ds = Ok ks.
Proof.
  induction ds as [|d ds [ks IH]]; simpl; [by eexists|].
  destruct (typed_builds (MkKernelLogEvent LogTypeKernelTransfer (DetailEvent d)) I) as [o Ho].
  simpl in Ho. rewrite Ho. simpl. rewrite IH. by eexists.
Qed.

Definition moves s s' : Prop := quiet s s' ∧ monitor s' = monitor s.

Global Instance moves_preorder : PreOrder moves.
Proof.
  split; [by intros s; split|]. intros s1 s2 s3 [H1 E1] [H2 E2]. split; [by trans s2|congruence].
Qed.

Lemma known_as_evolves s s' ev ref : heap_evolves s s' → known_as s ev ref → known_as s' ev ref.
Proof.
  intros He (c & Hc & Hok). destruct (He _ _ Hc) as (c' & Hc' & Hev). exists c'.
  split; [done|]. by eapply conn_ok_evolves.
Qed.

(** Looking up the connection of an event, and whether its log has to wait. *)
Lemma wp_locate {A} ev s (kNone : act Mgr Empty_set A) (kSome : positive → bool → act Mgr Empty_set A) Q :
  manager_inv s →
  (∀ s', moves s s' → wp kNone Q s') →
  (∀ ref defer s', moves s s' → known_as s' ev ref → wp (kSome ref defer) Q s') →
  wp (connection ← Find flushListeners hostAddresses query now ev;
      match connection with
      | None => kNone
      | Some ref => defer ← ShouldDeferForResolution flushListeners grace now (Some ref);
                    kSome ref defer
      end) Q s.
Proof.
  intros Hinv Hnone Hsome. apply wp_bind. eapply wp_mono; [by apply Find_quiet|].
  intros [ref|] s1 (Hq & Hm & Hk); [|by apply Hnone].
  assert (Hi1 : manager_inv s1) by (by apply Hq).
  destruct (inv_refs _ Hi1 _ _ Hk) as (c & Hc & Hok).
  apply wp_bind. eapply wp_mono; [by eapply ShouldDefer_spec|].
  intros b s2 ((Hq2 & _ & Hm2) & _). apply Hsome.
  - trans s1; by split.
  - eapply known_as_evolves; [apply Hq2|]. by exists c.
Qed.

Definition serving s : Prop := manager_inv s ∧ monitor s = mon.

Lemma serving_moves s s' : moves s s' → serving s → serving s'.
Proof. intros [(He & _) Hm] [Hi Hmon]. split; [by apply He|congruence]. Qed.

Lemma moves_heap s s' : moves s s' → heap_evolves s s'.
Proof. by intros [([_ Hh] & _) _]. Qed.

Lemma kernel_ok_evolves s s' x v : heap_evolves s s' → kernel_ok s x v → kernel_ok s' x v.
Proof.
  intros He. destruct v; simpl; [|done..]. intros (? & ? & ?). split_and!; [done| |done].
  by eapply known_as_evolves.
Qed.

Lemma protocol_ok_evolves s s' x v : heap_evolves s s' → protocol_ok s x v → protocol_ok s' x v.
Proof.
  intros He. destruct v; simpl; [done| |done..].
  intros (? & ? & ? & f & r & ? & ? & ?). split_and!; [done..|]. exists f, r. split_and!; [done| |done].
  by eapply known_as_evolves.
Qed.

Lemma handleKernelLog_ok s x b :
  serving s → log_typed x →
  wp (handleKernelLog flushListeners grace hostAddresses query pidExists bootTime now x b)
    (λ r s', moves s s' ∧ ∃ v, kernel_ok s' x v ∧ r = (apply_verdict b v, is_delay v)) s.
Proof.
  intros [Hinv Hmon] Hty. unfold handleKernelLog, buildKernelLog. apply wp_bind. wp_step. wp_step.
  pose proof (shouldReport_reported s (log_event x) Hmon) as Hrep.
  destruct (shouldReportProcessLog _ _ _); cbn [negb].
  2:{ wp_steps. split; [done|]. exists Discard. split; [|done]. left. rewrite <- Hrep. done. }
  assert (Hr : reported (log_event x)) by (by apply Hrep).
  apply wp_locate; [done| |].
  - intros s' Hmv. destruct (Z.ltb_spec (10 * second) (now - event_Timestamp bootTime (log_event x)));
      wp_steps; (split; [done|]); [exists Discard|exists Delay]; (split; [|done]); [|done].
    right. by left.
  - intros ref [] s' Hmv Hk.
    + wp_steps. split; [done|]. by exists Delay.
    + destruct (typed_builds x Hty) as [o Ho]. apply wp_bind. rewrite Ho. unfold lift, wp at 1.
      simpl. destruct o as [log|]; wp_steps; (split; [done|]).
      * by exists (EmitKernel ref log).
      * exists Discard. split; [|done]. right. by right.
Qed.

Lemma handleProtocolLog_ok s x b :
  serving s →
  wp (handleProtocolLog flushListeners grace hostAddresses query pidExists bootTime now x b)
    (λ r s', moves s s' ∧ ∃ v, protocol_ok s' x v ∧ r = (apply_verdict b v, is_delay v)) s.
Proof.
  intros [Hinv Hmon]. unfold handleProtocolLog, buildProtocolLog. apply wp_bind.
  destruct (KernelLogs x) as [|f rest] eqn:Hx.
  { wp_steps. split; [done|]. exists Discard. split; [|done]. left. by rewrite Hx. }
  wp_step. wp_step. set (ev := DetailEvent f).
  pose proof (shouldReport_reported s ev Hmon) as Hrep.
  destruct (shouldReportProcessLog _ _ _); cbn [negb].
  2:{ wp_steps. split; [done|]. exists Discard. split; [|done]. right. right. exists f, rest.
      split; [done|]. left. fold ev. rewrite <- Hrep. done. }
  assert (Hr : reported ev) by (by apply Hrep).
  apply wp_locate; [done| |].
  - intros s' Hmv. destruct (Z.ltb_spec (10 * second) (now - event_Timestamp bootTime ev));
      wp_steps; (split; [done|]); [exists Discard|exists Delay]; (split; [|done]); simpl.
    + right. right. exists f, rest. split; [done|]. by right.
    + by exists f, rest.
  - intros ref [] s' Hmv Hk.
    + wp_steps. split; [done|]. exists Delay. split; [|done]. by exists f, rest.
    + destruct (relatedLogs_total (f :: rest)) as [ks Hks]. apply wp_bind. rewrite Hks.
      unfold lift, wp at 1. destruct ks as [|k ks]; [|destruct (ProtocolLogData x) as [p|] eqn:Hp];
        wp_steps; (split; [done|]).
      * exists Discard. split; [|done]. left. by rewrite Hx.
      * exists (EmitProtocol ref (k :: ks) p). split; [|done]. simpl. rewrite Hx. split_and!; [done..|].
        by exists f, rest.
      * exists Discard. split; [|done]. right. by left.
Qed.

(** The connections of a batch are in the store, with their RPC messages. *)
Definition batch_known s (b : BatchLogs) : Prop :=
  ∀ ref lg, b !! ref = Some lg → is_Some (heap s !! ref ≫= RPCConnection).

Lemma batch_known_evolves s s' b : heap_evolves s s' → batch_known s b → batch_known s' b.
Proof.
  intros He Hb ref lg Hr. destruct (Hb ref lg Hr) as [rpc (c & Hc & Hrpc)%bind_Some].
  destruct (He _ _ Hc) as (c' & -> & Hev). simpl.
  destruct (ev_rpc _ _ Hev _ Hrpc) as (r' & -> & _). by eexists.
Qed.

Definition verdict_known s (v : verdict) : Prop :=
  match v with
  | EmitKernel ref _ | EmitProtocol ref _ _ => is_Some (heap s !! ref ≫= RPCConnection)
  | _ => True
  end.

Lemma known_as_rpc s ev ref : known_as s ev ref → is_Some (heap s !! ref ≫= RPCConnection).
Proof. intros (c & Hc & _ & Hr). by rewrite Hc. Qed.

Lemma kernel_verdicts_known s recv vs :
  Forall2 (kernel_ok s) recv vs → Forall (verdict_known s) vs.
Proof.
  intros Hf. eapply Forall2_Forall_r; [done|]. apply Forall_true. intros x v.
  destruct v; simpl; [|done..]. intros (_ & Hk & _). by eapply known_as_rpc.
Qed.

Lemma protocol_verdicts_known s recv vs :
  Forall2 (protocol_ok s) recv vs → Forall (verdict_known s) vs.
Proof.
  intros Hf. eapply Forall2_Forall_r; [done|]. apply Forall_true. intros x v.
  destruct v; simpl; [done| |done..]. intros (_ & _ & _ & f & r & _ & Hk & _).
  by eapply known_as_rpc.
Qed.

Lemma apply_known s b vs :
  batch_known s b → Forall (verdict_known s) vs → batch_known s (foldl apply_verdict b vs).
Proof.
  intros Hb Hvs. revert b Hb. induction Hvs as [|v vs Hv _ IH]; intros b Hb; simpl; [done|].
  apply IH. intros ref lg. destruct v; simpl in *; [..|apply Hb|apply Hb];
    unfold batch_AppendKernelLog, batch_AppendProtocolLog;
    (intros [[<- _]|[_ ?]]%lookup_insert_Some; [done|by eapply Hb]).
Qed.

(** What [Consume] does when it runs. *)
Lemma Consume_spec ka pa q gs s :
  serving s → Forall log_typed (waiting (kernelLogs q) ++ concat ka) →
  (length (waiting (kernelLogs q)) ≤ capacity q)%nat →
  (length (waiting (protocolLogs q)) ≤ capacity q)%nat →
  wp (Consume flushListeners grace hostAddresses query pidExists bootTime now true false ka pa q gs)
    (λ r s', evolves s s' ∧ ∃ kr kv klost pr pv plost,
       drained (kernel_ok s') (capacity q) ka (kernelLogs q) (kernelLogs r.1) kr kv klost ∧
       drained (protocol_ok s') (capacity q) pa (protocolLogs q) (protocolLogs r.1) pr pv plost ∧
       maxFlushCount r.1 = maxFlushCount q ∧
       r.2 = AddBatch (foldl apply_verdict ∅ (kv ++ pv)) gs) s.
Proof.
  intros Hs Hty Hk Hp. unfold Consume, buildConnectionLogs. cbn [negb orb]. apply wp_bind, wp_bind.
  eapply wp_mono.
  { apply (drain_spec _ _ moves serving log_typed kernel_ok); [..|done|done|done];
      eauto using serving_moves, kernel_ok_evolves, moves_heap, handleKernelLog_ok. }
  intros [b1 kc] s1 (Hm1 & kr & kv & klost & Hkd & Hb1). cbn beta iota. apply wp_bind.
  eapply wp_mono.
  { apply (drain_spec _ _ moves serving (λ _, True) protocol_ok);
      eauto using serving_moves, protocol_ok_evolves, moves_heap, handleProtocolLog_ok, Forall_true. }
  intros [b2 pc] s2 (Hm2 & pr & pv & plost & Hpd & Hb2). cbn beta iota. apply wp_bind.
  assert (Hs2 : serving s2) by eauto using serving_moves.
  eapply wp_mono; [apply OnBuildConnectionLogFinished_spec; [done|apply Hs2]|].
  intros _ s3 (He3 & _). wp_steps. cbn [fst snd kernelLogs protocolLogs maxFlushCount].
  assert (Hmv : moves s s2) by (by trans s1). split; [trans s2; [apply Hmv|done]|].
  exists kr, kv, klost, pr, pv, plost. split_and!; [| |done|].
  - eapply drained_mono; [|exact Hkd]. intros x v. apply kernel_ok_evolves, e_heap.
    trans s2; [apply Hm2|done].
  - eapply drained_mono; [|exact Hpd]. intros x v. apply protocol_ok_evolves, He3.
  - rewrite foldl_app. cbn [fst] in Hb1, Hb2. by subst.
Qed.
End runner_lemmas.

(** ** The theorem *)

Section theorems.
Context `{RangeOrder} {M C CM AM PB L : Type}.
Context `{!EbpfMap Z Z M} `{!ExpiringCache Z ProcessVerdict C} `{!ConcurrentMap positive CM}.
Context `{!EbpfMap Z ActiveConnection AM} `{!ExpiringCache string bool PB}.
Context (flushListeners : list (FlusherListener L)).
Context (hostAddresses : gset string) (query : IPTuple → option (list Con)).
Context (pidExists : Z → option bool).
Notation Mgr := (Manager M C CM AM PB L).

End theorems.

(** ** A concrete run *)

#[local] Existing Instance keys_order.

Module DeliverySample.
(** A read of the sample connection, and one of a connection nobody knows. *)
Definition detail (conID : Z) : SocketDetailEvent :=
  MkSocketDetailEvent conID 5 1 10 20 0 0 0 0 0 0 0 0 0 0 0 0 0 64 0 1 0 0 0 11 0 0.
Definition log (conID : Z) : kernelLogEvent :=
  MkKernelLogEvent LogTypeKernelTransfer (DetailEvent (detail conID)).
Definition known : Z := 7 * 2 ^ 32 + 3.
Definition unknown : Z := 7 * 2 ^ 32 + 4.
Definition queue : Queue :=
  MkQueue (MkLogChan [log unknown; log known] 0)
    (MkLogChan [MkProtocolEventData [detail known] (Some SenderSample.http)] 0) 2.
Definition arrivals : list (list kernelLogEvent) := [[]; [log known]; []; [log known]].
End DeliverySample.


(** In that run three logs are in the batch, and the unknown one waits. *)
Example sample_consumed :
  (λ r, match r with
        | (Ok (q', gs'), _) =>
          (waiting (kernelLogs q'), drops (kernelLogs q'),
           (λ b, (λ x, (x.1, length (kernels x.2), length (protocols x.2))) <$> map_to_list b)
             <$> logs gs')
          = ([DeliverySample.log DeliverySample.unknown], 0, [[(1%positive, 3%nat, 1%nat)]])
        | _ => False
        end)
    (Consume [] 0 ∅ (λ _, None) (λ _, None) 0 100 true false DeliverySample.arrivals []
       DeliverySample.queue (MkGRPCSender [] false) (Sample.mgr (Sample.conn None))).
Proof. vm_compute. reflexivity. Qed.

(** A delayed log whose place is taken is gone, and not counted as dropped. *)
Example delayed_log_not_counted (x y : kernelLogEvent) :
  flush_delayed 1 [[x]] (MkLogChan [] 0) [y] = MkLogChan [x] 0.
Proof. reflexivity. Qed.
