(* ===== verification/Tracing.v ===== *)
(** * Tracing contexts

    Models src/pkg/tools/tracing/tracing.go: the SkyWalking and Zipkin contexts of the
    headers of a request, and [AnalyzeTraceInfo] of the protocol analyzers, which puts
    one into an access log (src/pkg/accesslog/collector/protocols/protocol.go).

    The decoder of [base64.StdEncoding] is written out; line breaks are skipped
    anywhere, and the spare bits of the last character are not checked. *)

From stdpp Require Import base list strings.
From Stdlib Require Import ZArith Lia Ascii.
From S2P Require Import Prelude GoStrings Interfaces ProcessMonitor Events Connection Sender.

(** ** [base64.StdEncoding] *)

(** The six bits of a character of the alphabet, and back. *)
Definition dec6 (c : ascii) : option Z :=
  let n := Z.of_nat (nat_of_ascii c) in
  if (65 <=? n) && (n <=? 90) then Some (n - 65)
  else if (97 <=? n) && (n <=? 122) then Some (n - 71)
  else if (48 <=? n) && (n <=? 57) then Some (n + 4)
  else if n =? 43 then Some 62
  else if n =? 47 then Some 63
  else None.

Definition enc6 (v : Z) : ascii :=
  ascii_of_nat (Z.to_nat (if v <? 26 then v + 65 else if v <? 52 then v + 71
                          else if v <? 62 then v - 4 else if v =? 62 then 43 else 47)).

Definition byte_char (n : Z) : ascii := ascii_of_nat (Z.to_nat n).
Definition char_byte (c : ascii) : Z := Z.of_nat (nat_of_ascii c).

Fixpoint strip_newlines (s : string) : string :=
  match s with
  | EmptyString => EmptyString
  | String c s' =>
    if bool_decide (c = ascii_of_nat 10 ∨ c = ascii_of_nat 13) then strip_newlines s'
    else String c (strip_newlines s')
  end.

(** The bytes of four characters of the alphabet. *)
Definition quantum (v0 v1 v2 v3 : Z) : Z * Z * Z :=
  let n := Z.lor (Z.lor (Z.shiftl v0 18) (Z.shiftl v1 12)) (Z.lor (Z.shiftl v2 6) v3) in
  (u8 (Z.shiftr n 16), u8 (Z.shiftr n 8), u8 n).

Fixpoint decode_quanta (s : string) : option string :=
  match s with
  | EmptyString => Some EmptyString
  | String c0 (String c1 (String c2 (String c3 rest))) =>
    v0 ← dec6 c0; v1 ← dec6 c1;
    match dec6 c2 with
    | Some v2 =>
      match dec6 c3 with
      | Some v3 =>
        let '(b0, b1, b2) := quantum v0 v1 v2 v3 in
        out ← decode_quanta rest;
        Some (String (byte_char b0) (String (byte_char b1) (String (byte_char b2) out)))
      | None =>
        if bool_decide (c3 = "="%char ∧ rest = EmptyString) then
          let '(b0, b1, _) := quantum v0 v1 v2 0 in
          Some (String (byte_char b0) (String (byte_char b1) EmptyString))
        else None
      end
    | None =>
      if bool_decide (c2 = "="%char ∧ c3 = "="%char ∧ rest = EmptyString) then
        let '(b0, _, _) := quantum v0 v1 0 0 in Some (String (byte_char b0) EmptyString)
      else None
    end
  | _ => None
  end.

Definition DecodeString (s : string) : option string := decode_quanta (strip_newlines s).

(** The encoder of the standard, for the theorems. *)
Fixpoint EncodeToString (s : string) : string :=
  match s with
  | EmptyString => EmptyString
  | String a EmptyString =>
    let a := char_byte a in
    String (enc6 (a / 4)) (String (enc6 (a mod 4 * 16)) "==")
  | String a (String b EmptyString) =>
    let a := char_byte a in let b := char_byte b in
    String (enc6 (a / 4)) (String (enc6 (a mod 4 * 16 + b / 16))
      (String (enc6 (b mod 16 * 4)) "="))
  | String a (String b (String c rest)) =>
    let a := char_byte a in let b := char_byte b in let c := char_byte c in
    String (enc6 (a / 4)) (String (enc6 (a mod 4 * 16 + b / 16))
      (String (enc6 (b mod 16 * 4 + c / 64)) (String (enc6 (c mod 64)) (EncodeToString rest))))
  end.

(** ** Contexts *)

Record SkyWalkingTracingContext : Type := MkSkyWalking {
  sw_TraceID0 : string;
  sw_SegmentID0 : string;
  sw_SpanID0 : string;
  ParentService : string;
  ParentServiceInstance : string;
  ParentEndpoint : string;
  AddressUsedAtClient : string
}.

Record ZipkinTracingContext : Type := MkZipkin { zk_TraceID0 : string; zk_SpanID0 : string }.

Inductive Context_ : Type :=
| SkyWalkingContext (c : SkyWalkingTracingContext)
| ZipkinContext (c : ZipkinTracingContext).

(** The three ids and the provider of the access log protocol. *)
Definition context_info (c : Context_) : AccessLogTraceInfo :=
  match c with
  | SkyWalkingContext w => 
    MkTraceInfo (sw_TraceID0 w) (sw_SegmentID0 w) (sw_SpanID0 w) TraceInfoProvider_SkyWalking
  | ZipkinContext w => MkTraceInfo (zk_TraceID0 w) "" (zk_SpanID0 w) TraceInfoProvider_Zipkin
  end.

Definition analyzeSkyWalking8TracingContext (val : string) : option SkyWalkingTracingContext :=
  match Split val "-" with
  | [_; p1; p2; p3; p4; p5; p6; p7] =>
    traceID ← DecodeString p1; segmentID ← DecodeString p2;
    service ← DecodeString p4; inst ← DecodeString p5;
    endpoint ← DecodeString p6; address ← DecodeString p7;
    Some (MkSkyWalking traceID segmentID p3 service inst endpoint address)
  | _ => None
  end.

Definition analyzeZipkinTracingContextWithSingleData (singleData : string)
  : option ZipkinTracingContext :=
  match Split singleData "-" with
  | t :: s :: _ => Some (MkZipkin t s)
  | _ => None
  end.

(** [None] is the error. *)
Definition AnalyzeTracingContext (fetcher : string → string) : option (option Context_) :=
  let zipkinIDs :=
    if decide (fetcher "x-b3-traceid" ≠ "" ∧ fetcher "x-b3-spanid" ≠ "")
    then Some (ZipkinContext (MkZipkin (fetcher "x-b3-traceid") (fetcher "x-b3-spanid")))
    else None in
  if decide (fetcher "sw8" ≠ "") then
    c ← analyzeSkyWalking8TracingContext (fetcher "sw8"); Some (Some (SkyWalkingContext c))
  else if decide (fetcher "b3" ≠ "") then
    match analyzeZipkinTracingContextWithSingleData (fetcher "b3") with
    | Some c => Some (Some (ZipkinContext c))
    | None => Some zipkinIDs
    end
  else Some zipkinIDs.

Definition AnalyzeTraceInfo (fetcher : string → string) : option AccessLogTraceInfo :=
  match AnalyzeTracingContext fetcher with
  | Some (Some c) => Some (context_info c)
  | _ => None
  end.

(** ** The decoder inverts the encoder *)

Lemma below_64 (P : Z → bool) : forallb (λ n, P (Z.of_nat n)) (seq 0 64) = true →
  ∀ v, 0 ≤ v < 64 → P v = true.
Proof.
  intros Hf v Hv. rewrite forallb_forall in Hf. rewrite <- (Z2Nat.id v) by lia. apply Hf, in_seq. lia.
Qed.

Lemma dec6_enc6 v : 0 ≤ v < 64 → dec6 (enc6 v) = Some v.
Proof.
  intros Hv. destruct (dec6 (enc6 v)) as [w|] eqn:Hd.
  - f_equal. apply Z.eqb_eq.
    pose proof (below_64 (λ v, from_option (Z.eqb v) false (dec6 (enc6 v))) eq_refl v Hv) as Hw.
    cbn beta in Hw. rewrite Hd in Hw. cbn in Hw. by rewrite Z.eqb_sym.
  - pose proof (below_64 (λ v, from_option (Z.eqb v) false (dec6 (enc6 v))) eq_refl v Hv) as Hw.
    cbn beta in Hw. by rewrite Hd in Hw.
Qed.

(** The characters of an encoded text. *)
Definition is_encoded (c : ascii) : bool :=
  bool_decide (is_Some (dec6 c)) || bool_decide (c = "="%char).

Lemma enc6_encoded v : 0 ≤ v < 64 → is_encoded (enc6 v) = true.
Proof. intros Hv. unfold is_encoded. by rewrite dec6_enc6, bool_decide_true. Qed.

Lemma lor_low a b n : 0 ≤ n → 0 ≤ b < 2 ^ n → Z.lor (Z.shiftl a n) b = a * 2 ^ n + b.
Proof.
  intros Hn Hb. pose proof (Z.add_lor_land (Z.shiftl a n) b) as Hadd.
  assert (Hl : Z.land (Z.shiftl a n) b = 0).
  { apply Z.bits_inj'. intros k Hk. rewrite Z.land_spec, Z.bits_0.
    destruct (Z.lt_ge_cases k n).
    - by rewrite Z.shiftl_spec_low.
    - rewrite <- (Z.mod_small b (2 ^ n)) by lia. rewrite Z.mod_pow2_bits_high by lia.
      apply andb_false_r. }
  rewrite Hl, Z.shiftl_mul_pow2 in Hadd by done. rewrite Z.shiftl_mul_pow2 by done. lia.
Qed.

Lemma quantum_add v0 v1 v2 v3 :
  0 ≤ v0 < 64 → 0 ≤ v1 < 64 → 0 ≤ v2 < 64 → 0 ≤ v3 < 64 →
  let n := v0 * 2 ^ 18 + v1 * 2 ^ 12 + v2 * 2 ^ 6 + v3 in
  quantum v0 v1 v2 v3 = (n / 2 ^ 16 mod 2 ^ 8, n / 2 ^ 8 mod 2 ^ 8, n mod 2 ^ 8).
Proof.
  intros H0 H1 H2 H3 n. unfold quantum, u8.
  assert (Z.lor (Z.lor (Z.shiftl v0 18) (Z.shiftl v1 12)) (Z.lor (Z.shiftl v2 6) v3) = n) as ->.
  { rewrite (lor_low v2 v3 6) by lia.
    rewrite (lor_low v0 (Z.shiftl v1 12) 18) by (rewrite ?Z.shiftl_mul_pow2; lia).
    rewrite Z.shiftl_mul_pow2 by lia.
    replace (v0 * 2 ^ 18 + v1 * 2 ^ 12) with (Z.shiftl (v0 * 2 ^ 6 + v1) 12)
      by (rewrite Z.shiftl_mul_pow2; lia).
    rewrite lor_low by lia. lia. }
  by rewrite !Z.shiftr_div_pow2 by lia.
Qed.

Lemma quantum_bytes a b c :
  0 ≤ a < 256 → 0 ≤ b < 256 → 0 ≤ c < 256 →
  quantum (a / 4) (a mod 4 * 16 + b / 16) (b mod 16 * 4 + c / 64) (c mod 64) = (a, b, c).
Proof.
  intros Ha Hb Hc. rewrite quantum_add by (Z.div_mod_to_equations; lia). cbv zeta.
  assert (a / 4 * 2 ^ 18 + (a mod 4 * 16 + b / 16) * 2 ^ 12 + (b mod 16 * 4 + c / 64) * 2 ^ 6 +
    c mod 64 = a * 65536 + b * 256 + c) as -> by (Z.div_mod_to_equations; lia).
  f_equal; [f_equal|]; Z.div_mod_to_equations; lia.
Qed.

Lemma char_byte_bounds c : 0 ≤ char_byte c < 256.
Proof. unfold char_byte. pose proof (nat_ascii_bounded c). lia. Qed.

Lemma byte_char_byte c : byte_char (char_byte c) = c.
Proof. unfold byte_char, char_byte. rewrite Nat2Z.id. apply ascii_nat_embedding. Qed.

Lemma string_ind3 (P : string → Prop) :
  P EmptyString → (∀ a, P (String a EmptyString)) → (∀ a b, P (String a (String b EmptyString))) →
  (∀ a b c s, P s → P (String a (String b (String c s)))) → ∀ s, P s.
Proof.
  intros H0 H1 H2 H3. fix IH 1. intros [|a [|b [|c s]]]; [done..|]. apply H3, IH.
Qed.

Lemma encode_encoded s : all_chars is_encoded (EncodeToString s) = true.
Proof.
  induction s as [|a|a b|a b c s IH] using string_ind3; [done|..]; cbn [EncodeToString all_chars];
    pose proof (char_byte_bounds a); try pose proof (char_byte_bounds b);
    try pose proof (char_byte_bounds c);
    rewrite ?enc6_encoded by (Z.div_mod_to_equations; lia); [done|done|exact IH].
Qed.

Lemma strip_encoded s : all_chars is_encoded s = true → strip_newlines s = s.
Proof.
  induction s as [|c s IH]; simpl; [done|]. intros [Hc Hs]%andb_true_iff. rewrite IH by done.
  rewrite bool_decide_false; [done|]. intros [-> | ->]; vm_compute in Hc; done.
Qed.

Lemma quantum_2 a b :
  0 ≤ a < 256 → 0 ≤ b < 256 →
  quantum (a / 4) (a mod 4 * 16 + b / 16) (b mod 16 * 4) 0 = (a, b, 0).
Proof. intros Ha Hb. rewrite <- (quantum_bytes a b 0) by lia. f_equal. by rewrite Z.add_0_r. Qed.

Lemma quantum_1 a : 0 ≤ a < 256 → quantum (a / 4) (a mod 4 * 16) 0 0 = (a, 0, 0).
Proof. intros Ha. rewrite <- (quantum_2 a 0) by lia. f_equal. by rewrite Z.add_0_r. Qed.

Lemma decode_encoded s : DecodeString (EncodeToString s) = Some s.
Proof.
  unfold DecodeString. rewrite strip_encoded by apply encode_encoded.
  induction s as [|a|a b|a b c s IH] using string_ind3; [done|..]; cbn [EncodeToString decode_quanta];
    pose proof (char_byte_bounds a); try pose proof (char_byte_bounds b);
    try pose proof (char_byte_bounds c);
    rewrite !dec6_enc6 by (Z.div_mod_to_equations; lia); cbn [mbind option_bind].
  - rewrite bool_decide_true, quantum_1, byte_char_byte by done. done.
  - rewrite bool_decide_true, quantum_2, !byte_char_byte by done. done.
  - rewrite quantum_bytes, IH by done. cbn [mbind option_bind]. by rewrite !byte_char_byte.
Qed.

(** ** The theorem *)

(** The header of a context: eight parts, the sample flag first. *)
Definition sw8_header (sample : string) (c : SkyWalkingTracingContext) : string :=
  Join [sample; EncodeToString (sw_TraceID0 c); EncodeToString (sw_SegmentID0 c); sw_SpanID0 c;
        EncodeToString (ParentService c); EncodeToString (ParentServiceInstance c);
        EncodeToString (ParentEndpoint c); EncodeToString (AddressUsedAtClient c)] "-".

Lemma encoded_lacks_dash s : lacks "-" (EncodeToString s) = true.
Proof.
  generalize (EncodeToString s), (encode_encoded s). clear s.
  intros s. induction s as [|c s IH]; simpl; [done|]. intros [Hc Hs]%andb_true_iff.
  unfold lacks in *. simpl. rewrite IH by done. rewrite bool_decide_false; [done|].
  intros ->. vm_compute in Hc. done.
Qed.

(** C39: round trip of a trace context.  A request whose sw8 header carries a SkyWalking
    context, encoded part by part, gets exactly that context into its access log,
    whatever other tracing headers it has; a header without eight parts is an error and
    gives none. *)
Theorem sw8_roundtrip (fetcher : string → string) :
  (∀ sample c, lacks "-" sample = true → lacks "-" (sw_SpanID0 c) = true →
     fetcher "sw8" = sw8_header sample c →
     AnalyzeTracingContext fetcher = Some (Some (SkyWalkingContext c)) ∧
     AnalyzeTraceInfo fetcher = Some (MkTraceInfo (sw_TraceID0 c) (sw_SegmentID0 c) (sw_SpanID0 c)
                                        TraceInfoProvider_SkyWalking)) ∧
  (fetcher "sw8" ≠ "" → length (Split (fetcher "sw8") "-") ≠ 8%nat →
   AnalyzeTracingContext fetcher = None ∧ AnalyzeTraceInfo fetcher = None).
Proof.
  split.
  - intros sample c Hs Hspan Hf.
    assert (Ha : AnalyzeTracingContext fetcher = Some (Some (SkyWalkingContext c))).
    { unfold AnalyzeTracingContext, analyzeSkyWalking8TracingContext. rewrite Hf.
      rewrite decide_True by (unfold sw8_header; by destruct sample).
      unfold sw8_header. rewrite Split_of_Join; [|done|].
      - rewrite !decode_encoded. by destruct c.
      - rewrite !Forall_cons. split_and!; try done; apply encoded_lacks_dash. }
    split; [done|]. unfold AnalyzeTraceInfo. by rewrite Ha.
  - intros Hne Hlen.
    assert (Ha : AnalyzeTracingContext fetcher = None).
    { unfold AnalyzeTracingContext, analyzeSkyWalking8TracingContext.
      rewrite decide_True by done.
      destruct (Split (fetcher "sw8") "-") as [|? [|? [|? [|? [|? [|? [|? [|? [|]]]]]]]]]; done. }
    split; [done|]. unfold AnalyzeTraceInfo. by rewrite Ha.
Qed.

Module TracingSample.
Definition context : SkyWalkingTracingContext :=
  MkSkyWalking "trace" "segment" "7" "service" "instance" "/path" "10.0.0.1:80".
Definition fetcher (key : string) : string :=
  if decide (key = "sw8") then sw8_header "1" context else "".
End TracingSample.

Lemma sw8_roundtrip_witness :
  AnalyzeTracingContext TracingSample.fetcher =
    Some (Some (SkyWalkingContext TracingSample.context)) ∧
  AnalyzeTraceInfo TracingSample.fetcher =
    Some (MkTraceInfo "trace" "segment" "7" TraceInfoProvider_SkyWalking).
Proof.
  apply (proj1 (sw8_roundtrip TracingSample.fetcher) "1" TracingSample.context);
    vm_compute; reflexivity.
Defined.

(** The single Zipkin header wins over the separate ones, unless it has one part. *)
Example zipkin_order :
  AnalyzeTraceInfo (λ k, if decide (k = "sw8") then "" else if decide (k = "b3") then "t-s-1" else k)
    = Some (MkTraceInfo "t" "" "s" TraceInfoProvider_Zipkin) ∧
  AnalyzeTraceInfo (λ k, if decide (k = "sw8") then "" else if decide (k = "b3") then "0" else k)
    = Some (MkTraceInfo "x-b3-traceid" "" "x-b3-spanid" TraceInfoProvider_Zipkin).
Proof. split; vm_compute; reflexivity. Qed.
