(* ===== verification/Http2.v ===== *)
(** * HTTP/2 analysis

    Models the HTTP/2 analyzer of the access log (src/pkg/accesslog/collector/protocols/
    http2.go), the collection of details shared by the analyzers (protocol.go) and the
    methods of HTTP (http.go), over the buffers of Buffer.v, the queue of Delivery.v and
    the trace contexts of Tracing.v.

    The packages of golang.org/x/net are parameters: [frame_header] decodes the nine bytes
    [http2.ReadFrameHeader] reads, and [DecodeFull] is the HPACK decoder with its dynamic
    table as a state.  The stream objects are reached through the map of the connection
    only, so they are values of the map.  Two details of one connection never have equal
    fields, so comparing values is comparing pointers. *)

From stdpp Require Import base gmap list strings.
From Stdlib Require Import ZArith Lia Ascii.
From S2P Require Import Prelude GoStrings Interfaces ProcessMonitor Connection Ztunnel AccessLogTail Sender Delivery Tracing Events Buffer.

Global Instance SocketDetailEvent_eq_dec : EqDecision SocketDetailEvent.
Proof. solve_decision. Defined.

(** ** Methods *)

Definition TransformHTTPMethod (method : string) : HTTPMethod :=
  if decide (method = "GET") then Method_Get
  else if decide (method = "POST") then Method_Post
  else if decide (method = "PUT") then Method_Put
  else if decide (method = "DELETE") then Method_Delete
  else if decide (method = "HEAD") then Method_Head
  else if decide (method = "OPTIONS") then Method_Options
  else if decide (method = "TRACE") then Method_Trace
  else if decide (method = "CONNECT") then Method_Connect
  else if decide (method = "PATCH") then Method_Patch
  else Method_Get.

(** ** Collecting details *)

(** The details of a buffer behind those collected so far; one that repeats the last is
    left out. *)
Definition append_details (result details : list SocketDetailEvent) : list SocketDetailEvent :=
  foldl (λ result d, if decide (last result = Some d) then result else result ++ [d])
    result details.

Definition AppendSocketDetailsFromBuffer (buf : option positive)
    (st : list SocketDetailEvent * option DataIDRange * bool)
  : heap_op (list SocketDetailEvent * option DataIDRange * bool) :=
  let '(result, dataIDRange, allDetailInclude) := st in
  if negb allDetailInclude then mret (result, dataIDRange, false)
  else
    match buf with
    | None => mret (result, dataIDRange, true)
    | Some loc =>
      details ← BuildDetails loc;
      if decide (details = []) then mret (result, dataIDRange, false)
      else
        r ← deref loc;
        current ← lift (BuildTotalDataIDRange r);
        current ← lift (must current);
        if negb (IsIncludeAllDetails current details) then mret (result, dataIDRange, false)
        else
          let result := append_details result details in
          match dataIDRange with
          | None => mret (result, Some current, true)
          | Some i => mret (result, Some (DataIDRange_Append i current), true)
          end
    end.

(** ** Frames and streams *)

Inductive FrameType : Type := FrameHeaders | FrameData | FrameOther.

Record FrameHeader : Type := MkFrameHeader {
  frame_Type : FrameType;
  frame_EndStream : bool;
  frame_Length : Z;
  frame_StreamID : Z
}.

Record HTTP2Streaming : Type := MkStreaming {
  ReqHeader : gmap string string;
  RespHeader : gmap string string;
  ReqHeaderBuffer : option positive;
  ReqBodyBuffer : option positive;
  IsInResponse : bool;
  Status : Z;
  RespHeaderBuffer : option positive;
  RespBodyBuffer : option positive
}.

Inductive ParseResult : Type := ParseResultSuccess | ParseResultSkipPackage.

(** The state the analyzer of a connection works on: the buffers, the streams and the
    decoder of its metrics, and the queue of logs. *)
Record h2_state (D : Type) : Type := MkH2 {
  h2_heap : heap;
  Streams : gmap Z HTTP2Streaming;
  HpackDecoder : D;
  h2_queue : Queue
}.
Arguments MkH2 {D} h2_heap Streams HpackDecoder h2_queue.
Arguments h2_heap {D} h.
Arguments Streams {D} h.
Arguments HpackDecoder {D} h.
Arguments h2_queue {D} h.

Notation maxHTTP2StreamingTime := (180 * second) (only parsing).

Section http2.
Context {D : Type} (DecodeFull : list Z → D → option (list (string * string)) * D).
Context (frame_header : list Z → FrameHeader) (bootTime : Z).
Notation h2 := (h2_state D).
Notation h2_op A := (act (h2_state D) read_error A).

Definition set_h2_heap (h : heap) (s : h2) : h2 :=
  MkH2 h (Streams s) (HpackDecoder s) (h2_queue s).
Definition set_stream (id : Z) (st : HTTP2Streaming) (s : h2) : h2 :=
  MkH2 (h2_heap s) (<[id := st]> (Streams s)) (HpackDecoder s) (h2_queue s).
Definition delete_stream (id : Z) (s : h2) : h2 :=
  MkH2 (h2_heap s) (delete id (Streams s)) (HpackDecoder s) (h2_queue s).
Definition set_decoder (d : D) (s : h2) : h2 :=
  MkH2 (h2_heap s) (Streams s) d (h2_queue s).
Definition set_h2_queue (q : Queue) (s : h2) : h2 :=
  MkH2 (h2_heap s) (Streams s) (HpackDecoder s) q.

Definition on_heap {A} (m : heap_op A) : h2_op A := λ s,
  let '(r, h) := m (h2_heap s) in (r, set_h2_heap h s).

(** A method of the buffer at [loc]; its error is a value, its panic a panic. *)
Definition try_buffer {A} (loc : positive) (m : method A) : h2_op (read_error + A) := λ s,
  match buffers (h2_heap s) !! loc with
  | None => (Panic, s)
  | Some b =>
    let '(r, b') := m b in
    let s' := set_h2_heap (MkHeap (<[loc := b']> (buffers (h2_heap s))) (fresh (h2_heap s))) s in
    match r with
    | Ok a => (Ok (inr a), s')
    | Err e => (Ok (inl e), s')
    | Panic => (Panic, s')
    end
  end.

(** A method that returns no error. *)
Definition on_buffer {A} (loc : positive) (m : method A) : h2_op A :=
  r ← try_buffer loc m;
  match r with
  | inr a => mret a
  | inl e => raise e
  end.

(** [io.ReadFull] on the buffer. *)
Definition ReadFull (n : Z) : method (list Z) := λ r, peek_loop (read_fuel r n) n r.

(** ** A whole stream *)

Definition FirstDetail (buf : option positive) (def : SocketDetailEvent) : heap_op SocketDetailEvent :=
  match buf with
  | None => mret def
  | Some loc =>
    details ← BuildDetails loc;
    mret (match details with [] => def | d :: _ => d end)
  end.

Definition BufferSizeOfZero (buf : option positive) : h2_op Z :=
  match buf with
  | None => mret 0
  | Some loc => n ← on_buffer loc DataSize; mret (u64 n)
  end.

Definition ToUpper_ascii (c : ascii) : ascii :=
  let n := nat_of_ascii c in
  if (97 <=? n)%nat && (n <=? 122)%nat then ascii_of_nat (n - 32) else c.
Fixpoint ToUpper (s : string) : string :=
  match s with
  | EmptyString => EmptyString
  | String c s' => String (ToUpper_ascii c) (ToUpper s')
  end.

(** A missing key of a Go map of strings is the empty string. *)
Definition field (m : gmap string string) (k : string) : string := default "" (m !! k).

Definition ParseHTTPMethod (streaming : HTTP2Streaming) : HTTPMethod :=
  let method := field (ReqHeader streaming) ":method" in
  if decide (method = "") then Method_Get else TransformHTTPMethod (ToUpper method).

(** The details of the four parts of a stream, their range, and whether all of them are
    there. *)
Definition stream_details (stream : HTTP2Streaming)
  : heap_op (list SocketDetailEvent * option DataIDRange * bool) :=
  st ← AppendSocketDetailsFromBuffer (ReqHeaderBuffer stream) ([], None, true);
  st ← AppendSocketDetailsFromBuffer (ReqBodyBuffer stream) st;
  st ← AppendSocketDetailsFromBuffer (RespHeaderBuffer stream) st;
  AppendSocketDetailsFromBuffer (RespBodyBuffer stream) st.

(** [true] is the error that details are missing. *)
Definition HandleWholeStream (stream : HTTP2Streaming) : h2_op bool :=
  '(details, idRange, allInclude) ← on_heap (stream_details stream);
  match idRange, list.head details, last details with
  | Some i, Some first, Some final =>
    if negb allInclude then mret true
    else
      loc ← lift (must (ReqHeaderBuffer stream));
      on_heap (DeleteDetails (Pos.to_nat loc) i loc);;
      let authority := field (ReqHeader stream) ":authority" in
      let streamHost := if decide (authority = "") then field (ReqHeader stream) ":host"
                        else authority in
      start ← on_heap (FirstDetail (ReqBodyBuffer stream) first);
      reqHeaders ← BufferSizeOfZero (ReqHeaderBuffer stream);
      reqBody ← BufferSizeOfZero (ReqBodyBuffer stream);
      respHeaders ← BufferSizeOfZero (RespHeaderBuffer stream);
      respBody ← BufferSizeOfZero (RespBodyBuffer stream);
      let log := MkHTTPProtocol (detail_StartTime start) (detail_EndTime final)
        HTTPVersion_HTTP2 (ParseHTTPMethod stream) (field (ReqHeader stream) ":path")
        reqHeaders reqBody (AnalyzeTraceInfo (field (ReqHeader stream))) streamHost
        (i32 (Status stream)) respHeaders respBody in
      modify (λ s, set_h2_queue
        (snd (AppendProtocolLog (MkProtocolEventData details (Some log)) (h2_queue s))) s);;
      mret false
  | _, _, _ => mret true
  end.

Definition validateIsStreamOpenTooLong (now : Z) (streaming : HTTP2Streaming) : h2_op unit :=
  match IsInResponse streaming, ReqBodyBuffer streaming with
  | false, Some body =>
    r ← on_heap (deref body);
    match FirstSocketBuffer r with
    | None => mret tt
    | Some socketBuffer =>
      if maxHTTP2StreamingTime <? now - host_Time bootTime (StartTime socketBuffer)
      then HandleWholeStream streaming;; on_buffer body Clean
      else mret tt
    end
  | _, _ => mret tt
  end.

(** ** Frames *)

Definition parseHeaders (headers : list (string * string)) : gmap string string :=
  foldl (λ m h, <[h.1 := h.2]> m) ∅ headers.

Definition AppendHeaders (exist needAppends : gmap string string) : gmap string string :=
  needAppends ∪ exist.

(** A part of a stream behind the ones before it. *)
Definition extend (buf : positive) (old : option positive) (startPos : Position)
  : h2_op (option positive) :=
  endPos ← on_buffer buf Position_;
  slice ← on_heap (Slice buf true startPos endPos);
  on_heap (CombineSlices true (Some buf) [old; Some slice]).

(** The header block of a frame: the result and whether the protocol breaks. *)
Definition handleHeaderBlock (header : FrameHeader) (startPos : Position) (buf : positive)
    (bytes : list Z) : h2_op (ParseResult * bool) :=
  s ← get;
  let '(decoded, decoder) := DecodeFull bytes (HpackDecoder s) in
  modify (set_decoder decoder);;
  match decoded with
  | None => mret (ParseResultSkipPackage, true)
  | Some headerData =>
    let id := frame_StreamID header in
    let headers := parseHeaders headerData in
    match Streams s !! id with
    | None =>
      endPos ← on_buffer buf Position_;
      slice ← on_heap (Slice buf true startPos endPos);
      modify (set_stream id (MkStreaming headers ∅ (Some slice) None false 0 None None));;
      mret (ParseResultSuccess, false)
    | Some st =>
      let st := match headers !! ":status" with
                | Some status =>
                  MkStreaming (ReqHeader st) (RespHeader st) (ReqHeaderBuffer st)
                    (ReqBodyBuffer st) true (default 200 (Atoi status))
                    (RespHeaderBuffer st) (RespBodyBuffer st)
                | None => st
                end in
      if negb (IsInResponse st) then
        combined ← extend buf (ReqHeaderBuffer st) startPos;
        modify (set_stream id (MkStreaming (AppendHeaders (ReqHeader st) headers) (RespHeader st)
          combined (ReqBodyBuffer st) (IsInResponse st) (Status st) (RespHeaderBuffer st)
          (RespBodyBuffer st)));;
        mret (ParseResultSuccess, false)
      else
        combined ← extend buf (RespHeaderBuffer st) startPos;
        let st := MkStreaming (ReqHeader st) (AppendHeaders (RespHeader st) headers)
          (ReqHeaderBuffer st) (ReqBodyBuffer st) (IsInResponse st) (Status st) combined
          (RespBodyBuffer st) in
        modify (set_stream id st);;
        if frame_EndStream header then
          HandleWholeStream st;;
          modify (delete_stream id);;
          mret (ParseResultSuccess, false)
        else mret (ParseResultSuccess, false)
    end
  end.

Definition HandleHeader (header : FrameHeader) (startPos : Position) (buf : positive)
  : h2_op (ParseResult * bool) :=
  read ← try_buffer buf (ReadUntilBufferFull (replicate (Z.to_nat (frame_Length header)) 0));
  match read with
  | inl _ => mret (ParseResultSkipPackage, true)
  | inr bytes => handleHeaderBlock header startPos buf bytes
  end.

Definition HandleData (now : Z) (header : FrameHeader) (startPos : Position) (buf : positive)
  : h2_op (ParseResult * bool) :=
  s ← get;
  match Streams s !! frame_StreamID header with
  | None => mret (ParseResultSkipPackage, true)
  | Some st =>
    read ← try_buffer buf (ReadUntilBufferFull (replicate (Z.to_nat (frame_Length header)) 0));
    match read with
    | inl _ => mret (ParseResultSkipPackage, false)
    | inr _ =>
      st ← (if negb (IsInResponse st) then
              combined ← extend buf (ReqBodyBuffer st) startPos;
              mret (MkStreaming (ReqHeader st) (RespHeader st) (ReqHeaderBuffer st) combined
                      (IsInResponse st) (Status st) (RespHeaderBuffer st) (RespBodyBuffer st))
            else
              combined ← extend buf (RespBodyBuffer st) startPos;
              mret (MkStreaming (ReqHeader st) (RespHeader st) (ReqHeaderBuffer st)
                      (ReqBodyBuffer st) (IsInResponse st) (Status st) (RespHeaderBuffer st)
                      combined));
      modify (set_stream (frame_StreamID header) st);;
      validateIsStreamOpenTooLong now st;;
      mret (ParseResultSuccess, false)
    end
  end.

(** Any other frame is read over. *)
Definition handleOther (header : FrameHeader) (buf : positive) : h2_op (ParseResult * bool) :=
  read ← try_buffer buf (ReadUntilBufferFull (replicate (Z.to_nat (frame_Length header)) 0));
  mret (match read with
        | inl ErrNotComplete => (ParseResultSkipPackage, false)
        | inl _ => (ParseResultSuccess, true)
        | inr _ => (ParseResultSuccess, false)
        end).

Definition handleFrame (now : Z) (header : FrameHeader) (startPos : Position) (buf : positive)
  : h2_op (ParseResult * bool) :=
  match frame_Type header with
  | FrameHeaders => HandleHeader header startPos buf
  | FrameData => HandleData now header startPos buf
  | FrameOther => handleOther header buf
  end.

(** One round of the loop: [None] goes on, and [Some] is the end, with whether the
    protocol breaks. *)
Definition analyze_round (now : Z) (buf : positive) : h2_op (option bool) :=
  ready ← on_buffer buf PrepareForReading;
  if negb ready then mret (Some false)
  else
    startPosition ← on_buffer buf Position_;
    read ← try_buffer buf (ReadFull 9);
    match read with
    | inl _ =>
      finished ← on_buffer buf SkipCurrentElement;
      mret (if finished : bool then Some false else None)
    | inr bytes =>
      '(result, protocolBreak) ← handleFrame now (frame_header bytes) startPosition buf;
      if protocolBreak : bool then mret (Some true)
      else
        finishReading ← match result with
                        | ParseResultSuccess => on_buffer buf (RemoveReadElements false)
                        | ParseResultSkipPackage => on_buffer buf SkipCurrentElement
                        end;
        mret (if finishReading : bool then Some false else None)
    end.

Fixpoint analyze_loop (n : nat) (now : Z) (buf : positive) : h2_op bool :=
  match n with
  | O => raise OutOfFuel
  | S n =>
    round ← analyze_round now buf;
    match round with
    | Some b => mret b
    | None => analyze_loop n now buf
    end
  end.

(** The bytes of chunks, with one for every chunk. *)
Definition weight (l : list chunk) : nat :=
  foldr (λ e n, S (Z.to_nat (BufferLen (evalue e)) + n)) 0%nat l.

(** A round leaves a byte or a chunk behind it; when the last chunk is removed, reading
    starts again at the chunks that were skipped. *)
Definition analyze_fuel (b : Buffer) : nat :=
  let w := weight (dataEvents b) in S ((w + 1) * (w + 1)).

(** Whether the protocol breaks. *)
Definition Analyze (now : Z) (buf : positive) : h2_op bool :=
  on_buffer buf (modify ResetForLoopReading);;
  b ← on_heap (deref buf);
  analyze_loop (analyze_fuel b) now buf.
End http2.

(** ** Concrete connections

    A frame of the samples is nine bytes: its type, whether it ends the stream, its
    length and its stream; the HPACK decoder knows a request (1) and a response (2). *)

Module Http2Sample.
Definition frame_header (b : list Z) : FrameHeader :=
  match b with
  | t :: e :: n :: i :: _ =>
    MkFrameHeader (if t =? 1 then FrameHeaders else if t =? 0 then FrameData else FrameOther)
      (e =? 1) n i
  | _ => MkFrameHeader FrameOther false 0 0
  end.

Definition DecodeFull (b : list Z) (d : unit) : option (list (string * string)) * unit :=
  match b with
  | [1] => (Some [(":method", "GET"); (":path", "/"); (":authority", "a")]%string, d)
  | [2] => (Some [(":status", "200")]%string, d)
  | _ => (None, d)
  end.

Definition frame (type end_stream stream : Z) (payload : list Z) : list Z :=
  [type; end_stream; Z.of_nat (length payload); stream; 0; 0; 0; 0; 0] ++ payload.
Definition request (stream : Z) : list Z := frame 1 0 stream [1].
Definition response (stream : Z) : list Z := frame 1 1 stream [2].
Definition body (stream : Z) : list Z := frame 0 0 stream [7; 7].

(** A chunk with its own data id, and the detail of the data. *)
Definition chunk_of (dataID : Z) (bytes : list Z) : SocketDataBuffer :=
  Upload (MkSocketDataUploadEvent 2 0 0 1 0 (Z.of_nat (length bytes)) 0 0 9 5 dataID (dataID - 1)
            (Z.of_nat (length bytes)) bytes).
Definition detail (dataID : Z) : SocketDetailEvent :=
  MkSocketDetailEvent 9 5 dataID (10 * dataID) (10 * dataID + 5) 0 0 0 0 0 0 0 0 0 0 0 0 0 64 0 1 0 0 0
    11 2 0.

(** A connection whose data ids 1, 2, ... carry the given frames, and the details of the
    data ids that have arrived. *)
Definition connection (frames : list (list Z)) (details : list Z) : h2_state unit :=
  let chunks := imap (λ i f, chunk_of (Z.of_nat i + 1) f) frames in
  MkH2 (MkHeap {[ 100%positive :=
                  MkBuffer (number 1 chunks) (detail <$> details) false true None None 0 None None ]} 101)
    ∅ tt (MkQueue (MkLogChan [] 0) (MkLogChan [] 0) 100).

Definition analyze (now : Z) (s : h2_state unit) : res read_error bool * h2_state unit :=
  Analyze DecodeFull frame_header 0 now 100 s.

(** The data ids of the details of every log, and those that are still buffered. *)
Definition outcome (r : res read_error bool * h2_state unit)
  : res read_error bool * list (list Z) * option (list Z) :=
  (fst r,
   (λ l, detail_DataID0 <$> KernelLogs l) <$> waiting (protocolLogs (h2_queue (snd r))),
   (λ b, detail_DataID0 <$> detailEvents b) <$> buffers (h2_heap (snd r)) !! 100%positive).
End Http2Sample.

(** Requests after one another are all logged. *)
Example sequential_streams_logged :
  Http2Sample.outcome (Http2Sample.analyze 100 (Http2Sample.connection
    [Http2Sample.request 1; Http2Sample.response 1; Http2Sample.request 3; Http2Sample.response 3]
    [1; 2; 3; 4])) = (Ok false, [[1; 2]; [3; 4]], Some []).
Proof. vm_compute. reflexivity. Qed.

(** When the first stream ends before the second, the range of its details contains the
    request of the second one: that detail is deleted and never sent, and the second
    stream is never logged. *)
Example interleaved_stream_lost :
  Http2Sample.outcome (Http2Sample.analyze 100 (Http2Sample.connection
    [Http2Sample.request 1; Http2Sample.request 3; Http2Sample.response 1; Http2Sample.response 3]
    [1; 2; 3; 4])) = (Ok false, [[1; 3]], Some [4]).
Proof. vm_compute. reflexivity. Qed.

(** A response whose body ends the stream is not logged. *)
Example body_ended_stream_not_logged :
  Http2Sample.outcome (Http2Sample.analyze 100 (Http2Sample.connection
    [Http2Sample.request 1; Http2Sample.frame 1 0 1 [2]; Http2Sample.frame 0 1 1 [7; 7]]
    [1; 2; 3])) = (Ok false, [], Some [1; 2; 3]).
Proof. vm_compute. reflexivity. Qed.

(** A stream that is split after three minutes has lost the details of its request, so
    its response is never logged. *)
Example split_stream_response_lost :
  Http2Sample.outcome (Http2Sample.analyze (200 * second) (Http2Sample.connection
    [Http2Sample.request 1; Http2Sample.body 1; Http2Sample.response 1] [1; 2; 3]))
  = (Ok false, [[1; 2]], Some [3]).
Proof. vm_compute. reflexivity. Qed.

(** When the detail of the body is missing at the split, the body is cleaned all the
    same, and the end of the stream dereferences its nil position. *)
Example split_stream_panics :
  fst (Http2Sample.analyze (200 * second) (Http2Sample.connection
    [Http2Sample.request 1; Http2Sample.body 1; Http2Sample.response 1] [1; 3])) = Panic.
Proof. vm_compute. reflexivity. Qed.

(** ** The log of a whole stream *)

(** The buffer [loc] is a part of the connection buffer [c]: it reads the data ids of
    [i]. *)
Definition is_part (h : heap) (c loc : positive) (i : DataIDRange) : Prop :=
  ∃ b hp ep, buffers h !! loc = Some b ∧ originalBuffer b = Some c ∧
    head b = Some hp ∧ position_DataID hp = Some (From i) ∧
    endPosition b = Some ep ∧ position_DataID ep = Some (To i) ∧
    position_finished ep = Some (IsToBufferReadFinished i) ∧
    dataEvents b ≠ [] ∧ detailEvents b = [].

Definition parts (stream : HTTP2Streaming) : list (option positive) :=
  [ReqHeaderBuffer stream; ReqBodyBuffer stream; RespHeaderBuffer stream; RespBodyBuffer stream].

(** The details of the connection a part refers to. *)
Definition part_details (ds : list SocketDetailEvent) (i : DataIDRange) : list SocketDetailEvent :=
  filter (λ d, in_range (From i) (To i) d = true) ds.

(** The details and the range of all parts. *)
Definition all_details (ds : list SocketDetailEvent) (rs : list DataIDRange) : list SocketDetailEvent :=
  foldl (λ acc i, append_details acc (part_details ds i)) [] rs.

Definition all_range (rs : list DataIDRange) : option DataIDRange :=
  match rs with
  | [] => None
  | i :: rs => Some (foldl DataIDRange_Append i rs)
  end.

Section whole_stream.
Context (h : heap) (c : positive) (cb : Buffer).
Context (Hc : buffers h !! c = Some cb) (Ho : originalBuffer cb = None).

Lemma part_BuildDetails loc i :
  is_part h c loc i → BuildDetails loc h = (Ok (part_details (detailEvents cb) i), h).
Proof.
  intros (b & hp & ep & Hb & Hob & Hh & Hf & He & Ht & _). unfold BuildDetails, deref. step_act.
  rewrite Hb. step_act. rewrite Hob, Hh. step_act. rewrite Hf. step_act. rewrite He. step_act.
  rewrite Ht. step_act. rewrite Hc. step_act. done.
Qed.

Lemma part_range loc i b :
  is_part h c loc i → buffers h !! loc = Some b → BuildTotalDataIDRange b = Ok (Some i).
Proof.
  intros (b' & hp & ep & Hb & _ & Hh & Hf & He & Ht & Hfin & Hne & _) Hb'. simplify_eq.
  unfold BuildTotalDataIDRange. rewrite decide_False by done. rewrite He. simpl. rewrite Ht. simpl.
  rewrite Hfin. simpl. rewrite Hh. simpl. rewrite Hf. simpl. by destruct i.
Qed.

Lemma part_details_included ds i :
  part_details ds i ≠ [] → IsIncludeAllDetails i (part_details ds i) = true.
Proof.
  intros Hne. unfold IsIncludeAllDetails. rewrite bool_decide_true by done. simpl.
  apply forallb_forall. intros d Hd. apply list_elem_of_In in Hd.
  by apply list_elem_of_filter in Hd as [? _].
Qed.

(** The state of the collection: the details and the range so far, unless a part has
    none. *)
Definition collected (rs : list DataIDRange) : list SocketDetailEvent * option DataIDRange * bool :=
  (all_details (detailEvents cb) rs, all_range rs, true).

Lemma append_absent st : AppendSocketDetailsFromBuffer None st h =
  (Ok (match st with (r, i, b) => (r, i, b) end), h).
Proof. destruct st as [[r i] []]; done. Qed.

Lemma append_incomplete o r i :
  AppendSocketDetailsFromBuffer o (r, i, false) h = (Ok (r, i, false), h).
Proof. done. Qed.

Lemma append_part rs loc i :
  is_part h c loc i →
  AppendSocketDetailsFromBuffer (Some loc) (collected rs) h =
    if decide (part_details (detailEvents cb) i = [])
    then (Ok (all_details (detailEvents cb) rs, all_range rs, false), h)
    else (Ok (collected (rs ++ [i])), h).
Proof.
  intros Hp. unfold AppendSocketDetailsFromBuffer, collected. cbn [negb].
  rewrite (bind_ok _ _ _ _ _ (part_BuildDetails loc i Hp)). case_decide as Hd; [done|].
  destruct Hp as (b & Hrest). pose proof Hrest as (hp & ep & Hb & _).
  unfold deref. step_act. rewrite Hb. step_act.
  rewrite (part_range loc i b) by (try done; by exists b). step_act.
  rewrite part_details_included by done. cbn [negb].
  unfold all_details. rewrite foldl_app. cbn [foldl].
  destruct rs as [|i0 rs]; [done|]. cbn [all_range app]. by rewrite foldl_app.
Qed.

Fixpoint collect_list (os : list (option positive))
    (st : list SocketDetailEvent * option DataIDRange * bool)
  : heap_op (list SocketDetailEvent * option DataIDRange * bool) :=
  match os with
  | [] => mret st
  | o :: os => st ← AppendSocketDetailsFromBuffer o st; collect_list os st
  end.

Lemma stream_details_list stream :
  stream_details stream h = collect_list (parts stream) ([], None, true) h.
Proof.
  unfold stream_details, parts. cbn [collect_list]. unfold mbind, act_bind.
  repeat (case_match; try done; simplify_eq).
Qed.

Lemma collect_incomplete os r i : collect_list os (r, i, false) h = (Ok (r, i, false), h).
Proof. induction os as [|o os IH]; [done|]. cbn [collect_list]. by rewrite (bind_ok _ _ _ _ _ (append_incomplete o r i)). Qed.

Lemma collect_complete os rs seen :
  Forall2 (is_part h c) (omap id os) rs →
  Forall (λ i, part_details (detailEvents cb) i ≠ []) rs →
  collect_list os (collected seen) h = (Ok (collected (seen ++ rs)), h).
Proof.
  revert rs seen. induction os as [|[loc|] os IH]; intros rs seen Hp Hne; cbn [collect_list].
  - apply Forall2_nil_inv_l in Hp as ->. by rewrite app_nil_r.
  - cbn [omap list_omap id] in Hp. apply Forall2_cons_inv_l in Hp as (i & rs' & Hi & Hp & ->).
    apply Forall_cons in Hne as [Hn Hne].
    pose proof (append_part seen loc i Hi) as Ha. rewrite decide_False in Ha by done.
    rewrite (bind_ok _ _ _ _ _ Ha), (IH rs') by done. by rewrite <- app_assoc.
  - rewrite (bind_ok _ _ _ _ _ (append_absent (collected seen))). by apply IH.
Qed.

Lemma collect_missing os rs seen :
  Forall2 (is_part h c) (omap id os) rs →
  Exists (λ i, part_details (detailEvents cb) i = []) rs →
  ∃ r i, collect_list os (collected seen) h = (Ok (r, i, false), h).
Proof.
  revert rs seen. induction os as [|[loc|] os IH]; intros rs seen Hp Hex; cbn [collect_list].
  - apply Forall2_nil_inv_l in Hp as ->. by apply Exists_nil in Hex.
  - cbn [omap list_omap id] in Hp. apply Forall2_cons_inv_l in Hp as (i & rs' & Hi & Hp & ->).
    pose proof (append_part seen loc i Hi) as Ha. case_decide as Hd.
    + rewrite (bind_ok _ _ _ _ _ Ha), collect_incomplete. by eexists _, _.
    + rewrite (bind_ok _ _ _ _ _ Ha). apply (IH rs'); [done|].
      by apply Exists_cons in Hex as [?|?].
  - rewrite (bind_ok _ _ _ _ _ (append_absent (collected seen))). by apply (IH rs).
Qed.

(** Deleting from a part deletes from the connection buffer. *)
Definition deleted (i : DataIDRange) : heap :=
  MkHeap (<[c := set_detailEvents (delete_range i (detailEvents cb)) cb]> (buffers h)) (fresh h).

Lemma part_not_connection loc i : is_part h c loc i → loc ≠ c.
Proof. intros (b & _ & _ & Hb & Hob & _) ->. congruence. Qed.

Lemma part_deleted loc i j : is_part h c loc i → is_part (deleted j) c loc i.
Proof.
  intros Hp. pose proof (part_not_connection loc i Hp). destruct Hp as (b & hp & ep & Hb & Hr).
  exists b, hp, ep. split; [|done]. simpl. by rewrite lookup_insert_ne.
Qed.

Lemma DeleteDetails_part n loc i j :
  is_part h c loc i → DeleteDetails (S (S n)) j loc h = (Ok tt, deleted j).
Proof.
  intros Hp. pose proof (part_not_connection loc i Hp) as Hne.
  destruct Hp as (b & hp & ep & Hb & Hob & _ & _ & _ & _ & _ & _ & Hde).
  cbn [DeleteDetails]. unfold deref. step_act. rewrite Hb. step_act. rewrite Hob. step_act.
  rewrite Hc. step_act. rewrite Ho. unfold delete_own, deref. step_act. rewrite Hc. step_act.
  cbn [buffers]. rewrite lookup_insert_ne by done. rewrite Hb. step_act.
  unfold modify. cbn [buffers fresh]. do 2 f_equal. rewrite insert_id; [done|].
  rewrite lookup_insert_ne by done. rewrite Hb. f_equal. destruct b. simpl in *. by subst.
Qed.
End whole_stream.

Lemma append_details_elem acc l d : d ∈ append_details acc l ↔ d ∈ acc ∨ d ∈ l.
Proof.
  unfold append_details. revert acc. induction l as [|x l IH]; intros acc; cbn [foldl].
  { rewrite elem_of_nil. naive_solver. }
  rewrite IH, elem_of_cons. case_decide as Hl; [|rewrite elem_of_app, list_elem_of_singleton; naive_solver].
  split; [naive_solver|]. intros [?|[->|?]]; [by left| |by right]. left.
  apply last_Some in Hl as [l' ->]. apply elem_of_app. right. by left.
Qed.

Lemma all_details_elem ds rs d :
  d ∈ all_details ds rs ↔ d ∈ ds ∧ ∃ j, j ∈ rs ∧ in_range (From j) (To j) d = true.
Proof.
  unfold all_details.
  assert (Hgen : ∀ acc, d ∈ foldl (λ acc i, append_details acc (part_details ds i)) acc rs ↔
    d ∈ acc ∨ d ∈ ds ∧ ∃ j, j ∈ rs ∧ in_range (From j) (To j) d = true).
  { induction rs as [|i rs IH]; intros acc; cbn [foldl].
    - split; [by left|]. intros [?|(_ & j & Hj & _)]; [done|]. by apply elem_of_nil in Hj.
    - rewrite IH, append_details_elem. unfold part_details. rewrite list_elem_of_filter.
      setoid_rewrite elem_of_cons. naive_solver. }
  rewrite Hgen. rewrite elem_of_nil. naive_solver.
Qed.

Lemma all_details_ends ds i rs :
  part_details ds i ≠ [] →
  ∃ first final, list.head (all_details ds (i :: rs)) = Some first ∧
    last (all_details ds (i :: rs)) = Some final.
Proof.
  intros Hne. destruct (part_details ds i) as [|d l] eqn:Hd; [done|].
  assert (Hin : d ∈ all_details ds (i :: rs)).
  { assert (Hd' : d ∈ part_details ds i) by (rewrite Hd; left).
    apply list_elem_of_filter in Hd' as [Hr Hds]. apply all_details_elem. split; [done|].
    exists i. split; [left|done]. }
  destruct (all_details ds (i :: rs)) as [|x xs] eqn:Ha; [by apply elem_of_nil in Hin|].
  exists x. destruct (last (x :: xs)) as [y|] eqn:Hl; [by exists y|]. by apply last_None in Hl.
Qed.

Section whole_stream_state.
Context {D : Type}.
Implicit Types (s : h2_state D).

Lemma on_heap_ok {A} (m : heap_op A) a h s :
  m (h2_heap s) = (Ok a, h) → on_heap m s = (Ok a, set_h2_heap h s).
Proof. unfold on_heap. by intros ->. Qed.

Lemma set_heap_same s : set_h2_heap (h2_heap s) s = s.
Proof. by destruct s. Qed.

Lemma part_size s c o i :
  is_part (h2_heap s) c o i → ∃ n, BufferSizeOfZero (Some o) s = (Ok n, s).
Proof.
  intros (b & hp & ep & Hb & _ & Hh & _). exists (u64 (data_size b hp)).
  unfold BufferSizeOfZero, on_buffer, try_buffer, mbind, act_bind. rewrite Hb.
  unfold DataSize. step_act. rewrite Hh. step_act. rewrite insert_id by done.
  destruct s as [[] ? ? ?]. done.
Qed.

Lemma part_in h c os rs loc :
  Forall2 (is_part h c) (omap id os) rs → Some loc ∈ os → ∃ i, i ∈ rs ∧ is_part h c loc i.
Proof.
  intros Hp Hin. assert (Hl : loc ∈ omap id os) by (apply list_elem_of_omap; by exists (Some loc)).
  apply list_elem_of_lookup_1 in Hl as [k Hk].
  destruct (Forall2_lookup_l _ _ _ _ _ Hp Hk) as (i & Hi & Hpart).
  exists i. split; [by apply list_elem_of_lookup_2 in Hi|done].
Qed.

Lemma part_FirstDetail h c cb o def rs os :
  buffers h !! c = Some cb → Forall2 (is_part h c) (omap id os) rs → o ∈ os →
  ∃ d, FirstDetail o def h = (Ok d, h).
Proof.
  intros Hc Hp Hin. destruct o as [loc|]; [|by eexists].
  destruct (part_in h c os rs loc Hp Hin) as (i & _ & Hi). unfold FirstDetail.
  rewrite (bind_ok _ _ _ _ _ (part_BuildDetails h c cb Hc loc i Hi)). by eexists.
Qed.

Lemma part_BufferSize s c rs os o :
  Forall2 (is_part (h2_heap s) c) (omap id os) rs → o ∈ os →
  ∃ n, BufferSizeOfZero o s = (Ok n, s).
Proof.
  intros Hp Hin. destruct o as [loc|]; [|by exists 0].
  destruct (part_in _ c os rs loc Hp Hin) as (i & _ & Hi). by eapply part_size.
Qed.

Lemma whole_stream_missing s c cb stream rs :
  buffers (h2_heap s) !! c = Some cb →
  Forall2 (is_part (h2_heap s) c) (omap id (parts stream)) rs →
  Exists (λ i, part_details (detailEvents cb) i = []) rs →
  HandleWholeStream stream s = (Ok true, s).
Proof.
  intros Hc Hp Hex.
  destruct (collect_missing (h2_heap s) c cb Hc (parts stream) rs [] Hp Hex) as (r & i & Hcol).
  assert (Hrun : on_heap (stream_details stream) s = (Ok (r, i, false), s)).
  { rewrite (on_heap_ok _ (r, i, false) (h2_heap s)), set_heap_same; [done|].
    by rewrite stream_details_list. }
  unfold HandleWholeStream. rewrite (bind_ok _ _ _ _ _ Hrun). cbn beta iota.
  by destruct i, (list.head r), (last r).
Qed.

(** The run of [HandleWholeStream] from what its steps give. *)
Lemma whole_stream_run s s1 stream loc details i first final start n1 n2 n3 n4 :
  on_heap (stream_details stream) s = (Ok (details, Some i, true), s) →
  list.head details = Some first → last details = Some final → ReqHeaderBuffer stream = Some loc →
  on_heap (DeleteDetails (Pos.to_nat loc) i loc) s = (Ok tt, s1) →
  on_heap (FirstDetail (ReqBodyBuffer stream) first) s1 = (Ok start, s1) →
  BufferSizeOfZero (ReqHeaderBuffer stream) s1 = (Ok n1, s1) →
  BufferSizeOfZero (ReqBodyBuffer stream) s1 = (Ok n2, s1) →
  BufferSizeOfZero (RespHeaderBuffer stream) s1 = (Ok n3, s1) →
  BufferSizeOfZero (RespBodyBuffer stream) s1 = (Ok n4, s1) →
  ∃ log, HandleWholeStream stream s =
      (Ok false, set_h2_queue (snd (AppendProtocolLog (MkProtocolEventData details (Some log))
                                      (h2_queue s1))) s1) ∧
    http_Version log = HTTPVersion_HTTP2 ∧ resp_StatusCode log = i32 (Status stream) ∧
    http_EndTime log = detail_EndTime final.
Proof.
  intros Hrun Hfirst Hfinal Hloc Hdel Hstart H1 H2 H3 H4. eexists. split; [|split_and!].
  - unfold HandleWholeStream. rewrite (bind_ok _ _ _ _ _ Hrun). cbn beta iota. rewrite Hfirst, Hfinal.
    cbn [negb]. rewrite Hloc in H1 |- *. step_act. rewrite (bind_ok _ _ _ _ _ Hdel).
    rewrite (bind_ok _ _ _ _ _ Hstart), (bind_ok _ _ _ _ _ H1), (bind_ok _ _ _ _ _ H2).
    rewrite (bind_ok _ _ _ _ _ H3), (bind_ok _ _ _ _ _ H4). step_act. reflexivity.
  - reflexivity.
  - reflexivity.
  - reflexivity.
Qed.

(** C19: the log of a stream.  A stream whose parts all have details becomes one log with
    the details of its parts, in their order and each of them, and the details of the
    whole range from the first to the last data id leave the connection; a stream with a
    part without details leaves everything as it was. *)
Theorem whole_stream_exact s c cb stream loc rs :
  buffers (h2_heap s) !! c = Some cb → originalBuffer cb = None →
  ReqHeaderBuffer stream = Some loc → (c < loc)%positive →
  Forall2 (is_part (h2_heap s) c) (omap id (parts stream)) rs →
  let ds := detailEvents cb in
  (Exists (λ i, part_details ds i = []) rs → HandleWholeStream stream s = (Ok true, s)) ∧
  (Forall (λ i, part_details ds i ≠ []) rs →
   ∃ i log, all_range rs = Some i ∧
     HandleWholeStream stream s =
       (Ok false, MkH2 (deleted (h2_heap s) c cb i) (Streams s) (HpackDecoder s)
          (snd (AppendProtocolLog (MkProtocolEventData (all_details ds rs) (Some log))
             (h2_queue s)))) ∧
     http_Version log = HTTPVersion_HTTP2 ∧ resp_StatusCode log = i32 (Status stream) ∧
     Some (http_EndTime log) = detail_EndTime <$> last (all_details ds rs) ∧
     ∀ d, d ∈ all_details ds rs ↔ d ∈ ds ∧ ∃ j, j ∈ rs ∧ in_range (From j) (To j) d = true).
Proof.
  intros Hc Ho Hloc Hlt Hp ds. split; [by apply (whole_stream_missing s c)|]. intros Hall.
  assert (Hrun : on_heap (stream_details stream) s = (Ok (collected cb rs), s)).
  { rewrite (on_heap_ok _ (collected cb rs) (h2_heap s)), set_heap_same; [done|].
    rewrite stream_details_list. by apply (collect_complete (h2_heap s) c cb Hc _ rs []). }
  destruct (part_in _ c (parts stream) rs loc Hp) as (i1 & _ & Hpart);
    [rewrite <- Hloc; unfold parts; left|].
  destruct rs as [|i0 rs].
  { unfold parts in Hp. rewrite Hloc in Hp. by apply Forall2_cons_nil_inv in Hp. }
  destruct (all_details_ends ds i0 rs) as (first & final & Hfirst & Hfinal);
    [by apply Forall_cons in Hall as [? _]|].
  set (i := foldl DataIDRange_Append i0 rs). exists i.
  set (s1 := set_h2_heap (deleted (h2_heap s) c cb i) s).
  assert (Hp1 : Forall2 (is_part (h2_heap s1) c) (omap id (parts stream)) (i0 :: rs)).
  { eapply Forall2_impl; [exact Hp|]. intros l j. by apply part_deleted. }
  assert (Hin : ∀ o, o ∈ parts stream → ∃ n, BufferSizeOfZero o s1 = (Ok n, s1))
    by (intros o; by apply (part_BufferSize s1 c (i0 :: rs))).
  destruct (Hin (ReqHeaderBuffer stream)) as [n1 H1]; [unfold parts; set_solver|].
  destruct (Hin (ReqBodyBuffer stream)) as [n2 H2]; [unfold parts; set_solver|].
  destruct (Hin (RespHeaderBuffer stream)) as [n3 H3]; [unfold parts; set_solver|].
  destruct (Hin (RespBodyBuffer stream)) as [n4 H4]; [unfold parts; set_solver|].
  destruct (part_FirstDetail (h2_heap s1) c (set_detailEvents (delete_range i ds) cb)
    (ReqBodyBuffer stream) first (i0 :: rs) (parts stream)) as [start Hstart];
    [apply lookup_insert_eq|done|unfold parts; set_solver|].
  destruct (whole_stream_run s s1 stream loc (all_details ds (i0 :: rs)) i first final start n1 n2 n3 n4)
    as (log & Hlog & ? & ? & Hend); try done.
  { apply on_heap_ok. destruct (Pos.to_nat loc) as [|[|n]] eqn:Hn; [lia..|].
    by apply (DeleteDetails_part _ c cb Hc Ho n loc i1). }
  { rewrite (on_heap_ok _ start (h2_heap s1)) by done. by rewrite set_heap_same. }
  exists log. split_and!; [done|by rewrite Hlog|done|done|by rewrite Hfinal, Hend|].
  intros d. apply all_details_elem.
Qed.
End whole_stream_state.

Module WholeStreamSample.
(** A part that reads the whole chunk of a data id. *)
Definition part (id : positive) (dataID : Z) : Buffer :=
  let e := Elem id (Http2Sample.chunk_of dataID (Http2Sample.request 1)) in
  MkBuffer [e] [] true false (Some (MkPosition (Some e) 0)) (Some (MkPosition (Some e) 0)) 0
    (Some 1%positive) (Some (MkPosition (Some e) 10)).
Definition connection : Buffer :=
  MkBuffer [] (Http2Sample.detail <$> [1; 2; 3; 4]) false false None None 0 None None.
Definition state : h2_state unit :=
  MkH2 (MkHeap {[ 1%positive := connection; 2%positive := part 10 1; 3%positive := part 11 3 ]} 12)
    ∅ tt (MkQueue (MkLogChan [] 0) (MkLogChan [] 0) 100).
Definition stream : HTTP2Streaming :=
  MkStreaming ∅ ∅ (Some 2%positive) None true 200 (Some 3%positive) None.
Definition ranges : list DataIDRange := [MkDataIDRange 1 1 true; MkDataIDRange 3 3 true].

Lemma ranges_ok : Forall2 (is_part (h2_heap state) 1) (omap id (parts stream)) ranges.
Proof. repeat constructor; do 3 eexists; repeat split; done. Qed.
End WholeStreamSample.

Lemma whole_stream_exact_witness :
  ∃ i log, all_range WholeStreamSample.ranges = Some i ∧
    HandleWholeStream WholeStreamSample.stream WholeStreamSample.state =
      (Ok false, MkH2 (deleted (h2_heap WholeStreamSample.state) 1 WholeStreamSample.connection i) ∅ tt
         (snd (AppendProtocolLog (MkProtocolEventData (Http2Sample.detail <$> [1; 3]) (Some log))
            (h2_queue WholeStreamSample.state)))) ∧
    detail_DataID0 <$> delete_range i (detailEvents WholeStreamSample.connection) = [4].
Proof.
  destruct (proj2 (whole_stream_exact WholeStreamSample.state 1 WholeStreamSample.connection
    WholeStreamSample.stream 2 WholeStreamSample.ranges eq_refl eq_refl eq_refl eq_refl
    WholeStreamSample.ranges_ok)) as (i & log & Hi & Hrun & _).
  - repeat constructor; vm_compute; discriminate.
  - exists i, log. split; [exact Hi|]. split; [exact Hrun|]. injection Hi as <-. reflexivity.
Defined.
