(* ===== verification/Http2Loop.v ===== *)
(** * The rounds of the HTTP/2 analysis

    [Analyze] of Http2.v reads frames until the buffer has no more to read.  Every round
    leaves a byte or a chunk behind, so the loop ends; the fuel of the model is enough,
    and so is the fuel of the read loops it calls.  The rounds are followed for any
    invariant that the frames keep; Http2Ends.v has the theorem. *)

From stdpp Require Import base gmap list strings.
From Stdlib Require Import ZArith Lia.
From S2P Require Import Prelude GoStrings Interfaces ProcessMonitor Connection Ztunnel AccessLogTail Sender Delivery Tracing Events Buffer BufferOrder Http2.

(** ** Runs without exhaustion

    A run may not run out of fuel, and it panics only if [panics] holds.  The error of a
    method is a value. *)

Definition safe (panics : Prop) {S A} (m : act S read_error A) (Q : A → S → Prop) (s : S) : Prop :=
  match m s with
  | (Ok a, s') => Q a s'
  | (Err _, _) => False
  | (Panic, _) => panics
  end.

Definition safe_read {S A} (m : act S read_error A) (Q : read_error + A → S → Prop) (s : S) : Prop :=
  match m s with
  | (Ok a, s') => Q (inr a) s'
  | (Err e, s') => e ≠ OutOfFuel ∧ Q (inl e) s'
  | (Panic, _) => False
  end.

Section safe_lemmas.
Context {S : Type} (panics : Prop).
Notation safe := (safe panics).

Lemma safe_bind {A B} (m : act S read_error A) (f : A → act S read_error B) Q s :
  safe m (λ a, safe (f a) Q) s → safe (m ≫= f) Q s.
Proof. unfold Http2Loop.safe, mbind, act_bind. by destruct (m s) as [[]]. Qed.

Lemma safe_mono {A} (m : act S read_error A) (P Q : A → S → Prop) s :
  safe m P s → (∀ a s', P a s' → Q a s') → safe m Q s.
Proof. unfold Http2Loop.safe. destruct (m s) as [[] ?]; naive_solver. Qed.

Lemma safe_ret {A} (a : A) (Q : A → S → Prop) s : Q a s → safe (mret a : act S read_error A) Q s.
Proof. done. Qed.

Lemma safe_get (Q : S → S → Prop) s : Q s s → safe (get : act S read_error S) Q s.
Proof. done. Qed.

Lemma safe_modify f (Q : unit → S → Prop) s : Q tt (f s) → safe (modify f : act S read_error unit) Q s.
Proof. done. Qed.

Lemma safe_must {A} (o : option A) (Q : A → S → Prop) s :
  (∀ a, o = Some a → Q a s) → Http2Loop.safe True (lift (must o) : act S read_error A) Q s.
Proof. destruct o; simpl; unfold Http2Loop.safe; simpl; auto. Qed.

Lemma safe_read_bind {A B} (m : act S read_error A) (f : A → act S read_error B) Q s :
  safe_read m (λ r s', match r with inr a => safe_read (f a) Q s' | inl e => Q (inl e) s' end) s →
  safe_read (m ≫= f) Q s.
Proof. unfold safe_read, mbind, act_bind. by destruct (m s) as [[]]. Qed.

Lemma safe_read_mono {A} (m : act S read_error A) (P Q : read_error + A → S → Prop) s :
  safe_read m P s → (∀ r s', P r s' → Q r s') → safe_read m Q s.
Proof. unfold safe_read. destruct (m s) as [[] ?]; naive_solver. Qed.
End safe_lemmas.

(** ** Positions in a list *)

(** The buffer is read at the index [i] of the chunk [e], which [post] follows. *)
Record at_chunk (b : Buffer) (e : chunk) (i : Z) (post : list chunk) : Prop := {
  at_list : ∃ pre, dataEvents b = pre ++ e :: post;
  at_unique : unique (dataEvents b);
  at_wf : Forall (λ x, wf_chunk (evalue x)) (dataEvents b);
  at_current : current b = Some (MkPosition (Some e) i);
  at_index : 0 ≤ i
}.

(** What is left to read. *)
Definition remaining (e : chunk) (i : Z) (post : list chunk) : nat :=
  S (Z.to_nat (BufferLen (evalue e) - i) + weight post).

Lemma at_wf_chunk b e i post : at_chunk b e i post → wf_chunk (evalue e).
Proof.
  intros [[pre Hl] _ Hwf _ _]. rewrite Hl, Forall_app, Forall_cons in Hwf. naive_solver.
Qed.

Lemma at_next b e i post : at_chunk b e i post → nextElement b e = list.head post.
Proof.
  intros [[pre Hl] Hu _ _ _]. unfold nextElement. rewrite Hl in *. by apply next_of_mid.
Qed.

(** Only the current position changed, and it went forward. *)
Definition forward (b b' : Buffer) (e : chunk) (i : Z) (post : list chunk) (strict : bool) : Prop :=
  ∃ e' i' post', moved b b' ∧ at_chunk b' e' i' post' ∧
    (length post' ≤ length post)%nat ∧
    (∃ mid, e :: post = mid ++ e' :: post') ∧
    (remaining e' i' post' + (if strict then 1 else 0) ≤ remaining e i post)%nat.

Lemma forward_refl b e i post : at_chunk b e i post → forward b b e i post false.
Proof.
  intros Ha. exists e, i, post. split_and!; [|done|lia|by exists []|lia].
  exists (current b). by destruct b.
Qed.

Lemma at_chunk_inj b e i post e' i' post' :
  at_chunk b e i post → at_chunk b e' i' post' → e' = e ∧ i' = i ∧ post' = post.
Proof.
  intros [[pre Hl] Hu _ Hc _] [[pre' Hl'] _ _ Hc' _]. rewrite Hc in Hc'. simplify_eq.
  split_and!; [done..|]. rewrite Hl in Hu. pose proof (suffix_from_mid _ _ _ Hu) as H1.
  rewrite <- Hl, Hl' in Hu, H1. pose proof (suffix_from_mid _ _ _ Hu) as H2. congruence.
Qed.

Lemma forward_trans b b' b'' e i post e' i' post' strict strict' :
  forward b b' e i post strict → at_chunk b' e' i' post' → forward b' b'' e' i' post' strict' →
  forward b b'' e i post (strict || strict').
Proof.
  intros (e1 & i1 & p1 & [q1 Hm1] & Ha1 & Hl1 & [m1 Hs1] & Hleft1) Ha' H2.
  destruct (at_chunk_inj _ _ _ _ _ _ _ Ha1 Ha') as (-> & -> & ->).
  destruct H2 as (e2 & i2 & p2 & [q2 Hm2] & Ha2 & Hl2 & [m2 Hs2] & Hleft2).
  exists e2, i2, p2. split_and!; [|done|lia| |destruct strict, strict'; cbn [orb]; lia].
  - exists q2. by rewrite Hm2, Hm1.
  - exists (m1 ++ m2). by rewrite Hs1, Hs2, app_assoc.
Qed.

Lemma forward_weaken b b' e i post strict :
  forward b b' e i post strict → forward b b' e i post false.
Proof.
  intros (e1 & i1 & p1 & H1 & H2 & H3 & H4 & H5). exists e1, i1, p1. split_and!; try done. lia.
Qed.

Lemma moved_at b b' e i post e' i' post' :
  at_chunk b e i post → b' = move_current (Some e') i' b → 0 ≤ i' →
  (∃ pre, dataEvents b = pre ++ e' :: post') → at_chunk b' e' i' post'.
Proof. intros [_ Hu Hwf _ _] -> Hi Hl. by split. Qed.

(** Reading a part of the current chunk, or of the next one; an empty read enters an empty
    chunk, and an error leaves the buffer as it is. *)
Lemma Read_total n b e i post :
  at_chunk b e i post → 0 < n →
  match Read n b with
  | (Ok bytes, b') => ∃ e' i' post', b' = move_current (Some e') i' b ∧ at_chunk b' e' i' post' ∧
      (∃ mid, e :: post = mid ++ e' :: post') ∧ (length post' ≤ length post)%nat ∧
      (remaining e' i' post' + Nat.max 1 (length bytes) ≤ remaining e i post)%nat ∧
      Z.of_nat (length bytes) ≤ Z.min n i' ∧ i' ≤ BufferLen (evalue e') ∧
      (bytes = [] → i' = 0 ∧ post = e' :: post') ∧ (i < BufferLen (evalue e) → e' = e ∧ i ≤ i')
  | (Err er, b') => er ≠ OutOfFuel ∧ b' = b
  | (Panic, _) => False
  end.
Proof.
  intros Ha Hn. pose proof (at_wf_chunk _ _ _ _ Ha) as Hwf. pose proof (at_next _ _ _ _ Ha) as Hnext.
  destruct (wf_data _ Hwf) as (d & Hd & Hcap & Hdl & Hlen).
  pose proof (at_current _ _ _ _ Ha) as Hcur. pose proof (at_index _ _ _ _ Ha) as Hi.
  unfold Read. rewrite decide_False by lia. step_act. rewrite Hcur. unfold ReadFromCurrent. step_act.
  rewrite Hcur. step_act. cbn [element bufIndex]. step_act. case_decide as Hres.
  - set (k := if decide (BufferLen (evalue e) - i < n) then _ else n).
    assert (Hk : 0 < k ≤ BufferLen (evalue e) - i ∧ k ≤ n) by (unfold k; case_decide; lia).
    destruct (reslice_inside d i (i + k) Hcap) as (d' & Hd' & Hcap' & Hlen' & Hel); [lia..|].
    assert (Hed : Z.of_nat (length (elems d')) = k) by (unfold elems; rewrite length_take; lia).
    rewrite Hd. simpl. rewrite Hd'. step_act. rewrite decide_True by (intros E; rewrite E in Hed; simpl in Hed; lia).
    step_act. exists e, (i + k), post. split_and!; [done| |by exists []|lia| |lia|lia| |].
    + eapply moved_at; [done|done|lia|apply Ha].
    + unfold remaining. lia.
    + intros E. rewrite E in Hed. simpl in Hed. lia.
    + intros _. split; [done|lia].
  - step_act. rewrite decide_False by naive_solver. rewrite Hnext. destruct post as [|e' post]; simpl.
    { by step_act. }
    destruct (shouldRead _ _ _ _); [|by step_act].
    destruct (at_list _ _ _ _ Ha) as [pre Hl].
    assert (Hwf' : wf_chunk (evalue e')).
    { pose proof (at_wf _ _ _ _ Ha) as Hall. rewrite Hl, Forall_app, !Forall_cons in Hall. naive_solver. }
    destruct (wf_data _ Hwf') as (d2 & Hd2 & Hcap2 & Hdl2 & Hlen2).
    unfold read0. set (k := if decide (BufferLen (evalue e') < n) then _ else n).
    assert (Hk : 0 ≤ k ≤ BufferLen (evalue e') ∧ k ≤ n) by (unfold k; case_decide; lia).
    destruct (reslice_inside d2 0 k Hcap2) as (d' & Hd' & Hcap' & Hlen' & Hel); [lia..|].
    assert (Hed : Z.of_nat (length (elems d')) = k) by (unfold elems; rewrite length_take; lia).
    rewrite Hd2. simpl. rewrite Hd'. step_act. exists e', k, post.
    split_and!; [done| |by exists [e]|lia| |lia|lia| |].
    + eapply moved_at; [done|done|lia|]. exists (pre ++ [e]). by rewrite Hl, <- app_assoc.
    + unfold remaining. simpl. lia.
    + intros E. rewrite E in Hed. simpl in Hed. split; [lia|done].
    + lia.
Qed.

Lemma Read_forward n b e i post :
  at_chunk b e i post → 0 < n →
  safe_read (Read n)
    (λ r b', match r with
             | inl er => er ≠ OutOfFuel ∧ forward b b' e i post false
             | inr [] => ∃ e' post', post = e' :: post' ∧ forward b b' e i post true ∧
                           at_chunk b' e' 0 post'
             | inr (_ :: _) => forward b b' e i post true
             end) b.
Proof.
  intros Ha Hn. pose proof (Read_total n b e i post Ha Hn) as H. unfold safe_read.
  destruct (Read n b) as [[bytes|er|] b']; [| |done].
  - destruct H as (e' & i' & post' & Hb & Ha' & Hmid & Hlen & Hrem & _ & _ & Hnil & _).
    assert (Hf : forward b b' e i post true).
    { exists e', i', post'. split_and!; [by eexists|done..|lia]. }
    destruct bytes; [|done]. destruct (Hnil eq_refl) as [-> ->]. by exists e', post'.
  - destruct H as [Her ->]. pose proof (forward_refl _ _ _ _ Ha). done.
Qed.

(** A read loop: what it wants, and the chunks in front of it, bound its rounds. *)
Lemma read_step {A} n b e i post fuel (k : list Z → act Buffer read_error A)
    (Q : read_error + A → Buffer → Prop) :
  at_chunk b e i post → 0 < n → (Z.to_nat n + length post < S fuel)%nat →
  (∀ er b', forward b b' e i post false → Q (inl er) b') →
  (∀ bytes b' e' i' post', forward b b' e i post true → at_chunk b' e' i' post' →
     (Z.to_nat (n - Z.of_nat (length bytes)) + length post' < fuel)%nat →
     safe_read (k bytes) Q b') →
  safe_read (Read n ≫= k) Q b.
Proof.
  intros Ha Hn Hfuel Herr Hok. apply safe_read_bind.
  eapply safe_read_mono; [by apply (Read_forward n b e i post)|].
  intros [er|bytes] b' Hr; [destruct Hr; by apply Herr|]. destruct bytes as [|x bytes].
  - destruct Hr as (e' & post' & -> & Hf & Hat). eapply Hok; [exact Hf|exact Hat|].
    simpl in *. lia.
  - pose proof Hr as (e' & i' & post' & _ & Hat & Hlen & _). eapply Hok; [exact Hr|exact Hat|].
    simpl length. lia.
Qed.

Lemma peek_loop_forward fuel plen b e i post :
  at_chunk b e i post → (Z.to_nat plen + length post < fuel)%nat →
  safe_read (peek_loop fuel plen)
    (λ r b', forward b b' e i post (match r with inl _ => false | inr _ => bool_decide (0 < plen) end)) b.
Proof.
  revert plen b e i post. induction fuel as [|fuel IH]; intros plen b e i post Ha Hf; [lia|].
  cbn [peek_loop]. case_decide as Hp.
  { rewrite bool_decide_false by lia. by apply forward_refl. }
  rewrite (bool_decide_true (0 < plen)) by lia.
  eapply read_step; [done|lia|done|done|]. intros bytes b' e' i' post' Hfw Hat Hlt.
  apply safe_read_bind. eapply safe_read_mono; [by apply (IH _ b' e' i' post')|].
  intros r b'' Hr. pose proof (forward_trans _ _ _ _ _ _ _ _ _ _ _ Hfw Hat Hr) as Htr.
  destruct r; [by eapply forward_weaken|done].
Qed.

Lemma full_loop_forward fuel data plen b e i post :
  at_chunk b e i post → (Z.to_nat plen + length post < fuel)%nat →
  safe_read (full_loop fuel data plen) (λ _ b', forward b b' e i post false) b.
Proof.
  revert data plen b e i post. induction fuel as [|fuel IH]; intros data plen b e i post Ha Hf; [lia|].
  cbn [full_loop]. case_decide as Hp; [by apply forward_refl|].
  eapply read_step; [done|lia|done|done|]. intros bytes b' e' i' post' Hfw Hat Hlt.
  eapply safe_read_mono; [by apply (IH _ _ b' e' i' post')|].
  intros r b'' Hr. eapply forward_weaken, (forward_trans _ _ _ _ _ _ _ _ _ _ _ Hfw Hat Hr).
Qed.

Lemma at_fuel b e i post n : at_chunk b e i post → (Z.to_nat n + length post < read_fuel b n)%nat.
Proof.
  intros [[pre Hl] _ _ _ _]. unfold read_fuel. rewrite Hl, length_app. simpl. lia.
Qed.

Lemma ReadFull_forward n b e i post :
  at_chunk b e i post → 0 < n →
  safe_read (ReadFull n)
    (λ r b', forward b b' e i post (match r with inl _ => false | inr _ => true end)) b.
Proof.
  intros Ha Hn. pose proof (peek_loop_forward (read_fuel b n) n b e i post Ha (at_fuel _ _ _ _ n Ha)) as H.
  rewrite bool_decide_true in H by done. exact H.
Qed.

Lemma ReadUntil_forward data b e i post :
  at_chunk b e i post →
  safe_read (ReadUntilBufferFull data) (λ _ b', forward b b' e i post false) b.
Proof.
  intros Ha. exact (full_loop_forward _ data _ b e i post Ha (at_fuel _ _ _ _ _ Ha)).
Qed.

(** ** What does not touch the connection buffer *)

(** Only the details of a buffer differ. *)
Definition same_data (b b' : Buffer) : Prop := ∃ ds, b' = set_detailEvents ds b.

Global Instance same_data_preorder : PreOrder same_data.
Proof.
  split; [intros b; exists (detailEvents b); by destruct b|].
  intros b1 b2 b3 [d1 ->] [d2 ->]. by exists d2.
Qed.

(** [m] leaves the invariant and the buffer [I] speaks of, and returns what [R] holds of. *)
Definition keeps {S A} (I : S → Buffer → Prop) (m : act S read_error A) (R : A → Prop) : Prop :=
  ∀ s b, I s b → safe True m (λ a s', R a ∧ ∃ b', I s' b' ∧ same_data b b') s.

Section keeps_lemmas.
Context {S : Type} (I : S → Buffer → Prop).

Lemma keeps_ret {A} (a : A) (R : A → Prop) : R a → keeps I (mret a) R.
Proof. intros Ha s b Hb. split; [done|]. by exists b. Qed.

Lemma keeps_bind {A B} (m : act S read_error A) (f : A → act S read_error B) R R' :
  keeps I m R → (∀ a, R a → keeps I (f a) R') → keeps I (m ≫= f) R'.
Proof.
  intros Hm Hf s b Hb. apply safe_bind. eapply safe_mono; [by apply Hm|].
  intros a s' (Ha & b' & Hb' & Hd). eapply safe_mono; [by apply Hf|].
  intros a' s'' (Ha' & b'' & Hb'' & Hd'). split; [done|]. exists b''. split; [done|]. by trans b'.
Qed.

Lemma keeps_get (R : S → Prop) : (∀ s b, I s b → R s) → keeps I get R.
Proof. intros H s b Hb. split; [by eapply H|]. by exists b. Qed.

Lemma keeps_must {A} (o : option A) : keeps I (lift (must o)) (λ _, True).
Proof. intros s b Hb. apply safe_must. intros a _. split; [done|]. by exists b. Qed.

Lemma keeps_mono {A} (m : act S read_error A) (R R' : A → Prop) :
  keeps I m R → (∀ a, R a → R' a) → keeps I m R'.
Proof. intros Hm Hr s b Hb. eapply safe_mono; [by apply Hm|]. naive_solver. Qed.

Lemma keeps_modify f : (∀ s b, I s b → I (f s) b) → keeps I (modify f) (λ _, True).
Proof. intros H s b Hb. split; [done|]. exists b. split; [by apply H|done]. Qed.
End keeps_lemmas.

Section untouched.
Context (buf : positive).

(** The buffers of the heap: slices are newer than what they are cut from. *)
Record heap_inv (h : heap) (b : Buffer) : Prop := {
  hi_buf : buffers h !! buf = Some b;
  hi_fresh : (buf < fresh h)%positive;
  hi_chain loc x o : buffers h !! loc = Some x → originalBuffer x = Some o → (o < loc)%positive
}.

Lemma keeps_deref loc : keeps heap_inv (deref loc) (λ _, True).
Proof.
  intros h b Hb. unfold deref. apply safe_bind, safe_get, safe_must. intros a _.
  split; [done|]. by exists b.
Qed.

(** Reading the heap. *)
Lemma keeps_pure {A} (m : heap_op A) :
  (∀ h, match m h with (Err _, _) => False | (_, h') => h' = h end) → keeps heap_inv m (λ _, True).
Proof.
  intros Hm h b Hb. unfold safe. specialize (Hm h). destruct (m h) as [[] h']; [|done|done].
  subst. split; [done|]. by exists b.
Qed.

Lemma keeps_BuildDetails loc : keeps heap_inv (BuildDetails loc) (λ _, True).
Proof.
  unfold BuildDetails. eapply keeps_bind; [apply keeps_deref|]. intros r _.
  destruct (originalBuffer r) as [o|]; [|by apply keeps_ret].
  do 4 (eapply keeps_bind; [apply keeps_must|intros ? _]).
  eapply keeps_bind; [apply keeps_deref|]. intros x _. by apply keeps_ret.
Qed.

Lemma keeps_range r : keeps heap_inv (lift (BuildTotalDataIDRange r)) (λ _, True).
Proof.
  apply keeps_pure. intros h. unfold BuildTotalDataIDRange, lift. case_decide; [done|].
  destruct (match endPosition r with Some p => Some p | None => current r end) as [e|]; [|done].
  simpl. destruct (position_DataID e); [|done]. simpl. destruct (position_finished e); [|done]. simpl.
  destruct (head r) as [p|]; [|done]. simpl. by destruct (position_DataID p).
Qed.

Lemma keeps_append o st : keeps heap_inv (AppendSocketDetailsFromBuffer o st) (λ _, True).
Proof.
  destruct st as [[r i] []]; cbn [negb AppendSocketDetailsFromBuffer]; [|by apply keeps_ret].
  destruct o as [loc|]; [|by apply keeps_ret].
  eapply keeps_bind; [apply keeps_BuildDetails|]. intros ds _. case_decide; [by apply keeps_ret|].
  eapply keeps_bind; [apply keeps_deref|]. intros x _.
  eapply keeps_bind; [apply keeps_range|]. intros y _.
  eapply keeps_bind; [apply keeps_must|]. intros z _.
  repeat case_match; by apply keeps_ret.
Qed.

Lemma keeps_stream_details st : keeps heap_inv (stream_details st) (λ _, True).
Proof.
  unfold stream_details. do 3 (eapply keeps_bind; [apply keeps_append|intros ? _]). apply keeps_append.
Qed.

Lemma keeps_FirstDetail o d : keeps heap_inv (FirstDetail o d) (λ _, True).
Proof.
  destruct o as [loc|]; [|by apply keeps_ret].
  eapply keeps_bind; [apply keeps_BuildDetails|]. intros ds _. by apply keeps_ret.
Qed.

(** Writing details. *)
Lemma keeps_delete_own i loc : keeps heap_inv (delete_own i loc) (λ _, True).
Proof.
  intros h b [Hb Hf Hch]. unfold delete_own, deref. apply safe_bind, safe_bind, safe_get, safe_must.
  intros r Hr. apply safe_modify. split; [done|].
  destruct (decide (loc = buf)) as [->|Hne].
  - simplify_eq. eexists. split; [|by eexists]. split; simpl; [apply lookup_insert_eq|done|].
    intros l x o [[<- <-]|[_ Hx]]%lookup_insert_Some; [by apply (Hch _ _ _ Hb)|by apply Hch].
  - exists b. split; [|done]. split; simpl; [by rewrite lookup_insert_ne|done|].
    intros l x o [[<- <-]|[_ Hx]]%lookup_insert_Some; [by apply (Hch _ _ _ Hr)|by apply Hch].
Qed.

Lemma keeps_DeleteDetails n i loc :
  (Pos.to_nat loc ≤ n)%nat → keeps heap_inv (DeleteDetails n i loc) (λ _, True).
Proof.
  revert loc. induction n as [|n IH]; intros loc Hn; [lia|]. cbn [DeleteDetails].
  intros h b Hb. unfold deref. apply safe_bind, safe_bind, safe_get, safe_must. intros r Hr.
  assert (Hk : keeps heap_inv (match originalBuffer r with
    | Some o => DeleteDetails n i o | None => mret tt end) (λ _, True)).
  { destruct (originalBuffer r) as [o|] eqn:Ho; [|by apply keeps_ret]. apply IH.
    pose proof (hi_chain _ _ Hb loc r o Hr Ho). lia. }
  apply (keeps_bind _ _ _ _ _ Hk (λ _ _, keeps_delete_own i loc) h b Hb).
Qed.

(** New buffers. *)
Lemma keeps_alloc values valid index endp :
  keeps heap_inv (h ← get;
    let '(h', loc) := alloc values valid index (Some buf) endp h in
    _ ← put h'; mret loc) (λ loc, loc ≠ buf).
Proof.
  intros h b [Hb Hf Hch]. apply safe_bind, safe_get. unfold alloc.
  set (loc := (fresh h + Pos.of_succ_nat (length values))%positive).
  assert (Hlt : (buf < loc)%positive) by (unfold loc; lia).
  unfold safe. step_act. split; [lia|]. exists b. split; [|done]. split; simpl.
  - rewrite lookup_insert_ne; [done|lia].
  - lia.
  - intros l x o [[<- <-]|[_ Hx]]%lookup_insert_Some; [|by apply Hch]. simpl. by intros [= <-].
Qed.

Lemma keeps_Slice valid st en : keeps heap_inv (Slice buf valid st en) (λ loc, loc ≠ buf).
Proof.
  unfold Slice. eapply keeps_bind; [apply keeps_deref|]. intros r _.
  eapply keeps_bind; [apply keeps_must|]. intros values _. apply keeps_alloc.
Qed.

Lemma keeps_deref_opt o : keeps heap_inv (deref_opt o) (λ _, True).
Proof.
  destruct o as [loc|]; [|by apply keeps_ret].
  eapply keeps_bind; [apply keeps_deref|]. intros b _. by apply keeps_ret.
Qed.

Lemma keeps_CombineSlices o1 o2 :
  keeps heap_inv (CombineSlices true (Some buf) [o1; o2]) (λ o, o ≠ Some buf).
Proof.
  unfold CombineSlices, deref_all. eapply keeps_bind.
  { eapply keeps_bind; [apply keeps_deref_opt|]. intros b1 _. eapply keeps_bind.
    { eapply keeps_bind; [apply keeps_deref_opt|]. intros b2 _.
      eapply keeps_bind; [by apply (keeps_ret _ _ (λ _, True))|]. intros l _.
      by apply (keeps_ret _ _ (λ _, True)). }
    intros l _. by apply (keeps_ret _ _ (λ _, True)). }
  intros bs _. eapply keeps_bind; [apply keeps_must|]. intros values _.
  eapply keeps_bind with (R := λ _, True).
  { apply keeps_pure. intros h. unfold combine_end, lift. repeat case_match; try done.
    simplify_eq. unfold must in *. simpl in *. by case_match. }
  intros endp _. eapply (keeps_mono _ _ (λ o, ∃ loc, o = Some loc ∧ loc ≠ buf)).
  - intros h b Hb. pose proof (keeps_alloc values true 0 endp h b Hb) as Ha.
    unfold safe, mbind, act_bind, get in *. simpl in *. destruct Ha as [Hne Hb'].
    split; [by eexists|done].
  - by intros o (loc & -> & Hne) [= ?].
Qed.

(** ** The state of the analyzer *)

Context {D : Type}.
Implicit Types (s : h2_state D).

Definition foreign (st : HTTP2Streaming) : Prop := Some buf ∉ parts st.

Record h2_inv s (b : Buffer) : Prop := {
  h2i_heap : heap_inv (h2_heap s) b;
  h2i_streams id st : Streams s !! id = Some st → foreign st
}.

Lemma keeps_on_heap {A} (m : heap_op A) R :
  keeps heap_inv m R → keeps h2_inv (on_heap m) R.
Proof.
  intros Hm s b [Hb Hst]. unfold safe, on_heap. specialize (Hm (h2_heap s) b Hb). unfold safe in Hm.
  destruct (m (h2_heap s)) as [[a|e|] h']; [|done|done]. destruct Hm as (HR & b' & Hb' & Hd).
  split; [done|]. exists b'. split; [|done]. by split.
Qed.

(** A method on another buffer. *)
Lemma keeps_on_buffer {A} loc (m : method A) :
  loc ≠ buf → (∀ b, safe True m (λ _ b', originalBuffer b' = originalBuffer b) b) →
  keeps h2_inv (on_buffer loc m) (λ _, True).
Proof.
  intros Hne Hm s b [[Hb Hf Hch] Hst]. unfold safe, on_buffer, try_buffer, mbind, act_bind.
  destruct (buffers (h2_heap s) !! loc) as [x|] eqn:Hx; [|done]. specialize (Hm x). unfold safe in Hm.
  destruct (m x) as [[a|e|] x'] eqn:Hmx; [|done|done]. simpl. split; [done|]. exists b.
  split; [|done]. split; [|done]. split; simpl; [by rewrite lookup_insert_ne|done|].
  intros l y o [[<- <-]|[_ Hy]]%lookup_insert_Some; [rewrite Hm; by apply Hch|by apply Hch].
Qed.

Lemma Prepare_original b :
  safe True PrepareForReading (λ _ b', originalBuffer b' = originalBuffer b) b.
Proof.
  unfold safe, PrepareForReading. step_act. case_decide; [done|]. step_act. simpl.
  by destruct (shouldResetPosition b).
Qed.

Lemma DataSize_original b : safe True DataSize (λ _ b', originalBuffer b' = originalBuffer b) b.
Proof.
  unfold DataSize. apply safe_bind, safe_get. destruct (head b); [by apply safe_ret|].
  apply safe_bind. eapply safe_mono; [apply Prepare_original|]. intros ok b' Hb'.
  destruct ok; [|by apply safe_ret]. apply safe_bind, safe_get, safe_bind, safe_must. intros h _.
  by apply safe_bind, safe_modify, safe_ret.
Qed.

Lemma keeps_BufferSize o : o ≠ Some buf → keeps h2_inv (BufferSizeOfZero o) (λ _, True).
Proof.
  destruct o as [loc|]; [|by intros _; apply keeps_ret]. intros Hne. unfold BufferSizeOfZero.
  eapply keeps_bind; [apply keeps_on_buffer; [congruence|apply DataSize_original]|].
  intros n _. by apply keeps_ret.
Qed.

Lemma foreign_parts st :
  foreign st ↔ ReqHeaderBuffer st ≠ Some buf ∧ ReqBodyBuffer st ≠ Some buf ∧
    RespHeaderBuffer st ≠ Some buf ∧ RespBodyBuffer st ≠ Some buf.
Proof.
  unfold foreign, parts. rewrite !not_elem_of_cons. pose proof (not_elem_of_nil (Some buf)).
  split; [intros (? & ? & ? & ? & _)|intros (? & ? & ? & ?)]; split_and!; congruence.
Qed.

Lemma keeps_HandleWholeStream st :
  foreign st → keeps h2_inv (HandleWholeStream st) (λ _, True).
Proof.
  intros (H1 & H2 & H3 & H4)%foreign_parts. unfold HandleWholeStream.
  eapply keeps_bind; [apply keeps_on_heap, keeps_stream_details|]. intros [[ds i] inc] _. simpl.
  destruct i as [i|], (list.head ds) as [d1|], (last ds) as [d2|]; try by apply keeps_ret.
  destruct inc; [|by apply keeps_ret]. simpl.
  eapply keeps_bind; [apply keeps_must|]. intros loc _.
  eapply keeps_bind; [apply keeps_on_heap, keeps_DeleteDetails; lia|]. intros _ _.
  eapply keeps_bind; [apply keeps_on_heap, keeps_FirstDetail|]. intros start _.
  do 4 (eapply keeps_bind; [by apply keeps_BufferSize|intros ? _]).
  eapply keeps_bind; [apply keeps_modify; by intros s b [? ?]; split|]. intros _ _.
  by apply keeps_ret.
Qed.

Lemma keeps_validate bootTime now st :
  foreign st → keeps h2_inv (validateIsStreamOpenTooLong bootTime now st) (λ _, True).
Proof.
  intros Hf. pose proof Hf as (_ & H2 & _)%foreign_parts. unfold validateIsStreamOpenTooLong.
  destruct (IsInResponse st); [by apply keeps_ret|].
  destruct (ReqBodyBuffer st) as [body|]; [|by apply keeps_ret].
  eapply keeps_bind; [apply keeps_on_heap, keeps_deref|]. intros r _.
  destruct (FirstSocketBuffer r); [|by apply keeps_ret]. case_match; [|by apply keeps_ret].
  eapply keeps_bind; [by apply keeps_HandleWholeStream|]. intros _ _.
  apply keeps_on_buffer; [congruence|]. by intros b.
Qed.

Lemma keeps_Position : keeps h2_inv (on_buffer buf Position_) (λ _, True).
Proof.
  intros s b [[Hb Hf Hch] Hst]. unfold safe, on_buffer, try_buffer, mbind, act_bind. rewrite Hb.
  unfold Position_. step_act. destruct (current b) as [p|]; [|done]. simpl. split; [done|].
  exists b. split; [|done]. rewrite insert_id by done. split; [|done]. by split.
Qed.

Lemma keeps_slice startPos :
  keeps h2_inv (endPos ← on_buffer buf Position_; on_heap (Slice buf true startPos endPos))
    (λ loc, loc ≠ buf).
Proof.
  eapply keeps_bind; [apply keeps_Position|]. intros p _. apply keeps_on_heap, keeps_Slice.
Qed.

Lemma keeps_extend old startPos : keeps h2_inv (extend buf old startPos) (λ o, o ≠ Some buf).
Proof.
  unfold extend. eapply keeps_bind; [apply keeps_Position|]. intros p _.
  eapply keeps_bind; [apply keeps_on_heap, keeps_Slice|]. intros loc _.
  apply keeps_on_heap, keeps_CombineSlices.
Qed.

Lemma keeps_set_stream id st : foreign st → keeps h2_inv (modify (set_stream id st)) (λ _, True).
Proof.
  intros Hf. apply keeps_modify. intros s b [Hb Hst]. split; [done|]. simpl.
  intros i x [[<- <-]|[_ Hx]]%lookup_insert_Some; [done|by eapply Hst].
Qed.

Lemma keeps_delete_stream id : keeps h2_inv (modify (delete_stream id)) (λ _, True).
Proof.
  apply keeps_modify. intros s b [Hb Hst]. split; [done|]. simpl.
  intros i x [_ Hx]%lookup_delete_Some. by eapply Hst.
Qed.

(** ** Header blocks *)

Context (DecodeFull : list Z → D → option (list (string * string)) * D).
Context (frame_header : list Z → FrameHeader) (bootTime : Z).

Lemma keeps_header_block header startPos bytes :
  keeps h2_inv (handleHeaderBlock DecodeFull header startPos buf bytes) (λ _, True).
Proof.
  unfold handleHeaderBlock.
  eapply keeps_bind; [apply (keeps_get _ (λ s, ∀ id st, Streams s !! id = Some st → foreign st));
    by intros s b []|]. intros s Hs. destruct (DecodeFull _ _) as [decoded decoder].
  eapply keeps_bind; [apply keeps_modify; by intros s' b [? ?]; split|]. intros _ _.
  destruct decoded as [hd|]; [|by apply keeps_ret]. cbv zeta.
  destruct (Streams s !! frame_StreamID header) as [st|] eqn:Hst.
  - apply Hs in Hst. set (st' := match parseHeaders hd !! ":status"%string with
      | Some status => _ | None => st end).
    assert (Hf : foreign st') by (unfold st'; by destruct (parseHeaders hd !! ":status"%string)).
    clearbody st'. apply foreign_parts in Hf as (H1 & H2 & H3 & H4).
    destruct (negb (IsInResponse st')).
    + eapply keeps_bind; [apply keeps_extend|]. intros o Ho.
      eapply keeps_bind; [apply keeps_set_stream; by apply foreign_parts|]. intros _ _.
      by apply keeps_ret.
    + eapply keeps_bind; [apply keeps_extend|]. intros o Ho.
      eapply keeps_bind; [apply keeps_set_stream; by apply foreign_parts|]. intros _ _.
      destruct (frame_EndStream header); [|by apply keeps_ret].
      eapply keeps_bind; [apply keeps_HandleWholeStream; by apply foreign_parts|]. intros _ _.
      eapply keeps_bind; [apply keeps_delete_stream|]. intros _ _. by apply keeps_ret.
  - eapply keeps_bind; [apply keeps_Position|]. intros p _.
    eapply keeps_bind; [apply keeps_on_heap, keeps_Slice|]. intros loc Hloc.
    eapply keeps_bind; [apply keeps_set_stream, foreign_parts; simpl; split_and!; congruence|].
    intros _ _. by apply keeps_ret.
Qed.

(** ** Where a round starts and ends *)

Definition good_list (b : Buffer) : Prop :=
  unique (dataEvents b) ∧ Forall (λ x, wf_chunk (evalue x)) (dataEvents b).

(** Where the next round starts to read. *)
Definition starts (b : Buffer) (e : chunk) (i : Z) : Prop :=
  shouldResetPosition b = false ∧ head b = Some (MkPosition (Some e) i) ∨
  list.head (dataEvents b) = Some e ∧ i = 0 ∧
    (shouldResetPosition b = true ∨ (element <$> head b) ∈ [None; Some None]).

(** The rounds that are left. *)
Definition rounds (b : Buffer) (n : nat) : Prop :=
  dataEvents b = [] ∨
  ∃ pre e i post, dataEvents b = pre ++ e :: post ∧ starts b e i ∧ 0 ≤ i ∧
    (weight (dataEvents b) * (weight (dataEvents b) + 1) + remaining e i post < n)%nat.

Lemma weight_app l l' : weight (l ++ l') = (weight l + weight l')%nat.
Proof. induction l as [|x l IH]; simpl; [done|]. rewrite IH. lia. Qed.

Lemma remaining_weight e i post : 0 ≤ i → (remaining e i post ≤ weight (e :: post))%nat.
Proof. unfold remaining. simpl. lia. Qed.

(** A shorter list leaves fewer rounds, wherever they start. *)
Lemma rounds_shorter b w n :
  (weight (dataEvents b) < w)%nat → (w * (w + 1) ≤ n)%nat →
  (head b = None ∨ ∃ o i, head b = Some (MkPosition o i) ∧ 0 ≤ i ∧
     (∀ e, o = Some e → ∃ pre post, dataEvents b = pre ++ e :: post)) →
  shouldResetPosition b = false → rounds b n.
Proof.
  intros Hw Hn Hh Hr. destruct (dataEvents b) as [|e0 l] eqn:Hl; [by left|]. right. rewrite <- Hl in *.
  assert (Hstart : ∃ pre e i post, dataEvents b = pre ++ e :: post ∧ starts b e i ∧ 0 ≤ i).
  { destruct Hh as [Hh|(o & i & Hh & Hi & Ho)].
    - exists [], e0, 0, l. split; [done|]. split; [|lia]. right. rewrite Hl, Hh. split_and!; [done..|].
      right. left.
    - destruct o as [e|].
      + destruct (Ho e eq_refl) as (pre & post & He). exists pre, e, i, post. split; [done|].
        split; [by left|done].
      + exists [], e0, 0, l. split; [done|]. split; [|lia]. right. rewrite Hl, Hh.
        split_and!; [done..|]. right. right. left. }
  destruct Hstart as (pre & e & i & post & He & Hst & Hi). exists pre, e, i, post.
  split_and!; [done..|]. pose proof (remaining_weight e i post Hi) as Hrem.
  rewrite He, weight_app in *. set (a := weight pre) in *. set (c := weight (e :: post)) in *. nia.
Qed.

Lemma Prepare_starts b pre e i post :
  dataEvents b = pre ++ e :: post → starts b e i → good_list b → 0 ≤ i →
  ∃ b', PrepareForReading b = (Ok true, b') ∧ at_chunk b' e i post ∧
    dataEvents b' = dataEvents b ∧ shouldResetPosition b' = false ∧
    head b' = Some (MkPosition (Some e) i) ∧ originalBuffer b' = originalBuffer b.
Proof.
  intros Hl Hst [Hu Hwf] Hi. unfold PrepareForReading. step_act.
  rewrite decide_False by (rewrite Hl; by destruct pre). step_act.
  set (b1 := if shouldResetPosition b then _ else b).
  assert (Hb1 : dataEvents b1 = dataEvents b ∧ shouldResetPosition b1 = false ∧
    originalBuffer b1 = originalBuffer b ∧
    match head b1 with
    | Some (MkPosition (Some e) i) => MkPosition (Some e) i
    | _ => MkPosition (list.head (dataEvents b1)) 0
    end = MkPosition (Some e) i).
  { unfold b1. destruct Hst as [[Hr Hh]|(Hh & -> & Hr)].
    - rewrite Hr. by rewrite Hh.
    - destruct (shouldResetPosition b) eqn:Hrb; [by rewrite <- Hh|]. split_and!; [done..|].
      destruct Hr as [Hr|Hr]; [done|]. rewrite Hh.
      destruct (head b) as [[[x|] j]|]; [exfalso|done|done]. simpl in Hr. set_solver. }
  destruct Hb1 as (Hd & Hr & Ho & Hm). clearbody b1. rewrite Hm.
  eexists. split; [done|]. simpl. split_and!; [|by rewrite Hd|done|done|done].
  split; simpl; [by exists pre; rewrite Hd|by rewrite Hd|by rewrite Hd|done|done].
Qed.

Lemma Skip_rounds b e j e' i' post' r :
  at_chunk b e' i' post' → head b = Some (MkPosition e j) → 0 ≤ j →
  shouldResetPosition b = false → (remaining e' i' post' ≤ r)%nat →
  ∃ fin b', SkipCurrentElement b = (Ok fin, b') ∧ dataEvents b' = dataEvents b ∧
    originalBuffer b' = originalBuffer b ∧ (fin = false →
      rounds b' (weight (dataEvents b) * (weight (dataEvents b) + 1) + r)).
Proof.
  intros Ha Hh Hj Hr Hrem. pose proof (at_next _ _ _ _ Ha) as Hn.
  unfold SkipCurrentElement. step_act. rewrite (at_current _ _ _ _ Ha), Hh. step_act.
  cbn [element bufIndex mbind option_bind]. rewrite Hn. do 2 eexists. split; [done|]. simpl.
  split_and!; [done..|]. destruct post' as [|x post'']; [done|]. intros _. right.
  destruct (at_list _ _ _ _ Ha) as [pre Hl]. exists (pre ++ [e']), x, j, post''. simpl.
  split; [by rewrite Hl, <- app_assoc|]. split; [by left|]. split; [done|].
  pose proof (remaining_weight x j post'' Hj). unfold remaining in Hrem. simpl in *. lia.
Qed.

Lemma Remove_fields b fin b' :
  RemoveReadElements false b = (Ok fin, b') →
  shouldResetPosition b' = shouldResetPosition b ∧ originalBuffer b' = originalBuffer b.
Proof.
  unfold RemoveReadElements. step_act. destruct (head b) as [h|]; [|done]. step_act.
  destruct (current b) as [c|]; [|done]. step_act.
  destruct (remove_until _ _ _ _ _) as [[l next] mv]. destruct next as [e|].
  - case_decide; step_act; intros [= <- <-]; done.
  - destruct mv; step_act; intros [= <- <-]; done.
Qed.

Lemma good_sublist b b' :
  good_list b → dataEvents b' `sublist_of` dataEvents b → good_list b'.
Proof.
  intros [Hu Hwf] Hs. split.
  - unfold unique in *. eapply sublist_NoDup; [exact Hu|]. by apply fmap_sublist.
  - rewrite Forall_forall in *. intros x Hx. by eapply Hwf, elem_of_sublist.
Qed.

Lemma Remove_rounds b pre mid e' i i' post' r :
  dataEvents b = pre ++ mid ++ e' :: post' → good_list b →
  head b = Some (MkPosition (list.head (mid ++ [e'])) i) →
  current b = Some (MkPosition (Some e') i') → 0 ≤ i' → shouldResetPosition b = false →
  (remaining e' i' post' < r)%nat →
  ∃ b', RemoveReadElements false b = (Ok false, b') ∧ dataEvents b' `sublist_of` dataEvents b ∧
    originalBuffer b' = originalBuffer b ∧
    rounds b' (weight (dataEvents b) * (weight (dataEvents b) + 1) + r).
Proof.
  intros Hl Hg Hh Hc Hi' Hr Hrem.
  destruct (RemoveReadElements_run b false pre mid e' post' i' i Hl) as (b' & Hrun & Hres);
    [apply Hg|done..|].
  destruct (Remove_fields _ _ _ Hrun) as [Hr' Ho']. exists b'. split; [done|].
  assert (Hw : weight (dataEvents b) = (weight pre + weight mid + weight (e' :: post'))%nat)
    by (rewrite Hl, !weight_app; lia).
  case_decide as Hfull; destruct Hres as [Hd Hh'].
  - split_and!; [rewrite Hd, Hl; apply sublist_app; [done|];
      apply sublist_inserts_l; by constructor|done|].
    eapply (rounds_shorter _ (weight (dataEvents b))); [|lia| |congruence].
    + rewrite Hd, weight_app, Hw. simpl. lia.
    + right. exists (list.head post'), 0. split_and!; [done|lia|]. intros x Hx.
      destruct post' as [|y post'']; [done|]. simpl in Hx. simplify_eq. by exists pre, post''.
  - split_and!; [rewrite Hd, Hl; apply sublist_app; [done|]; by apply sublist_inserts_l|done|].
    destruct mid as [|m mid].
    + right. exists pre, e', i', post'. split_and!; [done|left; split; congruence|done|].
      rewrite Hd, <- (app_nil_l (e' :: post')), <- Hl. lia.
    + eapply (rounds_shorter _ (weight (dataEvents b))); [|lia| |congruence].
      * rewrite Hd, weight_app, Hw. simpl. lia.
      * right. exists (Some e'), i'. split_and!; [done..|]. intros x [= <-]. by exists pre, post'.
Qed.

Lemma rounds_mono b n n' : rounds b n → (n ≤ n')%nat → rounds b n'.
Proof.
  intros [?|(pre & e & i & post & ? & ? & ? & ?)] Hn; [by left|]. right.
  exists pre, e, i, post. split_and!; [done..|lia].
Qed.

(** ** Reading from the connection buffer

    For an invariant [inv] that holds the connection buffer and is kept when reading moves
    its positions and removes chunks. *)

Definition set_connection (b : Buffer) (s : h2_state D) : h2_state D :=
  set_h2_heap (MkHeap (<[buf := b]> (buffers (h2_heap s))) (fresh (h2_heap s))) s.

Section rounds.
Context (panics : Prop) (inv : h2_state D → Buffer → Prop).
Context (inv_lookup : ∀ s b, inv s b → buffers (h2_heap s) !! buf = Some b).
Context (inv_update : ∀ s b b', inv s b → originalBuffer b' = originalBuffer b →
  dataEvents b' `sublist_of` dataEvents b → inv (set_connection b' s) b').
Notation safe := (safe panics).

Lemma try_connection {A} (m : method A) (Q : read_error + A → Buffer → Prop) s b :
  inv s b → safe_read m (λ r b', moved b b' ∧ Q r b') b →
  safe (try_buffer buf m) (λ r s', ∃ b', inv s' b' ∧ Q r b' ∧ Streams s' = Streams s) s.
Proof.
  intros Hs Hm. unfold Http2Loop.safe, try_buffer, safe_read in *. rewrite (inv_lookup _ _ Hs).
  assert (Hinv : ∀ b', moved b b' → inv (set_connection b' s) b').
  { intros b' [p ->]. by apply inv_update with b. }
  destruct (m b) as [[a|e|] b']; [| |done].
  - destruct Hm as [Hmv HQ]. exists b'. split; [by apply Hinv|done].
  - destruct Hm as (_ & Hmv & HQ). exists b'. split; [by apply Hinv|done].
Qed.

(** The state after a frame: reading went forward, nothing else moved. *)
Definition advanced (b : Buffer) (e : chunk) (i : Z) (post : list chunk) s' : Prop :=
  ∃ b' b'', inv s' b'' ∧ forward b b' e i post false ∧ same_data b' b''.

Lemma read_payload data s b e i post :
  inv s b → at_chunk b e i post →
  safe (try_buffer buf (ReadUntilBufferFull data))
    (λ _ s', ∃ b', inv s' b' ∧ forward b b' e i post false ∧ Streams s' = Streams s) s.
Proof.
  intros Hs Ha. eapply safe_mono.
  { apply (try_connection _ (λ _ b', forward b b' e i post false) s b); [done|].
    eapply safe_read_mono; [by apply ReadUntil_forward|]. intros r b' Hf. split; [|done].
    by destruct Hf as (? & ? & ? & ? & _). }
  by intros r s' (b' & ? & ? & ?); exists b'.
Qed.

(** ** Rounds of the loop *)

Lemma on_connection {A} (m : method A) s b a b' :
  inv s b → m b = (Ok a, b') → originalBuffer b' = originalBuffer b →
  dataEvents b' `sublist_of` dataEvents b →
  ∃ s', on_buffer buf m s = (Ok a, s') ∧ inv s' b'.
Proof.
  intros Hs Hm Ho Hd. unfold on_buffer, try_buffer, mbind, act_bind.
  rewrite (inv_lookup _ _ Hs), Hm. eexists. split; [done|]. by apply (inv_update s b).
Qed.

(** The frames keep the invariant and read forward. *)
Context (now : Z).
Context (frame_advances : ∀ header startPos s b e i post,
  inv s b → at_chunk b e i post →
  (∃ e0 i0, startPos = MkPosition (Some e0) i0 ∧ e0 ∈ dataEvents b) →
  safe (handleFrame DecodeFull bootTime now header startPos buf)
    (λ _ s', advanced b e i post s') s).

(** What a round leaves, when it is not the last one. *)
Definition round_end (n : nat) (r : option bool) s' : Prop :=
  ∃ b', inv s' b' ∧ good_list b' ∧ (r = None → rounds b' n).

Lemma skip_round s b e j e' i' post' r n :
  inv s b → good_list b → at_chunk b e' i' post' → head b = Some (MkPosition e j) → 0 ≤ j →
  shouldResetPosition b = false → (remaining e' i' post' ≤ r)%nat →
  (weight (dataEvents b) * (weight (dataEvents b) + 1) + r ≤ n)%nat →
  safe (finished ← on_buffer buf SkipCurrentElement;
        mret (if finished : bool then Some false else None)) (round_end n) s.
Proof.
  intros Hs Hg Ha Hh Hj Hr Hrem Hn.
  destruct (Skip_rounds b e j e' i' post' r Ha Hh Hj Hr Hrem) as (fin & b' & Hrun & Hd & Ho & Hro).
  destruct (on_connection _ s b fin b' Hs Hrun Ho ltac:(by rewrite Hd)) as (s' & Hon & Hs').
  unfold Http2Loop.safe. rewrite (bind_ok _ _ _ _ _ Hon). exists b'. split; [done|].
  split; [by unfold good_list; rewrite Hd|]. destruct fin; [done|]. intros _.
  by eapply rounds_mono; [apply Hro|].
Qed.

Lemma remove_round s b pre mid e' i i' post' r n :
  inv s b → dataEvents b = pre ++ mid ++ e' :: post' → good_list b →
  head b = Some (MkPosition (list.head (mid ++ [e'])) i) →
  current b = Some (MkPosition (Some e') i') → 0 ≤ i' → shouldResetPosition b = false →
  (remaining e' i' post' < r)%nat →
  (weight (dataEvents b) * (weight (dataEvents b) + 1) + r ≤ n)%nat →
  safe (finished ← on_buffer buf (RemoveReadElements false);
        mret (if finished : bool then Some false else None)) (round_end n) s.
Proof.
  intros Hs Hl Hg Hh Hc Hi Hr Hrem Hn.
  destruct (Remove_rounds b pre mid e' i i' post' r Hl Hg Hh Hc Hi Hr Hrem)
    as (b' & Hrun & Hsub & Ho & Hro).
  destruct (on_connection _ s b false b' Hs Hrun Ho Hsub) as (s' & Hon & Hs').
  unfold Http2Loop.safe. rewrite (bind_ok _ _ _ _ _ Hon). exists b'. split; [done|].
  split; [by eapply good_sublist|]. intros _. by eapply rounds_mono.
Qed.

(** A buffer [b'] that was read from [b], where reading started at the chunk [e]. *)
Record read_from (b b' : Buffer) (pre : list chunk) (e : chunk) (i : Z) (post : list chunk)
    (strict : bool) : Prop := {
  rf_good : good_list b';
  rf_data : dataEvents b' = dataEvents b;
  rf_head : head b' = Some (MkPosition (Some e) i);
  rf_reset : shouldResetPosition b' = false;
  rf_at : ∃ mid e' i' post', dataEvents b' = pre ++ mid ++ e' :: post' ∧
    list.head (mid ++ [e']) = Some e ∧ at_chunk b' e' i' post' ∧
    (remaining e' i' post' + (if strict then 1 else 0) ≤ remaining e i post)%nat
}.

Lemma forward_read_from b b' b'' pre e i post strict :
  forward b b' e i post strict → same_data b' b'' → good_list b →
  dataEvents b = pre ++ e :: post → head b = Some (MkPosition (Some e) i) →
  shouldResetPosition b = false → read_from b b'' pre e i post strict.
Proof.
  intros (e' & i' & post' & [p ->] & [Hl Hu Hwf Hc Hi] & _ & [mid Hmid] & Hrem) [ds ->] Hg Hd Hh Hr.
  split; [done|done|done|done|]. exists mid, e', i', post'. simpl.
  split_and!; [by rewrite Hd, Hmid| |by split|done]. destruct mid; by simplify_eq/=.
Qed.

Lemma frame_end s b b' pre e i post n result :
  inv s b' → read_from b b' pre e i post true → 0 ≤ i →
  (weight (dataEvents b) * (weight (dataEvents b) + 1) + remaining e i post < S n)%nat →
  safe (finishReading ← match result with
                        | ParseResultSuccess => on_buffer buf (RemoveReadElements false)
                        | ParseResultSkipPackage => on_buffer buf SkipCurrentElement
                        end;
        mret (if finishReading : bool then Some false else None)) (round_end n) s.
Proof.
  intros Hs [Hg Hd Hh Hr (mid & e' & i' & post' & Hl & Hm & Ha & Hrem)] Hi Hlt. destruct result.
  - apply (remove_round s b' pre mid e' i i' post' (remaining e i post));
      [done|done|done|by rewrite Hm|apply Ha|apply Ha|done|lia|rewrite Hd; lia].
  - apply (skip_round s b' (Some e) i e' i' post' (remaining e i post)); try done; [lia|rewrite Hd; lia].
Qed.

Lemma analyze_round_safe s b n :
  inv s b → good_list b → rounds b (S n) →
  safe (analyze_round DecodeFull frame_header bootTime now buf) (round_end n) s.
Proof.
  intros Hs Hg [Hnil|(pre & e & i & post & Hl & Hst & Hi & Hlt)].
  { destruct (on_connection PrepareForReading s b false b Hs) as (s' & Hon & Hs');
      [unfold PrepareForReading; step_act; by rewrite decide_True|done..|].
    unfold analyze_round, Http2Loop.safe. rewrite (bind_ok _ _ _ _ _ Hon). by exists b. }
  destruct (Prepare_starts b pre e i post Hl Hst Hg Hi) as (b1 & Hprep & Ha1 & Hd1 & Hr1 & Hh1 & Ho1).
  destruct (on_connection _ s b true b1 Hs Hprep Ho1 ltac:(by rewrite Hd1)) as (s1 & Hon & Hs1).
  destruct (on_connection Position_ s1 b1 (MkPosition (Some e) i) b1 Hs1) as (s2 & Hpos & Hs2);
    [unfold Position_; step_act; by rewrite (at_current _ _ _ _ Ha1)|done..|].
  assert (Hg1 : good_list b1) by (unfold good_list; by rewrite Hd1).
  rewrite <- Hd1 in Hl, Hlt. unfold analyze_round.
  unfold Http2Loop.safe. rewrite (bind_ok _ _ _ _ _ Hon). cbn [negb]. rewrite (bind_ok _ _ _ _ _ Hpos).
  apply safe_bind. eapply safe_mono.
  { apply (try_connection (ReadFull 9) (λ r b2, forward b1 b2 e i post
      (match r with inl _ => false | inr _ => true end)) s2 b1 Hs2).
    eapply safe_read_mono; [apply (ReadFull_forward 9 b1 e i post Ha1); lia|].
    intros r b2 Hf. split; [|done]. by destruct Hf as (? & ? & ? & ? & _). }
  intros [er|bytes] s3 (b2 & Hs3 & Hf & _).
  - destruct (forward_read_from b1 b2 b2 pre e i post false Hf) as
      [Hg2 Hd2 Hh2 Hr2 (mid & e' & i' & post' & _ & _ & Ha2 & Hrem)]; [done..|].
    apply (skip_round s3 b2 (Some e) i e' i' post' (remaining e i post)); try done;
      [lia|rewrite Hd2; lia].
  - pose proof Hf as (e' & i' & post' & Hmv & Ha2 & _).
    apply safe_bind. eapply safe_mono; [apply (frame_advances _ _ _ b2 e' i' post' Hs3 Ha2)|].
    { exists e, i. split; [done|]. destruct Hmv as [q ->]. simpl. rewrite Hl. set_solver. }
    intros [result br] s4 (b3 & b4 & Hs4 & Hf3 & Hsame).
    pose proof (forward_trans _ _ _ _ _ _ _ _ _ _ _ Hf Ha2 Hf3) as Hf13.
    pose proof (forward_read_from b1 b3 b4 pre e i post true Hf13 Hsame Hg1 Hl Hh1 Hr1) as Hrf.
    destruct br; [exists b4; split; [done|]; split; [apply Hrf|done]|]. by eapply frame_end.
Qed.

Lemma analyze_round_empty s b :
  inv s b → dataEvents b = [] →
  ∃ s', analyze_round DecodeFull frame_header bootTime now buf s = (Ok (Some false), s') ∧ inv s' b.
Proof.
  intros Hs Hnil. destruct (on_connection PrepareForReading s b false b Hs) as (s' & Hon & Hs');
    [unfold PrepareForReading; step_act; by rewrite decide_True|done..|].
  unfold analyze_round. rewrite (bind_ok _ _ _ _ _ Hon). by exists s'.
Qed.

Lemma analyze_loop_safe n s b :
  inv s b → good_list b → rounds b n →
  safe (analyze_loop DecodeFull frame_header bootTime (S n) now buf)
    (λ _ s', ∃ b', inv s' b' ∧ good_list b') s.
Proof.
  revert s b. induction n as [|n IH]; intros s b Hs Hg Hr.
  - destruct Hr as [Hnil|(? & ? & ? & ? & _ & _ & _ & ?)]; [|lia].
    destruct (analyze_round_empty s b Hs Hnil) as (s' & Hrun & Hs').
    cbn [analyze_loop]. unfold Http2Loop.safe. rewrite (bind_ok _ _ _ _ _ Hrun). by exists b.
  - change (analyze_loop DecodeFull frame_header bootTime (S (S n)) now buf) with
      (round ← analyze_round DecodeFull frame_header bootTime now buf;
       match round with
       | Some b => mret b
       | None => analyze_loop DecodeFull frame_header bootTime (S n) now buf
       end).
    apply safe_bind. eapply safe_mono; [by eapply analyze_round_safe|].
    intros [br|] s' (b' & Hs' & Hg' & Hr'); [by exists b'|]. apply (IH s' b'); auto.
Qed.

Lemma Analyze_safe s b :
  inv s b → good_list b →
  safe (Analyze DecodeFull frame_header bootTime now buf)
    (λ _ s', ∃ b', inv s' b' ∧ good_list b') s.
Proof.
  intros Hs Hg. unfold Analyze.
  destruct (on_connection (modify ResetForLoopReading) s b tt (ResetForLoopReading b) Hs)
    as (s1 & Hon & Hs1); [done..|].
  unfold Http2Loop.safe. rewrite (bind_ok _ _ _ _ _ Hon).
  assert (Hd : on_heap (deref buf) s1 = (Ok (ResetForLoopReading b), s1)).
  { unfold on_heap, deref. step_act. rewrite (inv_lookup _ _ Hs1). step_act. by destruct s1. }
  rewrite (bind_ok _ _ _ _ _ Hd). unfold analyze_fuel. apply analyze_loop_safe with (ResetForLoopReading b);
    [done|done|].
  destruct (dataEvents b) as [|e l] eqn:Hl; [by left|]. right. exists [], e, 0, l.
  cbn [ResetForLoopReading set_head set_current dataEvents app]. rewrite Hl. split_and!; [done| |lia|].
  - right. simpl. rewrite Hl. split_and!; [done..|]. right. left.
  - pose proof (remaining_weight e 0 l). lia.
Qed.
End rounds.

(** ** Frames on every connection

    With no more than [h2_inv] a frame reads forward, or panics. *)

Lemma h2_inv_update s b b' :
  h2_inv s b → originalBuffer b' = originalBuffer b → h2_inv (set_connection b' s) b'.
Proof.
  intros [[Hb Hf Hch] Hst] Ho. split; [|done]. split; simpl; [apply lookup_insert_eq|done|].
  intros l x o [[<- <-]|[_ Hx]]%lookup_insert_Some; [rewrite Ho; by apply Hch|by apply Hch].
Qed.

Lemma h2_inv_lookup s b : h2_inv s b → buffers (h2_heap s) !! buf = Some b.
Proof. intros Hs. apply Hs. Qed.

Lemma weak_payload data s b e i post :
  h2_inv s b → at_chunk b e i post →
  safe True (try_buffer buf (ReadUntilBufferFull data))
    (λ _ s', ∃ b', h2_inv s' b' ∧ forward b b' e i post false ∧ Streams s' = Streams s) s.
Proof. apply read_payload; [apply h2_inv_lookup|]. intros. by eapply h2_inv_update. Qed.

Lemma after_read {A} (m : act (h2_state D) read_error A) b b' e i post s :
  keeps h2_inv m (λ _, True) → h2_inv s b' → forward b b' e i post false →
  safe True m (λ _ s', advanced h2_inv b e i post s') s.
Proof.
  intros Hm Hs Hf. eapply safe_mono; [by apply Hm|]. intros a s' (_ & b'' & Hb'' & Hd).
  by exists b', b''.
Qed.

Lemma handleFrame_advances now header startPos s b e i post :
  h2_inv s b → at_chunk b e i post →
  safe True (handleFrame DecodeFull bootTime now header startPos buf)
    (λ _ s', advanced h2_inv b e i post s') s.
Proof.
  intros Hs Ha. unfold handleFrame.
  assert (Hret : ∀ (r : ParseResult * bool) b' s', h2_inv s' b' → forward b b' e i post false →
    safe True (mret r : act (h2_state D) read_error _) (λ _ s', advanced h2_inv b e i post s') s').
  { intros r b' s' Hs' Hf. apply (after_read _ b b'); [by apply keeps_ret|done..]. }
  destruct (frame_Type header).
  - unfold HandleHeader. apply safe_bind. eapply safe_mono; [by apply weak_payload|].
    intros [er|bytes] s' (b' & Hs' & Hf & _); [by eapply Hret|].
    eapply after_read; [apply keeps_header_block|done..].
  - unfold HandleData. apply safe_bind, safe_get.
    destruct (Streams s !! frame_StreamID header) as [st|] eqn:Hst.
    2:{ eapply Hret; [done|]. by apply forward_refl. }
    apply (h2i_streams _ _ Hs) in Hst. apply foreign_parts in Hst as (H1 & H2 & H3 & H4).
    apply safe_bind. eapply safe_mono; [by apply weak_payload|].
    intros [er|bytes] s' (b' & Hs' & Hf & _); [by eapply Hret|].
    eapply after_read; [|done..]. eapply (keeps_bind _ _ _ foreign).
    { destruct (negb (IsInResponse st)); (eapply keeps_bind; [apply keeps_extend|]); intros o Ho;
        apply keeps_ret; by apply foreign_parts. }
    intros st' Hst'. eapply keeps_bind; [by apply keeps_set_stream|]. intros _ _.
    eapply keeps_bind; [by apply keeps_validate|]. intros _ _. by apply keeps_ret.
  - unfold handleOther. apply safe_bind. eapply safe_mono; [by apply weak_payload|].
    intros r s' (b' & Hs' & Hf & _). by eapply Hret.
Qed.

Lemma Analyze_weak now s b :
  h2_inv s b → good_list b →
  safe True (Analyze DecodeFull frame_header bootTime now buf)
    (λ _ s', ∃ b', h2_inv s' b' ∧ good_list b') s.
Proof.
  apply Analyze_safe; [apply h2_inv_lookup|intros; by eapply h2_inv_update|].
  intros. by apply handleFrame_advances.
Qed.
End untouched.
