(* ===== verification/Partition.v ===== *)
(** * The partitions of the protocol analysis

    Models the connections of a partition (src/pkg/accesslog/collector/protocols/
    connection.go and the [PartitionContext] of queue.go): the buffers of a connection by
    protocol, the dispatch of details and data to them, the periodic analysis, the break of
    a protocol, the detection of closed connections and the expiration of data.

    A protocol is a record of operations over metrics of its own, the interface
    [Protocol] of the source; it works on the buffers and the queue of logs.  A connection
    is reached through the map only, so it is a value of the map.  Every method is one
    step, and so is the consumption of the queue that a log starts.  The data pulled from
    the perf buffers and the parallel partitions are not modelled. *)

From stdpp Require Import base gmap list strings pretty sorting.
From Stdlib Require Import ZArith Lia.
From S2P Require Import Prelude GoStrings Interfaces ProcessMonitor Events Buffer BufferOrder Http2 Connection ConnectionLife Sender Delivery.

Notation ConnectionProtocolUnknown := 0 (only parsing).
Notation maxBufferExpireDuration := (60 * second) (only parsing).
Notation closeCheckInterval := (30 * second) (only parsing).

(** [GenerateConnection], and [Analyze] on the buffer of the protocol: the error it returns,
    whether it sets [ProtocolBreak], and the metrics it leaves. *)
Record ProtocolOps (MT : Type) : Type := MkProtocolOps {
  GenerateConnection : Z → Z → MT;
  proto_Analyze : Z → positive → MT → act (Buffer.heap * Queue) Empty_set (option read_error * bool * MT)
}.
Arguments MkProtocolOps {MT} GenerateConnection proto_Analyze.
Arguments GenerateConnection {MT} p.
Arguments proto_Analyze {MT} p.

Record PartitionConnection (MT : Type) : Type := MkPartitionConnection {
  part_connectionID : Z;
  part_randomID : Z;
  dataBuffers : gmap Z positive;
  (** The protocols with their minimal data ids. *)
  protocol : gmap Z Z;
  protocolMetrics : gmap Z MT;
  part_closed : bool;
  skipAllDataAnalyze : bool;
  lastCheckCloseTime : Z
}.
Arguments MkPartitionConnection {MT} part_connectionID part_randomID dataBuffers protocol
  protocolMetrics part_closed skipAllDataAnalyze lastCheckCloseTime.
Arguments part_connectionID {MT} p.
Arguments part_randomID {MT} p.
Arguments dataBuffers {MT} p.
Arguments protocol {MT} p.
Arguments protocolMetrics {MT} p.
Arguments part_closed {MT} p.
Arguments skipAllDataAnalyze {MT} p.
Arguments lastCheckCloseTime {MT} p.

(** The analyzers by [ForProtocol]: a later one replaces an earlier one. *)
Definition NewProtocolManager {MT : Type} (protocols : list (Z * ProtocolOps MT))
  : gmap Z (ProtocolOps MT) :=
  foldl (λ m p, <[p.1 := p.2]> m) ∅ protocols.

(** The HTTP/2 protocol: its metrics are the streams and the state of the HPACK decoder. *)
Definition http2_ops {D : Type} (DecodeFull : list Z → D → option (list (string * string)) * D)
    (frame_header : list Z → FrameHeader) (bootTime : Z) (newDecoder : D)
  : ProtocolOps (gmap Z HTTP2Streaming * D) :=
  MkProtocolOps (λ _ _, (∅, newDecoder)) (λ now buf metrics st,
    let '(r, s) := Analyze DecodeFull frame_header bootTime now buf
                     (MkH2 st.1 metrics.1 metrics.2 st.2) in
    (match r with
     | Ok b => Ok (None, b, (Streams s, HpackDecoder s))
     | Err e => Ok (Some e, false, (Streams s, HpackDecoder s))
     | Panic => Panic
     end, (h2_heap s, h2_queue s))).

(** What the partition receives. *)
Inductive PartitionEvent : Type :=
| DetailReceived (e : SocketDetailEvent)
| DataReceived (e : SocketDataUploadEvent).

Section partition.
Context `{RangeOrder} {MT M C CM AM PB L : Type}.
Context `{!EbpfMap Z Z M} `{!ExpiringCache Z ProcessVerdict C} `{!ConcurrentMap positive CM}.
Context `{!EbpfMap Z ActiveConnection AM} `{!ExpiringCache string bool PB}.
Context (protocolMgr : gmap Z (ProtocolOps MT)) (bootTime : Z).
Notation Mgr := (Manager M C CM AM PB L).
Notation conn := (PartitionConnection MT).

Record PartitionContext : Type := MkPartitionContext {
  pc_connections : gmap string conn;
  pc_heap : Buffer.heap;
  pc_queue : Queue;
  pc_mgr : Mgr
}.
Notation pc_op A := (act PartitionContext read_error A).

Definition set_conn (key : string) (c : conn) (s : PartitionContext) : PartitionContext :=
  MkPartitionContext (<[key := c]> (pc_connections s)) (pc_heap s) (pc_queue s) (pc_mgr s).
Definition set_pc_heap (h : Buffer.heap) (s : PartitionContext) : PartitionContext :=
  MkPartitionContext (pc_connections s) h (pc_queue s) (pc_mgr s).
Definition set_pc_queue (q : Queue) (s : PartitionContext) : PartitionContext :=
  MkPartitionContext (pc_connections s) (pc_heap s) q (pc_mgr s).
Definition set_pc_mgr (m : Mgr) (s : PartitionContext) : PartitionContext :=
  MkPartitionContext (pc_connections s) (pc_heap s) (pc_queue s) m.

Definition update_protocols (bufs : gmap Z positive) (ps : gmap Z Z) (ms : gmap Z MT) (c : conn)
  : conn :=
  MkPartitionConnection (part_connectionID c) (part_randomID c) bufs ps ms (part_closed c)
    (skipAllDataAnalyze c) (lastCheckCloseTime c).
Definition set_skipAll (c : conn) : conn :=
  MkPartitionConnection (part_connectionID c) (part_randomID c) (dataBuffers c) (protocol c)
    (protocolMetrics c) (part_closed c) true (lastCheckCloseTime c).
Definition set_checked (now : Z) (closed : bool) (c : conn) : conn :=
  MkPartitionConnection (part_connectionID c) (part_randomID c) (dataBuffers c) (protocol c)
    (protocolMetrics c) closed (skipAllDataAnalyze c) now.

(** ** Connections *)

Definition buildConnectionKey (conID ranID : Z) : string := pretty conID +:+ "_" +:+ pretty ranID.

(** [buffer.NewBuffer()] in the heap. *)
Definition new_buffer : pc_op positive :=
  s ← get;
  let h := pc_heap s in
  put (set_pc_heap (MkHeap (<[fresh h := NewBuffer]> (buffers h)) (Pos.succ (fresh h))) s);;
  mret (fresh h).

(** A protocol without an analyzer is a nil interface, and its call a panic. *)
Definition appendProtocolIfNeed (conID randomID p currentDataID : Z) (c : conn) : pc_op conn :=
  match protocol c !! p with
  | None =>
    loc ← new_buffer;
    analyzer ← lift (must (protocolMgr !! p));
    mret (update_protocols (<[p := loc]> (dataBuffers c)) (<[p := currentDataID]> (protocol c))
            (<[p := GenerateConnection analyzer conID randomID]> (protocolMetrics c)) c)
  | Some minDataID =>
    if currentDataID <? minDataID
    then mret (update_protocols (dataBuffers c) (<[p := currentDataID]> (protocol c))
                 (protocolMetrics c) c)
    else mret c
  end.

Definition newPartitionConnection (now conID randomID p currentDataID : Z) : pc_op conn :=
  appendProtocolIfNeed conID randomID p currentDataID
    (MkPartitionConnection conID randomID ∅ ∅ ∅ false false now).

Definition GetConnectionContext (now connectionID randomID p currentDataID : Z) : pc_op (string * conn) :=
  let conKey := buildConnectionKey connectionID randomID in
  s ← get;
  c ← match pc_connections s !! conKey with
      | Some c => appendProtocolIfNeed connectionID randomID p currentDataID c
      | None => newPartitionConnection now connectionID randomID p currentDataID
      end;
  modify (set_conn conKey c);;
  mret (conKey, c).

(** ** Receiving *)

(** A method of the buffer at [loc]. *)
Definition on_pc_buffer {A} (loc : positive) (m : method A) : pc_op A := λ s,
  match buffers (pc_heap s) !! loc with
  | None => (Panic, s)
  | Some b =>
    let '(r, b') := m b in
    (r, set_pc_heap (MkHeap (<[loc := b']> (buffers (pc_heap s))) (fresh (pc_heap s))) s)
  end.

Definition send_detail (e : SocketDetailEvent) : pc_op unit :=
  modify (λ s, set_pc_queue (snd (SendTransferNoProtocolEvent e (pc_queue s))) s).

Definition AppendDetail (c : conn) (detail : SocketDetailEvent) : pc_op unit :=
  if skipAllDataAnalyze c then send_detail detail
  else
    loc ← lift (must (dataBuffers c !! detail_Protocol detail));
    on_pc_buffer loc (modify (AppendDetailEvent detail)).

(** The new list element takes a fresh identity. *)
Definition AppendData (c : conn) (data : SocketDataUploadEvent) : pc_op unit :=
  if skipAllDataAnalyze c then mret tt
  else
    loc ← lift (must (dataBuffers c !! Protocol0 data));
    s ← get;
    put (set_pc_heap (MkHeap (buffers (pc_heap s)) (Pos.succ (fresh (pc_heap s)))) s);;
    on_pc_buffer loc (AppendDataEvent (fresh (pc_heap s)) (Upload data)).

Definition PartitionContext_Consume (now : Z) (data : PartitionEvent) : pc_op unit :=
  match data with
  | DetailReceived e =>
    if detail_Protocol e =? ConnectionProtocolUnknown then send_detail e
    else
      '(_, c) ← GetConnectionContext now (detail_ConnectionID e) (detail_RandomID e)
                  (detail_Protocol e) (detail_DataID0 e);
      AppendDetail c e
  | DataReceived e =>
    '(_, c) ← GetConnectionContext now (data_ConnectionID e) (data_RandomID e) (Protocol0 e)
                (DataID0 e);
    AppendData c e
  end.

(** ** The analysis *)

Definition getConn (key : string) : pc_op conn :=
  s ← get; lift (must (pc_connections s !! key)).

(** The protocols of a connection by their minimal data ids. *)
Definition sortedProtocols (c : conn) : list Z :=
  sort_Slice (λ i j, default 0 (protocol c !! i) <? default 0 (protocol c !! j))
    (range (protocol c)).*1.

(** One protocol; [Analyze] runs on the buffers and the queue, and its error is logged. *)
Definition analyzeProtocol (now : Z) (key : string) (p : Z) : pc_op bool :=
  c ← getConn key;
  analyzer ← lift (must (protocolMgr !! p));
  loc ← lift (must (dataBuffers c !! p));
  metrics ← lift (must (protocolMetrics c !! p));
  s ← get;
  match proto_Analyze analyzer now loc metrics (pc_heap s, pc_queue s) with
  | (r, (h, q)) =>
    put (set_pc_queue q (set_pc_heap h s));;
    match r with
    | Ok (_, b, metrics) =>
      modify (set_conn key (update_protocols (dataBuffers c) (protocol c)
        (<[p := metrics]> (protocolMetrics c)) c));;
      mret b
    | Err e => match e with end
    | Panic => lift Panic
    end
  end.

Fixpoint analyzeProtocols (now : Z) (key : string) (ps : list Z) : pc_op bool :=
  match ps with
  | [] => mret false
  | p :: ps =>
    b ← analyzeProtocol now key p;
    rest ← analyzeProtocols now key ps;
    mret (b || rest)
  end.

(** The details of a buffer become kernel logs, and the buffer is emptied. *)
Definition flushBuffer (loc : positive) : pc_op unit :=
  s ← get;
  match BuildDetails loc (pc_heap s) with
  | (Ok details, _) =>
    modify (λ s, set_pc_queue
      (foldl (λ q d, snd (SendTransferNoProtocolEvent d q)) (pc_queue s) details) s);;
    on_pc_buffer loc Clean
  | (Err e, _) => raise e
  | (Panic, _) => lift Panic
  end.

Fixpoint flushBuffers (locs : list positive) : pc_op unit :=
  match locs with
  | [] => mret tt
  | loc :: locs => flushBuffer loc;; flushBuffers locs
  end.

(** An operation of the connection manager, which raises no error. *)
Definition on_pc_mgr (m : act Mgr Empty_set unit) : pc_op unit := λ s,
  match m (pc_mgr s) with
  | (Ok _, mgr) => (Ok tt, set_pc_mgr mgr s)
  | (Err e, mgr) => match e with end
  | (Panic, mgr) => (Panic, set_pc_mgr mgr s)
  end.

Definition processConnectionEvents (now : Z) (key : string) : pc_op unit :=
  c ← getConn key;
  if skipAllDataAnalyze c then mret tt
  else
    protocolBreak ← analyzeProtocols now key (sortedProtocols c);
    if negb protocolBreak then mret tt
    else
      c ← getConn key;
      modify (set_conn key (set_skipAll c));;
      on_pc_mgr (SkipAllDataAnalyzeAndDowngradeProtocol now (part_connectionID c) (part_randomID c));;
      flushBuffers (range (dataBuffers c)).*2.

(** ** Closed connections

    The map [BPF.ActiveConnectionMap] is the one the connection manager has. *)

Definition checkTheConnectionIsAlreadyClose (now : Z) (active : AM) (con : conn) : conn :=
  if now - lastCheckCloseTime con <=? closeCheckInterval then con
  else
    match em_Lookup (part_connectionID con) active with
    | inl ErrKeyNotExist => set_checked now true con
    | inl ErrOther => set_checked now (part_closed con) con
    | inr activateConn =>
      if negb (active_RandomID activateConn =? 0) &&
         negb (active_RandomID activateConn =? part_randomID con)
      then set_checked now true con
      else set_checked now (part_closed con) con
    end.

(** The chunks that are buffered for a connection; a buffer is never nil. *)
Definition buffered (h : Buffer.heap) (c : conn) : option Z :=
  foldl (λ acc loc, n ← acc; b ← buffers h !! loc; Some (n + DataLength b)) (Some 0)
    (range (dataBuffers c)).*2.

(** The callback of [ProcessEvents] on one connection: whether it is to be removed. *)
Definition processConnection (now : Z) (key : string) : pc_op bool :=
  processConnectionEvents now key;;
  c ← getConn key;
  s ← get;
  bufLen ← lift (must (buffered (pc_heap s) c));
  if 0 <? bufLen then mret false
  else
    let c := if part_closed c then c
             else checkTheConnectionIsAlreadyClose now (activeConnectionMap (pc_mgr s)) c in
    modify (set_conn key c);;
    mret (part_closed c).

Fixpoint processConnections (now : Z) (keys : list string) : pc_op (list string) :=
  match keys with
  | [] => mret []
  | key :: keys =>
    closed ← processConnection now key;
    rest ← processConnections now keys;
    mret (if closed : bool then key :: rest else rest)
  end.

Definition remove_conns (keys : list string) (s : PartitionContext) : PartitionContext :=
  MkPartitionContext (foldl (λ m k, delete k m) (pc_connections s) keys) (pc_heap s) (pc_queue s)
    (pc_mgr s).

(** [locked] is that another analysis is running. *)
Definition ProcessEvents (now : Z) (locked : bool) : pc_op unit :=
  if locked then mret tt
  else
    s ← get;
    closedConnections ← processConnections now (range (pc_connections s)).*1;
    modify (remove_conns closedConnections).

(** ** Expiration *)

Definition processConnectionExpireEvents (now : Z) (c : conn) (h : Buffer.heap) : Buffer.heap :=
  foldl (λ h loc,
    match buffers h !! loc with
    | Some b => MkHeap (<[loc := snd (DeleteExpireEvents bootTime now maxBufferExpireDuration b)]>
                          (buffers h)) (fresh h)
    | None => h
    end) h (range (dataBuffers c)).*2.

Definition ProcessExpireEvents (now : Z) (s : PartitionContext) : PartitionContext :=
  set_pc_heap (foldl (λ h x, processConnectionExpireEvents now x.2 h) (pc_heap s)
                 (range (pc_connections s))) s.
End partition.
