(* ===== verification/PartitionLaws.v ===== *)
(** * Laws of the partitions

    The theorems about Partition.v: a partition routes what it receives to the buffer of
    its connection and its protocol, in every state it can reach, and the break of a
    protocol hands every detail that waits to the queue of the logs.

    What a partition needs of a protocol is that its analysis does not lose a buffer
    ([LawfulProtocol]); the HTTP/2 analysis of Http2.v is one, and that of HTTP/1 is
    (Protocols.v). *)

From stdpp Require Import base gmap list strings pretty sorting.
From Stdlib Require Import ZArith Lia.
From S2P Require Import Prelude GoStrings Interfaces ProcessMonitor Connection ConnectionLife Ztunnel AccessLogTail Sender Delivery Tracing Events Buffer BufferOrder Http2 Partition.

(** ** Buffers keep their original and a position on a chunk *)

Definition placed (b : Buffer) : Prop := ∀ p, current b = Some p → is_Some (element p).

Definition same_buffer (b b' : Buffer) : Prop :=
  originalBuffer b' = originalBuffer b ∧ (placed b → placed b').

Global Instance same_buffer_preorder : PreOrder same_buffer.
Proof.
  split; [by intros b|]. intros b b' b'' [H1 H2] [H3 H4]. split; [congruence|auto].
Qed.

Lemma same_buffer_current b b' :
  originalBuffer b' = originalBuffer b → current b' = current b → same_buffer b b'.
Proof. unfold same_buffer, placed. by intros ? ->. Qed.

Lemma same_buffer_at b b' p :
  originalBuffer b' = originalBuffer b → current b' = Some p → is_Some (element p) →
  same_buffer b b'.
Proof. intros Ho Hc Hp. split; [done|]. intros _ q. rewrite Hc. by intros [= <-]. Qed.

Lemma same_buffer_none b b' :
  originalBuffer b' = originalBuffer b → current b' = None → same_buffer b b'.
Proof. intros Ho Hc. split; [done|]. intros _ q. by rewrite Hc. Qed.
#[export] Hint Resolve same_buffer_current same_buffer_at same_buffer_none : respects.

Lemma respects_ReadFromCurrent n : respects same_buffer (ReadFromCurrent n).
Proof.
  intros b. unfold ReadFromCurrent. explore; try reflexivity; eapply same_buffer_at; simpl; eauto.
Qed.

Lemma respects_read0 e n : respects same_buffer (read0 e n).
Proof.
  intros b. unfold read0. explore; try reflexivity; eapply same_buffer_at; simpl; eauto.
Qed.
#[export] Hint Resolve respects_ReadFromCurrent respects_read0 : respects.

Lemma respects_Read n : respects same_buffer (Read n).
Proof. unfold Read. respects_all. Qed.
#[export] Hint Resolve respects_Read : respects.

Lemma respects_peek_loop fuel n : respects same_buffer (peek_loop fuel n).
Proof. revert n. induction fuel; intros n; simpl; respects_all. Qed.

Lemma respects_full_loop fuel data n : respects same_buffer (full_loop fuel data n).
Proof. revert data n. induction fuel; intros data n; simpl; respects_all. Qed.

Lemma respects_ReadFull n : respects same_buffer (ReadFull n).
Proof. intros b. apply respects_peek_loop. Qed.

Lemma respects_ReadUntil data : respects same_buffer (ReadUntilBufferFull data).
Proof. intros b. apply respects_full_loop. Qed.

Lemma respects_Prepare : respects same_buffer PrepareForReading.
Proof.
  intros b. unfold PrepareForReading. step_act.
  destruct (decide (dataEvents b = [])) as [|Hb]; step_act; [reflexivity|].
  eapply same_buffer_at; simpl; [by destruct (shouldResetPosition b)|done|].
  destruct (shouldResetPosition b); simpl; [by destruct (dataEvents b)|].
  destruct (head b) as [[[]]|]; simpl; [done|by destruct (dataEvents b)..].
Qed.
#[export] Hint Resolve respects_ReadFull respects_ReadUntil respects_Prepare : respects.

Lemma respects_Position : respects same_buffer Position_.
Proof. unfold Position_. respects_all. Qed.

Lemma respects_reset : respects same_buffer (modify ResetForLoopReading : method unit).
Proof. intros b. by apply same_buffer_none. Qed.

Lemma respects_Clean : respects same_buffer Clean.
Proof. intros b. by apply same_buffer_none. Qed.

Lemma respects_DataSize : respects same_buffer DataSize.
Proof.
  unfold DataSize. pose proof respects_reset. respects_all.
Qed.

Lemma respects_Remove includeDetails : respects same_buffer (RemoveReadElements includeDetails).
Proof. intros b. unfold RemoveReadElements. explore; by apply same_buffer_current. Qed.

Lemma respects_Skip : respects same_buffer SkipCurrentElement.
Proof.
  intros b. unfold SkipCurrentElement. explore; try reflexivity.
  split; [done|]. intros Hb q [= <-]. simpl. by eapply Hb.
Qed.
#[export] Hint Resolve respects_Position respects_reset respects_Clean respects_DataSize
  respects_Remove respects_Skip : respects.

(** ** Heaps grow *)

(** Every buffer is below the next free location. *)
Definition heap_ok (h : heap) : Prop := ∀ loc, is_Some (buffers h !! loc) → (loc < fresh h)%positive.

Definition grows (h h' : heap) : Prop :=
  (fresh h ≤ fresh h')%positive ∧
  ∀ loc b, buffers h !! loc = Some b → ∃ b', buffers h' !! loc = Some b' ∧ same_buffer b b'.

Definition heap_step (h h' : heap) : Prop := heap_ok h → heap_ok h' ∧ grows h h'.

Global Instance grows_preorder : PreOrder grows.
Proof.
  split.
  - intros h. split; [done|]. intros loc b Hb. exists b. split; [done|reflexivity].
  - intros h1 h2 h3 [Hf Hg] [Hf' Hg']. split; [lia|]. intros loc b Hb.
    destruct (Hg loc b Hb) as (b' & Hb' & Hs). destruct (Hg' loc b' Hb') as (b'' & Hb'' & Hs').
    exists b''. split; [done|by etrans].
Qed.

Global Instance heap_step_preorder : PreOrder heap_step.
Proof.
  split; [intros h Hh; split; [done|reflexivity]|].
  intros h1 h2 h3 H12 H23 H1. destruct (H12 H1) as [H2 G12]. destruct (H23 H2) as [H3 G23].
  split; [done|by etrans].
Qed.

Lemma heap_step_update loc b b' h :
  buffers h !! loc = Some b → same_buffer b b' →
  heap_step h (MkHeap (<[loc := b']> (buffers h)) (fresh h)).
Proof.
  intros Hb Hs Hh. split.
  - intros l. simpl. rewrite lookup_insert_is_Some. intros [<-|[_ Hl]]; eauto.
  - split; [done|]. intros l x Hx. simpl. destruct (decide (l = loc)) as [->|Hne].
    + exists b'. rewrite lookup_insert_eq. split; [done|]. congruence.
    + exists x. rewrite lookup_insert_ne by done. split; [done|reflexivity].
Qed.

Lemma heap_step_new b loc h :
  (fresh h ≤ loc)%positive →
  heap_step h (MkHeap (<[loc := b]> (buffers h)) (Pos.succ loc)).
Proof.
  intros Hl Hh. split.
  - intros l. simpl. rewrite lookup_insert_is_Some. intros [<-|[_ Hs]]; [lia|].
    apply Hh in Hs. lia.
  - split; [simpl; lia|]. intros l x Hx. exists x. simpl.
    assert (l < fresh h)%positive by (apply Hh; by exists x).
    rewrite lookup_insert_ne by lia. split; [done|reflexivity].
Qed.

Lemma respects_deref loc : respects heap_step (deref loc).
Proof. unfold deref. respects_all. Qed.
#[export] Hint Resolve respects_deref : respects.

Lemma respects_BuildDetails loc : respects heap_step (BuildDetails loc).
Proof. unfold BuildDetails. respects_all. Qed.

Lemma respects_delete_own i loc : respects heap_step (delete_own i loc).
Proof.
  intros h. unfold delete_own, deref. explore; [|reflexivity].
  eapply heap_step_update; [done|by apply same_buffer_current].
Qed.
#[export] Hint Resolve respects_BuildDetails respects_delete_own : respects.

Lemma respects_DeleteDetails fuel i loc : respects heap_step (DeleteDetails fuel i loc).
Proof. revert loc. induction fuel; intros loc; simpl; respects_all. Qed.

Lemma respects_alloc {A} values valid index original endp (f : positive → A) :
  respects heap_step (h ← get;
    let '(h', loc) := alloc values valid index original endp h in
    put h';; mret (f loc) : heap_op A).
Proof.
  intros h. unfold alloc. step_act. simpl. apply heap_step_new. lia.
Qed.

Lemma respects_Slice loc valid start endp : respects heap_step (Slice loc valid start endp).
Proof.
  unfold Slice. apply respects_bind; [apply _|respects_all|intros r].
  apply respects_bind; [apply _|respects_all|intros values].
  apply (respects_alloc _ _ _ _ _ id).
Qed.

Lemma respects_deref_all os : respects heap_step (deref_all os).
Proof. induction os as [|[] os IH]; simpl; respects_all. Qed.

Lemma respects_CombineSlices valid original bufs :
  respects heap_step (CombineSlices valid original bufs).
Proof.
  unfold CombineSlices. destruct bufs as [|b [|b' bufs]]; [respects_all..|].
  apply respects_bind; [apply _|apply respects_deref_all|intros bs].
  do 2 (apply respects_bind; [apply _|respects_all|intros ?]).
  apply (respects_alloc _ _ _ _ _ Some).
Qed.
#[export] Hint Resolve respects_DeleteDetails respects_Slice respects_CombineSlices : respects.

(** ** HTTP/2 grows the heap *)

Definition h2_step {D} (s s' : h2_state D) : Prop := heap_step (h2_heap s) (h2_heap s').

Global Instance h2_step_preorder D : PreOrder (@h2_step D).
Proof. split; [intros s; by red|]. intros s1 s2 s3 H1 H2. by red; etrans. Qed.

Section http2_grows.
Context {D : Type} (DecodeFull : list Z → D → option (list (string * string)) * D).
Context (frame_header : list Z → FrameHeader) (bootTime : Z).
Notation h2_op A := (act (h2_state D) read_error A).

Lemma respects_on_heap {A} (m : heap_op A) : respects heap_step m → respects h2_step (on_heap m : h2_op A).
Proof.
  intros Hm s. unfold on_heap. specialize (Hm (h2_heap s)). by destruct (m (h2_heap s)).
Qed.

Lemma respects_try {A} loc (m : method A) :
  respects same_buffer m → respects h2_step (try_buffer loc m : h2_op (read_error + A)).
Proof.
  intros Hm s. unfold try_buffer. destruct (buffers (h2_heap s) !! loc) as [b|] eqn:Hb; [|reflexivity].
  specialize (Hm b). destruct (m b) as [r b'].
  assert (h2_step s (set_h2_heap (MkHeap (<[loc := b']> (buffers (h2_heap s)))
    (fresh (h2_heap s))) s)) by by eapply heap_step_update.
  by destruct r.
Qed.
#[local] Hint Resolve respects_on_heap respects_try : respects.

Lemma respects_on_buffer {A} loc (m : method A) :
  respects same_buffer m → respects h2_step (on_buffer loc m : h2_op A).
Proof. intros Hm. unfold on_buffer. respects_all. Qed.

Lemma respects_same f : (∀ s : h2_state D, h2_heap (f s) = h2_heap s) → respects h2_step (modify f : h2_op unit).
Proof. intros Hf s. unfold h2_step. simpl. rewrite Hf. reflexivity. Qed.
#[local] Hint Resolve respects_on_buffer respects_same : respects.

Lemma respects_append o st : respects heap_step (AppendSocketDetailsFromBuffer o st).
Proof. unfold AppendSocketDetailsFromBuffer. respects_all. Qed.
#[local] Hint Resolve respects_append : respects.

Lemma respects_stream_details st : respects heap_step (stream_details st).
Proof. unfold stream_details. respects_all. Qed.

Lemma respects_FirstDetail o d : respects heap_step (FirstDetail o d).
Proof. unfold FirstDetail. respects_all. Qed.

Lemma respects_BufferSize o : respects h2_step (BufferSizeOfZero o : h2_op Z).
Proof. unfold BufferSizeOfZero. respects_all. Qed.
#[local] Hint Resolve respects_stream_details respects_FirstDetail respects_BufferSize : respects.

Lemma respects_HandleWholeStream st : respects h2_step (HandleWholeStream st : h2_op bool).
Proof. unfold HandleWholeStream. respects_all. Qed.
#[local] Hint Resolve respects_HandleWholeStream : respects.

Lemma respects_validate now st :
  respects h2_step (validateIsStreamOpenTooLong bootTime now st : h2_op unit).
Proof. unfold validateIsStreamOpenTooLong. respects_all. Qed.

Lemma respects_extend buf old startPos :
  respects h2_step (extend buf old startPos : h2_op (option positive)).
Proof. unfold extend. respects_all. Qed.
#[local] Hint Resolve respects_validate respects_extend : respects.

Lemma respects_handleFrame now header startPos buf :
  respects h2_step (handleFrame DecodeFull bootTime now header startPos buf).
Proof.
  unfold handleFrame, HandleHeader, HandleData, handleOther, handleHeaderBlock. respects_all.
Qed.
#[local] Hint Resolve respects_handleFrame : respects.

Lemma respects_analyze_loop n now buf :
  respects h2_step (analyze_loop DecodeFull frame_header bootTime n now buf).
Proof. induction n; simpl; unfold analyze_round; respects_all. Qed.
#[local] Hint Resolve respects_analyze_loop : respects.

Lemma respects_Analyze now buf : respects h2_step (Analyze DecodeFull frame_header bootTime now buf).
Proof. unfold Analyze. respects_all. Qed.
End http2_grows.

(** ** The interface of a protocol *)

Class LawfulProtocol {MT} (p : ProtocolOps MT) : Prop :=
  analyze_grows now loc mt h q : heap_step h (snd (proto_Analyze p now loc mt (h, q))).1.

Global Instance http2_lawful {D} DecodeFull frame_header bootTime (d : D) :
  LawfulProtocol (http2_ops DecodeFull frame_header bootTime d).
Proof.
  intros now loc mt h q. simpl.
  pose proof (respects_Analyze DecodeFull frame_header bootTime now loc (MkH2 h mt.1 mt.2 q)) as H.
  by destruct (Analyze _ _ _ _ _ _) as [r s].
Qed.

(** ** The invariant of a partition *)

Section laws.
Context `{RangeOrder} {MT M C CM AM PB L : Type}.
Context `{!EbpfMap Z Z M} `{!ExpiringCache Z ProcessVerdict C} `{!ConcurrentMap positive CM}.
Context `{!EbpfMap Z ActiveConnection AM} `{!ExpiringCache string bool PB}.
Context (protocolMgr : gmap Z (ProtocolOps MT)) (bootTime : Z).
Notation Mgr := (Manager M C CM AM PB L).
Notation conn := (PartitionConnection MT).
Notation ctx := (@PartitionContext MT M C CM AM PB L).
Notation pc_op A := (act ctx read_error A).

(** A buffer of a connection is never a part of another one. *)
Definition own_buffer (h : heap) (loc : positive) : Prop :=
  ∃ b, buffers h !! loc = Some b ∧ originalBuffer b = None ∧ placed b.

Record conn_ok (h : heap) (key : string) (c : conn) : Prop := {
  co_key : key = buildConnectionKey (part_connectionID c) (part_randomID c);
  co_buffers : dom (dataBuffers c) = dom (protocol c);
  co_metrics : dom (protocolMetrics c) = dom (protocol c);
  co_known : dom (protocol c) ⊆ dom protocolMgr;
  co_own p loc : dataBuffers c !! p = Some loc → own_buffer h loc
}.

Definition has_buffer (s : ctx) (key : string) (p : Z) (loc : positive) : Prop :=
  ∃ c, pc_connections s !! key = Some c ∧ dataBuffers c !! p = Some loc.

Record pc_ok (s : ctx) : Prop := {
  ok_heap : heap_ok (pc_heap s);
  ok_conn : map_Forall (conn_ok (pc_heap s)) (pc_connections s);
  ok_inj k p k' p' loc : has_buffer s k p loc → has_buffer s k' p' loc → k = k' ∧ p = p'
}.

(** ** Specification: where an event goes *)

(** The buffer of a connection for a protocol, and the minimal data id of the protocol. *)
Definition content (s : ctx) (key : string) (p : Z) : option Buffer :=
  c ← pc_connections s !! key; loc ← dataBuffers c !! p; buffers (pc_heap s) !! loc.
Definition min_id (s : ctx) (key : string) (p : Z) : option Z :=
  c ← pc_connections s !! key; protocol c !! p.
Definition skipping (s : ctx) (key : string) : bool :=
  match pc_connections s !! key with Some c => skipAllDataAnalyze c | None => false end.

(** The buffer an event finds: an empty one before the first event. *)
Definition found (s : ctx) (key : string) (p : Z) : Buffer := default NewBuffer (content s key p).

(** Nothing but the target changes; the target has a buffer, and the minimal data id takes
    the new one in. *)
Record opened (s s' : ctx) (key : string) (p id : Z) : Prop := {
  op_others k p' : (k, p') ≠ (key, p) → content s' k p' = content s k p';
  op_min : min_id s' key p = Some (default id (Z.min id <$> min_id s key p));
  op_skipping k : skipping s' k = skipping s k;
  op_mgr : pc_mgr s' = pc_mgr s
}.

Definition event_target (e : PartitionEvent) : string * Z :=
  match e with
  | DetailReceived e => (buildConnectionKey (detail_ConnectionID e) (detail_RandomID e), detail_Protocol e)
  | DataReceived e => (buildConnectionKey (data_ConnectionID e) (data_RandomID e), Protocol0 e)
  end.
Definition event_id (e : PartitionEvent) : Z :=
  match e with DetailReceived e => detail_DataID0 e | DataReceived e => DataID0 e end.

(** What an event does to the buffer it finds, and to the queue. *)
Definition received (e : PartitionEvent) (skip : bool) (b b' : Buffer) (q q' : Queue) : Prop :=
  match e, skip with
  | DetailReceived e, true => b' = b ∧ q' = snd (SendTransferNoProtocolEvent e q)
  | DetailReceived e, false => b' = AppendDetailEvent e b ∧ q' = q
  | DataReceived e, true => b' = b ∧ q' = q
  | DataReceived e, false => (∃ id, AppendDataEvent id (Upload e) b = (Ok tt, b')) ∧ q' = q
  end.

(** A detail of an unknown protocol is a log of its own; any other event has an
    analyzer. *)
Definition routed (e : PartitionEvent) (s s' : ctx) : Prop :=
  match e with
  | DetailReceived d =>
    if detail_Protocol d =? ConnectionProtocolUnknown
    then s' = set_pc_queue (snd (SendTransferNoProtocolEvent d (pc_queue s))) s
    else let '(key, p) := event_target e in
      opened s s' key p (event_id e) ∧
      ∃ b', content s' key p = Some b' ∧
        received e (skipping s key) (found s key p) b' (pc_queue s) (pc_queue s')
  | DataReceived _ =>
    let '(key, p) := event_target e in
    opened s s' key p (event_id e) ∧
    ∃ b', content s' key p = Some b' ∧
      received e (skipping s key) (found s key p) b' (pc_queue s) (pc_queue s')
  end.

Definition supported (e : PartitionEvent) : Prop :=
  match e with
  | DetailReceived d =>
    detail_Protocol d = ConnectionProtocolUnknown ∨ detail_Protocol d ∈ dom protocolMgr
  | DataReceived d => Protocol0 d ∈ dom protocolMgr
  end.

(** ** Specification: the states of a partition *)

(** The queue is consumed and the manager works while the partition does. *)
Inductive pc_reachable : ctx → Prop :=
| reach_new q m : pc_reachable (MkPartitionContext ∅ (MkHeap ∅ 1) q m)
| reach_consume now e s s' :
  pc_reachable s → supported e → PartitionContext_Consume protocolMgr now e s = (Ok tt, s') →
  pc_reachable s'
| reach_process now locked s s' :
  pc_reachable s → ProcessEvents protocolMgr now locked s = (Ok tt, s') → pc_reachable s'
| reach_expire now s : pc_reachable s → pc_reachable (ProcessExpireEvents bootTime now s)
| reach_others q m s : pc_reachable s → pc_reachable (set_pc_queue q (set_pc_mgr m s)).

(** The details that wait in a list of buffers. *)
Definition held (h : heap) (locs : list positive) : list SocketDetailEvent :=
  concat (map (λ loc, match buffers h !! loc with Some b => detailEvents b | None => [] end) locs).

Definition transfer_log (d : SocketDetailEvent) : kernelLogEvent :=
  MkKernelLogEvent LogTypeKernelTransfer (DetailEvent d).

(** ** Keeping the invariant *)

Lemma own_grows h h' loc : grows h h' → own_buffer h loc → own_buffer h' loc.
Proof.
  intros [_ Hg] (b & Hb & Ho & Hp). destruct (Hg loc b Hb) as (b' & Hb' & Ho' & Hp').
  exists b'. split; [done|]. split; [congruence|auto].
Qed.

Lemma conn_ok_grows h h' key c : grows h h' → conn_ok h key c → conn_ok h' key c.
Proof. intros Hg []. split; eauto using own_grows. Qed.

Lemma pc_ok_heap s h : pc_ok s → heap_step (pc_heap s) h → pc_ok (set_pc_heap h s).
Proof.
  intros [Hh Hc Hi] Hs. destruct (Hs Hh) as [Hh' Hg]. split; [done| |exact Hi].
  intros key c Hk. eapply conn_ok_grows; [done|by apply Hc].
Qed.

Lemma pc_ok_rest s q m : pc_ok s → pc_ok (set_pc_queue q (set_pc_mgr m s)).
Proof. by intros []. Qed.

Lemma pc_ok_queue s q : pc_ok s → pc_ok (set_pc_queue q s).
Proof. by intros []. Qed.

Lemma set_conn_ok s key c :
  pc_ok s → conn_ok (pc_heap s) key c →
  (∀ p p' loc, dataBuffers c !! p = Some loc → dataBuffers c !! p' = Some loc → p = p') →
  (∀ p loc k' p', dataBuffers c !! p = Some loc → has_buffer s k' p' loc → k' = key) →
  pc_ok (set_conn key c s).
Proof.
  intros [Hh Hc Hi] Hk Hin Hout.
  assert (Hcase : ∀ k p loc, has_buffer (set_conn key c s) k p loc →
    k = key ∧ dataBuffers c !! p = Some loc ∨ k ≠ key ∧ has_buffer s k p loc).
  { intros k p loc (c' & Hc' & Hp). simpl in Hc'. apply lookup_insert_Some in Hc'.
    destruct Hc' as [[<- <-]|[Hne Hc']]; [by left|]. right. split; [done|]. by exists c'. }
  split; [done|by apply map_Forall_insert_2|].
  intros k p k' p' loc [[-> H1]|[Hne H1]]%Hcase [[-> H2]|[Hne' H2]]%Hcase.
  - split; [done|by eapply Hin].
  - by destruct Hne'; eapply Hout.
  - by destruct Hne; eapply Hout.
  - by eapply Hi.
Qed.

(** A connection may change everything but its identity and its buffers. *)
Lemma set_conn_same s key c c' :
  pc_ok s → pc_connections s !! key = Some c → dataBuffers c' = dataBuffers c →
  conn_ok (pc_heap s) key c' → pc_ok (set_conn key c' s).
Proof.
  intros Hs Hc Hb Hok. apply set_conn_ok; [done..| |]; rewrite Hb.
  - intros p p' loc H1 H2. eapply (ok_inj s Hs key p key p' loc); by exists c.
  - intros p loc k' p' H1 H2. eapply (ok_inj s Hs k' p' key p loc); [done|by exists c].
Qed.

(** ** Opening a connection *)

Lemma content_heap s key p h :
  content (set_pc_heap h s) key p =
  (c ← pc_connections s !! key; loc ← dataBuffers c !! p; buffers h !! loc).
Proof. done. Qed.

Lemma content_set_conn s k p key c :
  content (set_conn key c s) k p =
  if decide (k = key) then loc ← dataBuffers c !! p; buffers (pc_heap s) !! loc else content s k p.
Proof.
  unfold content. simpl. case_decide as Hk; [subst; by rewrite lookup_insert_eq|].
  by rewrite lookup_insert_ne.
Qed.

Lemma own_below s k p loc : pc_ok s → has_buffer s k p loc → (loc < fresh (pc_heap s))%positive.
Proof.
  intros Hs (c & Hc & Hp). apply (ok_heap s Hs).
  destruct (co_own _ _ _ (ok_conn s Hs k c Hc) p loc Hp) as (b & -> & _). done.
Qed.

(** The connection an event finds. *)
Definition base_conn (now conID ranID : Z) (s : ctx) : conn :=
  default (MkPartitionConnection conID ranID ∅ ∅ ∅ false false now)
    (pc_connections s !! buildConnectionKey conID ranID).

Lemma GetConnectionContext_base now conID ranID p id s :
  GetConnectionContext protocolMgr now conID ranID p id s =
  (c ← appendProtocolIfNeed protocolMgr conID ranID p id (base_conn now conID ranID s);
   modify (set_conn (buildConnectionKey conID ranID) c);;
   mret (buildConnectionKey conID ranID, c)) s.
Proof.
  unfold GetConnectionContext, base_conn, newPartitionConnection. step_act.
  by destruct (pc_connections s !! _).
Qed.

Lemma base_conn_ok now conID ranID s :
  pc_ok s → conn_ok (pc_heap s) (buildConnectionKey conID ranID) (base_conn now conID ranID s).
Proof.
  intros Hs. unfold base_conn. destruct (pc_connections s !! _) as [c|] eqn:Hc; simpl.
  - by apply (ok_conn s Hs).
  - split; simpl; [done|by rewrite !dom_empty_L..|set_solver|done].
Qed.

Lemma base_conn_buffer now conID ranID s p loc :
  dataBuffers (base_conn now conID ranID s) !! p = Some loc →
  has_buffer s (buildConnectionKey conID ranID) p loc.
Proof.
  unfold base_conn. destruct (pc_connections s !! _) as [c|] eqn:Hc; simpl; [|done].
  intros Hp. by exists c.
Qed.

Lemma base_content now conID ranID s p :
  content s (buildConnectionKey conID ranID) p =
  (loc ← dataBuffers (base_conn now conID ranID s) !! p; buffers (pc_heap s) !! loc).
Proof. unfold content, base_conn. by destruct (pc_connections s !! _). Qed.

Lemma base_min_id now conID ranID s p :
  min_id s (buildConnectionKey conID ranID) p = protocol (base_conn now conID ranID s) !! p.
Proof. unfold min_id, base_conn. by destruct (pc_connections s !! _). Qed.

Lemma base_skipping now conID ranID s :
  skipping s (buildConnectionKey conID ranID) = skipAllDataAnalyze (base_conn now conID ranID s).
Proof. unfold skipping, base_conn. by destruct (pc_connections s !! _). Qed.

Lemma open_conn now conID ranID p id s h c :
  let key := buildConnectionKey conID ranID in
  let c0 := base_conn now conID ranID s in
  (∀ k p' loc, has_buffer s k p' loc → buffers h !! loc = buffers (pc_heap s) !! loc) →
  (∀ p', p' ≠ p → dataBuffers c !! p' = dataBuffers c0 !! p') →
  protocol c !! p = Some (default id (Z.min id <$> protocol c0 !! p)) →
  skipAllDataAnalyze c = skipAllDataAnalyze c0 →
  opened s (set_conn key c (set_pc_heap h s)) key p id.
Proof.
  intros key c0 Hh Hb Hm Hk. split; [| | |done].
  - intros k p' Hne. rewrite content_set_conn. case_decide as Hkey; [subst k|].
    + rewrite Hb by congruence. unfold key; rewrite (base_content now). fold c0.
      destruct (dataBuffers c0 !! p') as [loc|] eqn:Hloc; [|done]. simpl.
      eapply Hh, base_conn_buffer, Hloc.
    + unfold content. simpl. destruct (pc_connections s !! k) as [c'|] eqn:Hc'; [|done]. simpl.
      destruct (dataBuffers c' !! p') as [loc|] eqn:Hloc; [|done]. simpl.
      apply (Hh k p'). by exists c'.
  - assert (Hmin : min_id s key p = protocol c0 !! p) by apply base_min_id.
    rewrite Hmin, <- Hm. unfold min_id. simpl.
    by rewrite lookup_insert_eq.
  - intros k. destruct (decide (k = key)) as [->|Hne].
    + assert (Hskip : skipping s key = skipAllDataAnalyze c0) by apply base_skipping.
      rewrite Hskip, <- Hk. unfold skipping. simpl.
      by rewrite lookup_insert_eq.
    + unfold skipping. simpl. by rewrite lookup_insert_ne.
Qed.

Lemma conn_ok_append h key c p loc id m :
  conn_ok h key c → own_buffer h loc → p ∈ dom protocolMgr →
  conn_ok h key (update_protocols (<[p := loc]> (dataBuffers c)) (<[p := id]> (protocol c))
                   (<[p := m]> (protocolMetrics c)) c).
Proof.
  intros [Hk HB HM HK HO] Hloc Hp. split; simpl; [done|by rewrite !dom_insert_L, ?HB, ?HM..| |].
  - rewrite dom_insert_L. set_solver.
  - intros p' l. rewrite lookup_insert_Some. intros [[<- <-]|[_ Hl]]; [done|by eapply HO].
Qed.

(** The first event of a protocol. *)
Lemma append_new now conID ranID p id s a :
  let key := buildConnectionKey conID ranID in
  let c0 := base_conn now conID ranID s in
  let loc := fresh (pc_heap s) in
  let h := MkHeap (<[loc := NewBuffer]> (buffers (pc_heap s))) (Pos.succ loc) in
  let c := update_protocols (<[p := loc]> (dataBuffers c0)) (<[p := id]> (protocol c0))
             (<[p := GenerateConnection a conID ranID]> (protocolMetrics c0)) c0 in
  pc_ok s → protocol c0 !! p = None → protocolMgr !! p = Some a →
  appendProtocolIfNeed protocolMgr conID ranID p id c0 s = (Ok c, set_pc_heap h s) ∧
  pc_ok (set_conn key c (set_pc_heap h s)) ∧
  opened s (set_conn key c (set_pc_heap h s)) key p id ∧
  dataBuffers c0 !! p = None.
Proof.
  intros key c0 loc h c Hs Hp Ha.
  assert (Hok := base_conn_ok now conID ranID s Hs). fold key c0 in Hok.
  assert (Hb : dataBuffers c0 !! p = None).
  { apply not_elem_of_dom. rewrite (co_buffers _ _ _ Hok). by apply not_elem_of_dom. }
  assert (Hstep : heap_step (pc_heap s) h) by by apply heap_step_new.
  assert (Hlow : ∀ p' l, dataBuffers c0 !! p' = Some l → (l < loc)%positive).
  { intros p' l Hl. by eapply own_below, base_conn_buffer. }
  split; [|split; [|split; [|done]]].
  - unfold appendProtocolIfNeed. rewrite Hp. unfold new_buffer. step_act. by rewrite Ha.
  - apply set_conn_ok.
    + by apply pc_ok_heap.
    + destruct (Hstep (ok_heap s Hs)) as [_ Hg].
      apply conn_ok_append; [by eapply conn_ok_grows| |by apply elem_of_dom_2 in Ha].
      exists NewBuffer. simpl. by rewrite lookup_insert_eq.
    + intros p1 p2 l. simpl. rewrite !lookup_insert_Some.
      intros [[<- <-]|[_ H1]] [[<- H2]|[_ H2]]; [done| | |].
      * apply Hlow in H2. lia.
      * apply Hlow in H1. lia.
      * by destruct (ok_inj s Hs key p1 key p2 l); [eapply base_conn_buffer..|].
    + intros p1 l k' p' H1 H2. change (has_buffer s k' p' l) in H2. simpl in H1.
      apply lookup_insert_Some in H1. destruct H1 as [[<- <-]|[_ H1]].
      * eapply own_below in H2; [|done]. lia.
      * by destruct (ok_inj s Hs k' p' key p1 l); [|eapply base_conn_buffer|].
  - apply (open_conn now); simpl; [| |by rewrite lookup_insert_eq; fold c0; rewrite Hp|done].
    + intros k p' l Hl. eapply own_below in Hl; [|done]. by rewrite lookup_insert_ne by (unfold loc; lia).
    + intros p' Hne. by rewrite lookup_insert_ne.
Qed.

(** A later event of a protocol. *)
Lemma append_later now conID ranID p id s m :
  let key := buildConnectionKey conID ranID in
  let c0 := base_conn now conID ranID s in
  pc_ok s → protocol c0 !! p = Some m →
  ∃ c, appendProtocolIfNeed protocolMgr conID ranID p id c0 s = (Ok c, s) ∧
    pc_ok (set_conn key c s) ∧ opened s (set_conn key c s) key p id ∧
    dataBuffers c = dataBuffers c0 ∧ skipAllDataAnalyze c = skipAllDataAnalyze c0.
Proof.
  intros key c0 Hs Hp. assert (Hok := base_conn_ok now conID ranID s Hs). fold key c0 in Hok.
  assert (Hc0 : pc_connections s !! key = Some c0).
  { unfold key, c0, base_conn in *. by destruct (pc_connections s !! _). }
  exists (update_protocols (dataBuffers c0) (<[p := Z.min id m]> (protocol c0)) (protocolMetrics c0) c0).
  assert (Hdom : <[p := m]> (protocol c0) = protocol c0) by by apply insert_id.
  split; [|split; [|split; [|done]]].
  - unfold appendProtocolIfNeed. rewrite Hp. destruct (Z.ltb_spec id m).
    + by rewrite Z.min_l by lia.
    + rewrite Z.min_r, Hdom by lia. by destruct c0.
  - eapply set_conn_same; [done..|]. destruct Hok as [Hk HB HM HK HO].
    assert (Hd : dom (<[p := Z.min id m]> (protocol c0)) = dom (protocol c0)).
    { rewrite dom_insert_L. apply elem_of_dom_2 in Hp. set_solver. }
    split; simpl; rewrite ?Hd; done.
  - replace s with (set_pc_heap (pc_heap s) s) at 2 by by destruct s.
    apply (open_conn now); [done..| |done]. simpl. fold c0. rewrite Hp. by rewrite lookup_insert_eq.
Qed.

Lemma GetConnectionContext_opened now conID ranID p id s :
  let key := buildConnectionKey conID ranID in
  pc_ok s → p ∈ dom protocolMgr →
  ∃ c s' loc, GetConnectionContext protocolMgr now conID ranID p id s = (Ok (key, c), s') ∧
    pc_ok s' ∧ opened s s' key p id ∧ pc_queue s' = pc_queue s ∧
    pc_connections s' !! key = Some c ∧ skipAllDataAnalyze c = skipping s key ∧
    dataBuffers c !! p = Some loc ∧ buffers (pc_heap s') !! loc = Some (found s key p).
Proof.
  intros key Hs Hp. rewrite GetConnectionContext_base. unfold found, key.
  rewrite (base_content now), (base_skipping now).
  pose proof (base_conn_ok now conID ranID s Hs) as Hok0.
  set (c0 := base_conn now conID ranID s) in *.
  destruct (protocol c0 !! p) as [m|] eqn:Hm.
  - destruct (append_later now conID ranID p id s m Hs Hm) as (c & Happ & Hok & Hop & Hb & Hk).
    assert (Hloc : is_Some (dataBuffers c0 !! p)).
    { apply (elem_of_dom (D := gset Z)). rewrite (co_buffers _ _ _ Hok0).
      by apply elem_of_dom_2 in Hm. }
    destruct Hloc as [loc Hloc]. rewrite Hloc. simpl.
    destruct (co_own _ _ _ Hok0 p loc Hloc) as (b & Hb' & _).
    exists c, (set_conn key c s), loc. rewrite (bind_ok _ _ _ _ _ Happ). rewrite Hb'. simpl.
    by rewrite lookup_insert_eq, Hb, ?Hloc.
  - apply elem_of_dom in Hp as [a Ha].
    destruct (append_new now conID ranID p id s a Hs Hm Ha) as (Happ & Hok & Hop & Hb).
    eexists _, _, (fresh (pc_heap s)). rewrite (bind_ok _ _ _ _ _ Happ).
    split; [reflexivity|]. unfold c0. rewrite Hb. split; [exact Hok|]. split; [exact Hop|].
    simpl. by rewrite !lookup_insert_eq.
Qed.

(** ** Writing to a buffer *)

Lemma AppendDataEvent_total id e b :
  placed b → ∃ b', AppendDataEvent id e b = (Ok tt, b') ∧ same_buffer b b'.
Proof.
  intros Hb. unfold AppendDataEvent. step_act.
  set (r := match last (dataEvents b) with None => _ | Some _ => _ end).
  assert (Hr : originalBuffer r = originalBuffer b ∧ current r = current b)
    by (unfold r; repeat case_match; done).
  destruct Hr as [Ho Hc]. rewrite Hc.
  destruct (current b) as [p|] eqn:Hp; step_act; [|eauto with respects].
  destruct (Hb p Hp) as [x Hx]. unfold position_DataID, position_value. rewrite Hx. cbn [fmap option_fmap option_map]. step_act.
  case_match; step_act; eexists; (split; [done|]); apply same_buffer_current; simpl; congruence.
Qed.

Lemma write_buffer {A} s key c p loc b (m : method A) a b' :
  pc_ok s → pc_connections s !! key = Some c → dataBuffers c !! p = Some loc →
  buffers (pc_heap s) !! loc = Some b → m b = (Ok a, b') → same_buffer b b' →
  ∃ s', on_pc_buffer loc m s = (Ok a, s') ∧ pc_ok s' ∧ content s' key p = Some b' ∧
    (∀ k p', (k, p') ≠ (key, p) → content s' k p' = content s k p') ∧
    pc_connections s' = pc_connections s ∧ pc_queue s' = pc_queue s ∧ pc_mgr s' = pc_mgr s.
Proof.
  intros Hs Hc Hloc Hb Hm Hsame. unfold on_pc_buffer. rewrite Hb, Hm.
  eexists. split; [done|]. split; [apply pc_ok_heap; [done|by eapply heap_step_update]|].
  split; [rewrite content_heap, Hc; simpl; rewrite Hloc; simpl; by rewrite lookup_insert_eq|].
  split; [|done]. intros k p' Hne. rewrite content_heap. unfold content.
  destruct (pc_connections s !! k) as [c'|] eqn:Hc'; [|done]. simpl.
  destruct (dataBuffers c' !! p') as [l|] eqn:Hl; [|done]. simpl.
  rewrite lookup_insert_ne; [done|]. intros <-. apply Hne.
  destruct (ok_inj s Hs k p' key p loc) as [-> ->]; [by exists c'|by exists c|done].
Qed.

Lemma opened_write s s1 s2 key p id :
  opened s s1 key p id →
  (∀ k p', (k, p') ≠ (key, p) → content s2 k p' = content s1 k p') →
  pc_connections s2 = pc_connections s1 → pc_mgr s2 = pc_mgr s1 → opened s s2 key p id.
Proof.
  intros [Ho Hm Hk Hg] Hothers Hc Hmgr. split.
  - intros k p' Hne. by rewrite Hothers, Ho.
  - unfold min_id in *. by rewrite Hc.
  - intros k. rewrite <- Hk. unfold skipping. by rewrite Hc.
  - congruence.
Qed.

Lemma set_fresh_step h : heap_step h (MkHeap (buffers h) (Pos.succ (fresh h))).
Proof.
  intros Hh. split; [intros loc Hl; apply Hh in Hl; simpl; lia|].
  split; [simpl; lia|]. intros loc b Hb. exists b. split; [done|reflexivity].
Qed.

(** What follows [GetConnectionContext]. *)
Lemma AppendDetail_received s s1 key c p loc id d :
  pc_ok s1 → opened s s1 key p id → pc_queue s1 = pc_queue s →
  pc_connections s1 !! key = Some c → skipAllDataAnalyze c = skipping s key →
  dataBuffers c !! p = Some loc → buffers (pc_heap s1) !! loc = Some (found s key p) →
  detail_Protocol d = p →
  ∃ s' b', AppendDetail c d s1 = (Ok tt, s') ∧ pc_ok s' ∧ opened s s' key p id ∧
    content s' key p = Some b' ∧
    received (DetailReceived d) (skipping s key) (found s key p) b' (pc_queue s) (pc_queue s').
Proof.
  intros Hs Hop Hq Hc Hk Hloc Hb Hp. unfold AppendDetail. rewrite Hk.
  destruct (skipping s key).
  - unfold send_detail. do 2 eexists. split; [done|]. split; [by apply pc_ok_queue|].
    split; [by eapply opened_write|]. split; [|by rewrite <- Hq].
    unfold content. simpl. rewrite Hc. simpl. by rewrite Hloc.
  - rewrite Hp, Hloc. step_act.
    destruct (write_buffer s1 key c p loc (found s key p) (modify (AppendDetailEvent d)) tt
      (AppendDetailEvent d (found s key p))) as (s' & -> & Hs' & Hc' & Ho & Hcs & Hqs & Hm);
      [done..|by apply same_buffer_current|].
    exists s', (AppendDetailEvent d (found s key p)). split; [done|]. split; [done|].
    split; [by eapply opened_write|]. split; [done|]. split; congruence.
Qed.

Lemma AppendData_received s s1 key c p loc id d :
  pc_ok s1 → opened s s1 key p id → pc_queue s1 = pc_queue s →
  pc_connections s1 !! key = Some c → skipAllDataAnalyze c = skipping s key →
  dataBuffers c !! p = Some loc → buffers (pc_heap s1) !! loc = Some (found s key p) →
  Protocol0 d = p →
  ∃ s' b', AppendData c d s1 = (Ok tt, s') ∧ pc_ok s' ∧ opened s s' key p id ∧
    content s' key p = Some b' ∧
    received (DataReceived d) (skipping s key) (found s key p) b' (pc_queue s) (pc_queue s').
Proof.
  intros Hs Hop Hq Hc Hk Hloc Hb Hp. unfold AppendData. rewrite Hk.
  destruct (skipping s key).
  - exists s1, (found s key p). split; [done|]. split; [done|]. split; [done|].
    split; [|done]. unfold content. rewrite Hc. simpl. by rewrite Hloc.
  - rewrite Hp, Hloc. step_act.
    destruct (co_own _ _ _ (ok_conn s1 Hs key c Hc) p loc Hloc) as (b & Hb' & _ & Hpl).
    assert (b = found s key p) as -> by congruence.
    destruct (AppendDataEvent_total (fresh (pc_heap s1)) (Upload d) _ Hpl) as (b' & Happ & Hsame).
    pose proof (pc_ok_heap s1 _ Hs (set_fresh_step (pc_heap s1))) as Hs2.
    destruct (write_buffer _ key c p loc _ _ _ _ Hs2 Hc Hloc Hb Happ Hsame)
      as (s' & -> & Hs' & Hc' & Ho & Hcs & Hqs & Hm).
    exists s', b'. split; [done|]. split; [done|]. split; [by eapply opened_write|].
    split; [done|]. split; [by eexists|]. by rewrite Hqs.
Qed.

Lemma Consume_routed now e s :
  pc_ok s → supported e →
  ∃ s', PartitionContext_Consume protocolMgr now e s = (Ok tt, s') ∧ pc_ok s' ∧ routed e s s'.
Proof.
  intros Hs He. destruct e as [d|d]; simpl in *; unfold routed; simpl.
  - destruct (Z.eqb_spec (detail_Protocol d) ConnectionProtocolUnknown) as [Hu|Hu].
    { eexists. split; [done|]. split; [by apply pc_ok_queue|done]. }
    destruct He as [He|He]; [done|].
    destruct (GetConnectionContext_opened now (detail_ConnectionID d) (detail_RandomID d) _
      (detail_DataID0 d) s Hs He) as (c & s1 & loc & Hget & Hs1 & Hop & Hq & Hc & Hk & Hloc & Hb).
    rewrite (bind_ok _ _ _ _ _ Hget).
    destruct (AppendDetail_received s s1 _ c _ loc _ d Hs1 Hop Hq Hc Hk Hloc Hb eq_refl)
      as (s' & b' & Happ & Hs' & Hop' & Hb' & Hr). eauto 10.
  - destruct (GetConnectionContext_opened now (data_ConnectionID d) (data_RandomID d) _
      (DataID0 d) s Hs He) as (c & s1 & loc & Hget & Hs1 & Hop & Hq & Hc & Hk & Hloc & Hb).
    rewrite (bind_ok _ _ _ _ _ Hget).
    destruct (AppendData_received s s1 _ c _ loc _ d Hs1 Hop Hq Hc Hk Hloc Hb eq_refl)
      as (s' & b' & Happ & Hs' & Hop' & Hb' & Hr). eauto 10.
Qed.

(** ** The analysis keeps the invariant and the connections *)

Definition same_conn (c c' : conn) : Prop :=
  part_connectionID c' = part_connectionID c ∧ part_randomID c' = part_randomID c ∧
  dataBuffers c' = dataBuffers c ∧ protocol c' = protocol c.

Definition kept (s s' : ctx) : Prop :=
  pc_ok s → pc_ok s' ∧
  ∀ k c, pc_connections s !! k = Some c → ∃ c', pc_connections s' !! k = Some c' ∧ same_conn c c'.

#[local] Instance same_conn_preorder : PreOrder same_conn.
Proof.
  split; [by intros c|]. intros c1 c2 c3 (?&?&?&?) (?&?&?&?). split; [congruence|].
  split; [congruence|]. split; congruence.
Qed.

#[local] Instance kept_preorder : PreOrder kept.
Proof.
  split; [intros s Hs; split; [done|]; intros k c Hc; exists c; split; [done|reflexivity]|].
  intros s1 s2 s3 H12 H23 H1. destruct (H12 H1) as [H2 G12]. destruct (H23 H2) as [H3 G23].
  split; [done|]. intros k c Hc. destruct (G12 k c Hc) as (c' & Hc' & Hs).
  destruct (G23 k c' Hc') as (c'' & Hc'' & Hs'). exists c''. split; [done|by etrans].
Qed.

Lemma kept_heap s h : heap_step (pc_heap s) h → kept s (set_pc_heap h s).
Proof.
  intros Hh Hs. split; [by apply pc_ok_heap|]. intros k c Hc. exists c. split; [done|reflexivity].
Qed.

Lemma kept_queue s q : kept s (set_pc_queue q s).
Proof.
  intros Hs. split; [by apply pc_ok_queue|]. intros k c Hc. exists c. split; [done|reflexivity].
Qed.

Lemma kept_mgr s m : kept s (set_pc_mgr m s).
Proof.
  intros Hs. split; [by destruct Hs|]. intros k c Hc. exists c. split; [done|reflexivity].
Qed.

Lemma kept_conn s key c c' :
  pc_connections s !! key = Some c → same_conn c c' →
  dom (protocolMetrics c') = dom (protocolMetrics c) → kept s (set_conn key c' s).
Proof.
  intros Hc Hsame Hm Hs. split.
  - destruct (ok_conn s Hs key c Hc) as [Hk HB HM HK HO]. destruct Hsame as (Hi & Hr & Hb & Hp).
    eapply set_conn_same; [done..|]. split; rewrite ?Hi, ?Hr, ?Hb, ?Hp, ?Hm; done.
  - intros k x Hx. simpl. destruct (decide (k = key)) as [->|Hne].
    + exists c'. rewrite lookup_insert_eq. split; [done|congruence].
    + exists x. rewrite lookup_insert_ne by done. split; [done|reflexivity].
Qed.

Context (Hlaw : map_Forall (λ _ p, LawfulProtocol p) protocolMgr).

Lemma kept_analyzeProtocol now key p : respects kept (analyzeProtocol protocolMgr now key p).
Proof.
  intros s. unfold analyzeProtocol, getConn. step_act.
  destruct (pc_connections s !! key) as [c|] eqn:Hc; step_act; [|reflexivity].
  destruct (protocolMgr !! p) as [a|] eqn:Ha; step_act; [|reflexivity].
  destruct (dataBuffers c !! p) as [loc|] eqn:Hloc; step_act; [|reflexivity].
  destruct (protocolMetrics c !! p) as [mt|] eqn:Hmt; step_act; [|reflexivity].
  pose proof (Hlaw p a Ha now loc mt (pc_heap s) (pc_queue s)) as Hstep.
  destruct (proto_Analyze a now loc mt (pc_heap s, pc_queue s)) as [r [h q]]. simpl in Hstep.
  assert (Hk : kept s (set_pc_queue q (set_pc_heap h s))).
  { etrans; [by apply kept_heap|apply kept_queue]. }
  destruct r as [[[e b] mt']|[]|]; step_act; [|exact Hk].
  etrans; [exact Hk|]. eapply kept_conn; [done|done|]. simpl. rewrite dom_insert_L.
  apply elem_of_dom_2 in Hmt. set_solver.
Qed.

Lemma kept_analyzeProtocols now key ps : respects kept (analyzeProtocols protocolMgr now key ps).
Proof.
  pose proof (kept_analyzeProtocol now key). induction ps; simpl; respects_all.
Qed.

Lemma kept_on_buffer {A} loc (m : method A) :
  respects same_buffer m → respects kept (on_pc_buffer loc m : pc_op A).
Proof.
  intros Hm s. unfold on_pc_buffer. destruct (buffers (pc_heap s) !! loc) as [b|] eqn:Hb; [|reflexivity].
  specialize (Hm b). destruct (m b) as [r b']. by eapply kept_heap, heap_step_update.
Qed.

Lemma kept_flushBuffers locs : respects kept (flushBuffers locs).
Proof.
  induction locs as [|loc locs IH]; simpl; [respects_all|].
  apply respects_bind; [apply _| |done]. unfold flushBuffer.
  apply respects_bind; [apply _|respects_all|intros s].
  destruct (BuildDetails loc (pc_heap s)) as [[]]; [|respects_all..].
  apply respects_bind; [apply _| |intros _; apply kept_on_buffer, respects_Clean].
  apply respects_modify. intros s'. apply kept_queue.
Qed.

Lemma kept_on_mgr (m : act Mgr Empty_set unit) : respects kept (on_pc_mgr m).
Proof.
  intros s. unfold on_pc_mgr. destruct (m (pc_mgr s)) as [[|[]|]]; apply kept_mgr.
Qed.

Lemma kept_getConn {A} key (f : conn → pc_op A) s :
  (∀ c, pc_connections s !! key = Some c → kept s (snd (f c s))) →
  kept s (snd ((getConn key ≫= f) s)).
Proof.
  intros Hf. unfold getConn. step_act.
  destruct (pc_connections s !! key) as [c|]; step_act; [by apply Hf|reflexivity].
Qed.

Lemma kept_processConnectionEvents now key : respects kept (processConnectionEvents protocolMgr now key).
Proof.
  intros s. apply kept_getConn. intros c Hc.
  destruct (skipAllDataAnalyze c); [reflexivity|].
  apply (respects_bind kept); [apply kept_analyzeProtocols|]. intros b.
  destruct b; simpl; [|by apply respects_ret, _].
  intros s'. apply kept_getConn. intros c' Hc'.
  etrans; [eapply (kept_conn s' key c' (set_skipAll c')); [done|by split_and!|done]|].
  exact (respects_bind kept _ _ (kept_on_mgr _) (λ _, kept_flushBuffers _) _).
Qed.

Lemma checkClose_same now active c :
  let c' := checkTheConnectionIsAlreadyClose now active c in
  same_conn c c' ∧ protocolMetrics c' = protocolMetrics c.
Proof. unfold checkTheConnectionIsAlreadyClose. repeat case_match; done. Qed.

Lemma kept_processConnection now key : respects kept (processConnection protocolMgr now key).
Proof.
  unfold processConnection.
  apply respects_bind; [apply _|apply kept_processConnectionEvents|intros _ s].
  apply kept_getConn. intros c Hc. step_act.
  destruct (buffered (pc_heap s) c) as [n|]; step_act; [|reflexivity].
  destruct (0 <? n); step_act; [reflexivity|].
  destruct (part_closed c); [by eapply kept_conn|].
  destruct (checkClose_same now (activeConnectionMap (pc_mgr s)) c) as [Hs Hm].
  eapply kept_conn; [done..|by rewrite Hm].
Qed.

Lemma kept_processConnections now keys : respects kept (processConnections protocolMgr now keys).
Proof.
  pose proof (kept_processConnection now). induction keys; simpl; respects_all.
Qed.

Lemma pc_ok_removed keys s : pc_ok s → pc_ok (remove_conns keys s).
Proof.
  revert s. induction keys as [|key keys IH]; intros s Hs; [by destruct s|].
  set (s1 := MkPartitionContext (delete key (pc_connections s)) (pc_heap s) (pc_queue s) (pc_mgr s)).
  change (pc_ok (remove_conns keys s1)). apply IH. destruct Hs as [Hh Hc Hi].
  split; [done|by apply map_Forall_delete|].
  assert (Hsub : ∀ k p loc, has_buffer s1 k p loc → has_buffer s k p loc).
  { intros k p loc (c & Hk & Hp). exists c. simpl in Hk. apply lookup_delete_Some in Hk as [_ Hk]. done. }
  eauto.
Qed.

Lemma pc_ok_ProcessEvents now locked s : pc_ok s → pc_ok (snd (ProcessEvents protocolMgr now locked s)).
Proof.
  intros Hs. unfold ProcessEvents. destruct locked; [done|]. step_act.
  pose proof (kept_processConnections now (range (pc_connections s)).*1 s Hs) as [Hk _].
  unfold mbind, act_bind. destruct (processConnections _ _ _ _) as [[]]; simpl in *; [|done..].
  by apply pc_ok_removed.
Qed.

Lemma same_buffer_expire now d b : same_buffer b (snd (DeleteExpireEvents bootTime now d b)).
Proof.
  unfold DeleteExpireEvents. repeat case_match. by apply same_buffer_current.
Qed.

Lemma heap_step_expire now (c : conn) h : heap_step h (processConnectionExpireEvents bootTime now c h).
Proof.
  unfold processConnectionExpireEvents. generalize ((range (dataBuffers c)).*2). intros locs.
  revert h. induction locs as [|loc locs IH]; intros h; simpl; [reflexivity|].
  etrans; [|apply IH]. destruct (buffers h !! loc) as [b|] eqn:Hb; [|reflexivity].
  eapply heap_step_update; [done|apply same_buffer_expire].
Qed.

Lemma pc_ok_ProcessExpireEvents now s : pc_ok s → pc_ok (ProcessExpireEvents bootTime now s).
Proof.
  intros Hs. apply pc_ok_heap; [done|]. generalize (range (pc_connections s)). intros l.
  generalize (pc_heap s). induction l as [|x l IH]; intros h; simpl; [reflexivity|].
  etrans; [apply heap_step_expire|apply IH].
Qed.

Lemma reachable_ok s : pc_reachable s → pc_ok s.
Proof.
  induction 1 as [q m|now e s s' _ IH He Hr|now locked s s' _ IH Hr|now s _ IH|q m s _ IH].
  - split; simpl; [|apply map_Forall_empty|].
    + intros loc [x Hx]. by simpl in Hx; rewrite lookup_empty in Hx.
    + intros k p k' p' loc (c & Hc & _). by simpl in Hc; rewrite lookup_empty in Hc.
  - destruct (Consume_routed now e s IH He) as (s1 & Hr' & Hok & _). congruence.
  - pose proof (pc_ok_ProcessEvents now locked s IH) as Hok. by rewrite Hr in Hok.
  - by apply pc_ok_ProcessExpireEvents.
  - by apply pc_ok_rest.
Qed.

(** ** The break of a protocol *)

Lemma send_one_detail d q :
  let q' := snd (SendTransferNoProtocolEvent d q) in
  kernelLogs q' = snd (chan_send (capacity q) (transfer_log d) (kernelLogs q)) ∧
  protocolLogs q' = protocolLogs q ∧ maxFlushCount q' = maxFlushCount q.
Proof.
  unfold SendTransferNoProtocolEvent, AppendKernelLog, transfer_log. by destruct (chan_send _ _ _).
Qed.

Definition send_details (ds : list SocketDetailEvent) (q : Queue) : Queue :=
  foldl (λ q d, snd (SendTransferNoProtocolEvent d q)) q ds.

Lemma send_details_spec ds q :
  kernelLogs (send_details ds q) = offer (capacity q) (transfer_log <$> ds) (kernelLogs q) ∧
  protocolLogs (send_details ds q) = protocolLogs q ∧
  maxFlushCount (send_details ds q) = maxFlushCount q.
Proof.
  unfold send_details. revert q. induction ds as [|d ds IH]; intros q; [done|].
  cbn [foldl fmap list_fmap]. destruct (send_one_detail d q) as (Hk & Hp & Hm).
  destruct (IH (snd (SendTransferNoProtocolEvent d q))) as (Hk' & Hp' & Hm').
  rewrite Hk', Hp', Hm', Hk, Hp, Hm. unfold capacity. by rewrite Hm.
Qed.

Lemma BuildDetails_own loc b h :
  buffers h !! loc = Some b → originalBuffer b = None → BuildDetails loc h = (Ok (detailEvents b), h).
Proof. intros Hb Ho. unfold BuildDetails, deref. step_act. rewrite Hb. step_act. by rewrite Ho. Qed.

(** A buffer after [Clean]. *)
Definition emptied (h : heap) (loc : positive) : Prop :=
  ∃ b, buffers h !! loc = Some b ∧ dataEvents b = [] ∧ detailEvents b = [].

Lemma held_ext h h' locs :
  (∀ loc, loc ∈ locs → buffers h' !! loc = buffers h !! loc) → held h' locs = held h locs.
Proof.
  intros Hext. unfold held. f_equal. apply map_ext_in. intros loc Hloc.
  rewrite Hext; [done|]. by apply list_elem_of_In.
Qed.

Lemma flushBuffer_own loc (s : ctx) :
  own_buffer (pc_heap s) loc →
  ∃ s', flushBuffer loc s = (Ok tt, s') ∧ emptied (pc_heap s') loc ∧
    pc_queue s' = send_details (held (pc_heap s) [loc]) (pc_queue s) ∧
    pc_connections s' = pc_connections s ∧ pc_mgr s' = pc_mgr s ∧
    ∀ l, l ≠ loc → buffers (pc_heap s') !! l = buffers (pc_heap s) !! l.
Proof.
  intros (b & Hb & Ho & _). unfold flushBuffer. step_act.
  rewrite (BuildDetails_own loc b _ Hb Ho). step_act. unfold on_pc_buffer. simpl. rewrite Hb.
  eexists. split; [done|]. split; [eexists; split; [apply lookup_insert_eq|done]|]. simpl.
  split; [unfold held; simpl; rewrite Hb; by rewrite app_nil_r|]. split; [done|]. split; [done|].
  intros l Hl. by rewrite lookup_insert_ne.
Qed.

Lemma flushBuffers_own locs (s : ctx) :
  NoDup locs → (∀ loc, loc ∈ locs → own_buffer (pc_heap s) loc) →
  ∃ s', flushBuffers locs s = (Ok tt, s') ∧ (∀ loc, loc ∈ locs → emptied (pc_heap s') loc) ∧
    pc_queue s' = send_details (held (pc_heap s) locs) (pc_queue s) ∧
    pc_connections s' = pc_connections s ∧ pc_mgr s' = pc_mgr s ∧
    ∀ l, l ∉ locs → buffers (pc_heap s') !! l = buffers (pc_heap s) !! l.
Proof.
  revert s. induction locs as [|loc locs IH]; intros s Hnd Hown.
  { exists s. split; [done|]. split; [by intros ? ?%elem_of_nil|]. by split_and!. }
  apply NoDup_cons in Hnd as [Hloc Hnd].
  destruct (flushBuffer_own loc s) as (s1 & Hf & He & Hq & Hc & Hm & Hk); [apply Hown; set_solver|].
  assert (Hkeep : ∀ l, l ∈ locs → buffers (pc_heap s1) !! l = buffers (pc_heap s) !! l).
  { intros l Hl. apply Hk. by intros ->. }
  destruct (IH s1 Hnd) as (s2 & Hf2 & He2 & Hq2 & Hc2 & Hm2 & Hk2).
  { intros l Hl. destruct (Hown l) as (b & Hb & Hb'); [set_solver|]. exists b. by rewrite Hkeep. }
  exists s2. simpl. rewrite (bind_ok _ _ _ _ _ Hf). split; [done|]. split.
  { intros l [->|Hl]%elem_of_cons; [|by apply He2].
    destruct He as (b & Hb & Hb'). exists b. by rewrite Hk2. }
  rewrite Hq2, (held_ext _ _ _ Hkeep), Hq. split; [|split; [congruence|split; [congruence|]]].
  - unfold send_details, held. simpl. by rewrite app_nil_r, foldl_app.
  - intros l Hl. rewrite Hk2, Hk; set_solver.
Qed.

Lemma buffers_distinct s key c :
  pc_ok s → pc_connections s !! key = Some c → NoDup (range (dataBuffers c)).*2.
Proof.
  intros Hs Hc. rewrite (range_perm (dataBuffers c)).
  apply NoDup_fmap_2_strong; [|apply NoDup_map_to_list].
  intros [p loc] [p' loc'] Hp%elem_of_map_to_list Hp'%elem_of_map_to_list. simpl. intros <-.
  destruct (ok_inj s Hs key p key p' loc) as [_ ->]; [by exists c..|done].
Qed.

Lemma in_buffers (c : conn) loc : loc ∈ (range (dataBuffers c)).*2 ↔ ∃ p, dataBuffers c !! p = Some loc.
Proof.
  rewrite (range_perm (dataBuffers c)), list_elem_of_fmap. split.
  - intros ([p l] & -> & Hp%elem_of_map_to_list). by exists p.
  - intros [p Hp%elem_of_map_to_list]. by exists (p, loc).
Qed.

Lemma analyze_same_mgr now key ps (s : ctx) :
  pc_mgr (snd (analyzeProtocols protocolMgr now key ps s)) = pc_mgr s.
Proof.
  set (R := λ s s' : ctx, pc_mgr s' = pc_mgr s).
  assert (PreOrder R) by (split; [by intros ?|intros ??? H1 H2; by unfold R in *; congruence]).
  assert (Hp : ∀ p, respects R (analyzeProtocol protocolMgr now key p)).
  { intros p s'. unfold analyzeProtocol, getConn, R. step_act. by explore. }
  cut (respects R (analyzeProtocols protocolMgr now key ps)); [by intros Hr; apply Hr|].
  induction ps; simpl; respects_all.
Qed.

(** The part behind the analysis, with the connection and the manager it starts from. *)
Lemma break_runs now key (s s1 : ctx) c c1 m1 :
  pc_connections s !! key = Some c → skipAllDataAnalyze c = false →
  analyzeProtocols protocolMgr now key (sortedProtocols c) s = (Ok true, s1) →
  pc_connections s1 !! key = Some c1 → same_conn c c1 →
  SkipAllDataAnalyzeAndDowngradeProtocol now (part_connectionID c) (part_randomID c) (pc_mgr s1)
    = (Ok tt, m1) →
  processConnectionEvents protocolMgr now key s =
  flushBuffers (range (dataBuffers c)).*2 (set_pc_mgr m1 (set_conn key (set_skipAll c1) s1)).
Proof.
  intros Hc Hskip Hrun Hc1 (Hid & Hrid & Hbufs & _) Hm1.
  unfold processConnectionEvents, getConn. step_act. rewrite Hc. step_act. rewrite Hskip.
  rewrite (bind_ok _ _ _ _ _ Hrun). simpl. step_act. rewrite Hc1. step_act.
  rewrite Hid, Hrid, Hbufs. unfold mbind, act_bind, on_pc_mgr. simpl. by rewrite Hm1.
Qed.

(** The buffers of a connection are not those of another. *)
Lemma other_buffers s key c k p h :
  pc_ok s → pc_connections s !! key = Some c → k ≠ key →
  (∀ l, l ∉ (range (dataBuffers c)).*2 → buffers h !! l = buffers (pc_heap s) !! l) →
  content (set_pc_heap h s) k p = content s k p.
Proof.
  intros Hs Hc Hne Hk. rewrite content_heap. unfold content.
  destruct (pc_connections s !! k) as [c'|] eqn:Hc'; [|done]. simpl.
  destruct (dataBuffers c' !! p) as [loc|] eqn:Hloc; [|done]. simpl. apply Hk.
  intros [p' Hp']%in_buffers. destruct Hne.
  by destruct (ok_inj s Hs k p key p' loc) as [-> _]; [exists c'|exists c|].
Qed.

(** C13: a partition routes what it receives.  In every state a partition reaches, an event
    whose protocol is supported is taken without a panic: a detail of an unknown protocol,
    or of a connection whose analysis was given up, becomes a kernel log; any other detail
    and the data are put into the buffer of their connection and protocol, which is opened
    by the first event; the minimal data id of the protocol is kept, and no other buffer
    changes. *)
Theorem received_events_routed now e (s : ctx) :
  pc_reachable s → supported e →
  ∃ s', PartitionContext_Consume protocolMgr now e s = (Ok tt, s') ∧ routed e s s'.
Proof.
  intros Hs He. destruct (Consume_routed now e s (reachable_ok s Hs) He) as (s' & Hr & _ & H'). eauto.
Qed.

(** A protocol break loses no detail.  When the analysis of a connection breaks, every
    detail that still waits in a buffer of the connection is offered to the kernel logs,
    which keep it or count it as dropped; the buffers are empty, the connection manager
    has the connection downgraded, later details bypass the analysis, and the buffers of
    the other connections are as the analysis left them. *)
Theorem protocol_break_flushes now key (s s1 : ctx) c :
  pc_reachable s → manager_inv (pc_mgr s) →
  pc_connections s !! key = Some c → skipAllDataAnalyze c = false →
  analyzeProtocols protocolMgr now key (sortedProtocols c) s = (Ok true, s1) →
  ∃ s2, processConnectionEvents protocolMgr now key s = (Ok tt, s2) ∧
    kernelLogs (pc_queue s2) =
      offer (capacity (pc_queue s1))
        (transfer_log <$> held (pc_heap s1) (range (dataBuffers c)).*2) (kernelLogs (pc_queue s1)) ∧
    protocolLogs (pc_queue s2) = protocolLogs (pc_queue s1) ∧
    (∀ p b, content s2 key p = Some b → dataEvents b = [] ∧ detailEvents b = []) ∧
    SkipAllDataAnalyzeAndDowngradeProtocol now (part_connectionID c) (part_randomID c) (pc_mgr s)
      = (Ok tt, pc_mgr s2) ∧
    skipping s2 key = true ∧
    (∀ k p, k ≠ key → content s2 k p = content s1 k p).
Proof.
  intros Hreach Hinv Hc Hskip Hrun. pose proof (reachable_ok s Hreach) as Hs.
  destruct (kept_analyzeProtocols now key (sortedProtocols c) s Hs) as [Hs1 Hkept].
  pose proof (analyze_same_mgr now key (sortedProtocols c) s) as Hmgr.
  rewrite Hrun in Hs1, Hkept, Hmgr. simpl in Hs1, Hkept, Hmgr.
  destruct (Hkept key c Hc) as (c1 & Hc1 & Hsame).
  pose proof (Skip_quiet now (part_connectionID c) (part_randomID c) _ Hinv) as Hq.
  apply wp_run in Hq as ([] & m1 & Hskipped & _).
  rewrite <- Hmgr in Hskipped. pose proof (break_runs now key s s1 c c1 m1 Hc Hskip Hrun Hc1 Hsame Hskipped) as Hruns.
  destruct Hsame as (_ & _ & Hbufs & _). rewrite <- Hbufs in *.
  destruct (flushBuffers_own (range (dataBuffers c1)).*2 (set_pc_mgr m1 (set_conn key (set_skipAll c1) s1)))
    as (s2 & Hf & He & Hqueue & Hconns & Hm & Hk).
  { by eapply buffers_distinct. }
  { intros loc [p Hp]%in_buffers. exact (co_own _ _ _ (ok_conn s1 Hs1 key c1 Hc1) p loc Hp). }
  exists s2. rewrite Hruns, Hf, Hqueue, Hm, <- Hmgr. simpl in *.
  destruct (send_details_spec (held (pc_heap s1) (range (dataBuffers c1)).*2) (pc_queue s1))
    as (-> & -> & _). split_and!; [done..| |done| |].
  - intros p b. unfold content. rewrite Hconns, lookup_insert_eq. simpl.
    destruct (dataBuffers c1 !! p) as [loc|] eqn:Hloc; [|done]. simpl. intros Hb.
    destruct (He loc) as (b' & Hb' & Hempty); [apply in_buffers; by exists p|]. by simplify_eq.
  - unfold skipping. by rewrite Hconns, lookup_insert_eq.
  - intros k p Hne. rewrite <- (other_buffers s1 key c1 k p (pc_heap s2) Hs1 Hc1 Hne Hk).
    unfold content. simpl. by rewrite Hconns, lookup_insert_ne.
Qed.
End laws.

(** ** A concrete partition

    One connection with HTTP/2 data, of the sample frames and decoder of Http2.v. *)

Module PartitionSample.
Definition protocols : gmap Z (ProtocolOps (gmap Z HTTP2Streaming * unit)) :=
  NewProtocolManager [(2, http2_ops Http2Sample.DecodeFull Http2Sample.frame_header 0 tt)].

Notation ctx := (@PartitionContext (gmap Z HTTP2Streaming * unit) (bpf_room Z Z)
  (expiring Z ProcessVerdict) (shared_map positive) (bpf_room Z ActiveConnection)
  (expiring string bool) unit).

Definition start : ctx :=
  MkPartitionContext ∅ (MkHeap ∅ 1) (MkQueue (MkLogChan [] 0) (MkLogChan [] 0) 100)
    (Sample.mgr (Sample.conn None)).

Definition data (dataID : Z) (bytes : list Z) : PartitionEvent :=
  DataReceived (event_of (Http2Sample.chunk_of dataID bytes)).
Definition detail (dataID : Z) : PartitionEvent := DetailReceived (Http2Sample.detail dataID).

Definition consume (e : PartitionEvent) (s : ctx) : ctx :=
  snd (PartitionContext_Consume protocols 0 e s).

(** A connection with a frame of a stream that was never opened, and its detail. *)
Definition opened_state : ctx := consume (data 1 (Http2Sample.body 1)) start.
Definition broken_state : ctx := consume (detail 1) opened_state.

Lemma lawful : map_Forall (λ _ p, LawfulProtocol p) protocols.
Proof. apply map_Forall_insert_2; [apply _|apply map_Forall_empty]. Qed.

Lemma data_supported : supported protocols (data 1 (Http2Sample.body 1)).
Proof. set_solver. Qed.
Lemma detail_supported : supported protocols (detail 1).
Proof. right. set_solver. Qed.

Lemma opened_reachable : pc_reachable (H := keys_order) protocols 0 opened_state.
Proof.
  eapply (reach_consume _ _ 0 (data 1 (Http2Sample.body 1)) start); [apply reach_new|apply data_supported|].
  vm_compute. reflexivity.
Qed.

Lemma broken_reachable : pc_reachable (H := keys_order) protocols 0 broken_state.
Proof.
  eapply (reach_consume _ _ 0 (detail 1) opened_state); [apply opened_reachable|apply detail_supported|].
  vm_compute. reflexivity.
Qed.

Definition logged (s : ctx) : list Event := log_event <$> waiting (kernelLogs (pc_queue s)).

(** The analysis of the connection, and what it leaves. *)
Definition key : string := buildConnectionKey 9 5.
Definition broken_conn : PartitionConnection (gmap Z HTTP2Streaming * unit) :=
  default (MkPartitionConnection 0 0 ∅ ∅ ∅ false false 0) (pc_connections broken_state !! key).
Definition analyzed : ctx :=
  snd (analyzeProtocols protocols 0 key (sortedProtocols (H := keys_order) broken_conn) broken_state).
End PartitionSample.

Lemma received_events_routed_witness :
  ∃ s', PartitionContext_Consume PartitionSample.protocols 0 (PartitionSample.detail 1)
          PartitionSample.opened_state = (Ok tt, s') ∧
    routed (PartitionSample.detail 1) PartitionSample.opened_state s'.
Proof.
  exact (received_events_routed (H := keys_order) PartitionSample.protocols 0 PartitionSample.lawful 0
    (PartitionSample.detail 1) PartitionSample.opened_state PartitionSample.opened_reachable
    PartitionSample.detail_supported).
Defined.

Lemma protocol_break_flushes_witness :
  ∃ s2, processConnectionEvents (H := keys_order) PartitionSample.protocols 0 PartitionSample.key
          PartitionSample.broken_state = (Ok tt, s2) ∧
    PartitionSample.logged s2 = [DetailEvent (Http2Sample.detail 1)] ∧
    skipping s2 PartitionSample.key = true.
Proof.
  destruct (protocol_break_flushes (H := keys_order) PartitionSample.protocols 0 PartitionSample.lawful 0
    PartitionSample.key PartitionSample.broken_state PartitionSample.analyzed PartitionSample.broken_conn)
    as (s2 & Hrun & Hk & _ & _ & _ & Hs & _).
  - exact PartitionSample.broken_reachable.
  - exact (Sample.mgr_inv None).
  - vm_compute. reflexivity.
  - vm_compute. reflexivity.
  - vm_compute. reflexivity.
  - exists s2. split; [exact Hrun|]. split; [|exact Hs]. unfold PartitionSample.logged. rewrite Hk.
    vm_compute. reflexivity.
Defined.

(** The details of a closed connection that has no data are removed with it: no log has
    them. *)
Example closed_connection_details_lost :
  let s := PartitionSample.consume (PartitionSample.detail 1) PartitionSample.start in
  let r := ProcessEvents (H := keys_order) PartitionSample.protocols (31 * second) false s in
  fst r = Ok tt ∧ pc_connections (snd r) = ∅ ∧ PartitionSample.logged (snd r) = [].
Proof. vm_compute. done. Qed.
