(* ===== verification/GoHttp.v ===== *)
(** * The parts of Go's [bufio], [net/textproto], [net/http] and [net/url] the HTTP/1 reader
    uses

    A [bufio.Reader] of the default size over a socket data buffer of Buffer.v, the lines
    and header blocks [textproto.Reader] reads from it, the version and the URL of a request
    line, header maps, and [strconv.ParseInt].

    A [bufio.Reader] is its unread bytes and the error it has not reported yet; where they
    lie in its array does not matter, since [fill] moves them to the front.  The authority
    of an absolute URL is split and checked by [parseAuthority], a parameter; the request
    lines of servers have none.  The limits of memory of a header block are not modelled
    (they are [math.MaxInt64]). *)

From stdpp Require Import base gmap list strings.
From Stdlib Require Import ZArith Lia Ascii.
From S2P Require Import Prelude GoStrings AccessLogTail Events Buffer.

Inductive go_error : Type :=
| ErrIO (e : read_error)
| ErrUnexpectedEOF
| ErrNoProgress
(** An error of a parser, with its text left out. *)
| ErrFormat.

(** ** [bufio] *)

Notation defaultBufSize := 4096 (only parsing).
Notation maxConsecutiveEmptyReads := 100%nat (only parsing).

(** The heap with the buffer that is read, the unread bytes and the pending error. *)
Record rd : Type := MkRd {
  rd_heap : heap;
  b_buf : list Z;
  b_err : option go_error
}.
Notation rd_op A := (act rd go_error A).

Definition set_rd_heap (h : heap) (s : rd) : rd := MkRd h (b_buf s) (b_err s).
Definition set_b_buf (l : list Z) (s : rd) : rd := MkRd (rd_heap s) l (b_err s).
Definition set_b_err (e : option go_error) (s : rd) : rd := MkRd (rd_heap s) (b_buf s) e.

(** The error of an operation as a value; running out of fuel is none of the program. *)
Definition catch {A} (m : rd_op A) : rd_op (go_error + A) := λ s,
  match m s with
  | (Ok a, s') => (Ok (inr a), s')
  | (Err (ErrIO OutOfFuel), s') => (Err (ErrIO OutOfFuel), s')
  | (Err e, s') => (Ok (inl e), s')
  | (Panic, s') => (Panic, s')
  end.

(** An operation of the heap. *)
Definition rd_on_heap {A} (m : heap_op A) : rd_op A := λ s,
  let '(r, h) := m (rd_heap s) in
  (match r with Ok a => Ok a | Err e => Err (ErrIO e) | Panic => Panic end, set_rd_heap h s).

(** A method of the buffer at [loc]. *)
Definition rd_on_buffer {A} (loc : positive) (m : method A) : rd_op A := λ s,
  match buffers (rd_heap s) !! loc with
  | None => (Panic, s)
  | Some b =>
    let '(r, b') := m b in
    (match r with Ok a => Ok a | Err e => Err (ErrIO e) | Panic => Panic end,
     set_rd_heap (MkHeap (<[loc := b']> (buffers (rd_heap s))) (fresh (rd_heap s))) s)
  end.

(** The result of [ReadSlice] beside its bytes. *)
Inductive slice_end : Type := Delimited | BufferFull | Failed (e : go_error).

Section bufio.
Context (buf : positive).

Definition Buffered (s : rd) : Z := Z.of_nat (length (b_buf s)).

(** [readErr]: the pending error, which is then reported. *)
Definition readErr : rd_op (option go_error) :=
  s ← get; put (set_b_err None s);; mret (b_err s).

Fixpoint fill_loop (n : nat) : rd_op unit :=
  match n with
  | O => modify (set_b_err (Some ErrNoProgress))
  | S n =>
    s ← get;
    r ← catch (rd_on_buffer buf (Read (defaultBufSize - Buffered s)));
    match r with
    | inl e => modify (set_b_err (Some e))
    | inr [] => fill_loop n
    | inr bytes => modify (λ s, set_b_buf (b_buf s ++ bytes) s)
    end
  end.

Definition fill : rd_op unit :=
  s ← get;
  if defaultBufSize <=? Buffered s then lift Panic else fill_loop maxConsecutiveEmptyReads.

(** The bytes up to the first newline, with it, and those behind it. *)
Fixpoint cut_line (l : list Z) : option (list Z * list Z) :=
  match l with
  | [] => None
  | c :: l' =>
    if c =? 10 then Some ([c], l')
    else '(line, rest) ← cut_line l'; Some (c :: line, rest)
  end.

(** [ReadSlice('\n')]: every [fill] adds a byte or an error, and the array has
    [defaultBufSize] bytes. *)
Fixpoint read_slice (fuel : nat) : rd_op (list Z * slice_end) :=
  match fuel with
  | O => raise (ErrIO OutOfFuel)
  | S fuel =>
    s ← get;
    match cut_line (b_buf s) with
    | Some (line, rest) => put (set_b_buf rest s);; mret (line, Delimited)
    | None =>
      match b_err s with
      | Some e => put (MkRd (rd_heap s) [] None);; mret (b_buf s, Failed e)
      | None =>
        if defaultBufSize <=? Buffered s then put (set_b_buf [] s);; mret (b_buf s, BufferFull)
        else fill;; read_slice fuel
      end
    end
  end.

Definition ReadSlice : rd_op (list Z * slice_end) := read_slice (Z.to_nat (defaultBufSize + 2)).

(** Drop a final newline and the return before it. *)
Definition strip_newline (line : list Z) : list Z :=
  match reverse line with
  | 10 :: 13 :: l => reverse l
  | 10 :: l => reverse l
  | _ => line
  end.

(** The line and whether it goes on. *)
Definition ReadLine : rd_op (list Z * bool) :=
  '(line, e) ← ReadSlice;
  match e with
  | BufferFull =>
    match reverse line with
    | 13 :: l => modify (λ s, set_b_buf (13 :: b_buf s) s);; mret (reverse l, true)
    | _ => mret (line, true)
    end
  | Delimited => mret (strip_newline line, false)
  | Failed e => if decide (line = []) then raise e else mret (strip_newline line, false)
  end.

Definition ReadByte : rd_op Z :=
  s ← get;
  (match b_buf s, b_err s with
   | [], None => fill
   | _, _ => mret tt
   end);;
  s ← get;
  match b_buf s with
  | c :: l => put (set_b_buf l s);; mret c
  | [] =>
    e ← readErr;
    raise (default ErrNoProgress e)
  end.

Definition UnreadByte (c : Z) : rd_op unit := modify (λ s, set_b_buf (c :: b_buf s) s).

(** [Peek(1)]: the next byte, if there is one. *)
Definition Peek1 : rd_op (option Z) :=
  s ← get;
  (match b_buf s, b_err s with
   | [], None => fill
   | _, _ => mret tt
   end);;
  s ← get;
  match b_buf s with
  | c :: _ => mret (Some c)
  | [] => readErr;; mret None
  end.

(** [Read] into an array of [plen] bytes. *)
Definition bufio_Read (plen : Z) : rd_op (list Z) :=
  s ← get;
  if plen =? 0 then
    if 0 <? Buffered s then mret []
    else e ← readErr; match e with Some e => raise e | None => mret [] end
  else
    match b_buf s with
    | _ :: _ =>
      put (set_b_buf (drop (Z.to_nat plen) (b_buf s)) s);; mret (take (Z.to_nat plen) (b_buf s))
    | [] =>
      match b_err s with
      | Some e => readErr;; raise e
      | None =>
        if defaultBufSize <=? plen then rd_on_buffer buf (Read plen)
        else
          bytes ← rd_on_buffer buf (Read defaultBufSize);
          modify (set_b_buf (drop (Z.to_nat plen) bytes));;
          mret (take (Z.to_nat plen) bytes)
      end
    end.

(** [io.ReadFull]: the bytes that were read, and the error when they are fewer than [plen].
    An empty read is possible at an empty chunk only, so the chunks and the bytes bound the
    rounds. *)
Fixpoint read_full (fuel : nat) (got : list Z) (plen : Z) : rd_op (list Z * option go_error) :=
  if decide (plen ≤ Z.of_nat (length got)) then mret (got, None)
  else
    match fuel with
    | O => raise (ErrIO OutOfFuel)
    | S fuel =>
      r ← catch (bufio_Read (plen - Z.of_nat (length got)));
      match r with
      | inr bytes => read_full fuel (got ++ bytes) plen
      | inl (ErrIO EOF) => mret (got, Some (if decide (got = []) then ErrIO EOF else ErrUnexpectedEOF))
      | inl e => mret (got, Some e)
      end
    end.

(** What the rounds of the loops are bounded by: the bytes and chunks of the buffer. *)
Definition rd_fuel (s : rd) : nat :=
  match buffers (rd_heap s) !! buf with
  | Some b => length (dataEvents b) + length (dataEvents b ≫= λ e, bytes (evalue e)) + length (b_buf s) + 2
  | None => 2
  end.

Definition io_ReadFull (plen : Z) : rd_op (list Z * option go_error) :=
  s ← get; read_full (rd_fuel s) [] plen.

(** ** [net/textproto] *)

Fixpoint read_line_slice (fuel : nat) (line : list Z) : rd_op (list Z) :=
  match fuel with
  | O => raise (ErrIO OutOfFuel)
  | S fuel =>
    '(l, more) ← ReadLine;
    if more : bool then read_line_slice fuel (line ++ l) else mret (line ++ l)
  end.

Definition readLineSlice : rd_op (list Z) := s ← get; read_line_slice (rd_fuel s) [].

Definition textproto_ReadLine : rd_op string := line ← readLineSlice; mret (string_of_bytes line).

Definition is_blank (c : Z) : bool := (c =? 32) || (c =? 9).

Fixpoint trim_front (l : list Z) : list Z :=
  match l with
  | [] => []
  | c :: l' => if is_blank c then trim_front l' else l
  end.

Definition trim (l : list Z) : list Z := reverse (trim_front (reverse (trim_front l))).

(** Whether spaces or tabs were skipped. *)
Fixpoint skip_space (fuel : nat) (skipped : bool) : rd_op bool :=
  match fuel with
  | O => raise (ErrIO OutOfFuel)
  | S fuel =>
    r ← catch ReadByte;
    match r with
    | inl _ => mret skipped
    | inr c => if is_blank c then skip_space fuel true else UnreadByte c;; mret skipped
    end
  end.

Definition skipSpace : rd_op bool := s ← get; skip_space (rd_fuel s) false.

Definition isASCIILetter (b : Z) : bool :=
  ((65 <=? b) && (b <=? 90)) || ((97 <=? b) && (b <=? 122)).

(** The next two bytes show that the line is not continued. *)
Definition not_continued (l : list Z) : bool :=
  match l with
  | c :: d :: _ => isASCIILetter c || (c =? 10) || ((c =? 13) && (d =? 10))
  | _ => false
  end.

Fixpoint continued_lines (fuel : nat) (line : list Z) : rd_op (list Z) :=
  match fuel with
  | O => raise (ErrIO OutOfFuel)
  | S fuel =>
    skipped ← skipSpace;
    if skipped : bool then
      r ← catch readLineSlice;
      match r with
      | inl _ => mret (line ++ [32])
      | inr l => continued_lines fuel (line ++ 32 :: trim l)
      end
    else mret line
  end.

(** [readContinuedLineSlice] with [mustHaveFieldNameColon]. *)
Definition readContinuedLineSlice : rd_op (list Z) :=
  line ← readLineSlice;
  if decide (line = []) then mret []
  else if decide (58 ∈ line) then
    s ← get;
    if not_continued (b_buf s) then mret (trim line)
    else continued_lines (rd_fuel s) (trim line)
  else raise ErrFormat.
End bufio.

(** *** Header maps *)

(** The bytes of a token, and of a field value. *)
Definition validHeaderFieldByte (c : ascii) : bool :=
  let n := code c in
  isASCIILetter n || ((48 <=? n) && (n <=? 57)) ||
  bool_decide (c ∈ ["!"; "#"; "$"; "%"; "&"; "'"; "*"; "+"; "-"; "."; "^"; "_"; "`"; "|"; "~"]%char).

Definition validHeaderValueByte (c : ascii) : bool :=
  let n := code c in (n =? 9) || ((32 <=? n) && negb (n =? 127)).

Definition upper_ascii (c : ascii) : ascii :=
  let n := nat_of_ascii c in
  if (97 <=? n)%nat && (n <=? 122)%nat then ascii_of_nat (n - 32) else c.

Fixpoint canonical (upper : bool) (s : string) : string :=
  match s with
  | EmptyString => EmptyString
  | String c s' =>
    String (if upper then upper_ascii c else lower_ascii c) (canonical (bool_decide (c = "-"%char)) s')
  end.

(** A key with spaces is accepted and left as it is. *)
Definition canonicalMIMEHeaderKey (a : string) : option string :=
  match a with
  | EmptyString => None
  | _ =>
    if all_chars (λ c, validHeaderFieldByte c || bool_decide (c = " "%char)) a then
      Some (if all_chars validHeaderFieldByte a then canonical true a else a)
    else None
  end.

Definition CanonicalMIMEHeaderKey (s : string) : string :=
  if all_chars validHeaderFieldByte s then canonical true s else s.

Notation Header := (gmap string (list string)).

Definition header_Get (h : Header) (key : string) : string :=
  default "" (h !! CanonicalMIMEHeaderKey key ≫= list.head).

Definition header_Add (key value : string) (h : Header) : Header :=
  <[key := default [] (h !! key) ++ [value]]> h.

(** One field of a header block. *)
Definition header_field (kv : string) (h : Header) : option Header :=
  let '(k, v, ok) := Cut kv ":" in
  if ok : bool then
    key ← canonicalMIMEHeaderKey k;
    if all_chars validHeaderValueByte v
    then Some (header_Add key (trim_left (λ c, is_blank (code c)) v) h) else None
  else None.

Section header.
Context (buf : positive).

Fixpoint header_loop (fuel : nat) (m : Header) : rd_op Header :=
  match fuel with
  | O => raise (ErrIO OutOfFuel)
  | S fuel =>
    kv ← readContinuedLineSlice buf;
    if decide (kv = []) then mret m
    else
      match header_field (string_of_bytes kv) m with
      | Some m => header_loop fuel m
      | None => raise ErrFormat
      end
  end.

(** The size of the map is guessed from the buffered bytes, which are filled for it. *)
Definition ReadMIMEHeader : rd_op Header :=
  Peek1 buf;;
  first ← Peek1 buf;
  match first with
  | Some c =>
    if is_blank c then readLineSlice buf;; raise ErrFormat
    else s ← get; header_loop (rd_fuel buf s) ∅
  | None => s ← get; header_loop (rd_fuel buf s) ∅
  end.
End header.

(** ** [net/http] and [net/url] *)

Definition digit (c : ascii) : option Z :=
  let n := code c in if (48 <=? n) && (n <=? 57) then Some (n - 48) else None.

Definition ParseHTTPVersion (vers : string) : option (Z * Z) :=
  match vers with
  | String "H" (String "T" (String "T" (String "P" (String "/"
      (String a (String "." (String b EmptyString))))))) =>
    major ← digit a; minor ← digit b; Some (major, minor)
  | _ => None
  end.

(** The parts of a [url.URL] that are read. *)
Record URL : Type := MkURL {
  url_Scheme : string;
  url_Host : string;
  url_Path : string
}.

Fixpoint scheme_of (rawURL : string) (seen : string) (first : bool) : option (string * bool) :=
  match rawURL with
  | EmptyString => Some (EmptyString, false)
  | String c s' =>
    let n := code c in
    if isASCIILetter n then scheme_of s' (seen +:+ String c EmptyString) false
    else if ((48 <=? n) && (n <=? 57)) || bool_decide (c ∈ ["+"; "-"; "."]%char) then
      if first then Some (EmptyString, false) else scheme_of s' (seen +:+ String c EmptyString) false
    else if bool_decide (c = ":"%char) then if first then None else Some (seen, true)
    else Some (EmptyString, false)
  end.

(** [getScheme]: the scheme and the rest. *)
Definition getScheme (rawURL : string) : option (string * string) :=
  '(scheme, found) ← scheme_of rawURL EmptyString true;
  Some (if found : bool then (scheme, str_drop (String.length scheme + 1) rawURL) else (EmptyString, rawURL)).

Definition unhex (c : ascii) : option Z :=
  let n := code c in
  if (48 <=? n) && (n <=? 57) then Some (n - 48)
  else if (97 <=? n) && (n <=? 102) then Some (n - 87)
  else if (65 <=? n) && (n <=? 70) then Some (n - 55)
  else None.

(** [unescape] of a path. *)
Fixpoint unescape_path (s : string) : option string :=
  match s with
  | EmptyString => Some EmptyString
  | String "%" (String a (String b s')) =>
    x ← unhex a; y ← unhex b; rest ← unescape_path s';
    Some (String (ascii_of_nat (Z.to_nat (16 * x + y))) rest)
  | String "%" _ => None
  | String c s' => rest ← unescape_path s'; Some (String c rest)
  end.

Definition is_ctl (c : ascii) : bool := (code c <? 32) || (code c =? 127).

Section url.
(** The host of an authority, or an error. *)
Context (parseAuthority : string → option string).

Definition ParseRequestURI (rawURL : string) : option URL :=
  if negb (all_chars (λ c, negb (is_ctl c)) rawURL) then None
  else if decide (rawURL = "") then None
  else if decide (rawURL = "*") then Some (MkURL "" "" "*")
  else
    '(scheme, rest) ← getScheme rawURL;
    let scheme := ToLower scheme in
    let '(rest, _, _) := Cut rest "?" in
    if negb (HasPrefix rest "/") then
      if decide (scheme = "") then None else Some (MkURL scheme "" "")
    else if bool_decide (scheme ≠ "") && HasPrefix rest "//" then
      let authority := str_drop 2 rest in
      let i := Index authority "/" in
      host ← parseAuthority (if i <? 0 then authority else str_take (Z.to_nat i) authority);
      path ← unescape_path (if i <? 0 then "" else str_drop (Z.to_nat i) authority);
      Some (MkURL scheme host path)
    else
      path ← unescape_path rest;
      Some (MkURL scheme "" path).
End url.

(** ** [strconv.ParseInt] in base 16, on 64-bit integers *)

Fixpoint hex_digits (acc : Z) (s : string) : option Z :=
  match s with
  | EmptyString => Some acc
  | String c s' => d ← unhex c; hex_digits (16 * acc + d) s'
  end.

Definition unsigned_hex (s : string) : option Z :=
  match s with EmptyString => None | _ => hex_digits 0 s end.

Definition ParseHex (s : string) : option Z :=
  let r := match s with
           | String "-" s' => Z.opp <$> unsigned_hex s'
           | String "+" s' => unsigned_hex s'
           | _ => unsigned_hex s
           end in
  n ← r; if (- 2 ^ 63 <=? n) && (n <? 2 ^ 63) then Some n else None.
