(* ===== verification/Http1.v ===== *)
(** * HTTP/1 analysis

    Models the reader of HTTP/1 messages (src/pkg/profiling/task/network/analyze/layer7/
    protocols/http1/reader) and the analyzer of the access log that matches responses to
    requests (src/pkg/accesslog/collector/protocols/http1.go), over the buffers of Buffer.v
    and the standard library of GoHttp.v.

    A message keeps the slices of its head and body by reference.  [Err] is an error the
    source returns; a result without an error is a value.  The readable content of a message
    ([TransformReadableContent]) is not modelled: it decodes character sets and gzip. *)

From stdpp Require Import base gmap list strings.
From Stdlib Require Import ZArith Lia Ascii.
From S2P Require Import Prelude GoStrings Interfaces ProcessMonitor Connection Ztunnel AccessLogTail Sender Delivery Tracing Events Buffer Http2 GoHttp.

Definition methodConnect : string := "CONNECT".
Definition requestMethods : list string :=
  ["GET"; "POST"; "OPTIONS"; "HEAD"; "PUT"; "DELETE"; methodConnect; "TRACE"; "PATCH"]%string.

Inductive MessageType : Type := MessageTypeRequest | MessageTypeResponse | MessageTypeUnknown.

Notation headBufferSize := 16 (only parsing).
Notation bodyBufferSize := 4096 (only parsing).

Definition IdentityMessageType : method MessageType :=
  head ← Peek headBufferSize;
  let headerString := string_of_bytes head in
  mret (if existsb (HasPrefix headerString) requestMethods then MessageTypeRequest
        else if HasPrefix headerString "HTTP" then MessageTypeResponse
        else MessageTypeUnknown).

(** ** Messages *)

(** A request with the fields of its [http.Request]. *)
Record Request : Type := MkRequest {
  rq_Method : string;
  rq_URL : URL;
  rq_RequestURI : string;
  rq_Proto : string * (Z * Z);
  rq_Header : Header;
  rq_Host : string;
  rq_headerBuffer : positive;
  rq_bodyBuffer : option positive
}.

Record Response : Type := MkResponse {
  rs_Proto : string * (Z * Z);
  rs_Status : string;
  rs_StatusCode : Z;
  rs_Header : Header;
  rs_headerBuffer : positive;
  rs_bodyBuffer : option positive
}.

Definition MinDataID (r : Request) : heap_op Z :=
  b ← deref (rq_headerBuffer r);
  v ← lift (must (FirstSocketBuffer b));
  mret (i64 (DataID v)).

Definition MaxDataID (r : Request) : heap_op Z :=
  b ← deref (default (rq_headerBuffer r) (rq_bodyBuffer r));
  v ← lift (must (LastSocketBuffer b));
  mret (i64 (DataID v)).

(** ** Bodies *)

(** Minus one when there is no length. *)
Definition appointedLength (headers : Header) : rd_op Z :=
  let contentLengthStr := header_Get headers "Content-Length" in
  if decide (contentLengthStr = "") then mret (-1)
  else
    match Atoi contentLengthStr with
    | Some contentLength => mret contentLength
    | None => raise ErrFormat
    end.

Definition isChunked (headers : Header) : bool :=
  bool_decide (header_Get headers "Transfer-Encoding" = "chunked").

Section reader.
Context (buf : positive).

(** [buf.OffsetPosition(-reader.Buffered())]: where the unread bytes of the reader start. *)
Definition unreadPosition : rd_op (option Position) :=
  s ← get; rd_on_buffer buf (OffsetPosition (- Buffered s)).

(** [Slice] from and to positions that may be nil. *)
Definition slice_between (self : positive) (start endp : option Position) : rd_op positive :=
  start ← lift (must start);
  endp ← lift (must endp);
  rd_on_heap (Slice self true start endp).

Definition DetectNotSending (loc : option positive) : rd_op (option Position) :=
  match loc with
  | None => mret None
  | Some loc => b ← rd_on_heap (deref loc); mret (DetectNotSendingLastPosition b)
  end.

Fixpoint finish_packet (fuel : nat) : rd_op unit :=
  match fuel with
  | O => raise (ErrIO OutOfFuel)
  | S fuel =>
    finished ← rd_on_buffer buf IsCurrentPacketReadFinished;
    if finished : bool then mret tt
    else rd_on_buffer buf (Read bodyBufferSize);; finish_packet fuel
  end.

Definition readBodyUntilCurrentPackageFinished : rd_op (option positive * ParseResult) :=
  startPosition ← unreadPosition;
  s ← get;
  finish_packet (rd_fuel buf s);;
  endPosition ← rd_on_buffer buf Position_;
  slice ← slice_between buf startPosition (Some endPosition);
  mret (Some slice, ParseResultSuccess).

(** Read [reduceSize] bytes: the early result when they cannot be read. *)
Fixpoint body_loop (fuel : nat) (reduceSize : Z) : rd_op (option (option positive * ParseResult)) :=
  if decide (reduceSize ≤ 0) then mret None
  else
    match fuel with
    | O => raise (ErrIO OutOfFuel)
    | S fuel =>
      let readSize := if decide (bodyBufferSize < reduceSize) then bodyBufferSize else reduceSize in
      '(bytes, err) ← io_ReadFull buf readSize;
      let lastReadSize := Z.of_nat (length bytes) in
      match err with
      | Some (ErrIO ErrNotComplete) => mret (Some (None, ParseResultSkipPackage))
      | Some (ErrIO EOF) | Some ErrUnexpectedEOF =>
        if decide (reduceSize - lastReadSize ≤ 0) then mret (Some (None, ParseResultSuccess))
        else raise ErrFormat
      | Some e => raise ErrFormat
      | None => body_loop fuel (reduceSize - lastReadSize)
      end
    end.

Definition checkBodyWithSize (size : Z) (detectedNotSending : bool)
  : rd_op (option positive * ParseResult) :=
  startPosition ← unreadPosition;
  s ← get;
  early ← body_loop (rd_fuel buf s) size;
  match early with
  | Some result => mret result
  | None =>
    endPosition ← unreadPosition;
    slice ← slice_between buf startPosition endPosition;
    if detectedNotSending then
      pos ← DetectNotSending (Some slice);
      match pos with
      | Some pos =>
        slice ← slice_between buf startPosition (Some pos);
        mret (Some slice, ParseResultSuccess)
      | None => mret (Some slice, ParseResultSuccess)
      end
    else mret (Some slice, ParseResultSuccess)
  end.

(** The slices of the chunks, or the early result. *)
Fixpoint chunk_loop (fuel : nat) (slices : list (option positive))
  : rd_op (list (option positive) + ParseResult) :=
  match fuel with
  | O => raise (ErrIO OutOfFuel)
  | S fuel =>
    '(line, _) ← ReadLine buf;
    match ParseHex (string_of_bytes line) with
    | None => raise ErrFormat
    | Some needBytes =>
      if needBytes =? 0 then mret (inl slices)
      else
        '(b, r) ← checkBodyWithSize needBytes false;
        match r with
        | ParseResultSkipPackage => mret (inr r)
        | ParseResultSuccess =>
          pos ← DetectNotSending b;
          match b, pos with
          | Some loc, Some pos =>
            start ← rd_on_buffer loc Position_;
            successSlice ← slice_between loc (Some start) (Some pos);
            mret (inl (slices ++ [Some successSlice]))
          | _, _ =>
            '(d, _) ← ReadLine buf;
            if decide (d = []) then chunk_loop fuel (slices ++ [b]) else raise ErrFormat
          end
        end
    end
  end.

Definition checkChunkedBody : rd_op (option positive * ParseResult) :=
  s ← get;
  slices ← chunk_loop (rd_fuel buf s) [];
  match slices with
  | inr r => mret (None, r)
  | inl slices =>
    body ← rd_on_heap (CombineSlices true (Some buf) slices);
    mret (body, ParseResultSuccess)
  end.

(** The same for requests and responses. *)
Definition readFullBody (headers : Header) : rd_op (option positive * ParseResult) :=
  length ← appointedLength headers;
  if decide (0 < length) then checkBodyWithSize length true
  else if isChunked headers then checkChunkedBody
  else readBodyUntilCurrentPackageFinished.

Definition buildHeaderBuffer (start : Position) : rd_op positive :=
  endPosition ← unreadPosition;
  slice_between buf (Some start) endPosition.

(** ** Requests and responses *)

Context (parseAuthority : string → option string).

(** The method, the URI and the protocol of a request line. *)
Definition request_line (line : string) : option (string * string * string) :=
  let '(method, rest, ok1) := Cut line " " in
  let '(requestURI, proto, ok2) := Cut rest " " in
  if ok1 && ok2 then Some (method, requestURI, proto) else None.

(** [req.Method] is still empty where it is compared with [methodConnect], so the URI of a
    CONNECT request gets no scheme. *)
Definition request_URI (reqMethod requestURI : string) : string :=
  if bool_decide (reqMethod = methodConnect) && negb (HasPrefix requestURI "/")
  then "http://" +:+ requestURI else requestURI.

Definition ReadRequest (readBody : bool) : rd_op (option Request * ParseResult) :=
  headerStartPosition ← rd_on_buffer buf Position_;
  line ← textproto_ReadLine buf;
  match request_line line with
  | None => raise ErrFormat
  | Some (method, requestURI, proto) =>
    if negb (existsb (String.eqb method) requestMethods) then raise ErrFormat
    else
      match ParseHTTPVersion proto with
      | None => raise ErrFormat
      | Some version =>
        let requestURI := request_URI "" requestURI in
        match ParseRequestURI parseAuthority requestURI with
        | None => raise ErrFormat
        | Some uri =>
          header ← ReadMIMEHeader buf;
          let host := if decide (url_Host uri = "") then header_Get header "Host" else url_Host uri in
          headerBuffer ← buildHeaderBuffer headerStartPosition;
          let result := MkRequest method uri requestURI (proto, version) header host headerBuffer in
          if readBody then
            '(b, r) ← readFullBody header;
            match r with
            | ParseResultSuccess => mret (Some (result b), ParseResultSuccess)
            | ParseResultSkipPackage => mret (None, r)
            end
          else mret (Some (result None), ParseResultSuccess)
        end
      end
  end.

(** The protocol, the status text and the status code of a status line. *)
Definition status_line (line : string) : option (string * string * Z) :=
  let '(proto, rest, ok) := Cut line " " in
  if ok : bool then
    let status := trim_left (λ c, bool_decide (c = " "%char)) rest in
    let '(statusCode, _, _) := Cut status " " in
    if decide (String.length statusCode = 3%nat) then
      code ← Atoi statusCode;
      if code <? 0 then None else Some (proto, status, code)
    else None
  else None.

(** A response whose header block cannot be read has no headers and no body. *)
Definition ReadResponse (readBody : bool) : rd_op (option Response * ParseResult) :=
  headerStartPosition ← rd_on_buffer buf Position_;
  line ← textproto_ReadLine buf;
  match status_line line with
  | None => raise ErrFormat
  | Some (proto, status, code) =>
    match ParseHTTPVersion proto with
    | None => raise ErrFormat
    | Some version =>
      header ← catch (ReadMIMEHeader buf);
      headerBuffer ← buildHeaderBuffer headerStartPosition;
      match header with
      | inl _ => mret (Some (MkResponse (proto, version) status code ∅ headerBuffer None), ParseResultSuccess)
      | inr header =>
        let result := MkResponse (proto, version) status code header headerBuffer in
        if readBody then
          '(b, r) ← readFullBody header;
          match r with
          | ParseResultSuccess => mret (Some (result b), ParseResultSuccess)
          | ParseResultSkipPackage => mret (None, r)
          end
        else mret (Some (result None), ParseResultSuccess)
      end
    end
  end.
End reader.

(** ** The analyzer *)

Notation http1AnalyzeMaxRetryCount := 3 (only parsing).

Record HTTP1AnalyzeUnFinished : Type := MkUnFinished {
  uf_request : Request;
  uf_response : Response;
  retryCount : Z
}.

(** The metrics of a connection. *)
Record HTTP1Metrics : Type := MkHTTP1Metrics {
  h1_ConnectionID : Z;
  h1_RandomID : Z;
  halfRequests : list Request;
  analyzeUnFinished : list HTTP1AnalyzeUnFinished
}.

(** What the analysis of a connection works on. *)
Record h1_state : Type := MkH1 {
  h1_heap : heap;
  h1_metrics : HTTP1Metrics;
  h1_queue : Queue
}.
Notation h1_op A := (act h1_state read_error A).

Definition set_h1_heap (h : heap) (s : h1_state) : h1_state := MkH1 h (h1_metrics s) (h1_queue s).
Definition set_halfRequests (l : list Request) (s : h1_state) : h1_state :=
  let m := h1_metrics s in
  MkH1 (h1_heap s) (MkHTTP1Metrics (h1_ConnectionID m) (h1_RandomID m) l (analyzeUnFinished m)) (h1_queue s).
Definition set_unFinished (l : list HTTP1AnalyzeUnFinished) (s : h1_state) : h1_state :=
  let m := h1_metrics s in
  MkH1 (h1_heap s) (MkHTTP1Metrics (h1_ConnectionID m) (h1_RandomID m) (halfRequests m) l) (h1_queue s).
Definition set_h1_queue (q : Queue) (s : h1_state) : h1_state := MkH1 (h1_heap s) (h1_metrics s) q.

Definition h1_on_heap {A} (m : heap_op A) : h1_op A := λ s,
  let '(r, h) := m (h1_heap s) in (r, set_h1_heap h s).

Definition h1_try_buffer {A} (loc : positive) (m : method A) : h1_op (read_error + A) := λ s,
  match buffers (h1_heap s) !! loc with
  | None => (Panic, s)
  | Some b =>
    let '(r, b') := m b in
    let s' := set_h1_heap (MkHeap (<[loc := b']> (buffers (h1_heap s))) (fresh (h1_heap s))) s in
    match r with
    | Ok a => (Ok (inr a), s')
    | Err e => (Ok (inl e), s')
    | Panic => (Panic, s')
    end
  end.

Definition h1_on_buffer {A} (loc : positive) (m : method A) : h1_op A :=
  r ← h1_try_buffer loc m;
  match r with
  | inr a => mret a
  | inl e => raise e
  end.

(** [newPooledReaderFromBuffer]: the reader starts empty, and its error is a value. *)
Definition with_reader {A} (m : rd_op A) : h1_op (go_error + A) := λ s,
  match m (MkRd (h1_heap s) [] None) with
  | (Ok a, r) => (Ok (inr a), set_h1_heap (rd_heap r) s)
  | (Err (ErrIO OutOfFuel), r) => (Err OutOfFuel, set_h1_heap (rd_heap r) s)
  | (Err e, r) => (Ok (inl e), set_h1_heap (rd_heap r) s)
  | (Panic, r) => (Panic, set_h1_heap (rd_heap r) s)
  end.

Definition h1_DataSize (loc : option positive) : h1_op Z :=
  match loc with
  | None => mret 0
  | Some loc => n ← h1_on_buffer loc DataSize; mret (u64 n)
  end.

(** *** Requests that wait for their response *)

Fixpoint insert_request (minDataID : Z) (req : Request) (l : list Request) : heap_op (list Request) :=
  match l with
  | [] => mret [req]
  | x :: l' =>
    m ← MinDataID x;
    if minDataID <? m then mret (req :: l)
    else rest ← insert_request minDataID req l'; mret (x :: rest)
  end.

Definition appendRequestToList (req : Request) (l : list Request) : heap_op (list Request) :=
  match last l with
  | None => mret [req]
  | Some back =>
    m ← MinDataID back;
    n ← MinDataID req;
    if m <? n then mret (l ++ [req]) else insert_request n req l
  end.

(** The request a response belongs to, and the others. *)
Fixpoint findMatchesRequest (currentDataID prevDataID : Z) (l : list Request)
  : heap_op (option Request * list Request) :=
  match l with
  | [] => mret (None, [])
  | req :: l' =>
    m ← MaxDataID req;
    if (u64 m =? prevDataID) || (u64 (i64 (m + 1)) =? currentDataID) then mret (Some req, l')
    else '(found, rest) ← findMatchesRequest currentDataID prevDataID l'; mret (found, req :: rest)
  end.

(** *** Logs *)

Definition exchange_details (request : Request) (response : Response)
  : heap_op (list SocketDetailEvent * option DataIDRange * bool) :=
  st ← AppendSocketDetailsFromBuffer (Some (rq_headerBuffer request)) ([], None, true);
  st ← AppendSocketDetailsFromBuffer (rq_bodyBuffer request) st;
  st ← AppendSocketDetailsFromBuffer (Some (rs_headerBuffer response)) st;
  AppendSocketDetailsFromBuffer (rs_bodyBuffer response) st.

(** [true] is the error that details are missing. *)
Definition HandleHTTPData (request : Request) (response : Response) : h1_op bool :=
  '(details, idRange, allInclude) ← h1_on_heap (exchange_details request response);
  match idRange, list.head details, last details with
  | Some i, Some first, Some final =>
    if negb allInclude then mret true
    else
      let loc := rq_headerBuffer request in
      h1_on_heap (DeleteDetails (Pos.to_nat loc) i loc);;
      let hostHeader := header_Get (rq_Header request) "Host" in
      let host := if decide (hostHeader = "") then url_Host (rq_URL request) else hostHeader in
      reqHeaders ← h1_DataSize (Some loc);
      reqBody ← h1_DataSize (rq_bodyBuffer request);
      respHeaders ← h1_DataSize (Some (rs_headerBuffer response));
      respBody ← h1_DataSize (rs_bodyBuffer response);
      let log := MkHTTPProtocol (detail_StartTime first) (detail_EndTime final)
        HTTPVersion_HTTP1 (TransformHTTPMethod (rq_Method request)) (url_Path (rq_URL request))
        reqHeaders reqBody (AnalyzeTraceInfo (header_Get (rq_Header request))) host
        (i32 (rs_StatusCode response)) respHeaders respBody in
      modify (λ s, set_h1_queue
        (snd (AppendProtocolLog (MkProtocolEventData details (Some log)) (h1_queue s))) s);;
      mret false
  | _, _, _ => mret true
  end.

(** The exchanges whose details were missing are tried again; what is left of them. *)
Fixpoint retry_unfinished (l : list HTTP1AnalyzeUnFinished) : h1_op (list HTTP1AnalyzeUnFinished) :=
  match l with
  | [] => mret []
  | u :: l' =>
    err ← HandleHTTPData (uf_request u) (uf_response u);
    let u' := MkUnFinished (uf_request u) (uf_response u) (retryCount u + 1) in
    rest ← retry_unfinished l';
    mret (if err && (retryCount u' <? http1AnalyzeMaxRetryCount) then u' :: rest else rest)
  end.

Definition handleUnFinishedEvents : h1_op unit :=
  s ← get;
  l ← retry_unfinished (analyzeUnFinished (h1_metrics s));
  modify (set_unFinished l).

Section analyzer.
Context (parseAuthority : string → option string) (buf : positive).

Definition handleRequest : h1_op ParseResult :=
  r ← with_reader (ReadRequest buf parseAuthority true);
  match r with
  | inl _ => mret ParseResultSkipPackage
  | inr (Some req, ParseResultSuccess) =>
    s ← get;
    l ← h1_on_heap (appendRequestToList req (halfRequests (h1_metrics s)));
    modify (set_halfRequests l);;
    mret ParseResultSuccess
  | inr (_, result) => mret result
  end.

Definition appendAnalyzeUnFinished (request : Request) (response : Response) : h1_op unit :=
  modify (λ s, set_unFinished
    (analyzeUnFinished (h1_metrics s) ++ [MkUnFinished request response 0]) s).

(** A request whose response cannot be read goes back to the front. *)
Definition handleResponse : h1_op ParseResult :=
  p ← h1_on_buffer buf Position_;
  dataID ← lift (must (position_DataID p));
  prevDataID ← lift (must (position_PrevDataID p));
  s ← get;
  '(found, rest) ← h1_on_heap (findMatchesRequest dataID prevDataID (halfRequests (h1_metrics s)));
  match found with
  | None => mret ParseResultSkipPackage
  | Some request =>
    modify (set_halfRequests rest);;
    let put_back : h1_op unit :=
      modify (λ s, set_halfRequests (request :: halfRequests (h1_metrics s)) s) in
    r ← with_reader (ReadResponse buf true);
    match r with
    | inl _ => put_back;; mret ParseResultSkipPackage
    | inr (Some response, ParseResultSuccess) =>
      err ← HandleHTTPData request response;
      (if err : bool then appendAnalyzeUnFinished request response else mret tt);;
      mret ParseResultSuccess
    | inr (_, result) => put_back;; mret result
    end
  end.

(** One round of the loop: whether it is the last. *)
Definition h1_round : h1_op bool :=
  ready ← h1_on_buffer buf PrepareForReading;
  if negb ready then mret true
  else
    type ← h1_try_buffer buf IdentityMessageType;
    match type with
    | inl _ => h1_on_buffer buf SkipCurrentElement
    | inr messageType =>
      result ← match messageType with
               | MessageTypeRequest => handleRequest
               | MessageTypeResponse => handleResponse
               | MessageTypeUnknown => mret ParseResultSkipPackage
               end;
      match result with
      | ParseResultSuccess => h1_on_buffer buf (RemoveReadElements false)
      | ParseResultSkipPackage => h1_on_buffer buf SkipCurrentElement
      end
    end.

Fixpoint h1_loop (n : nat) : h1_op unit :=
  match n with
  | O => raise OutOfFuel
  | S n =>
    finishReading ← h1_round;
    if finishReading : bool then mret tt else h1_loop n
  end.

Definition http1_Analyze : h1_op unit :=
  handleUnFinishedEvents;;
  h1_on_buffer buf (modify ResetForLoopReading);;
  b ← h1_on_heap (deref buf);
  h1_loop (analyze_fuel b).
End analyzer.

(** [GenerateConnection]. *)
Definition NewHTTP1Metrics (connectionID randomID : Z) : HTTP1Metrics :=
  MkHTTP1Metrics connectionID randomID [] [].
