(* ===== verification/Http1Stream.v ===== *)
(** * The HTTP/1 reader refines the byte stream

    The laws of the readers of GoHttp.v and Http1.v on a connection buffer: however the
    bytes of a message are cut into chunks, [bufio], [textproto] and the body readers take
    the bytes of the message and nothing else, and the slices of a message hold exactly its
    head and its body.

    [ready]: the reader stands before the bytes [str]; the bytes it holds unread are the
    last ones before the position of the buffer, inside one chunk.  This makes
    [OffsetPosition] of the unread bytes exact (it is not exact across chunks).  [reads]:
    what an operation leaves. *)

From stdpp Require Import base gmap list strings.
From Stdlib Require Import ZArith Lia Ascii.
From S2P Require Import Prelude GoStrings AccessLogTail Events Buffer BufferOrder Http2 Http2Loop GoHttp Http1.

(** ** Lines in lists of bytes *)

(** The first line of a list of bytes is unique. *)
Lemma first_line (a b x y : list Z) :
  10 ∉ a → 10 ∉ b → a ++ 10 :: x = b ++ 10 :: y → a = b ∧ x = y.
Proof.
  revert b. induction a as [|c a IH]; intros [|d b] Ha Hb H; simplify_eq/=; [done|..].
  - by apply not_elem_of_cons in Hb as [? _].
  - by apply not_elem_of_cons in Ha as [? _].
  - apply not_elem_of_cons in Ha as [_ Ha], Hb as [_ Hb]. destruct (IH b) as [-> ->]; done.
Qed.

Lemma cut_line_found l x y :
  cut_line l = Some (x, y) ↔ ∃ line, x = line ++ [10] ∧ l = x ++ y ∧ 10 ∉ line.
Proof.
  revert x y. induction l as [|c l IH]; intros x y; simpl.
  { split; [done|]. intros (line & -> & Hl & _). by destruct line. }
  destruct (c =? 10) eqn:Hc; [apply Z.eqb_eq in Hc as ->|apply Z.eqb_neq in Hc].
  - split.
    + intros [= <- <-]. exists []. split_and!; [done|done|apply not_elem_of_nil].
    + intros (line & -> & Hl & Hn). destruct line as [|d line]; simplify_eq/=; [done|].
      by apply not_elem_of_cons in Hn as [? _].
  - destruct (cut_line l) as [[x' y']|] eqn:He; simpl.
    + destruct (IH x' y') as [(line & Hx' & Hl' & Hn) _]; [done|]. split.
      * intros [= <- <-]. exists (c :: line). split_and!; [by rewrite Hx'|by rewrite Hl'|].
        by apply not_elem_of_cons.
      * intros (line2 & -> & Hl & Hn2). destruct line2 as [|d line2]; [simplify_eq/=; done|].
        injection Hl as <- Hl. apply not_elem_of_cons in Hn2 as [_ Hn2].
        rewrite Hl', Hx', <- !app_assoc in Hl. simpl in Hl. apply first_line in Hl as [-> ->]; [|done..].
        by rewrite Hx'.
    + split; [done|]. intros (line & -> & Hl & Hn). destruct line as [|d line]; [simplify_eq/=; done|].
      injection Hl as <- Hl. apply not_elem_of_cons in Hn as [_ Hn].
      destruct (IH (line ++ [10]) y) as [_ IH2]. discriminate IH2. by exists line.
Qed.

Lemma cut_line_none l : cut_line l = None ↔ 10 ∉ l.
Proof.
  induction l as [|c l IH]; simpl; [split; [intros _; apply not_elem_of_nil|done]|].
  rewrite not_elem_of_cons. destruct (c =? 10) eqn:Hc.
  { apply Z.eqb_eq in Hc as ->. naive_solver. }
  apply Z.eqb_neq in Hc. destruct (cut_line l) as [[x y]|]; naive_solver.
Qed.

(** A list that does not reach the end of the first line is a part of it. *)
Lemma inside_line (a b x y : list Z) :
  10 ∉ a → a ++ x = b ++ 10 :: y → ∃ c, b = a ++ c ∧ x = c ++ 10 :: y.
Proof.
  intros Ha [(k & -> & Hk)|(k & -> & ->)]%app_eq_inv; [|by exists k].
  - destruct k as [|d k]; simplify_eq/=; [by exists []; rewrite !app_nil_r|].
    apply not_elem_of_app in Ha as [_ [? _]%not_elem_of_cons]. done.
Qed.

Lemma suffix_in (a c x y : list Z) :
  10 ∉ a → 10 ∉ x → a ++ c = (x ++ [10]) ++ y → (10 :: y) `suffix_of` c.
Proof.
  intros Ha Hx. rewrite <- app_assoc. simpl. intros (k & -> & ->)%inside_line; [|done]. by exists k.
Qed.

(** ** Lines without their end *)

(** A line without the return before its newline. *)
Definition strip_cr (line : list Z) : list Z := strip_newline (line ++ [10]).

Lemma strip_cr_return line : strip_cr (line ++ [13]) = line.
Proof.
  unfold strip_cr, strip_newline. rewrite !reverse_app. simpl. by rewrite reverse_involutive.
Qed.

Lemma strip_cr_plain line : last line ≠ Some 13 → strip_cr line = line.
Proof.
  intros H. unfold strip_cr, strip_newline. rewrite reverse_app. simpl.
  destruct (reverse line) as [|c l] eqn:Hl.
  - apply (f_equal reverse) in Hl. by rewrite reverse_involutive in Hl.
  - assert (line = reverse l ++ [c]) as ->.
    { apply (f_equal reverse) in Hl. rewrite reverse_involutive, reverse_cons in Hl. done. }
    rewrite last_snoc in H. destruct (decide (c = 13)) as [->|Hc]; [done|].
    rewrite <- (reverse_cons l c). destruct c as [|c|c]; [done| |done].
    repeat (destruct c as [c|c|]; try done).
Qed.

Lemma strip_cr_app a b : b ≠ [] ∨ last a ≠ Some 13 → strip_cr (a ++ b) = a ++ strip_cr b.
Proof.
  intros H. destruct b as [|x b _] using rev_ind.
  - destruct H as [?|H]; [done|]. rewrite app_nil_r, strip_cr_plain by done.
    unfold strip_cr, strip_newline. simpl. by rewrite app_nil_r.
  - clear H. rewrite app_assoc. destruct (decide (x = 13)) as [->|Hx].
    + by rewrite !strip_cr_return.
    + rewrite !strip_cr_plain; [by rewrite app_assoc|..]; rewrite last_snoc; congruence.
Qed.

(** ** One read of the buffer *)

Definition nonempty (l : list chunk) : Prop := Forall (λ x, 0 < BufferLen (evalue x)) l.

(** [bs] are the last bytes of the chunk [e] before the index [i]. *)
Definition just_before (bs : list Z) (e : chunk) (i : Z) : Prop :=
  bs `suffix_of` take (Z.to_nat i) (bytes (evalue e)).

Lemma just_before_suffix bs bs' e i : bs' `suffix_of` bs → just_before bs e i → just_before bs' e i.
Proof. unfold just_before. intros. by trans bs. Qed.

Lemma just_before_nil e i : just_before [] e i.
Proof. apply suffix_nil. Qed.

Lemma just_before_length bs e i : just_before bs e i → 0 ≤ i → Z.of_nat (length bs) ≤ i.
Proof. intros H%suffix_length Hi. rewrite length_take in H. lia. Qed.

Lemma just_before_taken e i k :
  0 ≤ i → 0 ≤ k → just_before (take (Z.to_nat k) (drop (Z.to_nat i) (bytes (evalue e)))) e (i + k).
Proof.
  intros Hi Hk. unfold just_before. rewrite Z2Nat.inj_add by done.
  exists (take (Z.to_nat i) (bytes (evalue e))). by rewrite take_take_drop.
Qed.

(** The bytes of the chunks [l] that cannot be read, since a gap is in front of them. *)
Fixpoint gap (valid : bool) (l : list chunk) : list Z :=
  match l with
  | [] => []
  | e :: l' =>
    match l' with
    | [] => []
    | e' :: _ => if shouldRead valid (evalue e) (evalue e') (BufferLen (evalue e))
                 then gap valid l' else l' ≫= λ x, bytes (evalue x)
    end
  end.

Lemma chain_gap valid l : (l ≫= λ x, bytes (evalue x)) = chain valid l ++ gap valid l.
Proof.
  induction l as [|e l IH]; [done|]. rewrite bind_cons. cbn [chain gap].
  destruct l as [|e' l]; [by rewrite !app_nil_r|].
  destruct (shouldRead _ _ _ _); rewrite <- app_assoc; f_equal. apply IH.
Qed.

Lemma readable_stream r e i post :
  reading r e i post →
  stream (dataEvents r) (MkPosition (Some e) i) = readable r ++ gap (validated r) (e :: post).
Proof.
  intros H. rewrite (reading_readable _ _ _ _ H). destruct (rd_list _ _ _ _ H) as [pre Hl].
  pose proof (rd_unique _ _ _ _ H) as Hu. rewrite Hl in *. rewrite stream_at by done.
  rewrite (chain_gap (validated r)), drop_app_le; [done|].
  pose proof (reading_wf _ _ _ _ H) as [Hwf%wf_length _]. pose proof (rd_index _ _ _ _ H).
  cbn [chain]. rewrite length_app. lia.
Qed.

(** A read where bytes are readable takes some of them, and they lie in one chunk. *)
Lemma Read_located r e i post n :
  reading r e i post → nonempty post → 0 < n → readable r ≠ [] →
  ∃ bs e' i' post', Read n r = (Ok bs, move_current (Some e') i' r) ∧
    reading (move_current (Some e') i' r) e' i' post' ∧ bs ≠ [] ∧ Z.of_nat (length bs) ≤ n ∧
    just_before bs e' i' ∧ readable r = bs ++ readable (move_current (Some e') i' r) ∧
    (e' :: post') `suffix_of` (e :: post) ∧
    gap (validated r) (e' :: post') = gap (validated r) (e :: post).
Proof.
  intros H Hne Hn Hrd.
  destruct (Read_step r e i post n H Hn) as [(bs & e' & i' & post' & Hr & H' & Hsp & _ & Hl & Hdec)|[? _]];
    [|done].
  exists bs, e', i', post'. pose proof (rd_index _ _ _ _ H) as Hi.
  destruct (decide (i < BufferLen (evalue e))) as [Hlt|Hge].
  - destruct (Read_inside r e i post n H Hn Hlt) as (k & Hk & Hr' & Hlen). rewrite Hr in Hr'.
    injection Hr' as -> He' Hi'. subst e' i'. destruct Hdec as [(Hb & -> & _)|[? _]]; [|lia].
    split_and!; try done. apply just_before_taken; lia.
  - assert (i = BufferLen (evalue e)) as -> by lia.
    pose proof Hr as Hread. rewrite (Read_exhausted _ _ _ _ H Hn) in Hr. destruct post as [|e1 post1]; [done|].
    cbn [gap]. destruct (shouldRead _ _ _ _); [|done].
    pose proof (reading_wf _ _ _ _ H) as [_ [Hwf _]%Forall_cons].
    apply Forall_cons in Hne as [Hpos _]. pose proof (wf_length _ Hwf) as Hwl.
    rewrite read0_spec in Hr by done. injection Hr as Hbs He' Hi'. subst e' i' bs.
    destruct Hdec as [(Hb & _ & Hbl)|[_ [= <-]]]; [exfalso; apply Hb, nil_length_inv; lia|].
    split_and!; try done.
    + intros E. apply (f_equal length) in E. rewrite length_take in E. simpl in E. lia.
    + replace (n `min` BufferLen (evalue e1)) with (0 + n `min` BufferLen (evalue e1)) at 2 by lia.
      rewrite <- (drop_0 (bytes (evalue e1))). apply (just_before_taken e1 0); lia.
    + by exists [e].
Qed.

(** ** The state of a reader *)

Section reader.
Context (buf : positive) (b0 : Buffer) (g : list Z).

(** The buffer [b0] at another position. *)
Definition at_pos (e : chunk) (i : Z) : Buffer := move_current (Some e) i b0.

(** The reader stands before the bytes [str], in front of the chunks [l]; [held] are the
    bytes it holds that do not lie in the current chunk, and [g] those no reader reaches. *)
Record stands (s : rd) (l : list chunk) (held str : list Z) : Prop := {
  st_fresh : (buf < fresh (rd_heap s))%positive;
  st_err : b_err s = None;
  st_room : Buffered s ≤ defaultBufSize;
  st_at : ∃ e i post own, l = e :: post ∧ buffers (rd_heap s) !! buf = Some (at_pos e i) ∧
    reading (at_pos e i) e i post ∧ nonempty l ∧ b_buf s = held ++ own ∧ just_before own e i ∧
    str = b_buf s ++ readable (at_pos e i) ∧ (held ≠ [] → own ≠ []) ∧ gap (validated b0) l = g
}.

Definition ready (s : rd) (l : list chunk) (str : list Z) : Prop := stands s l [] str.

(** Nothing of the heap changed but the position of the buffer. *)
Definition only_buffer (s s' : rd) : Prop :=
  fresh (rd_heap s') = fresh (rd_heap s) ∧
  ∀ loc, loc ≠ buf → buffers (rd_heap s') !! loc = buffers (rd_heap s) !! loc.

(** What an operation leaves that started in [s] before the chunks [l]: the bytes [rest]. *)
Definition reads (s : rd) (l : list chunk) (s' : rd) (rest : list Z) : Prop :=
  ∃ l', ready s' l' rest ∧ l' `suffix_of` l ∧ only_buffer s s'.

Lemma only_buffer_trans s s' s'' : only_buffer s s' → only_buffer s' s'' → only_buffer s s''.
Proof.
  intros [H1 H2] [H3 H4]. split; [congruence|]. intros loc Hl. rewrite H4 by done. by apply H2.
Qed.

Lemma reads_trans s l s' l' s'' rest :
  l' `suffix_of` l → only_buffer s s' → reads s' l' s'' rest → reads s l s'' rest.
Proof.
  intros Hl Ho (l'' & Hr & Hl' & Ho'). exists l''. split_and!; [done|by trans l'|].
  by eapply only_buffer_trans.
Qed.

Lemma reads_refl s l rest : ready s l rest → reads s l s rest.
Proof. intros H. exists l. split_and!; [done|done|]. by split. Qed.

(** Taking bytes that the reader holds. *)
Lemma ready_drop s l a y :
  ready s l (a ++ y) → ∀ z, b_buf s = a ++ z → reads s l (set_b_buf z s) y.
Proof.
  intros [Hf He Hr (e & i & post & own & -> & Hb & Hrd & Hne & Hbuf & Hj & Hstr & _ & Hg)] z Hz.
  exists (e :: post). split; [|split; [done|by split]].
  split; [done|done|unfold Buffered in *; simpl; rewrite Hz, length_app in Hr; lia|].
  exists e, i, post, z. split_and!; try done.
  - eapply just_before_suffix; [|done]. simpl in Hbuf. rewrite <- Hbuf, Hz. by exists a.
  - simpl. rewrite Hz, <- app_assoc in Hstr. by apply app_inv_head in Hstr.
Qed.

(** The buffer after a method. *)
Definition heap_with (b : Buffer) (s : rd) : rd :=
  set_rd_heap (MkHeap (<[buf := b]> (buffers (rd_heap s))) (fresh (rd_heap s))) s.

Lemma rd_buffer_ok {A} (m : method A) s b a b' :
  buffers (rd_heap s) !! buf = Some b → m b = (Ok a, b') →
  rd_on_buffer buf m s = (Ok a, heap_with b' s).
Proof. intros Hb Hm. unfold rd_on_buffer. by rewrite Hb, Hm. Qed.

Lemma catch_ok {A} (m : act rd go_error A) s a s' : m s = (Ok a, s') → catch m s = (Ok (inr a), s').
Proof. intros Hm. unfold catch. by rewrite Hm. Qed.

Lemma fill_run s b bs b' :
  Buffered s < defaultBufSize → buffers (rd_heap s) !! buf = Some b →
  Read (defaultBufSize - Buffered s) b = (Ok bs, b') → bs ≠ [] →
  fill buf s = (Ok tt, set_b_buf (b_buf s ++ bs) (heap_with b' s)).
Proof.
  intros Hroom Hb Hr Hbs. unfold fill. step_act. rewrite (proj2 (Z.leb_gt _ _)) by done.
  generalize 99%nat. intros n. cbn [fill_loop]. step_act.
  rewrite (bind_ok _ _ _ _ _ (catch_ok _ _ _ _ (rd_buffer_ok _ _ _ _ _ Hb Hr))).
  by destruct bs.
Qed.

(** [fill] where bytes are readable: the new ones lie in one chunk. *)
Lemma fill_stands s l held str :
  stands s l held str → Buffered s < defaultBufSize → Buffered s < Z.of_nat (length str) →
  ∃ s' l' bs, fill buf s = (Ok tt, s') ∧ stands s' l' (b_buf s) str ∧ bs ≠ [] ∧
    b_buf s' = b_buf s ++ bs ∧ l' `suffix_of` l ∧ only_buffer s s'.
Proof.
  intros [Hf He Hr (e & i & post & own & -> & Hb & Hrd & Hne & Hbuf & Hj & Hstr & Hown & Hg)] Hroom Hlen.
  assert (Hrd' : readable (at_pos e i) ≠ []).
  { intros E. rewrite E, app_nil_r in Hstr. subst. unfold Buffered in Hlen. lia. }
  pose proof Hne as [_ Hne']%Forall_cons.
  destruct (Read_located _ _ _ _ (4096 - Buffered s) Hrd Hne') as
    (bs & e' & i' & post' & Hread & Hrd2 & Hbs & Hbl & Hj2 & Hsp & Hsuf & Hgap); [lia|done|].
  eexists _, (e' :: post'), bs. split; [by eapply (fill_run s _ bs)|].
  simpl. split_and!; [|done|done|done|].
  - split; simpl; [done|done|unfold Buffered in *; simpl; rewrite length_app; lia|].
    exists e', i', post', bs. split_and!; try done.
    + apply lookup_insert_eq.
    + destruct Hsuf as [k Hk]. unfold nonempty in *. rewrite Hk, Forall_app in Hne. apply Hne.
    + by rewrite Hstr, Hsp, app_assoc.
    + by rewrite <- Hg.
  - split; [done|]. intros loc Hloc. simpl. by rewrite lookup_insert_ne.
Qed.

(** A byte of the current chunk has been taken. *)
Definition past (s : rd) : Prop :=
  ∃ e i, buffers (rd_heap s) !! buf = Some (at_pos e i) ∧ Buffered s < i.

(** ** Lines *)

(** The result of [ReadSlice] before a line that ends. *)
Definition slice_result (s : rd) (l : list chunk) (line rest : list Z)
    (r : res go_error (list Z * slice_end) * rd) : Prop :=
  (fst r = Ok (line ++ [10], Delimited) ∧ reads s l (snd r) rest ∧ past (snd r)) ∨
  (∃ l1 c l2, fst r = Ok (l1 ++ [c], BufferFull) ∧ line = l1 ++ [c] ++ l2 ∧ l1 ≠ [] ∧
     reads s l (snd r) (l2 ++ 10 :: rest) ∧
     reads s l (set_b_buf (c :: b_buf (snd r)) (snd r)) (c :: l2 ++ 10 :: rest)).

Lemma slice_result_trans s l s' l' line rest r :
  l' `suffix_of` l → only_buffer s s' → slice_result s' l' line rest r → slice_result s l line rest r.
Proof.
  intros Hl Ho [(H1 & H2 & H2')|(l1 & c & l2 & H1 & H2 & H3 & H4 & H5)]; [left|right].
  - split_and!; [done|by eapply reads_trans|done].
  - exists l1, c, l2. split_and!; [done|done|done|by eapply reads_trans..].
Qed.

(** The line ends in what the reader holds. *)
Lemma stands_delimited s l held line rest x y :
  stands s l held (line ++ 10 :: rest) → 10 ∉ held → 10 ∉ line → cut_line (b_buf s) = Some (x, y) →
  x = line ++ [10] ∧ reads s l (set_b_buf y s) rest ∧ past (set_b_buf y s).
Proof.
  intros [Hf He Hr (e & i & post & own & -> & Hb & Hrd & Hne & Hbuf & Hj & Hstr & _ & Hg)] Hh Hl
    (line' & -> & Hxy & Hn)%cut_line_found.
  rewrite Hxy, <- !app_assoc in Hstr. simpl in Hstr.
  apply first_line in Hstr as [<- ->]; [|done..]. split; [done|].
  assert (Hj' : just_before (10 :: y) e i).
  { eapply just_before_suffix; [|done]. rewrite Hbuf in Hxy. exact (suffix_in _ _ _ _ Hh Hn Hxy). }
  split.
  - exists (e :: post). split; [|split; [done|by split]].
    split; [done|done|unfold Buffered in *; simpl; rewrite Hxy, !length_app in Hr; lia|].
    exists e, i, post, y. split_and!; try done. eapply just_before_suffix; [|done]. by exists [10].
  - exists e, i. split; [done|]. apply just_before_length in Hj'; [unfold Buffered; simpl in *; lia|].
    apply (rd_index _ _ _ _ Hrd).
Qed.

(** The reader is full before the end of the line. *)
Lemma stands_full s l held line rest :
  stands s l held (line ++ 10 :: rest) → 10 ∉ b_buf s → defaultBufSize ≤ Buffered s →
  slice_result s l line rest (Ok (b_buf s, BufferFull), set_b_buf [] s).
Proof.
  intros [Hf He Hr (e & i & post & own & -> & Hb & Hrd & Hne & Hbuf & Hj & Hstr & Hown & Hg)] Hn Hfull.
  symmetry in Hstr. apply inside_line in Hstr as (l2 & -> & Hrest); [|done].
  assert (own ≠ []) as Ho.
  { destruct held; [|by apply Hown]. intros ->. simpl in Hbuf. unfold Buffered in Hfull.
    rewrite Hbuf in Hfull. simpl in Hfull. lia. }
  destruct own as [|c own _] using rev_ind; [done|].
  right. exists (held ++ own), c, l2. rewrite <- app_assoc. simpl. rewrite Hbuf.
  split_and!; [done|by rewrite <- !app_assoc| | |].
  - intros E. unfold Buffered in Hfull. rewrite Hbuf, app_assoc, E in Hfull. simpl in Hfull. lia.
  - exists (e :: post). split; [|split; [done|by split]]. split; [done|done|done|].
    exists e, i, post, []. split_and!; try done. apply just_before_nil.
  - exists (e :: post). split; [|split; [done|by split]]. split; [done|done|by unfold Buffered|].
    exists e, i, post, [c]. split_and!; try done.
    + eapply just_before_suffix; [|done]. by exists own.
    + simpl. by rewrite Hrest.
Qed.

Lemma read_slice_stands fuel s l held line rest :
  stands s l held (line ++ 10 :: rest) → 10 ∉ held → 10 ∉ line →
  defaultBufSize - Buffered s < Z.of_nat fuel → slice_result s l line rest (read_slice buf fuel s).
Proof.
  revert s l held. induction fuel as [|fuel IH]; intros s l held Hs Hh Hl Hfuel.
  { pose proof (st_room _ _ _ _ Hs). lia. }
  cbn [read_slice]. step_act. destruct (cut_line (b_buf s)) as [[x y]|] eqn:Hcut.
  { destruct (stands_delimited _ _ _ _ _ _ _ Hs Hh Hl Hcut) as (-> & Hrd & Hpast). left. by step_act. }
  apply cut_line_none in Hcut. rewrite (st_err _ _ _ _ Hs).
  destruct (Z.leb_spec defaultBufSize (Buffered s)) as [Hfull|Hroom].
  { step_act. by eapply stands_full. }
  destruct (fill_stands s l held _ Hs Hroom) as (s' & l' & bs & Hfill & Hs' & Hbs & Hb' & Hsuf & Ho).
  { destruct Hs as [_ _ _ (e & i & post & own & _ & _ & _ & _ & _ & _ & Hstr & _)]. symmetry in Hstr.
    apply inside_line in Hstr as (l2 & -> & _); [|done]. unfold Buffered. rewrite !length_app. simpl. lia. }
  rewrite (bind_ok _ _ _ _ _ Hfill). eapply slice_result_trans; [done|done|].
  eapply IH; [done|done|done|]. unfold Buffered in *. rewrite Hb', length_app.
  destruct bs; [done|]. simpl. lia.
Qed.

Lemma ReadSlice_ready s l line rest :
  ready s l (line ++ 10 :: rest) → 10 ∉ line → slice_result s l line rest (ReadSlice buf s).
Proof.
  intros Hs Hl. eapply read_slice_stands; [done|apply not_elem_of_nil|done|].
  unfold Buffered. lia.
Qed.

Lemma ReadLine_ready s l line rest :
  ready s l (line ++ 10 :: rest) → 10 ∉ line →
  ∃ s', (ReadLine buf s = (Ok (strip_cr line, false), s') ∧ reads s l s' rest ∧ past s') ∨
    ∃ l1 l2, ReadLine buf s = (Ok (l1, true), s') ∧ line = l1 ++ l2 ∧ l1 ≠ [] ∧
      reads s l s' (l2 ++ 10 :: rest) ∧ (l2 ≠ [] ∨ last l1 ≠ Some 13).
Proof.
  intros Hs Hl. pose proof (ReadSlice_ready _ _ _ _ Hs Hl) as Hr. unfold ReadLine.
  destruct (ReadSlice buf s) as [r s1] eqn:He. destruct Hr as [(Hr1 & Hr2 & Hp)|(l1 & c & l2 & Hr1 & -> & Hne & Hr2 & Hr3)];
    simpl in *; subst r; rewrite (bind_ok _ _ _ _ _ He); cbn iota beta.
  - exists s1. left. by step_act.
  - rewrite reverse_app. simpl. destruct (decide (c = 13)) as [->|Hc].
    + step_act. eexists. right. rewrite reverse_involutive. exists l1, (13 :: l2).
      split_and!; try done. by left.
    + exists s1. right. exists (l1 ++ [c]), l2. rewrite <- app_assoc. split_and!; try done.
      * destruct c as [|c|c]; [done| |done]. repeat (destruct c as [c|c|]; try done).
      * by intros [? ?]%app_nil.
      * right. rewrite last_snoc. congruence.
Qed.

Lemma chain_length valid l : (length (chain valid l) ≤ length (l ≫= λ e, bytes (evalue e)))%nat.
Proof.
  induction l as [|e l IH]; [done|]. cbn [chain mbind list_bind]. rewrite !length_app.
  destruct l as [|e' l]; [simpl; lia|]. destruct (shouldRead _ _ _ _); simpl in *; lia.
Qed.

(** The bound of the loops covers what is in front of the reader. *)
Lemma rd_fuel_ready s l held str : stands s l held str → (length str + 2 ≤ rd_fuel buf s)%nat.
Proof.
  intros [_ _ _ (e & i & post & own & -> & Hb & Hrd & _ & _ & _ & -> & _)]. unfold rd_fuel. rewrite Hb.
  rewrite (reading_readable _ _ _ _ Hrd), length_app, length_drop.
  pose proof (chain_length (validated (at_pos e i)) (e :: post)).
  destruct (rd_list _ _ _ _ Hrd) as [pre ->]. rewrite bind_app, !length_app. lia.
Qed.

Lemma read_line_slice_ready fuel s l got line rest :
  ready s l (line ++ 10 :: rest) → 10 ∉ line → (length line < fuel)%nat →
  ∃ s', read_line_slice buf fuel got s = (Ok (got ++ strip_cr line), s') ∧ reads s l s' rest ∧ past s'.
Proof.
  revert s l got line. induction fuel as [|fuel IH]; intros s l got line Hs Hl Hf; [lia|].
  cbn [read_line_slice]. destruct (ReadLine_ready _ _ _ _ Hs Hl) as (s1 & [(Hr & Hrd & Hp)|(l1 & l2 & Hr & -> & Hne & Hrd & Hcr)]);
    rewrite (bind_ok _ _ _ _ _ Hr); cbn iota beta.
  - exists s1. by step_act.
  - destruct Hrd as (l' & Hs1 & Hsuf & Ho). rewrite length_app in Hf. destruct l1 as [|c l1]; [done|].
    apply not_elem_of_app in Hl as [_ Hl].
    destruct (IH s1 l' (got ++ c :: l1) l2 Hs1 Hl) as (s2 & Hr2 & Hrd2 & Hp); [simpl in *; lia|].
    exists s2. rewrite strip_cr_app, app_assoc by done. split_and!; [done|by eapply reads_trans|done].
Qed.

Lemma readLineSlice_ready s l line rest :
  ready s l (line ++ 10 :: rest) → 10 ∉ line →
  ∃ s', readLineSlice buf s = (Ok (strip_cr line), s') ∧ reads s l s' rest ∧ past s'.
Proof.
  intros Hs Hl. unfold readLineSlice. step_act. apply (read_line_slice_ready _ s l []); [done|done|].
  pose proof (rd_fuel_ready _ _ _ _ Hs) as Hf. rewrite length_app in Hf. simpl in Hf. lia.
Qed.

(** ** Bytes *)

(** The reader holds the next byte after a [fill] that was due. *)
Lemma fill_due s l c rest :
  ready s l (c :: rest) →
  ∃ s' y, (match b_buf s, b_err s with [], None => fill buf | _, _ => mret tt end) s = (Ok tt, s') ∧
    b_buf s' = c :: y ∧ reads s l s' (c :: rest).
Proof.
  intros Hs. pose proof Hs as [_ He _ (e & i & post & own & _ & _ & _ & _ & _ & _ & Hstr & _)].
  destruct (b_buf s) as [|d y] eqn:Hb.
  - rewrite He. destruct (fill_stands s l [] (c :: rest) Hs) as (s' & l' & bs & Hfill & Hs' & Hbs & Hb' & Hsuf & Ho);
      [unfold Buffered; rewrite Hb; simpl; lia..|].
    rewrite Hb in Hs', Hb'. destruct bs as [|x bs]; [done|]. simpl in Hb'.
    exists s', bs. split; [done|].
    assert (x = c) as ->.
    { destruct Hs' as [_ _ _ (? & ? & ? & ? & _ & _ & _ & _ & _ & _ & Hs' & _)]. rewrite Hb' in Hs'.
      by injection Hs'. }
    split; [done|]. by exists l'.
  - simpl in Hstr. injection Hstr as <- _. exists s, y. split; [done|]. split; [done|]. by apply reads_refl.
Qed.

Lemma Peek1_ready s l c rest :
  ready s l (c :: rest) → ∃ s', Peek1 buf s = (Ok (Some c), s') ∧ reads s l s' (c :: rest).
Proof.
  intros Hs. destruct (fill_due _ _ _ _ Hs) as (s' & y & Hr & Hb & Hrd). exists s'. split; [|done].
  unfold Peek1. rewrite bind_get, (bind_ok _ _ _ _ _ Hr). step_act. by rewrite Hb.
Qed.

Lemma skipSpace_ready s l c rest :
  ready s l (c :: rest) → is_blank c = false →
  ∃ s', skipSpace buf s = (Ok false, s') ∧ reads s l s' (c :: rest).
Proof.
  intros Hs Hc. destruct (fill_due _ _ _ _ Hs) as (s' & y & Hr & Hb & Hrd).
  exists s'. split; [|done]. unfold skipSpace. step_act.
  pose proof (rd_fuel_ready _ _ _ _ Hs) as Hf. destruct (rd_fuel buf s) as [|fuel]; [lia|].
  cbn [skip_space].
  assert (Hrb : ReadByte buf s = (Ok c, set_b_buf y s')).
  { unfold ReadByte. rewrite bind_get, (bind_ok _ _ _ _ _ Hr). step_act. rewrite Hb. by step_act. }
  rewrite (bind_ok _ _ _ _ _ (catch_ok _ _ _ _ Hrb)), Hc. unfold UnreadByte. step_act.
  simpl. rewrite <- Hb. by destruct s'.
Qed.

(** ** Header lines *)

Lemma continued_ready s l line c rest :
  ready s l (line ++ 10 :: c :: rest) → 10 ∉ line → strip_cr line ≠ [] → 58 ∈ strip_cr line →
  is_blank c = false →
  ∃ s', readContinuedLineSlice buf s = (Ok (trim (strip_cr line)), s') ∧ reads s l s' (c :: rest).
Proof.
  intros Hs Hl Hne Hcolon Hc. destruct (readLineSlice_ready _ _ _ _ Hs Hl) as (s1 & Hr & (l1 & Hs1 & Hsuf & Ho) & _).
  unfold readContinuedLineSlice. rewrite (bind_ok _ _ _ _ _ Hr). rewrite decide_False, decide_True by done.
  step_act. destruct (not_continued (b_buf s1)).
  { exists s1. step_act. split; [done|]. by exists l1. }
  pose proof (rd_fuel_ready _ _ _ _ Hs1) as Hf. destruct (rd_fuel buf s1) as [|fuel]; [lia|].
  destruct (skipSpace_ready _ _ _ _ Hs1 Hc) as (s2 & Hsk & Hrd). cbn [continued_lines].
  rewrite (bind_ok _ _ _ _ _ Hsk). exists s2. step_act. split; [done|]. by eapply reads_trans.
Qed.

Lemma continued_blank s l line rest :
  ready s l (line ++ 10 :: rest) → 10 ∉ line → strip_cr line = [] →
  ∃ s', readContinuedLineSlice buf s = (Ok [], s') ∧ reads s l s' rest ∧ past s'.
Proof.
  intros Hs Hl Hne. destruct (readLineSlice_ready _ _ _ _ Hs Hl) as (s1 & Hr & Hrd & Hp).
  exists s1. split; [|done]. unfold readContinuedLineSlice. rewrite (bind_ok _ _ _ _ _ Hr).
  by rewrite decide_True.
Qed.

(** ** Header blocks *)

(** The bytes of a text do not start or end with a blank. *)
Definition trimmed (bs : list Z) : Prop :=
  ∀ c, list.head bs = Some c ∨ last bs = Some c → is_blank c = false.

Lemma trim_front_id bs : (∀ c, list.head bs = Some c → is_blank c = false) → trim_front bs = bs.
Proof. destruct bs as [|c bs]; [done|]. intros H. simpl. by rewrite H. Qed.

Lemma trim_id bs : trimmed bs → trim bs = bs.
Proof.
  intros H. unfold trim. rewrite (trim_front_id bs) by (intros; apply H; by left).
  rewrite trim_front_id; [apply reverse_involutive|]. intros c Hc. apply H. right.
  by rewrite <- head_reverse.
Qed.

Lemma trim_back bs c : is_blank c = true → trimmed bs → bs ≠ [] → trim (bs ++ [c]) = bs.
Proof.
  intros Hc H Hne. unfold trim. rewrite (trim_front_id (bs ++ [c])).
  - rewrite reverse_app. simpl. rewrite Hc, trim_front_id; [apply reverse_involutive|].
    intros d Hd. apply H. right. by rewrite <- head_reverse.
  - intros d Hd. apply H. left. by destruct bs.
Qed.

Definition field_text (kv : string * string) : list Z := bytes_of_string (kv.1 +:+ ": " +:+ kv.2).

(** A field whose name is a token and whose value is printable and trimmed. *)
Definition field_ok (kv : string * string) : Prop :=
  kv.1 ≠ EmptyString ∧ all_chars validHeaderFieldByte kv.1 = true ∧
  all_chars validHeaderValueByte kv.2 = true ∧ trimmed (bytes_of_string kv.2).

(** The lines of the fields, and the blank line behind them. *)
Definition header_text (fs : list (string * string)) : list Z :=
  (fs ≫= λ kv, field_text kv ++ [13; 10]) ++ [13; 10].

Definition header_map (fs : list (string * string)) (m : Header) : Header :=
  foldl (λ m kv, header_Add (canonical true kv.1) kv.2 m) m fs.

Lemma all_chars_bytes (P : ascii → bool) s c :
  all_chars P s = true → c ∈ bytes_of_string s → ∃ a, c = code a ∧ P a = true.
Proof.
  induction s as [|a s IH]; simpl; [by intros _ ?%elem_of_nil|].
  intros [Ha Hs]%andb_true_iff [->|Hc]%elem_of_cons; [by exists a|by apply IH].
Qed.

Lemma all_chars_lacks (P : ascii → bool) c s :
  all_chars P s = true → P c = false → lacks c s = true.
Proof.
  intros Hs Hc. induction s as [|a s IH]; [done|]. simpl in *. apply andb_true_iff in Hs as [Ha Hs].
  apply andb_true_iff. split; [|by apply IH]. apply negb_true_iff, bool_decide_eq_false. congruence.
Qed.

Lemma all_chars_app (P : ascii → bool) s t :
  all_chars P (s +:+ t) = all_chars P s && all_chars P t.
Proof. induction s as [|c s IH]; [done|]. simpl in *. by rewrite IH, andb_assoc. Qed.

Lemma all_chars_mono (P Q : ascii → bool) s :
  (∀ c, P c = true → Q c = true) → all_chars P s = true → all_chars Q s = true.
Proof.
  intros HPQ. induction s as [|c s IH]; [done|]. simpl. intros [? ?]%andb_true_iff.
  apply andb_true_iff. auto.
Qed.

Lemma token_not_blank c : validHeaderFieldByte c = true → is_blank (code c) = false.
Proof. destruct c as [[] [] [] [] [] [] [] []]; by vm_compute. Qed.

Lemma field_bytes kv : field_text kv = bytes_of_string kv.1 ++ [58; 32] ++ bytes_of_string kv.2.
Proof. unfold field_text. by rewrite !bytes_of_app. Qed.

Lemma field_head kv : field_ok kv → ∃ c y, field_text kv = c :: y ∧ is_blank c = false.
Proof.
  intros (Hne & Hk & _ & _). unfold field_text. destruct kv as [[|a k] v]; simpl in *; [done|].
  apply andb_true_iff in Hk as [Ha _]. eexists _, _. split; [done|]. by apply token_not_blank.
Qed.

(** What a field's line is read as. *)
Definition field_read (kv : string * string) : string :=
  kv.1 +:+ ":" +:+ (if decide (kv.2 = "") then "" else " " +:+ kv.2).

Lemma field_trim kv : field_ok kv → string_of_bytes (trim (field_text kv)) = field_read kv.
Proof.
  intros Hok. destruct (field_head kv Hok) as (c & y & Hc & Hb). destruct Hok as (Hne & Hk & Hv & Ht).
  unfold field_read. case_decide as Hd.
  - assert (Hf : field_text kv = bytes_of_string (kv.1 +:+ ":") ++ [32]).
    { rewrite field_bytes, bytes_of_app, Hd. simpl. by rewrite <- app_assoc. }
    rewrite Hf, trim_back; [by rewrite string_of_bytes_of|done| |by rewrite bytes_of_app; destruct (bytes_of_string kv.1)].
    intros d [Hd'|Hd'].
    + rewrite Hc in Hf. rewrite bytes_of_app in *. destruct kv.1 as [|a k]; [done|].
      simpl in *. injection Hf as -> _. by injection Hd' as <-.
    + rewrite bytes_of_app, last_app in Hd'. simpl in Hd'. by injection Hd' as <-.
  - rewrite trim_id; [unfold field_text; by rewrite string_of_bytes_of|].
    intros d [Hd'|Hd'].
    + rewrite Hc in Hd'. by injection Hd' as <-.
    + rewrite field_bytes, !last_app in Hd'. apply Ht. right. revert Hd'.
      destruct (last (bytes_of_string kv.2)) eqn:Hl; [done|]. apply last_None in Hl.
      by destruct kv.2.
Qed.

Lemma field_read_added kv m :
  field_ok kv → header_field (field_read kv) m = Some (header_Add (canonical true kv.1) kv.2 m).
Proof.
  intros (Hne & Hk & Hv & Ht). unfold header_field, field_read.
  rewrite (Cut_lacks ":") by (by eapply all_chars_lacks).
  assert (Hc : canonicalMIMEHeaderKey kv.1 = Some (canonical true kv.1)).
  { unfold canonicalMIMEHeaderKey. destruct kv.1 as [|a k] eqn:E; [done|]. rewrite <- E in *.
    rewrite (all_chars_mono _ _ _ (λ c Hc, orb_true_intro _ _ (or_introl Hc)) Hk). by rewrite Hk. }
  rewrite Hc. cbn [mbind option_bind]. case_decide as Hd; [by rewrite Hd|].
  rewrite all_chars_app, Hv. cbn [all_chars andb]. simpl.
  do 2 f_equal. destruct kv.2 as [|a v]; [done|]. simpl. by rewrite (Ht (code a)) by (by left).
Qed.

Lemma header_text_head fs rest :
  Forall field_ok fs → ∃ c y, header_text fs ++ rest = c :: y ∧ is_blank c = false.
Proof.
  intros Hok. destruct fs as [|kv fs]; [by eexists _, _|]. apply Forall_cons in Hok as [Hkv _].
  destruct (field_head kv Hkv) as (c & y & Hc & Hb). exists c. unfold header_text. simpl.
  rewrite Hc. simpl. eexists. by split.
Qed.

Lemma header_text_cons kv fs rest :
  header_text (kv :: fs) ++ rest = (field_text kv ++ [13]) ++ 10 :: header_text fs ++ rest.
Proof. unfold header_text. simpl. by rewrite <- !app_assoc. Qed.

Lemma value_no_newline s : all_chars validHeaderValueByte s = true → 10 ∉ bytes_of_string s.
Proof.
  intros Hs. change 10 with (code "010"). apply bytes_lack. by eapply all_chars_lacks.
Qed.

Lemma field_no_newline kv : field_ok kv → 10 ∉ field_text kv ++ [13].
Proof.
  intros (_ & Hk & Hv & _). rewrite field_bytes, !not_elem_of_app. split_and!.
  - change 10 with (code "010"). apply bytes_lack. by eapply all_chars_lacks.
  - set_solver.
  - by apply value_no_newline.
  - set_solver.
Qed.

Lemma trim_nil_read kv : field_ok kv → trim (field_text kv) ≠ [].
Proof.
  intros Hok E. pose proof (field_trim kv Hok) as Hf. rewrite E in Hf. simpl in Hf.
  unfold field_read in Hf. destruct Hok as (Hne & _). by destruct kv.1.
Qed.

Lemma header_loop_ready fuel s l fs m rest :
  ready s l (header_text fs ++ rest) → Forall field_ok fs → (length fs < fuel)%nat →
  ∃ s', header_loop buf fuel m s = (Ok (header_map fs m), s') ∧ reads s l s' rest ∧ past s'.
Proof.
  revert s l fs m. induction fuel as [|fuel IH]; intros s l fs m Hs Hok Hf; [lia|]. cbn [header_loop].
  destruct fs as [|kv fs].
  - destruct (continued_blank s l [13] rest Hs) as (s1 & Hr & Hrd); [set_solver|done|].
    rewrite (bind_ok _ _ _ _ _ Hr). rewrite decide_True by done. by exists s1.
  - apply Forall_cons in Hok as [Hkv Hok]. rewrite header_text_cons in Hs.
    destruct (header_text_head fs rest Hok) as (c & y & Hcy & Hb). rewrite Hcy in Hs.
    destruct (continued_ready s l _ c y Hs) as (s1 & Hr & l1 & Hs1 & Hsuf & Ho);
      [by apply field_no_newline|rewrite strip_cr_return..|done|].
    + by destruct (field_head kv Hkv) as (? & ? & -> & _).
    + rewrite field_bytes. set_solver.
    + rewrite strip_cr_return in Hr. rewrite (bind_ok _ _ _ _ _ Hr).
      rewrite decide_False by (by apply trim_nil_read). rewrite field_trim, field_read_added by done.
      rewrite <- Hcy in Hs1. destruct (IH s1 l1 fs (header_Add (canonical true kv.1) kv.2 m) Hs1 Hok)
        as (s2 & Hr2 & Hrd2 & Hp); [simpl in Hf; lia|].
      exists s2. split_and!; [done|by eapply reads_trans|done].
Qed.

Lemma header_text_length fs : (length fs < length (header_text fs))%nat.
Proof.
  induction fs as [|kv fs IH]; [simpl; lia|]. pose proof (header_text_cons kv fs []) as H.
  rewrite !app_nil_r in H. rewrite H, length_app. simpl. lia.
Qed.

Lemma ReadMIMEHeader_ready s l fs rest :
  ready s l (header_text fs ++ rest) → Forall field_ok fs →
  ∃ s', ReadMIMEHeader buf s = (Ok (header_map fs ∅), s') ∧ reads s l s' rest ∧ past s'.
Proof.
  intros Hs Hok. destruct (header_text_head fs rest Hok) as (c & y & Hcy & Hb).
  pose proof Hs as Hs0. rewrite Hcy in Hs.
  destruct (Peek1_ready _ _ _ _ Hs) as (s1 & Hp1 & l1 & Hs1 & Hsuf1 & Ho1).
  destruct (Peek1_ready _ _ _ _ Hs1) as (s2 & Hp2 & l2 & Hs2 & Hsuf2 & Ho2).
  unfold ReadMIMEHeader. rewrite (bind_ok _ _ _ _ _ Hp1), (bind_ok _ _ _ _ _ Hp2), Hb. step_act.
  pose proof (rd_fuel_ready _ _ _ _ Hs2) as Hf. rewrite <- Hcy in Hs2, Hf.
  pose proof (header_text_length fs). rewrite length_app in Hf.
  destruct (header_loop_ready (rd_fuel buf s2) s2 l2 fs ∅ rest Hs2 Hok) as (s3 & Hr & Hrd & Hp); [lia|].
  exists s3. split_and!; [done| |done].
  eapply reads_trans; [by trans l1|by eapply only_buffer_trans|done].
Qed.

Lemma textproto_ReadLine_ready s l line rest :
  ready s l (bytes_of_string line ++ [13; 10] ++ rest) → 10 ∉ bytes_of_string line →
  ∃ s', textproto_ReadLine buf s = (Ok line, s') ∧ reads s l s' rest.
Proof.
  intros Hs Hl. change ([13; 10] ++ rest) with ([13] ++ 10 :: rest) in Hs. rewrite app_assoc in Hs.
  destruct (readLineSlice_ready _ _ _ _ Hs) as (s1 & Hr & Hrd & _).
  { apply not_elem_of_app. split; [done|]. set_solver. }
  exists s1. split; [|done]. unfold textproto_ReadLine. rewrite (bind_ok _ _ _ _ _ Hr).
  by rewrite strip_cr_return, string_of_bytes_of.
Qed.

(** ** Bodies *)

Lemma drop_past s l str a z : ready s l str → b_buf s = a ++ z → a ≠ [] → past (set_b_buf z s).
Proof.
  intros [Hf He Hr (e & i & post & own & -> & Hb & Hrd & Hne & Hbuf & Hj & _)] Hz Ha.
  exists e, i. split; [done|]. simpl in Hbuf. rewrite <- Hbuf, Hz in Hj.
  apply just_before_length in Hj; [|apply (rd_index _ _ _ _ Hrd)]. rewrite length_app in Hj.
  unfold Buffered. simpl. destruct a; [done|]. simpl in Hj. lia.
Qed.

(** A read of the buffer by a reader that holds nothing, and what it would hold. *)
Lemma Read_ready s l str :
  ready s l str → b_buf s = [] → str ≠ [] →
  ∃ bs b' rest, rd_on_buffer buf (Read defaultBufSize) s = (Ok bs, heap_with b' s) ∧ bs ≠ [] ∧
    str = bs ++ rest ∧
    ∃ l', ready (set_b_buf bs (heap_with b' s)) l' str ∧ l' `suffix_of` l ∧ only_buffer s (heap_with b' s).
Proof.
  intros [Hf He Hr (e & i & post & own & -> & Hb & Hrd & Hne & Hbuf & Hj & Hstr & _ & Hg)] Hemp Hs.
  rewrite Hemp in Hstr. simpl in Hstr. subst str. pose proof Hne as [_ Hne']%Forall_cons.
  destruct (Read_located _ _ _ _ 4096 Hrd Hne') as
    (bs & e' & i' & post' & Hread & Hrd2 & Hbs & Hbl & Hj2 & Hsp & Hsuf & Hgap); [lia|done|].
  exists bs, (at_pos e' i'), (readable (at_pos e' i')). split; [by eapply rd_buffer_ok|].
  split_and!; [done|done|]. exists (e' :: post'). split_and!; [|done|].
  - split; simpl; [done|done|done|]. exists e', i', post', bs. split_and!; try done.
    + apply lookup_insert_eq.
    + destruct Hsuf as [k Hk]. unfold nonempty in *. rewrite Hk, Forall_app in Hne. apply Hne.
    + by rewrite <- Hg.
  - split; [done|]. intros loc Hloc. simpl. by rewrite lookup_insert_ne.
Qed.

Lemma bufio_Read_ready s l str plen :
  ready s l str → str ≠ [] → 0 < plen ≤ defaultBufSize →
  ∃ bs rest s', bufio_Read buf plen s = (Ok bs, s') ∧ bs ≠ [] ∧ Z.of_nat (length bs) ≤ plen ∧
    str = bs ++ rest ∧ reads s l s' rest ∧ past s'.
Proof.
  intros Hs Hne Hp. unfold bufio_Read. step_act. rewrite (proj2 (Z.eqb_neq _ _)) by lia.
  destruct (b_buf s) as [|c y] eqn:Hb.
  - rewrite (st_err _ _ _ _ Hs).
    destruct (Read_ready _ _ _ Hs Hb Hne) as (bs & b' & rest & Hr & Hbs & -> & l' & Hs' & Hsuf & Ho).
    destruct (Z.leb_spec defaultBufSize plen) as [Hle|Hgt].
    + assert (plen = 4096) as -> by lia. exists bs, rest, (heap_with b' s). split; [done|].
      pose proof (st_room _ _ _ _ Hs') as Hroom. split_and!; [done|done|done|..].
      all: pose proof (drop_past _ _ _ bs [] Hs' (eq_sym (app_nil_r _)) Hbs) as Hpast.
      all: pose proof (ready_drop _ _ bs rest Hs' [] (eq_sym (app_nil_r _))) as Hd.
      all: assert (Heq : set_b_buf [] (set_b_buf bs (heap_with b' s)) = heap_with b' s)
        by (unfold heap_with, set_rd_heap, set_b_buf; simpl; by rewrite Hb).
      all: rewrite Heq in Hd, Hpast.
      2: done.
      by eapply (reads_trans _ _ (set_b_buf bs (heap_with b' s))).
    + rewrite (bind_ok _ _ _ _ _ Hr). step_act.
      exists (take (Z.to_nat plen) bs), (drop (Z.to_nat plen) bs ++ rest), (set_b_buf (drop (Z.to_nat plen) bs) (heap_with b' s)).
      assert (Htk : take (Z.to_nat plen) bs ≠ []).
      { destruct bs; [done|]. destruct (Z.to_nat plen) eqn:E; [lia|done]. }
      rewrite app_assoc, take_drop. split_and!; [done|done|rewrite length_take; lia|done|..].
      * pose proof (ready_drop (set_b_buf bs (heap_with b' s)) l' (take (Z.to_nat plen) bs)
          (drop (Z.to_nat plen) bs ++ rest)) as Hd. rewrite app_assoc, take_drop in Hd.
        specialize (Hd Hs' (drop (Z.to_nat plen) bs) (eq_sym (take_drop _ _))).
        by eapply (reads_trans _ _ (set_b_buf bs (heap_with b' s))).
      * exact (drop_past _ _ _ _ _ Hs' (eq_sym (take_drop (Z.to_nat plen) bs)) Htk).
  - step_act. pose proof Hs as [_ _ _ (e & i & post & own & _ & _ & _ & _ & _ & _ & Hstr & _)].
    exists (take (Z.to_nat plen) (c :: y)), (drop (Z.to_nat plen) (c :: y) ++ readable (at_pos e i)).
    eexists. split; [done|]. rewrite app_assoc, take_drop, <- Hb.
    assert (Htk : take (Z.to_nat plen) (b_buf s) ≠ []).
    { rewrite Hb. by destruct (Z.to_nat plen) eqn:E; [lia|]. }
    split_and!; [done|rewrite length_take; lia|done| |].
    2:{ exact (drop_past _ _ _ _ _ Hs (eq_sym (take_drop (Z.to_nat plen) (b_buf s))) Htk). }
    + apply (ready_drop s l (take (Z.to_nat plen) (b_buf s))); [|by rewrite take_drop].
      by rewrite app_assoc, take_drop, <- Hstr.
Qed.

Lemma read_full_done fuel got plen s :
  plen ≤ Z.of_nat (length got) → read_full buf fuel got plen s = (Ok (got, None), s).
Proof. intros H. destruct fuel; simpl; by rewrite decide_True. Qed.

Lemma read_full_ready fuel s l got body rest plen :
  ready s l (body ++ rest) → Z.of_nat (length got + length body) = plen → plen ≤ defaultBufSize →
  (length body ≤ fuel)%nat →
  ∃ s', read_full buf fuel got plen s = (Ok (got ++ body, None), s') ∧ reads s l s' rest ∧
    (body ≠ [] → past s').
Proof.
  revert s l got body. induction fuel as [|fuel IH]; intros s l got body Hs Hlen Hp Hf.
  { assert (body = []) as -> by (apply nil_length_inv; lia). exists s. simpl in *.
    rewrite decide_True, app_nil_r by lia. split_and!; [done|by apply reads_refl|done]. }
  cbn [read_full]. case_decide as Hd.
  { assert (body = []) as -> by (apply nil_length_inv; lia). exists s. rewrite app_nil_r.
    split_and!; [done|by apply reads_refl|done]. }
  destruct (bufio_Read_ready s l (body ++ rest) (plen - Z.of_nat (length got)) Hs)
    as (bs & rest' & s1 & Hr & Hbs & Hbl & Hsp & (l1 & Hs1 & Hsuf & Ho) & Hp1).
  { intros [-> _]%app_nil. simpl in *. lia. }
  { lia. }
  assert (∃ body', body = bs ++ body' ∧ rest' = body' ++ rest) as (body' & -> & ->).
  { apply app_eq_inv in Hsp as [(k & -> & ->)|(k & -> & ->)]; [by exists k|].
    rewrite length_app in Hbl. assert (k = []) as -> by (apply nil_length_inv; lia).
    exists []. by rewrite !app_nil_r. }
  rewrite (bind_ok _ _ _ _ _ (catch_ok _ _ _ _ Hr)). rewrite length_app in *.
  destruct bs as [|c bs]; [done|].
  destruct (IH s1 l1 (got ++ c :: bs) body' Hs1) as (s2 & Hr2 & Hrd2 & Hp2);
    [rewrite length_app; simpl in *; lia|done|simpl in *; lia|].
  exists s2. rewrite Hr2, <- app_assoc. split_and!; [done|by eapply reads_trans|].
  intros _. destruct body' as [|d body']; [|by apply Hp2].
  rewrite read_full_done in Hr2 by (rewrite length_app; simpl in *; lia). by injection Hr2 as _ <-.
Qed.

Lemma io_ReadFull_ready s l body rest :
  ready s l (body ++ rest) → Z.of_nat (length body) ≤ defaultBufSize →
  ∃ s', io_ReadFull buf (Z.of_nat (length body)) s = (Ok (body, None), s') ∧ reads s l s' rest ∧
    (body ≠ [] → past s').
Proof.
  intros Hs Hl. unfold io_ReadFull. step_act.
  apply (read_full_ready (rd_fuel buf s) s l [] body rest); [done|done|done|].
  pose proof (rd_fuel_ready _ _ _ _ Hs) as Hf. rewrite length_app in Hf. lia.
Qed.

Lemma body_loop_ready fuel s l body rest :
  ready s l (body ++ rest) → (length body ≤ fuel)%nat →
  ∃ s', body_loop buf fuel (Z.of_nat (length body)) s = (Ok None, s') ∧ reads s l s' rest ∧
    (body ≠ [] → past s').
Proof.
  revert s l body. induction fuel as [|fuel IH]; intros s l body Hs Hf.
  { assert (body = []) as -> by (apply nil_length_inv; lia). exists s.
    split_and!; [done|by apply reads_refl|done]. }
  cbn [body_loop]. case_decide as Hd.
  { assert (body = []) as -> by (apply nil_length_inv; lia). exists s.
    split_and!; [done|by apply reads_refl|done]. }
  set (n := if decide _ then _ else _).
  assert (Hn : 0 < n ≤ 4096 ∧ n ≤ Z.of_nat (length body)) by (unfold n; case_decide; lia).
  clearbody n. rewrite <- (take_drop (Z.to_nat n) body), <- app_assoc in Hs.
  assert (Hlt : Z.of_nat (length (take (Z.to_nat n) body)) = n) by (rewrite length_take; lia).
  destruct (io_ReadFull_ready _ _ _ _ Hs) as (s1 & Hr & (l1 & Hs1 & Hsuf & Ho) & Hp1); [lia|].
  rewrite Hlt in Hr. rewrite (bind_ok _ _ _ _ _ Hr). cbn iota beta zeta. rewrite Hlt.
  destruct (IH s1 l1 (drop (Z.to_nat n) body) Hs1) as (s2 & Hr2 & Hrd2 & Hp2); [rewrite length_drop; lia|].
  rewrite length_drop in Hr2. replace (Z.of_nat (length body - Z.to_nat n)) with (Z.of_nat (length body) - n) in Hr2 by lia.
  exists s2. split_and!; [done|by eapply reads_trans|].
  intros _. destruct (drop (Z.to_nat n) body) as [|d rest'] eqn:Hdr; [|by apply Hp2].
  apply (f_equal length) in Hdr. rewrite length_drop in Hdr. simpl in Hdr.
  assert (Hs12 : s2 = s1).
  { replace (Z.of_nat (length body) - n) with 0 in Hr2 by lia. destruct fuel; by injection Hr2 as <-. }
  rewrite Hs12. apply Hp1. intros E. rewrite E in Hlt. simpl in Hlt. lia.
Qed.

(** ** Positions and slices *)

(** [p] is the position before the bytes [str], in the first of the chunks [l]. *)
Definition marks (l : list chunk) (str : list Z) (p : Position) : Prop :=
  ∃ e k post, l = e :: post ∧ p = MkPosition (Some e) k ∧ reading (at_pos e k) e k post ∧
    readable (at_pos e k) = str ∧ gap (validated b0) l = g.

Lemma just_before_bytes bs e i :
  just_before bs e i → 0 ≤ i ≤ Z.of_nat (length (bytes (evalue e))) →
  take (length bs) (drop (Z.to_nat (i - Z.of_nat (length bs))) (bytes (evalue e))) = bs.
Proof.
  intros Hj Hi. pose proof (just_before_length _ _ _ Hj (proj1 Hi)) as Hlen. destruct Hj as [k Hk].
  assert (Hlk : length k = Z.to_nat (i - Z.of_nat (length bs))).
  { apply (f_equal length) in Hk. rewrite length_take, length_app in Hk. lia. }
  rewrite <- Hlk. rewrite <- (take_drop (Z.to_nat i) (bytes (evalue e))), Hk.
  rewrite <- app_assoc, drop_app_length, take_app_length. done.
Qed.

Lemma rd_buffer_same {A} (m : method A) s b a :
  buffers (rd_heap s) !! buf = Some b → m b = (Ok a, b) → rd_on_buffer buf m s = (Ok a, s).
Proof.
  intros Hb Hm. rewrite (rd_buffer_ok m s b a b Hb Hm). f_equal. unfold heap_with.
  rewrite insert_id by done. by destruct s as [[]].
Qed.

(** The position of the unread bytes. *)
Lemma unread_marks_at s l str :
  ready s l str →
  ∃ e i post, l = e :: post ∧ buffers (rd_heap s) !! buf = Some (at_pos e i) ∧
    0 ≤ Buffered s ≤ i ∧ i ≤ BufferLen (evalue e) ∧
    unreadPosition buf s = (Ok (Some (MkPosition (Some e) (i - Buffered s))), s) ∧
    marks l str (MkPosition (Some e) (i - Buffered s)).
Proof.
  intros [Hf He Hr (e & i & post & own & -> & Hb & Hrd & Hne & Hbuf & Hj & Hstr & _ & Hg)].
  simpl in Hbuf. subst own. pose proof (rd_index _ _ _ _ Hrd) as Hi.
  pose proof (reading_wf _ _ _ _ Hrd) as [Hwl%wf_length _].
  pose proof (just_before_length _ _ _ Hj (proj1 Hi)) as Hlen.
  pose proof (reading_move _ _ _ _ (i - Buffered s) Hrd) as Hrd'. unfold Buffered in *.
  exists e, i, post. split_and!; [done|done|lia|lia|lia| |].
  - unfold unreadPosition. step_act. eapply rd_buffer_same; [done|].
    unfold OffsetPosition. step_act. rewrite (rd_current _ _ _ _ Hrd). step_act.
    unfold Buffered. case_decide as Hz; [by replace (i - Z.of_nat (length (b_buf s))) with i by lia|].
    step_act. cbn [offset_loop element bufIndex]. rewrite decide_True by lia. done.
  - exists e, (i - Z.of_nat (length (b_buf s))), post. split_and!; [done|done|apply Hrd'; lia| |done].
    assert (Hrd2 : reading (at_pos e (i - Z.of_nat (length (b_buf s)))) e (i - Z.of_nat (length (b_buf s))) post)
      by (apply Hrd'; lia).
    rewrite (readable_inside _ _ _ _ (Z.of_nat (length (b_buf s))) Hrd2) by lia.
    rewrite Nat2Z.id, just_before_bytes by (done || lia). rewrite Hstr. f_equal.
    replace (i - Z.of_nat (length (b_buf s)) + Z.of_nat (length (b_buf s))) with i by lia. done.
Qed.

Lemma unread_marks s l str :
  ready s l str → ∃ p, unreadPosition buf s = (Ok (Some p), s) ∧ marks l str p.
Proof. intros (e & i & post & _ & _ & _ & _ & Hp & Hm)%unread_marks_at. eauto. Qed.

(** The slice at [loc] of the connection buffer: its bytes and its data ids. *)
Definition part (h : heap) (loc : positive) (m : list Z) (i : DataIDRange) : Prop :=
  is_part h buf loc i ∧
  ∃ b, buffers h !! loc = Some b ∧ head_stream b = m ∧
    DataID <$> FirstSocketBuffer b = Some (From i) ∧ DataID <$> LastSocketBuffer b = Some (To i) ∧
    DataSize b = (Ok (Z.of_nat (length m)), b).

(** The range of the data between two positions. *)
Definition range_between (p1 p2 : Position) (i : DataIDRange) : Prop :=
  position_DataID p1 = Some (From i) ∧ position_DataID p2 = Some (To i) ∧
  position_finished p2 = Some (IsToBufferReadFinished i).

(** No chunk is the last one of data that the kernel did not send in full. *)
Definition nothing_cut (l : list chunk) : Prop :=
  Forall (λ x, IsFinished (evalue x) && HaveReduceDataAfterChunk (evalue x) = false) l.

(** The chunks of two marks. *)
Lemma marks_between l1 l2 m str p1 p2 :
  marks l1 (m ++ str) p1 → marks l2 str p2 → l2 `suffix_of` l1 →
  ∃ pre w s c post i j, dataEvents b0 = pre ++ w ++ c :: post ∧ p1 = MkPosition (Some s) i ∧
    p2 = MkPosition (Some c) j ∧ list.head (w ++ [c]) = Some s ∧ unique (dataEvents b0) ∧
    Forall (λ x, wf_chunk (evalue x)) (dataEvents b0) ∧ 0 ≤ i ≤ BufferLen (evalue s) ∧
    0 ≤ j ≤ BufferLen (evalue c) ∧ (w = [] → i ≤ j) ∧
    stream (dataEvents b0) p1 = m ++ stream (dataEvents b0) p2.
Proof.
  intros (s & i & post1 & -> & -> & Hr1 & Hs1 & Hg1) (c & j & post & -> & -> & Hr2 & Hs2 & Hg2) [w Hw].
  destruct (rd_list _ _ _ _ Hr1) as [pre Hl]. cbn [at_pos dataEvents move_current set_current] in Hl.
  pose proof (rd_index _ _ _ _ Hr1) as Hi. pose proof (rd_index _ _ _ _ Hr2) as Hj.
  pose proof (readable_stream _ _ _ _ Hr1) as Hst1. pose proof (readable_stream _ _ _ _ Hr2) as Hst2.
  rewrite Hs1 in Hst1. rewrite Hs2 in Hst2. cbn [at_pos dataEvents validated move_current set_current] in *.
  rewrite Hg1 in Hst1. rewrite Hg2 in Hst2.
  exists pre, w, s, c, post, i, j. rewrite Hw in Hl.
  split_and!; try done; [by destruct w; simplify_eq/=|apply (rd_unique _ _ _ _ Hr1)|apply (rd_wf _ _ _ _ Hr1)|lia..| |].
  - intros ->. simplify_eq/=. pose proof (reading_wf _ _ _ _ Hr1) as [Hwf%wf_length _].
    rewrite (reading_readable _ _ _ _ Hr1), (reading_readable _ _ _ _ Hr2) in Hs1.
    apply (f_equal length) in Hs1. cbn [chain at_pos validated move_current set_current] in Hs1.
    rewrite length_app, !length_drop, !length_app in Hs1. lia.
  - by rewrite Hst1, Hst2, app_assoc.
Qed.

(** The buffer a slice allocates. *)
Definition slice_buffer (id : positive) (values : list SocketDataBuffer) (i : Z) (p2 : Position) : Buffer :=
  let l := number id values in
  let p := Some (MkPosition (list.head l) i) in
  MkBuffer l [] true false p p 0 (Some buf) (Some p2).

Lemma slice_buffer_part h loc id first values i p2 rg :
  buffers h !! loc = Some (slice_buffer id (first :: values) i p2) → DataID first = From rg →
  DataID <$> last (first :: values) = Some (To rg) → position_DataID p2 = Some (To rg) →
  position_finished p2 = Some (IsToBufferReadFinished rg) →
  Forall wf_chunk (first :: values) → 0 ≤ i ≤ BufferLen first →
  part h loc (drop (Z.to_nat i) ((first :: values) ≫= bytes)) rg.
Proof.
  intros Hb Hfirst Hlast Hp2 Hfin Hwf Hi.
  pose proof (stream_number id (first :: values) i) as Hst.
  pose proof (number_unique id (first :: values)) as Hu.
  assert (Hwf' : Forall (λ x, wf_chunk (evalue x)) (number id (first :: values))).
  { pose proof Hwf as H. rewrite <- (number_values id (first :: values)) in H. exact (proj1 (Forall_fmap evalue _ _) H). }
  split.
  - eexists _, _, _. split_and!; [done|done|done|by rewrite <- Hfirst|done|done|done|done|done].
  - eexists. split; [done|]. split_and!.
    + unfold head_stream. simpl head. by rewrite <- Hst.
    + by rewrite <- Hfirst.
    + rewrite <- Hlast. unfold LastSocketBuffer. f_equal. cbn [slice_buffer dataEvents].
      by rewrite <- (fmap_last evalue), number_values.
    + assert (Hsz : data_size (slice_buffer id (first :: values) i p2) (MkPosition (Some (Elem id first)) i) =
        Z.of_nat (length (drop (Z.to_nat i) ((first :: values) ≫= bytes)))); [rewrite <- Hst|].
      2:{ rewrite <- Hsz. reflexivity. }
      by apply (data_size_stream (slice_buffer id (first :: values) i p2) [] _ (number (Pos.succ id) values)).
Qed.

Lemma slice_values_wf w c j s :
  Forall (λ x, wf_chunk (evalue x)) (w ++ [c]) → 0 ≤ j ≤ BufferLen (evalue c) →
  list.head (w ++ [c]) = Some s →
  ∃ first values, (evalue <$> w) ++ [SocketDataEventLimited (evalue c) 0 j] = first :: values ∧
    event_of first = event_of (evalue s) ∧ Forall wf_chunk (first :: values) ∧
    BufferLen first = (if decide (w = []) then j else BufferLen (evalue s)).
Proof.
  intros [Hw [Hc _]%Forall_cons]%Forall_app Hj Hs.
  assert (Hlim : wf_chunk (SocketDataEventLimited (evalue c) 0 j)) by (simpl; split_and!; done || lia).
  destruct w as [|x w]; simplify_eq/=.
  - eexists _, []. split; [done|]. split_and!; [done|by constructor|simpl; lia].
  - eexists _, _. split; [done|]. split_and!; [done| |done]. apply Forall_cons in Hw as [Hx Hw].
    constructor; [done|]. apply Forall_app. split; [by apply Forall_fmap|by constructor].
Qed.

Lemma not_cut_slice id values i p2 :
  Forall (λ v, IsFinished v && HaveReduceDataAfterChunk v = false) values →
  DetectNotSendingLastPosition (slice_buffer id values i p2) = None.
Proof.
  intros H. unfold DetectNotSendingLastPosition. cbn [slice_buffer dataEvents].
  assert (filter (λ e, IsFinished (evalue e) && HaveReduceDataAfterChunk (evalue e) = true) (number id values) = [])
    as ->; [|done].
  clear p2. revert id. induction H as [|v values Hv H IH]; intros id; [done|]. simpl.
  rewrite filter_cons_False by (simpl; congruence). apply IH.
Qed.

(** A slice between two marks holds the bytes between them; nothing else changes. *)
Lemma slice_part s l1 l2 m str p1 p2 e i :
  buffers (rd_heap s) !! buf = Some (at_pos e i) → (buf < fresh (rd_heap s))%positive →
  marks l1 (m ++ str) p1 → marks l2 str p2 → l2 `suffix_of` l1 →
  ∃ loc h' rg, slice_between buf (Some p1) (Some p2) s = (Ok loc, set_rd_heap h' s) ∧
    range_between p1 p2 rg ∧ part h' loc m rg ∧
    (fresh (rd_heap s) ≤ loc < fresh h')%positive ∧
    (∀ x, (x < fresh (rd_heap s))%positive → buffers h' !! x = buffers (rd_heap s) !! x) ∧
    (nothing_cut (dataEvents b0) →
     ∀ sb, buffers h' !! loc = Some sb → DetectNotSendingLastPosition sb = None).
Proof.
  intros Hb Hf Hm1 Hm2 Hsuf.
  destruct (marks_between _ _ _ _ _ _ Hm1 Hm2 Hsuf) as
    (pre & w & a & c & post & i1 & j & Hl & -> & -> & Ha & Hu & Hwf & Hi & Hj & Hij & Hst).
  set (values := (evalue <$> w) ++ [SocketDataEventLimited (evalue c) 0 j]).
  set (p2 := MkPosition (Some c) j) in *.
  set (loc := (fresh (rd_heap s) + Pos.of_succ_nat (length values))%positive).
  set (h' := MkHeap (<[loc := slice_buffer (fresh (rd_heap s)) values i1 p2]> (buffers (rd_heap s))) (Pos.succ loc)).
  exists loc, h', (MkDataIDRange (DataID (evalue a)) (DataID (evalue c)) (j =? BufferLen (evalue c))).
  assert (Hwc : Forall (λ x, wf_chunk (evalue x)) (w ++ [c])).
  { rewrite Hl, !Forall_app, Forall_cons in Hwf. rewrite Forall_app, Forall_singleton. naive_solver. }
  destruct (slice_values_wf w c j a Hwc Hj Ha) as (first & vs & Hvs & Hev & Hwv & Hbl). fold values in Hvs.
  assert (Hb' : buffers h' !! loc = Some (slice_buffer (fresh (rd_heap s)) values i1 p2)) by apply lookup_insert_eq.
  split_and!.
  - unfold slice_between. step_act. unfold rd_on_heap, Slice, deref. step_act. rewrite Hb. step_act.
    pose proof (slice_values_run (at_pos e i) pre w c post i1 j Hl Hu) as Hv. rewrite Ha in Hv.
    fold p2 in Hv. rewrite Hv. step_act. done.
  - by split_and!.
  - rewrite Hl in Hst, Hu, Hwf. rewrite (slice_stream pre w c post i1 j a) in Hst by done.
    apply app_inv_tail in Hst. fold values in Hst. rewrite Hvs in Hst, Hb'. rewrite <- Hst.
    eapply slice_buffer_part; try done.
    + unfold DataID. by rewrite Hev.
    + rewrite <- Hvs. unfold values. by rewrite last_snoc.
    + rewrite Hbl. case_decide; [by split; [lia|apply Hij]|done].
  - lia.
  - simpl. lia.
  - intros x Hx. simpl. apply lookup_insert_ne. lia.
  - intros Hcut sb Hsb. rewrite Hb' in Hsb. injection Hsb as <-. apply not_cut_slice.
    unfold nothing_cut in Hcut. rewrite Hl, !Forall_app, Forall_cons in Hcut.
    apply Forall_app. split; [apply Forall_fmap; naive_solver|apply Forall_singleton; naive_solver].
Qed.

(** ** Parts of messages *)

(** Slices may be allocated, and the connection buffer may move. *)
Definition grows (s s' : rd) : Prop :=
  (fresh (rd_heap s) ≤ fresh (rd_heap s'))%positive ∧
  ∀ x, x ≠ buf → (x < fresh (rd_heap s))%positive → buffers (rd_heap s') !! x = buffers (rd_heap s) !! x.

Lemma grows_refl s : grows s s.
Proof. by split. Qed.

Lemma grows_trans s s' s'' : grows s s' → grows s' s'' → grows s s''.
Proof.
  intros [H1 H2] [H3 H4]. split; [lia|]. intros x Hx Hlt. rewrite H4 by (done || lia). by apply H2.
Qed.

Lemma only_buffer_grows s s' : only_buffer s s' → grows s s'.
Proof. intros [H1 H2]. split; [lia|]. intros x Hx _. by apply H2. Qed.

(** The state holds the slice [loc] of the bytes [m], which starts in the first of the chunks
    [l0] and ends in the first of the chunks [l]. *)
Definition holds (s : rd) (loc : positive) (m : list Z) (l0 l : list chunk) : Prop :=
  (buf < loc)%positive ∧ (loc < fresh (rd_heap s))%positive ∧
  ∃ rg, part (rd_heap s) loc m rg ∧
    DataID ∘ evalue <$> list.head l0 = Some (From rg) ∧ DataID ∘ evalue <$> list.head l = Some (To rg).

Lemma part_lookup h h' loc m rg :
  buffers h' !! loc = buffers h !! loc → part h loc m rg → part h' loc m rg.
Proof.
  intros Hl [(b & hp & ep & Hb & Hp) (b' & Hb' & Hp')]. split; [exists b, hp, ep|exists b'];
    by rewrite Hl.
Qed.

Lemma holds_grows s s' loc m l0 l : holds s loc m l0 l → grows s s' → holds s' loc m l0 l.
Proof.
  intros (Hne & Hlt & rg & Hp & H) [Hf Hg]. split_and!; [done|lia|]. exists rg. split; [|done].
  eapply part_lookup; [|done]. apply Hg; lia.
Qed.

(** A slice is cut out of what the reader has passed. *)
Lemma slice_ready s l0 l m str p0 p :
  ready s l str → marks l0 (m ++ str) p0 → marks l str p → l `suffix_of` l0 →
  ∃ loc s', slice_between buf (Some p0) (Some p) s = (Ok loc, s') ∧ ready s' l str ∧ grows s s' ∧
    b_buf s' = b_buf s ∧ (past s → past s') ∧ holds s' loc m l0 l ∧
    (nothing_cut (dataEvents b0) →
     ∀ sb, buffers (rd_heap s') !! loc = Some sb → DetectNotSendingLastPosition sb = None).
Proof.
  intros Hs Hm0 Hm Hsuf. pose proof Hs as [Hf He Hr (e & i & post & own & -> & Hb & Hat)].
  destruct (slice_part s l0 (e :: post) m str p0 p e i Hb Hf Hm0 Hm Hsuf)
    as (loc & h' & rg & Hrun & (Hr1 & Hr2 & Hr3) & Hpart & Hloc & Hold & Hcut).
  assert (Hbuf : buffers h' !! buf = Some (at_pos e i)) by (rewrite Hold by lia; done).
  exists loc, (set_rd_heap h' s). split_and!; try done.
  - split; simpl; [lia|done|done|]. exists e, i, post, own. by split; [|split].
  - split; [simpl; lia|]. intros x Hx Hlt. by apply Hold.
  - intros (e' & i' & Hb' & Hlt). exists e', i'. simpl.
    split; [congruence|done].
  - split_and!; [lia|simpl; lia|]. exists rg. split; [done|]. destruct Hm0 as (e0 & k0 & post0 & -> & -> & _).
    destruct Hm as (e1 & k1 & post1 & [= -> ->] & -> & _). split; [exact Hr1|exact Hr2].
Qed.

Lemma buildHeaderBuffer_ready s l0 l m str p0 :
  ready s l str → marks l0 (m ++ str) p0 → l `suffix_of` l0 →
  ∃ loc s', buildHeaderBuffer buf p0 s = (Ok loc, s') ∧ ready s' l str ∧ grows s s' ∧
    (past s → past s') ∧ holds s' loc m l0 l.
Proof.
  intros Hs Hm0 Hsuf. destruct (unread_marks _ _ _ Hs) as (p & Hp & Hm).
  destruct (slice_ready _ _ _ _ _ _ _ Hs Hm0 Hm Hsuf) as (loc & s' & Hrun & Hs' & Hg' & _ & Hpast & Hh & _).
  exists loc, s'. unfold buildHeaderBuffer. by rewrite (bind_ok _ _ _ _ _ Hp).
Qed.

Lemma reads_ready s l s' rest :
  reads s l s' rest → ∃ l', ready s' l' rest ∧ l' `suffix_of` l ∧ grows s s'.
Proof. intros (l' & H1 & H2 & H3%only_buffer_grows). by exists l'. Qed.

Lemma checkBodyWithSize_ready s l body str :
  ready s l (body ++ str) → nothing_cut (dataEvents b0) →
  ∃ loc s' l', checkBodyWithSize buf (Z.of_nat (length body)) true s = (Ok (Some loc, ParseResultSuccess), s') ∧
    ready s' l' str ∧ l' `suffix_of` l ∧ grows s s' ∧ (body ≠ [] → past s') ∧ holds s' loc body l l'.
Proof.
  intros Hs Hcut. destruct (unread_marks _ _ _ Hs) as (p0 & Hp0 & Hm0).
  pose proof (rd_fuel_ready _ _ _ _ Hs) as Hf. rewrite length_app in Hf.
  destruct (body_loop_ready (rd_fuel buf s) s l body str Hs) as (s1 & Hr1 & (l' & Hs1 & Hsuf & Hg1)%reads_ready & Hp1);
    [lia|].
  destruct (unread_marks _ _ _ Hs1) as (p & Hp & Hm).
  destruct (slice_ready _ _ _ _ _ _ _ Hs1 Hm0 Hm Hsuf) as (loc & s2 & Hr2 & Hs2 & Hg2 & _ & Hpast & Hh & Hnc).
  exists loc, s2, l'. split; [|split_and!; [done|done|by eapply grows_trans|by auto|done]].
  unfold checkBodyWithSize. rewrite (bind_ok _ _ _ _ _ Hp0). step_act. rewrite (bind_ok _ _ _ _ _ Hr1).
  rewrite (bind_ok _ _ _ _ _ Hp), (bind_ok _ _ _ _ _ Hr2).
  pose proof Hh as (_ & _ & rg & [_ (sb & Hsb & _)] & _). specialize (Hnc Hcut sb Hsb).
  unfold DetectNotSending, rd_on_heap, deref, mbind, act_bind, get, lift. rewrite Hsb. simpl.
  rewrite Hnc. by destruct s2.
Qed.

(** The rest of the current chunk. *)
Lemma finish_packet_run fuel s e i post :
  buffers (rd_heap s) !! buf = Some (at_pos e i) → reading (at_pos e i) e i post →
  (Z.to_nat (BufferLen (evalue e) - i) < fuel)%nat →
  finish_packet buf fuel s = (Ok tt, heap_with (at_pos e (BufferLen (evalue e))) s).
Proof.
  revert s i. induction fuel as [|fuel IH]; intros s i Hb Hrd Hf; [lia|]. cbn [finish_packet].
  pose proof (rd_index _ _ _ _ Hrd) as Hi.
  assert (Hfin : rd_on_buffer buf IsCurrentPacketReadFinished s = (Ok (i =? BufferLen (evalue e)), s)).
  { eapply rd_buffer_same; [done|]. unfold IsCurrentPacketReadFinished. step_act.
    by rewrite (rd_current _ _ _ _ Hrd). }
  rewrite (bind_ok _ _ _ _ _ Hfin). destruct (Z.eqb_spec i (BufferLen (evalue e))) as [->|Hne].
  { unfold heap_with. rewrite insert_id by done. by destruct s as [[]]. }
  destruct (Read_inside _ _ _ _ 4096 Hrd) as (k & Hk & Hr & _); [lia|lia|].
  rewrite (bind_ok _ _ _ _ _ (rd_buffer_ok _ _ _ _ _ Hb Hr)).
  pose proof (reading_move _ _ _ _ (i + k) Hrd) as Hrd'.
  rewrite (IH _ (i + k)); [|apply lookup_insert_eq|apply Hrd'; lia|lia].
  unfold heap_with, set_rd_heap. simpl. by rewrite insert_insert_eq.
Qed.

Lemma packet_fuel s e i post :
  buffers (rd_heap s) !! buf = Some (at_pos e i) → reading (at_pos e i) e i post →
  (Z.to_nat (BufferLen (evalue e) - i) < rd_fuel buf s)%nat.
Proof.
  intros Hb Hrd. unfold rd_fuel. rewrite Hb. destruct (rd_list _ _ _ _ Hrd) as [pre ->].
  pose proof (reading_wf _ _ _ _ Hrd) as [Hwl%wf_length _]. pose proof (rd_index _ _ _ _ Hrd).
  rewrite bind_app, bind_cons, !length_app. lia.
Qed.

(** A body without a length is what the current chunk holds behind the head. *)
Lemma readBodyUntil_ready s l str :
  ready s l str →
  ∃ body rest loc s' e post, str = body ++ rest ∧ l = e :: post ∧
    readBodyUntilCurrentPackageFinished buf s = (Ok (Some loc, ParseResultSuccess), s') ∧
    grows s s' ∧ holds s' loc body l l ∧ (buf < fresh (rd_heap s'))%positive ∧
    buffers (rd_heap s') !! buf = Some (at_pos e (BufferLen (evalue e))) ∧
    reading (at_pos e (BufferLen (evalue e))) e (BufferLen (evalue e)) post ∧
    readable (at_pos e (BufferLen (evalue e))) = rest.
Proof.
  intros Hs. destruct (unread_marks _ _ _ Hs) as (p0 & Hp0 & Hm0).
  pose proof Hs as [Hf He Hr (e & i & post & own & -> & Hb & Hrd & Hne & Hbuf & Hj & Hstr & _ & Hg)].
  pose proof (rd_index _ _ _ _ Hrd) as Hi. pose proof (reading_wf _ _ _ _ Hrd) as [Hwl%wf_length _].
  set (n := BufferLen (evalue e)) in *.
  assert (Hrd' : reading (at_pos e n) e n post) by (apply (reading_move _ _ _ _ _ Hrd); lia).
  set (s1 := heap_with (at_pos e n) s).
  assert (Hm : marks (e :: post) (readable (at_pos e n)) (MkPosition (Some e) n)) by (by exists e, n, post).
  pose proof (readable_inside _ _ _ _ (n - i) Hrd) as Hin. replace (i + (n - i)) with n in Hin by lia.
  rewrite Hin, app_assoc in Hstr by lia. set (body := b_buf s ++ _) in Hstr.
  change (readable (move_current (Some e) n (at_pos e i))) with (readable (at_pos e n)) in Hstr.
  assert (Hb1 : buffers (rd_heap s1) !! buf = Some (at_pos e n)) by apply lookup_insert_eq.
  rewrite Hstr in Hm0.
  destruct (slice_part s1 _ _ _ _ p0 (MkPosition (Some e) n) e n Hb1 Hf Hm0 Hm ltac:(done))
    as (loc & h' & rg & Hrun & (Hr1 & Hr2 & _) & Hpart & Hloc & Hold & _).
  exists body, (readable (at_pos e n)), loc, (set_rd_heap h' s1), e, post.
  split_and!; try done.
  - unfold readBodyUntilCurrentPackageFinished. rewrite (bind_ok _ _ _ _ _ Hp0). step_act.
    rewrite (bind_ok _ _ _ _ _ (finish_packet_run (rd_fuel buf s) s e i post Hb Hrd
      (packet_fuel s e i post Hb Hrd))).
    assert (Hpos : rd_on_buffer buf Position_ s1 = (Ok (MkPosition (Some e) n), s1)).
    { eapply rd_buffer_same; [done|]. done. }
    fold n s1. rewrite (bind_ok _ _ _ _ _ Hpos). by rewrite (bind_ok _ _ _ _ _ Hrun).
  - split; [simpl in *; lia|]. intros x Hx Hlt. simpl. rewrite Hold by done. simpl.
    by rewrite lookup_insert_ne.
  - split_and!; [simpl in *; lia|simpl; lia|]. exists rg. split; [done|].
    destruct Hm0 as (e0 & k0 & post0 & [= <- <-] & -> & _). split; [exact Hr1|exact Hr2].
  - simpl in *. lia.
  - simpl. by rewrite Hold.
Qed.

(** ** The end of a message *)

Lemma nonempty_bytes (l : list chunk) :
  nonempty l → Forall (λ x, wf_chunk (evalue x)) l → (l ≫= λ x, bytes (evalue x)) = [] → l = [].
Proof.
  destruct l as [|x l]; [done|]. intros [Hx _]%Forall_cons [Hwf%wf_length _]%Forall_cons.
  rewrite bind_cons. intros [E _]%app_nil. rewrite E in Hwf. simpl in Hwf. lia.
Qed.

(** When the message is what the chunks [lm] hold, and the bytes [bd] of it that are still to
    be read are fewer than those of the last chunk [x], then the reader stands in [x]. *)
Lemma message_tail s l bd str l0 lm lr hd e0 i0 x :
  ready s l (bd ++ str) → past s → marks l0 (hd ++ bd ++ str) (MkPosition (Some e0) i0) → l `suffix_of` l0 →
  l0 = lm ++ lr → nonempty l0 → drop (Z.to_nat i0) (lm ≫= λ x, bytes (evalue x)) = hd ++ bd → hd ≠ [] →
  last lm = Some x → Z.of_nat (length bd) < BufferLen (evalue x) →
  ∃ w i, lm = w ++ [x] ∧ l = x :: lr ∧ buffers (rd_heap s) !! buf = Some (at_pos x i) ∧
    Buffered s + (BufferLen (evalue x) - i) = Z.of_nat (length bd).
Proof.
  intros Hs Hpast Hm0 Hsuf Hl0 Hne Hm Hmne Hlast Hbd.
  destruct (unread_marks_at _ _ _ Hs) as (e & i & post & -> & Hb & Hbuf & Hi & _ & Hme).
  assert (Hk : Buffered s < i).
  { destruct Hpast as (e' & i' & Hb' & Hlt). rewrite Hb in Hb'. by simplify_eq/=. }
  destruct (marks_between _ _ _ _ _ _ Hm0 Hme Hsuf) as
    (pre & w & a & c & post' & i1 & j & Hl & Hp0 & Hp & Ha & Hu & Hwf & _ & _ & _ & Hst).
  injection Hp0 as <- <-. injection Hp as <- <-.
  destruct Hsuf as [w' Hw']. pose proof Hm0 as (x0 & k & post0 & Hx & [= <- <-] & Hrd0 & _).
  pose proof Hme as (y & k' & post1 & [= <- <-] & [= <-] & Hrd & _).
  assert (Hwf0 : Forall (λ x, wf_chunk (evalue x)) l0).
  { rewrite Hx. pose proof (reading_wf _ _ _ _ Hrd0) as [? ?]. by constructor. }
  destruct (rd_list _ _ _ _ Hrd0) as [pre0 Hpre0]. destruct (rd_list _ _ _ _ Hrd) as [pre1 Hpre1].
  cbn [at_pos dataEvents move_current set_current] in Hpre0, Hpre1.
  pose proof (f_equal length Hst) as Hlen. rewrite length_app in Hlen.
  rewrite Hpre0 in Hlen at 1. rewrite Hpre1 in Hlen. rewrite Hpre0 in Hu at 1.
  rewrite stream_at in Hlen by done. rewrite <- Hpre0, Hpre1 in Hu.
  rewrite stream_at in Hlen by done. rewrite <- Hx, Hl0, bind_app in Hlen.
  rewrite !length_drop, length_app, bind_cons, length_app in Hlen.
  pose proof (f_equal length Hm) as Hmlen. rewrite length_drop, length_app in Hmlen.
  pose proof (reading_wf _ _ _ _ Hrd) as [Hwl%wf_length _].
  assert (Hdm : (0 < length hd)%nat) by (destruct hd; [done|simpl; lia]).
  rewrite Hl0 in Hw', Hne, Hwf0. apply Forall_app in Hwf0 as [Hwm Hwr].
  apply app_eq_inv in Hw' as [(z & -> & Hz)|(z & _ & ->)].
  2:{ exfalso. rewrite bind_app, bind_cons, !length_app in Hlen. lia. }
  destruct z as [|c z]; simpl in Hz.
  { exfalso. rewrite <- Hz, bind_cons, length_app in Hlen. lia. }
  injection Hz as <- ->. rewrite (bind_app _ z lr), (length_app (z ≫= _)), !bind_app, !length_app, bind_cons,
    length_app in *. 
  destruct z as [|c z _] using rev_ind.
  - rewrite last_snoc in Hlast. injection Hlast as <-. exists w', i. split_and!; [done|done|done|].
    simpl in Hlen, Hmlen. lia.
  - exfalso. rewrite app_comm_cons, app_assoc, last_snoc in Hlast. injection Hlast as <-.
    apply Forall_app in Hwm as [_ [_ [_ [Hwx%wf_length _]%Forall_cons]%Forall_app]%Forall_cons].
    rewrite bind_app, bind_cons, !length_app in Hlen, Hmlen. lia.
Qed.

(** When all of the message was read, the reader stands at the end of its last chunk and holds
    no byte of the next. *)
Lemma message_end s l str l0 lm lr m e0 i0 :
  ready s l str → past s → marks l0 (m ++ str) (MkPosition (Some e0) i0) → l `suffix_of` l0 →
  l0 = lm ++ lr → nonempty l0 → drop (Z.to_nat i0) (lm ≫= λ x, bytes (evalue x)) = m → m ≠ [] →
  ∃ w e, lm = w ++ [e] ∧ l = e :: lr ∧ b_buf s = [] ∧
    buffers (rd_heap s) !! buf = Some (at_pos e (BufferLen (evalue e))).
Proof.
  intros Hs Hpast Hm0 Hsuf Hl0 Hne Hm Hmne.
  destruct lm as [|x lm _] using rev_ind;
    [simpl in Hm; by rewrite drop_nil in Hm|].
  assert (Hx : 0 < BufferLen (evalue x)).
  { rewrite Hl0 in Hne. apply Forall_app in Hne as [[_ [Hx _]%Forall_cons]%Forall_app _]. done. }
  destruct (message_tail s l [] str l0 (lm ++ [x]) lr m e0 i0 x) as (w & i & Hw & -> & Hb & Hlen);
    try done; [by rewrite app_nil_r|by rewrite last_snoc|].
  destruct (unread_marks_at _ _ _ Hs) as (e & i' & post & [= <- <-] & Hb' & Hbuf & Hi & _).
  assert (i' = i) as -> by (rewrite Hb in Hb'; by simplify_eq/=). simpl in Hlen.
  exists lm, x. split_and!; [done|done| |].
  - apply nil_length_inv. unfold Buffered in *. lia.
  - rewrite Hb. do 2 f_equal. lia.
Qed.

(** The header says where the body ends: it has its length; or there is no length, and the
    body is what the chunk [x] that ends the message holds behind the head. *)
Definition body_framed (headers : Header) (body : list Z) (x : chunk) : Prop :=
  body ≠ [] ∧ Atoi (header_Get headers "Content-Length") = Some (Z.of_nat (length body)) ∨
  isChunked headers = false ∧ Z.of_nat (length body) < BufferLen (evalue x) ∧
    (header_Get headers "Content-Length" = "" ∨ Atoi (header_Get headers "Content-Length") = Some 0).

Lemma appointedLength_some headers n s :
  Atoi (header_Get headers "Content-Length") = Some n → appointedLength headers s = (Ok n, s).
Proof.
  intros Hn. unfold appointedLength. cbv zeta. case_decide as Hd; [by rewrite Hd in Hn|]. by rewrite Hn.
Qed.

(** What is left in the buffer of the connection after a message of the chunks [lm]. *)
Definition message_read (s' : rd) (lm : list chunk) : Prop :=
  ∃ w e, lm = w ++ [e] ∧ buffers (rd_heap s') !! buf = Some (at_pos e (BufferLen (evalue e))).

(** A body without a length is the rest of the last chunk of the message. *)
Lemma readBodyUntil_exact s l body str l0 lm lr hd e0 i0 x :
  ready s l (body ++ str) → past s → marks l0 (hd ++ body ++ str) (MkPosition (Some e0) i0) → l `suffix_of` l0 →
  l0 = lm ++ lr → nonempty l0 → drop (Z.to_nat i0) (lm ≫= λ x, bytes (evalue x)) = hd ++ body → hd ≠ [] →
  last lm = Some x → Z.of_nat (length body) < BufferLen (evalue x) →
  ∃ loc s', readBodyUntilCurrentPackageFinished buf s = (Ok (Some loc, ParseResultSuccess), s') ∧ grows s s' ∧
    holds s' loc body l (x :: lr) ∧ message_read s' lm ∧ l = x :: lr.
Proof.
  intros Hs Hpast Hm0 Hsuf Hl0 Hne Hlm Hhd Hx Hlen.
  destruct (message_tail s l body str l0 lm lr hd e0 i0 x Hs Hpast Hm0 Hsuf Hl0 Hne Hlm Hhd Hx Hlen)
    as (w & i & -> & -> & Hb & Hbd).
  destruct (readBodyUntil_ready _ _ _ Hs) as
    (body' & rest & loc & s' & e' & post' & Hstr & [= <- <-] & Hrun & Hg' & Hh & _ & Hb' & _ & Hrest).
  assert (body' = body) as ->.
  { destruct Hs as [_ _ _ (e' & i' & post' & own & [= <- <-] & Hb2 & Hrd & _ & _ & _ & Hstr2 & _)].
    assert (i' = i) as -> by (rewrite Hb in Hb2; by simplify_eq/=).
    pose proof (rd_index _ _ _ _ Hrd) as Hi. pose proof (reading_wf _ _ _ _ Hrd) as [Hwl%wf_length _].
    pose proof (readable_inside _ _ _ _ (BufferLen (evalue x) - i) Hrd) as Hin.
    replace (i + (BufferLen (evalue x) - i)) with (BufferLen (evalue x)) in Hin by lia.
    change (readable (move_current (Some x) (BufferLen (evalue x)) (at_pos x i)))
      with (readable (at_pos x (BufferLen (evalue x)))) in Hin.
    rewrite Hrest in Hin. rewrite Hin in Hstr2 by lia. apply (f_equal length) in Hstr2.
    rewrite !length_app, length_take, length_drop in Hstr2. unfold Buffered in Hbd.
    symmetry in Hstr. apply app_inj_1 in Hstr as [Hstr _]; [done|].
    apply (f_equal length) in Hstr. rewrite !length_app in Hstr. lia. }
  exists loc, s'. split_and!; [done..| |done]. by exists w, x.
Qed.

Lemma readFullBody_exact headers s l l0 lm lr hd body str e0 i0 x :
  ready s l (body ++ str) → past s → l `suffix_of` l0 →
  marks l0 (hd ++ body ++ str) (MkPosition (Some e0) i0) → l0 = lm ++ lr → nonempty l0 →
  drop (Z.to_nat i0) (lm ≫= λ x, bytes (evalue x)) = hd ++ body → hd ≠ [] → last lm = Some x →
  body_framed headers body x → nothing_cut (dataEvents b0) →
  ∃ loc s', readFullBody buf headers s = (Ok (Some loc, ParseResultSuccess), s') ∧ grows s s' ∧
    holds s' loc body l (x :: lr) ∧ message_read s' lm ∧ (x :: lr) `suffix_of` l.
Proof.
  intros Hs Hpast Hsuf Hm0 Hl0 Hne Hlm Hhd Hx Hframe Hcut. unfold readFullBody.
  destruct Hframe as [[Hb Hn]|(Hch & Hlen & Hn)].
  - rewrite app_assoc in Hm0. assert (Hmne : hd ++ body ≠ []) by (by intros [? _]%app_nil).
    destruct (checkBodyWithSize_ready _ _ _ _ Hs Hcut) as (loc & s' & l' & Hrun & Hs' & Hsuf' & Hg' & Hp' & Hh).
    destruct (message_end s' l' str l0 lm lr (hd ++ body) e0 i0 Hs' (Hp' Hb) Hm0) as (w & e & -> & -> & _ & Hbuf);
      [by trans l|done..|]. rewrite last_snoc in Hx. injection Hx as ->.
    exists loc, s'. rewrite (bind_ok _ _ _ _ _ (appointedLength_some _ _ _ Hn)).
    rewrite decide_True by (destruct body; [done|simpl; lia]). split_and!; [done..| |done].
    by exists w, x.
  - destruct (readBodyUntil_exact s l body str l0 lm lr hd e0 i0 x) as (loc & s' & Hrun & Hg & Hh & Hend & ->);
      [done..|].
    assert (∃ n, appointedLength headers s = (Ok n, s) ∧ n ≤ 0) as (n & Hal & Hn0).
    { destruct Hn as [Hn|Hn]; [exists (-1)|exists 0]; (split; [|lia]); [|by apply appointedLength_some].
      unfold appointedLength. cbv zeta. by rewrite decide_True. }
    exists loc, s'. rewrite (bind_ok _ _ _ _ _ Hal), decide_False, Hch by lia. by split_and!.
Qed.
End reader.
