(* ===== verification/Http1Laws.v ===== *)
(** * Requests and responses are read back

    A request or response that the chunks of a connection hold is read back exactly, however
    it is cut into chunks: its line, its header fields, and the slices of its head and body. *)

From stdpp Require Import base gmap list strings.
From Stdlib Require Import ZArith Lia Ascii.
From S2P Require Import Prelude GoStrings Interfaces ProcessMonitor Connection Ztunnel AccessLogTail Sender Delivery Tracing Events Buffer BufferOrder Http2 Http2Loop GoHttp Http1 Http1Stream.

(** ** The text of messages *)

Definition crlf : list Z := [13; 10].

Definition request_text (method uri proto : string) (fs : list (string * string)) : list Z :=
  bytes_of_string (method +:+ " " +:+ uri +:+ " " +:+ proto) ++ crlf ++ header_text fs.

Definition response_text (proto code reason : string) (fs : list (string * string)) : list Z :=
  bytes_of_string (proto +:+ " " +:+ code +:+ " " +:+ reason) ++ crlf ++ header_text fs.

Lemma request_line_parts method uri proto :
  lacks " " method = true → lacks " " uri = true →
  request_line (method +:+ " " +:+ uri +:+ " " +:+ proto) = Some (method, uri, proto).
Proof. intros Hm Hu. unfold request_line. by rewrite (Cut_lacks " " method), (Cut_lacks " " uri). Qed.

Lemma method_chars method :
  method ∈ requestMethods → lacks " " method = true ∧ 10 ∉ bytes_of_string method ∧
  existsb (String.eqb method) requestMethods = true.
Proof.
  intros Hm. repeat (apply elem_of_cons in Hm as [->|Hm];
    [split_and!; [reflexivity|apply (bytes_lack "010"); reflexivity|reflexivity]|]).
  by apply elem_of_nil in Hm.
Qed.

Lemma version_chars proto version :
  ParseHTTPVersion proto = Some version → lacks " " proto = true ∧ 10 ∉ bytes_of_string proto.
Proof.
  intros H.
  assert (Hl : ∀ c, code c ∉ [72; 84; 80; 47; 46] → digit c = None → lacks c proto = true).
  { intros c Hc Hd. unfold ParseHTTPVersion in H. repeat case_match; try done. subst.
    apply bind_Some in H as (x & Hx & (y & Hy & _)%bind_Some).
    unfold lacks. cbn [all_chars].
    repeat (rewrite bool_decide_false; [cbn [negb andb]|intros <-; congruence || (apply Hc; unfold code; simpl; set_solver)]).
    done. }
  split; [|apply (bytes_lack "010")]; apply Hl; try done; unfold code; simpl; set_solver.
Qed.

Lemma uri_chars pa uri url : ParseRequestURI pa uri = Some url → 10 ∉ bytes_of_string uri.
Proof.
  unfold ParseRequestURI. destruct (all_chars _ uri) eqn:Hc; [|done]. intros _.
  apply (bytes_lack "010"). by eapply all_chars_lacks.
Qed.

(** ** Before a message *)

(** The connection buffer stands at the index [i] of the chunk [e]; the message [m] is what the
    chunks [lm] hold from there, and the chunks [lr] follow. *)
Record before_message (h : heap) (buf : positive) (b : Buffer) (e : chunk) (i : Z)
    (lm lr : list chunk) (m : list Z) : Prop := {
  bm_buf : buffers h !! buf = Some b;
  bm_fresh : (buf < fresh h)%positive;
  bm_chunks : ∃ post, lm ++ lr = e :: post ∧ reading b e i post;
  bm_nonempty : nonempty (lm ++ lr);
  bm_cut : nothing_cut (dataEvents b);
  bm_bytes : drop (Z.to_nat i) (lm ≫= λ x, bytes (evalue x)) = m;
  bm_readable : ∃ rest, readable b = m ++ rest
}.

Section messages.
Context (buf : positive) (h : heap) (b : Buffer) (e : chunk) (i : Z) (lm lr : list chunk).

Definition bytes_behind : list Z := gap (validated b) (lm ++ lr).
Notation start := (MkRd h [] None).
Notation ready := (ready buf b bytes_behind).
Notation reads := (reads buf b bytes_behind).
Notation marks := (marks b bytes_behind).

Lemma at_current post : reading b e i post → at_pos b e i = b.
Proof. intros H. unfold at_pos, move_current, set_current. rewrite <- (rd_current _ _ _ _ H). by destruct b. Qed.

Lemma message_start m :
  before_message h buf b e i lm lr m →
  ∃ rest, ready start (lm ++ lr) (m ++ rest) ∧ marks (lm ++ lr) (m ++ rest) (MkPosition (Some e) i) ∧
    rd_on_buffer buf Position_ start = (Ok (MkPosition (Some e) i), start).
Proof.
  intros [Hb Hf (post & Hl & Hrd) Hne Hcut Hbytes [rest Hrest]]. exists rest.
  pose proof (at_current post Hrd) as Hat. rewrite Hl in *. split_and!.
  - split; [done|done|done|]. exists e, i, post, []. rewrite Hat.
    split_and!; try done; [apply just_before_nil|by unfold bytes_behind; rewrite Hl].
  - exists e, i, post. rewrite Hat. split_and!; [done..|by unfold bytes_behind; rewrite Hl].
  - apply (rd_buffer_same buf _ start b); [done|]. unfold Position_. step_act.
    by rewrite (rd_current _ _ _ _ Hrd).
Qed.

(** The first line and the header block of a message. *)
Lemma head_read line fs body :
  before_message h buf b e i lm lr ((bytes_of_string line ++ crlf ++ header_text fs) ++ body) →
  10 ∉ bytes_of_string line → Forall field_ok fs →
  ∃ s1 s2 s3 loc l rest, textproto_ReadLine buf start = (Ok line, s1) ∧
    ReadMIMEHeader buf s1 = (Ok (header_map fs ∅), s2) ∧
    buildHeaderBuffer buf (MkPosition (Some e) i) s2 = (Ok loc, s3) ∧
    ready s3 l (body ++ rest) ∧ l `suffix_of` (lm ++ lr) ∧ past buf b s3 ∧ grows buf start s3 ∧
    holds buf s3 loc (bytes_of_string line ++ crlf ++ header_text fs) (lm ++ lr) l ∧
    marks (lm ++ lr) ((bytes_of_string line ++ crlf ++ header_text fs) ++ body ++ rest) (MkPosition (Some e) i).
Proof.
  intros Hbm Hline Hfs. destruct (message_start _ Hbm) as (rest & Hs & Hm & _).
  rewrite <- app_assoc in Hs, Hm. pose proof Hs as Hs0. rewrite <- !app_assoc in Hs0.
  destruct (textproto_ReadLine_ready buf b _ _ _ _ _ Hs0 Hline) as (s1 & Hr1 & (l1 & Hs1 & Hsuf1 & Hg1)%reads_ready).
  destruct (ReadMIMEHeader_ready buf b _ _ _ _ _ Hs1 Hfs) as (s2 & Hr2 & (l2 & Hs2 & Hsuf2 & Hg2)%reads_ready & Hp2).
  destruct (buildHeaderBuffer_ready buf b _ s2 (lm ++ lr) l2 _ _ (MkPosition (Some e) i) Hs2 Hm)
    as (loc & s3 & Hr3 & Hs3 & Hg3 & Hp3 & Hh); [by trans l1|].
  exists s1, s2, s3, loc, l2, rest. split_and!; try done; [by trans l1|by apply Hp3|].
  eapply grows_trans; [done|]. by eapply grows_trans.
Qed.

(** The body behind them. *)
Lemma body_read line fs body s3 l rest x :
  before_message h buf b e i lm lr ((bytes_of_string line ++ crlf ++ header_text fs) ++ body) →
  ready s3 l (body ++ rest) → l `suffix_of` (lm ++ lr) → past buf b s3 →
  marks (lm ++ lr) ((bytes_of_string line ++ crlf ++ header_text fs) ++ body ++ rest) (MkPosition (Some e) i) →
  last lm = Some x → body_framed (header_map fs ∅) body x →
  ∃ loc s', readFullBody buf (header_map fs ∅) s3 = (Ok (Some loc, ParseResultSuccess), s') ∧
    grows buf s3 s' ∧ holds buf s' loc body l (x :: lr) ∧ message_read buf b s' lm ∧
    (x :: lr) `suffix_of` l.
Proof.
  intros [_ _ _ Hne Hcut Hbytes _] Hs Hsuf Hp Hm Hx Hframe.
  eapply (readFullBody_exact buf b bytes_behind); try done. unfold crlf. by destruct (bytes_of_string line).
Qed.
End messages.

(** ** Requests and responses *)

(** A request that is printed as [request_text], and whose last byte is in the chunk [x]. *)
Record request_ok (pa : string → option string) (method uri proto : string) (url : URL)
    (version : Z * Z) (fs : list (string * string)) (body : list Z) (x : chunk) : Prop := {
  rqo_method : method ∈ requestMethods;
  rqo_space : lacks " " uri = true;
  rqo_uri : ParseRequestURI pa uri = Some url;
  rqo_version : ParseHTTPVersion proto = Some version;
  rqo_fields : Forall field_ok fs;
  rqo_body : body_framed (header_map fs ∅) body x
}.

Record response_ok (proto code reason : string) (status : Z) (version : Z * Z)
    (fs : list (string * string)) (body : list Z) (x : chunk) : Prop := {
  rso_version : ParseHTTPVersion proto = Some version;
  rso_code : lacks " " code = true ∧ String.length code = 3%nat ∧ Atoi code = Some status ∧ 0 ≤ status;
  rso_newline : 10 ∉ bytes_of_string code ∧ 10 ∉ bytes_of_string reason;
  rso_fields : Forall field_ok fs;
  rso_body : body_framed (header_map fs ∅) body x
}.

Lemma status_line_parts proto code reason status version :
  ParseHTTPVersion proto = Some version → lacks " " code = true → String.length code = 3%nat →
  Atoi code = Some status → 0 ≤ status →
  status_line (proto +:+ " " +:+ code +:+ " " +:+ reason) = Some (proto, code +:+ " " +:+ reason, status).
Proof.
  intros [Hp _]%version_chars Hc Hl Ha Hs. unfold status_line. rewrite (Cut_lacks " " proto) by done.
  assert (Ht : trim_left (λ c, bool_decide (c = " "%char)) (code +:+ " " +:+ reason) = code +:+ " " +:+ reason).
  { destruct code as [|c code']; [done|]. cbn in Hc. apply andb_true_iff in Hc as [Hc _].
    apply negb_true_iff in Hc. rewrite str_app_cons. cbn [trim_left]. by rewrite Hc. }
  rewrite Ht, (Cut_lacks " " code) by done. rewrite decide_True by done. rewrite Ha. simpl.
  destruct (Z.ltb_spec status 0); [lia|done].
Qed.

(** What is left of a message that was read: the slices of its head and its body. *)
Definition message_parts (buf : positive) (s' : rd) (header : positive) (body : option positive)
    (head_bytes body_bytes : list Z) (lm lr : list chunk) : Prop :=
  ∃ bloc l x, body = Some bloc ∧ holds buf s' header head_bytes (lm ++ lr) l ∧
    holds buf s' bloc body_bytes l (x :: lr) ∧ last lm = Some x ∧ l `suffix_of` (lm ++ lr) ∧
    (x :: lr) `suffix_of` l.

Lemma request_read pa buf h b e i lm lr method uri proto url version fs body x :
  before_message h buf b e i lm lr (request_text method uri proto fs ++ body) →
  last lm = Some x → request_ok pa method uri proto url version fs body x →
  ∃ req s', ReadRequest buf pa true (MkRd h [] None) = (Ok (Some req, ParseResultSuccess), s') ∧
    rq_Method req = method ∧ rq_URL req = url ∧ rq_Header req = header_map fs ∅ ∧
    message_parts buf s' (rq_headerBuffer req) (rq_bodyBuffer req) (request_text method uri proto fs) body lm lr ∧
    message_read buf b s' lm ∧ grows buf (MkRd h [] None) s'.
Proof.
  intros Hbm Hx [Hm Hsp Huri Hv Hfs Hb].
  destruct (method_chars _ Hm) as (Hm1 & Hm2 & Hm3). destruct (version_chars _ _ Hv) as [_ Hv2].
  assert (Hline : 10 ∉ bytes_of_string (method +:+ " " +:+ uri +:+ " " +:+ proto)).
  { rewrite !bytes_of_app, !not_elem_of_app. pose proof (uri_chars _ _ _ Huri). split_and!; try done; set_solver. }
  destruct (message_start _ _ _ _ _ _ _ _ Hbm) as (_ & _ & _ & Hpos).
  destruct (head_read buf h b e i lm lr _ _ _ Hbm Hline Hfs) as
    (s1 & s2 & s3 & loc & l & rest & Hr1 & Hr2 & Hr3 & Hs3 & Hsuf & Hp3 & Hg3 & Hh & Hmk).
  destruct (body_read buf h b e i lm lr _ _ _ s3 l rest x Hbm Hs3 Hsuf Hp3 Hmk Hx Hb) as (bloc & s' & Hr4 & Hg4 & Hbl & Hend & Hxl).
  eexists _, s'. split.
  { unfold ReadRequest. rewrite (bind_ok _ _ _ _ _ Hpos), (bind_ok _ _ _ _ _ Hr1).
    rewrite request_line_parts, Hm3, Hv by done. cbn [negb]. cbv zeta.
    change (request_URI "" uri) with uri. rewrite Huri, (bind_ok _ _ _ _ _ Hr2), (bind_ok _ _ _ _ _ Hr3).
    rewrite (bind_ok _ _ _ _ _ Hr4). reflexivity. }
  simpl. split_and!; try done; [|by eapply grows_trans].
  exists bloc, l, x. split_and!; [done|by eapply holds_grows|done..].
Qed.

Lemma response_read buf h b e i lm lr proto code reason status version fs body x :
  before_message h buf b e i lm lr (response_text proto code reason fs ++ body) →
  last lm = Some x → response_ok proto code reason status version fs body x →
  ∃ resp s', ReadResponse buf true (MkRd h [] None) = (Ok (Some resp, ParseResultSuccess), s') ∧
    rs_StatusCode resp = status ∧ rs_Header resp = header_map fs ∅ ∧
    message_parts buf s' (rs_headerBuffer resp) (rs_bodyBuffer resp) (response_text proto code reason fs) body lm lr ∧
    message_read buf b s' lm ∧ grows buf (MkRd h [] None) s'.
Proof.
  intros Hbm Hx [Hv (Hc1 & Hc2 & Hc3 & Hc4) (Hn1 & Hn2) Hfs Hb]. destruct (version_chars _ _ Hv) as [_ Hv2].
  assert (Hline : 10 ∉ bytes_of_string (proto +:+ " " +:+ code +:+ " " +:+ reason)).
  { rewrite !bytes_of_app, !not_elem_of_app. split_and!; try done; set_solver. }
  destruct (message_start _ _ _ _ _ _ _ _ Hbm) as (_ & _ & _ & Hpos).
  destruct (head_read buf h b e i lm lr _ _ _ Hbm Hline Hfs) as
    (s1 & s2 & s3 & loc & l & rest & Hr1 & Hr2 & Hr3 & Hs3 & Hsuf & Hp3 & Hg3 & Hh & Hmk).
  destruct (body_read buf h b e i lm lr _ _ _ s3 l rest x Hbm Hs3 Hsuf Hp3 Hmk Hx Hb) as (bloc & s' & Hr4 & Hg4 & Hbl & Hend & Hxl).
  eexists _, s'. split.
  { unfold ReadResponse. rewrite (bind_ok _ _ _ _ _ Hpos), (bind_ok _ _ _ _ _ Hr1).
    rewrite (status_line_parts proto code reason status version), Hv by done.
    rewrite (bind_ok _ _ _ _ _ (catch_ok _ _ _ _ Hr2)), (bind_ok _ _ _ _ _ Hr3).
    rewrite (bind_ok _ _ _ _ _ Hr4). reflexivity. }
  simpl. split_and!; try done; [|by eapply grows_trans].
  exists bloc, l, x. split_and!; [done|by eapply holds_grows|done..].
Qed.
