(* ===== verification/Http1Exchange.v ===== *)
(** * The exchange of a request and its response

    The composition of the HTTP/1 analysis: [Analyze] on a connection that holds a request
    and its response reads both, matches them, and sends one log of them; then nothing of
    them is left in the connection. *)

From stdpp Require Import base gmap list strings sorting.
From Stdlib Require Import ZArith Lia Ascii.
From S2P Require Import Prelude GoStrings Interfaces ProcessMonitor Connection Ztunnel AccessLogTail Sender Delivery Tracing Events Buffer BufferOrder Http2 Http2Loop GoHttp Http1 Http1Stream Http1Laws.

(** ** The first bytes of a message *)

Lemma string_of_take n l : string_of_bytes (take n l) = str_take n (string_of_bytes l).
Proof. revert l. induction n as [|n IH]; intros [|c l]; simpl; [done..|]. by rewrite IH. Qed.

Lemma str_take_prefix n s t :
  (String.length s ≤ n)%nat → ∃ t', str_take n (s +:+ t) = s +:+ t'.
Proof.
  revert n. induction s as [|c s IH]; intros n Hn; [by exists (str_take n t)|].
  simpl in Hn. destruct n as [|n]; [lia|]. rewrite str_app_cons. simpl.
  destruct (IH n) as [t' ->]; [lia|]. by exists t'.
Qed.

Lemma method_length method : method ∈ requestMethods → (3 ≤ String.length method ≤ 7)%nat.
Proof.
  intros Hm. repeat (apply elem_of_cons in Hm as [->|Hm]; [simpl; lia|]). by apply elem_of_nil in Hm.
Qed.

Lemma version_shape proto version :
  ParseHTTPVersion proto = Some version → ∃ a b, proto = "HTTP/" +:+ String a (String "." (String b "")).
Proof. unfold ParseHTTPVersion. intros H. repeat case_match; try done. subst. by eexists _, _. Qed.

Lemma request_text_start method uri proto fs :
  ∃ t, string_of_bytes (request_text method uri proto fs) = method +:+ t.
Proof.
  unfold request_text. rewrite string_of_app, string_of_bytes_of.
  exists ((" " +:+ uri +:+ " " +:+ proto) +:+ string_of_bytes (crlf ++ header_text fs)). by rewrite <- !str_app_assoc.
Qed.

Lemma response_text_start proto code reason fs version :
  ParseHTTPVersion proto = Some version →
  ∃ t, string_of_bytes (response_text proto code reason fs) = "HTTP/" +:+ t.
Proof.
  intros (a & b & ->)%version_shape. unfold response_text. rewrite string_of_app, string_of_bytes_of.
  eexists. rewrite <- !str_app_assoc. reflexivity.
Qed.

Lemma header_text_two fs : (2 ≤ length (header_text fs))%nat.
Proof. unfold header_text. rewrite length_app. simpl. lia. Qed.

Lemma request_text_length pa method uri proto url version fs body x :
  request_ok pa method uri proto url version fs body x → (16 ≤ length (request_text method uri proto fs))%nat.
Proof.
  intros [Hm _ Hu Hv _ _]. apply method_length in Hm. destruct (version_shape _ _ Hv) as (a & b & ->).
  pose proof (header_text_two fs). unfold request_text.
  rewrite !length_app, bytes_of_length, !str_app_length. simpl.
  assert (uri ≠ EmptyString) by (by intros ->). destruct uri; [done|]. simpl. lia.
Qed.

Lemma response_text_length proto code reason status version fs body x :
  response_ok proto code reason status version fs body x → (16 ≤ length (response_text proto code reason fs))%nat.
Proof.
  intros [Hv (_ & Hc & _) _ _ _]. destruct (version_shape _ _ Hv) as (a & b & ->).
  pose proof (header_text_two fs). unfold response_text.
  rewrite !length_app, bytes_of_length, !str_app_length, Hc. simpl. lia.
Qed.

Lemma Identity_run b e i post m rest :
  reading b e i post → readable b = m ++ rest → (16 ≤ length m)%nat →
  IdentityMessageType b =
    (Ok (let hs := str_take 16 (string_of_bytes m) in
         if existsb (HasPrefix hs) requestMethods then MessageTypeRequest
         else if HasPrefix hs "HTTP" then MessageTypeResponse else MessageTypeUnknown), b).
Proof.
  intros Hrd Hr Hl. unfold IdentityMessageType.
  assert (Hp : Peek 16 b = (Ok (take 16 m), b)).
  { rewrite (Peek_refines_stream _ _ _ _ _ Hrd), Hr, length_app, decide_True by lia.
    by rewrite take_app_le. }
  rewrite (bind_ok _ _ _ _ _ Hp). by rewrite string_of_take.
Qed.

Lemma Identity_request pa b e i post method uri proto url version fs body x rest :
  reading b e i post → readable b = request_text method uri proto fs ++ rest →
  request_ok pa method uri proto url version fs body x →
  IdentityMessageType b = (Ok MessageTypeRequest, b).
Proof.
  intros Hrd Hr Hok. rewrite (Identity_run _ _ _ _ _ _ Hrd Hr) by (by eapply request_text_length).
  destruct (request_text_start method uri proto fs) as [t ->]. pose proof (rqo_method _ _ _ _ _ _ _ _ _ Hok) as Hm.
  destruct (str_take_prefix 16 method t) as [t' ->]; [apply method_length in Hm; lia|].
  cbv zeta. assert (existsb (HasPrefix (method +:+ t')) requestMethods = true) as ->; [|done].
  apply existsb_exists. exists method. split; [by apply list_elem_of_In|].
  apply prefix_app_iff. by exists t'.
Qed.

Lemma Identity_response b e i post proto code reason status version fs body x rest :
  reading b e i post → readable b = response_text proto code reason fs ++ rest →
  response_ok proto code reason status version fs body x →
  IdentityMessageType b = (Ok MessageTypeResponse, b).
Proof.
  intros Hrd Hr Hok. rewrite (Identity_run _ _ _ _ _ _ Hrd Hr) by (by eapply response_text_length).
  destruct (response_text_start proto code reason fs version) as [t ->]; [apply Hok|].
  destruct (str_take_prefix 16 "HTTP/" t) as [t' ->]; [simpl; lia|]. reflexivity.
Qed.

(** ** The connection *)

(** A buffer whose chunks can all be read: they are well-formed, none is empty, nothing of
    their data was left out, and there is no gap between them. *)
Record conn_ok (b : Buffer) : Prop := {
  co_unique : unique (dataEvents b);
  co_wf : Forall (λ x, wf_chunk (evalue x)) (dataEvents b);
  co_nonempty : nonempty (dataEvents b);
  co_cut : nothing_cut (dataEvents b);
  co_gap : gap (validated b) (dataEvents b) = [];
  co_original : originalBuffer b = None
}.

(** The buffer after [PrepareForReading] at the chunk [e]. *)
Definition prepared (b : Buffer) (e : chunk) : Buffer :=
  let p := Some (MkPosition (Some e) 0) in
  MkBuffer (dataEvents b) (detailEvents b) (validated b) false p p (latestExpiredDataID b)
    (originalBuffer b) (endPosition b).

Lemma Prepare_run b e post :
  dataEvents b = e :: post → starts b e 0 → PrepareForReading b = (Ok true, prepared b e).
Proof.
  intros Hl Hst. unfold PrepareForReading. step_act. rewrite decide_False by (by rewrite Hl).
  unfold prepared. destruct b as [de det va re hd cu la og ep]. unfold starts in Hst. simpl in *.
  destruct Hst as [[-> ->]|(Hh & _ & Hr)]; [by step_act|]. simpl in *. subst.
  destruct Hr as [->|Hr]; [by step_act|]. destruct re; [by step_act|].
  destruct hd as [[[x|] j]|]; [exfalso; set_solver|by step_act..].
Qed.

Lemma gap_suffix valid w e l : nonempty (w ++ e :: l) → Forall (λ x, wf_chunk (evalue x)) (w ++ e :: l) →
  gap valid (w ++ e :: l) = [] → gap valid (e :: l) = [].
Proof.
  induction w as [|x w IH]; [done|]. change ((x :: w) ++ e :: l) with (x :: (w ++ e :: l)).
  intros [_ Hne]%Forall_cons [_ Hwf]%Forall_cons Hg. cbn [gap] in Hg.
  apply IH; [done|done|]. destruct (w ++ e :: l) as [|y l'] eqn:E; [by destruct w|].
  destruct (shouldRead _ _ _ _); [done|]. by apply nonempty_bytes in Hg.
Qed.

Lemma prepared_reading b e post :
  conn_ok b → dataEvents b = e :: post → reading (prepared b e) e 0 post.
Proof.
  intros Hok Hl. pose proof (co_wf _ Hok) as Hwf. rewrite Hl in Hwf. apply Forall_cons in Hwf as [Hwf _].
  apply wf_length in Hwf. split; [by exists []|apply Hok|apply Hok|done|lia].
Qed.

Lemma prepared_stream b e post :
  conn_ok b → dataEvents b = e :: post → readable (prepared b e) = (dataEvents b ≫= λ x, bytes (evalue x)).
Proof.
  intros Hok Hl. rewrite (reading_readable _ _ _ _ (prepared_reading _ _ _ Hok Hl)). simpl validated.
  rewrite drop_0, <- Hl, (chain_gap (validated b)), (co_gap _ Hok), app_nil_r. done.
Qed.

Lemma before_conn h buf b e post lm lr m :
  buffers h !! buf = Some (prepared b e) → (buf < fresh h)%positive → conn_ok b →
  dataEvents b = e :: post → dataEvents b = lm ++ lr → (lm ≫= λ x, bytes (evalue x)) = m →
  before_message h buf (prepared b e) e 0 lm lr m.
Proof.
  intros Hb Hf Hok Hl Hlm Hm. split; [done|done| |rewrite <- Hlm; apply Hok|apply Hok|done|].
  - exists post. split; [congruence|]. by apply prepared_reading.
  - rewrite (prepared_stream b e post), Hlm, bind_app, Hm by done. by eexists.
Qed.

Lemma Remove_frame b fin b' :
  RemoveReadElements false b = (Ok fin, b') →
  shouldResetPosition b' = shouldResetPosition b ∧ originalBuffer b' = originalBuffer b ∧
  validated b' = validated b ∧ detailEvents b' = detailEvents b.
Proof.
  unfold RemoveReadElements. step_act. destruct (head b) as [h|]; [|done]. step_act.
  destruct (current b) as [c|]; [|done]. step_act.
  destruct (remove_until _ _ _ _ _) as [[l next] mv]. destruct next as [e|].
  - case_decide; step_act; intros [= <- <-]; done.
  - destruct mv; step_act; intros [= <- <-]; done.
Qed.

(** What [RemoveReadElements] leaves of a buffer whose first chunks [lm] were read. *)
Lemma Remove_read b e post lm lr w x :
  conn_ok b → dataEvents b = e :: post → dataEvents b = lm ++ lr → lm = w ++ [x] →
  ∃ b', RemoveReadElements false (at_pos (prepared b e) x (BufferLen (evalue x))) = (Ok false, b') ∧
    dataEvents b' = lr ∧ detailEvents b' = detailEvents b ∧ validated b' = validated b ∧
    originalBuffer b' = None ∧ (∀ y l, lr = y :: l → starts b' y 0) ∧ conn_ok b'.
Proof.
  intros Hok Hl Hlm Hw. set (r := at_pos _ _ _).
  assert (Hd : dataEvents r = [] ++ w ++ x :: lr) by (simpl; by rewrite Hlm, Hw, <- app_assoc).
  destruct (RemoveReadElements_run r false [] w x lr (BufferLen (evalue x)) 0 Hd) as (b' & Hrun & Hres);
    [apply Hok| |done|].
  { simpl. do 2 f_equal. rewrite Hlm, Hw in Hl. by destruct w; simplify_eq/=. }
  rewrite decide_True in Hres by done. destruct Hres as [Hd' Hh']. simpl in Hd'.
  destruct (Remove_frame _ _ _ Hrun) as (Hr' & Ho' & Hv' & Hde'). simpl in *.
  exists b'. pose proof Hok as [Hu Hwf Hne Hc Hg Ho]. unfold nonempty, nothing_cut in *.
  rewrite Hlm in Hu, Hwf, Hne, Hc, Hg. subst lm. split_and!; [done..|congruence| |].
  - intros y l ->. left. by split.
  - split; rewrite ?Hd', ?Hv', ?Ho'; [by eapply unique_app_r|exact (proj2 (proj1 (Forall_app _ _ _) Hwf))
      |exact (proj2 (proj1 (Forall_app _ _ _) Hne))|exact (proj2 (proj1 (Forall_app _ _ _) Hc))| |done].
    destruct lr as [|y l]; [done|]. by eapply gap_suffix.
Qed.

(** ** Rounds *)

Section rounds.
Context (pa : string → option string) (buf : positive).

(** The heap keeps everything but the connection buffer. *)
Definition heap_grows (h h' : heap) : Prop := grows buf (MkRd h [] None) (MkRd h' [] None).

Definition set_buffer (b : Buffer) (s : h1_state) : h1_state :=
  set_h1_heap (MkHeap (<[buf := b]> (buffers (h1_heap s))) (fresh (h1_heap s))) s.

Lemma h1_try_ok {A} (m : method A) s b a b' :
  buffers (h1_heap s) !! buf = Some b → m b = (Ok a, b') →
  h1_try_buffer buf m s = (Ok (inr a), set_buffer b' s).
Proof. intros Hb Hm. unfold h1_try_buffer. by rewrite Hb, Hm. Qed.

Lemma h1_buffer_ok {A} (m : method A) s b a b' :
  buffers (h1_heap s) !! buf = Some b → m b = (Ok a, b') →
  h1_on_buffer buf m s = (Ok a, set_buffer b' s).
Proof. intros Hb Hm. unfold h1_on_buffer. by rewrite (bind_ok _ _ _ _ _ (h1_try_ok m s b a b' Hb Hm)). Qed.

Lemma set_buffer_same s b : buffers (h1_heap s) !! buf = Some b → set_buffer b s = s.
Proof. intros Hb. unfold set_buffer. rewrite insert_id by done. by destruct s as [[]]. Qed.

Lemma set_buffer_lookup s b : buffers (h1_heap (set_buffer b s)) !! buf = Some b.
Proof. apply lookup_insert_eq. Qed.

Lemma set_buffer_grows s b : heap_grows (h1_heap s) (h1_heap (set_buffer b s)).
Proof. split; [done|]. intros x Hx _. simpl. by rewrite lookup_insert_ne. Qed.

Lemma set_buffer_set s b b' : set_buffer b' (set_buffer b s) = set_buffer b' s.
Proof. unfold set_buffer, set_h1_heap. simpl. by rewrite insert_insert_eq. Qed.

Lemma with_reader_ok {A} (m : act rd go_error A) s a s' :
  m (MkRd (h1_heap s) [] None) = (Ok a, s') → with_reader m s = (Ok (inr a), set_h1_heap (rd_heap s') s).
Proof. intros Hm. unfold with_reader. by rewrite Hm. Qed.

(** The parts of a message in a heap. *)
Definition parts_in (h : heap) (header : positive) (body : option positive)
    (head_bytes body_bytes : list Z) (lm lr : list chunk) : Prop :=
  message_parts buf (MkRd h [] None) header body head_bytes body_bytes lm lr.

Lemma holds_heap s h' loc m l0 l :
  holds buf s loc m l0 l → heap_grows (rd_heap s) h' → holds buf (MkRd h' [] None) loc m l0 l.
Proof. intros Hh Hg. by eapply (holds_grows buf (MkRd (rd_heap s) [] None)). Qed.

Lemma parts_grow h h' header body hb bb lm lr :
  parts_in h header body hb bb lm lr → heap_grows h h' → parts_in h' header body hb bb lm lr.
Proof.
  intros (bloc & l & x & ? & H1 & H2 & ? & ? & ?) Hg. exists bloc, l, x. split_and!; try done.
  - exact (holds_heap _ _ _ _ _ _ H1 Hg).
  - exact (holds_heap _ _ _ _ _ _ H2 Hg).
Qed.

(** A round that reads a request. *)
Lemma request_round s b e post lm lr method uri proto url version fs body x :
  buffers (h1_heap s) !! buf = Some b → (buf < fresh (h1_heap s))%positive → conn_ok b →
  dataEvents b = e :: post → dataEvents b = lm ++ lr → starts b e 0 →
  (lm ≫= λ x, bytes (evalue x)) = request_text method uri proto fs ++ body →
  last lm = Some x → request_ok pa method uri proto url version fs body x → halfRequests (h1_metrics s) = [] →
  ∃ s' b' req, h1_round pa buf s = (Ok false, s') ∧ buffers (h1_heap s') !! buf = Some b' ∧
    dataEvents b' = lr ∧ detailEvents b' = detailEvents b ∧ conn_ok b' ∧
    (∀ y l, lr = y :: l → starts b' y 0) ∧ heap_grows (h1_heap s) (h1_heap s') ∧
    h1_queue s' = h1_queue s ∧ analyzeUnFinished (h1_metrics s') = analyzeUnFinished (h1_metrics s) ∧
    halfRequests (h1_metrics s') = [req] ∧ rq_Method req = method ∧ rq_URL req = url ∧
    rq_Header req = header_map fs ∅ ∧
    parts_in (h1_heap s') (rq_headerBuffer req) (rq_bodyBuffer req) (request_text method uri proto fs) body lm lr.
Proof.
  intros Hb Hf Hok Hl Hlm Hst Hbytes Hlast Hreq Hhalf.
  set (s1 := set_buffer (prepared b e) s).
  assert (Hb1 : buffers (h1_heap s1) !! buf = Some (prepared b e)) by apply set_buffer_lookup.
  pose proof (before_conn (h1_heap s1) buf b e post lm lr _ Hb1 Hf Hok Hl Hlm Hbytes) as Hbm.
  destruct (request_read pa _ _ _ _ _ _ _ _ _ _ _ _ _ _ _ Hbm Hlast Hreq) as (req & r & Hrd & Hm & Hu & Hh & Hparts & (w & x' & Hw & Hbx) & Hg).
  assert (x' = x) as -> by (rewrite Hw, last_snoc in Hlast; congruence).
  destruct (Remove_read b e post lm lr w x Hok Hl Hlm Hw) as (b' & Hrm & Hd' & Hde' & _ & _ & Hst' & Hok').
  set (s2 := set_halfRequests [req] (set_h1_heap (rd_heap r) s1)).
  assert (Hid : h1_try_buffer buf IdentityMessageType s1 = (Ok (inr MessageTypeRequest), s1)).
  { rewrite (h1_try_ok _ _ (prepared b e) MessageTypeRequest (prepared b e)), set_buffer_same; try done.
    eapply (Identity_request pa); [by apply (prepared_reading b e post)| |done].
    rewrite (prepared_stream b e post), Hlm, bind_app, Hbytes, <- app_assoc by done. done. }
  assert (Hhr : handleRequest pa buf s1 = (Ok ParseResultSuccess, s2)).
  { unfold handleRequest. rewrite (bind_ok _ _ _ _ _ (with_reader_ok _ _ _ _ Hrd)). cbn iota beta.
    step_act. simpl halfRequests. rewrite Hhalf. unfold h1_on_heap, mbind, act_bind. simpl. by destruct r as [[] ? ?]. }
  assert (Hbx2 : buffers (h1_heap s2) !! buf = Some (at_pos (prepared b e) x (BufferLen (evalue x)))) by done.
  exists (set_buffer b' s2), b', req. split.
  { unfold h1_round. rewrite (bind_ok _ _ _ _ _ (h1_buffer_ok _ _ _ _ _ Hb (Prepare_run b e post Hl Hst))).
    cbn [negb]. fold s1. rewrite (bind_ok _ _ _ _ _ Hid), (bind_ok _ _ _ _ _ Hhr).
    apply (h1_buffer_ok _ _ _ _ _ Hbx2 Hrm). }
  assert (Hg2 : heap_grows (rd_heap r) (h1_heap (set_buffer b' s2))) by apply (set_buffer_grows s2).
  split_and!; try done; [apply set_buffer_lookup| |].
  - eapply grows_trans; [apply (set_buffer_grows s (prepared b e))|]. by eapply grows_trans.
  - by eapply parts_grow.
Qed.

(** ** The log of an exchange *)

Definition exchange_buffers (req : Request) (resp : Response) : list (option positive) :=
  [Some (rq_headerBuffer req); rq_bodyBuffer req; Some (rs_headerBuffer resp); rs_bodyBuffer resp].

Lemma exchange_details_list req resp h :
  exchange_details req resp h = collect_list (exchange_buffers req resp) ([], None, true) h.
Proof.
  unfold exchange_details, exchange_buffers. cbn [collect_list]. unfold mbind, act_bind.
  repeat (case_match; try done; simplify_eq).
Qed.

Definition exchange_host (req : Request) : string :=
  if decide (header_Get (rq_Header req) "Host" = "") then url_Host (rq_URL req)
  else header_Get (rq_Header req) "Host".

(** The log of an exchange with the details [first] to [final] and the sizes of its parts. *)
Definition exchange_log (req : Request) (resp : Response) (first final : SocketDetailEvent)
    (n1 n2 n3 n4 : Z) : AccessLogHTTPProtocol :=
  MkHTTPProtocol (detail_StartTime first) (detail_EndTime final) HTTPVersion_HTTP1
    (TransformHTTPMethod (rq_Method req)) (url_Path (rq_URL req)) n1 n2
    (AnalyzeTraceInfo (header_Get (rq_Header req))) (exchange_host req) (i32 (rs_StatusCode resp)) n3 n4.

Definition log_sent (details : list SocketDetailEvent) (log : AccessLogHTTPProtocol) (q : Queue) : Queue :=
  snd (AppendProtocolLog (MkProtocolEventData details (Some log)) q).

Lemma part_DataSize s loc m rg :
  part buf (h1_heap s) loc m rg → h1_DataSize (Some loc) s = (Ok (u64 (Z.of_nat (length m))), s).
Proof.
  intros [_ (b & Hb & _ & _ & _ & Hsz)]. unfold h1_DataSize, h1_on_buffer, h1_try_buffer, mbind, act_bind.
  rewrite Hb, Hsz. simpl. rewrite insert_id by done. by destruct s as [[]].
Qed.

(** The parts of an exchange, with their bytes and ranges. *)
Definition exchange_parts (h : heap) (req : Request) (resp : Response) (ms : list (list Z))
    (rs : list DataIDRange) : Prop :=
  (buf < rq_headerBuffer req)%positive ∧
  ∃ b1 b2 m1 m2 m3 m4 r1 r2 r3 r4, rq_bodyBuffer req = Some b1 ∧ rs_bodyBuffer resp = Some b2 ∧
    ms = [m1; m2; m3; m4] ∧ rs = [r1; r2; r3; r4] ∧
    part buf h (rq_headerBuffer req) m1 r1 ∧ part buf h b1 m2 r2 ∧
    part buf h (rs_headerBuffer resp) m3 r3 ∧ part buf h b2 m4 r4.

Lemma exchange_parts_all h req resp ms rs :
  exchange_parts h req resp ms rs → Forall2 (is_part h buf) (omap id (exchange_buffers req resp)) rs.
Proof.
  intros (_ & b1 & b2 & m1 & m2 & m3 & m4 & r1 & r2 & r3 & r4 & Hb1 & Hb2 & _ & -> & H1 & H2 & H3 & H4).
  unfold exchange_buffers. rewrite Hb1, Hb2. simpl.
  repeat constructor; [apply H1|apply H2|apply H3|apply H4].
Qed.

Lemma part_after_delete h cb i loc m rg :
  buffers h !! buf = Some cb → originalBuffer cb = None →
  part buf h loc m rg → part buf (deleted h buf cb i) loc m rg.
Proof.
  intros Hc Ho Hp. eapply part_lookup; [|done].
  pose proof (part_not_connection h buf cb Hc Ho loc rg (proj1 Hp)). simpl. by rewrite lookup_insert_ne.
Qed.

(** Missing details leave everything as it is. *)
Lemma HandleHTTPData_missing s cb req resp ms rs :
  buffers (h1_heap s) !! buf = Some cb → exchange_parts (h1_heap s) req resp ms rs →
  Exists (λ i, part_details (detailEvents cb) i = []) rs → HandleHTTPData req resp s = (Ok true, s).
Proof.
  intros Hc Hp Hex.
  destruct (collect_missing (h1_heap s) buf cb Hc _ rs [] (exchange_parts_all _ _ _ _ _ Hp) Hex) as (r & i & Hcol).
  change (collected cb []) with (@nil SocketDetailEvent, @None DataIDRange, true) in Hcol.
  assert (Hrun : h1_on_heap (exchange_details req resp) s = (Ok (r, i, false), s)).
  { unfold h1_on_heap. rewrite exchange_details_list, Hcol. by destruct s. }
  unfold HandleHTTPData. rewrite (bind_ok _ _ _ _ _ Hrun). cbn iota beta.
  by destruct i, (list.head r), (last r).
Qed.

(** The range from the first to the last of ranges. *)
Definition whole_range (rs : list DataIDRange) : option DataIDRange :=
  match rs with
  | [] => None
  | r :: rs' => Some (foldl DataIDRange_Append r rs')
  end.

Lemma HandleHTTPData_complete s cb req resp ms rs :
  buffers (h1_heap s) !! buf = Some cb → originalBuffer cb = None →
  exchange_parts (h1_heap s) req resp ms rs →
  Forall (λ i, part_details (detailEvents cb) i ≠ []) rs →
  ∃ first final i n1 n2 n3 n4, list.head (all_details (detailEvents cb) rs) = Some first ∧
    last (all_details (detailEvents cb) rs) = Some final ∧
    [n1; n2; n3; n4] = (λ m, u64 (Z.of_nat (length m))) <$> ms ∧ whole_range rs = Some i ∧
    HandleHTTPData req resp s =
      (Ok false, set_h1_queue (log_sent (all_details (detailEvents cb) rs) (exchange_log req resp first final n1 n2 n3 n4)
                                 (h1_queue s)) (set_h1_heap (deleted (h1_heap s) buf cb i) s)).
Proof.
  intros Hc Ho Hp Hall. pose proof (exchange_parts_all _ _ _ _ _ Hp) as Hall2.
  pose proof (collect_complete (h1_heap s) buf cb Hc _ rs [] Hall2 Hall) as Hcol.
  destruct Hp as (Hlt & b1 & b2 & m1 & m2 & m3 & m4 & r1 & r2 & r3 & r4 & Hb1 & Hb2 & -> & -> & H1 & H2 & H3 & H4).
  destruct (all_details_ends (detailEvents cb) r1 [r2; r3; r4]) as (first & final & Hfirst & Hfinal);
    [by apply Forall_cons in Hall as [? _]|].
  set (rs := [r1; r2; r3; r4]) in *. set (i := foldl DataIDRange_Append r1 [r2; r3; r4]).
  set (s1 := set_h1_heap (deleted (h1_heap s) buf cb i) s).
  exists first, final, i. do 4 eexists. split_and!; [done|done|reflexivity|done|].
  assert (Hrun : h1_on_heap (exchange_details req resp) s = (Ok (all_details (detailEvents cb) rs, Some i, true), s)).
  { unfold h1_on_heap. rewrite exchange_details_list.
    change (@nil SocketDetailEvent, @None DataIDRange, true) with (collected cb []). rewrite Hcol. by destruct s. }
  assert (Hdel : h1_on_heap (DeleteDetails (Pos.to_nat (rq_headerBuffer req)) i (rq_headerBuffer req)) s = (Ok tt, s1)).
  { unfold h1_on_heap. destruct (Pos.to_nat (rq_headerBuffer req)) as [|[|n]] eqn:Hn; [lia..|].
    by rewrite (DeleteDetails_part (h1_heap s) buf cb Hc Ho n _ r1 i (proj1 H1)). }
  assert (Hsz : ∀ loc m rg, part buf (h1_heap s) loc m rg → h1_DataSize (Some loc) s1 = (Ok (u64 (Z.of_nat (length m))), s1)).
  { intros loc m rg Hp. apply (part_DataSize s1 loc m rg). by apply part_after_delete. }
  unfold HandleHTTPData. rewrite (bind_ok _ _ _ _ _ Hrun). cbn iota beta. rewrite Hfirst, Hfinal. cbn [negb].
  cbv zeta. rewrite (bind_ok _ _ _ _ _ Hdel), (bind_ok _ _ _ _ _ (Hsz _ _ _ H1)).
  rewrite Hb1, (bind_ok _ _ _ _ _ (Hsz _ _ _ H2)), (bind_ok _ _ _ _ _ (Hsz _ _ _ H3)).
  rewrite Hb2, (bind_ok _ _ _ _ _ (Hsz _ _ _ H4)). step_act. reflexivity.
Qed.

(** ** Data ids *)

(** The data ids do not fall along the chunks, and the details of all of them are there. *)
Definition ids_sorted (l : list chunk) : Prop := StronglySorted chunk_le l.
Definition detailed (ds : list SocketDetailEvent) (l : list chunk) : Prop :=
  ∀ x, x ∈ l → ∃ d, d ∈ ds ∧ detail_DataID d = DataID (evalue x).

Definition id_of (x : chunk) : Z := DataID (evalue x).

Lemma sorted_suffix (l l' : list chunk) x y post :
  ids_sorted l → l = x :: post → (y :: l') `suffix_of` l → id_of x ≤ id_of y.
Proof.
  intros Hs -> [w Hw]. destruct w as [|z w]; simplify_eq/=; [lia|].
  apply StronglySorted_inv in Hs as [_ Hall]. rewrite Forall_app, Forall_cons in Hall.
  destruct Hall as (_ & [?|[? _]] & _); unfold id_of; lia.
Qed.

Lemma suffix_sorted (l l' : list chunk) : ids_sorted l → l' `suffix_of` l → ids_sorted l'.
Proof. intros Hs [w ->]. unfold ids_sorted in *. by apply StronglySorted_app in Hs as (_ & _ & ?). Qed.

(** The ranges of the parts of a message from the chunk [x0] to the chunk [x]: together they
    are the range from the one to the other. *)
Lemma parts_ranges h header body hb bb lm lr x0 post x ds :
  parts_in h header body hb bb lm lr → ids_sorted (lm ++ lr) → lm ++ lr = x0 :: post → last lm = Some x →
  detailed ds (lm ++ lr) →
  ∃ bloc r1 r2, body = Some bloc ∧ (buf < header)%positive ∧
    part buf h header hb r1 ∧ part buf h bloc bb r2 ∧ To r2 = id_of x ∧
    part_details ds r1 ≠ [] ∧ part_details ds r2 ≠ [] ∧
    ∀ d, in_range (From r1) (To r1) d = true ∨ in_range (From r2) (To r2) d = true ↔
         in_range (id_of x0) (id_of x) d = true.
Proof.
  intros (bloc & l & x' & Hb & (Hlt & _ & r1 & Hp1 & Hf1 & Ht1) & (_ & _ & r2 & Hp2 & Hf2 & Ht2) & Hx' & Hsuf & Hsuf')
    Hs Hl Hx Hdet.
  assert (x' = x) as -> by congruence. destruct l as [|y l]; [done|]. rewrite Hl in Hf1. simpl in *.
  injection Hf1 as Hf1. injection Ht1 as Ht1. injection Hf2 as Hf2. injection Ht2 as Ht2.
  assert (H0y : id_of x0 ≤ id_of y) by (by eapply sorted_suffix).
  assert (Hyx : id_of y ≤ id_of x) by (eapply sorted_suffix; [by eapply suffix_sorted|done|done]).
  assert (Hne : ∀ z r, z ∈ lm ++ lr → From r = id_of z → From r ≤ To r → part_details ds r ≠ []).
  { intros z r Hz Hfr Hle E. destruct (Hdet z Hz) as (d & Hd & Hid).
    apply (not_elem_of_nil d). rewrite <- E. apply list_elem_of_filter. split; [|done].
    unfold in_range. fold (id_of z) in Hid. apply andb_true_iff. split; apply Z.leb_le; lia. }
  unfold id_of in *. exists bloc, r1, r2. split_and!; try done.
  - apply (Hne x0); [rewrite Hl; left|done|lia].
  - apply (Hne y); [|done|lia]. destruct Hsuf as [w ->]. apply elem_of_app. right. left.
  - intros d. unfold in_range. rewrite !andb_true_iff, !Z.leb_le. lia.
Qed.

Lemma MaxDataID_run h req hb bb lm lr x :
  parts_in h (rq_headerBuffer req) (rq_bodyBuffer req) hb bb lm lr → last lm = Some x →
  MaxDataID req h = (Ok (i64 (id_of x)), h).
Proof.
  intros (bloc & l & x' & Hb & _ & (_ & _ & r2 & [_ (b & Hl & _ & _ & Hlast & _)] & _ & Ht2) & Hx' & _) Hx.
  assert (x' = x) as -> by congruence. unfold MaxDataID, deref. rewrite Hb. step_act. simpl default.
  simpl in Hl. rewrite Hl. step_act. destruct (LastSocketBuffer b) as [v|]; [|done]. step_act. simpl in *.
  unfold id_of. congruence.
Qed.

(** The response belongs to the request. *)
Definition follows (x y : chunk) : Prop :=
  0 ≤ id_of x < 2 ^ 63 - 1 ∧ (id_of x = PrevDataID (evalue y) ∨ id_of x + 1 = id_of y).

Lemma find_run h req hb bb lm lr x y :
  parts_in h (rq_headerBuffer req) (rq_bodyBuffer req) hb bb lm lr → last lm = Some x → follows x y →
  findMatchesRequest (id_of y) (PrevDataID (evalue y)) [req] h = (Ok (Some req, []), h).
Proof.
  intros Hp Hx [Hr Hm]. cbn [findMatchesRequest]. rewrite (bind_ok _ _ _ _ _ (MaxDataID_run _ _ _ _ _ _ _ Hp Hx)).
  rewrite i64_small by lia. rewrite i64_small by lia. unfold u64. rewrite !Z.mod_small by lia.
  by destruct Hm as [-> | Hm]; [|rewrite Hm]; rewrite Z.eqb_refl, ?orb_true_r.
Qed.

Lemma handleResponse_run s b e req resp r s' :
  buffers (h1_heap s) !! buf = Some b → current b = Some (MkPosition (Some e) 0) →
  halfRequests (h1_metrics s) = [req] →
  findMatchesRequest (id_of e) (PrevDataID (evalue e)) [req] (h1_heap s) = (Ok (Some req, []), h1_heap s) →
  ReadResponse buf true (MkRd (h1_heap s) [] None) = (Ok (Some resp, ParseResultSuccess), r) →
  HandleHTTPData req resp (set_h1_heap (rd_heap r) (set_halfRequests [] s)) = (Ok false, s') →
  handleResponse buf s = (Ok ParseResultSuccess, s').
Proof.
  intros Hb Hc Hhalf Hfind Hrd Hrun. unfold handleResponse.
  assert (Hpos : h1_on_buffer buf Position_ s = (Ok (MkPosition (Some e) 0), s)).
  { rewrite (h1_buffer_ok _ _ b (MkPosition (Some e) 0) b), set_buffer_same; [done|done|done|].
    unfold Position_. step_act. by rewrite Hc. }
  rewrite (bind_ok _ _ _ _ _ Hpos). step_act.
  change (position_DataID (MkPosition (Some e) 0)) with (Some (id_of e)).
  change (position_PrevDataID (MkPosition (Some e) 0)) with (Some (PrevDataID (evalue e))). step_act.
  assert (Hf : h1_on_heap (findMatchesRequest (id_of e) (PrevDataID (evalue e)) (halfRequests (h1_metrics s))) s = (Ok (Some req, []), s)).
  { unfold h1_on_heap. rewrite Hhalf, Hfind. by destruct s. }
  rewrite (bind_ok _ _ _ _ _ Hf). cbn iota beta. step_act.
  rewrite (bind_ok _ _ _ _ _ (with_reader_ok _ (set_halfRequests [] s) _ _ Hrd)). cbn iota beta.
  rewrite (bind_ok _ _ _ _ _ Hrun). by step_act.
Qed.

(** The ranges of the parts of an exchange: all of them have details, and together they are
    the ranges of the request and of the response. *)
Lemma exchange_ranges h req resp hb bb hp bp lq lp x e post z ds :
  parts_in h (rq_headerBuffer req) (rq_bodyBuffer req) hb bb lq lp →
  parts_in h (rs_headerBuffer resp) (rs_bodyBuffer resp) hp bp lp [] →
  lp = e :: post → last lq = Some x → last lp = Some z → ids_sorted (lq ++ lp) → detailed ds (lq ++ lp) →
  ∃ rs x0, exchange_parts h req resp [hb; bb; hp; bp] rs ∧ Forall (λ i, part_details ds i ≠ []) rs ∧
    list.head (lq ++ lp) = Some x0 ∧
    ∀ d, (∃ j, j ∈ rs ∧ in_range (From j) (To j) d = true) ↔
         in_range (id_of x0) (id_of x) d = true ∨ in_range (id_of e) (id_of z) d = true.
Proof.
  intros Hq Hp Hl Hx Hz Hsort Hdet.
  destruct (lq ++ lp) as [|x0 post0] eqn:Hl0; [destruct lq; by simplify_eq/=|].
  destruct (parts_ranges _ _ _ _ _ _ _ x0 post0 x ds Hq) as
    (b1 & r1 & r2 & Hb1 & Hlt & Hp1 & Hp2 & _ & Hn1 & Hn2 & Hr12); [by rewrite Hl0..|done|by rewrite Hl0|].
  assert (Hsort' : ids_sorted (lp ++ [])).
  { rewrite app_nil_r. eapply suffix_sorted; [done|]. rewrite <- Hl0. by exists lq. }
  destruct (parts_ranges h _ _ _ _ lp [] e post z ds Hp Hsort') as
    (b2 & r3 & r4 & Hb2 & _ & Hp3 & Hp4 & _ & Hn3 & Hn4 & Hr34); [by rewrite app_nil_r|done| |].
  { rewrite app_nil_r. intros y Hy. apply Hdet. rewrite <- Hl0. apply elem_of_app. by right. }
  exists [r1; r2; r3; r4], x0. split_and!; [|by repeat constructor|done|].
  - split; [done|]. by exists b1, b2, hb, bb, hp, bp, r1, r2, r3, r4.
  - intros d. rewrite <- Hr12, <- Hr34. split; [intros (j & Hj & Hd); set_unfold; naive_solver|].
    intros [[?|?]|[?|?]]; [exists r1|exists r2|exists r3|exists r4]; (split; [set_solver|done]).
Qed.

(** A round that reads the response of the only request that waits. *)
Lemma response_round s b e post req hb bb lq x proto code reason status version fs body z :
  buffers (h1_heap s) !! buf = Some b → (buf < fresh (h1_heap s))%positive → conn_ok b →
  dataEvents b = e :: post → starts b e 0 →
  (dataEvents b ≫= λ x, bytes (evalue x)) = response_text proto code reason fs ++ body →
  last (dataEvents b) = Some z → response_ok proto code reason status version fs body z →
  halfRequests (h1_metrics s) = [req] →
  parts_in (h1_heap s) (rq_headerBuffer req) (rq_bodyBuffer req) hb bb lq (dataEvents b) →
  last lq = Some x → follows x e →
  ids_sorted (lq ++ dataEvents b) → detailed (detailEvents b) (lq ++ dataEvents b) →
  ∃ s' b' resp rs first final n1 n2 n3 n4, h1_round pa buf s = (Ok false, s') ∧
    buffers (h1_heap s') !! buf = Some b' ∧ dataEvents b' = [] ∧ originalBuffer b' = None ∧
    halfRequests (h1_metrics s') = [] ∧ analyzeUnFinished (h1_metrics s') = analyzeUnFinished (h1_metrics s) ∧
    rs_StatusCode resp = status ∧
    list.head (all_details (detailEvents b) rs) = Some first ∧ last (all_details (detailEvents b) rs) = Some final ∧
    [n1; n2; n3; n4] = (λ m, u64 (Z.of_nat (length m))) <$> [hb; bb; response_text proto code reason fs; body] ∧
    h1_queue s' = log_sent (all_details (detailEvents b) rs) (exchange_log req resp first final n1 n2 n3 n4) (h1_queue s) ∧
    ∃ x0, list.head (lq ++ dataEvents b) = Some x0 ∧
      ∀ d, (∃ j, j ∈ rs ∧ in_range (From j) (To j) d = true) ↔
           in_range (id_of x0) (id_of x) d = true ∨ in_range (id_of e) (id_of z) d = true.
Proof.
  intros Hb Hf Hok Hl Hst Hbytes Hz Hresp Hhalf Hparts Hx Hfol Hsort Hdet.
  set (s1 := set_buffer (prepared b e) s). set (lp := dataEvents b) in *.
  assert (Hb1 : buffers (h1_heap s1) !! buf = Some (prepared b e)) by apply set_buffer_lookup.
  assert (Hlm : dataEvents b = lp ++ []) by (by rewrite app_nil_r).
  set (s1' := set_halfRequests [] s1).
  pose proof (before_conn (h1_heap s1') buf b e post lp [] _ Hb1 Hf Hok Hl Hlm Hbytes) as Hbm.
  destruct (response_read _ _ _ _ _ _ _ _ _ _ _ _ _ _ _ Hbm Hz Hresp) as (resp & r & Hrd & Hcode & _ & Hrp & (w & z' & Hw & Hbz) & Hg).
  assert (z' = z) as -> by (rewrite Hw, last_snoc in Hz; congruence).
  assert (Hgr : heap_grows (h1_heap s) (rd_heap r))
    by (eapply grows_trans; [apply (set_buffer_grows s (prepared b e))|done]).
  pose proof (parts_grow _ _ _ _ _ _ _ _ Hparts Hgr) as Hq.
  destruct (exchange_ranges (rd_heap r) req resp hb bb _ _ lq lp x e post z (detailEvents b) Hq Hrp) as
    (rs & x0 & Hex & Hpre & Hx0 & Hids); [done..|].
  set (s2 := set_h1_heap (rd_heap r) s1').
  set (cb := at_pos (prepared b e) z (BufferLen (evalue z))).
  destruct (HandleHTTPData_complete s2 cb req resp _ _ Hbz (co_original _ Hok) Hex) as
    (first & final & i & n1 & n2 & n3 & n4 & Hfirst & Hfinal & Hns & _ & Hrun); [done|].
  set (s3 := set_h1_queue _ _) in Hrun.
  set (bd := set_detailEvents (delete_range i (detailEvents b)) b).
  destruct (Remove_read bd e post lp [] w z) as (b' & Hrm & Hd' & _ & _ & Ho' & _); [by destruct Hok|done..|].
  assert (Hb3 : buffers (h1_heap s3) !! buf = Some (at_pos (prepared bd e) z (BufferLen (evalue z)))) by apply lookup_insert_eq.
  exists (set_buffer b' s3), b', resp, rs, first, final, n1, n2, n3, n4. split_and!; try done.
  - assert (Hid : h1_try_buffer buf IdentityMessageType s1 = (Ok (inr MessageTypeResponse), s1)).
    { rewrite (h1_try_ok _ _ (prepared b e) MessageTypeResponse (prepared b e)), set_buffer_same; try done.
      eapply Identity_response; [by apply (prepared_reading b e post)| |done].
      rewrite (prepared_stream b e post) by done. exact Hbytes. }
    assert (Hhr : handleResponse buf s1 = (Ok ParseResultSuccess, s3)).
    { eapply (handleResponse_run s1 (prepared b e) e req resp r); [done|done|done| |done|done].
      eapply find_run; [eapply parts_grow; [exact Hparts|apply set_buffer_grows]|done|done]. }
    unfold h1_round. rewrite (bind_ok _ _ _ _ _ (h1_buffer_ok _ _ _ _ _ Hb (Prepare_run b e post Hl Hst))).
    cbn [negb]. fold s1. rewrite (bind_ok _ _ _ _ _ Hid), (bind_ok _ _ _ _ _ Hhr).
    apply (h1_buffer_ok _ _ _ _ _ Hb3 Hrm).
  - apply set_buffer_lookup.
  - by exists x0.
Qed.

(** A round on a connection without data is the last. *)
Lemma empty_round s b :
  buffers (h1_heap s) !! buf = Some b → dataEvents b = [] → h1_round pa buf s = (Ok true, s).
Proof.
  intros Hb Hd. assert (Hp : h1_on_buffer buf PrepareForReading s = (Ok false, s)).
  { rewrite (h1_buffer_ok _ _ b false b), set_buffer_same; [done|done|done|].
    unfold PrepareForReading. step_act. by rewrite decide_True. }
  unfold h1_round. by rewrite (bind_ok _ _ _ _ _ Hp).
Qed.

Lemma three_rounds n s s1 s2 s3 :
  h1_round pa buf s = (Ok false, s1) → h1_round pa buf s1 = (Ok false, s2) →
  h1_round pa buf s2 = (Ok true, s3) → (3 ≤ n)%nat → h1_loop pa buf n s = (Ok tt, s3).
Proof.
  intros H1 H2 H3 Hn. destruct n as [|[|[|n]]]; [lia..|]. cbn [h1_loop].
  by rewrite (bind_ok _ _ _ _ _ H1), (bind_ok _ _ _ _ _ H2), (bind_ok _ _ _ _ _ H3).
Qed.

(** A connection that holds a request in the chunks [lq] and its response in the chunks [lp],
    with their details, and nothing from before; [x] is the last chunk of the request, [y] and
    [z] are the first and the last one of the response. *)
Record exchange_connection (s : h1_state) (b : Buffer) (lq lp : list chunk) (x y z : chunk) : Prop := {
  ec_buf : buffers (h1_heap s) !! buf = Some b;
  ec_fresh : (buf < fresh (h1_heap s))%positive;
  ec_ok : conn_ok b;
  ec_data : dataEvents b = lq ++ lp;
  ec_request : last lq = Some x;
  ec_response : list.head lp = Some y;
  ec_last : last lp = Some z;
  ec_follows : follows x y;
  ec_sorted : ids_sorted (lq ++ lp);
  ec_details : detailed (detailEvents b) (lq ++ lp);
  ec_half : halfRequests (h1_metrics s) = [];
  ec_unfinished : analyzeUnFinished (h1_metrics s) = []
}.

Lemma analyze_start s b m :
  buffers (h1_heap s) !! buf = Some b → analyzeUnFinished (h1_metrics s) = [] →
  h1_loop pa buf (analyze_fuel b) (set_buffer (ResetForLoopReading b) s) = m → http1_Analyze pa buf s = m.
Proof.
  intros Hb Hu Hm. unfold http1_Analyze, handleUnFinishedEvents. rewrite bind_assoc. step_act. rewrite Hu.
  cbn [retry_unfinished]. step_act.
  assert (Hs : set_unFinished [] s = s).
  { unfold set_unFinished. rewrite <- Hu. by destruct s as [h [] q]. }
  rewrite Hs, (bind_ok _ _ _ _ _ (h1_buffer_ok (modify ResetForLoopReading) s b tt _ Hb eq_refl)).
  assert (Hd : h1_on_heap (deref buf) (set_buffer (ResetForLoopReading b) s) =
    (Ok (ResetForLoopReading b), set_buffer (ResetForLoopReading b) s)).
  { unfold h1_on_heap, deref. step_act. rewrite set_buffer_lookup. by destruct s. }
  rewrite (bind_ok _ _ _ _ _ Hd). exact Hm.
Qed.

Lemma fuel_three b lq lp x y :
  dataEvents b = lq ++ lp → last lq = Some x → list.head lp = Some y → (3 ≤ analyze_fuel b)%nat.
Proof.
  intros Hl Hx Hy. unfold analyze_fuel. rewrite Hl, weight_app.
  destruct lq as [|e lq]; [done|]. destruct lp as [|e' lp]; [done|]. cbn [weight foldr]. nia.
Qed.

End rounds.

(** ** Concrete connections *)

Module Http1Sample.
Definition text (lines : list string) (body : string) : string :=
  foldr (λ l s, l +:+ String "013" (String "010" s)) body lines.

(** A chunk: its data id, its sequence, whether it ends its data, and whether the kernel left
    out data behind it. *)
Definition chunk_of (x : Z * Z * bool * bool * string) : SocketDataBuffer :=
  let '(dataID, seq, fin, cut, s) := x in
  let len := Z.of_nat (String.length s) in
  Upload (MkSocketDataUploadEvent 1 (if cut then 1 else 0) 0 (if fin then 1 else 0) seq len 0 0 9 5
            dataID (dataID - 1) len (bytes_of_string s)).

Definition buffer (chunks : list (Z * Z * bool * bool * string)) (details : list Z) : Buffer :=
  MkBuffer (number 1 (chunk_of <$> chunks)) (Http2Sample.detail <$> details) false true None None 0 None None.

Definition connection (chunks : list (Z * Z * bool * bool * string)) (details : list Z) : h1_state :=
  MkH1 (MkHeap {[ 100%positive := buffer chunks details ]} 101) (NewHTTP1Metrics 9 5)
    (MkQueue (MkLogChan [] 0) (MkLogChan [] 0) 100).

Definition analyze (s : h1_state) : res read_error unit * h1_state := http1_Analyze (λ _, None) 100 s.

(** The paths and the sizes of the logs, the requests that wait, the exchanges to be tried
    again, and the chunks that are left. *)
Definition outcome (r : res read_error unit * h1_state)
  : res read_error unit * list (option (string * (Z * Z * Z * Z))) * nat * list Z * option nat :=
  let s := snd r in
  (fst r,
   (λ l, (λ p, (req_Path p, (req_SizeOfHeadersBytes p, req_SizeOfBodyBytes p, resp_SizeOfHeadersBytes p,
                             resp_SizeOfBodyBytes p))) <$> ProtocolLogData l) <$> waiting (protocolLogs (h1_queue s)),
   length (halfRequests (h1_metrics s)), retryCount <$> analyzeUnFinished (h1_metrics s),
   (λ b, length (dataEvents b)) <$> buffers (h1_heap s) !! 100%positive).

Definition get_users : string := text ["GET /users?id=1 HTTP/1.1"; "host: shop"; ""] "".
Definition ok_hello : string := text ["HTTP/1.1 200 OK"; "Content-Length: 5"; ""] "hello".
Definition post_a : string := text ["POST /a HTTP/1.1"; "Content-Length: 2"; ""] "hi".

(** The request in two chunks, and the response in two. *)
Definition chunks : list (Z * Z * bool * bool * string) :=
  [(1, 0, false, false, str_take 20 get_users); (1, 1, true, false, str_drop 20 get_users);
   (2, 0, false, false, str_take 37 ok_hello); (2, 1, true, false, str_drop 37 ok_hello)].
Definition state : h1_state := connection chunks [1; 2].
Definition cells : list chunk := number 1 (chunk_of <$> chunks).
Definition cell (n : nat) : chunk := default (Elem 1 (chunk_of (0, 0, false, false, ""))) (cells !! n).
Definition request_fields : list (string * string) := [("host", "shop")]%string.
Definition response_fields : list (string * string) := [("Content-Length", "5")]%string.

Lemma conn : exchange_connection 100 state (buffer chunks [1; 2]) (take 2 cells) (drop 2 cells) (cell 1) (cell 2) (cell 3).
Proof.
  split; try (vm_compute; reflexivity).
  - split; [apply (bool_decide_unpack _); vm_compute; exact I|vm_compute; repeat constructor; discriminate..
      |vm_compute; repeat constructor|vm_compute; reflexivity|reflexivity].
  - vm_compute. split; [split; [discriminate|reflexivity]|left; reflexivity].
  - let l := eval vm_compute in cells in change (StronglySorted chunk_le l).
    repeat match goal with |- StronglySorted _ _ => constructor | |- Forall _ _ => constructor end;
      vm_compute; (left; reflexivity) || (right; split; [reflexivity|discriminate]).
  - intros x Hx. change (take 2 cells ++ drop 2 cells) with cells in Hx.
    assert (Hid : DataID (evalue x) = 1 ∨ DataID (evalue x) = 2).
    { repeat (apply elem_of_cons in Hx as [->|Hx]; [vm_compute; by (left + right)|]). by apply elem_of_nil in Hx. }
    destruct Hid as [->| ->]; [exists (Http2Sample.detail 1)|exists (Http2Sample.detail 2)];
      (split; [cbn; set_solver|reflexivity]).
Qed.

Lemma trimmed_text (c d : Z) (bs : list Z) :
  list.head bs = Some c → last bs = Some d → is_blank c = false → is_blank d = false → trimmed bs.
Proof. intros Hc Hd H1 H2 x [Hx|Hx]; congruence. Qed.

Lemma request_fields_ok :
  request_ok (λ _, None) "GET" "/users?id=1" "HTTP/1.1" (MkURL "" "" "/users") (1, 1) request_fields [] (cell 1).
Proof.
  split; try (vm_compute; reflexivity).
  - left.
  - constructor; [|constructor]. split_and!; [done|done|done|].
    by eapply trimmed_text; [reflexivity|reflexivity|..].
  - right. split; [vm_compute; reflexivity|]. split; [vm_compute; reflexivity|]. left. vm_compute. reflexivity.
Qed.

Lemma response_fields_ok :
  response_ok "HTTP/1.1" "200" "OK" 200 (1, 1) response_fields (bytes_of_string "hello") (cell 3).
Proof.
  split; try (vm_compute; reflexivity).
  - split_and!; [done|done|vm_compute; reflexivity|lia].
  - split; apply (bytes_lack "010"); reflexivity.
  - constructor; [|constructor]. split_and!; [done|done|done|].
    by eapply trimmed_text; [reflexivity|reflexivity|..].
  - left. split; [done|]. vm_compute. reflexivity.
Qed.
End Http1Sample.

