(* ===== verification/Http1Waiting.v ===== *)
(** * What the HTTP/1 analysis keeps between two runs

    The exchanges whose details were missing, which are tried again up to three times, and
    the requests that wait for their response; then deviations as evaluated examples. *)

From stdpp Require Import base gmap list strings sorting.
From Stdlib Require Import ZArith Lia Ascii.
From S2P Require Import Prelude GoStrings Interfaces ProcessMonitor Connection Ztunnel AccessLogTail Sender Delivery Tracing Events Buffer BufferOrder Http2 Http2Loop GoHttp Http1 Http1Stream Http1Laws Http1Exchange.

(** ** Exchanges that are tried again *)

Section retries.
Context (buf : positive).

(** An exchange that is tried again, with the bytes and the ranges of its parts. *)
Record attempt : Type := MkAttempt {
  at_exchange : HTTP1AnalyzeUnFinished;
  at_bytes : list (list Z);
  at_ranges : list DataIDRange
}.

Definition attempt_ok (h : heap) (a : attempt) : Prop :=
  exchange_parts buf h (uf_request (at_exchange a)) (uf_response (at_exchange a)) (at_bytes a) (at_ranges a).

Definition once_more (u : HTTP1AnalyzeUnFinished) : HTTP1AnalyzeUnFinished :=
  MkUnFinished (uf_request u) (uf_response u) (retryCount u + 1).

Definition misses (ds : list SocketDetailEvent) (a : attempt) : Prop :=
  Exists (λ i, part_details ds i = []) (at_ranges a).

(** The log of an attempt with the details [ds]. *)
Definition attempt_log (ds : list SocketDetailEvent) (a : attempt)
    (sent : list SocketDetailEvent * AccessLogHTTPProtocol) : Prop :=
  ∃ first final n1 n2 n3 n4, sent.1 = all_details ds (at_ranges a) ∧
    list.head sent.1 = Some first ∧ last sent.1 = Some final ∧
    [n1; n2; n3; n4] = (λ m, u64 (Z.of_nat (length m))) <$> at_bytes a ∧
    sent.2 = exchange_log (uf_request (at_exchange a)) (uf_response (at_exchange a)) first final n1 n2 n3 n4.

(** A pass over the exchanges [l] with the details [ds]: the exchanges that are kept, the
    details that are left, and the logs that are sent. *)
Inductive pass : list SocketDetailEvent → list attempt → list HTTP1AnalyzeUnFinished →
    list SocketDetailEvent → list (list SocketDetailEvent * AccessLogHTTPProtocol) → Prop :=
| pass_nil ds : pass ds [] [] ds []
| pass_kept ds a l kept ds' sent :
    misses ds a → retryCount (at_exchange a) + 1 < 3 → pass ds l kept ds' sent →
    pass ds (a :: l) (once_more (at_exchange a) :: kept) ds' sent
| pass_dropped ds a l kept ds' sent :
    misses ds a → 3 ≤ retryCount (at_exchange a) + 1 → pass ds l kept ds' sent →
    pass ds (a :: l) kept ds' sent
| pass_sent ds a i log l kept ds' sent :
    ¬ misses ds a → whole_range (at_ranges a) = Some i → attempt_log ds a log →
    pass (delete_range i ds) l kept ds' sent → pass ds (a :: l) kept ds' (log :: sent).

Definition send_all (sent : list (list SocketDetailEvent * AccessLogHTTPProtocol)) (q : Queue) : Queue :=
  foldl (λ q x, log_sent x.1 x.2 q) q sent.

Lemma attempt_after_delete h cb i a :
  buffers h !! buf = Some cb → originalBuffer cb = None → attempt_ok h a → attempt_ok (deleted h buf cb i) a.
Proof.
  intros Hc Ho (Hlt & b1 & b2 & m1 & m2 & m3 & m4 & r1 & r2 & r3 & r4 & ? & ? & ? & ? & H1 & H2 & H3 & H4).
  split; [done|]. exists b1, b2, m1, m2, m3, m4, r1, r2, r3, r4. split_and!; try done; by apply part_after_delete.
Qed.

Lemma retry_pass l s cb :
  buffers (h1_heap s) !! buf = Some cb → originalBuffer cb = None → Forall (attempt_ok (h1_heap s)) l →
  ∃ s' kept ds' sent, retry_unfinished (at_exchange <$> l) s = (Ok kept, s') ∧
    pass (detailEvents cb) l kept ds' sent ∧ h1_queue s' = send_all sent (h1_queue s) ∧
    h1_metrics s' = h1_metrics s ∧ buffers (h1_heap s') !! buf = Some (set_detailEvents ds' cb).
Proof.
  revert s cb. induction l as [|a l IH]; intros s cb Hc Ho Hall.
  { exists s, [], (detailEvents cb), []. split_and!; try done; [constructor|]. by destruct cb. }
  apply Forall_cons in Hall as [Ha Hall]. cbn [fmap list_fmap retry_unfinished].
  destruct (decide (misses (detailEvents cb) a)) as [Hm|Hm].
  - destruct (IH s cb Hc Ho Hall) as (s' & kept & ds' & sent & Hrun & Hp & Hq & Hme & Hb).
    rewrite (bind_ok _ _ _ _ _ (HandleHTTPData_missing buf s cb _ _ _ _ Hc Ha Hm)). cbv zeta.
    rewrite (bind_ok _ _ _ _ _ Hrun). step_act. cbn [andb retryCount].
    destruct (Z.ltb_spec (retryCount (at_exchange a) + 1) 3).
    + exists s', (once_more (at_exchange a) :: kept), ds', sent. split_and!; try done. by constructor.
    + exists s', kept, ds', sent. split_and!; try done. by constructor.
  - assert (Hall' : Forall (λ i, part_details (detailEvents cb) i ≠ []) (at_ranges a)).
    { by apply not_Exists_Forall in Hm; [|apply _]. }
    destruct (HandleHTTPData_complete buf s cb _ _ _ _ Hc Ho Ha Hall')
      as (first & final & i & n1 & n2 & n3 & n4 & Hfirst & Hfinal & Hns & Hi & Hrun1).
    rewrite (bind_ok _ _ _ _ _ Hrun1). cbv zeta. set (s1 := set_h1_queue _ _).
    destruct (IH s1 (set_detailEvents (delete_range i (detailEvents cb)) cb)) as
      (s' & kept & ds' & sent & Hrun & Hp & Hq & Hme & Hb); [apply lookup_insert_eq|done| |].
    { eapply Forall_impl; [exact Hall|]. intros a' Ha'. by apply attempt_after_delete. }
    rewrite (bind_ok _ _ _ _ _ Hrun). step_act.
    eexists s', kept, ds', ((_, _) :: sent). split_and!; [done| |exact Hq|done|done].
    eapply pass_sent; [done|done| |done]. by exists first, final, n1, n2, n3, n4.
Qed.

(** Nothing is tried a fourth time. *)
Lemma pass_counts ds l kept ds' sent :
  pass ds l kept ds' sent →
  Forall (λ u, retryCount u < 3) kept ∧ kept `sublist_of` (once_more ∘ at_exchange <$> l) ∧
  (length kept + length sent ≤ length l)%nat.
Proof.
  induction 1 as [|ds a l kept ds' sent Hm Hc _ (IH1 & IH2 & IH3)|ds a l kept ds' sent Hm Hc _ (IH1 & IH2 & IH3)
    |ds a i log l kept ds' sent Hm Hi Hlog _ (IH1 & IH2 & IH3)]; simpl; split_and!; try lia; try done;
    by constructor.
Qed.

(** C21: exchanges whose details are missing are tried again, three times at most.  A pass over
    them ends; each one is sent, with exactly its details and sizes, as soon as all its parts
    have details, kept with one more attempt when they have not, and dropped when that was
    the third attempt; the waiting requests and the data stay as they are. *)
Theorem unfinished_tried_again s cb l :
  buffers (h1_heap s) !! buf = Some cb → originalBuffer cb = None →
  analyzeUnFinished (h1_metrics s) = at_exchange <$> l → Forall (attempt_ok (h1_heap s)) l →
  ∃ s' kept ds' sent, handleUnFinishedEvents s = (Ok tt, s') ∧
    analyzeUnFinished (h1_metrics s') = kept ∧ halfRequests (h1_metrics s') = halfRequests (h1_metrics s) ∧
    buffers (h1_heap s') !! buf = Some (set_detailEvents ds' cb) ∧
    pass (detailEvents cb) l kept ds' sent ∧ h1_queue s' = send_all sent (h1_queue s) ∧
    Forall (λ u, retryCount u < 3) kept ∧ kept `sublist_of` (once_more ∘ at_exchange <$> l).
Proof.
  intros Hc Ho Hl Hall. destruct (retry_pass l s cb Hc Ho Hall) as (s' & kept & ds' & sent & Hrun & Hp & Hq & Hm & Hb).
  destruct (pass_counts _ _ _ _ _ Hp) as (H1 & H2 & _).
  exists (set_unFinished kept s'), kept, ds', sent. split_and!; try done.
  - unfold handleUnFinishedEvents. step_act. rewrite Hl. by rewrite (bind_ok _ _ _ _ _ Hrun).
  - simpl. by rewrite Hm.
Qed.
End retries.

(** ** Requests that wait *)

Section waiting.
Context (h : heap) (first_id final_id : Request → Z).

(** The data ids of the first and the last chunk of a request. *)
Definition has_ids (x : Request) : Prop :=
  MinDataID x h = (Ok (first_id x), h) ∧ MaxDataID x h = (Ok (final_id x), h).
Definition by_first_id (x y : Request) : Prop := first_id x ≤ first_id y.

Lemma insert_request_run req l :
  Forall has_ids l →
  ∃ l1 l2, l = l1 ++ l2 ∧ insert_request (first_id req) req l h = (Ok (l1 ++ req :: l2), h) ∧
    Forall (λ x, by_first_id x req) l1 ∧ (∀ y, list.head l2 = Some y → first_id req < first_id y).
Proof.
  induction 1 as [|x l [Hx _] _ (l1 & l2 & -> & Hrun & H1 & H2)]; [by exists [], []|].
  cbn [insert_request]. rewrite (bind_ok _ _ _ _ _ Hx).
  destruct (Z.ltb_spec (first_id req) (first_id x)).
  - exists [], (x :: l1 ++ l2). split_and!; try done. by intros y [= <-].
  - rewrite (bind_ok _ _ _ _ _ Hrun). exists (x :: l1), l2. split_and!; try done. by constructor.
Qed.

Lemma sorted_back l back :
  StronglySorted by_first_id l → last l = Some back → Forall (λ x, by_first_id x back) l.
Proof.
  induction 1 as [|x l Hs IH Hall]; intros Hl; [done|]. destruct l as [|y l].
  { injection Hl as ->. repeat constructor. unfold by_first_id. lia. }
  specialize (IH Hl). constructor; [|done]. apply Forall_cons in Hall as [Hxy _].
  apply Forall_cons in IH as [Hy _]. unfold by_first_id in *. lia.
Qed.

Lemma sorted_insert req l1 l2 :
  StronglySorted by_first_id (l1 ++ l2) → Forall (λ x, by_first_id x req) l1 →
  (∀ y, list.head l2 = Some y → first_id req < first_id y) → StronglySorted by_first_id (l1 ++ req :: l2).
Proof.
  intros (H12 & H1 & H2)%StronglySorted_app Hl1 Hl2.
  assert (Hreq : Forall (by_first_id req) l2).
  { destruct l2 as [|y l2]; [constructor|]. specialize (Hl2 y eq_refl).
    apply StronglySorted_inv in H2 as [_ Hy]. constructor; [unfold by_first_id; lia|].
    eapply Forall_impl; [exact Hy|]. unfold by_first_id. intros z. lia. }
  apply StronglySorted_app. split_and!; [|done|by constructor].
  intros x y Hx [->|Hy]%elem_of_cons; [by rewrite Forall_forall in Hl1; apply Hl1|by apply H12].
Qed.

(** A request is put behind those that do not start after it, so requests in the order of
    their data stay so. *)
Lemma appendRequestToList_place req l :
  Forall has_ids l → has_ids req →
  ∃ l1 l2, l = l1 ++ l2 ∧ appendRequestToList req l h = (Ok (l1 ++ req :: l2), h) ∧
    (StronglySorted by_first_id l → StronglySorted by_first_id (l1 ++ req :: l2)).
Proof.
  intros Hl [Hr _]. unfold appendRequestToList. destruct (last l) as [back|] eqn:Hb; cycle 1.
  { apply last_None in Hb as ->. exists [], []. split_and!; try done. by repeat constructor. }
  assert (Hback : has_ids back).
  { rewrite Forall_forall in Hl. apply Hl. by apply last_Some_elem_of. }
  rewrite (bind_ok _ _ _ _ _ (proj1 Hback)), (bind_ok _ _ _ _ _ Hr).
  destruct (Z.ltb_spec (first_id back) (first_id req)).
  - exists l, []. split_and!; [by rewrite app_nil_r|done|]. intros Hs.
    apply sorted_insert; [by rewrite app_nil_r| |done].
    eapply Forall_impl; [by eapply sorted_back|]. unfold by_first_id. intros x ?. lia.
  - destruct (insert_request_run req l Hl) as (l1 & l2 & -> & Hrun & H1 & H2).
    exists l1, l2. split_and!; [done|done|]. intros Hs. by apply sorted_insert.
Qed.

(** The request ends where the response starts. *)
Definition precedes (currentDataID prevDataID : Z) (x : Request) : bool :=
  (u64 (final_id x) =? prevDataID) || (u64 (i64 (final_id x + 1)) =? currentDataID).

(** A response takes the first request that ends where it starts; the others stay in order. *)
Lemma findMatchesRequest_first cur prev l :
  Forall has_ids l →
  (findMatchesRequest cur prev l h = (Ok (None, l), h) ∧ Forall (λ x, precedes cur prev x = false) l) ∨
  ∃ l1 x l2, l = l1 ++ x :: l2 ∧ findMatchesRequest cur prev l h = (Ok (Some x, l1 ++ l2), h) ∧
    precedes cur prev x = true ∧ Forall (λ x, precedes cur prev x = false) l1.
Proof.
  induction 1 as [|x l [_ Hx] _ IH]; [by left|].
  cbn [findMatchesRequest]. rewrite (bind_ok _ _ _ _ _ Hx). fold (precedes cur prev x).
  destruct (precedes cur prev x) eqn:Hp; [right; by exists [], x, l|].
  destruct IH as [[Hrun H]|(l1 & y & l2 & -> & Hrun & Hy & H)]; rewrite (bind_ok _ _ _ _ _ Hrun).
  - left. split; [done|]. by constructor.
  - right. exists (x :: l1), y, l2. split_and!; try done. by constructor.
Qed.

Lemma sorted_without l1 x l2 :
  StronglySorted by_first_id (l1 ++ x :: l2) →
  StronglySorted by_first_id (l1 ++ l2) ∧ Forall (by_first_id x) l2.
Proof.
  intros (H12 & H1 & H2)%StronglySorted_app. apply StronglySorted_inv in H2 as [H2 Hx].
  split; [|done]. apply StronglySorted_app. split_and!; try done.
  intros a b Ha Hb. apply H12; [done|by right].
Qed.

End waiting.

(** ** Concrete connections *)

Module Http1RetrySample.
Import Http1Sample.

(** The exchange was read before the details of its response came. *)
Definition early : h1_state := Eval vm_compute in snd (analyze (connection chunks [1])).
Definition exchange : HTTP1AnalyzeUnFinished := Eval vm_compute in
  default (MkUnFinished (MkRequest "" (MkURL "" "" "") "" ("", (0, 0)) ∅ "" 1 None)
                        (MkResponse ("", (0, 0)) "" 0 ∅ 1 None) 0)%string
    (list.head (analyzeUnFinished (h1_metrics early))).

(** The same exchange at its first and at its third attempt. *)
Definition attempt_at (n : Z) : attempt :=
  MkAttempt (MkUnFinished (uf_request exchange) (uf_response exchange) n)
    [bytes_of_string get_users; []; take 38 (bytes_of_string ok_hello); bytes_of_string "hello"]
    [MkDataIDRange 1 1 true; MkDataIDRange 1 1 true; MkDataIDRange 2 2 false; MkDataIDRange 2 2 true].
Definition attempts : list attempt := [attempt_at 0; attempt_at 2].
Definition retry_state : h1_state := set_unFinished (at_exchange <$> attempts) early.
Definition cb : Buffer := Eval vm_compute in default (NewBuffer) (buffers (h1_heap early) !! 100%positive).

Lemma attempt_parts n : attempt_ok 100 (h1_heap retry_state) (attempt_at n).
Proof.
  split; [reflexivity|]. do 10 eexists. split_and!; [reflexivity..| | | |].
  all: split; [do 3 eexists; split_and!; try reflexivity; by intros ?|eexists; split_and!; vm_compute; reflexivity].
Qed.
End Http1RetrySample.

Lemma unfinished_tried_again_witness :
  ∃ s' kept ds' sent, handleUnFinishedEvents Http1RetrySample.retry_state = (Ok tt, s') ∧
    analyzeUnFinished (h1_metrics s') = kept ∧
    pass (detailEvents Http1RetrySample.cb) Http1RetrySample.attempts kept ds' sent ∧
    Forall (λ u, retryCount u < 3) kept.
Proof.
  destruct (unfinished_tried_again 100 Http1RetrySample.retry_state Http1RetrySample.cb Http1RetrySample.attempts
    eq_refl eq_refl eq_refl) as (s' & kept & ds' & sent & H1 & H2 & _ & _ & H3 & _ & H4 & _).
  - constructor; [apply Http1RetrySample.attempt_parts|].
    constructor; [apply Http1RetrySample.attempt_parts|constructor].
  - exists s', kept, ds', sent. split; [exact H1|]. split; [exact H2|]. split; [exact H3|exact H4].
Defined.

Module WaitingSample.
(** The request of one chunk with the data id [n], in the buffer [n] of the heap. *)
Definition request (n : positive) : Request :=
  MkRequest "GET" (MkURL "" "" "/") "/" ("HTTP/1.1", (1, 1)) ∅ "" n None.
Definition heap_ : heap :=
  MkHeap (list_to_map ((λ n, (n, WholeStreamSample.part n (Z.pos n))) <$> [2; 4; 6]%positive)) 12.
Definition id (x : Request) : Z := Z.pos (rq_headerBuffer x).
End WaitingSample.


(** ** Deviations, evaluated *)

Module Http1Deviations.
Import Http1Sample.

(** One exchange for comparison: one log with the sizes of its heads and bodies, and nothing
    is left. *)
Example exchange_outcome :
  outcome (analyze (connection [(1, 0, true, false, post_a); (2, 0, true, false, ok_hello)] [1; 2])) =
  (Ok tt, [Some ("/a"%string, (39, 2, 38, 5))], 0%nat, [], Some 0%nat).
Proof. vm_compute. reflexivity. Qed.

(** A chunked response in two pieces of data: the body is that of its chunks. *)
Example chunked_outcome :
  outcome (analyze (connection [(1, 0, true, false, get_users);
    (2, 0, false, false, text ["HTTP/1.1 200 OK"; "Transfer-Encoding: chunked"; ""; "5"] "he");
    (2, 1, true, false, text ["lo"; "3"; "you"; "0"; ""] "")] [1; 2])) =
  (Ok tt, [Some ("/users"%string, (40, 0, 47, 8))], 0%nat, [], Some 0%nat).
Proof. vm_compute. reflexivity. Qed.

(** The response to a HEAD request has a length but no body: the reader waits for the bytes of
    the body, so the exchange is not logged while no data follows. *)
Example head_response_not_logged :
  outcome (analyze (connection [(1, 0, true, false, text ["HEAD /a HTTP/1.1"; "Host: a"; ""] "");
    (2, 0, true, false, text ["HTTP/1.1 200 OK"; "Content-Length: 5"; ""] "")] [1; 2])) =
  (Ok tt, [], 1%nat, [], Some 1%nat).
Proof. vm_compute. reflexivity. Qed.

(** Two requests in one chunk: the reader reads the chunk ahead, so the chunk is removed with
    the first request and the second is never read; its response stays without a request. *)
Example pipelined_request_lost :
  outcome (analyze (connection [(1, 0, true, false, post_a +:+ post_a); (2, 0, true, false, ok_hello);
                                (3, 0, true, false, ok_hello)] [1; 2; 3])) =
  (Ok tt, [Some ("/a"%string, (39, 2, 38, 5))], 0%nat, [], Some 1%nat).
Proof. vm_compute. reflexivity. Qed.

(** The authority of a CONNECT request is not taken for a URL, since the method of the
    request is compared before it is set: the request and its response are not logged. *)
Example connect_request_dropped :
  outcome (analyze (connection [(1, 0, true, false, text ["CONNECT 10.0.0.1:443 HTTP/1.1"; ""] "");
                                (2, 0, true, false, ok_hello)] [1; 2])) =
  (Ok tt, [], 0%nat, [], Some 2%nat).
Proof. vm_compute. reflexivity. Qed.

(** The kernel left data out behind the body: the second slice is cut at a position of the
    first slice, which is none of the connection, so it runs to the end of the connection,
    and the size of the body of 5 bytes counts the data behind it. *)
Example cut_body_overcounted :
  outcome (analyze (connection [(1, 0, true, false, get_users); (2, 0, false, false, text ["HTTP/1.1 200 OK"; "Content-Length: 5"; ""] "");
                                (2, 1, true, true, "hello"); (3, 0, true, false, "later"%string)] [1; 2; 3])) =
  (Ok tt, [Some ("/users"%string, (40, 0, 38, 15))], 0%nat, [], Some 1%nat).
Proof. vm_compute. reflexivity. Qed.

(** The kernel left data out behind the only chunk of a chunked body: the body is a slice of a
    slice, and a slice has no details of its own, so the exchange is not logged although all
    details are there, and it is dropped after three more runs. *)
Example cut_chunked_body_not_logged :
  let s := analyze (connection [(1, 0, true, false, get_users);
    (2, 0, true, true, text ["HTTP/1.1 200 OK"; "Transfer-Encoding: chunked"; ""; "5"; "hello"] "")] [1; 2]) in
  outcome s = (Ok tt, [], 0%nat, [0], Some 0%nat) ∧
  outcome (analyze (snd (analyze (snd (analyze (snd s)))))) = (Ok tt, [], 0%nat, [], Some 0%nat).
Proof. vm_compute. split; reflexivity. Qed.

(** The response to the second of two requests is not complete: the second request goes back
    in front of the first, so the requests are no longer in the order of their data. *)
Example put_back_breaks_order :
  let request path := text [("GET " +:+ path +:+ " HTTP/1.1")%string; "Host: a"; ""] "" in
  let s := analyze (connection [(1, 0, true, false, request "/a"%string); (2, 0, true, false, request "/b"%string);
    (3, 0, true, false, text ["HTTP/1.1 200 OK"; "Content-Length: 5"; ""] "")] [1; 2; 3]) in
  fst s = Ok tt ∧ (λ r, url_Path (rq_URL r)) <$> halfRequests (h1_metrics (snd s)) = ["/b"; "/a"]%string.
Proof. vm_compute. split; reflexivity. Qed.
End Http1Deviations.
