(* ===== verification/Http1Reader.v ===== *)
(** * The HTTP/1 reader ends on every input

    Whatever the chunks hold, reading a request or a response of Http1.v ends, with a result
    or an error, and does not panic: the fuel of every loop is enough, the positions of the
    unread bytes exist, and the slices a message keeps can be used.

    The measure is what is left to read: the chunks and bytes in front of the connection
    buffer, and the bytes the reader holds. *)

From stdpp Require Import base gmap list strings.
From Stdlib Require Import ZArith Lia Ascii.
From S2P Require Import Prelude GoStrings Interfaces ProcessMonitor Connection Ztunnel AccessLogTail Sender Delivery Tracing Events Buffer BufferOrder Http2 Http2Loop GoHttp Http1 Http1Stream Http1Laws Http1Exchange.

#[local] Opaque remaining.

(** Arithmetic on the costs of runs. *)
Ltac cost := intros; cbv beta in *; cbn [fst snd] in *; lia.

(** ** Runs that do not panic *)

Section runs.
Context {S E : Type}.

Definition runs {A} (m : act S E A) (Q : E + A → S → Prop) (s : S) : Prop :=
  match m s with
  | (Ok a, s') => Q (inr a) s'
  | (Err e, s') => Q (inl e) s'
  | (Panic, _) => False
  end.

Lemma runs_bind {A B} (m : act S E A) (f : A → act S E B) Q s :
  runs m (λ r s', match r with inr a => runs (f a) Q s' | inl e => Q (inl e) s' end) s →
  runs (m ≫= f) Q s.
Proof. unfold runs, mbind, act_bind. by destruct (m s) as [[]]. Qed.

Lemma runs_mono {A} (m : act S E A) (P Q : E + A → S → Prop) s :
  runs m P s → (∀ r s', P r s' → Q r s') → runs m Q s.
Proof. unfold runs. destruct (m s) as [[] ?]; naive_solver. Qed.

Lemma runs_ok {A} (m : act S E A) (Q : E + A → S → Prop) s a s' : m s = (Ok a, s') → Q (inr a) s' → runs m Q s.
Proof. intros Hm HQ. unfold runs. by rewrite Hm. Qed.
End runs.

(** ** Slices *)

Section slices.
Context (buf : positive).

(** A buffer that was cut out of another one. *)
Record slice_at (h : heap) (loc : positive) (x : Buffer) : Prop := {
  sl_lookup : buffers h !! loc = Some x;
  sl_above : (buf < loc)%positive;
  sl_fresh : (loc < fresh h)%positive;
  sl_data : dataEvents x ≠ [];
  sl_details : detailEvents x = [];
  sl_head : ∃ e i, head x = Some (MkPosition (Some e) i);
  sl_current : ∃ p, current x = Some p;
  sl_end : ∃ e i, endPosition x = Some (MkPosition (Some e) i)
}.

(** A slice of the connection buffer, or of another slice. *)
Inductive live (h : heap) : positive → Prop :=
| live_cut loc x : slice_at h loc x → originalBuffer x = Some buf → live h loc
| live_again loc x o :
    slice_at h loc x → originalBuffer x = Some o → (o < loc)%positive → live h o → live h loc.

Lemma live_slice h loc : live h loc → ∃ x, slice_at h loc x.
Proof. intros [? x ? ?|? x o ? ? ? ?]; by exists x. Qed.

Lemma slice_at_grows h h' loc x : slice_at h loc x → heap_grows buf h h' → slice_at h' loc x.
Proof.
  intros [H1 H2 H3 H4 H5 H6 H7 H8] [Hf Hg]. simpl in *. split; try done; [|lia].
  rewrite Hg by (done || lia). done.
Qed.

Lemma live_grows h h' loc : live h loc → heap_grows buf h h' → live h' loc.
Proof.
  induction 1 as [loc x Hx Ho|loc x o Hx Ho Hlt _ IH]; intros Hg.
  - eapply live_cut; [by eapply slice_at_grows|done].
  - eapply live_again; [by eapply slice_at_grows|done|done|by apply IH].
Qed.

Definition live_opt (h : heap) (o : option positive) : Prop := ∀ loc, o = Some loc → live h loc.

Lemma live_opt_grows h h' o : live_opt h o → heap_grows buf h h' → live_opt h' o.
Proof. intros Ho Hg loc ->. eapply live_grows; [by apply Ho|done]. Qed.

(** Cutting a new slice out of the connection or of a slice. *)
Lemma alloc_slice values valid index o e i h :
  values ≠ [] → (buf < fresh h)%positive → (o = buf ∨ live h o) →
  ∃ h' loc, alloc values valid index (Some o) (Some (MkPosition (Some e) i)) h = (h', loc) ∧
    live h' loc ∧ heap_grows buf h h' ∧ (buf < fresh h')%positive ∧ buffers h' !! buf = buffers h !! buf.
Proof.
  intros Hv Hf Ho. eexists _, _. split; [reflexivity|]. unfold alloc.
  set (loc := (fresh h + Pos.of_succ_nat (length values))%positive).
  set (x := MkBuffer _ _ _ _ _ _ _ _ _). set (h' := MkHeap _ _).
  assert (Hlt : (buf < loc)%positive) by (unfold loc; lia).
  assert (Hg : heap_grows buf h h').
  { split; simpl; [unfold loc; lia|]. intros y _ Hy. rewrite lookup_insert_ne; [done|unfold loc; lia]. }
  assert (Hs : slice_at h' loc x).
  { destruct values as [|v values]; [done|].
    split; simpl; [apply lookup_insert_eq|done|lia|done|done|by eexists _, _|by eexists|by eexists _, _]. }
  split_and!; [|done|simpl; lia|simpl; rewrite lookup_insert_ne; [done|lia]].
  destruct Ho as [->|Ho]; [by eapply live_cut|].
  eapply live_again; [done|done| |by eapply live_grows].
  destruct (live_slice _ _ Ho) as [y Hy]. pose proof (sl_fresh _ _ _ Hy). unfold loc. lia.
Qed.

Lemma Slice_live self valid start e i h r :
  buffers h !! self = Some r → (buf < fresh h)%positive → (self = buf ∨ live h self) →
  ∃ h' loc, Slice self valid start (MkPosition (Some e) i) h = (Ok loc, h') ∧
    live h' loc ∧ heap_grows buf h h' ∧ (buf < fresh h')%positive ∧ buffers h' !! buf = buffers h !! buf.
Proof.
  intros Hr Hf Hs. unfold Slice, deref. step_act. rewrite Hr. step_act. cbn [slice_values element mbind option_bind].
  set (values := (_ <$> _) ++ _). step_act.
  destruct (alloc_slice values valid (bufIndex start) self e i h) as (h' & loc & Ha & Hl & Hg & Hf' & Hb);
    [unfold values; by destruct (_ <$> _)|done|done|].
  rewrite Ha. step_act. by exists h', loc.
Qed.

Lemma deref_opts h os :
  Forall (λ o, ∃ loc, o = Some loc ∧ live h loc) os →
  ∃ xs, deref_all os h = (Ok (Some <$> xs), h) ∧ length xs = length os ∧
    Forall (λ x, ∃ loc, slice_at h loc x) xs.
Proof.
  induction 1 as [|o os (loc & -> & Hl) _ (xs & Hrun & Hlen & Hxs)]; [by exists []|].
  destruct (live_slice _ _ Hl) as [x Hx]. exists (x :: xs). cbn [deref_all deref_opt]. unfold deref. step_act.
  rewrite (sl_lookup _ _ _ Hx). step_act. rewrite (bind_ok _ _ _ _ _ Hrun). step_act.
  split_and!; [done|simpl; by rewrite Hlen|]. constructor; [by exists loc|done].
Qed.

Lemma combine_slices h xs :
  Forall (λ x, ∃ loc, slice_at h loc x) xs →
  ∃ values, combine_all (Some <$> xs) = Some values ∧ (xs ≠ [] → values ≠ []).
Proof.
  induction 1 as [|x xs (loc & Hx) _ (values & Hv & _)]; [by exists []|].
  cbn [fmap list_fmap combine_all]. rewrite Hv.
  destruct (sl_head _ _ _ Hx) as (e & i & Hh). pose proof (sl_data _ _ _ Hx) as Hd.
  unfold combine_values. rewrite Hh. destruct (dataEvents x) as [|c l]; [done|].
  case_decide; eexists; (split; [reflexivity|done]).
Qed.

Lemma combine_end_some h xs :
  xs ≠ [] → Forall (λ x, ∃ loc, slice_at h loc x) xs →
  ∃ e i, combine_end (Some <$> xs) = Ok (Some (MkPosition (Some e) i)).
Proof.
  intros Hne Hxs. unfold combine_end.
  assert (Homap : omap id (Some <$> xs) = xs) by (clear; induction xs as [|x xs IH]; simpl; [done|by rewrite <- IH at 2]).
  rewrite Homap. destruct (list.head (reverse xs)) as [x|] eqn:Hx.
  - assert (Hin : x ∈ xs).
    { rewrite <- reverse_involutive. apply elem_of_reverse. destruct (reverse xs); simplify_eq/=. left. }
    rewrite Forall_forall in Hxs. destruct (Hxs x Hin) as (loc & Hs).
    destruct (sl_end _ _ _ Hs) as (e & i & He). rewrite He. by exists e, i.
  - destruct (reverse xs) eqn:Hr; [|done]. apply (f_equal reverse) in Hr. by rewrite reverse_involutive in Hr.
Qed.

Lemma CombineSlices_live h os :
  Forall (λ o, ∃ loc, o = Some loc ∧ live h loc) os → (buf < fresh h)%positive →
  ∃ h' o, CombineSlices true (Some buf) os h = (Ok o, h') ∧ live_opt h' o ∧
    heap_grows buf h h' ∧ (buf < fresh h')%positive ∧ buffers h' !! buf = buffers h !! buf.
Proof.
  intros Hos Hf. destruct os as [|o1 [|o2 os]].
  - by exists h, None.
  - exists h, o1. split_and!; try done.
    apply Forall_cons in Hos as [(loc & -> & Hl) _]. by intros ? [= <-].
  - destruct (deref_opts h (o1 :: o2 :: os) Hos) as (xs & Hrun & Hlen & Hxs).
    assert (Hne : xs ≠ []) by (by destruct xs).
    destruct (combine_slices h xs Hxs) as (values & Hv & Hvne). destruct (combine_end_some h xs Hne Hxs) as (e & i & He).
    destruct (alloc_slice values true 0 buf e i h) as (h' & loc & Ha & Hl & Hg & Hf' & Hb); [auto|done|by left|].
    exists h', (Some loc). split_and!; try done; [|by intros ? [= <-]].
    unfold CombineSlices. rewrite (bind_ok _ _ _ _ _ Hrun), Hv. step_act. rewrite He. step_act. rewrite Ha. by step_act.
Qed.
End slices.

(** ** What is left to read *)

Section reading.
Context (buf : positive) (h0 : heap) (b0 : Buffer) (l0 : list chunk).

(** The reader is at the index [i] of the chunk [e], in the part [l0] of the connection. *)
Record reader_at (s : rd) (b : Buffer) (e : chunk) (i : Z) (post : list chunk) : Prop := {
  ra_buf : buffers (rd_heap s) !! buf = Some b;
  ra_moved : moved b0 b;
  ra_at : at_chunk b e i post;
  ra_suffix : (e :: post) `suffix_of` l0;
  ra_grows : heap_grows buf h0 (rd_heap s);
  ra_fresh : (buf < fresh (rd_heap s))%positive;
  ra_err : b_err s ≠ Some (ErrIO OutOfFuel)
}.

(** These unread bytes are the last ones of what was read of the chunk. *)
Definition behind (bs : list Z) (e : chunk) (i : Z) : Prop :=
  bs ≠ [] → Z.of_nat (length bs) ≤ i ≤ BufferLen (evalue e).

(** At most [n] bytes and chunks are left. *)
Definition rd_ok (s : rd) (n : nat) : Prop :=
  ∃ b e i post, reader_at s b e i post ∧ behind (b_buf s) e i ∧
    (remaining e i post + length (b_buf s) ≤ n)%nat.

Definition fine (e : go_error) : Prop := e ≠ ErrIO OutOfFuel.

(** A run ends with an error that the program knows, or with a result after at least [cost]
    bytes or chunks. *)
Definition ends {A} (n : nat) (cost : A → nat) (R : A → rd → Prop) (r : go_error + A) (s' : rd) : Prop :=
  match r with
  | inl e => fine e ∧ rd_ok s' n
  | inr a => R a s' ∧ ∃ n', rd_ok s' n' ∧ (n' + cost a ≤ n)%nat
  end.

Lemma rd_ok_mono s n n' : rd_ok s n → (n ≤ n')%nat → rd_ok s n'.
Proof. intros (b & e & i & post & H1 & H2 & H3) Hn. exists b, e, i, post. split_and!; [done..|lia]. Qed.

Lemma rd_ok_grows s n : rd_ok s n → heap_grows buf h0 (rd_heap s).
Proof. by intros (b & e & i & post & [] & _). Qed.

Lemma ends_bind {A B} (m : rd_op A) (f : A → rd_op B) n c R c' (R' : B → rd → Prop) s :
  runs m (ends n c R) s →
  (∀ a s' n', R a s' → rd_ok s' n' → (n' + c a ≤ n)%nat → runs (f a) (ends n c' R') s') →
  runs (m ≫= f) (ends n c' R') s.
Proof.
  intros Hm Hf. apply runs_bind. eapply runs_mono; [exact Hm|]. intros [e|a] s'; [done|].
  intros (HR & n' & Hs' & Hn'). by eapply Hf.
Qed.

Lemma ends_weaken {A} (m : rd_op A) n n' c c' (R R' : A → rd → Prop) s :
  runs m (ends n' c R) s → (n' ≤ n)%nat → (∀ a, c' a ≤ c a + (n - n'))%nat → (∀ a s', R a s' → R' a s') →
  runs m (ends n c' R') s.
Proof.
  intros Hm Hn Hc HR. eapply runs_mono; [exact Hm|]. intros [e|a] s'.
  - intros [He Hs']. split; [done|]. by eapply rd_ok_mono.
  - intros (HRa & k & Hs' & Hk). split; [auto|]. exists k. split; [done|]. specialize (Hc a). lia.
Qed.

Lemma ends_ret {A} (a : A) n c (R : A → rd → Prop) n' s :
  rd_ok s n' → (n' + c a ≤ n)%nat → R a s → runs (mret a) (ends n c R) s.
Proof. intros Hs Hn HR. split; [done|]. by exists n'. Qed.

Lemma ends_raise {A} e n c (R : A → rd → Prop) s :
  fine e → rd_ok s n → runs (raise e) (ends n c R) s.
Proof. done. Qed.

Lemma ends_catch {A} (m : rd_op A) n c (R : A → rd → Prop) s :
  runs m (ends n c R) s →
  runs (catch m) (ends n (λ r, match r with inr a => c a | inl _ => O end)
                         (λ r s', match r with inr a => R a s' | inl e => fine e end)) s.
Proof.
  unfold runs, catch, ends. destruct (m s) as [[a|e|] s']; [done| |done].
  intros [He Hs']. assert (H : fine e ∧ ∃ n', rd_ok s' n' ∧ (n' + 0 ≤ n)%nat).
  { split; [done|]. exists n. split; [done|lia]. }
  destruct e as [[]| | |]; try exact H. by destruct He.
Qed.

(** *** Reads of the connection buffer *)

Lemma Read_at s b e i post k :
  reader_at s b e i post → 0 < k →
  runs (rd_on_buffer buf (Read k))
    (λ r s', match r with
             | inl er => fine er ∧ s' = s
             | inr bytes => ∃ b' e' i' post', reader_at s' b' e' i' post' ∧
                 b_buf s' = b_buf s ∧ b_err s' = b_err s ∧
                 (remaining e' i' post' + Nat.max 1 (length bytes) ≤ remaining e i post)%nat ∧
                 Z.of_nat (length bytes) ≤ Z.min k i' ∧ i' ≤ BufferLen (evalue e') ∧
                 (i < BufferLen (evalue e) → e' = e ∧ i ≤ i')
             end) s.
Proof.
  intros [Hb [p Hm] Ha Hsuf Hg Hf He] Hk. pose proof (Read_total k b e i post Ha Hk) as H.
  unfold runs, rd_on_buffer. rewrite Hb. destruct (Read k b) as [[bytes|er|] b']; [| |done].
  - destruct H as (e' & i' & post' & Hb' & Ha' & [mid Hmid] & _ & Hrem & Hlen & Hi & _ & Hstay).
    exists b', e', i', post'. split_and!; try done; try lia. split; simpl; try done.
    + apply lookup_insert_eq.
    + exists (Some (MkPosition (Some e') i')). rewrite Hb', Hm. done.
    + destruct Hsuf as [w ->]. exists (w ++ mid). by rewrite Hmid, app_assoc.
    + eapply grows_trans; [exact Hg|]. split; [done|]. intros x Hx _. by apply lookup_insert_ne.
  - destruct H as [Her ->]. split; [by intros [= ?]|]. rewrite insert_id by done. by destruct s as [[]].
Qed.

(** The reader has more bytes, or an error. *)
Definition filled (s : rd) (e : chunk) (i : Z) (post : list chunk) (s' : rd) : Prop :=
  ∃ b' e' i' post', reader_at s' b' e' i' post' ∧
    ((b_err s' ≠ None ∧ b_buf s' = b_buf s ∧ (remaining e' i' post' ≤ remaining e i post)%nat) ∨
     (∃ bytes, bytes ≠ [] ∧ b_buf s' = b_buf s ++ bytes ∧ b_err s' = b_err s ∧
        (remaining e' i' post' + length bytes ≤ remaining e i post)%nat ∧ behind bytes e' i')).

Lemma fill_loop_at k s b e i post :
  reader_at s b e i post → Buffered s < defaultBufSize →
  runs (fill_loop buf k) (λ r s', match r with inl _ => False | inr _ => filled s e i post s' end) s.
Proof.
  revert s b e i post. induction k as [|k IH]; intros s b e i post Ha Hb; cbn [fill_loop].
  { exists b, e, i, post. split; [by destruct Ha|]. left. done. }
  apply runs_bind. change (runs (r ← catch (rd_on_buffer buf (Read (defaultBufSize - Buffered s)));
    match r with inl e => modify (set_b_err (Some e)) | inr [] => fill_loop buf k
    | inr bytes => modify (λ s, set_b_buf (b_buf s ++ bytes) s) end)
    (λ r s', match r with inl _ => False | inr _ => filled s e i post s' end) s).
  pose proof (Read_at s b e i post (defaultBufSize - Buffered s) Ha ltac:(lia)) as Hr.
  apply runs_bind. unfold runs at 1, catch. unfold runs in Hr.
  destruct (rd_on_buffer buf _ s) as [[bytes|er|] s'] eqn:Hrun; [| |done].
  - destruct Hr as (b' & e' & i' & post' & Ha' & Hbuf & Herr & Hrem & Hlen & Hi & _). destruct bytes as [|c bytes].
    + eapply runs_mono; [apply (IH s' b' e' i' post' Ha'); unfold Buffered in *; by rewrite Hbuf|].
      intros [er|[]] s'' H; [done|]. destruct H as (b2 & e2 & i2 & p2 & Ha2 & H).
      exists b2, e2, i2, p2. split; [done|]. rewrite Hbuf, Herr in H.
      destruct H as [(?&?&?)|(bs&?&?&?&?&?)]; [left; split_and!; try done; lia|].
      right. exists bs. split_and!; try done; lia.
    + exists b', e', i', post'. split; [by destruct Ha'|]. right. exists (c :: bytes). cbn [b_buf set_b_buf]. rewrite Hbuf.
      split_and!; try done. intros _. lia.
  - destruct Hr as [Hfine ->].
    assert (Hset : filled s e i post (set_b_err (Some er) s)).
    { exists b, e, i, post. split; [destruct Ha; split; try done; simpl; by intros [= ?]|]. by left. }
    destruct er as [[]| | |]; try exact Hset. by destruct Hfine.
Qed.

Lemma fill_at s b e i post :
  reader_at s b e i post → Buffered s < defaultBufSize →
  runs (fill buf) (λ r s', match r with inl _ => False | inr _ => filled s e i post s' end) s.
Proof.
  intros Ha Hb. unfold fill. apply runs_bind. eapply runs_ok; [reflexivity|].
  rewrite (proj2 (Z.leb_gt _ _) Hb). by eapply fill_loop_at.
Qed.

(** *** Lines *)

(** Unread bytes whose newline, if they have one, is in what was read last. *)
Definition scanned (s : rd) (e : chunk) (i : Z) : Prop :=
  ∃ old new, b_buf s = old ++ new ∧ 10 ∉ old ∧ behind new e i ∧ (b_err s = None → b_buf s ≠ [] → new ≠ []).

Lemma behind_suffix bs bs' e i : bs' `suffix_of` bs → behind bs e i → behind bs' e i.
Proof.
  intros [w ->] H Hne. destruct H as [H ?]; [by destruct w|]. rewrite length_app in H. lia.
Qed.

Lemma reader_at_set s b e i post l er :
  reader_at s b e i post → er ≠ Some (ErrIO OutOfFuel) → reader_at (MkRd (rd_heap s) l er) b e i post.
Proof. by intros [] ?; split. Qed.

Lemma rd_ok_set s b e i post l er n :
  reader_at s b e i post → er ≠ Some (ErrIO OutOfFuel) → behind l e i →
  (remaining e i post + length l ≤ n)%nat → rd_ok (MkRd (rd_heap s) l er) n.
Proof. intros Ha He Hl Hn. exists b, e, i, post. split_and!; [by apply reader_at_set|done|done]. Qed.

Lemma behind_nil e i : behind [] e i.
Proof. done. Qed.

(** What [ReadSlice] returns: it reads at least a byte unless there is an error, and a byte
    of a full buffer can be put back. *)
Definition slice_ended (x : list Z * slice_end) (s' : rd) : Prop :=
  match x.2 with
  | Delimited => x.1 ≠ []
  | BufferFull => (2 ≤ length x.1)%nat ∧ b_buf s' = [] ∧ ∀ c n', rd_ok s' n' → rd_ok (set_b_buf [c] s') (S n')
  | Failed e => fine e
  end.

Lemma read_slice_ends fuel s b e i post n :
  reader_at s b e i post → scanned s e i → (remaining e i post + length (b_buf s) ≤ n)%nat →
  (match b_err s with Some _ => 1 | None => Z.to_nat (defaultBufSize - Buffered s) + 2 end ≤ fuel)%nat →
  runs (read_slice buf fuel) (ends n (λ x, length x.1) slice_ended) s.
Proof.
  revert s b e i post. induction fuel as [|fuel IH]; intros s b e i post Ha Hsc Hn Hfuel.
  { destruct (b_err s); lia. }
  destruct Hsc as (old & new & Hbuf & Hold & Hnew & Hlast). cbn [read_slice]. apply runs_bind.
  eapply runs_ok; [reflexivity|]. cbv beta iota. destruct (cut_line (b_buf s)) as [[line rest]|] eqn:Hcut.
  - apply cut_line_found in Hcut as (x & -> & Hl & Hx).
    assert (Hsuf : rest `suffix_of` new).
    { rewrite Hbuf in Hl. apply suffix_in in Hl as [w Hw]; [|done..]. exists (w ++ [10]). rewrite Hw, <- app_assoc. done. }
    split; [by destruct x|]. exists (remaining e i post + length rest)%nat. split.
    + apply (rd_ok_set s b e i post rest (b_err s)); [done|apply Ha|by eapply behind_suffix|done].
    + rewrite Hl, length_app in Hn. simpl. lia.
  - apply cut_line_none in Hcut. destruct (b_err s) as [er|] eqn:Her.
    { split; [intros ->; by destruct (ra_err _ _ _ _ _ Ha)|]. exists (remaining e i post). split; [|done].
      apply (rd_ok_set s b e i post [] None); [done|done|apply behind_nil|simpl; lia]. }
    destruct (Z.leb_spec defaultBufSize (Buffered s)) as [Hfull|Hfull].
    { assert (Hne : b_buf s ≠ []) by (intros E; unfold Buffered in Hfull; rewrite E in Hfull; simpl in Hfull; lia).
      specialize (Hnew (Hlast eq_refl Hne)).
      assert (Hlen : (length new ≠ 0)%nat) by (intros E; by apply length_zero_iff_nil in E; apply Hlast in E).
      split.
      - cbn [slice_ended fst snd]. unfold Buffered in Hfull. split_and!; [lia|done|]. intros c n' (b' & e' & i' & p' & Ha' & _ & Hr).
        assert (Hee : e' = e ∧ i' = i ∧ p' = post).
        { eapply at_chunk_inj; [apply Ha|]. pose proof (ra_buf _ _ _ _ _ Ha) as E1.
          pose proof (ra_buf _ _ _ _ _ Ha') as E2. simpl in E2. rewrite E1 in E2. injection E2 as ->. apply Ha'. }
        destruct Hee as (-> & -> & ->). apply (rd_ok_set _ b' e i post [c] (b_err s)); [done|apply Ha|intros _; simpl; lia|].
        simpl in *. lia.
      - exists (remaining e i post). split; [|done].
        apply (rd_ok_set s b e i post [] (b_err s)); [done|apply Ha|apply behind_nil|simpl; lia]. }
    apply runs_bind. eapply runs_mono; [by apply (fill_at s b e i post)|]. intros [er|[]] s'; [done|].
    intros (b' & e' & i' & post' & Ha' & [(Herr & Hb' & Hrem)|(bytes & Hne & Hb' & Herr & Hrem & Hbeh)]).
    + apply (IH s' b' e' i' post'); [done| |rewrite Hb'; lia|destruct (b_err s'); [lia|done]].
      exists (b_buf s'), []. rewrite app_nil_r, Hb'. split_and!; try done.
    + apply (IH s' b' e' i' post'); [done| |rewrite Hb', length_app; lia|].
      * exists (b_buf s), bytes. split_and!; done.
      * rewrite Herr, Her. unfold Buffered in *. rewrite Hb', length_app. destruct bytes; [done|]. simpl length. lia.
Qed.

Lemma ReadSlice_ends s n : rd_ok s n → runs (ReadSlice buf) (ends n (λ x, length x.1) slice_ended) s.
Proof.
  intros (b & e & i & post & Ha & Hbeh & Hn). apply (read_slice_ends _ s b e i post); [done| |done|].
  - exists [], (b_buf s). split_and!; try done. apply not_elem_of_nil.
  - unfold Buffered. destruct (b_err s); lia.
Qed.

(** A line costs at least a byte. *)
Lemma ReadLine_ends s n : rd_ok s n → runs (ReadLine buf) (ends n (λ _, 1%nat) (λ _ _, True)) s.
Proof.
  intros Hs. unfold ReadLine. eapply ends_bind; [by apply ReadSlice_ends|cbv beta].
  intros [line []] s' n' HR Hs' Hn'; cbn [slice_ended fst snd] in *.
  - eapply ends_ret; [done| |done]. destruct line; [done|]. simpl in *. lia.
  - destruct HR as (Hlen & Hnil & Hback).
    assert (Hret : ∀ r : list Z * bool, runs (mret r) (ends n (λ _, 1%nat) (λ _ _, True)) s').
    { intros r. eapply ends_ret; [done|lia|done]. }
    assert (Hput : ∀ r : list Z * bool, runs (modify (λ s, set_b_buf (13 :: b_buf s) s);; mret r)
      (ends n (λ _, 1%nat) (λ _ _, True)) s').
    { intros r. apply runs_bind. eapply runs_ok; [reflexivity|].
      rewrite Hnil. eapply ends_ret; [by apply Hback|lia|done]. }
    destruct (reverse line) as [|z l]; [apply Hret|].
    destruct z as [|z|z]; [apply Hret| |apply Hret].
    repeat first [apply Hret|apply Hput|destruct z as [z|z|]].
  - case_decide as Hl.
    + apply ends_raise; [done|]. eapply rd_ok_mono; [done|]. lia.
    + eapply ends_ret; [done| |done]. destruct line; [done|]. simpl in *. lia.
Qed.

(** The bytes and chunks in front of the reader are fewer than the fuel of a loop. *)
Lemma weight_bytes l :
  Forall (λ x, wf_chunk (evalue x)) l →
  weight l = (length l + length (l ≫= λ x, bytes (evalue x)))%nat.
Proof.
  induction 1 as [|x l Hx _ IH]; [done|]. rewrite bind_cons, length_app.
  change (weight (x :: l)) with (S (Z.to_nat (BufferLen (evalue x)) + weight l)). rewrite IH. cbn [length].
  pose proof (wf_length _ Hx). lia.
Qed.

Lemma rd_fuel_ok s n : rd_ok s n → ∃ n0, rd_ok s n0 ∧ (n0 ≤ n)%nat ∧ (n0 < rd_fuel buf s)%nat.
Proof.
  intros (b & e & i & post & Ha & Hbeh & Hn). exists (remaining e i post + length (b_buf s))%nat.
  split_and!; [by exists b, e, i, post|done|]. unfold rd_fuel. rewrite (ra_buf _ _ _ _ _ Ha).
  destruct (ra_at _ _ _ _ _ Ha) as [[pre Hl] _ Hwf _ Hi]. pose proof (remaining_weight e i post Hi).
  assert (Hw : (weight (e :: post) ≤ weight (dataEvents b))%nat) by (rewrite Hl, weight_app; lia).
  rewrite (weight_bytes (dataEvents b)) in Hw by done. lia.
Qed.

(** A loop with the fuel of its state. *)
Lemma ends_fuelled {A} (m : nat → rd_op A) n c (R : A → rd → Prop) s :
  rd_ok s n → (∀ fuel n0, rd_ok s n0 → (n0 ≤ n)%nat → (n0 < fuel)%nat → runs (m fuel) (ends n0 c R) s) →
  runs (s ← get; m (rd_fuel buf s)) (ends n c R) s.
Proof.
  intros Hs Hm. apply runs_bind. eapply runs_ok; [reflexivity|]. cbv beta iota.
  destruct (rd_fuel_ok s n Hs) as (n0 & Hs0 & Hle & Hlt).
  eapply ends_weaken; [by apply Hm|done|intros; lia|done].
Qed.

Lemma read_line_slice_ends fuel line s n :
  rd_ok s n → (n < fuel)%nat → runs (read_line_slice buf fuel line) (ends n (λ _, 1%nat) (λ _ _, True)) s.
Proof.
  revert line s n. induction fuel as [|fuel IH]; intros line s n Hs Hn; [lia|]. cbn [read_line_slice].
  eapply ends_bind; [by apply ReadLine_ends|cbv beta]. intros [l more] s' n' _ Hs' Hn'. destruct more.
  - eapply ends_weaken; [apply (IH _ s' n'); [done|lia]|lia|cost|done].
  - by eapply ends_ret.
Qed.

Lemma readLineSlice_ends s n : rd_ok s n → runs (readLineSlice buf) (ends n (λ _, 1%nat) (λ _ _, True)) s.
Proof.
  intros Hs. apply (ends_fuelled (λ fuel, read_line_slice buf fuel [])); [done|].
  intros fuel n0 Hs0 _ Hlt. by apply read_line_slice_ends.
Qed.

Lemma textproto_ReadLine_ends s n :
  rd_ok s n → runs (textproto_ReadLine buf) (ends n (λ _, 1%nat) (λ _ _, True)) s.
Proof.
  intros Hs. eapply ends_bind; [by apply readLineSlice_ends|cbv beta]. intros l s' n' _ Hs' Hn'. by eapply ends_ret.
Qed.

(** *** Bytes *)

(** The bytes are filled when there are none. *)
Lemma fill_due_ends s n :
  rd_ok s n →
  runs (match b_buf s, b_err s with [], None => fill buf | _, _ => mret tt end)
    (λ r s', match r with inl _ => False | inr _ => rd_ok s' n ∧ (b_buf s' = [] → b_err s' ≠ None) end) s.
Proof.
  intros Hs. destruct (b_buf s) as [|c l] eqn:Hb; [|by split; [done|intros E; rewrite Hb in E]].
  destruct (b_err s) as [er|] eqn:He; [by split; [done|]; rewrite He|].
  destruct Hs as (b & e & i & post & Ha & _ & Hn). rewrite Hb in Hn. simpl in Hn.
  eapply runs_mono; [apply (fill_at s b e i post Ha); unfold Buffered; rewrite Hb; simpl; lia|].
  intros [er|[]] s'; [done|].
  intros (b' & e' & i' & post' & Ha' & [(Herr & Hb' & Hrem)|(bytes & Hne & Hb' & Herr & Hrem & Hbeh)]).
  - split; [|done]. exists b', e', i', post'. rewrite Hb', Hb. split_and!; [done|done|simpl; lia].
  - rewrite Hb in Hb'. simpl in Hb'. split; [|by rewrite Hb']. exists b', e', i', post'. rewrite Hb'. split_and!; [done|done|simpl; lia].
Qed.

Lemma readErr_ends s n :
  rd_ok s n → runs readErr (ends n (λ _, O) (λ e _, e = b_err s ∧ e ≠ Some (ErrIO OutOfFuel))) s.
Proof.
  intros (b & e & i & post & Ha & Hbeh & Hn). split; [split; [done|apply Ha]|]. exists n. split; [|lia].
  by apply (rd_ok_set s b e i post (b_buf s) None).
Qed.

Lemma rd_ok_drop s n k : rd_ok s n → rd_ok (set_b_buf (drop k (b_buf s)) s) (n - Nat.min k (length (b_buf s))).
Proof.
  intros (b & e & i & post & Ha & Hbeh & Hn).
  apply (rd_ok_set s b e i post _ (b_err s)); [done|apply Ha| |rewrite length_drop; lia].
  eapply behind_suffix; [|exact Hbeh]. exists (take k (b_buf s)). by rewrite take_drop.
Qed.

(** A byte that was read can be put back. *)
Lemma ReadByte_ends s n :
  rd_ok s n → runs (ReadByte buf) (ends n (λ _, 1%nat) (λ c s', rd_ok (set_b_buf (c :: b_buf s') s') n)) s.
Proof.
  intros Hs. unfold ReadByte. apply runs_bind. eapply runs_ok; [reflexivity|]. cbv beta iota.
  apply runs_bind. eapply runs_mono; [by apply fill_due_ends|]. intros [er|[]] s1; [done|]. intros [Hs1 Herr].
  apply runs_bind. eapply runs_ok; [reflexivity|]. cbv beta iota. destruct (b_buf s1) as [|c l] eqn:Hb.
  - eapply ends_bind; [by apply readErr_ends|cbv beta]. intros e s2 n2 [-> He] Hs2 Hn2.
    apply ends_raise; [|eapply rd_ok_mono; [done|lia]]. specialize (Herr eq_refl).
    destruct (b_err s1) as [e|]; [|done]. simpl. intros ->. by apply He.
  - pose proof (rd_ok_drop s1 n 1 Hs1) as Hd. rewrite Hb in Hd. simpl in Hd. rewrite drop_0 in Hd.
    split; [simpl; rewrite <- Hb; by destruct s1|]. exists (n - 1)%nat. split; [done|].
    destruct Hs1 as (b & e & i & post & _ & _ & Hn1). rewrite Hb in Hn1. simpl in Hn1. lia.
Qed.

Lemma Peek1_ends s n : rd_ok s n → runs (Peek1 buf) (ends n (λ _, O) (λ _ _, True)) s.
Proof.
  intros Hs. unfold Peek1. apply runs_bind. eapply runs_ok; [reflexivity|]. cbv beta iota.
  apply runs_bind. eapply runs_mono; [by apply fill_due_ends|]. intros [er|[]] s1; [done|]. intros [Hs1 Herr].
  apply runs_bind. eapply runs_ok; [reflexivity|]. cbv beta iota. destruct (b_buf s1) as [|c l] eqn:Hb.
  - eapply ends_bind; [by apply readErr_ends|cbv beta]. intros e s2 n2 _ Hs2 Hn2. eapply ends_ret; [done|lia|done].
  - eapply ends_ret; [done|lia|done].
Qed.

Lemma skip_space_ends fuel skipped s n :
  rd_ok s n → (n < fuel)%nat →
  runs (skip_space buf fuel skipped) (ends n (λ r, if r && negb skipped then 1%nat else O) (λ _ _, True)) s.
Proof.
  revert skipped s n. induction fuel as [|fuel IH]; intros skipped s n Hs Hn; [lia|]. cbn [skip_space].
  eapply ends_bind; [by apply ends_catch, ReadByte_ends|cbv beta]. intros [er|c] s' n' HR Hs' Hn'.
  - eapply ends_ret; [done| |done]. rewrite andb_negb_r. lia.
  - destruct (is_blank c).
    + eapply ends_weaken; [apply (IH true s' n'); [done|lia]|lia| |done].
      intros r. simpl. rewrite andb_false_r. destruct (r && negb skipped); lia.
    + apply runs_bind. eapply runs_ok; [reflexivity|]. eapply ends_ret; [exact HR| |done].
      rewrite andb_negb_r. lia.
Qed.

Lemma skipSpace_ends s n :
  rd_ok s n → runs (skipSpace buf) (ends n (λ r : bool, if r then 1%nat else O) (λ _ _, True)) s.
Proof.
  intros Hs. apply (ends_fuelled (λ fuel, skip_space buf fuel false)); [done|]. intros fuel n0 Hs0 _ Hlt.
  eapply ends_weaken; [by apply skip_space_ends|done| |done]. intros r. simpl. rewrite andb_true_r. lia.
Qed.

Lemma continued_lines_ends fuel line s n :
  rd_ok s n → (n < fuel)%nat → runs (continued_lines buf fuel line) (ends n (λ _, O) (λ _ _, True)) s.
Proof.
  revert line s n. induction fuel as [|fuel IH]; intros line s n Hs Hn; [lia|]. cbn [continued_lines].
  eapply ends_bind; [by apply skipSpace_ends|cbv beta]. intros skipped s1 n1 _ Hs1 Hn1.
  destruct skipped; [|eapply ends_ret; [done|lia|done]].
  eapply ends_weaken with (n' := n1) (c := λ _, O) (R := λ _ _, True); [|lia|cost|done].
  eapply ends_bind; [by apply ends_catch, readLineSlice_ends|cbv beta]. intros [er|l] s2 n2 _ Hs2 Hn2.
  - eapply ends_ret; [done|lia|done].
  - eapply ends_weaken; [apply (IH _ s2 n2); [done|lia]|lia|cost|done].
Qed.

Lemma readContinuedLineSlice_ends s n :
  rd_ok s n → runs (readContinuedLineSlice buf) (ends n (λ _, 1%nat) (λ _ _, True)) s.
Proof.
  intros Hs. unfold readContinuedLineSlice. eapply ends_bind; [by apply readLineSlice_ends|cbv beta].
  intros line s1 n1 _ Hs1 Hn1. case_decide; [eapply ends_ret; [done|cost|done]|].
  case_decide; [|apply ends_raise; [done|]; eapply rd_ok_mono; [done|lia]].
  eapply ends_weaken with (n' := n1) (c := λ _, O) (R := λ _ _, True); [|lia|cost|done].
  apply (ends_fuelled (λ fuel, if not_continued (b_buf s1) then mret (trim line) else continued_lines buf fuel (trim line)));
    [done|]. intros fuel n0 Hs0 _ Hlt.
  destruct (not_continued (b_buf s1)); [eapply ends_ret; [done|cost|done]|by apply continued_lines_ends].
Qed.

Lemma header_loop_ends fuel m s n :
  rd_ok s n → (n < fuel)%nat → runs (header_loop buf fuel m) (ends n (λ _, O) (λ _ _, True)) s.
Proof.
  revert m s n. induction fuel as [|fuel IH]; intros m s n Hs Hn; [lia|]. cbn [header_loop].
  eapply ends_bind; [by apply readContinuedLineSlice_ends|cbv beta]. intros kv s1 n1 _ Hs1 Hn1.
  case_decide; [eapply ends_ret; [done|cost|done]|].
  destruct (header_field _ _) as [m'|]; [|apply ends_raise; [done|]; eapply rd_ok_mono; [done|lia]].
  eapply ends_weaken; [apply (IH _ s1 n1); [done|lia]|lia|cost|done].
Qed.

Lemma ReadMIMEHeader_ends s n : rd_ok s n → runs (ReadMIMEHeader buf) (ends n (λ _, O) (λ _ _, True)) s.
Proof.
  intros Hs. unfold ReadMIMEHeader. eapply ends_bind; [by apply Peek1_ends|cbv beta]. intros _ s1 n1 _ Hs1 Hn1.
  eapply ends_weaken with (n' := n1) (c := λ _, O) (R := λ _ _, True); [|lia|cost|done].
  eapply ends_bind; [by apply Peek1_ends|cbv beta]. intros first s2 n2 _ Hs2 Hn2.
  eapply ends_weaken with (n' := n2) (c := λ _, O) (R := λ _ _, True); [|lia|cost|done].
  assert (Hloop : runs (s ← get; header_loop buf (rd_fuel buf s) ∅) (ends n2 (λ _, O) (λ _ _, True)) s2).
  { apply (ends_fuelled (λ fuel, header_loop buf fuel ∅)); [done|]. intros. by apply header_loop_ends. }
  destruct first as [c|]; [|exact Hloop]. destruct (is_blank c); [|exact Hloop].
  eapply ends_bind; [by apply readLineSlice_ends|cbv beta]. intros l s3 n3 _ Hs3 Hn3.
  apply ends_raise; [done|]. eapply rd_ok_mono; [done|lia].
Qed.

(** *** Bodies *)

Lemma bufio_Read_ends plen s n :
  0 < plen → rd_ok s n →
  runs (bufio_Read buf plen)
    (ends n (λ bytes, Nat.max 1 (length bytes)) (λ bytes _, Z.of_nat (length bytes) ≤ plen)) s.
Proof.
  intros Hp Hs. unfold bufio_Read. apply runs_bind. eapply runs_ok; [reflexivity|]. cbv beta iota.
  rewrite (proj2 (Z.eqb_neq plen 0)) by lia. destruct (b_buf s) as [|c l] eqn:Hb.
  - destruct (b_err s) as [er|] eqn:Her.
    { eapply ends_bind; [by apply readErr_ends|cbv beta]. intros e s1 n1 [-> He] Hs1 Hn1.
      apply ends_raise; [intros ->; by rewrite Her in He|]. eapply rd_ok_mono; [done|lia]. }
    destruct Hs as (b & e & i & post & Ha & _ & Hn). rewrite Hb in Hn. simpl in Hn.
    assert (Herr : rd_ok s n) by (exists b, e, i, post; rewrite Hb; split_and!; [done|done|simpl; lia]).
    destruct (Z.leb_spec defaultBufSize plen).
    + eapply runs_mono; [by apply (Read_at s b e i post plen)|]. intros [er|bytes] s1.
      * by intros [? ->].
      * intros (b' & e' & i' & post' & Ha' & Hb' & _ & Hrem & Hlen & Hi & _). split; [lia|].
        exists (remaining e' i' post'). split; [|lia]. exists b', e', i', post'. rewrite Hb', Hb.
        split_and!; [done|done|simpl; lia].
    + apply runs_bind. eapply runs_mono; [apply (Read_at s b e i post defaultBufSize Ha); lia|]. intros [er|bytes] s1.
      * by intros [? ->].
      * intros (b' & e' & i' & post' & Ha' & Hb' & _ & Hrem & Hlen & Hi & _).
        apply runs_bind. eapply runs_ok; [reflexivity|]. cbv beta iota.
        split; [rewrite length_take; lia|]. exists (remaining e' i' post' + length (drop (Z.to_nat plen) bytes))%nat. split.
        -- apply (rd_ok_set s1 b' e' i' post' _ (b_err s1)); [done|apply Ha'| |done]. intros Hne.
           rewrite length_drop in *. lia.
        -- rewrite length_drop, length_take. destruct bytes; simpl in *; lia.
  - pose proof (rd_ok_drop s n (Z.to_nat plen) Hs) as Hd. rewrite Hb in Hd.
    apply runs_bind. eapply runs_ok; [reflexivity|]. split; [rewrite length_take; lia|].
    eexists. split; [exact Hd|]. rewrite length_take.
    destruct Hs as (b & e & i & post & _ & _ & Hn). rewrite Hb in Hn. simpl length in *. lia.
Qed.

(** The bytes that were read, and whether they are all. *)
Definition read_all (plen : Z) (x : list Z * option go_error) : Prop :=
  match x.2 with
  | None => plen ≤ Z.of_nat (length x.1)
  | Some e => fine e ∧ Z.of_nat (length x.1) < plen
  end.

Lemma read_full_ends fuel got plen s n :
  rd_ok s n → (n < fuel)%nat →
  runs (read_full buf fuel got plen) (ends n (λ x, length x.1 - length got)%nat (λ x _, read_all plen x)) s.
Proof.
  revert got s n. induction fuel as [|fuel IH]; intros got s n Hs Hn; [lia|]. cbn [read_full].
  case_decide as Hgot; [eapply ends_ret; [done|cost|done]|].
  eapply ends_bind; [apply ends_catch, (bufio_Read_ends (plen - Z.of_nat (length got)) s n); [lia|done]|cbv beta].
  intros [er|bytes] s1 n1 HR Hs1 Hn1.
  - assert (Hret : ∀ e', fine e' → runs (mret (got, Some e'))
      (ends n (λ x, length x.1 - length got)%nat (λ x _, read_all plen x)) s1).
    { intros e' He'. eapply ends_ret; [done|cost|]. split; [done|]. simpl. lia. }
    destruct er as [[]| | |]; apply Hret; try case_decide; done.
  - eapply ends_weaken; [apply (IH (got ++ bytes) s1 n1); [done|lia]|lia| |done].
    intros x. rewrite length_app. lia.
Qed.

Lemma io_ReadFull_ends plen s n :
  rd_ok s n → runs (io_ReadFull buf plen) (ends n (λ x, length x.1) (λ x _, read_all plen x)) s.
Proof.
  intros Hs. apply (ends_fuelled (λ fuel, read_full buf fuel [] plen)); [done|]. intros fuel n0 Hs0 _ Hlt.
  eapply ends_weaken; [by apply read_full_ends|done|intros; simpl; lia|done].
Qed.

(** The only early result is a package to be skipped. *)
Lemma body_loop_ends fuel size s n :
  rd_ok s n → (n < fuel)%nat →
  runs (body_loop buf fuel size)
    (ends n (λ _, O) (λ r _, ∀ x, r = Some x → x = (None, ParseResultSkipPackage))) s.
Proof.
  revert size s n. induction fuel as [|fuel IH]; intros size s n Hs Hn; [lia|]. cbn [body_loop].
  case_decide as Hsize; [eapply ends_ret; [done|cost|done]|]. cbv zeta.
  set (readSize := if decide _ then _ else _).
  assert (Hr : 0 < readSize ≤ size) by (unfold readSize; case_decide; lia).
  eapply ends_bind; [by apply (io_ReadFull_ends readSize)|cbv beta].
  intros [bytes err] s1 n1 HR Hs1 Hn1. cbn [read_all fst snd] in *. destruct err as [er|].
  - destruct HR as [He Hlen]. cbn [fst] in Hlen.
    assert (Hraise : runs (raise ErrFormat) (ends n (λ _ : option (option positive * ParseResult), O)
      (λ r _, ∀ x, r = Some x → x = (None, ParseResultSkipPackage))) s1).
    { apply ends_raise; [done|]. eapply rd_ok_mono; [done|lia]. }
    destruct er as [[]| | |]; try exact Hraise; try (rewrite decide_False by lia; exact Hraise).
    eapply ends_ret; [done|cost|]. by intros x [= <-].
  - eapply ends_weaken; [apply (IH _ s1 n1); [done|]|lia|cost|done]. unfold read_all in HR. simpl in HR. lia.
Qed.
End reading.

(** The state of [H] has not more left than it may have. *)
Ltac still H := eapply rd_ok_mono; [exact H|cost].

(** ** Slices and messages *)

Section messages.
Context (buf : positive) (b0 : Buffer) (l0 : list chunk).
Notation rd_ok := (rd_ok buf).
Notation ends h0 := (ends buf h0 b0 l0).

(** A run leaves what it does not know as it is. *)
Lemma ends_grow {A} (m : rd_op A) h0 s n c (R : A → rd → Prop) :
  rd_ok h0 b0 l0 s n → (∀ h, rd_ok h b0 l0 s n → runs m (ends h n c R) s) →
  runs m (ends h0 n c (λ a s', R a s' ∧ heap_grows buf (rd_heap s) (rd_heap s'))) s.
Proof.
  intros Hs Hm. pose proof Hs as (b & e & i & post & [H1 H2 H3 H4 H5 H6 H7] & Hbeh & Hn).
  assert (Hs' : rd_ok (rd_heap s) b0 l0 s n).
  { by exists b, e, i, post. }
  assert (Hback : ∀ s' n', rd_ok (rd_heap s) b0 l0 s' n' → rd_ok h0 b0 l0 s' n').
  { intros s' n' (b' & e' & i' & p' & [? ? ? ? Hg ? ?] & ? & ?). exists b', e', i', p'. split_and!; try done.
    split; try done. by eapply grows_trans. }
  eapply runs_mono; [by apply Hm|]. intros [er|a] s'.
  - intros [? ?]. split; [done|]. by apply Hback.
  - intros (HR & n' & Hs1 & Hn'). split; [split; [done|by eapply rd_ok_grows]|]. exists n'. auto.
Qed.

Section sound.
Context (h0 : heap).

Lemma rd_ok_heap s n h' :
  rd_ok h0 b0 l0 s n → heap_grows buf (rd_heap s) h' → buffers h' !! buf = buffers (rd_heap s) !! buf →
  (buf < fresh h')%positive → rd_ok h0 b0 l0 (set_rd_heap h' s) n.
Proof.
  intros (b & e & i & post & [H1 H2 H3 H4 H5 H6 H7] & Hbeh & Hn) Hg Hb Hf. exists b, e, i, post.
  split_and!; try done. split; try done; simpl; [by rewrite Hb|by eapply grows_trans].
Qed.

Definition at_element (p : Position) : Prop := ∃ e i, p = MkPosition (Some e) i.

Lemma unreadPosition_ends s n :
  rd_ok h0 b0 l0 s n →
  runs (unreadPosition buf) (ends h0 n (λ _, O) (λ o s', s' = s ∧ ∃ p, o = Some p ∧ at_element p)) s.
Proof.
  intros Hs. pose proof Hs as (b & e & i & post & Ha & Hbeh & Hn).
  eapply (runs_ok _ _ _ (Some (MkPosition (Some e) (i - Buffered s))) s).
  - unfold unreadPosition. step_act. eapply rd_buffer_same; [apply Ha|].
    unfold OffsetPosition. step_act. rewrite (Http2Loop.at_current _ _ _ _ (ra_at _ _ _ _ _ _ _ _ _ Ha)). step_act.
    unfold Buffered in *. case_decide as Hz; [by replace (i - Z.of_nat (length (b_buf s))) with i by lia|].
    destruct Hbeh as [? ?]; [intros E; by rewrite E in Hz|].
    step_act. cbn [offset_loop element bufIndex]. rewrite decide_True by lia. done.
  - split; [split; [done|]; eexists; split; [done|by eexists _, _]|]. exists n. split; [done|lia].
Qed.

Lemma Position_ends s n :
  rd_ok h0 b0 l0 s n →
  runs (rd_on_buffer buf Position_) (ends h0 n (λ _, O) (λ p s', s' = s ∧ at_element p)) s.
Proof.
  intros Hs. pose proof Hs as (b & e & i & post & Ha & Hbeh & Hn).
  eapply (runs_ok _ _ _ (MkPosition (Some e) i) s).
  - eapply rd_buffer_same; [apply Ha|]. unfold Position_. step_act.
    by rewrite (Http2Loop.at_current _ _ _ _ (ra_at _ _ _ _ _ _ _ _ _ Ha)).
  - split; [split; [done|by eexists _, _]|]. exists n. split; [done|lia].
Qed.

Lemma slice_between_ends self start p s n :
  rd_ok h0 b0 l0 s n → (self = buf ∨ live buf (rd_heap s) self) → at_element p →
  runs (slice_between self (Some start) (Some p)) (ends h0 n (λ _, O) (λ loc s', live buf (rd_heap s') loc)) s.
Proof.
  intros Hs Hself (e & i & ->). pose proof Hs as (b & e' & i' & post & Ha & _ & _).
  assert (Hx : ∃ x, buffers (rd_heap s) !! self = Some x).
  { destruct Hself as [->|Hl]; [by eexists; apply Ha|]. destruct (live_slice _ _ _ Hl) as [x Hx].
    exists x. apply Hx. }
  destruct Hx as [x Hx].
  destruct (Slice_live buf self true start e i (rd_heap s) x Hx) as (h' & loc & Hrun & Hlive & Hg & Hf & Hb);
    [apply Ha|done|].
  eapply (runs_ok _ _ _ loc (set_rd_heap h' s)).
  - unfold slice_between. step_act. unfold rd_on_heap. by rewrite Hrun.
  - split; [done|]. exists n. split; [|lia]. by apply rd_ok_heap.
Qed.

Lemma DetectNotSending_ends loc s n :
  rd_ok h0 b0 l0 s n → live buf (rd_heap s) loc →
  runs (DetectNotSending (Some loc)) (ends h0 n (λ _, O) (λ o s', s' = s ∧ ∀ p, o = Some p → at_element p)) s.
Proof.
  intros Hs Hl. destruct (live_slice _ _ _ Hl) as [x Hx].
  eapply (runs_ok _ _ _ (DetectNotSendingLastPosition x) s).
  - unfold DetectNotSending. unfold rd_on_heap, deref, mbind, act_bind, get, lift. simpl.
    rewrite (sl_lookup _ _ _ _ Hx). simpl. by destruct s.
  - split; [split; [done|]|exists n; split; [done|lia]]. unfold DetectNotSendingLastPosition. intros p.
    destruct (list.head _) as [e|]; [|done]. intros [= <-]. by eexists _, _.
Qed.

(** A body that was read is a slice, if there is one. *)
Definition body_ok (x : option positive * ParseResult) (s' : rd) : Prop :=
  x.2 = ParseResultSuccess → live_opt buf (rd_heap s') x.1.
Definition slice_ok (x : option positive * ParseResult) (s' : rd) : Prop :=
  x.2 = ParseResultSuccess → ∃ loc, x.1 = Some loc ∧ live buf (rd_heap s') loc.

Lemma slice_body x s' : slice_ok x s' → body_ok x s'.
Proof. intros Hx Hr. destruct (Hx Hr) as (loc & -> & Hl). by intros ? [= <-]. Qed.
End sound.

Lemma ends_ok {A} (m : rd_op A) h0 n c (R : A → rd → Prop) s a s' :
  m s = (Ok a, s') → runs (mret a) (ends h0 n c R) s' → runs m (ends h0 n c R) s.
Proof. intros Hm HQ. unfold runs in *. by rewrite Hm. Qed.

Lemma checkBodyWithSize_ends h0 size detected s n :
  rd_ok h0 b0 l0 s n → runs (checkBodyWithSize buf size detected) (ends h0 n (λ _, O) slice_ok) s.
Proof.
  intros Hs. unfold checkBodyWithSize. eapply ends_bind; [by apply unreadPosition_ends|cbv beta].
  intros start s0 n0 (-> & p0 & -> & _) _ _.
  apply (ends_fuelled buf h0 b0 l0 (λ fuel, early ← body_loop buf fuel size; _)); [done|].
  intros fuel n1 Hs1 _ Hlt. eapply ends_bind; [by apply body_loop_ends|cbv beta].
  intros [x|] s2 n2 Hx Hs2 Hn2; [rewrite (Hx x eq_refl); eapply ends_ret; [done|lia|done]|].
  eapply ends_bind; [apply unreadPosition_ends; still Hs2|cbv beta].
  intros o s3 n3 (-> & p & -> & Hp) Hs3 Hn3.
  eapply ends_bind; [eapply slice_between_ends; [still Hs3|by left|done]|cbv beta].
  intros loc s4 n4 Hl Hs4 Hn4.
  assert (Hret : runs (mret (Some loc, ParseResultSuccess)) (ends h0 n1 (λ _, O) slice_ok) s4).
  { eapply ends_ret; [done|cost|]. intros _. by exists loc. }
  destruct detected; [|done].
  eapply ends_bind; [eapply DetectNotSending_ends; [still Hs4|done]|cbv beta].
  intros [pos|] s5 n5 [-> Hpos] Hs5 Hn5; [|done].
  eapply ends_bind; [eapply slice_between_ends; [still Hs5|by left|by apply Hpos]|cbv beta].
  intros loc' s6 n6 Hl' Hs6 Hn6. eapply ends_ret; [done|cost|]. intros _. by exists loc'.
Qed.

(** All of these are slices. *)
Definition all_live (h : heap) (slices : list (option positive)) : Prop :=
  Forall (λ o, ∃ loc, o = Some loc ∧ live buf h loc) slices.

Lemma all_live_grows h h' slices : all_live h slices → heap_grows buf h h' → all_live h' slices.
Proof.
  intros Hall Hg. eapply Forall_impl; [exact Hall|]. intros o (loc & -> & Hl). exists loc. split; [done|].
  by eapply live_grows.
Qed.

Lemma all_live_snoc h slices loc : all_live h slices → live buf h loc → all_live h (slices ++ [Some loc]).
Proof. intros Hall Hl. apply Forall_app. split; [done|]. constructor; [by exists loc|constructor]. Qed.

Lemma slice_Position_ends h0 loc s n :
  rd_ok h0 b0 l0 s n → live buf (rd_heap s) loc →
  runs (rd_on_buffer loc Position_) (ends h0 n (λ _, O) (λ _ s', s' = s)) s.
Proof.
  intros Hs Hl. destruct (live_slice _ _ _ Hl) as [x Hx]. destruct (sl_current _ _ _ _ Hx) as [p Hp].
  eapply (runs_ok _ _ _ p s); [|split; [done|]; exists n; split; [done|lia]].
  eapply rd_buffer_same; [apply Hx|]. unfold Position_. step_act. by rewrite Hp.
Qed.

Definition chunks_ok (r : list (option positive) + ParseResult) (s' : rd) : Prop :=
  match r with
  | inl slices => all_live (rd_heap s') slices
  | inr r => r = ParseResultSkipPackage
  end.

Lemma chunk_loop_ends fuel h0 slices s n :
  rd_ok h0 b0 l0 s n → (n < fuel)%nat → all_live (rd_heap s) slices →
  runs (chunk_loop buf fuel slices) (ends h0 n (λ _, O) chunks_ok) s.
Proof.
  revert slices s n. induction fuel as [|fuel IH]; intros slices s n Hs Hn Hall; [lia|]. cbn [chunk_loop].
  eapply ends_bind; [apply ends_grow; [exact Hs|intros; by apply ReadLine_ends]|cbv beta].
  intros [line more] s1 n1 [_ Hg1] Hs1 Hn1. apply (all_live_grows _ _ _ Hall) in Hg1. clear Hall.
  assert (Hraise : ∀ s', rd_ok h0 b0 l0 s' n1 → runs (raise ErrFormat) (ends h0 n (λ _, O) chunks_ok) s').
  { intros s' Hs'. apply ends_raise; [done|]. still Hs'. }
  destruct (ParseHex _) as [needBytes|]; [|by apply Hraise].
  destruct (needBytes =? 0); [eapply ends_ret; [done|cost|done]|].
  eapply ends_bind; [apply ends_grow; [still Hs1|intros; by apply checkBodyWithSize_ends]|cbv beta].
  intros [b r] s2 n2 [Hb Hg2] Hs2 Hn2. apply (all_live_grows _ _ _ Hg1) in Hg2. clear Hg1.
  destruct r; [|eapply ends_ret; [done|cost|done]]. destruct (Hb eq_refl) as (loc & Hloc & Hl). cbn [fst] in Hloc. subst b.
  eapply ends_bind; [apply DetectNotSending_ends; [still Hs2|done]|cbv beta].
  intros pos s3 n3 [-> Hpos] Hs3 Hn3. destruct pos as [pos|].
  - eapply ends_bind; [apply slice_Position_ends; [still Hs3|done]|cbv beta]. intros start s4 n4 -> Hs4 Hn4.
    eapply ends_bind; [apply ends_grow; [still Hs4|intros; apply slice_between_ends; [done|by right|by apply Hpos]]|cbv beta].
    intros loc' s5 n5 [Hl' Hg5] Hs5 Hn5. eapply ends_ret; [done|cost|].
    apply all_live_snoc; [|done]. by eapply all_live_grows.
  - eapply ends_bind; [apply ends_grow; [still Hs3|intros; by apply ReadLine_ends]|cbv beta].
    intros [d more'] s4 n4 [_ Hg4] Hs4 Hn4. case_decide; [|apply ends_raise; [done|]; still Hs4].
    eapply ends_weaken; [apply (IH _ s4 n4); [done|cost|]|cost|cost|done].
    apply (all_live_grows _ _ _ (all_live_snoc _ _ _ Hg2 Hl) Hg4).
Qed.

Lemma checkChunkedBody_ends h0 s n :
  rd_ok h0 b0 l0 s n → runs (checkChunkedBody buf) (ends h0 n (λ _, O) body_ok) s.
Proof.
  intros Hs. unfold checkChunkedBody.
  apply (ends_fuelled buf h0 b0 l0 (λ fuel, slices ← chunk_loop buf fuel []; _)); [done|].
  intros fuel n0 Hs0 _ Hlt. eapply ends_bind; [apply chunk_loop_ends; [done|done|constructor]|cbv beta].
  intros [slices|r] s1 n1 Hc Hs1 Hn1; [|by rewrite Hc; eapply ends_ret].
  pose proof Hs1 as (b & e & i & post & Ha & _ & _).
  destruct (CombineSlices_live buf (rd_heap s1) slices Hc) as (h' & o & Hrun & Hl & Hg & Hf & Hb); [apply Ha|].
  apply runs_bind. eapply (runs_ok _ _ _ o (set_rd_heap h' s1)); [unfold rd_on_heap; by rewrite Hrun|]. cbv beta iota.
  eapply ends_ret; [apply rd_ok_heap; [exact Hs1|done..]|cost|]. by intros _.
Qed.

Lemma finish_packet_ends fuel h0 s n :
  rd_ok h0 b0 l0 s n → (n < fuel)%nat → runs (finish_packet buf fuel) (ends h0 n (λ _, O) (λ _ _, True)) s.
Proof.
  revert s n. induction fuel as [|fuel IH]; intros s n Hs Hn; [lia|]. cbn [finish_packet].
  pose proof Hs as (b & e & i & post & Ha & Hbeh & Hle).
  apply runs_bind. eapply (runs_ok _ _ _ (i =? BufferLen (evalue e)) s).
  { eapply rd_buffer_same; [apply Ha|]. unfold IsCurrentPacketReadFinished. step_act.
    by rewrite (Http2Loop.at_current _ _ _ _ (ra_at _ _ _ _ _ _ _ _ _ Ha)). }
  cbv beta iota. destruct (Z.eqb_spec i (BufferLen (evalue e))) as [Hi|Hi]; [eapply ends_ret; [done|cost|done]|].
  apply runs_bind. eapply runs_mono; [by apply (Read_at buf h0 b0 l0 s b e i post bodyBufferSize)|].
  intros [er|bytes] s1; [by intros [? ->]|].
  intros (b' & e' & i' & post' & Ha' & Hb' & _ & Hrem & Hlen & Hi' & Hstay).
  eapply ends_weaken; [apply (IH s1 (n - 1)%nat); [|lia]|lia|cost|done].
  exists b', e', i', post'. rewrite Hb'. split_and!; [done| |lia].
  intros Hne. specialize (Hbeh Hne). destruct Hstay as [-> ?]; lia.
Qed.

Lemma readBodyUntil_ends h0 s n :
  rd_ok h0 b0 l0 s n → runs (readBodyUntilCurrentPackageFinished buf) (ends h0 n (λ _, O) body_ok) s.
Proof.
  intros Hs. unfold readBodyUntilCurrentPackageFinished.
  eapply ends_bind; [by apply unreadPosition_ends|cbv beta]. intros start s0 n0 (-> & p0 & -> & _) _ _.
  apply (ends_fuelled buf h0 b0 l0 (λ fuel, finish_packet buf fuel;; _)); [done|]. intros fuel n1 Hs1 _ Hlt.
  eapply ends_bind; [by apply finish_packet_ends|cbv beta]. intros _ s2 n2 _ Hs2 Hn2.
  eapply ends_bind; [apply Position_ends; still Hs2|cbv beta]. intros p s3 n3 [-> Hp] Hs3 Hn3.
  eapply ends_bind; [apply slice_between_ends; [still Hs3|by left|done]|cbv beta].
  intros loc s4 n4 Hl Hs4 Hn4. eapply ends_ret; [done|cost|]. intros _ ? [= <-]. done.
Qed.

Lemma readFullBody_ends h0 headers s n :
  rd_ok h0 b0 l0 s n → runs (readFullBody buf headers) (ends h0 n (λ _, O) body_ok) s.
Proof.
  intros Hs. unfold readFullBody.
  assert (Hlen : runs (appointedLength headers) (ends h0 n (λ _, O) (λ _ _, True)) s).
  { unfold appointedLength. case_decide; [eapply ends_ret; [done|cost|done]|].
    destruct (Atoi _); [eapply ends_ret; [done|cost|done]|by apply ends_raise]. }
  eapply ends_bind; [exact Hlen|cbv beta]. intros len s1 n1 _ Hs1 Hn1.
  assert (Hs1' : rd_ok h0 b0 l0 s1 n) by (still Hs1).
  case_decide; [eapply ends_weaken; [by apply checkBodyWithSize_ends|done|cost|apply slice_body]|].
  destruct (isChunked headers); [by apply checkChunkedBody_ends|by apply readBodyUntil_ends].
Qed.

Lemma buildHeaderBuffer_ends h0 start s n :
  rd_ok h0 b0 l0 s n →
  runs (buildHeaderBuffer buf start) (ends h0 n (λ _, O) (λ loc s', live buf (rd_heap s') loc)) s.
Proof.
  intros Hs. unfold buildHeaderBuffer. eapply ends_bind; [by apply unreadPosition_ends|cbv beta].
  intros o s1 n1 (-> & p & -> & Hp) Hs1 Hn1. apply slice_between_ends; [done|by left|done].
Qed.

(** *** Messages *)

Definition request_live (h : heap) (r : Request) : Prop :=
  live buf h (rq_headerBuffer r) ∧ live_opt buf h (rq_bodyBuffer r).
Definition response_live (h : heap) (r : Response) : Prop :=
  live buf h (rs_headerBuffer r) ∧ live_opt buf h (rs_bodyBuffer r).

Definition message_ok {M} (P : heap → M → Prop) (x : option M * ParseResult) (s' : rd) : Prop :=
  match x with
  | (o, ParseResultSuccess) => ∃ m, o = Some m ∧ P (rd_heap s') m
  | (_, ParseResultSkipPackage) => True
  end.

(** A request that is read costs at least a byte, and keeps slices. *)
Lemma ReadRequest_ends pa h0 s n :
  rd_ok h0 b0 l0 s n →
  runs (ReadRequest buf pa true) (ends h0 n (λ _, 1%nat) (message_ok request_live)) s.
Proof.
  intros Hs. unfold ReadRequest. eapply ends_bind; [by apply Position_ends|cbv beta].
  intros start s0 n0 [-> Hstart] _ _. eapply ends_bind; [by apply textproto_ReadLine_ends|cbv beta].
  intros line s1 n1 _ Hs1 Hn1.
  assert (Hraise : runs (raise ErrFormat) (ends h0 n (λ _, 1%nat) (message_ok request_live)) s1).
  { apply ends_raise; [done|]. still Hs1. }
  destruct (request_line line) as [[[method requestURI] proto]|]; [|done].
  destruct (negb _); [done|]. destruct (ParseHTTPVersion proto) as [version|]; [|done]. cbv zeta.
  destruct (ParseRequestURI pa _) as [uri|]; [|done]. clear Hraise.
  eapply ends_weaken with (n' := n1) (c := λ _, O) (R := message_ok request_live); [|cost|cost|done].
  eapply ends_bind; [by apply ReadMIMEHeader_ends|cbv beta]. intros header s2 n2 _ Hs2 Hn2.
  eapply ends_bind; [apply buildHeaderBuffer_ends; still Hs2|cbv beta]. intros loc s3 n3 Hl Hs3 Hn3.
  eapply ends_bind; [apply ends_grow; [still Hs3|intros; by apply readFullBody_ends]|cbv beta].
  intros [b r] s4 n4 [Hb Hg] Hs4 Hn4. destruct r; (eapply ends_ret; [done|cost|]); [|done].
  eexists. split; [done|]. split; [by eapply live_grows|by apply Hb].
Qed.

Lemma ReadResponse_ends h0 s n :
  rd_ok h0 b0 l0 s n → runs (ReadResponse buf true) (ends h0 n (λ _, 1%nat) (message_ok response_live)) s.
Proof.
  intros Hs. unfold ReadResponse. eapply ends_bind; [by apply Position_ends|cbv beta].
  intros start s0 n0 [-> Hstart] _ _. eapply ends_bind; [by apply textproto_ReadLine_ends|cbv beta].
  intros line s1 n1 _ Hs1 Hn1.
  assert (Hraise : runs (raise ErrFormat) (ends h0 n (λ _, 1%nat) (message_ok response_live)) s1).
  { apply ends_raise; [done|]. still Hs1. }
  destruct (status_line line) as [[[proto status] code]|]; [|done].
  destruct (ParseHTTPVersion proto) as [version|]; [|done]. clear Hraise.
  eapply ends_weaken with (n' := n1) (c := λ _, O) (R := message_ok response_live); [|cost|cost|done].
  eapply ends_bind; [by apply ends_catch, ReadMIMEHeader_ends|cbv beta]. intros header s2 n2 _ Hs2 Hn2.
  eapply ends_bind; [apply buildHeaderBuffer_ends; still Hs2|cbv beta]. intros loc s3 n3 Hl Hs3 Hn3.
  destruct header as [er|header]; [by eapply ends_ret; [done|cost|]; eexists; split; [done|]; split|].
  eapply ends_bind; [apply ends_grow; [still Hs3|intros; by apply readFullBody_ends]|cbv beta].
  intros [b r] s4 n4 [Hb Hg] Hs4 Hn4. destruct r; (eapply ends_ret; [done|cost|]); [|done].
  eexists. split; [done|]. split; [by eapply live_grows|by apply Hb].
Qed.
End messages.
