(* ===== verification/Http1Loop.v ===== *)
(** * The HTTP/1 analysis ends

    [Analyze] of Http1.v reads messages until the connection has no more to read.  On every
    connection it ends, does not panic, and leaves a connection on which the next analysis
    ends: the reader does (Http1Reader.v), every round leaves a byte or a chunk behind, and
    the requests and exchanges that are kept hold slices that can be used. *)

From stdpp Require Import base gmap list strings.
From Stdlib Require Import ZArith Lia Ascii.
From S2P Require Import Prelude GoStrings Interfaces ProcessMonitor Connection Ztunnel AccessLogTail Sender Delivery Tracing Events Buffer BufferOrder Http2 Http2Loop GoHttp Http1 Http1Stream Http1Laws Http1Exchange Http1Reader.

Section loop.
Context (pa : string → option string) (buf : positive).
Notation live := (live buf).
Notation live_opt := (live_opt buf).
Notation request_live := (request_live buf).
Notation response_live := (response_live buf).

(** ** Using slices *)

Lemma live_original h loc b :
  live h loc → buffers h !! buf = Some b → ∃ x o y, slice_at buf h loc x ∧ originalBuffer x = Some o ∧ buffers h !! o = Some y.
Proof.
  intros [? x Hx Ho|? x o Hx Ho _ Hl] Hb; [by exists x, buf, b|].
  destruct (live_slice _ _ _ Hl) as [y Hy]. exists x, o, y. split_and!; [done|done|apply Hy].
Qed.

Lemma BuildDetails_live h loc b :
  live h loc → buffers h !! buf = Some b → ∃ ds, BuildDetails loc h = (Ok ds, h).
Proof.
  intros Hl Hb. destruct (live_original _ _ _ Hl Hb) as (x & o & y & Hx & Ho & Hy).
  destruct (sl_head _ _ _ _ Hx) as (e & i & Hh). destruct (sl_end _ _ _ _ Hx) as (e' & i' & He).
  unfold BuildDetails, deref. step_act. rewrite (sl_lookup _ _ _ _ Hx). step_act. rewrite Ho. step_act.
  rewrite Hh. step_act. simpl. rewrite He. step_act. simpl. step_act. rewrite Hy. by eexists.
Qed.

Lemma AppendSocketDetails_live h o st b :
  live_opt h o → buffers h !! buf = Some b → ∃ st', AppendSocketDetailsFromBuffer o st h = (Ok st', h).
Proof.
  intros Ho Hb. destruct st as [[r i] []]; cbn [negb AppendSocketDetailsFromBuffer]; [|by eexists].
  destruct o as [loc|]; [|by eexists]. specialize (Ho loc eq_refl).
  destruct (BuildDetails_live h loc b Ho Hb) as [ds Hds]. rewrite (bind_ok _ _ _ _ _ Hds).
  case_decide; [by eexists|]. destruct (live_slice _ _ _ Ho) as [x Hx].
  destruct (sl_head _ _ _ _ Hx) as (e & j & Hh). destruct (sl_end _ _ _ _ Hx) as (e' & j' & He).
  unfold deref. step_act. rewrite (sl_lookup _ _ _ _ Hx). step_act. unfold BuildTotalDataIDRange.
  rewrite decide_False by apply Hx. rewrite He, Hh. simpl. step_act.
  destruct (negb _); [by eexists|]. destruct i; by eexists.
Qed.

Lemma exchange_details_live h req resp b :
  request_live h req → response_live h resp → buffers h !! buf = Some b →
  ∃ st, exchange_details req resp h = (Ok st, h).
Proof.
  intros [H1 H2] [H3 H4] Hb. unfold exchange_details.
  assert (Hsome : ∀ loc, live h loc → live_opt h (Some loc)) by (by intros loc Hl ? [= <-]).
  destruct (AppendSocketDetails_live h (Some (rq_headerBuffer req)) ([], None, true) b) as [st1 E1]; [auto|done|].
  rewrite (bind_ok _ _ _ _ _ E1). destruct (AppendSocketDetails_live h (rq_bodyBuffer req) st1 b) as [st2 E2]; [done..|].
  rewrite (bind_ok _ _ _ _ _ E2).
  destruct (AppendSocketDetails_live h (Some (rs_headerBuffer resp)) st2 b) as [st3 E3]; [auto|done|].
  rewrite (bind_ok _ _ _ _ _ E3). by eapply AppendSocketDetails_live.
Qed.

(** Only the details of the connection change. *)
Definition with_details (ds : list SocketDetailEvent) (b : Buffer) (h : heap) : heap :=
  MkHeap (<[buf := set_detailEvents ds b]> (buffers h)) (fresh h).

Lemma with_details_grows ds b h : heap_grows buf h (with_details ds b h).
Proof. split; [done|]. intros x Hx _. by apply lookup_insert_ne. Qed.

Lemma delete_own_slice i loc h x : slice_at buf h loc x → delete_own i loc h = (Ok tt, h).
Proof.
  intros Hx. unfold delete_own, deref. step_act. rewrite (sl_lookup _ _ _ _ Hx). step_act.
  rewrite (sl_details _ _ _ _ Hx). simpl.
  assert (Hid : set_detailEvents [] x = x) by (rewrite <- (sl_details _ _ _ _ Hx); by destruct x).
  rewrite Hid. unfold modify. rewrite insert_id by apply Hx. by destruct h.
Qed.

Lemma DeleteDetails_live i h loc b n :
  live h loc → buffers h !! buf = Some b → originalBuffer b = None → (Pos.to_nat loc ≤ n)%nat →
  ∃ ds, DeleteDetails n i loc h = (Ok tt, with_details ds b h).
Proof.
  intros Hl Hb Ho. revert n.
  induction Hl as [loc x Hx Hxo|loc x o Hx Hxo Hlt Hlo IH]; intros [|n] Hn; [lia| |lia|].
  - pose proof (sl_above _ _ _ _ Hx). destruct n as [|n]; [lia|]. exists (delete_range i (detailEvents b)).
    cbn [DeleteDetails]. unfold deref. step_act. rewrite (sl_lookup _ _ _ _ Hx). step_act. rewrite Hxo.
    assert (Hbuf : DeleteDetails (S n) i buf h = (Ok tt, with_details (delete_range i (detailEvents b)) b h)).
    { cbn [DeleteDetails]. unfold deref. step_act. rewrite Hb. step_act. rewrite Ho. step_act.
      unfold delete_own, deref. step_act. rewrite Hb. by step_act. }
    rewrite (bind_ok _ _ _ _ _ Hbuf). eapply delete_own_slice, slice_at_grows; [exact Hx|apply with_details_grows].
  - destruct (IH n) as [ds Hds]; [lia|]. exists ds. cbn [DeleteDetails]. unfold deref. step_act.
    rewrite (sl_lookup _ _ _ _ Hx). step_act. rewrite Hxo, (bind_ok _ _ _ _ _ Hds).
    eapply delete_own_slice, slice_at_grows; [exact Hx|apply with_details_grows].
Qed.

Lemma DataSize_live s o : live_opt (h1_heap s) o → ∃ n, h1_DataSize o s = (Ok n, s).
Proof.
  destruct o as [loc|]; [|by eexists]. intros Ho. destruct (live_slice _ _ _ (Ho loc eq_refl)) as [x Hx].
  destruct (sl_head _ _ _ _ Hx) as (e & i & Hh).
  unfold h1_DataSize, h1_on_buffer, h1_try_buffer, mbind, act_bind. rewrite (sl_lookup _ _ _ _ Hx).
  unfold DataSize, mbind, act_bind, get. rewrite Hh. simpl. rewrite insert_id by apply Hx. eexists. by destruct s as [[]].
Qed.

(** ** The invariant of the analysis *)

Definition exchange_live (h : heap) (u : HTTP1AnalyzeUnFinished) : Prop :=
  request_live h (uf_request u) ∧ response_live h (uf_response u).

Record h1_inv (s : h1_state) (b : Buffer) : Prop := {
  h1_buf : buffers (h1_heap s) !! buf = Some b;
  h1_fresh : (buf < fresh (h1_heap s))%positive;
  h1_good : good_list b;
  h1_original : originalBuffer b = None;
  h1_half : Forall (request_live (h1_heap s)) (halfRequests (h1_metrics s));
  h1_unfinished : Forall (exchange_live (h1_heap s)) (analyzeUnFinished (h1_metrics s))
}.

Lemma request_live_grows h h' r : request_live h r → heap_grows buf h h' → request_live h' r.
Proof. intros [H1 H2] Hg. split; [by eapply live_grows|by eapply live_opt_grows]. Qed.

Lemma response_live_grows h h' r : response_live h r → heap_grows buf h h' → response_live h' r.
Proof. intros [H1 H2] Hg. split; [by eapply live_grows|by eapply live_opt_grows]. Qed.

Lemma exchange_live_grows h h' u : exchange_live h u → heap_grows buf h h' → exchange_live h' u.
Proof. intros [H1 H2] Hg. split; [by eapply request_live_grows|by eapply response_live_grows]. Qed.

(** A new heap with the connection [b']. *)
Lemma h1_inv_heap s b h' b' :
  h1_inv s b → heap_grows buf (h1_heap s) h' → buffers h' !! buf = Some b' →
  good_list b' → originalBuffer b' = None → h1_inv (set_h1_heap h' s) b'.
Proof.
  intros [H1 H2 H3 H4 H5 H6] Hg Hb Hgood Ho. split; try done; simpl.
  - destruct Hg as [Hf _]. simpl in Hf. lia.
  - eapply Forall_impl; [exact H5|]. intros r Hr. by eapply request_live_grows.
  - eapply Forall_impl; [exact H6|]. intros u Hu. by eapply exchange_live_grows.
Qed.

Lemma h1_inv_half s b l :
  h1_inv s b → Forall (request_live (h1_heap s)) l → h1_inv (set_halfRequests l s) b.
Proof. by intros [] Hl; split. Qed.

Lemma h1_inv_unfinished s b l :
  h1_inv s b → Forall (exchange_live (h1_heap s)) l → h1_inv (set_unFinished l s) b.
Proof. by intros [] Hl; split. Qed.

(** Handling an exchange changes the details of the connection and the queue. *)
Definition handled (s : h1_state) (b : Buffer) (s' : h1_state) : Prop :=
  ∃ ds, h1_inv s' (set_detailEvents ds b) ∧ heap_grows buf (h1_heap s) (h1_heap s') ∧
    h1_metrics s' = h1_metrics s.

Lemma HandleHTTPData_live s b req resp :
  h1_inv s b → request_live (h1_heap s) req → response_live (h1_heap s) resp →
  ∃ err s', HandleHTTPData req resp s = (Ok err, s') ∧ handled s b s'.
Proof.
  intros Hs Hreq Hresp. pose proof Hs as [Hb _ Hgood Ho _ _].
  destruct (exchange_details_live (h1_heap s) req resp b Hreq Hresp Hb) as [[[ds i] inc] Hst].
  assert (Hrun : h1_on_heap (exchange_details req resp) s = (Ok (ds, i, inc), s)).
  { unfold h1_on_heap. rewrite Hst. by destruct s. }
  assert (Hsame : handled s b s).
  { exists (detailEvents b). split_and!; [by destruct b|apply grows_refl|done]. }
  unfold HandleHTTPData. rewrite (bind_ok _ _ _ _ _ Hrun). cbn iota beta.
  destruct i as [i|], (list.head ds) as [first|], (last ds) as [final|]; try (by exists true, s).
  destruct inc; [|by exists true, s]. cbn [negb]. cbv zeta.
  destruct (DeleteDetails_live i (h1_heap s) (rq_headerBuffer req) b (Pos.to_nat (rq_headerBuffer req))) as [ds' Hdel];
    [exact (proj1 Hreq)|done|done|lia|].
  set (s1 := set_h1_heap (with_details ds' b (h1_heap s)) s).
  assert (Hd : h1_on_heap (DeleteDetails (Pos.to_nat (rq_headerBuffer req)) i (rq_headerBuffer req)) s = (Ok tt, s1)).
  { unfold h1_on_heap. by rewrite Hdel. }
  pose proof (with_details_grows ds' b (h1_heap s)) as Hg.
  assert (Hs1 : h1_inv s1 (set_detailEvents ds' b)) by (apply (h1_inv_heap s b); [done|done|apply lookup_insert_eq|done|done]).
  destruct (request_live_grows _ _ _ Hreq Hg) as [Q1 Q2], (response_live_grows _ _ _ Hresp Hg) as [P1 P2].
  assert (Hsome : ∀ loc, live (h1_heap s1) loc → live_opt (h1_heap s1) (Some loc)) by (by intros loc Hl ? [= <-]).
  rewrite (bind_ok _ _ _ _ _ Hd).
  destruct (DataSize_live s1 _ (Hsome _ Q1)) as [n1 E1], (DataSize_live s1 _ Q2) as [n2 E2],
    (DataSize_live s1 _ (Hsome _ P1)) as [n3 E3], (DataSize_live s1 _ P2) as [n4 E4].
  rewrite (bind_ok _ _ _ _ _ E1), (bind_ok _ _ _ _ _ E2), (bind_ok _ _ _ _ _ E3), (bind_ok _ _ _ _ _ E4). step_act.
  eexists false, _. split; [done|]. exists ds'. split_and!; [by destruct Hs1|done|done].
Qed.

Lemma handled_refl s b : h1_inv s b → handled s b s.
Proof. intros Hs. exists (detailEvents b). split_and!; [by destruct b|apply grows_refl|done]. Qed.

Lemma handled_trans s b s1 ds s2 :
  h1_inv s1 (set_detailEvents ds b) → heap_grows buf (h1_heap s) (h1_heap s1) → h1_metrics s1 = h1_metrics s →
  handled s1 (set_detailEvents ds b) s2 → handled s b s2.
Proof.
  intros _ Hg Hm (ds2 & Hs2 & Hg2 & Hm2). exists ds2. split_and!; [done|by eapply grows_trans|congruence].
Qed.

Lemma retry_live l s b :
  h1_inv s b → Forall (exchange_live (h1_heap s)) l →
  ∃ kept s', retry_unfinished l s = (Ok kept, s') ∧ Forall (exchange_live (h1_heap s')) kept ∧ handled s b s'.
Proof.
  revert s b. induction l as [|u l IH]; intros s b Hs Hall.
  { exists [], s. split_and!; [done|done|by apply handled_refl]. }
  apply Forall_cons in Hall as [[Hreq Hresp] Hall]. cbn [retry_unfinished].
  destruct (HandleHTTPData_live s b _ _ Hs Hreq Hresp) as (err & s1 & Hrun & ds & Hs1 & Hg1 & Hm1).
  rewrite (bind_ok _ _ _ _ _ Hrun). cbv zeta.
  destruct (IH s1 _ Hs1) as (kept & s2 & Hrun2 & Hkept & Hh).
  { eapply Forall_impl; [exact Hall|]. intros x Hx. by eapply exchange_live_grows. }
  rewrite (bind_ok _ _ _ _ _ Hrun2). step_act. pose proof (handled_trans _ _ _ _ _ Hs1 Hg1 Hm1 Hh) as Hh2.
  eexists _, s2. split_and!; [done| |done]. destruct (err && _); [|done]. constructor; [|done].
  destruct Hh2 as (_ & _ & Hg2 & _). by eapply (exchange_live_grows (h1_heap s)).
Qed.

Lemma handleUnFinishedEvents_live s b :
  h1_inv s b → ∃ s' ds, handleUnFinishedEvents s = (Ok tt, s') ∧ h1_inv s' (set_detailEvents ds b).
Proof.
  intros Hs. destruct (retry_live _ s b Hs (h1_unfinished _ _ Hs)) as (kept & s1 & Hrun & Hkept & ds & Hs1 & _).
  exists (set_unFinished kept s1), ds. split; [|by apply h1_inv_unfinished].
  unfold handleUnFinishedEvents. step_act. by rewrite (bind_ok _ _ _ _ _ Hrun).
Qed.

(** ** Waiting requests *)

Lemma MinDataID_live h r : request_live h r → ∃ n, MinDataID r h = (Ok n, h).
Proof.
  intros [Hl _]. destruct (live_slice _ _ _ Hl) as [x Hx]. pose proof (sl_data _ _ _ _ Hx) as Hd.
  unfold MinDataID, deref, FirstSocketBuffer. step_act. rewrite (sl_lookup _ _ _ _ Hx). step_act.
  destruct (dataEvents x) as [|e l]; [done|]. simpl. by eexists.
Qed.

Lemma MaxDataID_live h r : request_live h r → ∃ n, MaxDataID r h = (Ok n, h).
Proof.
  intros [Hl Hb]. assert (Hm : live h (default (rq_headerBuffer r) (rq_bodyBuffer r))).
  { destruct (rq_bodyBuffer r) as [loc|]; [by apply Hb|done]. }
  destruct (live_slice _ _ _ Hm) as [x Hx]. pose proof (sl_data _ _ _ _ Hx) as Hd.
  unfold MaxDataID, deref, LastSocketBuffer. step_act. rewrite (sl_lookup _ _ _ _ Hx). step_act.
  destruct (last (dataEvents x)) as [e|] eqn:He; [simpl; by eexists|by apply last_None in He].
Qed.

Lemma insert_request_live h n req l :
  request_live h req → Forall (request_live h) l →
  ∃ l', insert_request n req l h = (Ok l', h) ∧ Forall (request_live h) l'.
Proof.
  intros Hreq. induction 1 as [|x l Hx Hl (l' & Hrun & Hl')]; [exists [req]; split; [done|by apply Forall_singleton]|].
  cbn [insert_request]. destruct (MinDataID_live h x Hx) as [m Hm]. rewrite (bind_ok _ _ _ _ _ Hm).
  destruct (n <? m); [exists (req :: x :: l); split; [done|constructor; [done|by constructor]]|].
  rewrite (bind_ok _ _ _ _ _ Hrun). exists (x :: l'). split; [done|by constructor].
Qed.

Lemma appendRequestToList_live h req l :
  request_live h req → Forall (request_live h) l →
  ∃ l', appendRequestToList req l h = (Ok l', h) ∧ Forall (request_live h) l'.
Proof.
  intros Hreq Hl. unfold appendRequestToList. destruct (last l) as [back|] eqn:Hback.
  2:{ exists [req]. split; [done|by apply Forall_singleton]. }
  assert (Hb : request_live h back).
  { rewrite Forall_forall in Hl. apply Hl. by apply last_Some_elem_of. }
  destruct (MinDataID_live h back Hb) as [m Hm], (MinDataID_live h req Hreq) as [n Hn].
  rewrite (bind_ok _ _ _ _ _ Hm), (bind_ok _ _ _ _ _ Hn). destruct (m <? n); [|by apply insert_request_live].
  exists (l ++ [req]). split; [done|]. apply Forall_app. split; [done|by apply Forall_singleton].
Qed.

Lemma findMatchesRequest_live h cur prev l :
  Forall (request_live h) l →
  ∃ o rest, findMatchesRequest cur prev l h = (Ok (o, rest), h) ∧ Forall (request_live h) rest ∧
    ∀ r, o = Some r → request_live h r.
Proof.
  induction 1 as [|x l Hx Hl (o & rest & Hrun & Hrest & Ho)]; [by exists None, []|].
  cbn [findMatchesRequest]. destruct (MaxDataID_live h x Hx) as [m Hm]. rewrite (bind_ok _ _ _ _ _ Hm).
  destruct (_ || _); [exists (Some x), l; split_and!; [done|done|by intros r [= <-]]|].
  rewrite (bind_ok _ _ _ _ _ Hrun). exists o, (x :: rest). split_and!; [done|by constructor|done].
Qed.

(** ** Messages *)

Lemma with_reader_live {A} (m : rd_op A) s b1 l n c R :
  runs m (ends buf (h1_heap s) b1 l n c R) (MkRd (h1_heap s) [] None) →
  ∃ r s', with_reader m s = (Ok r, set_h1_heap (rd_heap s') s) ∧
    match r with
    | inl _ => rd_ok buf (h1_heap s) b1 l s' n
    | inr a => R a s' ∧ ∃ n', rd_ok buf (h1_heap s) b1 l s' n' ∧ (n' + c a ≤ n)%nat
    end.
Proof.
  unfold runs, with_reader, ends. destruct (m _) as [[a|er|] s']; [| |done].
  - intros H. by exists (inr a), s'.
  - intros [Hf Hs']. exists (inl er), s'. split; [|done]. destruct er as [[]| | |]; done.
Qed.

(** The round reads the connection [b1] from the chunk [e] on. *)
Record round_start (s : h1_state) (b1 : Buffer) (pre : list chunk) (e : chunk) (i : Z) (post : list chunk) : Prop := {
  rs_inv : h1_inv s b1;
  rs_at : at_chunk b1 e i post;
  rs_list : dataEvents b1 = pre ++ e :: post;
  rs_head : head b1 = Some (MkPosition (Some e) i);
  rs_reset : shouldResetPosition b1 = false
}.

(** Then a message was read, or a part of one. *)
Definition after_message (b1 : Buffer) (pre : list chunk) (e : chunk) (i : Z) (post : list chunk)
    (result : ParseResult) (s' : h1_state) : Prop :=
  ∃ b2, h1_inv s' b2 ∧
    read_from b1 b2 pre e i post (match result with ParseResultSuccess => true | ParseResultSkipPackage => false end).

Lemma start_rd_ok s b1 pre e i post :
  round_start s b1 pre e i post →
  rd_ok buf (h1_heap s) b1 (e :: post) (MkRd (h1_heap s) [] None) (remaining e i post).
Proof.
  intros [[Hb Hf _ _ _ _] Ha _ _ _]. exists b1, e, i, post. split_and!; [|done|cbn [b_buf length]; lia].
  split; try done. exists (current b1). by destruct b1.
Qed.

Lemma reader_left s b1 pre e i post s' n (strict : bool) :
  round_start s b1 pre e i post → rd_ok buf (h1_heap s) b1 (e :: post) s' n →
  (n + (if strict then 1 else 0) ≤ remaining e i post)%nat →
  ∃ b2, buffers (rd_heap s') !! buf = Some b2 ∧ heap_grows buf (h1_heap s) (rd_heap s') ∧
    originalBuffer b2 = None ∧ read_from b1 b2 pre e i post strict.
Proof.
  intros [[Hb Hf Hgood Ho _ _] Ha Hl Hh Hr] (b2 & e' & i' & post' & [Hb2 [p Hm] Ha2 [mid Hmid] Hg _ _] & _ & Hn) Hlt.
  exists b2. split_and!; [done|done|by rewrite Hm|].
  split; [by rewrite Hm|by rewrite Hm|by rewrite Hm|by rewrite Hm|].
  exists mid, e', i', post'. split_and!; [|destruct mid; by simplify_eq/=|done|lia].
  rewrite Hm. simpl. by rewrite Hl, Hmid.
Qed.

Lemma read_from_details b b' ds pre e i post strict :
  read_from b b' pre e i post strict → read_from b (set_detailEvents ds b') pre e i post strict.
Proof.
  intros [H1 H2 H3 H4 (mid & e' & i' & post' & H5 & H6 & [] & H7)]. split; try done.
  exists mid, e', i', post'. by split_and!.
Qed.

Lemma message_state s b1 pre e i post s' n result :
  round_start s b1 pre e i post → rd_ok buf (h1_heap s) b1 (e :: post) s' n →
  (n + (match result with ParseResultSuccess => 1 | ParseResultSkipPackage => 0 end) ≤ remaining e i post)%nat →
  after_message b1 pre e i post result (set_h1_heap (rd_heap s') s) ∧ heap_grows buf (h1_heap s) (rd_heap s').
Proof.
  intros Hst Hs' Hn.
  destruct (reader_left s b1 pre e i post s' n (match result with ParseResultSuccess => true | _ => false end) Hst Hs')
    as (b2 & Hb2 & Hg & Ho & Hrf); [by destruct result|].
  split; [|done]. exists b2. split; [|done]. by eapply h1_inv_heap; [apply Hst|done|done|apply Hrf|].
Qed.

Lemma after_half b1 pre e i post result s l :
  after_message b1 pre e i post result s → Forall (request_live (h1_heap s)) l →
  after_message b1 pre e i post result (set_halfRequests l s).
Proof. intros (b2 & Hs & Hrf) Hl. exists b2. split; [by apply h1_inv_half|done]. Qed.

Lemma after_half_live b1 pre e i post result s :
  after_message b1 pre e i post result s → Forall (request_live (h1_heap s)) (halfRequests (h1_metrics s)).
Proof. by intros (b2 & [] & _). Qed.

Lemma handleRequest_live s b1 pre e i post :
  round_start s b1 pre e i post →
  ∃ result s', handleRequest pa buf s = (Ok result, s') ∧ after_message b1 pre e i post result s'.
Proof.
  intros Hst. pose proof (ReadRequest_ends buf b1 (e :: post) pa _ _ _ (start_rd_ok _ _ _ _ _ _ Hst)) as Hrd.
  destruct (with_reader_live _ s _ _ _ _ _ Hrd) as (r & s' & Hrun & Hr). unfold handleRequest.
  rewrite (bind_ok _ _ _ _ _ Hrun). destruct r as [er|[o result]].
  - eexists _, _. split; [done|]. eapply message_state; [done|done|lia].
  - destruct Hr as (Hm & n' & Hs' & Hn'). destruct result.
    + destruct Hm as (req & -> & Hreq).
      destruct (message_state s b1 pre e i post s' n' ParseResultSuccess Hst Hs') as [Hafter Hg]; [done|].
      destruct (appendRequestToList_live (rd_heap s') req (halfRequests (h1_metrics s))) as (l & Happ & Hl);
        [done|exact (after_half_live _ _ _ _ _ _ _ Hafter)|].
      step_act. assert (Hh : h1_on_heap (appendRequestToList req (halfRequests (h1_metrics s))) (set_h1_heap (rd_heap s') s)
        = (Ok l, set_h1_heap (rd_heap s') s)) by (unfold h1_on_heap; simpl; by rewrite Happ).
      rewrite (bind_ok _ _ _ _ _ Hh). step_act. eexists _, _. split; [done|]. by apply after_half.
    + exists ParseResultSkipPackage. destruct o; (eexists; split; [done|]; eapply message_state; [done|done|lia]).
Qed.

Lemma exchange_handled b1 pre e i post s req resp :
  after_message b1 pre e i post ParseResultSuccess s →
  request_live (h1_heap s) req → response_live (h1_heap s) resp →
  ∃ s', (err ← HandleHTTPData req resp;
         (if err : bool then appendAnalyzeUnFinished req resp else mret tt);;
         mret ParseResultSuccess) s = (Ok ParseResultSuccess, s') ∧
    after_message b1 pre e i post ParseResultSuccess s'.
Proof.
  intros (b2 & Hs & Hrf) Hreq Hresp.
  destruct (HandleHTTPData_live s b2 req resp Hs Hreq Hresp) as (err & s1 & Hrun & ds & Hs1 & Hg & _).
  rewrite (bind_ok _ _ _ _ _ Hrun). pose proof (read_from_details _ _ ds _ _ _ _ _ Hrf) as Hrf1.
  destruct err; step_act; (eexists; split; [done|]; eexists; split; [|exact Hrf1]); [|done].
  apply h1_inv_unfinished; [done|]. apply Forall_app. split; [apply Hs1|]. apply Forall_singleton.
  split; [by eapply request_live_grows|by eapply response_live_grows].
Qed.

Lemma handleResponse_live s b1 pre e i post :
  round_start s b1 pre e i post →
  ∃ result s', handleResponse buf s = (Ok result, s') ∧ after_message b1 pre e i post result s'.
Proof.
  intros Hst. pose proof Hst as [Hs Ha Hl Hh Hr]. pose proof Hs as [Hb _ _ _ Hhalf _]. unfold handleResponse.
  assert (Hpos : h1_on_buffer buf Position_ s = (Ok (MkPosition (Some e) i), s)).
  { rewrite (h1_buffer_ok _ _ _ b1 (MkPosition (Some e) i) b1), set_buffer_same; [done|done|done|].
    unfold Position_. step_act. by rewrite (Http2Loop.at_current _ _ _ _ Ha). }
  rewrite (bind_ok _ _ _ _ _ Hpos). step_act. simpl. step_act.
  destruct (findMatchesRequest_live (h1_heap s) (DataID (evalue e)) (PrevDataID (evalue e)) _ Hhalf)
    as (o & rest & Hfind & Hrest & Ho).
  assert (Hf : h1_on_heap (findMatchesRequest (DataID (evalue e)) (PrevDataID (evalue e)) (halfRequests (h1_metrics s))) s
    = (Ok (o, rest), s)) by (unfold h1_on_heap; rewrite Hfind; by destruct s).
  rewrite (bind_ok _ _ _ _ _ Hf). cbn iota beta. destruct o as [req|].
  2:{ eexists _, s. split; [done|]. exists b1. split; [done|]. split; [apply Hs|done..|].
      exists [], e, i, post. split_and!; [done|done|done|lia]. }
  specialize (Ho req eq_refl). step_act. set (s2 := set_halfRequests rest s).
  assert (Hst2 : round_start s2 b1 pre e i post) by (split; [by apply h1_inv_half|done..]).
  pose proof (ReadResponse_ends buf b1 (e :: post) _ _ _ (start_rd_ok _ _ _ _ _ _ Hst2)) as Hrd.
  destruct (with_reader_live _ s2 _ _ _ _ _ Hrd) as (r & s' & Hrun & Hres). rewrite (bind_ok _ _ _ _ _ Hrun).
  assert (Hback : ∀ n', rd_ok buf (h1_heap s2) b1 (e :: post) s' n' → (n' ≤ remaining e i post)%nat →
    after_message b1 pre e i post ParseResultSkipPackage
      (set_halfRequests (req :: halfRequests (h1_metrics s2)) (set_h1_heap (rd_heap s') s2))).
  { intros n' Hs' Hn'. destruct (message_state s2 b1 pre e i post s' n' ParseResultSkipPackage Hst2 Hs') as [Haf Hg]; [lia|].
    apply after_half; [done|]. constructor; [by eapply request_live_grows|exact (after_half_live _ _ _ _ _ _ _ Haf)]. }
  destruct r as [er|[o result]]; [step_act; eexists _, _; split; [done|]; by apply (Hback _ Hres)|].
  destruct Hres as (Hm & n' & Hs' & Hn'). destruct result.
  - destruct Hm as (resp & -> & Hresp).
    destruct (message_state s2 b1 pre e i post s' n' ParseResultSuccess Hst2 Hs') as [Haf Hg]; [done|].
    destruct (exchange_handled b1 pre e i post (set_h1_heap (rd_heap s') s2) req resp Haf) as (s4 & Hrun4 & Haf4);
      [by eapply request_live_grows|done|]. by exists ParseResultSuccess, s4.
  - exists ParseResultSkipPackage. destruct o; step_act; (eexists; split; [done|]; apply (Hback n' Hs'); lia).
Qed.

(** ** Rounds *)

Lemma peek_loop_total fuel plen b e i post :
  at_chunk b e i post →
  match peek_loop fuel plen b with
  | (Panic, _) => False
  | (_, b') => moved b b'
  end.
Proof.
  revert plen b e i post. induction fuel as [|fuel IH]; intros plen b e i post Ha; cbn [peek_loop].
  { case_decide; (exists (current b); by destruct b). }
  case_decide as Hp; [exists (current b); by destruct b|]. unfold mbind, act_bind.
  pose proof (Read_total plen b e i post Ha ltac:(lia)) as Hr.
  destruct (Read plen b) as [[bytes|er|] b1]; [| |done].
  - destruct Hr as (e' & i' & post' & -> & Ha' & _).
    specialize (IH (plen - Z.of_nat (length bytes)) _ e' i' post' Ha').
    destruct (peek_loop fuel _ _) as [[rest|er|] b2]; [| |done]; destruct IH as [p ->]; by exists p.
  - destruct Hr as [_ ->]. exists (current b). by destruct b.
Qed.

(** Peeking leaves the buffer as it is. *)
Lemma Peek_live n b e i post :
  at_chunk b e i post → (∃ bytes, Peek n b = (Ok bytes, b)) ∨ ∃ er, Peek n b = (Err er, b).
Proof.
  intros Ha. pose proof (peek_loop_total (read_fuel b n) n b e i post Ha) as Hp.
  assert (Hsame : ∀ b', moved b b' → set_current (Some (MkPosition (Some e) i)) b' = b).
  { intros b' [p ->]. pose proof (Http2Loop.at_current _ _ _ _ Ha) as Hc. destruct b. simpl in *. by subst. }
  unfold Peek. rewrite (Http2Loop.at_current _ _ _ _ Ha).
  destruct (peek_loop _ _ b) as [[bytes|er|] b']; [| |done]; rewrite (Hsame _ Hp); eauto.
Qed.

Lemma IdentityMessageType_live s b e i post :
  buffers (h1_heap s) !! buf = Some b → at_chunk b e i post →
  ∃ r, h1_try_buffer buf IdentityMessageType s = (Ok r, s).
Proof.
  intros Hb Ha.
  assert (Hty : ∃ r, IdentityMessageType b = (r, b) ∧ r ≠ Panic).
  { unfold IdentityMessageType. destruct (Peek_live headBufferSize b e i post Ha) as [[bytes Hp]|[er Hp]].
    - rewrite (bind_ok _ _ _ _ _ Hp). cbv zeta. by eexists (Ok _).
    - unfold mbind, act_bind. rewrite Hp. by exists (Err er). }
  destruct Hty as (r & Hty & Hr). pose proof (set_buffer_same buf s b Hb) as Hsame. unfold set_buffer in Hsame.
  unfold h1_try_buffer. rewrite Hb, Hty, Hsame. destruct r as [t|er|]; [by eexists|by eexists|done].
Qed.

(** What a round leaves, when it is not the last one. *)
Definition round_left (n : nat) (finished : bool) (s' : h1_state) : Prop :=
  ∃ b', h1_inv s' b' ∧ (finished = false → rounds b' n).

Lemma h1_inv_set s b b' :
  h1_inv s b → good_list b' → originalBuffer b' = None → h1_inv (set_buffer buf b' s) b'.
Proof.
  intros Hs Hg Ho. apply (h1_inv_heap s b); [done|apply set_buffer_grows|apply lookup_insert_eq|done|done].
Qed.

Lemma skip_left s b1 b2 pre e i post strict n :
  h1_inv s b2 → read_from b1 b2 pre e i post strict → 0 ≤ i →
  (weight (dataEvents b1) * (weight (dataEvents b1) + 1) + remaining e i post ≤ n)%nat →
  ∃ fin s', h1_on_buffer buf SkipCurrentElement s = (Ok fin, s') ∧ round_left n fin s'.
Proof.
  intros Hs [Hg Hd Hh Hr (mid & e' & i' & post' & _ & _ & Ha & Hrem)] Hi Hn.
  destruct (Skip_rounds b2 (Some e) i e' i' post' (remaining e i post) Ha Hh Hi Hr) as (fin & b' & Hrun & Hd' & Ho' & Hro);
    [destruct strict; lia|].
  exists fin, (set_buffer buf b' s). split; [by apply (h1_buffer_ok _ _ _ b2); [apply Hs|]|].
  exists b'. split; [|intros Hfin; eapply rounds_mono; [by apply Hro|by rewrite Hd]].
  apply (h1_inv_set s b2); [done|unfold good_list; by rewrite Hd'|]. rewrite Ho'. apply Hs.
Qed.

Lemma remove_left s b1 b2 pre e i post n :
  h1_inv s b2 → read_from b1 b2 pre e i post true →
  (weight (dataEvents b1) * (weight (dataEvents b1) + 1) + remaining e i post ≤ n)%nat →
  ∃ fin s', h1_on_buffer buf (RemoveReadElements false) s = (Ok fin, s') ∧ round_left n fin s'.
Proof.
  intros Hs [Hg Hd Hh Hr (mid & e' & i' & post' & Hl & Hm & Ha & Hrem)] Hn.
  destruct (Remove_rounds b2 pre mid e' i i' post' (remaining e i post)) as (b' & Hrun & Hsub & Ho' & Hro);
    [done|done|by rewrite Hm|apply Ha|apply Ha|done|lia|].
  exists false, (set_buffer buf b' s). split; [by apply (h1_buffer_ok _ _ _ b2); [apply Hs|]|].
  exists b'. split; [|intros _; eapply rounds_mono; [by apply Hro|by rewrite Hd]].
  apply (h1_inv_set s b2); [done|by eapply good_sublist|]. rewrite Ho'. apply Hs.
Qed.

Lemma message_end_left s b1 pre e i post result n :
  after_message b1 pre e i post result s → 0 ≤ i →
  (weight (dataEvents b1) * (weight (dataEvents b1) + 1) + remaining e i post ≤ n)%nat →
  ∃ fin s', match result with
            | ParseResultSuccess => h1_on_buffer buf (RemoveReadElements false)
            | ParseResultSkipPackage => h1_on_buffer buf SkipCurrentElement
            end s = (Ok fin, s') ∧ round_left n fin s'.
Proof.
  intros (b2 & Hs & Hrf) Hi Hn. destruct result; [by eapply remove_left|by eapply skip_left].
Qed.

Lemma round_live s b n :
  h1_inv s b → rounds b (S n) → ∃ fin s', h1_round pa buf s = (Ok fin, s') ∧ round_left n fin s'.
Proof.
  intros Hs Hro. pose proof Hs as [Hb _ Hg Ho _ _].
  destruct Hro as [Hnil|(pre & e & i & post & Hl & Hst & Hi & Hlt)].
  { exists true, s. split; [by eapply empty_round|]. by exists b. }
  destruct (Prepare_starts b pre e i post Hl Hst Hg Hi) as (b1 & Hprep & Ha1 & Hd1 & Hr1 & Hh1 & Ho1).
  set (s1 := set_buffer buf b1 s).
  assert (Hs1 : h1_inv s1 b1) by (apply (h1_inv_set s b); [done|unfold good_list; by rewrite Hd1|congruence]).
  assert (Hstart : round_start s1 b1 pre e i post) by (split; [done|done|by rewrite Hd1|done|done]).
  assert (Hskip : after_message b1 pre e i post ParseResultSkipPackage s1).
  { exists b1. split; [done|]. split; [apply Hs1|done..|]. exists [], e, i, post.
    split_and!; [by rewrite Hd1|done|done|lia]. }
  assert (Hn : (weight (dataEvents b1) * (weight (dataEvents b1) + 1) + remaining e i post ≤ n)%nat) by (rewrite Hd1; lia).
  destruct (IdentityMessageType_live s1 b1 e i post (h1_buf _ _ Hs1) Ha1) as [r Hid].
  unfold h1_round. rewrite (bind_ok _ _ _ _ _ (h1_buffer_ok buf _ _ _ _ _ Hb Hprep)). fold s1. cbn [negb].
  rewrite (bind_ok _ _ _ _ _ Hid). destruct r as [er|ty]; [exact (message_end_left _ _ _ _ _ _ _ _ Hskip Hi Hn)|].
  assert (Hres : ∃ result s2, match ty with
      | MessageTypeRequest => handleRequest pa buf
      | MessageTypeResponse => handleResponse buf
      | MessageTypeUnknown => mret ParseResultSkipPackage
      end s1 = (Ok result, s2) ∧ after_message b1 pre e i post result s2).
  { destruct ty; [by apply handleRequest_live|by apply handleResponse_live|by exists ParseResultSkipPackage, s1]. }
  destruct Hres as (result & s2 & Hrun & Haf). rewrite (bind_ok _ _ _ _ _ Hrun).
  destruct (message_end_left _ _ _ _ _ _ _ _ Haf Hi Hn) as (fin & s3 & Hend & Hleft).
  exists fin, s3. split; [|done]. by destruct result.
Qed.

Lemma loop_live n s b :
  h1_inv s b → rounds b n → ∃ s' b', h1_loop pa buf (S n) s = (Ok tt, s') ∧ h1_inv s' b'.
Proof.
  revert s b. induction n as [|n IH]; intros s b Hs Hr.
  - destruct Hr as [Hnil|(? & ? & ? & ? & _ & _ & _ & ?)]; [|lia]. exists s, b. split; [|done].
    cbn [h1_loop]. by rewrite (bind_ok _ _ _ _ _ (empty_round pa buf s b (h1_buf _ _ Hs) Hnil)).
  - destruct (round_live s b n Hs Hr) as (fin & s1 & Hrun & b1 & Hs1 & Hr1).
    change (h1_loop pa buf (S (S n))) with
      (finishReading ← h1_round pa buf; if finishReading : bool then mret tt else h1_loop pa buf (S n)).
    rewrite (bind_ok _ _ _ _ _ Hrun). destruct fin; [by exists s1, b1|]. apply (IH s1 b1); auto.
Qed.

(** C2: the analysis of HTTP/1 ends and does not panic.  On every connection whose chunks are
    well-formed, whatever bytes they hold, however they are cut and whatever waits from
    before, [Analyze] returns without an error; the connection stays such a connection, so
    this holds for every later analysis as well. *)
Theorem http1_Analyze_total s b :
  h1_inv s b → ∃ s' b', http1_Analyze pa buf s = (Ok tt, s') ∧ h1_inv s' b'.
Proof.
  intros Hs. unfold http1_Analyze.
  destruct (handleUnFinishedEvents_live s b Hs) as (s1 & ds & Hrun & Hs1). rewrite (bind_ok _ _ _ _ _ Hrun).
  set (b1 := set_detailEvents ds b) in *. clearbody b1.
  rewrite (bind_ok _ _ _ _ _ (h1_buffer_ok buf (modify ResetForLoopReading) s1 b1 tt _ (h1_buf _ _ Hs1) eq_refl)).
  set (s2 := set_buffer buf (ResetForLoopReading b1) s1).
  assert (Hs2 : h1_inv s2 (ResetForLoopReading b1)) by (apply (h1_inv_set s1 b1); [done|apply Hs1|apply Hs1]).
  assert (Hd : h1_on_heap (deref buf) s2 = (Ok (ResetForLoopReading b1), s2)).
  { unfold h1_on_heap, deref. step_act. rewrite (h1_buf _ _ Hs2). step_act. by destruct s2. }
  rewrite (bind_ok _ _ _ _ _ Hd). unfold analyze_fuel. apply loop_live with (ResetForLoopReading b1); [done|].
  destruct (dataEvents b1) as [|e l] eqn:Hl; [by left|]. right. exists [], e, 0, l.
  cbn [ResetForLoopReading set_head set_current dataEvents app]. rewrite Hl. split_and!; [done| |lia|].
  - right. simpl. rewrite Hl. split_and!; [done..|]. right. left.
  - pose proof (remaining_weight e 0 l). lia.
Qed.
End loop.

Module Http1LoopSample.
Import Http1Sample.

(** Bytes of no protocol, a request that is cut off, an empty chunk, and a response without a
    request and with a length that is no number. *)
Definition chunks : list (Z * Z * bool * bool * string) :=
  [(1, 0, true, false, "no message of HTTP/1"%string); (2, 0, false, false, str_take 30 get_users);
   (3, 0, true, false, ""%string);
   (4, 0, true, true, text ["HTTP/1.1 200 OK"; "Content-Length: many"; ""] "")].
Definition state : h1_state := connection chunks [1; 2].

Lemma inv : h1_inv 100 state (buffer chunks [1; 2]).
Proof.
  split; [reflexivity|reflexivity| |reflexivity|constructor|constructor].
  split; [apply (bool_decide_unpack _); vm_compute; exact I|vm_compute; repeat constructor; discriminate].
Qed.
End Http1LoopSample.

Lemma http1_Analyze_total_witness :
  ∃ s' b', Http1Sample.analyze Http1LoopSample.state = (Ok tt, s') ∧ h1_inv 100 s' b'.
Proof.
  exact (http1_Analyze_total (λ _, None) 100 Http1LoopSample.state _ Http1LoopSample.inv).
Defined.
