(* ===== verification/Http2Ends.v ===== *)
(** * The HTTP/2 analysis ends

    The analysis of Http2.v ends on every connection whose chunks are well-formed
    (Http2Loop.v).  It panics only when a stream was split: as long as every chunk is
    younger than the three minutes after which a request that is still open is split, and
    the parts of the open streams can be read, it does not, and they stay readable. *)

From stdpp Require Import base gmap list strings.
From Stdlib Require Import ZArith Lia.
From S2P Require Import Prelude GoStrings Interfaces ProcessMonitor Connection Ztunnel AccessLogTail Sender Delivery Tracing Events Buffer BufferOrder Http2 Http2Loop GoHttp Http1 Http1Stream Http1Laws Http1Exchange Http1Reader Http1Loop.

Section ends.
Context (buf : positive) {D : Type}.
Context (DecodeFull : list Z → D → option (list (string * string)) * D).
Context (frame_header : list Z → FrameHeader) (bootTime now : Z).
Implicit Types (s : h2_state D) (st : HTTP2Streaming).
Notation live := (live buf).
Notation live_opt := (live_opt buf).
Notation h2_inv := (h2_inv buf).

(** ** The invariant *)

(** The parts of a stream are slices of the connection, and its request has a head. *)
Definition parts_live (h : heap) st : Prop :=
  is_Some (ReqHeaderBuffer st) ∧ Forall (live_opt h) (parts st).

(** The connection is a buffer of its own and the parts of its open streams are live. *)
Record parts_ready s : Prop := {
  pr_own : ∃ b, buffers (h2_heap s) !! buf = Some b ∧ originalBuffer b = None;
  pr_fresh : (buf < fresh (h2_heap s))%positive;
  pr_streams id st : Streams s !! id = Some st → parts_live (h2_heap s) st
}.

(** The data is not older than a request may stay open. *)
Definition recent_data (v : SocketDataBuffer) : Prop :=
  now - host_Time bootTime (StartTime v) ≤ maxHTTP2StreamingTime.
Definition recent (h : heap) : Prop :=
  ∀ loc x, buffers h !! loc = Some x → Forall (λ c, recent_data (evalue c)) (dataEvents x).

Definition intact s (b : Buffer) : Prop := h2_inv s b ∧ parts_ready s ∧ recent (h2_heap s).

(** ** Slices of recent data *)

Lemma parts_live_grows h h' st : parts_live h st → heap_grows buf h h' → parts_live h' st.
Proof.
  intros [H1 H2] Hg. split; [done|]. eapply Forall_impl; [exact H2|].
  intros o Ho. by eapply live_opt_grows.
Qed.

Lemma fmap_recent (l : list chunk) :
  Forall recent_data (evalue <$> l) ↔ Forall (λ c, recent_data (evalue c)) l.
Proof. by rewrite Forall_fmap. Qed.

Lemma alloc_recent values valid i o p h h' loc :
  alloc values valid i o p h = (h', loc) → Forall recent_data values → recent h → recent h'.
Proof.
  unfold alloc. intros [= <- <-] Hv Hr l x. cbn. rewrite lookup_insert_Some.
  intros [[_ <-]|[_ Hx]]; [|by eapply Hr]. simpl.
  apply fmap_recent. by rewrite number_values.
Qed.

Lemma elems_from_recent l e :
  (∀ c, e = Some c → c ∈ l) → Forall (λ c, recent_data (evalue c)) l →
  Forall (λ c, recent_data (evalue c)) (elems_from l e).
Proof.
  intros He Hl. destruct e as [e|]; [|done]. simpl.
  assert (Hsuf : Forall (λ c, recent_data (evalue c)) (suffix_from l (eid e))).
  { clear He. induction Hl as [|x l Hx Hl IH]; simpl; [done|]. case_decide; [by constructor|done]. }
  destruct (suffix_from l (eid e)); [|done]. constructor; [|done].
  rewrite Forall_forall in Hl. apply Hl. by apply He.
Qed.

Lemma walk_to_recent id l :
  Forall (λ c, recent_data (evalue c)) l → Forall (λ c, recent_data (evalue c)) (walk_to id l).
Proof. induction 1 as [|x l Hx Hl IH]; simpl; [done|]. case_decide; by constructor. Qed.

Lemma slice_recent r start endp values :
  slice_values r start endp = Some values → Forall (λ c, recent_data (evalue c)) (dataEvents r) →
  (∀ c, element start = Some c ∨ element endp = Some c → c ∈ dataEvents r) →
  Forall recent_data values.
Proof.
  unfold slice_values. destruct (element endp) as [e|] eqn:He; [|done]. cbn. intros [= <-] Hr Hin.
  apply Forall_app. split.
  - apply fmap_recent, walk_to_recent, elems_from_recent; [|done]. intros c Hc. apply Hin. by left.
  - constructor; [|done]. rewrite Forall_forall in Hr. apply (Hr e). apply Hin. by right.
Qed.

Lemma combine_recent bs values :
  combine_all bs = Some values →
  (∀ x, Some x ∈ bs → Forall (λ c, recent_data (evalue c)) (dataEvents x)) →
  Forall recent_data values.
Proof.
  revert values. induction bs as [|[x|] bs IH]; intros values; cbn [combine_all].
  - by intros [= <-].
  - destruct (combine_values x) as [v|] eqn:Hv; [|done]. destruct (combine_all bs) as [rest|]; [|done].
    cbn. intros [= <-] Hb. apply Forall_app. split; [|apply IH; [done|]; intros y Hy; apply Hb; by right].
    specialize (Hb x ltac:(left)). unfold combine_values in Hv. destruct (head x) as [p|]; [|by simplify_eq].
    case_decide; [|simplify_eq; by apply fmap_recent].
    destruct (dataEvents x) as [|c l]; [done|]. simplify_eq. apply Forall_cons in Hb as [H1 H2].
    constructor; [exact H1|]. by apply fmap_recent.
  - intros Hv Hb. apply IH; [done|]. intros y Hy. apply Hb. by right.
Qed.

Lemma Slice_recent start e i h r :
  buffers h !! buf = Some r → (buf < fresh h)%positive → recent h → e ∈ dataEvents r →
  (∃ e0 i0, start = MkPosition (Some e0) i0 ∧ e0 ∈ dataEvents r) →
  ∃ h' loc, Slice buf true start (MkPosition (Some e) i) h = (Ok loc, h') ∧ live h' loc ∧
    heap_grows buf h h' ∧ (buf < fresh h')%positive ∧ buffers h' !! buf = Some r ∧ recent h'.
Proof.
  intros Hr Hf Hrec He (e0 & i0 & -> & He0).
  destruct (Slice_live buf buf true (MkPosition (Some e0) i0) e i h r Hr Hf (or_introl eq_refl))
    as (h' & loc & Hrun & Hl & Hg & Hf' & Hb).
  exists h', loc. split_and!; [done|done|done|done|by rewrite Hb|].
  revert Hrun. unfold Slice, deref. step_act. rewrite Hr. step_act.
  destruct (slice_values r _ _) as [values|] eqn:Hv; [|done]. step_act.
  destruct (alloc _ _ _ _ _ h) as [h1 l1] eqn:Ha. step_act. intros [= <- <-].
  eapply alloc_recent; [exact Ha| |done]. eapply slice_recent; [exact Hv|by eapply Hrec|].
  intros c [Hc|Hc]; simpl in Hc; by simplify_eq.
Qed.

(** The combination of an older part, if there is one, with a new slice. *)
Lemma combine_two h old loc :
  live_opt h old → live h loc → (buf < fresh h)%positive → recent h →
  ∃ h' loc', CombineSlices true (Some buf) [old; Some loc] h = (Ok (Some loc'), h') ∧ live h' loc' ∧
    heap_grows buf h h' ∧ (buf < fresh h')%positive ∧ buffers h' !! buf = buffers h !! buf ∧ recent h'.
Proof.
  intros Ho Hl Hf Hrec.
  assert (∃ bs xs, deref_all [old; Some loc] h = (Ok bs, h) ∧ combine_all bs = combine_all (Some <$> xs) ∧
    combine_end bs = combine_end (Some <$> xs) ∧ xs ≠ [] ∧ Forall (λ x, ∃ l, slice_at buf h l x) xs ∧
    ∀ x, Some x ∈ bs → x ∈ xs) as (bs & xs & Hd & Hall & Hend & Hne & Hxs & Hin).
  { destruct old as [o|].
    - destruct (deref_opts buf h [Some o; Some loc]) as (xs & Hd & Hlen & Hxs).
      { repeat constructor; eexists; (split; [done|]); [by apply Ho|done]. }
      exists (Some <$> xs), xs. split_and!; [done..| |done|]; [by destruct xs|].
      intros x (y & [= ->] & Hy)%list_elem_of_fmap. done.
    - destruct (deref_opts buf h [Some loc]) as (xs & Hd & Hlen & Hxs).
      { repeat constructor; eexists; by split. }
      exists (None :: (Some <$> xs)), xs. split_and!; [|done..| |done|]; [|by destruct xs|].
      + change (deref_all [None; Some loc]) with
          (b ← deref_opt None; bs ← deref_all [Some loc]; mret (b :: bs)).
        cbn [deref_opt]. step_act. by rewrite (bind_ok _ _ _ _ _ Hd).
      + intros x [?|(y & [= ->] & Hy)%list_elem_of_fmap]%elem_of_cons; done. }
  destruct (combine_slices buf h xs Hxs) as (values & Hv & Hvne).
  destruct (combine_end_some buf h xs Hne Hxs) as (e & i & He). rewrite <- Hall in Hv. rewrite <- Hend in He.
  destruct (alloc_slice buf values true 0 buf e i h) as (h' & loc' & Ha & Hl' & Hg & Hf' & Hb);
    [auto|done|by left|].
  exists h', loc'. split_and!; try done.
  - unfold CombineSlices. rewrite (bind_ok _ _ _ _ _ Hd), Hv. step_act. rewrite He. step_act.
    rewrite Ha. by step_act.
  - eapply alloc_recent; [exact Ha| |done]. eapply combine_recent; [exact Hv|].
    intros x Hx%Hin. rewrite Forall_forall in Hxs. destruct (Hxs x Hx) as (l & Hs).
    eapply Hrec, Hs.
Qed.

(** ** Running the parts of the analysis *)

Lemma Position_run s b e i :
  buffers (h2_heap s) !! buf = Some b → current b = Some (MkPosition (Some e) i) →
  on_buffer buf Position_ s = (Ok (MkPosition (Some e) i), s).
Proof.
  intros Hb Hc. unfold on_buffer, try_buffer, mbind, act_bind. rewrite Hb. unfold Position_. step_act.
  rewrite Hc. simpl. rewrite insert_id by done. by destruct s as [[]].
Qed.

Lemma on_heap_run {A} (m : heap_op A) s a h' :
  m (h2_heap s) = (Ok a, h') → on_heap m s = (Ok a, set_h2_heap h' s).
Proof. intros Hm. unfold on_heap. by rewrite Hm. Qed.

Lemma DataSize_run s o : live_opt (h2_heap s) o → ∃ n, BufferSizeOfZero o s = (Ok n, s).
Proof.
  destruct o as [loc|]; [|by eexists]. intros Ho. destruct (live_slice _ _ _ (Ho loc eq_refl)) as [x Hx].
  destruct (sl_head _ _ _ _ Hx) as (e & i & Hh).
  unfold BufferSizeOfZero, on_buffer, try_buffer, mbind, act_bind. rewrite (sl_lookup _ _ _ _ Hx).
  unfold DataSize, mbind, act_bind, get. rewrite Hh. simpl. rewrite insert_id by apply Hx. eexists.
  by destruct s as [[]].
Qed.

(** What holds of a state in which a frame is handled. *)
Definition ready s : Prop := parts_ready s ∧ recent (h2_heap s).

Lemma ready_heap s h' b' :
  ready s → heap_grows buf (h2_heap s) h' → (buf < fresh h')%positive →
  buffers h' !! buf = Some b' → originalBuffer b' = None → recent h' → ready (set_h2_heap h' s).
Proof.
  intros [[_ _ Hst] _] Hg Hf Hb Ho Hr. split; [|done]. split; [by exists b'|done|].
  intros id st H. eapply parts_live_grows; [by eapply Hst|done].
Qed.

Lemma ready_stream id st s : ready s → parts_live (h2_heap s) st → ready (set_stream id st s).
Proof.
  intros [[Ho Hf Hst] Hr] Hl. split; [|done]. split; [done|done|]. intros id' st'. cbn.
  rewrite lookup_insert_Some. intros [[_ <-]|[_ H]]; [done|by eapply Hst].
Qed.

Lemma ready_delete id s : ready s → ready (delete_stream id s).
Proof.
  intros [[Ho Hf Hst] Hr]. split; [|done]. split; [done|done|]. intros id' st'. cbn.
  rewrite lookup_delete_Some. intros [_ H]. by eapply Hst.
Qed.

Lemma parts_live_iff h st :
  parts_live h st ↔ is_Some (ReqHeaderBuffer st) ∧ live_opt h (ReqHeaderBuffer st) ∧
    live_opt h (ReqBodyBuffer st) ∧ live_opt h (RespHeaderBuffer st) ∧ live_opt h (RespBodyBuffer st).
Proof. unfold parts_live, parts. rewrite !Forall_cons, Forall_nil. tauto. Qed.

Lemma extend_run old start s b e i :
  ready s → buffers (h2_heap s) !! buf = Some b → current b = Some (MkPosition (Some e) i) →
  e ∈ dataEvents b → (∃ e0 i0, start = MkPosition (Some e0) i0 ∧ e0 ∈ dataEvents b) →
  live_opt (h2_heap s) old →
  ∃ loc h', extend buf old start s = (Ok (Some loc), set_h2_heap h' s) ∧ live h' loc ∧
    heap_grows buf (h2_heap s) h' ∧ ready (set_h2_heap h' s).
Proof.
  intros Hready Hb Hc He Hstart Hold. pose proof Hready as [[(b0 & Hb0 & Ho) Hf _] Hr]. simplify_eq.
  unfold extend. rewrite (bind_ok _ _ _ _ _ (Position_run _ _ _ _ Hb Hc)).
  destruct (Slice_recent start e i _ _ Hb Hf Hr He Hstart) as (h1 & sl & Hrun & Hl & Hg & Hf1 & Hb1 & Hr1).
  rewrite (bind_ok _ _ _ _ _ (on_heap_run _ _ _ _ Hrun)).
  destruct (combine_two h1 old sl) as (h2 & loc & Hrun2 & Hl2 & Hg2 & Hf2 & Hb2 & Hr2);
    [by eapply live_opt_grows|done..|].
  exists loc, h2. rewrite (on_heap_run _ (set_h2_heap h1 s) _ _ Hrun2).
  assert (Hg' : heap_grows buf (h2_heap s) h2).
  { destruct Hg as [G1 G2], Hg2 as [G3 G4]. simpl in *. split; simpl; [lia|].
    intros x Hx Hlt. rewrite G4 by (done || lia). by apply G2. }
  split_and!; [done|done|done|]. eapply ready_heap; [done..| |done|done]. by rewrite Hb2.
Qed.

Lemma stream_details_run h st b :
  parts_live h st → buffers h !! buf = Some b → ∃ r, stream_details st h = (Ok r, h).
Proof.
  intros (_ & H1 & H2 & H3 & H4)%parts_live_iff Hb. unfold stream_details.
  destruct (AppendSocketDetails_live buf h _ ([], None, true) b H1 Hb) as [r1 E1].
  destruct (AppendSocketDetails_live buf h _ r1 b H2 Hb) as [r2 E2].
  destruct (AppendSocketDetails_live buf h _ r2 b H3 Hb) as [r3 E3].
  rewrite (bind_ok _ _ _ _ _ E1), (bind_ok _ _ _ _ _ E2), (bind_ok _ _ _ _ _ E3).
  by eapply AppendSocketDetails_live.
Qed.

Lemma FirstDetail_run h o d b :
  live_opt h o → buffers h !! buf = Some b → ∃ r, FirstDetail o d h = (Ok r, h).
Proof.
  intros Ho Hb. destruct o as [loc|]; [|by eexists]. unfold FirstDetail.
  destruct (BuildDetails_live buf h loc b (Ho loc eq_refl) Hb) as [ds Hds].
  rewrite (bind_ok _ _ _ _ _ Hds). by eexists.
Qed.

Lemma HandleWholeStream_run st s :
  ready s → parts_live (h2_heap s) st →
  ∃ r s', HandleWholeStream st s = (Ok r, s') ∧ ready s' ∧ heap_grows buf (h2_heap s) (h2_heap s').
Proof.
  intros Hready Hp. pose proof Hready as [[(b & Hb & Ho) Hf Hst] Hr].
  assert (Hsame : ∀ r : bool, ∃ r' s', ((mret r : act _ read_error _) s) = (Ok r', s') ∧ ready s' ∧
    heap_grows buf (h2_heap s) (h2_heap s')) by (intros r; exists r, s; by split_and!).
  destruct (stream_details_run _ _ _ Hp Hb) as [[[ds i] inc] Hds]. unfold HandleWholeStream.
  rewrite (bind_ok _ _ _ _ _ (on_heap_run _ _ _ _ Hds)).
  replace (set_h2_heap (h2_heap s) s) with s by (by destruct s).
  destruct i as [i|], (list.head ds) as [first|], (last ds) as [final|]; try apply Hsame.
  destruct inc; cbn [negb]; [|apply Hsame].
  apply parts_live_iff in Hp as ([loc Hloc] & H1 & H2 & H3 & H4).
  rewrite Hloc. cbn [must]. step_act.
  destruct (DeleteDetails_live buf i (h2_heap s) loc b (Pos.to_nat loc)) as [ds' Hdel];
    [by apply H1|done|done|lia|].
  rewrite (bind_ok _ _ _ _ _ (on_heap_run _ _ _ _ Hdel)).
  set (s1 := set_h2_heap _ s). pose proof (with_details_grows buf ds' b (h2_heap s)) as Hg.
  assert (Hb1 : buffers (h2_heap s1) !! buf = Some (set_detailEvents ds' b)) by apply lookup_insert_eq.
  assert (Hr1 : ready s1).
  { eapply ready_heap; [done|done|done|exact Hb1|done|]. intros l x. cbn. rewrite lookup_insert_Some.
    intros [[_ <-]|[_ Hx]]; [by apply (Hr buf b)|by eapply Hr]. }
  rewrite Hloc in H1.
  assert (live_opt (h2_heap s1) (Some loc) ∧ live_opt (h2_heap s1) (ReqBodyBuffer st) ∧
    live_opt (h2_heap s1) (RespHeaderBuffer st) ∧ live_opt (h2_heap s1) (RespBodyBuffer st))
    as (L1 & L2 & L3 & L4) by (split_and!; by eapply live_opt_grows).
  destruct (FirstDetail_run _ _ first _ L2 Hb1) as [start Hstart].
  rewrite (bind_ok _ _ _ _ _ (on_heap_run _ _ _ _ Hstart)).
  replace (set_h2_heap (h2_heap s1) s1) with s1 by done.
  destruct (DataSize_run s1 _ L1) as [n1 E1], (DataSize_run s1 _ L2) as [n2 E2],
    (DataSize_run s1 _ L3) as [n3 E3], (DataSize_run s1 _ L4) as [n4 E4].
  rewrite (bind_ok _ _ _ _ _ E1), (bind_ok _ _ _ _ _ E2), (bind_ok _ _ _ _ _ E3), (bind_ok _ _ _ _ _ E4).
  step_act. eexists _, _. split; [done|]. split; [|done]. destruct Hr1 as [[] ?]. by split.
Qed.

(** The place where a frame was read: a reader inside the connection, and where it began. *)
Definition frame_read s (b : Buffer) (e : chunk) (i : Z) (start : Position) : Prop :=
  buffers (h2_heap s) !! buf = Some b ∧ current b = Some (MkPosition (Some e) i) ∧
  e ∈ dataEvents b ∧ ∃ e0 i0, start = MkPosition (Some e0) i0 ∧ e0 ∈ dataEvents b.

Lemma extended old start s b e i :
  ready s → frame_read s b e i start → live_opt (h2_heap s) old →
  ∃ loc h', extend buf old start s = (Ok (Some loc), set_h2_heap h' s) ∧ live h' loc ∧
    heap_grows buf (h2_heap s) h' ∧ ready (set_h2_heap h' s).
Proof. intros Hr (Hb & Hc & He & Hs) Ho. by eapply extend_run. Qed.

(** The run ends and leaves the state ready. *)
Definition stays {A} (m : act (h2_state D) read_error A) s : Prop :=
  ∃ a s', m s = (Ok a, s') ∧ ready s'.

Lemma stays_ret {A} (a : A) s : ready s → stays (mret a) s.
Proof. intros Hr. by exists a, s. Qed.

Lemma stays_bind {A B} (m : act (h2_state D) read_error A) (f : A → act _ read_error B) s a s' :
  m s = (Ok a, s') → stays (f a) s' → stays (m ≫= f) s.
Proof. intros Hm (a' & s'' & Hf & Hr). exists a', s''. by rewrite (bind_ok _ _ _ _ _ Hm). Qed.

Lemma live_some h loc : live h loc → live_opt h (Some loc).
Proof. by intros H ? [= <-]. Qed.

Lemma header_block_run header start bytes s b e i :
  ready s → frame_read s b e i start → stays (handleHeaderBlock DecodeFull header start buf bytes) s.
Proof.
  intros Hr Hf. unfold handleHeaderBlock. eapply stays_bind; [done|].
  destruct (DecodeFull _ _) as [decoded decoder]. eapply stays_bind; [done|].
  set (s1 := set_decoder decoder s). assert (Hr1 : ready s1) by (destruct Hr as [[] ?]; by split).
  assert (Hf1 : frame_read s1 b e i start) by done. 
  assert (Hst : ∀ id st, Streams s !! id = Some st → parts_live (h2_heap s1) st)
    by apply (pr_streams _ (proj1 Hr)).
  clearbody s1. destruct decoded as [hd|]; [|by apply stays_ret]. cbv zeta.
  destruct (Streams s !! frame_StreamID header) as [st|] eqn:Hid.
  - apply Hst in Hid. set (st' := match parseHeaders hd !! ":status"%string with
      | Some status => _ | None => st end).
    assert (Hp : parts_live (h2_heap s1) st')
      by (unfold st'; by destruct (parseHeaders hd !! ":status"%string)).
    clearbody st'. pose proof Hp as (_ & H1 & H2 & H3 & H4)%parts_live_iff.
    destruct (negb (IsInResponse st')).
    + destruct (extended _ start s1 b e i Hr1 Hf1 H1) as (loc & h' & Hrun & Hl & Hg & Hr2).
      eapply stays_bind; [exact Hrun|]. eapply stays_bind; [done|]. apply stays_ret, ready_stream; [done|].
      apply parts_live_iff. simpl. split_and!; [by eexists|by apply live_some|by eapply live_opt_grows..].
    + destruct (extended _ start s1 b e i Hr1 Hf1 H3) as (loc & h' & Hrun & Hl & Hg & Hr2).
      eapply stays_bind; [exact Hrun|]. eapply stays_bind; [done|].
      set (st2 := MkStreaming _ _ _ _ _ _ _ _).
      assert (Hp2 : parts_live h' st2).
      { apply parts_live_iff. simpl. apply parts_live_iff in Hp as [? _].
        split_and!; [done|by eapply live_opt_grows..|by apply live_some|by eapply live_opt_grows]. }
      pose proof (ready_stream (frame_StreamID header) st2 _ Hr2 Hp2) as Hr3.
      destruct (frame_EndStream header); [|by apply stays_ret].
      destruct (HandleWholeStream_run st2 _ Hr3 Hp2) as (r & s2 & Hrun2 & Hr4 & _).
      eapply stays_bind; [exact Hrun2|]. eapply stays_bind; [done|]. by apply stays_ret, ready_delete.
  - destruct Hf1 as (Hb & Hc & He & Hstart). pose proof Hr1 as [[(b0 & Hb0 & Ho) Hfr _] Hrec]. simplify_eq.
    eapply stays_bind; [by eapply Position_run|].
    destruct (Slice_recent start e i _ _ Hb Hfr Hrec He Hstart)
      as (h' & loc & Hrun & Hl & Hg & Hf' & Hb' & Hrec').
    eapply stays_bind; [by apply on_heap_run|]. eapply stays_bind; [done|]. apply stays_ret, ready_stream.
    + by eapply ready_heap.
    + apply parts_live_iff. simpl. by split_and!; [eexists|apply live_some|..].
Qed.

Lemma validate_run st s :
  ready s → parts_live (h2_heap s) st → stays (validateIsStreamOpenTooLong bootTime now st) s.
Proof.
  intros Hr Hp. unfold validateIsStreamOpenTooLong. destruct (IsInResponse st); [by apply stays_ret|].
  destruct (ReqBodyBuffer st) as [body|] eqn:Hbody; [|by apply stays_ret].
  apply parts_live_iff in Hp as (_ & _ & H2 & _). rewrite Hbody in H2.
  destruct (live_slice _ _ _ (H2 body eq_refl)) as [x Hx].
  assert (Hd : on_heap (deref body) s = (Ok x, s)).
  { unfold on_heap, deref. step_act. rewrite (sl_lookup _ _ _ _ Hx). step_act. by destruct s. }
  eapply stays_bind; [exact Hd|]. pose proof (proj2 Hr body x (sl_lookup _ _ _ _ Hx)) as Hrec.
  unfold FirstSocketBuffer. destruct (dataEvents x) as [|c l]; simpl; [by apply stays_ret|].
  apply Forall_cons in Hrec as [Hc _]. unfold recent_data in Hc.
  destruct (_ <? _) eqn:Hlt; [lia|]. by apply stays_ret.
Qed.

(** ** Frames *)

Lemma intact_update s b b' :
  intact s b → originalBuffer b' = originalBuffer b → dataEvents b' `sublist_of` dataEvents b →
  intact (set_connection buf b' s) b'.
Proof.
  intros (Hi & [(b0 & Hb0 & Ho0) Hf Hst] & Hr) Ho Hd.
  pose proof (h2_inv_lookup _ _ _ Hi) as Hb. assert (b0 = b) as -> by congruence.
  split; [by eapply h2_inv_update|].
  eapply (ready_heap s _ b'); [by split; [split; [exists b|..]|]| |done| | |].
  - split; [done|]. intros y Hy _. by apply lookup_insert_ne.
  - apply lookup_insert_eq.
  - congruence.
  - intros l x. cbn. rewrite lookup_insert_Some. intros [[_ <-]|[_ Hx]]; [|by eapply Hr].
    specialize (Hr _ _ Hb). rewrite Forall_forall in *. intros c Hc. by eapply Hr, elem_of_sublist.
Qed.

Lemma intact_payload data s b e i post :
  intact s b → at_chunk b e i post →
  safe False (try_buffer buf (ReadUntilBufferFull data))
    (λ _ s', ∃ b', intact s' b' ∧ forward b b' e i post false ∧ Streams s' = Streams s) s.
Proof. apply read_payload; [by intros ? ? [? _]; apply h2_inv_lookup|apply intact_update]. Qed.

(** A run that stays ready, after the payload of a frame was read. *)
Lemma after_payload {A} (f : read_error + list Z → act (h2_state D) read_error A) data s b e i post start :
  intact s b → at_chunk b e i post →
  (∃ e0 i0, start = MkPosition (Some e0) i0 ∧ e0 ∈ dataEvents b) →
  (∀ r s' b' e' i', ready s' → Streams s' = Streams s → heap_grows buf (h2_heap s) (h2_heap s') →
     frame_read s' b' e' i' start → stays (f r) s') →
  stays (try_buffer buf (ReadUntilBufferFull data) ≫= f) s.
Proof.
  intros Hs Ha Hstart Hf. pose proof (intact_payload data s b e i post Hs Ha) as H. unfold safe in H.
  destruct (try_buffer buf _ s) as [[r|er|] s'] eqn:Hrun; [|done..].
  destruct H as (b' & (Hi & Hrest) & (e' & i' & post' & [q Hm] & Hat & _) & Hst).
  eapply stays_bind; [exact Hrun|]. apply (Hf r s' b' e' i'); [done|done| |].
  - revert Hrun. unfold try_buffer. destruct Hs as (Hi0 & _). rewrite (h2_inv_lookup _ _ _ Hi0).
    destruct (ReadUntilBufferFull data b) as [[a|er|] b1]; intros [= <- <-];
      (split; [done|]); intros y Hy _; by apply lookup_insert_ne.
  - split_and!; [by apply h2_inv_lookup|apply Hat| |].
    + destruct (at_list _ _ _ _ Hat) as [pre ->]. set_solver.
    + destruct Hstart as (e0 & i0 & -> & He0). exists e0, i0. split; [done|]. by rewrite Hm.
Qed.

Lemma handleFrame_stays header start s b e i post :
  intact s b → at_chunk b e i post →
  (∃ e0 i0, start = MkPosition (Some e0) i0 ∧ e0 ∈ dataEvents b) →
  stays (handleFrame DecodeFull bootTime now header start buf) s.
Proof.
  intros Hs Ha Hstart. unfold handleFrame. destruct (frame_Type header).
  - unfold HandleHeader. eapply after_payload; [done..|]. intros [er|bytes] s' b' e' i' Hr _ _ Hf;
      [by apply stays_ret|by eapply header_block_run].
  - unfold HandleData. eapply stays_bind; [done|].
    destruct (Streams s !! frame_StreamID header) as [st|] eqn:Hid; [|apply stays_ret, Hs].
    eapply after_payload; [done..|]. intros [er|bytes] s' b' e' i' Hr Hst Hg Hf; [by apply stays_ret|].
    assert (Hp : parts_live (h2_heap s') st).
    { eapply parts_live_grows; [|exact Hg]. destruct Hs as (_ & Hpr & _). by eapply pr_streams. }
    pose proof Hp as (H0 & H1 & H2 & H3 & H4)%parts_live_iff.
    assert (∃ st' h', (if negb (IsInResponse st) then
              combined ← extend buf (ReqBodyBuffer st) start;
              mret (MkStreaming (ReqHeader st) (RespHeader st) (ReqHeaderBuffer st) combined
                      (IsInResponse st) (Status st) (RespHeaderBuffer st) (RespBodyBuffer st))
            else
              combined ← extend buf (RespBodyBuffer st) start;
              mret (MkStreaming (ReqHeader st) (RespHeader st) (ReqHeaderBuffer st)
                      (ReqBodyBuffer st) (IsInResponse st) (Status st) (RespHeaderBuffer st)
                      combined)) s' = (Ok st', set_h2_heap h' s') ∧
      parts_live h' st' ∧ ready (set_h2_heap h' s')) as (st' & h' & Hrun & Hp' & Hr').
    { destruct (negb (IsInResponse st)).
      - destruct (extended _ start s' b' e' i' Hr Hf H2) as (loc & h' & Hrun & Hl & Hg' & Hr').
        eexists _, h'. rewrite (bind_ok _ _ _ _ _ Hrun). split; [done|]. split; [|done].
        apply parts_live_iff. simpl. split_and!; [done|by eapply live_opt_grows|by apply live_some|by eapply live_opt_grows..].
      - destruct (extended _ start s' b' e' i' Hr Hf H4) as (loc & h' & Hrun & Hl & Hg' & Hr').
        eexists _, h'. rewrite (bind_ok _ _ _ _ _ Hrun). split; [done|]. split; [|done].
        apply parts_live_iff. simpl. split_and!; [done|by eapply live_opt_grows..|by apply live_some]. }
    eapply stays_bind; [exact Hrun|]. eapply stays_bind; [done|].
    destruct (validate_run st' (set_stream (frame_StreamID header) st' (set_h2_heap h' s')))
      as (u & s2 & Hv & Hr2); [by apply ready_stream|done|].
    eapply stays_bind; [exact Hv|]. by apply stays_ret.
  - unfold handleOther. eapply after_payload; [done..|]. intros r s' b' e' i' Hr _ _ _. by apply stays_ret.
Qed.

Lemma handleFrame_intact header start s b e i post :
  intact s b → at_chunk b e i post →
  (∃ e0 i0, start = MkPosition (Some e0) i0 ∧ e0 ∈ dataEvents b) →
  safe False (handleFrame DecodeFull bootTime now header start buf)
    (λ _ s', advanced intact b e i post s') s.
Proof.
  intros Hs Ha Hstart. destruct (handleFrame_stays header _ _ _ _ _ _ Hs Ha Hstart) as (r & s' & Hrun & Hr).
  pose proof (handleFrame_advances buf DecodeFull bootTime now header start s b e i post (proj1 Hs) Ha) as Hw.
  unfold safe in *. rewrite Hrun in *. destruct Hw as (b' & b'' & Hi & Hf & Hd). by exists b', b''.
Qed.

Lemma Analyze_intact s b :
  intact s b → good_list b →
  safe False (Analyze DecodeFull frame_header bootTime now buf)
    (λ _ s', ∃ b', intact s' b' ∧ good_list b') s.
Proof.
  apply Analyze_safe; [by intros ? ? [? _]; apply h2_inv_lookup|apply intact_update|].
  intros. by apply handleFrame_intact.
Qed.

(** ** Property *)

(** C20: the analysis ends.  On every connection whose chunks are well-formed the loop of
    [Analyze] stops, after a number of rounds that the weight of the chunks bounds.  When it
    returns, the connection is well-formed, so the next analysis ends as well.  It panics
    only when a part of an open stream cannot be read or some data is older than three
    minutes, which splits the stream (see [split_stream_panics]); otherwise the parts of the
    open streams can still be read afterwards. *)
Theorem Analyze_terminates s b :
  h2_inv s b → good_list b →
  match Analyze DecodeFull frame_header bootTime now buf s with
  | (Ok _, s') => (∃ b', h2_inv s' b' ∧ good_list b') ∧
      (parts_ready s → recent (h2_heap s) → parts_ready s')
  | (Err _, _) => False
  | (Panic, _) => ¬ (parts_ready s ∧ recent (h2_heap s))
  end.
Proof.
  intros Hs Hg. pose proof (Analyze_weak buf DecodeFull frame_header bootTime now s b Hs Hg) as Hw.
  assert (Hi : parts_ready s ∧ recent (h2_heap s) → safe False (Analyze DecodeFull frame_header bootTime now buf)
    (λ _ s', ∃ b', intact s' b' ∧ good_list b') s) by (intros Hr; by apply (Analyze_intact s b)).
  unfold safe in *. destruct (Analyze _ _ _ _ _ s) as [[r|er|] s']; [|done|exact Hi].
  split; [done|]. intros H1 H2. destruct (Hi (conj H1 H2)) as (b' & (_ & H & _) & _). exact H.
Qed.
End ends.

Module LoopSample.
Definition frames : list (list Z) :=
  [Http2Sample.request 1; Http2Sample.body 1; Http2Sample.response 1].
Definition state : h2_state unit := Http2Sample.connection frames [1; 2; 3].
Definition buffer : Buffer :=
  Eval vm_compute in default NewBuffer (buffers (h2_heap state) !! 100%positive).

Lemma state_inv : h2_inv 100 state buffer.
Proof.
  split; [split|].
  - vm_compute. reflexivity.
  - vm_compute. reflexivity.
  - intros loc x o Hx. unfold state, Http2Sample.connection in Hx.
    cbn [h2_heap buffers] in Hx. apply lookup_singleton_Some in Hx as [<- <-]. done.
  - intros id st Hst. unfold state, Http2Sample.connection in Hst.
    cbn [Streams] in Hst. by rewrite lookup_empty in Hst.
Qed.

Lemma buffer_good : good_list buffer.
Proof.
  split; [apply (bool_decide_unpack _); vm_compute; exact I|].
  repeat constructor; simpl; lia.
Qed.
End LoopSample.

Lemma Analyze_terminates_witness :
  match Http2Sample.analyze 100 LoopSample.state with
  | (Ok _, s') => (∃ b', h2_inv 100 s' b' ∧ good_list b') ∧ parts_ready 100 s'
  | (Err _, _) => False
  | (Panic, _) => False
  end.
Proof.
  assert (Hp : parts_ready 100 LoopSample.state).
  { split; [by eexists|reflexivity|]. intros id st H.
    change ((∅ : gmap Z HTTP2Streaming) !! id = Some st) in H. by rewrite lookup_empty in H. }
  assert (Hr : recent 0 100 (h2_heap LoopSample.state)).
  { intros loc x H. unfold LoopSample.state, Http2Sample.connection in H. cbn [h2_heap buffers] in H.
    apply lookup_singleton_Some in H as [_ <-].
    repeat constructor; unfold recent_data; vm_compute; discriminate. }
  pose proof (Analyze_terminates 100 Http2Sample.DecodeFull Http2Sample.frame_header 0 100
    LoopSample.state LoopSample.buffer LoopSample.state_inv LoopSample.buffer_good) as H.
  unfold Http2Sample.analyze. destruct (Analyze _ _ _ _ _ _) as [[r|e|] s']; [|done|by apply H].
  destruct H as [H1 H2]. split; [exact H1|]. by apply H2.
Defined.
