(* ===== verification/Protocols.v ===== *)
(** * The protocols of the access log

    The manager of a partition has the analyzers of HTTP/1 and HTTP/2 (src/pkg/accesslog/
    collector/protocols: queue.go, NewAnalyzer).  The HTTP/1 analysis keeps the interface of
    protocols of PartitionLaws.v, and both together are a manager of which the routing of
    events holds. *)

From stdpp Require Import base gmap list strings pretty sorting.
From Stdlib Require Import ZArith Lia Ascii.
From S2P Require Import Prelude GoStrings Interfaces ProcessMonitor Connection ConnectionLife Ztunnel AccessLogTail Sender Delivery Tracing Events Buffer BufferOrder Http2 Partition PartitionLaws GoHttp Http1.

(** ** HTTP/1 as a protocol *)

Definition http1_ops (parseAuthority : string → option string) : ProtocolOps HTTP1Metrics :=
  MkProtocolOps NewHTTP1Metrics (λ _ buf metrics st,
    let '(r, s) := http1_Analyze parseAuthority buf (MkH1 st.1 metrics st.2) in
    (match r with
     | Ok _ => Ok (None, false, h1_metrics s)
     | Err e => Ok (Some e, false, h1_metrics s)
     | Panic => Panic
     end, (h1_heap s, h1_queue s))).

(** Metrics of several protocols: an analyzer asserts the type of its own. *)
Definition ops_in {A B} (inj : A → B) (proj : B → option A) (p : ProtocolOps A) : ProtocolOps B :=
  MkProtocolOps (λ c r, inj (GenerateConnection p c r)) (λ now buf metrics st,
    match proj metrics with
    | None => (Panic, st)
    | Some m =>
      let '(r, st') := proto_Analyze p now buf m st in
      (match r with
       | Ok (e, b, m') => Ok (e, b, inj m')
       | Err e => match e with end
       | Panic => Panic
       end, st')
    end).

Global Instance ops_in_lawful {A B} (inj : A → B) proj p `{!LawfulProtocol p} : LawfulProtocol (ops_in inj proj p).
Proof.
  intros now loc mt h q. simpl. destruct (proj mt) as [m|]; [|reflexivity].
  pose proof (analyze_grows now loc m h q) as Hg. by destruct (proto_Analyze p now loc m (h, q)) as [r st'].
Qed.

(** ** The reader grows the heap *)

Definition rd_step (s s' : rd) : Prop := heap_step (rd_heap s) (rd_heap s').
Definition h1_step (s s' : h1_state) : Prop := heap_step (h1_heap s) (h1_heap s').

Global Instance rd_step_preorder : PreOrder rd_step.
Proof. split; [intros s; by red|]. intros s1 s2 s3 H1 H2. by red; etrans. Qed.
Global Instance h1_step_preorder : PreOrder h1_step.
Proof. split; [intros s; by red|]. intros s1 s2 s3 H1 H2. by red; etrans. Qed.

Section reader_grows.
Context (buf : positive).

Lemma respects_rd_same f : (∀ s, rd_heap (f s) = rd_heap s) → respects rd_step (modify f : rd_op unit).
Proof. intros Hf s. unfold rd_step. simpl. rewrite Hf. reflexivity. Qed.

Lemma respects_catch {A} (m : rd_op A) : respects rd_step m → respects rd_step (catch m).
Proof. intros Hm s. specialize (Hm s). unfold catch. by destruct (m s) as [[|[[]| | |]|] s']. Qed.

Lemma respects_rd_heap {A} (m : heap_op A) : respects heap_step m → respects rd_step (rd_on_heap m).
Proof. intros Hm s. specialize (Hm (rd_heap s)). unfold rd_on_heap. by destruct (m (rd_heap s)). Qed.

Lemma respects_rd_buffer {A} loc (m : method A) : respects same_buffer m → respects rd_step (rd_on_buffer loc m).
Proof.
  intros Hm s. unfold rd_on_buffer. destruct (buffers (rd_heap s) !! loc) as [b|] eqn:Hb; [|reflexivity].
  specialize (Hm b). destruct (m b) as [r b']. by eapply heap_step_update.
Qed.
#[local] Hint Resolve respects_rd_same respects_catch respects_rd_heap respects_rd_buffer : respects.

Lemma respects_fill_loop n : respects rd_step (fill_loop buf n).
Proof. induction n; simpl; respects_all. Qed.
#[local] Hint Resolve respects_fill_loop : respects.

Lemma respects_fill : respects rd_step (fill buf).
Proof. unfold fill. respects_all. Qed.
#[local] Hint Resolve respects_fill : respects.

(** A branch that puts back a state with the heap that was read, or goes on. *)
Ltac from_get := apply respects_get_bind; intros s; repeat case_match; try (red; simpl; reflexivity).

Lemma respects_read_slice fuel : respects rd_step (read_slice buf fuel).
Proof.
  induction fuel as [|fuel IH]; cbn [read_slice]; [respects_all|]. from_get.
  apply (respects_bind rd_step (fill buf)); [apply respects_fill|intros _; apply IH].
Qed.

Lemma respects_ReadSlice : respects rd_step (ReadSlice buf).
Proof. apply respects_read_slice. Qed.
#[local] Hint Resolve respects_ReadSlice : respects.

Lemma respects_ReadLine : respects rd_step (ReadLine buf).
Proof. unfold ReadLine. respects_all. Qed.

Lemma respects_readErr : respects rd_step readErr.
Proof. unfold readErr. from_get. Qed.
#[local] Hint Resolve respects_ReadLine respects_readErr : respects.

Lemma respects_ReadByte : respects rd_step (ReadByte buf).
Proof.
  unfold ReadByte. apply respects_bind; [apply _|respects_all|intros s].
  apply respects_bind; [apply _|respects_all|intros _]. apply respects_get_bind. intros s'.
  case_match; [|red; simpl; reflexivity]. apply (respects_bind rd_step readErr); [apply respects_readErr|]. intros e. respects_all.
Qed.

Lemma respects_Peek1 : respects rd_step (Peek1 buf).
Proof. unfold Peek1. respects_all. Qed.
#[local] Hint Resolve respects_ReadByte respects_Peek1 : respects.

Lemma respects_bufio_Read n : respects rd_step (bufio_Read buf n).
Proof.
  unfold bufio_Read. apply respects_get_bind. intros s.
  assert (Hat : ∀ m : rd_op (list Z), respects rd_step m → rd_step s (snd (m s))) by (intros m Hm; apply Hm).
  case_match; [apply Hat; respects_all|]. case_match; [apply Hat; respects_all|red; simpl; reflexivity].
Qed.
#[local] Hint Resolve respects_bufio_Read : respects.

Lemma respects_read_full fuel got n : respects rd_step (read_full buf fuel got n).
Proof. revert got. induction fuel; intros got; simpl; respects_all. Qed.
#[local] Hint Resolve respects_read_full : respects.

Lemma respects_read_line_slice fuel line : respects rd_step (read_line_slice buf fuel line).
Proof. revert line. induction fuel; intros line; simpl; respects_all. Qed.
#[local] Hint Resolve respects_read_line_slice : respects.

Lemma respects_readLineSlice : respects rd_step (readLineSlice buf).
Proof. unfold readLineSlice. respects_all. Qed.

Lemma respects_skip_space fuel skipped : respects rd_step (skip_space buf fuel skipped).
Proof. revert skipped. induction fuel; intros skipped; simpl; unfold UnreadByte; respects_all. Qed.
#[local] Hint Resolve respects_readLineSlice respects_skip_space : respects.

Lemma respects_continued fuel line : respects rd_step (continued_lines buf fuel line).
Proof. revert line. induction fuel; intros line; simpl; unfold skipSpace; respects_all. Qed.
#[local] Hint Resolve respects_continued : respects.

Lemma respects_header_loop fuel m : respects rd_step (header_loop buf fuel m).
Proof. revert m. induction fuel; intros m; simpl; unfold readContinuedLineSlice; respects_all. Qed.
#[local] Hint Resolve respects_header_loop : respects.

Lemma respects_ReadMIMEHeader : respects rd_step (ReadMIMEHeader buf).
Proof. unfold ReadMIMEHeader. respects_all. Qed.
#[local] Hint Resolve respects_ReadMIMEHeader : respects.

Lemma respects_unread : respects rd_step (unreadPosition buf).
Proof.
  assert (Ho : ∀ n, respects same_buffer (OffsetPosition n)) by (intros n; unfold OffsetPosition; respects_all).
  unfold unreadPosition. respects_all.
Qed.

Lemma respects_slice_between self start endp : respects rd_step (slice_between self start endp).
Proof. unfold slice_between. respects_all. Qed.

Lemma respects_finish_packet fuel : respects rd_step (finish_packet buf fuel).
Proof.
  assert (Hf : respects same_buffer IsCurrentPacketReadFinished) by (unfold IsCurrentPacketReadFinished; respects_all).
  induction fuel; simpl; respects_all.
Qed.

Lemma respects_body_loop fuel n : respects rd_step (body_loop buf fuel n).
Proof. revert n. induction fuel; intros n; simpl; unfold io_ReadFull; respects_all. Qed.
#[local] Hint Resolve respects_unread respects_slice_between respects_finish_packet respects_body_loop : respects.

Lemma respects_checkBody n detected : respects rd_step (checkBodyWithSize buf n detected).
Proof. unfold checkBodyWithSize, DetectNotSending. respects_all. Qed.
#[local] Hint Resolve respects_checkBody : respects.

Lemma respects_chunk_loop fuel slices : respects rd_step (chunk_loop buf fuel slices).
Proof. revert slices. induction fuel; intros slices; simpl; unfold DetectNotSending; respects_all. Qed.
#[local] Hint Resolve respects_chunk_loop : respects.

Lemma respects_readFullBody headers : respects rd_step (readFullBody buf headers).
Proof.
  unfold readFullBody, appointedLength, checkChunkedBody, readBodyUntilCurrentPackageFinished. respects_all.
Qed.
#[local] Hint Resolve respects_readFullBody : respects.

Lemma respects_ReadRequest pa readBody : respects rd_step (ReadRequest buf pa readBody).
Proof. unfold ReadRequest, textproto_ReadLine, buildHeaderBuffer. respects_all. Qed.

Lemma respects_ReadResponse readBody : respects rd_step (ReadResponse buf readBody).
Proof. unfold ReadResponse, textproto_ReadLine, buildHeaderBuffer. respects_all. Qed.
End reader_grows.

(** ** The analysis grows the heap *)

Section analysis_grows.
Context (pa : string → option string) (buf : positive).

Lemma respects_h1_heap {A} (m : heap_op A) : respects heap_step m → respects h1_step (h1_on_heap m).
Proof. intros Hm s. specialize (Hm (h1_heap s)). unfold h1_on_heap. by destruct (m (h1_heap s)). Qed.

Lemma respects_h1_try {A} loc (m : method A) : respects same_buffer m → respects h1_step (h1_try_buffer loc m).
Proof.
  intros Hm s. unfold h1_try_buffer. destruct (buffers (h1_heap s) !! loc) as [b|] eqn:Hb; [|reflexivity].
  specialize (Hm b). destruct (m b) as [r b'].
  assert (h1_step s (set_h1_heap (MkHeap (<[loc := b']> (buffers (h1_heap s))) (fresh (h1_heap s))) s))
    by by eapply heap_step_update.
  by destruct r.
Qed.

Lemma respects_with_reader {A} (m : rd_op A) : respects rd_step m → respects h1_step (with_reader m).
Proof.
  intros Hm s. specialize (Hm (MkRd (h1_heap s) [] None)). unfold with_reader.
  by destruct (m _) as [[|[[]| | |]|] s'].
Qed.

Lemma respects_h1_same f : (∀ s, h1_heap (f s) = h1_heap s) → respects h1_step (modify f : h1_op unit).
Proof. intros Hf s. unfold h1_step. simpl. rewrite Hf. reflexivity. Qed.
#[local] Hint Resolve respects_h1_heap respects_h1_try respects_with_reader respects_h1_same : respects.

Lemma respects_h1_buffer {A} loc (m : method A) : respects same_buffer m → respects h1_step (h1_on_buffer loc m).
Proof. intros Hm. unfold h1_on_buffer. respects_all. Qed.
#[local] Hint Resolve respects_h1_buffer : respects.

Lemma respects_h1_DataSize o : respects h1_step (h1_DataSize o).
Proof. unfold h1_DataSize. respects_all. Qed.
#[local] Hint Resolve respects_h1_DataSize respects_append : respects.

Lemma respects_HandleHTTPData req resp : respects h1_step (HandleHTTPData req resp).
Proof.
  assert (Hd : respects heap_step (exchange_details req resp)) by (unfold exchange_details; respects_all).
  unfold HandleHTTPData. respects_all.
Qed.
#[local] Hint Resolve respects_HandleHTTPData : respects.

Lemma respects_retry l : respects h1_step (retry_unfinished l).
Proof. induction l; simpl; respects_all. Qed.
#[local] Hint Resolve respects_retry : respects.

Lemma respects_MinDataID r : respects heap_step (MinDataID r).
Proof. unfold MinDataID. respects_all. Qed.
Lemma respects_MaxDataID r : respects heap_step (MaxDataID r).
Proof. unfold MaxDataID. respects_all. Qed.
#[local] Hint Resolve respects_MinDataID respects_MaxDataID : respects.

Lemma respects_appendRequest req l : respects heap_step (appendRequestToList req l).
Proof.
  assert (Hi : ∀ n, respects heap_step (insert_request n req l)) by (intros n; induction l; simpl; respects_all).
  unfold appendRequestToList. respects_all.
Qed.

Lemma respects_findMatches cur prev l : respects heap_step (findMatchesRequest cur prev l).
Proof. induction l; simpl; respects_all. Qed.
#[local] Hint Resolve respects_appendRequest respects_findMatches respects_ReadRequest respects_ReadResponse : respects.

Lemma respects_Identity : respects same_buffer IdentityMessageType.
Proof.
  assert (Hp : respects same_buffer (Peek headBufferSize)).
  { intros b. unfold Peek. destruct (current b) as [p|] eqn:Hc; [|reflexivity].
    pose proof (respects_peek_loop (read_fuel b headBufferSize) headBufferSize b) as [Ho _].
    destruct (peek_loop _ _ b) as [r b']. simpl in *. by apply same_buffer_current; [|rewrite Hc]. }
  unfold IdentityMessageType. respects_all.
Qed.
#[local] Hint Resolve respects_Identity : respects.

Lemma respects_h1_round : respects h1_step (h1_round pa buf).
Proof. unfold h1_round, handleRequest, handleResponse, appendAnalyzeUnFinished. respects_all. Qed.
#[local] Hint Resolve respects_h1_round : respects.

Lemma respects_h1_loop n : respects h1_step (h1_loop pa buf n).
Proof. induction n; simpl; respects_all. Qed.
#[local] Hint Resolve respects_h1_loop : respects.

Lemma respects_http1_Analyze : respects h1_step (http1_Analyze pa buf).
Proof. unfold http1_Analyze, handleUnFinishedEvents. respects_all. Qed.
End analysis_grows.

Global Instance http1_lawful pa : LawfulProtocol (http1_ops pa).
Proof.
  intros now loc mt h q. simpl. pose proof (respects_http1_Analyze pa loc (MkH1 h mt q)) as H.
  by destruct (http1_Analyze _ _ _) as [r s].
Qed.

(** ** The manager of the access log *)

Section manager.
Context {D : Type} (DecodeFull : list Z → D → option (list (string * string)) * D).
Context (frame_header : list Z → FrameHeader) (bootTime : Z) (newDecoder : D).
Context (parseAuthority : string → option string).

Notation metrics := (HTTP1Metrics + gmap Z HTTP2Streaming * D)%type.

(** HTTP/1 is the protocol 1, HTTP/2 the protocol 2. *)
Definition supportAnalyzers : list (Z * ProtocolOps metrics) :=
  [(1, ops_in inl (λ m, match m with inl x => Some x | inr _ => None end) (http1_ops parseAuthority));
   (2, ops_in inr (λ m, match m with inl _ => None | inr x => Some x end)
         (http2_ops DecodeFull frame_header bootTime newDecoder))].

(** What a partition asks of its protocols holds for those of the program. *)
Lemma supportAnalyzers_lawful : map_Forall (λ _ p, LawfulProtocol p) (NewProtocolManager supportAnalyzers).
Proof.
  unfold supportAnalyzers, NewProtocolManager. simpl.
  do 2 (apply map_Forall_insert_2; [apply _|]). apply map_Forall_empty.
Qed.
End manager.

(** ** An exchange through a partition

    The data and the details of a request and of its response come in any order, beside a
    connection of HTTP/2; the analysis of the connection sends one log of the exchange. *)

Module ProtocolsSample.
Definition protocols : gmap Z (ProtocolOps (HTTP1Metrics + gmap Z HTTP2Streaming * unit)) :=
  NewProtocolManager (supportAnalyzers Http2Sample.DecodeFull Http2Sample.frame_header 0 tt (λ _, None)).

Notation ctx := (@PartitionContext (HTTP1Metrics + gmap Z HTTP2Streaming * unit) (bpf_room Z Z)
  (expiring Z ProcessVerdict) (shared_map positive) (bpf_room Z ActiveConnection)
  (expiring string bool) unit).

Definition start : ctx :=
  MkPartitionContext ∅ (MkHeap ∅ 1) (MkQueue (MkLogChan [] 0) (MkLogChan [] 0) 100)
    (Sample.mgr (Sample.conn None)).

Fixpoint text (lines : list string) : string :=
  match lines with
  | [] => ""
  | l :: lines => l +:+ String "013"%char (String "010"%char (text lines))
  end.

(** The data with the id [dataID] of the connection 9, and its detail. *)
Definition data (dataID : Z) (s : string) : PartitionEvent :=
  DataReceived (MkSocketDataUploadEvent 1 0 0 1 0 (Z.of_nat (String.length s)) 0 0 9 5 dataID (dataID - 1)
    (Z.of_nat (String.length s)) (bytes_of_string s)).
Definition detail (dataID : Z) : PartitionEvent :=
  DetailReceived (MkSocketDetailEvent 9 5 dataID (10 * dataID) (10 * dataID + 5) 0 0 0 0 0 0 0 0 0 0 0 0 0 64 0 1
    0 0 0 11 1 0).
(** A frame of HTTP/2 on another connection. *)
Definition other : PartitionEvent :=
  DataReceived (MkSocketDataUploadEvent 2 0 0 1 0 9 0 0 10 5 1 0 9 (Http2Sample.frame 0 0 1 [])).

Definition request : string := text ["GET /users HTTP/1.1"; "Host: shop"; ""].
Definition response : string := text ["HTTP/1.1 204 No Content"; ""].

Definition consume (s : ctx) (e : PartitionEvent) : ctx := snd (PartitionContext_Consume protocols 0 e s).
Definition process (s : ctx) : ctx :=
  snd (processConnectionEvents (H := keys_order) protocols 0 (buildConnectionKey 9 5) s).

(** The paths and the status codes of the logs. *)
Definition logs (s : ctx) : list (option (string * Z)) :=
  (λ l, (λ p, (req_Path p, resp_StatusCode p)) <$> ProtocolLogData l) <$> waiting (protocolLogs (pc_queue s)).
End ProtocolsSample.

Example exchange_through_partition :
  let run events := ProtocolsSample.process (foldl ProtocolsSample.consume ProtocolsSample.start events) in
  let data := ProtocolsSample.data in
  let detail := ProtocolsSample.detail in
  ProtocolsSample.logs (run [data 1 ProtocolsSample.request; detail 1; ProtocolsSample.other;
                             data 2 ProtocolsSample.response; detail 2]) = [Some ("/users"%string, 204)] ∧
  ProtocolsSample.logs (run [data 2 ProtocolsSample.response; detail 2; ProtocolsSample.other; detail 1;
                             data 1 ProtocolsSample.request]) = [Some ("/users"%string, 204)] ∧
  ProtocolsSample.logs (run [data 1 ProtocolsSample.request; detail 1; data 2 ProtocolsSample.response]) = [].
Proof. vm_compute. split_and!; reflexivity. Qed.
