(* ===== verification/Elf.v ===== *)
(** * ELF and DWARF

    Models src/pkg/tools/elf: the GNU build id note (buildid.go), the argument
    locations of the Go calling conventions (abi.go, enums.go), the structures,
    classes and functions read from the debug info (structure.go, class.go,
    function.go, dwarf.go, dwarf_init.go).

    The debug info is what [debug/dwarf] gives the code: a flat sequence of entries
    in which a null entry ends a list of children, and the types by offset.  An entry
    that cannot be decoded is [None].  Opening files and reading sections are not
    modelled.

    Shown here: the note parser stops on every input, finds the descriptor of the
    first build id note, and panics exactly on a descriptor size that wraps; the
    locations given to the arguments of a function do not overlap. *)

From stdpp Require Import base gmap list strings.
From Stdlib Require Import ZArith Lia Ascii.
From S2P Require Import Prelude GoStrings Events.

(** ** Build id notes *)

Notation noteTypeGNUBuildID := 3 (only parsing).
Definition noteHeaderSize : nat := 12.

(** [order.Uint32] of the first four bytes: the ELF file's byte order. *)
Inductive ByteOrder : Type := LittleEndian | BigEndian.

Definition order_Uint32 (order : ByteOrder) (b : list Z) : Z :=
  match order with
  | LittleEndian => le_Z (take 4 b)
  | BigEndian => le_Z (reverse (take 4 b))
  end.

(** [(v + 3) &^ 3] in 32 bits. *)
Definition alignNote (v : Z) : Z := Z.ldiff (u32 (v + 3)) 3.

Definition hex_digit (n : Z) : ascii :=
  ascii_of_nat (Z.to_nat (if n <? 10 then 48 + n else 87 + n)).

Fixpoint hex_EncodeToString (b : list Z) : string :=
  match b with
  | [] => EmptyString
  | x :: b' => String (hex_digit (x / 16)) (String (hex_digit (x mod 16)) (hex_EncodeToString b'))
  end.

Inductive note_error : Type := NoBuildIDNote.

(** One round of the loop of [parseBuildIDNote]: the function's result, or the
    data of the next round. *)
Definition note_round (order : ByteOrder) (data : list Z)
  : res note_error string + list Z :=
  if decide (length data < noteHeaderSize)%nat then inl (Err NoBuildIDNote)
  else
    let nameSize := order_Uint32 order data in
    let descSize := order_Uint32 order (drop 4 data) in
    let noteType := order_Uint32 order (drop 8 data) in
    let nameEnd := Z.of_nat noteHeaderSize + alignNote nameSize in
    let descEnd := nameEnd + alignNote descSize in
    if decide (Z.of_nat (length data) < descEnd) then inl (Err NoBuildIDNote)
    else if (noteType =? noteTypeGNUBuildID) && (0 <? descSize) then
      inl (b ← must (reslice (whole data) nameEnd (nameEnd + descSize));
           Ok (hex_EncodeToString (elems b)))
    else inr (drop (Z.to_nat descEnd) data).

(** The loop; [None] when the rounds run out. *)
Fixpoint note_loop (rounds : nat) (order : ByteOrder) (data : list Z)
  : option (res note_error string) :=
  match rounds with
  | O => None
  | S n =>
    match note_round order data with
    | inl r => Some r
    | inr data' => note_loop n order data'
    end
  end.

(** A note is at least its header, so this many rounds always suffice. *)
Definition note_rounds (data : list Z) : nat := S (length data / noteHeaderSize).

Definition parseBuildIDNote (order : ByteOrder) (data : list Z)
  : option (res note_error string) :=
  note_loop (note_rounds data) order data.

(** ** Argument locations *)

Inductive TypeClass : Type :=
| TypeClassNone | TypeClassInteger | TypeClassFloat | TypeClassMixed.
Global Instance TypeClass_dec : EqDecision TypeClass.
Proof. solve_decision. Defined.

Definition Combine (c other : TypeClass) : TypeClass :=
  if decide (c = TypeClassMixed ∨ other = TypeClassMixed) then TypeClassMixed
  else if decide (c = TypeClassNone) then other
  else if decide (other = TypeClassNone) then c
  else if decide (c ≠ other) then TypeClassMixed
  else c.

Inductive LocationType : Type :=
| ArgLocationTypeUnknown | ArgLocationTypeStack | ArgLocationTypeStackBP
| ArgLocationTypeRegister | ArgLocationTypeRegisterFP.
Global Instance LocationType_dec : EqDecision LocationType.
Proof. solve_decision. Defined.

Record ArgLocation : Type := MkArgLocation {
  loc_Type : LocationType;
  loc_Offset : Z
}.

Inductive RegisterName : Type :=
| RAX | RBX | RCX | RDX | RDI | RSI | R8 | R9 | R10 | R11 | XMM (n : nat).

Record GolangRegisterLocator : Type := MkRegisterLocator {
  curStackOffset : Z;
  curIntArgOffset : Z;
  curFloatArgOffset : Z;
  curIntRetArgOffset : Z;
  curFloatRetArgOffset : Z;
  intArgRegisters : list RegisterName;
  floatArgRegisters : list RegisterName;
  intRetArgRegisters : list RegisterName;
  floatRetArgRegisters : list RegisterName
}.

Definition newGolangRegisterLocator : GolangRegisterLocator :=
  let intRegisters := [RAX; RBX; RCX; RDI; RSI; R8; R9; R10; R11] in
  let floatRegisters := XMM <$> seq 0 15 in
  MkRegisterLocator 0 0 0 0 0 intRegisters floatRegisters intRegisters floatRegisters.

Inductive location_error : Type :=
| UnsupportedTypeClass (c : TypeClass)
| UnknownLanguage (l : Z).

(** Division by a zero alignment panics. *)
Definition snapUpToMultiple (curSize alignmentSize : Z) : option Z :=
  if decide (alignmentSize = 0) then None
  else Some (u64 (u64 (curSize + u64 (alignmentSize - 1)) / alignmentSize * alignmentSize)).

(** The registers and the running offset of a kind of argument. *)
Definition register_class (c : TypeClass) (isRet : bool) (g : GolangRegisterLocator)
  : option (list RegisterName * Z * (Z → GolangRegisterLocator)) :=
  let mk i f ir fr := MkRegisterLocator (curStackOffset g) i f ir fr (intArgRegisters g)
    (floatArgRegisters g) (intRetArgRegisters g) (floatRetArgRegisters g) in
  match c, isRet with
  | TypeClassInteger, true => Some (intRetArgRegisters g, curIntRetArgOffset g, λ o,
      mk (curIntArgOffset g) (curFloatArgOffset g) o (curFloatRetArgOffset g))
  | TypeClassInteger, false => Some (intArgRegisters g, curIntArgOffset g, λ o,
      mk o (curFloatArgOffset g) (curIntRetArgOffset g) (curFloatRetArgOffset g))
  | TypeClassFloat, true => Some (floatRetArgRegisters g, curFloatRetArgOffset g, λ o,
      mk (curIntArgOffset g) (curFloatArgOffset g) (curIntRetArgOffset g) o)
  | TypeClassFloat, false => Some (floatArgRegisters g, curFloatArgOffset g, λ o,
      mk (curIntArgOffset g) o (curIntRetArgOffset g) (curFloatRetArgOffset g))
  | _, _ => None
  end.

Definition set_stack (o : Z) (g : GolangRegisterLocator) : GolangRegisterLocator :=
  MkRegisterLocator o (curIntArgOffset g) (curFloatArgOffset g) (curIntRetArgOffset g)
    (curFloatRetArgOffset g) (intArgRegisters g) (floatArgRegisters g) (intRetArgRegisters g)
    (floatRetArgRegisters g).

Definition Register_GetLocation (c : TypeClass) (typeSize alignmentSize primitivesCount : Z)
    (isRetArg : bool) : act GolangRegisterLocator location_error ArgLocation :=
  g ← get;
  match register_class c isRetArg g with
  | None => raise (UnsupportedTypeClass c)
  | Some (registers, offset, set_offset) =>
    if primitivesCount <=? Z.of_nat (length registers) then
      put (set_offset (u64 (offset + u64 (primitivesCount * 8))));;
      mret (MkArgLocation
        (if decide (c = TypeClassInteger) then ArgLocationTypeRegister
         else ArgLocationTypeRegisterFP) offset)
    else
      cur ← lift (must (snapUpToMultiple (curStackOffset g) alignmentSize));
      put (set_stack (u64 (cur + typeSize)) g);;
      mret (MkArgLocation ArgLocationTypeStack cur)
  end.

Definition Stack_GetLocation (typeSize alignmentSize : Z) : act Z location_error ArgLocation :=
  g ← get;
  cur ← lift (must (snapUpToMultiple g alignmentSize));
  put (u64 (cur + typeSize));;
  mret (MkArgLocation ArgLocationTypeStack cur).

(** The argument locators. *)
Inductive ArgumentLocator : Type :=
| RegisterLocator (g : GolangRegisterLocator)
| StackLocator (curStackOffset : Z)
| UnknownLocator (language : Z).

Notation ReaderLanguageGolang := 22 (only parsing).

Definition NewArgumentLocator (producer : string) (language : Z) : ArgumentLocator :=
  if language =? ReaderLanguageGolang then
    if Contains producer "regabi" then RegisterLocator newGolangRegisterLocator
    else StackLocator 0
  else UnknownLocator language.

Definition GetLocation (c : TypeClass) (typeSize alignmentSize primitivesCount : Z)
    (isRetArg : bool) : act ArgumentLocator location_error ArgLocation := λ l,
  match l with
  | RegisterLocator g =>
    let '(r, g') := Register_GetLocation c typeSize alignmentSize primitivesCount isRetArg g in
    (r, RegisterLocator g')
  | StackLocator o =>
    let '(r, o') := Stack_GetLocation typeSize alignmentSize o in (r, StackLocator o')
  | UnknownLocator language => (Err (UnknownLanguage language), l)
  end.

(** ** Debug info *)

Inductive dwarf_tag : Type :=
| TagNull | TagCompileUnit | TagSubprogram | TagStructType | TagClassType
| TagInheritance | TagMember | TagFormalParameter | TagOther.
Global Instance dwarf_tag_dec : EqDecision dwarf_tag.
Proof. solve_decision. Defined.

(** The attributes the code reads, present when they have the expected Go type. *)
Record Entry : Type := MkEntry {
  Tag : dwarf_tag;
  AttrName : option string;
  AttrProducer : option string;
  AttrLanguage : option Z;
  AttrByteSize : option Z;
  AttrDataMemberLoc : option Z;
  AttrType : option Z;
  AttrVarParam : option bool;
  AttrDeclaration : option bool
}.

(** The types of [debug/dwarf]; a pointer names its target by offset, since types
    can be cyclic through pointers only. *)
Inductive dwarf_type : Type :=
| FloatType
| BasicType (byteSize : Z)
| StructType (structName : string) (structSize : Z) (fields : list (string * Z * dwarf_type))
| PtrType (target : Z)
| OtherType.

Record dwarf_data : Type := MkDwarfData {
  dw_entries : list (option Entry);
  dw_types : gmap Z dwarf_type
}.

Inductive dwarf_error : Type :=
| BadEntry
| BadType (off : Z)
| NoProducer
| NoLanguage
| NoLocation (e : location_error).

Record StructureFieldInfo : Type := MkStructureField {
  field_Name : string;
  field_Offset : Z
}.

Record StructureInfo : Type := MkStructureInfo {
  structure_name : string;
  structure_size : Z;
  structure_fields : list StructureFieldInfo
}.

Definition GetField (name : string) (s : StructureInfo) : option StructureFieldInfo :=
  list_find (λ f, field_Name f = name) (structure_fields s) ≫= λ x, Some (snd x).

Definition HasFields (names : list string) (s : StructureInfo) : bool :=
  forallb (λ n, bool_decide (is_Some (GetField n s))) names.

Record ClassInheritance : Type := MkClassInheritance {
  inheritance_name : string;
  inheritance_type : dwarf_type;
  inheritance_offset : Z
}.

Record ClassInfo : Type := MkClassInfo {
  class_name : string;
  inheritances : list ClassInheritance;
  members : list (string * Z * dwarf_type)
}.

Definition GetInheritanceOffset (name : string) (c : ClassInfo) : Z :=
  match list_find (λ i, inheritance_name i = name) (inheritances c) with
  | Some (_, i) => i64 (inheritance_offset i)
  | None => -1
  end.

Definition GetMemberOffset (name : string) (c : ClassInfo) : Z :=
  match list_find (λ m, fst (fst m) = name) (members c) with
  | Some (_, (_, off, _)) => off
  | None => -1
  end.

Record FunctionArgsInfo : Type := MkFunctionArgs {
  arg_tp : option dwarf_type;
  arg_IsRet : bool;
  arg_Location : ArgLocation
}.

Record FunctionInfo : Type := MkFunctionInfo {
  function_name : string;
  function_args : gmap string FunctionArgsInfo
}.

Record DwarfReader : Type := MkDwarfReader {
  dw_producer : string;
  dw_language : Z;
  functions : gmap string FunctionInfo;
  structures : gmap string (list StructureInfo);
  classes : gmap string ClassInfo
}.

Definition entryType (data : dwarf_data) (entry : Entry) : res dwarf_error (option dwarf_type) :=
  match AttrType entry with
  | None => Ok None
  | Some off =>
    match dw_types data !! off with
    | Some t => Ok (Some t)
    | None => Err (BadType off)
    end
  end.

Definition IsRetArgs (entry : Entry) : bool := default false (AttrVarParam entry).

Fixpoint type_class (tp : dwarf_type) : TypeClass :=
  match tp with
  | FloatType => TypeClassFloat
  | StructType _ _ fields => foldl (λ c f, Combine c (type_class (snd f))) TypeClassNone fields
  | _ => TypeClassInteger
  end.
Definition getArgTypeClass (tp : option dwarf_type) : TypeClass :=
  match tp with Some tp => type_class tp | None => TypeClassInteger end.

Definition getArgTypeByteSize (tp : option dwarf_type) : Z :=
  match tp with
  | Some (BasicType byteSize) => u64 byteSize
  | Some (StructType _ byteSize _) => u64 byteSize
  | _ => 8
  end.

Fixpoint type_alignment (tp : dwarf_type) : Z :=
  match tp with
  | BasicType byteSize => u64 byteSize
  | StructType _ _ fields =>
    foldl (λ maxSize f, let curSize := type_alignment (snd f) in
                        if maxSize <? curSize then curSize else maxSize) 1 fields
  | _ => 8
  end.
Definition getArgAlignmentByteSize (tp : option dwarf_type) : Z :=
  match tp with Some tp => type_alignment tp | None => 8 end.

Fixpoint primitive_count (tp : dwarf_type) : Z :=
  match tp with
  | StructType _ _ fields => foldl (λ n f, n + primitive_count (snd f)) 0 fields
  | _ => 1
  end.
Definition getPrimitiveFieldCount (tp : option dwarf_type) : Z :=
  match tp with Some tp => primitive_count tp | None => 1 end.

(** The loops over the children of an entry: [l] is what the reader still holds. *)
Fixpoint structure_loop (l : list (option Entry)) (res : list StructureFieldInfo)
  : Prelude.res dwarf_error (list StructureFieldInfo) :=
  match l with
  | [] => Ok res
  | None :: _ => Err BadEntry
  | Some child :: l' =>
    if decide (Tag child = TagNull) then Ok res
    else if negb (bool_decide (Tag child = TagMember)) then structure_loop l' res
    else
      match AttrName child, AttrDataMemberLoc child with
      | Some name, Some offset => structure_loop l' (res ++ [MkStructureField name offset])
      | _, _ => structure_loop l' res
      end
  end.

Definition getStructureFields (data : dwarf_data) (i : nat)
  : res dwarf_error (list StructureFieldInfo) :=
  structure_loop (drop (S i) (dw_entries data)) [].

Definition class_inherit (data : dwarf_data) (child : Entry) (c : ClassInfo) : option ClassInfo :=
  if negb (bool_decide (Tag child = TagInheritance)) then Some c
  else
    match AttrDataMemberLoc child, entryType data child with
    | Some offset, Ok (Some (StructType name sz fields)) =>
      Some (MkClassInfo (class_name c)
        (inheritances c ++ [MkClassInheritance name (StructType name sz fields) (u64 offset)])
        (members c))
    | _, _ => None
    end.

Fixpoint class_loop (data : dwarf_data) (l : list (option Entry)) (foundMembers : bool)
    (c : ClassInfo) : res dwarf_error ClassInfo :=
  match l with
  | [] => Ok c
  | None :: _ => Err BadEntry
  | Some child :: l' =>
    if decide (Tag child = TagNull) then Ok c
    else
      match class_inherit data child c with
      | None => class_loop data l' foundMembers c
      | Some c =>
        match foundMembers, entryType data child with
        | false, Ok (Some (PtrType target)) =>
          match dw_types data !! target with
          | Some (StructType _ _ fields) =>
            class_loop data l' true (MkClassInfo (class_name c) (inheritances c) fields)
          | _ => class_loop data l' foundMembers c
          end
        | _, _ => class_loop data l' foundMembers c
        end
      end
  end.

Definition getClassInfo (data : dwarf_data) (name : string) (i : nat)
  : res dwarf_error ClassInfo :=
  class_loop data (drop (S i) (dw_entries data)) false (MkClassInfo name [] []).

(** The location of an argument, and the locator for the next one. *)
Definition argument (data : dwarf_data) (language : Z) (child : Entry) (l : ArgumentLocator)
  : res dwarf_error (FunctionArgsInfo * ArgumentLocator) :=
  dtyp ← entryType data child;
  let isRet := if language =? ReaderLanguageGolang then IsRetArgs child else false in
  match GetLocation (getArgTypeClass dtyp) (getArgTypeByteSize dtyp)
          (getArgAlignmentByteSize dtyp) (getPrimitiveFieldCount dtyp) isRet l with
  | (Ok location, l') => Ok (MkFunctionArgs dtyp isRet location, l')
  | (Err e, _) => Err (NoLocation e)
  | (Panic, _) => Panic
  end.

Fixpoint args_loop (data : dwarf_data) (language : Z) (l : list (option Entry))
    (locator : ArgumentLocator) (args : gmap string FunctionArgsInfo)
  : res dwarf_error (gmap string FunctionArgsInfo) :=
  match l with
  | [] => Ok args
  | None :: _ => Err BadEntry
  | Some child :: l' =>
    if decide (Tag child = TagNull) then Ok args
    else if negb (bool_decide (Tag child = TagFormalParameter))
    then args_loop data language l' locator args
    else
      match AttrName child with
      | None => args_loop data language l' locator args
      | Some name =>
        if decide (is_Some (args !! name)) then args_loop data language l' locator args
        else
          '(curArgs, locator') ← argument data language child locator;
          args_loop data language l' locator' (<[name := curArgs]> args)
      end
  end.

Definition getFunctionArgs (data : dwarf_data) (i : nat) (r : DwarfReader)
  : res dwarf_error (gmap string FunctionArgsInfo) :=
  args_loop data (dw_language r) (drop (S i) (dw_entries data))
    (NewArgumentLocator (dw_producer r) (dw_language r)) ∅.

Definition processProducer (entry : Entry) (r : DwarfReader) : res dwarf_error DwarfReader :=
  if negb (bool_decide (Tag entry = TagCompileUnit)) then Ok r
  else
    match AttrProducer entry, AttrLanguage entry with
    | None, _ => Err NoProducer
    | _, None => Err NoLanguage
    | Some producer, Some language =>
      Ok (MkDwarfReader producer language (functions r) (structures r) (classes r))
    end.

Definition processFunctions (names : list string) (data : dwarf_data) (i : nat) (entry : Entry)
    (r : DwarfReader) : res dwarf_error DwarfReader :=
  match Tag entry, AttrName entry with
  | TagSubprogram, Some name =>
    if decide (name ∈ names) then
      args ← getFunctionArgs data i r;
      Ok (MkDwarfReader (dw_producer r) (dw_language r)
            (<[name := MkFunctionInfo name args]> (functions r)) (structures r) (classes r))
    else Ok r
  | _, _ => Ok r
  end.

Definition processStructure (names : list string) (data : dwarf_data) (i : nat) (entry : Entry)
    (r : DwarfReader) : res dwarf_error DwarfReader :=
  match Tag entry, AttrName entry with
  | TagStructType, Some name =>
    if decide (name ∈ names) then
      fields ← getStructureFields data i;
      let structure := MkStructureInfo name (default 0 (AttrByteSize entry)) fields in
      Ok (MkDwarfReader (dw_producer r) (dw_language r) (functions r)
            (<[name := default [] (structures r !! name) ++ [structure]]> (structures r))
            (classes r))
    else Ok r
  | _, _ => Ok r
  end.

Definition processClass (names : list string) (data : dwarf_data) (i : nat) (entry : Entry)
    (r : DwarfReader) : res dwarf_error DwarfReader :=
  match Tag entry, AttrName entry, AttrDeclaration entry with
  | TagClassType, Some name, None =>
    if decide (name ∈ names) then
      info ← getClassInfo data name i;
      Ok (MkDwarfReader (dw_producer r) (dw_language r) (functions r) (structures r)
            (<[name := info]> (classes r)))
    else Ok r
  | _, _, _ => Ok r
  end.

(** [init]: the entries from the [i]-th on. *)
Fixpoint init_loop (names : list string) (data : dwarf_data) (i : nat) (l : list (option Entry))
    (r : DwarfReader) : res dwarf_error DwarfReader :=
  match l with
  | [] => Ok r
  | None :: _ => Err BadEntry
  | Some entry :: l' =>
    r ← processProducer entry r;
    r ← processFunctions names data i entry r;
    r ← processStructure names data i entry r;
    r ← processClass names data i entry r;
    init_loop names data (S i) l' r
  end.

Definition NewDwarfReader (names : list string) (data : dwarf_data) : res dwarf_error DwarfReader :=
  init_loop names data 0 (dw_entries data) (MkDwarfReader "" 0 ∅ ∅ ∅).

Definition GetStructures (name : string) (r : DwarfReader) : list StructureInfo :=
  default [] (structures r !! name).

Definition GetStructure (name : string) (r : DwarfReader) : option StructureInfo :=
  head (GetStructures name r).

Definition FindStructure (name : string) (requiredMembers : list string) (r : DwarfReader)
  : option StructureInfo :=
  find (HasFields requiredMembers) (GetStructures name r).

Inductive lookup_error : Type :=
| StructNotFound (s : string) | FieldNotFound (s f : string)
| ClassNotFound (c : string) | ParentNotFound (c p : string) | MemberNotFound (c m : string).

Definition GetStructMemberOffset (structName memberName : string) (r : DwarfReader)
  : res lookup_error Z :=
  match GetStructure structName r with
  | None => Err (StructNotFound structName)
  | Some s =>
    match GetField memberName s with
    | None => Err (FieldNotFound structName memberName)
    | Some f => Ok (u64 (field_Offset f))
    end
  end.

Definition GetClassParentOffset (className parentClassName : string) (r : DwarfReader)
  : res lookup_error Z :=
  match classes r !! className with
  | None => Err (ClassNotFound className)
  | Some c =>
    let offset := GetInheritanceOffset parentClassName c in
    if 0 <=? offset then Ok (u64 offset) else Err (ParentNotFound className parentClassName)
  end.

Definition GetClassMemberOffset (className memberName : string) (r : DwarfReader)
  : res lookup_error Z :=
  match classes r !! className with
  | None => Err (ClassNotFound className)
  | Some c =>
    let offset := GetMemberOffset memberName c in
    if 0 <=? offset then Ok (u64 offset) else Err (MemberNotFound className memberName)
  end.

(** ** Specification: a section of notes *)

Record note : Type := MkNote {
  note_name : list Z;
  note_desc : list Z;
  note_type : Z
}.

Definition enc32 (order : ByteOrder) (v : Z) : list Z :=
  match order with LittleEndian => le_bytes 4 v | BigEndian => reverse (le_bytes 4 v) end.

(** The format of notes: a field is followed by zeros up to the next multiple
    of four bytes. *)
Definition padded (b : list Z) : list Z := b ++ replicate ((4 - length b mod 4) mod 4)%nat 0.

Definition encode_note (order : ByteOrder) (n : note) : list Z :=
  enc32 order (Z.of_nat (length (note_name n))) ++ enc32 order (Z.of_nat (length (note_desc n))) ++
  enc32 order (note_type n) ++ padded (note_name n) ++ padded (note_desc n).

Definition note_ok (n : note) : Prop :=
  Z.of_nat (length (note_name n)) ≤ 2 ^ 32 - 4 ∧ Z.of_nat (length (note_desc n)) ≤ 2 ^ 32 - 4 ∧
  0 ≤ note_type n < 2 ^ 32.

Definition is_build_id (n : note) : bool :=
  (note_type n =? 3) && negb (bool_decide (note_desc n = [])).

(** ** Specification: the layout of arguments *)

(** What a parameter asks of a locator. *)
Record arg_request : Type := MkArgRequest {
  req_class : TypeClass;
  req_size : Z;
  req_align : Z;
  req_count : Z;
  req_ret : bool
}.

Fixpoint locate (reqs : list arg_request)
  : act GolangRegisterLocator location_error (list ArgLocation) :=
  match reqs with
  | [] => mret []
  | q :: reqs' =>
    loc ← Register_GetLocation (req_class q) (req_size q) (req_align q) (req_count q) (req_ret q);
    locs ← locate reqs';
    mret (loc :: locs)
  end.

(** The storage an argument takes: the stack, or a class of registers. *)
Definition storage (q : arg_request) (loc : ArgLocation) : option (TypeClass * bool) :=
  if decide (loc_Type loc = ArgLocationTypeStack) then None else Some (req_class q, req_ret q).

Definition extent (q : arg_request) (loc : ArgLocation) : Z :=
  if decide (loc_Type loc = ArgLocationTypeStack) then req_size q else 8 * req_count q.

(** The second argument lies behind the first one when they share storage. *)
Definition placed_before (a b : arg_request * ArgLocation) : Prop :=
  storage (fst a) (snd a) = storage (fst b) (snd b) →
  loc_Offset (snd a) + extent (fst a) (snd a) ≤ loc_Offset (snd b).

Definition request_ok (q : arg_request) : Prop :=
  (req_class q = TypeClassInteger ∨ req_class q = TypeClassFloat) ∧
  0 ≤ req_size q ∧ 0 < req_align q ∧ 0 ≤ req_count q.

(** An upper bound of the storage a parameter takes. *)
Definition request_cost (q : arg_request) : Z := req_size q + req_align q + 8 * req_count q.
Definition total_cost (reqs : list arg_request) : Z := foldr (λ q n, request_cost q + n) 0 reqs.

(** ** Notes *)

Lemma alignNote_nonneg v : 0 ≤ alignNote v.
Proof. unfold alignNote. apply Z.ldiff_nonneg. left. unfold u32. apply Z.mod_pos_bound. lia. Qed.

Lemma alignNote_up v : 0 ≤ v ≤ 2 ^ 32 - 4 → v ≤ alignNote v ≤ v + 3.
Proof.
  intros Hv. unfold alignNote, u32. rewrite Z.mod_small by lia.
  change 3 with (Z.ones 2) at 2 4. rewrite Z.ldiff_ones_r, Z.shiftl_mul_pow2, Z.shiftr_div_pow2 by lia.
  change (2 ^ 2) with 4. pose proof (Z.div_mod (v + 3) 4). pose proof (Z.mod_pos_bound (v + 3) 4). lia.
Qed.

(** The parser's rounding is the padding of the format. *)
Lemma alignNote_padded b :
  Z.of_nat (length b) ≤ 2 ^ 32 - 4 → alignNote (Z.of_nat (length b)) = Z.of_nat (length (padded b)).
Proof.
  intros Hb. unfold padded, alignNote, u32. rewrite length_app, length_replicate, Z.mod_small by lia.
  change 3 with (Z.ones 2) at 2. rewrite Z.ldiff_ones_r, Z.shiftl_mul_pow2, Z.shiftr_div_pow2 by lia.
  change (2 ^ 2) with 4. remember (length b) as k.
  pose proof (Nat.div_mod_eq k 4). pose proof (Nat.mod_upper_bound k 4).
  assert (k mod 4 = 0 ∨ k mod 4 = 1 ∨ k mod 4 = 2 ∨ k mod 4 = 3)%nat as Hk by lia.
  pose proof (Z.div_mod (Z.of_nat k + 3) 4). pose proof (Z.mod_pos_bound (Z.of_nat k + 3) 4).
  destruct Hk as [Hk|[Hk|[Hk|Hk]]]; rewrite Hk; simpl; lia.
Qed.

Lemma note_round_shrinks order data data' :
  note_round order data = inr data' → (length data' + noteHeaderSize ≤ length data)%nat.
Proof.
  unfold note_round. intros H. repeat case_decide; repeat case_match; simplify_eq.
  rewrite length_drop. unfold noteHeaderSize in *.
  pose proof (alignNote_nonneg (order_Uint32 order data)).
  pose proof (alignNote_nonneg (order_Uint32 order (drop 4 data))). lia.
Qed.

Lemma note_round_panics order data :
  note_round order data = inl Panic → 2 ^ 32 - 4 < order_Uint32 order (drop 4 data).
Proof.
  unfold note_round. intros H. repeat case_decide; try done.
  destruct (_ && _) eqn:Hc; simplify_eq. apply andb_prop in Hc as [_ Hd%Z.ltb_lt].
  destruct (Z.lt_ge_cases (2 ^ 32 - 4) (order_Uint32 order (drop 4 data))) as [|Hle]; [done|].
  exfalso. revert H. unfold reslice. simpl.
  pose proof (alignNote_nonneg (order_Uint32 order data)).
  pose proof (alignNote_up (order_Uint32 order (drop 4 data))).
  rewrite decide_True; [done|]. unfold noteHeaderSize in *. lia.
Qed.

Lemma note_loop_stops rounds order data :
  (length data < rounds * noteHeaderSize)%nat →
  ∃ r, note_loop rounds order data = Some r ∧
    (r = Panic → ∃ k, 2 ^ 32 - 4 < order_Uint32 order (drop (k + 4) data)).
Proof.
  revert data. induction rounds as [|n IH]; intros data Hlen; [unfold noteHeaderSize in Hlen; lia|].
  cbn [note_loop]. destruct (note_round order data) as [r|data'] eqn:Hr.
  - exists r. split; [done|]. intros ->. exists 0%nat. by apply note_round_panics.
  - pose proof (note_round_shrinks _ _ _ Hr). destruct (IH data') as (r & Hl & Hp).
    { unfold noteHeaderSize in *. lia. }
    exists r. split; [done|]. intros [k Hk]%Hp. unfold note_round in Hr.
    repeat case_decide; repeat case_match; simplify_eq. rewrite drop_drop in Hk.
    eexists (_ + k)%nat. rewrite <-Nat.add_assoc. exact Hk.
Qed.

Lemma order_Uint32_enc order v rest :
  0 ≤ v < 2 ^ 32 → order_Uint32 order (enc32 order v ++ rest) = v.
Proof.
  intros Hv. destruct order; unfold order_Uint32, enc32;
    rewrite take_app_length' by (by rewrite ?length_reverse, le_bytes_length);
    rewrite ?reverse_involutive; by apply le_Z_bytes.
Qed.

Lemma length_enc32 order v : length (enc32 order v) = 4%nat.
Proof. destruct order; simpl; by rewrite ?length_reverse. Qed.

Lemma length_padded b :
  Z.of_nat (length b) ≤ 2 ^ 32 - 4 → length (padded b) = Z.to_nat (alignNote (Z.of_nat (length b))).
Proof. intros Hb. rewrite alignNote_padded by done. lia. Qed.

Lemma note_header order n rest (H : note_ok n) :
  let data := encode_note order n ++ rest in
  order_Uint32 order data = Z.of_nat (length (note_name n)) ∧
  order_Uint32 order (drop 4 data) = Z.of_nat (length (note_desc n)) ∧
  order_Uint32 order (drop 8 data) = note_type n ∧
  drop 12 data = padded (note_name n) ++ padded (note_desc n) ++ rest.
Proof.
  destruct H as (Hn & Hd & Ht). unfold encode_note. simpl. rewrite <-!app_assoc.
  split_and!.
  - by rewrite order_Uint32_enc by lia.
  - rewrite drop_app_length' by (by rewrite length_enc32). by rewrite order_Uint32_enc by lia.
  - change 8%nat with (4 + 4)%nat. rewrite <-drop_drop.
    do 2 (rewrite drop_app_length' by (by rewrite length_enc32)). by rewrite order_Uint32_enc by lia.
  - change 12%nat with (4 + (4 + 4))%nat. rewrite <-!drop_drop.
    by do 3 (rewrite drop_app_length' by (by rewrite length_enc32)).
Qed.

Lemma length_encode_note order n :
  note_ok n → length (encode_note order n) =
    (12 + length (padded (note_name n)) + length (padded (note_desc n)))%nat.
Proof. intros H. unfold encode_note. rewrite !length_app, !length_enc32. lia. Qed.

Lemma note_round_encoded order n rest :
  note_ok n →
  note_round order (encode_note order n ++ rest) =
    if is_build_id n then inl (Ok (hex_EncodeToString (note_desc n))) else inr rest.
Proof.
  intros Hok. destruct (note_header order n rest Hok) as (Hname & Hdesc & Htype & Hbody).
  pose proof (length_encode_note order n Hok) as Hlen. destruct Hok as (Hn & Hd & Ht).
  rewrite !length_padded in Hlen by done.
  pose proof (alignNote_up (Z.of_nat (length (note_name n)))).
  pose proof (alignNote_up (Z.of_nat (length (note_desc n)))).
  unfold note_round. rewrite Hname, Hdesc, Htype.
  rewrite decide_False by (unfold noteHeaderSize; rewrite length_app; lia).
  rewrite decide_False by (unfold noteHeaderSize; rewrite length_app; lia).
  assert (Hpos : (0 <? Z.of_nat (length (note_desc n))) = negb (bool_decide (note_desc n = []))).
  { destruct (note_desc n); [done|]. by apply Z.ltb_lt; simpl; lia. }
  unfold is_build_id. rewrite Hpos. destruct (_ && _).
  - unfold reslice. cbn [whole s_arr s_len].
    rewrite decide_True by (unfold noteHeaderSize; rewrite length_app; lia). simpl. f_equal. f_equal.
    f_equal. unfold elems. cbn [s_arr s_len].
    rewrite Z2Nat.inj_add, <-drop_drop by (unfold noteHeaderSize; lia).
    change (Z.to_nat (Z.of_nat noteHeaderSize)) with 12%nat. rewrite Hbody.
    rewrite drop_app_length' by (by rewrite length_padded).
    unfold padded at 1. rewrite <-app_assoc, take_app_length'; [done|lia].
  - f_equal. rewrite !Z2Nat.inj_add by (unfold noteHeaderSize; lia).
    change (Z.to_nat (Z.of_nat noteHeaderSize)) with 12%nat.
    rewrite <-!drop_drop, Hbody.
    by rewrite !drop_app_length' by (by rewrite length_padded).
Qed.

Lemma note_loop_encoded rounds order notes tail :
  Forall note_ok notes → (length tail < noteHeaderSize)%nat → (length notes < rounds)%nat →
  note_loop rounds order ((notes ≫= encode_note order) ++ tail) =
    Some (match find is_build_id notes with
          | Some n => Ok (hex_EncodeToString (note_desc n))
          | None => Err NoBuildIDNote
          end).
Proof.
  intros Hok Htail. revert rounds. induction Hok as [|n notes Hn _ IH]; intros [|k] Hk; simpl in Hk;
    [lia| |lia|].
  - cbn [note_loop]. simpl. unfold note_round. by rewrite decide_True.
  - cbn [note_loop mbind list_bind find]. rewrite <-app_assoc, note_round_encoded by done.
    destruct (is_build_id n); [done|]. apply IH. lia.
Qed.

Lemma notes_length order notes :
  Forall note_ok notes → (12 * length notes ≤ length (notes ≫= encode_note order))%nat.
Proof.
  induction 1 as [|n notes Hn _ IH]; [done|]. rewrite bind_cons, length_app.
  rewrite length_encode_note by done. cbn [length]. lia.
Qed.

(** The build id parser returns on every input: the rounds it is given are
    enough whatever the section holds.  It panics only if some note claims a
    descriptor of more than 2^32 - 4 bytes, whose aligned size wraps to zero. *)
Theorem parseBuildIDNote_total order data :
  ∃ r, parseBuildIDNote order data = Some r ∧
    (r = Panic → ∃ k, 2 ^ 32 - 4 < order_Uint32 order (drop (k + 4) data)).
Proof.
  apply note_loop_stops. unfold note_rounds.
  pose proof (Nat.div_mod (length data) noteHeaderSize).
  pose proof (Nat.mod_upper_bound (length data) noteHeaderSize).
  unfold noteHeaderSize in *. lia.
Qed.

(** C38: On a section made of notes whose fields are padded to multiples of four
    bytes (with sizes of at most 2^32 - 4), in either byte order and with fewer
    than twelve bytes behind them, the parser gives the hexadecimal descriptor of
    the first note of type 3, whatever its name, with a non-empty descriptor, and
    the error when there is none. *)
Theorem parseBuildIDNote_notes order notes tail :
  Forall note_ok notes → (length tail < noteHeaderSize)%nat →
  parseBuildIDNote order ((notes ≫= encode_note order) ++ tail) =
    Some (match find is_build_id notes with
          | Some n => Ok (hex_EncodeToString (note_desc n))
          | None => Err NoBuildIDNote
          end).
Proof.
  intros Hok Htail. apply note_loop_encoded; [done..|]. unfold note_rounds.
  rewrite length_app. pose proof (notes_length order notes Hok).
  assert (length notes ≤ (length (notes ≫= encode_note order) + length tail) / noteHeaderSize)%nat;
    [|lia].
  apply Nat.div_le_lower_bound; unfold noteHeaderSize; lia.
Qed.

Definition gnu_note : note := MkNote [71; 78; 85; 0] [0x33; 0xcf; 0x05; 0xaf; 0x01] 3.

Lemma parseBuildIDNote_notes_witness :
  parseBuildIDNote BigEndian
    (([MkNote [71; 79] [1; 2; 3] 4; gnu_note] ≫= encode_note BigEndian) ++ [9; 9]) =
    Some (Ok "33cf05af01").
Proof.
  rewrite parseBuildIDNote_notes; [done| |by vm_compute; lia].
  repeat constructor; simpl; lia.
Defined.

(** A note with a descriptor size of 2^32 - 1 is read past the end of the section. *)
Example oversized_descriptor_panics :
  parseBuildIDNote LittleEndian (le_bytes 4 0 ++ le_bytes 4 (2 ^ 32 - 1) ++ le_bytes 4 3) =
    Some Panic.
Proof. by vm_compute. Qed.

(** ** Argument locations *)

(** Where the next argument of a storage goes. *)
Definition limit (g : GolangRegisterLocator) (st : option (TypeClass * bool)) : Z :=
  match st with
  | Some (TypeClassInteger, false) => curIntArgOffset g
  | Some (TypeClassInteger, true) => curIntRetArgOffset g
  | Some (TypeClassFloat, false) => curFloatArgOffset g
  | Some (TypeClassFloat, true) => curFloatRetArgOffset g
  | _ => curStackOffset g
  end.

Definition below (g : GolangRegisterLocator) (bound : Z) : Prop := ∀ st, 0 ≤ limit g st ≤ bound.

(** The limits of every storage. *)
Ltac limits Hb :=
  pose proof (Hb None); pose proof (Hb (Some (TypeClassInteger, true)));
  pose proof (Hb (Some (TypeClassInteger, false))); pose proof (Hb (Some (TypeClassFloat, true)));
  pose proof (Hb (Some (TypeClassFloat, false))); simpl in *.

Lemma snapUp_spec cur align :
  0 ≤ cur → 0 < align → cur + align < 2 ^ 64 →
  ∃ s, snapUpToMultiple cur align = Some s ∧ cur ≤ s < cur + align ∧ (align | s).
Proof.
  intros Hc Ha Hb. unfold snapUpToMultiple. rewrite decide_False by lia.
  eexists; split; [done|]. unfold u64. rewrite (Z.mod_small (align - 1)) by lia.
  rewrite (Z.mod_small (cur + _)) by lia.
  pose proof (Z.div_mod (cur + (align - 1)) align). pose proof (Z.mod_pos_bound (cur + (align - 1)) align).
  set (d := (cur + (align - 1)) / align) in *.
  assert (cur ≤ d * align < cur + align) by lia. rewrite Z.mod_small by lia.
  split; [done|]. by exists d.
Qed.

Lemma GetLocation_step q g bound :
  request_ok q → below g bound → bound + request_cost q < 2 ^ 64 →
  wp (Register_GetLocation (req_class q) (req_size q) (req_align q) (req_count q) (req_ret q))
    (λ loc g', limit g (storage q loc) ≤ loc_Offset loc ∧
       loc_Offset loc + extent q loc = limit g' (storage q loc) ∧
       (∀ st, limit g st ≤ limit g' st) ∧ below g' (bound + request_cost q)) g.
Proof.
  intros (Hc & Hs & Ha & Hn) Hb Hbound. unfold Register_GetLocation, request_cost in *. wp_steps.
  pose proof (Hb None) as Hstack. cbn [limit] in Hstack.
  destruct (register_class _ _ g) as [[[regs off] setoff]|] eqn:Hr;
    [|destruct Hc as [Hc|Hc]; rewrite Hc in Hr; by destruct (req_ret q)].
  destruct (_ <=? _).
  - wp_steps. unfold storage, extent. cbn [loc_Type loc_Offset].
    rewrite !decide_False by (by destruct (decide _)).
    pose proof (Hb (Some (req_class q, req_ret q))) as Ho.
    assert (off = limit g (Some (req_class q, req_ret q))) as ->.
    { destruct Hc as [Hc|Hc]; rewrite Hc in Hr |- *; destruct (req_ret q); by simplify_eq/=. }
    unfold u64. rewrite !Z.mod_small by (rewrite ?Z.mod_small; lia).
    destruct Hc as [Hc|Hc]; rewrite Hc in Hr, Ho |- *; destruct (req_ret q); simplify_eq/=;
      (split_and!; [lia..| |]; intros [[[] []]|]; limits Hb; lia).
  - destruct (snapUp_spec (curStackOffset g) (req_align q)) as (s & Hsn & Hs1 & _); [lia..|].
    apply wp_bind. eapply wp_must; [exact Hsn|]. wp_steps.
    unfold storage, extent. cbn [loc_Type loc_Offset]. rewrite !decide_True by done.
    unfold u64. rewrite Z.mod_small by lia.
    split_and!; [simpl; lia..| |]; intros [[[] []]|]; limits Hb; lia.
Qed.

Lemma locate_ordered reqs g bound :
  Forall request_ok reqs → below g bound → bound + total_cost reqs < 2 ^ 64 →
  wp (locate reqs) (λ locs _, length locs = length reqs ∧
    Forall (λ p, limit g (storage (fst p) (snd p)) ≤ loc_Offset (snd p)) (zip reqs locs) ∧
    List.ForallOrdPairs placed_before (zip reqs locs)) g.
Proof.
  intros Hok. revert g bound. induction Hok as [|q reqs Hq Hreqs IH]; intros g bound Hb Hs.
  { wp_steps. repeat constructor. }
  cbn [locate]. apply wp_bind.
  change (total_cost (q :: reqs)) with (request_cost q + total_cost reqs) in Hs.
  eapply wp_mono; [apply GetLocation_step; [done..|]|].
  { assert (0 ≤ total_cost reqs); [|lia]. clear -Hreqs.
    induction Hreqs as [|q reqs (_ & ? & ? & ?) ? IH]; unfold total_cost, request_cost in *; simpl; lia. }
  intros loc g' (Hlo & Hhi & Hmono & Hb'). apply wp_bind.
  eapply wp_mono; [eapply IH; [exact Hb'|lia]|]. intros locs g'' (Hlen & Hafter & Hord). wp_steps.
  split_and!; simpl; [by rewrite Hlen| |].
  - constructor; [done|]. eapply Forall_impl; [done|]. simpl. intros [q' loc'] ?. simpl in *.
    specialize (Hmono (storage q' loc')). lia.
  - constructor; [|done]. eapply Forall_impl; [done|]. intros [q' loc'] ? Heq. simpl in *.
    rewrite Heq in Hhi. lia.
Qed.

(** The register locator gives every parameter of a function a location, and no
    two parameters in the same storage overlap: a later one lies behind the earlier
    one, in the integer or float registers of arguments or results, or on the stack. *)
Theorem arguments_disjoint reqs :
  Forall request_ok reqs → total_cost reqs < 2 ^ 64 →
  ∃ locs g, locate reqs newGolangRegisterLocator = (Ok locs, g) ∧
    length locs = length reqs ∧ List.ForallOrdPairs placed_before (zip reqs locs).
Proof.
  intros Hok Hs. destruct (locate reqs newGolangRegisterLocator) as [r g] eqn:Hl.
  assert (Hb : below newGolangRegisterLocator 0) by (intros [[[] []]|]; done).
  pose proof (locate_ordered reqs _ 0 Hok Hb ltac:(lia)) as Hwp. unfold wp in Hwp. rewrite Hl in Hwp.
  destruct r as [locs| |]; [|done..]. destruct Hwp as (? & _ & ?). by exists locs, g.
Qed.

Definition int_request : arg_request := MkArgRequest TypeClassInteger 8 8 1 false.
Definition struct_request : arg_request := MkArgRequest TypeClassInteger 96 8 12 false.

Lemma arguments_disjoint_witness :
  ∃ locs g, locate [int_request; struct_request; int_request; struct_request]
      newGolangRegisterLocator = (Ok locs, g) ∧
    loc_Offset <$> locs = [0; 0; 8; 96] ∧
    List.ForallOrdPairs placed_before
      (zip [int_request; struct_request; int_request; struct_request] locs).
Proof.
  destruct (arguments_disjoint [int_request; struct_request; int_request; struct_request])
    as (locs & g & Hl & _ & Hd).
  - repeat constructor; simpl; lia.
  - by vm_compute.
  - exists locs, g. split; [done|]. split; [|done].
    revert Hl. vm_compute. by intros [= <- <-].
Defined.

(** The registers already in use do not count: a tenth integer argument is placed
    behind the nine integer registers. *)
Example registers_not_exhausted :
  ∃ g, locate (replicate 10 int_request) newGolangRegisterLocator =
    (Ok ((λ i, MkArgLocation ArgLocationTypeRegister (8 * Z.of_nat i)) <$> seq 0 10), g).
Proof. eexists. by vm_compute. Qed.
