(* ===== verification/ZtOffsets.v ===== *)
(** * Field offsets of a ztunnel binary

    Models src/pkg/tools/ztunnel: the offset set and its validation (offsets.go), the
    schema of its tags (schema.go), the per-type layouts (layouts.go), the table of
    known builds (table.go, builtin.go), the build information a ztunnel reports
    (buildinfo.go), the extraction from debug info (dwarf.go), and the static rungs of
    the fallback ladder (resolveStaticZTunnelOffsets of
    src/pkg/accesslog/collector/ztunnel/ztunnel_offsets.go).

    Files, environment variables and JSON decoding are arguments: a table arrives as
    the value [json.Unmarshal] decodes, [None] when it fails.  A pointer field decoded
    from a JSON null is [None].

    Shown here: resolving layouts through the reflected schema is the plain
    composition of the layouts; chained tables answer from the first source that
    knows a build; a fingerprint does not depend on the order of a map. *)

From stdpp Require Import base gmap list strings pretty sorting.
From Stdlib Require Import ZArith Lia Ascii.
From S2P Require Import Prelude GoStrings Interfaces Elf.

(** ** The offset set *)

Definition OffsetSourceDWARF : string := "dwarf".
Notation OffsetSourceTable := "table"%string (only parsing).
Notation OffsetSourceCalibrated := "calibrated"%string (only parsing).

Record Offsets : Type := MkOffsets {
  o_Source : string;
  o_Window : Z;
  o_Src : Z;
  o_Dst : Z;
  o_HboneTarget : Z;
  o_HasDirection : bool;
  o_Reporter : Z;
  o_SecurityPolicy : Z;
  o_SourcePrincipal : Z;
  o_DestinationPrincipal : Z;
  o_SourceNamespace : Z;
  o_DestinationNamespace : Z;
  o_SourceCluster : Z;
  o_DestinationCluster : Z;
  o_IdentitySpiffeSize : Z;
  o_IdentityTrustDomain : Z;
  o_IdentityNamespace : Z;
  o_IdentityServiceAccount : Z
}.
Global Instance Offsets_dec : EqDecision Offsets.
Proof. solve_decision. Defined.

Definition maxWindow : Z := 2048.
Notation IdentitySpiffeSize := 24 (only parsing).
Notation OffsetAbsent := (-1) (only parsing).

Inductive offset_error : Type :=
| WindowOutOfRange (window : Z)
| DoesNotFit (name : string) (off room : Z)
| NotAligned (name : string) (off : Z)
| SharedOffset (name other : string) (off : Z).

(** [f.off+f.size > room] in 64 bits. *)
Definition exceeds (off size room : Z) : bool := (off <? 0) || (room <? i64 (off + size)).

Definition check_pointer (window : Z) (f : string * Z * Z * bool) : res offset_error unit :=
  let '(name, off, size, required) := f in
  if (off =? OffsetAbsent) && negb required then Ok tt
  else if exceeds off size window then Err (DoesNotFit name off window)
  else if negb (Z.rem off 8 =? 0) then Err (NotAligned name off)
  else Ok tt.

Definition pointer_fields (spiffeSize : Z) (o : Offsets) : list (string * Z * Z * bool) :=
  [("src", o_Src o, 8, true);
   ("destinationPrincipal", o_DestinationPrincipal o, spiffeSize, true);
   ("dst", o_Dst o, 8, false);
   ("hboneTarget", o_HboneTarget o, 8, false);
   ("sourcePrincipal", o_SourcePrincipal o, spiffeSize, false);
   ("sourceNamespace", o_SourceNamespace o, 8, false);
   ("destinationNamespace", o_DestinationNamespace o, 8, false);
   ("sourceCluster", o_SourceCluster o, 8, false);
   ("destinationCluster", o_DestinationCluster o, 8, false)].

Definition validatePointerFields (spiffeSize : Z) (o : Offsets) : res offset_error unit :=
  for_range (λ _ f, check_pointer (o_Window o) f) tt (pointer_fields spiffeSize o).

Definition validateDirectionEnums (o : Offsets) : res offset_error unit :=
  for_range (λ _ f, let '(name, off) := f in
      if off =? OffsetAbsent then Ok tt
      else if (off <? 0) || (o_Window o <=? off) then Err (DoesNotFit name off (o_Window o))
      else Ok tt)
    tt [("reporter", o_Reporter o); ("securityPolicy", o_SecurityPolicy o)].

Definition identity_fields (o : Offsets) : list (string * Z) :=
  [("identityTrustDomain", o_IdentityTrustDomain o);
   ("identityNamespace", o_IdentityNamespace o);
   ("identityServiceAccount", o_IdentityServiceAccount o)].

Definition check_member (spiffeSize : Z) (ids : gmap Z string) (f : string * Z)
  : res offset_error (gmap Z string) :=
  let '(name, off) := f in
  if exceeds off 8 spiffeSize then Err (DoesNotFit name off spiffeSize)
  else if negb (Z.rem off 8 =? 0) then Err (NotAligned name off)
  else
    match ids !! off with
    | Some other => Err (SharedOffset name other off)
    | None => Ok (<[off := name]> ids)
    end.

Definition validateIdentityMembers (spiffeSize : Z) (o : Offsets) : res offset_error unit :=
  for_range (check_member spiffeSize) ∅ (identity_fields o);;
  Ok tt.

(** The size of an Identity value the set was resolved with. *)
Definition spiffe_size (o : Offsets) : Z :=
  if o_IdentitySpiffeSize o <=? 0 then IdentitySpiffeSize else o_IdentitySpiffeSize o.

Definition Offsets_Validate (o : Offsets) : res offset_error unit :=
  if (o_Window o <=? 0) || (maxWindow <? o_Window o) then Err (WindowOutOfRange (o_Window o))
  else
    validatePointerFields (spiffe_size o) o;;
    validateDirectionEnums o;;
    validateIdentityMembers (spiffe_size o) o.

(** ** The schema of the tags *)

Definition TypeConnectionResult : string := "ConnectionResult".
Definition TypeCommonTrafficLabels : string := "CommonTrafficLabels".
Definition TypeIdentitySpiffe : string := "Identity::Spiffe".
Definition trafficLabelsField : string := "tl".

(** The fields of [Offsets] with their tags, in order. *)
Definition offsets_tags : list (string * string) :=
  [("Source", "-");
   ("Window", "-");
   ("Src", "ConnectionResult.src");
   ("Dst", "ConnectionResult.dst");
   ("HboneTarget", "ConnectionResult.hbone_target");
   ("HasDirection", "-");
   ("Reporter", "CommonTrafficLabels.reporter");
   ("SecurityPolicy", "CommonTrafficLabels.connection_security_policy");
   ("SourcePrincipal", "CommonTrafficLabels.source_principal");
   ("DestinationPrincipal", "CommonTrafficLabels.destination_principal");
   ("SourceNamespace", "CommonTrafficLabels.source_workload_namespace");
   ("DestinationNamespace", "CommonTrafficLabels.destination_workload_namespace");
   ("SourceCluster", "CommonTrafficLabels.source_cluster");
   ("DestinationCluster", "CommonTrafficLabels.destination_cluster");
   ("IdentitySpiffeSize", "-");
   ("IdentityTrustDomain", "Identity::Spiffe.trust_domain");
   ("IdentityNamespace", "Identity::Spiffe.namespace");
   ("IdentityServiceAccount", "Identity::Spiffe.service_account")].

Record offsetField : Type := MkOffsetField {
  of_index : nat;
  of_typeName : string;
  of_field : string
}.

Record schemaType : Type := MkSchemaType {
  st_name : string;
  st_fields : list string
}.

Record offsetSchema : Type := MkOffsetSchema {
  sch_fields : list offsetField;
  sch_typeOrder : list string;
  sch_byType : gmap string schemaType
}.

Definition contains (s : list string) (v : string) : bool := existsb (λ x, bool_decide (x = v)) s.

(** A tagged field of type [typeName]: the type is added when it is new. *)
Definition add_field (i : nat) (typeName field : string) (s : offsetSchema) : offsetSchema :=
  let st := default (MkSchemaType typeName []) (sch_byType s !! typeName) in
  MkOffsetSchema (sch_fields s ++ [MkOffsetField i typeName field])
    (match sch_byType s !! typeName with
     | Some _ => sch_typeOrder s
     | None => sch_typeOrder s ++ [typeName]
     end)
    (<[typeName := MkSchemaType (st_name st) (st_fields st ++ [field])]> (sch_byType s)).

Definition parse_tag (s : offsetSchema) (f : nat * (string * string))
  : res Empty_set offsetSchema :=
  let '(i, (_, tag)) := f in
  if decide (tag = "" ∨ tag = "-") then Ok s
  else
    let '(typeName, field, ok) := Cut tag "." in
    if negb ok || bool_decide (typeName = "") || bool_decide (field = "") then Panic
    else Ok (add_field i typeName field s).

Definition parseSchema (tags : list (string * string)) : res Empty_set offsetSchema :=
  s ← for_range parse_tag (MkOffsetSchema [] [] ∅) (imap pair tags);
  Ok (match sch_byType s !! TypeConnectionResult with
      | Some st =>
        if contains (st_fields st) trafficLabelsField then s
        else MkOffsetSchema (sch_fields s) (sch_typeOrder s)
               (<[TypeConnectionResult := MkSchemaType (st_name st)
                    (st_fields st ++ [trafficLabelsField])]> (sch_byType s))
      | None => s
      end).

(** [schema]: the tags of [Offsets] parse. *)
Definition schema : offsetSchema :=
  match parseSchema offsets_tags with Ok s => s | _ => MkOffsetSchema [] [] ∅ end.

Definition dwarfName (recorded : string) : string :=
  let i := LastIndex recorded "::" in
  if 0 <=? i then str_drop (Z.to_nat i + 2) recorded else recorded.

(** ** Layouts *)

Record TypeLayout : Type := MkTypeLayout {
  tl_Size : Z;
  tl_Fields : gmap string Z
}.

(** A nil pointer under a name is [None]. *)
Definition Layouts : Type := gmap string (option TypeLayout).

Definition layout_of (l : Layouts) (typeName : string) : option TypeLayout := mjoin (l !! typeName).

Definition Offset (t : option TypeLayout) (field : string) : option Z :=
  match t with Some t => tl_Fields t !! field | None => None end.

Inductive layout_error : Type :=
| NoLayout (typeName : string)
| ImplausibleSize (typeName : string) (size : Z)
| NoField (typeName field : string)
| OutsideType (typeName field : string) (off size : Z)
| WentMissing (typeName field : string)
| NotUsable (e : offset_error).

Definition schema_fields (typeName : string) : list string :=
  match sch_byType schema !! typeName with Some st => st_fields st | None => [] end.

Definition check_layout (l : Layouts) (typeName : string) : res layout_error unit :=
  match layout_of l typeName with
  | None => Err (NoLayout typeName)
  | Some layout =>
    if (tl_Size layout <=? 0) || (maxWindow <? tl_Size layout)
    then Err (ImplausibleSize typeName (tl_Size layout))
    else
      for_range (λ _ field,
          match Offset (Some layout) field with
          | None => Err (NoField typeName field)
          | Some offset =>
            if (offset <? 0) || (tl_Size layout <=? offset)
            then Err (OutsideType typeName field offset (tl_Size layout))
            else Ok tt
          end) tt (schema_fields typeName)
  end.

Definition Layouts_Validate (l : Layouts) : res layout_error unit :=
  for_range (λ _ typeName, check_layout l typeName) tt (sch_typeOrder schema).

(** [dst.Field(i).SetInt]: it panics on a field that is not an integer. *)
Definition SetInt (i : nat) (v : Z) (o : Offsets) : option Offsets :=
  let '(MkOffsets s w src dst hbone dir rep pol sp dp sn dn sc dc size td ns sa) := o in
  match i with
  | 1%nat => Some (MkOffsets s v src dst hbone dir rep pol sp dp sn dn sc dc size td ns sa)
  | 2%nat => Some (MkOffsets s w v dst hbone dir rep pol sp dp sn dn sc dc size td ns sa)
  | 3%nat => Some (MkOffsets s w src v hbone dir rep pol sp dp sn dn sc dc size td ns sa)
  | 4%nat => Some (MkOffsets s w src dst v dir rep pol sp dp sn dn sc dc size td ns sa)
  | 6%nat => Some (MkOffsets s w src dst hbone dir v pol sp dp sn dn sc dc size td ns sa)
  | 7%nat => Some (MkOffsets s w src dst hbone dir rep v sp dp sn dn sc dc size td ns sa)
  | 8%nat => Some (MkOffsets s w src dst hbone dir rep pol v dp sn dn sc dc size td ns sa)
  | 9%nat => Some (MkOffsets s w src dst hbone dir rep pol sp v sn dn sc dc size td ns sa)
  | 10%nat => Some (MkOffsets s w src dst hbone dir rep pol sp dp v dn sc dc size td ns sa)
  | 11%nat => Some (MkOffsets s w src dst hbone dir rep pol sp dp sn v sc dc size td ns sa)
  | 12%nat => Some (MkOffsets s w src dst hbone dir rep pol sp dp sn dn v dc size td ns sa)
  | 13%nat => Some (MkOffsets s w src dst hbone dir rep pol sp dp sn dn sc v size td ns sa)
  | 14%nat => Some (MkOffsets s w src dst hbone dir rep pol sp dp sn dn sc dc v td ns sa)
  | 15%nat => Some (MkOffsets s w src dst hbone dir rep pol sp dp sn dn sc dc size v ns sa)
  | 16%nat => Some (MkOffsets s w src dst hbone dir rep pol sp dp sn dn sc dc size td v sa)
  | 17%nat => Some (MkOffsets s w src dst hbone dir rep pol sp dp sn dn sc dc size td ns v)
  | _ => None
  end.

Definition resolve_field (l : Layouts) (labelBase : Z) (o : Offsets) (f : offsetField)
  : res layout_error Offsets :=
  match Offset (layout_of l (of_typeName f)) (of_field f) with
  | None => Err (WentMissing (of_typeName f) (of_field f))
  | Some offset =>
    let base := if decide (of_typeName f = TypeCommonTrafficLabels) then labelBase else 0 in
    must (SetInt (of_index f) (i64 (offset + base)) o)
  end.

Definition Resolve (l : Layouts) : res layout_error Offsets :=
  Layouts_Validate l;;
  let labelBase := default 0 (Offset (layout_of l TypeConnectionResult) trafficLabelsField) in
  connection ← must (layout_of l TypeConnectionResult);
  spiffe ← must (layout_of l TypeIdentitySpiffe);
  let offsets := MkOffsets OffsetSourceTable (tl_Size connection) 0 0 0 true 0 0 0 0 0 0 0 0
                   (tl_Size spiffe) 0 0 0 in
  offsets ← for_range (resolve_field l labelBase) offsets (sch_fields schema);
  match Offsets_Validate offsets with
  | Ok _ => Ok offsets
  | Err e => Err (NotUsable e)
  | Panic => Panic
  end.

(** [sort.Strings]: the sorted permutation, which is unique. *)
Definition sort_Strings (l : list string) : list string := merge_sort String.le l.

Definition fingerprint_type `{RangeOrder} (typeName : string) (layout : TypeLayout) : string :=
  typeName +:+ "(" +:+ pretty (tl_Size layout) +:+ "){" +:+
  foldr (λ field s, field +:+ "=" +:+ pretty (default 0 (tl_Fields layout !! field)) +:+ "," +:+ s)
    "}" (sort_Strings (fst <$> range (tl_Fields layout))).

(** The parts of the string builder; a nil layout panics. *)
Definition Fingerprint `{RangeOrder} (l : Layouts) : res Empty_set string :=
  for_range (λ sb typeName,
      layout ← must (layout_of l typeName);
      Ok (sb +:+ fingerprint_type typeName layout))
    "" (sort_Strings (fst <$> range l)).

(** ** What a ztunnel reports about itself *)

Record BuildInfo : Type := MkBuildInfo {
  bi_Version : string;
  bi_GitRevision : string;
  bi_BuildStatus : string;
  bi_IstioVersion : string;
  bi_RustVersion : string
}.

Notation buildStatusClean := "Clean"%string (only parsing).
Definition quote : ascii := "034"%char.

(** A word character of the expression of [buildInfoField]. *)
Definition is_word (c : ascii) : bool :=
  let n := nat_of_ascii c in
  ((48 <=? n) && (n <=? 57) || (65 <=? n) && (n <=? 90) || (97 <=? n) && (n <=? 122) || (n =? 95))%nat.

(** The longest prefix of characters with [f], and the rest. *)
Fixpoint str_span (f : ascii → bool) (s : string) : string * string :=
  match s with
  | EmptyString => (EmptyString, EmptyString)
  | String c s' =>
    if f c then let '(a, b) := str_span f s' in (String c a, b) else (EmptyString, s)
  end.

(** A match of a word, a colon and a quoted value at the start of [s], and what is
    behind it.  The word and the value are maximal: neither can contain what ends it. *)
Definition match_field (s : string) : option (string * string * string) :=
  let '(name, rest) := str_span is_word s in
  if decide (name = "") then None
  else if negb (HasPrefix rest (String ":" (String quote ""))) then None
  else
    let '(value, rest) := str_span (λ c, negb (bool_decide (c = quote))) (str_drop 2 rest) in
    match rest with
    | String _ rest => Some (name, value, rest)
    | EmptyString => None
    end.

(** [FindAllStringSubmatch]: the matches from left to right; [n] bounds the steps. *)
Fixpoint find_fields (n : nat) (s : string) : list (string * string) :=
  match n with
  | O => []
  | S n =>
    match match_field s with
    | Some (name, value, rest) => (name, value) :: find_fields n rest
    | None => match s with EmptyString => [] | String _ s' => find_fields n s' end
    end
  end.

Definition set_build_field (info : BuildInfo) (m : string * string) : BuildInfo :=
  let '(MkBuildInfo v g b i r) := info in
  let '(name, x) := m in
  if decide (name = "Version") then MkBuildInfo x g b i r
  else if decide (name = "GitRevision") then MkBuildInfo v x b i r
  else if decide (name = "BuildStatus") then MkBuildInfo v g x i r
  else if decide (name = "IstioVersion") then MkBuildInfo v g b x r
  else if decide (name = "RustVersion") then MkBuildInfo v g b i x
  else info.

Definition no_info : BuildInfo := MkBuildInfo "" "" "" "" "".

Definition newline : string := String "010"%char EmptyString.

Inductive build_info_error : Type := NoBuildInfoLine | NoVersionNorRevision.

Definition ParseBuildInfo (output : string) : res build_info_error BuildInfo :=
  let line := default "" (find (λ candidate, Contains candidate "BuildInfo{")
                            (Split output newline)) in
  if decide (line = "") then Err NoBuildInfoLine
  else
    let info := foldl set_build_field no_info (find_fields (S (String.length line)) line) in
    if decide (bi_Version info = "" ∧ bi_GitRevision info = "") then Err NoVersionNorRevision
    else Ok info.

Definition BuildInfo_String (b : option BuildInfo) : string :=
  match b with
  | None => "unknown"
  | Some b =>
    "version=" +:+ bi_Version b +:+ " gitRevision=" +:+ bi_GitRevision b +:+
    " buildStatus=" +:+ bi_BuildStatus b +:+ " istioVersion=" +:+ bi_IstioVersion b +:+
    " rustVersion=" +:+ bi_RustVersion b
  end.

Definition MatchKeys (b : option BuildInfo) : list string :=
  match b with
  | None => []
  | Some b =>
    if negb (bool_decide (bi_BuildStatus b = "")) &&
       negb (bool_decide (bi_BuildStatus b = buildStatusClean)) then []
    else
      filter (λ candidate, candidate ≠ "" ∧ Contains candidate "-dirty" = false)
        [bi_Version b; bi_GitRevision b]
  end.

(** ** The table of known builds *)

Definition TableVersion : Z := 2.

Record Build : Type := MkBuild {
  b_BuildID : string;
  b_Version : string;
  b_GitRevision : string;
  b_BuildStatus : string;
  b_RustVersion : string;
  b_Release : string;
  b_Platform : string
}.

Definition Build_String (b : Build) : string :=
  if decide (b_Release b ≠ "" ∧ b_Platform b ≠ "") then
    "istio/ztunnel:" +:+ b_Release b +:+ " " +:+ b_Platform b +:+ " (" +:+ b_BuildID b +:+ ")"
  else if decide (b_Release b ≠ "") then
    "istio/ztunnel:" +:+ b_Release b +:+ " (" +:+ b_BuildID b +:+ ")"
  else b_BuildID b.

Record TableEntry : Type := MkTableEntry {
  e_Builds : list Build;
  e_Layouts : Layouts
}.

Definition describe (e : TableEntry) : string := Join (Build_String <$> e_Builds e) ", ".

Record Table : Type := MkTable {
  t_Version : Z;
  t_Entries : list (option TableEntry);
  byBuildID : gmap string Offsets;
  byRevision : gmap string Offsets
}.

(** What [json.Unmarshal] makes of the bytes of a table. *)
Definition table_json : Type := option (Z * list (option TableEntry)).

Inductive table_error : Type :=
| CannotParse
| UnsupportedVersion (v : Z)
| EntryNoLayouts (i : nat)
| EntryUnusable (i : nat) (entry : string) (e : layout_error)
| EntryNoBuild (i : nat)
| BuildNoID (i : nat)
| DuplicateBuildID (id : string)
| CannotReadFile.

Definition normalizeBuildID (id : string) : string := ToLower (TrimSpace id).

(** Index a build: its build id, then the revisions that no other build claimed. *)
Definition index_build (i : nat) (offsets : Offsets)
    (idx : gmap string Offsets * gmap string Offsets) (build : Build)
  : res table_error (gmap string Offsets * gmap string Offsets) :=
  let '(ids, revisions) := idx in
  let id := normalizeBuildID (b_BuildID build) in
  if decide (id = "") then Err (BuildNoID i)
  else if decide (is_Some (ids !! id)) then Err (DuplicateBuildID id)
  else
    let info := MkBuildInfo (b_Version build) (b_GitRevision build) (b_BuildStatus build) "" "" in
    Ok (<[id := offsets]> ids,
        foldl (λ m key, let key := normalizeBuildID key in
                        match m !! key with Some _ => m | None => <[key := offsets]> m end)
          revisions (MatchKeys (Some info))).

Definition index_entry (idx : gmap string Offsets * gmap string Offsets)
    (x : nat * option TableEntry) : res table_error (gmap string Offsets * gmap string Offsets) :=
  let '(i, entry) := x in
  entry ← must entry;
  if decide (e_Layouts entry = ∅) then Err (EntryNoLayouts i)
  else
    match Resolve (e_Layouts entry) with
    | Err e => Err (EntryUnusable i (describe entry) e)
    | Panic => Panic
    | Ok offsets =>
      if decide (e_Builds entry = []) then Err (EntryNoBuild i)
      else for_range (index_build i offsets) idx (e_Builds entry)
    end.

Definition ParseTable (data : table_json) : res table_error Table :=
  match data with
  | None => Err CannotParse
  | Some (version, entries) =>
    if negb (version =? TableVersion) then Err (UnsupportedVersion version)
    else
      '(ids, revisions) ← for_range index_entry (∅, ∅) (imap pair entries);
      Ok (MkTable version entries ids revisions)
  end.

Definition Table_Lookup (buildID : string) (t : option Table) : option Offsets :=
  match t with None => None | Some t => byBuildID t !! normalizeBuildID buildID end.

Fixpoint first_revision (keys : list string) (m : gmap string Offsets) : option Offsets :=
  match keys with
  | [] => None
  | key :: keys =>
    match m !! normalizeBuildID key with
    | Some o => Some o
    | None => first_revision keys m
    end
  end.

Definition LookupByRevision (info : option BuildInfo) (t : option Table) : option Offsets :=
  match t with None => None | Some t => first_revision (MatchKeys info) (byRevision t) end.

(** The entries of a source that no earlier source claimed. *)
Definition chain_source `{RangeOrder} (combined : Table) (source : option Table) : Table :=
  match source with
  | None => combined
  | Some source =>
    MkTable (t_Version combined) (t_Entries combined ++ t_Entries source)
      (foldl (λ m '(buildID, offsets),
                match m !! buildID with Some _ => m | None => <[buildID := offsets]> m end)
         (byBuildID combined) (range (byBuildID source)))
      (byRevision combined)
  end.

Definition chainTables `{RangeOrder} (sources : list (option Table)) : Table :=
  foldl chain_source (MkTable TableVersion [] ∅ ∅) sources.

(** [tableFile] is [None] when no file is configured, [Some None] when it cannot be
    read; [tableBytes] is [None] when no table is injected. *)
Definition LoadTable `{RangeOrder} (tableFile : option (option table_json))
    (tableBytes : option table_json) (builtin : table_json) : res table_error Table :=
  file ← match tableFile with
         | None => Ok []
         | Some None => Err CannotReadFile
         | Some (Some data) => t ← ParseTable data; Ok [Some t]
         end;
  injected ← match tableBytes with
             | None => Ok []
             | Some data => t ← ParseTable data; Ok [Some t]
             end;
  builtinTable ← ParseTable builtin;
  Ok (chainTables (file ++ injected ++ [Some builtinTable])).

(** ** Debug info *)

Inductive extract_error : Type :=
| NoDebugInfo
| CannotFind (typeName : string)
| ExtractUnusable (e : layout_error).

Definition layout_of_structure (s : StructureInfo) : TypeLayout :=
  MkTypeLayout (structure_size s)
    (foldl (λ m f, <[field_Name f := field_Offset f]> m) ∅ (structure_fields s)).

(** [debug] is the debug info of the binary, [None] when it has none. *)
Definition ExtractLayoutsFromDWARF (debug : option dwarf_data) : res extract_error Layouts :=
  match debug with
  | None => Err NoDebugInfo
  | Some data =>
    let types := sch_typeOrder schema in
    match NewDwarfReader (dwarfName <$> types) data with
    | Err _ => Err NoDebugInfo
    | Panic => Panic
    | Ok reader =>
      layouts ← for_range (λ (layouts : Layouts) typeName,
          match FindStructure (dwarfName typeName) (schema_fields typeName) reader with
          | None => Err (CannotFind typeName)
          | Some structure => Ok (<[typeName := Some (layout_of_structure structure)]> layouts)
          end) ∅ types;
      match Layouts_Validate layouts with
      | Ok _ => Ok layouts
      | Err e => Err (ExtractUnusable e)
      | Panic => Panic
      end
    end
  end.

Definition set_source (source : string) (o : Offsets) : Offsets :=
  MkOffsets source (o_Window o) (o_Src o) (o_Dst o) (o_HboneTarget o) (o_HasDirection o)
    (o_Reporter o) (o_SecurityPolicy o) (o_SourcePrincipal o) (o_DestinationPrincipal o)
    (o_SourceNamespace o) (o_DestinationNamespace o) (o_SourceCluster o) (o_DestinationCluster o)
    (o_IdentitySpiffeSize o) (o_IdentityTrustDomain o) (o_IdentityNamespace o)
    (o_IdentityServiceAccount o).

Definition ExtractOffsetsFromDWARF (debug : option dwarf_data) : res extract_error Offsets :=
  layouts ← ExtractLayoutsFromDWARF debug;
  match Resolve layouts with
  | Ok offsets => Ok (set_source OffsetSourceDWARF offsets)
  | Err e => Err (ExtractUnusable e)
  | Panic => Panic
  end.

(** The build information from the first command whose output parses; [None] is a
    command that fails. *)
Fixpoint readZTunnelBuildInfo (attempts : list (option string)) : option BuildInfo :=
  match attempts with
  | [] => None
  | Some output :: rest =>
    match ParseBuildInfo output with Ok info => Some info | _ => readZTunnelBuildInfo rest end
  | None :: rest => readZTunnelBuildInfo rest
  end.

(** ** The static rungs of the ladder *)

Record resolvedZTunnelOffsets : Type := MkResolved {
  r_Offsets : option Offsets;
  r_BuildID : string;
  r_BuildInfo : option BuildInfo
}.

(** [dwarf], [table], [buildID] and [buildInfo] are the outcomes of the extraction, of
    [LoadTable], of [ReadELFBuildID] and of [readZTunnelBuildInfo]. *)
Definition resolveStaticZTunnelOffsets (dwarf : res extract_error Offsets)
    (table : res table_error Table) (buildID : option string) (buildInfo : option BuildInfo)
  : res Empty_set resolvedZTunnelOffsets :=
  match dwarf with
  | Panic => Panic
  | Ok offsets => Ok (MkResolved (Some offsets) "" None)
  | Err _ =>
    match table with
    | Panic => Panic
    | Err _ => Ok (MkResolved None "" None)
    | Ok table =>
      match buildID with
      | Some id =>
        match Table_Lookup id (Some table) with
        | Some matched => Ok (MkResolved (Some matched) id None)
        | None => Ok (MkResolved None id buildInfo)
        end
      | None =>
        match buildInfo with
        | Some info => Ok (MkResolved (LookupByRevision (Some info) (Some table)) "" (Some info))
        | None => Ok (MkResolved None "" None)
        end
      end
    end
  end.

(** ** Specification *)

(** The offsets as the layouts compose them, without the schema. *)
Definition composed (l : Layouts) : Offsets :=
  let at_ T f := default 0 (Offset (layout_of l T) f) in
  let result f := at_ TypeConnectionResult f in
  let label f := at_ TypeCommonTrafficLabels f + result trafficLabelsField in
  let spiffe f := at_ TypeIdentitySpiffe f in
  let size T := match layout_of l T with Some t => tl_Size t | None => 0 end in
  MkOffsets OffsetSourceTable (size TypeConnectionResult)
    (result "src") (result "dst") (result "hbone_target") true
    (label "reporter") (label "connection_security_policy")
    (label "source_principal") (label "destination_principal")
    (label "source_workload_namespace") (label "destination_workload_namespace")
    (label "source_cluster") (label "destination_cluster")
    (size TypeIdentitySpiffe)
    (spiffe "trust_domain") (spiffe "namespace") (spiffe "service_account").

Definition inside (room off size : Z) : Prop := 0 ≤ off ∧ off + size ≤ room.

(** An aligned place for a value of [size] bytes, and one that may be absent. *)
Definition slot (room size off : Z) : Prop := inside room off size ∧ (8 | off).
Definition optional_slot (room size off : Z) : Prop := off = -1 ∨ slot room size off.
Definition optional_byte (room off : Z) : Prop := off = -1 ∨ 0 ≤ off < room.

(** The bytes of an identity: those the set records, or three pointers. *)
Definition identity_room (o : Offsets) : Z :=
  if decide (0 < o_IdentitySpiffeSize o) then o_IdentitySpiffeSize o else 24.

(** A well-formed offset set: the source address and the principal of the destination
    are present, every field that is present lies in a window of at most 2048 bytes with
    room for its value, pointers are aligned, and the members of an identity are three
    different slots of it. *)
Record offsets_ok (o : Offsets) : Prop := {
  ok_window : 0 < o_Window o ≤ 2048;
  ok_src : slot (o_Window o) 8 (o_Src o);
  ok_dst : optional_slot (o_Window o) 8 (o_Dst o);
  ok_hbone : optional_slot (o_Window o) 8 (o_HboneTarget o);
  ok_destination_principal : slot (o_Window o) (identity_room o) (o_DestinationPrincipal o);
  ok_source_principal : optional_slot (o_Window o) (identity_room o) (o_SourcePrincipal o);
  ok_namespaces : optional_slot (o_Window o) 8 (o_SourceNamespace o) ∧
    optional_slot (o_Window o) 8 (o_DestinationNamespace o);
  ok_clusters : optional_slot (o_Window o) 8 (o_SourceCluster o) ∧
    optional_slot (o_Window o) 8 (o_DestinationCluster o);
  ok_enums : optional_byte (o_Window o) (o_Reporter o) ∧ optional_byte (o_Window o) (o_SecurityPolicy o);
  ok_members : slot (identity_room o) 8 (o_IdentityTrustDomain o) ∧
    slot (identity_room o) 8 (o_IdentityNamespace o) ∧
    slot (identity_room o) 8 (o_IdentityServiceAccount o);
  ok_distinct : o_IdentityTrustDomain o ≠ o_IdentityNamespace o ∧
    o_IdentityTrustDomain o ≠ o_IdentityServiceAccount o ∧
    o_IdentityNamespace o ≠ o_IdentityServiceAccount o
}.

(** No addition to an offset of the set leaves 64 bits. *)
Definition no_overflow (o : Offsets) : Prop :=
  Forall (λ v, v < 2 ^ 62)
    [o_Src o; o_Dst o; o_HboneTarget o; o_SourcePrincipal o; o_DestinationPrincipal o;
     o_SourceNamespace o; o_DestinationNamespace o; o_SourceCluster o; o_DestinationCluster o;
     o_IdentitySpiffeSize o; o_IdentityTrustDomain o; o_IdentityNamespace o;
     o_IdentityServiceAccount o].

(** A table lists a build with these offsets. *)
Definition lists_build (entries : list (option TableEntry)) (id : string) (o : Offsets) : Prop :=
  ∃ entry build, Some entry ∈ entries ∧ build ∈ e_Builds entry ∧
    normalizeBuildID (b_BuildID build) = id ∧ Resolve (e_Layouts entry) = Ok o.

(** The revisions under which a build may be found. *)
Definition revision_keys (b : Build) : list string :=
  normalizeBuildID <$> MatchKeys (Some (MkBuildInfo (b_Version b) (b_GitRevision b)
                                          (b_BuildStatus b) "" "")).

(** A table lists a build that may be matched by this revision. *)
Definition lists_revision (entries : list (option TableEntry)) (key : string) (o : Offsets) : Prop :=
  ∃ entry build, Some entry ∈ entries ∧ build ∈ e_Builds entry ∧
    key ∈ revision_keys build ∧ Resolve (e_Layouts entry) = Ok o.

(** The first source that knows a build. *)
Definition first_known (id : string) (sources : list (option Table)) : option Offsets :=
  foldr (λ t rest, match Table_Lookup id t with Some o => Some o | None => rest end) None sources.

(** ** Layouts *)

Lemma schema_parses : parseSchema offsets_tags = Ok schema.
Proof. by vm_compute. Qed.

Lemma typeOrder_eq :
  sch_typeOrder schema = [TypeConnectionResult; TypeCommonTrafficLabels; TypeIdentitySpiffe].
Proof. by vm_compute. Qed.

#[local] Opaque schema schema_fields.

Lemma check_layout_Ok l T :
  check_layout l T = Ok tt ↔
  ∃ t, layout_of l T = Some t ∧ 0 < tl_Size t ≤ maxWindow ∧
    Forall (λ f, ∃ off, tl_Fields t !! f = Some off ∧ 0 ≤ off < tl_Size t) (schema_fields T).
Proof.
  unfold check_layout. destruct (layout_of l T) as [t|]; [|naive_solver].
  destruct (_ || _) eqn:Hs.
  { split; [done|]. intros (t' & [= <-] & ? & _). apply orb_true_iff in Hs.
    rewrite Z.leb_le, Z.ltb_lt in Hs. lia. }
  apply orb_false_iff in Hs as [Hs1%Z.leb_gt Hs2%Z.ltb_ge]. rewrite for_range_checks.
  assert (Hiff : ∀ f, match Offset (Some t) f with
     | Some offset => if (offset <? 0) || (tl_Size t <=? offset)
         then Err (OutsideType T f offset (tl_Size t)) else Ok tt
     | None => Err (NoField T f) end = Ok tt ↔
     ∃ off, tl_Fields t !! f = Some off ∧ 0 ≤ off < tl_Size t).
  { intros f. simpl. destruct (tl_Fields t !! f) as [off|]; [|naive_solver].
    destruct (_ || _) eqn:Ho.
    - apply orb_true_iff in Ho. rewrite Z.leb_le, Z.ltb_lt in Ho. split; [done|].
      intros (? & [= <-] & ?). lia.
    - apply orb_false_iff in Ho as [?%Z.ltb_ge ?%Z.leb_gt]. split; [|done]. eauto. }
  setoid_rewrite Hiff. split; [intros; by exists t|]. by intros (? & [= <-] & _ & ?).
Qed.

Lemma Layouts_Validate_Ok l :
  Layouts_Validate l = Ok tt ↔ Forall (λ T, check_layout l T = Ok tt) (sch_typeOrder schema).
Proof. unfold Layouts_Validate. apply (for_range_checks (check_layout l)). Qed.

(** A validated layout has every tagged field, inside its type. *)
Lemma validated_field l T f :
  Layouts_Validate l = Ok tt → T ∈ sch_typeOrder schema → f ∈ schema_fields T →
  ∃ off, Offset (layout_of l T) f = Some off ∧ 0 ≤ off < maxWindow.
Proof.
  rewrite Layouts_Validate_Ok, Forall_forall. intros Hv HT Hf.
  apply Hv, check_layout_Ok in HT as (t & -> & Hsz & Hfs). rewrite Forall_forall in Hfs.
  destruct (Hfs f Hf) as (off & ? & ?). exists off. split; [done|]. lia.
Qed.

Lemma validated_type l T :
  Layouts_Validate l = Ok tt → T ∈ sch_typeOrder schema →
  ∃ t, layout_of l T = Some t ∧ 0 < tl_Size t ≤ maxWindow.
Proof.
  rewrite Layouts_Validate_Ok, Forall_forall. intros Hv HT.
  apply Hv, check_layout_Ok in HT as (t & ? & ? & _). eauto.
Qed.

Lemma sch_fields_eq :
  sch_fields schema =
    [MkOffsetField 2 TypeConnectionResult "src";
     MkOffsetField 3 TypeConnectionResult "dst";
     MkOffsetField 4 TypeConnectionResult "hbone_target";
     MkOffsetField 6 TypeCommonTrafficLabels "reporter";
     MkOffsetField 7 TypeCommonTrafficLabels "connection_security_policy";
     MkOffsetField 8 TypeCommonTrafficLabels "source_principal";
     MkOffsetField 9 TypeCommonTrafficLabels "destination_principal";
     MkOffsetField 10 TypeCommonTrafficLabels "source_workload_namespace";
     MkOffsetField 11 TypeCommonTrafficLabels "destination_workload_namespace";
     MkOffsetField 12 TypeCommonTrafficLabels "source_cluster";
     MkOffsetField 13 TypeCommonTrafficLabels "destination_cluster";
     MkOffsetField 15 TypeIdentitySpiffe "trust_domain";
     MkOffsetField 16 TypeIdentitySpiffe "namespace";
     MkOffsetField 17 TypeIdentitySpiffe "service_account"].
Proof. by vm_compute. Qed.

Lemma result_fields_eq : schema_fields TypeConnectionResult = ["src"; "dst"; "hbone_target"; "tl"].
Proof. by vm_compute. Qed.

Lemma label_fields_eq :
  schema_fields TypeCommonTrafficLabels =
    ["reporter"; "connection_security_policy"; "source_principal"; "destination_principal";
     "source_workload_namespace"; "destination_workload_namespace"; "source_cluster";
     "destination_cluster"].
Proof. by vm_compute. Qed.

Lemma spiffe_fields_eq :
  schema_fields TypeIdentitySpiffe = ["trust_domain"; "namespace"; "service_account"].
Proof. by vm_compute. Qed.

(** Every field of the schema belongs to a type of the schema. *)
Lemma schema_fields_known :
  Forall (λ f, of_typeName f ∈ sch_typeOrder schema ∧ of_field f ∈ schema_fields (of_typeName f))
    (sch_fields schema).
Proof.
  rewrite sch_fields_eq, typeOrder_eq.
  repeat (constructor; [split; cbn [of_typeName of_field]|]); try constructor;
    rewrite ?result_fields_eq, ?label_fields_eq, ?spiffe_fields_eq; set_solver.
Qed.

Lemma label_base_known :
  TypeConnectionResult ∈ sch_typeOrder schema ∧
  trafficLabelsField ∈ schema_fields TypeConnectionResult ∧
  TypeIdentitySpiffe ∈ sch_typeOrder schema.
Proof.
  rewrite typeOrder_eq, result_fields_eq. unfold trafficLabelsField. split_and!; set_solver.
Qed.

(** The value the schema stores for a field. *)
Definition field_value (l : Layouts) (f : offsetField) : Z :=
  default 0 (Offset (layout_of l (of_typeName f)) (of_field f)) +
  (if decide (of_typeName f = TypeCommonTrafficLabels)
   then default 0 (Offset (layout_of l TypeConnectionResult) trafficLabelsField) else 0).

Lemma resolve_field_known l o f :
  Layouts_Validate l = Ok tt →
  of_typeName f ∈ sch_typeOrder schema → of_field f ∈ schema_fields (of_typeName f) →
  resolve_field l (default 0 (Offset (layout_of l TypeConnectionResult) trafficLabelsField)) o f =
    must (SetInt (of_index f) (field_value l f) o).
Proof.
  intros Hv HT Hf. destruct (validated_field l _ _ Hv HT Hf) as (off & Hoff & Hb).
  destruct label_base_known as (HC & Htl & _).
  destruct (validated_field l _ _ Hv HC Htl) as (base & Hbase & Hbb).
  unfold resolve_field, field_value. rewrite Hoff, Hbase. cbn [default]. f_equal. f_equal.
  apply i64_small. unfold maxWindow in *. case_decide; simpl; lia.
Qed.

Lemma resolve_fields l o fs :
  Layouts_Validate l = Ok tt →
  Forall (λ f, of_typeName f ∈ sch_typeOrder schema ∧ of_field f ∈ schema_fields (of_typeName f)) fs →
  for_range (resolve_field l (default 0 (Offset (layout_of l TypeConnectionResult)
    trafficLabelsField))) o fs =
  for_range (λ o f, must (SetInt (of_index f) (field_value l f) o)) o fs.
Proof.
  intros Hv Hfs. revert o. induction Hfs as [|f fs [HT Hf] _ IH]; intros o; [done|].
  cbn [for_range]. rewrite resolve_field_known by done.
  destruct (must _); cbn [mbind res_bind]; [apply IH|done..].
Qed.

Lemma resolved_offsets l t s :
  Layouts_Validate l = Ok tt →
  layout_of l TypeConnectionResult = Some t → layout_of l TypeIdentitySpiffe = Some s →
  for_range (λ o f, must (SetInt (of_index f) (field_value l f) o))
    (MkOffsets OffsetSourceTable (tl_Size t) 0 0 0 true 0 0 0 0 0 0 0 0 (tl_Size s) 0 0 0)
    (sch_fields schema) = (Ok (composed l) : res layout_error Offsets).
Proof.
  intros _ Ht Hs. set (v := field_value l).
  rewrite sch_fields_eq.
  cbn [for_range SetInt must mbind res_bind of_index]. f_equal. subst v.
  unfold composed, field_value. cbn [of_typeName of_field]. rewrite Ht, Hs.
  by rewrite !Z.add_0_r.
Qed.

Lemma Layouts_Validate_no_panic l : Layouts_Validate l ≠ Panic.
Proof.
  unfold Layouts_Validate. apply for_range_no_panic. intros _ T. unfold check_layout.
  destruct (layout_of l T); [|done]. destruct (_ || _); [done|].
  apply for_range_no_panic. intros _ f. destruct (Offset _ _); [|done]. by destruct (_ || _).
Qed.

Lemma Offsets_Validate_no_panic o : Offsets_Validate o ≠ Panic.
Proof.
  unfold Offsets_Validate. destruct (_ || _); [done|].
  assert (H1 : validatePointerFields (spiffe_size o) o ≠ Panic).
  { apply for_range_no_panic. intros _ [[[n off] sz] req]. unfold check_pointer. repeat case_match; done. }
  assert (H2 : validateDirectionEnums o ≠ Panic).
  { apply for_range_no_panic. intros _ [n off]. repeat case_match; done. }
  assert (H3 : validateIdentityMembers (spiffe_size o) o ≠ Panic).
  { unfold validateIdentityMembers. destruct (for_range _ _ _) eqn:E; [done..|].
    exfalso. revert E. apply for_range_no_panic. intros m [n off]. unfold check_member.
    repeat case_match; done. }
  destruct (validatePointerFields _ _); [|done..]. cbn [mbind res_bind].
  by destruct (validateDirectionEnums _).
Qed.

(** ** Validation *)

Lemma exceeds_false off size room :
  off < 2 ^ 62 → 0 ≤ size < 2 ^ 62 → exceeds off size room = false ↔ inside room off size.
Proof.
  intros Ho Hs. unfold exceeds, inside. rewrite orb_false_iff, Z.ltb_ge, Z.ltb_ge.
  destruct (decide (0 ≤ off)); [|lia]. rewrite i64_small by lia. lia.
Qed.

Lemma rem_8 off : 0 ≤ off → Z.rem off 8 =? 0 = true ↔ (8 | off).
Proof.
  intros H. rewrite Z.eqb_eq, Z.rem_mod_nonneg by lia. by rewrite Z.mod_divide.
Qed.

Lemma check_pointer_Ok window name off size required :
  off < 2 ^ 62 → 0 ≤ size < 2 ^ 62 →
  check_pointer window (name, off, size, required) = Ok tt ↔
    (off = OffsetAbsent ∧ required = false) ∨ (inside window off size ∧ (8 | off)).
Proof.
  intros Ho Hs. unfold check_pointer. pose proof (exceeds_false off size window Ho Hs) as He.
  destruct (_ && _) eqn:Ha.
  { apply andb_prop in Ha as [->%Z.eqb_eq ?%negb_true_iff]. naive_solver. }
  assert (¬ (off = OffsetAbsent ∧ required = false)).
  { intros [-> ->]. done. }
  destruct (exceeds off size window).
  { split; [done|]. intros [?|[Hi _]]; [done|]. by apply He in Hi. }
  destruct He as [He _]. specialize (He eq_refl). assert (0 ≤ off) by (by destruct He).
  rewrite <-(rem_8 off) by done. destruct (Z.rem off 8 =? 0); simpl; naive_solver.
Qed.

Lemma members_Ok spiffe fs ids :
  0 ≤ spiffe → Forall (λ f : string * Z, snd f < 2 ^ 62) fs →
  (∃ m, for_range (check_member spiffe) ids fs = Ok m) ↔
    Forall (λ f, inside spiffe (snd f) 8 ∧ (8 | snd f)) fs ∧ NoDup (snd <$> fs) ∧
    Forall (λ f : string * Z, ids !! snd f = None) fs.
Proof.
  intros Hsp Hb. revert ids. induction Hb as [|[n off] fs Hoff Hb IH]; intros ids; simpl.
  { split; [repeat constructor|eauto]. }
  rewrite !Forall_cons, NoDup_cons. unfold check_member at 1. simpl in *.
  pose proof (exceeds_false off 8 spiffe) as He. destruct (exceeds off 8 spiffe).
  { split; [by intros []|]. intros ([[Hi _] _] & _). by apply He in Hi. }
  destruct He as [He _]; [lia..|]. specialize (He eq_refl). assert (0 ≤ off) by (by destruct He).
  rewrite <-(rem_8 off) by done. destruct (Z.rem off 8 =? 0); simpl; [|naive_solver].
  destruct (ids !! off) eqn:Hids; [naive_solver|]. simpl. rewrite IH.
  assert (Hiff : Forall (λ f : string * Z, <[off:=n]> ids !! f.2 = None) fs ↔
    off ∉ fs.*2 ∧ Forall (λ f : string * Z, ids !! f.2 = None) fs).
  { rewrite list_elem_of_fmap, !Forall_forall. split.
    - intros Hf. split.
      + intros (f & -> & Hin). specialize (Hf f Hin). by rewrite lookup_insert_eq in Hf.
      + intros f Hin. specialize (Hf f Hin). by apply lookup_insert_None in Hf as [? _].
    - intros [Hnin Hf] f Hin. apply lookup_insert_None. split; [auto|]. intros ->.
      apply Hnin. eauto. }
  rewrite Hiff. naive_solver.
Qed.

Lemma enums_Ok o :
  validateDirectionEnums o = Ok tt ↔
    Forall (λ off, off = OffsetAbsent ∨ 0 ≤ off < o_Window o) [o_Reporter o; o_SecurityPolicy o].
Proof.
  unfold validateDirectionEnums.
  set (check := λ f : string * Z, let '(name, off) := f in
    if off =? OffsetAbsent then Ok tt
    else if (off <? 0) || (o_Window o <=? off) then Err (DoesNotFit name off (o_Window o))
    else Ok tt).
  etransitivity; [apply (for_range_checks check)|].
  assert (Hc : ∀ n off, check (n, off) = Ok tt ↔ off = OffsetAbsent ∨ 0 ≤ off < o_Window o).
  { intros n off. unfold check. destruct (Z.eqb_spec off OffsetAbsent); [naive_solver|].
    destruct (_ || _) eqn:Ho.
    - apply orb_true_iff in Ho. rewrite Z.ltb_lt, Z.leb_le in Ho. split; [done|]. lia.
    - apply orb_false_iff in Ho as [?%Z.ltb_ge ?%Z.leb_gt]. split; [|done]. lia. }
  rewrite !Forall_cons, !Hc. split; intros (? & ? & ?); split_and!; auto.
Qed.

Lemma spiffe_size_pos o : 0 < spiffe_size o.
Proof.
  unfold spiffe_size. destruct (Z.leb_spec (o_IdentitySpiffeSize o) 0); lia.
Qed.

Lemma spiffe_size_room o : spiffe_size o = identity_room o.
Proof.
  unfold spiffe_size, identity_room.
  destruct (Z.leb_spec (o_IdentitySpiffeSize o) 0); case_decide; lia.
Qed.

(** The same with the tables of the checks. *)
Definition tables_ok (o : Offsets) : Prop :=
  Forall (λ f : string * Z * Z * bool, let '(_, off, size, required) := f in
    (off = OffsetAbsent ∧ required = false) ∨ (inside (o_Window o) off size ∧ (8 | off)))
    (pointer_fields (spiffe_size o) o) ∧
  Forall (λ off, off = OffsetAbsent ∨ 0 ≤ off < o_Window o) [o_Reporter o; o_SecurityPolicy o] ∧
  Forall (λ f : string * Z, inside (spiffe_size o) (snd f) 8 ∧ (8 | snd f)) (identity_fields o) ∧
  NoDup (snd <$> identity_fields o).

Lemma required_slot room size off :
  (off = OffsetAbsent ∧ true = false) ∨ (inside room off size ∧ (8 | off)) ↔ slot room size off.
Proof. unfold slot. intuition congruence. Qed.

Lemma present_slot room size off :
  (off = OffsetAbsent ∧ false = false) ∨ (inside room off size ∧ (8 | off)) ↔
    optional_slot room size off.
Proof. unfold optional_slot, slot. intuition congruence. Qed.

Lemma NoDup_three {A} (x y z : A) : NoDup [x; y; z] ↔ x ≠ y ∧ x ≠ z ∧ y ≠ z.
Proof.
  rewrite !NoDup_cons, !not_elem_of_cons. pose proof (NoDup_nil_2 (A := A)).
  pose proof (not_elem_of_nil (A := A)). naive_solver.
Qed.

Lemma tables_ok_iff o : 0 < o_Window o ≤ maxWindow ∧ tables_ok o ↔ offsets_ok o.
Proof.
  unfold tables_ok, maxWindow, pointer_fields, identity_fields. rewrite spiffe_size_room. cbn [fmap list_fmap snd].
  rewrite !Forall_cons, !Forall_nil, NoDup_three, !required_slot, !present_slot. cbn [snd]. split.
  - intros (Hw & (Hsrc & Hdp & Hdst & Hhb & Hsp & Hsn & Hdn & Hsc & Hdc & _) & (He1 & He2 & _) &
      (Hm1 & Hm2 & Hm3 & _) & Hn).
    constructor; done.
  - intros [Hw Hsrc Hdst Hhb Hdp Hsp [Hsn Hdn] [Hsc Hdc] [? ?] (? & ? & ?) (? & ? & ?)].
    unfold slot, inside in *. tauto.
Qed.

Lemma no_overflow_fields o :
  no_overflow o →
  spiffe_size o < 2 ^ 62 ∧
  Forall (λ f : string * Z * Z * bool, let '(_, off, _, _) := f in off < 2 ^ 62)
    (pointer_fields (spiffe_size o) o) ∧
  Forall (λ f : string * Z, snd f < 2 ^ 62) (identity_fields o).
Proof.
  unfold no_overflow. rewrite !Forall_cons. intros (?&?&?&?&?&?&?&?&?&?&?&?&?&_).
  unfold spiffe_size at 1. split_and!; [destruct (Z.leb_spec (o_IdentitySpiffeSize o) 0); lia|..];
    repeat constructor; done.
Qed.

Lemma pointers_Ok o :
  no_overflow o →
  validatePointerFields (spiffe_size o) o = Ok tt ↔
  Forall (λ f : string * Z * Z * bool, let '(_, off, size, required) := f in
    (off = OffsetAbsent ∧ required = false) ∨ (inside (o_Window o) off size ∧ (8 | off)))
    (pointer_fields (spiffe_size o) o).
Proof.
  intros (Hs & Hp & _)%no_overflow_fields. unfold validatePointerFields. pose proof (spiffe_size_pos o).
  etransitivity; [apply (for_range_checks (check_pointer (o_Window o)))|].
  assert (Hsz : Forall (λ f : string * Z * Z * bool, let '(_, _, size, _) := f in
    0 ≤ size < 2 ^ 62) (pointer_fields (spiffe_size o) o)) by (repeat constructor; lia).
  rewrite !Forall_forall in *. apply forall_proper. intros [[[n off] size] req].
  apply forall_proper. intros Hin.
  specialize (Hp _ Hin). specialize (Hsz _ Hin). by apply check_pointer_Ok.
Qed.

Lemma Offsets_Validate_Ok o :
  no_overflow o → Offsets_Validate o = Ok tt ↔ offsets_ok o.
Proof.
  intros Hno. rewrite <-tables_ok_iff. pose proof (pointers_Ok o Hno) as Hp.
  pose proof (enums_Ok o) as He. apply no_overflow_fields in Hno as (_ & _ & Hm).
  pose proof (members_Ok (spiffe_size o) (identity_fields o) ∅ ltac:(pose proof (spiffe_size_pos o); lia) Hm)
    as Hmem.
  assert (Hempty : Forall (λ f : string * Z, (∅ : gmap Z string) !! f.2 = None) (identity_fields o))
    by (repeat constructor).
  unfold Offsets_Validate. destruct (_ || _) eqn:Hw.
  { split; [done|]. intros [Hw' _]. apply orb_true_iff in Hw. rewrite Z.leb_le, Z.ltb_lt in Hw. lia. }
  apply orb_false_iff in Hw as [Hw1%Z.leb_gt Hw2%Z.ltb_ge].
  destruct (validatePointerFields _ _) as [[]| |]; cbn [mbind res_bind];
    [|split; [done|intros (_ & Hp' & _); by apply Hp in Hp']..].
  destruct (validateDirectionEnums _) as [[]| |]; cbn [mbind res_bind];
    [|split; [done|intros (_ & _ & He' & _); by apply He in He']..].
  unfold validateIdentityMembers. split.
  - intros Hv. destruct (for_range _ _ _) as [m| |]; [|done..].
    destruct Hmem as [Hmem _]. destruct Hmem as (? & ? & _); [eauto|].
    split; [done|]. split_and!; [by apply Hp|by apply He|done|done].
  - intros (_ & _ & _ & H1 & H2). destruct Hmem as [_ Hmem]. destruct Hmem as [m ->]; done.
Qed.

(** C37: Validation accepts an offset set whose offsets are below 2^62 exactly when it is
    well formed: the window has at most 2048 bytes, the source address and the principal
    of the destination are present, every field that is present lies in the window with
    room for its value, pointers are aligned to eight bytes, the two enum bytes are in
    the window, and the three members of an identity are different aligned slots of it. *)
Theorem Validate_exact o :
  no_overflow o → Offsets_Validate o = Ok tt ↔ offsets_ok o.
Proof. apply Offsets_Validate_Ok. Qed.

(** ** Resolution *)

Lemma Resolve_unfold l :
  Resolve l =
    match Layouts_Validate l with
    | Ok _ =>
      match Offsets_Validate (composed l) with
      | Ok _ => Ok (composed l)
      | Err e => Err (NotUsable e)
      | Panic => Panic
      end
    | Err e => Err e
    | Panic => Panic
    end.
Proof.
  unfold Resolve. destruct (Layouts_Validate l) as [[]| |] eqn:Hv; cbn [mbind res_bind]; [|done..].
  destruct label_base_known as (HC & _ & HS).
  destruct (validated_type l _ Hv HC) as (t & Ht & _).
  destruct (validated_type l _ Hv HS) as (s & Hs & _).
  set (base := default 0 _). rewrite Ht, Hs. cbn [must mbind res_bind]. unfold base.
  rewrite (resolve_fields l _ _ Hv schema_fields_known).
  rewrite (resolved_offsets l t s Hv Ht Hs). reflexivity.
Qed.

(** Resolving layouts through the tags of the schema never panics, and gives a set
    exactly when the layouts are valid and their plain composition is: every traffic
    label rebased by the position of the labels inside the connection result, every
    other field as its type records it. *)
Theorem Resolve_exact l :
  Resolve l ≠ Panic ∧
  ∀ o, Resolve l = Ok o ↔
    Layouts_Validate l = Ok tt ∧ Offsets_Validate o = Ok tt ∧ o = composed l.
Proof.
  rewrite Resolve_unfold. pose proof (Layouts_Validate_no_panic l) as H1.
  pose proof (Offsets_Validate_no_panic (composed l)) as H2.
  destruct (Layouts_Validate l) as [[]| |]; [|split; [done|]; intros o; by split; [|intros [? _]]..].
  destruct (Offsets_Validate (composed l)) as [[]| |] eqn:E;
    [|split; [done|]; intros o; split; [done|]; intros (_ & Hv & ->); congruence..].
  split; [done|]. intros o. split; [by intros [= <-]|]. by intros (_ & _ & ->).
Qed.

Lemma validated_fields l T :
  Layouts_Validate l = Ok tt → T ∈ sch_typeOrder schema →
  Forall (λ f, 0 ≤ default 0 (Offset (layout_of l T) f) < maxWindow) (schema_fields T).
Proof.
  intros Hv HT. apply Forall_forall. intros f Hf.
  by destruct (validated_field l T f Hv HT Hf) as (off & -> & ?).
Qed.

(** What a validated layout composes to cannot overflow. *)
Lemma composed_no_overflow l : Layouts_Validate l = Ok tt → no_overflow (composed l).
Proof.
  intros Hv. destruct label_base_known as (HC & _ & HS).
  assert (HL : TypeCommonTrafficLabels ∈ sch_typeOrder schema).
  { rewrite typeOrder_eq. apply list_elem_of_further, list_elem_of_here. }
  destruct (validated_type l _ Hv HS) as (t & Ht & Hsz).
  pose proof (validated_fields l _ Hv HC) as FC. pose proof (validated_fields l _ Hv HL) as FL.
  pose proof (validated_fields l _ Hv HS) as FS. clear HC HL HS Hv.
  rewrite result_fields_eq in FC. rewrite label_fields_eq in FL. rewrite spiffe_fields_eq in FS.
  rewrite !Forall_cons in FC. rewrite !Forall_cons in FL. rewrite !Forall_cons in FS.
  unfold maxWindow in *.
  assert (Hs : spiffe_size (composed l) = tl_Size t).
  { unfold spiffe_size, composed. cbn [o_IdentitySpiffeSize]. rewrite Ht.
    destruct (Z.leb_spec (tl_Size t) 0); lia. }
  unfold no_overflow. assert (Hsz' : o_IdentitySpiffeSize (composed l) = tl_Size t) by (unfold composed; cbn; by rewrite Ht).
  rewrite Hsz'. unfold composed, trafficLabelsField.
  cbn [o_Src o_Dst o_HboneTarget o_SourcePrincipal o_DestinationPrincipal o_SourceNamespace
    o_DestinationNamespace o_SourceCluster o_DestinationCluster o_IdentityTrustDomain
    o_IdentityNamespace o_IdentityServiceAccount].
  destruct FC as (?&?&?&?&_), FL as (?&?&?&?&?&?&?&?&_), FS as (?&?&?&_). clear Ht Hs.
  repeat match goal with
    | H : 0 ≤ default 0 (Offset ?a ?b) < _ |- _ =>
      revert H; generalize (default 0 (Offset a b)); intros
    end.
  repeat (apply Forall_cons_2; [lia|]). apply Forall_nil_2.
Qed.

Lemma Resolve_ok l o : Resolve l = Ok o → offsets_ok o.
Proof.
  rewrite Resolve_unfold. intros H.
  destruct (Layouts_Validate l) as [[]| |] eqn:Hv; [|discriminate..].
  destruct (Offsets_Validate (composed l)) as [[]| |] eqn:E; [|discriminate..].
  apply (f_equal (λ r, match r with Ok a => a | _ => o end)) in H. cbn beta iota in H. rewrite <-H.
  apply Offsets_Validate_Ok; [|exact E]. apply composed_no_overflow. exact Hv.
Qed.

#[local] Opaque Resolve composed.

(** ** Tables *)

Lemma claim_revisions (o : Offsets) keys (m : gmap string Offsets) key o' :
  foldl (λ m key, let key := normalizeBuildID key in
                  match m !! key with Some _ => m | None => <[key := o]> m end) m keys !! key = Some o' →
  m !! key = Some o' ∨ (o' = o ∧ key ∈ normalizeBuildID <$> keys).
Proof.
  revert m. induction keys as [|k keys IH]; intros m; simpl; [by left|].
  intros [Hm|[-> Hin]]%IH; [|right; set_solver].
  destruct (m !! normalizeBuildID k) eqn:Hk; [by left|].
  apply lookup_insert_Some in Hm as [[<- <-]|[_ ?]]; [right; set_solver|by left].
Qed.

(** The indexes of the entries read so far. *)
Definition indexed (entries : list (option TableEntry))
    (idx : gmap string Offsets * gmap string Offsets) : Prop :=
  (∀ id o, fst idx !! id = Some o ↔ lists_build entries id o) ∧
  (∀ key o, snd idx !! key = Some o → lists_revision entries key o).

(** What indexing builds adds to the indexes. *)
Definition adds_builds (o : Offsets) (idx : gmap string Offsets * gmap string Offsets)
    (builds : list Build) (idx' : gmap string Offsets * gmap string Offsets) : Prop :=
  (∀ id o', fst idx' !! id = Some o' ↔ fst idx !! id = Some o' ∨
     (o' = o ∧ ∃ b, b ∈ builds ∧ normalizeBuildID (b_BuildID b) = id)) ∧
  (∀ key o', snd idx' !! key = Some o' → snd idx !! key = Some o' ∨
     (o' = o ∧ ∃ b, b ∈ builds ∧ key ∈ revision_keys b)).

Lemma index_builds i o builds idx idx' :
  for_range (index_build i o) idx builds = Ok idx' → adds_builds o idx builds idx'.
Proof.
  apply (for_range_prefix_ind (adds_builds o idx)).
  { split; [|by left]. intros id o'. split; [by left|]. by intros [?|(_ & b & ?%elem_of_nil & _)]. }
  clear idx'. intros pre b [ids revs] [ids' revs'] [Hids Hrevs] Hstep. cbn [fst snd] in *.
  unfold index_build in Hstep. destruct (decide (_ = "")); [discriminate|].
  destruct (decide (is_Some _)) as [|Hnew%eq_None_not_Some]; [discriminate|].
  injection Hstep as <- <-. split; cbn [fst snd].
  - intros id o'. rewrite lookup_insert_Some, Hids. split.
    + intros [[<- <-]|[_ [?|(-> & b' & ? & ?)]]]; [right|by left|right]; (split; [done|]).
      * exists b. set_solver.
      * exists b'. set_solver.
    + intros [Hid|(-> & b' & [Hb'| ->%list_elem_of_singleton]%elem_of_app & Heq)]; [right|right|by left].
      * split; [|by left]. intros <-.
        assert (ids !! normalizeBuildID (b_BuildID b) = Some o') by (apply Hids; by left). congruence.
      * split; [|by eauto 10]. intros Hb.
        assert (ids !! id = Some o) by (apply Hids; eauto 10). congruence.
  - intros key o' [Hk|[-> Hin]]%claim_revisions.
    + apply Hrevs in Hk as [?|(-> & b' & ? & ?)]; [by left|]. right. split; [done|].
      exists b'. split; [|done]. set_solver.
    + right. split; [done|]. exists b. split; [set_solver|]. exact Hin.
Qed.

Lemma lists_build_snoc entries e id o :
  lists_build (entries ++ [e]) id o ↔ lists_build entries id o ∨ lists_build [e] id o.
Proof.
  split.
  - intros (e' & b & [Hin|Hin]%elem_of_app & H); [left|right]; exists e', b; exact (conj Hin H).
  - intros [(e' & b & Hin & H)|(e' & b & Hin & H)]; exists e', b;
      (split; [apply elem_of_app; auto|exact H]).
Qed.

Lemma lists_revision_snoc entries e key o :
  lists_revision (entries ++ [e]) key o ↔ lists_revision entries key o ∨ lists_revision [e] key o.
Proof.
  split.
  - intros (e' & b & [Hin|Hin]%elem_of_app & H); [left|right]; exists e', b; exact (conj Hin H).
  - intros [(e' & b & Hin & H)|(e' & b & Hin & H)]; exists e', b;
      (split; [apply elem_of_app; auto|exact H]).
Qed.

Lemma index_entry_indexed entries idx idx' x :
  indexed entries idx → index_entry idx x = Ok idx' → indexed (entries ++ [snd x]) idx'.
Proof.
  destruct x as [i e]. intros [Hids Hrevs]. unfold index_entry.
  destruct e as [e|]; cbn [must mbind res_bind]; [|discriminate].
  destruct (decide (e_Layouts e = ∅)); [discriminate|].
  destruct (Resolve (e_Layouts e)) as [o| |] eqn:Ho; [|discriminate..].
  destruct (decide (e_Builds e = [])); [discriminate|].
  intros [Hb Hr]%index_builds. split.
  - intros id o'. cbn [snd]. rewrite Hb, Hids, lists_build_snoc. apply or_iff_compat_l. split.
    + intros (-> & b & Hin & Heq). exists e, b. split_and!; [apply list_elem_of_here|assumption..].
    + intros (e' & b & Hin & Hb' & Heq & Hres). apply list_elem_of_singleton in Hin.
      injection Hin as ->. rewrite Ho in Hres. injection Hres as ->. split; [reflexivity|].
      exists b. exact (conj Hb' Heq).
  - intros key o' Hk. cbn [snd]. rewrite lists_revision_snoc.
    apply Hr in Hk as [Hk|(-> & b & Hin & Heq)]; [left; exact (Hrevs _ _ Hk)|]. right.
    exists e, b. split_and!; [apply list_elem_of_here|assumption..].
Qed.

Lemma ParseTable_indexed version entries t :
  ParseTable (Some (version, entries)) = Ok t → indexed entries (byBuildID t, byRevision t).
Proof.
  unfold ParseTable. destruct (negb _); [discriminate|].
  destruct (for_range _ _ _) as [[ids revs]| |] eqn:Hf; cbn [mbind res_bind]; [|discriminate..].
  intros [= <-]. cbn [byBuildID byRevision].
  assert (Hsnd : snd <$> imap pair entries = entries).
  { apply list_eq. intros j. rewrite list_lookup_fmap, list_lookup_imap.
    by destruct (entries !! j). }
  rewrite <-Hsnd. revert Hf.
  apply (for_range_prefix_ind (λ pre idx, indexed (snd <$> pre) idx)).
  - split; [|done]. intros id o. split; [done|]. by intros (? & ? & ?%elem_of_nil & _).
  - intros pre x s s' Hpre Hx. rewrite fmap_app. by eapply index_entry_indexed.
Qed.

(** A parsed table answers a build id with the offsets resolved from the entry that
    lists the build, and answers no other build id; the offsets it answers are
    well-formed.  A revision is only answered from an entry with a build that reports
    one of its keys from a clean checkout. *)
Theorem ParseTable_lookup version entries t :
  ParseTable (Some (version, entries)) = Ok t →
  (∀ id o, Table_Lookup id (Some t) = Some o ↔ lists_build entries (normalizeBuildID id) o) ∧
  (∀ id o, Table_Lookup id (Some t) = Some o → offsets_ok o) ∧
  (∀ info o, LookupByRevision info (Some t) = Some o →
     ∃ key, key ∈ MatchKeys info ∧ lists_revision entries (normalizeBuildID key) o).
Proof.
  intros [Hids Hrevs]%ParseTable_indexed. cbn [fst snd] in *. split_and!.
  - intros id o. apply Hids.
  - intros id o H%Hids. destruct H as (e & b & _ & _ & _ & Hr). by eapply Resolve_ok.
  - intros info o. cbn [LookupByRevision]. induction (MatchKeys info) as [|k keys IH]; [done|].
    cbn [first_revision]. destruct (byRevision t !! normalizeBuildID k) as [o'|] eqn:Hk.
    + intros [= <-]. exists k. split; [apply list_elem_of_here|]. by apply Hrevs.
    + intros (key & ? & ?)%IH. exists key. split; [by apply list_elem_of_further|done].
Qed.

Section chain.
Context `{RangeOrder}.

Lemma chain_fold (l : list (string * Offsets)) (m : gmap string Offsets) id :
  NoDup (fst <$> l) →
  foldl (λ m '(buildID, offsets),
           match m !! buildID with Some _ => m | None => <[buildID := offsets]> m end) m l !! id =
    match m !! id with Some o => Some o | None => (list_to_map l : gmap string Offsets) !! id end.
Proof.
  revert m. induction l as [|[k o] l IH]; intros m; simpl; [by destruct (m !! id)|].
  intros [Hk Hnd]%NoDup_cons. rewrite IH by done. destruct (decide (id = k)) as [->|Hne].
  - rewrite lookup_insert_eq. destruct (m !! k) eqn:Hm; [by rewrite Hm|].
    by rewrite lookup_insert_eq.
  - rewrite lookup_insert_ne by done. destruct (m !! k) eqn:Hm; [done|].
    by rewrite lookup_insert_ne.
Qed.

Lemma chain_source_lookup t s id :
  Table_Lookup id (Some (chain_source t s)) =
    match Table_Lookup id (Some t) with Some o => Some o | None => Table_Lookup id s end.
Proof.
  destruct s as [s|]; [|cbn; by destruct (byBuildID t !! _)].
  cbn [chain_source Table_Lookup byBuildID].
  assert (Hp : (range (byBuildID s)).*1 ≡ₚ (map_to_list (byBuildID s)).*1)
    by (by rewrite range_perm).
  assert (Hnd : NoDup ((range (byBuildID s)).*1)) by (rewrite Hp; apply NoDup_fst_map_to_list).
  rewrite chain_fold by done. destruct (byBuildID t !! _); [done|]. f_equal.
  rewrite (list_to_map_proper _ (map_to_list (byBuildID s))); [apply list_to_map_to_list|done|].
  apply range_perm.
Qed.

Lemma chainTables_lookup id sources :
  Table_Lookup id (Some (chainTables sources)) = first_known id sources.
Proof.
  unfold chainTables.
  assert (Hgen : ∀ t, Table_Lookup id (Some (foldl chain_source t sources)) =
    match Table_Lookup id (Some t) with Some o => Some o | None => first_known id sources end).
  { induction sources as [|s sources IH]; intros t; simpl foldl.
    - simpl. by destruct (byBuildID t !! _).
    - rewrite IH, chain_source_lookup. cbn [first_known foldr].
      destruct (Table_Lookup id (Some t)); [done|]. by destruct (Table_Lookup id s). }
  by rewrite Hgen.
Qed.

Lemma chainTables_revisions sources : byRevision (chainTables sources) = ∅.
Proof.
  unfold chainTables.
  assert (Hgen : ∀ t, byRevision (foldl chain_source t sources) = byRevision t).
  { induction sources as [|s sources IH]; intros t; simpl; [done|]. rewrite IH. by destruct s. }
  by rewrite Hgen.
Qed.

(** The chained table answers a build id from the first source that knows it: the
    mounted file, then the injected table, then the built-in one.  It answers no
    revision, whatever the sources index: a binary whose build id cannot be read is
    never resolved from the table. *)
Theorem LoadTable_chains file bytes builtin t :
  LoadTable file bytes builtin = Ok t →
  ∃ sources,
    Forall2 (λ data s, ParseTable data = Ok s)
      (option_list (mjoin file) ++ option_list bytes ++ [builtin]) sources ∧
    (∀ id, Table_Lookup id (Some t) = first_known id (Some <$> sources)) ∧
    (∀ info, LookupByRevision info (Some t) = None) ∧
    (∀ e info r, resolveStaticZTunnelOffsets (Err e) (Ok t) None info = Ok r → r_Offsets r = None).
Proof.
  unfold LoadTable. intros Ht.
  assert (∃ sources, Forall2 (λ data s, ParseTable data = Ok s)
      (option_list (mjoin file) ++ option_list bytes ++ [builtin]) sources ∧
      t = chainTables (Some <$> sources)) as (sources & Hs & ->).
  { destruct file as [[f|]|]; cbn [mbind res_bind] in Ht; [|discriminate|].
    all: try (destruct (ParseTable f) as [tf| |] eqn:Hf; cbn [mbind res_bind] in Ht; [|discriminate..]).
    all: destruct bytes as [b|]; cbn [mbind res_bind] in Ht;
      try (destruct (ParseTable b) as [tb| |] eqn:Hb; cbn [mbind res_bind] in Ht; [|discriminate..]).
    all: destruct (ParseTable builtin) as [ti| |] eqn:Hi; cbn [mbind res_bind] in Ht; [|discriminate..].
    all: injection Ht as <-.
    - exists [tf; tb; ti]. split; [|done]. by repeat constructor.
    - exists [tf; ti]. split; [|done]. by repeat constructor.
    - exists [tb; ti]. split; [|done]. by repeat constructor.
    - exists [ti]. split; [|done]. by repeat constructor. }
  exists sources. split; [done|]. split; [intros; apply chainTables_lookup|].
  assert (Hrev : ∀ info, LookupByRevision info (Some (chainTables (Some <$> sources))) = None).
  { intros info. cbn [LookupByRevision]. rewrite chainTables_revisions.
    induction (MatchKeys info) as [|k keys IH]; [done|]. cbn [first_revision].
    by rewrite lookup_empty. }
  split; [done|]. intros e info r. cbn [resolveStaticZTunnelOffsets].
  destruct info as [info|]; intros [= <-]; [|done]. exact (Hrev (Some info)).
Qed.
End chain.

(** The fingerprint of layouts does not depend on the order of a map. *)
Lemma Fingerprint_order (R1 R2 : RangeOrder) l :
  @Fingerprint R1 l = @Fingerprint R2 l.
Proof.
  assert (Hsort : ∀ {V} (m : gmap string V), sort_Strings (fst <$> @range R1 _ _ _ _ m) =
    sort_Strings (fst <$> @range R2 _ _ _ _ m)).
  { intros V m. apply merge_sort_perm; [apply _..|]. by rewrite !range_perm. }
  unfold Fingerprint. rewrite Hsort.
  assert (Hty : ∀ typeName layout, @fingerprint_type R1 typeName layout =
    @fingerprint_type R2 typeName layout).
  { intros. unfold fingerprint_type. by rewrite Hsort. }
  generalize (""). induction (sort_Strings _) as [|T Ts IH]; intros sb; [done|].
  cbn [for_range]. destruct (layout_of l T); cbn [must mbind res_bind]; [|done].
  rewrite Hty. apply IH.
Qed.

(** ** A sample *)

Module OffsetSample.
Definition result_layout : TypeLayout :=
  MkTypeLayout 408 (list_to_map [("tl", 0); ("src", 248); ("dst", 288); ("hbone_target", 328)]).
Definition labels_layout : TypeLayout :=
  MkTypeLayout 232 (list_to_map
    [("reporter", 224); ("connection_security_policy", 226); ("source_principal", 72);
     ("destination_principal", 176); ("source_workload_namespace", 104);
     ("destination_workload_namespace", 208); ("source_cluster", 112);
     ("destination_cluster", 216)]).
Definition spiffe_layout : TypeLayout :=
  MkTypeLayout 24 (list_to_map [("trust_domain", 0); ("namespace", 8); ("service_account", 16)]).
Definition layouts : Layouts :=
  list_to_map [(TypeConnectionResult, Some result_layout);
               (TypeCommonTrafficLabels, Some labels_layout);
               (TypeIdentitySpiffe, Some spiffe_layout)].
Definition offsets : Offsets :=
  MkOffsets OffsetSourceTable 408 248 288 328 true 224 226 72 176 104 208 112 216 24 0 8 16.

Lemma resolves : Resolve layouts = Ok offsets.
Proof. by vm_compute. Qed.

Definition build : Build := MkBuild "33CF05AF " "8bda303" "8bda303" "Clean" "" "1.28.3" "linux/amd64".
Definition entry : TableEntry := MkTableEntry [build] layouts.
Definition json : table_json := Some (2, [Some entry]).
Definition table : Table :=
  MkTable 2 [Some entry] {["33cf05af" := offsets]} {["8bda303" := offsets]}.

Lemma parses : ParseTable json = Ok table.
Proof. by vm_compute. Qed.
End OffsetSample.

Lemma Validate_exact_witness : offsets_ok OffsetSample.offsets.
Proof.
  apply (Validate_exact OffsetSample.offsets); [|by vm_compute].
  repeat constructor.
Defined.

Lemma ParseTable_lookup_witness :
  ∃ o, Table_Lookup " 33cf05AF" (Some OffsetSample.table) = Some o ∧ offsets_ok o ∧
    lists_build [Some OffsetSample.entry] "33cf05af" o.
Proof.
  destruct (ParseTable_lookup _ _ _ OffsetSample.parses) as (Hl & Hok & _).
  exists OffsetSample.offsets.
  assert (Ht : Table_Lookup " 33cf05AF" (Some OffsetSample.table) = Some OffsetSample.offsets)
    by (by vm_compute).
  split; [exact Ht|]. split; [exact (Hok _ _ Ht)|]. exact (proj1 (Hl _ _) Ht).
Defined.

Lemma LoadTable_chains_witness :
  ∃ t, @LoadTable keys_order None (Some OffsetSample.json) (Some (2, [])) = Ok t ∧
    Table_Lookup "33cf05af" (Some t) = Some OffsetSample.offsets ∧
    LookupByRevision (Some (MkBuildInfo "8bda303" "8bda303" "Clean" "" "")) (Some t) = None.
Proof.
  exists (@chainTables keys_order [Some OffsetSample.table; Some (MkTable 2 [] ∅ ∅)]).
  assert (Ht : @LoadTable keys_order None (Some OffsetSample.json) (Some (2, [])) =
    Ok (@chainTables keys_order [Some OffsetSample.table; Some (MkTable 2 [] ∅ ∅)])).
  { unfold LoadTable. rewrite OffsetSample.parses. reflexivity. }
  split; [exact Ht|]. destruct (LoadTable_chains _ _ _ _ Ht) as (sources & _ & _ & Hr & _).
  split; [|apply Hr]. rewrite chainTables_lookup. reflexivity.
Defined.

(** The revision rung answers when the table is not chained. *)
Example revision_indexed :
  LookupByRevision (Some (MkBuildInfo "8bda303" "8bda303" "Clean" "" "")) (Some OffsetSample.table) =
    Some OffsetSample.offsets.
Proof. by vm_compute. Qed.

(** A null in the list of entries is not reported as an error: it panics. *)
Example null_entry_panics : ParseTable (Some (2, [None])) = Panic.
Proof. by vm_compute. Qed.

(** A set with an offset next to the end of the integers passes validation. *)
Example huge_offset_validates :
  Offsets_Validate (MkOffsets OffsetSourceTable 408 248 (2 ^ 63 - 8) 328 true 224 226 72 176 104
    208 112 216 24 0 8 16) = Ok tt.
Proof. by vm_compute. Qed.
