(* ===== verification/ZtIdentity.v ===== *)
(** * The ztunnel identity probe

    Models the uprobe path of identities: the kernel probe record_internal
    (src/bpf/accesslog/ambient/ztunnel.c), the decoding of its two kinds of events and
    of the strings they point to (ztunnel_identity_decode.go), the calibration of the
    offsets at run time (ztunnel_offsets.go), and the source that owns the path and
    falls back to the access log (ztunnel_identity_source.go), all under
    src/pkg/accesslog/collector/ztunnel for the Go files.

    The memory of the ztunnel process is a [MemoryReader] for user space and the same
    bytes by address for the probe.  The pointer cache is a [LruCache].  Locks, log
    lines and the links' close errors are not modelled.  The tailer is started by a flag.

    Shown here: the compact event decodes to what the full window does; a calibrated
    set decodes the sample it was derived from to the identity it was anchored on; the
    string cache never changes what is decoded; the path settles: it converges or
    falls back within a bounded number of events, and never comes back. *)

From stdpp Require Import base gmap list strings pretty sorting.
From Stdlib Require Import ZArith Lia Ascii.
From S2P Require Import Prelude GoStrings Interfaces Events Connection Ztunnel Elf ZtOffsets.

(** ** Reading the window *)

Notation sockAddrV4IPOffset := 2 (only parsing).
Notation sockAddrV4PortOffset := 6 (only parsing).
Notation sockAddrMinSize := 8 (only parsing).
Notation ztunnelReporterSource := 0 (only parsing).
Definition ztunnelSecurityPolicyMutualTLS : Z := 1.

Record ztunnelProbeSample : Type := MkProbeSample {
  ps_SrcIP : string;
  ps_SrcPort : Z;
  ps_DstIP : string;
  ps_DstPort : Z;
  ps_Outbound : bool;
  ps_DirectionKnown : bool;
  ps_MutualTLS : bool;
  ps_Source : option WorkloadIdentity;
  ps_Destination : option WorkloadIdentity
}.

Definition zlen {A} (l : list A) : Z := Z.of_nat (length l).

Definition bytes_at (window : list Z) (off : Z) (n : nat) : list Z :=
  take n (drop (Z.to_nat off) window).

Definition readWindowByte (window : list Z) (off : Z) : option Z :=
  if (off <? 0) || (zlen window <=? off) then None else window !! Z.to_nat off.

Definition readPointer (window : list Z) (off : Z) : Z :=
  if (off <? 0) || (zlen window <? i64 (off + 8)) then 0 else le_Z (bytes_at window off 8).

Definition dotted (a b c d : Z) : string :=
  pretty a +:+ "." +:+ pretty b +:+ "." +:+ pretty c +:+ "." +:+ pretty d.

Definition decodeSockAddrV4 (window : list Z) (off : Z) : option (string * Z) :=
  if (off <? 0) || (zlen window <? i64 (off + sockAddrMinSize)) then None
  else
    match bytes_at window (off + sockAddrV4IPOffset) 4 with
    | [a; b; c; d] =>
      if (a =? 0) && (b =? 0) && (c =? 0) && (d =? 0) then None
      else
        let port := le_Z (bytes_at window (off + sockAddrV4PortOffset) 2) in
        if port =? 0 then None else Some (dotted a b c d, port)
    | _ => None
    end.

(** ** Strings of the process *)

Notation arcStrDataOffset := 16 (only parsing).
Definition arcStrMaxLen : Z := 256.
Notation ztunnelArcStrCacheSize := 4096 (only parsing).

Definition isPlausibleIdentityBytes (b : list Z) : bool :=
  forallb (λ c, negb ((c <? 0x20) || (0x7e <? c))) b.

Section strings.
Context {R : Type} `{!MemoryReader R}.

(** The string a pointer leads to, without the cache. *)
Definition read_arcstr (mem : R) (ptr : Z) : option string :=
  match ReadAt (Z.to_nat arcStrDataOffset) ptr mem with
  | None => None
  | Some header =>
    let strLen := Z.shiftr (le_Z (take 8 header)) 1 in
    if (strLen =? 0) || (arcStrMaxLen <? strLen) then None
    else
      match ReadAt (Z.to_nat strLen) (u64 (ptr + arcStrDataOffset)) mem with
      | None => None
      | Some data => if isPlausibleIdentityBytes data then Some (string_of_bytes data) else None
      end
  end.

Context {L : Type} `{!LruCache Z string L}.

(** [arcStrCache.decodeArcStr]: the empty string is an absent field, [None] a failure. *)
Definition decodeArcStr (mem : R) (ptr : Z) (cache : L) : option string * L :=
  if ptr =? 0 then (Some "", cache)
  else if negb (ptr mod 8 =? 0) then (None, cache)
  else
    let '(hit, cache) := lru_Get ptr cache in
    match hit with
    | Some v => (Some v, cache)
    | None =>
      match read_arcstr mem ptr with
      | None => (None, cache)
      | Some s => (Some s, lru_Add ptr s cache)
      end
    end.

Definition decodeIdentityFromPointers (mem : R)
    (principalNsPtr principalSaPtr namespaceLabelPtr clusterPtr : Z) (cache : L)
  : option WorkloadIdentity * L :=
  let '(ns, cache) := decodeArcStr mem principalNsPtr cache in
  let '(sa, cache) := decodeArcStr mem principalSaPtr cache in
  let '(namespace, serviceAccount) :=
    match ns, sa with Some ns, Some sa => (ns, sa) | _, _ => ("", "") end in
  let '(namespace, cache) :=
    if decide (namespace = "") then
      let '(v, cache) := decodeArcStr mem namespaceLabelPtr cache in (default namespace v, cache)
    else (namespace, cache) in
  let '(v, cache) := decodeArcStr mem clusterPtr cache in
  let cluster := default "" v in
  (if decide (namespace = "" ∧ serviceAccount = "" ∧ cluster = "") then None
   else Some (MkWorkloadIdentity cluster namespace serviceAccount), cache).

(** ** The full window *)

Inductive decode_error : Type :=
| ShortWindow (copied described : Z)
| UnusableSource (off : Z)
| NoIdentity.

Definition decodeIdentity (o : Offsets) (window : list Z)
    (principalOffset clusterOffset namespaceOffset : Z) (mem : R) (cache : L)
  : option WorkloadIdentity * L :=
  decodeIdentityFromPointers mem
    (readPointer window (i64 (principalOffset + o_IdentityNamespace o)))
    (readPointer window (i64 (principalOffset + o_IdentityServiceAccount o)))
    (readPointer window namespaceOffset)
    (readPointer window clusterOffset) cache.

Definition Decode (o : Offsets) (window : list Z) (mem : R)
  : act L decode_error ztunnelProbeSample := λ cache,
  if zlen window <? o_Window o then (Err (ShortWindow (zlen window) (o_Window o)), cache)
  else
    match decodeSockAddrV4 window (o_Src o) with
    | None => (Err (UnusableSource (o_Src o)), cache)
    | Some (srcIP, srcPort) =>
      let '(dstIP, dstPort) := default ("", 0) (decodeSockAddrV4 window (o_Dst o)) in
      let outbound := match readWindowByte window (o_Reporter o) with
                      | Some b => b =? ztunnelReporterSource
                      | None => false
                      end in
      let mutualTLS := match readWindowByte window (o_SecurityPolicy o) with
                       | Some b => b =? ztunnelSecurityPolicyMutualTLS
                       | None => true
                       end in
      let '(source, cache) := decodeIdentity o window (o_SourcePrincipal o) (o_SourceCluster o)
                                (o_SourceNamespace o) mem cache in
      let '(destination, cache) := decodeIdentity o window (o_DestinationPrincipal o)
                                     (o_DestinationCluster o) (o_DestinationNamespace o) mem cache in
      match source, destination with
      | None, None => (Err NoIdentity, cache)
      | _, _ =>
        (Ok (MkProbeSample srcIP srcPort dstIP dstPort outbound
               (negb (o_Reporter o =? OffsetAbsent)) mutualTLS source destination), cache)
      end
    end.

(** ** The compact event *)

Definition formatZTunnelIPv4 (ip : Z) : string :=
  dotted (Z.shiftr ip 24) (Z.land (Z.shiftr ip 16) 255) (Z.land (Z.shiftr ip 8) 255)
    (Z.land ip 255).

Definition decodeCompact (decoder : option Offsets) (event : ZTunnelConnectionResultCompactEvent)
    (mem : R) (cache : L) : option ztunnelProbeSample * L :=
  if (SrcIP event =? 0) || (SrcPort event =? 0) then (None, cache)
  else
    let '(dstIP, dstPort) :=
      if negb (DstIP event =? 0) && negb (DstPort event =? 0)
      then (formatZTunnelIPv4 (DstIP event), DstPort event) else ("", 0) in
    let known := negb (HasDirection event =? 0) in
    let outbound := if known then Reporter event =? ztunnelReporterSource else false in
    let mutualTLS :=
      match decoder with
      | Some o =>
        if negb (o_SecurityPolicy o =? OffsetAbsent)
        then SecurityPolicy event =? ztunnelSecurityPolicyMutualTLS else true
      | None => true
      end in
    let '(source, cache) := decodeIdentityFromPointers mem (SrcPrincipalNsPtr event)
      (SrcPrincipalSaPtr event) (SrcNamespacePtr event) (SrcClusterPtr event) cache in
    let '(destination, cache) := decodeIdentityFromPointers mem (DstPrincipalNsPtr event)
      (DstPrincipalSaPtr event) (DstNamespacePtr event) (DstClusterPtr event) cache in
    match source, destination with
    | None, None => (None, cache)
    | _, _ =>
      (Some (MkProbeSample (formatZTunnelIPv4 (SrcIP event)) (SrcPort event) dstIP dstPort
               outbound known mutualTLS source destination), cache)
    end.
End strings.

Definition compactShippedIdentityPointer (e : ZTunnelConnectionResultCompactEvent) : bool :=
  negb (SrcPrincipalNsPtr e =? 0) || negb (SrcPrincipalSaPtr e =? 0) ||
  negb (DstPrincipalNsPtr e =? 0) || negb (DstPrincipalSaPtr e =? 0) ||
  negb (SrcNamespacePtr e =? 0) || negb (DstNamespacePtr e =? 0) ||
  negb (SrcClusterPtr e =? 0) || negb (DstClusterPtr e =? 0).

(** The offsets as they are given to the kernel. *)
Record ztunnelOffsetsConfig : Type := MkOffsetsConfig {
  cfg_Valid : Z;
  cfg_Src : Z;
  cfg_Dst : Z;
  cfg_Reporter : Z;
  cfg_SecurityPolicy : Z;
  cfg_HasDirection : Z;
  cfg_SourcePrincipal : Z;
  cfg_DestinationPrincipal : Z;
  cfg_SourceNamespace : Z;
  cfg_DestinationNamespace : Z;
  cfg_SourceCluster : Z;
  cfg_DestinationCluster : Z;
  cfg_IdentityNamespace : Z;
  cfg_IdentityServiceAccount : Z
}.

Definition boolToInt32 (b : bool) : Z := if b then 1 else 0.

Definition offsets_config (o : Offsets) : ztunnelOffsetsConfig :=
  MkOffsetsConfig 1 (i32 (o_Src o)) (i32 (o_Dst o)) (i32 (o_Reporter o))
    (i32 (o_SecurityPolicy o)) (boolToInt32 (negb (o_Reporter o =? OffsetAbsent)))
    (i32 (o_SourcePrincipal o)) (i32 (o_DestinationPrincipal o)) (i32 (o_SourceNamespace o))
    (i32 (o_DestinationNamespace o)) (i32 (o_SourceCluster o)) (i32 (o_DestinationCluster o))
    (i32 (o_IdentityNamespace o)) (i32 (o_IdentityServiceAccount o)).

(** ** The kernel probe *)

Section probe.
(** The user memory of the probed process: [n] bytes from an address. *)
Context {R : Type} `{!MemoryReader R}.

(** [get_socket_addr_ip_in_ztunnel]: [None] leaves the address as it was. *)
Definition get_socket_addr_ip_in_ztunnel (um : R) (arg : Z) : option (Z * Z) :=
  match ReadAt 8 arg um with
  | Some [_; _; a; b; c; d; p0; p1] =>
    Some (Z.lor (Z.lor (Z.lor (Z.shiftl a 24) (Z.shiftl b 16)) (Z.shiftl c 8)) d,
          Z.lor (Z.shiftl p1 8) p0)
  | _ => None
  end.

(** A failed read leaves the pointer zero. *)
Definition read_ztunnel_compact_ptr (um : R) (self off : Z) : Z :=
  if off <? 0 then 0
  else match ReadAt 8 (u64 (self + off)) um with Some b => le_Z b | None => 0 end.

Definition read_enum_byte (um : R) (self off : Z) : Z :=
  if off <? 0 then 0
  else match ReadAt 1 (u64 (self + off)) um with Some b => le_Z b | None => 0 end.

(** The compact event of the fast path. *)
Definition compact_event (um : R) (pid self : Z) (cfg : ztunnelOffsetsConfig)
  : ZTunnelConnectionResultCompactEvent :=
  let '(srcIP, srcPort) :=
    default (0, 0) (get_socket_addr_ip_in_ztunnel um (u64 (self + cfg_Src cfg))) in
  let '(dstIP, dstPort) :=
    default (0, 0) (get_socket_addr_ip_in_ztunnel um (u64 (self + cfg_Dst cfg))) in
  let src_p := cfg_SourcePrincipal cfg in
  let dst_p := cfg_DestinationPrincipal cfg in
  let member p m := read_ztunnel_compact_ptr um self (if p <? 0 then -1 else i32 (p + m)) in
  MkCompactEvent pid srcIP dstIP srcPort dstPort
    (read_enum_byte um self (cfg_Reporter cfg)) (read_enum_byte um self (cfg_SecurityPolicy cfg))
    (if 0 <=? cfg_Reporter cfg then 1 else 0) 0 0
    (member src_p (cfg_IdentityNamespace cfg)) (member src_p (cfg_IdentityServiceAccount cfg))
    (member dst_p (cfg_IdentityNamespace cfg)) (member dst_p (cfg_IdentityServiceAccount cfg))
    (read_ztunnel_compact_ptr um self (cfg_SourceNamespace cfg))
    (read_ztunnel_compact_ptr um self (cfg_DestinationNamespace cfg))
    (read_ztunnel_compact_ptr um self (cfg_SourceCluster cfg))
    (read_ztunnel_compact_ptr um self (cfg_DestinationCluster cfg)).

(** What the probe emits: a compact event once the offsets of the process are known,
    the full window before, nothing when the window cannot be read. *)
Inductive probe_output : Type :=
| EmitNothing
| EmitCompact (e : ZTunnelConnectionResultCompactEvent)
| EmitWindow (e : ZTunnelConnectionResultEvent).

Definition connection_result_record_internal (um : R) (pid self : Z)
    (cfg : option ztunnelOffsetsConfig) : probe_output :=
  if self =? 0 then EmitNothing
  else
    let slow :=
      match ReadAt (Z.to_nat ZTunnelConnectionResultWindow) self um with
      | Some data => EmitWindow (MkConnectionResultEvent pid ZTunnelConnectionResultWindow data)
      | None => EmitNothing
      end in
    match cfg with
    | Some cfg => if negb (cfg_Valid cfg =? 0) then EmitCompact (compact_event um pid self cfg) else slow
    | None => slow
    end.
End probe.

(** ** Calibration *)

Definition ztunnelCalibrationAgreements : Z := 3.
Definition ztunnelCalibrationMaxSamples : Z := 500.

Record calibrationCandidate : Type := MkCandidate {
  cand_offsets : Offsets;
  cand_votes : Z
}.

Record ztunnelOffsetCalibrator : Type := MkCalibrator {
  cal_window : Z;
  votes : gmap string calibrationCandidate;
  observed : Z
}.

Definition newZTunnelOffsetCalibrator (window : Z) : ztunnelOffsetCalibrator :=
  MkCalibrator window ∅ 0.

Definition Exhausted (c : ztunnelOffsetCalibrator) : bool :=
  ztunnelCalibrationMaxSamples <=? observed c.

(** The loop [for off := 0; off+8 <= window; off += 8]. *)
Definition slots (window : Z) : list Z := Z.mul 8 <$> seqZ 0 (window / 8).

Fixpoint anchor_loop (window : list Z) (truth : gmap string WorkloadIdentity)
    (realDest : string → Z → string) (offs : list Z) : option (Z * WorkloadIdentity) :=
  match offs with
  | [] => None
  | off :: offs' =>
    match decodeSockAddrV4 window off with
    | None => anchor_loop window truth realDest offs'
    | Some (ip, port) =>
      let destIP := realDest ip port in
      if decide (destIP = "") then anchor_loop window truth realDest offs'
      else
        match truth !! destIP with
        | Some id =>
          if decide (Namespace id = "" ∨ ServiceAccount id = "")
          then anchor_loop window truth realDest offs'
          else Some (off, id)
        | None => anchor_loop window truth realDest offs'
        end
    end
  end.

Definition anchor (c : ztunnelOffsetCalibrator) (window : list Z)
    (truth : gmap string WorkloadIdentity) (realDest : string → Z → string)
  : option (Z * WorkloadIdentity) :=
  anchor_loop window truth realDest (slots (cal_window c)).

Section calibration.
Context {R L : Type} `{!MemoryReader R} `{!LruCache Z string L}.

Definition scan_slot (window : list Z) (mem : R) (st : gmap Z string * L) (off : Z)
  : gmap Z string * L :=
  let '(found, cache) := st in
  let ptr := readPointer window off in
  if ptr =? 0 then (found, cache)
  else
    let '(s, cache) := decodeArcStr mem ptr cache in
    (match s with
     | Some s => if decide (s = "") then found else <[off := s]> found
     | None => found
     end, cache).

Definition scanStrings (c : ztunnelOffsetCalibrator) (window : list Z) (mem : R) (cache : L)
  : gmap Z string * L :=
  foldl (scan_slot window mem) (∅, cache) (slots (cal_window c)).
End calibration.

(** [sort.Ints] of the keys: the sorted permutation, which is unique. *)
Definition sortedOffsets `{RangeOrder} (strings : gmap Z string) : list Z :=
  merge_sort Z.le (fst <$> range strings).

Record identityMembers : Type := MkIdentityMembers {
  im_trustDomain : Z;
  im_namespace : Z;
  im_serviceAccount : Z
}.

Definition identity_slots : list Z := [0; 8; 16].

(** The slots of the two names in the identity at [base]. *)
Definition find_members (strings : gmap Z string) (base : Z) (namespace serviceAccount : string)
  : Z * Z :=
  foldl (λ '(ns, sa) slot,
      let s := default "" (strings !! (base + slot)) in
      if decide (s = namespace) then (slot, sa)
      else if decide (s = serviceAccount) then (ns, slot)
      else (ns, sa))
    (OffsetAbsent, OffsetAbsent) identity_slots.

Fixpoint triple_loop (strings : gmap Z string) (window : Z) (namespace serviceAccount : string)
    (bases : list Z) : option (Z * identityMembers) :=
  match bases with
  | [] => None
  | base :: bases' =>
    if window <? base + IdentitySpiffeSize
    then triple_loop strings window namespace serviceAccount bases'
    else
      let '(ns, sa) := find_members strings base namespace serviceAccount in
      if (ns =? OffsetAbsent) || (sa =? OffsetAbsent) || (ns =? sa)
      then triple_loop strings window namespace serviceAccount bases'
      else
        let td := foldl (λ td slot, if negb (slot =? ns) && negb (slot =? sa) then slot else td)
                    OffsetAbsent identity_slots in
        Some (base, MkIdentityMembers td ns sa)
  end.

Definition findIdentityTriple `{RangeOrder} (strings : gmap Z string) (window : Z)
    (namespace serviceAccount : string) : option (Z * identityMembers) :=
  triple_loop strings window namespace serviceAccount (sortedOffsets strings).

Definition nearer (strings : gmap Z string) (principal : Z) (value : string)
    (best : Z * Z) (off : Z) : Z * Z :=
  if (principal <=? off) && (off <? principal + IdentitySpiffeSize) then best
  else if negb (bool_decide (strings !! off = Some value)) then best
  else
    let distance := Z.abs (off - principal) in
    if (fst best =? OffsetAbsent) || (distance <? snd best) then (off, distance) else best.

Definition findNearestLabel `{RangeOrder} (strings : gmap Z string) (principal : Z)
    (value : string) : Z :=
  fst (foldl (nearer strings principal value) (OffsetAbsent, 0) (sortedOffsets strings)).

Definition findNamespaceLabel `{RangeOrder} (strings : gmap Z string) (principal : Z)
    (namespace : string) : Z := findNearestLabel strings principal namespace.

Definition findClusterLabel `{RangeOrder} (strings : gmap Z string) (principal : Z)
    (cluster : string) : Z :=
  if decide (cluster = "") then OffsetAbsent else findNearestLabel strings principal cluster.

(** [fmt.Sprintf("%+v", offsets)]. *)
Definition offsets_fields (o : Offsets) : list string :=
  ["Source:" +:+ o_Source o;
   "Window:" +:+ pretty (o_Window o);
   "Src:" +:+ pretty (o_Src o);
   "Dst:" +:+ pretty (o_Dst o);
   "HboneTarget:" +:+ pretty (o_HboneTarget o);
   "HasDirection:" +:+ (if o_HasDirection o then "true" else "false");
   "Reporter:" +:+ pretty (o_Reporter o);
   "SecurityPolicy:" +:+ pretty (o_SecurityPolicy o);
   "SourcePrincipal:" +:+ pretty (o_SourcePrincipal o);
   "DestinationPrincipal:" +:+ pretty (o_DestinationPrincipal o);
   "SourceNamespace:" +:+ pretty (o_SourceNamespace o);
   "DestinationNamespace:" +:+ pretty (o_DestinationNamespace o);
   "SourceCluster:" +:+ pretty (o_SourceCluster o);
   "DestinationCluster:" +:+ pretty (o_DestinationCluster o);
   "IdentitySpiffeSize:" +:+ pretty (o_IdentitySpiffeSize o);
   "IdentityTrustDomain:" +:+ pretty (o_IdentityTrustDomain o);
   "IdentityNamespace:" +:+ pretty (o_IdentityNamespace o);
   "IdentityServiceAccount:" +:+ pretty (o_IdentityServiceAccount o)].

Definition offsets_key (o : Offsets) : string := "{" +:+ Join (offsets_fields o) " " +:+ "}".

Section observe.
Context `{RangeOrder} {R L : Type} `{!MemoryReader R} `{!LruCache Z string L}.

(** The offsets a sample is evidence for. *)
Definition calibrated_offsets (window srcOffset : Z) (strings : gmap Z string) (principal : Z)
    (members : identityMembers) (destination : WorkloadIdentity) : Offsets :=
  MkOffsets OffsetSourceCalibrated window srcOffset OffsetAbsent OffsetAbsent false OffsetAbsent
    OffsetAbsent OffsetAbsent principal OffsetAbsent
    (findNamespaceLabel strings principal (Namespace destination)) OffsetAbsent
    (findClusterLabel strings principal (Cluster destination)) IdentitySpiffeSize
    (im_trustDomain members) (im_namespace members) (im_serviceAccount members).

Definition deriveFromSample (c : ztunnelOffsetCalibrator) (window : list Z) (mem : R)
    (truth : gmap string WorkloadIdentity) (realDest : string → Z → string) (cache : L)
  : option Offsets * L :=
  match anchor c window truth realDest with
  | None => (None, cache)
  | Some (srcOffset, destination) =>
    let '(strings, cache) := scanStrings c window mem cache in
    if decide (strings = ∅) then (None, cache)
    else
      match findIdentityTriple strings (cal_window c) (Namespace destination)
              (ServiceAccount destination) with
      | None => (None, cache)
      | Some (principal, members) =>
        (Some (calibrated_offsets (cal_window c) srcOffset strings principal members destination),
         cache)
      end
  end.

(** A vote for a candidate; the offsets once enough samples agree. *)
Definition vote (candidate : Offsets) (c : ztunnelOffsetCalibrator)
  : option Offsets * ztunnelOffsetCalibrator :=
  let key := offsets_key candidate in
  let entry := default (MkCandidate candidate 0) (votes c !! key) in
  let entry := MkCandidate (cand_offsets entry) (cand_votes entry + 1) in
  (if cand_votes entry <? ztunnelCalibrationAgreements then None else Some (cand_offsets entry),
   MkCalibrator (cal_window c) (<[key := entry]> (votes c)) (observed c)).

Definition Observe (window : list Z) (mem : R) (truth : option (gmap string WorkloadIdentity))
    (realDest : string → Z → string) (c : ztunnelOffsetCalibrator) (cache : L)
  : option Offsets * ztunnelOffsetCalibrator * L :=
  match truth with
  | None => (None, c, cache)
  | Some truth =>
    if bool_decide (truth = ∅) || Exhausted c then (None, c, cache)
    else
      let c := MkCalibrator (cal_window c) (votes c) (observed c + 1) in
      let '(candidate, cache) := deriveFromSample c window mem truth realDest cache in
      match candidate with
      | None => (None, c, cache)
      | Some candidate =>
        match Offsets_Validate candidate with
        | Ok _ => let '(o, c) := vote candidate c in (o, c, cache)
        | _ => (None, c, cache)
        end
      end
  end.
End observe.

(** ** The identity source *)

Definition ZTunnelIdentityDecodeFailureLimit : Z := 50.

Record ztunnelIdentitySource (L : Type) : Type := MkIdentitySource {
  is_strings : L;
  is_decoder : option Offsets;
  is_calibrator : option ztunnelOffsetCalibrator;
  (** The pids whose memory is open. *)
  is_memReaders : list Z;
  (** The uprobe links that are attached. *)
  is_probeLinks : list nat;
  is_pid : Z;
  is_downgraded : bool;
  is_events : Z;
  is_decoded : Z;
  is_decodeFailures : Z;
  is_consecutiveFails : Z;
  is_calibrationTries : Z
}.
Arguments MkIdentitySource {L}.
Arguments is_strings {L}. Arguments is_decoder {L}. Arguments is_calibrator {L}.
Arguments is_memReaders {L}. Arguments is_probeLinks {L}. Arguments is_pid {L}.
Arguments is_downgraded {L}. Arguments is_events {L}. Arguments is_decoded {L}.
Arguments is_decodeFailures {L}. Arguments is_consecutiveFails {L}.
Arguments is_calibrationTries {L}.

Section setters.
Context {L : Type}.
Notation Src := (ztunnelIdentitySource L).

Definition is_set_strings (x : L) (s : Src) : Src :=
  MkIdentitySource x (is_decoder s) (is_calibrator s) (is_memReaders s) (is_probeLinks s)
    (is_pid s) (is_downgraded s) (is_events s) (is_decoded s) (is_decodeFailures s)
    (is_consecutiveFails s) (is_calibrationTries s).
Definition is_set_decoder (x : option Offsets) (s : Src) : Src :=
  MkIdentitySource (is_strings s) x (is_calibrator s) (is_memReaders s) (is_probeLinks s)
    (is_pid s) (is_downgraded s) (is_events s) (is_decoded s) (is_decodeFailures s) 0
    (is_calibrationTries s).
Definition is_set_calibrator (x : option ztunnelOffsetCalibrator) (s : Src) : Src :=
  MkIdentitySource (is_strings s) (is_decoder s) x (is_memReaders s) (is_probeLinks s)
    (is_pid s) (is_downgraded s) (is_events s) (is_decoded s) (is_decodeFailures s)
    (is_consecutiveFails s) (is_calibrationTries s).
Definition is_set_pid (pid : Z) (s : Src) : Src :=
  MkIdentitySource (is_strings s) (is_decoder s) (is_calibrator s) (is_memReaders s)
    (is_probeLinks s) pid (is_downgraded s) (is_events s) (is_decoded s) (is_decodeFailures s)
    (is_consecutiveFails s) (is_calibrationTries s).
Definition is_set_links (downgraded : bool) (links : list nat) (s : Src) : Src :=
  MkIdentitySource (is_strings s) (is_decoder s) (is_calibrator s) (is_memReaders s) links
    (is_pid s) downgraded (is_events s) (is_decoded s) (is_decodeFailures s)
    (is_consecutiveFails s) (is_calibrationTries s).
(** The counters: an event, a decoded one, a failure, a calibration sample. *)
Definition is_count (e d f t : Z) (consecutive : Z) (s : Src) : Src :=
  MkIdentitySource (is_strings s) (is_decoder s) (is_calibrator s) (is_memReaders s)
    (is_probeLinks s) (is_pid s) (is_downgraded s) (is_events s + e) (is_decoded s + d)
    (is_decodeFailures s + f) consecutive (is_calibrationTries s + t).

(** The reader of a pid: the readers of other pids are closed when it is new. *)
Definition memReaderFor (pid : Z) (s : Src) : Src :=
  MkIdentitySource (is_strings s) (is_decoder s) (is_calibrator s)
    (if decide (pid ∈ is_memReaders s) then is_memReaders s
     else pid :: filter (λ existing, existing = pid) (is_memReaders s))
    (is_probeLinks s) (is_pid s) (is_downgraded s) (is_events s) (is_decoded s)
    (is_decodeFailures s) (is_consecutiveFails s) (is_calibrationTries s).

Definition setProbeLinks (links : list nat) (s : Src) : Src := is_set_links (is_downgraded s) links s.

Definition Active (s : Src) : bool :=
  negb (is_downgraded s) && bool_decide (is_Some (is_decoder s)).
End setters.

(** The source with what it acts on: the collector's caches, whether the tailer was
    started, and the map of offsets of the kernel, if the loader exposes it. *)
Record identity_world (L IC SC WC M : Type) : Type := MkWorld {
  w_source : ztunnelIdentitySource L;
  w_collector : Collector IC SC WC;
  w_tailerStarted : bool;
  w_config : option M
}.
Arguments MkWorld {L IC SC WC M}.
Arguments w_source {L IC SC WC M}. Arguments w_collector {L IC SC WC M}.
Arguments w_tailerStarted {L IC SC WC M}. Arguments w_config {L IC SC WC M}.

Section identity_source.
Context `{RangeOrder} {R L IC SC WC M : Type} `{!MemoryReader R} `{!LruCache Z string L}.
Context `{!ExpiringCache string LoadBalanceAddress IC} `{!ExpiringCache string unit SC}.
Context `{!ExpiringCache string WorkloadIdentity WC} `{!EbpfMap Z ztunnelOffsetsConfig M}.
Notation Src := (ztunnelIdentitySource L).
Notation Col := (Collector IC SC WC).
Notation W := (identity_world L IC SC WC M).

Definition newZTunnelIdentitySource : option Src :=
  strings ← lru_New ztunnelArcStrCacheSize;
  Some (MkIdentitySource strings None None [] [] 0 false 0 0 0 0 0).

Definition with_source (s : Src) (w : W) : W :=
  MkWorld s (w_collector w) (w_tailerStarted w) (w_config w).
Definition with_collector (z : Col) (w : W) : W :=
  MkWorld (w_source w) z (w_tailerStarted w) (w_config w).

(** [startAccessLogTailer]: the tailer itself is AccessLogTail.v. *)
Definition startTailer (w : W) : W := MkWorld (w_source w) (w_collector w) true (w_config w).

Definition pushOffsetsConfig (pid : Z) (o : Offsets) (w : W) : W :=
  match w_config w with
  | None => w
  | Some m =>
    if pid <=? 0 then w
    else MkWorld (w_source w) (w_collector w) (w_tailerStarted w)
           (Some (snd (em_Update (u32 pid) (offsets_config o) m)))
  end.

Definition adopt (o : Offsets) (w : W) : bool * W :=
  if ZTunnelConnectionResultWindow <? o_Window o then (false, w)
  else
    let w := with_source (is_set_decoder (Some o) (w_source w)) w in
    let w := pushOffsetsConfig (is_pid (w_source w)) o w in
    (negb (o_SourcePrincipal o =? OffsetAbsent), w).

(** [resolved] is the outcome of [resolveStaticZTunnelOffsets]. *)
Definition Prepare (resolved : resolvedZTunnelOffsets) (pid : Z) (w : W) : bool * W :=
  let w := with_source (is_set_pid pid (w_source w)) w in
  match r_Offsets resolved with
  | None =>
    (false, with_source (is_set_calibrator
       (Some (newZTunnelOffsetCalibrator ZTunnelConnectionResultWindow)) (w_source w)) w)
  | Some o => adopt o w
  end.

Definition prepareIdentityProbe (resolved : resolvedZTunnelOffsets) (pid : Z) (w : W) : bool * W :=
  let '(coversEverything, w) := Prepare resolved pid w in
  (true, if coversEverything then w else startTailer w).

Definition detachProbe (w : W) : W :=
  with_source (is_set_links (is_downgraded (w_source w)) [] (w_source w)) w.

Definition downgrade (w : W) : W :=
  if is_downgraded (w_source w) then w
  else
    let w := with_source (is_set_links true (is_probeLinks (w_source w)) (w_source w)) w in
    startTailer (detachProbe w).

(** What a sample stores, and the source to resolve again. *)
Definition apply (now : Z) (sample : ztunnelProbeSample) (z : Col) : option (string * Z) * Col :=
  let outbound := negb (ps_DirectionKnown sample) || ps_Outbound sample in
  if outbound then
    let z := if ps_MutualTLS sample || negb (ps_DirectionKnown sample)
             then cacheDstIdentity now (ps_SrcIP sample) (ps_SrcPort sample)
                    (ps_Destination sample) z
             else z in
    let key := buildSrcOnlyCacheKey (ps_SrcIP sample) (ps_SrcPort sample) in
    let z := set_logSeen (ec_Set now key tt ZTunnelSrcOnlyMappingExpireDuration
                            (accessLogSeenSrcs z)) z in
    let z :=
      if decide (ps_DstIP sample = "") then z
      else
        match ec_Get now key (ipMappingCache z) with
        | Some _ => z
        | None =>
          let z := set_counters (add_event 1 0 (counters z)) z in
          set_ipMapping (ec_Set now key
            (MkLoadBalanceAddress (ps_DstIP sample) (ps_DstPort sample) ZTUNNEL_OUTBOUND_FUNC
               sourceRecordInternal) ZTunnelSrcOnlyMappingExpireDuration (ipMappingCache z)) z
        end in
    (Some (ps_SrcIP sample, ps_SrcPort sample), z)
  else
    (None, if ps_MutualTLS sample then cachePeerIdentity now (ps_SrcIP sample) (ps_Source sample) z
           else z).

Definition realDestinationFor (now : Z) (z : Col) (srcIP : string) (srcPort : Z) : string :=
  match ec_Get now (buildSrcOnlyCacheKey srcIP srcPort) (ipMappingCache z) with
  | None => ""
  | Some address =>
    if decide (Source address = sourceRecordInternal) then "" else lb_IP address
  end.

Definition calibrate (now : Z) (window : list Z) (mem : R) (w : W) : W :=
  let s := w_source w in
  match is_calibrator s with
  | None => w
  | Some calibrator =>
    let s := is_count 0 0 0 1 (is_consecutiveFails s) s in
    let '(o, calibrator, strings) :=
      Observe window mem (workloadIdentities (w_collector w))
        (realDestinationFor now (w_collector w)) calibrator (is_strings s) in
    let w := with_source (is_set_calibrator (Some calibrator) (is_set_strings strings s)) w in
    match o with
    | None => if Exhausted calibrator then downgrade w else w
    | Some o =>
      let '(covers, w) := adopt o w in
      if covers then w else startTailer w
    end
  end.

(** A failed decode: enough of them in a row end the path. *)
Definition decode_failed (w : W) : W :=
  let s := w_source w in
  let n := is_consecutiveFails s + 1 in
  let w := with_source (is_count 0 0 1 0 n s) w in
  if ZTunnelIdentityDecodeFailureLimit <=? n then downgrade w else w.

Definition decode_succeeded (now : Z) (sample : ztunnelProbeSample) (w : W)
  : option (string * Z) * W :=
  let w := with_source (is_count 0 1 0 0 0 (w_source w)) w in
  let '(push, z) := apply now sample (w_collector w) in
  (push, with_collector z w).

(** [proc_mem] is the memory of a process by its pid. *)
Definition HandleEvent (now : Z) (proc_mem : Z → R) (event : ZTunnelConnectionResultEvent) (w : W)
  : option (string * Z) * W :=
  let w := with_source (is_count 1 0 0 0 (is_consecutiveFails (w_source w)) (w_source w)) w in
  if is_downgraded (w_source w) then (None, w)
  else
    let pid := i32 (result_PID event) in
    let w := with_source (memReaderFor pid (w_source w)) w in
    let mem := proc_mem pid in
    match is_decoder (w_source w) with
    | None => (None, calibrate now (Data event) mem w)
    | Some o =>
      let '(r, strings) := Decode o (Data event) mem (is_strings (w_source w)) in
      let w := with_source (is_set_strings strings (w_source w)) w in
      match r with
      | Ok sample => decode_succeeded now sample w
      | _ => (None, decode_failed w)
      end
    end.

Definition HandleCompactEvent (now : Z) (proc_mem : Z → R)
    (event : ZTunnelConnectionResultCompactEvent) (w : W) : option (string * Z) * W :=
  let w := with_source (is_count 1 0 0 0 (is_consecutiveFails (w_source w)) (w_source w)) w in
  if is_downgraded (w_source w) then (None, w)
  else
    let pid := i32 (compact_PID event) in
    let w := with_source (memReaderFor pid (w_source w)) w in
    let '(sample, strings) :=
      decodeCompact (is_decoder (w_source w)) event (proc_mem pid) (is_strings (w_source w)) in
    let w := with_source (is_set_strings strings (w_source w)) w in
    match sample with
    | Some sample => decode_succeeded now sample w
    | None => (None, if compactShippedIdentityPointer event then decode_failed w else w)
    end.

(** The state named in the statistics line. *)
Definition stats_state (s : Src) : string :=
  if is_downgraded s then "downgraded to access log"
  else match is_decoder s with None => "calibrating" | Some _ => "active" end.
End identity_source.

Definition identitySummary (id : option WorkloadIdentity) : string :=
  let field v := if decide (v = "") then "-" else v in
  match id with
  | None => "<none>"
  | Some id => field (Namespace id) +:+ "/" +:+ field (ServiceAccount id) +:+ "@" +:+ field (Cluster id)
  end.

Definition directionLabel (sample : ztunnelProbeSample) : string :=
  if negb (ps_DirectionKnown sample) then "unknown"
  else if ps_Outbound sample then "outbound" else "inbound".
