(* ===== verification/ZtIdentityLaws.v ===== *)
(** * Correctness of the identity probe

    The theorems about the definitions of ZtIdentity.v: the string cache, the two kinds
    of events, calibration, and the life of the identity source. *)

From stdpp Require Import base gmap list strings pretty sorting.
From Stdlib Require Import ZArith Lia Ascii.
From S2P Require Import Prelude GoStrings Interfaces Events Connection Ztunnel Elf ZtOffsets ZtIdentity.

(** ** The string cache *)

Section strings.
Context {R L : Type} `{!MemoryReader R} `{!LruCache Z string L}.

(** Every cached string is the one in memory. *)
Definition coherent (mem : R) (cache : L) : Prop :=
  ∀ p s, lru_view cache !! p = Some s → read_arcstr mem p = Some s.

(** The string of a pointer field. *)
Definition arcstr (mem : R) (ptr : Z) : option string :=
  if ptr =? 0 then Some "" else if negb (ptr mod 8 =? 0) then None else read_arcstr mem ptr.

Definition identity_of (mem : R) (ns sa label cluster : Z) : option WorkloadIdentity :=
  let '(namespace, serviceAccount) :=
    match arcstr mem ns, arcstr mem sa with Some ns, Some sa => (ns, sa) | _, _ => ("", "") end in
  let namespace := if decide (namespace = "") then default namespace (arcstr mem label)
                   else namespace in
  let cluster := default "" (arcstr mem cluster) in
  if decide (namespace = "" ∧ serviceAccount = "" ∧ cluster = "") then None
  else Some (MkWorkloadIdentity cluster namespace serviceAccount).

Lemma decodeArcStr_run mem ptr cache :
  coherent mem cache →
  ∃ cache', decodeArcStr mem ptr cache = (arcstr mem ptr, cache') ∧ coherent mem cache'.
Proof.
  intros Hc. unfold decodeArcStr, arcstr. destruct (ptr =? 0); [eauto|].
  destruct (negb _); [eauto|]. destruct (lru_Get ptr cache) as [hit cache1] eqn:Hg.
  pose proof (lru_Get_fst ptr cache) as Hhit. pose proof (lru_Get_view ptr cache) as Hview.
  rewrite Hg in Hhit, Hview. simpl in *. subst hit.
  assert (Hc1 : coherent mem cache1) by (intros p s; rewrite Hview; apply Hc).
  destruct (lru_view cache !! ptr) as [v|] eqn:Hv.
  - rewrite (Hc _ _ Hv). eauto.
  - destruct (read_arcstr mem ptr) as [s|] eqn:Hr; [|eauto].
    eexists; split; [done|]. intros p s' Hp.
    pose proof (lookup_weaken _ _ _ _ Hp (lru_Add_sub ptr s cache1)) as Hin.
    apply lookup_insert_Some in Hin as [[<- <-]|[_ Hin]]; [done|by apply Hc1].
Qed.

Lemma decodeIdentity_run mem ns sa label cl cache :
  coherent mem cache →
  ∃ cache', decodeIdentityFromPointers mem ns sa label cl cache =
    (identity_of mem ns sa label cl, cache') ∧ coherent mem cache'.
Proof.
  intros Hc. unfold decodeIdentityFromPointers, identity_of.
  destruct (decodeArcStr_run mem ns cache Hc) as (c1 & -> & Hc1).
  destruct (decodeArcStr_run mem sa c1 Hc1) as (c2 & -> & Hc2).
  destruct (match arcstr mem ns with Some _ => _ | None => _ end) as [namespace serviceAccount].
  case_decide.
  - destruct (decodeArcStr_run mem label c2 Hc2) as (c3 & -> & Hc3).
    destruct (decodeArcStr_run mem cl c3 Hc3) as (c4 & -> & Hc4). eauto.
  - destruct (decodeArcStr_run mem cl c2 Hc2) as (c4 & -> & Hc4). eauto.
Qed.

(** The sample of a window, without the cache. *)
Definition sample_of (o : Offsets) (window : list Z) (mem : R)
  : res decode_error ztunnelProbeSample :=
  if zlen window <? o_Window o then Err (ShortWindow (zlen window) (o_Window o))
  else
    match decodeSockAddrV4 window (o_Src o) with
    | None => Err (UnusableSource (o_Src o))
    | Some (srcIP, srcPort) =>
      let '(dstIP, dstPort) := default ("", 0) (decodeSockAddrV4 window (o_Dst o)) in
      let identity p cl ns := identity_of mem
        (readPointer window (i64 (p + o_IdentityNamespace o)))
        (readPointer window (i64 (p + o_IdentityServiceAccount o)))
        (readPointer window ns) (readPointer window cl) in
      let source := identity (o_SourcePrincipal o) (o_SourceCluster o) (o_SourceNamespace o) in
      let destination := identity (o_DestinationPrincipal o) (o_DestinationCluster o)
                           (o_DestinationNamespace o) in
      match source, destination with
      | None, None => Err NoIdentity
      | _, _ =>
        Ok (MkProbeSample srcIP srcPort dstIP dstPort
          (match readWindowByte window (o_Reporter o) with
           | Some b => b =? ztunnelReporterSource | None => false end)
          (negb (o_Reporter o =? OffsetAbsent))
          (match readWindowByte window (o_SecurityPolicy o) with
           | Some b => b =? ztunnelSecurityPolicyMutualTLS | None => true end)
          source destination)
      end
    end.

Lemma Decode_run o window mem cache :
  coherent mem cache →
  ∃ cache', Decode o window mem cache = (sample_of o window mem, cache') ∧ coherent mem cache'.
Proof.
  intros Hc. unfold Decode, sample_of. destruct (_ <? _); [eauto|].
  destruct (decodeSockAddrV4 window (o_Src o)) as [[srcIP srcPort]|]; [|eauto].
  destruct (default _ _) as [dstIP dstPort]. unfold decodeIdentity.
  set (p1 := readPointer window (i64 (o_SourcePrincipal o + _))).
  set (p2 := readPointer window (i64 (o_SourcePrincipal o + o_IdentityServiceAccount o))).
  destruct (decodeIdentity_run mem p1 p2 (readPointer window (o_SourceNamespace o))
    (readPointer window (o_SourceCluster o)) cache Hc) as (c1 & -> & Hc1).
  set (q1 := readPointer window (i64 (o_DestinationPrincipal o + o_IdentityNamespace o))).
  set (q2 := readPointer window (i64 (o_DestinationPrincipal o + o_IdentityServiceAccount o))).
  destruct (decodeIdentity_run mem q1 q2 (readPointer window (o_DestinationNamespace o))
    (readPointer window (o_DestinationCluster o)) c1 Hc1) as (c2 & -> & Hc2).
  exists c2. split; [|done]. by repeat case_match.
Qed.

(** A string of the process: the length with its flag, the counter, the bytes. *)
Definition holds_arcstr (mem : R) (ptr : Z) (flag : bool) (counter bytes : list Z) : Prop :=
  length counter = 8%nat ∧
  ReadAt 16 ptr mem = Some (le_bytes 8 (2 * zlen bytes + boolToInt32 flag) ++ counter) ∧
  ReadAt (length bytes) (ptr + 16) mem = Some bytes.

Definition printable (c : Z) : Prop := 0x20 ≤ c ≤ 0x7e.

Lemma read_arcstr_held mem ptr flag counter bytes :
  holds_arcstr mem ptr flag counter bytes →
  Forall printable bytes → 0 < zlen bytes ≤ arcStrMaxLen → 0 ≤ ptr < 2 ^ 63 →
  read_arcstr mem ptr = Some (string_of_bytes bytes).
Proof.
  intros (Hcnt & Hhead & Hdata) Hp Hlen Hptr. unfold read_arcstr.
  change (Z.to_nat arcStrDataOffset) with 16%nat. rewrite Hhead.
  rewrite take_app_length' by (by rewrite le_bytes_length).
  unfold arcStrMaxLen in *. rewrite le_Z_bytes by (destruct flag; simpl; lia).
  assert (Hs : Z.shiftr (2 * zlen bytes + boolToInt32 flag) 1 = zlen bytes).
  { rewrite Z.shiftr_div_pow2 by lia. change (2 ^ 1) with 2.
    destruct flag; simpl; [|rewrite Z.add_0_r, Z.mul_comm; by apply Z.div_mul].
    symmetry. apply Z.div_unique with 1; lia. }
  rewrite Hs. rewrite (proj2 (Z.eqb_neq _ _)) by lia. rewrite (proj2 (Z.ltb_ge _ _)) by lia.
  cbn [orb]. unfold zlen at 1. rewrite Nat2Z.id. unfold u64.
  rewrite Z.mod_small by lia. rewrite Hdata.
  assert (Hpl : isPlausibleIdentityBytes bytes = true).
  { apply forallb_forall. intros c Hc. rewrite <-list_elem_of_In in Hc.
    rewrite Forall_forall in Hp. specialize (Hp c Hc). unfold printable in Hp.
    rewrite negb_true_iff, orb_false_iff, !Z.ltb_ge. lia. }
  by rewrite Hpl.
Qed.

(** A string the process holds at an aligned pointer decodes to itself, whatever
    the flag and the counter in its header are, and whether or not it is cached; and
    decoding keeps the cache in agreement with the memory. *)
Theorem decodeArcStr_roundtrip mem ptr flag counter bytes cache :
  holds_arcstr mem ptr flag counter bytes →
  Forall printable bytes → 0 < zlen bytes ≤ arcStrMaxLen →
  0 < ptr < 2 ^ 63 → (8 | ptr) → coherent mem cache →
  ∃ cache', decodeArcStr mem ptr cache = (Some (string_of_bytes bytes), cache') ∧
    coherent mem cache'.
Proof.
  intros Hh Hp Hlen Hptr Hal Hc. destruct (decodeArcStr_run mem ptr cache Hc) as (c' & -> & Hc').
  exists c'. split; [|done]. f_equal. unfold arcstr.
  rewrite (proj2 (Z.eqb_neq _ _)) by lia.
  rewrite (proj2 (Z.eqb_eq (ptr mod 8) 0)) by (by apply Z.mod_divide).
  eapply read_arcstr_held; [done..|lia].
Qed.
End strings.

(** ** The two kinds of events *)

Lemma lor_shift x y n : 0 ≤ n → 0 ≤ y < 2 ^ n → Z.lor (Z.shiftl x n) y = x * 2 ^ n + y.
Proof.
  intros Hn Hy. apply Z.bits_inj_iff'. intros i Hi. rewrite Z.lor_spec.
  destruct (Z.lt_ge_cases i n).
  - rewrite Z.shiftl_spec_low by done. rewrite <-(Z.mod_pow2_bits_low (x * 2 ^ n + y) n) by done.
    rewrite Z.add_comm, Z.mod_add by lia. by rewrite Z.mod_small.
  - rewrite Z.shiftl_spec_high by lia.
    replace i with ((i - n) + n) at 2 3 by lia. rewrite <-!Z.div_pow2_bits by lia.
    rewrite (Z.div_small y) by done. rewrite Z.div_add_l, (Z.div_small y) by lia.
    by rewrite Z.bits_0, orb_false_r, Z.add_0_r.
Qed.

Definition quad (a b c d : Z) : Z :=
  Z.lor (Z.lor (Z.lor (Z.shiftl a 24) (Z.shiftl b 16)) (Z.shiftl c 8)) d.

Lemma quad_value a b c d :
  is_byte a → is_byte b → is_byte c → is_byte d →
  quad a b c d = a * 2 ^ 24 + b * 2 ^ 16 + c * 2 ^ 8 + d.
Proof.
  unfold is_byte, quad. intros.
  rewrite (lor_shift a) by (rewrite ?Z.shiftl_mul_pow2 by lia; lia).
  rewrite (Z.shiftl_mul_pow2 b) by lia.
  replace (a * 2 ^ 24 + b * 2 ^ 16) with (Z.shiftl (a * 2 ^ 8 + b) 16)
    by (rewrite Z.shiftl_mul_pow2 by lia; lia).
  rewrite lor_shift by (rewrite ?Z.shiftl_mul_pow2 by lia; lia).
  rewrite (Z.shiftl_mul_pow2 c) by lia.
  replace ((a * 2 ^ 8 + b) * 2 ^ 16 + c * 2 ^ 8) with (Z.shiftl (a * 2 ^ 16 + b * 2 ^ 8 + c) 8)
    by (rewrite Z.shiftl_mul_pow2 by lia; lia).
  rewrite lor_shift by lia. rewrite Z.shiftl_mul_pow2 by lia. lia.
Qed.

Lemma quad_format a b c d :
  is_byte a → is_byte b → is_byte c → is_byte d → formatZTunnelIPv4 (quad a b c d) = dotted a b c d.
Proof.
  intros Ha Hb Hc Hd. unfold formatZTunnelIPv4. rewrite quad_value by done. unfold is_byte in *.
  change 255 with (Z.ones 8). rewrite !Z.shiftr_div_pow2, !Z.land_ones by lia. f_equal.
  - symmetry. apply Z.div_unique with (b * 2 ^ 16 + c * 2 ^ 8 + d); lia.
  - symmetry. replace ((a * 2 ^ 24 + b * 2 ^ 16 + c * 2 ^ 8 + d) / 2 ^ 16) with (a * 256 + b)
      by (apply Z.div_unique with (c * 2 ^ 8 + d); lia).
    apply Z.mod_unique with a; lia.
  - symmetry. replace ((a * 2 ^ 24 + b * 2 ^ 16 + c * 2 ^ 8 + d) / 2 ^ 8) with (a * 2 ^ 16 + b * 256 + c)
      by (apply Z.div_unique with d; lia).
    apply Z.mod_unique with (a * 256 + b); lia.
  - symmetry. apply Z.mod_unique with (a * 2 ^ 16 + b * 256 + c); lia.
Qed.

Lemma quad_zero a b c d :
  is_byte a → is_byte b → is_byte c → is_byte d →
  (quad a b c d =? 0) = (a =? 0) && (b =? 0) && (c =? 0) && (d =? 0).
Proof.
  intros. rewrite quad_value by done. unfold is_byte in *.
  apply eq_true_iff_eq. rewrite !andb_true_iff, !Z.eqb_eq. lia.
Qed.

Section events.
Context {R : Type} `{!MemoryReader R}.

Section window.
Variables (um : R) (self : Z) (data : list Z).
Hypothesis Hself : 0 ≤ self ∧ self + ZTunnelConnectionResultWindow ≤ 2 ^ 64.
Hypothesis Hdata : ReadAt (Z.to_nat ZTunnelConnectionResultWindow) self um = Some data.

Lemma window_length : zlen data = ZTunnelConnectionResultWindow.
Proof. unfold zlen. by rewrite (ReadAt_length _ _ _ _ Hdata). Qed.

Lemma window_part off k :
  0 ≤ off → off + Z.of_nat k ≤ ZTunnelConnectionResultWindow → (0 < k)%nat →
  ReadAt k (u64 (self + off)) um = Some (bytes_at data off k) ∧
  Forall is_byte (bytes_at data off k) ∧ length (bytes_at data off k) = k.
Proof.
  intros Ho Hk Hpos. unfold ZTunnelConnectionResultWindow in *.
  assert (Hr : ReadAt k (u64 (self + off)) um = Some (bytes_at data off k)).
  { unfold u64. rewrite Z.mod_small by lia. unfold bytes_at.
    rewrite <-(Z2Nat.id off) at 1 by done. apply (ReadAt_part _ _ _ _ _ _ Hdata). lia. }
  split; [done|]. split; [by eapply ReadAt_bytes|by eapply ReadAt_length].
Qed.

(** Both paths read the same address. *)
Lemma sockaddr_agrees off :
  inside ZTunnelConnectionResultWindow off 8 →
  ∃ ip port, get_socket_addr_ip_in_ztunnel um (u64 (self + off)) = Some (ip, port) ∧
    decodeSockAddrV4 data off =
      if (ip =? 0) || (port =? 0) then None else Some (formatZTunnelIPv4 ip, port).
Proof.
  intros [Ho Hin]. destruct (window_part off 8) as (Hr & Hb & Hl); [done|lia|lia|].
  unfold get_socket_addr_ip_in_ztunnel. rewrite Hr. unfold decodeSockAddrV4.
  rewrite window_length. unfold ZTunnelConnectionResultWindow in *. rewrite i64_small by lia.
  rewrite (proj2 (Z.ltb_ge off 0)), (proj2 (Z.ltb_ge 512 (off + 8))) by lia. cbn [orb].
  assert (H4 : bytes_at data (off + 2) 4 = take 4 (drop 2 (bytes_at data off 8))).
  { unfold bytes_at. rewrite Z2Nat.inj_add by lia. rewrite <-drop_drop, skipn_firstn_comm.
    by rewrite take_take. }
  assert (H2 : bytes_at data (off + 6) 2 = take 2 (drop 6 (bytes_at data off 8))).
  { unfold bytes_at. rewrite Z2Nat.inj_add by lia. rewrite <-drop_drop, skipn_firstn_comm.
    by rewrite take_take. }
  rewrite H4, H2. destruct (bytes_at data off 8) as [|x0 [|x1 [|a [|b [|c [|d [|p0 [|p1 [|]]]]]]]]];
    try discriminate Hl. cbn [drop take].
  rewrite !Forall_cons in Hb. destruct Hb as (_ & _ & Ha & Hb & Hc & Hd & Hp0 & Hp1 & _).
  exists (quad a b c d), (p1 * 2 ^ 8 + p0). split.
  { rewrite <-(lor_shift p1 p0 8) by (unfold is_byte in *; lia). reflexivity. }
  rewrite quad_zero, quad_format by done.
  assert (le_Z [p0; p1] = p1 * 2 ^ 8 + p0) as -> by (cbn [le_Z]; lia).
  destruct (_ && _); [done|]. cbn [orb]. by destruct (_ =? 0).
Qed.

Lemma pointer_agrees off :
  off = OffsetAbsent ∨ inside ZTunnelConnectionResultWindow off 8 →
  read_ztunnel_compact_ptr um self off = readPointer data off.
Proof.
  unfold read_ztunnel_compact_ptr, readPointer. rewrite window_length.
  intros [->|[Ho Hin]]; [done|]. unfold ZTunnelConnectionResultWindow in *.
  rewrite i64_small by lia. rewrite (proj2 (Z.ltb_ge off 0)), (proj2 (Z.ltb_ge 512 (off + 8))) by lia.
  cbn [orb]. destruct (window_part off 8) as (-> & _); [done|unfold ZTunnelConnectionResultWindow; lia|lia|done].
Qed.

Lemma enum_agrees off :
  off = OffsetAbsent ∨ 0 ≤ off < ZTunnelConnectionResultWindow →
  readWindowByte data off =
    (if off =? OffsetAbsent then None else Some (read_enum_byte um self off)).
Proof.
  unfold readWindowByte, read_enum_byte. rewrite window_length.
  intros [->|[Ho Hin]]; [done|]. rewrite (proj2 (Z.eqb_neq off (-1))) by lia.
  rewrite (proj2 (Z.ltb_ge off 0)), (proj2 (Z.leb_gt _ off)) by lia. cbn [orb].
  destruct (window_part off 1) as (-> & _ & Hl); [done|lia|lia|].
  unfold bytes_at in *. destruct (drop (Z.to_nat off) data) as [|x l] eqn:Hd; [done|].
  rewrite <-(Nat.add_0_r (Z.to_nat off)), <-lookup_drop, Hd. simpl. f_equal. lia.
Qed.
(** The kernel's view of a member of an identity. *)
Lemma member_agrees o p m :
  o_Window o ≤ ZTunnelConnectionResultWindow →
  inside (o_Window o) p (spiffe_size o) → inside (spiffe_size o) m 8 →
  read_ztunnel_compact_ptr um self (if i32 p <? 0 then -1 else i32 (i32 p + i32 m)) =
    readPointer data (i64 (p + m)).
Proof.
  intros Hw [Hp1 Hp2] [Hm1 Hm2]. unfold ZTunnelConnectionResultWindow in *.
  rewrite !i32_small by (rewrite ?i32_small by lia; lia). rewrite i64_small by lia.
  rewrite (proj2 (Z.ltb_ge p 0)) by lia. apply pointer_agrees. right.
  unfold inside, ZTunnelConnectionResultWindow. lia.
Qed.
(** What the probe needs of an offset set. *)
Definition addressed (off : Z) : Prop :=
  i32 off = off ∧ inside ZTunnelConnectionResultWindow off 8.
Definition optional (off : Z) : Prop :=
  i32 off = off ∧ (off = OffsetAbsent ∨ inside ZTunnelConnectionResultWindow off 8).
Definition enumerated (off : Z) : Prop :=
  i32 off = off ∧ (off = OffsetAbsent ∨ 0 ≤ off < ZTunnelConnectionResultWindow).

Record probed (o : Offsets) : Prop := {
  pr_window : o_Window o ≤ ZTunnelConnectionResultWindow;
  pr_src : addressed (o_Src o);
  pr_dst : addressed (o_Dst o);
  pr_enums : enumerated (o_Reporter o) ∧ enumerated (o_SecurityPolicy o);
  pr_principals : inside (o_Window o) (o_SourcePrincipal o) (spiffe_size o) ∧
    inside (o_Window o) (o_DestinationPrincipal o) (spiffe_size o);
  pr_members : inside (spiffe_size o) (o_IdentityNamespace o) 8 ∧
    inside (spiffe_size o) (o_IdentityServiceAccount o) 8;
  pr_labels : optional (o_SourceNamespace o) ∧ optional (o_DestinationNamespace o) ∧
    optional (o_SourceCluster o) ∧ optional (o_DestinationCluster o)
}.

Lemma compact_decodes {L : Type} `{!LruCache Z string L} o (mem : R) pid (cache : L) :
  probed o →
  decodeCompact (Some o) (compact_event um pid self (offsets_config o)) mem cache =
    (match fst (Decode o data mem cache) with Ok sample => Some sample | _ => None end,
     snd (Decode o data mem cache)).
Proof.
  intros [Hw [Isrc Psrc] [Idst Pdst] [[Irep Erep] [Ipol Epol]] [Psp Pdp] [Mns Msa]
    ([Isn Psn] & [Idn Pdn] & [Isc Psc] & [Idc Pdc])].
  destruct (sockaddr_agrees (o_Src o) Psrc) as (sip & sport & Hsrc & Hsrc').
  destruct (sockaddr_agrees (o_Dst o) Pdst) as (dip & dport & Hdst & Hdst').
  unfold compact_event, offsets_config. cbn [cfg_Src cfg_Dst cfg_Reporter cfg_SecurityPolicy
    cfg_SourcePrincipal cfg_DestinationPrincipal cfg_SourceNamespace cfg_DestinationNamespace
    cfg_SourceCluster cfg_DestinationCluster cfg_IdentityNamespace cfg_IdentityServiceAccount].
  rewrite Isrc, Idst, Irep, Ipol, Isn, Idn, Isc, Idc, Hsrc, Hdst. cbn [default id].
  rewrite !(member_agrees o) by done. rewrite !pointer_agrees by done.
  unfold Decode, decodeCompact. cbn [SrcIP SrcPort DstIP DstPort HasDirection Reporter SecurityPolicy
    SrcPrincipalNsPtr SrcPrincipalSaPtr DstPrincipalNsPtr DstPrincipalSaPtr SrcNamespacePtr
    DstNamespacePtr SrcClusterPtr DstClusterPtr].
  rewrite window_length, (proj2 (Z.ltb_ge _ (o_Window o))) by done. rewrite Hsrc', Hdst'.
  destruct ((sip =? 0) || (sport =? 0)); [done|].
  rewrite !enum_agrees by done. unfold decodeIdentity.
  assert (Hd : (if negb (dip =? 0) && negb (dport =? 0) then (formatZTunnelIPv4 dip, dport) else ("", 0)) =
    default ("", 0) (if (dip =? 0) || (dport =? 0) then None else Some (formatZTunnelIPv4 dip, dport)))
    by (by destruct (dip =? 0), (dport =? 0)).
  rewrite Hd. destruct (default _ _) as [dstIP dstPort].
  destruct (decodeIdentityFromPointers _ _ _ _ _ cache) as [source c1].
  destruct (decodeIdentityFromPointers _ _ _ _ _ c1) as [destination c2].
  assert (Hk : negb ((if 0 <=? o_Reporter o then 1 else 0) =? 0) = negb (o_Reporter o =? OffsetAbsent)).
  { destruct Erep as [->|?]; [done|].
    rewrite (proj2 (Z.leb_le 0 (o_Reporter o))), (proj2 (Z.eqb_neq (o_Reporter o) (-1))) by lia.
    done. }
  rewrite Hk. by destruct source, destination, (o_Reporter o =? OffsetAbsent),
    (o_SecurityPolicy o =? OffsetAbsent).
Qed.
End window.

Context {L : Type} `{!LruCache Z string L}.

(** C24: Once the offsets are known the kernel sends a compact event instead of the
    window of a connection, and both decode to the same sample with the same cache: for
    a well-formed offset set that has the destination address and both principals, as
    every set from debug info or the table does, whatever the memory holds. *)
Theorem compact_equals_window o (um mem : R) pid self data (cache : L) :
  offsets_ok o → o_Window o ≤ ZTunnelConnectionResultWindow →
  o_Dst o ≠ OffsetAbsent → o_SourcePrincipal o ≠ OffsetAbsent →
  0 < self ∧ self + ZTunnelConnectionResultWindow ≤ 2 ^ 64 →
  ReadAt (Z.to_nat ZTunnelConnectionResultWindow) self um = Some data →
  connection_result_record_internal um pid self None =
    EmitWindow (MkConnectionResultEvent pid ZTunnelConnectionResultWindow data) ∧
  ∃ e, connection_result_record_internal um pid self (Some (offsets_config o)) = EmitCompact e ∧
    decodeCompact (Some o) e mem cache =
      (match fst (Decode o data mem cache) with Ok sample => Some sample | _ => None end,
       snd (Decode o data mem cache)).
Proof.
  intros Hok Hw Hdst Hsp [Hs1 Hs2] Hdata. unfold connection_result_record_internal.
  rewrite (proj2 (Z.eqb_neq self 0)) by lia. rewrite Hdata. split; [done|].
  eexists. split; [reflexivity|].
  assert (Hself : 0 ≤ self ∧ self + ZTunnelConnectionResultWindow ≤ 2 ^ 64) by lia.
  destruct Hok as [Hwin [Psrc _] Pdst _ [Pdp _] Psp [Psn Pdn] [Psc Pdc] [Erep Epol]
    (_ & [Mns _] & [Msa _]) _].
  destruct Pdst as [?|[Pdst _]]; [done|]. destruct Psp as [?|[Psp _]]; [done|].
  unfold optional_slot, slot, optional_byte in *. rewrite <-spiffe_size_room in *.
  apply compact_decodes; [lia|done|].
  unfold inside, ZTunnelConnectionResultWindow in *.
  constructor; unfold addressed, enumerated, optional, inside,
    ZTunnelConnectionResultWindow; repeat split; try apply i32_small; lia.
Qed.
End events.

(** ** The key of a vote *)

Fixpoint lacks (c : ascii) (s : string) : Prop :=
  match s with EmptyString => True | String d s' => d ≠ c ∧ lacks c s' end.

Lemma lacks_app c s t : lacks c (s +:+ t) ↔ lacks c s ∧ lacks c t.
Proof. induction s as [|d s IH]; [by simpl; tauto|]. rewrite str_app_cons. simpl. tauto. Qed.

Lemma lacks_cut c a b r r' :
  lacks c a → lacks c b → a +:+ String c r = b +:+ String c r' → a = b ∧ r = r'.
Proof.
  revert b. induction a as [|x a IH]; intros [|y b]; simpl.
  - by intros _ _ [= ->].
  - intros _ [Hy _] [= -> _]. done.
  - intros [Hx _] _ [= -> _]. done.
  - intros [_ Ha] [_ Hb] [= -> H]. by destruct (IH b Ha Hb H) as [-> ->].
Qed.

Lemma lacks_pretty_N_go x s : lacks " " s → lacks " " (pretty_N_go x s).
Proof.
  revert s. induction (N.lt_wf_0 x) as [x _ IH]. intros s Hs.
  destruct (decide (x = 0)%N) as [->|Hx]; [by rewrite pretty_N_go_0|].
  rewrite pretty_N_go_step by lia. apply IH; [apply N.div_lt; lia|]. simpl. split; [|done].
  unfold pretty_N_char. by repeat case_match.
Qed.

Lemma lacks_pretty_N (n : N) : lacks " " (pretty n).
Proof.
  unfold pretty, pretty_N. destruct (decide (n = 0%N)); [done|]. by apply lacks_pretty_N_go.
Qed.

Lemma lacks_pretty (z : Z) : lacks " " (pretty z).
Proof.
  destruct z as [|p|p]; [done|apply (lacks_pretty_N (Npos p))|].
  change (lacks " " ("-" +:+ pretty (Npos p))). apply lacks_app. split; [done|apply lacks_pretty_N].
Qed.

Lemma Join_inj l1 l2 :
  length l1 = length l2 → Forall (lacks " ") l1 → Forall (lacks " ") l2 →
  Join l1 " " = Join l2 " " → l1 = l2.
Proof.
  revert l2. induction l1 as [|x l1 IH]; intros [|y l2] Hl H1 H2 Hj; try done.
  apply Forall_cons in H1 as [Hx H1]. apply Forall_cons in H2 as [Hy H2].
  destruct l1 as [|x' l1], l2 as [|y' l2]; try done; [by simplify_eq/=|].
  change (x +:+ String " " (Join (x' :: l1) " ") = y +:+ String " " (Join (y' :: l2) " ")) in Hj.
  destruct (lacks_cut _ _ _ _ _ Hx Hy Hj) as [-> Hj']. f_equal. apply IH; [|done..].
  simpl in *. lia.
Qed.

Lemma offsets_fields_lacks o : lacks " " (o_Source o) → Forall (lacks " ") (offsets_fields o).
Proof.
  intros Hs. unfold offsets_fields.
  repeat constructor; try done; try apply lacks_pretty; try (by destruct (o_HasDirection o)).
Qed.

Lemma offsets_key_inj o1 o2 :
  o_Source o1 = OffsetSourceCalibrated → o_Source o2 = OffsetSourceCalibrated →
  offsets_key o1 = offsets_key o2 → o1 = o2.
Proof.
  intros H1 H2 Hk. unfold offsets_key in Hk.
  assert (Hj : Join (offsets_fields o1) " " = Join (offsets_fields o2) " ").
  { apply (f_equal (str_drop 1)) in Hk. by apply (str_app_inj_r _ _ "}") in Hk. }
  apply Join_inj in Hj; [|done|apply offsets_fields_lacks; by rewrite ?H1, ?H2..].
  unfold offsets_fields in Hj. simplify_eq.
  destruct o1, o2. simpl in *. f_equal; try done.
  by repeat match goal with b : bool |- _ => destruct b end.
Qed.

(** ** Calibration *)

Lemma elem_of_slots off window : off ∈ slots window → 0 ≤ off ∧ off + 8 ≤ window ∧ (8 | off).
Proof.
  unfold slots. rewrite list_elem_of_fmap. intros (i & -> & Hi%elem_of_seqZ).
  split; [lia|]. split; [|by exists i; lia].
  pose proof (Z.mul_div_le window 8). lia.
Qed.

Lemma anchor_loop_Some window truth realDest offs off id :
  anchor_loop window truth realDest offs = Some (off, id) →
  off ∈ offs ∧ Namespace id ≠ "" ∧ ServiceAccount id ≠ "" ∧
  ∃ ip port, decodeSockAddrV4 window off = Some (ip, port) ∧ truth !! realDest ip port = Some id.
Proof.
  induction offs as [|o offs IH]; [done|]. cbn [anchor_loop].
  assert (Hskip : anchor_loop window truth realDest offs = Some (off, id) →
    off ∈ o :: offs ∧ Namespace id ≠ "" ∧ ServiceAccount id ≠ "" ∧
    ∃ ip port, decodeSockAddrV4 window off = Some (ip, port) ∧ truth !! realDest ip port = Some id).
  { intros (? & ?)%IH. split; [by apply list_elem_of_further|done]. }
  destruct (decodeSockAddrV4 window o) as [[ip port]|] eqn:Hd; [|done].
  case_decide; [done|]. destruct (truth !! realDest ip port) as [id'|] eqn:Ht; [|done].
  case_decide as Hne; [done|]. intros [= <- <-].
  split; [apply list_elem_of_here|]. naive_solver.
Qed.

Lemma find_members_spec strings base ns sa n m :
  find_members strings base ns sa = (n, m) →
  (n = OffsetAbsent ∨ (n ∈ identity_slots ∧ default "" (strings !! (base + n)) = ns)) ∧
  (m = OffsetAbsent ∨ (m ∈ identity_slots ∧ default "" (strings !! (base + m)) = sa)).
Proof.
  unfold find_members. intros H.
  set (P := λ p : Z * Z,
    (p.1 = OffsetAbsent ∨ (p.1 ∈ identity_slots ∧ default "" (strings !! (base + p.1)) = ns)) ∧
    (p.2 = OffsetAbsent ∨ (p.2 ∈ identity_slots ∧ default "" (strings !! (base + p.2)) = sa))).
  change (P (n, m)). rewrite <-H. clear H n m.
  assert (Hgen : ∀ l p, (∀ x, x ∈ l → x ∈ identity_slots) → P p → P (foldl (λ '(n, m) slot,
      let s := default "" (strings !! (base + slot)) in
      if decide (s = ns) then (slot, m) else if decide (s = sa) then (n, slot) else (n, m)) p l)).
  { induction l as [|x l IH]; intros [n m] Hl [H1 H2]; [done|]. simpl foldl. apply IH; [set_solver|].
    assert (x ∈ identity_slots) by set_solver.
    case_decide; [split; simpl; auto|]. case_decide; split; simpl; auto. }
  apply Hgen; [done|]. split; by left.
Qed.

Lemma triple_loop_Some strings window ns sa bases base mem :
  ns ≠ "" → sa ≠ "" → triple_loop strings window ns sa bases = Some (base, mem) →
  base ∈ bases ∧ base + IdentitySpiffeSize ≤ window ∧
  im_namespace mem ∈ identity_slots ∧ im_serviceAccount mem ∈ identity_slots ∧
  strings !! (base + im_namespace mem) = Some ns ∧ strings !! (base + im_serviceAccount mem) = Some sa.
Proof.
  intros Hns Hsa. induction bases as [|b bases IH]; [done|]. cbn [triple_loop].
  assert (Hskip : triple_loop strings window ns sa bases = Some (base, mem) →
    base ∈ b :: bases ∧ base + IdentitySpiffeSize ≤ window ∧
    im_namespace mem ∈ identity_slots ∧ im_serviceAccount mem ∈ identity_slots ∧
    strings !! (base + im_namespace mem) = Some ns ∧ strings !! (base + im_serviceAccount mem) = Some sa).
  { intros (? & ?)%IH. split; [by apply list_elem_of_further|done]. }
  destruct (Z.ltb_spec window (b + IdentitySpiffeSize)); [done|].
  destruct (find_members strings b ns sa) as [n m] eqn:Hf.
  apply find_members_spec in Hf as [Hn Hm].
  destruct (_ || _) eqn:Hc; [done|].
  rewrite !orb_false_iff, !Z.eqb_neq in Hc. destruct Hc as [[Hn' Hm'] _].
  destruct Hn as [?|[Hin Hsn]]; [done|]. destruct Hm as [?|[Him Hsm]]; [done|].
  intros [= <- <-]. split; [apply list_elem_of_here|]. cbn [im_namespace im_serviceAccount].
  split_and!; try done.
  - destruct (strings !! (b + n)); simpl in *; congruence.
  - destruct (strings !! (b + m)); simpl in *; congruence.
Qed.

Lemma findNearestLabel_spec `{RangeOrder} strings principal value :
  findNearestLabel strings principal value = OffsetAbsent ∨
  strings !! findNearestLabel strings principal value = Some value.
Proof.
  unfold findNearestLabel. generalize (sortedOffsets strings). intros l.
  assert (Hgen : ∀ p, (p.1 = OffsetAbsent ∨ strings !! p.1 = Some value) →
    let r := foldl (nearer strings principal value) p l in
    r.1 = OffsetAbsent ∨ strings !! r.1 = Some value); [|by apply Hgen; left].
  induction l as [|off l IH]; intros p Hp; [done|]. simpl foldl. apply IH.
  unfold nearer. destruct (_ && _); [done|].
  destruct (bool_decide (strings !! off = Some value)) eqn:Hb; simpl; [|done].
  apply bool_decide_eq_true in Hb. destruct (_ || _); simpl; [by right|done].
Qed.

Section calibration.
Context `{RangeOrder} {R L : Type} `{!MemoryReader R} `{!LruCache Z string L}.
Variable mem : R.

(** The strings of a window, without the cache. *)
Definition strings_of (window : list Z) (offs : list Z) (found : gmap Z string) : gmap Z string :=
  foldl (λ found off,
      if readPointer window off =? 0 then found
      else match arcstr mem (readPointer window off) with
           | Some s => if decide (s = "") then found else <[off := s]> found
           | None => found
           end) found offs.

Lemma scan_run window offs found (cache : L) :
  coherent mem cache →
  ∃ cache', foldl (scan_slot window mem) (found, cache) offs = (strings_of window offs found, cache') ∧
    coherent mem cache'.
Proof.
  revert found cache. induction offs as [|off offs IH]; intros found cache Hc; [by eauto|].
  cbn [foldl strings_of]. unfold scan_slot at 2. destruct (readPointer window off =? 0); [by apply IH|].
  destruct (decodeArcStr_run mem (readPointer window off) cache Hc) as (c1 & -> & Hc1).
  by apply IH.
Qed.

Lemma strings_of_spec window offs off s :
  strings_of window offs ∅ !! off = Some s →
  off ∈ offs ∧ arcstr mem (readPointer window off) = Some s ∧ s ≠ "".
Proof.
  assert (Hgen : ∀ found, strings_of window offs found !! off = Some s →
    found !! off = Some s ∨
    (off ∈ offs ∧ arcstr mem (readPointer window off) = Some s ∧ s ≠ "")).
  { induction offs as [|o offs IH]; intros found; [by left|]. cbn [strings_of foldl].
    intros [Hf|(? & ?)]%IH; [|right; split; [by apply list_elem_of_further|done]].
    destruct (readPointer window o =? 0); [by left|].
    destruct (arcstr mem (readPointer window o)) as [s'|] eqn:Hs; [|by left].
    case_decide; [by left|].
    apply lookup_insert_Some in Hf as [[<- <-]|[_ ?]]; [right|by left].
    split; [apply list_elem_of_here|done]. }
  intros [?|?]%Hgen; [by rewrite lookup_empty in *|done].
Qed.

Definition derive_of (c : ztunnelOffsetCalibrator) (window : list Z)
    (truth : gmap string WorkloadIdentity) (realDest : string → Z → string) : option Offsets :=
  match anchor c window truth realDest with
  | None => None
  | Some (srcOffset, destination) =>
    let strings := strings_of window (slots (cal_window c)) ∅ in
    if decide (strings = ∅) then None
    else
      match findIdentityTriple strings (cal_window c) (Namespace destination)
              (ServiceAccount destination) with
      | None => None
      | Some (principal, members) =>
        Some (calibrated_offsets (cal_window c) srcOffset strings principal members destination)
      end
  end.

Lemma derive_run c window truth realDest (cache : L) :
  coherent mem cache →
  ∃ cache', deriveFromSample c window mem truth realDest cache =
    (derive_of c window truth realDest, cache') ∧ coherent mem cache'.
Proof.
  intros Hc. unfold deriveFromSample, derive_of, scanStrings.
  destruct (anchor c window truth realDest) as [[src dest]|]; [|eauto].
  destruct (scan_run window (slots (cal_window c)) ∅ cache Hc) as (c1 & -> & Hc1).
  case_decide; [eauto|]. destruct (findIdentityTriple _ _ _ _) as [[p m]|]; eauto.
Qed.

(** The members of a derived set lie where the names were found. *)
Lemma derived_members c window truth realDest o :
  derive_of c window truth realDest = Some o → cal_window c < 2 ^ 62 →
  o_Source o = OffsetSourceCalibrated ∧ o_Window o = cal_window c ∧
  ∃ dest ip port, decodeSockAddrV4 window (o_Src o) = Some (ip, port) ∧
    truth !! realDest ip port = Some dest ∧ Namespace dest ≠ "" ∧
    arcstr mem (readPointer window (i64 (o_DestinationPrincipal o + o_IdentityNamespace o))) =
      Some (Namespace dest) ∧
    arcstr mem (readPointer window (i64 (o_DestinationPrincipal o + o_IdentityServiceAccount o))) =
      Some (ServiceAccount dest) ∧
    (o_DestinationCluster o = OffsetAbsent ∨
     arcstr mem (readPointer window (o_DestinationCluster o)) = Some (Cluster dest)).
Proof.
  unfold derive_of, anchor. intros Hd Hw.
  destruct (anchor_loop _ _ _ _) as [[src dest]|] eqn:Ha; [|done].
  apply anchor_loop_Some in Ha as (_ & Hns & Hsa & ip & port & Hdec & Ht).
  set (strings := strings_of window (slots (cal_window c)) ∅) in *.
  case_decide; [done|]. unfold findIdentityTriple in Hd.
  destruct (triple_loop _ _ _ _ _) as [[base members]|] eqn:Htr; [|done].
  apply triple_loop_Some in Htr as (_ & Hb & Hin & Him & Hsn & Hsm); [|done..].
  injection Hd as <-. split; [done|]. split; [done|]. exists dest, ip, port.
  cbn [calibrated_offsets o_Src o_DestinationPrincipal o_IdentityNamespace o_IdentityServiceAccount
    o_DestinationCluster].
  apply strings_of_spec in Hsn as (Hslot1%elem_of_slots & Hsn & _).
  apply strings_of_spec in Hsm as (Hslot2%elem_of_slots & Hsm & _).
  rewrite !i64_small by lia. split_and!; try done.
  unfold findClusterLabel. case_decide; [by left|].
  destruct (findNearestLabel_spec strings base (Cluster dest)) as [?|Hl]; [by left|right].
  by apply strings_of_spec in Hl as (_ & Hl & _).
Qed.

(** A derived set decodes its sample to the identity it was anchored on. *)
Lemma derived_decodes c window truth realDest o :
  derive_of c window truth realDest = Some o → cal_window c < 2 ^ 62 →
  cal_window c ≤ zlen window →
  ∃ dest sample cl, sample_of o window mem = Ok sample ∧
    truth !! realDest (ps_SrcIP sample) (ps_SrcPort sample) = Some dest ∧
    ps_Destination sample = Some (MkWorkloadIdentity cl (Namespace dest) (ServiceAccount dest)) ∧
    (cl = "" ∨ cl = Cluster dest).
Proof.
  intros Hd Hw Hlen.
  destruct (derived_members c window truth realDest o Hd Hw)
    as (_ & Hwin & dest & ip & port & Hsrc & Ht & Hns & Hn & Hs & Hcl).
  assert (∃ cl, default "" (arcstr mem (readPointer window (o_DestinationCluster o))) = cl ∧
    (cl = "" ∨ cl = Cluster dest)) as (cl & Hcl' & Hor).
  { destruct Hcl as [->| ->]; eexists; (split; [done|]); [by left|by right]. }
  exists dest. unfold sample_of. rewrite Hwin, (proj2 (Z.ltb_ge _ _) Hlen), Hsrc.
  destruct (default _ (decodeSockAddrV4 window (o_Dst o))) as [dstIP dstPort].
  assert (Hid : ∀ label, identity_of mem
      (readPointer window (i64 (o_DestinationPrincipal o + o_IdentityNamespace o)))
      (readPointer window (i64 (o_DestinationPrincipal o + o_IdentityServiceAccount o)))
      label (readPointer window (o_DestinationCluster o)) =
    Some (MkWorkloadIdentity cl (Namespace dest) (ServiceAccount dest))).
  { intros label. unfold identity_of. rewrite Hn, Hs, Hcl'. cbn beta iota zeta.
    rewrite (decide_False (P := Namespace dest = "")) by done.
    rewrite decide_False by (intros [? _]; done). done. }
  rewrite Hid. destruct (identity_of _ _ _ _ _); eexists _, cl; (split; [reflexivity|done]).
Qed.

(** ** Votes *)

Definition agreeing (o : Offsets) (hist : list Offsets) : Z := zlen (filter (λ x, x = o) hist).

(** The votes are the candidates seen so far. *)
Definition votes_ok (hist : list Offsets) (c : ztunnelOffsetCalibrator) : Prop :=
  Forall (λ o, o_Source o = OffsetSourceCalibrated) hist ∧
  ∀ o, o_Source o = OffsetSourceCalibrated →
    votes c !! offsets_key o =
      if decide (o ∈ hist) then Some (MkCandidate o (agreeing o hist)) else None.

Lemma votes_ok_new window : votes_ok [] (newZTunnelOffsetCalibrator window).
Proof. split; [done|]. intros o _. rewrite decide_False by (by apply not_elem_of_nil). done. Qed.

Lemma agreeing_snoc o x hist :
  agreeing o (hist ++ [x]) = agreeing o hist + (if decide (x = o) then 1 else 0).
Proof.
  unfold agreeing, zlen. rewrite filter_app, length_app, filter_cons, filter_nil.
  destruct (decide (x = o)); simpl; lia.
Qed.

Lemma agreeing_none o hist : o ∉ hist → agreeing o hist = 0.
Proof.
  intros Ho. unfold agreeing, zlen. destruct (filter _ hist) as [|x l] eqn:Hf; [done|].
  assert (Hx : x ∈ filter (λ x, x = o) hist) by (rewrite Hf; apply list_elem_of_here).
  apply list_elem_of_filter in Hx as [-> ?]. done.
Qed.

Lemma vote_run hist c o :
  votes_ok hist c → o_Source o = OffsetSourceCalibrated →
  fst (vote o c) = (if agreeing o (hist ++ [o]) <? ztunnelCalibrationAgreements then None else Some o) ∧
  votes_ok (hist ++ [o]) (snd (vote o c)).
Proof.
  intros [Hh Hv] Ho. unfold vote.
  assert (He : default (MkCandidate o 0) (votes c !! offsets_key o) = MkCandidate o (agreeing o hist)).
  { rewrite Hv by done. case_decide; [done|]. simpl. by rewrite agreeing_none. }
  rewrite He. cbn [fst snd cand_votes cand_offsets votes].
  assert (Ha : agreeing o hist + 1 = agreeing o (hist ++ [o]))
    by (rewrite agreeing_snoc, decide_True by done; lia).
  rewrite Ha. split; [done|]. split; [apply Forall_app; by repeat constructor|].
  intros o' Ho'. cbn [votes]. destruct (decide (o' = o)) as [->|Hne].
  - by rewrite lookup_insert_eq, decide_True by set_solver.
  - rewrite lookup_insert_ne by (intros Hk; by apply Hne, offsets_key_inj).
    rewrite Hv, agreeing_snoc by done. rewrite (decide_False (P := o = o')) by congruence.
    rewrite Z.add_0_r. destruct (decide (o' ∈ hist)), (decide (o' ∈ hist ++ [o])); set_solver.
Qed.

(** The validated candidate of a sample. *)
Definition candidate_of (c : ztunnelOffsetCalibrator) (truth : gmap string WorkloadIdentity)
    (realDest : string → Z → string) (window : list Z) : option Offsets :=
  o ← derive_of c window truth realDest;
  match Offsets_Validate o with Ok _ => Some o | _ => None end.

Lemma candidate_window c c' truth realDest window :
  cal_window c = cal_window c' → candidate_of c truth realDest window = candidate_of c' truth realDest window.
Proof. intros Hw. unfold candidate_of, derive_of, anchor. by rewrite Hw. Qed.

Lemma Observe_run window truth realDest c (cache : L) hist :
  votes_ok hist c → coherent mem cache → cal_window c < 2 ^ 62 → truth ≠ ∅ → Exhausted c = false →
  ∃ c' cache', coherent mem cache' ∧ cal_window c' = cal_window c ∧ observed c' = observed c + 1 ∧
    votes_ok (hist ++ option_list (candidate_of c truth realDest window)) c' ∧
    Observe window mem (Some truth) realDest c cache =
      (o ← candidate_of c truth realDest window;
       if agreeing o (hist ++ [o]) <? ztunnelCalibrationAgreements then None else Some o, c', cache').
Proof.
  intros Hv Hc Hw Ht He. unfold Observe. rewrite bool_decide_false by done. rewrite He. cbn [orb].
  set (c1 := MkCalibrator (cal_window c) (votes c) (observed c + 1)).
  rewrite (candidate_window c c1) by done. unfold candidate_of.
  destruct (derive_run c1 window truth realDest cache Hc) as (cache1 & -> & Hc1).
  destruct (derive_of c1 window truth realDest) as [o|] eqn:Hd; cbn [mbind option_bind].
  2: { exists c1, cache1. rewrite app_nil_r. done. }
  destruct (derived_members c1 window truth realDest o Hd Hw) as (Ho & _).
  destruct (Offsets_Validate o) as [?| |]; cbn [mbind option_bind];
    [|exists c1, cache1; by rewrite app_nil_r..].
  destruct (vote_run hist c1 o Hv Ho) as [Hr Hv']. destruct (vote o c1) as [r c2] eqn:Hvote.
  cbn [fst snd] in *. subst r. exists c2, cache1. split_and!; try done.
  - unfold vote in Hvote. by injection Hvote as _ <-.
  - unfold vote in Hvote. by injection Hvote as _ <-.
Qed.

(** ** A run of samples *)

(** The calibrator and the cache after a sample. *)
Definition feed (truth : gmap string WorkloadIdentity) (realDest : string → Z → string)
    (st : ztunnelOffsetCalibrator * L) (window : list Z) : ztunnelOffsetCalibrator * L :=
  let '(_, c, cache) := Observe window mem (Some truth) realDest (fst st) (snd st) in (c, cache).

(** The samples that are evidence for an offset set. *)
Definition evidence (w : Z) (cache : L) (truth : gmap string WorkloadIdentity)
    (realDest : string → Z → string) (o : Offsets) (windows : list (list Z)) : list (list Z) :=
  filter (λ x, fst (deriveFromSample (newZTunnelOffsetCalibrator w) x mem truth realDest cache) = Some o)
    windows.

Definition candidates w truth realDest (windows : list (list Z)) : list Offsets :=
  omap (candidate_of (newZTunnelOffsetCalibrator w) truth realDest) windows.

Lemma candidates_cons w truth realDest x windows :
  candidates w truth realDest (x :: windows) =
    option_list (candidate_of (newZTunnelOffsetCalibrator w) truth realDest x) ++
    candidates w truth realDest windows.
Proof. unfold candidates. simpl. by destruct (candidate_of _ _ _ x). Qed.

Lemma feed_votes w truth realDest windows st hist :
  w < 2 ^ 62 → votes_ok hist (fst st) → coherent mem (snd st) → cal_window (fst st) = w →
  let st' := foldl (feed truth realDest) st windows in
  coherent mem (snd st') ∧ cal_window (fst st') = w ∧
  ∃ hist', votes_ok hist' (fst st') ∧
    ∀ o, agreeing o hist' ≤ agreeing o (hist ++ candidates w truth realDest windows).
Proof.
  intros Hw. revert st hist. induction windows as [|x windows IH]; intros st hist Hv Hc Hwin; simpl foldl.
  { split_and!; try done. exists hist. split; [done|]. intros o. by rewrite app_nil_r. }
  destruct (decide (truth = ∅ ∨ Exhausted (fst st) = true)) as [Hstop|Hgo].
  - assert (feed truth realDest st x = st) as ->.
    { unfold feed, Observe. destruct st as [c cache]. simpl in *.
      assert (bool_decide (truth = ∅) || Exhausted c = true) as ->; [|done].
      destruct Hstop as [->| ->]; [by rewrite bool_decide_true|apply orb_true_r]. }
    destruct (IH st hist Hv Hc Hwin) as (? & ? & hist' & ? & Hle). split_and!; try done.
    exists hist'. split; [done|]. intros o. etransitivity; [apply Hle|].
    rewrite candidates_cons. unfold agreeing, zlen. rewrite !filter_app, !length_app. lia.
  - assert (truth ≠ ∅ ∧ Exhausted (fst st) = false) as [Ht He].
    { split; [naive_solver|]. destruct (Exhausted _); naive_solver. }
    destruct (Observe_run x truth realDest (fst st) (snd st) hist) as (c' & cache' & Hc' & Hw' & _ & Hv' & Hobs);
      [done|done|lia|done..|].
    assert (feed truth realDest st x = (c', cache')) as -> by (unfold feed; by rewrite Hobs).
    destruct (IH (c', cache') _ Hv' Hc') as (? & ? & hist' & ? & Hle); [by simpl; congruence|].
    split_and!; try done. exists hist'. split; [done|]. intros o. etransitivity; [apply Hle|].
    rewrite (candidate_window (fst st) (newZTunnelOffsetCalibrator w)) by done.
    by rewrite candidates_cons, app_assoc.
Qed.

Lemma candidates_evidence w (cache : L) truth realDest o windows :
  coherent mem cache →
  agreeing o (candidates w truth realDest windows) ≤ zlen (evidence w cache truth realDest o windows).
Proof.
  intros Hc. unfold evidence, agreeing, zlen.
  induction windows as [|x windows IH]; [done|].
  rewrite candidates_cons, filter_app, length_app, filter_cons.
  destruct (derive_run (newZTunnelOffsetCalibrator w) x truth realDest cache Hc) as (c1 & -> & _).
  cbn [fst]. unfold candidate_of at 1. destruct (derive_of _ x truth realDest) as [o'|]; cbn [mbind option_bind].
  - destruct (Offsets_Validate o'); simpl; rewrite ?filter_cons, ?filter_nil;
      repeat case_decide; simplify_eq; simpl; lia.
  - simpl. lia.
Qed.

(** C25: Calibration only returns an offset set that is valid, that at least three of the
    samples were evidence for, and that decodes the last sample right: to the source
    address the calibrator anchored on, and to the namespace and the service account
    ztunnel itself records for the backend of that source (and to its cluster, if any). *)
Theorem calibration_sound w windows window truth realDest (cache : L) o c' cache' :
  let st := foldl (feed truth realDest) (newZTunnelOffsetCalibrator w, cache) windows in
  coherent mem cache → 0 < w < 2 ^ 62 → zlen window = w →
  Observe window mem (Some truth) realDest (fst st) (snd st) = (Some o, c', cache') →
  Offsets_Validate o = Ok tt ∧
  ztunnelCalibrationAgreements ≤ zlen (evidence w cache truth realDest o (windows ++ [window])) ∧
  ∃ dest sample cl, fst (Decode o window mem cache') = Ok sample ∧
    truth !! realDest (ps_SrcIP sample) (ps_SrcPort sample) = Some dest ∧
    ps_Destination sample = Some (MkWorkloadIdentity cl (Namespace dest) (ServiceAccount dest)) ∧
    (cl = "" ∨ cl = Cluster dest).
Proof.
  intros st Hc Hw Hlen Hobs.
  destruct (feed_votes w truth realDest windows (newZTunnelOffsetCalibrator w, cache) [])
    as (Hc' & Hwin & hist & Hv & Hle); [lia|apply votes_ok_new|done..|]. fold st in Hc', Hwin, Hv.
  assert (truth ≠ ∅ ∧ Exhausted (fst st) = false) as [Ht He].
  { unfold Observe in Hobs. destruct (_ || _) eqn:Ho; [done|].
    apply orb_false_iff in Ho as [Ho ?]. by apply bool_decide_eq_false in Ho. }
  destruct (Observe_run window truth realDest (fst st) (snd st) hist)
    as (c1 & cache1 & Hc1 & _ & _ & _ & Hrun); [done|done|lia|done..|].
  rewrite Hrun in Hobs. rewrite (candidate_window (fst st) (newZTunnelOffsetCalibrator w)) in Hobs by done.
  destruct (candidate_of _ truth realDest window) as [o'|] eqn:Hcand; [|done]. cbn in Hobs.
  destruct (Z.ltb_spec (agreeing o' (hist ++ [o'])) ztunnelCalibrationAgreements) as [|Hag]; [done|].
  injection Hobs as -> <- <-. pose proof Hcand as Hd. unfold candidate_of in Hd.
  destruct (derive_of _ window truth realDest) as [o''|] eqn:Hder; [|done]. cbn in Hd.
  destruct (Offsets_Validate o'') as [[]| |] eqn:Hval; [|done..]. injection Hd as ->.
  split; [done|]. split.
  - etransitivity; [|by apply candidates_evidence]. unfold candidates. rewrite omap_app. simpl.
    rewrite Hcand. specialize (Hle o). unfold agreeing, zlen in *.
    unfold candidates in Hle. rewrite filter_app, length_app in *. rewrite filter_nil in Hle.
    cbn [length] in Hle. lia.
  - destruct (derived_decodes _ _ _ _ _ Hder) as (dest & sample & cl & Hs & ?);
      [by simpl; lia|by simpl; lia|]. exists dest, sample, cl. split; [|done].
    by destruct (Decode_run o window mem cache1 Hc1) as (c2 & -> & _).
Qed.
End calibration.

(** ** The life of the identity source *)

Inductive probe_event : Type :=
| WindowEvent (e : ZTunnelConnectionResultEvent)
| CompactEvent (e : ZTunnelConnectionResultCompactEvent).

Definition is_window (ev : Z * probe_event) : bool :=
  match snd ev with WindowEvent _ => true | CompactEvent _ => false end.

Section life.
Context `{RangeOrder} {R L IC SC WC M : Type} `{!MemoryReader R} `{!LruCache Z string L}.
Context `{!ExpiringCache string LoadBalanceAddress IC} `{!ExpiringCache string unit SC}.
Context `{!ExpiringCache string WorkloadIdentity WC} `{!EbpfMap Z ztunnelOffsetsConfig M}.
Notation W := (identity_world L IC SC WC M).
Variable proc_mem : Z → R.

Definition handle (ev : Z * probe_event) (w : W) : option (string * Z) * W :=
  match snd ev with
  | WindowEvent e => HandleEvent (fst ev) proc_mem e w
  | CompactEvent e => HandleCompactEvent (fst ev) proc_mem e w
  end.

(** The pushes and the state after a sequence of events. *)
Fixpoint run_events (evs : list (Z * probe_event)) (w : W) : list (string * Z) * W :=
  match evs with
  | [] => ([], w)
  | ev :: evs' =>
    let '(push, w) := handle ev w in
    let '(pushes, w) := run_events evs' w in (option_list push ++ pushes, w)
  end.

(** A path that was given up: the probe is detached and the tailer runs. *)
Definition fallen_back (w : W) : Prop :=
  is_downgraded (w_source w) = true ∧ w_tailerStarted w = true ∧ is_probeLinks (w_source w) = [].

Lemma downgrade_falls (w : W) : is_downgraded (w_source w) = false → fallen_back (downgrade w).
Proof. intros Hd. unfold downgrade, fallen_back. by rewrite Hd. Qed.

Lemma fallen_handle ev (w : W) :
  fallen_back w →
  fst (handle ev w) = None ∧ fallen_back (snd (handle ev w)) ∧
  w_collector (snd (handle ev w)) = w_collector w ∧ w_config (snd (handle ev w)) = w_config w.
Proof.
  intros (Hd & Ht & Hl). destruct ev as [now [e|e]]; unfold handle; simpl;
    [unfold HandleEvent|unfold HandleCompactEvent]; simpl; rewrite Hd; done.
Qed.

Lemma fallen_run evs (w : W) :
  fallen_back w →
  fst (run_events evs w) = [] ∧ fallen_back (snd (run_events evs w)) ∧
  w_collector (snd (run_events evs w)) = w_collector w ∧
  w_config (snd (run_events evs w)) = w_config w.
Proof.
  revert w. induction evs as [|ev evs IH]; intros w Hf; [done|]. cbn [run_events].
  destruct (fallen_handle ev w Hf) as (Hp & Hf' & Hcol & Hcfg).
  destruct (handle ev w) as [push w1]. simpl in *. subst push.
  destruct (IH w1 Hf') as (Hp1 & Hf1 & Hcol1 & Hcfg1).
  destruct (run_events evs w1) as [pushes w2]. simpl in *. subst pushes.
  split_and!; congruence || done.
Qed.

(** *** Failures *)

Definition fails (w : W) : Z := is_decodeFailures (w_source w).
Definition decodes (w : W) : Z := is_decoded (w_source w).
Definition in_row (w : W) : Z := is_consecutiveFails (w_source w).

(** An event on a path with offsets: it is decoded, it fails, or it carries nothing. *)
Definition progress (w w' : W) : Prop :=
  fallen_back w' ∨
  (is_downgraded (w_source w') = false ∧ is_Some (is_decoder (w_source w')) ∧
   in_row w' < ZTunnelIdentityDecodeFailureLimit ∧ 0 ≤ in_row w' ∧
   (decodes w < decodes w' ∨ (decodes w' = decodes w ∧ fails w' - fails w = in_row w' - in_row w))).

Lemma failed_progress (w0 w : W) :
  is_downgraded (w_source w) = false → is_Some (is_decoder (w_source w)) → 0 ≤ in_row w →
  in_row w = in_row w0 → decodes w = decodes w0 → fails w = fails w0 →
  progress w0 (decode_failed w).
Proof.
  intros Hd Hdec Hr Hrow Hdecs Hf. unfold decode_failed. destruct (Z.leb_spec ZTunnelIdentityDecodeFailureLimit
    (is_consecutiveFails (w_source w) + 1)) as [Hle|Hlt].
  - left. by apply downgrade_falls.
  - right. unfold in_row, decodes, fails in *. simpl. split_and!; try done; try lia.
Qed.

Lemma succeeded_progress (w0 w : W) now sample :
  is_downgraded (w_source w) = false → is_Some (is_decoder (w_source w)) →
  decodes w = decodes w0 → progress w0 (snd (decode_succeeded now sample w)).
Proof.
  intros Hd Hdec Hdecs. unfold decode_succeeded. destruct (apply _ _ _) as [push z].
  right. unfold in_row, decodes, fails, ZTunnelIdentityDecodeFailureLimit in *. simpl.
  split_and!; try done; try lia.
Qed.

(** The counters of a world that differs in no counter. *)
Ltac count := unfold in_row, decodes, fails in *; simpl in *; done || lia || eauto.

Lemma handle_progress ev (w : W) :
  is_downgraded (w_source w) = false → is_Some (is_decoder (w_source w)) →
  0 ≤ in_row w < ZTunnelIdentityDecodeFailureLimit → progress w (snd (handle ev w)).
Proof.
  intros Hd [o Ho] Hr. destruct ev as [now [e|e]]; unfold handle; cbn [fst snd].
  - unfold HandleEvent. simpl. rewrite Hd, Ho. destruct (Decode _ _ _ _) as [r strings].
    destruct r as [sample| |]; [apply succeeded_progress; count|apply failed_progress; count..].
  - unfold HandleCompactEvent. simpl. rewrite Hd. destruct (decodeCompact _ _ _ _) as [[sample|] strings].
    + apply succeeded_progress; count.
    + simpl. destruct (compactShippedIdentityPointer e); [apply failed_progress; count|].
      right. split_and!; try count.
Qed.

Lemma run_progress evs (w : W) :
  is_downgraded (w_source w) = false → is_Some (is_decoder (w_source w)) →
  0 ≤ in_row w < ZTunnelIdentityDecodeFailureLimit → progress w (snd (run_events evs w)).
Proof.
  revert w. induction evs as [|ev evs IH]; intros w Hd Ho Hr; cbn [run_events].
  { right. split_and!; try count. }
  pose proof (handle_progress ev w Hd Ho Hr) as Hp. destruct (handle ev w) as [push w1].
  cbn [snd] in Hp. destruct Hp as [Hf|(Hd1 & Ho1 & Hr1 & Hr1' & Hc1)].
  - left. pose proof (fallen_run evs w1 Hf) as (_ & Hf' & _). by destruct (run_events evs w1).
  - specialize (IH w1 Hd1 Ho1 (conj Hr1' Hr1)). destruct (run_events evs w1) as [pushes w2]. cbn [snd] in *.
    destruct IH as [Hf|(Hd2 & Ho2 & Hr2 & Hr2' & Hc2)]; [by left|right].
    split_and!; try done. lia.
Qed.

(** A path whose offsets do not fit the binary ends: when the failures in a row
    reach the limit, with no event decoded in between, the probe is detached and the
    tailer of the access log is started.  A path that was given up stays given up: no
    later event is decoded, cached or pushed. *)
Theorem identity_path_falls_back evs later (w : W) :
  is_downgraded (w_source w) = false → is_Some (is_decoder (w_source w)) →
  0 ≤ in_row w < ZTunnelIdentityDecodeFailureLimit →
  let w' := snd (run_events evs w) in
  decodes w' = decodes w →
  ZTunnelIdentityDecodeFailureLimit ≤ in_row w + (fails w' - fails w) →
  fallen_back w' ∧
  fst (run_events later w') = [] ∧ fallen_back (snd (run_events later w')) ∧
  w_collector (snd (run_events later w')) = w_collector w'.
Proof.
  intros Hd Ho Hr w' Hdec Hlim. assert (Hf : fallen_back w').
  { destruct (run_progress evs w Hd Ho Hr) as [Hf|(_ & _ & Hr' & _ & Hc)]; [done|].
    fold w' in Hr', Hc. lia. }
  split; [done|]. by destruct (fallen_run later w' Hf) as (? & ? & ? & _).
Qed.

(** *** Calibration comes to an end *)

Definition calibrating (w : W) (truth : gmap string WorkloadIdentity) (n : Z) : Prop :=
  is_downgraded (w_source w) = false ∧ is_decoder (w_source w) = None ∧
  workloadIdentities (w_collector w) = Some truth ∧
  ∃ c, is_calibrator (w_source w) = Some c ∧ observed c = n.

Definition settled (w : W) : Prop := fallen_back w ∨ is_Some (is_decoder (w_source w)).

Lemma downgrade_decoder (w : W) : is_decoder (w_source (downgrade w)) = is_decoder (w_source w).
Proof. unfold downgrade. by destruct (is_downgraded _). Qed.

Lemma push_decoder pid o (w : W) : w_source (pushOffsetsConfig pid o w) = w_source w.
Proof. unfold pushOffsetsConfig. by repeat case_match. Qed.

Lemma handle_decoder ev (w : W) :
  is_Some (is_decoder (w_source w)) → is_Some (is_decoder (w_source (snd (handle ev w)))).
Proof.
  intros [o Ho]. destruct ev as [now [e|e]]; unfold handle; cbn [fst snd].
  - unfold HandleEvent. simpl. destruct (is_downgraded _); [by simpl; rewrite Ho|]. rewrite Ho.
    destruct (Decode _ _ _ _) as [[sample| |] strings]; simpl; unfold decode_succeeded, decode_failed;
      [destruct (apply _ _ _); simpl; by rewrite Ho|..];
      (destruct (_ <=? _); rewrite ?downgrade_decoder; simpl; by rewrite Ho).
  - unfold HandleCompactEvent. simpl. destruct (is_downgraded _); [by simpl; rewrite Ho|].
    destruct (decodeCompact _ _ _ _) as [[sample|] strings]; simpl; unfold decode_succeeded, decode_failed.
    + destruct (apply _ _ _). simpl. by rewrite Ho.
    + destruct (compactShippedIdentityPointer e); [|simpl; by rewrite Ho].
      destruct (_ <=? _); rewrite ?downgrade_decoder; simpl; by rewrite Ho.
Qed.

Lemma settled_run evs (w : W) : settled w → settled (snd (run_events evs w)).
Proof.
  intros [Hf|Ho]; [left; by apply fallen_run|]. revert w Ho.
  induction evs as [|ev evs IH]; intros w Ho; [by right|]. cbn [run_events].
  pose proof (handle_decoder ev w Ho) as Ho'. destruct (handle ev w) as [push w1].
  specialize (IH w1 Ho'). by destruct (run_events evs w1).
Qed.

Lemma Observe_counts window (mem : R) truth realDest c (cache : L) :
  truth ≠ ∅ → Exhausted c = false →
  ∃ o c' cache', Observe window mem (Some truth) realDest c cache = (o, c', cache') ∧
    observed c' = observed c + 1.
Proof.
  intros Ht He. unfold Observe. rewrite bool_decide_false by done. rewrite He. cbn [orb].
  destruct (deriveFromSample _ _ _ _ _ _) as [[o|] cache']; [|by eauto].
  destruct (Offsets_Validate o); [|by eauto..]. unfold vote. by eauto.
Qed.

Lemma apply_workloads now sample (z : Collector IC SC WC) :
  workloadIdentities (snd (apply now sample z)) = workloadIdentities z.
Proof.
  unfold apply, cacheDstIdentity, cachePeerIdentity. by repeat case_match.
Qed.

Lemma calibrate_step now window mem truth n (w : W) :
  calibrating w truth n → truth ≠ ∅ →
  settled (calibrate now window mem w) ∨
  (n < ztunnelCalibrationMaxSamples ∧ calibrating (calibrate now window mem w) truth (n + 1)).
Proof.
  intros (Hd & Hdec & Ht & c & Hc & Hn) Hne. unfold calibrate. rewrite Hc, Ht.
  destruct (Exhausted c) eqn:He.
  - left. left. simpl. rewrite He, orb_true_r. rewrite He. by apply downgrade_falls.
  - assert (Hlt : n < ztunnelCalibrationMaxSamples)
      by (unfold Exhausted in He; apply Z.leb_gt in He; lia).
    destruct (Observe_counts window mem truth (realDestinationFor now (w_collector w)) c
      (is_strings (is_count 0 0 0 1 (is_consecutiveFails (w_source w)) (w_source w))) Hne He)
      as (o & c' & cache' & -> & Ho).
    destruct o as [o|].
    + unfold adopt. simpl. destruct (ZTunnelConnectionResultWindow <? o_Window o).
      * right. split; [done|]. split_and!; try done. exists c'. split; [done|]. lia.
      * left. right. simpl. destruct (negb _); simpl; rewrite push_decoder; by eexists.
    + destruct (Exhausted c'); [left; left; by apply downgrade_falls|].
      right. split; [done|]. split_and!; try done. exists c'. split; [done|]. lia.
Qed.

Lemma handle_calibrating ev truth n (w : W) :
  calibrating w truth n → truth ≠ ∅ →
  settled (snd (handle ev w)) ∨
  ∃ k, calibrating (snd (handle ev w)) truth k ∧
    (if is_window ev then n < ztunnelCalibrationMaxSamples ∧ k = n + 1 else k = n).
Proof.
  intros (Hd & Hdec & Ht & c & Hc & Hn) Hne. destruct ev as [now [e|e]]; unfold handle; cbn [fst snd].
  - unfold HandleEvent. simpl. rewrite Hd, Hdec. cbn [snd].
    match goal with |- context [calibrate now (Data e) ?mem ?w1] =>
      destruct (calibrate_step now (Data e) mem truth n w1) as [?|[? ?]]; [|done|by left|] end.
    + split_and!; try done. by exists c.
    + right. eexists. split; [done|]. done.
  - unfold HandleCompactEvent. simpl. rewrite Hd.
    destruct (decodeCompact _ _ _ _) as [[sample|] strings]; simpl.
    + right. exists n. split; [|done]. unfold decode_succeeded.
      match goal with |- context [apply now sample ?z] =>
        pose proof (apply_workloads now sample z) as Hw; destruct (apply now sample z) as [push z'] end.
      simpl in *. split_and!; try done; [by simpl; rewrite Hw|]. by exists c.
    + destruct (compactShippedIdentityPointer e).
      * unfold decode_failed. simpl. destruct (_ <=? _); [left; left; by apply downgrade_falls|].
        right. exists n. split; [|done]. split_and!; try done. by exists c.
      * right. exists n. split; [|done]. split_and!; try done. by exists c.
Qed.

(** C26: Calibration comes to an end: while ztunnel's workloads are known, a path without
    offsets has either found offsets or fallen back to the access log, with the probe
    detached, after at most one window more than the limit of samples, whatever compact
    events come in between. *)
Theorem calibration_settles evs truth n (w : W) :
  calibrating w truth n → truth ≠ ∅ → n ≤ ztunnelCalibrationMaxSamples →
  ztunnelCalibrationMaxSamples < n + zlen (filter (λ ev, is_window ev = true) evs) →
  settled (snd (run_events evs w)).
Proof.
  revert n w. induction evs as [|ev evs IH]; intros n w Hcal Hne Hn Hlen.
  { unfold zlen in Hlen. simpl in Hlen. lia. }
  cbn [run_events]. pose proof (handle_calibrating ev truth n w Hcal Hne) as Hh.
  rewrite filter_cons in Hlen. destruct (handle ev w) as [push w1]. cbn [snd] in Hh.
  destruct Hh as [Hs|(k & Hk & Hev)].
  - pose proof (settled_run evs w1 Hs) as Hr. by destruct (run_events evs w1).
  - assert (Hr : settled (snd (run_events evs w1))); [|by destruct (run_events evs w1)].
    apply (IH k); [done..| |]; unfold zlen in *; destruct (is_window ev); simpl in Hlen; lia.
Qed.
End life.

(** ** A sample *)

Module ProbeSample.
(** A string of the process: length and flag, counter, bytes. *)
Definition arcstr_bytes (s : string) : list Z :=
  le_bytes 8 (2 * Z.of_nat (String.length s)) ++ le_bytes 8 1 ++ bytes_of_string s.

Definition place (a : Z) (bs : list Z) : list (Z * Z) := imap (λ i b, (a + Z.of_nat i, b)) bs.

Definition splice (w : list Z) (part : nat * list Z) : list Z :=
  take (fst part) w ++ snd part ++ drop (fst part + length (snd part)) w.

(** A connection from 10.0.0.5:5000 to 10.1.0.9:8080 whose destination is
    ns1/sa1 in the cluster c1. *)
Definition window : list Z :=
  foldl splice (replicate 512 0)
    [(248%nat, [0; 0; 10; 0; 0; 5; 0x88; 0x13]); (288%nat, [0; 0; 10; 1; 0; 9; 0x90; 0x1f]);
     (176%nat, le_bytes 8 0x1000); (184%nat, le_bytes 8 0x1040); (192%nat, le_bytes 8 0x1080);
     (216%nat, le_bytes 8 0x10c0); (226%nat, [1])].

Definition self : Z := 0x8000.

Definition mem : gmap Z Z :=
  list_to_map (place 0x1000 (arcstr_bytes "cluster.local") ++ place 0x1040 (arcstr_bytes "ns1") ++
               place 0x1080 (arcstr_bytes "sa1") ++ place 0x10c0 (arcstr_bytes "c1") ++
               place self window).

Definition cache : lru_list Z string := MkLruList 15 [].

Lemma cache_coherent m : coherent m cache.
Proof. intros p s H. done. Qed.

Definition dest : WorkloadIdentity := MkWorkloadIdentity "c1" "ns1" "sa1".
Definition truth : gmap string WorkloadIdentity := {["10.1.0.9" := dest]}.
Definition realDest (ip : string) (port : Z) : string :=
  if decide (ip = "10.0.0.5") then "10.1.0.9" else "".

(** The collector and the source with these offsets. *)
Definition source (fails : Z) (o : option Offsets) (c : option ztunnelOffsetCalibrator)
  : ztunnelIdentitySource (lru_list Z string) :=
  MkIdentitySource cache o c [] [1%nat; 2%nat] 42 false fails 0 fails fails 0.
Definition collector : Collector (expiring string LoadBalanceAddress) (expiring string unit)
    (expiring string WorkloadIdentity) :=
  set_indexes (Some truth) None (newZTunnelCollector (60 * second)).
Definition world (fails : Z) (o : option Offsets) (c : option ztunnelOffsetCalibrator)
  : identity_world (lru_list Z string) (expiring string LoadBalanceAddress) (expiring string unit)
      (expiring string WorkloadIdentity) (bpf_room Z ztunnelOffsetsConfig) :=
  MkWorld (source fails o c) collector false (Some (MkBpfRoom ∅)).

Definition zero_event : Z * probe_event :=
  (0, WindowEvent (MkConnectionResultEvent 42 512 (replicate 512 0))).
End ProbeSample.

Lemma decodeArcStr_roundtrip_witness :
  ∃ cache', decodeArcStr ProbeSample.mem 0x1040 ProbeSample.cache = (Some "ns1", cache') ∧
    coherent ProbeSample.mem cache'.
Proof.
  apply (decodeArcStr_roundtrip ProbeSample.mem 0x1040 false (le_bytes 8 1)
           (bytes_of_string "ns1") ProbeSample.cache).
  - split_and!; by vm_compute.
  - repeat constructor; vm_compute; done.
  - by vm_compute.
  - lia.
  - by exists 520.
  - apply ProbeSample.cache_coherent.
Defined.

Lemma compact_equals_window_witness :
  ∃ e sample, connection_result_record_internal ProbeSample.mem 42 ProbeSample.self
      (Some (offsets_config OffsetSample.offsets)) = EmitCompact e ∧
    fst (decodeCompact (Some OffsetSample.offsets) e ProbeSample.mem ProbeSample.cache) = Some sample ∧
    ps_DstIP sample = "10.1.0.9" ∧ ps_Destination sample = Some ProbeSample.dest.
Proof.
  destruct (compact_equals_window OffsetSample.offsets ProbeSample.mem ProbeSample.mem 42
    ProbeSample.self ProbeSample.window ProbeSample.cache) as (_ & e & He & Hd).
  - exact (Resolve_ok _ _ OffsetSample.resolves).
  - by vm_compute.
  - done.
  - done.
  - by vm_compute.
  - by vm_compute.
  - exists e. rewrite Hd. cbn [fst].
    destruct (fst (Decode OffsetSample.offsets ProbeSample.window ProbeSample.mem ProbeSample.cache))
      as [sample| |] eqn:Hs; [|vm_compute in Hs; discriminate..].
    exists sample. split; [exact He|]. split; [reflexivity|].
    vm_compute in Hs. injection Hs as <-. split; reflexivity.
Defined.

#[local] Existing Instance keys_order.

(** Three samples of the same connection, in a window that ends with the labels. *)
Module CalibrationRun.
Definition window : list Z :=
  [0; 0; 10; 0; 0; 5; 0x88; 0x13] ++ le_bytes 8 0x1000 ++ le_bytes 8 0x1040 ++ le_bytes 8 0x1080 ++
  le_bytes 8 0x10c0.
Definition state : ztunnelOffsetCalibrator * lru_list Z string :=
  foldl (feed ProbeSample.mem ProbeSample.truth ProbeSample.realDest)
    (newZTunnelOffsetCalibrator 40, ProbeSample.cache) [window; window].
Definition outcome : option Offsets * ztunnelOffsetCalibrator * lru_list Z string :=
  Observe window ProbeSample.mem (Some ProbeSample.truth) ProbeSample.realDest
    (fst state) (snd state).
Definition found : Offsets :=
  MkOffsets OffsetSourceCalibrated 40 0 (-1) (-1) false (-1) (-1) (-1) 8 (-1) (-1) (-1) 32
    24 0 8 16.

Lemma finds : fst (fst outcome) = Some found.
Proof. vm_compute. reflexivity. Qed.

Lemma observes :
  Observe window ProbeSample.mem (Some ProbeSample.truth) ProbeSample.realDest
    (fst state) (snd state) = (Some found, snd (fst outcome), snd outcome).
Proof. rewrite <-finds. fold outcome. by destruct outcome as [[? ?] ?]. Qed.
End CalibrationRun.

Lemma calibration_sound_witness :
  Offsets_Validate CalibrationRun.found = Ok tt ∧
  ∃ sample, fst (Decode CalibrationRun.found CalibrationRun.window ProbeSample.mem
      (snd CalibrationRun.outcome)) = Ok sample ∧
    ps_Destination sample = Some ProbeSample.dest.
Proof.
  destruct (calibration_sound ProbeSample.mem 40 [CalibrationRun.window; CalibrationRun.window]
    CalibrationRun.window ProbeSample.truth ProbeSample.realDest ProbeSample.cache CalibrationRun.found
    (snd (fst CalibrationRun.outcome)) (snd CalibrationRun.outcome))
    as (Hv & _ & dest & sample & cl & Hd & _).
  - apply ProbeSample.cache_coherent.
  - split; reflexivity.
  - vm_compute. reflexivity.
  - exact CalibrationRun.observes.
  - split; [exact Hv|]. exists sample. split; [exact Hd|].
    vm_compute in Hd. injection Hd as <-. reflexivity.
Defined.

Lemma identity_path_falls_back_witness :
  let w := ProbeSample.world 49 (Some OffsetSample.offsets) None in
  fallen_back (snd (run_events (λ _ : Z, (∅ : gmap Z Z)) [ProbeSample.zero_event] w)).
Proof.
  intros w.
  refine (proj1 (identity_path_falls_back (λ _ : Z, (∅ : gmap Z Z)) [ProbeSample.zero_event] [] w
    eq_refl (ex_intro _ _ eq_refl) _ _ _)).
  - split; [discriminate|reflexivity].
  - vm_compute. reflexivity.
  - vm_compute. discriminate.
Defined.

Lemma calibration_settles_witness :
  let w := ProbeSample.world 0 None (Some (newZTunnelOffsetCalibrator 512)) in
  settled (snd (run_events (λ _ : Z, (∅ : gmap Z Z)) (replicate 501 ProbeSample.zero_event) w)).
Proof.
  intros w.
  apply (calibration_settles (λ _ : Z, (∅ : gmap Z Z)) (replicate 501 ProbeSample.zero_event) ProbeSample.truth 0 w).
  - split; [reflexivity|]. split; [reflexivity|]. split; [reflexivity|]. eexists.
    split; reflexivity.
  - discriminate.
  - discriminate.
  - vm_compute. reflexivity.
Defined.

(** ** Where the two kinds of events differ

    A calibrated set has no destination address and no source principal. *)

Module CalibratedSample.
Definition offsets : Offsets :=
  MkOffsets OffsetSourceCalibrated 512 248 (-1) (-1) false (-1) (-1) (-1) 176 (-1) (-1) (-1) 216
    24 0 8 16.

(** The first bytes of the window of a connection result. *)
Definition window : list Z :=
  foldl ProbeSample.splice ProbeSample.window
    [(0%nat, [1; 2; 3; 4; 5; 6; 7]); (7%nat, le_bytes 8 0x1040); (15%nat, le_bytes 8 0x1080)].
Definition mem : gmap Z Z :=
  list_to_map (ProbeSample.place 0x1040 (ProbeSample.arcstr_bytes "ns1") ++
               ProbeSample.place 0x1080 (ProbeSample.arcstr_bytes "sa1") ++
               ProbeSample.place 0x10c0 (ProbeSample.arcstr_bytes "c1") ++
               ProbeSample.place (ProbeSample.self - 1) [0] ++
               ProbeSample.place ProbeSample.self window).
End CalibratedSample.

(** The kernel reads the absent destination address one byte before the struct, so the
    compact event carries a destination that the window does not have. *)
Example absent_destination_is_read :
  let e := compact_event CalibratedSample.mem 42 ProbeSample.self
             (offsets_config CalibratedSample.offsets) in
  ps_DstIP <$> fst (decodeCompact (Some CalibratedSample.offsets) e CalibratedSample.mem
    ProbeSample.cache) = Some "2.3.4.5" ∧
  match fst (Decode CalibratedSample.offsets CalibratedSample.window CalibratedSample.mem
    ProbeSample.cache) with Ok s => ps_DstIP s | _ => "error" end = "".
Proof. split; by vm_compute. Qed.

(** User space reads the members of the absent source principal from the bytes behind
    it: the window decodes to a source identity that the set does not locate. *)
Example absent_principal_is_read :
  match fst (Decode CalibratedSample.offsets CalibratedSample.window CalibratedSample.mem
    ProbeSample.cache) with Ok s => ps_Source s | _ => None end =
    Some (MkWorkloadIdentity "" "ns1" "sa1") ∧
  let e := compact_event CalibratedSample.mem 42 ProbeSample.self
             (offsets_config CalibratedSample.offsets) in
  ps_Source <$> fst (decodeCompact (Some CalibratedSample.offsets) e CalibratedSample.mem
    ProbeSample.cache) = Some None.
Proof. split; by vm_compute. Qed.
