(* ===== verification/Kernel.v ===== *)
(** * The kernel side: C structs, BPF maps and the process filter

    The BPF programs of the access log run in the kernel and talk to user space
    through maps and perf queues.  This file holds what they share:

    - [cstruct]: a C struct whose members are integers or pointers is a function
      from its members; [s <| f := v |>] is a member assignment, which truncates
      to the width of the member; [zeroed] is [struct s x = {}].
    - [kstate]: the BPF maps by name (src/bpf/accesslog, src/bpf/include), the two
      per-CPU scratch buffers, the two global variables and the samples submitted
      so far.  A hash map refuses a new key when it is full; an LRU map never
      refuses, and its evictions are steps of the environment.
    - [kenv]: what a program asks the kernel for when it runs: the clock, the
      current task, user memory, sockets.  A program runs as one step, at one time.
    - the process filter of src/bpf/accesslog/process and the data ids of
      src/bpf/accesslog/common/data_args.h. *)

From stdpp Require Import base gmap list.
From Stdlib Require Import ZArith Lia.
From S2P Require Import Prelude Interfaces Events.

(** ** C structs *)

Class CStruct (F : Type) := {
  cstruct_eq :: EqDecision F;
  bits : F → Z
}.

Definition cstruct (F : Type) : Type := F → Z.
Definition zeroed {F} : cstruct F := λ _, 0.

Definition assign `{CStruct F} (f : F) (v : Z) (s : cstruct F) : cstruct F :=
  λ g, if decide (g = f) then v mod 2 ^ bits f else s g.

Notation "s <| f := v |>" := (assign f v s) (at level 12, left associativity).

(** The members of [struct sock_data_args_t]: one system call on a socket. *)
Module Args.
Inductive field : Type :=
| fd | is_sock_event | iovlen | msg_len | start_nacs | buf | iovec | data_id | excepted_size
| ifindex | total_package_size | package_count | retransmit_package_count
| ssl_buffer_force_unfinished | sk_role | l2_enter_queue_count | buffer | enter_l4_time
| exit_l4_time | l3_duration | l3_rcv_duration | l3_local_duration | l3_output_duration
| total_resolve_mac_count | total_net_filter_count | total_resolve_mac_time
| total_net_filter_time | total_package_to_queue_time | total_package_receive_from_queue_time
| l2_duration | l2_enter_queue_package_count | l2_ready_send_duration | l2_send_duration.
Global Instance field_eq : EqDecision field.
Proof. intros x y. unfold Decision. decide equality. Defined.
Global Instance struct : CStruct field := {
  bits f := match f with
            | fd | is_sock_event | excepted_size | ifindex | l2_enter_queue_count
            | total_resolve_mac_count | total_net_filter_count => 32
            | package_count | retransmit_package_count | ssl_buffer_force_unfinished
            | sk_role => 8
            | _ => 64
            end
}.
End Args.
Definition sock_data_args_t : Type := cstruct Args.field.

(** [struct active_connection_t]: a connection the kernel traces. *)
Module Conn.
Inductive field : Type :=
| random_id | pid | sockfd | role | socket_family | protocol | ssl | skip_data_upload.
Global Instance field_eq : EqDecision field.
Proof. intros x y. unfold Decision. decide equality. Defined.
Global Instance struct : CStruct field := {
  bits f := match f with
            | random_id => 64
            | protocol | ssl | skip_data_upload => 8
            | _ => 32
            end
}.
End Conn.
Definition active_connection_t : Type := cstruct Conn.field.

(** [struct connect_args_t], its [connect_track_remote] written out. *)
Module Connect.
Inductive field : Type :=
| fd | has_remote | addr | sock | start_nacs | remote_iph | remote_ipl | remote_port.
Global Instance field_eq : EqDecision field.
Proof. intros x y. unfold Decision. decide equality. Defined.
Global Instance struct : CStruct field := {
  bits f := match f with fd | has_remote => 32 | remote_port => 16 | _ => 64 end
}.
End Connect.
Definition connect_args_t : Type := cstruct Connect.field.

Record accept_args_t : Type := MkAcceptArgs {
  accept_addr : Z; accept_socket : Z; accept_start_nacs : Z
}.

Record sock_close_args_t : Type := MkCloseArgs { close_fd : Z; close_start_nacs : Z }.

Record socket_data_sequence_t : Type := MkSequence { seq_data_id : Z; seq_sequence : Z }.

Record socket_data_last_id_t : Type := MkLastId { last_random_id : Z; last_socket_data_id : Z }.

(** ** BPF maps *)

Inductive kmap : Type :=
| process_monitor_control | cgroup_monitor_allowlist | process_not_monitor
| conecting_args | accepting_args | closing_args
| active_connection_map | socket_data_args | openssl_sock_data_args
| socket_data_id_generate_map | socket_data_sequence_generator | socket_data_last_id_map.
Global Instance kmap_eq : EqDecision kmap.
Proof. solve_decision. Defined.

Definition value (m : kmap) : Type :=
  match m with
  | process_monitor_control | cgroup_monitor_allowlist | process_not_monitor => Z
  | conecting_args => connect_args_t
  | accepting_args => accept_args_t
  | closing_args => sock_close_args_t
  | active_connection_map => active_connection_t
  | socket_data_args | openssl_sock_data_args => sock_data_args_t
  | socket_data_id_generate_map => Z
  | socket_data_sequence_generator => socket_data_sequence_t
  | socket_data_last_id_map => socket_data_last_id_t
  end.

(** [max_entries], and whether the map is a [BPF_MAP_TYPE_LRU_HASH]. *)
Definition max_entries (m : kmap) : Z :=
  match m with
  | process_not_monitor => 10240
  | socket_data_args | socket_data_id_generate_map => 65535
  | socket_data_sequence_generator => 1000
  | _ => 10000
  end.

Definition is_lru (m : kmap) : bool :=
  match m with
  | process_not_monitor | socket_data_id_generate_map | socket_data_sequence_generator
  | socket_data_last_id_map => true
  | _ => false
  end.

Inductive queue : Type :=
| process_execute_queue | socket_connection_event_queue | socket_close_event_queue
| socket_detail_queue | socket_data_upload_queue.

Record kstate : Type := MkState {
  maps : ∀ m : kmap, gmap Z (value m);
  cgroup_filter_enabled : Z;
  ztunnel_process_pid : Z;
  (** [socket_buffer_reader_map] and [rover_data_heap], of the CPU. *)
  reader_buffer : list Z;
  rover_data_heap : list Z;
  samples : list (queue * list Z)
}.

Definition set_maps (ms : ∀ m : kmap, gmap Z (value m)) (s : kstate) : kstate :=
  MkState ms (cgroup_filter_enabled s) (ztunnel_process_pid s) (reader_buffer s)
    (rover_data_heap s) (samples s).
Definition set_reader_buffer (b : list Z) (s : kstate) : kstate :=
  MkState (maps s) (cgroup_filter_enabled s) (ztunnel_process_pid s) b (rover_data_heap s)
    (samples s).
Definition set_rover_data_heap (b : list Z) (s : kstate) : kstate :=
  MkState (maps s) (cgroup_filter_enabled s) (ztunnel_process_pid s) (reader_buffer s) b
    (samples s).

Definition bpf_map_lookup_elem (m : kmap) (k : Z) (s : kstate) : option (value m) :=
  maps s m !! k.

Definition store (m : kmap) (g : gmap Z (value m)) (s : kstate) : kstate :=
  set_maps (λ m', match decide (m = m') with
                  | left e => eq_rect m (λ m, gmap Z (value m)) g m' e
                  | right _ => maps s m'
                  end) s.

Definition bpf_map_update_elem (m : kmap) (k : Z) (v : value m) (s : kstate) : kstate :=
  if decide (is_Some (maps s m !! k) ∨ is_lru m = true ∨
             Z.of_nat (base.size (maps s m)) < max_entries m)
  then store m (<[k := v]> (maps s m)) s
  else s.

Definition bpf_map_delete_elem (m : kmap) (k : Z) (s : kstate) : kstate :=
  store m (delete k (maps s m)) s.

(** A write through the pointer a lookup returned. *)
Definition write_elem (m : kmap) (k : Z) (v : value m) (s : kstate) : kstate :=
  store m (<[k := v]> (maps s m)) s.

(** [bpf_perf_event_output] *)
Definition submit (q : queue) (data : list Z) (s : kstate) : kstate :=
  MkState (maps s) (cgroup_filter_enabled s) (ztunnel_process_pid s) (reader_buffer s)
    (rover_data_heap s) (samples s ++ [(q, data)]).

(** [rover_submit_buf] of an event built in the reserved buffer: its bytes replace
    the front of the buffer, what is behind them stays. *)
Definition rover_submit_buf (q : queue) (data : list Z) (s : kstate) : kstate :=
  submit q data (set_rover_data_heap (data ++ drop (length data) (rover_data_heap s)) s).

(** ** The environment of a program *)

Record sock_common : Type := MkSockCommon {
  skc_family : Z; skc_num : Z; skc_rcv_saddr : Z; skc_dport : Z; skc_daddr : Z;
  skc_v6_rcv_saddr : list Z; skc_v6_daddr : list Z
}.

Record sockaddr_t : Type := MkSockaddr {
  sa_family : Z; sin_addr : Z; sin_port : Z; sin6_addr : list Z; sin6_port : Z
}.

Record kenv (R : Type) : Type := MkEnv {
  pid_tgid : Z;
  ktime : Z;
  prandom : Z;
  cgroup_id : Z;
  comm : list Z;
  memory : R;
  (** Bytes behind the protocol reader's buffer. *)
  behind_reader : Z → Z;
  (** The [private_data] of a file descriptor of the current task. *)
  fd_private_data : Z → Z;
  (** The [sk] of a [struct socket], and the [sk_socket] of a [struct sock]. *)
  socket_sk : Z → sock_common;
  sk_socket : Z → Z;
  sockaddr_at : Z → sockaddr_t
}.
Arguments MkEnv {R}.
Arguments pid_tgid {R}.
Arguments ktime {R}.
Arguments prandom {R}.
Arguments cgroup_id {R}.
Arguments comm {R}.
Arguments memory {R}.
Arguments behind_reader {R}.
Arguments fd_private_data {R}.
Arguments socket_sk {R}.
Arguments sk_socket {R}.
Arguments sockaddr_at {R}.

Definition tgid_of (id : Z) : Z := u32 (Z.shiftr id 32).

(** [bpf_probe_read]: a fault fills the destination with zeros. *)
Definition bpf_probe_read `{MemoryReader R} (n : nat) (a : Z) (r : R) : list Z :=
  default (replicate n 0) (ReadAt n a r).

Definition bpf_ntohs (v : Z) : Z := Z.lor (Z.shiftl (Z.land v 0xff) 8) (Z.shiftr (u16 v) 8).

(** ** The process filter *)

Definition tgid_should_trace (tgid : Z) (s : kstate) : bool :=
  match bpf_map_lookup_elem process_monitor_control tgid s with
  | None => false
  | Some v => v =? 1
  end.

Definition tgid_is_ztunnel (tgid : Z) (s : kstate) : bool :=
  (0 <? ztunnel_process_pid s) && (tgid =? ztunnel_process_pid s).

(** The members of [struct process_execute_event], in order. *)
Definition process_execute_event (pid cgroup : Z) (name : list Z) : list Z :=
  encode [FInt 4 pid; FInt 4 0; FInt 8 cgroup; FArr name].

Section process.
Context {R : Type}.

Definition report_running_process (env : kenv R) (s : kstate) : kstate :=
  let tgid := tgid_of (pid_tgid env) in
  let cgroup := if decide (cgroup_filter_enabled s ≠ 0) then cgroup_id env else 0 in
  let rejected :=
    if decide (cgroup_filter_enabled s ≠ 0)
    then bool_decide (bpf_map_lookup_elem cgroup_monitor_allowlist cgroup s = None)
    else bool_decide (is_Some (bpf_map_lookup_elem process_not_monitor tgid s)) in
  if rejected then s
  else
    match bpf_map_lookup_elem process_monitor_control tgid s with
    | Some _ => s
    | None =>
      submit process_execute_queue (process_execute_event tgid cgroup (comm env))
        (bpf_map_update_elem process_monitor_control tgid 1 s)
    end.

Definition tracepoint_sched_process_exec (env : kenv R) (s : kstate) : kstate :=
  report_running_process env s.

Definition tracepoint_sched_process_fork (env : kenv R) (child_pid : Z) (s : kstate) : kstate :=
  let s := bpf_map_delete_elem process_monitor_control child_pid s in
  let s := bpf_map_delete_elem process_not_monitor child_pid s in
  report_running_process env s.
End process.

(** ** Data ids *)

Definition gen_tgid_fd (tgid sockfd : Z) : Z := Z.lor (u64 (Z.shiftl tgid 32)) sockfd.

Definition get_socket_data_id (id fd : Z) (s : kstate) : Z :=
  default 0 (bpf_map_lookup_elem socket_data_id_generate_map (gen_tgid_fd (tgid_of id) fd) s).

Definition generate_socket_data_id (id fd : Z) (check : bool) (s : kstate) : Z * kstate :=
  let key := gen_tgid_fd (tgid_of id) fd in
  if check && negb (tgid_should_trace (tgid_of id) s) then (0, s)
  else
    let s := match bpf_map_lookup_elem socket_data_id_generate_map key s with
             | Some _ => s
             | None => bpf_map_update_elem socket_data_id_generate_map key 0 s
             end in
    match bpf_map_lookup_elem socket_data_id_generate_map key s with
    | None => (0, s)
    | Some data_id =>
      (u64 (data_id + 1),
       write_elem socket_data_id_generate_map key (u64 (data_id + 1)) s)
    end.

(** ** Lemmas *)

Lemma assign_eq `{CStruct F} (f : F) v s : (s <| f := v |>) f = v mod 2 ^ bits f.
Proof. unfold assign. by rewrite decide_True. Qed.

Lemma assign_ne `{CStruct F} (f g : F) v s : g ≠ f → (s <| f := v |>) g = s g.
Proof. intros. unfold assign. by rewrite decide_False. Qed.

Lemma store_eq m g s : maps (store m g s) m = g.
Proof.
  unfold store. simpl. destruct (decide (m = m)) as [e|]; [|done].
  by rewrite (proof_irrel e eq_refl).
Qed.

Lemma store_ne m m' g s : m ≠ m' → maps (store m g s) m' = maps s m'.
Proof. intros. unfold store. simpl. by destruct (decide (m = m')). Qed.

Lemma lookup_write m k v s : bpf_map_lookup_elem m k (write_elem m k v s) = Some v.
Proof. unfold bpf_map_lookup_elem, write_elem. by rewrite store_eq, lookup_insert_eq. Qed.

Lemma lookup_write_ne m k k' v s :
  k ≠ k' → bpf_map_lookup_elem m k' (write_elem m k v s) = bpf_map_lookup_elem m k' s.
Proof. intros. unfold bpf_map_lookup_elem, write_elem. by rewrite store_eq, lookup_insert_ne. Qed.

Lemma lookup_write_map m m' k k' v s :
  m ≠ m' → bpf_map_lookup_elem m' k' (write_elem m k v s) = bpf_map_lookup_elem m' k' s.
Proof. intros. unfold bpf_map_lookup_elem, write_elem. by rewrite store_ne. Qed.

Lemma lookup_update_lru m k v s :
  is_lru m = true → bpf_map_lookup_elem m k (bpf_map_update_elem m k v s) = Some v.
Proof.
  intros. unfold bpf_map_lookup_elem, bpf_map_update_elem. rewrite decide_True by auto.
  by rewrite store_eq, lookup_insert_eq.
Qed.

Lemma lookup_update_ne m k k' v s :
  k ≠ k' → bpf_map_lookup_elem m k' (bpf_map_update_elem m k v s) = bpf_map_lookup_elem m k' s.
Proof.
  intros. unfold bpf_map_lookup_elem, bpf_map_update_elem. case_decide; [|done].
  by rewrite store_eq, lookup_insert_ne.
Qed.

Lemma lookup_update_map m m' k k' v s :
  m ≠ m' → bpf_map_lookup_elem m' k' (bpf_map_update_elem m k v s) = bpf_map_lookup_elem m' k' s.
Proof.
  intros. unfold bpf_map_lookup_elem, bpf_map_update_elem. case_decide; [|done]. by rewrite store_ne.
Qed.

Lemma lookup_delete m k s : bpf_map_lookup_elem m k (bpf_map_delete_elem m k s) = None.
Proof. unfold bpf_map_lookup_elem, bpf_map_delete_elem. by rewrite store_eq, lookup_delete_eq. Qed.

Lemma lookup_delete_other m k k' s :
  k ≠ k' → bpf_map_lookup_elem m k' (bpf_map_delete_elem m k s) = bpf_map_lookup_elem m k' s.
Proof. intros. unfold bpf_map_lookup_elem, bpf_map_delete_elem. by rewrite store_eq, lookup_delete_ne. Qed.

Lemma lookup_delete_map m m' k k' s :
  m ≠ m' → bpf_map_lookup_elem m' k' (bpf_map_delete_elem m k s) = bpf_map_lookup_elem m' k' s.
Proof. intros. unfold bpf_map_lookup_elem, bpf_map_delete_elem. by rewrite store_ne. Qed.

Lemma probe_read_length `{MemoryReader R} n a r : length (bpf_probe_read n a r) = n.
Proof.
  unfold bpf_probe_read. destruct (ReadAt n a r) as [bs|] eqn:Hr; simpl.
  - by apply ReadAt_length in Hr.
  - apply length_replicate.
Qed.
