(* ===== verification/KernelUpload.v ===== *)
(** * The kernel side: protocol inference and socket data upload

    Models src/bpf/include/protocol_analyzer.h, src/bpf/include/socket_reader.h and
    src/bpf/include/socket_data.h: guessing the protocol of a payload from its first
    bytes, and sending the payload to user space in chunks.

    - A payload is read from user memory through [bpf_probe_read]; a chunk is built
      in the per-CPU [rover_data_heap], so bytes that are not written keep the
      contents of an earlier event.
    - [upload_socket_data_buf] and [upload_socket_data_iov] run their six unrolled
      iterations as a fold; C arithmetic wraps at the width of the variable.

    The theorems on these definitions are in KernelLaws.v. *)

From stdpp Require Import base gmap list strings.
From Stdlib Require Import ZArith Lia.
From S2P Require Import Prelude Interfaces Events Kernel.

Notation CONNECTION_PROTOCOL_UNKNOWN := 0 (only parsing).
Notation CONNECTION_PROTOCOL_HTTP1 := 1 (only parsing).
Notation CONNECTION_PROTOCOL_HTTP2 := 2 (only parsing).
Notation CONNECTION_MESSAGE_TYPE_UNKNOWN := 0 (only parsing).
Notation CONNECTION_MESSAGE_TYPE_REQUEST := 1 (only parsing).
Notation CONNECTION_MESSAGE_TYPE_RESPONSE := 2 (only parsing).
Notation MAX_PROTOCOL_SOCKET_READ_LENGTH := 31 (only parsing).
Notation MAX_TRANSMIT_SOCKET_READ_LENGTH := 20480 (only parsing).
Notation SOCKET_UPLOAD_CHUNK_LIMIT := 6 (only parsing).

(** ** Protocol inference

    A buffer is the function from an offset to the byte there. *)

Definition char_codes (s : string) : list Z :=
  (λ c, Z.of_nat (Ascii.nat_of_ascii c)) <$> String.list_ascii_of_string s.

(** [buf[0] == 'H' && buf[1] == 'T' && ...] *)
Fixpoint starts_at (buf : Z → Z) (i : Z) (cs : list Z) : bool :=
  match cs with
  | [] => true
  | c :: cs => (buf i =? c) && starts_at buf (i + 1) cs
  end.

Definition starts (buf : Z → Z) (s : string) : bool := starts_at buf 0 (char_codes s).

Definition infer_http1_message (buf : Z → Z) (count : Z) : Z :=
  if count <? 16 then CONNECTION_MESSAGE_TYPE_UNKNOWN
  else if starts buf "HTTP" then CONNECTION_MESSAGE_TYPE_RESPONSE
  else if starts buf "GET" then CONNECTION_MESSAGE_TYPE_REQUEST
  else if starts buf "POST" then CONNECTION_MESSAGE_TYPE_REQUEST
  else if starts buf "OPTIONS" then CONNECTION_MESSAGE_TYPE_REQUEST
  else if starts buf "HEAD" then CONNECTION_MESSAGE_TYPE_REQUEST
  else if starts buf "PUT" then CONNECTION_MESSAGE_TYPE_REQUEST
  else if starts buf "DELETE" then CONNECTION_MESSAGE_TYPE_REQUEST
  else if starts buf "CONNECT" then CONNECTION_MESSAGE_TYPE_REQUEST
  else if starts buf "TRACE" then CONNECTION_MESSAGE_TYPE_REQUEST
  else if starts buf "PATCH" then CONNECTION_MESSAGE_TYPE_REQUEST
  else CONNECTION_MESSAGE_TYPE_UNKNOWN.

(** The terminating zero byte of [magic] is compared with the zero of [buffer]. *)
Definition is_http2_magic (buf : Z → Z) : bool := starts buf "PRI * HTTP/2".

Definition be32 (b0 b1 b2 b3 : Z) : Z :=
  Z.lor (Z.shiftl b0 24) (Z.lor (Z.shiftl b1 16) (Z.lor (Z.shiftl b2 8) b3)).

(** The inner loop: look for an index of the static table in the header block;
    [None] when the loop ends without one. *)
Fixpoint scan_header (n : nat) (frame : Z → Z) (count offset : Z) : option Z :=
  match n with
  | O => None
  | S n =>
    if count <? offset then Some CONNECTION_MESSAGE_TYPE_UNKNOWN
    else
      let staticInx := Z.land (frame offset) 0x7f in
      if (staticInx <=? 61) && (0 <? staticInx) then
        Some (if (staticInx =? 1) || (staticInx =? 2) || (staticInx =? 3) || (staticInx =? 4) ||
                 (staticInx =? 5)
              then CONNECTION_MESSAGE_TYPE_REQUEST else CONNECTION_MESSAGE_TYPE_RESPONSE)
      else scan_header n frame count (offset + 1)
  end.

(** The loop over the frames, five at most. *)
Fixpoint scan_frames (n : nat) (buf : Z → Z) (count frameOffset : Z) : Z :=
  match n with
  | O => CONNECTION_MESSAGE_TYPE_UNKNOWN
  | S n =>
    if count <=? frameOffset then CONNECTION_MESSAGE_TYPE_UNKNOWN
    else
      let frame := λ i, buf (frameOffset + i) in
      let next := u32 (frameOffset + Z.shiftr (be32 (frame 0) (frame 1) (frame 2) (frame 3)) 8 + 9) in
      if 0x09 <? frame 3 then CONNECTION_MESSAGE_TYPE_UNKNOWN
      else if negb (frame 3 =? 0x1) then scan_frames n buf count next
      else if negb (Z.land (frame 4) 0xd2 =? 0) || negb (Z.land (frame 5) 0x01 =? 0)
      then CONNECTION_MESSAGE_TYPE_UNKNOWN
      else if be32 (Z.land (frame 5) 0x7f) (frame 6) (frame 7) (frame 8) =? 0
      then CONNECTION_MESSAGE_TYPE_UNKNOWN
      else
        let headerBlockFragmentOffset :=
          9 + (if Z.land (frame 4) 0x08 =? 0 then 0 else 1)
            + (if Z.land (frame 4) 0x20 =? 0 then 0 else 5) in
        match scan_header 6 frame count headerBlockFragmentOffset with
        | Some type => type
        | None => scan_frames n buf count next
        end
  end.

Definition infer_http2_message (buf : Z → Z) (count : Z) : Z :=
  if count <? 9 then CONNECTION_MESSAGE_TYPE_UNKNOWN
  else scan_frames 5 buf count (if is_http2_magic buf then 24 else 0).

(** The message type, and the protocol written through [protocol_ref]. *)
Definition analyze_protocol (buf : Z → Z) (count protocol : Z) : Z * Z :=
  let type := infer_http1_message buf count in
  if negb (type =? CONNECTION_PROTOCOL_UNKNOWN) then (type, CONNECTION_PROTOCOL_HTTP1)
  else
    let type := infer_http2_message buf count in
    if negb (type =? CONNECTION_PROTOCOL_UNKNOWN) then (type, CONNECTION_PROTOCOL_HTTP2)
    else (type, protocol).

(** ** The protocol reader *)

Section reader.
Context {R : Type} `{!MemoryReader R}.

(** [struct iovec]: base and length. *)
Definition read_iovec (r : R) (a : Z) : Z * Z :=
  let b := bpf_probe_read 16 a r in (le_Z (take 8 b), le_Z (drop 8 b)).

(** The length of the data in the reader's buffer; [None] is NULL.  A null pointer
    is 0. *)
Definition read_socket_data (env : kenv R) (buf iovec bytes_count : Z) (s : kstate)
  : option Z * kstate :=
  let '(data_buf, size) :=
    if decide (buf ≠ 0) then (buf, bytes_count)
    else if decide (iovec ≠ 0) then
      let '(iov_base, iov_len) := read_iovec (memory env) iovec in
      (iov_base, if bytes_count <? iov_len then bytes_count else iov_len)
    else (0, 0) in
  if size <=? 0 then (None, s)
  else
    let size := if MAX_PROTOCOL_SOCKET_READ_LENGTH <? size
                then MAX_PROTOCOL_SOCKET_READ_LENGTH else size in
    let size := Z.land size 0x1f in
    let n := Z.land size MAX_PROTOCOL_SOCKET_READ_LENGTH in
    let data := bpf_probe_read (Z.to_nat n) data_buf (memory env) in
    (Some n, set_reader_buffer (data ++ drop (length data) (reader_buffer s)) s).

(** The memory at the reader's buffer, as the analyzer reads it. *)
Definition reader_bytes (env : kenv R) (s : kstate) : Z → Z := λ i,
  default (behind_reader env i) (reader_buffer s !! Z.to_nat i).
End reader.

(** ** Uploading socket data *)

Definition generate_socket_sequence (conid data_id : Z) (s : kstate) : Z * kstate :=
  match bpf_map_lookup_elem socket_data_sequence_generator conid s with
  | None =>
    (0, bpf_map_update_elem socket_data_sequence_generator conid (MkSequence data_id 0) s)
  | Some seq =>
    let sequence := if negb (seq_data_id seq =? data_id) then 0 else u16 (seq_sequence seq + 1) in
    (sequence, write_elem socket_data_sequence_generator conid (MkSequence data_id sequence) s)
  end.

Record upload_data_args : Type := MkUploadArgs {
  start_time : Z; end_time : Z; con_id : Z; random_id : Z;
  socket_data_id : Z; prev_socket_data_id : Z;
  socket_data_iovec : Z; socket_data_iovlen : Z; bytes_count : Z; socket_data_buf : Z;
  data_direction : Z; connection_protocol : Z; connection_ssl : Z;
  socket_ssl_buffer_force_unfinished : Z; connection_skip_data_upload : Z; socket_data_ssl : bool
}.

Definition with_prev (prev : Z) (a : upload_data_args) : upload_data_args :=
  MkUploadArgs (start_time a) (end_time a) (con_id a) (random_id a) (socket_data_id a) prev
    (socket_data_iovec a) (socket_data_iovlen a) (bytes_count a) (socket_data_buf a)
    (data_direction a) (connection_protocol a) (connection_ssl a)
    (socket_ssl_buffer_force_unfinished a) (connection_skip_data_upload a) (socket_data_ssl a).

(** The members of [struct socket_data_upload_event] before [buffer], in order. *)
Definition upload_event_header (index size is_finished have_reduce : Z) (a : upload_data_args)
  : list field :=
  [FInt 1 (connection_protocol a); FInt 1 have_reduce; FInt 1 (data_direction a);
   FInt 1 is_finished; FInt 2 index; FInt 2 size; FInt 8 (start_time a); FInt 8 (end_time a);
   FInt 8 (con_id a); FInt 8 (random_id a); FInt 8 (socket_data_id a);
   FInt 8 (prev_socket_data_id a); FInt 8 (bytes_count a)].

(** [sizeof(struct socket_data_upload_event)] *)
Definition sizeof_upload_event : Z := 64 + MAX_TRANSMIT_SOCKET_READ_LENGTH.

Section upload.
Context {R : Type} `{!MemoryReader R}.

Definition upload_socket_data_with_buffer (env : kenv R) (index buf size is_finished have_reduce : Z)
    (args : upload_data_args) (s : kstate) : kstate :=
  let size := if MAX_TRANSMIT_SOCKET_READ_LENGTH <? size
              then MAX_TRANSMIT_SOCKET_READ_LENGTH else size in
  if size <=? 0 then s
  else
    let header := encode (upload_event_header index size is_finished have_reduce args) in
    let data := bpf_probe_read (Z.to_nat (Z.land size 0x7ff)) buf (memory env) in
    let event := header ++ data ++ drop (length header + length data) (rover_data_heap s) in
    rover_submit_buf socket_data_upload_queue (take (Z.to_nat sizeof_upload_event) event) s.

(** One iteration of the chunk loop, on the bytes sent so far. *)
Definition upload_buf_chunk (env : kenv R) (buf size : Z) (args : upload_data_args)
    (force_unfinished : Z) (st : Z * kstate) (index : nat) : Z * kstate :=
  let '(already_send, s) := st in
  let remaining := size - already_send in
  let '(need_send_in_chunk, have_reduce) :=
    if MAX_TRANSMIT_SOCKET_READ_LENGTH <? remaining
    then (MAX_TRANSMIT_SOCKET_READ_LENGTH, 1) else (u64 remaining, 0) in
  let is_finished :=
    if (size <=? u64 (need_send_in_chunk + already_send)) ||
       (Z.of_nat index =? SOCKET_UPLOAD_CHUNK_LIMIT - 1) then 1 else 0 in
  let '(sequence, is_finished, s) :=
    if (force_unfinished =? 1) && (0 <? need_send_in_chunk) then
      let '(q, s) := generate_socket_sequence (con_id args) (socket_data_id args) s in
      (u8 q, 0, s)
    else (Z.of_nat index, is_finished, s) in
  (already_send + need_send_in_chunk,
   upload_socket_data_with_buffer env sequence (buf + already_send) need_send_in_chunk is_finished
     have_reduce args s).

Definition upload_socket_data_buf (env : kenv R) (buf size : Z) (args : upload_data_args)
    (force_unfinished : Z) (s : kstate) : kstate :=
  snd (foldl (upload_buf_chunk env buf size args force_unfinished) (0, s)
         (seq 0 (Z.to_nat SOCKET_UPLOAD_CHUNK_LIMIT))).

(** The variables of [upload_socket_data_iov]. *)
Record iov_loop : Type := MkIovLoop {
  already_send : Z; cur_iov_sended : Z; iov_index : Z; loop_count : Z; iov_state : kstate
}.

Definition UPLOAD_PER_SOCKET_DATA_IOV (env : kenv R) (iov iovlen size : Z) (args : upload_data_args)
    (l : iov_loop) : iov_loop :=
  if iov_index l <? iovlen then
    let '(iov_base, iov_len) := read_iovec (memory env) (iov + 16 * iov_index l) in
    let remaining := size - already_send l in
    let need := u64 (remaining - cur_iov_sended l) in
    let '(need, have_reduce, index, sended) :=
      if iov_len <? u64 (cur_iov_sended l + need) then
        let need := u64 (iov_len - cur_iov_sended l) in
        if MAX_TRANSMIT_SOCKET_READ_LENGTH <? need
        then (MAX_TRANSMIT_SOCKET_READ_LENGTH, 1, iov_index l, cur_iov_sended l)
        else (need, 0, u8 (iov_index l + 1), 0)
      else if MAX_TRANSMIT_SOCKET_READ_LENGTH <? need
      then (MAX_TRANSMIT_SOCKET_READ_LENGTH, 1, iov_index l, cur_iov_sended l)
      else (need, 0, iov_index l, cur_iov_sended l) in
    let is_finished :=
      if (size <=? u64 (need + already_send l)) || (loop_count l =? SOCKET_UPLOAD_CHUNK_LIMIT - 1)
      then 1 else 0 in
    MkIovLoop (already_send l + need) sended index (u8 (loop_count l + 1))
      (* the base is taken after [cur_iov_sended] was reset *)
      (upload_socket_data_with_buffer env (loop_count l) (iov_base + sended) need is_finished
         have_reduce args (iov_state l))
  else l.

Definition upload_socket_data_iov (env : kenv R) (iov iovlen size : Z) (args : upload_data_args)
    (s : kstate) : kstate :=
  iov_state (Nat.iter (Z.to_nat SOCKET_UPLOAD_CHUNK_LIMIT)
               (UPLOAD_PER_SOCKET_DATA_IOV env iov iovlen size args) (MkIovLoop 0 0 0 0 s)).

Definition upload_socket_data (env : kenv R) (args : upload_data_args) (s : kstate) : kstate :=
  if (connection_protocol args =? CONNECTION_PROTOCOL_UNKNOWN) ||
     negb (connection_ssl args =? Z.b2z (socket_data_ssl args)) ||
     (connection_skip_data_upload args =? 1)
  then s
  else
    let latest := bpf_map_lookup_elem socket_data_last_id_map (con_id args) s in
    let prev := match latest with
                | Some l => if last_random_id l =? random_id args then last_socket_data_id l else 0
                | None => 0
                end in
    let args := with_prev prev args in
    let s :=
      if decide (socket_data_buf args ≠ 0) then
        upload_socket_data_buf env (socket_data_buf args) (bytes_count args) args
          (socket_ssl_buffer_force_unfinished args) s
      else if decide (socket_data_iovec args ≠ 0) then
        upload_socket_data_iov env (socket_data_iovec args) (socket_data_iovlen args)
          (bytes_count args) args s
      else s in
    if match latest with
       | None => true
       | Some l => negb (last_socket_data_id l =? socket_data_id args)
       end
    then bpf_map_update_elem socket_data_last_id_map (con_id args)
           (MkLastId (random_id args) (socket_data_id args)) s
    else s.
End upload.
