(* ===== verification/KernelConn.v ===== *)
(** * The kernel side: connections

    Models src/bpf/accesslog/common/connection.h, src/bpf/accesslog/syscalls/connect.c,
    connect_conntrack.c and close.c: the active connections, and the connect and
    close events.

    An event is built in place in [rover_data_heap]: the members the program does
    not assign are what the buffer held, decoded as that struct, and the padding at
    the end of the struct goes out with it.  The kernel's structs ([struct sock],
    [struct nf_conn], ...) are arguments, as [kenv] and as records of the members
    the program reads. *)

From stdpp Require Import base gmap list.
From Stdlib Require Import ZArith Lia.
From S2P Require Import Prelude Interfaces Events Kernel.

Notation AF_INET := 2 (only parsing).
Notation AF_INET6 := 10 (only parsing).
Notation AF_UNKNOWN := 0xff (only parsing).
Notation CONNECTION_ROLE_TYPE_UNKNOWN := 0 (only parsing).
Notation CONNECTION_ROLE_TYPE_CLIENT := 1 (only parsing).
Notation CONNECTION_ROLE_TYPE_SERVER := 2 (only parsing).
Notation SOCKET_OPTS_TYPE_CONNECT := 1 (only parsing).
Notation SOCKET_OPTS_TYPE_ACCEPT := 2 (only parsing).
Notation EINPROGRESS := 115 (only parsing).

(** ** The events in the reserved buffer *)

Definition fresh_connect_event : SocketConnectEvent :=
  MkSocketConnectEvent 0 0 0 0 0 0 0 0 0 0 0 0 0 (replicate 16 0) 0 0 (replicate 16 0) 0 0 0.

(** [struct socket_connect_event_t]: the members in order; four bytes of padding. *)
Definition socket_connect_event_t (e : SocketConnectEvent) : list field :=
  [FInt 8 (ConID e); FInt 8 (connect_RandomID e); FInt 8 (connect_StartTime e);
   FInt 8 (connect_EndTime e); FInt 4 (connect_PID e); FInt 4 (connect_SocketFD e);
   FInt 1 (FuncName e); FInt 1 (Role e); FInt 1 (SocketFamily e); FInt 1 (ConnectSuccess e);
   FInt 4 (Pad0 e);
   FInt 4 (RemoteAddrV4 e); FInt 4 (RemoteAddrPort e); FArr (RemoteAddrV6 e);
   FInt 4 (LocalAddrV4 e); FInt 4 (LocalAddrPort e); FArr (LocalAddrV6 e);
   FInt 8 (ConnTrackUpstreamIPl e); FInt 8 (ConnTrackUpstreamIPh e);
   FInt 4 (ConnTrackUpstreamPort e)].

(** [struct socket_close_event_t]: the members in order; four bytes of padding. *)
Definition socket_close_event_t (e : SocketCloseEvent) : list field :=
  [FInt 8 (close_ConnectionID e); FInt 8 (close_RandomID e); FInt 8 (close_StartTime e);
   FInt 8 (close_EndTime e); FInt 4 (close_PID e); FInt 4 (close_SocketFD e);
   FInt 4 (close_Success e)].

(** The bytes of an event with the padding [n] that follows its last member. *)
Definition padded (n : nat) (bs : list Z) (s : kstate) : list Z :=
  bs ++ take n (drop (length bs) (rover_data_heap s)).

Definition family_should_trace (family : Z) : bool :=
  negb (negb (family =? AF_UNKNOWN) && negb (family =? AF_INET) && negb (family =? AF_INET6)).

Section connection.
Context {R : Type}.

(** The address members of the event: from the socket, from the address argument,
    or unknown. *)
Definition fill_addresses (env : kenv R) (socket addr : Z) (e0 : SocketConnectEvent)
  : SocketConnectEvent :=
  let set family r4 rp r6 l4 lp l6 :=
    MkSocketConnectEvent (ConID e0) (connect_RandomID e0) (connect_StartTime e0)
      (connect_EndTime e0) (connect_PID e0) (connect_SocketFD e0) (FuncName e0) (Role e0)
      (u8 family) (ConnectSuccess e0) (Pad0 e0) r4 rp r6 l4 lp l6
      (ConnTrackUpstreamIPl e0) (ConnTrackUpstreamIPh e0) (ConnTrackUpstreamPort e0) in
  let none family :=
    set family (RemoteAddrV4 e0) 0 (RemoteAddrV6 e0) (LocalAddrV4 e0) 0 (LocalAddrV6 e0) in
  if decide (socket ≠ 0) then
    let sk := socket_sk env socket in
    if u8 (skc_family sk) =? AF_INET then
      set (skc_family sk) (skc_daddr sk) (bpf_ntohs (skc_dport sk)) (RemoteAddrV6 e0)
        (skc_rcv_saddr sk) (skc_num sk) (LocalAddrV6 e0)
    else if u8 (skc_family sk) =? AF_INET6 then
      set (skc_family sk) (RemoteAddrV4 e0) (bpf_ntohs (skc_dport sk)) (skc_v6_daddr sk)
        (LocalAddrV4 e0) (skc_num sk) (skc_v6_rcv_saddr sk)
    else none (skc_family sk)
  else if decide (addr ≠ 0) then
    let sa := sockaddr_at env addr in
    if u8 (sa_family sa) =? AF_INET then
      set (sa_family sa) (sin_addr sa) (bpf_ntohs (sin_port sa)) (RemoteAddrV6 e0) 0 0
        (LocalAddrV6 e0)
    else if u8 (sa_family sa) =? AF_INET6 then
      set (sa_family sa) (RemoteAddrV4 e0) (bpf_ntohs (sin6_port sa)) (sin6_addr sa)
        (LocalAddrV4 e0) 0 (replicate 16 0)
    else none (sa_family sa)
  else none AF_UNKNOWN.

(** [conntrack] is the remote of the connect arguments; a null pointer is [None]. *)
Definition submit_new_connection (env : kenv R) (success : bool)
    (func_name tgid fd start_nacs addr socket : Z) (conntrack : option connect_args_t) (role : Z)
    (s : kstate) : kstate :=
  let conid := gen_tgid_fd tgid fd in
  let random_id := u32 (prandom env) in
  let role := if func_name =? SOCKET_OPTS_TYPE_CONNECT then CONNECTION_ROLE_TYPE_CLIENT
              else if func_name =? SOCKET_OPTS_TYPE_ACCEPT then CONNECTION_ROLE_TYPE_SERVER
              else role in
  let old := fst (ReadFrom fresh_connect_event (NewReader (rover_data_heap s))) in
  let '(iph, ipl, port) :=
    match conntrack with
    | Some c => (c Connect.remote_iph, c Connect.remote_ipl, c Connect.remote_port)
    | None => (0, 0, 0)
    end in
  let event :=
    MkSocketConnectEvent conid random_id start_nacs (ktime env) tgid fd (u8 func_name) (u8 role)
      (SocketFamily old) (Z.b2z success) (Pad0 old) (RemoteAddrV4 old) 0 (RemoteAddrV6 old)
      (LocalAddrV4 old) 0 (LocalAddrV6 old) ipl iph port in
  let socket := if decide (socket = 0) then fd_private_data env fd else socket in
  let event := fill_addresses env socket addr event in
  let s := rover_submit_buf socket_connection_event_queue
             (padded 4 (encode (socket_connect_event_t event)) s) s in
  if negb success then s
  else if tgid_is_ztunnel tgid s then s
  else
    bpf_map_update_elem active_connection_map conid
      (zeroed <| Conn.random_id := random_id |> <| Conn.pid := tgid |> <| Conn.sockfd := fd |>
         <| Conn.role := role |> <| Conn.socket_family := SocketFamily event |>) s.

Definition get_or_create_active_conn (env : kenv R) (tgid fd func_name role : Z) (s : kstate)
  : option active_connection_t * kstate :=
  let conid := gen_tgid_fd tgid fd in
  match bpf_map_lookup_elem active_connection_map conid s with
  | Some conn => (Some conn, s)
  | None =>
    let s := submit_new_connection env true func_name tgid fd 0 0 0 None role s in
    (bpf_map_lookup_elem active_connection_map conid s, s)
  end.

Definition submit_connection_when_not_exists (env : kenv R) (id : Z) (connect_args : connect_args_t)
    (func_name role : Z) (s : kstate) : kstate :=
  let tgid := tgid_of id in
  let fd := connect_args Connect.fd in
  match bpf_map_lookup_elem active_connection_map (gen_tgid_fd tgid fd) s with
  | Some _ => s
  | None =>
    submit_new_connection env true func_name tgid fd (connect_args Connect.start_nacs)
      (connect_args Connect.addr) 0 (Some connect_args) role s
  end.

Definition notify_close_connection (conid : Z) (con : active_connection_t)
    (start_time end_time ret : Z) (s : kstate) : kstate :=
  let s := bpf_map_delete_elem socket_data_last_id_map conid s in
  let s := bpf_map_delete_elem socket_data_id_generate_map conid s in
  let event :=
    MkSocketCloseEvent conid (con Conn.random_id) start_time end_time (con Conn.pid)
      (con Conn.sockfd) (if 0 <? ret then 1 else 0) in
  rover_submit_buf socket_close_event_queue (padded 4 (encode (socket_close_event_t event)) s) s.

Definition submit_close_connection (env : kenv R) (tgid fd start_nacs ret : Z) (s : kstate)
  : kstate :=
  let conid := gen_tgid_fd tgid fd in
  match bpf_map_lookup_elem active_connection_map conid s with
  | None => s
  | Some con =>
    bpf_map_delete_elem active_connection_map conid
      (notify_close_connection conid con start_nacs (ktime env) ret s)
  end.

(** ** connect and accept *)

Definition process_connect (env : kenv R) (id : Z) (connect_args : connect_args_t) (ret : Z)
    (s : kstate) : kstate :=
  let success := negb ((ret <? 0) && negb (ret =? - EINPROGRESS)) in
  submit_new_connection env success SOCKET_OPTS_TYPE_CONNECT (tgid_of id)
    (connect_args Connect.fd) (connect_args Connect.start_nacs) (connect_args Connect.addr)
    (sk_socket env (connect_args Connect.sock)) (Some connect_args) 0 s.

Definition process_accept (env : kenv R) (id : Z) (accept_args : accept_args_t) (ret : Z)
    (s : kstate) : kstate :=
  submit_new_connection env true SOCKET_OPTS_TYPE_ACCEPT (tgid_of id) (u32 ret)
    (accept_start_nacs accept_args) (accept_addr accept_args) (accept_socket accept_args) None 0 s.

Definition tracepoint_enter_connect (env : kenv R) (arg0 arg1 : Z) (s : kstate) : kstate :=
  let id := pid_tgid env in
  if negb (tgid_should_trace (tgid_of id) s) && negb (tgid_is_ztunnel (tgid_of id) s) then s
  else
    bpf_map_update_elem conecting_args id
      (zeroed <| Connect.fd := arg0 |> <| Connect.addr := arg1 |>
         <| Connect.start_nacs := ktime env |>) s.

Definition tracepoint_exit_connect (env : kenv R) (ret : Z) (s : kstate) : kstate :=
  let id := pid_tgid env in
  let s := match bpf_map_lookup_elem conecting_args id s with
           | Some connect_args => process_connect env id connect_args ret s
           | None => s
           end in
  bpf_map_delete_elem conecting_args id s.

(** Also [ip4_udp_datagram_connect]. *)
Definition tcp_connect (env : kenv R) (sock : Z) (s : kstate) : kstate :=
  match bpf_map_lookup_elem conecting_args (pid_tgid env) s with
  | Some connect_args =>
    write_elem conecting_args (pid_tgid env) (connect_args <| Connect.sock := sock |>) s
  | None => s
  end.

Definition tracepoint_enter_accept (env : kenv R) (arg1 : Z) (s : kstate) : kstate :=
  if negb (tgid_should_trace (tgid_of (pid_tgid env)) s) then s
  else bpf_map_update_elem accepting_args (pid_tgid env) (MkAcceptArgs arg1 0 (ktime env)) s.

Definition tracepoint_exit_accept (env : kenv R) (ret : Z) (s : kstate) : kstate :=
  let id := pid_tgid env in
  let s := match bpf_map_lookup_elem accepting_args id s with
           | Some accept_args => process_accept env id accept_args ret s
           | None => s
           end in
  bpf_map_delete_elem accepting_args id s.

Definition sock_alloc_ret (env : kenv R) (sock : Z) (s : kstate) : kstate :=
  match bpf_map_lookup_elem accepting_args (pid_tgid env) s with
  | Some a =>
    write_elem accepting_args (pid_tgid env)
      (MkAcceptArgs (accept_addr a) sock (accept_start_nacs a)) s
  | None => s
  end.

(** ** close *)

Definition process_close_sock (env : kenv R) (id : Z) (args : sock_close_args_t) (ret : Z)
    (s : kstate) : kstate :=
  if close_fd args <? 0 then s
  else submit_close_connection env (tgid_of id) (u32 (close_fd args)) (close_start_nacs args) ret s.

Definition tracepoint_enter_close (env : kenv R) (arg0 : Z) (s : kstate) : kstate :=
  if negb (tgid_should_trace (tgid_of (pid_tgid env)) s) then s
  else bpf_map_update_elem closing_args (pid_tgid env) (MkCloseArgs (i32 (u32 arg0)) (ktime env)) s.

Definition tracepoint_exit_close (env : kenv R) (ret : Z) (s : kstate) : kstate :=
  let id := pid_tgid env in
  let s := match bpf_map_lookup_elem closing_args id s with
           | Some close_args => process_close_sock env id close_args ret s
           | None => s
           end in
  bpf_map_delete_elem closing_args id s.

(** ** Connection tracking

    The reply tuple of a [struct nf_conn]: ports in network order, an IPv6 address
    as its high and low halves. *)
Record nf_conntrack_tuple : Type := MkTuple {
  protonum : Z; src_port : Z; dst_port : Z; l3num : Z;
  src_ip : Z; dst_ip : Z; src_in6_h : Z; src_in6_l : Z; dst_in6_h : Z; dst_in6_l : Z
}.

Record nf_conn : Type := MkNfConn { ct_status : Z; ct_reply : nf_conntrack_tuple }.

(** The source of the tuple as high half, low half and port, when it is the peer
    of the socket that connects. *)
Definition nf_conntrack_tuple_to_conntrack_tuple (env : kenv R) (connect_args : connect_args_t)
    (ct : nf_conntrack_tuple) : option (Z * Z * Z) :=
  if negb ((protonum ct =? 6) || (protonum ct =? 17)) then None
  else
    let sport := bpf_ntohs (src_port ct) in
    let dport := bpf_ntohs (dst_port ct) in
    if (sport =? 0) || (dport =? 0) then None
    else
      let '(saddr_h, saddr_l, daddr_h, daddr_l, zero) :=
        if l3num ct =? AF_INET then
          (0, src_ip ct, 0, dst_ip ct, (src_ip ct =? 0) || (dst_ip ct =? 0))
        else if l3num ct =? AF_INET6 then
          (src_in6_h ct, src_in6_l ct, dst_in6_h ct, dst_in6_l ct,
           (src_in6_h ct =? 0) || (src_in6_l ct =? 0) || (dst_in6_h ct =? 0) || (dst_in6_l ct =? 0))
        else (0, 0, 0, 0, false) in
      if (zero : bool) then None
      else
        let tmps := sk_socket env (connect_args Connect.sock) in
        let sk := socket_sk env tmps in
        if bool_decide (tmps ≠ 0) && (skc_family sk =? AF_INET) &&
           (negb (skc_rcv_saddr sk =? daddr_l) || negb (skc_num sk =? dport))
        then None
        else Some (saddr_h, saddr_l, sport).

(** [None] is a null or unreadable [ct]. *)
Definition nf_conn_aware (env : kenv R) (ct : option nf_conn) (s : kstate) : kstate :=
  match ct, bpf_map_lookup_elem conecting_args (pid_tgid env) s with
  | Some ct, Some connect_args =>
    if negb (connect_args Connect.has_remote =? 0) then s
    else if Z.land (ct_status ct) 8 =? 0 then s
    else if Z.land (ct_status ct) 0x30 =? 0 then s
    else
      match nf_conntrack_tuple_to_conntrack_tuple env connect_args (ct_reply ct) with
      | None => s
      | Some (iph, ipl, port) =>
        bpf_map_update_elem conecting_args (pid_tgid env)
          (connect_args <| Connect.remote_iph := iph |> <| Connect.remote_ipl := ipl |>
             <| Connect.remote_port := port |> <| Connect.has_remote := 1 |>) s
      end
  | _, _ => s
  end.
End connection.
