(* ===== verification/KernelTransfer.v ===== *)
(** * The kernel side: data transfer system calls

    Models src/bpf/accesslog/syscalls/transfer.h and transfer.c, with
    src/bpf/accesslog/common/sock.h: what is remembered when a read or write system
    call starts, and what is reported when it ends.  The arguments of a tracepoint
    are the arguments of its handler; a C struct in user memory is read at the
    offsets of its members. *)

From stdpp Require Import base gmap list.
From Stdlib Require Import ZArith Lia.
From S2P Require Import Prelude Interfaces Events Kernel KernelUpload KernelConn.

Notation SOCK_DATA_DIRECTION_INGRESS := 1 (only parsing).
Notation SOCK_DATA_DIRECTION_EGRESS := 2 (only parsing).
Notation SOCKET_OPTS_TYPE_SENDTO := 5 (only parsing).
Notation SOCKET_OPTS_TYPE_SENDMSG := 6 (only parsing).
Notation SOCKET_OPTS_TYPE_SENDMMSG := 7 (only parsing).
Notation SOCKET_OPTS_TYPE_WRITE := 9 (only parsing).
Notation SOCKET_OPTS_TYPE_WRITEV := 10 (only parsing).
Notation SOCKET_OPTS_TYPE_READ := 11 (only parsing).
Notation SOCKET_OPTS_TYPE_READV := 12 (only parsing).
Notation SOCKET_OPTS_TYPE_RECV := 13 (only parsing).
Notation SOCKET_OPTS_TYPE_RECVFROM := 14 (only parsing).
Notation SOCKET_OPTS_TYPE_RECVMSG := 15 (only parsing).
Notation SOCKET_OPTS_TYPE_RECVMMSG := 16 (only parsing).

(** ** A finished transfer *)

(** [struct socket_detail_t]: the members in order. *)
Definition socket_detail_t (conid now func_name : Z) (conn : active_connection_t)
    (args : sock_data_args_t) : list field :=
  [FInt 8 conid; FInt 8 (conn Conn.random_id); FInt 8 (args Args.data_id);
   FInt 8 (args Args.start_nacs); FInt 8 now;
   FInt 4 (args Args.exit_l4_time - args Args.enter_l4_time); FInt 4 (args Args.l3_duration);
   FInt 4 (args Args.l3_local_duration); FInt 4 (args Args.l3_output_duration);
   FInt 4 (args Args.total_resolve_mac_time); FInt 4 (args Args.total_net_filter_time);
   FInt 4 (args Args.l2_duration); FInt 4 (args Args.l2_ready_send_duration);
   FInt 4 (args Args.l2_send_duration); FInt 4 (args Args.total_package_to_queue_time);
   FInt 4 (args Args.l3_rcv_duration); FInt 4 (args Args.ifindex);
   FInt 8 (args Args.total_package_receive_from_queue_time);
   FInt 8 (args Args.total_package_size); FInt 1 (args Args.l2_enter_queue_count);
   FInt 1 (args Args.package_count); FInt 1 (args Args.retransmit_package_count);
   FInt 1 (args Args.total_resolve_mac_count); FInt 1 (args Args.total_net_filter_count);
   FInt 1 func_name; FInt 1 (conn Conn.protocol); FInt 1 (conn Conn.ssl)].

(** The role a message of a known type gives the connection. *)
Definition infer_role (msg_type data_direction role : Z) : Z :=
  if ((msg_type =? CONNECTION_MESSAGE_TYPE_REQUEST) && (data_direction =? SOCK_DATA_DIRECTION_EGRESS)) ||
     ((msg_type =? CONNECTION_MESSAGE_TYPE_RESPONSE) && (data_direction =? SOCK_DATA_DIRECTION_INGRESS))
  then CONNECTION_ROLE_TYPE_CLIENT
  else if ((msg_type =? CONNECTION_MESSAGE_TYPE_RESPONSE) && (data_direction =? SOCK_DATA_DIRECTION_EGRESS)) ||
          ((msg_type =? CONNECTION_MESSAGE_TYPE_REQUEST) && (data_direction =? SOCK_DATA_DIRECTION_INGRESS))
  then CONNECTION_ROLE_TYPE_SERVER
  else role.

(** [get_sock_role]; an unreadable [sk_max_ack_backlog] is [None]. *)
Definition get_sock_role (current_role : Z) (max_ack_backlog : option Z) : Z :=
  if negb (current_role =? CONNECTION_ROLE_TYPE_UNKNOWN) then current_role
  else
    match max_ack_backlog with
    | None => CONNECTION_ROLE_TYPE_UNKNOWN
    | Some 0 => CONNECTION_ROLE_TYPE_CLIENT
    | Some _ => CONNECTION_ROLE_TYPE_SERVER
    end.

Section transfer.
Context {R : Type} `{!MemoryReader R}.

(** Try the protocol analyzer on a connection whose role or protocol is unknown. *)
Definition analyze_connection (env : kenv R) (args : sock_data_args_t)
    (bytes_count data_direction : Z) (ssl : bool) (conn : active_connection_t) (s : kstate)
  : active_connection_t * kstate :=
  if ((conn Conn.role =? CONNECTION_ROLE_TYPE_UNKNOWN) || (conn Conn.protocol =? 0)) &&
     (conn Conn.ssl =? Z.b2z ssl) then
    match read_socket_data env (args Args.buf) (args Args.iovec) (u32 bytes_count) s with
    | (None, s) => (conn, s)
    | (Some data_len, s) =>
      let '(msg_type, protocol) :=
        analyze_protocol (reader_bytes env s) data_len (conn Conn.protocol) in
      (conn <| Conn.protocol := protocol |>
            <| Conn.role := infer_role msg_type data_direction (conn Conn.role) |>, s)
    end
  else (conn, s).

(** [args] is the entry of the system call, which its exit handler deletes. *)
Definition process_write_data (env : kenv R) (id : Z) (args : sock_data_args_t) (bytes_count : Z)
    (data_direction : Z) (vecs : bool) (func_name : Z) (ssl : bool) (s : kstate) : kstate :=
  let tgid := tgid_of id in
  if vecs && (args Args.iovlen <=? 0) then s
  else if args Args.fd <? 0 then s
  else if bytes_count <=? 0 then s
  else
    let conid := gen_tgid_fd tgid (args Args.fd) in
    match get_or_create_active_conn env tgid (args Args.fd) func_name (args Args.sk_role) s with
    | (None, s) => s
    | (Some conn, s) =>
      if negb (family_should_trace (conn Conn.socket_family)) then s
      else
        let '(conn, s) :=
          match bpf_map_lookup_elem openssl_sock_data_args id s with
          | Some ssl_args =>
            if ssl_args Args.fd =? 0 then
              (conn <| Conn.ssl := 1 |>,
               write_elem openssl_sock_data_args id (ssl_args <| Args.fd := args Args.fd |>) s)
            else if ssl then (conn <| Conn.ssl := 1 |>, s) else (conn, s)
          | None => if ssl then (conn <| Conn.ssl := 1 |>, s) else (conn, s)
          end in
        let args :=
          if (args Args.total_package_size =? 0) && (args Args.package_count =? 0)
          then args <| Args.total_package_size := bytes_count |> <| Args.package_count := 1 |>
          else args in
        let '(conn, s) := analyze_connection env args bytes_count data_direction ssl conn s in
        let s := write_elem active_connection_map conid conn s in
        let s :=
          if conn Conn.ssl =? Z.b2z ssl then
            rover_submit_buf socket_detail_queue
              (encode (socket_detail_t conid (ktime env) func_name conn args)) s
          else s in
        upload_socket_data env
          (MkUploadArgs (args Args.start_nacs) (ktime env) conid (conn Conn.random_id)
             (args Args.data_id) 0 (args Args.iovec) (args Args.iovlen) bytes_count
             (args Args.buf) data_direction (conn Conn.protocol) (conn Conn.ssl)
             (args Args.ssl_buffer_force_unfinished) (conn Conn.skip_data_upload) ssl) s
    end.

(** ** Shared steps of the tracepoints *)

(** Remember the system call, with a new data id. *)
Definition save_data_args (env : kenv R) (args : sock_data_args_t) (s : kstate) : kstate :=
  let id := pid_tgid env in
  let '(data_id, s) := generate_socket_data_id id (args Args.fd) false s in
  bpf_map_update_elem socket_data_args id
    (args <| Args.start_nacs := ktime env |> <| Args.data_id := data_id |>) s.

Definition save_connect_args (env : kenv R) (addr fd start : Z) (s : kstate) : kstate :=
  if decide (addr ≠ 0) then
    bpf_map_update_elem conecting_args (pid_tgid env)
      (zeroed <| Connect.addr := addr |> <| Connect.fd := fd |> <| Connect.start_nacs := start |>) s
  else s.

(** Report a connection the call has an address for. *)
Definition finish_connect (env : kenv R) (bytes_count func_name role : Z) (s : kstate) : kstate :=
  let id := pid_tgid env in
  let s := match bpf_map_lookup_elem conecting_args id s with
           | Some connect_args =>
             if 0 <? bytes_count
             then submit_connection_when_not_exists env id connect_args func_name role s else s
           | None => s
           end in
  bpf_map_delete_elem conecting_args id s.

(** Report the data of the call; [sock_only] requires that a socket was reached. *)
Definition finish_data (env : kenv R) (sock_only : bool) (bytes_count : sock_data_args_t → Z)
    (data_direction : Z) (vecs : bool) (func_name : Z) (s : kstate) : kstate :=
  let id := pid_tgid env in
  let s := match bpf_map_lookup_elem socket_data_args id s with
           | Some args =>
             if sock_only && (args Args.is_sock_event =? 0) then s
             else process_write_data env id args (bytes_count args) data_direction vecs func_name
                    false s
           | None => s
           end in
  bpf_map_delete_elem socket_data_args id s.

(** A value of [n] bytes in user memory. *)
Definition load (env : kenv R) (n : nat) (a : Z) : Z := le_Z (bpf_probe_read n a (memory env)).

Definition traced (env : kenv R) (s : kstate) : bool := tgid_should_trace (tgid_of (pid_tgid env)) s.

(** [msg_name], [msg_iov] and [msg_iovlen] of a message header in user memory. *)
Definition save_msghdr (env : kenv R) (fd msghdr : Z) (mmsg : bool) (s : kstate) : kstate :=
  let s := save_connect_args env (load env 8 msghdr) fd (ktime env) s in
  save_data_args env
    (zeroed <| Args.fd := fd |> <| Args.iovec := load env 8 (msghdr + 16) |>
       <| Args.iovlen := load env 8 (msghdr + 24) |>
       <| Args.msg_len := if mmsg then msghdr + 24 else 0 |>) s.

(** ** Writing *)

Definition tracepoint_enter_write (env : kenv R) (arg0 arg1 : Z) (s : kstate) : kstate :=
  if traced env s
  then save_data_args env (zeroed <| Args.fd := arg0 |> <| Args.buf := arg1 |>) s else s.

Definition tracepoint_exit_write (env : kenv R) (ret : Z) (s : kstate) : kstate :=
  finish_data env true (λ _, ret) SOCK_DATA_DIRECTION_EGRESS false SOCKET_OPTS_TYPE_WRITE s.

Definition tracepoint_enter_sendto (env : kenv R) (arg0 arg1 arg4 : Z) (s : kstate) : kstate :=
  if traced env s then
    let s := save_connect_args env arg4 arg0 0 s in
    save_data_args env (zeroed <| Args.fd := arg0 |> <| Args.buf := arg1 |>) s
  else s.

Definition tracepoint_exit_sendto (env : kenv R) (ret : Z) (s : kstate) : kstate :=
  let s := finish_connect env ret SOCKET_OPTS_TYPE_SENDTO CONNECTION_ROLE_TYPE_CLIENT s in
  finish_data env false (λ _, ret) SOCK_DATA_DIRECTION_EGRESS false SOCKET_OPTS_TYPE_SENDTO s.

Definition tracepoint_enter_writev (env : kenv R) (arg0 arg1 arg2 : Z) (s : kstate) : kstate :=
  if traced env s
  then save_data_args env
         (zeroed <| Args.fd := arg0 |> <| Args.iovec := arg1 |> <| Args.iovlen := arg2 |>) s
  else s.

Definition tracepoint_exit_writev (env : kenv R) (ret : Z) (s : kstate) : kstate :=
  finish_data env true (λ _, ret) SOCK_DATA_DIRECTION_EGRESS true SOCKET_OPTS_TYPE_WRITEV s.

Definition tracepoint_enter_sendmsg (env : kenv R) (arg0 arg1 : Z) (s : kstate) : kstate :=
  if traced env s then
    if decide (arg1 = 0) then s else save_msghdr env arg0 arg1 false s
  else s.

Definition tracepoint_exit_sendmsg (env : kenv R) (ret : Z) (s : kstate) : kstate :=
  let s := finish_connect env ret SOCKET_OPTS_TYPE_SENDMSG CONNECTION_ROLE_TYPE_CLIENT s in
  finish_data env false (λ _, ret) SOCK_DATA_DIRECTION_EGRESS true SOCKET_OPTS_TYPE_SENDMSG s.

Definition tracepoint_enter_sendmmsg (env : kenv R) (arg0 arg1 arg2 : Z) (s : kstate) : kstate :=
  if traced env s then
    if decide (arg1 = 0 ∨ u32 arg2 ≤ 0) then s else save_msghdr env arg0 arg1 true s
  else s.

Definition tracepoint_exit_sendmmsg (env : kenv R) (ret : Z) (s : kstate) : kstate :=
  let s := finish_connect env ret SOCKET_OPTS_TYPE_SENDMMSG CONNECTION_ROLE_TYPE_CLIENT s in
  finish_data env false (λ args, load env 4 (args Args.msg_len)) SOCK_DATA_DIRECTION_EGRESS true
    SOCKET_OPTS_TYPE_SENDMMSG s.

(** ** Reading *)

Definition tracepoint_enter_read (env : kenv R) (arg0 arg1 : Z) (s : kstate) : kstate :=
  if traced env s
  then save_data_args env (zeroed <| Args.fd := arg0 |> <| Args.buf := arg1 |>) s else s.

Definition tracepoint_exit_read (env : kenv R) (ret : Z) (s : kstate) : kstate :=
  finish_data env true (λ _, ret) SOCK_DATA_DIRECTION_INGRESS false SOCKET_OPTS_TYPE_READ s.

Definition tracepoint_enter_readv (env : kenv R) (arg0 arg1 arg2 : Z) (s : kstate) : kstate :=
  if traced env s
  then save_data_args env
         (zeroed <| Args.fd := arg0 |> <| Args.iovec := arg1 |> <| Args.iovlen := arg2 |>) s
  else s.

Definition tracepoint_exit_readv (env : kenv R) (ret : Z) (s : kstate) : kstate :=
  finish_data env true (λ _, ret) SOCK_DATA_DIRECTION_INGRESS true SOCKET_OPTS_TYPE_READV s.

Definition sys_recv (env : kenv R) (parm1 parm2 : Z) (s : kstate) : kstate :=
  if traced env s
  then save_data_args env (zeroed <| Args.fd := parm1 |> <| Args.buf := parm2 |>) s else s.

Definition sys_recv_ret (env : kenv R) (ret : Z) (s : kstate) : kstate :=
  finish_data env false (λ _, ret) SOCK_DATA_DIRECTION_INGRESS false SOCKET_OPTS_TYPE_RECV s.

Definition tracepoint_enter_recvfrom (env : kenv R) (arg0 arg1 arg4 : Z) (s : kstate) : kstate :=
  if traced env s then
    let s := save_connect_args env arg4 arg0 0 s in
    save_data_args env (zeroed <| Args.fd := arg0 |> <| Args.buf := arg1 |>) s
  else s.

Definition tracepoint_exit_recvfrom (env : kenv R) (ret : Z) (s : kstate) : kstate :=
  let s := finish_connect env ret SOCKET_OPTS_TYPE_RECVFROM CONNECTION_ROLE_TYPE_SERVER s in
  finish_data env false (λ _, ret) SOCK_DATA_DIRECTION_INGRESS false SOCKET_OPTS_TYPE_RECVFROM s.

Definition tracepoint_enter_recvmsg (env : kenv R) (arg0 arg1 : Z) (s : kstate) : kstate :=
  if traced env s then
    if decide (arg1 = 0) then s else save_msghdr env arg0 arg1 false s
  else s.

Definition tracepoint_exit_recvmsg (env : kenv R) (ret : Z) (s : kstate) : kstate :=
  let s := finish_connect env ret SOCKET_OPTS_TYPE_RECVMSG CONNECTION_ROLE_TYPE_SERVER s in
  finish_data env false (λ _, ret) SOCK_DATA_DIRECTION_INGRESS true SOCKET_OPTS_TYPE_RECVMSG s.

Definition tracepoint_enter_recvmmsg (env : kenv R) (arg0 arg1 arg2 : Z) (s : kstate) : kstate :=
  if traced env s then
    if decide (arg1 = 0 ∨ u32 arg2 ≤ 0) then s else save_msghdr env arg0 arg1 true s
  else s.

Definition tracepoint_exit_recvmmsg (env : kenv R) (ret : Z) (s : kstate) : kstate :=
  let s := finish_connect env ret SOCKET_OPTS_TYPE_RECVMMSG CONNECTION_ROLE_TYPE_SERVER s in
  finish_data env false (λ args, load env 4 (args Args.msg_len)) SOCK_DATA_DIRECTION_INGRESS true
    SOCKET_OPTS_TYPE_RECVMMSG s.

(** A socket was reached: [security_socket_sendmsg] and [security_socket_recvmsg]. *)
Definition security_socket_sendmsg (env : kenv R) (s : kstate) : kstate :=
  match bpf_map_lookup_elem socket_data_args (pid_tgid env) s with
  | Some args => write_elem socket_data_args (pid_tgid env) (args <| Args.is_sock_event := 1 |>) s
  | None => s
  end.
End transfer.
