(* ===== verification/KernelLaws.v ===== *)
(** * Properties of the kernel side

    - Chunked upload: what [upload_socket_data_buf] submits, decoded by the event
      reader of user space and read through the socket data buffer. *)

From stdpp Require Import base gmap list strings sorting.
From Stdlib Require Import ZArith Lia.
From S2P Require Import Prelude Interfaces Events Buffer BufferOrder Kernel KernelUpload.

(** ** Specification *)

(** The event user space decodes from a sample of [socket_data_upload_queue]. *)
Definition fresh_data_event : SocketDataUploadEvent :=
  MkSocketDataUploadEvent 0 0 0 0 0 0 0 0 0 0 0 0 0 (replicate (Z.to_nat 20480) 0).

Definition received (sample : list Z) : SocketDataUploadEvent :=
  fst (ReadFrom fresh_data_event (NewReader sample)).

(** The arguments hold values of their C types. *)
Definition upload_args_fit (a : upload_data_args) : Prop :=
  0 ≤ start_time a < 2 ^ 64 ∧ 0 ≤ end_time a < 2 ^ 64 ∧ 0 ≤ con_id a < 2 ^ 64 ∧
  0 ≤ random_id a < 2 ^ 64 ∧ 0 ≤ socket_data_id a < 2 ^ 64 ∧
  0 ≤ prev_socket_data_id a < 2 ^ 64 ∧ 0 ≤ bytes_count a < 2 ^ 63 ∧
  0 ≤ connection_protocol a < 2 ^ 8 ∧ 0 ≤ data_direction a < 2 ^ 8.

(** Offset and length of the [i]-th chunk of [size] bytes, and their number. *)
Definition chunk_offset (i : nat) : Z := 20480 * Z.of_nat i.
Definition chunk_length (size : Z) (i : nat) : Z := Z.min 20480 (size - chunk_offset i).
Definition chunk_count (size : Z) : nat := Nat.min 6 (Z.to_nat ((size + 20479) / 20480)).

Section upload_laws.
Context {R : Type} `{!MemoryReader R}.

(** What the [i]-th chunk of a payload at [buf] carries.  The payload is copied for
    the low eleven bits of the length only. *)
Record uploaded (env : kenv R) (buf size : Z) (a : upload_data_args) (i : nat)
    (e : SocketDataUploadEvent) : Prop := {
  up_sequence : Sequence0 e = Z.of_nat i;
  up_length : DataLen e = chunk_length size i;
  up_finished : Finished e = if decide (i = 5%nat ∨ size ≤ chunk_offset (S i)) then 1 else 0;
  up_reduce : HaveReduce e = if decide (chunk_offset (S i) < size) then 1 else 0;
  up_ids : data_ConnectionID e = con_id a ∧ data_RandomID e = random_id a ∧
           DataID0 e = socket_data_id a ∧ PrevDataID0 e = prev_socket_data_id a;
  up_times : StartTime0 e = start_time a ∧ EndTime0 e = end_time a;
  up_rest : Protocol0 e = connection_protocol a ∧ Direction0 e = data_direction a ∧
            TotalSize0 e = bytes_count a;
  up_capacity : Z.of_nat (length (BufferBytes e)) = 20480;
  up_copied :
    take (Z.to_nat (Z.land (chunk_length size i) 0x7ff)) (BufferBytes e) =
    bpf_probe_read (Z.to_nat (Z.land (chunk_length size i) 0x7ff)) (buf + chunk_offset i)
      (memory env)
}.

(** ** Lemmas on one chunk *)

Lemma land_7ff z : Z.land z 0x7ff = z mod 2048.
Proof. by apply (Z.land_ones z 11). Qed.

Lemma land_7ff_bounds z : 0 ≤ z → 0 ≤ Z.land z 0x7ff ≤ 2047 ∧ Z.land z 0x7ff ≤ z.
Proof.
  intros. rewrite land_7ff. pose proof (Z.mod_pos_bound z 2048). pose proof (Z.mod_le z 2048). lia.
Qed.

Lemma header_length index size fin red a :
  length (encode (upload_event_header index size fin red a)) = 64%nat.
Proof.
  unfold upload_event_header. rewrite !encode_cons, !length_app. cbn [encode_field].
  by rewrite !le_bytes_length.
Qed.

(** The bytes of one submitted chunk are the layout of an event. *)
Lemma chunk_sample (env : kenv R) index buf size fin red a s :
  0 < size ≤ 20480 → Z.of_nat (length (rover_data_heap s)) = 30960 →
  ∃ b, Z.of_nat (length b) = 20480 ∧
    take (Z.to_nat (Z.land size 0x7ff)) b =
      bpf_probe_read (Z.to_nat (Z.land size 0x7ff)) buf (memory env) ∧
    let sample := encode (upload_event_header index size fin red a ++ [FArr b]) in
    let s' := upload_socket_data_with_buffer env index buf size fin red a s in
    samples s' = samples s ++ [(socket_data_upload_queue, sample)] ∧
    maps s' = maps s ∧ Z.of_nat (length (rover_data_heap s')) = 30960.
Proof.
  intros Hs Hh. pose proof (land_7ff_bounds size ltac:(lia)) as Hn.
  unfold upload_socket_data_with_buffer.
  replace (20480 <? size) with false by lia. replace (size <=? 0) with false by lia.
  set (n := Z.to_nat (Z.land size 0x7ff)).
  set (hd := encode (upload_event_header index size fin red a)).
  assert (Hhd : length hd = 64%nat) by apply header_length.
  set (d := bpf_probe_read n buf (memory env)).
  assert (Hd : length d = n) by apply probe_read_length.
  exists (d ++ take (Z.to_nat 20480 - n) (drop (length hd + length d) (rover_data_heap s))).
  assert (Ht : take (Z.to_nat sizeof_upload_event)
                 (hd ++ d ++ drop (length hd + length d) (rover_data_heap s)) =
               hd ++ d ++ take (Z.to_nat 20480 - n)
                 (drop (length hd + length d) (rover_data_heap s))).
  { unfold sizeof_upload_event. rewrite !take_app, !take_ge by lia. do 3 f_equal. lia. }
  assert (Hl : length (take (Z.to_nat 20480 - n) (drop (length hd + length d) (rover_data_heap s)))
               = (Z.to_nat 20480 - n)%nat) by (rewrite length_take, length_drop; lia).
  split_and!.
  - rewrite length_app, Hl. lia.
  - rewrite take_app_le by lia. by rewrite <-Hd, take_ge.
  - cbn zeta. fold hd n d. rewrite Ht. unfold rover_submit_buf, submit. cbn [samples set_rover_data_heap].
    do 3 f_equal. unfold hd, encode. by rewrite bind_app, !bind_cons, app_nil_r.
  - done.
  - fold hd n d. rewrite Ht. unfold rover_submit_buf, submit.
    cbn [rover_data_heap set_rover_data_heap]. rewrite !length_app, length_drop, Hl. lia.
Qed.

(** User space decodes that sample to the event. *)
Lemma received_chunk index size fin red a b :
  upload_args_fit a → 0 ≤ index < 2 ^ 16 → 0 ≤ size < 2 ^ 16 → 0 ≤ fin < 2 ^ 8 → 0 ≤ red < 2 ^ 8 →
  Z.of_nat (length b) = 20480 →
  received (encode (upload_event_header index size fin red a ++ [FArr b])) =
  MkSocketDataUploadEvent (connection_protocol a) red (data_direction a) fin index size
    (start_time a) (end_time a) (con_id a) (random_id a) (socket_data_id a)
    (prev_socket_data_id a) (bytes_count a) b.
Proof.
  intros Ha Hi Hs Hf Hr Hb. unfold received. set (e := MkSocketDataUploadEvent _ _ _ _ _ _ _ _ _ _ _ _ _ _).
  change (upload_event_header index size fin red a ++ [FArr b]) with (layout_data e).
  rewrite <-(app_nil_r (encode (layout_data e))), data_layout_read; [done| |].
  - destruct Ha as (?&?&?&?&?&?&?&?&?). unfold fits, layout_data, e. cbn -[Z.pow].
    repeat (apply Forall_cons; split; [first [exact I|lia]|]). by apply Forall_nil.
  - split; [done|]. unfold fresh_data_event. cbn [BufferBytes e]. rewrite length_replicate. lia.
Qed.

(** One iteration of the loop sends the chunk at its index, or nothing once the
    payload is sent. *)
Lemma upload_buf_chunk_spec (env : kenv R) buf size a force s i :
  upload_args_fit a → 0 < size < 2 ^ 63 → force ≠ 1 → (i < 6)%nat →
  Z.of_nat (length (rover_data_heap s)) = 30960 →
  ∃ s' sent,
    upload_buf_chunk env buf size a force (Z.min size (chunk_offset i), s) i =
      (Z.min size (chunk_offset (S i)), s') ∧
    samples s' = samples s ++ ((socket_data_upload_queue,.) <$> sent) ∧ maps s' = maps s ∧
    Z.of_nat (length (rover_data_heap s')) = 30960 ∧
    if decide (chunk_offset i < size)
    then ∃ x, sent = [x] ∧ uploaded env buf size a i (received x) else sent = [].
Proof.
  intros Ha Hs Hf Hi Hh. unfold upload_buf_chunk.
  replace (force =? 1) with false by lia. cbn [andb].
  case_decide as Hlt.
  - rewrite (Z.min_r size) by lia.
    assert (Hneed : (if 20480 <? size - chunk_offset i then (20480, 1)
                     else (u64 (size - chunk_offset i), 0)) =
      (chunk_length size i, if decide (chunk_offset (S i) < size) then 1 else 0)).
    { unfold chunk_length, chunk_offset in *. destruct (Z.ltb_spec 20480 (size - 20480 * Z.of_nat i)).
      - rewrite decide_True, Z.min_l by lia. done.
      - rewrite decide_False, Z.min_r by lia. unfold u64. by rewrite Z.mod_small by lia. }
    rewrite Hneed. clear Hneed. cbn beta iota.
    assert (Hlen : 0 < chunk_length size i ≤ 20480) by (unfold chunk_length, chunk_offset in *; lia).
    assert (Hfin : (if (size <=? u64 (chunk_length size i + chunk_offset i)) || (Z.of_nat i =? 6 - 1)
                    then 1 else 0) = if decide (i = 5%nat ∨ size ≤ chunk_offset (S i)) then 1 else 0).
    { unfold u64. rewrite Z.mod_small by (unfold chunk_length, chunk_offset in *; lia).
      destruct (decide (i = 5%nat ∨ size ≤ chunk_offset (S i))) as [Hd|Hd];
        unfold chunk_length, chunk_offset in *;
        (destruct (Z.leb_spec size (Z.min 20480 (size - 20480 * Z.of_nat i) + 20480 * Z.of_nat i));
         destruct (Z.eqb_spec (Z.of_nat i) (6 - 1)); simpl; lia). }
    rewrite Hfin.
    set (fin := if decide (i = 5%nat ∨ _) then 1 else 0).
    set (hred := if decide (chunk_offset (S i) < size) then 1 else 0).
    destruct (chunk_sample env (Z.of_nat i) (buf + chunk_offset i) (chunk_length size i) fin hred a s)
      as (b & Hb & Hc & Hsm & Hm & Hl); [done..|].
    eexists _, [_]. split; [|split; [exact Hsm|split; [exact Hm|split; [exact Hl|]]]].
    { f_equal. unfold chunk_length, chunk_offset. lia. }
    eexists. split; [done|].
    rewrite received_chunk;
      [|done|lia|lia|unfold fin; by destruct (decide _)|unfold hred; destruct (decide (chunk_offset (S i) < size)); lia|done].
    by constructor.
  - rewrite Z.min_l by (unfold chunk_offset in *; lia). rewrite Z.sub_diag.
    exists s, []. split; [|by rewrite app_nil_r].
    change (20480 <? 0) with false. cbn beta iota. change (u64 0) with 0.
    unfold upload_socket_data_with_buffer. change (20480 <? 0) with false. cbn beta iota.
    f_equal. unfold chunk_offset in *. lia.
Qed.
Lemma chunk_total_lt size i :
  0 < size → (i < Z.to_nat ((size + 20479) / 20480))%nat ↔ chunk_offset i < size.
Proof.
  intros. unfold chunk_offset. pose proof (Z.div_mod (size + 20479) 20480).
  pose proof (Z.mod_pos_bound (size + 20479) 20480). lia.
Qed.

(** The loop up to its [n]-th iteration. *)
Lemma upload_buf_loop (env : kenv R) buf size a force s n :
  upload_args_fit a → 0 < size < 2 ^ 63 → force ≠ 1 → (n ≤ 6)%nat →
  Z.of_nat (length (rover_data_heap s)) = 30960 →
  ∃ s' sent,
    foldl (upload_buf_chunk env buf size a force) (0, s) (seq 0 n) =
      (Z.min size (chunk_offset n), s') ∧
    samples s' = samples s ++ ((socket_data_upload_queue,.) <$> sent) ∧ maps s' = maps s ∧
    Z.of_nat (length (rover_data_heap s')) = 30960 ∧
    Forall2 (λ i x, uploaded env buf size a i (received x))
      (seq 0 (Nat.min n (Z.to_nat ((size + 20479) / 20480)))) sent.
Proof.
  intros Ha Hs Hf Hn Hh. induction n as [|n IH].
  { exists s, []. rewrite Z.min_r by (unfold chunk_offset; lia). cbn. by rewrite app_nil_r. }
  destruct IH as (s1 & sent & Hrun & Hsm & Hm & Hl & Hall); [lia|].
  destruct (upload_buf_chunk_spec env buf size a force s1 n)
    as (s2 & more & Hstep & Hsm2 & Hm2 & Hl2 & Hmore); [done..|lia|done|].
  exists s2, (sent ++ more). rewrite seq_S, foldl_app, Hrun. cbn [foldl]. rewrite Nat.add_0_l, Hstep.
  split_and!; [done| |congruence|done|].
  { by rewrite Hsm2, Hsm, fmap_app, (assoc_L (++)). }
  pose proof (chunk_total_lt size n ltac:(lia)) as Htot. case_decide as Hlt.
  - destruct Hmore as (x & -> & Hx). rewrite Nat.min_l in Hall by (apply Htot in Hlt; lia).
    rewrite Nat.min_l by (apply Htot in Hlt; lia). rewrite seq_S, Nat.add_0_l.
    apply Forall2_app; [done|]. constructor; [exact Hx|constructor].
  - subst more. rewrite app_nil_r. rewrite Nat.min_r in Hall by lia. by rewrite Nat.min_r by lia.
Qed.

(** What the kernel sends of a payload in one buffer: chunks of 20480 bytes, six at
    most, whose samples decode to events with consecutive sequence numbers, the
    lengths and ids of the chunks, the finished mark on the last one and the mark
    that more data follows on the others.  Of the bytes of a chunk only as many as
    the low eleven bits of its length say are copied from the payload. *)
Lemma upload_socket_data_buf_spec (env : kenv R) buf size a force s :
  upload_args_fit a → 0 < size < 2 ^ 63 → force ≠ 1 →
  Z.of_nat (length (rover_data_heap s)) = 30960 →
  let s' := upload_socket_data_buf env buf size a force s in
  ∃ sent, samples s' = samples s ++ ((socket_data_upload_queue,.) <$> sent) ∧ maps s' = maps s ∧
    Forall2 (λ i x, uploaded env buf size a i (received x)) (seq 0 (chunk_count size)) sent.
Proof.
  intros Ha Hs Hf Hh.
  destruct (upload_buf_loop env buf size a force s 6) as (s' & sent & Hrun & Hsm & Hm & _ & Hall);
    [done..|].
  exists sent. unfold upload_socket_data_buf. change (Z.to_nat 6) with 6%nat. by rewrite Hrun.
Qed.
End upload_laws.

(** ** Lemmas: chunks that arrive in any order *)

(** The buffer of user space after the samples arrived in this order, each in a new
    list element. *)
Definition arrive (l : list (positive * list Z)) : Buffer :=
  foldl (λ r '(id, x), snd (AppendDataEvent id (Upload (received x)) r)) NewBuffer l.

Lemma arrive_list l :
  NoDup (l.*1) →
  StronglySorted chunk_le (dataEvents (arrive l)) ∧
  dataEvents (arrive l) ≡ₚ ((λ '(id, x), Elem id (Upload (received x))) <$> l) ∧
  validated (arrive l) = false ∧ current (arrive l) = None ∧ head (arrive l) = None.
Proof.
  induction l as [|[id x] l IH] using rev_ind; intros Hnd.
  { split_and!; [constructor|done..]. }
  rewrite fmap_app, NoDup_app in Hnd. destruct Hnd as (Hnd & _ & _).
  destruct (IH Hnd) as (Hsort & Hperm & Hv & Hc & Hh).
  unfold arrive. rewrite foldl_app. fold (arrive l). cbn [foldl].
  destruct (AppendDataEvent_list id (Upload (received x)) (arrive l) Hsort) as [Hl _].
  assert (Hstate : let r' := snd (AppendDataEvent id (Upload (received x)) (arrive l)) in
                   validated r' = false ∧ current r' = None ∧ head r' = None).
  { unfold AppendDataEvent. step_act. destruct (last _); [destruct (_ <? _)|]; simpl;
      by rewrite Hc; simpl. }
  rewrite Hl. split_and!; [|rewrite insert_scan_perm, fmap_app, Hperm; simpl|apply Hstate..].
  - apply insert_scan_sorted; [apply _| |done]. intros y _. apply chunk_after_spec.
  - by rewrite Permutation_app_comm.
Qed.

(** Consecutive chunks of one data are read through. *)
Lemma chain_consecutive l d n :
  (∀ i x, l !! i = Some x →
     DataID (evalue x) = d ∧ DataSequence (evalue x) = Z.of_nat (n + i)) →
  chain false l = l ≫= λ x, bytes (evalue x).
Proof.
  revert n. induction l as [|x l IH]; intros n Hl; [done|]. cbn [chain]. rewrite bind_cons. f_equal.
  rewrite <-(IH (S n)).
  2:{ intros i y Hy. destruct (Hl (S i) y Hy) as [? ->]. split; [done|lia]. }
  destruct l as [|y l]; [done|].
  destruct (Hl 0%nat x eq_refl) as [Hx1 Hx2]. destruct (Hl 1%nat y eq_refl) as [Hy1 Hy2].
  unfold shouldRead. replace (DataID (evalue x) =? DataID (evalue y)) with true by lia.
  replace (DataSequence (evalue x) + 1 =? DataSequence (evalue y)) with true by lia. done.
Qed.

Lemma bytes_upload e :
  0 ≤ DataLen e ≤ Z.of_nat (length (BufferBytes e)) →
  bytes (Upload e) = take (Z.to_nat (DataLen e)) (BufferBytes e).
Proof.
  intros H. unfold bytes, BufferData, data_BufferData, reslice, whole, elems. cbn [s_arr].
  rewrite decide_True by lia. cbn [s_len s_arr]. by rewrite drop_0, Z.sub_0_r.
Qed.

Lemma prepared_readable r e l :
  dataEvents r = e :: l → validated r = false → head r = None →
  let r' := snd (PrepareForReading r) in
  fst (PrepareForReading r) = Ok true ∧ dataEvents r' = e :: l ∧ readable r' = chain false (e :: l).
Proof.
  intros Hl Hv Hh. unfold PrepareForReading. step_act. rewrite decide_False by (by rewrite Hl).
  set (r1 := if shouldResetPosition r then _ else r).
  assert (H1 : dataEvents r1 = e :: l ∧ validated r1 = false ∧ head r1 = None).
  { unfold r1. by destruct (shouldResetPosition r); simpl. }
  destruct H1 as (Hl1 & Hv1 & Hh1). rewrite Hh1, Hl1. unfold readable, ahead. simpl.
  rewrite Hl1, Hv1. simpl. by rewrite decide_True.
Qed.

Section upload_theorems.
Context {R : Type} `{!MemoryReader R}.

(** The chunks of one payload, in the order of their sequence, are what the buffer
    holds, whatever the order they arrived in. *)
Lemma arrived_chunks (env : kenv R) buf size a sent l :
  Forall2 (λ i x, uploaded env buf size a i (received x)) (seq 0 (chunk_count size)) sent →
  NoDup (l.*1) → l.*2 ≡ₚ sent →
  evalue <$> dataEvents (arrive l) = (λ x, Upload (received x)) <$> sent.
Proof.
  intros Hall Hnd Hperm. destruct (arrive_list l Hnd) as (Hsort & Hp & _).
  assert (Hat : ∀ i x, sent !! i = Some x →
            DataSequence (Upload (received x)) = Z.of_nat i ∧
            DataID (Upload (received x)) = socket_data_id a).
  { intros i x Hx. destruct (Forall2_lookup_r _ _ _ _ _ Hall Hx) as (j & Hj & Hup).
    apply lookup_seq in Hj as [-> _]. destruct (up_ids _ _ _ _ _ _ Hup) as (_ & _ & Hid & _).
    split; [apply (up_sequence _ _ _ _ _ _ Hup)|done]. }
  set (le := λ x y : SocketDataBuffer, chunk_le (Elem 1 x) (Elem 1 y)).
  apply (StronglySorted_unique_strong le).
  - intros x y Hx Hy Hxy Hyx.
    assert (Hin : ∀ z, z ∈ evalue <$> dataEvents (arrive l) →
                       z ∈ (λ x, Upload (received x)) <$> sent).
    { intros z. rewrite Hp, <-list_fmap_compose, <-Hperm, <-list_fmap_compose.
      intros Hz. erewrite list_fmap_ext; [exact Hz|]. by intros ? [] ?. }
    apply Hin in Hx. apply list_elem_of_fmap in Hx as (x' & -> & Hx).
    apply list_elem_of_fmap in Hy as (y' & -> & Hy).
    apply list_elem_of_lookup in Hx as [i Hi]. apply list_elem_of_lookup in Hy as [j Hj].
    destruct (Hat i x' Hi) as [Hs1 Hd1]. destruct (Hat j y' Hj) as [Hs2 Hd2].
    unfold le, chunk_le in *. simpl in *.
    assert (i = j) as -> by lia. congruence.
  - apply (StronglySorted_fmap evalue chunk_le); [by intros [] []|done].
  - apply strongly_sorted_lookup. intros i j x y Hx Hy Hij.
    rewrite list_lookup_fmap in Hx, Hy.
    apply fmap_Some in Hx as (x' & Hx & ->). apply fmap_Some in Hy as (y' & Hy & ->).
    destruct (Hat i x' Hx) as [? ?]. destruct (Hat j y' Hy) as [? ?].
    unfold le, chunk_le. simpl. lia.
  - rewrite Hp, <-Hperm, <-!list_fmap_compose. erewrite list_fmap_ext; [done|]. by intros ? [] ?.
Qed.

Lemma uploaded_bytes (env : kenv R) buf size a i e :
  uploaded env buf size a i e → 0 < chunk_length size i →
  Z.of_nat (length (bytes (Upload e))) = chunk_length size i ∧
  take (Z.to_nat (Z.land (chunk_length size i) 0x7ff)) (bytes (Upload e)) =
    bpf_probe_read (Z.to_nat (Z.land (chunk_length size i) 0x7ff)) (buf + chunk_offset i)
      (memory env).
Proof.
  intros Hup Hpos. pose proof (up_length _ _ _ _ _ _ Hup) as Hl.
  pose proof (up_capacity _ _ _ _ _ _ Hup) as Hc.
  assert (chunk_length size i ≤ 20480) by (unfold chunk_length; lia).
  pose proof (land_7ff_bounds (chunk_length size i) ltac:(lia)).
  rewrite bytes_upload by lia. rewrite Hl. split; [rewrite length_take; lia|].
  rewrite take_take, Nat.min_l by lia. apply (up_copied _ _ _ _ _ _ Hup).
Qed.

Lemma chunk_length_pos size i : 0 < size → (i < chunk_count size)%nat → 0 < chunk_length size i.
Proof.
  intros Hs Hi. unfold chunk_count, chunk_length in *.
  pose proof (chunk_total_lt size i Hs). lia.
Qed.

Lemma arrived_readable (env : kenv R) buf size a sent l :
  Forall2 (λ i x, uploaded env buf size a i (received x)) (seq 0 (chunk_count size)) sent →
  NoDup (l.*1) → l.*2 ≡ₚ sent → 0 < size →
  fst (PrepareForReading (arrive l)) = Ok true ∧
  readable (snd (PrepareForReading (arrive l))) = (sent ≫= λ x, bytes (Upload (received x))).
Proof.
  intros Hall Hnd Hperm Hs. destruct (arrive_list l Hnd) as (_ & _ & Hv & _ & Hhd).
  pose proof (arrived_chunks env buf size a sent l Hall Hnd Hperm) as Hev.
  assert (Hchain : chain false (dataEvents (arrive l)) = sent ≫= λ x, bytes (Upload (received x))).
  { rewrite (chain_consecutive _ (socket_data_id a) 0), <-values_bytes, Hev.
    - apply bind_fmap.
    - intros i x Hx. assert (Hx' : (evalue <$> dataEvents (arrive l)) !! i = Some (evalue x))
        by (by rewrite list_lookup_fmap, Hx).
      rewrite Hev, list_lookup_fmap in Hx'. apply fmap_Some in Hx' as (y & Hy & ->).
      destruct (Forall2_lookup_r _ _ _ _ _ Hall Hy) as (j & Hj & Hup).
      apply lookup_seq in Hj as [-> _]. destruct (up_ids _ _ _ _ _ _ Hup) as (_ & _ & Hid & _).
      split; [done|]. apply (up_sequence _ _ _ _ _ _ Hup). }
  destruct (dataEvents (arrive l)) as [|e l'] eqn:Hl.
  - exfalso. destruct sent; [|done]. apply Forall2_nil_inv_r in Hall.
    pose proof (chunk_total_lt size 0 Hs). unfold chunk_count in Hall.
    destruct (Nat.min _ _) eqn:Hm; [unfold chunk_offset in *; lia|done].
  - destruct (prepared_readable (arrive l) e l' Hl Hv Hhd) as (Hok & _ & Hr).
    split; [done|]. by rewrite Hr.
Qed.

(** The stream of the chunks: its length, and where a chunk lies in it. *)
Lemma sent_pieces (env : kenv R) buf size a sent :
  Forall2 (λ i x, uploaded env buf size a i (received x)) (seq 0 (chunk_count size)) sent →
  0 < size →
  let st := sent ≫= λ x, bytes (Upload (received x)) in
  Z.of_nat (length st) = Z.min size (6 * 20480) ∧
  ∀ i, (i < chunk_count size)%nat →
    let n := Z.to_nat (Z.land (chunk_length size i) 0x7ff) in
    take n (drop (Z.to_nat (chunk_offset i)) st) =
      bpf_probe_read n (buf + chunk_offset i) (memory env).
Proof.
  intros Hall Hs st.
  assert (Hat : ∀ i, (i < chunk_count size)%nat →
    ∃ x, sent !! i = Some x ∧ uploaded env buf size a i (received x) ∧
      drop (Z.to_nat (chunk_offset i)) st =
        bytes (Upload (received x)) ++ (drop (S i) sent ≫= λ x, bytes (Upload (received x)))).
  { intros i Hi. destruct (Forall2_lookup_l _ _ _ i i Hall) as (x & Hx & Hup);
      [apply lookup_seq; lia|].
    exists x. split_and!; [done..|].
    replace (Z.to_nat (chunk_offset i)) with (Z.to_nat 20480 * i)%nat by (unfold chunk_offset; lia).
    apply (drop_pieces (λ x, bytes (Upload (received x)))); [done|]. intros j y Hy Hj.
    destruct (Forall2_lookup_r _ _ _ _ _ Hall Hy) as (j' & Hj' & Hupj).
    apply lookup_seq in Hj' as [-> Hj']. simpl in Hupj.
    destruct (uploaded_bytes _ _ _ _ _ _ Hupj) as [Hlj _]; [by apply chunk_length_pos|].
    pose proof (chunk_length_pos size i Hs Hi). unfold chunk_length, chunk_offset in *. lia. }
  split.
  - assert (Hk : (0 < chunk_count size)%nat).
    { unfold chunk_count. pose proof (chunk_total_lt size 0 Hs). unfold chunk_offset in *. lia. }
    destruct (Hat (chunk_count size - 1)%nat) as (x & Hx & Hup & Hd); [lia|].
    destruct (uploaded_bytes _ _ _ _ _ _ Hup) as [Hl _]; [apply chunk_length_pos; lia|].
    pose proof (Forall2_length _ _ _ Hall) as Hn. rewrite length_seq in Hn.
    rewrite (drop_ge sent), app_nil_r in Hd by lia.
    apply (f_equal length) in Hd. rewrite length_drop in Hd.
    pose proof (chunk_length_pos size (chunk_count size - 1) Hs ltac:(lia)) as Hp.
    pose proof (chunk_total_lt size (chunk_count size - 1) Hs).
    pose proof (chunk_total_lt size (chunk_count size) Hs).
    unfold chunk_length, chunk_offset, chunk_count in *. lia.
  - intros i Hi n. destruct (Hat i Hi) as (x & _ & Hup & ->).
    destruct (uploaded_bytes _ _ _ _ _ _ Hup) as [Hl Ht]; [by apply chunk_length_pos|].
    pose proof (chunk_length_pos size i Hs Hi).
    pose proof (land_7ff_bounds (chunk_length size i) ltac:(lia)).
    rewrite take_app_le; [done|lia].
Qed.

(** C7: kernel to reader, for a payload in one piece of memory that is not uploaded as
    unfinished (a system call with one buffer, outside TLS).  When its samples arrive in any
    order, the socket data buffer gives back one stream of as many bytes as were sent, at
    most six times 20480; every chunk starts, in the stream, with the bytes the kernel
    copied for it, which are the length of the chunk modulo 2048, and a payload below 2048
    bytes is read back as it was in memory.  Payloads in vectors and TLS payloads do not
    have this (see [iov_chunk_repeats] and [ssl_sequence_wraps]). *)
Theorem upload_reassembles (env : kenv R) buf size a force s :
  upload_args_fit a → 0 < size < 2 ^ 63 → force ≠ 1 →
  Z.of_nat (length (rover_data_heap s)) = 30960 →
  ∃ sent,
    samples (upload_socket_data_buf env buf size a force s) =
      samples s ++ ((socket_data_upload_queue,.) <$> sent) ∧
    ∀ l, NoDup (l.*1) → l.*2 ≡ₚ sent →
      let r := snd (PrepareForReading (arrive l)) in
      fst (PrepareForReading (arrive l)) = Ok true ∧
      Z.of_nat (length (readable r)) = Z.min size (6 * 20480) ∧
      (∀ i, (i < chunk_count size)%nat →
         let n := Z.to_nat (Z.land (chunk_length size i) 0x7ff) in
         take n (drop (Z.to_nat (chunk_offset i)) (readable r)) =
           bpf_probe_read n (buf + chunk_offset i) (memory env)) ∧
      (size < 2048 → readable r = bpf_probe_read (Z.to_nat size) buf (memory env)).
Proof.
  intros Ha Hs Hf Hh.
  destruct (upload_socket_data_buf_spec env buf size a force s) as (sent & Hsm & _ & Hall); [done..|].
  exists sent. split; [done|]. intros l Hnd Hperm.
  destruct (arrived_readable env buf size a sent l Hall Hnd Hperm) as [Hok Hr]; [lia|].
  cbn zeta. rewrite Hr. split; [done|].
  destruct (sent_pieces env buf size a sent Hall ltac:(lia)) as [Hlen Hpieces].
  split; [done|]. split; [exact Hpieces|]. intros Hsmall.
  specialize (Hpieces 0%nat). unfold chunk_count, chunk_length, chunk_offset in Hpieces.
  rewrite Z.mul_0_r, Z.sub_0_r, Z.add_0_r, Z.min_r, drop_0 in Hpieces by lia.
  rewrite land_7ff, Z.mod_small in Hpieces by lia.
  rewrite <-Hpieces by (pose proof (chunk_total_lt size 0); unfold chunk_offset in *; lia).
  rewrite take_ge; [done|lia].
Qed.
End upload_theorems.

(** A payload of three bytes at address 100. *)
Module UploadSample.
Definition sock0 : sock_common := MkSockCommon 0 0 0 0 0 [] [].
Definition addr0 : sockaddr_t := MkSockaddr 0 0 0 [] 0.

Definition env (m : gmap Z Z) : kenv (gmap Z Z) :=
  MkEnv (7 * 2 ^ 32 + 7) 50 0 0 [] m (λ _, 0) (λ _, 0) (λ _, sock0) (λ _, 0) (λ _, addr0).

Definition memory3 : gmap Z Z := list_to_map [(100, 71); (101, 69); (102, 84)].

Definition args (size iovec iovlen buf force : Z) : upload_data_args :=
  MkUploadArgs 40 50 77 5 3 0 iovec iovlen size buf 2 1 0 force 0 false.

Definition state : kstate :=
  MkState (λ _, ∅) 0 0 (replicate 32 0) (replicate (Z.to_nat 30960) 0) [].

Lemma args_fit size iovec iovlen buf force :
  0 ≤ size < 2 ^ 63 → upload_args_fit (args size iovec iovlen buf force).
Proof. intros. unfold upload_args_fit, args. cbn -[Z.pow]. lia. Qed.

Lemma state_heap : Z.of_nat (length (rover_data_heap state)) = 30960.
Proof. vm_compute. reflexivity. Qed.

(** The events of the samples: sequence, length and first bytes. *)
Definition brief (n : nat) (s : kstate) : list (Z * Z * list Z) :=
  (λ '(_, x), let e := received x in (Sequence0 e, DataLen e, take n (BufferBytes e))) <$> samples s.
End UploadSample.

Lemma upload_reassembles_witness :
  let env := UploadSample.env UploadSample.memory3 in
  let a := UploadSample.args 3 0 0 100 0 in
  ∃ sent,
    samples (upload_socket_data_buf env 100 3 a 0 UploadSample.state) =
      samples UploadSample.state ++ ((socket_data_upload_queue,.) <$> sent) ∧
    ∀ l, NoDup (l.*1) → l.*2 ≡ₚ sent →
      readable (snd (PrepareForReading (arrive l))) = [71; 69; 84].
Proof.
  destruct (upload_reassembles (UploadSample.env UploadSample.memory3) 100 3
              (UploadSample.args 3 0 0 100 0) 0 UploadSample.state
              (UploadSample.args_fit 3 0 0 100 0 ltac:(lia)) ltac:(lia) ltac:(lia)
              UploadSample.state_heap) as (sent & Hs & Hl).
  exists sent. split; [exact Hs|]. intros l Hnd Hp.
  destruct (Hl l Hnd Hp) as (_ & _ & _ & Hr). rewrite (Hr ltac:(lia)). reflexivity.
Defined.

(** From 2048 bytes on the mask drops payload bytes: the chunk claims its length,
    and its array still holds what an earlier event left there. *)
Example mask_drops_payload :
  let m := list_to_map ((λ i, (Z.of_nat i, 71)) <$> seq 100 2048) in
  let a := UploadSample.args 2048 0 0 100 0 in
  UploadSample.brief 3 (upload_socket_data_buf (UploadSample.env m) 100 2048 a 0 UploadSample.state) =
  [(0, 2048, [0; 0; 0])].
Proof. vm_compute. reflexivity. Qed.

(** The second chunk of a vector that is longer than a chunk starts over: it holds
    the first bytes of the vector, not those behind the first chunk. *)
Example iov_chunk_repeats :
  let base := 5000 in
  let m := list_to_map
    (zip [1000; 1001; 1002; 1003; 1004; 1005; 1006; 1007] (le_bytes 8 base) ++
     zip [1008; 1009; 1010; 1011; 1012; 1013; 1014; 1015] (le_bytes 8 20483) ++
     [(base, 65); (base + 1, 66); (base + 2, 67);
      (base + 20480, 97); (base + 20481, 98); (base + 20482, 99)]) in
  let a := UploadSample.args 20483 1000 1 0 0 in
  UploadSample.brief 3 (upload_socket_data_iov (UploadSample.env m) 1000 1 20483 a
                          UploadSample.state) =
  [(0, 20480, [0; 0; 0]); (1, 3, [65; 66; 67])].
Proof. vm_compute. reflexivity. Qed.

(** The sequence of an SSL payload is kept in sixteen bits and sent in eight: the
    257th chunk of a data id is sent as the first. *)
Example ssl_sequence_wraps :
  let a := UploadSample.args 3 0 0 100 1 in
  let s := write_elem socket_data_sequence_generator 77 (MkSequence 3 255) UploadSample.state in
  UploadSample.brief 3 (upload_socket_data_buf (UploadSample.env UploadSample.memory3) 100 3 a 1 s) =
  [(0, 3, [71; 69; 84])].
Proof. vm_compute. reflexivity. Qed.
