(* ===== verification/KernelTrace.v ===== *)
(** * Runs of the kernel side

    The BPF programs of processes and system calls (src/bpf/accesslog/process and syscalls)
    as one transition system over [kstate]: their handlers, the evictions of the LRU maps and
    the writes of user space are steps.  The uprobes of TLS libraries
    (src/bpf/accesslog/tls), which submit data samples too, and the probes of packets
    (src/bpf/accesslog/l24) are not modelled and are not steps.  Shown here: a sample about the data of a connection is always preceded by the
    sample that announced the connection. *)

From stdpp Require Import base gmap list strings.
From Stdlib Require Import ZArith Lia.
From S2P Require Import Prelude Interfaces Events Kernel KernelUpload KernelConn KernelTransfer KernelLaws.

(** ** Decoding in user space *)

Definition fresh_detail_event : SocketDetailEvent :=
  MkSocketDetailEvent 0 0 0 0 0 0 0 0 0 0 0 0 0 0 0 0 0 0 0 0 0 0 0 0 0 0 0.

Definition received_connect (x : list Z) : SocketConnectEvent :=
  fst (ReadFrom fresh_connect_event (NewReader x)).
Definition received_detail (x : list Z) : SocketDetailEvent :=
  fst (ReadFrom fresh_detail_event (NewReader x)).

(** ** Lemmas: samples of values that need not fit *)

Lemma le_bytes_mod n v : le_bytes n (v mod 256 ^ Z.of_nat n) = le_bytes n v.
Proof.
  revert v. induction n as [|n IH]; intros v; [done|]. cbn [le_bytes].
  rewrite Nat2Z.inj_succ, Z.pow_succ_r by lia.
  assert (0 < 256 ^ Z.of_nat n) by (apply Z.pow_pos_nonneg; lia). f_equal.
  - rewrite Z.rem_mul_r by lia. rewrite (Z.mul_comm 256), Z_mod_plus_full. apply Zmod_mod.
  - rewrite Z.rem_mul_r by lia. rewrite (Z.mul_comm 256), Z.div_add by lia.
    rewrite (Z.div_small (v mod 256)), Z.add_0_l by (apply Z.mod_pos_bound; lia). apply IH.
Qed.

Definition trunc_field (f : field) : field :=
  match f with FInt n v => FInt n (v mod 256 ^ Z.of_nat n) | FArr a => FArr a end.

Lemma encode_trunc fs : encode (trunc_field <$> fs) = encode fs.
Proof.
  unfold encode. induction fs as [|[n v|a] fs IH]; csimpl; [done|..]; f_equal; try done.
  apply le_bytes_mod.
Qed.

Lemma fits_trunc fs : fits (trunc_field <$> fs).
Proof.
  unfold fits. induction fs as [|[n v|a] fs IH]; csimpl; constructor; try done.
  apply Z.mod_pos_bound, Z.pow_pos_nonneg; lia.
Qed.

(** An event whose arrays have their sizes is decoded up to the truncation of its
    integers; what follows the event does not matter. *)
Lemma received_connect_sample e rest :
  length (RemoteAddrV6 e) = 16%nat → length (LocalAddrV6 e) = 16%nat →
  ConID (received_connect (encode (socket_connect_event_t e) ++ rest)) = u64 (ConID e) ∧
  connect_RandomID (received_connect (encode (socket_connect_event_t e) ++ rest)) =
    u64 (connect_RandomID e).
Proof.
  intros H6 L6.
  set (e' := MkSocketConnectEvent (ConID e mod 256 ^ 8) (connect_RandomID e mod 256 ^ 8)
    (connect_StartTime e mod 256 ^ 8) (connect_EndTime e mod 256 ^ 8) (connect_PID e mod 256 ^ 4)
    (connect_SocketFD e mod 256 ^ 4) (FuncName e mod 256 ^ 1) (Role e mod 256 ^ 1)
    (SocketFamily e mod 256 ^ 1) (ConnectSuccess e mod 256 ^ 1) (Pad0 e mod 256 ^ 4)
    (RemoteAddrV4 e mod 256 ^ 4) (RemoteAddrPort e mod 256 ^ 4) (RemoteAddrV6 e)
    (LocalAddrV4 e mod 256 ^ 4) (LocalAddrPort e mod 256 ^ 4) (LocalAddrV6 e)
    (ConnTrackUpstreamIPl e mod 256 ^ 8) (ConnTrackUpstreamIPh e mod 256 ^ 8)
    (ConnTrackUpstreamPort e mod 256 ^ 4)).
  assert (Hl : layout_connect e' = trunc_field <$> socket_connect_event_t e) by reflexivity.
  assert (Hr : received_connect (encode (socket_connect_event_t e) ++ rest) = e').
  { unfold received_connect. rewrite <-encode_trunc, <-Hl, connect_layout_read; [done| |].
    - rewrite Hl. apply fits_trunc.
    - done. }
  rewrite Hr. done.
Qed.

Lemma received_detail_sample conid now fn conn args :
  let x := encode (socket_detail_t conid now fn conn args) in
  detail_ConnectionID (received_detail x) = u64 conid ∧
  detail_RandomID (received_detail x) = u64 (conn Conn.random_id).
Proof.
  set (fs := socket_detail_t conid now fn conn args). intros x.
  assert (∃ e, layout_detail e = trunc_field <$> fs ∧ detail_ConnectionID e = u64 conid ∧
               detail_RandomID e = u64 (conn Conn.random_id)) as (e & Hl & He1 & He2).
  { eexists (MkSocketDetailEvent _ _ _ _ _ _ _ _ _ _ _ _ _ _ _ _ _ _ _ _ _ _ _ _ _ _ _).
    split; [reflexivity|]. done. }
  assert (Hr : received_detail x = e).
  { unfold received_detail, x. rewrite <-encode_trunc, <-Hl, <-(app_nil_r (encode _)).
    rewrite detail_layout_read; [done| |done]. rewrite Hl. apply fits_trunc. }
  rewrite Hr. exact (conj He1 He2).
Qed.

Lemma received_data_sample index size fin hred a b :
  Z.of_nat (length b) = 20480 →
  let x := encode (upload_event_header index size fin hred a ++ [FArr b]) in
  data_ConnectionID (received x) = u64 (con_id a) ∧ data_RandomID (received x) = u64 (random_id a) ∧
  PrevDataID0 (received x) = u64 (prev_socket_data_id a).
Proof.
  intros Hb. set (fs := upload_event_header index size fin hred a ++ [FArr b]). intros x.
  assert (∃ e, layout_data e = trunc_field <$> fs ∧ data_ConnectionID e = u64 (con_id a) ∧
               data_RandomID e = u64 (random_id a) ∧ PrevDataID0 e = u64 (prev_socket_data_id a) ∧
               BufferBytes e = b) as (e & Hl & He1 & He2 & He3 & Heb).
  { eexists (MkSocketDataUploadEvent _ _ _ _ _ _ _ _ _ _ _ _ _ _).
    split; [reflexivity|]. done. }
  assert (Hr : received x = e).
  { unfold received, x. rewrite <-encode_trunc, <-Hl, <-(app_nil_r (encode _)).
    rewrite data_layout_read; [done| |].
    - rewrite Hl. apply fits_trunc.
    - unfold same_data. rewrite Heb. split; [done|]. unfold fresh_data_event.
      cbn [BufferBytes]. rewrite length_replicate. lia. }
  rewrite Hr. exact (conj He1 (conj He2 He3)).
Qed.

(** ** The order of the samples *)

(** A connect sample in [l] announced the connection [c] with the random id [r]. *)
Definition announced (l : list (queue * list Z)) (c r : Z) : Prop :=
  ∃ x, (socket_connection_event_queue, x) ∈ l ∧
       ConID (received_connect x) = c ∧ connect_RandomID (received_connect x) = r.

(** The connection a data sample is about. *)
Definition about (y : queue * list Z) : option (Z * Z) :=
  match y with
  | (socket_detail_queue, x) =>
      Some (detail_ConnectionID (received_detail x), detail_RandomID (received_detail x))
  | (socket_data_upload_queue, x) =>
      Some (data_ConnectionID (received x), data_RandomID (received x))
  | _ => None
  end.

Definition ordered (l : list (queue * list Z)) : Prop :=
  ∀ pre y post c r, l = pre ++ y :: post → about y = Some (c, r) → announced pre c r.

Record kinv (s : kstate) : Prop := {
  ki_heap : Z.of_nat (length (rover_data_heap s)) = 30960;
  ki_active : ∀ conid con, maps s active_connection_map !! conid = Some con →
    announced (samples s) (u64 conid) (con Conn.random_id) ∧ 0 ≤ con Conn.random_id < 2 ^ 64;
  ki_ordered : ordered (samples s)
}.

(** The kernel returns addresses of sixteen bytes. *)
Definition env_ok {R} (env : kenv R) : Prop :=
  (∀ p, length (skc_v6_rcv_saddr (socket_sk env p)) = 16%nat ∧
        length (skc_v6_daddr (socket_sk env p)) = 16%nat) ∧
  (∀ p, length (sin6_addr (sockaddr_at env p)) = 16%nat).

Lemma announced_app l k c r : announced l c r → announced (l ++ k) c r.
Proof. intros (x & Hx & ? & ?). exists x. split; [|done]. apply elem_of_app. by left. Qed.

Lemma ordered_snoc l y :
  ordered l → (∀ c r, about y = Some (c, r) → announced l c r) → ordered (l ++ [y]).
Proof.
  intros Hl Hy pre z post c r Heq Hz. destruct post as [|w post] using rev_ind.
  - apply app_inj_tail in Heq as [-> ->]. by apply Hy.
  - rewrite app_comm_cons, (assoc_L (++)) in Heq. apply app_inj_tail in Heq as [Heq _].
    by eapply Hl.
Qed.

Lemma about_announced y l c0 r0 :
  about y = Some (c0, r0) → announced l c0 r0 →
  ∀ c r, about y = Some (c, r) → announced l c r.
Proof. intros -> Ha c r [= <- <-]. done. Qed.

Lemma about_data x c r :
  data_ConnectionID (received x) = c → data_RandomID (received x) = r →
  about (socket_data_upload_queue, x) = Some (c, r).
Proof. by intros <- <-. Qed.

Lemma about_detail x c r :
  detail_ConnectionID (received_detail x) = c → detail_RandomID (received_detail x) = r →
  about (socket_detail_queue, x) = Some (c, r).
Proof. by intros <- <-. Qed.

(** ** Operations keep the invariant *)

Lemma kinv_store m g s : m ≠ active_connection_map → kinv s → kinv (store m g s).
Proof.
  intros Hm [Hh Ha Ho]. split; [done| |done]. intros conid con. rewrite store_ne by done. apply Ha.
Qed.

Lemma kinv_update m k v s :
  m ≠ active_connection_map → kinv s → kinv (bpf_map_update_elem m k v s).
Proof. intros. unfold bpf_map_update_elem. case_decide; [|done]. by apply kinv_store. Qed.

Lemma kinv_delete m k s : kinv s → kinv (bpf_map_delete_elem m k s).
Proof.
  intros H. unfold bpf_map_delete_elem. destruct (decide (m = active_connection_map)) as [->|Hm].
  - destruct H as [Hh Ha Ho]. split; [done| |done]. intros conid con. rewrite store_eq.
    intros [_ Hc]%lookup_delete_Some. by apply Ha.
  - by apply kinv_store.
Qed.

Lemma kinv_write m k v s : m ≠ active_connection_map → kinv s → kinv (write_elem m k v s).
Proof. apply kinv_store. Qed.

(** An active connection is written back with the random id it was announced with. *)
Lemma kinv_write_active conid (con : active_connection_t) s :
  announced (samples s) (u64 conid) (con Conn.random_id) → 0 ≤ con Conn.random_id < 2 ^ 64 →
  kinv s → kinv (write_elem active_connection_map conid con s).
Proof.
  intros Hann Hr [Hh Ha Ho]. split; [done| |done]. intros c d. unfold write_elem. rewrite store_eq.
  intros [[<- <-]|[_ Hc]]%lookup_insert_Some; [done|]. by apply Ha.
Qed.

Lemma kinv_update_active conid (con : active_connection_t) s :
  announced (samples s) (u64 conid) (con Conn.random_id) → 0 ≤ con Conn.random_id < 2 ^ 64 →
  kinv s → kinv (bpf_map_update_elem active_connection_map conid con s).
Proof.
  intros. unfold bpf_map_update_elem. case_decide; [|done]. by apply kinv_write_active.
Qed.

Lemma kinv_reader b s : kinv s → kinv (set_reader_buffer b s).
Proof. intros []. by split. Qed.

Lemma kinv_submit q x s :
  (∀ c r, about (q, x) = Some (c, r) → announced (samples s) c r) → kinv s → kinv (submit q x s).
Proof.
  intros Hq [Hh Ha Ho]. split; [done| |by apply ordered_snoc].
  intros conid con Hc. destruct (Ha conid con Hc). split; [by apply announced_app|done].
Qed.

Lemma kinv_rover q x s :
  Z.of_nat (length x) ≤ 30960 →
  (∀ c r, about (q, x) = Some (c, r) → announced (samples s) c r) →
  kinv s → kinv (rover_submit_buf q x s).
Proof.
  intros Hl Hq Hk. unfold rover_submit_buf. apply kinv_submit; [done|].
  destruct Hk as [Hh Ha Ho]. split; [|done..]. cbn [rover_data_heap set_rover_data_heap].
  rewrite length_app, length_drop. lia.
Qed.

Create HintDb kinv.
#[export] Hint Resolve kinv_update kinv_delete kinv_write kinv_reader : kinv.
#[export] Hint Extern 1 (_ ≠ active_connection_map) => discriminate : kinv.

(** ** Connections *)

Lemma readArray_length a k r : length (fst (readArray a k r)) = length a.
Proof.
  unfold readArray, mbind, rd_bind. destruct (read k r) as [[b|] r']; simpl; [|done].
  unfold copy_into. rewrite length_app, length_take, length_drop. lia.
Qed.

Lemma stale_connect_arrays l :
  length (RemoteAddrV6 (fst (ReadFrom fresh_connect_event (NewReader l)))) = 16%nat ∧
  length (LocalAddrV6 (fst (ReadFrom fresh_connect_event (NewReader l)))) = 16%nat.
Proof.
  unfold ReadFrom, connect_reader, SocketConnectEvent_ReadFrom.
  cbn [ReadUint64 ReadUint32 ReadUint16 ReadUint8 ReadUint8Array bytes_reader RemoteAddrV6
       LocalAddrV6 fresh_connect_event].
  unfold mbind, rd_bind. set (z := replicate 16 0). assert (Hz : length z = 16%nat) by done.
  clearbody z.
  repeat match goal with
         | |- context [readUint ?k ?r] => destruct (readUint k r) as [? ?]
         | |- context [readArray ?a ?k ?r] =>
             pose proof (readArray_length a k r); destruct (readArray a k r) as [? ?]
         end.
  simpl in *. lia.
Qed.

Section connections.
Context {R : Type} (env : kenv R).
Hypothesis Henv : env_ok env.

Lemma fill_addresses_keeps socket addr e :
  length (RemoteAddrV6 e) = 16%nat → length (LocalAddrV6 e) = 16%nat →
  let e' := fill_addresses env socket addr e in
  ConID e' = ConID e ∧ connect_RandomID e' = connect_RandomID e ∧
  length (RemoteAddrV6 e') = 16%nat ∧ length (LocalAddrV6 e') = 16%nat.
Proof.
  intros Hr Hl. destruct Henv as [Hs Ha]. unfold fill_addresses.
  pose proof (Hs socket) as [? ?]. pose proof (Ha addr).
  repeat case_match; cbn [ConID connect_RandomID RemoteAddrV6 LocalAddrV6]; done.
Qed.

Lemma connect_length e :
  length (RemoteAddrV6 e) = 16%nat → length (LocalAddrV6 e) = 16%nat →
  length (encode (socket_connect_event_t e)) = 116%nat.
Proof.
  intros Hr Hl. unfold socket_connect_event_t. rewrite !encode_cons, !length_app.
  cbn [encode_field]. rewrite !le_bytes_length, Hr, Hl. done.
Qed.

Lemma kinv_submit_new_connection success fn tgid fd start addr socket ct role s :
  kinv s → kinv (submit_new_connection env success fn tgid fd start addr socket ct role s).
Proof.
  intros Hk. unfold submit_new_connection.
  destruct (match ct with Some _ => _ | None => _ end) as [[iph ipl] port].
  destruct (stale_connect_arrays (rover_data_heap s)) as [Hr Hl].
  set (old := fst (ReadFrom fresh_connect_event _)) in *. clearbody old.
  set (role' := if fn =? 1 then _ else _). clearbody role'.
  set (socket' := if decide (socket = 0) then _ else _). clearbody socket'.
  set (e0 := MkSocketConnectEvent _ _ _ _ _ _ _ _ _ _ _ _ _ _ _ _ _ _ _ _).
  destruct (fill_addresses_keeps socket' addr e0 Hr Hl) as (Hc & Hrd & Hr' & Hl').
  set (e := fill_addresses env socket' addr e0) in *.
  set (x := padded 4 (encode (socket_connect_event_t e)) s).
  assert (Hx : ConID (received_connect x) = u64 (gen_tgid_fd tgid fd) ∧
               connect_RandomID (received_connect x) = u32 (prandom env)).
  { destruct (received_connect_sample e (take 4 (drop (length (encode (socket_connect_event_t e)))
                (rover_data_heap s))) Hr' Hl') as [H1 H2].
    unfold x, padded. rewrite H1, H2, Hc, Hrd. split; [done|]. cbn [connect_RandomID e0].
    unfold u64, u32. apply Z.mod_small. pose proof (Z.mod_pos_bound (prandom env) (2 ^ 32)). lia. }
  assert (Hk' : kinv (rover_submit_buf socket_connection_event_queue x s)).
  { apply kinv_rover; [|done|done]. unfold x, padded.
    rewrite length_app, connect_length, length_take by done. lia. }
  destruct success; [|done]. cbn [negb].
  destruct (tgid_is_ztunnel _ _); [done|]. apply kinv_update_active; [| |done].
  - exists x. split; [apply elem_of_app; right; by left|]. split; [apply Hx|].
    rewrite !assign_ne by discriminate. rewrite assign_eq. destruct Hx as [_ ->]. cbn [bits Conn.struct].
    symmetry. apply Z.mod_small. unfold u32. pose proof (Z.mod_pos_bound (prandom env) (2 ^ 32)). lia.
  - rewrite !assign_ne by discriminate. rewrite assign_eq. apply Z.mod_pos_bound. done.
Qed.

Lemma kinv_get_or_create tgid fd fn role s :
  kinv s →
  let '(o, s') := get_or_create_active_conn env tgid fd fn role s in
  kinv s' ∧ ∀ conn, o = Some conn →
    announced (samples s') (u64 (gen_tgid_fd tgid fd)) (conn Conn.random_id) ∧
    0 ≤ conn Conn.random_id < 2 ^ 64.
Proof.
  intros Hk. unfold get_or_create_active_conn.
  destruct (bpf_map_lookup_elem active_connection_map _ s) as [conn|] eqn:Hc.
  - split; [done|]. intros ? [= <-]. by apply (ki_active s Hk).
  - pose proof (kinv_submit_new_connection true fn tgid fd 0 0 0 None role s Hk) as Hk'.
    split; [done|]. intros conn Hc'. by apply (ki_active _ Hk').
Qed.
End connections.

(** ** Data *)

(** The invariant, and the connection of the data being sent is announced. *)
Definition kinv_for (c r : Z) (s : kstate) : Prop := kinv s ∧ announced (samples s) c r.

Section data.
Context {R : Type} `{!MemoryReader R} (env : kenv R).

(** What sending a chunk and taking a sequence number keep, the upload of a payload
    keeps. *)
Section keeps.
Context (a : upload_data_args) (P : kstate → Prop).
Hypothesis Hchunk : ∀ index buf size fin hred s,
  P s → P (upload_socket_data_with_buffer env index buf size fin hred a s).
Hypothesis Hseq : ∀ conid data_id s, P s → P (snd (generate_socket_sequence conid data_id s)).

Lemma upload_buf_keeps buf size force s :
  P s → P (upload_socket_data_buf env buf size a force s).
Proof.
  intros H. unfold upload_socket_data_buf. generalize (seq 0 (Z.to_nat 6)) as l. generalize 0 as z.
  intros z l. revert z s H. induction l as [|i l IH]; intros z s H; [done|]. cbn [foldl].
  destruct (upload_buf_chunk env buf size a force (z, s) i) as [z' s'] eqn:Hc.
  apply IH. unfold upload_buf_chunk in Hc.
  destruct (if 20480 <? _ then _ else _) as [need hred].
  pose proof (Hseq (con_id a) (socket_data_id a) s H) as Hq.
  destruct (generate_socket_sequence _ _ _) as [q sq].
  destruct ((force =? 1) && (0 <? need)); injection Hc as <- <-; by apply Hchunk.
Qed.

Lemma upload_iov_step_keeps iov iovlen size l :
  P (iov_state l) → P (iov_state (UPLOAD_PER_SOCKET_DATA_IOV env iov iovlen size a l)).
Proof.
  intros Hl. unfold UPLOAD_PER_SOCKET_DATA_IOV. destruct (iov_index l <? iovlen); [|done].
  destruct (read_iovec _ _) as [base len].
  destruct (if len <? _ then _ else _) as [[[need hred] idx] sended]. by apply Hchunk.
Qed.

Lemma upload_iov_keeps iov iovlen size s :
  P s → P (upload_socket_data_iov env iov iovlen size a s).
Proof.
  intros H. unfold upload_socket_data_iov. generalize (Z.to_nat 6) as n. intros n.
  induction n as [|n IH]; [done|]. by apply upload_iov_step_keeps.
Qed.
End keeps.

Lemma kinv_with_buffer index buf size fin hred a s :
  kinv_for (u64 (con_id a)) (u64 (random_id a)) s →
  kinv_for (u64 (con_id a)) (u64 (random_id a))
    (upload_socket_data_with_buffer env index buf size fin hred a s).
Proof.
  intros [Hk Hann].
  assert (Hclamp : upload_socket_data_with_buffer env index buf size fin hred a s =
                   upload_socket_data_with_buffer env index buf (Z.min size 20480) fin hred a s).
  { unfold upload_socket_data_with_buffer. destruct (Z.ltb_spec 20480 size).
    - rewrite Z.min_r by lia. done.
    - rewrite Z.min_l by lia. by replace (20480 <? size) with false by lia. }
  rewrite Hclamp. destruct (Z.leb_spec (Z.min size 20480) 0) as [Hz|Hz].
  - unfold upload_socket_data_with_buffer. replace (20480 <? Z.min size 20480) with false by lia.
    by replace (Z.min size 20480 <=? 0) with true by lia.
  - destruct (chunk_sample env index buf (Z.min size 20480) fin hred a s) as
      (b & Hb & _ & Hsm & Hm & Hh); [lia|apply Hk|].
    destruct (received_data_sample index (Z.min size 20480) fin hred a b Hb) as (Hc & Hr & _).
    split.
    + split; [done| |].
      * intros conid con Hcon. rewrite Hm in Hcon. rewrite Hsm.
        destruct (ki_active s Hk conid con Hcon). split; [by apply announced_app|done].
      * rewrite Hsm. apply ordered_snoc; [apply Hk|].
        exact (about_announced _ _ _ _ (about_data _ _ _ Hc Hr) Hann).
    + rewrite Hsm. by apply announced_app.
Qed.

Lemma kinv_sequence c r conid data_id s :
  kinv_for c r s → kinv_for c r (snd (generate_socket_sequence conid data_id s)).
Proof.
  intros [Hk Hann]. unfold generate_socket_sequence.
  destruct (bpf_map_lookup_elem _ _ _); simpl; (split; [by auto with kinv|]); [done|].
  unfold bpf_map_update_elem. by case_decide.
Qed.

Lemma kinv_upload_buf buf size a force s :
  kinv_for (u64 (con_id a)) (u64 (random_id a)) s →
  kinv_for (u64 (con_id a)) (u64 (random_id a)) (upload_socket_data_buf env buf size a force s).
Proof.
  apply upload_buf_keeps; intros; [by apply kinv_with_buffer|by apply kinv_sequence].
Qed.

Lemma kinv_upload_iov iov iovlen size a s :
  kinv_for (u64 (con_id a)) (u64 (random_id a)) s →
  kinv_for (u64 (con_id a)) (u64 (random_id a)) (upload_socket_data_iov env iov iovlen size a s).
Proof. apply upload_iov_keeps; intros; by apply kinv_with_buffer. Qed.

Lemma kinv_upload a s :
  kinv s → announced (samples s) (u64 (con_id a)) (u64 (random_id a)) →
  kinv (upload_socket_data env a s).
Proof.
  intros Hk Hann. unfold upload_socket_data. case_match; [done|].
  set (prev := match bpf_map_lookup_elem socket_data_last_id_map _ _ with
               | Some l => if last_random_id l =? _ then _ else _ | None => _ end). clearbody prev.
  assert (Hs : ∀ s', kinv_for (u64 (con_id (with_prev prev a))) (u64 (random_id (with_prev prev a))) s' →
                     kinv s') by (by intros ? []).
  match goal with |- kinv (if _ then bpf_map_update_elem _ _ _ ?s1 else _) => assert (Hk1 : kinv s1) end.
  { case_decide; [|case_decide; [|done]]; apply Hs.
    - by apply kinv_upload_buf.
    - by apply kinv_upload_iov. }
  match goal with |- kinv (if ?b then _ else _) => destruct b end; by auto with kinv.
Qed.

Lemma kinv_analyze args n dir ssl (conn : active_connection_t) s :
  kinv s →
  let '(conn', s') := analyze_connection env args n dir ssl conn s in
  kinv s' ∧ samples s' = samples s ∧ conn' Conn.random_id = conn Conn.random_id.
Proof.
  intros Hk. unfold analyze_connection. destruct (_ && _); [|done]. unfold read_socket_data.
  destruct (if decide _ then _ else _) as [p size]. destruct (size <=? 0); [done|].
  destruct (analyze_protocol _ _ _) as [t pr].
  split_and!; [by apply kinv_reader|done|]. by rewrite !assign_ne by discriminate.
Qed.

Hypothesis Henv : env_ok env.

Lemma detail_length conid now fn conn args :
  length (encode (socket_detail_t conid now fn conn args)) = 112%nat.
Proof.
  unfold socket_detail_t. rewrite !encode_cons, !length_app. cbn [encode_field].
  by rewrite !le_bytes_length.
Qed.

Lemma kinv_process_write_data id args n dir vecs fn ssl s :
  kinv s → kinv (process_write_data env id args n dir vecs fn ssl s).
Proof.
  intros Hk. unfold process_write_data. do 3 (case_match; [done|]).
  pose proof (kinv_get_or_create env Henv (tgid_of id) (args Args.fd) fn (args Args.sk_role) s Hk) as Hg.
  destruct (get_or_create_active_conn _ _ _ _ _ _) as [[conn|] s1]; [|apply Hg].
  destruct Hg as [Hk1 Hann]. destruct (Hann conn eq_refl) as [Hc Hrange]. clear Hann.
  destruct (family_should_trace _); [|done]. cbn [negb].
  match goal with |- kinv (let '(_, _) := ?m in _) => destruct m as [conn2 s2] eqn:Hm end.
  assert (H2 : kinv s2 ∧ samples s2 = samples s1 ∧ conn2 Conn.random_id = conn Conn.random_id).
  { destruct (bpf_map_lookup_elem openssl_sock_data_args id s1) as [sa|];
      [destruct (sa Args.fd =? 0)|]; [|destruct ssl..]; injection Hm as <- <-;
      rewrite ?assign_ne by discriminate; by auto with kinv. }
  clear Hm. destruct H2 as (Hk2 & Hs2 & Hr2).
  match goal with |- context [if ?b then ?x else args] => set (args' := if b then x else args) end.
  clearbody args'.
  pose proof (kinv_analyze args' n dir ssl conn2 s2 Hk2) as H3.
  destruct (analyze_connection _ _ _ _ _ _ _) as [conn3 s3]. destruct H3 as (Hk3 & Hs3 & Hr3).
  set (conid := gen_tgid_fd (tgid_of id) (args Args.fd)) in *.
  assert (Hann : announced (samples s3) (u64 conid) (conn3 Conn.random_id))
    by (by rewrite Hs3, Hs2, Hr3, Hr2).
  assert (Hr : 0 ≤ conn3 Conn.random_id < 2 ^ 64) by (by rewrite Hr3, Hr2).
  assert (Hu : u64 (conn3 Conn.random_id) = conn3 Conn.random_id) by (by apply Z.mod_small).
  pose proof (kinv_write_active conid conn3 s3 Hann Hr Hk3) as Hk4.
  set (s4 := write_elem active_connection_map conid conn3 s3) in *.
  apply kinv_upload; cbn [con_id random_id]; rewrite ?Hu; destruct (_ =? _); [|done| |done].
  - apply kinv_rover; [by rewrite detail_length| |done].
    destruct (received_detail_sample conid (ktime env) fn conn3 args') as [Hd1 Hd2].
    rewrite Hu in Hd2. exact (about_announced _ _ _ _ (about_detail _ _ _ Hd1 Hd2) Hann).
  - by apply announced_app.
Qed.

Lemma kinv_finish_data only bytes dir vecs fn s :
  kinv s → kinv (finish_data env only bytes dir vecs fn s).
Proof.
  intros Hk. unfold finish_data. apply kinv_delete.
  destruct (bpf_map_lookup_elem _ _ s) as [args|]; [|done].
  destruct (only && _); [done|]. by apply kinv_process_write_data.
Qed.

Lemma kinv_when_not_exists id args fn role s :
  kinv s → kinv (submit_connection_when_not_exists env id args fn role s).
Proof.
  intros Hk. unfold submit_connection_when_not_exists.
  destruct (bpf_map_lookup_elem _ _ s); [done|]. by apply kinv_submit_new_connection.
Qed.

Lemma kinv_finish_connect n fn role s : kinv s → kinv (finish_connect env n fn role s).
Proof.
  intros Hk. unfold finish_connect. apply kinv_delete.
  destruct (bpf_map_lookup_elem _ _ s) as [args|]; [|done].
  destruct (0 <? n); [|done]. by apply kinv_when_not_exists.
Qed.

Lemma kinv_save_connect addr fd start s : kinv s → kinv (save_connect_args env addr fd start s).
Proof. intros Hk. unfold save_connect_args. case_decide; by auto with kinv. Qed.

Lemma kinv_generate id fd check s : kinv s → kinv (snd (generate_socket_data_id id fd check s)).
Proof.
  intros Hk. unfold generate_socket_data_id. destruct (check && _); [done|].
  destruct (bpf_map_lookup_elem socket_data_id_generate_map _ s);
    destruct (bpf_map_lookup_elem socket_data_id_generate_map _ _); simpl; by auto with kinv.
Qed.

Lemma kinv_save_data args s : kinv s → kinv (save_data_args env args s).
Proof.
  intros Hk. unfold save_data_args.
  pose proof (kinv_generate (pid_tgid env) (args Args.fd) false s Hk) as Hg.
  destruct (generate_socket_data_id _ _ _ _). by auto with kinv.
Qed.

Lemma close_length e : length (encode (socket_close_event_t e)) = 44%nat.
Proof.
  unfold socket_close_event_t. rewrite !encode_cons, !length_app. cbn [encode_field].
  by rewrite !le_bytes_length.
Qed.

Lemma kinv_submit_close tgid fd start ret s :
  kinv s → kinv (submit_close_connection env tgid fd start ret s).
Proof.
  intros Hk. unfold submit_close_connection.
  destruct (bpf_map_lookup_elem _ _ s) as [con|]; [|done]. apply kinv_delete.
  unfold notify_close_connection. apply kinv_rover; [|done|by auto with kinv].
  unfold padded. rewrite length_app, close_length, length_take. lia.
Qed.

Lemma kinv_report s : kinv s → kinv (report_running_process env s).
Proof.
  intros Hk. unfold report_running_process.
  match goal with |- kinv (if ?b then _ else _) => destruct b end; [done|].
  destruct (bpf_map_lookup_elem _ _ s); [done|]. apply kinv_submit; [done|]. by auto with kinv.
Qed.
End data.

#[export] Hint Resolve kinv_finish_data kinv_finish_connect kinv_save_connect kinv_save_data
  kinv_submit_close kinv_report kinv_submit_new_connection kinv_when_not_exists : kinv.

(** ** The transition system *)

Section runs.
Context {R : Type} `{!MemoryReader R}.

(** One handler of the processes or system calls runs (no TLS uprobe and no packet probe), an LRU map
    evicts an entry, or user space writes a map of its own or drops or marks an active
    connection. *)
Inductive kstep : kstate → kstate → Prop :=
| k_exec env s : kstep s (tracepoint_sched_process_exec (R := R) env s)
| k_fork env child s : kstep s (tracepoint_sched_process_fork (R := R) env child s)
| k_enter_connect env a0 a1 s : kstep s (tracepoint_enter_connect (R := R) env a0 a1 s)
| k_exit_connect (env : kenv R) ret s : env_ok env → kstep s (tracepoint_exit_connect env ret s)
| k_tcp_connect (env : kenv R) sk s : kstep s (tcp_connect env sk s)
| k_conntrack (env : kenv R) ct s : kstep s (nf_conn_aware env ct s)
| k_enter_accept (env : kenv R) a1 s : kstep s (tracepoint_enter_accept env a1 s)
| k_sock_alloc (env : kenv R) sk s : kstep s (sock_alloc_ret env sk s)
| k_exit_accept (env : kenv R) ret s : env_ok env → kstep s (tracepoint_exit_accept env ret s)
| k_enter_close (env : kenv R) a0 s : kstep s (tracepoint_enter_close env a0 s)
| k_exit_close (env : kenv R) ret s : kstep s (tracepoint_exit_close env ret s)
| k_enter_write (env : kenv R) a0 a1 s : kstep s (tracepoint_enter_write env a0 a1 s)
| k_exit_write (env : kenv R) ret s : env_ok env → kstep s (tracepoint_exit_write env ret s)
| k_enter_sendto (env : kenv R) a0 a1 a4 s : kstep s (tracepoint_enter_sendto env a0 a1 a4 s)
| k_exit_sendto (env : kenv R) ret s : env_ok env → kstep s (tracepoint_exit_sendto env ret s)
| k_enter_writev (env : kenv R) a0 a1 a2 s : kstep s (tracepoint_enter_writev env a0 a1 a2 s)
| k_exit_writev (env : kenv R) ret s : env_ok env → kstep s (tracepoint_exit_writev env ret s)
| k_enter_sendmsg (env : kenv R) a0 a1 s : kstep s (tracepoint_enter_sendmsg env a0 a1 s)
| k_exit_sendmsg (env : kenv R) ret s : env_ok env → kstep s (tracepoint_exit_sendmsg env ret s)
| k_enter_sendmmsg (env : kenv R) a0 a1 a2 s : kstep s (tracepoint_enter_sendmmsg env a0 a1 a2 s)
| k_exit_sendmmsg (env : kenv R) ret s : env_ok env → kstep s (tracepoint_exit_sendmmsg env ret s)
| k_enter_read (env : kenv R) a0 a1 s : kstep s (tracepoint_enter_read env a0 a1 s)
| k_exit_read (env : kenv R) ret s : env_ok env → kstep s (tracepoint_exit_read env ret s)
| k_enter_readv (env : kenv R) a0 a1 a2 s : kstep s (tracepoint_enter_readv env a0 a1 a2 s)
| k_exit_readv (env : kenv R) ret s : env_ok env → kstep s (tracepoint_exit_readv env ret s)
| k_recv (env : kenv R) a0 a1 s : kstep s (sys_recv env a0 a1 s)
| k_recv_ret (env : kenv R) ret s : env_ok env → kstep s (sys_recv_ret env ret s)
| k_enter_recvfrom (env : kenv R) a0 a1 a4 s : kstep s (tracepoint_enter_recvfrom env a0 a1 a4 s)
| k_exit_recvfrom (env : kenv R) ret s : env_ok env → kstep s (tracepoint_exit_recvfrom env ret s)
| k_enter_recvmsg (env : kenv R) a0 a1 s : kstep s (tracepoint_enter_recvmsg env a0 a1 s)
| k_exit_recvmsg (env : kenv R) ret s : env_ok env → kstep s (tracepoint_exit_recvmsg env ret s)
| k_enter_recvmmsg (env : kenv R) a0 a1 a2 s : kstep s (tracepoint_enter_recvmmsg env a0 a1 a2 s)
| k_exit_recvmmsg (env : kenv R) ret s : env_ok env → kstep s (tracepoint_exit_recvmmsg env ret s)
| k_security (env : kenv R) s : kstep s (security_socket_sendmsg env s)
| k_evict m k s : is_lru m = true → kstep s (bpf_map_delete_elem m k s)
| k_user_update m k v s : m ≠ active_connection_map → kstep s (bpf_map_update_elem m k v s)
| k_user_delete m k s : kstep s (bpf_map_delete_elem m k s)
| k_user_skip k con s :
    bpf_map_lookup_elem active_connection_map k s = Some con →
    kstep s (write_elem active_connection_map k (con <| Conn.skip_data_upload := 1 |>) s).

(** Follow the branches of a handler down to the operations on maps. *)
Ltac handler :=
  repeat (cbv beta zeta;
          first [ apply kinv_delete
                | match goal with |- kinv (match ?x with _ => _ end) => destruct x end ]);
  by eauto 8 with kinv.

Lemma kinv_save_msghdr (env : kenv R) fd p mmsg s : kinv s → kinv (save_msghdr env fd p mmsg s).
Proof. intros. unfold save_msghdr. by eauto with kinv. Qed.
#[local] Hint Resolve kinv_save_msghdr : kinv.

Lemma kstep_kinv s s' : kinv s → kstep s s' → kinv s'.
Proof.
  intros Hk Hs. destruct Hs; try (by eauto with kinv).
  all: unfold tracepoint_sched_process_exec, tracepoint_sched_process_fork,
    tracepoint_enter_connect, tracepoint_exit_connect, tcp_connect, nf_conn_aware,
    tracepoint_enter_accept, sock_alloc_ret, tracepoint_exit_accept, tracepoint_enter_close,
    tracepoint_exit_close, process_close_sock, process_connect, process_accept,
    security_socket_sendmsg,
    tracepoint_enter_write, tracepoint_enter_sendto, tracepoint_exit_sendto,
    tracepoint_enter_writev, tracepoint_enter_sendmsg, tracepoint_exit_sendmsg,
    tracepoint_enter_sendmmsg, tracepoint_exit_sendmmsg, tracepoint_enter_read,
    tracepoint_enter_readv, sys_recv, tracepoint_enter_recvfrom, tracepoint_exit_recvfrom,
    tracepoint_enter_recvmsg, tracepoint_exit_recvmsg, tracepoint_enter_recvmmsg,
    tracepoint_exit_recvmmsg.
  all: try handler.
  destruct (ki_active s Hk k con) as [Hann Hr]; [done|].
  by apply kinv_write_active; rewrite ?assign_ne by discriminate.
Qed.

(** The state the programs are loaded in. *)
Definition kernel_start (s : kstate) : Prop :=
  samples s = [] ∧ maps s active_connection_map = ∅ ∧
  Z.of_nat (length (rover_data_heap s)) = 30960.

(** C8: data follows its connection.  In every run of the kernel programs of processes and
    system calls, with evictions and the writes of user space anywhere between them, a detail
    or data sample is preceded by a connect sample with the same connection and random id. *)
Theorem data_follows_connect s s' pre y post c r :
  kernel_start s → rtc kstep s s' →
  samples s' = pre ++ y :: post → about y = Some (c, r) → announced pre c r.
Proof.
  intros (Hs & Ha & Hh) Hrun. assert (Hk : kinv s').
  { assert (Hk : kinv s).
    { split; [done| |].
      - intros conid con. by rewrite Ha, lookup_empty.
      - intros p z q c' r' Heq. rewrite Hs in Heq. by destruct p. }
    clear -Hk Hrun. induction Hrun as [|s s1 s2 Hstep _ IH]; [done|].
    by apply IH, (kstep_kinv s). }
  apply (ki_ordered _ Hk).
Qed.
End runs.

Lemma nth_about l i p :
  (about <$> l) !! i = Some (Some p) →
  ∃ y, l = take i l ++ y :: drop (S i) l ∧ about y = Some p.
Proof.
  rewrite list_lookup_fmap. intros (y & Hy & Ha)%fmap_Some. exists y.
  split; [symmetry; by apply take_drop_middle|done].
Qed.

(** A traced process writes an HTTP request on a socket the kernel has not seen. *)
Module WriteSample.
Definition payload : list Z := char_codes "GET /index HTTP/1.1".
Definition sock4 : sock_common := MkSockCommon 2 40000 0x0100000A 0x5000 0x0200000A
  (replicate 16 0) (replicate 16 0).
Definition env : kenv (gmap Z Z) :=
  MkEnv (7 * 2 ^ 32 + 7) 50 99 0 [] (list_to_map (zip (Z.of_nat <$> seq 100 19) payload)) (λ _, 0)
    (λ _, 1) (λ _, sock4) (λ _, 0) (λ _, MkSockaddr 0 0 0 (replicate 16 0) 0).
Definition s1 : kstate := bpf_map_update_elem process_monitor_control 7 1 UploadSample.state.
Definition s2 : kstate := tracepoint_enter_write env 5 100 s1.
Definition s3 : kstate := security_socket_sendmsg env s2.
Definition s4 : kstate := tracepoint_exit_write env 19 s3.

Lemma env_sample_ok : env_ok env.
Proof. by split. Qed.

Lemma run : rtc (kstep (R := gmap Z Z)) UploadSample.state s4.
Proof.
  apply (rtc_l _ _ s1); [by apply (k_user_update process_monitor_control)|].
  apply (rtc_l _ _ s2); [apply k_enter_write|].
  apply (rtc_l _ _ s3); [apply k_security|].
  apply (rtc_l _ _ s4); [apply k_exit_write, env_sample_ok|]. apply rtc_refl.
Qed.

(** It sends the connection, the detail and the data. *)
Lemma queues : fst <$> samples s4 =
  [socket_connection_event_queue; socket_detail_queue; socket_data_upload_queue].
Proof. vm_compute. reflexivity. Qed.

Lemma abouts : (about <$> samples s4) !! 2%nat = Some (Some (7 * 2 ^ 32 + 5, 99)).
Proof. vm_compute. reflexivity. Qed.

Lemma start : kernel_start UploadSample.state.
Proof. split; [reflexivity|]. split; [reflexivity|]. apply UploadSample.state_heap. Qed.
End WriteSample.

Lemma data_follows_connect_witness :
  announced (take 2 (samples WriteSample.s4)) (7 * 2 ^ 32 + 5) 99.
Proof.
  destruct (nth_about _ 2 _ WriteSample.abouts) as (y & Hl & Hy).
  exact (data_follows_connect UploadSample.state WriteSample.s4 _ y _ _ _ WriteSample.start
           WriteSample.run Hl Hy).
Defined.

(** ** Further behaviour *)

(** A process is reported once: a report that was sent suppresses the next ones
    until the entry of the process is removed, by a fork that reuses its pid or by
    user space. *)
Lemma report_once {R} (env env' : kenv R) s :
  tgid_of (pid_tgid env') = tgid_of (pid_tgid env) →
  Z.of_nat (base.size (maps s process_monitor_control)) < 10000 →
  samples (report_running_process env s) ≠ samples s →
  report_running_process env' (report_running_process env s) = report_running_process env s.
Proof.
  intros Hid Hroom Hsent.
  assert (Hknown : bpf_map_lookup_elem process_monitor_control (tgid_of (pid_tgid env))
                     (report_running_process env s) = Some 1).
  { revert Hsent. unfold report_running_process.
    match goal with |- samples (if ?b then _ else _) ≠ _ → _ => destruct b end; [done|].
    destruct (bpf_map_lookup_elem process_monitor_control _ s); [done|]. intros _.
    unfold bpf_map_lookup_elem, submit. cbn [maps]. unfold bpf_map_update_elem.
    rewrite decide_True by auto. by rewrite store_eq, lookup_insert_eq. }
  generalize dependent (report_running_process env s). intros r _ Hknown.
  unfold report_running_process. rewrite Hid, Hknown. by case_match.
Qed.

(** The data id of a call is one more than the last of its descriptor. *)
Lemma generate_socket_data_id_next id fd s :
  let '(d, s') := generate_socket_data_id id fd false s in
  d = u64 (get_socket_data_id id fd s + 1) ∧ get_socket_data_id id fd s' = d.
Proof.
  unfold generate_socket_data_id, get_socket_data_id. cbn [andb].
  set (key := gen_tgid_fd (tgid_of id) fd).
  destruct (bpf_map_lookup_elem socket_data_id_generate_map key s) as [d|] eqn:Hd.
  - rewrite Hd. split; [done|]. by rewrite lookup_write.
  - rewrite lookup_update_lru by done. split; [done|]. by rewrite lookup_write.
Qed.

(** Data of one connection is linked: what was sent last is remembered with the
    random id of its connection, for [prev_socket_data_id] of the next payload. *)
Lemma upload_remembers {R} `{!MemoryReader R} (env : kenv R) a s :
  (connection_protocol a =? 0) || negb (connection_ssl a =? Z.b2z (socket_data_ssl a)) ||
    (connection_skip_data_upload a =? 1) = false →
  (∀ l, bpf_map_lookup_elem socket_data_last_id_map (con_id a) s = Some l →
        last_socket_data_id l ≠ socket_data_id a) →
  bpf_map_lookup_elem socket_data_last_id_map (con_id a) (upload_socket_data env a s) =
    Some (MkLastId (random_id a) (socket_data_id a)).
Proof.
  intros Hg Hl. unfold upload_socket_data. rewrite Hg.
  cbn [with_prev con_id random_id socket_data_id].
  destruct (bpf_map_lookup_elem socket_data_last_id_map (con_id a) s) as [l|] eqn:Hs.
  - specialize (Hl l eq_refl). replace (last_socket_data_id l =? socket_data_id a) with false by lia.
    by apply lookup_update_lru.
  - by apply lookup_update_lru.
Qed.

(** An accept that failed is reported as a connection: nothing looks at the sign of
    the returned descriptor. *)
Example failed_accept_reported :
  let s := tracepoint_exit_accept WriteSample.env (-11)
             (tracepoint_enter_accept WriteSample.env 0 WriteSample.s1) in
  ((λ '(_, x), let e := received_connect x in (connect_SocketFD e, ConnectSuccess e)) <$> samples s) =
    [(2 ^ 32 - 11, 1)] ∧
  bool_decide (is_Some (bpf_map_lookup_elem active_connection_map
                          (7 * 2 ^ 32 + (2 ^ 32 - 11)) s)) = true.
Proof. split; vm_compute; reflexivity. Qed.

(** A close that succeeded returns 0 and is reported as not successful. *)
Example close_success_lost :
  let s := tracepoint_exit_close WriteSample.env 0
             (tracepoint_enter_close WriteSample.env 5 WriteSample.s4) in
  ((λ '(q, x), close_Success (fst (ReadFrom (MkSocketCloseEvent 0 0 0 0 0 0 9) (NewReader x))))
     <$> drop 3 (samples s)) = [0].
Proof. vm_compute. reflexivity. Qed.

(** The byte count of a recvmmsg is the number of its vectors. *)
Example mmsg_counts_vectors :
  let m := list_to_map (zip (Z.of_nat <$> seq 1016 8) (le_bytes 8 2000) ++
                        zip (Z.of_nat <$> seq 1024 8) (le_bytes 8 2)) in
  let env := MkEnv (7 * 2 ^ 32 + 7) 50 99 0 [] m (λ _, 0) (λ _, 1) (λ _, WriteSample.sock4) (λ _, 0)
               (λ _, MkSockaddr 0 0 0 (replicate 16 0) 0) in
  let s := tracepoint_exit_recvmmsg env 1
             (tracepoint_enter_recvmmsg env 5 1000 1 WriteSample.s1) in
  ((λ '(_, x), L4TotalPackageSize (received_detail x)) <$> drop 1 (samples s)) = [2].
Proof. vm_compute. reflexivity. Qed.
