(* ===== verification/Windows.v ===== *)
(** * The time windows of continuous profiling

    src/pkg/profiling/continuous/base/windows.go: a window is a list of slots, one for a
    second, whose last element is the newest; [Add] puts a value into the slot of its
    second and moves the window when the value is newer than the window, [MatchRule] counts
    the slots over a threshold, and the two flushes report the slots that are new.

    A [time.Time] is its nanosecond.  [int(d.Seconds())] is the truncated quotient: the
    rounding of the float can only differ beyond 2^22 seconds, where both results are
    outside of every window. *)

From stdpp Require Import base gmap list strings.
From Stdlib Require Import ZArith Lia.
From S2P Require Import Prelude.

(** ** Policy items (base/policy.go) *)

Inductive TargetProfilingType : Type :=
| TargetProfilingTypeOnCPU
| TargetProfilingTypeOffCPU
| TargetProfilingTypeNetwork
| OtherProfilingType (name : string).

Global Instance TargetProfilingType_eq_dec : EqDecision TargetProfilingType.
Proof. solve_decision. Defined.

(** A [*PolicyItem] is compared by its address, [pi_ptr]; its policy is read for the
    target type only. *)
Record PolicyItem : Type := MkPolicyItem {
  pi_ptr : positive;
  Threshold : string;
  Period : Z;
  Count : Z;
  URIList : list string;
  URIRegex : string;
  pi_target : TargetProfilingType
}.

Definition SameURIFilter (p other : PolicyItem) : bool :=
  if negb (bool_decide (URIRegex p = "")) && bool_decide (URIRegex p = URIRegex other) then true
  else if negb (bool_decide (URIList p = [])) && bool_decide (URIList p = URIList other) then true
  else if bool_decide (URIRegex p = "") && bool_decide (URIRegex other = "")
          && bool_decide (URIList p = []) && bool_decide (URIList other = []) then true
  else false.

(** ** The data of a slot: the interface [WindowData[D, R]] *)

Class WindowData (D R W : Type) := {
  wd_new : W;
  wd_Reset : W → W;
  wd_Accept : D → W → W;
  wd_Get : W → R;
  wd_zero : R
}.

(** What a window needs of its slots: a reset slot is as a new one. *)
Class LawfulWindowData (D R W : Type) `{WindowData D R W} : Prop :=
  Reset_new w : wd_Reset w = wd_new.

(** [LatestWindowData]: the slot keeps the last value; [zero] is Go's zero value. *)
Class Zero (D : Type) := zero : D.
Record LatestWindowData (D : Type) : Type := MkLatest { Value : D }.
Arguments MkLatest {D} _.
Arguments Value {D} _.

Definition NewLatestWindowData {D} `{Zero D} : LatestWindowData D := MkLatest zero.

Global Instance latest_data (D : Type) `{Zero D} : WindowData D D (LatestWindowData D) := {|
  wd_new := NewLatestWindowData;
  wd_Reset _ := MkLatest zero;
  wd_Accept data _ := MkLatest data;
  wd_Get := Value;
  wd_zero := zero
|}.

Record windowDataWrapper (W : Type) : Type := MkWrapper { ww_data : W; hasData : bool }.
Arguments MkWrapper {W} _ _.
Arguments ww_data {W} _.
Arguments hasData {W} _.

Record TimeWindows (W : Type) : Type := MkWindows {
  tw_data : list (windowDataWrapper W);
  endTime : option Z;
  lastFlushTime : option Z
}.
Arguments MkWindows {W} _ _ _.
Arguments tw_data {W} _.
Arguments endTime {W} _.
Arguments lastFlushTime {W} _.

(** [time.Time.Sub] saturates at the limits of a duration. *)
Definition time_Sub (a b : Z) : Z := Z.max (- 2 ^ 63) (Z.min (2 ^ 63 - 1) (a - b)).

Definition int_Seconds (d : Z) : Z := Z.quot d second.

Definition max_period (items : list PolicyItem) : Z :=
  foldl (λ m i, if m <? Period i then Period i else m) 0 items.

Section windows.
Context {D R W : Type} `{!WindowData D R W}.
Local Notation wrapper := (windowDataWrapper W).
Local Notation windows := (TimeWindows W).

Definition newWindowDataWrapper : wrapper := MkWrapper wd_new false.

Definition wrapper_Reset (t : wrapper) : wrapper := MkWrapper (wd_Reset (ww_data t)) false.

Definition wrapper_Accept (data : D) (t : wrapper) : wrapper :=
  MkWrapper (wd_Accept data (ww_data t)) true.

Definition wrapper_Get (t : wrapper) : R := wd_Get (ww_data t).

Definition NewTimeWindows (items : list PolicyItem) : windows :=
  MkWindows (replicate (Z.to_nat (max_period items)) newWindowDataWrapper) None None.

(** From the back to the front: the last match is the oldest one. *)
Definition MatchRule (t : windows) (policy : PolicyItem) (check : R → bool) : R * bool :=
  let '(lastMatch, matchedCount) :=
    foldl (λ '(lm, n) e,
             let getVal := wrapper_Get e in
             if check getVal then (getVal, n + 1) else (lm, n))
          (wd_zero, 0) (reverse (tw_data t)) in
  (lastMatch, Count policy <=? matchedCount).

Definition ScalePeriod (items : list PolicyItem) (t : windows) : windows :=
  let maxPeriod := max_period items in
  let len := Z.of_nat (length (tw_data t)) in
  if len =? maxPeriod then t
  else
    let val := maxPeriod - len in
    let data :=
      if 0 <? val then tw_data t ++ replicate (Z.to_nat val) newWindowDataWrapper
      else take (length (tw_data t) - Z.to_nat (- val)) (tw_data t) in
    MkWindows data (endTime t) (lastFlushTime t).

(** One round of the loop of [moveTo]: the oldest slot becomes the newest. *)
Definition rotate_slot (l : list wrapper) : list wrapper :=
  match l with
  | [] => []
  | first :: l' => l' ++ [wrapper_Reset first]
  end.

Definition moveTo (tm : Z) (t : windows) : res Empty_set windows :=
  e ← must (endTime t);
  let addSeconds := int_Seconds (time_Sub tm e) in
  if addSeconds <=? 0 then Ok t
  else
    let data :=
      if Z.of_nat (length (tw_data t)) <? addSeconds then wrapper_Reset <$> tw_data t
      else Nat.iter (Z.to_nat addSeconds) rotate_slot (tw_data t) in
    Ok (MkWindows data (Some tm) (lastFlushTime t)).

(** The element is found from the nearer end; walking off the list is a nil dereference. *)
Definition appendDataToSlot (index : Z) (data : D) (t : windows) : res Empty_set windows :=
  let dataLen := Z.of_nat (length (tw_data t)) in
  if (index <? 0) || (dataLen <? index) then Ok t
  else
    let position :=
      if index <? Z.shiftr dataLen 1 then Z.to_nat index
      else (length (tw_data t) - 1 - Z.to_nat (dataLen - 1 - index))%nat in
    element ← must (tw_data t !! position);
    Ok (MkWindows (<[position := wrapper_Accept data element]> (tw_data t))
          (endTime t) (lastFlushTime t)).

Definition Add (tm : Z) (val : D) (t : windows) : res Empty_set windows :=
  let e := default tm (endTime t) in
  let t := MkWindows (tw_data t) (Some e) (lastFlushTime t) in
  let second := int_Seconds (time_Sub e tm) in
  '(t, second) ← (if second <? 0 then t' ← moveTo tm t; Ok (t', 0) else Ok (t, second));
  let len := Z.of_nat (length (tw_data t)) in
  if len <=? second then Ok t
  else appendDataToSlot (len - second - 1) val t.

(** The pointers of two times are equal only when the times are, so the comparison of the
    pointers adds nothing to [Before]. *)
Definition shouldFlush (t : windows) (e : option Z) : bool :=
  match e with
  | None => false
  | Some e =>
    match lastFlushTime t with
    | None => true
    | Some last => last <? e
    end
  end.

Definition FlushMostRecentData (t : windows) : res Empty_set (R * bool * windows) :=
  if negb (shouldFlush t (endTime t)) then Ok (wd_zero, false, t)
  else
    back ← must (last (tw_data t));
    Ok (wrapper_Get back, true, MkWindows (tw_data t) (endTime t) (endTime t)).

(** The slots with data among the first [slotCount + 1] from the back. *)
Fixpoint flush_slots (slotCount : Z) (l : list wrapper) : list R :=
  match l with
  | [] => []
  | e :: l' =>
    if 0 <=? slotCount then
      (if hasData e then [wrapper_Get e] else []) ++ flush_slots (slotCount - 1) l'
    else []
  end.

Definition FlushMultipleRecentData (t : windows) : list R * bool * windows :=
  if negb (shouldFlush t (endTime t)) then ([], false, t)
  else
    let slotCount :=
      match lastFlushTime t, endTime t with
      | Some last, Some e => int_Seconds (time_Sub e last) - 1
      | _, _ => Z.of_nat (length (tw_data t))
      end in
    (flush_slots slotCount (reverse (tw_data t)), true,
     MkWindows (tw_data t) (endTime t) (endTime t)).

(** A sequence of additions. *)
Definition Adds (hist : list (Z * D)) (t : windows) : res Empty_set windows :=
  for_range (λ t '(tm, val), Add tm val t) t hist.

End windows.

(** ** The reference: every value with its age in slots

    The slots are determined by the values that were added, each with the number of slots
    it lies behind the newest one. *)

Record entry (D : Type) : Type := MkEntry { e_age : Z; e_tm : Z; e_val : D }.
Arguments MkEntry {D} _ _ _.
Arguments e_age {D} _.
Arguments e_tm {D} _.
Arguments e_val {D} _.

Definition older {D} (n : Z) (e : entry D) : entry D := MkEntry (e_age e + n) (e_tm e) (e_val e).

Section reference.
Context {D R W : Type} `{!WindowData D R W}.

Definition values_of (k : Z) (log : list (entry D)) : list D :=
  e_val <$> filter (λ e, e_age e = k) log.

(** The slot that [k] slots lie in front of. *)
Definition slot_of (k : Z) (log : list (entry D)) : windowDataWrapper W :=
  let vs := values_of k log in
  MkWrapper (foldl (λ w v, wd_Accept v w) wd_new vs) (negb (bool_decide (vs = []))).

(** The age of a value in slots and its distance to the end of the window in time: a move
    by [m] slots takes at least [m] and less than [m + 1] seconds. *)
Definition placed (e : Z) (x : entry D) : Prop :=
  0 ≤ e_age x ∧ (e_age x - 1) * second < e - e_tm x < (2 * e_age x + 1) * second.

Definition exactly_placed (e : Z) (x : entry D) : Prop := e - e_tm x = e_age x * second.

Definition refines (len : nat) (log : list (entry D)) (t : TimeWindows W) : Prop :=
  length (tw_data t) = len ∧
  ∀ k, (k < len)%nat → reverse (tw_data t) !! k = Some (slot_of (Z.of_nat k) log).

Definition plausible_time (tm : Z) : Prop := - 2 ^ 61 < tm < 2 ^ 61.

Lemma time_Sub_plausible a b : plausible_time a → plausible_time b → time_Sub a b = a - b.
Proof. unfold plausible_time, time_Sub. lia. Qed.

Lemma values_of_older n k log : values_of k (older n <$> log) = values_of (k - n) log.
Proof.
  unfold values_of. induction log as [|x log IH]; [done|]. cbn [fmap list_fmap].
  rewrite !filter_cons. cbn [older e_age e_val].
  destruct (decide (e_age x + n = k)); destruct (decide (e_age x = k - n)); try lia;
    rewrite ?fmap_cons, IH; done.
Qed.

Lemma values_of_snoc k log x :
  values_of k (log ++ [x]) = values_of k log ++ (if decide (e_age x = k) then [e_val x] else []).
Proof.
  unfold values_of. rewrite filter_app, fmap_app. f_equal. rewrite filter_cons, filter_nil.
  by destruct (decide _).
Qed.

Lemma values_of_none k log : Forall (λ x, k < e_age x) log → values_of k log = [].
Proof.
  unfold values_of. induction 1 as [|x log Hx _ IH]; [done|].
  rewrite filter_cons. destruct (decide (e_age x = k)); [lia|done].
Qed.

Lemma slot_of_empty k log : values_of k log = [] → slot_of k log = newWindowDataWrapper.
Proof. unfold slot_of. by intros ->. Qed.

Lemma slot_of_older n k log : slot_of k (older n <$> log) = slot_of (k - n) log.
Proof. unfold slot_of. by rewrite values_of_older. Qed.

Lemma slot_of_snoc_ne k log x : e_age x ≠ k → slot_of k (log ++ [x]) = slot_of k log.
Proof.
  intros Hne. unfold slot_of. rewrite values_of_snoc. destruct (decide _); [done|].
  by rewrite app_nil_r.
Qed.

Lemma slot_of_snoc k log x :
  e_age x = k → slot_of k (log ++ [x]) = wrapper_Accept (e_val x) (slot_of k log).
Proof.
  intros <-. unfold slot_of, wrapper_Accept. rewrite values_of_snoc, decide_True by done.
  cbn [ww_data]. f_equal; [by rewrite foldl_app|].
  by destruct (values_of (e_age x) log).
Qed.

Context `{!LawfulWindowData D R W}.

Lemma wrapper_Reset_new w : wrapper_Reset w = newWindowDataWrapper.
Proof. unfold wrapper_Reset. by rewrite Reset_new. Qed.

Lemma slot_of_young m k log :
  Forall (λ x, 0 ≤ e_age x) log → k < m → slot_of k (older m <$> log) = newWindowDataWrapper.
Proof.
  intros Hage Hk. rewrite slot_of_older. apply slot_of_empty, values_of_none.
  eapply Forall_impl; [exact Hage|]. cbn. lia.
Qed.

Lemma rotate_refines len log (t : TimeWindows W) e :
  Forall (λ x, 0 ≤ e_age x) log → refines len log t →
  refines len (older 1 <$> log) (MkWindows (rotate_slot (tw_data t)) e (lastFlushTime t)).
Proof.
  intros Hage [Hlen Hs]. destruct t as [[|w l] et lf]; unfold refines in *;
    cbn [tw_data rotate_slot] in *.
  { split; [done|]. intros k Hk. simpl in Hlen. lia. }
  split; [rewrite length_app; simpl in *; lia|]. intros k Hk.
  rewrite reverse_app, reverse_singleton. destruct k as [|k].
  - cbn. by rewrite wrapper_Reset_new, slot_of_young.
  - specialize (Hs k ltac:(lia)).
    rewrite reverse_cons, lookup_app_l in Hs by (rewrite length_reverse; simpl in *; lia).
    transitivity (reverse l !! k); [done|].
    rewrite slot_of_older, Hs. do 2 f_equal. lia.
Qed.

Lemma rotates_refine m len log (t : TimeWindows W) e :
  Forall (λ x, 0 ≤ e_age x) log → refines len log t →
  refines len (older (Z.of_nat m) <$> log)
    (MkWindows (Nat.iter m rotate_slot (tw_data t)) e (lastFlushTime t)).
Proof.
  intros Hage Hr. induction m as [|m IH].
  - destruct Hr as [Hlen Hs]. split; [done|]. intros k Hk. rewrite slot_of_older, Z.sub_0_r. auto.
  - eapply rotate_refines with (e := e) in IH.
    + cbn [tw_data lastFlushTime Nat.iter] in *. destruct IH as [Hl Hs]. split; [done|].
      intros k Hk. etrans; [exact (Hs k Hk)|]. rewrite !slot_of_older. do 2 f_equal. lia.
    + apply Forall_fmap. eapply Forall_impl; [exact Hage|]. cbn. lia.
Qed.

Lemma moveTo_refines len log (t : TimeWindows W) e tm :
  Forall (λ x, 0 ≤ e_age x) log → refines len log t → endTime t = Some e →
  plausible_time e → plausible_time tm → 0 < int_Seconds (tm - e) →
  ∃ t', moveTo tm t = Ok t' ∧ endTime t' = Some tm ∧
        refines len (older (int_Seconds (tm - e)) <$> log) t'.
Proof.
  intros Hage Hr He Hpe Hpt Hpos. unfold moveTo. rewrite He. cbn [must mbind res_bind].
  rewrite time_Sub_plausible by done. set (m := int_Seconds (tm - e)) in *.
  rewrite (proj2 (Z.leb_gt _ _)) by lia. eexists. split; [done|]. split; [done|].
  destruct (Z.ltb_spec (Z.of_nat (length (tw_data t))) m) as [Hout|Hin].
  - destruct Hr as [Hlen Hs]. unfold refines. cbn [tw_data]. rewrite length_fmap. split; [done|].
    intros k Hk. rewrite slot_of_young by (done || lia).
    rewrite <- fmap_reverse, list_lookup_fmap, Hs by done. cbn. by rewrite wrapper_Reset_new.
  - rewrite <- (Z2Nat.id m) at 1 by lia. by apply rotates_refine.
Qed.

Lemma append_refines len log (t : TimeWindows W) s tm v :
  refines len log t → 0 ≤ s < Z.of_nat len →
  ∃ t', appendDataToSlot (Z.of_nat len - s - 1) v t = Ok t' ∧ endTime t' = endTime t ∧
        refines len (log ++ [MkEntry s tm v]) t'.
Proof.
  intros [Hlen Hs] Hb. unfold appendDataToSlot. rewrite Hlen.
  rewrite (proj2 (Z.ltb_ge _ 0)), (proj2 (Z.ltb_ge (Z.of_nat len) _)) by lia. cbn [orb].
  set (p := (len - 1 - Z.to_nat s)%nat).
  match goal with |- context [tw_data t !! ?i] => replace i with p end.
  2: { unfold p. destruct (_ <? _); lia. }
  assert (Hp : reverse (tw_data t) !! Z.to_nat s = tw_data t !! p).
  { rewrite reverse_lookup by lia. rewrite Hlen. f_equal. unfold p. lia. }
  rewrite Hs in Hp by lia. rewrite <- Hp. cbn [must mbind res_bind].
  eexists. split; [done|]. split; [done|]. unfold refines. cbn [tw_data].
  rewrite length_insert. split; [done|]. intros k Hk.
  rewrite reverse_lookup by (rewrite length_insert; lia). rewrite length_insert.
  destruct (decide (Z.of_nat k = s)) as [<-|Hne].
  - rewrite slot_of_snoc by done. cbn [e_val]. rewrite Nat2Z.id.
    replace (length (tw_data t) - S k)%nat with p by (unfold p; lia).
    rewrite list_lookup_insert_eq by (unfold p; lia). done.
  - rewrite slot_of_snoc_ne by (cbn; lia). rewrite list_lookup_insert_ne by (unfold p; lia).
    rewrite <- reverse_lookup by lia. auto.
Qed.

(** The entries of the log against the end of the window. *)
Definition dated (log : list (entry D)) (e : option Z) : Prop :=
  match e with
  | None => log = []
  | Some e =>
    plausible_time e ∧ e ∈ (e_tm <$> log) ∧ Forall (placed e) log ∧
    (Forall (λ x, (second | e_tm x)) log → Forall (exactly_placed e) log)
  end.

Definition pairs_of (log : list (entry D)) : list (Z * D) := (λ x, (e_tm x, e_val x)) <$> log.

Lemma pairs_of_older n log : pairs_of (older n <$> log) = pairs_of log.
Proof. unfold pairs_of. by rewrite <- list_fmap_compose. Qed.

Lemma older_dated m log e tm :
  dated log (Some e) → plausible_time tm → m = int_Seconds (tm - e) → 0 < m →
  Forall (placed tm) (older m <$> log) ∧
  ((second | tm) → Forall (λ x, (second | e_tm x)) log →
   Forall (exactly_placed tm) (older m <$> log)).
Proof.
  intros (_ & He & Hp & Hx) _ Hm Hpos.
  assert (Hd : m * second <= tm - e < (m + 1) * second).
  { subst m. unfold int_Seconds, second in *. Z.to_euclidean_division_equations; lia. }
  clear Hm. unfold second in *. split.
  - apply Forall_fmap. eapply Forall_impl; [exact Hp|]. intros x. unfold placed, second. cbn. lia.
  - intros Htm Hdiv. apply Forall_fmap.
    assert (Hm' : tm - e = m * second).
    { apply list_elem_of_fmap in He as (x & -> & Hin). rewrite Forall_forall in Hdiv.
      apply Hdiv in Hin as [q Hq]. destruct Htm as [r ->]. unfold second in *. lia. }
    eapply Forall_impl; [exact (Hx Hdiv)|]. intros x. unfold exactly_placed, second. cbn. unfold second in Hm'. lia.
Qed.

Lemma int_Seconds_placed e tm v :
  0 ≤ int_Seconds (e - tm) → let x := MkEntry (int_Seconds (e - tm)) tm v in
  placed e x ∧ ((second | e) → (second | tm) → exactly_placed e x).
Proof.
  intros Hs x. unfold placed, exactly_placed, x, int_Seconds, second in *. cbn. split.
  - Z.to_euclidean_division_equations; lia.
  - intros [q ->] [r ->]. rewrite <- Z.mul_sub_distr_r, Z.quot_mul; lia.
Qed.

Lemma snoc_dated log e tm v :
  plausible_time e → e ∈ (e_tm <$> log) ++ [tm] → Forall (placed e) log →
  (Forall (λ x, (second | e_tm x)) log → (second | tm) → Forall (exactly_placed e) log) →
  0 ≤ int_Seconds (e - tm) →
  dated (log ++ [MkEntry (int_Seconds (e - tm)) tm v]) (Some e).
Proof.
  intros Hpl He Hp Hx Hs. destruct (int_Seconds_placed e tm v Hs) as [Hpv Hxv].
  split; [done|]. split; [by rewrite fmap_app|]. split.
  { apply Forall_app. split; [done|]. by apply Forall_singleton. }
  intros [Hd Ht]%Forall_app. apply Forall_cons in Ht as [Ht _]. cbn in Ht.
  apply Forall_app. split; [by apply Hx|]. constructor; [|done]. apply Hxv; [|done].
  apply elem_of_app in He as [He|He%list_elem_of_singleton]; [|by subst].
  apply list_elem_of_fmap in He as (x & -> & Hin). rewrite Forall_forall in Hd. by apply Hd.
Qed.

(** A value outside of the window leaves it; one inside goes to its slot. *)
Lemma place_refines len log (t : TimeWindows W) s tm v :
  refines len log t → 0 ≤ s →
  ∃ t', (if Z.of_nat (length (tw_data t)) <=? s then Ok t
         else appendDataToSlot (Z.of_nat (length (tw_data t)) - s - 1) v t) = Ok t' ∧
        endTime t' = endTime t ∧ refines len (log ++ [MkEntry s tm v]) t'.
Proof.
  intros Hr Hs. pose proof (proj1 Hr) as Hlen. rewrite Hlen.
  destruct (Z.leb_spec (Z.of_nat len) s) as [Hout|Hin]; [|by apply append_refines].
  exists t. split; [done|]. split; [done|]. destruct Hr as [_ Hr]. split; [done|].
  intros k Hk. rewrite slot_of_snoc_ne by (cbn; lia). auto.
Qed.

Lemma Add_refines len log (t : TimeWindows W) tm v :
  refines len log t → dated log (endTime t) → plausible_time tm →
  ∃ t' log', Add tm v t = Ok t' ∧ refines len log' t' ∧ dated log' (endTime t') ∧
             pairs_of log' = pairs_of log ++ [(tm, v)].
Proof.
  intros Hr Hd Htm. unfold Add. set (e := default tm (endTime t)).
  assert (He : plausible_time e ∧ e ∈ (e_tm <$> log) ++ [tm] ∧ Forall (placed e) log ∧
               (Forall (λ x, (second | e_tm x)) log → (second | tm) → Forall (exactly_placed e) log)).
  { unfold dated, e in *. destruct (endTime t); simpl in *.
    - destruct Hd as (? & ? & ? & ?). rewrite elem_of_app. auto.
    - subst log. split; [done|]. split; [by apply list_elem_of_singleton|]. done. }
  destruct He as (Hpe & Hin & Hp & Hx). set (t0 := MkWindows _ _ _).
  assert (Hr0 : refines len log t0) by exact Hr.
  rewrite time_Sub_plausible by done.
  destruct (Z.ltb_spec (int_Seconds (e - tm)) 0) as [Hneg|Hpos].
  - assert (Hm : 0 < int_Seconds (tm - e)).
    { unfold int_Seconds, second in *. Z.to_euclidean_division_equations; lia. }
    assert (Hde : dated log (Some e)).
    { unfold e in *. destruct (endTime t); [exact Hd|]. simpl in Hneg.
      rewrite Z.sub_diag in Hneg. done. }
    destruct (moveTo_refines len log t0 e tm) as (t1 & Hmv & He1 & Hr1); try done.
    { eapply Forall_impl; [exact Hp|]. by intros x []. }
    rewrite Hmv. cbn [mbind res_bind].
    destruct (place_refines len _ t1 0 tm v Hr1 ltac:(lia)) as (t2 & Ht2 & He2 & Hr2).
    destruct (older_dated _ log e tm Hde Htm eq_refl Hm) as [Hp1 Hx1].
    eexists t2, _. split; [exact Ht2|]. split; [exact Hr2|]. rewrite He2, He1. split.
    + replace 0 with (int_Seconds (tm - tm)) by (by rewrite Z.sub_diag).
      apply snoc_dated; [done| |done| |by rewrite Z.sub_diag].
      * apply elem_of_app. right. by apply list_elem_of_singleton.
      * intros Hdv Ht. apply Hx1; [done|]. rewrite Forall_fmap in Hdv. exact Hdv.
    + unfold pairs_of at 1. rewrite fmap_app. f_equal. apply pairs_of_older.
  - cbn [mbind res_bind].
    destruct (place_refines len _ t0 _ tm v Hr0 Hpos) as (t2 & Ht2 & He2 & Hr2).
    eexists t2, _. split; [exact Ht2|]. split; [exact Hr2|]. rewrite He2. split.
    + by apply snoc_dated.
    + unfold pairs_of at 1. by rewrite fmap_app.
Qed.

End reference.

(** ** What a window holds *)

Section properties.
Context {D R W : Type} `{!WindowData D R W} `{!LawfulWindowData D R W}.

Lemma New_refines items :
  refines (D := D) (W := W) (Z.to_nat (max_period items)) [] (NewTimeWindows items).
Proof.
  unfold refines, NewTimeWindows. cbn [tw_data]. rewrite length_replicate. split; [done|].
  intros k Hk. rewrite reverse_replicate, lookup_replicate_2 by lia. done.
Qed.

Lemma Adds_refine len hist (t : TimeWindows W) (log : list (entry D)) :
  refines len log t → dated log (endTime t) → Forall (λ h, plausible_time (fst h)) hist →
  ∃ t' log', Adds hist t = Ok t' ∧ refines len log' t' ∧ dated log' (endTime t') ∧
             pairs_of log' = pairs_of log ++ hist.
Proof.
  revert t log. induction hist as [|[tm v] hist IH]; intros t log Hr Hd Hh.
  - exists t, log. rewrite app_nil_r. auto.
  - apply Forall_cons in Hh as [Htm Hh].
    destruct (Add_refines len log t tm v Hr Hd Htm) as (t1 & log1 & Ha & Hr1 & Hd1 & Hp1).
    destruct (IH t1 log1 Hr1 Hd1 Hh) as (t2 & log2 & Ha2 & Hr2 & Hd2 & Hp2).
    exists t2, log2. cbn [Adds for_range]. rewrite Ha. cbn [mbind res_bind].
    split; [exact Ha2|]. split; [done|]. split; [done|].
    by rewrite Hp2, Hp1, <- app_assoc.
Qed.

(** C9: The slots of a window are determined by the values that were added to it.  After
    any sequence of additions, in any order of their times, nothing panicked and there is a
    log of exactly these values, each with an age in slots, such that the k-th slot from the
    newest one holds the values of age k, in the order of their addition, and nothing else.
    A value of age k is less than 2k + 1 seconds older than the end of the window and more
    than k - 1, and exactly k seconds older when all times are whole seconds. *)
Theorem window_slots_hold_recent_values items hist :
  Forall (λ h, plausible_time (fst h)) hist →
  ∃ (t : TimeWindows W) (log : list (entry D)),
    Adds hist (NewTimeWindows items) = Ok t ∧ pairs_of log = hist ∧
    length (tw_data t) = Z.to_nat (max_period items) ∧
    (∀ k, (k < Z.to_nat (max_period items))%nat →
          reverse (tw_data t) !! k = Some (slot_of (Z.of_nat k) log)) ∧
    (∀ e, endTime t = Some e →
          Forall (placed e) log ∧
          (Forall (λ h, (second | fst h)) hist → Forall (exactly_placed e) log)).
Proof.
  intros Hh. destruct (Adds_refine _ hist _ _ (New_refines items) eq_refl Hh)
    as (t & log & Ha & [Hlen Hs] & Hd & Hp).
  exists t, log. cbn [pairs_of fmap list_fmap app] in Hp. repeat (split; [done|]).
  intros e He. rewrite He in Hd. destruct Hd as (_ & _ & Hpl & Hx). split; [done|].
  intros Hdiv. apply Hx. rewrite <- Hp in Hdiv. unfold pairs_of in Hdiv.
  by rewrite Forall_fmap in Hdiv.
Qed.

(** ** Rules: how many slots match *)

Lemma match_fold (check : R → bool) (l : list (windowDataWrapper W)) lm n :
  foldl (λ '(lm, n) e, let g := wrapper_Get e in if check g then (g, n + 1) else (lm, n)) (lm, n) l =
  (default lm (last (filter (λ g, check g = true) (wrapper_Get <$> l))),
   n + Z.of_nat (length (filter (λ g, check g = true) (wrapper_Get <$> l)))).
Proof.
  revert lm n. induction l as [|e l IH]; intros lm n; cbn [foldl fmap list_fmap].
  - rewrite filter_nil. simpl. f_equal. lia.
  - destruct (check (wrapper_Get e)) eqn:Hc.
    + rewrite IH, filter_cons_True by done. rewrite length_cons.
      f_equal; [|lia]. rewrite last_cons. by destruct (last _).
    + rewrite IH, filter_cons_False by congruence. done.
Qed.

(** The match is decided by the number of matching slots of the whole window, and the value
    that is reported is the one of the oldest matching slot. *)
Lemma MatchRule_exact (t : TimeWindows W) policy (check : R → bool) :
  MatchRule t policy check =
  (default wd_zero (head (filter (λ g, check g = true) (wrapper_Get <$> tw_data t))),
   Count policy <=? Z.of_nat (length (filter (λ g, check g = true) (wrapper_Get <$> tw_data t)))).
Proof.
  unfold MatchRule. rewrite match_fold. rewrite fmap_reverse.
  assert (Hr : ∀ l, filter (λ g, check g = true) (reverse l)
                    = reverse (filter (λ g, check g = true) l)).
  { induction l as [|x l IH]; [done|]. rewrite reverse_cons, filter_app, IH, !filter_cons, filter_nil.
    destruct (decide (check x = true)); [by rewrite reverse_cons|by rewrite app_nil_r]. }
  rewrite Hr, length_reverse, last_reverse. done.
Qed.

(** ** Flushes *)

Lemma flush_slots_take n (l : list (windowDataWrapper W)) :
  flush_slots n l =
  wrapper_Get <$> filter (λ w, hasData w = true) (take (Z.to_nat (n + 1)) l).
Proof.
  revert n. induction l as [|w l IH]; intros n; cbn [flush_slots].
  - by rewrite take_nil.
  - destruct (Z.leb_spec 0 n) as [Hn|Hn].
    + replace (Z.to_nat (n + 1)) with (S (Z.to_nat (n - 1 + 1))) by lia. cbn [firstn].
      rewrite IH, filter_cons. destruct (hasData w) eqn:Hw.
      * by rewrite decide_True.
      * by rewrite decide_False.
    + replace (Z.to_nat (n + 1)) with 0%nat by lia. done.
Qed.

End properties.

Global Instance latest_lawful (D : Type) `{Zero D} : LawfulWindowData D D (LatestWindowData D).
Proof. by intros [v]. Qed.

(** ** Evaluated windows *)

Module WindowSamples.

Global Instance zero_Z : Zero Z := 0.

Definition item (period count : Z) : PolicyItem :=
  MkPolicyItem 1 "" period count [] "" TargetProfilingTypeOnCPU.

Notation zwindows := (TimeWindows (LatestWindowData Z)).

Definition run (items : list PolicyItem) (hist : list (Z * Z)) : zwindows :=
  match Adds hist (NewTimeWindows items) with
  | Ok t => t
  | _ => MkWindows [] None None
  end.

(** The values of the slots, the oldest first. *)
Definition shown (t : zwindows) : list Z := wrapper_Get <$> tw_data t.

(** The tail of times that are not in order: the second value is late by a second, the
    third moves the window by two slots. *)
Definition unordered : list (Z * Z) := [(5 * second, 50); (4 * second, 40); (7 * second, 70)].

Lemma window_slots_witness :
  ∃ (t : zwindows) (log : list (entry Z)),
    Adds unordered (NewTimeWindows [item 4 1]) = Ok t ∧ pairs_of log = unordered ∧
    length (tw_data t) = Z.to_nat (max_period [item 4 1]) ∧
    (∀ k, (k < Z.to_nat (max_period [item 4 1]))%nat →
          reverse (tw_data t) !! k = Some (slot_of (Z.of_nat k) log)) ∧
    (∀ e, endTime t = Some e →
          Forall (placed e) log ∧
          (Forall (λ h, (second | fst h)) unordered → Forall (exactly_placed e) log)).
Proof.
  apply (window_slots_hold_recent_values (W := LatestWindowData Z) [item 4 1] unordered).
  unfold unordered, plausible_time, second. repeat constructor; cbn; lia.
Defined.

Example unordered_slots : shown (run [item 4 1] unordered) = [40; 50; 0; 70].
Proof. vm_compute. reflexivity. Qed.

(** A rule counts the matches of the whole window, whose length is the longest period of
    the items that share it: an item of one second matches by a value of two seconds ago. *)
Example period_is_ignored :
  MatchRule (run [item 3 1; item 1 1] [(0, 90); (second, 1); (2 * second, 2)])
    (item 1 1) (λ v, 80 <=? v) = (90, true).
Proof. vm_compute. reflexivity. Qed.

(** The reported match is the oldest one. *)
Example last_match_is_the_oldest :
  MatchRule (run [item 3 1] [(0, 81); (second, 82); (2 * second, 83)])
    (item 3 1) (λ v, 80 <=? v) = (81, true).
Proof. vm_compute. reflexivity. Qed.

(** Scaling a window down drops the newest values, and scaling it up puts the empty slots
    behind the newest one. *)
Example scale_down_drops_the_newest :
  shown (ScalePeriod [item 1 1] (run [item 3 1] [(0, 10); (second, 11); (2 * second, 12)])) = [10].
Proof. vm_compute. reflexivity. Qed.

Example scale_up_ages_the_values :
  shown (ScalePeriod [item 4 1] (run [item 2 1] [(0, 10); (second, 11)])) = [10; 11; 0; 0].
Proof. vm_compute. reflexivity. Qed.

(** A move by a second and a half is a move by one slot and the rest is forgotten: a window
    of four slots still holds a value that is four and a half seconds old. *)
Definition one_and_a_half : Z := 1500000000.

Example slots_drift :
  shown (run [item 4 1] [(0, 10); (one_and_a_half, 11); (2 * one_and_a_half, 12);
                         (3 * one_and_a_half, 13)]) = [10; 11; 12; 13].
Proof. vm_compute. reflexivity. Qed.

(** The flush counts the slots by the time between two flushes, so with such moves it
    reports a slot a second time: 11 is in both reports. *)
Example slot_flushed_twice :
  let t0 := run [item 4 1] [(0, 10); (one_and_a_half, 11)] in
  let '(r1, b1, t1) := FlushMultipleRecentData t0 in
  match Adds [(2 * one_and_a_half, 12); (3 * one_and_a_half, 13)] t1 with
  | Ok t2 => (r1, b1, fst (FlushMultipleRecentData t2)) = ([11; 10], true, ([13; 12; 11], true))
  | _ => False
  end.
Proof. vm_compute. reflexivity. Qed.

(** A value of the second of the last flush is not reported any more. *)
Example same_second_not_flushed :
  let '(_, _, t1) := FlushMultipleRecentData (run [item 4 1] [(second, 11)]) in
  match Adds [(second, 99); (2 * second, 12)] t1 with
  | Ok t2 => fst (FlushMultipleRecentData t2) = ([12], true)
  | _ => False
  end.
Proof. vm_compute. reflexivity. Qed.

End WindowSamples.
