(* ===== verification/NetWatch.v ===== *)
(** * The processes the HTTP events of continuous profiling are asked of

    src/pkg/profiling/continuous/checker/bpf/network (network.go, process.go): which
    processes the BPF programs watch and for which checkers, when the programs are loaded
    and shut down, and what is left of a process whose watch fails or ends.

    The BPF objects are what the code reads of them: whether they are loaded, the pids of
    the process control map, whether there is a linker, and how often the TLS probes of a
    process were attached.  What loading, attaching, closing and the map answer is an
    argument. *)

From stdpp Require Import base gmap list strings.
From Stdlib Require Import ZArith Lia.
From S2P Require Import Prelude.

(** ** Watched processes *)

(** The package variable [bpf]: nil, objects whose loading failed, or loaded objects with the
    pids of [ProcessMonitorControl]. *)
Inductive bpf_objects : Type :=
| BpfNil
| BpfUnloaded
| BpfLoaded (ProcessMonitorControl : gset Z).

Record monitoringProcessInfo : Type := MkMonitoring {
  mp_source : gset string;
  mp_attached : Z
}.

(** [bpfLinker] says whether the package variable is not nil. *)
Record Net : Type := MkNet {
  bpf : bpf_objects;
  bpfLinker : bool;
  monitoringProcesses : gmap Z monitoringProcessInfo
}.

Notation netm := (act Net unit).

Definition NewNet : Net := MkNet BpfNil false ∅.

Definition set_bpf (b : bpf_objects) : netm unit :=
  modify (λ n, MkNet b (bpfLinker n) (monitoringProcesses n)).

Definition set_linker (b : bool) : netm unit :=
  modify (λ n, MkNet (bpf n) b (monitoringProcesses n)).

Definition set_monitoring (f : gmap Z monitoringProcessInfo → gmap Z monitoringProcessInfo) : netm unit :=
  modify (λ n, MkNet (bpf n) (bpfLinker n) (f (monitoringProcesses n))).

(** The answers of the outside: loading the objects, the probes of the programs, the TLS
    probes of a process, writing the control map, closing the probes of a process, deleting
    from the control map, and closing the programs. *)
Record answers : Type := MkAnswers {
  LoadBPFAndAssign : bool;
  HasError : bool;
  addSSLProcess : bool;
  control_Update : bool;
  process_Close : bool;
  control_Delete : bool;
  bpf_Close : bool
}.

Definition startBPFIfNeed (a : answers) : netm unit :=
  n ← get;
  match bpf n with
  | BpfNil =>
    _ ← set_bpf BpfUnloaded;
    if negb (LoadBPFAndAssign a) then raise tt
    else
      _ ← set_linker true;
      if HasError a then _ ← set_bpf BpfNil; _ ← set_linker false; raise tt
      else set_bpf (BpfLoaded ∅)
  | _ => mret tt
  end.

(** The control map of objects that are not loaded is nil. *)
Definition control_put (ok : bool) (pid : Z) : netm unit :=
  n ← get;
  match bpf n with
  | BpfLoaded c => if ok then set_bpf (BpfLoaded ({[ pid ]} ∪ c)) else raise tt
  | _ => lift Panic
  end.

(** Whether the pid was deleted: the kernel may refuse, and it has an error for a pid that is
    not there. *)
Definition control_del (ok : bool) (pid : Z) : netm bool :=
  n ← get;
  match bpf n with
  | BpfLoaded c =>
    if ok then _ ← set_bpf (BpfLoaded (c ∖ {[ pid ]})); mret (bool_decide (pid ∈ c))
    else mret false
  | _ => lift Panic
  end.

Definition add_source (from : string) (m : monitoringProcessInfo) : monitoringProcessInfo :=
  MkMonitoring ({[ from ]} ∪ mp_source m) (mp_attached m).

(** A process that already has a source is started again all the same. *)
Definition AddSource (a : answers) (pid : Z) (from : string) : netm unit :=
  n ← get;
  m ← lift (must (monitoringProcesses n !! pid));
  _ ← (if bool_decide (mp_source m = ∅) then mret tt
       else set_monitoring (alter (add_source from) pid));
  _ ← (if addSSLProcess a
       then set_monitoring (alter (λ m, MkMonitoring (mp_source m) (mp_attached m + 1)) pid)
       else raise tt);
  _ ← control_put (control_Update a) pid;
  set_monitoring (alter (add_source from) pid).

(** Whether the process is to be deleted, and whether there was an error. *)
Definition RemoveSource (a : answers) (pid : Z) (from : string) : netm (bool * bool) :=
  n ← get;
  m ← lift (must (monitoringProcesses n !! pid));
  let source := mp_source m ∖ {[ from ]} in
  _ ← set_monitoring (alter (λ m, MkMonitoring source (mp_attached m)) pid);
  if negb (bool_decide (source = ∅)) then mret (false, false)
  else
    ok ← control_del (control_Delete a) pid;
    mret (true, negb (process_Close a) || negb ok).

(** [m] with its error turned into a value. *)
Definition try_net (m : netm unit) : netm bool := λ n,
  match m n with
  | (Ok _, n') => (Ok true, n')
  | (Err _, n') => (Ok false, n')
  | (Panic, n') => (Panic, n')
  end.

Definition AddWatchProcess (a : answers) (pid : Z) (from : string) : netm unit :=
  _ ← startBPFIfNeed a;
  n ← get;
  _ ← match monitoringProcesses n !! pid with
      | None => set_monitoring (<[pid := MkMonitoring ∅ 0]>)
      | Some _ => mret tt
      end;
  ok ← try_net (AddSource a pid from);
  if (ok : bool) then mret tt
  else
    '(deleteProcess, _) ← RemoveSource a pid from;
    _ ← (if (deleteProcess : bool) then set_monitoring (delete pid) else mret tt);
    raise tt.

(** Closing a linker that is nil is a nil dereference. *)
Definition shutdownBPF (a : answers) : netm unit :=
  n ← get;
  match bpf n with
  | BpfNil => mret tt
  | _ =>
    if negb (bool_decide (monitoringProcesses n = ∅)) then mret tt
    else if negb (bpfLinker n) then lift Panic
    else _ ← set_bpf BpfNil; if bpf_Close a then mret tt else raise tt
  end.

(** The shutdown is deferred, and its error logged. *)
Definition RemoveWatchProcess (a : answers) (pid : Z) (from : string) : netm unit :=
  n ← get;
  failed ← match monitoringProcesses n !! pid with
           | None => mret false
           | Some _ =>
             '(deleteProcess, failed) ← RemoveSource a pid from;
             _ ← (if (deleteProcess : bool) then set_monitoring (delete pid) else mret tt);
             mret failed
           end;
  _ ← try_net (shutdownBPF a);
  if (failed : bool) then raise tt else mret tt.

Definition ForceShutdownBPF (a : answers) : netm unit :=
  n ← get;
  let failed := negb (bool_decide (monitoringProcesses n = ∅)) && negb (process_Close a) in
  _ ← set_monitoring (λ _, ∅);
  ok ← try_net (shutdownBPF a);
  if failed || negb ok then raise tt else mret tt.

(** ** Runs of the watch *)

Definition watched (n : Net) (pid : Z) (from : string) : Prop :=
  ∃ m, monitoringProcesses n !! pid = Some m ∧ from ∈ mp_source m.

Inductive net_op : Type :=
| NetAdd (a : answers) (pid : Z) (from : string)
| NetRemove (a : answers) (pid : Z) (from : string)
| NetShutdown (a : answers).

Definition net_perform (op : net_op) : netm unit :=
  match op with
  | NetAdd a pid from => AddWatchProcess a pid from
  | NetRemove a pid from => RemoveWatchProcess a pid from
  | NetShutdown a => ForceShutdownBPF a
  end.

(** The operations one after another, each with whether it returned without an error; [None]
    is a panic. *)
Fixpoint net_run (ops : list net_op) (n : Net) : option (list bool * Net) :=
  match ops with
  | [] => Some ([], n)
  | op :: ops' =>
    match net_perform op n with
    | (Panic, _) => None
    | (r, n') =>
      '(oks, n'') ← net_run ops' n';
      Some ((match r with Ok _ => true | _ => false end) :: oks, n'')
    end
  end.

(** What a watch promises: a set of pairs of process and source. *)
Definition watch_step (S : gset (Z * string)) (step : net_op * bool) : gset (Z * string) :=
  match step with
  | (NetAdd _ pid from, true) => {[ (pid, from) ]} ∪ S
  | (NetAdd _ pid from, false) | (NetRemove _ pid from, _) => S ∖ {[ (pid, from) ]}
  | (NetShutdown _, _) => ∅
  end.

(** The objects could not be loaded when the operation tried. *)
Definition fails_to_load (op : net_op) : Prop :=
  match op with
  | NetAdd a _ _ => LoadBPFAndAssign a = false
  | _ => False
  end.

(** The processes the kernel may refuse to delete from the control map. *)
Definition refused (op : net_op) : gset Z :=
  match op with
  | NetAdd a pid _ | NetRemove a pid _ => if control_Delete a then ∅ else {[ pid ]}
  | NetShutdown _ => ∅
  end.

(** ** Laws of the operations *)

(** The control map has the watched processes, each with a source, and beside them only
    those of [R]; without loaded objects nothing is watched. *)
Definition net_inv (R : gset Z) (n : Net) : Prop :=
  (∀ pid m, monitoringProcesses n !! pid = Some m → mp_source m ≠ ∅) ∧
  match bpf n with
  | BpfLoaded c => bpfLinker n = true ∧ dom (monitoringProcesses n) ⊆ c ∧
      c ⊆ dom (monitoringProcesses n) ∪ R
  | _ => monitoringProcesses n = ∅
  end.

Lemma net_inv_mono R R' n : R ⊆ R' → net_inv R n → net_inv R' n.
Proof.
  intros HR [Hs Hb]. split; [done|]. destruct (bpf n); [done|done|].
  destruct Hb as (? & ? & ?). split_and!; [done|done|set_solver].
Qed.

(** What an operation does to the watched pairs of process and source, when it returned an
    error or not. *)
Definition net_effect (op : net_op) (ok : bool) (n n' : Net) : Prop :=
  ∀ q f, watched n' q f ↔
    match op with
    | NetAdd a pid from =>
      if ok then watched n q f ∨ (q = pid ∧ f = from)
      else watched n q f ∧ ¬ (q = pid ∧ f = from)
    | NetRemove a pid from => watched n q f ∧ ¬ (q = pid ∧ f = from)
    | NetShutdown _ => False
    end.

(** What is proved of an operation from a state [n]. *)
Definition performs (R : gset Z) (op : net_op) (n : Net) (r : res unit unit * Net) : Prop :=
  match r with
  | (Panic, _) => bpf n = BpfUnloaded
  | (r, n') =>
    net_inv (R ∪ refused op) n' ∧ net_effect op (match r with Ok _ => true | _ => false end) n n' ∧
    (bpf n' = BpfUnloaded → bpf n = BpfUnloaded ∨ fails_to_load op)
  end.

Lemma nothing_watched n : monitoringProcesses n = ∅ → ∀ q f, ¬ watched n q f.
Proof. intros He q f (m & Hm & _). by rewrite He, lookup_empty in Hm. Qed.

(** Shutting down keeps the watched processes, and panics only without a linker. *)
Lemma try_shutdown R a n : net_inv R n →
  match try_net (shutdownBPF a) n with
  | (Panic, _) => bpf n = BpfUnloaded
  | (Err _, _) => False
  | (Ok _, n') => net_inv R n' ∧ monitoringProcesses n' = monitoringProcesses n ∧
      (bpf n' = BpfUnloaded → bpf n = BpfUnloaded)
  end.
Proof.
  intros Hi. destruct n as [b l mp]. unfold try_net, shutdownBPF, set_bpf. step_act.
  cbn [bpf monitoringProcesses bpfLinker].
  destruct (bool_decide_reflect (mp = ∅)) as [He|He]; cbn [negb].
  - destruct Hi as [Hs Hb]. cbn in Hs, Hb.
    assert (Hnil : net_inv R (MkNet BpfNil l mp)) by done.
    destruct b as [| |c]; step_act; [done|..].
    + destruct l; cbn [negb]; step_act; [|done]. by destruct (bpf_Close a).
    + destruct Hb as (-> & _). cbn [negb]. step_act. by destruct (bpf_Close a).
  - destruct b; by step_act.
Qed.

(** *** Removing a source *)

(** Removing a source of a watched process, and the process when it was the last one. *)
Definition removed (pid : Z) (from : string) (mp : gmap Z monitoringProcessInfo) : gmap Z monitoringProcessInfo :=
  match mp !! pid with
  | None => mp
  | Some m =>
    if bool_decide (mp_source m ∖ {[ from ]} = ∅) then delete pid mp
    else <[pid := MkMonitoring (mp_source m ∖ {[ from ]}) (mp_attached m)]> mp
  end.

Definition remove_and_delete (a : answers) (pid : Z) (from : string) : netm bool :=
  '(deleteProcess, failed) ← RemoveSource a pid from;
  _ ← (if (deleteProcess : bool) then set_monitoring (delete pid) else mret tt);
  mret failed.

Lemma remove_then_raise a pid from n failed n' :
  remove_and_delete a pid from n = (Ok failed, n') →
  ('(deleteProcess, _) ← RemoveSource a pid from;
   _ ← (if (deleteProcess : bool) then set_monitoring (delete pid) else mret tt);
   (raise tt : netm unit)) n = (Err tt, n').
Proof.
  unfold remove_and_delete, mbind, act_bind.
  destruct (RemoveSource a pid from n) as [[[[] fl]| |] n1]; try done; intros Hr; injection Hr as _ <-; done.
Qed.

Lemma alter_known {V} (f : V → V) (pid : Z) (mp : gmap Z V) m :
  mp !! pid = Some m → alter f pid mp = <[pid := f m]> mp.
Proof.
  intros Hm. apply map_eq. intros q. destruct (decide (pid = q)) as [<-|Hne].
  - by rewrite lookup_alter_eq, lookup_insert_eq, Hm.
  - by rewrite lookup_alter_ne, lookup_insert_ne.
Qed.

Lemma remove_panics a pid from b l mp m :
  mp !! pid = Some m → (∀ c, b ≠ BpfLoaded c) → mp_source m ∖ {[ from ]} = ∅ →
  fst (remove_and_delete a pid from (MkNet b l mp)) = Panic.
Proof.
  intros Hm Hb He. unfold remove_and_delete, RemoveSource, set_monitoring. step_act.
  cbn [monitoringProcesses]. rewrite Hm. step_act. rewrite bool_decide_eq_true_2 by done. cbn [negb].
  unfold control_del. step_act. cbn [bpf]. destruct b as [| |c]; [by step_act..|]. by destruct (Hb c).
Qed.

Lemma remove_run a pid from mp m c :
  mp !! pid = Some m →
  ∃ failed, remove_and_delete a pid from (MkNet (BpfLoaded c) true mp) =
    (Ok failed, MkNet (BpfLoaded (if bool_decide (mp_source m ∖ {[ from ]} = ∅) && control_Delete a
                                  then c ∖ {[ pid ]} else c)) true (removed pid from mp)).
Proof.
  intros Hm. unfold remove_and_delete, RemoveSource, removed, set_monitoring. rewrite Hm. step_act.
  cbn [monitoringProcesses]. rewrite Hm. step_act. cbn [monitoringProcesses bpf bpfLinker].
  rewrite (alter_known _ _ _ _ Hm). destruct (bool_decide (mp_source m ∖ {[from]} = ∅)); cbn [negb andb].
  - unfold control_del, set_bpf. step_act. cbn [bpf]. destruct (control_Delete a); step_act;
      cbn [monitoringProcesses bpf bpfLinker]; rewrite delete_insert_eq; by eexists.
  - step_act. by eexists.
Qed.

Lemma removed_sources pid from mp :
  (∀ q m, mp !! q = Some m → q ≠ pid → mp_source m ≠ ∅) →
  ∀ q m, removed pid from mp !! q = Some m → mp_source m ≠ ∅.
Proof.
  intros Hs q mq. unfold removed. destruct (mp !! pid) as [m|] eqn:Hm.
  - destruct (bool_decide_reflect (mp_source m ∖ {[from]} = ∅)) as [He|He].
    + intros [Hne Hq]%lookup_delete_Some. eauto.
    + intros [[<- <-]|[Hne Hq]]%lookup_insert_Some; [done|]. eauto.
  - intros Hq. apply (Hs q mq Hq). congruence.
Qed.

Lemma removed_dom pid from mp m :
  mp !! pid = Some m →
  dom (removed pid from mp) = if bool_decide (mp_source m ∖ {[ from ]} = ∅) then dom mp ∖ {[ pid ]} else dom mp.
Proof.
  intros Hm. unfold removed. rewrite Hm. destruct (bool_decide _); [by rewrite dom_delete_L|].
  rewrite dom_insert_L. apply elem_of_dom_2 in Hm. set_solver.
Qed.

(** The invariant after a removal, from one that may miss a source of the process only. *)
Lemma removed_inv a R pid from mp m c :
  mp !! pid = Some m → (∀ q m, mp !! q = Some m → q ≠ pid → mp_source m ≠ ∅) →
  dom mp ∖ {[ pid ]} ⊆ c → (mp_source m ∖ {[ from ]} ≠ ∅ → pid ∈ c) → c ⊆ dom mp ∪ R →
  net_inv (R ∪ (if control_Delete a then ∅ else {[ pid ]}))
    (MkNet (BpfLoaded (if bool_decide (mp_source m ∖ {[ from ]} = ∅) && control_Delete a
                       then c ∖ {[ pid ]} else c)) true (removed pid from mp)).
Proof.
  intros Hm Hs Hlow Hpid Hup. split; cbn [bpf bpfLinker monitoringProcesses].
  { by apply removed_sources. }
  split; [done|]. rewrite (removed_dom pid from mp m Hm).
  destruct (bool_decide_reflect (mp_source m ∖ {[from]} = ∅)) as [He|He]; cbn [andb].
  - destruct (control_Delete a); split; intros q Hq.
    + set_solver.
    + set_solver.
    + set_solver.
    + destruct (decide (q = pid)); set_solver.
  - specialize (Hpid He). split; [|set_solver]. intros q Hq. destruct (decide (q = pid)); set_solver.
Qed.

Lemma removed_watched pid from mp b b' l l' q f :
  watched (MkNet b l (removed pid from mp)) q f ↔ watched (MkNet b' l' mp) q f ∧ ¬ (q = pid ∧ f = from).
Proof.
  unfold watched, removed. cbn. destruct (mp !! pid) as [m|] eqn:Hm.
  - destruct (bool_decide_reflect (mp_source m ∖ {[from]} = ∅)) as [He|He]; split.
    + intros (mq & [Hne Hq]%lookup_delete_Some & Hf). split; [by eauto|]. by intros [-> _].
    + intros [(mq & Hq & Hf) Hn]. exists mq. rewrite lookup_delete_Some. split_and!; try done.
      intros ->. rewrite Hm in Hq. injection Hq as <-. assert (f = from) by set_solver. naive_solver.
    + intros (mq & [[<- <-]|[Hne Hq]]%lookup_insert_Some & Hf).
      * cbn in Hf. split; [exists m; set_solver|]. intros [_ ->]. set_solver.
      * split; [by eauto|]. by intros [-> _].
    + intros [(mq & Hq & Hf) Hn]. destruct (decide (pid = q)) as [<-|Hne].
      * rewrite Hm in Hq. injection Hq as <-. rewrite lookup_insert_eq. eexists. split; [done|]. cbn.
        assert (f ≠ from) by naive_solver. set_solver.
      * rewrite lookup_insert_ne by done. eauto.
  - split; [|naive_solver]. intros (mq & Hq & Hf). split; [by eauto|]. intros [-> _]. congruence.
Qed.

Lemma RemoveWatch_exact R a pid from n :
  net_inv R n → performs R (NetRemove a pid from) n (RemoveWatchProcess a pid from n).
Proof.
  intros Hi. unfold RemoveWatchProcess. step_act.
  assert (Hend : ∀ (failed : bool) n1, net_inv (R ∪ refused (NetRemove a pid from)) n1 →
    (bpf n1 = BpfUnloaded → bpf n = BpfUnloaded) →
    (∀ q f, watched n1 q f ↔ watched n q f ∧ ¬ (q = pid ∧ f = from)) →
    performs R (NetRemove a pid from) n ((_ ← try_net (shutdownBPF a); if failed then raise tt else mret tt) n1)).
  { intros failed n1 Hi1 Hb1 Hw. pose proof (try_shutdown _ a n1 Hi1) as Ht. unfold mbind, act_bind.
    destruct (try_net (shutdownBPF a) n1) as [[ok|e|] n2]; [|done|by apply Hb1].
    destruct Ht as (Hi2 & Hm2 & Hb2).
    assert (Hw2 : net_effect (NetRemove a pid from) true n n2).
    { intros q f. rewrite <-(Hw q f). unfold watched. by rewrite Hm2. }
    destruct failed; (split_and!; [done|done|]); intros ?; left; auto. }
  destruct (monitoringProcesses n !! pid) as [m|] eqn:Hm.
  - destruct n as [b l mp]. cbn [monitoringProcesses] in Hm. pose proof Hi as [Hs Hb]. cbn in Hb, Hs.
    destruct b as [| |c]; [by rewrite Hb, lookup_empty in Hm..|]. destruct Hb as (-> & Hlow & Hup).
    destruct (remove_run a pid from mp m c Hm) as [failed Hrun].
    unfold remove_and_delete in Hrun. rewrite (bind_ok _ _ _ _ _ Hrun). apply Hend; [|done|].
    + apply removed_inv; [done|by eauto|set_solver| |done]. intros _. apply elem_of_dom_2 in Hm. set_solver.
    + intros q f. apply removed_watched.
  - step_act. apply (Hend false n); [eapply net_inv_mono; [|exact Hi]; set_solver|done|].
    intros q f. split; [|naive_solver]. intros Hw. split; [done|].
    intros [-> _]. destruct Hw as (m & Hq & _). congruence.
Qed.

(** *** Adding a source *)

(** [AddSource]: the source is there when it succeeds; when it fails, the control map is as
    it was, and the source is there only if the process had one. *)
Lemma AddSource_run a pid from mp m c :
  mp !! pid = Some m →
  ∃ att, AddSource a pid from (MkNet (BpfLoaded c) true mp) =
    if addSSLProcess a && control_Update a then
      (Ok tt, MkNet (BpfLoaded ({[ pid ]} ∪ c)) true (<[pid := MkMonitoring ({[ from ]} ∪ mp_source m) att]> mp))
    else
      (Err tt, MkNet (BpfLoaded c) true
         (<[pid := MkMonitoring (if bool_decide (mp_source m = ∅) then ∅ else {[ from ]} ∪ mp_source m) att]> mp)).
Proof.
  intros Hm. unfold AddSource, set_monitoring, control_put, set_bpf. step_act. cbn [monitoringProcesses].
  rewrite Hm. cbn [must]. rewrite bind_lift_ok.
  destruct (bool_decide_reflect (mp_source m = ∅)) as [He|He];
    destruct (addSSLProcess a), (control_Update a); cbn [andb];
    unfold mbind, act_bind, modify, mret, act_ret, raise, get;
    cbn [monitoringProcesses bpf bpfLinker]; rewrite ?(alter_known _ pid mp m Hm);
    rewrite ?(alter_known _ pid (<[pid := _]> mp) _ (lookup_insert_eq _ _ _)), ?insert_insert_eq;
    rewrite ?(alter_known _ pid (<[pid := _]> mp) _ (lookup_insert_eq _ _ _)), ?insert_insert_eq.
  - by exists (mp_attached m + 1).
  - exists (mp_attached m + 1). by rewrite He.
  - exists (mp_attached m). rewrite <- He. rewrite insert_id; [done|]. rewrite Hm. by destruct m.
  - exists (mp_attached m). rewrite <- He. rewrite insert_id; [done|]. rewrite Hm. by destruct m.
  - exists (mp_attached m + 1). unfold add_source. cbn. do 3 f_equal. f_equal. set_solver.
  - by exists (mp_attached m + 1).
  - by exists (mp_attached m).
  - by exists (mp_attached m).
Qed.

(** A process of the map, or a new one without a source, before its source is added. *)
Definition prepared (pid : Z) (mp : gmap Z monitoringProcessInfo) : gmap Z monitoringProcessInfo :=
  match mp !! pid with
  | None => <[pid := MkMonitoring ∅ 0]> mp
  | Some _ => mp
  end.

Lemma prepared_run {B} pid mp l c (k : unit → netm B) :
  (match mp !! pid with
   | None => set_monitoring (<[pid := MkMonitoring ∅ 0]>)
   | Some _ => mret tt
   end ≫= k) (MkNet c l mp) = k tt (MkNet c l (prepared pid mp)).
Proof. unfold prepared. by destruct (mp !! pid). Qed.

(** The sources a process has before it is prepared. *)
Definition sources (pid : Z) (mp : gmap Z monitoringProcessInfo) : gset string :=
  default ∅ (mp_source <$> mp !! pid).

Lemma prepared_known pid mp : ∃ m, prepared pid mp !! pid = Some m ∧ mp_source m = sources pid mp ∧
  ∀ m', <[pid := m']> (prepared pid mp) = <[pid := m']> mp.
Proof.
  unfold prepared, sources. destruct (mp !! pid) as [m|] eqn:Hp; [by exists m|].
  exists (MkMonitoring ∅ 0). rewrite lookup_insert_eq. split_and!; [done..|]. intros m'.
  by rewrite insert_insert_eq.
Qed.

Lemma added_watched pid mp (S : gset string) att b b' l l' q f :
  watched (MkNet b l (<[pid := MkMonitoring S att]> mp)) q f
  ↔ watched (MkNet b' l' mp) q f ∧ q ≠ pid ∨ q = pid ∧ f ∈ S.
Proof.
  unfold watched. cbn. destruct (decide (pid = q)) as [<-|Hne].
  - rewrite lookup_insert_eq. split; [intros (m & [= <-] & Hf); by right|].
    intros [[_ ?]|[_ ?]]; [done|]. by eexists.
  - rewrite lookup_insert_ne by done. naive_solver.
Qed.

Lemma watched_sources pid mp b l f : watched (MkNet b l mp) pid f ↔ f ∈ sources pid mp.
Proof.
  unfold watched, sources. cbn. destruct (mp !! pid) as [m|]; cbn; [naive_solver|].
  split; [by intros (? & ? & _)|set_solver].
Qed.

Lemma sources_known R pid b l mp : net_inv R (MkNet b l mp) → sources pid mp ≠ ∅ → pid ∈ dom mp.
Proof. unfold sources. intros _ H. apply elem_of_dom. by destruct (mp !! pid). Qed.

(** The objects are there after [startBPFIfNeed], unless a probe could not be attached or
    they could not be loaded. *)
Lemma start_run R a n :
  net_inv R n →
  match startBPFIfNeed a n with
  | (Panic, _) => False
  | (Err _, n') => n' = MkNet (if LoadBPFAndAssign a then BpfNil else BpfUnloaded)
      (if LoadBPFAndAssign a then false else bpfLinker n) ∅ ∧ monitoringProcesses n = ∅
  | (Ok _, n') => monitoringProcesses n' = monitoringProcesses n ∧ net_inv R n' ∧
      (bpf n' = BpfUnloaded → bpf n = BpfUnloaded) ∧ bpf n' ≠ BpfNil
  end.
Proof.
  destruct n as [b l mp]. intros Hi. unfold startBPFIfNeed, set_bpf, set_linker. step_act. cbn [bpf].
  destruct b as [| |c]; [|by step_act..].
  step_act. cbn [monitoringProcesses bpf bpfLinker]. destruct Hi as [Hs Hb]. cbn in Hs, Hb. subst mp.
  destruct (LoadBPFAndAssign a); cbn [negb]; step_act; cbn [monitoringProcesses bpf bpfLinker]; [|done].
  destruct (HasError a); step_act; cbn [monitoringProcesses bpf bpfLinker]; [done|].
  split_and!; [done| |done|done]. split; [done|]. cbn. set_solver.
Qed.

Lemma try_of {A} (m : netm unit) n r n' (k : bool → netm A) :
  m n = (r, n') →
  (try_net m ≫= k) n = match r with Ok _ => k true n' | Err _ => k false n' | Panic => (Panic, n') end.
Proof. intros Hm. unfold mbind, act_bind, try_net. rewrite Hm. by destruct r. Qed.

Lemma bind_cases {A B} (m : netm A) (f : A → netm B) n :
  (m ≫= f) n = match m n with
               | (Ok x, n') => f x n'
               | (Err e, n') => (Err e, n')
               | (Panic, n') => (Panic, n')
               end.
Proof. done. Qed.

(** A watch that fails leaves the others as they were, without the pair. *)
Lemma failed_add R a pid from c mp att m :
  prepared pid mp !! pid = Some m → mp_source m = sources pid mp →
  (∀ m', <[pid := m']> (prepared pid mp) = <[pid := m']> mp) →
  net_inv R (MkNet (BpfLoaded c) true mp) →
  let mp' := <[pid := MkMonitoring (if bool_decide (mp_source m = ∅) then ∅ else {[ from ]} ∪ mp_source m) att]>
               (prepared pid mp) in
  ∃ failed n', remove_and_delete a pid from (MkNet (BpfLoaded c) true mp') = (Ok failed, n') ∧
    net_inv (R ∪ refused (NetAdd a pid from)) n' ∧ bpf n' ≠ BpfUnloaded ∧
    ∀ q f, watched n' q f ↔ watched (MkNet (BpfLoaded c) true mp) q f ∧ ¬ (q = pid ∧ f = from).
Proof.
  intros Hm Hsrc Hins Hi mp'. pose proof Hi as [Hs (_ & Hlow & Hup)]. cbn in Hs, Hlow, Hup.
  set (src := if bool_decide (mp_source m = ∅) then ∅ else {[ from ]} ∪ mp_source m) in *.
  assert (Hmp' : mp' = <[pid := MkMonitoring src att]> mp) by apply Hins. clearbody mp'. subst mp'.
  destruct (remove_run a pid from (<[pid := MkMonitoring src att]> mp) _ c (lookup_insert_eq _ _ _)) as [failed Hrun].
  eexists failed, _. split; [exact Hrun|]. cbn [mp_source]. split_and!; [| |].
  - apply (removed_inv a R pid from _ (MkMonitoring src att)); cbn [mp_source].
    + by rewrite lookup_insert_eq.
    + intros q mq Hq Hne. rewrite lookup_insert_ne in Hq by done. eauto.
    + rewrite dom_insert_L. set_solver.
    + intros Hne. assert (Hp : pid ∈ dom mp); [|set_solver].
      apply (sources_known R pid (BpfLoaded c) true mp Hi). rewrite <-Hsrc. intros He.
      apply Hne. unfold src. rewrite He, bool_decide_eq_true_2 by done. set_solver.
    + rewrite dom_insert_L. set_solver.
  - done.
  - intros q f. rewrite (removed_watched _ _ _ _ BpfNil _ true), (added_watched _ _ _ _ _ (BpfLoaded c) _ true).
    destruct (decide (q = pid)) as [->|Hne]; [|naive_solver].
    rewrite watched_sources, <-Hsrc. unfold src.
    destruct (bool_decide_reflect (mp_source m = ∅)) as [He|He]; [|set_solver]. rewrite He. set_solver.
Qed.

(** Without the objects of a failed load, an add always panics. *)
Lemma add_unloaded a pid from l :
  fst ((ok ← try_net (AddSource a pid from);
        if (ok : bool) then mret tt
        else
          '(deleteProcess, _) ← RemoveSource a pid from;
          _ ← (if (deleteProcess : bool) then set_monitoring (delete pid) else mret tt);
          (raise tt : netm unit)) (MkNet BpfUnloaded l {[ pid := MkMonitoring ∅ 0 ]})) = Panic.
Proof.
  unfold mbind at 1, act_bind, try_net, AddSource, set_monitoring. step_act. cbn [monitoringProcesses].
  rewrite lookup_singleton_eq. step_act. cbn [mp_source]. rewrite bool_decide_eq_true_2 by done. step_act.
  destruct (addSSLProcess a).
  - step_act. unfold control_put. step_act. cbn [bpf]. by step_act.
  - cbn. unfold RemoveSource, set_monitoring. step_act. cbn [monitoringProcesses].
    rewrite lookup_singleton_eq. step_act. cbn [mp_source]. rewrite bool_decide_eq_true_2 by set_solver.
    cbn [negb]. unfold control_del. step_act. cbn [bpf]. by step_act.
Qed.

Lemma AddWatch_exact R a pid from n :
  net_inv R n → performs R (NetAdd a pid from) n (AddWatchProcess a pid from n).
Proof.
  intros Hi. unfold AddWatchProcess. pose proof (start_run R a n Hi) as Hs.
  rewrite bind_cases. destruct (startBPFIfNeed a n) as [[[]|[]|] n1]; [| |done].
  2: { destruct Hs as [-> Hnil]. cbn [performs]. split_and!.
       - split; [done|]. cbn. by destruct (LoadBPFAndAssign a).
       - intros q f. split; [intros (m & Hm & _); by cbn in Hm; rewrite lookup_empty in Hm|].
         intros [Hw _]. by apply nothing_watched in Hw.
       - cbn. destruct (LoadBPFAndAssign a) eqn:Hl; [done|]. by right. }
  destruct Hs as (Hmp & Hi1 & Hb1 & Hn1). rewrite bind_get.
  destruct n1 as [b l mp]. cbn [monitoringProcesses bpf] in *. rewrite prepared_run.
  destruct b as [| |c]; [done| |].
  { destruct Hi1 as [_ Hnil]. cbn in Hnil. subst mp. pose proof (add_unloaded a pid from l) as Hp.
    rewrite Hnil. unfold prepared. rewrite lookup_empty.
    change (<[pid := MkMonitoring ∅ 0]> ∅) with ({[ pid := MkMonitoring ∅ 0 ]} : gmap Z monitoringProcessInfo).
    destruct ((ok ← try_net _; _) _) as [r n2]. cbn in Hp. subst r. cbn. auto. }
  pose proof Hi1 as [_ (Hl & Hlow & Hup)]. cbn in Hl, Hlow, Hup. subst l.
  destruct (prepared_known pid mp) as (m & Hm & Hsrc & Hins).
  destruct (AddSource_run a pid from _ m c Hm) as [att Hadd].
  assert (Hwn : ∀ q f, watched n q f ↔ watched (MkNet (BpfLoaded c) true mp) q f).
  { intros q f. unfold watched. cbn. by rewrite Hmp. }
  destruct (addSSLProcess a && control_Update a); rewrite (try_of _ _ _ _ _ Hadd).
  - rewrite act_ret_run. split_and!; [|intros q f|done].
    + rewrite Hins. apply (net_inv_mono R); [set_solver|]. destruct Hi1 as [Hs1 _]. split; cbn.
      * intros q mq [[<- <-]|[_ Hq]]%lookup_insert_Some; [cbn; set_solver|by eapply Hs1].
      * rewrite dom_insert_L. split_and!; set_solver.
    + rewrite Hins, Hwn, (added_watched _ _ _ _ _ (BpfLoaded c) _ true), Hsrc.
      destruct (decide (q = pid)) as [->|Hne]; [rewrite watched_sources; set_solver|naive_solver].
  - destruct (failed_add R a pid from c mp att m Hm Hsrc Hins Hi1) as (failed & n' & Hrun & Hi' & Hb' & Hw).
    rewrite (remove_then_raise _ _ _ _ _ _ Hrun). split_and!; [done| |done].
    intros q f. rewrite Hw, Hwn. done.
Qed.

(** Shutting down without a watched process. *)
Lemma shutdown_empty a b l :
  (∀ c, b = BpfLoaded c → l = true) →
  match try_net (shutdownBPF a) (MkNet b l ∅) with
  | (Panic, _) => b = BpfUnloaded
  | (Err _, _) => False
  | (Ok _, n') => n' = MkNet BpfNil l ∅
  end.
Proof.
  intros Hl. unfold try_net, shutdownBPF, set_bpf. step_act. cbn [bpf monitoringProcesses bpfLinker].
  rewrite bool_decide_eq_true_2 by done. cbn [negb].
  destruct b as [| |c]; [by step_act|..]; [|rewrite (Hl c eq_refl)];
    (destruct l; cbn [negb]; step_act; [by destruct (bpf_Close a)|done]) || (step_act; by destruct (bpf_Close a)).
Qed.

Lemma Shutdown_exact R a n : net_inv R n → performs R (NetShutdown a) n (ForceShutdownBPF a n).
Proof.
  intros [_ Hb]. unfold ForceShutdownBPF, set_monitoring. step_act.
  set (failed := _ && negb (process_Close a)). clearbody failed.
  assert (Hl : ∀ c, bpf n = BpfLoaded c → bpfLinker n = true).
  { intros c Hc. rewrite Hc in Hb. apply Hb. }
  pose proof (shutdown_empty a (bpf n) (bpfLinker n) Hl) as Hs. rewrite bind_cases.
  destruct (try_net _ _) as [[ok|e|] n1]; [|done|done]. subst n1.
  destruct (failed || negb ok); (split_and!; [done| |done]); intros q f; split; try done; intros (m & Hm & _);
    by cbn in Hm; rewrite lookup_empty in Hm.
Qed.

Lemma perform_exact R op n : net_inv R n → performs R op n (net_perform op n).
Proof.
  intros Hi. destruct op as [a pid from|a pid from|a]; cbn [net_perform].
  - by apply AddWatch_exact.
  - by apply RemoveWatch_exact.
  - by apply Shutdown_exact.
Qed.

(** A state without objects of a failed load: while loading works, no operation panics. *)
Definition net_ready (n : Net) : Prop := (∃ R, net_inv R n) ∧ bpf n ≠ BpfUnloaded.

Lemma new_net_ready : net_ready NewNet.
Proof. split; [|done]. exists ∅. split; [by intros q m Hq; cbn in Hq; rewrite lookup_empty in Hq|done]. Qed.

Lemma net_ready_step op n :
  net_ready n → ¬ fails_to_load op →
  fst (net_perform op n) ≠ Panic ∧ net_ready (snd (net_perform op n)).
Proof.
  intros [[R Hi] Hb] Hl. pose proof (perform_exact R op n Hi) as Hp.
  destruct (net_perform op n) as [[u|u|] n']; cbn in Hp |- *; [..|done];
    destruct Hp as (Hi' & _ & Hu); (split; [done|]); (split; [by eexists|]); intros [?|?]%Hu; done.
Qed.

(** ** The watch refines a set of pairs *)

Definition watch_rel (R : gset Z) (n : Net) (S : gset (Z * string)) : Prop :=
  net_inv R n ∧ ∀ pid from, watched n pid from ↔ (pid, from) ∈ S.

Lemma new_watch_rel : watch_rel ∅ NewNet ∅.
Proof.
  split; [split; [by intros q m Hq; cbn in Hq; rewrite lookup_empty in Hq|done]|].
  intros q f. split; [|set_solver]. intros Hw. by apply nothing_watched in Hw.
Qed.

Lemma effect_step R op ok n n' S :
  net_inv (R ∪ refused op) n' → net_effect op ok n n' → watch_rel R n S →
  watch_rel (R ∪ refused op) n' (watch_step S (op, ok)).
Proof.
  intros Hi' He [_ Hs]. split; [done|]. intros q f. rewrite (He q f).
  destruct op as [a pid from|a pid from|a], ok; cbn; rewrite ?Hs; set_solver.
Qed.

Lemma control_of_watch R n S : watch_rel R n S →
  match bpf n with
  | BpfLoaded control => set_map fst S ⊆ control ∧ control ⊆ set_map fst S ∪ R
  | _ => S = ∅
  end.
Proof.
  intros [[Hs Hb] Hw].
  assert (Hdom : dom (monitoringProcesses n) = set_map fst S).
  { apply set_eq. intros q. rewrite elem_of_dom, elem_of_map. split.
    - intros [m Hm]. destruct (set_choose_L _ (Hs q m Hm)) as [f Hf]. exists (q, f).
      split; [done|]. apply Hw. by exists m.
    - intros ([q' f] & -> & (m & Hm & _)%Hw). by exists m. }
  assert (Hnone : monitoringProcesses n = ∅ → S = ∅).
  { intros He. apply set_eq. intros [q f]. rewrite <- Hw. split; [|set_solver].
    intros H. by apply nothing_watched in H. }
  destruct (bpf n) as [| |c]; [auto..|]. rewrite <-Hdom. destruct Hb as (_ & ? & ?). done.
Qed.

(** What is proved of a run from [n]; a panic needs a load that failed. *)
Lemma net_run_exact ops R n S :
  watch_rel R n S →
  match net_run ops n with
  | None => bpf n = BpfUnloaded ∨ Exists fails_to_load ops
  | Some (oks, n') => length oks = length ops ∧
      watch_rel (R ∪ ⋃ (refused <$> ops)) n' (foldl watch_step S (zip ops oks))
  end.
Proof.
  revert R n S. induction ops as [|op ops IH]; intros R n S Hrel; cbn [net_run].
  { split; [done|]. cbn. by rewrite (right_id_L ∅ (∪)). }
  pose proof (perform_exact R op n (proj1 Hrel)) as Hp.
  destruct (net_perform op n) as [r n1]. destruct r as [u|u|]; cbn [performs] in Hp; [..|by left];
    destruct Hp as (Hi & He & Hu);
    specialize (IH _ _ _ (effect_step _ _ _ _ _ _ Hi He Hrel));
    (destruct (net_run ops n1) as [[oks n']|]; cbn;
     [destruct IH as [Hlen Hr]; split; [lia|]; cbn in Hr; by rewrite (assoc_L (∪))|
      destruct IH as [[?|?]%Hu|?]; [by left|right; by left|right; by right]]).
Qed.

(** C16: However the probes, the kernel and the loading of the programs answer, a sequence of
    adds, removes and shutdowns panics only if an add before or in it could not load the
    programs.  The processes watched for each source are exactly what the outcomes of the
    operations say: an add that succeeded adds its pair, one that failed leaves none behind
    (not even one that was there), a remove takes its pair away.  The control map of the
    kernel holds every process that some source watches, and another process only if the
    kernel refused to delete it; the programs are loaded while something is watched. *)
Theorem watch_follows_outcomes ops :
  match net_run ops NewNet with
  | None => Exists fails_to_load ops
  | Some (oks, n) =>
    length oks = length ops ∧
    let S := foldl watch_step ∅ (zip ops oks) in
    (∀ pid from, watched n pid from ↔ (pid, from) ∈ S) ∧
    match bpf n with
    | BpfLoaded control => set_map fst S ⊆ control ∧ control ⊆ set_map fst S ∪ ⋃ (refused <$> ops)
    | _ => S = ∅
    end
  end.
Proof.
  pose proof (net_run_exact ops ∅ NewNet ∅ new_watch_rel) as Hr.
  destruct (net_run ops NewNet) as [[oks n]|]; [|by destruct Hr as [?|?]].
  destruct Hr as [Hlen Hrel]. rewrite (left_id_L ∅ (∪)) in Hrel. split; [done|]. split; [apply Hrel|].
  by apply control_of_watch.
Qed.

(** ** Samples *)

Module NetSamples.

Definition works : answers := MkAnswers true false true true true true true.
Definition no_probe : answers := MkAnswers true false false true true true true.
Definition no_load : answers := MkAnswers false false true true true true true.
Definition no_delete : answers := MkAnswers true false true true true false true.

(** The second source of a process attaches the TLS probes a second time. *)
Example second_source_attaches_again :
  (mp_attached <$> monitoringProcesses
     (net_perform (NetAdd works 7 "time") (net_perform (NetAdd works 7 "rate") NewNet).2).2 !! 7) = Some 2.
Proof. reflexivity. Qed.

(** Adding a source again that is already there, and failing, ends its watch. *)
Example failed_repeat_ends_the_watch :
  net_run [NetAdd works 7 "rate"; NetAdd no_probe 7 "rate"] NewNet
  = Some ([true; false], MkNet (BpfLoaded ∅) true ∅).
Proof. reflexivity. Qed.

(** Objects that could not be loaded are taken for loaded by the next add, and their nil
    linker is closed by the next remove. *)
Example add_after_failed_load :
  net_run [NetAdd no_load 7 "rate"; NetAdd works 7 "rate"] NewNet = None.
Proof. reflexivity. Qed.

Example remove_after_failed_load :
  net_run [NetAdd no_load 7 "rate"; NetRemove works 7 "rate"] NewNet = None.
Proof. reflexivity. Qed.

(** A process the kernel did not delete stays in the control map, without a source. *)
Example refused_process_stays :
  (λ r, (fst r, bpf (snd r))) <$> net_run [NetAdd works 7 "rate"; NetAdd works 8 "rate"; NetRemove no_delete 7 "rate"] NewNet
  = Some ([true; true; false], BpfLoaded {[ 7; 8 ]}).
Proof. by vm_compute. Qed.

End NetSamples.
