(* ===== verification/Checkers.v ===== *)
(** * The checkers of continuous profiling

    src/pkg/profiling/continuous/checker: a checker keeps a time window of Windows.v for
    each process it has a policy for ([BaseChecker], common/checker.go), fills it with the
    values it fetches and reports a cause for each policy whose threshold is reached.  There
    are checkers of a process ([ProcessBasedChecker]), of the system
    ([SystemBasedChecker]) and of HTTP requests ([HTTPBasedChecker]); the metrics of the
    windows go through the [MetricsAppender] of base/metrics.go.

    The windows are shared between the information of a process before and after a
    synchronization, so they live in a store.  A process is an address, read through
    [Processes]; a float64 is a [spec_float] with the precision of binary64. *)

From stdpp Require Import base gmap list strings.
From Stdlib Require Import ZArith Lia.
From Stdlib Require Import Floats.SpecFloat.
From S2P Require Import Prelude Interfaces GoStrings ProcessStorage Windows NetWatch.

(** ** Numbers *)

Definition float64 : Type := spec_float.
Definition float_of_int (z : Z) : float64 := binary_normalize 53 1024 z 0 false.
Definition float_div : float64 → float64 → float64 := SFdiv 53 1024.
Definition float_mul : float64 → float64 → float64 := SFmul 53 1024.
Definition float_ge (a b : float64) : bool := SFleb b a.

(** The constraint [numbers]: what a checker uses of its values. *)
Class Numbers (V : Type) := {
  num_zero :: Zero V;
  num_ge : V → V → bool;
  num_float : V → float64
}.

Global Instance int32_numbers : Numbers Z :=
  {| num_zero := 0; num_ge a b := b <=? a; num_float := float_of_int |}.
Global Instance float64_numbers : Numbers float64 :=
  {| num_zero := S754_zero false; num_ge := float_ge; num_float v := v |}.

(** ** Processes and policies *)

Class Processes := {
  p_ID : positive → string;
  p_Pid : positive → Z;
  p_Entity : positive → ProcessEntity
}.

Record Policy : Type := MkPolicy {
  TargetProfiling : TargetProfilingType;
  Items : gmap string PolicyItem
}.

Record SyncPolicyWithProcesses : Type := MkSync {
  sp_Policy : Policy;
  sp_Processes : gmap string positive
}.

(** ** Causes (common/causes.go) *)

Inductive ThresholdCause : Type :=
| SingleValueCause (process : positive) (policy : PolicyItem) (monitorType : Z)
    (threshold current : float64)
| URICause (IsRegex : bool) (URI : string) (process : positive) (policy : PolicyItem)
    (causeType : Z) (threshold current : float64).

Definition cause_Process (c : ThresholdCause) : positive :=
  match c with
  | SingleValueCause p _ _ _ _ => p
  | URICause _ _ p _ _ _ _ => p
  end.

Definition FromPolicy (c : ThresholdCause) : PolicyItem :=
  match c with
  | SingleValueCause _ i _ _ _ => i
  | URICause _ _ _ i _ _ _ => i
  end.

Inductive transfer_cause : Type :=
| TransferSingleValue (type : Z) (threshold current : float64)
| TransferRegex (type : Z) (regex : string) (threshold current : float64)
| TransferPath (type : Z) (path : string) (threshold current : float64).

Definition GenerateTransferCause (c : ThresholdCause) : transfer_cause :=
  match c with
  | SingleValueCause _ _ type threshold current => TransferSingleValue type threshold current
  | URICause isRegex uri _ _ type threshold current =>
    if isRegex then TransferRegex type uri threshold current
    else TransferPath type uri threshold current
  end.

(** ** The metrics of the checkers (base/metrics.go) *)

Record MeterData : Type := MkMeterData {
  md_Service : string;
  md_Instance : string;
  md_Timestamp : Z;
  md_Name : string;
  md_Labels : list (string * string);
  md_Value : float64
}.

Record MetricsAppender : Type := MkAppender {
  ma_prefix : string;
  ma_timestamp : Z;
  meters : gmap (string * string) (list MeterData)
}.

Definition NewMetricsAppender (prefix : string) (now : Z) : MetricsAppender :=
  MkAppender prefix now ∅.

Definition formatName (m : MetricsAppender) (name : string) : string :=
  ma_prefix m +:+ "_" +:+ name.

Section appender.
Context `{!RangeOrder} `{!Processes}.

Definition AppendProcessSingleValue (name : string) (p : positive) (labels : gmap string string)
    (value : float64) (m : MetricsAppender) : MetricsAppender :=
  let e := p_Entity p in
  let transformLabels :=
    range labels ++ [("process_name", ent_ProcessName e); ("layer", Layer e)] in
  let metadata := (ent_ServiceName e, InstanceName e) in
  let data := MkMeterData (ent_ServiceName e) (InstanceName e) (ma_timestamp m)
                (formatName m name) transformLabels value in
  MkAppender (ma_prefix m) (ma_timestamp m)
    (<[metadata := default [] (meters m !! metadata) ++ [data]]> (meters m)).

(** The stream is opened, sent to and closed; [send] says which collections it takes. *)
Fixpoint send_meters (send : list MeterData → bool) (l : list ((string * string) * list MeterData))
    : list (list MeterData) * bool :=
  match l with
  | [] => ([], true)
  | (_, collection) :: l' =>
    if send collection then
      let '(sent, ok) := send_meters send l' in (collection :: sent, ok)
    else ([], false)
  end.

(** The collections the server got, and whether the flush failed. *)
Definition meters_Flush (opens : bool) (send : list MeterData → bool) (closes : bool)
    (m : MetricsAppender) : list (list MeterData) * bool :=
  if bool_decide (meters m = ∅) then ([], true)
  else if negb opens then ([], false)
  else
    let '(sent, ok) := send_meters send (range (meters m)) in
    if ok then (sent, closes) else (sent, false).

End appender.

(** ** The state of a checker: its information by pid and the windows

    [network] is the package network that the HTTP checkers share: a method gets it along
    with its checker and leaves it there. *)

Record Checker (Info W : Type) : Type := MkChecker {
  PidWithInfos : gmap Z Info;
  win_heap : gmap positive (TimeWindows W);
  next_win : positive;
  network : Net
}.
Arguments MkChecker {Info W} _ _ _ _.
Arguments PidWithInfos {Info W} _.
Arguments win_heap {Info W} _.
Arguments next_win {Info W} _.
Arguments network {Info W} _.

Definition with_network {Info W} (n : Net) (s : Checker Info W) : Checker Info W :=
  MkChecker (PidWithInfos s) (win_heap s) (next_win s) n.

Section loops.
Context {S E A B : Type}.

(** A loop whose body is a method. *)
Fixpoint fold_act (f : B → A → act S E B) (b : B) (l : list A) : act S E B :=
  match l with
  | [] => mret b
  | x :: l' => b' ← f b x; fold_act f b' l'
  end.

End loops.

Section base_checker.
Context `{!RangeOrder} `{!Processes}.
Context {Info D R W : Type} `{!WindowData D R W}.
Local Notation C := (Checker Info W).
Local Notation method := (act C Empty_set).

Definition new_window (items : list PolicyItem) : method positive := λ s,
  (Ok (next_win s),
   MkChecker (PidWithInfos s) (<[next_win s := NewTimeWindows items]> (win_heap s))
     (Pos.succ (next_win s)) (network s)).

(** A call of a method of a window; a nil window is a nil dereference. *)
Definition on_window {A} (l : option positive) (f : TimeWindows W → res Empty_set (A * TimeWindows W))
    : method A := λ s,
  match (l ← l; win_heap s !! l) with
  | Some t =>
    match f t with
    | Ok (a, t') =>
      (Ok a, MkChecker (PidWithInfos s)
               (match l with Some l => <[l := t']> (win_heap s) | None => win_heap s end)
               (next_win s) (network s))
    | Err e => (Err e, s)
    | Panic => (Panic, s)
    end
  | None => (Panic, s)
  end.

Definition scale_window (l : option positive) (items : list PolicyItem) : method unit :=
  on_window l (λ t, Ok (tt, ScalePeriod items t)).

(** The items of each process, by its address. *)
Definition process_items (getEnabledItem : gmap string PolicyItem → option PolicyItem)
    (policies : list SyncPolicyWithProcesses) : gmap positive (list PolicyItem) :=
  foldl (λ m sp,
           match getEnabledItem (Items (sp_Policy sp)) with
           | None => m
           | Some item =>
             foldl (λ m '(_, p), <[p := default [] (m !! p) ++ [item]]> m) m (range (sp_Processes sp))
           end) ∅ policies.

Definition SyncPolicies (InfoGenerator : positive → option Info → list PolicyItem → method Info)
    (policies : list SyncPolicyWithProcesses)
    (getEnabledItem : gmap string PolicyItem → option PolicyItem)
    (notify : option (Z → bool → method unit)) : method unit :=
  s ← get;
  let notified pid del := match notify with Some f => f pid del | None => mret tt end in
  result ← fold_act (λ result '(p, items),
      let pid := p_Pid p in
      _ ← (if bool_decide (PidWithInfos s !! pid = None) then notified pid false else mret tt);
      info ← InfoGenerator p (PidWithInfos s !! pid) items;
      mret (<[pid := info]> result))
    ∅ (range (process_items getEnabledItem policies));
  _ ← fold_act (λ _ '(key, _),
      if bool_decide ((result : gmap Z Info) !! key = None) then notified key true else mret tt)
    tt (range (PidWithInfos s));
  modify (λ s, MkChecker result (win_heap s) (next_win s) (network s)).

End base_checker.

(** ** Checkers of a process (common/process_checker.go) *)

Record ProcessBasedInfo (V : Type) : Type := MkProcessInfo {
  pb_Process : positive;
  pb_Windows : positive;
  pb_Policies : list (V * PolicyItem)
}.
Arguments MkProcessInfo {V} _ _ _.
Arguments pb_Process {V} _.
Arguments pb_Windows {V} _.
Arguments pb_Policies {V} _.

Section threshold_item.
Context {V : Type} (CheckType : string) (ThresholdGenerate : string → option V).

(** The item of a policy the checker is for, when its threshold parses. *)
Definition enabled_item (items : gmap string PolicyItem) : option PolicyItem :=
  match items !! CheckType with
  | None => None
  | Some item =>
    match ThresholdGenerate (Threshold item) with
    | None => None
    | Some _ => Some item
    end
  end.

End threshold_item.

Section process_checker.
Context `{!RangeOrder} `{!Processes} {V : Type} `{!Numbers V}.
Context (CheckType : string) (MonitorType : Z) (ThresholdGenerate : string → option V)
  (DataGenerate : positive → option V).
Local Notation W := (LatestWindowData V).
Local Notation C := (Checker (ProcessBasedInfo V) W).
Local Notation method := (act C Empty_set).

Definition threshold_of (i : PolicyItem) : V := default num_zero (ThresholdGenerate (Threshold i)).

Definition NewProcessBasedChecker : C := MkChecker ∅ ∅ 1 NewNet.

(** The generator of the information of a process: the older window is kept and scaled. *)
Definition process_info (p : positive) (older : option (ProcessBasedInfo V))
    (items : list PolicyItem) : method (ProcessBasedInfo V) :=
  win ← match older with
        | Some older => _ ← scale_window (Some (pb_Windows older)) items; mret (pb_Windows older)
        | None => new_window items
        end;
  mret (MkProcessInfo p win ((λ i, (threshold_of i, i)) <$> items)).

Definition process_SyncPolicies (policies : list SyncPolicyWithProcesses) : method unit :=
  SyncPolicies process_info policies (enabled_item CheckType ThresholdGenerate) None.

(** The processes whose value could not be read. *)
Definition process_Fetch (now : Z) : method (list positive) :=
  s ← get;
  fold_act (λ failed '(_, info),
      match DataGenerate (pb_Process info) with
      | None => mret (failed ++ [pb_Process info])
      | Some val =>
        _ ← on_window (Some (pb_Windows info)) (λ t, t' ← Add now val t; Ok (tt, t'));
        mret failed
      end) [] (range (PidWithInfos s)).

Definition flush_recent (l : positive) : method (V * bool) :=
  on_window (Some l) (λ t, '(v, b, t') ← FlushMostRecentData t; Ok (v, b, t')).

Definition match_window (l : option positive) (policy : PolicyItem) (check : V → bool)
    : method (V * bool) :=
  on_window l (λ t, Ok (MatchRule t policy check, t)).

(** A policy of a process: the newest value is reported once, then the rule is checked. *)
Definition process_policy_check (ShouldCheck : positive → PolicyItem → res Empty_set bool)
    (info : ProcessBasedInfo V) (st : MetricsAppender * list ThresholdCause)
    (policy : V * PolicyItem) : method (MetricsAppender * list ThresholdCause) :=
  let '(appender, causes) := st in
  let '(threshold, item) := policy in
  '(data, hasData) ← flush_recent (pb_Windows info);
  let appender :=
    if (hasData : bool) then
      AppendProcessSingleValue (ToLower CheckType) (pb_Process info) ∅ (num_float data) appender
    else appender in
  should ← lift (ShouldCheck (pb_Process info) item);
  if negb (should : bool) then mret (appender, causes)
  else
    '(lastMatch, enable) ← match_window (Some (pb_Windows info)) item (λ val, num_ge val threshold);
    mret (appender,
          if (enable : bool) then
            causes ++ [SingleValueCause (pb_Process info) item MonitorType
                         (num_float threshold) (num_float lastMatch)]
          else causes).

Definition process_Check (ShouldCheck : positive → PolicyItem → res Empty_set bool) (appender : MetricsAppender)
    : method (MetricsAppender * list ThresholdCause) :=
  s ← get;
  fold_act (λ st '(_, info), fold_act (process_policy_check ShouldCheck info) st (pb_Policies info))
    (appender, []) (range (PidWithInfos s)).

End process_checker.

(** ** Checkers of the system (common/system_checker.go) *)

Record SystemBasedPolicy (V : Type) : Type := MkSystemPolicy {
  sb_Threshold : V;
  sb_Policy : PolicyItem;
  sb_Processes : list positive
}.
Arguments MkSystemPolicy {V} _ _ _.
Arguments sb_Threshold {V} _.
Arguments sb_Policy {V} _.
Arguments sb_Processes {V} _.

Record SystemBasedChecker (V : Type) : Type := MkSystemChecker {
  GlobalWindows : TimeWindows (LatestWindowData V);
  sb_Policies : list (SystemBasedPolicy V)
}.
Arguments MkSystemChecker {V} _ _.
Arguments GlobalWindows {V} _.
Arguments sb_Policies {V} _.

Section system_checker.
Context `{!RangeOrder} `{!Processes} {V : Type} `{!Numbers V}.
Context (CheckType : string) (MonitorType : Z) (ThresholdGenerate : string → option V).
Local Notation S := (SystemBasedChecker V).

Definition NewSystemBasedChecker : S := MkSystemChecker (NewTimeWindows []) [].

Definition system_policies (policies : list SyncPolicyWithProcesses) : list (SystemBasedPolicy V) :=
  policies ≫= λ sp,
    match Items (sp_Policy sp) !! CheckType with
    | None => []
    | Some item =>
      match ThresholdGenerate (Threshold item) with
      | None => []
      | Some threshold => [MkSystemPolicy threshold item (snd <$> range (sp_Processes sp))]
      end
    end.

Definition system_SyncPolicies (policies : list SyncPolicyWithProcesses) (s : S) : S :=
  let result := system_policies policies in
  MkSystemChecker (ScalePeriod (sb_Policy <$> result) (GlobalWindows s)) result.

(** The boolean is the error of the source of the value. *)
Definition system_Fetch (now : Z) (DataGenerate : option V) (s : S) : res Empty_set (bool * S) :=
  match sb_Policies s with
  | [] => Ok (false, s)
  | _ =>
    match DataGenerate with
    | None => Ok (true, s)
    | Some val =>
      t ← Add now val (GlobalWindows s);
      Ok (false, MkSystemChecker t (sb_Policies s))
    end
  end.

Definition system_causes (ShouldCheck : positive → PolicyItem → res Empty_set bool)
    (t : TimeWindows (LatestWindowData V)) (causes : list ThresholdCause) (policy : SystemBasedPolicy V)
    : res Empty_set (list ThresholdCause) :=
  let '(lastMatch, isMatch) :=
    MatchRule t (sb_Policy policy) (λ val, num_ge val (sb_Threshold policy)) in
  if (isMatch : bool) then
    for_range (λ causes p,
        should ← ShouldCheck p (sb_Policy policy);
        Ok (if (should : bool) then
              causes ++ [SingleValueCause p (sb_Policy policy) MonitorType
                           (num_float (sb_Threshold policy)) (num_float lastMatch)]
            else causes)) causes (sb_Processes policy)
  else Ok causes.

Definition system_Check (ShouldCheck : positive → PolicyItem → res Empty_set bool) (appender : MetricsAppender)
    (s : S) : res Empty_set (MetricsAppender * list ThresholdCause * S) :=
  match sb_Policies s with
  | [] => Ok (appender, [], s)
  | policies =>
    '(data, hasData, t) ← FlushMostRecentData (GlobalWindows s);
    let appender :=
      if (hasData : bool) then
        foldl (λ a p, AppendProcessSingleValue (ToLower CheckType) p ∅ (num_float data) a)
          appender (policies ≫= sb_Processes)
      else appender in
    causes ← for_range (system_causes ShouldCheck t) [] policies;
    Ok (appender, causes, MkSystemChecker t policies)
  end.

End system_checker.

(** ** Checkers of HTTP requests (common/http_checker.go) *)

Record BufferEvent : Type := MkBufferEvent {
  be_Pid : Z;
  be_RequestURI : string;
  be_IsResponseError : bool;
  be_Duration : Z;
  be_StartTime : Z
}.

Record HTTPBasedCheckerPolicyItemWindows : Type := MkItemWindows {
  uriWithTimeWindows : gmap string positive;
  uriRegex : option string;
  defaultTimeWindows : option positive;
  iw_threshold : float64
}.

Record HTTPBasedCheckerProcessInfo : Type := MkHTTPInfo {
  hb_Process : positive;
  PolicyWithWindows : gmap positive (PolicyItem * HTTPBasedCheckerPolicyItemWindows)
}.

Section http_checker.
Context `{!RangeOrder} `{!Processes} {W : Type} `{!WindowData BufferEvent float64 W}.
Context (CheckType : string) (MonitorType : Z) (ThresholdGenerate : string → option float64).
(** The package regexp: which expressions compile, and what a compiled one matches. *)
Context (compiles : string → bool) (MatchString : string → string → bool).
Local Notation C := (Checker HTTPBasedCheckerProcessInfo W).
Local Notation method := (act C Empty_set).

Definition NewHTTPBasedChecker : C := MkChecker ∅ ∅ 1 NewNet.

(** The windows of the first older item with the same filter, in the order of the map. *)
Definition older_windows (older : option HTTPBasedCheckerProcessInfo) (item : PolicyItem)
    : option HTTPBasedCheckerPolicyItemWindows :=
  match older with
  | None => None
  | Some older =>
    snd <$> head (filter (λ x, SameURIFilter (fst x) item = true) (snd <$> range (PolicyWithWindows older)))
  end.

Definition reuse_windows (item : PolicyItem) (threshold : float64)
    (olderInfo : HTTPBasedCheckerPolicyItemWindows) : method HTTPBasedCheckerPolicyItemWindows :=
  match URIList item with
  | _ :: _ =>
    _ ← fold_act (λ _ '(_, w), scale_window (Some w) [item]) tt (range (uriWithTimeWindows olderInfo));
    mret (MkItemWindows (uriWithTimeWindows olderInfo) None None threshold)
  | [] =>
    _ ← scale_window (defaultTimeWindows olderInfo) [item];
    mret (MkItemWindows ∅ None (defaultTimeWindows olderInfo) threshold)
  end.

Definition create_windows (item : PolicyItem) (threshold : float64)
    : method (option HTTPBasedCheckerPolicyItemWindows) :=
  match URIList item with
  | _ :: _ =>
    uris ← fold_act (λ m uri, w ← new_window [item]; mret (<[uri := w]> m)) ∅ (URIList item);
    w ← new_window [item];
    mret (Some (MkItemWindows uris None (Some w) threshold))
  | [] =>
    if bool_decide (URIRegex item = "") then
      w ← new_window [item]; mret (Some (MkItemWindows ∅ None (Some w) threshold))
    else if compiles (URIRegex item) then
      w ← new_window [item]; mret (Some (MkItemWindows ∅ (Some (URIRegex item)) (Some w) threshold))
    else mret None
  end.

Definition http_info (p : positive) (older : option HTTPBasedCheckerProcessInfo)
    (items : list PolicyItem) : method HTTPBasedCheckerProcessInfo :=
  m ← fold_act (λ m item,
      let val := default (S754_zero false) (ThresholdGenerate (Threshold item)) in
      policyInfo ← match older_windows older item with
                   | Some olderInfo => i ← reuse_windows item val olderInfo; mret (Some i)
                   | None => create_windows item val
                   end;
      mret (match policyInfo with
            | Some i => <[pi_ptr item := (item, i)]> m
            | None => m
            end)) ∅ items;
  mret (MkHTTPInfo p m).

(** The package network is told, for this check; its errors are logged only. *)
Definition watch_notify (outside : Z → answers) (pid : Z) (isDelete : bool) : method unit := λ s,
  match (if isDelete then RemoveWatchProcess (outside pid) pid CheckType
         else AddWatchProcess (outside pid) pid CheckType) (network s) with
  | (Panic, n) => (Panic, with_network n s)
  | (_, n) => (Ok tt, with_network n s)
  end.

(** [outside] says what the kernel and the probes answer for a process. *)
Definition http_SyncPolicies (outside : Z → answers) (policies : list SyncPolicyWithProcesses) : method unit :=
  SyncPolicies http_info policies (enabled_item CheckType ThresholdGenerate) (Some (watch_notify outside)).

(** The window of an event, or none when the policy is not for its URI. *)
Definition event_window (event : BufferEvent) (i : HTTPBasedCheckerPolicyItemWindows)
    : option (option positive) :=
  if negb (bool_decide (uriWithTimeWindows i = ∅)) then
    match uriWithTimeWindows i !! be_RequestURI event with
    | Some w => Some (Some w)
    | None => None
    end
  else
    match uriRegex i with
    | Some r => if MatchString r (be_RequestURI event) then Some (defaultTimeWindows i) else None
    | None => Some (defaultTimeWindows i)
    end.

Definition ReceiveBufferEvent (event : BufferEvent) : method unit :=
  s ← get;
  match PidWithInfos s !! be_Pid event with
  | None => mret tt
  | Some info =>
    fold_act (λ _ '(_, (_, i)),
        match event_window event i with
        | None => mret tt
        | Some w => on_window w (λ t, t' ← Add (be_StartTime event) event t; Ok (tt, t'))
        end) tt (range (PolicyWithWindows info))
  end.

Definition flushMetrics (uri : string) (w : positive) (process : positive)
    (appender : MetricsAppender) : method MetricsAppender :=
  let uri := if bool_decide (uri = "") then "global" else uri in
  '(data, hasUpdate) ← on_window (Some w)
      (λ t, let '(d, b, t') := FlushMultipleRecentData t in Ok (d, b, t'));
  mret (if (hasUpdate : bool) then
          foldl (λ a d, AppendProcessSingleValue (ToLower CheckType) process {[ "uri" := uri ]} d a)
            appender data
        else appender).

Definition match_uri (w : option positive) (item : PolicyItem) (threshold : float64)
    : method (float64 * bool) :=
  on_window w (λ t, Ok (MatchRule t item (λ val, float_ge val threshold), t)).

Definition http_item_check (ShouldCheck : positive → PolicyItem → res Empty_set bool) (process : positive)
    (st : MetricsAppender * list ThresholdCause)
    (x : positive * (PolicyItem * HTTPBasedCheckerPolicyItemWindows))
    : method (MetricsAppender * list ThresholdCause) :=
  let '(appender, causes) := st in
  let '(_, (item, i)) := x in
  let globalURI := default "" (uriRegex i) in
  appender ← fold_act (λ a '(uri, w), flushMetrics uri w process a)
               appender (range (uriWithTimeWindows i));
  appender ← match defaultTimeWindows i with
             | Some w => flushMetrics globalURI w process appender
             | None => mret appender
             end;
  should ← lift (ShouldCheck process item);
  if negb (should : bool) then mret (appender, causes)
  else
    causes ← fold_act (λ causes '(uri, w),
        '(lastMatch, isMatch) ← match_uri (Some w) item (iw_threshold i);
        mret (if (isMatch : bool) then
                causes ++ [URICause false uri process item MonitorType (iw_threshold i) lastMatch]
              else causes)) causes (range (uriWithTimeWindows i));
    '(lastMatch, isMatch) ← match_uri (defaultTimeWindows i) item (iw_threshold i);
    mret (appender,
          if (isMatch : bool) then
            causes ++ [URICause (bool_decide (uriRegex i ≠ None)) globalURI process item MonitorType
                         (iw_threshold i) lastMatch]
          else causes).

Definition http_Check (ShouldCheck : positive → PolicyItem → res Empty_set bool) (appender : MetricsAppender)
    : method (MetricsAppender * list ThresholdCause) :=
  s ← get;
  fold_act (λ st '(_, info),
      fold_act (http_item_check ShouldCheck (hb_Process info)) st (range (PolicyWithWindows info)))
    (appender, []) (range (PidWithInfos s)).

End http_checker.

(** ** The slots of the HTTP checkers (network_error_rate.go, network_response_time.go) *)

Record processNetworkResponseErrorStatics : Type := MkErrorStatics {
  es_totalCount : Z;
  es_errorCount : Z
}.

Definition error_Accept (data : BufferEvent) (s : processNetworkResponseErrorStatics)
    : processNetworkResponseErrorStatics :=
  MkErrorStatics (es_totalCount s + 1)
    (if be_IsResponseError data then es_errorCount s + 1 else es_errorCount s).

Definition error_Get (s : processNetworkResponseErrorStatics) : float64 :=
  if es_totalCount s =? 0 then S754_zero false
  else float_mul (float_div (float_of_int (es_errorCount s)) (float_of_int (es_totalCount s)))
         (float_of_int 100).

Global Instance error_statics :
    WindowData BufferEvent float64 processNetworkResponseErrorStatics := {|
  wd_new := MkErrorStatics 0 0;
  wd_Reset _ := MkErrorStatics 0 0;
  wd_Accept := error_Accept;
  wd_Get := error_Get;
  wd_zero := S754_zero false
|}.

Record processNetworkAvgResponseTimeStatics : Type := MkTimeStatics {
  ts_totalCount : Z;
  totalDuration : Z
}.

Definition time_Accept (data : BufferEvent) (s : processNetworkAvgResponseTimeStatics)
    : processNetworkAvgResponseTimeStatics :=
  MkTimeStatics (ts_totalCount s + 1) (totalDuration s + Z.quot (be_Duration data) 1000000).

(** An empty slot is 0/0, which is not a number and matches no threshold. *)
Definition time_Get (s : processNetworkAvgResponseTimeStatics) : float64 :=
  float_div (float_of_int (totalDuration s)) (float_of_int (ts_totalCount s)).

Global Instance time_statics :
    WindowData BufferEvent float64 processNetworkAvgResponseTimeStatics := {|
  wd_new := MkTimeStatics 0 0;
  wd_Reset _ := MkTimeStatics 0 0;
  wd_Accept := time_Accept;
  wd_Get := time_Get;
  wd_zero := S754_zero false
|}.

Global Instance error_statics_lawful : LawfulWindowData BufferEvent float64 processNetworkResponseErrorStatics.
Proof. by intros s. Qed.
Global Instance time_statics_lawful : LawfulWindowData BufferEvent float64 processNetworkAvgResponseTimeStatics.
Proof. by intros s. Qed.
