(* ===== verification/CheckersLaws.v ===== *)
(** * The checkers do not panic and report exactly the reached thresholds

    Invariants of the checkers of Checkers.v over every sequence of their operations: the
    windows of the processes exist, are not shared between pids and have the length of the
    longest period, so that a check of the process checker never panics and reports exactly
    the policies whose rule holds.  The HTTP checker has this for policies without a list
    of URIs only; the samples at the end show what happens otherwise. *)

From stdpp Require Import base gmap list strings.
From Stdlib Require Import ZArith Lia.
From Stdlib Require Import Floats.SpecFloat.
From S2P Require Import Prelude Interfaces GoStrings ProcessStorage Windows NetWatch Checkers.

(** ** Loops and windows *)

Lemma wp_fold_act {S E A B} (I : list A → B → S → Prop) (f : B → A → act S E B) b l s :
  I [] b s →
  (∀ done x b s, x ∈ l → I done b s → wp (f b x) (λ b' s', I (done ++ [x]) b' s') s) →
  wp (fold_act f b l) (λ b' s', I l b' s') s.
Proof.
  intros H0 Hf.
  assert (Hgen : ∀ l2 l1 b s, l = l1 ++ l2 → I l1 b s → wp (fold_act f b l2) (λ b' s', I l b' s') s).
  { induction l2 as [|x l2 IH]; intros l1 b1 s1 Hl HI; cbn [fold_act].
    - apply wp_ret. rewrite app_nil_r in Hl. by subst.
    - apply wp_bind. eapply wp_mono; [apply Hf; [|exact HI]|].
      + subst l. apply elem_of_app. right. by left.
      + intros b2 s2 H2. apply (IH (l1 ++ [x])); [by rewrite <- app_assoc|done]. }
  by apply (Hgen l [] b s).
Qed.

Section windows.
Context {D R W : Type} `{!WindowData D R W}.
Implicit Types t : TimeWindows W.

Lemma max_period_nonneg items : 0 ≤ max_period items.
Proof.
  unfold max_period. assert (H : ∀ m, 0 ≤ m → 0 ≤ foldl (λ m i, if m <? Period i then Period i else m) m items).
  { induction items as [|i items IH]; intros m Hm; [done|]. cbn. apply IH.
    destruct (Z.ltb_spec m (Period i)); lia. }
  by apply H.
Qed.

Lemma max_period_pos items i : i ∈ items → 0 < Period i → 0 < max_period items.
Proof.
  unfold max_period. intros Hi Hp.
  assert (H : ∀ m, (0 < m ∨ i ∈ items) →
                   0 < foldl (λ m i, if m <? Period i then Period i else m) m items).
  { clear Hi. induction items as [|j items IH]; intros m Hm; cbn.
    - destruct Hm as [?|Hm]; [done|]. by apply not_elem_of_nil in Hm.
    - apply IH. destruct Hm as [Hm|[->|Hm]%elem_of_cons]; [left|left|by right];
        destruct (Z.ltb_spec m (Period j)) || destruct (Z.ltb_spec m (Period i)); lia. }
  by apply H; right.
Qed.

Lemma ScalePeriod_length items t :
  length (tw_data (ScalePeriod items t)) = Z.to_nat (max_period items).
Proof.
  pose proof (max_period_nonneg items). unfold ScalePeriod.
  destruct (Z.eqb_spec (Z.of_nat (length (tw_data t))) (max_period items)); [lia|].
  cbn [tw_data]. destruct (Z.ltb_spec 0 (max_period items - Z.of_nat (length (tw_data t)))).
  - rewrite length_app, length_replicate. lia.
  - rewrite length_take. lia.
Qed.

Lemma rotate_length n (l : list (windowDataWrapper W)) : length (Nat.iter n rotate_slot l) = length l.
Proof.
  induction n as [|n IH]; [done|].
  change (Nat.iter (S n) rotate_slot l) with (rotate_slot (Nat.iter n rotate_slot l)).
  rewrite <- IH. destruct (Nat.iter n rotate_slot l); [done|].
  cbn [rotate_slot]. rewrite length_app. simpl. lia.
Qed.

Lemma append_total i v t : 0 ≤ i < Z.of_nat (length (tw_data t)) →
  ∃ t', appendDataToSlot i v t = Ok t' ∧ length (tw_data t') = length (tw_data t).
Proof.
  intros Hi. unfold appendDataToSlot.
  rewrite (proj2 (Z.ltb_ge i 0)), (proj2 (Z.ltb_ge (Z.of_nat (length (tw_data t))) i)) by lia. cbn [orb].
  match goal with |- context [tw_data t !! ?p] => destruct (lookup_lt_is_Some_2 (tw_data t) p) as [w Hw] end.
  { destruct (_ <? _); lia. }
  rewrite Hw. cbn [must mbind res_bind]. eexists. split; [reflexivity|].
  cbn [tw_data]. by rewrite length_insert.
Qed.

(** [Add] returns for every window and time, and keeps the length. *)
Lemma Add_total tm v t :
  ∃ t', Add tm v t = Ok t' ∧ length (tw_data t') = length (tw_data t).
Proof.
  unfold Add. set (e := default tm (endTime t)). set (t0 := MkWindows _ _ _).
  assert (Hplace : ∀ t1 s, 0 ≤ s → length (tw_data t1) = length (tw_data t) →
    ∃ t', (if Z.of_nat (length (tw_data t1)) <=? s then Ok t1
           else appendDataToSlot (Z.of_nat (length (tw_data t1)) - s - 1) v t1) = Ok t' ∧
          length (tw_data t') = length (tw_data t)).
  { intros t1 s Hs Hl. destruct (Z.leb_spec (Z.of_nat (length (tw_data t1))) s); [by eauto|].
    rewrite <- Hl. apply append_total. lia. }
  destruct (Z.ltb_spec (int_Seconds (time_Sub e tm)) 0) as [Hn|Hn].
  - unfold moveTo at 1. cbn [endTime t0 must mbind res_bind].
    destruct (_ <=? 0); cbn [mbind res_bind]; apply Hplace; try done; try lia.
    cbn [tw_data]. destruct (_ <? _); [by rewrite length_fmap|by rewrite rotate_length].
  - cbn [mbind res_bind]. by apply Hplace.
Qed.

Lemma Flush_total t : (0 < length (tw_data t))%nat →
  ∃ v b lf, FlushMostRecentData t = Ok (v, b, MkWindows (tw_data t) (endTime t) lf).
Proof.
  intros Hl. unfold FlushMostRecentData. destruct (negb _).
  - exists wd_zero, false, (lastFlushTime t). by destruct t.
  - destruct (last (tw_data t)) eqn:Hlast; [by cbn; eauto|].
    apply last_None in Hlast. rewrite Hlast in Hl. simpl in Hl. lia.
Qed.

End windows.

Definition with_heap {Info W} (s : Checker Info W) (h : gmap positive (TimeWindows W)) : Checker Info W :=
  MkChecker (PidWithInfos s) h (next_win s) (network s).

Lemma wp_on_window {Info W A} (l : positive) (f : TimeWindows W → res Empty_set (A * TimeWindows W)) t a t'
    (Q : A → Checker Info W → Prop) s :
  win_heap s !! l = Some t → f t = Ok (a, t') → Q a (with_heap s (<[l := t']> (win_heap s))) →
  wp (on_window (Some l) f) Q s.
Proof. intros Hl Hf HQ. unfold wp, on_window. cbn [mbind option_bind]. by rewrite Hl, Hf. Qed.

Lemma wp_lift {S E A} (a : A) (Q : A → S → Prop) s : Q a s → wp (lift (Ok a) : act S E A) Q s.
Proof. done. Qed.

(** ** Which policies a check may ask about *)

(** The profiling types that have a trigger. *)
Definition has_trigger (i : PolicyItem) : Prop :=
  match pi_target i with OtherProfilingType _ => False | _ => True end.

(** The question whether a policy is checked now is answered for these types; for another
    type it is a nil dereference. *)
Definition answers_triggers (ShouldCheck : positive → PolicyItem → res Empty_set bool) : Prop :=
  ∀ p i, has_trigger i → ∃ b, ShouldCheck p i = Ok b.

(** The question is answered with yes. *)
Definition is_checked (ShouldCheck : positive → PolicyItem → res Empty_set bool) (p : positive)
    (i : PolicyItem) : bool :=
  match ShouldCheck p i with Ok b => b | _ => false end.

(** ** The items of a process *)

Section items.
Context `{!RangeOrder}.
Variable enabled : gmap string PolicyItem → option PolicyItem.

(** The items of the policies that apply to a process, in the order of the policies. *)
Definition items_for (policies : list SyncPolicyWithProcesses) (p : positive) : list PolicyItem :=
  policies ≫= λ sp,
    match enabled (Items (sp_Policy sp)) with
    | None => []
    | Some item => (λ _, item) <$> filter (λ x, snd x = p) (range (sp_Processes sp))
    end.

Lemma add_item_lookup (item : PolicyItem) (l : list (string * positive)) (m : gmap positive (list PolicyItem)) p :
  default [] (foldl (λ m '(_, q), <[q := default [] (m !! q) ++ [item]]> m) m l !! p) =
  default [] (m !! p) ++ ((λ _, item) <$> filter (λ x, snd x = p) l).
Proof.
  revert m. induction l as [|[k q] l IH]; intros m; cbn [foldl].
  - by rewrite filter_nil, app_nil_r.
  - rewrite IH, filter_cons. cbn [snd]. destruct (decide (q = p)) as [->|Hne].
    + rewrite lookup_insert_eq. simpl. by rewrite <- app_assoc.
    + by rewrite lookup_insert_ne.
Qed.

Lemma add_item_nonempty (item : PolicyItem) (l : list (string * positive)) (m : gmap positive (list PolicyItem)) :
  (∀ p, m !! p ≠ Some []) →
  ∀ p, foldl (λ m '(_, q), <[q := default [] (m !! q) ++ [item]]> m) m l !! p ≠ Some [].
Proof.
  revert m. induction l as [|[k q] l IH]; intros m Hm; [done|]. cbn [foldl]. apply IH.
  intros p. destruct (decide (q = p)) as [->|Hne].
  - rewrite lookup_insert_eq. destruct (default [] (m !! p)); discriminate.
  - by rewrite lookup_insert_ne.
Qed.

Lemma process_items_exact policies p :
  process_items enabled policies !! p =
  match items_for policies p with [] => None | items => Some items end.
Proof.
  unfold process_items.
  assert (Hf : ∀ m : gmap positive (list PolicyItem), (∀ p, m !! p ≠ Some []) →
    let m' := foldl (λ m sp,
           match enabled (Items (sp_Policy sp)) with
           | None => m
           | Some item =>
             foldl (λ m '(_, p), <[p := default [] (m !! p) ++ [item]]> m) m (range (sp_Processes sp))
           end) m policies in
    default [] (m' !! p) = default [] (m !! p) ++ items_for policies p ∧ m' !! p ≠ Some []).
  { induction policies as [|sp policies IH]; intros m Hm m'.
    - split; [by rewrite app_nil_r|]. apply Hm.
    - cbn [foldl] in m'. unfold items_for. cbn [mbind list_bind]. fold (items_for policies p).
      destruct (enabled (Items (sp_Policy sp))) as [item|]; [|by apply IH].
      destruct (IH _ (add_item_nonempty item (range (sp_Processes sp)) m Hm)) as [H1 H2].
      split; [|exact H2]. subst m'. rewrite H1, add_item_lookup. by rewrite <- app_assoc. }
  destruct (Hf ∅) as [H1 H2]; [done|]. rewrite lookup_empty in H1. cbn in H1.
  destruct (foldl _ ∅ policies !! p) as [items|] eqn:He; cbn in H1; subst.
  - destruct (items_for policies p); [done|]. done.
  - by rewrite <- H1.
Qed.

Lemma range_items policies p items :
  (p, items) ∈ range (process_items enabled policies) ↔ items = items_for policies p ∧ items ≠ [].
Proof.
  rewrite range_perm, elem_of_map_to_list, process_items_exact.
  destruct (items_for policies p); naive_solver.
Qed.

End items.

Lemma elem_of_range `{!RangeOrder} {K V} `{Countable K} (m : gmap K V) k v :
  (k, v) ∈ range m ↔ m !! k = Some v.
Proof. by rewrite range_perm, elem_of_map_to_list. Qed.

(** An item of a process is the item of a policy. *)
Lemma items_for_from `{!RangeOrder} {V} CheckType (ThresholdGenerate : string → option V) policies p i :
  i ∈ items_for (enabled_item CheckType ThresholdGenerate) policies p →
  ∃ sp k, sp ∈ policies ∧ Items (sp_Policy sp) !! k = Some i.
Proof.
  unfold items_for. intros (sp & Hi & Hsp)%list_elem_of_bind.
  destruct (enabled_item _ _ _) as [j|] eqn:He; [|by apply not_elem_of_nil in Hi].
  apply list_elem_of_fmap in Hi as (x & -> & _). unfold enabled_item in He.
  destruct (Items (sp_Policy sp) !! CheckType) as [k|] eqn:Hk; [|done].
  destruct (ThresholdGenerate (Threshold k)); [|done]. injection He as <-. eauto.
Qed.

(** ** The process checker *)

Section process.
Context `{!RangeOrder} `{!Processes} {V : Type} `{!Numbers V}.
Context (CheckType : string) (MonitorType : Z) (ThresholdGenerate : string → option V).
Local Notation Info := (ProcessBasedInfo V).
Local Notation C := (Checker Info (LatestWindowData V)).
Implicit Types s : C.

Definition info_items (i : Info) : list PolicyItem := snd <$> pb_Policies i.

Definition owns (m : gmap Z Info) (l : positive) (pid : Z) : Prop :=
  ∃ i, m !! pid = Some i ∧ pb_Windows i = l.

Definition sized (h : gmap positive (TimeWindows (LatestWindowData V))) (i : Info) : Prop :=
  ∃ t, h !! pb_Windows i = Some t ∧
       length (tw_data t) = Z.to_nat (max_period (info_items i)) ∧ 0 < max_period (info_items i) ∧
       Forall has_trigger (info_items i).

(** While a synchronization builds the information [r] from the one before it. *)
Record sync_inv (old r : gmap Z Info) (s : C) : Prop := {
  sy_unique l p1 p2 : owns old l p1 ∨ owns r l p1 → owns old l p2 ∨ owns r l p2 → p1 = p2;
  sy_alloc l pid : owns old l pid ∨ owns r l pid → (l < next_win s)%positive;
  sy_old pid i : old !! pid = Some i → is_Some (win_heap s !! pb_Windows i);
  sy_sized pid i : r !! pid = Some i → sized (win_heap s) i
}.

(** The windows of the processes exist, have the length of the longest period and belong
    to one pid. *)
Definition checker_inv (s : C) : Prop := sync_inv (PidWithInfos s) (PidWithInfos s) s.

Lemma checker_inv_start s : checker_inv s → sync_inv (PidWithInfos s) ∅ s.
Proof.
  assert (He : ∀ l p, ¬ owns ∅ l p) by (intros l p (i & Hi & _); by rewrite lookup_empty in Hi).
  intros [Hu Ha Ho Hs]. split.
  - intros l p1 p2 [H1|H1] [H2|H2]; try (by exfalso; eapply He). eauto.
  - intros l p [H1|H1]; [eauto|]. by exfalso; eapply He.
  - done.
  - intros pid i Hi. by rewrite lookup_empty in Hi.
Qed.

Lemma sync_inv_finish old r s :
  sync_inv old r s → checker_inv (MkChecker r (win_heap s) (next_win s) (network s)).
Proof.
  intros [Hu Ha Ho Hs]. split; cbn.
  - intros l p1 p2 H1 H2. apply (Hu l); tauto.
  - intros l p Hx. apply (Ha l p). tauto.
  - intros pid i Hi. destruct (Hs pid i Hi) as (t & Ht & _). eauto.
  - done.
Qed.

Definition good_items (items : list PolicyItem) : Prop :=
  items ≠ [] ∧ Forall (λ i, 0 < Period i ∧ has_trigger i) items.

Lemma good_period items : good_items items → 0 < max_period items.
Proof.
  intros [Hne Hall]. destruct items as [|i items]; [done|].
  apply (max_period_pos _ i); [by left|]. by apply Forall_cons in Hall as [[? _] _].
Qed.

Lemma good_triggers items : good_items items → Forall has_trigger items.
Proof. intros [_ Hall]. eapply Forall_impl; [exact Hall|]. by intros i [_ ?]. Qed.

Lemma info_items_of p w items :
  info_items (MkProcessInfo p w ((λ i, (threshold_of ThresholdGenerate i, i)) <$> items)) = items.
Proof. unfold info_items. cbn. rewrite <- list_fmap_compose. by rewrite list_fmap_id. Qed.

(** The information of a pid replaced: by one with the same window, scaled, or by one with
    a new window. *)
Lemma sync_inv_scale old r s o i t :
  sync_inv old r s → old !! p_Pid (pb_Process i) = Some o → pb_Windows i = pb_Windows o →
  win_heap s !! pb_Windows o = Some t → good_items (info_items i) →
  sync_inv old (<[p_Pid (pb_Process i) := i]> r)
    (with_heap s (<[pb_Windows o := ScalePeriod (info_items i) t]> (win_heap s))).
Proof.
  intros [Hu Ha Ho Hs] Hold Hw Ht Hg. set (pid := p_Pid (pb_Process i)) in *.
  assert (Hown : ∀ l q, owns old l q ∨ owns (<[pid := i]> r) l q → owns old l q ∨ owns r l q).
  { intros l q [Hq|(j & Hj & Hjl)]; [by left|]. destruct (decide (pid = q)) as [<-|Hne].
    - rewrite lookup_insert_eq in Hj. injection Hj as <-. left. exists o. by rewrite <- Hw.
    - rewrite lookup_insert_ne in Hj by done. right. by exists j. }
  split; cbn [win_heap next_win with_heap].
  - intros l p1 p2 H1 H2. apply (Hu l); by apply Hown.
  - intros l q Hx. apply (Ha l q). by apply Hown.
  - intros q j Hj. destruct (decide (pb_Windows o = pb_Windows j)) as [->|Hne].
    + rewrite lookup_insert_eq. eauto.
    + rewrite lookup_insert_ne by done. eauto.
  - intros q j Hj. unfold sized. destruct (decide (pid = q)) as [<-|Hne].
    + rewrite lookup_insert_eq in Hj. injection Hj as <-. rewrite Hw, lookup_insert_eq.
      eexists. split; [done|]. rewrite ScalePeriod_length.
      split_and!; [done|by apply good_period|by apply good_triggers].
    + rewrite lookup_insert_ne in Hj by done. destruct (Hs q j Hj) as (t' & Ht' & Hlen).
      rewrite lookup_insert_ne; [by exists t'|]. intros Heq. apply Hne.
      apply (Hu (pb_Windows o)); [left; by exists o|right; by exists j].
Qed.

Lemma sync_inv_fresh old r s i :
  sync_inv old r s → pb_Windows i = next_win s → good_items (info_items i) →
  sync_inv old (<[p_Pid (pb_Process i) := i]> r)
    (MkChecker (PidWithInfos s) (<[next_win s := NewTimeWindows (info_items i)]> (win_heap s))
       (Pos.succ (next_win s)) (network s)).
Proof.
  intros [Hu Ha Ho Hs] Hw Hg. set (pid := p_Pid (pb_Process i)) in *.
  assert (Hown : ∀ l q, owns old l q ∨ owns (<[pid := i]> r) l q →
                        (owns old l q ∨ owns r l q) ∨ (l = next_win s ∧ q = pid)).
  { intros l q [Hq|(j & Hj & Hjl)]; [by left; left|]. destruct (decide (pid = q)) as [<-|Hne].
    - rewrite lookup_insert_eq in Hj. injection Hj as <-. right. by rewrite <- Hjl, <- Hw.
    - rewrite lookup_insert_ne in Hj by done. left. right. by exists j. }
  split; cbn [win_heap next_win].
  - intros l p1 p2 [H1|[-> ->]]%Hown [H2|[H2 ->]]%Hown; try done.
    + by apply (Hu l).
    + subst l. apply Ha in H1. lia.
    + apply Ha in H2. lia.
  - intros l q [Hx|[-> ->]]%Hown; [|lia]. apply Ha in Hx. lia.
  - intros q j Hj. rewrite lookup_insert_ne; [by eauto|]. intros Heq.
    assert (Hlt : (pb_Windows j < next_win s)%positive) by (apply (Ha _ q); left; by exists j). lia.
  - intros q j Hj. unfold sized. destruct (decide (pid = q)) as [<-|Hne].
    + rewrite lookup_insert_eq in Hj. injection Hj as <-. rewrite Hw, lookup_insert_eq.
      eexists. split; [done|]. cbn [tw_data NewTimeWindows].
      rewrite length_replicate. split_and!; [done|by apply good_period|by apply good_triggers].
    + rewrite lookup_insert_ne in Hj by done. destruct (Hs q j Hj) as (t' & Ht' & Hlen).
      rewrite lookup_insert_ne; [by exists t'|].
      assert (Hlt : (pb_Windows j < next_win s)%positive) by (apply (Ha _ q); right; by exists j). lia.
Qed.

Definition info_for (p w : positive) (items : list PolicyItem) : Info :=
  MkProcessInfo p w ((λ i, (threshold_of ThresholdGenerate i, i)) <$> items).

(** Generating the information of a process keeps the invariant, and its older window. *)
Lemma process_info_keeps old r s p items :
  sync_inv old r s → good_items items →
  wp (process_info ThresholdGenerate p (old !! p_Pid p) items)
    (λ i s', sync_inv old (<[p_Pid p := i]> r) s' ∧
             ∃ w, i = info_for p w items ∧ (∀ o, old !! p_Pid p = Some o → pb_Windows o = w)) s.
Proof.
  intros Hi Hg. unfold process_info. wp_steps.
  destruct (old !! p_Pid p) as [o|] eqn:Hold.
  - wp_steps. destruct (sy_old _ _ _ Hi _ _ Hold) as [t Ht].
    eapply wp_on_window; [exact Ht|done|]. cbn beta. wp_steps. split.
    + pose proof (sync_inv_scale old r s o (info_for p (pb_Windows o) items) t Hi Hold eq_refl Ht) as Hn.
      unfold info_for in Hn. rewrite info_items_of in Hn. by apply Hn.
    + eexists. split; [done|]. by intros o' [= <-].
  - unfold wp, new_window. cbn [mret act_ret]. split.
    + pose proof (sync_inv_fresh old r s (info_for p (next_win s) items) Hi eq_refl) as Hn.
      unfold info_for in Hn. rewrite info_items_of in Hn. by apply Hn.
    + by eexists.
Qed.

(** What a synchronization makes of the information [old]: the processes with items, one
    for each pid, with the window the pid already had. *)
Definition synced (items : positive → list PolicyItem) (old r : gmap Z Info) : Prop :=
  (∀ p, items p ≠ [] → is_Some (r !! p_Pid p)) ∧
  (∀ pid i, r !! pid = Some i →
     ∃ p w, i = info_for p w (items p) ∧ p_Pid p = pid ∧ items p ≠ [] ∧
            (∀ o, old !! pid = Some o → pb_Windows o = w)).

Definition valid_policies (policies : list SyncPolicyWithProcesses) : Prop :=
  ∀ sp k i, sp ∈ policies → Items (sp_Policy sp) !! k = Some i → 0 < Period i ∧ has_trigger i.

Local Notation enabled := (enabled_item CheckType ThresholdGenerate).

Lemma items_for_good policies p :
  valid_policies policies → items_for enabled policies p ≠ [] →
  good_items (items_for enabled policies p).
Proof.
  intros Hv Hne. split; [done|]. apply Forall_forall.
  intros i (sp & k & Hsp & Hk)%items_for_from. by eapply Hv.
Qed.

Lemma process_Sync_exact s policies :
  checker_inv s → valid_policies policies →
  wp (process_SyncPolicies CheckType ThresholdGenerate policies)
    (λ _ s', checker_inv s' ∧ synced (items_for enabled policies) (PidWithInfos s) (PidWithInfos s')) s.
Proof.
  intros Hi Hv. unfold process_SyncPolicies, SyncPolicies. wp_steps.
  set (old := PidWithInfos s). set (l := range (process_items enabled policies)).
  eapply wp_mono; [apply (wp_fold_act (λ dn r s', sync_inv old r s' ∧
      (∀ p its, (p, its) ∈ dn → is_Some (r !! p_Pid p)) ∧
      (∀ pid i, r !! pid = Some i → ∃ p w, (p, items_for enabled policies p) ∈ dn ∧
         i = info_for p w (items_for enabled policies p) ∧ p_Pid p = pid ∧
         (∀ o, old !! pid = Some o → pb_Windows o = w))))|].
  - split; [by apply checker_inv_start|]. split; [|done]. intros p its Hin. by apply not_elem_of_nil in Hin.
  - intros dn [p its] r s' [-> Hne]%range_items (Hsi & Hdn & Hr). wp_steps.
    destruct (bool_decide _); wp_steps;
    (eapply wp_mono; [apply process_info_keeps; [exact Hsi|by apply items_for_good]|]);
    intros i s2 (Hs2 & w & -> & Hw); wp_steps; (split; [exact Hs2|]); split.
    1,3: intros q its [Hin|[= -> ->]%list_elem_of_singleton]%elem_of_app;
      [destruct (decide (p_Pid p = p_Pid q)) as [->|]; [by rewrite lookup_insert_eq; eauto|
         rewrite lookup_insert_ne by done; eauto]|by rewrite lookup_insert_eq; eauto].
    1,2: intros pid i Hpid; destruct (decide (p_Pid p = pid)) as [<-|Hne'];
      [rewrite lookup_insert_eq in Hpid; injection Hpid as <-; exists p, w;
       repeat split; [apply elem_of_app; right; by apply list_elem_of_singleton|done]|
       rewrite lookup_insert_ne in Hpid by done;
       destruct (Hr _ _ Hpid) as (p' & w' & Hin & ?); exists p', w'; split; [|done];
       apply elem_of_app; by left].
  - intros r s1 (Hsi & Hdn & Hr). wp_steps.
    eapply wp_mono; [apply (wp_fold_act (λ _ _ s', s' = s1)); [done|]|].
    + intros dn [k i] [] s' _ ->. by destruct (bool_decide _).
    + intros [] s' ->. wp_steps. split; [by apply sync_inv_finish with old|]. split.
      * intros p Hp. apply (Hdn p (items_for enabled policies p)). by apply range_items.
      * intros pid i Hpid. destruct (Hr _ _ Hpid) as (p & w & Hin & ? & ? & ?).
        apply range_items in Hin as [_ Hne]. exists p, w. auto.
Qed.

(** *** Fetching and checking *)

(** Windows that only change their values keep the invariant. *)
Definition same_lengths (h h' : gmap positive (TimeWindows (LatestWindowData V))) : Prop :=
  ∀ l t, h !! l = Some t → ∃ t', h' !! l = Some t' ∧ length (tw_data t') = length (tw_data t).

Lemma checker_inv_lengths s h :
  checker_inv s → same_lengths (win_heap s) h → checker_inv (with_heap s h).
Proof.
  intros [Hu Ha Ho Hs] Hl. split; cbn [with_heap PidWithInfos win_heap next_win]; try done.
  - intros pid i Hi. destruct (Ho pid i Hi) as [t Ht]. destruct (Hl _ _ Ht) as (t' & Ht' & _). eauto.
  - intros pid i Hi. destruct (Hs pid i Hi) as (t & Ht & Hlen & Hp).
    destruct (Hl _ _ Ht) as (t' & Ht' & Hl'). exists t'. by rewrite Hl'.
Qed.

Lemma same_lengths_insert h l t t' :
  h !! l = Some t → length (tw_data t') = length (tw_data t) → same_lengths h (<[l := t']> h).
Proof.
  intros Hl Hlen l2 t2 H2. destruct (decide (l = l2)) as [<-|Hne].
  - rewrite lookup_insert_eq. rewrite Hl in H2. injection H2 as <-. eauto.
  - rewrite lookup_insert_ne by done. eauto.
Qed.

Lemma process_Fetch_keeps (DataGenerate : positive → option V) now s :
  checker_inv s →
  wp (process_Fetch DataGenerate now)
    (λ _ s', checker_inv s' ∧ PidWithInfos s' = PidWithInfos s) s.
Proof.
  intros Hi. unfold process_Fetch. wp_steps.
  apply (wp_fold_act (λ _ _ s', checker_inv s' ∧ PidWithInfos s' = PidWithInfos s)); [done|].
  intros dn [pid i] failed s' Hin%elem_of_range [Hi' Hp]. rewrite <- Hp in Hin.
  destruct (DataGenerate (pb_Process i)) as [val|]; [|by wp_steps].
  wp_steps. destruct (sy_sized _ _ _ Hi' _ _ Hin) as (t & Ht & _).
  destruct (Add_total now val t) as (t' & Ha & Hl).
  eapply wp_on_window; [exact Ht|by rewrite Ha|]. cbn beta. wp_steps. split; [|done].
  apply checker_inv_lengths; [done|]. by eapply same_lengths_insert.
Qed.

(** The values of the slots of a window, the oldest first. *)
Definition slot_values (h : gmap positive (TimeWindows (LatestWindowData V))) (l : positive) : list V :=
  match h !! l with
  | Some t => wrapper_Get <$> tw_data t
  | None => []
  end.

Definition over (threshold : V) (vs : list V) : list V := filter (λ v, num_ge v threshold = true) vs.

(** The causes a check has to report: a policy that should be checked and has [Count]
    values of its window over the threshold, with the oldest of these values. *)
Definition due_causes (ShouldCheck : positive → PolicyItem → res Empty_set bool)
    (h : gmap positive (TimeWindows (LatestWindowData V))) (i : Info) : list ThresholdCause :=
  pb_Policies i ≫= λ '(threshold, item),
    let vs := over threshold (slot_values h (pb_Windows i)) in
    if is_checked ShouldCheck (pb_Process i) item && (Count item <=? Z.of_nat (length vs)) then
      [SingleValueCause (pb_Process i) item MonitorType (num_float threshold)
         (num_float (default (zero : V) (head vs)))]
    else [].

(** Windows that only differ in the time of their flush. *)
Definition same_slots (h h' : gmap positive (TimeWindows (LatestWindowData V))) : Prop :=
  ∀ l t, h !! l = Some t → ∃ lf, h' !! l = Some (MkWindows (tw_data t) (endTime t) lf).

Lemma same_slots_refl h : same_slots h h.
Proof. intros l [d e lf] Hl. by exists lf. Qed.

Lemma same_slots_insert h h' l t lf :
  same_slots h h' → h' !! l = Some t →
  same_slots h (<[l := MkWindows (tw_data t) (endTime t) lf]> h').
Proof.
  intros Hs Hl l2 t2 H2. destruct (Hs _ _ H2) as [lf2 Hl2]. destruct (decide (l = l2)) as [<-|Hne].
  - rewrite lookup_insert_eq. rewrite Hl in Hl2. injection Hl2 as ->. by exists lf.
  - rewrite lookup_insert_ne by done. by exists lf2.
Qed.

Lemma same_slots_lengths h h' : same_slots h h' → same_lengths h h'.
Proof. intros Hs l t Hl. destruct (Hs l t Hl) as [lf Hl']. by eexists. Qed.

(** One policy: its cause, and the windows but for the time of the flush. *)
Lemma policy_check_exact ShouldCheck h i s a causes threshold item :
  sized h i → answers_triggers ShouldCheck → has_trigger item → same_slots h (win_heap s) →
  wp (process_policy_check CheckType MonitorType ShouldCheck i (a, causes) (threshold, item))
    (λ r s', snd r = causes ++ (due_causes ShouldCheck h
                (MkProcessInfo (pb_Process i) (pb_Windows i) [(threshold, item)])) ∧
             same_slots h (win_heap s') ∧ s' = with_heap s (win_heap s')) s.
Proof.
  intros (t & Ht & Hlen & Hpos & _) Ha Hi Hs. destruct (Hs _ _ Ht) as [lf Ht'].
  unfold process_policy_check, due_causes, slot_values. cbn [pb_Policies pb_Windows pb_Process mbind list_bind].
  rewrite app_nil_r, Ht. wp_steps.
  destruct (Flush_total (MkWindows (tw_data t) (endTime t) lf)) as (v & b & lf2 & Hf); [cbn; lia|].
  eapply wp_on_window; [exact Ht'|by rewrite Hf|]. cbn beta iota.
  cbn [tw_data endTime].
  destruct (Ha (pb_Process i) item Hi) as [should Hsh]. unfold is_checked. rewrite Hsh. wp_steps.
  apply wp_lift. destruct should; cbn [negb andb].
  - wp_steps. eapply wp_on_window; [by cbn; rewrite lookup_insert_eq|done|]. cbn beta iota.
    rewrite MatchRule_exact. cbn beta iota. wp_steps. cbn [snd tw_data with_heap win_heap].
    split; [by unfold over; destruct (_ <=? _); rewrite ?app_nil_r|]. split; [|done].
    rewrite insert_insert_eq. exact (same_slots_insert h _ _ _ lf2 Hs Ht').
  - wp_steps. cbn [snd with_heap win_heap]. rewrite app_nil_r. split; [done|]. split; [|done].
    exact (same_slots_insert h _ _ _ lf2 Hs Ht').
Qed.

Lemma process_Check_exact ShouldCheck appender s :
  checker_inv s → answers_triggers ShouldCheck →
  wp (process_Check CheckType MonitorType ShouldCheck appender)
    (λ r s', checker_inv s' ∧ PidWithInfos s' = PidWithInfos s ∧
             snd r = range (PidWithInfos s) ≫= λ x, due_causes ShouldCheck (win_heap s) (snd x)) s.
Proof.
  intros Hi Ha. unfold process_Check. wp_steps. set (h := win_heap s). set (l := range (PidWithInfos s)).
  eapply wp_mono; [apply (wp_fold_act (λ dn r s', same_slots h (win_heap s') ∧
      s' = with_heap s (win_heap s') ∧ snd r = dn ≫= λ x, due_causes ShouldCheck h (snd x)))|].
  - split; [apply same_slots_refl|]. split; [by destruct s|done].
  - intros dn [pid i] r s' Hin%elem_of_range (Hs & Hs' & Hr).
    pose proof (sy_sized _ _ _ Hi _ _ Hin) as Hz.
    eapply wp_mono; [apply (wp_fold_act (λ dn2 r2 s2, same_slots h (win_heap s2) ∧
        s2 = with_heap s (win_heap s2) ∧ snd r2 = snd r ++ due_causes ShouldCheck h
          (MkProcessInfo (pb_Process i) (pb_Windows i) dn2)))|].
    + split; [done|]. split; [done|]. cbn. by rewrite app_nil_r.
    + intros dn2 [threshold item] [a causes] s2 Hin2 (Hs2 & Hs2' & Hr2).
      assert (Ht : has_trigger item).
      { pose proof Hz as (_ & _ & _ & _ & Hall). rewrite Forall_forall in Hall. apply Hall.
        by apply (list_elem_of_fmap_2 snd) in Hin2. }
      eapply wp_mono; [by apply policy_check_exact|]. intros r3 s3 (Hr3 & Hs3 & Hs3').
      split; [done|]. split; [by rewrite Hs3', Hs2'|]. rewrite Hr3. cbn [snd] in Hr2. rewrite Hr2.
      unfold due_causes. cbn [pb_Policies pb_Process pb_Windows]. by rewrite bind_app, <- app_assoc.
    + intros r2 s2 (Hs2 & Hs2' & Hr2). split; [done|]. split; [done|].
      rewrite Hr2, Hr, bind_app. cbn [mbind list_bind snd]. rewrite app_nil_r. by destruct i.
  - intros r s' (Hs & Hs' & Hr). rewrite Hs'. split; [|by split].
    apply checker_inv_lengths; [done|]. by apply same_slots_lengths.
Qed.

(** *** Every run of the checker *)

Inductive process_op : Type :=
| OpSync (policies : list SyncPolicyWithProcesses)
| OpFetch (data : positive → option V) (now : Z)
| OpCheck (ShouldCheck : positive → PolicyItem → res Empty_set bool) (appender : MetricsAppender).

Definition process_run_op (op : process_op) : act C Empty_set unit :=
  match op with
  | OpSync policies => process_SyncPolicies CheckType ThresholdGenerate policies
  | OpFetch data now => _ ← process_Fetch data now; mret tt
  | OpCheck ShouldCheck appender => _ ← process_Check CheckType MonitorType ShouldCheck appender; mret tt
  end.

Definition process_run (ops : list process_op) : act C Empty_set unit :=
  fold_act (λ _ op, process_run_op op) tt ops.

Definition valid_op (op : process_op) : Prop :=
  match op with
  | OpSync policies => valid_policies policies
  | OpCheck ShouldCheck _ => answers_triggers ShouldCheck
  | _ => True
  end.

Lemma new_checker_inv : checker_inv NewProcessBasedChecker.
Proof.
  assert (He : ∀ l p, ¬ owns ∅ l p) by (intros l p (i & Hi & _); by rewrite lookup_empty in Hi).
  split; cbn.
  - intros l p1 p2 [H1|H1]; by exfalso; eapply He.
  - intros l p [H1|H1]; by exfalso; eapply He.
  - intros pid i Hi. by rewrite lookup_empty in Hi.
  - intros pid i Hi. by rewrite lookup_empty in Hi.
Qed.

Lemma process_run_op_inv op s :
  valid_op op → checker_inv s → wp (process_run_op op) (λ _ s', checker_inv s') s.
Proof.
  intros Hv Hi. destruct op as [policies|data now|ShouldCheck appender]; cbn [process_run_op].
  - eapply wp_mono; [by apply process_Sync_exact|]. by intros ? ? [? _].
  - wp_steps. eapply wp_mono; [by apply process_Fetch_keeps|]. intros ? ? [? _]. by wp_steps.
  - wp_steps. eapply wp_mono; [by apply process_Check_exact|]. intros ? ? [? _]. by wp_steps.
Qed.

Lemma process_run_inv ops :
  Forall valid_op ops → wp (process_run ops) (λ _ s, checker_inv s) NewProcessBasedChecker.
Proof.
  intros Hv. rewrite Forall_forall in Hv.
  apply (wp_fold_act (λ _ _ s, checker_inv s)); [apply new_checker_inv|].
  intros dn op [] s Hin Hi. apply process_run_op_inv; auto.
Qed.

(** C14: A checker of processes never panics and reports exactly what is due.  After any
    sequence of synchronizations with policies that have positive periods and a profiling
    type with a trigger, fetches and checks, a check returns when the triggers answer, and its
    causes are, for each process of the checker and each of its policies that the trigger of
    its type lets through (no task of it runs or is silent), one cause when at least [Count]
    slots of the window of the process are over the threshold, with the value of the oldest
    such slot. *)
Theorem process_checker_reports_due_causes ops ShouldCheck appender :
  Forall valid_op ops → answers_triggers ShouldCheck →
  wp (process_run ops)
    (λ _ s, wp (process_Check CheckType MonitorType ShouldCheck appender)
              (λ r _, snd r = range (PidWithInfos s) ≫=
                                λ x, due_causes ShouldCheck (win_heap s) (snd x)) s)
    NewProcessBasedChecker.
Proof.
  intros Hv Ha. eapply wp_mono; [by apply process_run_inv|]. cbn beta. intros [] s Hi.
  eapply wp_mono; [by apply process_Check_exact|]. by intros r s' (_ & _ & ?).
Qed.

(** A synchronization leaves exactly the processes that the policies name.  After any
    such run, a synchronization returns; the checker then has information for every pid of
    a process with an enabled item and for no other pid, the information has the items of
    its process with their thresholds, and a pid that was already watched keeps its window. *)
Theorem process_checker_follows_policies ops policies :
  Forall valid_op ops → valid_policies policies →
  wp (process_run ops)
    (λ _ s, wp (process_SyncPolicies CheckType ThresholdGenerate policies)
              (λ _ s', synced (items_for enabled policies) (PidWithInfos s) (PidWithInfos s')) s)
    NewProcessBasedChecker.
Proof.
  intros Hv Hp. eapply wp_mono; [by apply process_run_inv|]. cbn beta. intros [] s Hi.
  eapply wp_mono; [by apply process_Sync_exact|]. by intros r s' (_ & ?).
Qed.

End process.

(** ** The HTTP checker *)

Section http.
Context `{!RangeOrder} `{!Processes} {W : Type} `{!WindowData BufferEvent float64 W}.
Local Notation C := (Checker HTTPBasedCheckerProcessInfo W).
Implicit Types s : C.

(** An item without a list of URIs and with a trigger, with its window. *)
Definition plain_item (h : gmap positive (TimeWindows W))
    (x : PolicyItem * HTTPBasedCheckerPolicyItemWindows) : Prop :=
  URIList (fst x) = [] ∧ has_trigger (fst x) ∧ uriWithTimeWindows (snd x) = ∅ ∧
  ∃ l, defaultTimeWindows (snd x) = Some l ∧ l ∈ dom h.

Definition plain_info (h : gmap positive (TimeWindows W)) (i : HTTPBasedCheckerProcessInfo) : Prop :=
  ∀ k x, PolicyWithWindows i !! k = Some x → plain_item h x.

Definition plain_infos (h : gmap positive (TimeWindows W)) (m : gmap Z HTTPBasedCheckerProcessInfo) : Prop :=
  ∀ pid i, m !! pid = Some i → plain_info h i.

(** The information of the checker, and windows that are never dropped. *)
Definition grown (s s' : C) : Prop :=
  PidWithInfos s' = PidWithInfos s ∧ dom (win_heap s) ⊆ dom (win_heap s') ∧ network s' = network s.

Lemma plain_item_grows h h' x : dom h ⊆ dom h' → plain_item h x → plain_item h' x.
Proof. intros Hd (? & ? & ? & l & ? & ?). split_and!; try done. exists l. split; [done|]. set_solver. Qed.

Lemma plain_infos_grow h h' m : dom h ⊆ dom h' → plain_infos h m → plain_infos h' m.
Proof. intros Hd Hm pid i Hi k x Hx. eapply plain_item_grows; [done|]. by eapply Hm. Qed.

Lemma wp_window_grows {A} (l : positive) (f : TimeWindows W → res Empty_set (A * TimeWindows W)) s :
  l ∈ dom (win_heap s) → (∀ t, ∃ a t', f t = Ok (a, t')) →
  wp (on_window (Info := HTTPBasedCheckerProcessInfo) (Some l) f) (λ _ s', grown s s') s.
Proof.
  intros [t Ht]%elem_of_dom Hf. destruct (Hf t) as (a & t' & Ha).
  eapply wp_on_window; [done|done|]. split; [done|]. cbn. rewrite dom_insert. split; [set_solver|done].
Qed.

Lemma wp_new_window_grows items s :
  wp (new_window (Info := HTTPBasedCheckerProcessInfo) items) (λ l s', grown s s' ∧ l ∈ dom (win_heap s')) s.
Proof. unfold wp, new_window, grown. cbn. rewrite dom_insert. split_and!; set_solver. Qed.

Lemma grown_trans s1 s2 s3 : grown s1 s2 → grown s2 s3 → grown s1 s3.
Proof. unfold grown. intros (-> & ? & <-) (-> & ? & <-). split_and!; set_solver. Qed.

(** Plain information, and a package network without objects of a failed load. *)
Definition http_inv (s : C) : Prop := plain_infos (win_heap s) (PidWithInfos s) ∧ net_ready (network s).

Lemma grown_inv s s' : grown s s' → http_inv s → http_inv s'.
Proof.
  intros (Hp & Hg & Hn) [Hi Hr]. unfold http_inv. rewrite Hp, Hn. split; [|done]. by eapply plain_infos_grow.
Qed.

Context (CheckType : string) (ThresholdGenerate : string → option float64) (compiles : string → bool).

Lemma older_windows_plain h i item olderInfo :
  plain_info h i → older_windows (Some i) item = Some olderInfo →
  ∃ l, defaultTimeWindows olderInfo = Some l ∧ l ∈ dom h.
Proof.
  unfold older_windows. intros Hi Ho. apply fmap_Some in Ho as ([it iw] & Hh & ->).
  apply head_Some_elem_of in Hh. apply list_elem_of_filter in Hh as [_ Hin].
  apply list_elem_of_fmap in Hin as ([k x] & Hx & Hin). cbn in Hx. subst x.
  apply elem_of_range in Hin. destruct (Hi _ _ Hin) as (_ & _ & _ & l & ? & ?). by exists l.
Qed.

(** The windows of an item without URIs, reused or created. *)
Lemma item_windows_plain older item val s :
  from_option (plain_info (win_heap s)) True older → URIList item = [] → has_trigger item →
  wp (match older_windows older item with
      | Some olderInfo => i ← reuse_windows item val olderInfo; mret (Some i)
      | None => create_windows compiles item val
      end)
    (λ o s', grown s s' ∧ from_option (λ i, plain_item (win_heap s') (item, i)) True o) s.
Proof.
  intros Hold Hu Ht. destruct (older_windows older item) as [olderInfo|] eqn:Ho.
  - destruct older as [i|]; [|done].
    destruct (older_windows_plain _ _ _ _ Hold Ho) as (l & Hl & Hd).
    unfold reuse_windows. rewrite Hu, Hl. wp_steps.
    eapply wp_mono; [apply wp_window_grows; [done|by eauto]|]. cbn beta. intros [] s' Hg. wp_steps.
    split; [done|]. split_and!; try done. exists l. split; [done|]. destruct Hg as (_ & ? & _). set_solver.
  - unfold create_windows. rewrite Hu. destruct (bool_decide _); [|destruct (compiles _)].
    1,2: wp_steps; (eapply wp_mono; [apply wp_new_window_grows|]); intros l s' [Hg Hd]; wp_steps;
      (split; [done|]); split_and!; try done; by exists l.
    wp_steps. split; [|done]. split_and!; [done|set_solver|done].
Qed.

Lemma http_info_plain older p items s :
  from_option (plain_info (win_heap s)) True older → Forall (λ i, URIList i = [] ∧ has_trigger i) items →
  wp (http_info ThresholdGenerate compiles p older items)
    (λ i s', grown s s' ∧ plain_info (win_heap s') i) s.
Proof.
  intros Hold Hu. rewrite Forall_forall in Hu. unfold http_info. wp_steps.
  eapply wp_mono; [apply (wp_fold_act (λ _ m s', grown s s' ∧
      ∀ k x, m !! k = Some x → plain_item (win_heap s') x))|].
  - split; [|done]. split_and!; [done|set_solver|done].
  - intros dn item m s1 Hin [Hg Hm]. wp_steps. eapply wp_mono; [apply item_windows_plain|].
    + destruct older as [i|]; [|done]. cbn in *. intros k x Hx. destruct Hg as (_ & Hg & _).
      eapply plain_item_grows; [exact Hg|]. by eapply Hold.
    + by apply Hu.
    + by apply Hu.
    + intros o s2 [Hg2 Ho]. wp_steps. split; [by eapply grown_trans|].
      assert (Hm2 : ∀ k x, m !! k = Some x → plain_item (win_heap s2) x).
      { intros k x Hx. destruct Hg2 as (_ & Hg2 & _). eapply plain_item_grows; [exact Hg2|]. eauto. }
      destruct o as [i|]; [|done]. intros k x Hx. destruct (decide (pi_ptr item = k)) as [<-|Hne].
      * rewrite lookup_insert_eq in Hx. by injection Hx as <-.
      * rewrite lookup_insert_ne in Hx by done. eauto.
  - intros m s' [Hg Hm]. by wp_steps.
Qed.

(** Policies without lists of URIs, of types that have a trigger. *)
Definition without_uris (policies : list SyncPolicyWithProcesses) : Prop :=
  ∀ sp k i, sp ∈ policies → Items (sp_Policy sp) !! k = Some i → URIList i = [] ∧ has_trigger i.

Lemma items_without_uris policies p :
  without_uris policies →
  Forall (λ i, URIList i = [] ∧ has_trigger i) (items_for (enabled_item CheckType ThresholdGenerate) policies p).
Proof.
  intros Hv. apply Forall_forall. intros i (sp & k & Hsp & Hk)%items_for_from. by eapply Hv.
Qed.

(** The package network is told while loading works: the call returns, and only the package
    network changes. *)
Lemma watch_notify_wp outside pid isDelete s (Q : unit → C → Prop) :
  net_ready (network s) → LoadBPFAndAssign (outside pid) = true →
  (∀ n, net_ready n → Q tt (with_network n s)) → wp (watch_notify CheckType outside pid isDelete) Q s.
Proof.
  intros Hn Hl HQ.
  set (op := if isDelete then NetRemove (outside pid) pid CheckType else NetAdd (outside pid) pid CheckType).
  destruct (net_ready_step op (network s) Hn) as [Hp Hr].
  { unfold op. destruct isDelete; [by intros []|]. cbn. by rewrite Hl. }
  unfold wp, watch_notify.
  assert (Hop : (if isDelete then RemoveWatchProcess (outside pid) pid CheckType
    else AddWatchProcess (outside pid) pid CheckType) = net_perform op) by (unfold op; by destruct isDelete).
  rewrite Hop. destruct (net_perform op (network s)) as [[u|u|] n]; cbn in Hp, Hr; [auto..|done].
Qed.

Lemma http_Sync_keeps outside policies s :
  http_inv s → without_uris policies → (∀ pid, LoadBPFAndAssign (outside pid) = true) →
  wp (http_SyncPolicies CheckType ThresholdGenerate compiles outside policies) (λ _ s', http_inv s') s.
Proof.
  intros [Hi Hnet] Hv Hload. unfold http_SyncPolicies, SyncPolicies. wp_steps. set (old := PidWithInfos s).
  eapply wp_mono; [apply (wp_fold_act (λ _ r s', dom (win_heap s) ⊆ dom (win_heap s') ∧
                                                 plain_infos (win_heap s') r ∧ net_ready (network s')))|].
  - split_and!; [done| |done]. intros pid i Hx. by rewrite lookup_empty in Hx.
  - intros dn [p its] r s1 [-> Hne]%range_items (Hd & Hr & Hn1). wp_steps.
    assert (Hinfo : ∀ s2, win_heap s2 = win_heap s1 → net_ready (network s2) →
        wp (http_info ThresholdGenerate compiles p (old !! p_Pid p)
        (items_for (enabled_item CheckType ThresholdGenerate) policies p))
        (λ i s', dom (win_heap s) ⊆ dom (win_heap s') ∧ plain_infos (win_heap s') (<[p_Pid p := i]> r) ∧
                 net_ready (network s')) s2).
    { intros s2 Hs2 Hn2. eapply wp_mono; [apply http_info_plain; [|by apply items_without_uris]|].
      - destruct (old !! p_Pid p) as [o|] eqn:Ho; [|done]. cbn. rewrite Hs2.
        exact (plain_infos_grow _ _ _ Hd Hi _ _ Ho).
      - intros i s3 [(_ & Hg & ->) Hp]. rewrite Hs2 in Hg. split_and!; [set_solver| |done]. intros pid j Hj.
        destruct (decide (p_Pid p = pid)) as [<-|Hne'].
        + rewrite lookup_insert_eq in Hj. by injection Hj as <-.
        + rewrite lookup_insert_ne in Hj by done. exact (plain_infos_grow _ _ _ Hg Hr _ _ Hj). }
    destruct (bool_decide _).
    + apply watch_notify_wp; [done|done|]. intros n Hn. wp_steps.
      eapply wp_mono; [by apply Hinfo|]. intros i s3 Hx. by wp_steps.
    + wp_steps. eapply wp_mono; [by apply Hinfo|]. intros i s3 Hx. by wp_steps.
  - intros r s1 (Hd & Hr & Hn1). wp_steps.
    eapply wp_mono; [apply (wp_fold_act (λ _ _ s', win_heap s' = win_heap s1 ∧ net_ready (network s'))); [done|]|].
    + intros dn [k i] [] s' _ [Hx Hn']. destruct (bool_decide _); [|done]. by apply watch_notify_wp.
    + cbn beta. intros [] s' [Hx Hn']. wp_steps. unfold http_inv. cbn. by rewrite Hx.
Qed.

End http.

Section http_event.
Context `{!RangeOrder} {W : Type} `{!WindowData BufferEvent float64 W}.
Context (MatchString : string → string → bool).
Implicit Types s : Checker HTTPBasedCheckerProcessInfo W.

Lemma ReceiveBufferEvent_grows event s :
  http_inv s → wp (ReceiveBufferEvent MatchString event) (λ _ s', grown s s') s.
Proof.
  intros Hi. unfold ReceiveBufferEvent. wp_steps.
  destruct (PidWithInfos s !! be_Pid event) as [info|] eqn:Hinfo; [|by split_and!].
  apply (wp_fold_act (λ _ _ s', grown s s')); [by split_and!|].
  intros dn [k [item i]] [] s1 Hin%elem_of_range Hg. unfold event_window.
  destruct (proj1 Hi _ _ Hinfo _ _ Hin) as (_ & _ & Hu & l & Hl & Hd). cbn [snd] in Hu, Hl. rewrite Hu, Hl.
  rewrite bool_decide_eq_true_2 by done. cbn [negb].
  assert (Hadd : wp (on_window (Info := HTTPBasedCheckerProcessInfo) (Some l)
     (λ t, t' ← Add (be_StartTime event) event t; Ok (tt, t'))) (λ _ s', grown s s') s1).
  { eapply wp_mono; [apply wp_window_grows|by intros [] s' ?; eapply grown_trans].
    - destruct Hg as (_ & Hg & _). set_solver.
    - intros t. destruct (Add_total (be_StartTime event) event t) as (t' & -> & _). by eexists _, _. }
  destruct (uriRegex i) as [re|]; [|done]. destruct (MatchString _ _); [done|]. by wp_steps.
Qed.

End http_event.

Section http_check.
Context `{!RangeOrder} `{!Processes} {W : Type} `{!WindowData BufferEvent float64 W}.
Context (CheckType : string) (MonitorType : Z).
Implicit Types s : Checker HTTPBasedCheckerProcessInfo W.

Lemma http_item_check_grows ShouldCheck process st k item i s :
  plain_item (win_heap s) (item, i) → answers_triggers ShouldCheck →
  wp (http_item_check CheckType MonitorType ShouldCheck process st (k, (item, i))) (λ _ s', grown s s') s.
Proof.
  intros (_ & Ht & Hu & l & Hl & Hd) Ha. cbn [fst snd] in *. destruct st as [appender causes].
  unfold http_item_check, flushMetrics, match_uri. rewrite Hu, Hl.
  assert (Hempty : range (∅ : gmap string positive) = []).
  { apply Permutation_nil. by rewrite range_perm, map_to_list_empty. }
  rewrite Hempty. cbn [fold_act]. wp_steps.
  eapply wp_mono; [apply wp_window_grows; [done|]|].
  { intros t. destruct (FlushMultipleRecentData t) as [[d b] t']. by eexists _, _. }
  intros [data upd] s1 Hg. wp_steps. destruct (Ha process item Ht) as [should ->]. apply wp_lift.
  destruct (negb should); wp_steps; [done|].
  eapply wp_mono; [apply wp_window_grows; [destruct Hg as (_ & ? & _); set_solver|by eauto]|].
  intros [lm m] s2 Hg2. wp_steps. by eapply grown_trans.
Qed.

Lemma http_Check_grows ShouldCheck appender s :
  http_inv s → answers_triggers ShouldCheck → wp (http_Check CheckType MonitorType ShouldCheck appender) (λ _ s', grown s s') s.
Proof.
  intros [Hi _] Ha. unfold http_Check. wp_steps.
  apply (wp_fold_act (λ _ _ s', grown s s')); [by split_and!|].
  intros dn [pid info] st s1 Hin%elem_of_range Hg.
  apply (wp_fold_act (λ _ _ s', grown s s')); [done|].
  intros dn2 [k [item i]] st2 s2 Hin2%elem_of_range Hg2.
  eapply wp_mono; [apply http_item_check_grows; [|done]|intros r s3 Hx; exact (grown_trans _ _ _ Hg2 Hx)].
  destruct Hg2 as (_ & Hg2 & _). eapply plain_item_grows; [exact Hg2|]. by eapply Hi.
Qed.

End http_check.

(** *** Every run of the checker *)

Section http_runs.
Context `{!RangeOrder} `{!Processes} {W : Type} `{!WindowData BufferEvent float64 W}.
Context (CheckType : string) (MonitorType : Z) (ThresholdGenerate : string → option float64).
Context (compiles : string → bool) (MatchString : string → string → bool).
Local Notation C := (Checker HTTPBasedCheckerProcessInfo W).

Inductive http_op : Type :=
| HttpSync (outside : Z → answers) (policies : list SyncPolicyWithProcesses)
| HttpEvent (event : BufferEvent)
| HttpCheck (ShouldCheck : positive → PolicyItem → res Empty_set bool) (appender : MetricsAppender).

Definition http_run_op (op : http_op) : act C Empty_set unit :=
  match op with
  | HttpSync outside policies => http_SyncPolicies CheckType ThresholdGenerate compiles outside policies
  | HttpEvent event => ReceiveBufferEvent MatchString event
  | HttpCheck ShouldCheck appender => _ ← http_Check CheckType MonitorType ShouldCheck appender; mret tt
  end.

Definition http_run (ops : list http_op) : act C Empty_set unit :=
  fold_act (λ _ op, http_run_op op) tt ops.

Definition http_valid_op (op : http_op) : Prop :=
  match op with
  | HttpSync outside policies => without_uris policies ∧ ∀ pid, LoadBPFAndAssign (outside pid) = true
  | HttpCheck ShouldCheck _ => answers_triggers ShouldCheck
  | _ => True
  end.

(** The HTTP checker does not panic when no policy has a list of URIs, the triggers answer
    and the BPF programs can be loaded: any sequence of synchronizations with such policies,
    events of the kernel and checks returns, whatever the regular expressions, the order of
    the maps and the times are.  (With a list of URIs
    the second synchronization makes the next check panic, see the samples.) *)
Theorem http_checker_no_panic ops :
  Forall http_valid_op ops → wp (http_run ops) (λ _ s, http_inv s) NewHTTPBasedChecker.
Proof.
  intros Hv. rewrite Forall_forall in Hv. apply (wp_fold_act (λ _ _ s, http_inv s)).
  { split; [|apply new_net_ready]. intros pid i Hx. cbn in Hx. by rewrite lookup_empty in Hx. }
  intros dn op [] s Hin Hi. specialize (Hv _ Hin).
  destruct op as [outside policies|event|ShouldCheck appender]; cbn [http_run_op].
  - destruct Hv. by apply http_Sync_keeps.
  - eapply wp_mono; [by apply ReceiveBufferEvent_grows|]. intros [] s' Hg. by eapply grown_inv.
  - wp_steps. eapply wp_mono; [by apply http_Check_grows|]. intros r s' Hg. wp_steps. exact (grown_inv _ _ Hg Hi).
Qed.

End http_runs.

(** ** Samples *)

Module CheckerSamples.

#[local] Existing Instance keys_order.

(** The processes 1 and 2 have the pids 10 and 20, the process 3 has the pid 10 as well. *)
Definition entity (service : string) : ProcessEntity :=
  MkProcessEntity "OS_LINUX" service "instance" "process" [].

#[local] Instance sample_processes : Processes := {|
  p_ID p := if bool_decide (p = 1%positive) then "one" else if bool_decide (p = 2%positive) then "two" else "three";
  p_Pid p := if bool_decide (p = 2%positive) then 20 else 10;
  p_Entity p := entity (if bool_decide (p = 3%positive) then "other" else "service")
|}.

Definition threads : string := "PROCESS_THREAD_COUNT".

(** A threshold of decimal digits, as the thread checker takes it. *)
Definition threshold (s : string) : option Z :=
  if bool_decide (s = "80") then Some 80 else if bool_decide (s = "5") then Some 5 else None.

Definition item (ptr : positive) (t : string) (period count : Z) : PolicyItem :=
  MkPolicyItem ptr t period count [] "" TargetProfilingTypeOnCPU.

Definition policy (check : string) (i : PolicyItem) (ps : gmap string positive) : SyncPolicyWithProcesses :=
  MkSync (MkPolicy TargetProfilingTypeOnCPU {[ check := i ]}) ps.

Definition policies1 : list SyncPolicyWithProcesses :=
  [policy threads (item 7 "80" 3 2) {[ "one" := 1%positive; "two" := 2%positive ]}].

Definition ops1 : list (process_op (V := Z)) :=
  [OpSync policies1;
   OpFetch (λ p, Some (if bool_decide (p = 1%positive) then 90 else 10)) second;
   OpCheck (λ _ _, Ok true) (NewMetricsAppender "rover" 1);
   OpFetch (λ p, Some (if bool_decide (p = 1%positive) then 85 else 10)) (2 * second)].

Lemma policies1_valid : valid_policies policies1.
Proof.
  intros sp k i Hsp%list_elem_of_singleton Hk. subst sp. cbn in Hk.
  apply lookup_singleton_Some in Hk as [_ <-]. by cbn.
Qed.

Lemma always_answers : answers_triggers (λ _ _, Ok true).
Proof. intros p i _. by exists true. Qed.

Lemma ops1_valid : Forall valid_op ops1.
Proof.
  unfold ops1. rewrite !Forall_cons. split_and!; [exact policies1_valid|done|exact always_answers|done|done].
Qed.

Lemma process_checker_reports_witness :
  wp (process_run threads 2 threshold ops1)
    (λ _ s, wp (process_Check threads 2 (λ _ _, Ok true) (NewMetricsAppender "rover" 2))
              (λ r _, snd r = range (PidWithInfos s) ≫=
                                λ x, due_causes 2 (λ _ _, Ok true) (win_heap s) (snd x)) s)
    NewProcessBasedChecker.
Proof.
  apply (process_checker_reports_due_causes threads 2 threshold ops1 (λ _ _, Ok true)
           (NewMetricsAppender "rover" 2)); [exact ops1_valid|exact always_answers].
Defined.

(** The run reports the first process, with the oldest value over the threshold. *)
Example first_process_reported :
  match process_run threads 2 threshold ops1 NewProcessBasedChecker with
  | (Ok _, s) =>
    match process_Check threads 2 (λ _ _, Ok true) (NewMetricsAppender "rover" 2) s with
    | (Ok r, _) => snd r = [SingleValueCause 1 (item 7 "80" 3 2) 2 (float_of_int 80) (float_of_int 90)]
    | _ => False
    end
  | _ => False
  end.
Proof. vm_compute. reflexivity. Qed.

Lemma process_checker_follows_witness :
  wp (process_run threads 2 threshold ops1)
    (λ _ s, wp (process_SyncPolicies threads threshold policies1)
              (λ _ s', synced threshold (items_for (enabled_item threads threshold) policies1)
                         (PidWithInfos s) (PidWithInfos s')) s)
    NewProcessBasedChecker.
Proof.
  apply (process_checker_follows_policies threads 2 threshold ops1 policies1); [exact ops1_valid|exact policies1_valid].
Defined.

(** Two processes of one pid, with policies of two services: the pid has the information of
    one of them only, here of the first process. *)
Definition policies_two_services : list SyncPolicyWithProcesses :=
  [policy threads (item 7 "80" 3 2) {[ "one" := 1%positive ]};
   policy threads (item 8 "5" 1 1) {[ "three" := 3%positive ]}].

Example one_entity_of_a_pid :
  match process_SyncPolicies threads threshold policies_two_services NewProcessBasedChecker with
  | (Ok _, s) => (λ x, (fst x, pb_Process (snd x))) <$> map_to_list (PidWithInfos s) = [(10, 1%positive)]
  | _ => False
  end.
Proof. vm_compute. reflexivity. Qed.

(** *** HTTP policies *)

Definition rate : string := "HTTP_ERROR_RATE".
Definition rate_threshold (s : string) : option float64 :=
  if bool_decide (s = "80") then Some (float_of_int 80) else None.

(** The expressions are prefixes. *)
Definition prefix_match (re uri : string) : bool := String.prefix re uri.

Definition http_sync := http_SyncPolicies (W := processNetworkResponseErrorStatics) rate rate_threshold
  (λ _, true) (λ _, NetSamples.works).
Definition http_event := ReceiveBufferEvent (W := processNetworkResponseErrorStatics) prefix_match.
Definition http_check := http_Check (W := processNetworkResponseErrorStatics) rate 4 (λ _ _, Ok true)
  (NewMetricsAppender "rover" 1).

Definition uri_item : PolicyItem :=
  MkPolicyItem 7 "80" 3 1 ["/a"; "/b"] "" TargetProfilingTypeNetwork.
Definition regex_item : PolicyItem :=
  MkPolicyItem 7 "80" 3 1 [] "/api" TargetProfilingTypeNetwork.
Definition global_item (ptr : positive) (period : Z) : PolicyItem :=
  MkPolicyItem ptr "80" period 1 [] "" TargetProfilingTypeNetwork.

Definition sample_event (uri : string) : BufferEvent := MkBufferEvent 10 uri true 1000000 second.

Definition global_ops : list http_op :=
  [HttpSync (λ _, NetSamples.works) [policy rate (global_item 7 3) {[ "one" := 1%positive ]}];
   HttpEvent (sample_event "/x");
   HttpSync (λ _, NetSamples.works) [policy rate (global_item 7 3) {[ "one" := 1%positive ]}];
   HttpCheck (λ _ _, Ok true) (NewMetricsAppender "rover" 1)].

Lemma http_checker_no_panic_witness :
  wp (http_run (W := processNetworkResponseErrorStatics) rate 4 rate_threshold (λ _, true) prefix_match
        global_ops) (λ _ s, http_inv s) NewHTTPBasedChecker.
Proof.
  apply (http_checker_no_panic (W := processNetworkResponseErrorStatics) rate 4 rate_threshold
           (λ _, true) prefix_match global_ops).
  unfold global_ops. rewrite !Forall_cons. split_and!; [|done| |exact always_answers|done];
    (split; [|done]); intros sp k i Hsp%list_elem_of_singleton Hk; subst sp; cbn in Hk;
    by apply lookup_singleton_Some in Hk as [_ <-].
Defined.

Definition result_of {S E A} (r : res E A * S) : option A :=
  match r with
  | (Ok a, _) => Some a
  | _ => None
  end.

(** A policy with a list of URIs is checked once; after a second synchronization with the
    same policy its default window is nil and the next check panics. *)
Definition uri_policies : list SyncPolicyWithProcesses := [policy rate uri_item {[ "one" := 1%positive ]}].

Example uri_list_checked :
  is_Some (result_of ((_ ← http_sync uri_policies; http_check) NewHTTPBasedChecker)).
Proof. vm_compute. eauto. Qed.

Example uri_list_resync_panics :
  fst ((_ ← http_sync uri_policies; _ ← http_sync uri_policies; http_check) NewHTTPBasedChecker) = Panic.
Proof. vm_compute. reflexivity. Qed.

(** A policy with a regular expression ignores other URIs; after a second synchronization
    the expression is gone, and every URI counts. *)
Definition regex_policies : list SyncPolicyWithProcesses := [policy rate regex_item {[ "one" := 1%positive ]}].

Example regex_filters :
  option_map snd (result_of ((_ ← http_sync regex_policies; _ ← http_event (sample_event "/other");
                              http_check) NewHTTPBasedChecker)) = Some [].
Proof. vm_compute. reflexivity. Qed.

Example regex_lost_by_resync :
  option_map snd (result_of ((_ ← http_sync regex_policies; _ ← http_sync regex_policies;
                              _ ← http_event (sample_event "/other"); http_check) NewHTTPBasedChecker))
  = Some [URICause false "" 1 regex_item 4 (float_of_int 80) (float_of_int 100)].
Proof. vm_compute. reflexivity. Qed.

(** Two items with the same filter have windows of their own; after a second
    synchronization they share one, with the period of the item that was synchronized last. *)
Definition two_globals : list SyncPolicyWithProcesses :=
  [policy rate (global_item 7 3) {[ "one" := 1%positive ]};
   policy rate (global_item 8 9) {[ "one" := 1%positive ]}].

Definition shapes (s : Checker HTTPBasedCheckerProcessInfo processNetworkResponseErrorStatics)
    : list (Z * list (option positive)) :=
  (λ x, (fst x, (λ y, defaultTimeWindows (snd (snd y))) <$> map_to_list (PolicyWithWindows (snd x))))
    <$> map_to_list (PidWithInfos s).

Example resync_shares_windows :
  let s1 := snd (http_sync two_globals NewHTTPBasedChecker) in
  let s2 := snd (http_sync two_globals s1) in
  (shapes s1, shapes s2) =
  ([(10, [Some 1%positive; Some 2%positive])], [(10, [Some 1%positive; Some 1%positive])]).
Proof. vm_compute. reflexivity. Qed.

End CheckerSamples.
