(* ===== verification/TaskManager.v ===== *)
(** * The manager of profiling tasks

    src/pkg/profiling/task: a command of the backend is parsed to a task (base/task.go,
    base/trigger.go, base/target.go), gets a context (context.go) and is started, extended,
    stopped and flushed by the manager (manager.go).

    The contexts are shared between the manager and its goroutines and live in a store.  The
    goroutines are threads of the state: one that waits for the start time of a task, one
    that is inside [Run] of its runner, and one that waits for the end of the task.  What a
    runner answers is an argument; [Stop] makes [Run] return, as its interface says.  A send
    on a full channel blocks the caller, which is the error [Blocked]. *)

From stdpp Require Import base gmap list strings.
From Stdlib Require Import ZArith Lia.
From S2P Require Import Prelude Interfaces GoStrings AccessLogTail.

(** ** Tasks (base/task.go) *)

Record NetworkDataCollectingSettings : Type := MkSettings {
  RequireCompleteRequest : bool;
  MaxRequestSize : Z;
  RequireCompleteResponse : bool;
  MaxResponseSize : Z
}.

Record NetworkSamplingRule : Type := MkSamplingRule {
  rule_URIRegex : option string;
  MinDuration : option Z;
  When4XX : bool;
  When5XX : bool;
  rule_Settings : option NetworkDataCollectingSettings
}.

Record ExtensionConfig : Type := MkExtensionConfig { NetworkSamplings : list NetworkSamplingRule }.

Inductive TriggerType : Type := TriggerTypeFixedTime.

Inductive TargetType : Type := TargetTypeOnCPU | TargetTypeOffCPU | TargetTypeNetworkTopology.

Global Instance TriggerType_eq_dec : EqDecision TriggerType.
Proof. solve_decision. Defined.
Global Instance TargetType_eq_dec : EqDecision TargetType.
Proof. solve_decision. Defined.

Definition trigger_name (t : TriggerType) : string := match t with TriggerTypeFixedTime => "FIXED_TIME" end.

Definition target_name (t : TargetType) : string :=
  match t with
  | TargetTypeOnCPU => "ON_CPU"
  | TargetTypeOffCPU => "OFF_CPU"
  | TargetTypeNetworkTopology => "NETWORK"
  end.

Record ProfilingTask : Type := MkTask {
  TaskID : string;
  ProcessIDList : list string;
  UpdateTime : Z;
  StartTime : Z;
  task_TriggerType : TriggerType;
  task_TargetType : TargetType;
  MaxRunningDuration : Z;
  task_ExtensionConfig : option ExtensionConfig
}.

(** A command of the backend: its name and its arguments. *)
Record Command : Type := MkCommand {
  GetCommand : string;
  GetArgs : list (string * string)
}.

Fixpoint find_arg (key : string) (args : list (string * string)) : option string :=
  match args with
  | [] => None
  | (k, v) :: args' => if bool_decide (k = key) then Some v else find_arg key args'
  end.

Definition getCommandStringValue (command : Command) (key : string) : option string :=
  find_arg key (GetArgs command).

Definition getCommandIntValue (command : Command) (key : string) : option Z :=
  val ← getCommandStringValue command key; Atoi val.

Definition ParseTriggerType (val : string) : option TriggerType :=
  if bool_decide (val = trigger_name TriggerTypeFixedTime) then Some TriggerTypeFixedTime else None.

Definition ParseTargetType (val : string) : option TargetType :=
  if bool_decide (val = target_name TargetTypeOnCPU) then Some TargetTypeOnCPU
  else if bool_decide (val = target_name TargetTypeOffCPU) then Some TargetTypeOffCPU
  else if bool_decide (val = target_name TargetTypeNetworkTopology) then Some TargetTypeNetworkTopology
  else None.

(** [TriggerType.InitTask]: the duration of a fixed time task, in nanoseconds. *)
Definition trigger_InitTask (task : ProfilingTask) (command : Command) : option ProfilingTask :=
  match task_TriggerType task with
  | TriggerTypeFixedTime =>
    val ← getCommandIntValue command "FixedTriggerDuration";
    Some (MkTask (TaskID task) (ProcessIDList task) (UpdateTime task) (StartTime task)
            (task_TriggerType task) (task_TargetType task) (i64 (val * second))
            (task_ExtensionConfig task))
  end.

Section parsing.
(** [json.Unmarshal] of the extension. *)
Variable unmarshal : string → option ExtensionConfig.

Definition getCommandExtensionConfig (command : Command) (key : string) : option ExtensionConfig :=
  val ← getCommandStringValue command key; unmarshal val.

(** The error of a lookup is handed to the next one, so the first error is returned. *)
Definition ProfilingTaskFromCommand (command : Command) : option ProfilingTask :=
  if negb (bool_decide (GetCommand command = "EBPFProfilingTaskQuery")) then None
  else
    taskID ← getCommandStringValue command "TaskId";
    processIDList ← getCommandStringValue command "ProcessId";
    taskUpdateTime ← getCommandIntValue command "TaskUpdateTime";
    triggerTypeStr ← getCommandStringValue command "TriggerType";
    triggerType ← ParseTriggerType triggerTypeStr;
    targetTypeStr ← getCommandStringValue command "TargetType";
    targetType ← ParseTargetType targetTypeStr;
    taskStartTime ← getCommandIntValue command "TaskStartTime";
    extensionConfig ← getCommandExtensionConfig command "ExtensionConfigJSON";
    trigger_InitTask
      (MkTask taskID (Split processIDList ",") taskUpdateTime taskStartTime triggerType targetType 0
         (Some extensionConfig)) command.

End parsing.

(** A task of continuous profiling; [taskSetter] fills in the rest. *)
Definition ProfilingTaskFromContinuous (ids : list string) (taskSetter : ProfilingTask → ProfilingTask)
    : ProfilingTask :=
  taskSetter (MkTask "" ids 0 0 TriggerTypeFixedTime TargetTypeOnCPU 0 None).

(** ** Contexts (context.go) *)

Inductive RunningStatus : Type := NotRunning | Running | Stopped.

Global Instance RunningStatus_eq_dec : EqDecision RunningStatus.
Proof. solve_decision. Defined.

Record Context : Type := MkContext {
  c_task : ProfilingTask;
  c_processes : list positive;
  c_status : RunningStatus;
  startRunningTime : option Z;
  runningWg : option positive;
  recalcDuration : bool;
  c_done : bool
}.

(** [%v] of a list of strings. *)
Definition print_strings (l : list string) : string := "[" +:+ Join l " " +:+ "]".

Definition task_identity (t : ProfilingTask) : string :=
  print_strings (ProcessIDList t) +:+ "_" +:+ target_name (task_TargetType t) +:+ "_"
    +:+ trigger_name (task_TriggerType t).

Definition BuildTaskIdentity (c : Context) : string := task_identity (c_task c).

(** [sort.Strings]: in the order of the bytes. *)
Definition sort_Strings (l : list string) : list string := sort_Slice String.ltb l.

Definition sorted_task (t : ProfilingTask) : ProfilingTask :=
  MkTask (TaskID t) (sort_Strings (ProcessIDList t)) (UpdateTime t) (StartTime t)
    (task_TriggerType t) (task_TargetType t) (MaxRunningDuration t) (task_ExtensionConfig t).

(** The comparison of [IsSameTask], on tasks whose processes are sorted. *)
Definition same_task (task1 task2 : ProfilingTask) : bool :=
  bool_decide (TaskID task1 = TaskID task2) &&
  bool_decide (ProcessIDList task1 = ProcessIDList task2) &&
  (StartTime task1 =? StartTime task2) &&
  bool_decide (task_TriggerType task1 = task_TriggerType task2) &&
  bool_decide (task_TargetType task1 = task_TargetType task2).

Definition with_task (t : ProfilingTask) (c : Context) : Context :=
  MkContext t (c_processes c) (c_status c) (startRunningTime c) (runningWg c) (recalcDuration c) (c_done c).

(** [CheckTaskRunnable] at a time in nanoseconds. *)
Definition CheckTaskRunnable (now : Z) (c : Context) : bool :=
  match task_TriggerType (c_task c) with
  | TriggerTypeFixedTime =>
    let endTime := (StartTime (c_task c) * 1000000 + MaxRunningDuration (c_task c)) / 1000000 in
    negb (endTime <? now / 1000000)
  end.

Definition IsRunning (c : Context) : bool := bool_decide (c_status c = Running).

(** ** The manager (manager.go) *)

(** A goroutine: it waits for the start time, is inside [Run] with its wait group (and has
    notified its start or not), or waits for the end of the task. *)
Inductive thread : Type :=
| TSchedule (c : positive) (deadline : Z)
| TRun (c : positive) (wg : positive) (notified : bool)
| TDuration (c : positive) (deadline : Z).

Global Instance thread_eq_dec : EqDecision thread.
Proof. solve_decision. Defined.

Record Manager : Type := MkManager {
  tasks : gmap string positive;
  ctxs : gmap positive Context;
  next_ctx : positive;
  next_wg : positive;
  lastUpdateTime : Z;
  threads : list thread
}.

Inductive blocked : Type := Blocked.

Notation mgr := (act Manager blocked).

Definition NewManager : Manager := MkManager ∅ ∅ 1 1 0 [].

Definition set_tasks (f : gmap string positive → gmap string positive) (m : Manager) : Manager :=
  MkManager (f (tasks m)) (ctxs m) (next_ctx m) (next_wg m) (lastUpdateTime m) (threads m).

Definition set_ctxs (f : gmap positive Context → gmap positive Context) (m : Manager) : Manager :=
  MkManager (tasks m) (f (ctxs m)) (next_ctx m) (next_wg m) (lastUpdateTime m) (threads m).

Definition set_threads (f : list thread → list thread) (m : Manager) : Manager :=
  MkManager (tasks m) (ctxs m) (next_ctx m) (next_wg m) (lastUpdateTime m) (f (threads m)).

Definition spawn (t : thread) : mgr unit := modify (set_threads (λ l, l ++ [t])).

Definition ctx_of (c : positive) : mgr Context := m ← get; lift (must (ctxs m !! c)).

Definition update_ctx (c : positive) (f : Context → Context) : mgr unit := modify (set_ctxs (alter f c)).

(** [IsSameTask] sorts the processes of both tasks in place. *)
Definition IsSameTask (c other : positive) : mgr bool :=
  _ ← update_ctx c (λ x, with_task (sorted_task (c_task x)) x);
  _ ← update_ctx other (λ x, with_task (sorted_task (c_task x)) x);
  x ← ctx_of c;
  y ← ctx_of other;
  mret (same_task (c_task x) (c_task y)).

(** A new context in the store. *)
Definition alloc_ctx (c : Context) : mgr positive := λ m,
  (Ok (next_ctx m),
   MkManager (tasks m) (<[next_ctx m := c]> (ctxs m)) (Pos.succ (next_ctx m)) (next_wg m)
     (lastUpdateTime m) (threads m)).

Definition new_context (t : ProfilingTask) (processes : list positive) : Context :=
  MkContext t processes NotRunning None None false false.

(** The goroutine inside [Run] ends: its wait group is done and the task is stopped. *)
Definition is_run_of (wg : positive) (t : thread) : Prop :=
  match t with
  | TRun _ wg' _ => wg' = wg
  | _ => False
  end.

Global Instance is_run_of_dec wg t : Decision (is_run_of wg t).
Proof. destruct t; cbn; apply _. Defined.

Definition set_status (st : RunningStatus) (c : Context) : Context :=
  MkContext (c_task c) (c_processes c) st (startRunningTime c) (runningWg c) (recalcDuration c) (c_done c).

Definition run_ends (wg : positive) : mgr unit :=
  m ← get;
  match filter (is_run_of wg) (threads m) with
  | TRun c _ _ :: _ =>
    _ ← update_ctx c (set_status Stopped);
    modify (set_threads (filter (λ t, ¬ is_run_of wg t)))
  | _ => mret tt
  end.

Definition cancel_ctx (c : Context) : Context :=
  MkContext (c_task c) (c_processes c) (c_status c) (startRunningTime c) (runningWg c) (recalcDuration c) true.

(** [Stop] has the answer [stop]; waiting for the wait group is the end of the run. *)
Definition shutdownTask (stop : positive → bool) (c : positive) : mgr bool :=
  x ← ctx_of c;
  match runningWg x with
  | None => mret true
  | Some wg =>
    _ ← run_ends wg;
    _ ← update_ctx c cancel_ctx;
    mret (stop c)
  end.

Definition ShutdownAndRemoveTask (stop : positive → bool) (c : positive) : mgr bool :=
  ok ← shutdownTask stop c;
  x ← ctx_of c;
  _ ← modify (set_tasks (delete (BuildTaskIdentity x)));
  mret ok.

Definition set_wg (wg : positive) (c : Context) : Context :=
  MkContext (c_task c) (c_processes c) (c_status c) (startRunningTime c) (Some wg) (recalcDuration c) (c_done c).

Definition runTask (c : positive) : mgr unit :=
  m ← get;
  let wg := next_wg m in
  _ ← put (MkManager (tasks m) (ctxs m) (next_ctx m) (Pos.succ wg) (lastUpdateTime m) (threads m));
  _ ← update_ctx c (set_wg wg);
  spawn (TRun c wg false).

Definition set_recalc (b : bool) (c : Context) : Context :=
  MkContext (c_task c) (c_processes c) (c_status c) (startRunningTime c) (runningWg c) b (c_done c).

(** Notify to calculate the end again: the channel has room for one notification. *)
Definition send_recalc (c : positive) : mgr unit :=
  x ← ctx_of c;
  if recalcDuration x then raise Blocked else update_ctx c (set_recalc true).

(** A task whose start time lies ahead waits for [time.Since] of it, which is negative:
    the timer of the goroutine fires at once. *)
Definition StartTask (now : Z) (stop : positive → bool) (c : positive) : mgr unit :=
  x ← ctx_of c;
  let taskIdentity := BuildTaskIdentity x in
  m ← get;
  start ← match tasks m !! taskIdentity with
          | None => mret true
          | Some existTask =>
            same ← IsSameTask c existTask;
            if (same : bool) then _ ← send_recalc c; mret false
            else ShutdownAndRemoveTask stop existTask
          end;
  if negb start then mret tt
  else
    _ ← modify (set_tasks <[taskIdentity := c]>);
    x ← ctx_of c;
    if StartTime (c_task x) <=? Z.quot now 1000000 then runTask c
    else
      let afterRun := now - StartTime (c_task x) * 1000000 in
      spawn (TSchedule c (now + Z.max 0 afterRun)).

(** ** Contexts of commands *)

Section building.
Variable unmarshal : string → option ExtensionConfig.
(** The process module: the process of an ID. *)
Variable FindProcessByID : string → option positive.
(** Whether the runner of a task can be made and initialized. *)
Variable runner_Init : ProfilingTask → list positive → bool.

(** The task of the map with the identity of a context, when it is the same task. *)
Definition exist_same (c : positive) : mgr (option positive) :=
  x ← ctx_of c;
  m ← get;
  match tasks m !! BuildTaskIdentity x with
  | None => mret None
  | Some existTask =>
    same ← IsSameTask existTask c;
    mret (if (same : bool) then Some existTask else None)
  end.

Definition BuildContextFromCommand (command : Command) : mgr (option positive) :=
  match ProfilingTaskFromCommand unmarshal command with
  | None => mret None
  | Some t =>
    match mapM FindProcessByID (ProcessIDList t) with
    | None => mret None
    | Some processes =>
      c ← alloc_ctx (new_context t processes);
      exist ← exist_same c;
      match exist with
      | Some existTask =>
        x ← ctx_of c;
        _ ← update_ctx existTask (with_task (c_task x));
        mret (Some existTask)
      | None =>
        x ← ctx_of c;
        mret (if runner_Init (c_task x) processes then Some c else None)
      end
    end
  end.

Definition set_TaskID (id : string) (x : Context) : Context :=
  let t := c_task x in
  with_task (MkTask id (ProcessIDList t) (UpdateTime t) (StartTime t) (task_TriggerType t)
               (task_TargetType t) (MaxRunningDuration t) (task_ExtensionConfig t)) x.

(** [taskIDGenerator] reports the task to the backend, which answers with its ID. *)
Definition BuildContextFromContinuous (ids : list string) (processes : list positive)
    (taskSetter : ProfilingTask → ProfilingTask) (taskIDGenerator : res unit string)
    : mgr (option positive) :=
  let task := ProfilingTaskFromContinuous ids taskSetter in
  c ← alloc_ctx (new_context task processes);
  exist ← exist_same c;
  match exist, taskIDGenerator with
  | Some _, _ => mret None
  | None, Err _ => mret None
  | None, Panic => lift Panic
  | None, Ok taskID =>
    _ ← update_ctx c (set_TaskID taskID);
    x ← ctx_of c;
    mret (if runner_Init (c_task x) processes then Some c else None)
  end.

Fixpoint build_contexts (now : Z) (commands : list Command) (lastUpdate : Z) (acc : list positive)
    : mgr (Z * list positive) :=
  match commands with
  | [] => mret (lastUpdate, acc)
  | cmd :: commands' =>
    o ← BuildContextFromCommand cmd;
    match o with
    | None => build_contexts now commands' lastUpdate acc
    | Some c =>
      x ← ctx_of c;
      let lastUpdate := if lastUpdate <? UpdateTime (c_task x) then UpdateTime (c_task x) else lastUpdate in
      build_contexts now commands' lastUpdate (if CheckTaskRunnable now x then acc ++ [c] else acc)
    end
  end.

Fixpoint start_all (now : Z) (stop : positive → bool) (l : list positive) : mgr unit :=
  match l with
  | [] => mret tt
  | c :: l' => _ ← StartTask now stop c; start_all now stop l'
  end.

(** [commands] is the answer of the query, or none when it failed. *)
Definition StartingWatchTask (now : Z) (stop : positive → bool) (commands : option (list Command))
    : mgr unit :=
  match commands with
  | None => mret tt
  | Some [] => mret tt
  | Some commands =>
    m ← get;
    '(lastUpdate, contexts) ← build_contexts now commands (lastUpdateTime m) [];
    _ ← modify (λ m, MkManager (tasks m) (ctxs m) (next_ctx m) (next_wg m) lastUpdate (threads m));
    start_all now stop contexts
  end.

End building.

(** ** The goroutines *)

Definition set_running (now : Z) (c : Context) : Context :=
  MkContext (c_task c) (c_processes c) Running (Some now) (runningWg c) (recalcDuration c) (c_done c).

(** The end of a task that runs since [start], as a deadline of a timer set at [now]. *)
Definition end_deadline (now : Z) (x : Context) : Z :=
  Z.max now (default 0 (startRunningTime x) + MaxRunningDuration (c_task x)).

(** The runner notifies that it runs: [afterProfilingStartSuccess] starts the timer. *)
Definition run_notify (now : Z) (c wg : positive) : mgr unit :=
  _ ← update_ctx c (set_running now);
  x ← ctx_of c;
  _ ← modify (set_threads (λ l, (λ t, if bool_decide (t = TRun c wg false) then TRun c wg true else t) <$> l));
  spawn (TDuration c (end_deadline now x)).

Definition remove_thread (t : thread) (l : list thread) : list thread :=
  match list_find (λ t', t' = t) l with
  | Some (i, _) => delete i l
  | None => l
  end.

Definition end_thread (t : thread) : mgr unit := modify (set_threads (remove_thread t)).

(** The cases of the two [select] statements. *)
Definition schedule_fires (c : positive) (deadline : Z) : mgr unit :=
  _ ← end_thread (TSchedule c deadline); runTask c.

Definition duration_fires (stop : positive → bool) (c : positive) (deadline : Z) : mgr unit :=
  _ ← end_thread (TDuration c deadline); _ ← shutdownTask stop c; mret tt.

Definition duration_recalc (now : Z) (c : positive) (deadline : Z) : mgr unit :=
  _ ← update_ctx c (set_recalc false);
  x ← ctx_of c;
  _ ← end_thread (TDuration c deadline);
  spawn (TDuration c (end_deadline now x)).

(** ** Flushing *)

Definition checkStoppedTaskAndRemoved (m : Manager) : Manager :=
  set_tasks (filter (λ x, (c_status <$> ctxs m !! snd x) ≠ Some Stopped)) m.

(** The metadata the first datum of a task carries. *)
Record TaskMetadata : Type := MkTaskMetadata {
  tm_TaskId : string;
  tm_ProcessId : string;
  ProfilingStartTime : Z;
  CurrentTime : Z
}.

(** [time.Time.UnixMilli]; the zero time is the first of January of the year 1. *)
Definition unix_milli (t : option Z) : Z :=
  match t with
  | Some t => t / 1000000
  | None => -62135596800000
  end.

Section flushing.
Context `{!RangeOrder} {Data : Type}.
(** [FlushData] of the runner of a context. *)
Variable FlushData : positive → option (list Data).

Definition task_metadata (now : Z) (x : Context) : res Empty_set TaskMetadata :=
  id ← must (head (ProcessIDList (c_task x)));
  Ok (MkTaskMetadata (TaskID (c_task x)) id (unix_milli (startRunningTime x)) (now / 1000000)).

Definition tagged (md : TaskMetadata) (data : list Data) : list (option TaskMetadata * Data) :=
  match data with
  | [] => []
  | d :: data' => (Some md, d) :: ((λ d, (None, d)) <$> data')
  end.

(** The messages for the stream. *)
Fixpoint flush_messages (now : Z) (m : Manager) (l : list (string * positive))
    : res Empty_set (list (option TaskMetadata * Data)) :=
  match l with
  | [] => Ok []
  | (_, c) :: l' =>
    match FlushData c with
    | None | Some [] => flush_messages now m l'
    | Some data =>
      x ← must (ctxs m !! c);
      md ← task_metadata now x;
      rest ← flush_messages now m l';
      Ok (tagged md data ++ rest)
    end
  end.

(** What the stream takes before its first error. *)
Fixpoint sent_prefix (send : option TaskMetadata * Data → bool) (l : list (option TaskMetadata * Data))
    : list (option TaskMetadata * Data) :=
  match l with
  | [] => []
  | d :: l' => if send d then d :: sent_prefix send l' else []
  end.

(** The stopped tasks are removed in every case. *)
Definition FlushProfilingData (now : Z) (opens : bool) (send : option TaskMetadata * Data → bool)
    (m : Manager) : res Empty_set (list (option TaskMetadata * Data) * Manager) :=
  if bool_decide (tasks m = ∅) || negb opens then Ok ([], checkStoppedTaskAndRemoved m)
  else
    messages ← flush_messages now m (range (tasks m));
    Ok (sent_prefix send messages, checkStoppedTaskAndRemoved m).

End flushing.

(** ** Every run of the manager *)

Section steps.
Context `{!RangeOrder} {Data : Type}.
Variable unmarshal : string → option ExtensionConfig.
Variable FindProcessByID : string → option positive.
Variable runner_Init : ProfilingTask → list positive → bool.

(** What happens next: the ticker asks the backend, continuous profiling starts a task, a
    goroutine goes on, or the data of the tasks is flushed. *)
Inductive mgr_event : Type :=
| EWatch (now : Z) (stop : positive → bool) (commands : option (list Command))
| EContinuous (now : Z) (stop : positive → bool) (ids : list string) (processes : list positive)
    (taskSetter : ProfilingTask → ProfilingTask) (report : option string)
| ESchedule (now : Z) (c : positive) (deadline : Z)
| EScheduleDone (c : positive) (deadline : Z)
| ENotify (now : Z) (c wg : positive)
| ERunEnds (wg : positive)
| EEnd (now : Z) (stop : positive → bool) (c : positive) (deadline : Z)
| ERecalc (now : Z) (c : positive) (deadline : Z)
| EEndDone (stop : positive → bool) (c : positive) (deadline : Z)
| EFlush (now : Z) (opens : bool) (send : option TaskMetadata * Data → bool)
    (FlushData : positive → option (list Data)).

(** When it can happen. *)
Definition enabled_event (m : Manager) (e : mgr_event) : Prop :=
  match e with
  | EWatch _ _ _ | EContinuous _ _ _ _ _ _ | EFlush _ _ _ _ => True
  | ESchedule now c deadline => TSchedule c deadline ∈ threads m ∧ deadline ≤ now
  | EScheduleDone c deadline =>
    TSchedule c deadline ∈ threads m ∧ c_done <$> ctxs m !! c = Some true
  | ENotify _ c wg => TRun c wg false ∈ threads m
  | ERunEnds wg => ∃ c b, TRun c wg b ∈ threads m
  | EEnd now _ c deadline => TDuration c deadline ∈ threads m ∧ deadline ≤ now
  | ERecalc _ c deadline =>
    TDuration c deadline ∈ threads m ∧ recalcDuration <$> ctxs m !! c = Some true
  | EEndDone _ c deadline => TDuration c deadline ∈ threads m ∧ c_done <$> ctxs m !! c = Some true
  end.

Definition perform (e : mgr_event) : mgr unit :=
  match e with
  | EWatch now stop commands => StartingWatchTask unmarshal FindProcessByID runner_Init now stop commands
  | EContinuous now stop ids processes taskSetter report =>
    o ← BuildContextFromContinuous runner_Init ids processes taskSetter
          (match report with Some id => Ok id | None => Err tt end);
    match o with
    | Some c => StartTask now stop c
    | None => mret tt
    end
  | ESchedule now c deadline => schedule_fires c deadline
  | EScheduleDone c deadline => end_thread (TSchedule c deadline)
  | ENotify now c wg => run_notify now c wg
  | ERunEnds wg => run_ends wg
  | EEnd now stop c deadline => duration_fires stop c deadline
  | ERecalc now c deadline => duration_recalc now c deadline
  | EEndDone stop c deadline => duration_fires stop c deadline
  | EFlush now opens send FlushData => λ m,
    match FlushProfilingData FlushData now opens send m with
    | Ok (_, m') => (Ok tt, m')
    | Err e => match e with end
    | Panic => (Panic, m)
    end
  end.

Inductive mgr_step : Manager → mgr_event → Manager → Prop :=
| mgr_step_ok m e m' : enabled_event m e → perform e m = (Ok tt, m') → mgr_step m e m'.

End steps.
