(* ===== verification/TaskManagerLaws.v ===== *)
(** * Runs of the task manager

    Invariants of TaskManager.v over every sequence of its events: the watch of the
    backend, the tasks of continuous profiling, the steps of the goroutines and the flushes.
    For tasks that list their processes in order and whose start time has come, and batches
    without two tasks of the same identity, nothing panics and there is never more than one
    run for an identity.  The samples at the end show what happens when one of these
    conditions is missing. *)

From stdpp Require Import base gmap list strings.
From Stdlib Require Import ZArith Lia Sorting.Sorted.
From S2P Require Import Prelude Interfaces GoStrings AccessLogTail TaskManager.

(** A method that does not panic; it may block. *)
Definition wpb {A} (f : mgr A) (Q : A → Manager → Prop) (m : Manager) : Prop :=
  match f m with
  | (Ok a, m') => Q a m'
  | (Err _, _) => True
  | (Panic, _) => False
  end.

Section wpb.
Context {A B : Type}.

Lemma wpb_bind (f : mgr A) (g : A → mgr B) Q m : wpb f (λ a, wpb (g a) Q) m → wpb (f ≫= g) Q m.
Proof. unfold wpb, mbind, act_bind. by destruct (f m) as [[]]. Qed.

Lemma wpb_mono (f : mgr A) (P Q : A → Manager → Prop) m :
  wpb f P m → (∀ a m', P a m' → Q a m') → wpb f Q m.
Proof. unfold wpb. destruct (f m) as [[] ?]; naive_solver. Qed.

Lemma wpb_ret (a : A) (Q : A → Manager → Prop) m : Q a m → wpb (mret a) Q m.
Proof. done. Qed.

Lemma wpb_run (f : mgr A) (Q : A → Manager → Prop) m a m' : f m = (Ok a, m') → Q a m' → wpb f Q m.
Proof. unfold wpb. by intros ->. Qed.

End wpb.

Lemma wpb_modify g (Q : unit → Manager → Prop) m : Q tt (g m) → wpb (modify g) Q m.
Proof. done. Qed.

Lemma wpb_get (Q : Manager → Manager → Prop) m : Q m m → wpb get Q m.
Proof. done. Qed.

Lemma wpb_ctx c x (Q : Context → Manager → Prop) m : ctxs m !! c = Some x → Q x m → wpb (ctx_of c) Q m.
Proof. unfold wpb, ctx_of, mbind, act_bind, get, lift. by intros ->. Qed.

Ltac wpb_step :=
  lazymatch goal with
  | |- wpb (mbind _ _) _ _ => apply wpb_bind
  | |- wpb (mret _) _ _ => apply wpb_ret
  | |- wpb get _ _ => apply wpb_get
  | |- wpb (modify _) _ _ => apply wpb_modify
  | |- wpb (update_ctx _ _) _ _ => apply wpb_modify
  | |- wpb (spawn _) _ _ => apply wpb_modify
  | |- wpb (end_thread _) _ _ => apply wpb_modify
  end.
Ltac wpb_steps := repeat wpb_step; cbn beta.

(** ** Tasks that list their processes in order are already sorted *)

(** There is a process, and none of them is followed by one with a smaller ID. *)
Definition listed (t : ProfilingTask) : Prop :=
  ProcessIDList t ≠ [] ∧ Sorted (λ a b, String.ltb b a = false) (ProcessIDList t).

Lemma sort_Slice_sorted {A} (less : A → A → bool) l :
  Sorted (λ a b, less b a = false) l → sort_Slice less l = l.
Proof.
  intros Hl. unfold sort_Slice.
  assert (Hgen : ∀ acc, Sorted (λ a b, less b a = false) l →
    (∀ x y, head l = Some x → head acc = Some y → less x y = false) →
    foldl (λ acc x, ins_right less x acc) acc l = reverse l ++ acc).
  { clear Hl. induction l as [|x l IH]; intros acc Hl Hh; [done|]. cbn [foldl].
    assert (Hi : ins_right less x acc = x :: acc).
    { destruct acc as [|y acc]; [done|]. cbn. by rewrite (Hh x y). }
    rewrite Hi. apply Sorted_inv in Hl as [Hl Hx]. rewrite IH, reverse_cons, <-app_assoc; [done|done|].
    intros z y Hz [= <-]. destruct Hx as [|z' l Hz']; cbn in Hz; [done|]. by injection Hz as <-. }
  rewrite Hgen; [|done|done]. by rewrite app_nil_r, reverse_involutive.
Qed.

Lemma sorted_listed t : listed t → sorted_task t = t.
Proof.
  intros [_ Hs]. unfold sorted_task, sort_Strings. rewrite sort_Slice_sorted by done. by destruct t.
Qed.

(** ** The invariant *)

Definition run_wg (t : thread) : option positive :=
  match t with
  | TRun _ wg _ => Some wg
  | _ => None
  end.

Record mgr_inv (m : Manager) : Prop := {
  mi_listed c x : ctxs m !! c = Some x → listed (c_task x);
  mi_alloc c : is_Some (ctxs m !! c) → (c < next_ctx m)%positive;
  mi_tasks id c : tasks m !! id = Some c → ∃ x, ctxs m !! c = Some x ∧ BuildTaskIdentity x = id;
  mi_scheduled c d : TSchedule c d ∉ threads m;
  mi_ends c d : TDuration c d ∈ threads m → is_Some (ctxs m !! c);
  mi_run c wg b : TRun c wg b ∈ threads m →
    ∃ x, ctxs m !! c = Some x ∧ tasks m !! BuildTaskIdentity x = Some c ∧
         runningWg x = Some wg ∧ c_status x ≠ Stopped;
  mi_wg c x wg : ctxs m !! c = Some x → runningWg x = Some wg → (wg < next_wg m)%positive;
  mi_wg_unique c d x y wg : ctxs m !! c = Some x → ctxs m !! d = Some y →
    runningWg x = Some wg → runningWg y = Some wg → c = d;
  mi_once : NoDup (omap run_wg (threads m))
}.

Lemma new_manager_inv : mgr_inv NewManager.
Proof.
  split; cbn.
  - intros c x Hx. by rewrite lookup_empty in Hx.
  - intros c [x Hx]. by rewrite lookup_empty in Hx.
  - intros id c Hx. by rewrite lookup_empty in Hx.
  - intros c d Hx. by apply not_elem_of_nil in Hx.
  - intros c d Hx. by apply not_elem_of_nil in Hx.
  - intros c wg b Hx. by apply not_elem_of_nil in Hx.
  - intros c x wg Hx. by rewrite lookup_empty in Hx.
  - intros c d x y wg Hx. by rewrite lookup_empty in Hx.
  - constructor.
Qed.

(** A change of one context that keeps its identity, its wait group and its life. *)
Definition mild_change (f : Context → Context) : Prop :=
  ∀ x, listed (c_task x) →
    listed (c_task (f x)) ∧ BuildTaskIdentity (f x) = BuildTaskIdentity x ∧
    runningWg (f x) = runningWg x ∧ (c_status x ≠ Stopped → c_status (f x) ≠ Stopped).

Lemma mild_change_inv c f m : mild_change f → mgr_inv m → mgr_inv (set_ctxs (alter f c) m).
Proof.
  intros Hf [Hs Ha Ht Hsc He Hr Hw1 Hw2 Ho].
  assert (Hlk : ∀ d y, alter f c (ctxs m) !! d = Some y →
                ∃ x, ctxs m !! d = Some x ∧ (y = x ∨ y = f x) ∧ runningWg y = runningWg x).
  { intros d y Hy. destruct (decide (c = d)) as [<-|Hne].
    - rewrite lookup_alter_eq in Hy. apply fmap_Some in Hy as (x & Hx & ->). exists x.
      destruct (Hf x (Hs _ _ Hx)) as (? & ? & ? & ?). auto.
    - rewrite lookup_alter_ne in Hy by done. eauto. }
  assert (Hlk2 : ∀ d x, ctxs m !! d = Some x → ∃ y, alter f c (ctxs m) !! d = Some y ∧
     BuildTaskIdentity y = BuildTaskIdentity x ∧ runningWg y = runningWg x ∧
     (c_status x ≠ Stopped → c_status y ≠ Stopped)).
  { intros d x Hx. destruct (decide (c = d)) as [<-|Hne].
    - rewrite lookup_alter_eq, Hx. cbn. eexists. split; [done|].
      by destruct (Hf x (Hs _ _ Hx)) as (? & ? & ? & ?).
    - rewrite lookup_alter_ne by done. eauto. }
  split; cbn; try done.
  - intros d y (x & Hx & [->| ->] & _)%Hlk; [eauto|]. by apply Hf, (Hs d).
  - intros d [y (x & Hx & _)%Hlk]. eauto.
  - intros id d (x & Hx & Hid)%Ht. destruct (Hlk2 _ _ Hx) as (y & Hy & Hi & _). exists y. by rewrite Hi.
  - intros d dl Hd. destruct (He _ _ Hd) as [x Hx]. destruct (Hlk2 _ _ Hx) as (y & Hy & _). eauto.
  - intros d wg b (x & Hx & Hid & Hw & Hst)%Hr.
    destruct (Hlk2 _ _ Hx) as (y & Hy & Hi & Hwg & Hst'). exists y. rewrite Hi, Hwg. split_and!; auto.
  - intros d y wg (x & Hx & _ & ->)%Hlk. eauto.
  - intros d e y z wg (x & Hx & _ & ->)%Hlk (x' & Hx' & _ & ->)%Hlk. eauto.
Qed.

(** Comparing tasks changes nothing, since they are sorted. *)
Lemma IsSameTask_pure c d x y m :
  mgr_inv m → ctxs m !! c = Some x → ctxs m !! d = Some y →
  IsSameTask c d m = (Ok (same_task (c_task x) (c_task y)), m).
Proof.
  intros Hi Hx Hy.
  assert (Hid : ∀ e, set_ctxs (alter (λ x, with_task (sorted_task (c_task x)) x) e) m = m).
  { intros e. unfold set_ctxs. rewrite alter_id; [by destruct m|]. intros z Hz.
    rewrite sorted_listed by exact (mi_listed _ Hi _ _ Hz). by destruct z. }
  unfold IsSameTask, update_ctx, ctx_of. step_act. rewrite !Hid. step_act.
  rewrite Hx. step_act. rewrite Hy. by step_act.
Qed.

(** ** Ending a run *)

Lemma omap_run_filter (P : thread → Prop) `{!∀ t, Decision (P t)} l :
  NoDup (omap run_wg l) → NoDup (omap run_wg (filter P l)).
Proof.
  induction l as [|t l IH]; [done|]. cbn [omap list_omap]. rewrite filter_cons.
  assert (Hsub : ∀ wg, wg ∈ omap run_wg (filter P l) → wg ∈ omap run_wg l).
  { intros wg (u & Hu & Hw)%list_elem_of_omap. apply list_elem_of_filter in Hu as [_ Hu].
    apply list_elem_of_omap. eauto. }
  destruct (run_wg t) eqn:Hw; [rewrite NoDup_cons; intros [Hn Hd]|intros Hd];
    destruct (decide (P t)); cbn [omap list_omap]; rewrite ?Hw; auto.
  constructor; auto.
Qed.

Lemma run_wg_unique l i j c d wg b b' :
  NoDup (omap run_wg l) → l !! i = Some (TRun c wg b) → l !! j = Some (TRun d wg b') → i = j.
Proof.
  revert i j. induction l as [|t l IH]; intros i j Hd Hi Hj; [done|].
  assert (Hin : ∀ k e b'', l !! k = Some (TRun e wg b'') → wg ∈ omap run_wg l).
  { intros k e b'' Hk. apply list_elem_of_omap. exists (TRun e wg b''). split; [|done].
    by eapply list_elem_of_lookup_2. }
  assert (Hd' : NoDup (omap run_wg l)).
  { cbn [omap list_omap] in Hd. destruct (run_wg t); [by apply NoDup_cons in Hd as [_ ?]|done]. }
  destruct i as [|i], j as [|j]; [done| | |f_equal; by eapply IH]; exfalso; simpl in Hi, Hj;
    [injection Hi as ->|injection Hj as ->]; cbn in Hd; apply NoDup_cons in Hd as [Hn _]; eauto.
Qed.

(** The change of a state when the task [c] is stopped: only its context changes. *)
Record stopped_task (c : positive) (m m' : Manager) : Prop := {
  sk_inv : mgr_inv m';
  sk_tasks : tasks m' = tasks m;
  sk_next : next_ctx m' = next_ctx m;
  sk_threads t : t ∈ threads m' → t ∈ threads m;
  sk_other d : d ≠ c → ctxs m' !! d = ctxs m !! d;
  sk_self x : ctxs m !! c = Some x → ∃ x', ctxs m' !! c = Some x' ∧ c_task x' = c_task x;
  sk_gone wg b : TRun c wg b ∉ threads m'
}.

(** The context of a run is told that it stopped, and the run is gone. *)
Lemma alter_status c st (h : gmap positive Context) d y :
  alter (set_status st) c h !! d = Some y →
  ∃ z, h !! d = Some z ∧ c_task y = c_task z ∧ runningWg y = runningWg z.
Proof.
  intros Hy. destruct (decide (c = d)) as [<-|Hne].
  - rewrite lookup_alter_eq in Hy. apply fmap_Some in Hy as (z & Hz & ->). by exists z.
  - rewrite lookup_alter_ne in Hy by done. by exists y.
Qed.

Lemma status_alter c st (h : gmap positive Context) d y :
  h !! d = Some y → ∃ z, alter (set_status st) c h !! d = Some z ∧ c_task z = c_task y.
Proof.
  intros Hy. destruct (decide (c = d)) as [<-|Hne].
  - rewrite lookup_alter_eq, Hy. by eexists.
  - rewrite lookup_alter_ne by done. by exists y.
Qed.

Definition without_run (c wg : positive) (m : Manager) : Manager :=
  set_threads (filter (λ t, ¬ is_run_of wg t)) (set_ctxs (alter (set_status Stopped) c) m).

Lemma without_run_inv c x wg m :
  mgr_inv m → ctxs m !! c = Some x → runningWg x = Some wg → mgr_inv (without_run c wg m).
Proof.
  intros [Hs Ha Ht Hsc He Hr Hw1 Hw2 Ho] Hx Hwg.
  split; cbn [without_run set_threads set_ctxs tasks ctxs next_ctx next_wg threads].
  - intros d y (z & Hz & -> & _)%alter_status. eauto.
  - intros d [y (z & Hz & _)%alter_status]. eauto.
  - intros id d (y & Hy & Hid)%Ht. destruct (status_alter c Stopped _ _ _ Hy) as (z & Hz & Htz).
    exists z. unfold BuildTaskIdentity in *. by rewrite Htz.
  - intros d dl [_ Hd%Hsc]%list_elem_of_filter. done.
  - intros d dl [_ Hd]%list_elem_of_filter. destruct (He _ _ Hd) as [y Hy].
    destruct (status_alter c Stopped _ _ _ Hy) as (z & Hz & _). eauto.
  - intros d wg' b' [Hn Hd]%list_elem_of_filter. destruct (Hr _ _ _ Hd) as (y & Hy & Hid & Hyw & Hst).
    exists y. rewrite lookup_alter_ne; [by split_and!|]. intros <-. apply Hn. cbn. by simplify_eq.
  - intros d y wg' (z & Hz & _ & ->)%alter_status. eauto.
  - intros d e y z wg' (y' & Hy' & _ & ->)%alter_status (z' & Hz' & _ & ->)%alter_status. eauto.
  - by apply omap_run_filter.
Qed.

Lemma run_ends_stops c x wg m :
  mgr_inv m → ctxs m !! c = Some x → runningWg x = Some wg →
  wpb (run_ends wg) (λ _ m', stopped_task c m m') m.
Proof.
  intros Hi Hx Hwg.
  assert (Hgone : ∀ wg' b', TRun c wg' b' ∈ threads m → wg' = wg).
  { intros wg' b' (y & Hy & _ & Hyw & _)%(mi_run _ Hi). by simplify_eq. }
  unfold run_ends. wpb_steps.
  destruct (filter (is_run_of wg) (threads m)) as [|t l] eqn:Hf.
  - wpb_steps. split; try done; [eauto|]. intros wg' b Hin. pose proof (Hgone _ _ Hin) as ->.
    assert (Hnil : TRun c wg b ∈ filter (is_run_of wg) (threads m)) by (by apply list_elem_of_filter).
    rewrite Hf in Hnil. by apply not_elem_of_nil in Hnil.
  - assert (Ht' : t ∈ filter (is_run_of wg) (threads m)) by (rewrite Hf; by left).
    apply list_elem_of_filter in Ht' as [Hrun Hin]. destruct t as [|d wg' b|]; try done.
    cbn in Hrun. subst wg'.
    assert (d = c) as ->.
    { destruct (mi_run _ Hi _ _ _ Hin) as (y & Hy & _ & Hyw & _). by eapply (mi_wg_unique _ Hi). }
    wpb_steps. split; cbn; try done.
    + exact (without_run_inv c x wg m Hi Hx Hwg).
    + intros t [_ ?]%list_elem_of_filter. done.
    + intros d Hne. by rewrite lookup_alter_ne.
    + intros y Hy. by apply status_alter.
    + intros wg' b' [Hn Hd]%list_elem_of_filter. apply Hn. cbn. eauto.
Qed.

Lemma cancel_mild : mild_change cancel_ctx.
Proof. by intros x Hx. Qed.

Lemma shutdownTask_stops stop c x m :
  mgr_inv m → ctxs m !! c = Some x →
  wpb (shutdownTask stop c) (λ _ m', stopped_task c m m') m.
Proof.
  intros Hi Hx. unfold shutdownTask. wpb_steps. eapply wpb_ctx; [done|].
  destruct (runningWg x) as [wg|] eqn:Hwg; wpb_steps.
  - eapply wpb_mono; [by eapply run_ends_stops|]. intros [] m1 [Hi1 Ht1 Hn1 Hth1 Ho1 Hs1 Hg1].
    wpb_steps. split; cbn; try done.
    + by apply mild_change_inv; [apply cancel_mild|].
    + intros d Hne. rewrite lookup_alter_ne by done. eauto.
    + intros y Hy. destruct (Hs1 _ Hy) as (z & Hz & Hzt). rewrite lookup_alter_eq, Hz. by eexists.
  - split; try done; [eauto|]. intros wg b Hin.
    destruct (mi_run _ Hi _ _ _ Hin) as (y & Hy & _ & Hyw & _). simplify_eq.
Qed.

(** ** Removing and storing tasks *)

Lemma remove_task_inv c x m :
  mgr_inv m → ctxs m !! c = Some x → (∀ wg b, TRun c wg b ∉ threads m) →
  (tasks m !! BuildTaskIdentity x = Some c ∨ tasks m !! BuildTaskIdentity x = None) →
  mgr_inv (set_tasks (delete (BuildTaskIdentity x)) m).
Proof.
  intros [Hs Ha Ht Hsc He Hr Hw1 Hw2 Ho] Hx Hno Hid. split; cbn; try done.
  - intros id d [_ Hd]%lookup_delete_Some. eauto.
  - intros d wg b Hd. destruct (Hr _ _ _ Hd) as (y & Hy & Hyid & ?). exists y. split; [done|].
    split; [|done]. apply lookup_delete_Some. split; [|done]. intros Heq. rewrite <- Heq in Hyid.
    destruct Hid as [Hid|Hid]; [|congruence]. rewrite Hid in Hyid. injection Hyid as ->.
    by eapply Hno.
Qed.

Lemma store_task_inv c x m :
  mgr_inv m → ctxs m !! c = Some x → tasks m !! BuildTaskIdentity x = None →
  mgr_inv (set_tasks <[BuildTaskIdentity x := c]> m).
Proof.
  intros [Hs Ha Ht Hsc He Hr Hw1 Hw2 Ho] Hx Hid. split; cbn; try done.
  - intros id d [[<- <-]|[Hne Hd]]%lookup_insert_Some; eauto.
  - intros d wg b Hd. destruct (Hr _ _ _ Hd) as (y & Hy & Hyid & ?). exists y. split; [done|].
    split; [|done]. apply lookup_insert_Some. right. split; [|done]. intros Heq.
    rewrite <- Heq in Hyid. congruence.
Qed.

(** ** Starting a task *)

Definition with_run (c : positive) (m : Manager) : Manager :=
  MkManager (tasks m) (alter (set_wg (next_wg m)) c (ctxs m)) (next_ctx m) (Pos.succ (next_wg m))
    (lastUpdateTime m) (threads m ++ [TRun c (next_wg m) false]).

Lemma runTask_run c m : runTask c m = (Ok tt, with_run c m).
Proof. unfold runTask. by step_act. Qed.

Lemma omap_run_snoc l c wg b :
  NoDup (omap run_wg l) → (∀ wg', wg' ∈ omap run_wg l → wg' ≠ wg) → NoDup (omap run_wg (l ++ [TRun c wg b])).
Proof.
  intros Hd Hne. rewrite omap_app. cbn. apply NoDup_app. split; [done|]. split.
  - intros wg' Hin Heq%list_elem_of_singleton. by eapply Hne.
  - apply NoDup_singleton.
Qed.

Lemma alter_wg c wg (h : gmap positive Context) d y :
  alter (set_wg wg) c h !! d = Some y →
  ∃ z, h !! d = Some z ∧ c_task y = c_task z ∧ c_status y = c_status z ∧
       ((d = c ∧ runningWg y = Some wg) ∨ (d ≠ c ∧ y = z)).
Proof.
  intros Hy. destruct (decide (c = d)) as [<-|Hne].
  - rewrite lookup_alter_eq in Hy. apply fmap_Some in Hy as (z & Hz & ->). exists z. split_and!; auto.
  - rewrite lookup_alter_ne in Hy by done. exists y. split_and!; auto.
Qed.

Lemma wg_alter c wg (h : gmap positive Context) d y :
  h !! d = Some y → ∃ z, alter (set_wg wg) c h !! d = Some z ∧ c_task z = c_task y.
Proof.
  intros Hy. destruct (decide (c = d)) as [<-|Hne].
  - rewrite lookup_alter_eq, Hy. by eexists.
  - rewrite lookup_alter_ne by done. by exists y.
Qed.

Lemma with_run_inv c x m :
  mgr_inv m → ctxs m !! c = Some x → tasks m !! BuildTaskIdentity x = Some c →
  c_status x ≠ Stopped → (∀ wg b, TRun c wg b ∉ threads m) → mgr_inv (with_run c m).
Proof.
  intros [Hs Ha Ht Hsc He Hr Hw1 Hw2 Ho] Hx Hid Hst Hno.
  split; cbn [with_run tasks ctxs next_ctx next_wg threads].
  - intros d y (z & Hz & -> & _)%alter_wg. eauto.
  - intros d [y (z & Hz & _)%alter_wg]. eauto.
  - intros id d (y & Hy & Hyid)%Ht. destruct (wg_alter c (next_wg m) _ _ _ Hy) as (z & Hz & Htz).
    exists z. unfold BuildTaskIdentity in *. by rewrite Htz.
  - intros d dl [Hd|Hd%list_elem_of_singleton]%elem_of_app; [by eapply Hsc|done].
  - intros d dl [Hd|Hd%list_elem_of_singleton]%elem_of_app; [|done]. destruct (He _ _ Hd) as [y Hy].
    destruct (wg_alter c (next_wg m) _ _ _ Hy) as (z & Hz & _). eauto.
  - intros d wg b [Hd|Hd%list_elem_of_singleton]%elem_of_app.
    + destruct (Hr _ _ _ Hd) as (y & Hy & ?). exists y. rewrite lookup_alter_ne; [done|].
      intros <-. by eapply Hno.
    + injection Hd as -> -> ->. rewrite lookup_alter_eq, Hx. by eexists.
  - intros d y wg (z & Hz & _ & _ & [[-> ->]|[Hne ->]])%alter_wg Hwg.
    + injection Hwg as <-. lia.
    + pose proof (Hw1 _ _ _ Hz Hwg). lia.
  - intros d e y z wg (y' & Hy' & _ & _ & Hyc)%alter_wg (z' & Hz' & _ & _ & Hzc)%alter_wg Hyw Hzw.
    destruct Hyc as [[-> Hy1]|[Hne ->]], Hzc as [[-> Hz1]|[Hne' ->]]; try done.
    + pose proof (Hw1 _ _ _ Hz' Hzw). rewrite Hy1 in Hyw. injection Hyw as <-. lia.
    + pose proof (Hw1 _ _ _ Hy' Hyw). rewrite Hz1 in Hzw. injection Hzw as <-. lia.
    + eauto.
  - apply omap_run_snoc; [done|]. intros wg (t & Hin & Hwg)%list_elem_of_omap ->.
    destruct t as [|d wg b|]; try done. injection Hwg as ->.
    destruct (Hr _ _ _ Hin) as (y & Hy & _ & Hyw & _). pose proof (Hw1 _ _ _ Hy Hyw). lia.
Qed.

(** A context that can be started: the task of its identity, or a new one. *)
Definition ready (m : Manager) (c : positive) : Prop :=
  ∃ x, ctxs m !! c = Some x ∧
       (tasks m !! BuildTaskIdentity x = Some c ∨
        (runningWg x = None ∧ c_status x = NotRunning ∧ ∀ id, tasks m !! id ≠ Some c)).

(** Starting a task leaves the tasks of other identities alone. *)
Record started (id : string) (c : positive) (m m' : Manager) : Prop := {
  sd_inv : mgr_inv m';
  sd_tasks id' : id' ≠ id → tasks m' !! id' = tasks m !! id';
  sd_task d : tasks m' !! id = Some d → d = c ∨ tasks m !! id = Some d;
  sd_ctxs d y : d ≠ c → ctxs m !! d = Some y → BuildTaskIdentity y ≠ id → ctxs m' !! d = Some y
}.

Lemma same_task_refl t : same_task t t = true.
Proof. unfold same_task. by rewrite !bool_decide_eq_true_2, Z.eqb_refl by done. Qed.

Lemma recalc_mild b : mild_change (set_recalc b).
Proof. by intros x Hx. Qed.

Lemma send_recalc_started id c x m :
  mgr_inv m → ctxs m !! c = Some x → wpb (send_recalc c) (λ _ m', started id c m m') m.
Proof.
  intros Hi Hx. unfold send_recalc. wpb_steps. eapply wpb_ctx; [done|].
  destruct (recalcDuration x); [done|]. wpb_steps. split; cbn; auto.
  - by apply mild_change_inv; [apply recalc_mild|].
  - intros d y Hne Hy _. by rewrite lookup_alter_ne.
Qed.

(** The old task of an identity is stopped and removed. *)
Lemma remove_exist_started stop e c x y m :
  mgr_inv m → tasks m !! BuildTaskIdentity x = Some e → ctxs m !! c = Some x → e ≠ c →
  ctxs m !! e = Some y → BuildTaskIdentity y = BuildTaskIdentity x →
  (∀ wg b, TRun c wg b ∉ threads m) →
  wpb (ShutdownAndRemoveTask stop e)
    (λ _ m', started (BuildTaskIdentity x) c m m' ∧ tasks m' !! BuildTaskIdentity x = None ∧
             ctxs m' !! c = Some x ∧ (∀ wg b, TRun c wg b ∉ threads m')) m.
Proof.
  intros Hi He Hx Hne Hy Hid Hno. unfold ShutdownAndRemoveTask. wpb_steps.
  eapply wpb_mono; [by eapply shutdownTask_stops|]. intros ok m1 [Hi1 Ht1 Hn1 Hth1 Ho1 Hs1 Hg1].
  wpb_steps. destruct (Hs1 _ Hy) as (z & Hz & Hzt). eapply wpb_ctx; [done|]. wpb_steps.
  assert (Hzid : BuildTaskIdentity z = BuildTaskIdentity x).
  { rewrite <- Hid. unfold BuildTaskIdentity. by rewrite Hzt. }
  split_and!; cbn.
  - split; cbn.
    + apply remove_task_inv with e; try done. left. by rewrite Hzid, Ht1.
    + intros id' Hne'. rewrite Hzid, lookup_delete_ne by done. by rewrite Ht1.
    + intros d Hd. rewrite Hzid, lookup_delete_eq in Hd. done.
    + intros d w Hd Hw Hwid. rewrite Ho1; [done|]. intros ->. rewrite Hy in Hw. by injection Hw as <-.
  - by rewrite Hzid, lookup_delete_eq.
  - by rewrite Ho1.
  - intros wg b Hin%Hth1. by eapply Hno.
Qed.

Lemma store_and_run_started c x m m1 now :
  started (BuildTaskIdentity x) c m m1 → tasks m1 !! BuildTaskIdentity x = None →
  ctxs m1 !! c = Some x → c_status x ≠ Stopped → (∀ wg b, TRun c wg b ∉ threads m1) →
  StartTime (c_task x) ≤ Z.quot now 1000000 →
  wpb (_ ← modify (set_tasks <[BuildTaskIdentity x := c]>);
       x ← ctx_of c;
       if StartTime (c_task x) <=? Z.quot now 1000000 then runTask c
       else spawn (TSchedule c (now + Z.max 0 (now - StartTime (c_task x) * 1000000))))
    (λ _ m', started (BuildTaskIdentity x) c m m') m1.
Proof.
  intros [Hi Ht Ht2 Hc] Hnone Hx Hst Hno Hnow. wpb_steps.
  set (m2 := set_tasks _ m1). assert (Hi2 : mgr_inv m2) by by apply store_task_inv.
  eapply wpb_ctx; [exact Hx|]. rewrite (proj2 (Z.leb_le _ _)) by done.
  eapply wpb_run; [apply runTask_run|]. split.
  - apply with_run_inv with x; try done. cbn. by rewrite lookup_insert_eq.
  - intros id' Hne. cbn. rewrite lookup_insert_ne by done. auto.
  - intros d Hd. cbn in Hd. rewrite lookup_insert_eq in Hd. left. congruence.
  - intros d y Hne Hy Hyid. cbn. rewrite lookup_alter_ne by done. auto.
Qed.

Lemma StartTask_started now stop c x m :
  mgr_inv m → ready m c → ctxs m !! c = Some x → StartTime (c_task x) ≤ Z.quot now 1000000 →
  wpb (StartTask now stop c) (λ _ m', started (BuildTaskIdentity x) c m m') m.
Proof.
  intros Hi (x' & Hx' & Hready) Hx Hnow. rewrite Hx in Hx'. injection Hx' as <-.
  unfold StartTask. wpb_steps. eapply wpb_ctx; [done|]. wpb_steps.
  destruct (tasks m !! BuildTaskIdentity x) as [e|] eqn:He.
  - destruct (mi_tasks _ Hi _ _ He) as (y & Hy & Hyid). wpb_steps.
    eapply wpb_run; [by apply IsSameTask_pure|]. destruct (same_task (c_task x) (c_task y)) eqn:Hsame.
    { wpb_steps. eapply wpb_mono; [by eapply send_recalc_started|]. intros [] m1 Hm1. wpb_steps. cbn [negb]. by wpb_steps. }
    destruct Hready as [Hc|(Hwg & Hst & Hnot)].
    { injection Hc as ->. rewrite Hx in Hy. injection Hy as <-. by rewrite same_task_refl in Hsame. }
    assert (Hec : e ≠ c) by (intros ->; by eapply Hnot).
    eapply wpb_mono; [eapply remove_exist_started; try done|].
    + intros wg b Hin. destruct (mi_run _ Hi _ _ _ Hin) as (z & Hz & Hzid & _). by eapply Hnot.
    + intros ok m1 (Hst1 & Hn1 & Hx1 & Hno1). destruct ok; cbn [negb]; [|by wpb_steps].
      apply store_and_run_started; try done. by rewrite Hst.
  - wpb_steps. cbn [negb]. destruct Hready as [Hc|(Hwg & Hst & Hnot)]; [done|].
    apply store_and_run_started; try done.
    + split; auto.
    + by rewrite Hst.
    + intros wg b Hin. destruct (mi_run _ Hi _ _ _ Hin) as (z & Hz & Hzid & _). by eapply Hnot.
Qed.

(** ** Building the contexts of a batch *)

(** The identities of the waiting contexts are distinct, and each can be started now. *)
Definition batch (now : Z) (m : Manager) (l : list positive) (ids : list string) : Prop :=
  Forall2 (λ c id, ready m c ∧ ∃ x, ctxs m !! c = Some x ∧ BuildTaskIdentity x = id ∧
                     StartTime (c_task x) ≤ Z.quot now 1000000) l ids ∧ NoDup ids.

Lemma started_ready id c m m' d y :
  started id c m m' → mgr_inv m → ctxs m !! d = Some y → ready m d → BuildTaskIdentity y ≠ id →
  d ≠ c → ready m' d ∧ ctxs m' !! d = Some y.
Proof.
  intros [Hi Ht Ht2 Hc] Him Hy (z & Hz & Hr) Hne Hdc. rewrite Hy in Hz. injection Hz as <-.
  pose proof (Hc _ _ Hdc Hy Hne) as Hy'. split; [|done]. exists y. split; [done|].
  destruct Hr as [Hr|(Hwg & Hst & Hnot)].
  - left. by rewrite Ht.
  - right. split_and!; try done. intros id'. destruct (decide (id' = id)) as [->|Hne'].
    + intros [->|Hd]%Ht2; [done|]. by eapply Hnot.
    + rewrite Ht by done. auto.
Qed.

Lemma start_all_inv now stop l ids m :
  mgr_inv m → batch now m l ids → wpb (start_all now stop l) (λ _ m', mgr_inv m') m.
Proof.
  revert ids m. induction l as [|c l IH]; intros ids m Hi [Hb Hnd]; cbn [start_all].
  - by wpb_steps.
  - inversion Hb as [|? id ? ids' [Hr (x & Hx & Hid & Hnow)] Hb' Hl Hids]; subst.
    apply NoDup_cons in Hnd as [Hni Hnd]. wpb_steps.
    eapply wpb_mono; [by eapply StartTask_started|]. intros [] m1 Hst.
    apply (IH ids'); [by destruct Hst|]. split; [|done].
    apply Forall2_same_length_lookup_2; [by eapply Forall2_length|].
    intros i d id' Hd Hid'. destruct (Forall2_lookup_lr _ _ _ _ _ _ Hb' Hd Hid') as [Hrd (y & Hy & Hyid & Hyn)].
    assert (Hne : BuildTaskIdentity y ≠ BuildTaskIdentity x).
    { rewrite Hyid. intros ->. apply Hni. by eapply list_elem_of_lookup_2. }
    assert (Hdc : d ≠ c) by (intros ->; simplify_eq).
    destruct (started_ready _ _ _ _ _ _ Hst Hi Hy Hrd Hne Hdc) as [Hrd' Hy'].
    split; [done|]. by exists y.
Qed.

(** While contexts are built, the threads and the stored tasks stay as they are. *)
Definition preserves (m m' : Manager) : Prop :=
  tasks m' = tasks m ∧ threads m' = threads m ∧
  ∀ d y, ctxs m !! d = Some y →
    ∃ y', ctxs m' !! d = Some y' ∧ BuildTaskIdentity y' = BuildTaskIdentity y ∧
          runningWg y' = runningWg y ∧ c_status y' = c_status y ∧
          StartTime (c_task y') = StartTime (c_task y).

Lemma preserves_refl m : preserves m m.
Proof. split_and!; try done. intros d y Hy. by exists y. Qed.

Lemma preserves_trans m1 m2 m3 : preserves m1 m2 → preserves m2 m3 → preserves m1 m3.
Proof.
  intros (Ht1 & Hh1 & Hc1) (Ht2 & Hh2 & Hc2). split_and!; [congruence|congruence|].
  intros d y Hy. destruct (Hc1 _ _ Hy) as (y1 & Hy1 & ? & ? & ? & ?).
  destruct (Hc2 _ _ Hy1) as (y2 & Hy2 & ? & ? & ? & ?). exists y2. split_and!; congruence.
Qed.

Lemma preserves_ready m m' c : preserves m m' → ready m c → ready m' c.
Proof.
  intros (Ht & _ & Hc) (x & Hx & Hr). destruct (Hc _ _ Hx) as (y & Hy & Hid & Hwg & Hst & _).
  exists y. rewrite Ht, Hid, Hwg, Hst. auto.
Qed.

Lemma preserves_batch now m m' l ids : preserves m m' → batch now m l ids → batch now m' l ids.
Proof.
  intros Hp [Hb Hnd]. split; [|done]. eapply Forall2_impl; [exact Hb|].
  intros c id (Hr & x & Hx & Hid & Hn). split; [by eapply preserves_ready|].
  destruct Hp as (_ & _ & Hc). destruct (Hc _ _ Hx) as (y & Hy & Hyid & _ & _ & Hys).
  exists y. rewrite Hyid, Hys. auto.
Qed.

Definition allocated (x : Context) (m : Manager) : Manager :=
  MkManager (tasks m) (<[next_ctx m := x]> (ctxs m)) (Pos.succ (next_ctx m)) (next_wg m)
    (lastUpdateTime m) (threads m).

Lemma fresh_ctx m : mgr_inv m → ctxs m !! next_ctx m = None.
Proof.
  intros Hi. destruct (ctxs m !! next_ctx m) eqn:Hx; [|done].
  pose proof (mi_alloc _ Hi (next_ctx m) ltac:(eauto)). lia.
Qed.

Lemma allocated_inv t ps m : mgr_inv m → listed t → mgr_inv (allocated (new_context t ps) m).
Proof.
  intros Hi Hsm. pose proof (fresh_ctx m Hi) as Hf. destruct Hi as [Hs Ha Ht Hsc He Hr Hw1 Hw2 Ho].
  assert (Hkeep : ∀ d y, ctxs m !! d = Some y → <[next_ctx m := new_context t ps]> (ctxs m) !! d = Some y).
  { intros d y Hy. rewrite lookup_insert_ne; [done|]. congruence. }
  split; cbn [allocated tasks ctxs next_ctx next_wg threads]; try done.
  - intros d y [[<- <-]|[_ Hy]]%lookup_insert_Some; eauto.
  - intros d [y [[<- <-]|[_ Hy]]%lookup_insert_Some]; [lia|].
    pose proof (Ha d ltac:(eauto)). lia.
  - intros id d (y & Hy & Hid)%Ht. exists y. eauto.
  - intros d dl [y Hy]%He. exists y. auto.
  - intros d wg b (y & Hy & ?)%Hr. exists y. auto.
  - intros d y wg [[<- <-]|[_ Hy]]%lookup_insert_Some; [done|]. eauto.
  - intros d e y z wg [[<- <-]|[_ Hy]]%lookup_insert_Some; [done|].
    intros [[<- <-]|[_ Hz]]%lookup_insert_Some; [done|]. eauto.
Qed.

Lemma allocated_preserves x m : mgr_inv m → preserves m (allocated x m).
Proof.
  intros Hi. pose proof (fresh_ctx m Hi). split_and!; try done.
  intros d y Hy. exists y. cbn. rewrite lookup_insert_ne by congruence. auto.
Qed.

Lemma exist_same_pure c x m :
  mgr_inv m → ctxs m !! c = Some x →
  ∃ o, exist_same c m = (Ok o, m) ∧
       ∀ e, o = Some e → tasks m !! BuildTaskIdentity x = Some e ∧
                         ∃ y, ctxs m !! e = Some y ∧ same_task (c_task y) (c_task x) = true.
Proof.
  intros Hi Hx. unfold exist_same, ctx_of. step_act. rewrite Hx. step_act.
  destruct (tasks m !! BuildTaskIdentity x) as [e|] eqn:He; [|by exists None].
  destruct (mi_tasks _ Hi _ _ He) as (y & Hy & Hyid).
  rewrite (bind_ok _ _ _ _ _ (IsSameTask_pure e c y x m Hi Hy Hx)).
  destruct (same_task (c_task y) (c_task x)) eqn:Hs; eexists; (split; [done|]); [|done].
  intros e' [= <-]. eauto.
Qed.

Lemma same_task_fields t u :
  same_task t u = true → task_identity t = task_identity u ∧ StartTime t = StartTime u.
Proof.
  unfold same_task, task_identity. rewrite !andb_true_iff, !bool_decide_eq_true, Z.eqb_eq.
  intros ((((_ & ->) & ->) & ->) & ->). done.
Qed.

(** The context of an existing task takes over the task of the command. *)
Lemma rewrite_task_inv e y t m :
  mgr_inv m → ctxs m !! e = Some y → listed t → same_task (c_task y) t = true →
  mgr_inv (set_ctxs (alter (with_task t) e) m) ∧ preserves m (set_ctxs (alter (with_task t) e) m).
Proof.
  intros Hi Hy Hsm [Hid Hst]%same_task_fields.
  assert (Heq : alter (with_task t) e (ctxs m) =
     alter (λ x, if bool_decide (BuildTaskIdentity x = task_identity t) then with_task t x else x) e (ctxs m)).
  { apply map_eq. intros d. destruct (decide (e = d)) as [<-|Hne].
    - rewrite !lookup_alter_eq, Hy. cbn. unfold BuildTaskIdentity.
      by rewrite bool_decide_eq_true_2.
    - by rewrite !lookup_alter_ne. }
  split.
  - unfold set_ctxs. rewrite Heq. apply (mild_change_inv e); [|done]. intros x Hx.
    destruct (bool_decide_reflect (BuildTaskIdentity x = task_identity t)); done.
  - split_and!; try done. intros d x Hx. cbn. destruct (decide (e = d)) as [<-|Hne].
    + rewrite lookup_alter_eq, Hx. rewrite Hy in Hx. injection Hx as <-. eexists. split; [done|]. unfold BuildTaskIdentity. cbn. split_and!; congruence.
    + rewrite lookup_alter_ne by done. by exists x.
Qed.

(** *** Every event keeps the invariant *)

Section events.
Context `{!RangeOrder} {Data : Type}.
Variable unmarshal : string → option ExtensionConfig.
Variable FindProcessByID : string → option positive.
Variable runner_Init : ProfilingTask → list positive → bool.
Local Notation parse := (ProfilingTaskFromCommand unmarshal).

(** What a built context is. *)
Definition built (t : ProfilingTask) (m : Manager) (o : option positive) (m' : Manager) : Prop :=
  mgr_inv m' ∧ preserves m m' ∧
  ∀ c, o = Some c → ready m' c ∧
    ∃ x, ctxs m' !! c = Some x ∧ BuildTaskIdentity x = task_identity t ∧ StartTime (c_task x) = StartTime t.

Lemma fresh_ready t ps m : mgr_inv m → ready (allocated (new_context t ps) m) (next_ctx m).
Proof.
  intros Hi. exists (new_context t ps). cbn. rewrite lookup_insert_eq. split; [done|]. right.
  split_and!; try done. intros id Hid. destruct (mi_tasks _ Hi _ _ Hid) as (y & Hy & _).
  by rewrite (fresh_ctx m Hi) in Hy.
Qed.

Lemma BuildContextFromCommand_built command t m :
  mgr_inv m → parse command = Some t → listed t →
  wpb (BuildContextFromCommand unmarshal FindProcessByID runner_Init command) (built t m) m.
Proof.
  intros Hi Ht Hsm. unfold BuildContextFromCommand. rewrite Ht.
  destruct (mapM FindProcessByID (ProcessIDList t)) as [ps|].
  2: { wpb_steps. split_and!; [done|apply preserves_refl|done]. }
  wpb_steps. set (m1 := allocated (new_context t ps) m). set (c := next_ctx m).
  eapply (wpb_run (alloc_ctx _) _ _ c m1); [done|]. wpb_steps.
  assert (Hi1 : mgr_inv m1) by by apply allocated_inv.
  assert (Hp1 : preserves m m1) by by apply allocated_preserves.
  assert (Hc : ctxs m1 !! c = Some (new_context t ps)) by apply lookup_insert_eq.
  destruct (exist_same_pure c _ m1 Hi1 Hc) as (o & Ho & Hspec). eapply wpb_run; [exact Ho|].
  destruct o as [e|]; wpb_steps; (eapply wpb_ctx; [exact Hc|]); wpb_steps.
  - destruct (Hspec e eq_refl) as (He & y & Hy & Hsame).
    destruct (rewrite_task_inv e y t m1 Hi1 Hy Hsm Hsame) as [Hi2 Hp2].
    split_and!; [exact Hi2|by eapply preserves_trans|]. intros c' [= <-].
    assert (Hx : ctxs (set_ctxs (alter (with_task t) e) m1) !! e = Some (with_task t y)).
    { cbn [set_ctxs ctxs]. by rewrite lookup_alter_eq, Hy. }
    split; [|by eexists]. eexists. split; [exact Hx|]. left. exact He.
  - split_and!; [done|done|]. intros c' Hc'. destruct (runner_Init _ _); [|done]. injection Hc' as <-.
    split; [by apply fresh_ready|]. by eexists.
Qed.

(** A task whose processes are listed in order and whose start time has come. *)
Definition due_task (now : Z) (t : ProfilingTask) : Prop :=
  listed t ∧ StartTime t ≤ Z.quot now 1000000.

Lemma build_contexts_batch now commands lastUpdate acc ids m :
  mgr_inv m → batch now m acc ids → Forall (due_task now) (omap parse commands) →
  NoDup (ids ++ (task_identity <$> omap parse commands)) →
  wpb (build_contexts unmarshal FindProcessByID runner_Init now commands lastUpdate acc)
    (λ r m', mgr_inv m' ∧ ∃ ids', batch now m' (snd r) ids') m.
Proof.
  revert lastUpdate acc ids m. induction commands as [|cmd commands IH]; intros lastUpdate acc ids m Hi Hb Hd Hn;
    cbn [build_contexts].
  { wpb_steps. split; [done|]. by exists ids. }
  wpb_steps. cbn [omap list_omap] in Hd, Hn. destruct (parse cmd) as [t|] eqn:Ht.
  - apply Forall_cons in Hd as [[Hsm Hst] Hd]. cbn [fmap list_fmap] in Hn.
    eapply wpb_mono; [by apply BuildContextFromCommand_built|]. intros o m1 (Hi1 & Hp1 & Ho).
    pose proof (preserves_batch now m m1 acc ids Hp1 Hb) as Hb1.
    assert (Hn' : NoDup (ids ++ (task_identity <$> omap parse commands))).
    { apply NoDup_app in Hn as (? & Hdj & [_ ?]%NoDup_cons). apply NoDup_app. split_and!; try done.
      intros id Hin Hin2. apply (Hdj id Hin). by right. }
    destruct o as [c|]; [|by apply (IH _ _ ids)]. destruct (Ho c eq_refl) as (Hr & x & Hx & Hid & Hs).
    wpb_steps. eapply wpb_ctx; [done|]. cbv zeta. destruct (CheckTaskRunnable now x).
    + apply (IH _ _ (ids ++ [task_identity t])); try done; [|by rewrite <- app_assoc].
      destruct Hb1 as [Hb1 Hnd]. split.
      * apply Forall2_app; [done|]. constructor; [|constructor]. split; [done|]. exists x.
        rewrite Hs. auto.
      * rewrite cons_middle, app_assoc in Hn. by apply NoDup_app in Hn as (? & _).
    + by apply (IH _ _ ids).
  - unfold BuildContextFromCommand at 1. rewrite Ht. wpb_steps. by apply (IH _ _ ids).
Qed.

Lemma last_update_inv u m :
  mgr_inv m → mgr_inv (MkManager (tasks m) (ctxs m) (next_ctx m) (next_wg m) u (threads m)).
Proof. by intros [Hs Ha Ht Hsc He Hr Hw1 Hw2 Ho]. Qed.

(** The events the invariant is for. *)
Definition due_event (e : mgr_event (Data := Data)) : Prop :=
  match e with
  | EWatch now _ (Some commands) =>
    Forall (due_task now) (omap parse commands) ∧ NoDup (task_identity <$> omap parse commands)
  | EContinuous now _ ids _ taskSetter _ => due_task now (ProfilingTaskFromContinuous ids taskSetter)
  | _ => True
  end.

Lemma watch_inv now stop commands m :
  mgr_inv m → due_event (EWatch now stop commands) →
  wpb (StartingWatchTask unmarshal FindProcessByID runner_Init now stop commands) (λ _ m', mgr_inv m') m.
Proof.
  intros Hi Hd. unfold StartingWatchTask. destruct commands as [[|cmd commands]|]; try by wpb_steps.
  destruct Hd as [Hd Hn]. wpb_steps.
  eapply wpb_mono; [apply (build_contexts_batch now (cmd :: commands) (lastUpdateTime m) [] []); try done|].
  { split; constructor. }
  intros [u l] m1 (Hi1 & ids & Hb). cbn [snd] in Hb. wpb_steps.
  apply (start_all_inv now stop l ids); [by apply last_update_inv|]. exact Hb.
Qed.

Lemma continuous_inv now stop ids ps taskSetter report m :
  mgr_inv m → due_event (EContinuous now stop ids ps taskSetter report) →
  wpb (perform (Data := Data) unmarshal FindProcessByID runner_Init (EContinuous now stop ids ps taskSetter report))
    (λ _ m', mgr_inv m') m.
Proof.
  intros Hi [Hsm Hst]. cbn [perform]. unfold BuildContextFromContinuous.
  set (t := ProfilingTaskFromContinuous ids taskSetter) in *. wpb_steps.
  set (m1 := allocated (new_context t ps) m). set (c := next_ctx m).
  eapply (wpb_run (alloc_ctx _) _ _ c m1); [done|]. wpb_steps.
  assert (Hi1 : mgr_inv m1) by by apply allocated_inv.
  assert (Hc : ctxs m1 !! c = Some (new_context t ps)) by apply lookup_insert_eq.
  destruct (exist_same_pure c _ m1 Hi1 Hc) as (o & Ho & Hspec). eapply wpb_run; [exact Ho|].
  destruct o as [e|]; [by wpb_steps|]. destruct report as [taskID|]; [|by wpb_steps].
  wpb_steps. set (m2 := set_ctxs _ m1).
  assert (Hf : mild_change (set_TaskID taskID)) by by intros x Hx.
  assert (Hi2 : mgr_inv m2) by by apply mild_change_inv.
  assert (Hc2 : ctxs m2 !! c = Some (set_TaskID taskID (new_context t ps))) by (cbn [m2 set_ctxs ctxs]; by rewrite lookup_alter_eq, Hc).
  eapply wpb_ctx; [exact Hc2|]. wpb_steps. destruct (runner_Init _ _); [|by wpb_steps].
  eapply wpb_mono; [eapply StartTask_started; [done| |exact Hc2|done]|by intros [] m' []].
  eexists. split; [exact Hc2|]. right. split_and!; try done.
  intros id Hid. destruct (mi_tasks _ Hi _ _ Hid) as (y & Hy & _).
  unfold c in Hy. by rewrite (fresh_ctx m Hi) in Hy.
Qed.

(** Changes of the threads: a thread may end, a run may notify and a timer may start. *)
Lemma threads_inv l m :
  mgr_inv m →
  (∀ t, t ∈ l → t ∈ threads m ∨ (∃ c d, t = TDuration c d ∧ is_Some (ctxs m !! c)) ∨
                (∃ c wg b b', t = TRun c wg b ∧ TRun c wg b' ∈ threads m)) →
  omap run_wg l = omap run_wg (threads m) →
  mgr_inv (set_threads (λ _, l) m).
Proof.
  intros [Hs Ha Ht Hsc He Hr Hw1 Hw2 Ho] Hl Hn. split; cbn; try done.
  - intros c d Hin. apply Hl in Hin as [Hin|[(c' & d' & Hq & _)|(c' & wg & b & b' & Hq & _)]]; try done.
    by eapply Hsc.
  - intros c d Hin. apply Hl in Hin as [Hin|[(c' & d' & Hq & Hc)|(c' & wg & b & b' & Hq & _)]]; try done.
    + by eapply He.
    + by injection Hq as -> ->.
  - intros c wg b Hin.
    apply Hl in Hin as [Hin|[(c' & d' & Hq & _)|(c' & wg' & b1 & b2 & Hq & Hin)]]; try done.
    + by eapply Hr.
    + injection Hq as -> -> ->. by eapply Hr.
  - by rewrite Hn.
Qed.

Lemma remove_duration c d l :
  omap run_wg (remove_thread (TDuration c d) l) = omap run_wg l ∧
  ∀ t, t ∈ remove_thread (TDuration c d) l → t ∈ l.
Proof.
  unfold remove_thread. destruct (list_find _ l) as [[i t]|] eqn:Hf; [|done].
  apply list_find_Some in Hf as (Hi & -> & _). rewrite delete_take_drop. split.
  - rewrite <- (take_drop_middle l i _ Hi) at 3. by rewrite !omap_app.
  - intros t [Hin|Hin]%elem_of_app; [by eapply elem_of_take in Hin as (? & ? & _); eapply list_elem_of_lookup_2|].
    rewrite <- (take_drop_middle l i _ Hi). apply elem_of_app. right. by right.
Qed.

Lemma end_duration_inv c d m : mgr_inv m → mgr_inv (set_threads (remove_thread (TDuration c d)) m).
Proof.
  intros Hi. destruct (remove_duration c d (threads m)) as [Hn Hsub].
  apply (threads_inv (remove_thread (TDuration c d) (threads m)) m Hi); [|done]. auto.
Qed.

Lemma start_duration_inv c d m :
  mgr_inv m → is_Some (ctxs m !! c) → mgr_inv (set_threads (λ l, l ++ [TDuration c d]) m).
Proof.
  intros Hi Hc. apply (threads_inv (threads m ++ [TDuration c d]) m Hi).
  - intros t [Hin|Hin%list_elem_of_singleton]%elem_of_app; [by left|]. subst t. right. left. eauto.
  - rewrite omap_app. cbn. by rewrite app_nil_r.
Qed.

Lemma notify_inv now c wg m :
  mgr_inv m → TRun c wg false ∈ threads m → wpb (run_notify now c wg) (λ _ m', mgr_inv m') m.
Proof.
  intros Hi Hin. destruct (mi_run _ Hi _ _ _ Hin) as (x & Hx & _). unfold run_notify. wpb_steps.
  set (m1 := set_ctxs _ m). assert (Hi1 : mgr_inv m1) by (by apply mild_change_inv).
  assert (Hx1 : ctxs m1 !! c = Some (set_running now x)).
  { cbn [m1 set_ctxs ctxs]. by rewrite lookup_alter_eq, Hx. }
  eapply wpb_ctx; [exact Hx1|]. wpb_steps. apply start_duration_inv; [|cbn [set_threads ctxs]; rewrite Hx1; by eauto].
  set (f := λ t, if bool_decide (t = TRun c wg false) then TRun c wg true else t).
  apply (threads_inv (f <$> threads m1) m1 Hi1).
  - intros t (u & -> & Hu)%list_elem_of_fmap. unfold f.
    destruct (bool_decide_reflect (u = TRun c wg false)) as [->|]; [|by left].
    right. right. by exists c, wg, true, false.
  - induction (threads m1) as [|t l IH]; [done|]. cbn [fmap list_fmap omap list_omap]. rewrite IH.
    unfold f. by destruct (bool_decide_reflect (t = TRun c wg false)) as [->|].
Qed.

Lemma cleanup_inv m : mgr_inv m → mgr_inv (checkStoppedTaskAndRemoved m).
Proof.
  intros [Hs Ha Ht Hsc He Hr Hw1 Hw2 Ho]. split; cbn; try done.
  - intros id c [Hid _]%map_lookup_filter_Some. eauto.
  - intros c wg b (x & Hx & Hid & Hwg & Hst)%Hr. exists x. split_and!; try done.
    apply map_lookup_filter_Some. split; [done|]. cbn. rewrite Hx. cbn. congruence.
Qed.

Lemma flush_inv FlushData now opens send m :
  mgr_inv m →
  ∃ sent, FlushProfilingData FlushData now opens send m =
    Ok (sent : list (option TaskMetadata * Data), checkStoppedTaskAndRemoved m).
Proof.
  intros Hi. unfold FlushProfilingData. destruct (_ || _); [by eexists|].
  assert (Hm : ∀ l, (∀ x, x ∈ l → tasks m !! fst x = Some (snd x)) →
    ∃ messages, flush_messages FlushData now m l = Ok messages).
  { induction l as [|[id c] l IH]; intros Hl; [by eexists|]. cbn [flush_messages].
    destruct IH as [rest Hrest]; [by intros x Hx; apply Hl; right|].
    destruct (FlushData c) as [[|d data]|]; [by eexists|..|by eexists].
    destruct (mi_tasks _ Hi id c) as (x & Hx & _); [apply (Hl (id, c)); by left|].
    rewrite Hx. cbn [must mbind res_bind]. unfold task_metadata.
    destruct (mi_listed _ Hi _ _ Hx) as [Hne _]. destruct (ProcessIDList (c_task x)); [done|].
    cbn [head must mbind res_bind]. rewrite Hrest. by eexists. }
  destruct (Hm (range (tasks m))) as [messages ->]; [|by eexists].
  intros [id c] Hin. rewrite range_perm in Hin. by apply elem_of_map_to_list in Hin.
Qed.

Lemma duration_fires_inv stop c d m :
  mgr_inv m → TDuration c d ∈ threads m → wpb (duration_fires stop c d) (λ _ m', mgr_inv m') m.
Proof.
  intros Hi Hin. destruct (mi_ends _ Hi _ _ Hin) as [x Hx]. unfold duration_fires. wpb_steps.
  eapply wpb_mono; [by eapply shutdownTask_stops; [apply end_duration_inv|]|].
  intros ok m1 []. by wpb_steps.
Qed.

Lemma perform_inv e m :
  mgr_inv m → enabled_event m e → due_event e →
  wpb (perform unmarshal FindProcessByID runner_Init e) (λ _ m', mgr_inv m') m.
Proof.
  intros Hi He Hd. destruct e as [now stop cmds|now stop ids ps ts rep|now c d|c d|now c wg|wg|now stop c d|now c d|stop c d|now opens send fd].
  - by apply (watch_inv now stop cmds).
  - by apply (continuous_inv now stop ids ps ts rep).
  - destruct He as [He _]. by apply (mi_scheduled _ Hi) in He.
  - destruct He as [He _]. by apply (mi_scheduled _ Hi) in He.
  - by apply notify_inv.
  - destruct He as (c & b & Hin). destruct (mi_run _ Hi _ _ _ Hin) as (x & Hx & _ & Hwg & _).
    cbn [perform]. eapply wpb_mono; [by eapply run_ends_stops|]. by intros [] m' [].
  - destruct He. by apply duration_fires_inv.
  - destruct He as [Hin _]. destruct (mi_ends _ Hi _ _ Hin) as [x Hx]. cbn [perform]. unfold duration_recalc.
    wpb_steps. set (m1 := set_ctxs _ m).
    assert (Hi1 : mgr_inv m1) by (by apply mild_change_inv; [apply recalc_mild|]).
    assert (Hx1 : ctxs m1 !! c = Some (set_recalc false x)).
    { cbn [m1 set_ctxs ctxs]. by rewrite lookup_alter_eq, Hx. }
    eapply wpb_ctx; [exact Hx1|]. wpb_steps. apply start_duration_inv; [by apply end_duration_inv|].
    cbn [set_threads ctxs]. by rewrite Hx1.
  - destruct He. by apply duration_fires_inv.
  - cbn [perform]. unfold wpb. destruct (flush_inv fd now opens send m Hi) as [sent ->]. by apply cleanup_inv.
Qed.

(** The states the manager can reach by the events of the invariant. *)
Inductive reachable : Manager → Prop :=
| reach_new : reachable NewManager
| reach_step m e m' :
    reachable m → due_event e → mgr_step unmarshal FindProcessByID runner_Init m e m' → reachable m'.

Lemma reachable_inv m : reachable m → mgr_inv m.
Proof.
  induction 1 as [|m e m' _ IH Hd Hs]; [apply new_manager_inv|].
  inversion Hs as [m0 e0 m1 He Hp]; subst.
  pose proof (perform_inv e m IH He Hd) as Hw. unfold wpb in Hw. by rewrite Hp in Hw.
Qed.


End events.

(** ** Samples *)

Module TaskSamples.

#[local] Existing Instance keys_order.

Definition unmarshal (s : string) : option ExtensionConfig := Some (MkExtensionConfig []).
Definition find_process (id : string) : option positive :=
  if bool_decide (id = "a") then Some 1%positive else if bool_decide (id = "b") then Some 2%positive else None.
Definition inits (t : ProfilingTask) (ps : list positive) : bool := true.
Definition stops (c : positive) : bool := true.

Definition command_for (target id processes start : string) : Command :=
  MkCommand "EBPFProfilingTaskQuery"
    [("TaskId", id); ("ProcessId", processes); ("TaskUpdateTime", "5"); ("TriggerType", "FIXED_TIME");
     ("TargetType", target); ("TaskStartTime", start); ("ExtensionConfigJSON", "{}");
     ("FixedTriggerDuration", "60")].
Definition command : string → string → string → Command := command_for "ON_CPU".
Definition network_command : string → string → string → Command := command_for "NETWORK".

Notation watch now cmds := (EWatch now stops (Some cmds)) (only parsing).
Notation go e := (perform (Data := unit) unmarshal find_process inits e) (only parsing).

Definition after (f : mgr unit) (m : Manager) : Manager := snd (f m).

(** At the tenth second, with a task of the process a that starts at the ninth. *)
Definition m1 : Manager := after (go (watch (10 * second) [command "t1" "a" "9000"])) NewManager.

Example first_task_runs : (tasks m1, threads m1, lastUpdateTime m1) =
  ({[ "[a]_ON_CPU_FIXED_TIME" := 1%positive ]}, [TRun 1 1 false], 5).
Proof. vm_compute. reflexivity. Qed.

Lemma m1_reachable : reachable (Data := unit) unmarshal find_process inits m1.
Proof.
  eapply (reach_step _ _ _ NewManager (watch (10 * second) [command "t1" "a" "9000"])).
  - apply reach_new.
  - split; [|vm_compute; apply NoDup_singleton].
    constructor; [|constructor]. split; [|vm_compute; discriminate]. split; [done|]. repeat constructor.
  - constructor; [done|]. vm_compute. reflexivity.
Qed.


(** A task of two processes, in the order of their IDs: the same command again extends it. *)
Definition m_both : Manager := after (go (watch (10 * second) [network_command "t1" "a,b" "9000"])) NewManager.

Example ordered_processes_run_once :
  let m := after (go (watch (11 * second) [network_command "t1" "a,b" "9000"])) m_both in
  (tasks m, threads m) = ({[ "[a b]_NETWORK_FIXED_TIME" := 1%positive ]}, [TRun 1 1 false]).
Proof. vm_compute. reflexivity. Qed.

(** A task that starts in the twentieth second is received in the tenth: the timer of its
    goroutine is set to now, so the task runs at once. *)
Definition m_future : Manager := after (go (watch (10 * second) [command "t1" "a" "20000"])) NewManager.

Example future_task_starts_at_once :
  threads m_future = [TSchedule 1 (10 * second)] ∧
  enabled_event (Data := unit) m_future (ESchedule (10 * second) 1 (10 * second)) ∧
  threads (after (go (ESchedule (10 * second) 1 (10 * second))) m_future) = [TRun 1 1 false].
Proof. vm_compute. split_and!; try done. by left. Qed.

(** A waiting task that is replaced is removed from the map, but its goroutine is not told:
    both tasks run. *)
Definition m_replaced : Manager :=
  after (go (watch (11 * second) [command "t2" "a" "9000"])) m_future.

Example replaced_task_still_runs :
  tasks m_replaced = {[ "[a]_ON_CPU_FIXED_TIME" := 2%positive ]} ∧
  threads (after (go (ESchedule (11 * second) 1 (10 * second))) m_replaced) = [TRun 2 1 false; TRun 1 2 false].
Proof. vm_compute. done. Qed.

(** The processes of a task are sorted when it is compared, after it was stored: the same
    command a second time is not found under its new identity, and its context runs twice. *)
Definition m_two : Manager := after (go (watch (10 * second) [network_command "t1" "b,a" "9000"])) NewManager.

Example sorting_changes_the_identity :
  let m := after (go (watch (11 * second) [network_command "t1" "b,a" "9000"])) m_two in
  (map_to_list (tasks m), threads m) =
  ([("[a b]_NETWORK_FIXED_TIME", 1%positive); ("[b a]_NETWORK_FIXED_TIME", 1%positive)],
   [TRun 1 1 false; TRun 1 2 false]).
Proof. vm_compute. reflexivity. Qed.

(** The same command twice before the runner has notified its start: the second
    notification does not fit into the channel, and the loop of the manager blocks. *)
Example extending_twice_blocks :
  let m := after (go (watch (11 * second) [command "t1" "a" "9000"])) m1 in
  fst (go (watch (12 * second) [command "t1" "a" "9000"]) m) = Err Blocked.
Proof. vm_compute. reflexivity. Qed.

(** A task of continuous profiling is compared before it has its ID, so an existing task of
    the same processes is never the same: it is replaced instead of kept. *)
Definition on_cpu (t : ProfilingTask) : ProfilingTask :=
  MkTask (TaskID t) (ProcessIDList t) (UpdateTime t) (StartTime t) (task_TriggerType t) TargetTypeOnCPU
    second (task_ExtensionConfig t).
Definition continuous (id : string) : mgr_event (Data := unit) :=
  EContinuous (10 * second) stops ["a"] [1%positive] on_cpu (Some id).

Example continuous_task_replaced :
  let m := after (go (continuous "c2")) (after (go (continuous "c1")) NewManager) in
  (tasks m, threads m) = ({[ "[a]_ON_CPU_FIXED_TIME" := 2%positive ]}, [TRun 2 2 false]).
Proof. vm_compute. reflexivity. Qed.

(** A flush whose stream cannot be opened still removes the stopped tasks, with the data
    that was not sent. *)
Definition m_stopped : Manager := after (go (ERunEnds 1)) m1.

Example failed_flush_forgets_the_task :
  match FlushProfilingData (λ _, Some [tt]) (12 * second) false (λ _, true) m_stopped with
  | Ok (sent, m) => sent = [] ∧ tasks m = ∅
  | _ => False
  end.
Proof. vm_compute. done. Qed.

End TaskSamples.
