(* ===== verification/Continuous.v ===== *)
(** * Continuous profiling: policies, checks and triggers

    src/pkg/profiling/continuous: the policies of the services are asked of the backend and
    cached (checkers.go), the checkers of Checkers.v are synchronized with them, fetch and
    check (checkers.go), and the causes of a check become profiling tasks of TaskManager.v
    through the triggers (triggers.go, trigger/common.go, trigger/network.go,
    trigger/oncpu.go, trigger/offcpu.go).

    The answers of the backend and the decoding of its JSON are arguments, and so are
    [strconv.ParseFloat], the regular expressions and what the system reports of a process. *)

From stdpp Require Import base gmap list strings.
From Stdlib Require Import ZArith Lia.
From Stdlib Require Import Floats.SpecFloat.
From S2P Require Import Prelude Interfaces GoStrings AccessLogTail ProcessStorage Windows NetWatch Checkers TaskManager.

(** ** Policies of the backend (checkers.go) *)

Record ServicePolicy : Type := MkServicePolicy {
  sv_UUID : string;
  sv_Policies : list Policy;
  sv_Processes : gmap string positive
}.

Record QueryPolicyUpdateItem : Type := MkUpdateItem {
  qi_Threshold : string;
  qi_Period : Z;
  qi_Count : Z;
  qi_URIList : list string;
  qi_URIRegex : string
}.

(** An item can be null in the JSON. *)
Record QueryPolicyUpdate : Type := MkPolicyUpdate {
  qu_ServiceName : string;
  qu_UUID : string;
  qu_Profiling : gmap string (gmap string (option QueryPolicyUpdateItem))
}.

(** No error is [true]; a nil item is a nil dereference. *)
Definition Validate (p : option QueryPolicyUpdateItem) : res Empty_set bool :=
  p ← must p;
  Ok (if bool_decide (qi_Threshold p = "") then false
      else if qi_Period p <=? 0 then false
      else if qi_Count p <=? 0 then false
      else if qi_Period p <? qi_Count p then false
      else true).

Definition profiling_type (s : string) : TargetProfilingType :=
  if bool_decide (s = "ON_CPU") then TargetProfilingTypeOnCPU
  else if bool_decide (s = "OFF_CPU") then TargetProfilingTypeOffCPU
  else if bool_decide (s = "NETWORK") then TargetProfilingTypeNetwork
  else OtherProfilingType s.

Definition profiling_name (t : TargetProfilingType) : string :=
  match t with
  | TargetProfilingTypeOnCPU => "ON_CPU"
  | TargetProfilingTypeOffCPU => "OFF_CPU"
  | TargetProfilingTypeNetwork => "NETWORK"
  | OtherProfilingType s => s
  end.

Inductive query_error : Type := QueryFailed | NotAdapted | BadJSON.

Section policies.
Context `{!RangeOrder} `{!Processes}.

(** The items that pass the validation; each gets an address of its own. *)
Fixpoint update_items (type : TargetProfilingType) (l : list (string * option QueryPolicyUpdateItem))
    (next : positive) (m : gmap string PolicyItem) : res Empty_set (gmap string PolicyItem * positive) :=
  match l with
  | [] => Ok (m, next)
  | (checkType, item) :: l' =>
    ok ← Validate item;
    if (ok : bool) then
      i ← must item;
      update_items type l' (Pos.succ next)
        (<[checkType := MkPolicyItem next (qi_Threshold i) (qi_Period i) (qi_Count i)
                          (qi_URIList i) (qi_URIRegex i) type]> m)
    else update_items type l' next m
  end.

Fixpoint update_policies (l : list (string * gmap string (option QueryPolicyUpdateItem)))
    (next : positive) : res Empty_set (list Policy * positive) :=
  match l with
  | [] => Ok ([], next)
  | (profilingType, checks) :: l' =>
    let type := profiling_type profilingType in
    '(items, next) ← update_items type (range checks) next ∅;
    '(policies, next) ← update_policies l' next;
    Ok (MkPolicy type items :: policies, next)
  end.

Fixpoint service_policies (updates : list QueryPolicyUpdate) (next : positive)
    (m : gmap string ServicePolicy) : res Empty_set (gmap string ServicePolicy * positive) :=
  match updates with
  | [] => Ok (m, next)
  | u :: updates' =>
    '(policies, next) ← update_policies (range (qu_Profiling u)) next;
    service_policies updates' next (<[qu_ServiceName u := MkServicePolicy (qu_UUID u) policies ∅]> m)
  end.

(** [answer] is the answer of the backend to the UUIDs of the cached policies, [unmarshal]
    decodes its JSON. *)
Definition queryPolicyUpdates (unmarshal : string → option (list QueryPolicyUpdate))
    (answer : option (list Command)) (next : positive)
    : res Empty_set (query_error + gmap string ServicePolicy * positive) :=
  match answer with
  | None => Ok (inl QueryFailed)
  | Some [] => Ok (inr (∅, next))
  | Some commands =>
    let policyJSON :=
      match commands with
      | [command] =>
        if bool_decide (GetCommand command = "ContinuousProfilingPolicyQuery") then
          default "" (find_arg "ServiceWithPolicyJSON" (GetArgs command))
        else ""
      | _ => ""
      end in
    if bool_decide (policyJSON = "") then Ok (inl NotAdapted)
    else
      match unmarshal policyJSON with
      | None => Ok (inl BadJSON)
      | Some updates => r ← service_policies updates next ∅; Ok (inr r)
      end
  end.

(** All processes have the same pid under their ID. *)
Definition checkProcessesAreSame (from target : gmap string positive) : bool :=
  if negb (bool_decide (size from = size target)) then false
  else
    forallb (λ '(id, targetProcess),
               match from !! id with
               | None => false
               | Some fromProcess => p_Pid fromProcess =? p_Pid targetProcess
               end) (range target).

(** The processes of the services, by their ID. *)
Definition service_processes (processes : list positive) : gmap string (gmap string positive) :=
  foldl (λ m p, let s := ent_ServiceName (p_Entity p) in
                <[s := <[p_ID p := p]> (default ∅ (m !! s))]> m) ∅ processes.

(** The UUIDs of the cached policies, or an empty string for a service without a policy. *)
Definition policy_uuids (cache : gmap string ServicePolicy) (processes : list positive) : gmap string string :=
  foldl (λ m p, let s := ent_ServiceName (p_Entity p) in
                <[s := match cache !! s with Some policy => sv_UUID policy | None => "" end]> m) ∅ processes.

(** One service of the answer: the policy is replaced when its UUID is new, then the
    processes of the cached policy when they are not the same. *)
Definition apply_update (procs : gmap string (gmap string positive))
    (st : gmap string ServicePolicy * bool) (u : string * ServicePolicy) : gmap string ServicePolicy * bool :=
  let '(cache, hasUpdate) := st in
  let '(serviceName, policy) := u in
  let '(existing, hasUpdate) :=
    match cache !! serviceName with
    | None => (policy, true)
    | Some e => if negb (bool_decide (sv_UUID e = sv_UUID policy)) then (policy, true) else (e, hasUpdate)
    end in
  let target := default ∅ (procs !! serviceName) in
  if negb (checkProcessesAreSame (sv_Processes existing) target) then
    (<[serviceName := MkServicePolicy (sv_UUID existing) (sv_Policies existing) target]> cache, true)
  else (<[serviceName := existing]> cache, hasUpdate).

Definition updatePolicyCache (unmarshal : string → option (list QueryPolicyUpdate))
    (query : gmap string string → option (list Command)) (processes : list positive)
    (cache : gmap string ServicePolicy) (next : positive)
    : res Empty_set (query_error + bool * gmap string ServicePolicy * positive) :=
  match processes with
  | [] =>
    if negb (bool_decide (cache = ∅)) then Ok (inr (true, ∅, next)) else Ok (inr (false, cache, next))
  | _ =>
    r ← queryPolicyUpdates unmarshal (query (policy_uuids cache processes)) next;
    match r with
    | inl e => Ok (inl e)
    | inr (updates, next) =>
      let '(cache, hasUpdate) :=
        foldl (apply_update (service_processes processes)) (cache, false) (range updates) in
      Ok (inr (hasUpdate, cache, next))
    end
  end.

(** What the checkers are synchronized with. *)
Definition policies_with_processes (cache : gmap string ServicePolicy) : list SyncPolicyWithProcesses :=
  range cache ≫= λ '(_, sp), (λ policy, MkSync policy (sv_Processes sp)) <$> sv_Policies sp.

End policies.

(** ** The registered checkers *)

(** With the package network that the HTTP checkers share. *)
Record Registration : Type := MkRegistration {
  system_load : SystemBasedChecker float64;
  process_cpu : Checker (ProcessBasedInfo float64) (LatestWindowData float64);
  process_thread : Checker (ProcessBasedInfo Z) (LatestWindowData Z);
  http_error_rate : Checker HTTPBasedCheckerProcessInfo processNetworkResponseErrorStatics;
  http_response_time : Checker HTTPBasedCheckerProcessInfo processNetworkAvgResponseTimeStatics;
  shared_network : Net
}.

Definition CheckTypeProcessCPU : string := "PROCESS_CPU".
Definition CheckTypeProcessThreadCount : string := "PROCESS_THREAD_COUNT".
Definition CheckTypeSystemLoad : string := "SYSTEM_LOAD".
Definition CheckTypeHTTPErrorRate : string := "HTTP_ERROR_RATE".
Definition CheckTypeHTTPAvgResponseTime : string := "HTTP_AVG_RESPONSE_TIME".

(** [strconv.ParseInt(val, 10, 32)]. *)
Definition ParseInt32 (val : string) : option Z :=
  z ← Atoi val; if (- 2 ^ 31 <=? z) && (z <? 2 ^ 31) then Some z else None.

Definition cpu_threshold (val : string) : option float64 := float_of_int <$> ParseInt32 val.

(** Run a method of a checker. *)
Definition run_checker {C A} (f : act C Empty_set A) (c : C) : res Empty_set (A * C) :=
  match f c with
  | (Ok a, c') => Ok (a, c')
  | (Err e, _) => Err e
  | (Panic, _) => Panic
  end.

Section registration.
Context `{!RangeOrder} `{!Processes}.
Variables (ParseFloat : string → option float64) (compiles : string → bool)
  (MatchString : string → string → bool).
(** The numbers of the monitor types in the protocol. *)
Variable monitor : string → Z.

Definition new_registration : Registration :=
  MkRegistration NewSystemBasedChecker NewProcessBasedChecker NewProcessBasedChecker
    NewHTTPBasedChecker NewHTTPBasedChecker NewNet.

(** The loop of [CheckProfilingPolicies] over the checkers; [outside] is what the kernel and
    the probes answer to a check about a process. *)
Definition sync_checkers (outside : string → Z → answers) (policies : list SyncPolicyWithProcesses) (r : Registration)
    : res Empty_set Registration :=
  let load := system_SyncPolicies CheckTypeSystemLoad ParseFloat policies (system_load r) in
  '(_, cpu) ← run_checker (process_SyncPolicies CheckTypeProcessCPU cpu_threshold policies) (process_cpu r);
  '(_, thread) ← run_checker (process_SyncPolicies CheckTypeProcessThreadCount ParseInt32 policies)
                   (process_thread r);
  '(_, err) ← run_checker (http_SyncPolicies CheckTypeHTTPErrorRate ParseFloat compiles
                              (outside CheckTypeHTTPErrorRate) policies)
                (with_network (shared_network r) (http_error_rate r));
  '(_, time) ← run_checker (http_SyncPolicies CheckTypeHTTPAvgResponseTime ParseFloat compiles
                               (outside CheckTypeHTTPAvgResponseTime) policies)
                 (with_network (network err) (http_response_time r));
  Ok (MkRegistration load cpu thread err time (network time)).

(** The policies are asked of the backend, and the checkers are synchronized with the cache
    when something changed. *)
Definition CheckProfilingPolicies (unmarshal : string → option (list QueryPolicyUpdate))
    (query : gmap string string → option (list Command)) (processes : list positive)
    (outside : string → Z → answers)
    (cache : gmap string ServicePolicy) (next : positive) (r : Registration)
    : res Empty_set (query_error + gmap string ServicePolicy * positive * Registration) :=
  u ← updatePolicyCache unmarshal query processes cache next;
  match u with
  | inl e => Ok (inl e)
  | inr (false, cache, next) => Ok (inr (cache, next, r))
  | inr (true, cache, next) =>
    r ← sync_checkers outside (policies_with_processes cache) r;
    Ok (inr (cache, next, r))
  end.

(** The checkers with a source of their own; the events of the kernel feed the others. *)
Definition fetchAllData (now : Z) (load1 : option float64) (CPUPercent : positive → option float64)
    (NumThreads : positive → option Z) (r : Registration) : res Empty_set Registration :=
  '(_, load) ← system_Fetch now load1 (system_load r);
  '(_, cpu) ← run_checker (process_Fetch CPUPercent now) (process_cpu r);
  '(_, thread) ← run_checker (process_Fetch NumThreads now) (process_thread r);
  Ok (MkRegistration load cpu thread (http_error_rate r) (http_response_time r) (shared_network r)).

(** An event of the kernel is told to every notifier. *)
Definition notify_event (event : BufferEvent) (r : Registration) : res Empty_set Registration :=
  '(_, err) ← run_checker (ReceiveBufferEvent MatchString event) (http_error_rate r);
  '(_, time) ← run_checker (ReceiveBufferEvent MatchString event) (http_response_time r);
  Ok (MkRegistration (system_load r) (process_cpu r) (process_thread r) err time (shared_network r)).

Definition findAllMatchCauses (ShouldCheck : positive → PolicyItem → res Empty_set bool) (appender : MetricsAppender)
    (r : Registration) : res Empty_set (MetricsAppender * list ThresholdCause * Registration) :=
  '(appender, c1, load) ← system_Check CheckTypeSystemLoad (monitor CheckTypeSystemLoad) ShouldCheck
                             appender (system_load r);
  '((appender, c2), cpu) ← run_checker (process_Check CheckTypeProcessCPU
        (monitor CheckTypeProcessCPU) ShouldCheck appender) (process_cpu r);
  '((appender, c3), thread) ← run_checker (process_Check CheckTypeProcessThreadCount
        (monitor CheckTypeProcessThreadCount) ShouldCheck appender) (process_thread r);
  '((appender, c4), err) ← run_checker (http_Check CheckTypeHTTPErrorRate
        (monitor CheckTypeHTTPErrorRate) ShouldCheck appender) (http_error_rate r);
  '((appender, c5), time) ← run_checker (http_Check CheckTypeHTTPAvgResponseTime
        (monitor CheckTypeHTTPAvgResponseTime) ShouldCheck appender) (http_response_time r);
  Ok (appender, c1 ++ c2 ++ c3 ++ c4 ++ c5, MkRegistration load cpu thread err time (shared_network r)).

End registration.

(** ** Triggers (trigger/common.go) *)

(** The caches of the registered triggers, from a dimension to the context of its last task,
    and the task manager they share. *)
Record Triggers : Type := MkTriggers {
  on_cpu_cache : gmap string positive;
  off_cpu_cache : gmap string positive;
  network_cache : gmap string positive;
  t_manager : Manager
}.

(** The trigger of a profiling type; another type has none, which is a nil dereference. *)
Definition profilingCache (type : TargetProfilingType) (t : Triggers) : option (gmap string positive) :=
  match type with
  | TargetProfilingTypeOnCPU => Some (on_cpu_cache t)
  | TargetProfilingTypeOffCPU => Some (off_cpu_cache t)
  | TargetProfilingTypeNetwork => Some (network_cache t)
  | OtherProfilingType _ => None
  end.

Definition cache_task (type : TargetProfilingType) (dimension : string) (c : positive) (t : Triggers)
    : Triggers :=
  match type with
  | TargetProfilingTypeOnCPU =>
    MkTriggers (<[dimension := c]> (on_cpu_cache t)) (off_cpu_cache t) (network_cache t) (t_manager t)
  | TargetProfilingTypeOffCPU =>
    MkTriggers (on_cpu_cache t) (<[dimension := c]> (off_cpu_cache t)) (network_cache t) (t_manager t)
  | TargetProfilingTypeNetwork =>
    MkTriggers (on_cpu_cache t) (off_cpu_cache t) (<[dimension := c]> (network_cache t)) (t_manager t)
  | OtherProfilingType _ => t
  end.

(** A report to the backend. *)
Inductive report_target : Type :=
| ReportOnCPU
| ReportOffCPU
| ReportNetwork (SamplingURIRegexes : list string).

Record ContinuousProfilingReport : Type := MkReport {
  rp_Layer : string;
  rp_ServiceName : string;
  rp_InstanceName : string;
  rp_ProcessName : string;
  rp_Causes : list transfer_cause;
  rp_Duration : Z;
  rp_Target : report_target
}.

Definition processHasLabel (labels : list string) (label : string) : bool := bool_decide (label ∈ labels).

(** [transformCausesToNetworkSamplingRules]: one rule for each URI cause; a cause of all
    URIs makes the other rules needless. *)
Definition sampling_rule (uri : string) : NetworkSamplingRule :=
  MkSamplingRule (Some uri) (Some 0) true true (Some (MkSettings true (-1) true (-1))).

Fixpoint sampling_rules (result : list NetworkSamplingRule) (thresholds : list ThresholdCause)
    : list NetworkSamplingRule :=
  match thresholds with
  | [] => result
  | URICause _ uri _ _ _ _ _ :: thresholds' =>
    if bool_decide (uri = "") then [sampling_rule uri]
    else sampling_rules (result ++ [sampling_rule uri]) thresholds'
  | SingleValueCause _ _ _ _ _ :: thresholds' => sampling_rules result thresholds'
  end.

Definition transformCausesToNetworkSamplingRules : list ThresholdCause → list NetworkSamplingRule :=
  sampling_rules [].

Section triggers.
Context `{!RangeOrder} `{!Processes}.
Variables (executeTime silenceTime : Z).
Variable runner_Init : ProfilingTask → list positive → bool.

Definition profilingTaskDimension (type : TargetProfilingType) (p : positive) : string :=
  match type with
  | TargetProfilingTypeNetwork => ent_ServiceName (p_Entity p) +:+ "_" +:+ InstanceName (p_Entity p)
  | _ => p_ID p
  end.

(** The last process with the label of a mesh application, or the first one of a Kubernetes
    service when none came before it. *)
Definition main_application (main : option positive) (p : positive) : option positive :=
  let main := if processHasLabel (Labels (p_Entity p)) "mesh-application" then Some p else main in
  match main with
  | None => if processHasLabel (Labels (p_Entity p)) "k8s-service" then Some p else None
  | Some _ => main
  end.

Definition mainProcessSelector (type : TargetProfilingType) (ps : list positive) : option positive :=
  match type with
  | TargetProfilingTypeNetwork =>
    match foldl main_application None ps with
    | Some p => Some p
    | None => head ps
    end
  | _ => head ps
  end.

(** [shouldTriggerFromDimension]: a context that is not in the store is a nil dereference. *)
Definition should_trigger (now : Z) (cache : gmap string positive) (m : Manager) (dimension : string)
    : res Empty_set bool :=
  match cache !! dimension with
  | None => Ok true
  | Some c =>
    x ← must (ctxs m !! c);
    Ok (if IsRunning x then false
        else match startRunningTime x with
             | None => false
             | Some t => silenceTime <? now - t
             end)
  end.

Definition ShouldTrigger (now : Z) (type : TargetProfilingType) (p : positive) (t : Triggers)
    : res Empty_set bool :=
  cache ← must (profilingCache type t);
  should_trigger now cache (t_manager t) (profilingTaskDimension type p).

(** [ShouldCheck] of checkers.go, for the trigger of the type of the policy. *)
Definition ShouldCheck (now : Z) (t : Triggers) (p : positive) (item : PolicyItem) : res Empty_set bool :=
  ShouldTrigger now (pi_target item) p t.

(** The causes by their dimension and process. *)
Fixpoint group_causes (now : Z) (type : TargetProfilingType) (t : Triggers)
    (groups : gmap string (gmap positive (list ThresholdCause))) (causes : list ThresholdCause)
    : res Empty_set (gmap string (gmap positive (list ThresholdCause))) :=
  match causes with
  | [] => Ok groups
  | cause :: causes' =>
    let p := cause_Process cause in
    let dimension := profilingTaskDimension type p in
    ok ← ShouldTrigger now type p t;
    let group := default ∅ (groups !! dimension) in
    group_causes now type t
      (if (ok : bool) then <[dimension := <[p := default [] (group !! p) ++ [cause]]> group]> groups
       else groups) causes'
  end.

Definition report_target_of (type : TargetProfilingType) (causes : list ThresholdCause) : report_target :=
  match type with
  | TargetProfilingTypeOffCPU => ReportOffCPU
  | TargetProfilingTypeNetwork =>
    ReportNetwork (omap rule_URIRegex (transformCausesToNetworkSamplingRules causes))
  | _ => ReportOnCPU
  end.

Definition task_setter (type : TargetProfilingType) (causes : list ThresholdCause) (t : ProfilingTask)
    : ProfilingTask :=
  let '(target, extension) :=
    match type with
    | TargetProfilingTypeOffCPU => (TargetTypeOffCPU, task_ExtensionConfig t)
    | TargetProfilingTypeNetwork =>
      (TargetTypeNetworkTopology,
       Some (MkExtensionConfig (transformCausesToNetworkSamplingRules causes)))
    | _ => (TargetTypeOnCPU, task_ExtensionConfig t)
    end in
  MkTask (TaskID t) (ProcessIDList t) (UpdateTime t) (StartTime t) (task_TriggerType t) target executeTime
    extension.

(** The ID in the answer of the backend; the first command is read before they are counted. *)
Definition task_id_of (answer : option (list Command)) : res unit string :=
  match answer with
  | None => Err tt
  | Some commands =>
    command ← must (head commands);
    if negb (Nat.eqb (length commands) 1)
       || negb (bool_decide (GetCommand command = "ContinuousProfilingReportTask")) then Err tt
    else
      match find_arg "TaskId" (GetArgs command) with
      | Some id => Ok id
      | None => Err tt
      end
  end.

(** [ReportProcesses] of triggers.go; [backend] answers a report. *)
Definition ReportProcesses (now : Z) (stop : positive → bool)
    (backend : ContinuousProfilingReport → option (list Command)) (type : TargetProfilingType)
    (process : positive) (profilingProcesses : list positive) (causes : list ThresholdCause)
    : mgr (option positive) :=
  let e := p_Entity process in
  let report := MkReport (Layer e) (ent_ServiceName e) (InstanceName e) (ent_ProcessName e)
                  (GenerateTransferCause <$> causes) (i32 (int_Seconds executeTime))
                  (report_target_of type causes) in
  o ← BuildContextFromContinuous runner_Init (p_ID <$> profilingProcesses) profilingProcesses
        (task_setter type causes) (task_id_of (backend report));
  match o with
  | None => mret None
  | Some c => _ ← StartTask now stop c; mret (Some c)
  end.

(** A dimension: its main process is reported with its own causes, all its processes are
    profiled, and the context is cached when there is one. *)
Definition trigger_dimension (now : Z) (stop : positive → bool)
    (backend : ContinuousProfilingReport → option (list Command)) (type : TargetProfilingType)
    (dimension : string) (group : gmap positive (list ThresholdCause)) : act Triggers blocked bool := λ t,
  let ps := fst <$> range group in
  let main := match ps with [p] => Some p | _ => mainProcessSelector type ps end in
  match main with
  | None => (Panic, t)
  | Some main =>
    let '(r, m) := ReportProcesses now stop backend type main ps (default [] (group !! main)) (t_manager t) in
    let t := MkTriggers (on_cpu_cache t) (off_cpu_cache t) (network_cache t) m in
    match r with
    | Ok (Some c) => (Ok true, cache_task type dimension c t)
    | Ok None => (Ok false, t)
    | Err b => (Err b, t)
    | Panic => (Panic, t)
    end
  end.

Definition TriggerTasks (now : Z) (stop : positive → bool)
    (backend : ContinuousProfilingReport → option (list Command)) (type : TargetProfilingType)
    (causes : list ThresholdCause) : act Triggers blocked Z :=
  t ← get;
  groups ← lift (match group_causes now type t ∅ causes with
                 | Ok g => Ok g
                 | Err e => match e with end
                 | Panic => Panic
                 end);
  fold_act (λ n '(dimension, group),
      ok ← trigger_dimension now stop backend type dimension group;
      mret (if (ok : bool) then n + 1 else n)) 0 (range groups).

(** [handleCauses]: the causes by the type of their policy. *)
Definition causes_of_types (causes : list ThresholdCause) : gmap string (list ThresholdCause) :=
  foldl (λ m cause, let type := profiling_name (pi_target (FromPolicy cause)) in
                    <[type := default [] (m !! type) ++ [cause]]> m) ∅ causes.

Definition handleCauses (now : Z) (stop : positive → bool)
    (backend : ContinuousProfilingReport → option (list Command)) (causes : list ThresholdCause)
    : act Triggers blocked unit :=
  fold_act (λ _ '(name, cs), _ ← TriggerTasks now stop backend (profiling_type name) cs; mret tt)
    tt (range (causes_of_types causes)).

(** [checkAllThresholds]: the causes of all checkers are handled by the triggers; what is sent
    of the metrics is [meters_Flush] of the result, whose error is logged. *)
Definition checkAllThresholds (monitor : string → Z) (prefix : string) (now : Z) (stop : positive → bool)
    (backend : ContinuousProfilingReport → option (list Command))
    : act (Registration * Triggers) blocked MetricsAppender := λ '(r, t),
  match findAllMatchCauses monitor (ShouldCheck now t) (NewMetricsAppender prefix (now / 1000000)) r with
  | Ok (appender, [], r') => (Ok appender, (r', t))
  | Ok (appender, causes, r') =>
    match handleCauses now stop backend causes t with
    | (Ok _, t') => (Ok appender, (r', t'))
    | (Err b, t') => (Err b, (r', t'))
    | (Panic, t') => (Panic, (r', t'))
    end
  | Err e => match e with end
  | Panic => (Panic, (r, t))
  end.

End triggers.
