(* ===== verification/ContinuousLaws.v ===== *)
(** * Continuous profiling as a whole

    The policies that reach the checkers are valid, so that the registered checkers of
    Continuous.v do not panic in any sequence of synchronizations, fetches, events and
    checks; the cache of the policies follows the answers of the backend; and a trigger
    starts tasks only for dimensions that have a cause and are not running or silent. *)

From stdpp Require Import base gmap list strings.
From Stdlib Require Import ZArith Lia.
From Stdlib Require Import Floats.SpecFloat.
From S2P Require Import Prelude Interfaces GoStrings AccessLogTail ProcessStorage Windows NetWatch Checkers CheckersLaws.
From S2P Require Import TaskManager Continuous.

(** ** Policies of the backend *)

Section policies.
Context `{!RangeOrder} `{!Processes}.

(** What the validation of the items guarantees. *)
Definition valid_item (i : PolicyItem) : Prop :=
  Threshold i ≠ "" ∧ 0 < Count i ≤ Period i.

Definition valid_policy (p : Policy) : Prop := ∀ k i, Items p !! k = Some i → valid_item i.

Definition valid_service (sp : ServicePolicy) : Prop := Forall valid_policy (sv_Policies sp).

Definition valid_cache (cache : gmap string ServicePolicy) : Prop :=
  ∀ s sp, cache !! s = Some sp → valid_service sp.

Lemma update_items_valid type l next m m' next' :
  update_items type l next m = Ok (m', next') →
  (∀ k i, m !! k = Some i → valid_item i) → ∀ k i, m' !! k = Some i → valid_item i.
Proof.
  revert next m. induction l as [|[ct o] l IH]; intros next m Hu Hm; cbn [update_items] in Hu.
  - by injection Hu as -> ->.
  - destruct o as [q|]; [|done]. cbn [Validate must mbind res_bind] in Hu.
    destruct (bool_decide_reflect (qi_Threshold q = "")) as [|Ht]; [by eapply IH|].
    destruct (Z.leb_spec (qi_Period q) 0); [by eapply IH|].
    destruct (Z.leb_spec (qi_Count q) 0); [by eapply IH|].
    destruct (Z.ltb_spec (qi_Period q) (qi_Count q)); [by eapply IH|].
    eapply IH; [exact Hu|]. intros k i Hk. destruct (decide (ct = k)) as [<-|Hne].
    + rewrite lookup_insert_eq in Hk. injection Hk as <-. split; [done|]. cbn. lia.
    + rewrite lookup_insert_ne in Hk by done. eauto.
Qed.

Lemma update_policies_valid l next ps next' :
  update_policies l next = Ok (ps, next') → Forall valid_policy ps.
Proof.
  revert next ps next'. induction l as [|[ty checks] l IH]; intros next ps next' Hu;
    cbn [update_policies] in Hu.
  - injection Hu as <- <-. constructor.
  - destruct (update_items _ _ _ _) as [[items n1]| |] eqn:Hi; cbn in Hu; try discriminate Hu.
    destruct (update_policies l n1) as [[ps1 n2]| |] eqn:Hp; cbn in Hu; try discriminate Hu.
    injection Hu as <- <-. constructor; [|by eapply IH].
    intros k i Hk. cbn in Hk. eapply update_items_valid; [exact Hi| |exact Hk].
    intros ? ? Hx. by rewrite lookup_empty in Hx.
Qed.

Lemma service_policies_valid updates next m m' next' :
  service_policies updates next m = Ok (m', next') → valid_cache m → valid_cache m'.
Proof.
  revert next m. induction updates as [|u updates IH]; intros next m Hu Hm; cbn [service_policies] in Hu.
  - by injection Hu as -> ->.
  - destruct (update_policies _ _) as [[ps n1]| |] eqn:Hp; cbn in Hu; try discriminate Hu.
    eapply IH; [exact Hu|]. intros s sp Hs. destruct (decide (qu_ServiceName u = s)) as [<-|Hne].
    + rewrite lookup_insert_eq in Hs. injection Hs as <-. by eapply update_policies_valid.
    + rewrite lookup_insert_ne in Hs by done. by eapply Hm.
Qed.

Lemma queryPolicyUpdates_valid unmarshal answer next m next' :
  queryPolicyUpdates unmarshal answer next = Ok (inr (m, next')) → valid_cache m.
Proof.
  assert (He : valid_cache ∅) by (intros s sp Hs; by rewrite lookup_empty in Hs).
  unfold queryPolicyUpdates. destruct answer as [[|c cs]|]; [|cbv zeta|done].
  - by intros [= <- <-].
  - set (json := match cs with [] => _ | _ => _ end).
    clearbody json. destruct (bool_decide _); [done|]. destruct (unmarshal json) as [updates|]; [|done].
    destruct (service_policies updates next ∅) as [[m1 n1]| |] eqn:Hs; cbn; try discriminate.
    intros [= <- <-]. by eapply service_policies_valid.
Qed.

Lemma apply_update_valid procs st u :
  valid_cache (fst st) → valid_service (snd u) → valid_cache (fst (apply_update procs st u)).
Proof.
  destruct st as [cache has], u as [s policy]. cbn [fst snd]. intros Hc Hp. unfold apply_update.
  set (eh := match cache !! s with Some _ => _ | None => _ end).
  assert (He : valid_service (fst eh)).
  { unfold eh. destruct (cache !! s) as [e|] eqn:He; [|done]. destruct (negb _); [done|]. by eapply Hc. }
  destruct eh as [existing has']. cbn [fst] in He.
  destruct (negb _); cbn [fst]; intros s' sp Hs;
    (destruct (decide (s = s')) as [<-|Hne]; [rewrite lookup_insert_eq in Hs; by injection Hs as <-|
      rewrite lookup_insert_ne in Hs by done; by eapply Hc]).
Qed.

Lemma updatePolicyCache_valid unmarshal query processes cache next has cache' next' :
  updatePolicyCache unmarshal query processes cache next = Ok (inr (has, cache', next')) →
  valid_cache cache → valid_cache cache'.
Proof.
  intros Hu Hc. unfold updatePolicyCache in Hu. destruct processes as [|p ps].
  - destruct (negb _); injection Hu as <- <- <-; [|done]. intros s sp Hs. by rewrite lookup_empty in Hs.
  - destruct (queryPolicyUpdates _ _ _) as [[e|[updates n]]| |] eqn:Hq; cbn in Hu; try discriminate Hu.
    apply queryPolicyUpdates_valid in Hq.
    set (l := range updates) in Hu.
    assert (Hl : Forall (λ u, valid_service (snd u)) l).
    { apply Forall_forall. intros [s sp] Hin%elem_of_range. by eapply Hq. }
    assert (Hf : ∀ st, valid_cache (fst st) →
      valid_cache (fst (foldl (apply_update (service_processes (p :: ps))) st l))).
    { clear Hu. induction Hl as [|u l Hv _ IH]; intros st Hst; [done|]. cbn [foldl].
      apply IH. by apply apply_update_valid. }
    specialize (Hf (cache, false) Hc). destruct (foldl _ _ l) as [c1 h1]. by injection Hu as <- <- <-.
Qed.

Lemma cache_policies_valid cache :
  valid_cache cache → without_uris (policies_with_processes cache) →
  valid_policies (policies_with_processes cache).
Proof.
  intros Hc Ht sp k i Hsp Hk. pose proof (Ht sp k i Hsp Hk) as [_ Htr]. split; [|done]. unfold policies_with_processes in Hsp.
  apply list_elem_of_bind in Hsp as ([s service] & Hsp & Hin%elem_of_range).
  apply list_elem_of_fmap in Hsp as (policy & -> & Hp). specialize (Hc _ _ Hin).
  unfold valid_service in Hc. rewrite Forall_forall in Hc. destruct (Hc _ Hp k i Hk). lia.
Qed.

(** *** The cache follows the answers *)

(** One service: its policy after the update, and whether it changed. *)
Definition merged (old : option ServicePolicy) (policy : ServicePolicy) (target : gmap string positive)
    : ServicePolicy * bool :=
  let '(existing, changed) :=
    match old with
    | None => (policy, true)
    | Some e => if negb (bool_decide (sv_UUID e = sv_UUID policy)) then (policy, true) else (e, false)
    end in
  if negb (checkProcessesAreSame (sv_Processes existing) target) then
    (MkServicePolicy (sv_UUID existing) (sv_Policies existing) target, true)
  else (existing, changed).

Lemma apply_update_merged procs cache has s policy :
  apply_update procs (cache, has) (s, policy) =
  let m := merged (cache !! s) policy (default ∅ (procs !! s)) in
  (<[s := fst m]> cache, has || snd m).
Proof.
  unfold apply_update, merged. destruct (cache !! s) as [e|]; [destruct (negb (bool_decide _))|];
    destruct (negb (checkProcessesAreSame _ _)); cbn; by rewrite ?orb_true_r, ?orb_false_r.
Qed.

Lemma updates_merged procs l cache has :
  NoDup (fst <$> l) →
  let r := foldl (apply_update procs) (cache, has) l in
  (∀ s, s ∉ (fst <$> l) → fst r !! s = cache !! s) ∧
  (∀ s policy, (s, policy) ∈ l →
     fst r !! s = Some (fst (merged (cache !! s) policy (default ∅ (procs !! s)))) ∧
     (snd r = false → snd (merged (cache !! s) policy (default ∅ (procs !! s))) = false)) ∧
  (snd r = false → has = false).
Proof.
  revert cache has. induction l as [|[s policy] l IH]; intros cache has Hnd.
  { cbn. split_and!; try done. intros ? ? Hin. by apply not_elem_of_nil in Hin. }
  cbn [fmap list_fmap] in Hnd. apply NoDup_cons in Hnd as [Hni Hnd].
  cbn [foldl]. rewrite apply_update_merged. cbv zeta.
  set (mg := merged (cache !! s) policy (default ∅ (procs !! s))).
  destruct (IH (<[s := fst mg]> cache) (has || snd mg) Hnd) as (Ho & Hi & Hh). split_and!.
  - intros s' [Hne Hn]%not_elem_of_cons. rewrite Ho by done. by apply lookup_insert_ne.
  - intros s' policy' [Heq|Hin]%elem_of_cons.
    + injection Heq as -> ->. rewrite Ho by done. rewrite lookup_insert_eq. split; [done|].
      intros Hf%Hh. by apply orb_false_iff in Hf as [_ ?].
    + assert (Hne : s' ≠ s).
      { intros ->. apply Hni. by apply (list_elem_of_fmap_2 fst) in Hin. }
      destruct (Hi _ _ Hin) as [H1 H2]. rewrite lookup_insert_ne in H1, H2 by done. auto.
  - intros Hf%Hh. by apply orb_false_iff in Hf as [? _].
Qed.

Lemma same_processes_refl (m : gmap string positive) : checkProcessesAreSame m m = true.
Proof.
  unfold checkProcessesAreSame. rewrite bool_decide_eq_true_2 by done. cbn [negb].
  apply forallb_forall. intros [id p] Hin%list_elem_of_In%elem_of_range. rewrite Hin. by apply Z.eqb_refl.
Qed.

Lemma merged_spec old policy target :
  sv_UUID (fst (merged old policy target)) = sv_UUID policy ∧
  checkProcessesAreSame (sv_Processes (fst (merged old policy target))) target = true ∧
  sv_Policies (fst (merged old policy target)) =
    match old with
    | Some e => if decide (sv_UUID e = sv_UUID policy) then sv_Policies e else sv_Policies policy
    | None => sv_Policies policy
    end ∧
  (snd (merged old policy target) = false → old = Some (fst (merged old policy target))).
Proof.
  unfold merged. destruct old as [e|].
  - destruct (bool_decide_reflect (sv_UUID e = sv_UUID policy)) as [He|He]; cbn [negb];
      (destruct (checkProcessesAreSame _ target) eqn:Hs; cbn [negb fst snd sv_UUID sv_Processes sv_Policies];
       rewrite ?same_processes_refl; destruct (decide _); try done).
  - destruct (checkProcessesAreSame _ target) eqn:Hs; cbn; rewrite ?same_processes_refl; done.
Qed.

(** The cached policies follow the answer of the backend.  When an update succeeds for
    some processes, every service of the answer has the UUID of the answer, the policies of
    the answer if the UUID is new and its old ones otherwise, and processes with the IDs and
    pids of the registered ones; every other service is as it was.  When the update says
    that nothing changed, the cache is the one before it. *)
Theorem policy_cache_follows_answer unmarshal query processes cache next has cache' next' :
  processes ≠ [] →
  updatePolicyCache unmarshal query processes cache next = Ok (inr (has, cache', next')) →
  ∃ updates, queryPolicyUpdates unmarshal (query (policy_uuids cache processes)) next
             = Ok (inr (updates, next')) ∧
  (∀ s, updates !! s = None → cache' !! s = cache !! s) ∧
  (∀ s policy, updates !! s = Some policy →
     ∃ sp, cache' !! s = Some sp ∧ sv_UUID sp = sv_UUID policy ∧
       checkProcessesAreSame (sv_Processes sp) (default ∅ (service_processes processes !! s)) = true ∧
       sv_Policies sp = match cache !! s with
                        | Some e => if decide (sv_UUID e = sv_UUID policy) then sv_Policies e
                                    else sv_Policies policy
                        | None => sv_Policies policy
                        end) ∧
  (has = false → cache' = cache).
Proof.
  intros Hne Hu. unfold updatePolicyCache in Hu. destruct processes as [|p ps]; [done|].
  destruct (queryPolicyUpdates _ _ _) as [[e|[updates n]]| |] eqn:Hq; cbn in Hu; try discriminate Hu.
  exists updates. set (procs := service_processes (p :: ps)) in *.
  assert (Hnd : NoDup (fst <$> range updates)).
  { rewrite range_perm. apply NoDup_fst_map_to_list. }
  destruct (updates_merged procs (range updates) cache false Hnd) as (Ho & Hi & _).
  destruct (foldl _ _ _) as [c1 h1]. injection Hu as <- <- <-. cbn [fst snd] in *. split; [done|].
  assert (Hout : ∀ s, updates !! s = None → c1 !! s = cache !! s).
  { intros s Hs. apply Ho. intros ([s' pol] & -> & Hin%elem_of_range)%list_elem_of_fmap. cbn in Hs. congruence. }
  split; [done|]. split.
  - intros s policy Hs. apply elem_of_range in Hs. destruct (Hi _ _ Hs) as [Hc _].
    destruct (merged_spec (cache !! s) policy (default ∅ (procs !! s))) as (? & ? & ? & _). eauto.
  - intros Hh. apply map_eq. intros s. destruct (updates !! s) as [policy|] eqn:Hs; [|auto].
    apply elem_of_range in Hs. destruct (Hi _ _ Hs) as [Hc Hm]. rewrite Hc.
    destruct (merged_spec (cache !! s) policy (default ∅ (procs !! s))) as (_ & _ & _ & Hsame).
    symmetry. by apply Hsame, Hm.
Qed.

End policies.

(** ** The registered checkers *)

Lemma run_checker_wp {C A} (f : act C Empty_set A) (Q : A → C → Prop) c :
  wp f Q c → ∃ a c', run_checker f c = Ok (a, c') ∧ Q a c'.
Proof. unfold wp, run_checker. destruct (f c) as [[a|e|] c']; try done. eauto. Qed.

Section registration.
Context `{!RangeOrder} `{!Processes}.
Variables (ParseFloat : string → option float64) (compiles : string → bool)
  (MatchString : string → string → bool) (monitor : string → Z) (silenceTime : Z).

(** The contexts of the triggers are in the store of the task manager. *)
Definition known_contexts (t : Triggers) : Prop :=
  ∀ type cache d c, profilingCache type t = Some cache → cache !! d = Some c →
    is_Some (ctxs (t_manager t) !! c).

(** The triggers answer for every policy of a type that has one. *)
Lemma triggers_answer now t : known_contexts t → answers_triggers (ShouldCheck silenceTime now t).
Proof.
  intros Hk p i Hi. unfold ShouldCheck, ShouldTrigger.
  assert (Hc : ∃ cache, profilingCache (pi_target i) t = Some cache).
  { unfold has_trigger in Hi. destruct (pi_target i); [by eexists..|done]. }
  destruct Hc as [cache Hc]. rewrite Hc. cbn [must mbind res_bind]. unfold should_trigger.
  destruct (cache !! _) as [c|] eqn:Hd; [|by eexists].
  destruct (Hk _ _ _ _ Hc Hd) as [x ->]. by eexists.
Qed.

Definition system_inv (s : SystemBasedChecker float64) : Prop :=
  (sb_Policies s ≠ [] → (0 < length (tw_data (GlobalWindows s)))%nat) ∧
  Forall (λ p, has_trigger (sb_Policy p)) (sb_Policies s).

Record registration_inv (r : Registration) : Prop := {
  ri_system : system_inv (system_load r);
  ri_cpu : checker_inv (process_cpu r);
  ri_thread : checker_inv (process_thread r);
  ri_error : http_inv (http_error_rate r);
  ri_time : http_inv (http_response_time r);
  ri_network : net_ready (shared_network r)
}.

Lemma new_registration_inv : registration_inv new_registration.
Proof.
  split; cbn.
  - split; [by intros []|constructor].
  - apply new_checker_inv.
  - apply new_checker_inv.
  - split; [|apply new_net_ready]. intros pid i Hi. cbn in Hi. by rewrite lookup_empty in Hi.
  - split; [|apply new_net_ready]. intros pid i Hi. cbn in Hi. by rewrite lookup_empty in Hi.
  - apply new_net_ready.
Qed.

Lemma system_policies_from policies p :
  p ∈ system_policies CheckTypeSystemLoad ParseFloat policies →
  ∃ sp, sp ∈ policies ∧ Items (sp_Policy sp) !! CheckTypeSystemLoad = Some (sb_Policy p).
Proof.
  unfold system_policies. intros (sp & Hp & Hsp)%list_elem_of_bind. exists sp. split; [done|].
  destruct (Items (sp_Policy sp) !! CheckTypeSystemLoad) as [i|] eqn:Hi; [|by apply not_elem_of_nil in Hp].
  destruct (ParseFloat (Threshold i)); [|by apply not_elem_of_nil in Hp].
  by apply list_elem_of_singleton in Hp as ->.
Qed.

Lemma system_sync_inv policies s :
  valid_policies policies → system_inv (system_SyncPolicies CheckTypeSystemLoad ParseFloat policies s).
Proof.
  intros Hv. unfold system_SyncPolicies, system_inv. cbn [sb_Policies GlobalWindows].
  assert (Hall : ∀ p, p ∈ system_policies CheckTypeSystemLoad ParseFloat policies →
    0 < Period (sb_Policy p) ∧ has_trigger (sb_Policy p)).
  { intros p (sp & Hsp & Hi)%system_policies_from. by eapply Hv. }
  split; [|by apply Forall_forall; intros p Hp; apply Hall].
  intros Hne. rewrite ScalePeriod_length.
  destruct (system_policies CheckTypeSystemLoad ParseFloat policies) as [|p l]; [done|].
  enough (0 < max_period (sb_Policy <$> (p :: l))) by lia.
  apply (max_period_pos _ (sb_Policy p)); [by left|]. apply Hall. by left.
Qed.

Lemma system_fetch_inv now v s :
  system_inv s → ∃ b s', system_Fetch now v s = Ok (b, s') ∧ system_inv s'.
Proof.
  intros Hi. unfold system_Fetch. destruct (sb_Policies s) as [|p l] eqn:Hp; [by eauto|].
  destruct v as [v|]; [|by eauto]. destruct (Add_total now v (GlobalWindows s)) as (t & -> & Hl).
  destruct Hi as [Hi Ht]. rewrite Hp in Hi, Ht. cbn. eexists _, _. split; [done|]. split; [|done].
  intros _. cbn. rewrite Hl. by apply Hi.
Qed.

Lemma system_check_inv monitorType ShouldCheck appender s :
  system_inv s → answers_triggers ShouldCheck → ∃ a c s', system_Check CheckTypeSystemLoad monitorType ShouldCheck appender s = Ok (a, c, s')
                           ∧ system_inv s'.
Proof.
  intros Hi Ha. unfold system_Check. destruct (sb_Policies s) as [|p l] eqn:Hp; [by eauto|].
  assert (Hlen : (0 < length (tw_data (GlobalWindows s)))%nat) by (apply Hi; by rewrite Hp).
  destruct (Flush_total (GlobalWindows s) Hlen) as (v & b & lf & ->). cbn [mbind res_bind].
  destruct Hi as [_ Ht]. rewrite Hp in Ht. rewrite Forall_forall in Ht.
  match goal with |- context [for_range ?f [] (p :: l)] =>
    destruct (for_range_total f [] (p :: l)) as [causes ->] end.
  { intros causes q Hq. unfold system_causes. destruct (MatchRule _ _ _) as [lm [|]]; [|by eexists].
    apply for_range_total. intros cs q' _. destruct (Ha q' (sb_Policy q) (Ht q Hq)) as [b' ->]. by eexists. }
  cbn [mbind res_bind]. eexists _, _, _. split; [done|]. split; [by intros _|]. by apply Forall_forall.
Qed.

(** What can happen to the checkers. *)
Inductive registration_op : Type :=
| RSync (outside : string → Z → answers) (cache : gmap string ServicePolicy)
| RFetch (now : Z) (load1 : option float64) (CPUPercent : positive → option float64)
    (NumThreads : positive → option Z)
| REvent (event : BufferEvent)
| RCheck (now : Z) (t : Triggers) (appender : MetricsAppender).

Definition registration_run_op (r : Registration) (op : registration_op) : res Empty_set Registration :=
  match op with
  | RSync outside cache => sync_checkers ParseFloat compiles outside (policies_with_processes cache) r
  | RFetch now load1 CPUPercent NumThreads => fetchAllData now load1 CPUPercent NumThreads r
  | REvent event => notify_event MatchString event r
  | RCheck now t appender =>
    '(_, _, r') ← findAllMatchCauses monitor (ShouldCheck silenceTime now t) appender r; Ok r'
  end.

(** The policies come from a cache that the updates filled, without lists of URIs and of types
    that have a trigger; the programs can be loaded; and the triggers have stored contexts. *)
Definition registration_valid_op (op : registration_op) : Prop :=
  match op with
  | RSync outside cache => valid_cache cache ∧ without_uris (policies_with_processes cache) ∧
      ∀ check pid, LoadBPFAndAssign (outside check pid) = true
  | RCheck _ t _ => known_contexts t
  | _ => True
  end.

Ltac checker H :=
  let c := fresh "c" in let Hr := fresh "Hr" in let Hc := fresh "Hc" in
  destruct (run_checker_wp _ _ _ H) as (? & c & Hr & Hc); rewrite Hr; cbn [mbind res_bind]; clear Hr.

Lemma registration_op_inv op r :
  registration_inv r → registration_valid_op op →
  ∃ r', registration_run_op r op = Ok r' ∧ registration_inv r'.
Proof.
  intros [Hs Hc Ht He Hm Hn] Hv.
  destruct op as [outside cache|now load1 cpu th|event|now t app]; cbn [registration_run_op].
  - destruct Hv as (Hv & Hu & Hload). pose proof (cache_policies_valid cache Hv Hu) as Hvp. unfold sync_checkers.
    checker (process_Sync_exact CheckTypeProcessCPU cpu_threshold _ _ Hc Hvp).
    checker (process_Sync_exact CheckTypeProcessThreadCount ParseInt32 _ _ Ht Hvp).
    assert (He' : http_inv (with_network (shared_network r) (http_error_rate r))) by (by destruct He).
    checker (http_Sync_keeps CheckTypeHTTPErrorRate ParseFloat compiles _ _ _ He' Hu (Hload CheckTypeHTTPErrorRate)).
    assert (Hm' : http_inv (with_network (network c1) (http_response_time r))) by (by destruct Hm, Hc2).
    checker (http_Sync_keeps CheckTypeHTTPAvgResponseTime ParseFloat compiles _ _ _ Hm' Hu (Hload CheckTypeHTTPAvgResponseTime)).
    eexists. split; [done|]. split; cbn; try done; try (by destruct Hc0); try (by destruct Hc1).
    + by apply system_sync_inv.
    + by destruct Hc3.
  - unfold fetchAllData. destruct (system_fetch_inv now load1 _ Hs) as (b & s' & -> & Hs').
    cbn [mbind res_bind].
    checker (process_Fetch_keeps cpu now _ Hc). checker (process_Fetch_keeps th now _ Ht).
    eexists. split; [done|]. split; cbn; try done; [by destruct Hc0|by destruct Hc1].
  - unfold notify_event. checker (ReceiveBufferEvent_grows MatchString event _ He).
    checker (ReceiveBufferEvent_grows MatchString event _ Hm).
    eexists. split; [done|]. split; cbn; try done; by eapply grown_inv.
  - pose proof (triggers_answer now t Hv) as Ha. set (should := ShouldCheck silenceTime now t) in *.
    unfold findAllMatchCauses.
    destruct (system_check_inv (monitor CheckTypeSystemLoad) should app _ Hs Ha) as (a & cs & s' & -> & Hs').
    cbn [mbind res_bind].
    checker (process_Check_exact CheckTypeProcessCPU (monitor CheckTypeProcessCPU) should a _ Hc Ha).
    destruct x as [a1 c1]. cbn iota.
    checker (process_Check_exact CheckTypeProcessThreadCount (monitor CheckTypeProcessThreadCount) should a1 _ Ht Ha).
    destruct x as [a2 c2'].
    checker (http_Check_grows CheckTypeHTTPErrorRate (monitor CheckTypeHTTPErrorRate) should a2 _ He Ha).
    destruct x as [a3 c3'].
    checker (http_Check_grows CheckTypeHTTPAvgResponseTime (monitor CheckTypeHTTPAvgResponseTime) should a3 _ Hm Ha).
    destruct x as [a4 c4']. eexists. split; [done|].
    split; cbn; try done; try (by eapply grown_inv); [by destruct Hc0 as [? _]|by destruct Hc1 as [? _]].
Qed.

(** C15: The checkers do not panic on policies of known types.  From the start, any sequence of
    synchronizations with cached policies of the backend, fetches, events of the kernel and
    checks of all registered checkers, which ask the triggers and tell the package network of
    the processes, ends without a panic, whatever the values, times and answers of the system
    are, as long as no policy has a list of URIs, every policy has a profiling type with a
    trigger, and the BPF programs can be loaded. *)
Theorem checkers_never_panic ops :
  Forall registration_valid_op ops →
  ∃ r, for_range registration_run_op new_registration ops = Ok r.
Proof.
  intros Hv. assert (Hrun : ∀ r, registration_inv r → ∃ r', for_range registration_run_op r ops = Ok r').
  { induction Hv as [|op ops Hop _ IH]; intros r Hr; [by eauto|]. cbn [for_range].
    destruct (registration_op_inv op r Hr Hop) as (r' & -> & Hr'). cbn [mbind res_bind]. by apply IH. }
  apply Hrun, new_registration_inv.
Qed.

End registration.

(** ** Triggers *)

Section triggers.
Context `{!RangeOrder} `{!Processes}.
Variables (executeTime silenceTime : Z) (runner_Init : ProfilingTask → list positive → bool).
Local Notation should := (should_trigger silenceTime).

(** A task that never reported its start silences its dimension for ever. *)
Lemma never_started_never_triggers now cache m dimension c x :
  cache !! dimension = Some c → ctxs m !! c = Some x → startRunningTime x = None →
  should now cache m dimension = Ok false.
Proof. intros Hc Hx Hs. unfold should_trigger. rewrite Hc, Hx. cbn. rewrite Hs. by destruct (IsRunning x). Qed.

(** The processes that share a task: those of an instance of a service for the network, one
    process for the CPU. *)
Definition in_dimension (type : TargetProfilingType) (p : positive) (d : string) : Prop :=
  match type with
  | TargetProfilingTypeNetwork => d = ent_ServiceName (p_Entity p) +:+ "_" +:+ InstanceName (p_Entity p)
  | _ => d = p_ID p
  end.

(** The dimension had no task, or its last task does not run, has reported its start, and
    started longer ago than the silence. *)
Definition quiet (now : Z) (type : TargetProfilingType) (t : Triggers) (d : string) : Prop :=
  match profilingCache type t ≫= (.!! d) with
  | None => True
  | Some c => ∃ x start, ctxs (t_manager t) !! c = Some x ∧ c_status x ≠ Running ∧
      startRunningTime x = Some start ∧ silenceTime < now - start
  end.

(** A cause of a process of the dimension [d], which may trigger. *)
Definition due_dimension (now : Z) (type : TargetProfilingType) (t : Triggers) (causes : list ThresholdCause)
    (d : string) : Prop :=
  (∃ cause, cause ∈ causes ∧ in_dimension type (cause_Process cause) d) ∧ quiet now type t d.

Lemma dimension_in type p : in_dimension type p (profilingTaskDimension type p).
Proof. by destruct type. Qed.

Lemma ShouldTrigger_quiet now type p t :
  ShouldTrigger silenceTime now type p t = Ok true → quiet now type t (profilingTaskDimension type p).
Proof.
  unfold ShouldTrigger, quiet. destruct (profilingCache type t) as [cache|]; [|done].
  cbn [must mbind res_bind option_bind]. unfold should_trigger.
  destruct (cache !! profilingTaskDimension type p) as [c|]; [|done].
  destruct (ctxs (t_manager t) !! c) as [x|] eqn:Hx; [|done]. cbn [must mbind res_bind].
  unfold IsRunning. destruct (bool_decide_reflect (c_status x = Running)) as [|Hr]; [done|].
  destruct (startRunningTime x) as [start|] eqn:Hs; [|done]. intros [= Hlt%Z.ltb_lt].
  by exists x, start.
Qed.

Lemma group_causes_due now type t all causes groups g0 :
  group_causes silenceTime now type t g0 causes = Ok groups → (∀ c, c ∈ causes → c ∈ all) →
  (∀ d g, g0 !! d = Some g → due_dimension now type t all d) →
  ∀ d g, groups !! d = Some g → due_dimension now type t all d.
Proof.
  revert g0. induction causes as [|c causes IH]; intros g0 Hg Hall Hg0; cbn [group_causes] in Hg.
  - by injection Hg as <-.
  - set (dim := profilingTaskDimension type (cause_Process c)) in *.
    destruct (ShouldTrigger _ _ _ _ _) as [ok| |] eqn:Hs; cbn in Hg; try discriminate Hg.
    eapply IH; [exact Hg|by intros c' Hc'; apply Hall; right|]. intros d g Hd. destruct ok; [|eauto].
    destruct (decide (dim = d)) as [<-|Hne].
    + split; [|by apply ShouldTrigger_quiet]. exists c. split; [apply Hall; by left|apply dimension_in].
    + rewrite lookup_insert_ne in Hd by done. eauto.
Qed.

(** Other dimensions keep the context of their last task. *)
Lemma trigger_dimension_other now stop backend type dimension group t :
  match trigger_dimension executeTime runner_Init now stop backend type dimension group t with
  | (_, t') => ∀ ty d, (ty ≠ type ∨ d ≠ dimension) →
               (profilingCache ty t' ≫= (.!! d)) = (profilingCache ty t ≫= (.!! d))
  end.
Proof.
  unfold trigger_dimension. destruct (match fst <$> range group with [] => _ | _ => _ end) as [main|]; [|done].
  destruct (ReportProcesses _ _ _ _ _ _ _ _ _ _) as [r m].
  destruct r as [[c|]| |]; try (by intros [] d).
  intros ty d Hd. destruct type, ty; cbn; try done; (rewrite lookup_insert_ne; [done|]); intros Hq;
    destruct Hd as [Hd|Hd]; congruence.
Qed.

(** C27: A trigger starts tasks only for what is due.  When the tasks of the causes of one
    profiling type are triggered, the context of a dimension changes only if one of the
    causes is of a process of this dimension (of the same instance for the network, the
    process itself for the CPU) and the dimension is quiet at this time: it had no task, or
    its last task does not run any more and started longer ago than the silence.  The contexts of the other profiling types do not change. *)
Theorem triggers_respect_silence now stop backend type causes t n t' :
  TriggerTasks executeTime silenceTime runner_Init now stop backend type causes t = (Ok n, t') →
  ∀ ty d, (profilingCache ty t' ≫= (.!! d)) ≠ (profilingCache ty t ≫= (.!! d)) →
    ty = type ∧ due_dimension now type t causes d.
Proof.
  unfold TriggerTasks. rewrite bind_get.
  destruct (group_causes _ _ _ _ _ _) as [groups|[]|] eqn:Hg; [|by step_act]. rewrite bind_lift_ok.
  assert (Hgr : ∀ d g, groups !! d = Some g → due_dimension now type t causes d).
  { eapply group_causes_due; [exact Hg|done|]. intros d g Hd. by rewrite lookup_empty in Hd. }
  intros Hrun ty d Hne.
  assert (Hin : ty = type ∧ d ∈ (fst <$> range groups)).
  { revert Hrun Hne. generalize 0. clear Hg Hgr. generalize (range groups) as l.
    intros l. revert t. induction l as [|[dim g] l IH]; intros t k Hrun Hne; cbn [fold_act] in Hrun.
    { rewrite act_ret_run in Hrun. by injection Hrun as -> ->. }
    pose proof (trigger_dimension_other now stop backend type dim g t) as Ho.
    rewrite bind_assoc in Hrun. unfold mbind at 1, act_bind at 1 in Hrun.
    destruct (trigger_dimension _ _ _ _ _ _ _ _ t) as [[ok| |] t1]; [|done|done].
    rewrite bind_ret in Hrun. destruct (decide (ty = type ∧ d = dim)) as [[-> ->]|Hn].
    { split; [done|]. by left. }
    destruct (IH _ _ Hrun) as [-> Hd]; [|split; [done|by right]].
    rewrite Ho; [done|]. destruct (decide (ty = type)); [|by left]. right. tauto. }
  destruct Hin as [-> Hin]. split; [done|].
  apply list_elem_of_fmap in Hin as ([d' g] & -> & Hin%elem_of_range). by eapply Hgr.
Qed.

End triggers.

(** ** Samples *)

Module ContinuousSamples.

#[local] Existing Instance keys_order.

(** The processes 1 and 2 of one service, and 3 of another. *)
#[local] Instance sample_processes : Processes := {|
  p_ID p := if bool_decide (p = 1%positive) then "one" else if bool_decide (p = 2%positive) then "two" else "three";
  p_Pid p := 10 * Z.pos p;
  p_Entity p := MkProcessEntity "OS_LINUX" (if bool_decide (p = 3%positive) then "other" else "service")
                  "instance" "process" []
|}.

Definition threads_item : QueryPolicyUpdateItem := MkUpdateItem "80" 3 2 [] "".
Definition bad_item : QueryPolicyUpdateItem := MkUpdateItem "80" 3 4 [] "".

(** The JSON of the samples is the UUID it carries. *)
Definition unmarshal (s : string) : option (list QueryPolicyUpdate) :=
  Some [MkPolicyUpdate "service" s
          {[ "ON_CPU" := {[ CheckTypeProcessThreadCount := Some threads_item;
                            CheckTypeProcessCPU := Some bad_item ]} ]}].

Definition answer (uuid : string) : option (list Command) :=
  Some [MkCommand "ContinuousProfilingPolicyQuery" [("ServiceWithPolicyJSON", uuid)]].

Definition cache_after (query : gmap string string → option (list Command)) (processes : list positive)
    (cache : gmap string ServicePolicy) : bool * gmap string ServicePolicy :=
  match updatePolicyCache unmarshal query processes cache 1 with
  | Ok (inr (b, c, _)) => (b, c)
  | _ => (false, ∅)
  end.

Definition cache1 : gmap string ServicePolicy := snd (cache_after (λ _, answer "u1") [1%positive] ∅).

(** The item whose count is bigger than its period is left out. *)
Example first_policies :
  (λ sp, (sv_UUID sp, map_to_list (sv_Processes sp), (λ p, fst <$> map_to_list (Items p)) <$> sv_Policies sp))
    <$> cache1 !! "service" = Some ("u1", [("one", 1%positive)], [[CheckTypeProcessThreadCount]]).
Proof. vm_compute. reflexivity. Qed.

Lemma policy_cache_witness :
  ∃ updates, queryPolicyUpdates unmarshal (answer "u1") 1 = Ok (inr (updates, 2%positive)) ∧
  (∀ s, updates !! s = None → cache1 !! s = (∅ : gmap string ServicePolicy) !! s) ∧
  (∀ s policy, updates !! s = Some policy →
     ∃ sp, cache1 !! s = Some sp ∧ sv_UUID sp = sv_UUID policy ∧
       checkProcessesAreSame (sv_Processes sp) (default ∅ (service_processes [1%positive] !! s)) = true ∧
       sv_Policies sp = match (∅ : gmap string ServicePolicy) !! s with
                        | Some e => if decide (sv_UUID e = sv_UUID policy) then sv_Policies e
                                    else sv_Policies policy
                        | None => sv_Policies policy
                        end) ∧
  (true = false → cache1 = ∅).
Proof.
  apply (policy_cache_follows_answer unmarshal (λ _, answer "u1") [1%positive] ∅ 1 true cache1 2).
  - discriminate.
  - vm_compute. reflexivity.
Defined.

(** The backend has nothing new to say about the policies, but the service has a second
    process: the cache still has the first process only. *)
Example new_process_not_seen :
  cache_after (λ _, Some []) [1%positive; 2%positive] cache1 = (false, cache1).
Proof. vm_compute. reflexivity. Qed.

(** The processes of the service are gone, those of another service are there: the policies
    of the service stay in the cache, with its old process. *)
Example vanished_service_stays :
  sv_Processes <$> snd (cache_after (λ _, Some []) [3%positive] cache1) !! "service"
  = Some {[ "one" := 1%positive ]}.
Proof. vm_compute. reflexivity. Qed.

(** A null item of the JSON is a nil dereference. *)
Example null_item_panics : Validate None = Panic.
Proof. reflexivity. Qed.

Definition sample_ops : list registration_op :=
  [RSync (λ _ _, NetSamples.works) cache1; RFetch second None (λ _, None) (λ _, Some 90);
   RFetch (2 * second) None (λ _, None) (λ _, Some 91);
   RCheck (3 * second) (MkTriggers ∅ ∅ ∅ NewManager) (NewMetricsAppender "rover" 1)].

Lemma checkers_never_panic_witness :
  ∃ r, for_range (registration_run_op (λ _, None) (λ _, true) (λ _ _, true) (λ _, 0) second) new_registration
         sample_ops = Ok r.
Proof.
  apply (checkers_never_panic (λ _, None) (λ _, true) (λ _ _, true) (λ _, 0) second sample_ops).
  apply Forall_cons_2; [split; [|split; [|reflexivity]]|].
  3: { apply Forall_cons_2; [exact I|]. apply Forall_cons_2; [exact I|].
       apply Forall_cons_2; [|apply Forall_nil_2].
       intros type cache d c Hc Hd. destruct type; try discriminate Hc; injection Hc as <-;
         by rewrite lookup_empty in Hd. }
  - eapply (updatePolicyCache_valid unmarshal (λ _, answer "u1") [1%positive] ∅ 1 true cache1 2).
    + vm_compute. reflexivity.
    + intros s sp Hs. by rewrite lookup_empty in Hs.
  - intros sp k i Hsp Hk. assert (Hl : policies_with_processes cache1 = [MkSync
      (MkPolicy TargetProfilingTypeOnCPU
         {[ CheckTypeProcessThreadCount := MkPolicyItem 1 "80" 3 2 [] "" TargetProfilingTypeOnCPU ]})
      {[ "one" := 1%positive ]}]) by (vm_compute; reflexivity).
    rewrite Hl in Hsp. apply list_elem_of_singleton in Hsp as ->. cbn in Hk.
    apply lookup_singleton_Some in Hk as [_ <-]. split; [reflexivity|exact I].
Defined.

(** *** Triggers *)

Definition sample_item (type : TargetProfilingType) : PolicyItem := MkPolicyItem 1 "80" 3 2 [] "" type.
Definition cpu_cause (p : positive) : ThresholdCause :=
  SingleValueCause p (sample_item TargetProfilingTypeOnCPU) 1 (float_of_int 80) (float_of_int 90).

Definition no_triggers : Triggers := MkTriggers ∅ ∅ ∅ NewManager.

Definition backend (r : ContinuousProfilingReport) : option (list Command) :=
  Some [MkCommand "ContinuousProfilingReportTask" [("TaskId", "task")]].

Definition trigger (now : Z) (t : Triggers) : res blocked Z * Triggers :=
  TriggerTasks (60 * second) (600 * second) (λ _ _, true) now (λ _, true) backend
    TargetProfilingTypeOnCPU [cpu_cause 1; cpu_cause 2] t.

Definition t1 : Triggers := snd (trigger second no_triggers).

Example both_processes_triggered :
  (fst (trigger second no_triggers), map_to_list (on_cpu_cache t1), threads (t_manager t1)) =
  (Ok 2, [("one", 1%positive); ("two", 2%positive)], [TRun 1 1 false; TRun 2 2 false]).
Proof. vm_compute. reflexivity. Qed.

Lemma triggers_respect_silence_witness :
  trigger second no_triggers = (Ok 2, t1) ∧
  due_dimension (600 * second) second TargetProfilingTypeOnCPU no_triggers [cpu_cause 1; cpu_cause 2] "one".
Proof.
  split; [vm_compute; reflexivity|].
  eapply (triggers_respect_silence (60 * second) (600 * second) (λ _ _, true) second (λ _, true) backend
            TargetProfilingTypeOnCPU [cpu_cause 1; cpu_cause 2] no_triggers 2 t1 _ TargetProfilingTypeOnCPU "one").
  vm_compute. discriminate.
  Unshelve. vm_compute. reflexivity.
Defined.

(** The runners fail before they notify their start: the tasks are stopped, and their
    dimensions do not trigger again, however long the silence is over. *)
Definition t_failed : Triggers :=
  MkTriggers (on_cpu_cache t1) ∅ ∅ (snd (run_ends 2 (snd (run_ends 1 (t_manager t1))))).

Example failed_start_silences_for_ever :
  (c_status <$> ctxs (t_manager t_failed) !! 1%positive, fst (trigger (100000 * second) t_failed)) =
  (Some Stopped, Ok 0).
Proof. vm_compute. reflexivity. Qed.

(** A policy of a profiling type without a trigger, and an answer without a command. *)
Example unknown_type_panics :
  ShouldTrigger (600 * second) second (OtherProfilingType "MEMORY") 1 no_triggers = Panic.
Proof. reflexivity. Qed.

Example empty_answer_panics : task_id_of (Some []) = Panic.
Proof. reflexivity. Qed.

End ContinuousSamples.
