(* ===== verification/ContinuousNet.v ===== *)
(** * The HTTP events of continuous profiling

    src/pkg/profiling/continuous/checker/bpf/network: how the buffers that the BPF programs
    send become the events of the HTTP checkers (reader.go, http1.go).  Which processes they
    are asked of is in NetWatch.v. *)

From stdpp Require Import base gmap list strings.
From Stdlib Require Import ZArith Lia Ascii.
From S2P Require Import Prelude GoStrings AccessLogTail Windows Checkers Continuous.

(** ** Buffers (reader.go, http1.go) *)

Inductive BufferDirection : Type := BufferDirectionRequest | BufferDirectionResponse.

(** A sample of the kernel: [nb_Buffer] has 256 bytes. *)
Record networkBufferInBPF : Type := MkNetworkBuffer {
  nb_Timestamp : Z;
  ChannelRef : Z;
  is_http : bool;
  nb_Direction : BufferDirection;
  nb_Size : Z;
  nb_Pid : Z;
  nb_Buffer : string
}.

Record HTTP1BufferEvent : Type := MkHTTP1Event {
  h_pid : Z;
  h_requestURI : string;
  requestTime : Z;
  statusCode : Z;
  responseTime : Z
}.

(** [string(buffer.Buffer[0:buffer.Size])]. *)
Definition buffer_data (buffer : networkBufferInBPF) : res unit string :=
  if Z.of_nat (String.length (nb_Buffer buffer)) <? nb_Size buffer then Panic
  else Ok (str_take (Z.to_nat (nb_Size buffer)) (nb_Buffer buffer)).

Definition space : string := String " " EmptyString.

(** The part before the first question mark or space. *)
Fixpoint uri_end (s : string) : option string :=
  match s with
  | EmptyString => None
  | String c s' =>
    if bool_decide (c = "?"%char) || bool_decide (c = " "%char) then Some EmptyString
    else String c <$> uri_end s'
  end.

(** What follows the first space of a line. *)
Definition after_space (bufferData : string) : res unit string :=
  let firstSpace := Index bufferData space in
  if firstSpace <=? 0 then Err tt
  else if Z.of_nat (String.length bufferData) <=? firstSpace + 1 then Err tt
  else Ok (str_drop (Z.to_nat (firstSpace + 1)) bufferData).

Definition analyzeRequestURI (bufferData : string) : res unit string :=
  requestURIData ← after_space bufferData;
  match uri_end requestURIData with
  | Some uri => Ok uri
  | None => Err tt
  end.

(** Without a second space the slice [0:-1] is out of range. *)
Definition analyzeResponseStatus (bufferData : string) : res unit Z :=
  rest ← after_space bufferData;
  let secondSpace := Index rest space in
  if secondSpace <? 0 then Panic
  else
    match ParseInt32 (str_take (Z.to_nat secondSpace) rest) with
    | Some i => Ok i
    | None => Err tt
    end.

(** The requests that wait for their response, by channel; an error is logged and yields no
    event. *)
Definition HandleBufferEvent (buffer : networkBufferInBPF) (channelEvents : gmap Z HTTP1BufferEvent)
    : res Empty_set (option HTTP1BufferEvent * gmap Z HTTP1BufferEvent) :=
  match nb_Direction buffer with
  | BufferDirectionRequest =>
    match (data ← buffer_data buffer; analyzeRequestURI data) with
    | Ok uri =>
      Ok (None, <[ChannelRef buffer := MkHTTP1Event (nb_Pid buffer) uri (nb_Timestamp buffer) 0 0]>
                  channelEvents)
    | Err _ => Ok (None, channelEvents)
    | Panic => Panic
    end
  | BufferDirectionResponse =>
    match channelEvents !! ChannelRef buffer with
    | None => Ok (None, channelEvents)
    | Some event =>
      let channelEvents := delete (ChannelRef buffer) channelEvents in
      match (data ← buffer_data buffer; analyzeResponseStatus data) with
      | Ok code =>
        Ok (Some (MkHTTP1Event (h_pid event) (h_requestURI event) (requestTime event) code
                    (nb_Timestamp buffer)), channelEvents)
      | Err _ => Ok (None, channelEvents)
      | Panic => Panic
      end
    end
  end.

(** The event as the checkers read it; [boot] is the start of the host's clock.  A duration
    is the 64-bit difference of the two times. *)
Definition buffer_event (boot : Z) (h : HTTP1BufferEvent) : BufferEvent :=
  MkBufferEvent (i32 (h_pid h)) (h_requestURI h) (500 <=? statusCode h)
    (i64 (responseTime h - requestTime h)) (boot + i64 (requestTime h)).

(** [Read]: only HTTP has an analyzer. *)
Definition network_Read (buffer : networkBufferInBPF) (channelEvents : gmap Z HTTP1BufferEvent)
    : res Empty_set (option HTTP1BufferEvent * gmap Z HTTP1BufferEvent) :=
  if is_http buffer then HandleBufferEvent buffer channelEvents else Ok (None, channelEvents).

(** ** Exchanges of HTTP/1 *)

(** The buffers one after another, with the events they yield. *)
Fixpoint read_all (buffers : list networkBufferInBPF) (channelEvents : gmap Z HTTP1BufferEvent)
    : res Empty_set (list HTTP1BufferEvent * gmap Z HTTP1BufferEvent) :=
  match buffers with
  | [] => Ok ([], channelEvents)
  | b :: buffers' =>
    '(e, channelEvents) ← network_Read b channelEvents;
    '(es, channelEvents) ← read_all buffers' channelEvents;
    Ok (option_list e ++ es, channelEvents)
  end.

Lemma after_space_line first rest :
  first ≠ EmptyString → lacks " " first = true → rest ≠ EmptyString →
  after_space (first +:+ space +:+ rest) = Ok rest.
Proof.
  intros Hne Hl Hr. unfold after_space, space. rewrite (Index_first " " first rest Hl), !str_app_length.
  destruct first as [|c first]; [done|]. destruct rest as [|c' rest]; [done|].
  set (s := String c first) in *. cbn [String.length].
  destruct (Z.leb_spec (Z.of_nat (String.length s)) 0); [by cbn in *; lia|].
  destruct (Z.leb_spec (Z.of_nat (String.length s + (1 + S (String.length rest)))) (Z.of_nat (String.length s) + 1));
    [lia|].
  replace (Z.to_nat (Z.of_nat (String.length s) + 1)) with (String.length s + 1)%nat by lia.
  by rewrite str_drop_add, str_drop_app.
Qed.

Lemma uri_end_first uri d rest :
  lacks "?" uri = true → lacks " " uri = true → d = "?"%char ∨ d = " "%char →
  uri_end (uri +:+ String d rest) = Some uri.
Proof.
  intros Hq Hs Hd. unfold lacks in *. induction uri as [|c uri IH].
  - rewrite str_app_nil. cbn. by destruct Hd as [-> | ->].
  - cbn [all_chars] in *. apply andb_true_iff in Hq as [Hq Hq'], Hs as [Hs Hs'].
    rewrite str_app_cons. cbn [uri_end]. rewrite IH by done.
    apply negb_true_iff, bool_decide_eq_false in Hq, Hs. by rewrite !bool_decide_eq_false_2.
Qed.

Lemma request_uri_line method uri d rest :
  method ≠ EmptyString → lacks " " method = true → lacks "?" uri = true → lacks " " uri = true →
  d = "?"%char ∨ d = " "%char →
  analyzeRequestURI (method +:+ space +:+ uri +:+ String d rest) = Ok uri.
Proof.
  intros Hm Hl Hq Hs Hd. unfold analyzeRequestURI. rewrite after_space_line; [|done|done|by destruct uri].
  cbn. by rewrite uri_end_first.
Qed.

Lemma status_line proto code rest i :
  proto ≠ EmptyString → lacks " " proto = true → lacks " " code = true → ParseInt32 code = Some i →
  analyzeResponseStatus (proto +:+ space +:+ code +:+ space +:+ rest) = Ok i.
Proof.
  intros Hp Hl Hc Hi. unfold analyzeResponseStatus. rewrite after_space_line; [|done|done|by destruct code].
  cbn [mbind res_bind]. unfold space. rewrite (Index_first " " code rest Hc).
  destruct (Z.ltb_spec (Z.of_nat (String.length code)) 0); [lia|].
  by rewrite Nat2Z.id, str_take_app, Hi.
Qed.

(** A buffer of another channel does not touch the request that waits on [c]. *)
Lemma read_frame b c ev m :
  ChannelRef b ≠ c →
  network_Read b (<[c := ev]> m) =
  '(e, m') ← network_Read b m; Ok (e, <[c := ev]> m').
Proof.
  intros Hne. unfold network_Read, HandleBufferEvent. destruct (is_http b), (nb_Direction b); [| |done..].
  - destruct (buffer_data b ≫= analyzeRequestURI) as [u|e|]; cbn; [|done..].
    by rewrite insert_insert_ne.
  - rewrite lookup_insert_ne by done. destruct (m !! ChannelRef b) as [e|]; [|done].
    rewrite delete_insert_ne by done.
    by destruct (buffer_data b ≫= analyzeResponseStatus).
Qed.

Lemma read_all_frame bs c ev m :
  Forall (λ b, ChannelRef b ≠ c) bs →
  read_all bs (<[c := ev]> m) = '(es, m') ← read_all bs m; Ok (es, <[c := ev]> m').
Proof.
  intros Hbs. revert m. induction Hbs as [|b bs Hb Hbs IH]; intros m; [done|]. cbn [read_all].
  rewrite (read_frame b c ev m Hb). destruct (network_Read b m) as [[e m1]|?|]; cbn; [|done..].
  rewrite IH. by destruct (read_all bs m1) as [[es m2]|?|].
Qed.

Lemma read_all_app xs ys m :
  read_all (xs ++ ys) m =
  '(es, m1) ← read_all xs m; '(fs, m2) ← read_all ys m1; Ok (es ++ fs, m2).
Proof.
  revert m. induction xs as [|b xs IH]; intros m.
  - cbn. by destruct (read_all ys m) as [[fs m2]|?|].
  - cbn [app read_all]. destruct (network_Read b m) as [[e m1]|?|]; cbn; [|done..]. rewrite IH.
    destruct (read_all xs m1) as [[es m2]|?|]; cbn; [|done..].
    destruct (read_all ys m2) as [[fs m3]|?|]; cbn; [|done..]. by rewrite (assoc_L (++)).
Qed.

(** A buffer with the first line of a request for [uri], with a query or not. *)
Definition request_for (uri : string) (b : networkBufferInBPF) : Prop :=
  is_http b = true ∧ nb_Direction b = BufferDirectionRequest ∧
  lacks "?" uri = true ∧ lacks " " uri = true ∧
  ∃ method d rest, buffer_data b = Ok (method +:+ space +:+ uri +:+ String d rest) ∧
    method ≠ EmptyString ∧ lacks " " method = true ∧ (d = "?"%char ∨ d = " "%char).

(** A buffer with the first line of a response of status [i]. *)
Definition response_of (i : Z) (b : networkBufferInBPF) : Prop :=
  is_http b = true ∧ nb_Direction b = BufferDirectionResponse ∧
  ∃ proto code rest, buffer_data b = Ok (proto +:+ space +:+ code +:+ space +:+ rest) ∧
    proto ≠ EmptyString ∧ lacks " " proto = true ∧ lacks " " code = true ∧ ParseInt32 code = Some i.

Lemma read_request b uri m : request_for uri b →
  network_Read b m = Ok (None, <[ChannelRef b := MkHTTP1Event (nb_Pid b) uri (nb_Timestamp b) 0 0]> m).
Proof.
  intros (Hh & Hd & Hq & Hs & method & d & rest & Hb & Hm & Hl & Hc).
  unfold network_Read, HandleBufferEvent. rewrite Hh, Hd, Hb. cbn [mbind res_bind].
  by rewrite request_uri_line.
Qed.

Lemma read_response b i m ev : response_of i b → m !! ChannelRef b = Some ev →
  network_Read b m =
  Ok (Some (MkHTTP1Event (h_pid ev) (h_requestURI ev) (requestTime ev) i (nb_Timestamp b)),
      delete (ChannelRef b) m).
Proof.
  intros (Hh & Hd & proto & code & rest & Hb & Hp & Hl & Hc & Hi) Hm.
  unfold network_Read, HandleBufferEvent. rewrite Hh, Hd, Hm, Hb. cbn [mbind res_bind].
  by rewrite (status_line proto code rest i).
Qed.

(** A request line and the status line that answers it on the same channel, whatever the
    other channels send in between, yield exactly one event more than the other channels do:
    it has the process, the URI up to its query and the time of the request, and the code and
    the time of the response; no request is left waiting on the channel, and the requests of
    the other channels are as they would be without this exchange. *)
Theorem exchange_yields_its_event req others resp uri i es m m' :
  request_for uri req → response_of i resp → ChannelRef resp = ChannelRef req →
  Forall (λ b, ChannelRef b ≠ ChannelRef req) others → read_all others m = Ok (es, m') →
  read_all (req :: others ++ [resp]) m =
    Ok (es ++ [MkHTTP1Event (nb_Pid req) uri (nb_Timestamp req) i (nb_Timestamp resp)],
        delete (ChannelRef req) m').
Proof.
  intros Hreq Hresp Hch Ho Hr. cbn [read_all]. rewrite (read_request req uri m Hreq). cbn [mbind res_bind].
  rewrite read_all_app, (read_all_frame others _ _ m Ho), Hr. cbn [mbind res_bind read_all].
  rewrite (read_response resp i _ _ Hresp (ltac:(by rewrite Hch, lookup_insert_eq))), Hch.
  cbn. by rewrite delete_insert_eq.
Qed.

(** ** Samples *)

Module HttpSamples.

Definition text_buffer (c t : Z) (d : BufferDirection) (text : string) : networkBufferInBPF :=
  MkNetworkBuffer t c true d (Z.of_nat (String.length text)) 7 text.

Definition get_users : networkBufferInBPF := text_buffer 1 100 BufferDirectionRequest "GET /users?id=1 HTTP/1.1".
Definition post_order : networkBufferInBPF := text_buffer 2 120 BufferDirectionRequest "POST /order HTTP/1.1".
Definition error_500 : networkBufferInBPF := text_buffer 1 150 BufferDirectionResponse "HTTP/1.1 500 Error".

Lemma exchange_witness :
  read_all [get_users; post_order; error_500] ∅
  = Ok ([MkHTTP1Event 7 "/users" 100 500 150], {[ 2 := MkHTTP1Event 7 "/order" 120 0 0 ]}).
Proof.
  refine (eq_trans (exchange_yields_its_event get_users [post_order] error_500 "/users" 500 []
    ∅ (<[2 := MkHTTP1Event 7 "/order" 120 0 0]> ∅) _ _ _ _ _) _); [| |reflexivity| |reflexivity|reflexivity].
  - split_and!; [reflexivity..|]. exists "GET", "?"%char, "id=1 HTTP/1.1". split_and!; [reflexivity|done|reflexivity|by left].
  - split_and!; [reflexivity..|]. exists "HTTP/1.1", "500", "Error". by split_and!.
  - by repeat constructor.
Defined.

(** A status line that ends with its code is sliced out of range. *)
Example status_line_without_reason :
  read_all [get_users; text_buffer 1 150 BufferDirectionResponse "HTTP/1.1 200"] ∅ = Panic.
Proof. reflexivity. Qed.

(** A response whose clock is behind the request's has a negative duration. *)
Example negative_duration :
  be_Duration (buffer_event 0 (MkHTTP1Event 7 "/users" 100 200 90)) = -10.
Proof. reflexivity. Qed.

End HttpSamples.
