(* ===== verification/Traffic.v ===== *)
(** * Traffic between processes (network profiling)

    src/pkg/profiling/task/network/analyze/base: the connections of the profiled processes
    (connection.go) and how they are combined to the traffic between two processes, or
    between a process and a remote address (traffic.go).

    The contexts of the connections are shared objects, so they live in a store and are
    named by references.  The metrics of a connection are what the listeners of the analysis
    bind to it: an interface here, and the layer 4 metrics of Layer4.v implement it. *)

From stdpp Require Import base gmap list strings.
From Stdlib Require Import ZArith Lia.
From S2P Require Import Prelude Interfaces ProcessStorage Connection Checkers.

(** ** Connections (connection.go) *)

Record ConnectionContext (M : Type) : Type := MkCC {
  cc_ConnectionID : Z;
  cc_RandomID : Z;
  LocalPid : Z;
  cc_SocketFD : Z;
  LocalProcesses : list positive;
  ConnectionClosed : bool;
  cc_Protocol : Z;
  IsSSL : bool;
  cc_Role : ConnectionRole;
  LocalIP : string;
  LocalPort : Z;
  RemoteIP : string;
  RemotePort : Z;
  cc_Metrics : M;
  FlushDataCount : Z;
  DeleteFlushCount : Z
}.
Arguments MkCC {M} _ _ _ _ _ _ _ _ _ _ _ _ _ _ _ _.
Arguments cc_ConnectionID {M} _.
Arguments cc_RandomID {M} _.
Arguments LocalPid {M} _.
Arguments cc_SocketFD {M} _.
Arguments LocalProcesses {M} _.
Arguments ConnectionClosed {M} _.
Arguments cc_Protocol {M} _.
Arguments IsSSL {M} _.
Arguments cc_Role {M} _.
Arguments LocalIP {M} _.
Arguments LocalPort {M} _.
Arguments RemoteIP {M} _.
Arguments RemotePort {M} _.
Arguments cc_Metrics {M} _.
Arguments FlushDataCount {M} _.
Arguments DeleteFlushCount {M} _.

Definition ConnectionProtocolUnknown : Z := 0.

Section updates.
Context {M : Type}.
Implicit Types c : ConnectionContext M.

Definition set_role (r : ConnectionRole) c : ConnectionContext M :=
  MkCC (cc_ConnectionID c) (cc_RandomID c) (LocalPid c) (cc_SocketFD c) (LocalProcesses c)
    (ConnectionClosed c) (cc_Protocol c) (IsSSL c) r (LocalIP c) (LocalPort c) (RemoteIP c)
    (RemotePort c) (cc_Metrics c) (FlushDataCount c) (DeleteFlushCount c).
Definition set_local (ip : string) (port : Z) c : ConnectionContext M :=
  MkCC (cc_ConnectionID c) (cc_RandomID c) (LocalPid c) (cc_SocketFD c) (LocalProcesses c)
    (ConnectionClosed c) (cc_Protocol c) (IsSSL c) (cc_Role c) ip port (RemoteIP c)
    (RemotePort c) (cc_Metrics c) (FlushDataCount c) (DeleteFlushCount c).
Definition set_remote (ip : string) (port : Z) c : ConnectionContext M :=
  MkCC (cc_ConnectionID c) (cc_RandomID c) (LocalPid c) (cc_SocketFD c) (LocalProcesses c)
    (ConnectionClosed c) (cc_Protocol c) (IsSSL c) (cc_Role c) (LocalIP c) (LocalPort c) ip
    port (cc_Metrics c) (FlushDataCount c) (DeleteFlushCount c).
Definition set_closed c : ConnectionContext M :=
  MkCC (cc_ConnectionID c) (cc_RandomID c) (LocalPid c) (cc_SocketFD c) (LocalProcesses c)
    true (cc_Protocol c) (IsSSL c) (cc_Role c) (LocalIP c) (LocalPort c) (RemoteIP c)
    (RemotePort c) (cc_Metrics c) (FlushDataCount c) (DeleteFlushCount c).
Definition set_detected (role : ConnectionRole) (protocol : Z) (ssl : bool) c : ConnectionContext M :=
  MkCC (cc_ConnectionID c) (cc_RandomID c) (LocalPid c) (cc_SocketFD c) (LocalProcesses c)
    (ConnectionClosed c) protocol ssl role (LocalIP c) (LocalPort c) (RemoteIP c)
    (RemotePort c) (cc_Metrics c) (FlushDataCount c) (DeleteFlushCount c).
Definition set_metrics (m : M) c : ConnectionContext M :=
  MkCC (cc_ConnectionID c) (cc_RandomID c) (LocalPid c) (cc_SocketFD c) (LocalProcesses c)
    (ConnectionClosed c) (cc_Protocol c) (IsSSL c) (cc_Role c) (LocalIP c) (LocalPort c)
    (RemoteIP c) (RemotePort c) m (FlushDataCount c) (DeleteFlushCount c).
Definition count_flush c : ConnectionContext M :=
  MkCC (cc_ConnectionID c) (cc_RandomID c) (LocalPid c) (cc_SocketFD c) (LocalProcesses c)
    (ConnectionClosed c) (cc_Protocol c) (IsSSL c) (cc_Role c) (LocalIP c) (LocalPort c)
    (RemoteIP c) (RemotePort c) (cc_Metrics c) (FlushDataCount c + 1) (DeleteFlushCount c).
Definition count_delete c : ConnectionContext M :=
  MkCC (cc_ConnectionID c) (cc_RandomID c) (LocalPid c) (cc_SocketFD c) (LocalProcesses c)
    (ConnectionClosed c) (cc_Protocol c) (IsSSL c) (cc_Role c) (LocalIP c) (LocalPort c)
    (RemoteIP c) (RemotePort c) (cc_Metrics c) (FlushDataCount c) (DeleteFlushCount c + 1).

End updates.

(** [ConnectionRole.Revert]. *)
Definition Revert (r : ConnectionRole) : ConnectionRole :=
  match r with
  | ConnectionRoleClient => ConnectionRoleServer
  | ConnectionRoleServer => ConnectionRoleClient
  | ConnectionRoleUnknown => ConnectionRoleUnknown
  end.

Definition role_string (r : ConnectionRole) : string :=
  match r with
  | ConnectionRoleClient => "client"
  | ConnectionRoleServer => "server"
  | ConnectionRoleUnknown => "unknown"
  end.

(** What the listeners bind to a connection and to a traffic. *)
Class ConnectionMetrics (M : Type) : Type := {
  NewConnectionMetrics : M;
  (** The metrics of the second argument with those of the connection merged into them. *)
  MergeMetricsFromConnection : ConnectionContext M → M → M
}.

(** The laws of metrics: what a connection adds to a number that they measure does not
    depend on what is already there.  The numbers wrap around at a modulus. *)
Class LawfulMetrics (M : Type) `{!ConnectionMetrics M} : Type := {
  modulus : Z;
  weight : M → Z;
  increase : ConnectionContext M → Z;
  weight_new : weight NewConnectionMetrics = 0;
  weight_merge con m : (modulus | weight (MergeMetricsFromConnection con m) - (weight m + increase con));
  increase_role r con : increase (set_role r con) = increase con;
  increase_remote ip port con : increase (set_remote ip port con) = increase con
}.

Global Instance ConnectionRole_countable : Countable ConnectionRole.
Proof.
  refine (inj_countable' (λ r, match r with
      | ConnectionRoleUnknown => 0%N | ConnectionRoleClient => 1%N | ConnectionRoleServer => 2%N end)
    (λ n, match n with
      | 0%N => ConnectionRoleUnknown | 1%N => ConnectionRoleClient | _ => ConnectionRoleServer end) _).
  by intros [].
Defined.

(** ** The analyzer (traffic.go) *)

Record ProcessTraffic (M : Type) : Type := MkTraffic {
  pt_LocalIP : string;
  pt_LocalPort : Z;
  pt_LocalPid : Z;
  pt_LocalProcesses : list positive;
  pt_RemoteIP : string;
  pt_RemotePort : Z;
  pt_RemotePid : Z;
  RemoteProcesses : list positive;
  pt_Role : ConnectionRole;
  pt_Protocol : Z;
  pt_IsSSL : bool;
  pt_Metrics : M
}.
Arguments MkTraffic {M} _ _ _ _ _ _ _ _ _ _ _ _.
Arguments pt_LocalIP {M} _.
Arguments pt_LocalPort {M} _.
Arguments pt_LocalPid {M} _.
Arguments pt_LocalProcesses {M} _.
Arguments pt_RemoteIP {M} _.
Arguments pt_RemotePort {M} _.
Arguments pt_RemotePid {M} _.
Arguments RemoteProcesses {M} _.
Arguments pt_Role {M} _.
Arguments pt_Protocol {M} _.
Arguments pt_IsSSL {M} _.
Arguments pt_Metrics {M} _.

(** The keys and values of the caches. *)
Notation LocalWithPeerAddress := (string * Z * (string * Z))%type.
Notation PeerAddress := (string * Z)%type.

Record AddressWithPid : Type := MkAddressWithPid {
  awp_RemoteIP : string;
  awp_RemotePort : Z;
  awp_Pid : Z
}.

Record TrafficAnalyzer : Type := MkAnalyzer {
  localWithPeerCache : gmap LocalWithPeerAddress (Z * ConnectionRole);
  peerAddressCache : gmap PeerAddress (list Z);
  envoyAcceptClientAddressCache : gmap PeerAddress AddressWithPid;
  processData : gmap Z (list positive);
  localAddresses : gmap string (gmap string positive)
}.

Definition NewTrafficAnalyzer : TrafficAnalyzer := MkAnalyzer ∅ ∅ ∅ ∅ ∅.

Definition layerMeshDP : string := "MESH_DP".
Definition layerMeshApp : string := "MESH".
Definition processEnvoy : string := "envoy".

Definition ipNotEmpty (ip : string) (port : Z) : bool :=
  negb (bool_decide (ip = "")) && negb (port =? 0).

Section analyzer.
Context {M : Type} `{!ConnectionMetrics M} `{!RangeOrder} `{!Processes}.
(** The name of the executable of a process, when it can be read. *)
Variable ExeName : positive → option string.
(** The addresses of the host. *)
Variable hostAddresses : gset string.
(** The processes of the task. *)
Variable processes : gmap Z (list positive).
Implicit Types con : ConnectionContext M.

Definition local_known con : bool := ipNotEmpty (LocalIP con) (LocalPort con).
Definition remote_known con : bool := ipNotEmpty (RemoteIP con) (RemotePort con).

Definition set_peer (t : TrafficAnalyzer) con : TrafficAnalyzer :=
  if local_known con && remote_known con then
    MkAnalyzer (<[(LocalIP con, LocalPort con, (RemoteIP con, RemotePort con)) := (LocalPid con, cc_Role con)]>
                  (localWithPeerCache t))
      (peerAddressCache t) (envoyAcceptClientAddressCache t) (processData t) (localAddresses t)
  else t.

(** The pid of the local address, and the processes by their layer. *)
Definition set_local_address (t : TrafficAnalyzer) con : TrafficAnalyzer :=
  let peerAddress := (LocalIP con, LocalPort con) in
  MkAnalyzer (localWithPeerCache t)
    (<[peerAddress := default [] (peerAddressCache t !! peerAddress) ++ [LocalPid con]]> (peerAddressCache t))
    (envoyAcceptClientAddressCache t) (processData t)
    (match LocalProcesses con with
     | [] => localAddresses t
     | ps => <[LocalIP con := foldl (λ m p, <[Layer (p_Entity p) := p]> m)
                                (default ∅ (localAddresses t !! LocalIP con)) ps]> (localAddresses t)
     end).

(** The client of an envoy that accepted a connection. *)
Definition set_envoy_client (t : TrafficAnalyzer) con : TrafficAnalyzer :=
  match LocalProcesses con with
  | p :: _ =>
    if bool_decide (cc_Role con = ConnectionRoleServer) && bool_decide (ExeName p = Some processEnvoy) then
      MkAnalyzer (localWithPeerCache t) (peerAddressCache t)
        (<[(RemoteIP con, RemotePort con) := MkAddressWithPid (LocalIP con) (LocalPort con) (LocalPid con)]>
           (envoyAcceptClientAddressCache t)) (processData t) (localAddresses t)
    else t
  | [] => t
  end.

Definition set_process_data (t : TrafficAnalyzer) con : TrafficAnalyzer :=
  match default [] (processData t !! LocalPid con) with
  | [] =>
    MkAnalyzer (localWithPeerCache t) (peerAddressCache t) (envoyAcceptClientAddressCache t)
      (<[LocalPid con := LocalProcesses con]> (processData t)) (localAddresses t)
  | _ => t
  end.

(** The ports on which a process serves: [DetectNewExposePort] adds one. *)
Definition processExportPortAnalyze (ports : gset (positive * Z)) con : gset (positive * Z) :=
  if bool_decide (cc_Role con = ConnectionRoleServer) && (0 <? LocalPort con) then
    list_to_set ((λ p, (p, LocalPort con)) <$> LocalProcesses con) ∪ ports
  else ports.

Definition cache_connection (st : TrafficAnalyzer * gset (positive * Z)) con
    : TrafficAnalyzer * gset (positive * Z) :=
  let '(t, ports) := st in
  let t := set_peer t con in
  let t := if local_known con then set_local_address t con
           else if remote_known con then set_envoy_client t con
           else t in
  (set_process_data t con, processExportPortAnalyze ports con).

Definition buildCache (connections : list (ConnectionContext M)) (ports : gset (positive * Z))
    : TrafficAnalyzer * gset (positive * Z) :=
  foldl cache_connection (NewTrafficAnalyzer, ports) connections.

(** The methods that look for the process of the remote address return its pid, or 0, and
    the connection, whose role and remote address they may complete. *)
Definition findRemotePidWhenContainsFullAddress (t : TrafficAnalyzer) con : Z * ConnectionContext M :=
  if local_known con && remote_known con then
    match localWithPeerCache t !! (RemoteIP con, RemotePort con, (LocalIP con, LocalPort con)) with
    | Some (pid, role) =>
      (pid, if bool_decide (cc_Role con = ConnectionRoleUnknown) && negb (bool_decide (role = ConnectionRoleUnknown))
            then set_role (Revert role) con else con)
    | None =>
      if bool_decide (cc_Role con = ConnectionRoleClient) then
        match envoyAcceptClientAddressCache t !! (LocalIP con, LocalPort con) with
        | Some addr =>
          (awp_Pid addr, if ipNotEmpty (awp_RemoteIP addr) (awp_RemotePort addr)
                         then set_remote (awp_RemoteIP addr) (awp_RemotePort addr) con else con)
        | None => (0, con)
        end
      else (0, con)
    end
  else (0, con).

(** The last pid of the address that is not the connection's own. *)
Definition findRemotePidWhenContainsRemoteAddress (t : TrafficAnalyzer) con : Z :=
  if negb (remote_known con) then 0
  else
    match default [] (peerAddressCache t !! (RemoteIP con, RemotePort con)) with
    | [] => 0
    | pid0 :: _ as pidCaches =>
      foldl (λ result pid, if negb (pid =? LocalPid con) then pid else result) pid0 pidCaches
    end.

Definition same_instance (p : positive) (entity : ProcessEntity) : bool :=
  bool_decide (ent_ServiceName (p_Entity p) = ent_ServiceName entity) &&
  bool_decide (InstanceName (p_Entity p) = InstanceName entity).

Definition findSameInstanceMeshDP (entity : ProcessEntity) : Z :=
  match list_find (λ p, bool_decide (Layer (p_Entity p) = layerMeshDP) && same_instance p entity &&
                        bool_decide (ExeName p = Some processEnvoy) = true)
          (mjoin (snd <$> range processes)) with
  | Some (_, p) => u32 (p_Pid p)
  | None => 0
  end.

(** The loop over the local processes of a connection. *)
Fixpoint mesh_loop (t : TrafficAnalyzer) (remoteIP : string) (ps : list positive) : Z :=
  match ps with
  | [] => 0
  | localProcess :: ps' =>
    let entity := p_Entity localProcess in
    let addresses := default ∅ (localAddresses t !! remoteIP) in
    if bool_decide (Layer entity = layerMeshDP) then
      match addresses !! layerMeshApp with
      | Some p => u32 (p_Pid p)
      | None => mesh_loop t remoteIP ps'
      end
    else if bool_decide (Layer entity = layerMeshApp) && bool_decide (addresses = ∅) &&
            negb (IsLocalHostAddress hostAddresses remoteIP) then
      let envoyPid := findSameInstanceMeshDP entity in
      if negb (envoyPid =? 0) then envoyPid else mesh_loop t remoteIP ps'
    else mesh_loop t remoteIP ps'
  end.

Definition findRemotePidWhenMeshEnvironment (t : TrafficAnalyzer) con : Z :=
  if negb (remote_known con) then 0 else mesh_loop t (RemoteIP con) (LocalProcesses con).

Definition findRemotePid (t : TrafficAnalyzer) con : Z * ConnectionContext M :=
  let '(pid, con) := findRemotePidWhenContainsFullAddress t con in
  if 0 <? pid then (pid, con)
  else
    let pid := findRemotePidWhenContainsRemoteAddress t con in
    if 0 <? pid then (pid, con)
    else
      let pid := findRemotePidWhenMeshEnvironment t con in
      if 0 <? pid then (pid, con) else (0, con).

(** A connection of an unknown role whose remote process is not found. *)
Definition tryingToGenerateTheRole (ports : gset (positive * Z)) con : ConnectionContext M :=
  match cc_Role con, LocalProcesses con with
  | ConnectionRoleUnknown, p :: _ =>
    if LocalPort con =? 0 then con
    else set_role (if bool_decide ((p, LocalPort con) ∈ ports) then ConnectionRoleServer
                   else ConnectionRoleClient) con
  | _, _ => con
  end.

Definition new_traffic con : ProcessTraffic M :=
  MkTraffic (LocalIP con) (LocalPort con) (LocalPid con) (LocalProcesses con) "" 0 0 []
    ConnectionRoleUnknown ConnectionProtocolUnknown false NewConnectionMetrics.

Definition generateOrCombineTraffic (t : TrafficAnalyzer) (traffic : option (ProcessTraffic M)) con
    (remotePid : Z) : ProcessTraffic M * ConnectionContext M :=
  let traffic := default (new_traffic con) traffic in
  (MkTraffic (pt_LocalIP traffic) (pt_LocalPort traffic) (pt_LocalPid traffic)
     (match pt_LocalProcesses traffic with [] => LocalProcesses con | ps => ps end)
     (RemoteIP con) (RemotePort con)
     (if negb (remotePid =? 0) then remotePid else pt_RemotePid traffic)
     (if negb (remotePid =? 0) then default [] (processData t !! remotePid) else RemoteProcesses traffic)
     (match pt_Role traffic with ConnectionRoleUnknown => cc_Role con | r => r end)
     (if pt_Protocol traffic =? ConnectionProtocolUnknown then cc_Protocol con else pt_Protocol traffic)
     (pt_IsSSL traffic || IsSSL con)
     (MergeMetricsFromConnection con (pt_Metrics traffic)),
   count_flush con).

(** The keys of the two maps of traffics. *)
Notation PidMatchTrafficKey := (Z * Z * ConnectionRole)%type.
Notation PidToRemoteTrafficKey := (Z * ConnectionRole * string * Z)%type.

(** The store of connections, and the traffics so far. *)
Record combining : Type := MkCombining {
  cb_conns : gmap positive (ConnectionContext M);
  pidMatchedTraffic : gmap PidMatchTrafficKey (ProcessTraffic M);
  pidToRemoteTraffic : gmap PidToRemoteTrafficKey (ProcessTraffic M)
}.

Definition remote_key con : PidToRemoteTrafficKey :=
  match cc_Role con with
  | ConnectionRoleServer => (LocalPid con, ConnectionRoleServer, RemoteIP con, 0)
  | _ => (LocalPid con, ConnectionRoleClient, RemoteIP con, RemotePort con)
  end.

(** One round of the loop; a connection without remote process and address is ignored. *)
Definition combine_connection (t : TrafficAnalyzer) (ports : gset (positive * Z)) (s : combining)
    (ref : positive) : res Empty_set combining :=
  con ← must (cb_conns s !! ref);
  let '(remotePid, con) := findRemotePid t con in
  if negb (remotePid =? 0) then
    let key := (LocalPid con, remotePid, cc_Role con) in
    let '(traffic, con) := generateOrCombineTraffic t (pidMatchedTraffic s !! key) con remotePid in
    Ok (MkCombining (<[ref := con]> (cb_conns s)) (<[key := traffic]> (pidMatchedTraffic s))
          (pidToRemoteTraffic s))
  else if negb (remote_known con) then
    Ok (MkCombining (<[ref := con]> (cb_conns s)) (pidMatchedTraffic s) (pidToRemoteTraffic s))
  else
    let con := tryingToGenerateTheRole ports con in
    let key := remote_key con in
    let '(traffic, con) := generateOrCombineTraffic t (pidToRemoteTraffic s !! key) con 0 in
    Ok (MkCombining (<[ref := con]> (cb_conns s)) (pidMatchedTraffic s)
          (<[key := traffic]> (pidToRemoteTraffic s))).

Definition CombineConnectionToTraffics (connections : list positive)
    (conns : gmap positive (ConnectionContext M)) (ports : gset (positive * Z))
    : res Empty_set (list (ProcessTraffic M) * TrafficAnalyzer *
                     gmap positive (ConnectionContext M) * gset (positive * Z)) :=
  ccs ← must (mapM (λ ref, conns !! ref) connections);
  let '(t, ports) := buildCache ccs ports in
  s ← for_range (combine_connection t ports) (MkCombining conns ∅ ∅) connections;
  Ok ((snd <$> range (pidMatchedTraffic s)) ++ (snd <$> range (pidToRemoteTraffic s)), t, cb_conns s, ports).

End analyzer.
