(* ===== verification/Layer4.v ===== *)
(** * Layer 4 metrics of network profiling

    src/pkg/profiling/task/network/analyze/layer4: counters and histograms of a connection
    (metrics.go), how the kernel's numbers and the exceptions of a socket reach them
    (listener.go, events.go), and the meters that are sent of a traffic.

    A counter is a pair of objects; [RefreshCurrent] and [UpdateToCurrent] make the current
    one the previous one and put a new object in its place, so the two are never shared and
    a counter is a value.  The buckets of a histogram are a map, and the loops over it do
    not depend on its order. *)

From stdpp Require Import base gmap list strings pretty.
From Stdlib Require Import ZArith Lia Ascii.
From Stdlib Require Import Floats.SpecFloat.
From S2P Require Import Prelude Interfaces GoStrings ProcessStorage Connection Checkers Traffic.

(** ** Counters (metrics.go) *)

Record SocketDataCounter : Type := MkCounter {
  ct_Bytes : Z;
  ct_Count : Z;
  ct_ExeTime : Z
}.

Definition NewSocketDataCounter : SocketDataCounter := MkCounter 0 0 0.

Definition IncreaseByValue (bytes count exeTime : Z) (s : SocketDataCounter) : SocketDataCounter :=
  MkCounter (u64 (ct_Bytes s + bytes)) (u64 (ct_Count s + count)) (u64 (ct_ExeTime s + exeTime)).

Definition NewSocketDataCounterWithValue (bytes count exeTime : Z) : SocketDataCounter :=
  IncreaseByValue bytes count exeTime NewSocketDataCounter.

Definition counter_Increase (d s : SocketDataCounter) : SocketDataCounter :=
  IncreaseByValue (ct_Bytes d) (ct_Count d) (ct_ExeTime d) s.

Definition counter_NotEmpty (s : SocketDataCounter) : bool := 0 <? ct_Count s.

Record SocketDataCounterWithHistory : Type := MkHistory {
  ct_Pre : SocketDataCounter;
  ct_Cur : SocketDataCounter
}.

Definition NewSocketDataCounterWithHistory : SocketDataCounterWithHistory :=
  MkHistory NewSocketDataCounter NewSocketDataCounter.

Definition RefreshCurrent (c : SocketDataCounterWithHistory) : SocketDataCounterWithHistory :=
  MkHistory (ct_Cur c)
    (NewSocketDataCounterWithValue (ct_Bytes (ct_Cur c)) (ct_Count (ct_Cur c)) (ct_ExeTime (ct_Cur c))).

Definition UpdateToCurrent (bytes count exeTime : Z) (c : SocketDataCounterWithHistory)
    : SocketDataCounterWithHistory :=
  MkHistory (ct_Cur c) (MkCounter bytes count exeTime).

Definition IncreaseToCurrent (other : SocketDataCounter) (c : SocketDataCounterWithHistory)
    : SocketDataCounterWithHistory :=
  MkHistory (ct_Pre c) (counter_Increase other (ct_Cur c)).

Definition subtractionValue (v1 v2 : Z) : Z := if v2 <? v1 then v1 - v2 else 0.

Definition CalculateIncrease (c : SocketDataCounterWithHistory) : SocketDataCounter :=
  MkCounter (subtractionValue (ct_Bytes (ct_Cur c)) (ct_Bytes (ct_Pre c)))
    (subtractionValue (ct_Count (ct_Cur c)) (ct_Count (ct_Pre c)))
    (subtractionValue (ct_ExeTime (ct_Cur c)) (ct_ExeTime (ct_Pre c))).

(** ** Histograms *)

Definition SocketHistogramBucketsNs : list Z :=
  [0; 10000; 50000; 100000; 500000; 1000000; 1200000; 1500000; 1700000; 2000000;
   2500000; 3000000; 5000000; 7000000; 10000000; 13000000; 16000000; 20000000; 25000000; 30000000;
   35000000; 40000000; 45000000; 50000000; 70000000; 100000000; 150000000; 200000000; 300000000;
   500000000; 1000000000; 2000000000; 3000000000; 5000000000].

Definition SocketHistogramBucketsUs : list Z :=
  [0; 10; 50; 100; 500; 1000; 1200; 1500; 1700; 2000;
   2500; 3000; 5000; 7000; 10000; 13000; 16000; 20000; 25000; 30000; 35000; 40000;
   45000; 50000; 70000; 100000; 150000; 200000; 300000; 500000; 1000000; 2000000;
   3000000; 5000000].

Definition SocketHistogramBucketsCount : Z := Z.of_nat (length SocketHistogramBucketsNs).

Inductive HistogramDataUnit : Type := HistogramDataUnitNS | HistogramDataUnitUS.

Record SocketDataHistogram : Type := MkHistogram {
  Unit : HistogramDataUnit;
  Buckets : gmap Z Z
}.

Definition Overwrite (other h : SocketDataHistogram) : SocketDataHistogram :=
  MkHistogram (Unit h) (Buckets other ∪ Buckets h).

Definition histogram_Update (bucket value : Z) (h : SocketDataHistogram) : SocketDataHistogram :=
  MkHistogram (Unit h) (<[bucket := value]> (Buckets h)).

Definition histogram_Increase (other h : SocketDataHistogram) : SocketDataHistogram :=
  MkHistogram (Unit h) (union_with (λ a b, Some (u32 (a + b))) (Buckets h) (Buckets other)).

(** The bucket before the first bound above the value; the bounds and the value compare as
    floats the way they compare as integers, since the bounds are below 2^53. *)
Fixpoint bucket_of (val inx : Z) (bounds : list Z) : Z :=
  match bounds with
  | [] => inx - 1
  | curVal :: bounds' => if val <? curVal then inx - 1 else bucket_of val (inx + 1) bounds'
  end.

Definition histogram_IncreaseByValue (val : Z) (h : SocketDataHistogram) : SocketDataHistogram :=
  let b := bucket_of val 1 (tail SocketHistogramBucketsNs) in
  MkHistogram (Unit h) (<[b := u32 (default 0 (Buckets h !! b) + 1)]> (Buckets h)).

Definition histogram_NotEmpty (h : SocketDataHistogram) : bool :=
  bool_decide (map_Exists (λ _ v, 0 < v) (Buckets h)).

Definition NewSocketDataHistogram (unit : HistogramDataUnit) : SocketDataHistogram :=
  MkHistogram unit (list_to_map ((λ i, (i, 0)) <$> seqZ 0 SocketHistogramBucketsCount)).

Record SocketDataHistogramWithHistory : Type := MkHistogramHistory {
  hg_Pre : SocketDataHistogram;
  hg_Cur : SocketDataHistogram
}.

Definition NewSocketDataHistogramWithHistory (unit : HistogramDataUnit) : SocketDataHistogramWithHistory :=
  MkHistogramHistory (NewSocketDataHistogram unit) (NewSocketDataHistogram unit).

Definition histogram_RefreshCurrent (h : SocketDataHistogramWithHistory) : SocketDataHistogramWithHistory :=
  MkHistogramHistory (Overwrite (hg_Cur h) (hg_Pre h)) (hg_Cur h).

Definition histogram_UpdateToCurrent (bucket val : Z) (h : SocketDataHistogramWithHistory)
    : SocketDataHistogramWithHistory :=
  MkHistogramHistory (hg_Pre h) (histogram_Update bucket val (hg_Cur h)).

Definition histogram_IncreaseToCurrent (other : SocketDataHistogram) (h : SocketDataHistogramWithHistory)
    : SocketDataHistogramWithHistory :=
  MkHistogramHistory (hg_Pre h) (histogram_Increase other (hg_Cur h)).

Definition histogram_CalculateIncrease (h : SocketDataHistogramWithHistory) : SocketDataHistogram :=
  MkHistogram (Unit (hg_Cur h))
    (map_imap (λ k v, let increaseVal := u32 (v - default 0 (Buckets (hg_Pre h) !! k)) in
                      if 0 <? increaseVal then Some increaseVal else None) (Buckets (hg_Cur h))
     ∪ Buckets (NewSocketDataHistogram (Unit (hg_Cur h)))).

(** ** The metrics of a connection *)

Record Metrics : Type := MkMetrics {
  WriteCounter : SocketDataCounterWithHistory;
  ReadCounter : SocketDataCounterWithHistory;
  WriteRTTCounter : SocketDataCounterWithHistory;
  WriteRTTHistogram : SocketDataHistogramWithHistory;
  WriteExeTimeHistogram : SocketDataHistogramWithHistory;
  ReadExeTimeHistogram : SocketDataHistogramWithHistory;
  ConnectExecuteTime : Z;
  CloseExecuteTime : Z;
  ConnectCounter : SocketDataCounterWithHistory;
  CloseCounter : SocketDataCounterWithHistory;
  ConnectExeTimeHistogram : SocketDataHistogramWithHistory;
  CloseExeTimeHistogram : SocketDataHistogramWithHistory;
  RetransmitCounter : SocketDataCounterWithHistory;
  DropCounter : SocketDataCounterWithHistory
}.

Definition NewLayer4Metrics : Metrics :=
  let c := NewSocketDataCounterWithHistory in
  let ns := NewSocketDataHistogramWithHistory HistogramDataUnitNS in
  MkMetrics c c c (NewSocketDataHistogramWithHistory HistogramDataUnitUS) ns ns 0 0 c c ns ns c c.

(** A value of the connect or close time in its counter and histogram. *)
Definition count_time (time : Z) (c : SocketDataCounterWithHistory) : SocketDataCounterWithHistory :=
  IncreaseToCurrent (NewSocketDataCounterWithValue 0 1 time) c.

Definition observe_time (time : Z) (h : SocketDataHistogramWithHistory) : SocketDataHistogramWithHistory :=
  MkHistogramHistory (hg_Pre h) (histogram_IncreaseByValue time (hg_Cur h)).

(** [l.MergeMetricsFromConnection(connection, metrics)]: the connect and close times are
    merged when the connection is flushed for the first time. *)
Definition layer4_Merge (connection : ConnectionContext Metrics) (l : Metrics) : Metrics :=
  let metrics := cc_Metrics connection in
  let add f := IncreaseToCurrent (CalculateIncrease (f metrics)) (f l) in
  let add_h f := histogram_IncreaseToCurrent (histogram_CalculateIncrease (f metrics)) (f l) in
  let first := FlushDataCount connection =? 0 in
  let connect := first && (0 <? ConnectExecuteTime metrics) in
  let close := first && (0 <? CloseExecuteTime metrics) in
  MkMetrics (add WriteCounter) (add ReadCounter) (add WriteRTTCounter)
    (add_h WriteRTTHistogram) (add_h WriteExeTimeHistogram) (add_h ReadExeTimeHistogram)
    (ConnectExecuteTime l) (CloseExecuteTime l)
    (if connect then count_time (ConnectExecuteTime metrics) (ConnectCounter l) else ConnectCounter l)
    (if close then count_time (CloseExecuteTime metrics) (CloseCounter l) else CloseCounter l)
    (if connect then observe_time (ConnectExecuteTime metrics) (ConnectExeTimeHistogram l)
     else ConnectExeTimeHistogram l)
    (if close then observe_time (CloseExecuteTime metrics) (CloseExeTimeHistogram l)
     else CloseExeTimeHistogram l)
    (add RetransmitCounter) (add DropCounter).

Global Instance layer4_metrics : ConnectionMetrics Metrics := {|
  NewConnectionMetrics := NewLayer4Metrics;
  MergeMetricsFromConnection := layer4_Merge
|}.

(** ** Events of the kernel (events/sockets.go, events.go) *)

(** The addresses of an event as it has them: the family, and both forms of each address. *)
Record socket_addresses : Type := MkAddresses {
  SocketFamily : Z;
  RemoteAddrV4 : Z;
  RemoteAddrV6 : list Z;
  RemoteAddrPort : Z;
  LocalAddrV4 : Z;
  LocalAddrV6 : list Z;
  LocalAddrPort : Z
}.

(** The numbers of the transfers of a connection. *)
Record transfer_stats : Type := MkStats {
  WriteBytes : Z;
  WriteCount : Z;
  WriteExeTime : Z;
  ReadBytes : Z;
  ReadCount : Z;
  ReadExeTime : Z;
  WriteRTTCount : Z;
  WriteRTTExeTime : Z
}.

Record NetConnectEvent : Type := MkNetConnect {
  nc_ConID : Z;
  nc_RandomID : Z;
  nc_ExeTime : Z;
  NeedComplete : Z;
  nc_Pid : Z;
  nc_FD : Z;
  nc_Role : ConnectionRole;
  nc_addresses : socket_addresses
}.

Record NetCloseEvent : Type := MkNetClose {
  cl_ConID : Z;
  cl_RandomID : Z;
  cl_ExeTime : Z;
  cl_Pid : Z;
  cl_SocketFD : Z;
  cl_Protocol : Z;
  cl_IsSSL : Z;
  cl_Role : ConnectionRole;
  cl_addresses : socket_addresses;
  cl_stats : transfer_stats
}.

(** The active connection of a kernel map, as far as it is used. *)
Record ActiveConnectionInBPF : Type := MkActiveInBPF {
  ab_Role : ConnectionRole;
  ab_Protocol : Z;
  ab_IsSSL : Z;
  ab_stats : transfer_stats
}.

Definition AF_INET : Z := 2.
Definition AF_INET6 : Z := 10.

(** ** The listener (listener.go) *)

Notation connections := (gmap positive (ConnectionContext Metrics)).

Definition on_metrics (f : Metrics → Metrics) (ref : positive) (conns : connections) : connections :=
  alter (λ c, set_metrics (f (cc_Metrics c)) c) ref conns.

Definition set_stats (s : transfer_stats) (m : Metrics) : Metrics :=
  MkMetrics (UpdateToCurrent (WriteBytes s) (WriteCount s) (WriteExeTime s) (WriteCounter m))
    (UpdateToCurrent (ReadBytes s) (ReadCount s) (ReadExeTime s) (ReadCounter m))
    (UpdateToCurrent 0 (WriteRTTCount s) (WriteRTTExeTime s) (WriteRTTCounter m))
    (WriteRTTHistogram m) (WriteExeTimeHistogram m) (ReadExeTimeHistogram m)
    (ConnectExecuteTime m) (CloseExecuteTime m) (ConnectCounter m) (CloseCounter m)
    (ConnectExeTimeHistogram m) (CloseExeTimeHistogram m) (RetransmitCounter m) (DropCounter m).

Definition set_times (connect close : Z) (m : Metrics) : Metrics :=
  MkMetrics (WriteCounter m) (ReadCounter m) (WriteRTTCounter m)
    (WriteRTTHistogram m) (WriteExeTimeHistogram m) (ReadExeTimeHistogram m)
    connect close (ConnectCounter m) (CloseCounter m)
    (ConnectExeTimeHistogram m) (CloseExeTimeHistogram m) (RetransmitCounter m) (DropCounter m).

Definition ReceiveNewConnection (event : NetConnectEvent) (m : Metrics) : Metrics :=
  set_times (nc_ExeTime event) (CloseExecuteTime m) m.

Definition ReceiveCloseConnection (event : NetCloseEvent) (m : Metrics) : Metrics :=
  set_times (ConnectExecuteTime m) (cl_ExeTime event) (set_stats (cl_stats event) m).

(** A histogram of the kernel: its key and its count. *)
Inductive SocketDataDirection : Type := DirectionIngress | DirectionEgress | DirectionOther.
Inductive SocketDataStaticsType : Type := StaticsRTT | StaticsExeTime | StaticsOther.

Record HistogramDataKey : Type := MkHistogramKey {
  hk_ConnectionID : Z;
  hk_RandomID : Z;
  hk_Bucket : Z;
  hk_DataDirection : SocketDataDirection;
  hk_DataType : SocketDataStaticsType
}.

(** The histogram of a key is updated; [None] is a key that no histogram has. *)
Definition update_histogram (key : HistogramDataKey) (count : Z) (m : Metrics) : option Metrics :=
  let upd := histogram_UpdateToCurrent (hk_Bucket key) count in
  let set rtt write read :=
    MkMetrics (WriteCounter m) (ReadCounter m) (WriteRTTCounter m) rtt write read
      (ConnectExecuteTime m) (CloseExecuteTime m) (ConnectCounter m) (CloseCounter m)
      (ConnectExeTimeHistogram m) (CloseExeTimeHistogram m) (RetransmitCounter m) (DropCounter m) in
  match hk_DataDirection key, hk_DataType key with
  | DirectionEgress, StaticsExeTime =>
    Some (set (WriteRTTHistogram m) (upd (WriteExeTimeHistogram m)) (ReadExeTimeHistogram m))
  | DirectionEgress, StaticsRTT =>
    Some (set (upd (WriteRTTHistogram m)) (WriteExeTimeHistogram m) (ReadExeTimeHistogram m))
  | DirectionIngress, _ =>
    Some (set (WriteRTTHistogram m) (WriteExeTimeHistogram m) (upd (ReadExeTimeHistogram m)))
  | _, _ => None
  end.

(** The exceptions of a socket between two flushes; the key of the map has the fields of
    [SocketBasicKey]. *)
Notation SocketBasicKey := (Z * Z * (Z * list Z * Z) * (Z * list Z * Z))%type.

Record SocketExceptionValue : Type := MkException {
  DropCount : Z;
  RetransmitCount : Z
}.

Inductive SocketExceptionOperationType : Type :=
| SocketExceptionOperationRetransmit | SocketExceptionOperationDrop | SocketExceptionOperationOther.

(** The local address of the event is not put into the key. *)
Definition handleSocketExceptionOperationEvent (pid : Z) (a : socket_addresses) (type : SocketExceptionOperationType)
    (statics : gmap SocketBasicKey SocketExceptionValue) : gmap SocketBasicKey SocketExceptionValue :=
  let key := (pid, SocketFamily a, (RemoteAddrV4 a, RemoteAddrV6 a, RemoteAddrPort a), (0, replicate 16 0, 0)) in
  let v := default (MkException 0 0) (statics !! key) in
  <[key := match type with
           | SocketExceptionOperationRetransmit => MkException (DropCount v) (RetransmitCount v + 1)
           | SocketExceptionOperationDrop => MkException (DropCount v + 1) (RetransmitCount v)
           | SocketExceptionOperationOther => v
           end]> statics.

Definition mergeExceptionToAppointConnection (expCtx : SocketExceptionValue) (m : Metrics) : Metrics :=
  MkMetrics (WriteCounter m) (ReadCounter m) (WriteRTTCounter m)
    (WriteRTTHistogram m) (WriteExeTimeHistogram m) (ReadExeTimeHistogram m)
    (ConnectExecuteTime m) (CloseExecuteTime m) (ConnectCounter m) (CloseCounter m)
    (ConnectExeTimeHistogram m) (CloseExeTimeHistogram m)
    (IncreaseToCurrent (NewSocketDataCounterWithValue 0 (u64 (RetransmitCount expCtx)) 0) (RetransmitCounter m))
    (IncreaseToCurrent (NewSocketDataCounterWithValue 0 (u64 (DropCount expCtx)) 0) (DropCounter m)).

(** The loop over the connections: the one with both addresses ends it, otherwise the last
    one with the remote address stays. *)
Fixpoint find_exception_connection (conns : connections) (local remote : string * Z) (refs : list positive)
    (firstRemoteMatch : option positive) : option positive :=
  match refs with
  | [] => firstRemoteMatch
  | ref :: refs' =>
    match conns !! ref with
    | Some cc =>
      if bool_decide ((RemoteIP cc, RemotePort cc) = remote) then
        if bool_decide ((LocalIP cc, LocalPort cc) = local) then Some ref
        else find_exception_connection conns local remote refs' (Some ref)
      else find_exception_connection conns local remote refs' firstRemoteMatch
    | None => find_exception_connection conns local remote refs' firstRemoteMatch
    end
  end.

(** ** Addresses (src/pkg/tools/ip/bpf.go, listener.go) *)

(** [netip.Addr.String] of four bytes. *)
Definition ipv4_text (b : list Z) : string := Join (pretty <$> b) ".".

(** A number of 16 bits in lower case hexadecimal, without leading zeros. *)
Definition hex_char (n : Z) : ascii :=
  ascii_of_nat (Z.to_nat (if n <? 10 then 48 + n else 87 + n)).

Definition hex16 (n : Z) : string :=
  let d3 := String (hex_char (n mod 16)) EmptyString in
  let d2 := String (hex_char (n / 16 mod 16)) d3 in
  let d1 := String (hex_char (n / 256 mod 16)) d2 in
  if n <? 16 then d3 else if n <? 256 then d2 else if n <? 4096 then d1 else String (hex_char (n / 4096)) d1.

Fixpoint groups_of (b : list Z) : list Z :=
  match b with
  | x :: y :: b' => 256 * x + y :: groups_of b'
  | _ => []
  end.

Fixpoint zero_run (g : list Z) : nat :=
  match g with
  | 0 :: g' => S (zero_run g')
  | _ => O
  end.

(** The first longest run of at least two zero groups: its start and its length. *)
Fixpoint longest_run (i : nat) (g : list Z) (best : nat * nat) : nat * nat :=
  match g with
  | [] => best
  | _ :: g' =>
    let l := zero_run g in
    longest_run (S i) g' (if (2 <=? l)%nat && (snd best <? l)%nat then (i, l) else best)
  end.

Definition ipv6_text (b : list Z) : string :=
  let g := groups_of b in
  let '(start, len) := longest_run 0 g (O, O) in
  if (len =? 0)%nat then Join (hex16 <$> g) ":"
  else Join (hex16 <$> take start g) ":" +:+ "::" +:+ Join (hex16 <$> drop (start + len) g) ":".

(** [net.IP.String] of sixteen bytes: an address of IPv4 in IPv6 is printed as such. *)
Definition ip16_text (b : list Z) : string :=
  if bool_decide (take 12 b = replicate 10 0 ++ [255; 255]) then ipv4_text (drop 12 b) else ipv6_text b.

(** The bytes of a [uint32] as they lie in memory. *)
Definition bytes_of_u32 (v : Z) : list Z := [v mod 256; v / 256 mod 256; v / 65536 mod 256; v / 16777216].

Definition parseAddressV4 (val : Z) : string := ipv4_text (bytes_of_u32 val).
Definition parseAddressV6 (val : list Z) : string := ip16_text val.
Definition ParseIPV4 (bpfVal : Z) : string := if bpfVal =? 0 then "" else ipv4_text (bytes_of_u32 bpfVal).
Definition ParseIPV6 (bpfVal : list Z) : string := ip16_text bpfVal.

(** ** Before and after a flush *)

Section listener.
Context `{!RangeOrder} `{!Processes}.

Definition generateConID (conID randomID : Z) : string := pretty conID +:+ "_" +:+ pretty randomID.

(** The basic counters of the connections with the numbers of the kernel, and the map from
    the ids to the connections. *)
Definition update_counters (ccs : list (positive * option ActiveConnectionInBPF)) (conns : connections) : connections :=
  foldl (λ conns '(ref, active),
           match active with
           | Some a => on_metrics (set_stats (ab_stats a)) ref conns
           | None => conns
           end) conns ccs.

Definition key_with_context (ccs : list (positive * option ActiveConnectionInBPF)) (conns : connections)
    : gmap string positive :=
  foldl (λ m '(ref, _),
           match conns !! ref with
           | Some c => <[generateConID (cc_ConnectionID c) (cc_RandomID c) := ref]> m
           | None => m
           end) ∅ ccs.

(** One histogram of the kernel; the keys of closed connections are deleted there. *)
Definition flush_histogram (keys : gmap string positive) (st : connections * list HistogramDataKey)
    (h : HistogramDataKey * Z) : connections * list HistogramDataKey :=
  let '(conns, deleted) := st in
  let '(key, count) := h in
  match keys !! generateConID (hk_ConnectionID key) (hk_RandomID key) ≫= (λ ref, (ref,.) <$> conns !! ref) with
  | None => st
  | Some (ref, cc) =>
    match update_histogram key count (cc_Metrics cc) with
    | None => st
    | Some m => (<[ref := set_metrics m cc]> conns, if ConnectionClosed cc then deleted ++ [key] else deleted)
    end
  end.

(** The address texts of a key, or none for another family. *)
Definition exception_addresses (key : SocketBasicKey) : option ((string * Z) * (string * Z)) :=
  let '(_, family, (remote4, remote6, remotePort), (local4, local6, localPort)) := key in
  if family =? AF_INET then
    Some ((parseAddressV4 local4, u16 localPort), (parseAddressV4 remote4, u16 remotePort))
  else if family =? AF_INET6 then
    Some ((parseAddressV6 local6, u16 localPort), (parseAddressV6 remote6, u16 remotePort))
  else None.

Definition combineExceptionToConnections (ccs : gmap string positive)
    (exps : gmap SocketBasicKey SocketExceptionValue) (conns : connections) : connections :=
  foldl (λ conns '(key, value),
           match exception_addresses key with
           | None => conns
           | Some (local, remote) =>
             match find_exception_connection conns local remote (snd <$> range ccs) None with
             | Some ref => on_metrics (mergeExceptionToAppointConnection value) ref conns
             | None => conns
             end
           end) conns (range exps).

Definition PreFlushConnectionMetrics (ccs : list (positive * option ActiveConnectionInBPF))
    (histograms : list (HistogramDataKey * Z)) (exps : gmap SocketBasicKey SocketExceptionValue)
    (conns : connections) : connections * list HistogramDataKey :=
  let conns := update_counters ccs conns in
  let keys := key_with_context ccs conns in
  let '(conns, deleted) := foldl (flush_histogram keys) (conns, []) histograms in
  (combineExceptionToConnections keys exps conns, deleted).

Definition refresh_metrics (m : Metrics) : Metrics :=
  MkMetrics (RefreshCurrent (WriteCounter m)) (RefreshCurrent (ReadCounter m)) (RefreshCurrent (WriteRTTCounter m))
    (histogram_RefreshCurrent (WriteRTTHistogram m)) (histogram_RefreshCurrent (WriteExeTimeHistogram m))
    (histogram_RefreshCurrent (ReadExeTimeHistogram m))
    (ConnectExecuteTime m) (CloseExecuteTime m)
    (RefreshCurrent (ConnectCounter m)) (RefreshCurrent (CloseCounter m))
    (histogram_RefreshCurrent (ConnectExeTimeHistogram m)) (histogram_RefreshCurrent (CloseExeTimeHistogram m))
    (RefreshCurrent (RetransmitCounter m)) (RefreshCurrent (DropCounter m)).

Definition PostFlushConnectionMetrics (refs : list positive) (conns : connections) : connections :=
  foldl (λ conns ref, on_metrics refresh_metrics ref conns) conns refs.

End listener.
