(* ===== verification/NetMeters.v ===== *)
(** * Meters of the traffic

    src/pkg/profiling/task/network/analyze/base/metrics.go: the builder of the meters and
    logs of a flush; layer4/listener.go: the meters of the layer 4 metrics of a traffic. *)

From stdpp Require Import base gmap list strings pretty.
From Stdlib Require Import ZArith Lia.
From Stdlib Require Import Floats.SpecFloat.
From S2P Require Import Prelude Interfaces ProcessStorage Connection Checkers Traffic Layer4.

(** ** Meters *)

Inductive meter : Type :=
| SingleValue (name : string) (labels : list (string * string)) (value : float64)
| Histogram (name : string) (labels : list (string * string)) (values : list (Z * Z)).

Record NetMeter : Type := MkNetMeter {
  nm_Metric : meter;
  nm_Service : string;
  nm_ServiceInstance : string;
  nm_Timestamp : Z
}.

(** The meters by service and instance. *)
Record MetricsBuilder : Type := MkBuilder {
  mb_prefix : string;
  mb_metrics : gmap (string * string) (list NetMeter)
}.

Definition NewMetricsBuilder (prefix : string) : MetricsBuilder := MkBuilder prefix ∅.

Definition AppendMetrics (service instance : string) (metrics : list NetMeter) (m : MetricsBuilder) : MetricsBuilder :=
  let existing := default [] (mb_metrics m !! (service, instance)) in
  MkBuilder (mb_prefix m) (<[(service, instance) := existing ++ metrics]> (mb_metrics m)).

Section meters.
Context `{!RangeOrder} `{!Processes}.
Variable hostAddresses : gset string.

(** [traffic.Analyzer.IsLocalAddressInCache]. *)
Definition IsLocalAddressInCache (t : TrafficAnalyzer) (ip : string) : bool :=
  negb (bool_decide (default ∅ (localAddresses t !! ip) = ∅)).

Definition appendRemoteAddressInfo (t : TrafficAnalyzer) (labels : list (string * string))
    (traffic : ProcessTraffic Metrics) (prefix : string) (local : positive) : list (string * string) :=
  match list_find (λ p, same_instance p (p_Entity local) = true) (RemoteProcesses traffic) with
  | Some (_, p) => labels ++ [(prefix +:+ "_process_id", p_ID p)]
  | None =>
    if IsLocalHostAddress hostAddresses (pt_RemoteIP traffic) || IsLocalAddressInCache t (pt_RemoteIP traffic)
    then labels ++ [(prefix +:+ "_local", "true")]
    else labels ++ [(prefix +:+ "_address", pt_RemoteIP traffic +:+ ":" +:+ pretty (pt_RemotePort traffic))]
  end.

Definition ConnectionProtocolString (protocol : Z) : string :=
  if (protocol =? 1) || (protocol =? 2) then "http" else "unknown".

Definition BuildBasicMeterLabels (t : TrafficAnalyzer) (traffic : ProcessTraffic Metrics) (local : positive)
    : ConnectionRole * list (string * string) :=
  let curRole := match pt_Role traffic with ConnectionRoleUnknown => ConnectionRoleClient | r => r end in
  let labels := [(role_string curRole +:+ "_process_id", p_ID local)] in
  let labels := appendRemoteAddressInfo t labels traffic (role_string (Revert curRole)) local in
  (curRole, labels ++ [("side", role_string curRole);
                       ("protocol", ConnectionProtocolString (pt_Protocol traffic));
                       ("is_ssl", if pt_IsSSL traffic then "true" else "false")]).

Definition unsent (m : meter) : NetMeter := MkNetMeter m "" "" 0.

Definition buildSingleValue (t : TrafficAnalyzer) (prefix name : string) (traffic : ProcessTraffic Metrics)
    (local : positive) (val : float64) : NetMeter :=
  let '(role, labels) := BuildBasicMeterLabels t traffic local in
  unsent (SingleValue (prefix +:+ role_string role +:+ "_" +:+ name) labels val).

Definition appendCounterValues (t : TrafficAnalyzer) (metrics : list NetMeter) (metricsPrefix name : string)
    (traffic : ProcessTraffic Metrics) (local : positive) (counter : SocketDataCounterWithHistory) : list NetMeter :=
  let metric := ct_Cur counter in
  if negb (counter_NotEmpty metric) then metrics
  else
    let value n v := buildSingleValue t metricsPrefix (name +:+ n) traffic local v in
    let count := float_of_int (ct_Count metric) in
    metrics ++ [value "_counts_counter" count]
    ++ (if 0 <? ct_Bytes metric then [value "_bytes_counter" (float_of_int (ct_Bytes metric))] else [])
    ++ (if 0 <? ct_ExeTime metric
        then [value "_exe_time_counter" (float_div (float_of_int (ct_ExeTime metric)) count)] else []).

(** [buckets[bucketInx]]: an index below zero or past the end panics. *)
Definition bucket_bound (buckets : list Z) (bucketInx : Z) : res Empty_set Z :=
  must (if bucketInx <? 0 then None else buckets !! Z.to_nat bucketInx).

(** The values of a histogram by the bounds of their buckets. *)
Definition histogram_values (data : SocketDataHistogram) : res Empty_set (list (Z * Z)) :=
  mapM (λ '(bucket, count),
          let bucketInx := i64 bucket in
          let bucketInx := if SocketHistogramBucketsCount <=? bucketInx
                           then SocketHistogramBucketsCount - 1 else bucketInx in
          let buckets := match Unit data with
                         | HistogramDataUnitUS => SocketHistogramBucketsUs
                         | HistogramDataUnitNS => SocketHistogramBucketsNs
                         end in
          bound ← bucket_bound buckets bucketInx;
          mret (bound, count)) (range (Buckets data)).

Definition appendHistogramValue (t : TrafficAnalyzer) (metrics : list NetMeter) (metricsPrefix name : string)
    (traffic : ProcessTraffic Metrics) (local : positive) (histogram : SocketDataHistogramWithHistory)
    : res Empty_set (list NetMeter) :=
  let data := hg_Cur histogram in
  if negb (histogram_NotEmpty data) then mret metrics
  else
    let '(role, labels) := BuildBasicMeterLabels t traffic local in
    values ← histogram_values data;
    mret (metrics ++ [unsent (Histogram (metricsPrefix +:+ role_string role +:+ "_" +:+ name +:+ "_histogram")
                                labels values)]).

(** The meters of a traffic for one of its local processes. *)
Definition traffic_meters (t : TrafficAnalyzer) (prefix : string) (traffic : ProcessTraffic Metrics) (p : positive)
    : res Empty_set (list NetMeter) :=
  let metrics := pt_Metrics traffic in
  let counter l '(name, c) := appendCounterValues t l prefix name traffic p c in
  let histogram l '(name, h) := appendHistogramValue t l prefix name traffic p h in
  let collection := foldl counter []
    [("write", WriteCounter metrics); ("read", ReadCounter metrics); ("write_rtt", WriteRTTCounter metrics);
     ("connect", ConnectCounter metrics); ("close", CloseCounter metrics);
     ("retransmit", RetransmitCounter metrics); ("drop", DropCounter metrics)] in
  for_range histogram collection
    [("write_rtt", WriteRTTHistogram metrics); ("write_exe_time", WriteExeTimeHistogram metrics);
     ("read_exe_time", ReadExeTimeHistogram metrics); ("connect_exe_time", ConnectExeTimeHistogram metrics);
     ("close_exe_time", CloseExeTimeHistogram metrics)].

Definition FlushMetrics (t : TrafficAnalyzer) (traffics : list (ProcessTraffic Metrics)) (builder : MetricsBuilder)
    : res Empty_set MetricsBuilder :=
  for_range (λ b traffic,
    for_range (λ b p,
      collection ← traffic_meters t (mb_prefix builder) traffic p;
      mret (match collection with
            | [] => b
            | _ => AppendMetrics (ent_ServiceName (p_Entity p)) (InstanceName (p_Entity p)) collection b
            end)) b (pt_LocalProcesses traffic)) builder traffics.

(** The collections that are sent: the first meter of each has the service and the time. *)
Definition BuildMetrics (now : Z) (m : MetricsBuilder) : list (list NetMeter) :=
  range (mb_metrics m) ≫= λ '((service, instance), meters),
    match meters with
    | [] => []
    | first :: rest => [MkNetMeter (nm_Metric first) service instance now :: rest]
    end.

End meters.

(** ** Buckets

    A bucket of the kernel indexes the bounds when it is not negative as an [int].  The
    histograms that are built of such buckets keep to them, and their meters are built
    without a panic. *)

Definition bucket_index (b : Z) : Prop := 0 ≤ b < 2 ^ 63.

Definition indexable (h : SocketDataHistogramWithHistory) : Prop :=
  map_Forall (λ b _, bucket_index b) (Buckets (hg_Cur h)).

Definition histograms (m : Metrics) : list SocketDataHistogramWithHistory :=
  [WriteRTTHistogram m; WriteExeTimeHistogram m; ReadExeTimeHistogram m;
   ConnectExeTimeHistogram m; CloseExeTimeHistogram m].

Definition metrics_indexable (m : Metrics) : Prop := Forall indexable (histograms m).

Lemma new_buckets_index unit b v : Buckets (NewSocketDataHistogram unit) !! b = Some v → bucket_index b.
Proof.
  cbn [Buckets NewSocketDataHistogram]. intros Hb%elem_of_list_to_map_2%list_elem_of_fmap.
  destruct Hb as (i & [= -> _] & Hi%elem_of_seqZ). unfold bucket_index, SocketHistogramBucketsCount in *.
  cbn in Hi. lia.
Qed.

Lemma new_indexable : metrics_indexable NewLayer4Metrics.
Proof. unfold metrics_indexable. repeat (apply Forall_cons; split; [intros b v; apply new_buckets_index|]). done. Qed.

Lemma update_indexable bucket val h :
  bucket_index bucket → indexable h → indexable (histogram_UpdateToCurrent bucket val h).
Proof. intros Hb Hh. by apply map_Forall_insert_2. Qed.

Lemma increase_indexable other h :
  (∀ b v, Buckets other !! b = Some v → bucket_index b) → indexable h →
  indexable (histogram_IncreaseToCurrent other h).
Proof.
  intros Ho Hh b v Hb. cbn in Hb. rewrite lookup_union_with in Hb.
  destruct (Buckets (hg_Cur h) !! b) eqn:Hh1; [by apply (Hh b _ Hh1)|].
  destruct (Buckets other !! b) eqn:Ho1; [by apply (Ho b _ Ho1)|done].
Qed.

Lemma calculate_index h b v :
  indexable h → Buckets (histogram_CalculateIncrease h) !! b = Some v → bucket_index b.
Proof.
  intros Hh Hb. cbn [histogram_CalculateIncrease Buckets] in Hb.
  apply lookup_union_Some_raw in Hb as [Hb|[_ Hb]]; [|by apply new_buckets_index in Hb].
  rewrite map_lookup_imap in Hb. destruct (Buckets (hg_Cur h) !! b) eqn:Hc; [|done]. by apply (Hh b _ Hc).
Qed.

Lemma bucket_of_index val inx bounds :
  1 ≤ inx → inx + Z.of_nat (length bounds) < 2 ^ 63 → bucket_index (bucket_of val inx bounds).
Proof.
  revert inx. induction bounds as [|v bounds IH]; intros inx Hi Hl; cbn in *; [unfold bucket_index; lia|].
  destruct (val <? v); [unfold bucket_index; lia|]. apply IH; lia.
Qed.

Lemma observe_indexable time h : indexable h → indexable (observe_time time h).
Proof. intros Hh. apply map_Forall_insert_2; [|done]. apply bucket_of_index; cbn; lia. Qed.

Lemma merge_indexable con m :
  metrics_indexable (cc_Metrics con) → metrics_indexable m → metrics_indexable (layer4_Merge con m).
Proof.
  unfold metrics_indexable, histograms. rewrite !Forall_cons. intros (? & ? & ? & ? & ? & _) (? & ? & ? & ? & ? & _).
  cbn [layer4_Merge WriteRTTHistogram WriteExeTimeHistogram ReadExeTimeHistogram ConnectExeTimeHistogram CloseExeTimeHistogram].
  split_and!; [apply increase_indexable; [intros b v; by apply calculate_index|done]..| | |done];
    case_match; by try apply observe_indexable.
Qed.

Section total.
Context `{!RangeOrder} `{!Processes}.
Variable hostAddresses : gset string.

Lemma bucket_bound_total buckets inx :
  length buckets = length SocketHistogramBucketsNs → bucket_index inx →
  ∃ v, bucket_bound buckets
         (let i := i64 inx in if SocketHistogramBucketsCount <=? i then SocketHistogramBucketsCount - 1 else i) = Ok v.
Proof.
  intros Hl Hi. unfold bucket_bound, bucket_index in *. rewrite i64_small by lia. cbn zeta.
  change SocketHistogramBucketsCount with 34. change (length SocketHistogramBucketsNs) with 34%nat in Hl.
  set (i := if 34 <=? inx then 34 - 1 else inx). assert (Hr : 0 ≤ i < 34) by (unfold i; case_match; lia).
  destruct (Z.ltb_spec i 0); [lia|].
  destruct (lookup_lt_is_Some_2 buckets (Z.to_nat i)) as [v ->]; [lia|]. by exists v.
Qed.

Lemma histogram_values_total h : indexable h → ∃ v, histogram_values (hg_Cur h) = Ok v.
Proof.
  intros Hh. apply mapM_total. intros [b n] Hb. rewrite (range_perm (Buckets (hg_Cur h))), elem_of_map_to_list in Hb.
  assert (Hl : length (match Unit (hg_Cur h) with HistogramDataUnitUS => SocketHistogramBucketsUs
                       | HistogramDataUnitNS => SocketHistogramBucketsNs end) = length SocketHistogramBucketsNs)
    by (by destruct (Unit (hg_Cur h))).
  destruct (bucket_bound_total _ b Hl (Hh b n Hb)) as [v Hv]. exists (v, n). cbn zeta in *. by rewrite Hv.
Qed.

Lemma append_histogram_total t l prefix name traffic p h :
  indexable h → ∃ l', appendHistogramValue hostAddresses t l prefix name traffic p h = Ok l'.
Proof.
  intros Hh. unfold appendHistogramValue. destruct (negb _); [by eexists|].
  destruct (BuildBasicMeterLabels _ _ _ _). destruct (histogram_values_total h Hh) as [v ->]. by eexists.
Qed.

(** The meters of traffics whose buckets index the bounds are built. *)
Lemma FlushMetrics_total t traffics builder :
  Forall (λ tr, metrics_indexable (pt_Metrics tr)) traffics →
  ∃ b, FlushMetrics hostAddresses t traffics builder = Ok b.
Proof.
  intros Hall. rewrite Forall_forall in Hall. apply for_range_total. intros b traffic Htr%Hall.
  apply for_range_total. intros b' p _.
  assert (Hm : ∃ l, traffic_meters hostAddresses t (mb_prefix builder) traffic p = Ok l).
  { unfold metrics_indexable in Htr. rewrite Forall_forall in Htr.
    apply for_range_total. intros l [name h] Hin. apply append_histogram_total, Htr.
    apply (list_elem_of_fmap_2 snd) in Hin. exact Hin. }
  destruct Hm as [l ->]. by eexists.
Qed.

End total.
