(* ===== verification/NetAnalyzer.v ===== *)
(** * The analyzer of network profiling

    src/pkg/profiling/task/network/analyze/base/context.go: the active and closed connections
    of the profiled processes, the events that open and close them, and the flush, which
    reads the kernel's numbers, combines the connections to traffics, builds the meters and
    refreshes the connections.  Two listeners are registered, and each binds its own metrics
    to the connections and the traffics.  The one here is that of layer 4; that of layer 7,
    which parses the sampled data, is not modelled.

    A channel is a list with a capacity, and sending to a full one blocks, which is the error
    of the model.  The kernel's maps and the address of a socket are arguments. *)

From stdpp Require Import base gmap list strings pretty.
From Stdlib Require Import ZArith Lia.
From S2P Require Import Prelude Interfaces ProcessStorage Connection Checkers Traffic Layer4 NetMeters.

Record AnalyzerContext : Type := MkAnalyzerContext {
  an_processes : gmap Z (list positive);
  an_conns : gmap positive (ConnectionContext Metrics);
  an_next : positive;
  an_active : gmap string positive;
  an_closed : list positive;
  flushClosedEvents : list NetCloseEvent;
  sockParseQueue : list positive;
  an_ports : gset (positive * Z);
  socketExceptionStatics : gmap SocketBasicKey SocketExceptionValue
}.

Definition NewAnalyzerContext (processes : gmap Z (list positive)) : AnalyzerContext :=
  MkAnalyzerContext processes ∅ 1 ∅ [] [] [] ∅ ∅.

Inductive channel_full : Type := ChannelFull.
Notation anm := (act AnalyzerContext channel_full).

Definition set_conns (f : connections → connections) (s : AnalyzerContext) : AnalyzerContext :=
  MkAnalyzerContext (an_processes s) (f (an_conns s)) (an_next s) (an_active s) (an_closed s)
    (flushClosedEvents s) (sockParseQueue s) (an_ports s) (socketExceptionStatics s).
Definition set_active (f : gmap string positive → gmap string positive) (s : AnalyzerContext) : AnalyzerContext :=
  MkAnalyzerContext (an_processes s) (an_conns s) (an_next s) (f (an_active s)) (an_closed s)
    (flushClosedEvents s) (sockParseQueue s) (an_ports s) (socketExceptionStatics s).
Definition set_closed_list (f : list positive → list positive) (s : AnalyzerContext) : AnalyzerContext :=
  MkAnalyzerContext (an_processes s) (an_conns s) (an_next s) (an_active s) (f (an_closed s))
    (flushClosedEvents s) (sockParseQueue s) (an_ports s) (socketExceptionStatics s).
Definition set_close_events (f : list NetCloseEvent → list NetCloseEvent) (s : AnalyzerContext) : AnalyzerContext :=
  MkAnalyzerContext (an_processes s) (an_conns s) (an_next s) (an_active s) (an_closed s)
    (f (flushClosedEvents s)) (sockParseQueue s) (an_ports s) (socketExceptionStatics s).
Definition set_parse_queue (f : list positive → list positive) (s : AnalyzerContext) : AnalyzerContext :=
  MkAnalyzerContext (an_processes s) (an_conns s) (an_next s) (an_active s) (an_closed s)
    (flushClosedEvents s) (f (sockParseQueue s)) (an_ports s) (socketExceptionStatics s).
Definition set_ports (p : gset (positive * Z)) (s : AnalyzerContext) : AnalyzerContext :=
  MkAnalyzerContext (an_processes s) (an_conns s) (an_next s) (an_active s) (an_closed s)
    (flushClosedEvents s) (sockParseQueue s) p (socketExceptionStatics s).
Definition set_exceptions (x : gmap SocketBasicKey SocketExceptionValue) (s : AnalyzerContext) : AnalyzerContext :=
  MkAnalyzerContext (an_processes s) (an_conns s) (an_next s) (an_active s) (an_closed s)
    (flushClosedEvents s) (sockParseQueue s) (an_ports s) x.

(** ** Connections *)

Definition queue_size : nat := 5000.

Definition new_context (conID randomID pid fd : Z) (processes : list positive) (conClosed : bool)
    : ConnectionContext Metrics :=
  MkCC conID randomID pid fd processes conClosed ConnectionProtocolUnknown false ConnectionRoleUnknown
    "" 0 "" 0 NewConnectionMetrics 0 0.

Definition NewConnectionContext (c : ConnectionContext Metrics) : anm positive := λ s,
  (Ok (an_next s),
   MkAnalyzerContext (an_processes s) (<[an_next s := c]> (an_conns s)) (Pos.succ (an_next s)) (an_active s)
     (an_closed s) (flushClosedEvents s) (sockParseQueue s) (an_ports s) (socketExceptionStatics s)).

Definition generateConnectionKey (conID randomID : Z) : string := pretty conID +:+ "_" +:+ pretty randomID.

(** The two forms of the addresses of an event. *)
Definition remote_text (a : socket_addresses) : string :=
  if SocketFamily a =? AF_INET then ParseIPV4 (RemoteAddrV4 a) else ParseIPV6 (RemoteAddrV6 a).
Definition local_text (a : socket_addresses) : string :=
  if SocketFamily a =? AF_INET then ParseIPV4 (LocalAddrV4 a) else ParseIPV6 (LocalAddrV6 a).

(** The context of a connect event, with the addresses the event has. *)
Definition connect_context (event : NetConnectEvent) (processes : list positive) : ConnectionContext Metrics :=
  let a := nc_addresses event in
  let con := set_role (nc_Role event)
               (new_context (nc_ConID event) (nc_RandomID event) (nc_Pid event) (nc_FD event) processes false) in
  if NeedComplete event =? 0 then
    set_local (local_text a) (u16 (LocalAddrPort a)) (set_remote (remote_text a) (u16 (RemoteAddrPort a)) con)
  else if negb (RemoteAddrPort a =? 0) then set_remote (remote_text a) (u16 (RemoteAddrPort a)) con
  else con.

Definition saveActiveConnection (conID randomID : Z) (ref : positive) : anm unit :=
  modify (set_active <[generateConnectionKey conID randomID := ref]>).

Definition handleSocketConnectEvent (event : NetConnectEvent) : anm unit :=
  s ← get;
  match default [] (an_processes s !! i32 (nc_Pid event)) with
  | [] => mret tt
  | processes =>
    ref ← NewConnectionContext (connect_context event processes);
    _ ← (if NeedComplete event =? 0 then mret tt
         else
           s ← get;
           if (length (sockParseQueue s) <? queue_size)%nat
           then modify (set_parse_queue (λ q, q ++ [ref])) else raise ChannelFull);
    _ ← modify (set_conns (on_metrics (ReceiveNewConnection event) ref));
    saveActiveConnection (nc_ConID event) (nc_RandomID event) ref
  end.

(** A parser of sockets takes a connection of the queue; the addresses are those of the
    socket, when they can be read. *)
Definition handleSocketParseQueue (ParseSocket : Z → Z → option SocketPair) : anm unit :=
  s ← get;
  match sockParseQueue s with
  | [] => mret tt
  | ref :: queue =>
    _ ← modify (set_parse_queue (λ _, queue));
    cc ← lift (must (an_conns s !! ref));
    match ParseSocket (LocalPid cc) (cc_SocketFD cc) with
    | None => mret tt
    | Some socket =>
      modify (set_conns (alter (λ c, set_local (socket_SrcIP socket) (socket_SrcPort socket)
                                       (set_remote (socket_DestIP socket) (socket_DestPort socket) c)) ref))
    end
  end.

(** What a close event or the kernel knows and the connection does not. *)
Definition detected (role : ConnectionRole) (protocol ssl : Z) (c : ConnectionContext Metrics)
    : ConnectionContext Metrics :=
  set_detected (match cc_Role c with ConnectionRoleUnknown => role | r => r end)
    (if cc_Protocol c =? ConnectionProtocolUnknown then protocol else cc_Protocol c)
    (IsSSL c || (ssl =? 1)) c.

Definition combineClosedConnection (closed : NetCloseEvent) (c : ConnectionContext Metrics) : ConnectionContext Metrics :=
  let c := detected (cl_Role closed) (cl_Protocol closed) (cl_IsSSL closed) (set_closed c) in
  set_metrics (ReceiveCloseConnection closed (cc_Metrics c)) c.

Definition appendClosedConnection (ref : positive) : anm unit :=
  modify (set_closed_list (λ l, l ++ [ref])).

(** The active connection of a close event is taken out of the active ones. *)
Definition foundAndDeleteConnection (event : NetCloseEvent) : anm (option positive) :=
  s ← get;
  let conKey := generateConnectionKey (cl_ConID event) (cl_RandomID event) in
  _ ← modify (set_active (delete conKey));
  mret (an_active s !! conKey).

Definition socketClosedEvent0 (event : NetCloseEvent) : anm bool :=
  found ← foundAndDeleteConnection event;
  match found with
  | None => mret false
  | Some ref =>
    _ ← modify (set_conns (alter (combineClosedConnection event) ref));
    _ ← appendClosedConnection ref;
    mret true
  end.

Definition handleSocketCloseEvent (event : NetCloseEvent) : anm unit :=
  found ← socketClosedEvent0 event;
  if (found : bool) then mret tt
  else
    s ← get;
    if (length (flushClosedEvents s) <? queue_size)%nat
    then modify (set_close_events (λ q, q ++ [event])) else raise ChannelFull.

(** The context of a close event without an active connection; it has no ports. *)
Definition close_context (event : NetCloseEvent) (processes : list positive) : option (ConnectionContext Metrics) :=
  let a := cl_addresses event in
  let cc := new_context (cl_ConID event) (cl_RandomID event) (cl_Pid event) (cl_SocketFD event) processes true in
  if (SocketFamily a =? AF_INET) || (SocketFamily a =? AF_INET6) then
    Some (combineClosedConnection event (set_local (local_text a) 0 (set_remote (remote_text a) 0 cc)))
  else None.

Fixpoint cached_close_loop (events : list NetCloseEvent) : anm unit :=
  match events with
  | [] => mret tt
  | event :: events' =>
    _ ← modify (set_close_events (λ _, events'));
    found ← socketClosedEvent0 event;
    _ ← (if (found : bool) then mret tt
         else
           s ← get;
           match default [] (an_processes s !! i32 (cl_Pid event)) with
           | [] => mret tt
           | processes =>
             match close_context event processes with
             | None => mret tt
             | Some cc => ref ← NewConnectionContext cc; appendClosedConnection ref
             end
           end);
    cached_close_loop events'
  end.

Definition processCachedCloseEvents : anm unit := s ← get; cached_close_loop (flushClosedEvents s).

(** ** Flush *)

(** The answer of the kernel's map of active connections. *)
Inductive bpf_lookup : Type :=
| LookupFound (active : ActiveConnectionInBPF)
| LookupNotExist
| LookupFailed.

(** What is read of the kernel in a flush. *)
Record bpf_maps : Type := MkBpfMaps {
  ActiveConnectionMap : Z → bpf_lookup;
  SocketConnectionStatsHistogram : list (HistogramDataKey * Z)
}.

(** The closed connections are returned, and kept until they were returned twice before. *)
Fixpoint closed_loop (refs : list positive) (conns : connections) : list positive * connections :=
  match refs with
  | [] => ([], conns)
  | ref :: refs' =>
    match conns !! ref with
    | Some c =>
      if 1 <? DeleteFlushCount c then closed_loop refs' conns
      else let '(keep, conns) := closed_loop refs' (<[ref := count_delete c]> conns) in (ref :: keep, conns)
    | None => closed_loop refs' conns
    end
  end.

Definition flushClosedConnection : anm (list positive) :=
  s ← get;
  let '(keep, conns) := closed_loop (an_closed s) (an_conns s) in
  _ ← modify (set_conns (λ _, conns));
  _ ← modify (set_closed_list (λ _, keep));
  mret (an_closed s).

(** A computation that has no error. *)
Definition must_ok {A} (r : res Empty_set A) : res channel_full A :=
  match r with
  | Ok a => Ok a
  | _ => Panic
  end.

Section flush.
Context `{!RangeOrder} `{!Processes}.
Variable ExeName : positive → option string.
Variable hostAddresses : gset string.

Definition GetAllConnectionWithContext : anm (list positive) :=
  closed ← flushClosedConnection;
  s ← get;
  mret (closed ++ (snd <$> range (an_active s))).

(** The active connection of the kernel, for a connection that is not closed; one that the
    kernel does not have any more is closed. *)
Definition lookupTheActiveConnectionInBPf (maps : bpf_maps) (ref : positive) (closedConnections : list string)
    : anm (option ActiveConnectionInBPF * list string) :=
  s ← get;
  c ← lift (must (an_conns s !! ref));
  if ConnectionClosed c then mret (None, closedConnections)
  else
    match ActiveConnectionMap maps (cc_ConnectionID c) with
    | LookupNotExist =>
      _ ← modify (set_conns (alter set_closed ref));
      mret (None, closedConnections ++ [generateConnectionKey (cc_ConnectionID c) (cc_RandomID c)])
    | LookupFailed => mret (None, closedConnections)
    | LookupFound active =>
      _ ← modify (set_conns (alter (detected (ab_Role active) (ab_Protocol active) (ab_IsSSL active)) ref));
      mret (Some active, closedConnections)
    end.

Definition lookup_all (maps : bpf_maps) (ccs : list positive)
    : anm (list (positive * option ActiveConnectionInBPF) * list string) :=
  fold_act (λ '(result, closed) ref,
              '(active, closed) ← lookupTheActiveConnectionInBPf maps ref closed;
              mret (result ++ [(ref, active)], closed)) ([], []) ccs.

Definition deleteConnectionOnly (keys : list string) : anm unit :=
  modify (set_active (λ m, foldl (λ m k, delete k m) m keys)).

(** The keys of the histograms that are deleted in the kernel. *)
Definition prepareToFlushMetrics (maps : bpf_maps) (ccs : list positive) : anm (list HistogramDataKey) :=
  '(withBPF, closedConnections) ← lookup_all maps ccs;
  _ ← deleteConnectionOnly closedConnections;
  s ← get;
  let '(conns, deleted) := PreFlushConnectionMetrics withBPF (SocketConnectionStatsHistogram maps)
                             (socketExceptionStatics s) (an_conns s) in
  _ ← modify (set_exceptions ∅);
  _ ← modify (set_conns (λ _, conns));
  mret deleted.

(** The traffics of a flush with the analyzer that made them, the meters, and the deleted
    histograms. *)
Record flushed : Type := MkFlushed {
  fl_traffics : list (ProcessTraffic Metrics);
  fl_builder : MetricsBuilder;
  fl_deleted : list HistogramDataKey
}.

Definition flushMetrics0 (maps : bpf_maps) (builder : MetricsBuilder) : anm flushed :=
  _ ← processCachedCloseEvents;
  ccs ← GetAllConnectionWithContext;
  match ccs with
  | [] => mret (MkFlushed [] builder [])
  | _ =>
    deleted ← prepareToFlushMetrics maps ccs;
    s ← get;
    '(traffics, t, conns, ports) ← lift (must_ok
       (CombineConnectionToTraffics ExeName hostAddresses (an_processes s) ccs (an_conns s) (an_ports s)));
    _ ← modify (set_conns (λ _, conns));
    _ ← modify (set_ports ports);
    builder ← lift (must_ok (FlushMetrics hostAddresses t traffics builder));
    _ ← modify (set_conns (PostFlushConnectionMetrics ccs));
    mret (MkFlushed traffics builder deleted)
  end.

Definition FlushAllMetrics (maps : bpf_maps) (metricsPrefix : string) : anm flushed :=
  flushMetrics0 maps (NewMetricsBuilder metricsPrefix).

End flush.
