(* ===== verification/TrafficLaws.v ===== *)
(** * Laws of the traffic analysis

    Combining the connections neither loses nor repeats what a connection with a known remote
    address adds ([combine_conserves]), and two ends of a connection that are both profiled
    find each other ([peers_find_each_other]). *)

From stdpp Require Import base gmap list strings.
From Stdlib Require Import ZArith Lia.
From S2P Require Import Prelude Interfaces ProcessStorage Connection Checkers Traffic Layer4.

(** ** Sums over maps *)

Definition zsum (l : list Z) : Z := foldr Z.add 0 l.

Lemma zsum_app l1 l2 : zsum (l1 ++ l2) = zsum l1 + zsum l2.
Proof. unfold zsum. induction l1; cbn; lia. Qed.

Lemma zsum_perm l1 l2 : l1 ≡ₚ l2 → zsum l1 = zsum l2.
Proof. unfold zsum. induction 1; cbn; lia. Qed.

Definition map_sum {K V} `{Countable K} (w : V → Z) (m : gmap K V) : Z :=
  zsum ((λ kv, w (snd kv)) <$> map_to_list m).

Lemma map_sum_fresh {K V} `{Countable K} (w : V → Z) (m : gmap K V) k v :
  m !! k = None → map_sum w (<[k := v]> m) = w v + map_sum w m.
Proof.
  intros Hk. unfold map_sum. by rewrite (zsum_perm _ _ (fmap_Permutation _ _ _ (map_to_list_insert m k v Hk))).
Qed.

Lemma map_sum_insert {K V} `{Countable K} (w : V → Z) (m : gmap K V) k v :
  map_sum w (<[k := v]> m) = map_sum w m - match m !! k with Some v0 => w v0 | None => 0 end + w v.
Proof.
  destruct (m !! k) as [v0|] eqn:Hk; [|rewrite map_sum_fresh by done; lia].
  rewrite <- (insert_delete_id m k v0 Hk) at 2. rewrite <- insert_delete_eq.
  rewrite !map_sum_fresh by apply lookup_delete_eq. lia.
Qed.

Lemma map_sum_range {K V} `{Countable K} `{!RangeOrder} (w : V → Z) (m : gmap K V) :
  zsum (w <$> (snd <$> range m)) = map_sum w m.
Proof.
  unfold map_sum. rewrite <- list_fmap_compose. apply zsum_perm. apply fmap_Permutation, range_perm.
Qed.

(** ** Conservation *)

Section conservation.
Context {M : Type} `{!ConnectionMetrics M} `{!RangeOrder} `{!Processes}.
Variable ExeName : positive → option string.
Variable hostAddresses : gset string.
Variable processes : gmap Z (list positive).
Implicit Types con : ConnectionContext M.

(** What looking for the remote process may complete. *)
Inductive completed con : ConnectionContext M → Prop :=
| completed_same : completed con con
| completed_role r : completed con (set_role r con)
| completed_remote ip port :
    remote_known con = true → ipNotEmpty ip port = true → completed con (set_remote ip port con).

Lemma full_address_completed t con : completed con (snd (findRemotePidWhenContainsFullAddress t con)).
Proof.
  unfold findRemotePidWhenContainsFullAddress.
  destruct (local_known con); [|constructor]. destruct (remote_known con) eqn:Hr; [|constructor]. cbn [andb].
  destruct (localWithPeerCache t !! _) as [[pid role]|]; [cbn; case_match; constructor|].
  destruct (bool_decide _); [|constructor].
  destruct (envoyAcceptClientAddressCache t !! _) as [addr|]; [|constructor]. cbn.
  destruct (ipNotEmpty (awp_RemoteIP addr) (awp_RemotePort addr)) eqn:He; by constructor.
Qed.

Lemma findRemotePid_snd t con :
  snd (findRemotePid ExeName hostAddresses processes t con) = snd (findRemotePidWhenContainsFullAddress t con).
Proof.
  unfold findRemotePid. destruct (findRemotePidWhenContainsFullAddress t con) as [pid con'].
  by repeat case_match.
Qed.

Lemma findRemotePid_completed t con : completed con (snd (findRemotePid ExeName hostAddresses processes t con)).
Proof. rewrite findRemotePid_snd. apply full_address_completed. Qed.

Lemma completed_remote_known con con' : completed con con' → remote_known con' = remote_known con.
Proof. destruct 1 as [|r|ip port Hr Hi]; [done..|]. by rewrite Hr. Qed.

(** A remote process is only found for a known remote address. *)
Lemma found_remote_known t con :
  fst (findRemotePid ExeName hostAddresses processes t con) ≠ 0 → remote_known con = true.
Proof.
  pose proof (full_address_completed t con) as Hc. unfold findRemotePid.
  destruct (findRemotePidWhenContainsFullAddress t con) as [pid con'] eqn:Hf. cbn in Hc.
  destruct (remote_known con) eqn:Hr; [done|]. apply completed_remote_known in Hc. rewrite Hr in Hc.
  unfold findRemotePidWhenContainsFullAddress in Hf. rewrite Hr, andb_false_r in Hf. injection Hf as <- <-.
  unfold findRemotePidWhenContainsRemoteAddress, findRemotePidWhenMeshEnvironment. by rewrite Hc.
Qed.

(** What the analysis never changes of a connection. *)
Definition same_identity con con' : Prop :=
  cc_ConnectionID con' = cc_ConnectionID con ∧ cc_RandomID con' = cc_RandomID con ∧
  LocalPid con' = LocalPid con ∧ ConnectionClosed con' = ConnectionClosed con ∧
  DeleteFlushCount con' = DeleteFlushCount con.

Lemma same_identity_trans c1 c2 c3 : same_identity c1 c2 → same_identity c2 c3 → same_identity c1 c3.
Proof. unfold same_identity. intuition congruence. Qed.

Lemma completed_fields con con' : completed con con' →
  cc_Metrics con' = cc_Metrics con ∧ FlushDataCount con' = FlushDataCount con ∧ same_identity con con'.
Proof. by destruct 1. Qed.

Context `{!LawfulMetrics M}.

Lemma completed_increase con con' : completed con con' → increase con' = increase con.
Proof. destruct 1; [done|apply increase_role|apply increase_remote]. Qed.

(** Equal up to the modulus of the metrics. *)
Definition same_weight (a b : Z) : Prop := (modulus | a - b).

Lemma same_weight_refl a : same_weight a a.
Proof. unfold same_weight. rewrite Z.sub_diag. apply Z.divide_0_r. Qed.

Lemma same_weight_step a b c d : same_weight a (b + c) → same_weight b d → same_weight a (d + c).
Proof.
  unfold same_weight. intros H1 H2. replace (a - (d + c)) with ((a - (b + c)) + (b - d)) by lia.
  by apply Z.divide_add_r.
Qed.

(** The same number in another form. *)
Ltac by_weight Hw :=
  match type of Hw with (_ | ?x) =>
    match goal with |- (_ | ?y) => replace y with x by lia; exact Hw end
  end.

(** The weight of a traffic, if it is of the process [pid]. *)
Definition traffic_weight (pid : Z) (tr : ProcessTraffic M) : Z :=
  if pt_LocalPid tr =? pid then weight (pt_Metrics tr) else 0.

Definition total (pid : Z) (s : combining (M:=M)) : Z :=
  map_sum (traffic_weight pid) (pidMatchedTraffic s) + map_sum (traffic_weight pid) (pidToRemoteTraffic s).

(** The traffics of a map are of the process of their key. *)
Definition keyed {K} `{Countable K} (owner : K → Z) (m : gmap K (ProcessTraffic M)) : Prop :=
  map_Forall (λ k tr, pt_LocalPid tr = owner k) m.

Definition matched_owner (k : Z * Z * ConnectionRole) : Z := fst (fst k).
Definition remote_owner (k : Z * ConnectionRole * string * Z) : Z := fst (fst (fst k)).

Definition traffics_keyed (s : combining (M:=M)) : Prop :=
  keyed matched_owner (pidMatchedTraffic s) ∧ keyed remote_owner (pidToRemoteTraffic s).

Lemma remote_key_owner con : remote_owner (remote_key con) = LocalPid con.
Proof. unfold remote_key. by case_match. Qed.

Lemma combine_owner {K} `{Countable K} (owner : K → Z) t (m : gmap K (ProcessTraffic M)) k con rpid :
  keyed owner m → owner k = LocalPid con →
  pt_LocalPid (fst (generateOrCombineTraffic t (m !! k) con rpid)) = LocalPid con.
Proof.
  intros Hm Hk. unfold generateOrCombineTraffic. cbn. destruct (m !! k) as [tr|] eqn:Htr; [|done].
  cbn. rewrite (Hm k tr Htr). done.
Qed.

Lemma combine_keyed {K} `{Countable K} (owner : K → Z) t (m : gmap K (ProcessTraffic M)) k con rpid :
  keyed owner m → owner k = LocalPid con →
  keyed owner (<[k := fst (generateOrCombineTraffic t (m !! k) con rpid)]> m).
Proof. intros Hm Hk. apply map_Forall_insert_2; [|done]. by rewrite (combine_owner owner). Qed.

(** Combining a connection into the traffic of a key adds its increase to its process. *)
Definition of_process (pid : Z) con (n : Z) : Z := if LocalPid con =? pid then n else 0.

Lemma combine_weight {K} `{Countable K} (owner : K → Z) pid t (m : gmap K (ProcessTraffic M)) k con rpid :
  keyed owner m → owner k = LocalPid con →
  same_weight (map_sum (traffic_weight pid) (<[k := fst (generateOrCombineTraffic t (m !! k) con rpid)]> m))
    (map_sum (traffic_weight pid) m + of_process pid con (increase con)).
Proof.
  intros Hm Hk. rewrite map_sum_insert. unfold traffic_weight at 3, of_process, same_weight.
  rewrite (combine_owner owner) by done.
  pose proof (weight_merge con (pt_Metrics (default (new_traffic con) (m !! k)))) as Hw.
  assert (Hold : match m !! k with Some v0 => traffic_weight pid v0 | None => 0 end =
                 of_process pid con (weight (pt_Metrics (default (new_traffic con) (m !! k))))).
  { unfold of_process. destruct (m !! k) as [tr|] eqn:Htr; cbn.
    - unfold traffic_weight. by rewrite (Hm k tr Htr), Hk.
    - rewrite weight_new. by case_match. }
  rewrite Hold. unfold of_process, generateOrCombineTraffic. cbn [fst pt_Metrics].
  destruct (LocalPid con =? pid); [by_weight Hw|].
  match goal with |- (_ | ?x) => replace x with 0 by lia end. apply Z.divide_0_r.
Qed.

Lemma tryingToGenerateTheRole_completed ports con : completed con (tryingToGenerateTheRole ports con).
Proof. unfold tryingToGenerateTheRole. repeat case_match; constructor. Qed.

(** What one round of the loop does to the connection and to the traffics. *)
Definition counted con : Z := if remote_known con then 1 else 0.
Definition added con : Z := if remote_known con then increase con else 0.

Lemma combine_step t ports s ref con :
  cb_conns s !! ref = Some con → traffics_keyed s →
  ∃ s' con', combine_connection ExeName hostAddresses processes t ports s ref = Ok s' ∧
    cb_conns s' = <[ref := con']> (cb_conns s) ∧
    cc_Metrics con' = cc_Metrics con ∧ FlushDataCount con' = FlushDataCount con + counted con ∧
    same_identity con con' ∧ traffics_keyed s' ∧
    ∀ pid, same_weight (total pid s') (total pid s + of_process pid con (added con)).
Proof.
  intros Hc [Hkm Hkr]. unfold combine_connection, counted, added. rewrite Hc. cbn [must mbind res_bind].
  pose proof (findRemotePid_completed t con) as Hcomp. pose proof (found_remote_known t con) as Hfound.
  destruct (findRemotePid ExeName hostAddresses processes t con) as [pid con1]. cbn in Hcomp, Hfound.
  pose proof (completed_fields _ _ Hcomp) as (Hm & Hf & Hid).
  assert (Hpid1 : LocalPid con1 = LocalPid con) by apply Hid.
  pose proof (completed_increase _ _ Hcomp) as Hi. pose proof (completed_remote_known _ _ Hcomp) as Hr.
  destruct (Z.eqb_spec pid 0) as [->|Hpid]; cbn [negb].
  - destruct (remote_known con) eqn:Hk; rewrite Hr; cbn [negb].
    + pose proof (tryingToGenerateTheRole_completed ports con1) as Hcomp2.
      set (con2 := tryingToGenerateTheRole ports con1) in *.
      pose proof (completed_fields _ _ Hcomp2) as (Hm2 & Hf2 & Hid2).
      assert (Hpid2 : LocalPid con2 = LocalPid con) by (destruct Hid2 as (_ & _ & -> & _); done).
      pose proof (λ p, combine_weight remote_owner p t (pidToRemoteTraffic s) (remote_key con2) con2 0 Hkr
                         (remote_key_owner con2)) as Hw.
      pose proof (combine_keyed remote_owner t (pidToRemoteTraffic s) (remote_key con2) con2 0 Hkr
                    (remote_key_owner con2)) as Hkr'.
      destruct (generateOrCombineTraffic t (pidToRemoteTraffic s !! remote_key con2) con2 0) as [tr con3] eqn:Hg.
      assert (con3 = count_flush con2) as -> by (unfold generateOrCombineTraffic in Hg; congruence).
      eexists _, _. split_and!; [done|done| | | |done|].
      * cbn. congruence.
      * cbn. congruence.
      * exact (same_identity_trans _ _ _ Hid Hid2).
      * intros p. specialize (Hw p). unfold total, of_process in *.
        cbn [pidMatchedTraffic pidToRemoteTraffic fst] in *.
        rewrite (completed_increase _ _ Hcomp2), Hi, Hpid2 in Hw. unfold same_weight in *.
        by_weight Hw.
    + eexists _, _. split_and!; [done|done|done| |done|done|]; cbn; [lia|]. intros p. unfold total, of_process.
      cbn. replace (if _ =? _ then 0 else 0) with 0 by (by case_match). rewrite Z.add_0_r. apply same_weight_refl.
  - rewrite (Hfound Hpid). set (key := (LocalPid con1, pid, cc_Role con1)).
    pose proof (λ p, combine_weight matched_owner p t (pidMatchedTraffic s) key con1 pid Hkm eq_refl) as Hw.
    pose proof (combine_keyed matched_owner t (pidMatchedTraffic s) key con1 pid Hkm eq_refl) as Hkm'.
    destruct (generateOrCombineTraffic t (pidMatchedTraffic s !! key) con1 pid) as [tr con3] eqn:Hg.
    assert (con3 = count_flush con1) as -> by (unfold generateOrCombineTraffic in Hg; congruence).
    eexists _, _. split_and!; [done|done|done| |done|done|]; cbn [count_flush FlushDataCount]; [by rewrite Hf|].
    intros p. specialize (Hw p). unfold total, of_process in *. cbn [pidMatchedTraffic pidToRemoteTraffic fst] in *.
    rewrite Hi, Hpid1 in Hw. unfold same_weight in *. by_weight Hw.
Qed.

(** The store after the loop, and the connections the sum is over. *)
Definition combined_store (refs : list positive) (conns conns' : gmap positive (ConnectionContext M)) : Prop :=
  dom conns' = dom conns ∧
  ∀ ref con, conns !! ref = Some con →
    ∃ con', conns' !! ref = Some con' ∧ cc_Metrics con' = cc_Metrics con ∧
      FlushDataCount con' = FlushDataCount con + (if decide (ref ∈ refs) then counted con else 0) ∧
      same_identity con con' ∧ (ref ∉ refs → con' = con).

Definition added_of (conns : gmap positive (ConnectionContext M)) (pid : Z) (ref : positive) : Z :=
  match conns !! ref with Some con => of_process pid con (added con) | None => 0 end.

Lemma combine_loop t ports conns refs s :
  NoDup refs → Forall (λ ref, is_Some (conns !! ref)) refs → 
  (∀ ref, ref ∈ refs → cb_conns s !! ref = conns !! ref) → traffics_keyed s →
  ∃ s', for_range (combine_connection ExeName hostAddresses processes t ports) s refs = Ok s' ∧
    dom (cb_conns s') = dom (cb_conns s) ∧
    (∀ ref, ref ∉ refs → cb_conns s' !! ref = cb_conns s !! ref) ∧
    (∀ ref con, ref ∈ refs → conns !! ref = Some con →
       ∃ con', cb_conns s' !! ref = Some con' ∧ cc_Metrics con' = cc_Metrics con ∧
         FlushDataCount con' = FlushDataCount con + counted con ∧ same_identity con con') ∧
    ∀ pid, same_weight (total pid s') (total pid s + zsum (added_of conns pid <$> refs)).
Proof.
  intros Hnd Hall. revert s. induction refs as [|ref refs IH]; intros s Hs Hkeyed.
  - exists s. split_and!; try done; [by intros ? ? ?%not_elem_of_nil|].
    intros pid. cbn. rewrite Z.add_0_r. apply same_weight_refl.
  - apply NoDup_cons in Hnd as [Hin Hnd]. apply Forall_cons in Hall as [[con Hcon] Hall].
    assert (Hc : cb_conns s !! ref = Some con) by (rewrite Hs by left; done).
    destruct (combine_step t ports s ref con Hc Hkeyed) as (s1 & con1 & Hr1 & Hst & Hm & Hf & Hid & Hk1 & Ht).
    destruct (IH Hnd Hall s1) as (s2 & Hr2 & Hd & Hout & Hins & Ht2).
    { intros r Hr. rewrite Hst, lookup_insert_ne by (by intros ->). apply Hs. by right. }
    { done. }
    exists s2. cbn [for_range]. rewrite Hr1. cbn [mbind res_bind]. split_and!; [done| | | |].
    + rewrite Hd, Hst, dom_insert_L. apply elem_of_dom_2 in Hc. set_solver.
    + intros r [Hne Hr]%not_elem_of_cons. rewrite Hout, Hst, lookup_insert_ne by done. done.
    + intros r c [->|Hr]%elem_of_cons Hrc; [|by apply Hins].
      rewrite Hcon in Hrc. injection Hrc as <-. exists con1. rewrite Hout, Hst, lookup_insert_eq by done. done.
    + intros pid. pose proof (same_weight_step _ _ _ _ (Ht2 pid) (Ht pid)) as Hw. cbn. unfold added_of at 1. rewrite Hcon.
      by rewrite <- Z.add_assoc in Hw.
Qed.

(** Combining connections to traffics accounts for every connection exactly once.  For
    connections of the store, without repetition, it returns; the metrics of all traffics of
    a process are, up to the width of the counters, what its connections with a known remote
    address add, whatever peers are found for them; each of these is counted as flushed once and every other connection
    not at all; and no connection loses its metrics or appears or vanishes. *)
Lemma combine_conserves refs conns ports :
  NoDup refs → Forall (λ ref, is_Some (conns !! ref)) refs →
  ∃ traffics t conns' ports',
    CombineConnectionToTraffics ExeName hostAddresses processes refs conns ports = Ok (traffics, t, conns', ports') ∧
    (∀ pid, same_weight (zsum (traffic_weight pid <$> traffics)) (zsum (added_of conns pid <$> refs))) ∧
    combined_store refs conns conns'.
Proof.
  intros Hnd Hall. unfold CombineConnectionToTraffics.
  assert (Hm : is_Some (mapM (λ ref, conns !! ref) refs)) by (apply mapM_is_Some; done).
  destruct Hm as [ccs ->]. cbn [must mbind res_bind].
  destruct (buildCache ExeName ccs ports) as [t ports'].
  destruct (combine_loop t ports' conns refs (MkCombining conns ∅ ∅) Hnd Hall) as (s & Hrun & Hd & Hout & Hins & Ht);
    [done|by split; apply map_Forall_empty|]. rewrite Hrun. cbn [mbind res_bind]. eexists _, _, _, _. split; [done|]. split.
  - intros pid. specialize (Ht pid). rewrite fmap_app, zsum_app, !map_sum_range. unfold total in Ht. cbn in Ht. unfold map_sum at 3 4 in Ht.
    rewrite !map_to_list_empty in Ht. exact Ht.
  - split; [exact Hd|]. cbn in Hout. intros ref con Hcon. destruct (decide (ref ∈ refs)) as [Hr|Hr].
    + destruct (Hins ref con Hr Hcon) as (con' & Hc' & Hm' & Hf' & Hid). exists con'. by split_and!.
    + exists con. rewrite Hout by done. split_and!; try done. lia.
Qed.

(** One round keeps a property of metrics that merging keeps. *)
Lemma combine_holds_step (P : M → Prop) t ports s ref s' :
  P NewConnectionMetrics →
  (∀ con m, P (cc_Metrics con) → P m → P (MergeMetricsFromConnection con m)) →
  map_Forall (λ _ con, P (cc_Metrics con)) (cb_conns s) →
  map_Forall (λ _ tr, P (pt_Metrics tr)) (pidMatchedTraffic s) →
  map_Forall (λ _ tr, P (pt_Metrics tr)) (pidToRemoteTraffic s) →
  combine_connection ExeName hostAddresses processes t ports s ref = Ok s' →
  map_Forall (λ _ con, P (cc_Metrics con)) (cb_conns s') ∧
  map_Forall (λ _ tr, P (pt_Metrics tr)) (pidMatchedTraffic s') ∧
  map_Forall (λ _ tr, P (pt_Metrics tr)) (pidToRemoteTraffic s').
Proof.
  intros Hnew Hmerge Hc Hm Hr. unfold combine_connection.
  destruct (cb_conns s !! ref) as [con|] eqn:Hcon; cbn [must mbind res_bind]; [|done]. apply Hc in Hcon.
  pose proof (findRemotePid_completed t con) as Hcomp.
  destruct (findRemotePid ExeName hostAddresses processes t con) as [pid con1]. cbn in Hcomp.
  destruct (completed_fields _ _ Hcomp) as (Hm1 & _). rewrite <- Hm1 in Hcon.
  assert (Htr : ∀ (o : option (ProcessTraffic M)) con2 n, P (cc_Metrics con2) →
    (∀ tr, o = Some tr → P (pt_Metrics tr)) → P (pt_Metrics (fst (generateOrCombineTraffic t o con2 n)))).
  { intros o con2 n Hc2 Ho. apply Hmerge; [done|]. destruct o as [tr|]; [by apply Ho|done]. }
  destruct (negb (pid =? 0)).
  - intros [= <-]. split_and!; [|apply map_Forall_insert_2; [|done]|done]; cbn [cb_conns].
    + by apply map_Forall_insert_2.
    + apply (Htr (pidMatchedTraffic s !! _) con1 pid); [done|]. intros tr. apply Hm.
  - destruct (negb (remote_known con1)).
    + intros [= <-]. split_and!; [by apply map_Forall_insert_2|done|done].
    + destruct (completed_fields _ _ (tryingToGenerateTheRole_completed ports con1)) as (Hm2 & _).
      rewrite <- Hm2 in Hcon. intros [= <-]. split_and!; [|done|apply map_Forall_insert_2; [|done]]; cbn [cb_conns].
      * by apply map_Forall_insert_2.
      * apply (Htr (pidToRemoteTraffic s !! _) (tryingToGenerateTheRole ports con1) 0); [done|]. intros tr. apply Hr.
Qed.

(** A property of metrics that merging keeps holds of the metrics of all traffics. *)
Lemma combine_holds (P : M → Prop) refs conns ports traffics t conns' ports' :
  P NewConnectionMetrics →
  (∀ con m, P (cc_Metrics con) → P m → P (MergeMetricsFromConnection con m)) →
  (∀ ref con, conns !! ref = Some con → P (cc_Metrics con)) →
  CombineConnectionToTraffics ExeName hostAddresses processes refs conns ports = Ok (traffics, t, conns', ports') →
  Forall (λ tr, P (pt_Metrics tr)) traffics.
Proof.
  intros Hnew Hmerge Hconns. unfold CombineConnectionToTraffics.
  destruct (mapM _ refs) as [ccs|]; cbn [must mbind res_bind]; [|done]. destruct (buildCache ExeName ccs ports) as [t0 ports0].
  set (holds := λ s : combining (M:=M), map_Forall (λ _ con, P (cc_Metrics con)) (cb_conns s) ∧
                map_Forall (λ _ tr, P (pt_Metrics tr)) (pidMatchedTraffic s) ∧
                map_Forall (λ _ tr, P (pt_Metrics tr)) (pidToRemoteTraffic s)).
  destruct (for_range _ _ refs) as [s| |] eqn:Hrun; cbn [mbind res_bind]; [|done..].
  assert (Hs : holds s).
  { refine (for_range_ind holds _ refs _ s _ _ Hrun); [|by split; [exact Hconns|split; apply map_Forall_empty]].
    clear s Hrun. intros s ref s' _ (Hc & Hm & Hr) Hstep. exact (combine_holds_step P t0 ports0 s ref s' Hnew Hmerge Hc Hm Hr Hstep). }
  destruct Hs as (_ & Hm & Hr). intros [= <- _ _ _].
  apply Forall_app. split; apply Forall_fmap; rewrite (range_perm _); apply Forall_forall;
    intros [k tr] Hk%elem_of_map_to_list; [apply (Hm k tr Hk)|apply (Hr k tr Hk)].
Qed.

End conservation.

(** ** Peers *)

Section peers.
Context {M : Type} `{!ConnectionMetrics M} `{!RangeOrder} `{!Processes}.
Variable ExeName : positive → option string.
Variable hostAddresses : gset string.
Variable processes : gmap Z (list positive).
Implicit Types con : ConnectionContext M.

Definition local_address con : string * Z := (LocalIP con, LocalPort con).
Definition remote_address con : string * Z := (RemoteIP con, RemotePort con).

(** The connection has both addresses, and this is the pair. *)
Definition joins (a b : string * Z) con : Prop :=
  local_known con = true ∧ remote_known con = true ∧ local_address con = a ∧ remote_address con = b.

(** What a pair of addresses is mapped to: the last connection between them. *)
Definition last_of (a b : string * Z) (ccs : list (ConnectionContext M)) (v : option (Z * ConnectionRole)) : Prop :=
  match v with
  | Some (pid, role) => ∃ con, con ∈ ccs ∧ joins a b con ∧ pid = LocalPid con ∧ role = cc_Role con
  | None => ∀ con, con ∈ ccs → ¬ joins a b con
  end.

Lemma cache_peer st con :
  localWithPeerCache (fst (cache_connection ExeName st con)) = localWithPeerCache (set_peer (fst st) con).
Proof.
  destruct st as [t ports]. unfold cache_connection, set_process_data, set_envoy_client, set_local_address. cbn [fst].
  by repeat case_match.
Qed.

Lemma buildCache_peers ccs ports a b :
  last_of a b ccs (localWithPeerCache (fst (buildCache ExeName ccs ports)) !! (a, b)).
Proof.
  unfold buildCache. induction ccs as [|con ccs IH] using rev_ind.
  - cbn [foldl fst NewTrafficAnalyzer localWithPeerCache]. rewrite lookup_empty.
    intros con Hc. by apply not_elem_of_nil in Hc.
  - rewrite foldl_app. cbn [foldl]. set (st := foldl _ _ ccs) in *. rewrite cache_peer. unfold set_peer.
    destruct (local_known con && remote_known con) eqn:Hk.
    + apply andb_true_iff in Hk as [Hl Hr]. cbn [localWithPeerCache].
      destruct (decide ((local_address con, remote_address con) = (a, b))) as [Heq|Hne].
      * injection Heq as <- <-. unfold local_address, remote_address. rewrite lookup_insert_eq.
        exists con. split; [set_solver|]. done.
      * rewrite lookup_insert_ne by done.
        destruct (localWithPeerCache (fst st) !! (a, b)) as [[pid role]|].
        -- destruct IH as (c & Hc & Hj). exists c. split; [set_solver|done].
        -- intros c [Hc|Hc%list_elem_of_singleton]%elem_of_app; [by apply IH|]. subst c. intros (_ & _ & <- & <-). done.
    + destruct (localWithPeerCache (fst st) !! (a, b)) as [[pid role]|].
      * destruct IH as (c & Hc & Hj). exists c. split; [set_solver|done].
      * intros c [Hc|Hc%list_elem_of_singleton]%elem_of_app; [by apply IH|]. subst c. intros (Hl & Hr & _).
        by rewrite Hl, Hr in Hk.
Qed.

(** C18: Two ends of a connection that are both among the connections find each other.  If a
    connection has both addresses and some connection has them the other way round, then the
    remote process that is found is the owner of such a connection; an unknown role becomes
    the opposite of its role, and the connection is otherwise as it was.  So when only one
    connection joins the addresses the other way round, its process is the one. *)
Theorem peers_find_each_other ccs ports con con' :
  con' ∈ ccs → joins (remote_address con) (local_address con) con' →
  local_known con = true → remote_known con = true →
  Forall (λ c, 0 < LocalPid c) ccs →
  let t := fst (buildCache ExeName ccs ports) in
  ∃ peer, peer ∈ ccs ∧ joins (remote_address con) (local_address con) peer ∧
    findRemotePid ExeName hostAddresses processes t con =
      (LocalPid peer, match cc_Role con, cc_Role peer with
                      | ConnectionRoleUnknown, ConnectionRoleUnknown => con
                      | ConnectionRoleUnknown, role => set_role (Revert role) con
                      | _, _ => con
                      end).
Proof.
  intros Hin Hj Hl Hr Hpos t. pose proof (buildCache_peers ccs ports (remote_address con) (local_address con)) as Hp.
  fold t in Hp. destruct (localWithPeerCache t !! _) as [[pid role]|] eqn:Hc; [|by destruct (Hp con' Hin)].
  destruct Hp as (peer & Hpeer & Hjp & -> & ->). exists peer. split_and!; [done|done|].
  unfold findRemotePid, findRemotePidWhenContainsFullAddress. rewrite Hl, Hr. cbn [andb].
  unfold remote_address, local_address in Hc. rewrite Hc.
  rewrite Forall_forall in Hpos. specialize (Hpos peer Hpeer).
  destruct (Z.ltb_spec 0 (LocalPid peer)); [|lia]. by destruct (cc_Role con), (cc_Role peer).
Qed.

End peers.

(** ** Samples *)

Module TrafficSamples.

#[local] Existing Instance keys_order.

#[local] Instance sample_processes : Processes := {|
  p_ID p := "process";
  p_Pid p := Z.pos p;
  p_Entity p := MkProcessEntity "GENERAL" "shop" "shop-1" "app" []
|}.

Definition sample (pid : Z) (role : ConnectionRole) (local remote : string * Z) : ConnectionContext Metrics :=
  MkCC pid 1 pid 3 [Z.to_pos pid] false 0 false role (fst local) (snd local) (fst remote) (snd remote)
    NewConnectionMetrics 0 0.

Definition client : ConnectionContext Metrics := sample 1 ConnectionRoleUnknown ("10.0.0.1", 4000) ("10.0.0.2", 80).
Definition server : ConnectionContext Metrics := sample 2 ConnectionRoleServer ("10.0.0.2", 80) ("10.0.0.1", 4000).

Lemma peers_witness :
  ∃ peer, peer ∈ [client; server] ∧ joins (remote_address client) (local_address client) peer ∧
    findRemotePid (λ _, None) ∅ ∅ (fst (buildCache (λ _, None) [client; server] ∅)) client =
      (LocalPid peer, match cc_Role client, cc_Role peer with
                      | ConnectionRoleUnknown, ConnectionRoleUnknown => client
                      | ConnectionRoleUnknown, role => set_role (Revert role) client
                      | _, _ => client
                      end).
Proof.
  apply (peers_find_each_other (λ _, None) ∅ ∅ [client; server] ∅ client server).
  - right. left.
  - by split_and!.
  - reflexivity.
  - reflexivity.
  - repeat constructor.
Defined.

(** The client learns its role from the server. *)
Example client_finds_server :
  findRemotePid (λ _, None) ∅ ∅ (fst (buildCache (λ _, None) [client; server] ∅)) client
  = (2, set_role ConnectionRoleClient client).
Proof. vm_compute. reflexivity. Qed.

End TrafficSamples.
