(* ===== verification/NetAnalyzerLaws.v ===== *)
(** * Laws of the analyzer of network profiling

    The invariant of the connections that every operation preserves
    ([analyzer_never_panics]), and what a flush reports: to every process what its
    connections wrote since the last flush, as far as it is known ([flush_reports_growth]). *)

From stdpp Require Import base gmap list strings pretty.
From Stdlib Require Import ZArith Lia.
From S2P Require Import Prelude Interfaces ProcessStorage Connection Checkers Traffic Layer4 NetMeters NetAnalyzer TrafficLaws.

(** ** The written bytes of a connection *)

Notation conn := (ConnectionContext Metrics).
Implicit Types c : conn.

Definition write_pre c : Z := ct_Bytes (ct_Pre (WriteCounter (cc_Metrics c))).
Definition write_cur c : Z := ct_Bytes (ct_Cur (WriteCounter (cc_Metrics c))).
Definition settled c : Prop := write_pre c = write_cur c.
Definition conn_key c : string := generateConnectionKey (cc_ConnectionID c) (cc_RandomID c).
Definition in_width (n : Z) : Prop := 0 ≤ n < 2 ^ 64.

Lemma write_merge con m :
  (2 ^ 64 | ct_Bytes (ct_Cur (WriteCounter (layer4_Merge con m)))
            - (ct_Bytes (ct_Cur (WriteCounter m)) + subtractionValue (write_cur con) (write_pre con))).
Proof.
  apply Z.mod_divide; [lia|]. cbn. unfold u64, write_cur, write_pre. by rewrite Zminus_mod_idemp_l, Z.sub_diag.
Qed.

Global Instance write_laws : LawfulMetrics Metrics := {|
  modulus := 2 ^ 64;
  weight m := ct_Bytes (ct_Cur (WriteCounter m));
  increase con := subtractionValue (write_cur con) (write_pre con);
  weight_new := eq_refl;
  weight_merge := write_merge;
  increase_role _ _ := eq_refl;
  increase_remote _ _ _ := eq_refl
|}.

(** Numbers of the kernel are of 64 bits. *)
Definition stats_ok (st : transfer_stats) : Prop := in_width (WriteBytes st).

(** ** The invariant *)

Record analyzer_inv (s : AnalyzerContext) : Prop := {
  ai_fresh : ∀ ref, is_Some (an_conns s !! ref) → (ref < an_next s)%positive;
  ai_width : ∀ ref c, an_conns s !! ref = Some c → in_width (write_cur c);
  ai_buckets : ∀ ref c, an_conns s !! ref = Some c → metrics_indexable (cc_Metrics c);
  (** An active connection is stored under its ids, and was not written to since the flush. *)
  ai_active : ∀ k ref, an_active s !! k = Some ref →
    ∃ c, an_conns s !! ref = Some c ∧ ConnectionClosed c = false ∧ k = conn_key c ∧ settled c;
  ai_closed : ∀ ref, ref ∈ an_closed s → ∃ c, an_conns s !! ref = Some c ∧ ConnectionClosed c = true;
  ai_nodup : NoDup (an_closed s);
  ai_queue : ∀ ref, ref ∈ sockParseQueue s → is_Some (an_conns s !! ref);
  ai_events : Forall (λ e, stats_ok (cl_stats e)) (flushClosedEvents s)
}.

(** ** Changes of the store *)

(** A change of one connection that keeps what the invariant says of it. *)
Definition calm c c' : Prop :=
  conn_key c' = conn_key c ∧ ConnectionClosed c' = ConnectionClosed c ∧
  write_pre c' = write_pre c ∧ write_cur c' = write_cur c ∧
  (metrics_indexable (cc_Metrics c) → metrics_indexable (cc_Metrics c')).

(** A relation on connections, for all connections of two stores. *)
Definition store_rel (R : relation conn) : relation connections := λ m m',
  ∀ ref, option_Forall2 R (m !! ref) (m' !! ref).

Notation calm_store := (store_rel calm).

Global Instance calm_refl : Reflexive calm.
Proof. by intros c. Qed.

Global Instance calm_trans : Transitive calm.
Proof. intros c1 c2 c3 (?&?&?&?&?) (?&?&?&?&?). split_and!; [congruence..|auto]. Qed.

Section store_rel.
Context (R : relation conn).

Global Instance store_rel_refl : Reflexive R → Reflexive (store_rel R).
Proof. intros HR m ref. reflexivity. Qed.

Global Instance store_rel_trans : Transitive R → Transitive (store_rel R).
Proof. intros HR m1 m2 m3 H1 H2 ref. etrans; [apply H1|apply H2]. Qed.

Lemma store_rel_alter f ref conns :
  Reflexive R → (∀ c, conns !! ref = Some c → R c (f c)) → store_rel R conns (alter f ref conns).
Proof.
  intros HR Hf q. destruct (decide (ref = q)) as [<-|Hne].
  - rewrite lookup_alter_eq. destruct (conns !! ref); constructor. by apply Hf.
  - rewrite lookup_alter_ne by done. reflexivity.
Qed.

Lemma store_rel_insert c c' ref conns :
  Reflexive R → conns !! ref = Some c → R c c' → store_rel R conns (<[ref := c']> conns).
Proof.
  intros HR Hc Hcalm q. destruct (decide (ref = q)) as [<-|Hne].
  - rewrite lookup_insert_eq, Hc. by constructor.
  - rewrite lookup_insert_ne by done. reflexivity.
Qed.

Lemma store_rel_lookup conns conns' ref c :
  store_rel R conns conns' → conns !! ref = Some c → ∃ c', conns' !! ref = Some c' ∧ R c c'.
Proof. intros Hs Hc. specialize (Hs ref). rewrite Hc in Hs. inversion Hs; subst. eauto. Qed.

Lemma store_rel_back conns conns' ref c' :
  store_rel R conns conns' → conns' !! ref = Some c' → ∃ c, conns !! ref = Some c ∧ R c c'.
Proof. intros Hs Hc. specialize (Hs ref). rewrite Hc in Hs. inversion Hs; subst. eauto. Qed.

End store_rel.

Lemma calm_settled c c' : calm c c' → settled c → settled c'.
Proof. intros (_ & _ & Hp & Hc & _). unfold settled. congruence. Qed.

Lemma inv_calm s conns' :
  analyzer_inv s → calm_store (an_conns s) conns' → analyzer_inv (set_conns (λ _, conns') s).
Proof.
  intros Hi Hs. split; cbn.
  - intros ref [c' Hc']. destruct (store_rel_back calm _ _ _ _ Hs Hc') as (c & Hc & _).
    apply (ai_fresh s Hi). by rewrite Hc.
  - intros ref c' Hc'. destruct (store_rel_back calm _ _ _ _ Hs Hc') as (c & Hc & _ & _ & _ & -> & _).
    by apply (ai_width s Hi ref).
  - intros ref c' Hc'. destruct (store_rel_back calm _ _ _ _ Hs Hc') as (c & Hc & _ & _ & _ & _ & Hb).
    by apply Hb, (ai_buckets s Hi ref).
  - intros k ref Hk. destruct (ai_active s Hi k ref Hk) as (c & Hc & Hcl & -> & Hset).
    destruct (store_rel_lookup calm _ _ _ _ Hs Hc) as (c' & Hc' & Hcalm). exists c'.
    destruct Hcalm as (Hkey & Hclosed & Hcalm). split_and!; [done|congruence|done|].
    apply (calm_settled c); [|done]. split_and!; [done|done|apply Hcalm..].
  - intros ref Hr. destruct (ai_closed s Hi ref Hr) as (c & Hc & Hcl).
    destruct (store_rel_lookup calm _ _ _ _ Hs Hc) as (c' & Hc' & _ & Hclosed & _). exists c'. split; congruence.
  - apply (ai_nodup s Hi).
  - intros ref Hr. destruct (ai_queue s Hi ref Hr) as [c Hc].
    destruct (store_rel_lookup calm _ _ _ _ Hs Hc) as (c' & Hc' & _). eauto.
  - apply (ai_events s Hi).
Qed.

(** ** Events *)

Lemma inv_alloc s c :
  analyzer_inv s → in_width (write_cur c) → metrics_indexable (cc_Metrics c) →
  analyzer_inv (snd (NewConnectionContext c s)).
Proof.
  intros Hi Hw Hb. assert (Hnew : an_conns s !! an_next s = None).
  { apply eq_None_not_Some. intros Hs%(ai_fresh s Hi). lia. }
  assert (Hold : ∀ ref c0, an_conns s !! ref = Some c0 → <[an_next s := c]> (an_conns s) !! ref = Some c0).
  { intros ref c0 Hc. rewrite lookup_insert_ne; [done|]. intros <-. congruence. }
  split; cbn.
  - intros ref [c0 [[<- _]|[_ Hc]]%lookup_insert_Some]; [lia|].
    pose proof (ai_fresh s Hi ref (ltac:(by rewrite Hc))). lia.
  - intros ref c0 [[_ <-]|[_ Hc]]%lookup_insert_Some; [done|]. by apply (ai_width s Hi ref).
  - intros ref c0 [[_ <-]|[_ Hc]]%lookup_insert_Some; [done|]. by apply (ai_buckets s Hi ref).
  - intros k ref Hk. destruct (ai_active s Hi k ref Hk) as (c0 & Hc & Hr). eauto.
  - intros ref Hr. destruct (ai_closed s Hi ref Hr) as (c0 & Hc & Hcl). eauto.
  - apply (ai_nodup s Hi).
  - intros ref Hr. destruct (ai_queue s Hi ref Hr) as [c0 Hc]. eauto.
  - apply (ai_events s Hi).
Qed.

Lemma inv_active s k ref c :
  analyzer_inv s → an_conns s !! ref = Some c → ConnectionClosed c = false → k = conn_key c → settled c →
  analyzer_inv (set_active <[k := ref]> s).
Proof.
  intros [Hf Hw Hb Ha Hc Hn Hq He] ? ? ? ?. split; try done. cbn. intros k' ref' [[<- <-]|[_ Hk]]%lookup_insert_Some; eauto.
Qed.

Lemma inv_less_active s (f : gmap string positive → gmap string positive) :
  analyzer_inv s → (∀ k ref, f (an_active s) !! k = Some ref → an_active s !! k = Some ref) →
  analyzer_inv (set_active f s).
Proof. intros [Hf Hw Hb Ha Hc Hn Hq He] Hsub. split; try done. cbn. intros k ref Hk. by apply Ha, Hsub. Qed.

Lemma inv_parse_queue s q :
  analyzer_inv s → (∀ ref, ref ∈ q → is_Some (an_conns s !! ref)) → analyzer_inv (set_parse_queue (λ _, q) s).
Proof. intros [Hf Hw Hb Ha Hc Hn Hq He] Hq'. by split. Qed.

Lemma inv_closed_list s l :
  analyzer_inv s → NoDup l → (∀ ref, ref ∈ l → ∃ c, an_conns s !! ref = Some c ∧ ConnectionClosed c = true) →
  analyzer_inv (set_closed_list (λ _, l) s).
Proof. intros [Hf Hw Hb Ha Hc Hn Hq He] Hl Hl'. by split. Qed.

Lemma inv_close_events s f :
  analyzer_inv s → Forall (λ e, stats_ok (cl_stats e)) (f (flushClosedEvents s)) →
  analyzer_inv (set_close_events f s).
Proof. intros [Hf Hw Hb Ha Hc Hn Hq He] He'. by split. Qed.

Lemma inv_exceptions s x : analyzer_inv s → analyzer_inv (set_exceptions x s).
Proof. intros [Hf Hw Hb Ha Hc Hn Hq He]. by split. Qed.

Lemma inv_ports s p : analyzer_inv s → analyzer_inv (set_ports p s).
Proof. intros [Hf Hw Hb Ha Hc Hn Hq He]. by split. Qed.

(** An operation that ends without a panic, in a state with the invariant. *)
Definition keeps {A} (r : res channel_full A * AnalyzerContext) : Prop :=
  match r with
  | (Panic, _) => False
  | (_, s) => analyzer_inv s
  end.

Lemma connect_context_fields event processes :
  let c := connect_context event processes in
  ConnectionClosed c = false ∧ settled c ∧ write_cur c = 0 ∧ cc_Metrics c = NewLayer4Metrics ∧
  conn_key c = generateConnectionKey (nc_ConID event) (nc_RandomID event).
Proof. unfold connect_context. by repeat case_match. Qed.

Lemma new_connection_calm event c : calm c (set_metrics (ReceiveNewConnection event (cc_Metrics c)) c).
Proof. by split_and!. Qed.

Lemma connect_keeps event s : analyzer_inv s → keeps (handleSocketConnectEvent event s).
Proof.
  intros Hi. unfold handleSocketConnectEvent. step_act.
  destruct (default [] _) as [|p ps]; [done|].
  set (c := connect_context event (p :: ps)).
  destruct (connect_context_fields event (p :: ps)) as (Hcl & Hset & Hcur & Hnew & Hkey).
  fold c in Hcl, Hset, Hcur, Hnew, Hkey.
  assert (Hi1 : analyzer_inv (snd (NewConnectionContext c s))).
  { apply inv_alloc; [done| |].
    - rewrite Hcur. unfold in_width. lia.
    - rewrite Hnew. apply new_indexable. }
  set (s1 := snd (NewConnectionContext c s)) in *. set (ref := an_next s) in *.
  assert (Href : an_conns s1 !! ref = Some c) by (cbn; apply lookup_insert_eq).
  assert (Hend : ∀ s2, analyzer_inv s2 → an_conns s2 !! ref = Some c →
    keeps ((_ ← modify (set_conns (on_metrics (ReceiveNewConnection event) ref));
            saveActiveConnection (nc_ConID event) (nc_RandomID event) ref) s2)).
  { intros s2 Hi2 Hc2. unfold saveActiveConnection. step_act. cbn [keeps].
    apply (inv_active _ _ _ (set_metrics (ReceiveNewConnection event (cc_Metrics c)) c)).
    - apply (inv_calm s2); [done|]. apply store_rel_alter; [apply _|]. intros c0 _. apply new_connection_calm.
    - cbn. unfold on_metrics. by rewrite lookup_alter_eq, Hc2.
    - done.
    - by rewrite <- Hkey.
    - done. }
  rewrite (bind_ok _ _ _ _ _ (eq_refl : NewConnectionContext c s = (Ok ref, s1))).
  destruct (NeedComplete event =? 0); [by apply Hend|]. step_act.
  destruct (length (sockParseQueue s1) <? queue_size)%nat; step_act; [|exact Hi1].
  apply Hend; [|done]. apply inv_parse_queue; [done|].
  intros r [Hr|Hr%list_elem_of_singleton]%elem_of_app; [by apply (ai_queue s1 Hi1)|]. subst r. by rewrite Href.
Qed.

Lemma parse_keeps ParseSocket s : analyzer_inv s → keeps (handleSocketParseQueue ParseSocket s).
Proof.
  intros Hi. unfold handleSocketParseQueue. step_act. destruct (sockParseQueue s) as [|ref queue] eqn:Hq; [done|].
  step_act. destruct (ai_queue s Hi ref) as [c Hc]; [rewrite Hq; left|]. rewrite Hc. step_act.
  assert (Hi1 : analyzer_inv (set_parse_queue (λ _, queue) s)).
  { apply inv_parse_queue; [done|]. intros r Hr. apply (ai_queue s Hi). rewrite Hq. by right. }
  destruct (ParseSocket (LocalPid c) (cc_SocketFD c)) as [socket|]; [|done]. step_act. cbn [keeps].
  apply (inv_calm _ _ Hi1). apply store_rel_alter; [apply _|done].
Qed.

Lemma closed_context event c :
  let c' := combineClosedConnection event c in
  ConnectionClosed c' = true ∧ conn_key c' = conn_key c ∧ write_pre c' = write_cur c ∧
  write_cur c' = WriteBytes (cl_stats event) ∧
  (metrics_indexable (cc_Metrics c) → metrics_indexable (cc_Metrics c')).
Proof. done. Qed.

(** Only the connection of a key is stored under the key. *)
Lemma other_active s k ref k' ref' :
  analyzer_inv s → an_active s !! k = Some ref → an_active s !! k' = Some ref' → k ≠ k' → ref ≠ ref'.
Proof.
  intros Hi Hk Hk' Hne <-. destruct (ai_active s Hi k ref Hk) as (c & Hc & _ & -> & _).
  destruct (ai_active s Hi k' ref Hk') as (c' & Hc' & _ & -> & _). congruence.
Qed.

(** Closing an active connection: it moves to the closed ones. *)
Definition close_active (event : NetCloseEvent) (k : string) (ref : positive) (s : AnalyzerContext) : AnalyzerContext :=
  set_closed_list (λ l, l ++ [ref])
    (set_conns (alter (combineClosedConnection event) ref) (set_active (delete k) s)).

Lemma inv_close event k ref s :
  analyzer_inv s → stats_ok (cl_stats event) → an_active s !! k = Some ref →
  analyzer_inv (close_active event k ref s).
Proof.
  intros Hi Hok Hk. destruct (ai_active s Hi k ref Hk) as (c & Hc & Hcl & Hkey & Hset).
  assert (Hdom : ∀ r, is_Some (alter (combineClosedConnection event) ref (an_conns s) !! r) ↔ is_Some (an_conns s !! r)).
  { intros r. apply lookup_alter_is_Some. }
  assert (Hother : ∀ r c0, r ≠ ref → an_conns s !! r = Some c0 →
                           alter (combineClosedConnection event) ref (an_conns s) !! r = Some c0).
  { intros r c0 Hne Hr. by rewrite lookup_alter_ne. }
  split; cbn.
  - intros r Hr. by apply (ai_fresh s Hi), Hdom.
  - intros r c0 Hr. apply lookup_alter_Some in Hr as [(<- & c1 & Hc1 & ->)|[_ Hr]]; [exact Hok|].
    by apply (ai_width s Hi r).
  - intros r c0 Hr. apply lookup_alter_Some in Hr as [(<- & c1 & Hc1 & ->)|[_ Hr]].
    + by apply (closed_context event c1), (ai_buckets s Hi ref).
    + by apply (ai_buckets s Hi r).
  - intros k' r [Hne Hk']%lookup_delete_Some. destruct (ai_active s Hi k' r Hk') as (c0 & Hc0 & Hr).
    pose proof (other_active s k ref k' r Hi Hk Hk' Hne) as Hne'. exists c0. split; [by apply Hother|done].
  - intros r [Hr|Hr%list_elem_of_singleton]%elem_of_app.
    + destruct (ai_closed s Hi r Hr) as (c0 & Hc0 & Hcl0). exists c0. split; [|done]. apply Hother; [|done].
      intros ->. congruence.
    + subst r. rewrite lookup_alter_eq, Hc. by eexists.
  - apply NoDup_app. split_and!; [apply (ai_nodup s Hi)| |apply NoDup_singleton].
    intros r Hr ->%list_elem_of_singleton. destruct (ai_closed s Hi ref Hr) as (c0 & Hc0 & Hcl0). congruence.
  - intros r Hr. apply Hdom. by apply (ai_queue s Hi).
  - apply (ai_events s Hi).
Qed.

Lemma close0_run event s :
  analyzer_inv s → stats_ok (cl_stats event) →
  ∃ b s', socketClosedEvent0 event s = (Ok b, s') ∧ analyzer_inv s'.
Proof.
  intros Hi Hok. unfold socketClosedEvent0, foundAndDeleteConnection, appendClosedConnection. step_act.
  set (k := generateConnectionKey _ _). destruct (an_active s !! k) as [ref|] eqn:Hk; step_act.
  - eexists _, _. split; [done|]. by apply (inv_close event k ref s).
  - eexists _, _. split; [done|]. apply inv_less_active; [done|]. intros k' r [_ Hk']%lookup_delete_Some. done.
Qed.

Lemma close_keeps event s :
  analyzer_inv s → stats_ok (cl_stats event) → keeps (handleSocketCloseEvent event s).
Proof.
  intros Hi Hok. unfold handleSocketCloseEvent. destruct (close0_run event s Hi Hok) as (b & s1 & Hrun & Hi1).
  rewrite (bind_ok _ _ _ _ _ Hrun). destruct b; [done|]. step_act.
  destruct (length (flushClosedEvents s1) <? queue_size)%nat; step_act; cbn [keeps]; [|done].
  apply inv_close_events; [done|]. apply Forall_app. split; [apply (ai_events s1 Hi1)|by constructor].
Qed.

Lemma close_context_fields event processes c :
  close_context event processes = Some c →
  ConnectionClosed c = true ∧ write_cur c = WriteBytes (cl_stats event) ∧ metrics_indexable (cc_Metrics c).
Proof.
  unfold close_context. case_match; [|done]. intros Hc. injection Hc as <-. split_and!; [done|done|apply new_indexable].
Qed.

Lemma cached_loop_keeps events s :
  analyzer_inv s → Forall (λ e, stats_ok (cl_stats e)) events →
  ∃ s', cached_close_loop events s = (Ok tt, s') ∧ analyzer_inv s'.
Proof.
  intros Hi Hok. revert s Hi. induction Hok as [|event events He Hes IH]; intros s Hi; [by exists s|].
  cbn [cached_close_loop]. step_act. 
  destruct (close0_run event (set_close_events (λ _, events) s)) as (b & s1 & Hrun & Hi1); [by apply inv_close_events|done|].
  rewrite (bind_ok _ _ _ _ _ Hrun). destruct b; step_act; [by apply IH|].
  destruct (default [] _) as [|p ps]; step_act; [by apply IH|].
  destruct (close_context event (p :: ps)) as [c|] eqn:Hc; step_act; [|by apply IH].
  apply close_context_fields in Hc as (Hcl & Hcur & Hbuckets).
  unfold appendClosedConnection. rewrite (bind_ok (NewConnectionContext c) _ s1 (an_next s1) (snd (NewConnectionContext c s1)) eq_refl).
  step_act. apply IH. assert (Hi2 := inv_alloc s1 c Hi1 (ltac:(by rewrite Hcur)) Hbuckets).
  apply (inv_closed_list (snd (NewConnectionContext c s1))); [done| |].
  - cbn. apply NoDup_app. split_and!; [apply (ai_nodup s1 Hi1)| |apply NoDup_singleton].
    intros r Hr ->%list_elem_of_singleton. destruct (ai_closed s1 Hi1 _ Hr) as (c0 & Hc0 & _).
    pose proof (ai_fresh s1 Hi1 (an_next s1) (ltac:(by rewrite Hc0))). lia.
  - intros r [Hr|Hr%list_elem_of_singleton]%elem_of_app.
    + apply (ai_closed _ Hi2 r). done.
    + subst r. cbn. rewrite lookup_insert_eq. by eexists.
Qed.

(** ** The stages of a flush *)

(** Also the remote address, the process and the id are as they were. *)
Definition steady c c' : Prop :=
  calm c c' ∧ RemoteIP c' = RemoteIP c ∧ RemotePort c' = RemotePort c ∧ LocalPid c' = LocalPid c ∧
  cc_ConnectionID c' = cc_ConnectionID c.

Global Instance steady_refl : Reflexive steady.
Proof. by intros c. Qed.

Global Instance steady_trans : Transitive steady.
Proof. intros c1 c2 c3 (?&?&?&?&?) (?&?&?&?&?). split_and!; [by etrans|congruence..]. Qed.

Lemma steady_remote c c' : steady c c' → remote_known c' = remote_known c.
Proof. intros (_ & Hip & Hport & _). unfold remote_known. congruence. Qed.

Lemma steady_calm m m' : store_rel steady m m' → calm_store m m'.
Proof. intros Hs ref. specialize (Hs ref). inversion Hs as [? ? Hst|]; constructor. apply Hst. Qed.

(** An update of some references of a store, each once. *)
Lemma alter_refs_lookup (f : positive → conn → conn) refs (m : connections) q :
  NoDup refs →
  foldl (λ m r, alter (f r) r m) m refs !! q = if decide (q ∈ refs) then f q <$> m !! q else m !! q.
Proof.
  intros Hnd. revert m. induction Hnd as [|r refs Hr Hnd IH]; intros m; cbn.
  - by rewrite decide_False by apply not_elem_of_nil.
  - rewrite IH. destruct (decide (q ∈ refs)) as [Hq|Hq].
    + rewrite decide_True by (by right). rewrite lookup_alter_ne; [done|]. by intros ->.
    + destruct (decide (q = r)) as [->|Hne].
      * rewrite decide_True by left. by rewrite lookup_alter_eq.
      * rewrite decide_False by (rewrite not_elem_of_cons; done). by rewrite lookup_alter_ne.
Qed.

Lemma closed_loop_steady refs conns :
  let '(keep, conns') := closed_loop refs conns in sublist keep refs ∧ store_rel steady conns conns'.
Proof.
  revert conns. induction refs as [|r refs IH]; intros conns; cbn; [by split|].
  destruct (conns !! r) as [c|] eqn:Hc.
  - destruct (1 <? DeleteFlushCount c).
    + specialize (IH conns). destruct (closed_loop refs conns) as [keep conns'].
      destruct IH as [Hk Hs]. split; [by constructor|done].
    + specialize (IH (<[r := count_delete c]> conns)).
      destruct (closed_loop refs (<[r := count_delete c]> conns)) as [keep conns'].
      destruct IH as [Hk Hs]. split; [by constructor|]. etrans; [|exact Hs].
      by apply (store_rel_insert steady c); [apply _| |].
  - specialize (IH conns). destruct (closed_loop refs conns) as [keep conns'].
    destruct IH as [Hk Hs]. split; [by constructor|done].
Qed.

Lemma flushClosed_run s :
  analyzer_inv s →
  ∃ s', flushClosedConnection s = (Ok (an_closed s), s') ∧ analyzer_inv s' ∧
    store_rel steady (an_conns s) (an_conns s') ∧ an_active s' = an_active s ∧ an_closed s' ⊆ an_closed s.
Proof.
  intros Hi. unfold flushClosedConnection. step_act.
  pose proof (closed_loop_steady (an_closed s) (an_conns s)) as Hl.
  destruct (closed_loop (an_closed s) (an_conns s)) as [keep conns']. destruct Hl as [Hk Hs]. step_act.
  assert (Hsub : ∀ r, r ∈ keep → r ∈ an_closed s).
  { intros r Hr. exact (elem_of_submseteq _ _ _ Hr (sublist_submseteq _ _ Hk)). }
  eexists. split; [done|]. split; [|done]. apply steady_calm in Hs as Hcalm.
  pose proof (inv_calm s conns' Hi Hcalm) as Hi1.
  apply (inv_closed_list (set_conns (λ _, conns') s)); [done| |].
  - apply (sublist_NoDup _ _ (ai_nodup s Hi) Hk).
  - intros r Hr. by apply (ai_closed _ Hi1), Hsub.
Qed.

(** What the lookup in the kernel makes of a connection, and the kernel's numbers. *)
Definition looked (maps : bpf_maps) c : conn :=
  if ConnectionClosed c then c
  else match ActiveConnectionMap maps (cc_ConnectionID c) with
       | LookupNotExist => set_closed c
       | LookupFailed => c
       | LookupFound a => detected (ab_Role a) (ab_Protocol a) (ab_IsSSL a) c
       end.

Definition looked_active (maps : bpf_maps) c : option ActiveConnectionInBPF :=
  if ConnectionClosed c then None
  else match ActiveConnectionMap maps (cc_ConnectionID c) with
       | LookupFound a => Some a
       | _ => None
       end.

Definition looked_gone (maps : bpf_maps) c : list string :=
  if ConnectionClosed c then []
  else match ActiveConnectionMap maps (cc_ConnectionID c) with
       | LookupNotExist => [conn_key c]
       | _ => []
       end.

Lemma lookup_one maps ref keys s c :
  an_conns s !! ref = Some c →
  lookupTheActiveConnectionInBPf maps ref keys s =
  (Ok (looked_active maps c, keys ++ looked_gone maps c), set_conns (alter (looked maps) ref) s).
Proof.
  intros Hc. unfold lookupTheActiveConnectionInBPf, looked_active, looked_gone. step_act. rewrite Hc. step_act.
  assert (Hid : looked maps c = c → set_conns (alter (looked maps) ref) s = s).
  { intros Hl. destruct s. unfold set_conns. cbn in *. f_equal. apply map_eq. intros q.
    destruct (decide (ref = q)) as [<-|Hne]; [by rewrite lookup_alter_eq, Hc; cbn; rewrite Hl|].
    by rewrite lookup_alter_ne. }
  assert (Halter : ∀ f, looked maps c = f c → set_conns (alter (looked maps) ref) s = set_conns (alter f ref) s).
  { intros f Hl. unfold set_conns. f_equal. apply map_eq. intros q.
    destruct (decide (ref = q)) as [<-|Hne]; [by rewrite !lookup_alter_eq, Hc; cbn; rewrite Hl|].
    by rewrite !lookup_alter_ne. }
  unfold looked in Hid at 1, Halter at 1.
  destruct (ConnectionClosed c); [by rewrite app_nil_r, Hid|].
  destruct (ActiveConnectionMap maps (cc_ConnectionID c)) as [a| |]; step_act; rewrite ?app_nil_r.
  - by rewrite (Halter (detected (ab_Role a) (ab_Protocol a) (ab_IsSSL a)) eq_refl).
  - by rewrite (Halter set_closed eq_refl).
  - by rewrite Hid.
Qed.

(** The store of connections of references. *)
Definition at_ref {A} (f : conn → A) (d : A) (conns : connections) (ref : positive) : A :=
  match conns !! ref with Some c => f c | None => d end.

Lemma lookup_all_run maps refs s :
  NoDup refs → Forall (λ ref, is_Some (an_conns s !! ref)) refs →
  lookup_all maps refs s =
  (Ok ((λ ref, (ref, at_ref (looked_active maps) None (an_conns s) ref)) <$> refs,
       refs ≫= at_ref (looked_gone maps) [] (an_conns s)),
   set_conns (λ m, foldl (λ m r, alter (looked maps) r m) m refs) s).
Proof.
  intros Hnd Hall. unfold lookup_all.
  cut (∀ acc keys s0, (∀ r, r ∈ refs → an_conns s0 !! r = an_conns s !! r) →
    fold_act (λ '(result, closed) ref, '(active, closed) ← lookupTheActiveConnectionInBPf maps ref closed;
                mret (result ++ [(ref, active)], closed)) (acc, keys) refs s0 =
    (Ok (acc ++ ((λ ref, (ref, at_ref (looked_active maps) None (an_conns s) ref)) <$> refs),
         keys ++ (refs ≫= at_ref (looked_gone maps) [] (an_conns s))),
     set_conns (λ m, foldl (λ m r, alter (looked maps) r m) m refs) s0)).
  { intros Hgen. by rewrite (Hgen [] [] s). }
  induction refs as [|r refs IH]; intros acc keys s0 Hs0; cbn [fold_act].
  - step_act. cbn. rewrite !app_nil_r. by destruct s0.
  - apply NoDup_cons in Hnd as [Hr Hnd]. apply Forall_cons in Hall as [[c Hc] Hall].
    assert (Hc0 : an_conns s0 !! r = Some c) by (rewrite Hs0 by left; done).
    rewrite (bind_ok _ _ s0 (acc ++ [(r, looked_active maps c)], keys ++ looked_gone maps c)
               (set_conns (alter (looked maps) r) s0)) by (by rewrite (bind_ok _ _ _ _ _ (lookup_one maps r keys s0 c Hc0))).
    rewrite IH; [|done|done|].
    + assert (Hat : ∀ A (f : conn → A) d, at_ref f d (an_conns s) r = f c) by (intros; unfold at_ref; by rewrite Hc).
      cbn [fmap list_fmap mbind list_bind]. by rewrite !Hat, <- !(assoc_L (++)).
    + intros q Hq. cbn. rewrite lookup_alter_ne by (by intros ->). apply Hs0. by right.
Qed.

Definition with_stats (a : option ActiveConnectionInBPF) c : conn :=
  match a with
  | Some a => set_metrics (set_stats (ab_stats a) (cc_Metrics c)) c
  | None => c
  end.

Lemma update_counters_lookup (g : positive → option ActiveConnectionInBPF) refs m q :
  NoDup refs →
  update_counters ((λ r, (r, g r)) <$> refs) m !! q =
  if decide (q ∈ refs) then with_stats (g q) <$> m !! q else m !! q.
Proof.
  intros Hnd. rewrite <- (alter_refs_lookup (λ r, with_stats (g r))) by done. f_equal. clear Hnd.
  unfold update_counters. revert m. induction refs as [|r refs IH]; intros m; [done|]. cbn [fmap list_fmap foldl].
  rewrite IH. f_equal. destruct (g r) as [a|]; [done|]. symmetry. apply map_eq. intros q'.
  destruct (decide (r = q')) as [<-|Hne]; [|by rewrite lookup_alter_ne].
  rewrite lookup_alter_eq. by destruct (m !! r).
Qed.

Lemma update_histogram_steady key count c m :
  bucket_index (hk_Bucket key) →
  update_histogram key count (cc_Metrics c) = Some m → steady c (set_metrics m c).
Proof.
  unfold update_histogram. intros Hb Hm.
  assert (Hidx : metrics_indexable (cc_Metrics c) → metrics_indexable m).
  { unfold metrics_indexable, histograms. rewrite !Forall_cons. intros (? & ? & ? & ? & ? & _).
    destruct (hk_DataDirection key), (hk_DataType key); try done; injection Hm as <-;
      split_and!; try done; by apply update_indexable. }
  destruct (hk_DataDirection key), (hk_DataType key); try done; injection Hm as <-; by split_and!.
Qed.

Lemma flush_histogram_steady keys histograms conns deleted :
  Forall (λ h, bucket_index (hk_Bucket (fst h))) histograms →
  store_rel steady conns (fst (foldl (flush_histogram keys) (conns, deleted) histograms)).
Proof.
  intros Hall. revert conns deleted. induction Hall as [|[key count] histograms Hb Hall IH]; intros conns deleted;
    [reflexivity|].
  cbn [foldl flush_histogram]. destruct (keys !! _) as [ref|]; cbn [mbind option_bind]; [|apply IH].
  destruct (conns !! ref) as [c|] eqn:Hc; cbn [fmap option_fmap option_map]; [|apply IH].
  destruct (update_histogram key count (cc_Metrics c)) as [m|] eqn:Hm; [|apply IH]. etrans; [|apply IH].
  apply (store_rel_insert steady c); [apply _|done|]. by apply (update_histogram_steady key count).
Qed.

(** The kernel's numbers are of 64 bits, and its buckets are not negative as an [int]. *)
Definition maps_ok (maps : bpf_maps) : Prop :=
  (∀ id a, ActiveConnectionMap maps id = LookupFound a → stats_ok (ab_stats a)) ∧
  Forall (λ h, bucket_index (hk_Bucket (fst h))) (SocketConnectionStatsHistogram maps).

Section flush.
Context `{!RangeOrder} `{!Processes}.
Variable ExeName : positive → option string.
Variable hostAddresses : gset string.

Lemma exceptions_steady keys exps conns : store_rel steady conns (combineExceptionToConnections keys exps conns).
Proof.
  unfold combineExceptionToConnections. revert conns. induction (range exps) as [|[key value] l IH]; intros conns;
    [reflexivity|]. cbn [foldl]. destruct (exception_addresses key) as [[local remote]|]; [|apply IH].
  destruct (find_exception_connection _ _ _ _ _) as [ref|]; [|apply IH]. etrans; [|apply IH].
  apply store_rel_alter; [apply _|]. intros c _. by split_and!.
Qed.

(** What the preparation makes of a connection that is flushed, before the histograms and
    exceptions, which do not touch what was written. *)
Definition prepared_conn (maps : bpf_maps) c : conn := with_stats (looked_active maps c) (looked maps c).

Lemma prepare_run maps refs s :
  maps_ok maps → NoDup refs → Forall (λ ref, is_Some (an_conns s !! ref)) refs →
  ∃ deleted s', prepareToFlushMetrics maps refs s = (Ok deleted, s') ∧
    (∀ ref, option_Forall2 steady (if decide (ref ∈ refs) then prepared_conn maps <$> an_conns s !! ref
                                   else an_conns s !! ref) (an_conns s' !! ref)) ∧
    an_active s' = foldl (λ m k, delete k m) (an_active s) (refs ≫= at_ref (looked_gone maps) [] (an_conns s)) ∧
    an_next s' = an_next s ∧ an_closed s' = an_closed s ∧ sockParseQueue s' = sockParseQueue s ∧
    flushClosedEvents s' = flushClosedEvents s ∧ an_processes s' = an_processes s.
Proof.
  intros [_ Hbuckets] Hnd Hall. unfold prepareToFlushMetrics, deleteConnectionOnly.
  rewrite (bind_ok _ _ _ _ _ (lookup_all_run maps refs s Hnd Hall)). step_act.
  unfold PreFlushConnectionMetrics. cbn [an_conns set_conns set_active socketExceptionStatics].
  set (g := at_ref (looked_active maps) None (an_conns s)).
  set (m1 := foldl (λ m r, alter (looked maps) r m) (an_conns s) refs).
  set (m2 := update_counters ((λ ref, (ref, g ref)) <$> refs) m1).
  set (keys := key_with_context _ m2).
  pose proof (flush_histogram_steady keys (SocketConnectionStatsHistogram maps) m2 [] Hbuckets) as Hh.
  destruct (foldl (flush_histogram keys) (m2, []) (SocketConnectionStatsHistogram maps)) as [m3 deleted].
  step_act. eexists _, _. split; [done|]. split; [|done]. cbn [fst] in Hh. intros ref.
  cbn [set_exceptions set_conns an_conns].
  assert (Hm2 : m2 !! ref = if decide (ref ∈ refs) then prepared_conn maps <$> an_conns s !! ref else an_conns s !! ref).
  { unfold m2. rewrite update_counters_lookup by done. unfold m1. rewrite alter_refs_lookup by done.
    destruct (decide (ref ∈ refs)); [|done]. unfold g, at_ref. by destruct (an_conns s !! ref). }
  rewrite <- Hm2. refine (store_rel_trans steady _ _ _ _ Hh _ ref). apply exceptions_steady.
Qed.

Definition flush_refs (s : AnalyzerContext) : list positive := an_closed s ++ (snd <$> range (an_active s)).

Lemma active_refs s ref : ref ∈ (snd <$> range (an_active s)) ↔ ∃ k, an_active s !! k = Some ref.
Proof.
  rewrite list_elem_of_fmap. split.
  - intros ([k r] & -> & Hr). exists k. by rewrite (range_perm (an_active s)), elem_of_map_to_list in Hr.
  - intros [k Hk]. exists (k, ref). split; [done|]. by rewrite (range_perm (an_active s)), elem_of_map_to_list.
Qed.

Lemma flush_refs_ok s :
  analyzer_inv s → NoDup (flush_refs s) ∧ Forall (λ ref, is_Some (an_conns s !! ref)) (flush_refs s).
Proof.
  intros Hi. split.
  - apply NoDup_app. split_and!; [apply (ai_nodup s Hi)| |].
    + intros ref Hr (k & Hk)%active_refs. destruct (ai_closed s Hi ref Hr) as (c & Hc & Hcl).
      destruct (ai_active s Hi k ref Hk) as (c' & Hc' & Hcl' & _). congruence.
    + rewrite (range_perm (an_active s)). apply NoDup_fmap_2_strong; [|apply NoDup_map_to_list].
      intros [k r] [k' r'] Hk%elem_of_map_to_list Hk'%elem_of_map_to_list Heq. cbn in Heq. subst r'.
      f_equal. destruct (decide (k = k')) as [|Hne]; [done|].
      by destruct (other_active s k r k' r Hi Hk Hk' Hne).
  - apply Forall_forall. intros ref [Hr|(k & Hk)%active_refs]%elem_of_app.
    + destruct (ai_closed s Hi ref Hr) as (c & -> & _). eauto.
    + destruct (ai_active s Hi k ref Hk) as (c & -> & _). eauto.
Qed.

(** A connection that is flushed is closed, or was not written to since the last flush. *)
Lemma flush_ref_settled s ref c :
  analyzer_inv s → ref ∈ flush_refs s → an_conns s !! ref = Some c → ConnectionClosed c = false → settled c.
Proof.
  intros Hi [Hr|(k & Hk)%active_refs]%elem_of_app Hc Hcl.
  - destruct (ai_closed s Hi ref Hr) as (c' & Hc' & Hcl'). congruence.
  - destruct (ai_active s Hi k ref Hk) as (c' & Hc' & _ & _ & Hset). congruence.
Qed.

(** The written bytes that are known of a connection: of a closed one those of its close
    event, of another one those the kernel's map has for its id.  Without an entry they are
    still those of the last flush. *)
Definition known (maps : bpf_maps) c : Z :=
  if ConnectionClosed c then write_cur c
  else match ActiveConnectionMap maps (cc_ConnectionID c) with
       | LookupFound a => WriteBytes (ab_stats a)
       | _ => write_cur c
       end.

(** What a connection adds to the report of a process. *)
Definition due (maps : bpf_maps) (conns : connections) (pid : Z) (ref : positive) : Z :=
  match conns !! ref with
  | Some c => if remote_known c && (LocalPid c =? pid) then Z.max 0 (known maps c - write_pre c) else 0
  | None => 0
  end.

Lemma subtraction_max a b : subtractionValue a b = Z.max 0 (a - b).
Proof. unfold subtractionValue. destruct (Z.ltb_spec b a); lia. Qed.

Lemma prepared_fields maps c :
  (ConnectionClosed c = false → settled c) → in_width (write_cur c) → maps_ok maps →
  let c' := prepared_conn maps c in
  conn_key c' = conn_key c ∧ write_pre c' = write_pre c ∧ in_width (write_cur c') ∧
  remote_known c' = remote_known c ∧ LocalPid c' = LocalPid c ∧
  (metrics_indexable (cc_Metrics c) → metrics_indexable (cc_Metrics c')) ∧
  ConnectionClosed c' = match looked_gone maps c with [] => ConnectionClosed c | _ => true end ∧
  write_cur c' = known maps c.
Proof.
  intros Hset Hw [Hm _]. unfold known, prepared_conn, looked_active, looked, looked_gone.
  destruct (ConnectionClosed c) eqn:Hcl; [done|].
  destruct (ActiveConnectionMap maps (cc_ConnectionID c)) as [a| |] eqn:Ha; cbn; try done.
  split_and!; try done. - symmetry. by apply Hset. - by apply (Hm _ _ Ha).
Qed.

Lemma refresh_indexable m : metrics_indexable m → metrics_indexable (refresh_metrics m).
Proof.
  unfold metrics_indexable, histograms. rewrite !Forall_cons. intros (? & ? & ? & ? & ? & _). by split_and!.
Qed.

Lemma refresh_fields c :
  in_width (write_cur c) →
  let c' := set_metrics (refresh_metrics (cc_Metrics c)) c in
  settled c' ∧ write_cur c' = write_cur c.
Proof.
  unfold in_width, settled, write_pre, write_cur. intros Hw. cbn. unfold u64.
  by rewrite Z.add_0_l, Z.mod_small.
Qed.

Lemma foldl_delete_Some (m : gmap string positive) keys k r :
  foldl (λ m k, delete k m) m keys !! k = Some r ↔ m !! k = Some r ∧ k ∉ keys.
Proof.
  revert m. induction keys as [|k' keys IH]; intros m; cbn.
  - split; [|by intros [? _]]. intros Hk. split; [done|]. apply not_elem_of_nil.
  - rewrite IH, lookup_delete_Some, not_elem_of_cons. naive_solver.
Qed.

(** One connection through the preparation, the combination and the refresh. *)
Definition flush_step maps c c3 c4 c5 : Prop :=
  steady (prepared_conn maps c) c3 ∧ cc_Metrics c4 = cc_Metrics c3 ∧ same_identity c3 c4 ∧
  c5 = set_metrics (refresh_metrics (cc_Metrics c4)) c4.

Lemma flush_step_fields maps c c3 c4 c5 :
  flush_step maps c c3 c4 c5 → (ConnectionClosed c = false → settled c) → in_width (write_cur c) → maps_ok maps →
  conn_key c5 = conn_key c ∧ settled c5 ∧ in_width (write_cur c5) ∧
  ConnectionClosed c5 = match looked_gone maps c with [] => ConnectionClosed c | _ => true end ∧
  LocalPid c3 = LocalPid c ∧
  (metrics_indexable (cc_Metrics c) → metrics_indexable (cc_Metrics c5)) ∧
  write_cur c5 = known maps c ∧
  added c3 = if remote_known c then Z.max 0 (known maps c - write_pre c) else 0.
Proof.
  intros (Hst & Hm & Hid & ->) Hset Hw Hok.
  destruct (prepared_fields maps c Hset Hw Hok) as (Hk & Hp & Hc & Hr & Hpid & Hb & Hcl & Hg).
  pose proof (steady_remote _ _ Hst) as Hr3. destruct Hst as ((Hk3 & Hcl3 & Hp3 & Hc3 & Hb3) & _ & _ & Hpid3 & _).
  assert (Hw4 : write_cur c4 = write_cur c3) by (unfold write_cur; by rewrite Hm).
  destruct (refresh_fields c4) as [Hset5 Hw5]; [congruence|]. destruct Hid as (Hi1 & Hi2 & _ & Hcl4 & _).
  split_and!; [| | | |congruence| |congruence|].
  - change (conn_key c4 = conn_key c). rewrite <- Hk, <- Hk3. unfold conn_key. congruence.
  - done.
  - rewrite Hw5. congruence.
  - change (ConnectionClosed c4 = match looked_gone maps c with [] => ConnectionClosed c | _ => true end). congruence.
  - intros Hc0. apply refresh_indexable. rewrite Hm. by apply Hb3, Hb.
  - unfold added. rewrite Hr3, Hr. cbn [increase write_laws]. by rewrite Hp3, Hp, Hc3, Hg, subtraction_max.
Qed.

(** The stores of the stages. *)
Lemma flush_stages maps refs (conns m3 m4 : connections) ref c :
  NoDup refs → ref ∈ refs → conns !! ref = Some c →
  (∀ ref, option_Forall2 steady (if decide (ref ∈ refs) then prepared_conn maps <$> conns !! ref else conns !! ref)
            (m3 !! ref)) →
  combined_store refs m3 m4 →
  ∃ c3 c4 c5, m3 !! ref = Some c3 ∧ PostFlushConnectionMetrics refs m4 !! ref = Some c5 ∧ flush_step maps c c3 c4 c5.
Proof.
  intros Hnd Hin Hc H3 [_ H4]. specialize (H3 ref). rewrite decide_True, Hc in H3 by done. cbn in H3.
  inversion H3 as [? c3 Hst|]; subst. destruct (H4 ref c3) as (c4 & Hc4 & Hm & _ & Hid & _); [done|].
  exists c3, c4. eexists. split; [done|]. split; [|by split_and!].
  unfold PostFlushConnectionMetrics, on_metrics.
  rewrite (alter_refs_lookup (λ _ c, set_metrics (refresh_metrics (cc_Metrics c)) c)) by done.
  by rewrite decide_True, Hc4.
Qed.

Lemma flush_others maps refs (conns m3 m4 : connections) ref :
  NoDup refs → ref ∉ refs →
  (∀ ref, option_Forall2 steady (if decide (ref ∈ refs) then prepared_conn maps <$> conns !! ref else conns !! ref)
            (m3 !! ref)) →
  combined_store refs m3 m4 →
  option_Forall2 steady (conns !! ref) (PostFlushConnectionMetrics refs m4 !! ref).
Proof.
  intros Hnd Hin H3 [Hd H4]. specialize (H3 ref). rewrite decide_False in H3 by done.
  unfold PostFlushConnectionMetrics, on_metrics.
  rewrite (alter_refs_lookup (λ _ c, set_metrics (refresh_metrics (cc_Metrics c)) c)) by done.
  rewrite decide_False by done. destruct (m3 !! ref) as [c3|] eqn:Hc3.
  - destruct (H4 ref c3 Hc3) as (c4 & -> & _ & _ & _ & Heq). by rewrite (Heq Hin).
  - assert (m4 !! ref = None) as ->; [|done]. apply not_elem_of_dom. rewrite Hd. by apply not_elem_of_dom.
Qed.

Lemma flush_dom maps refs (conns m3 m4 : connections) ref :
  NoDup refs →
  (∀ ref, option_Forall2 steady (if decide (ref ∈ refs) then prepared_conn maps <$> conns !! ref else conns !! ref)
            (m3 !! ref)) →
  combined_store refs m3 m4 →
  is_Some (PostFlushConnectionMetrics refs m4 !! ref) ↔ is_Some (conns !! ref).
Proof.
  intros Hnd H3 [Hd _]. unfold PostFlushConnectionMetrics, on_metrics.
  rewrite (alter_refs_lookup (λ _ c, set_metrics (refresh_metrics (cc_Metrics c)) c)) by done.
  assert (H4 : is_Some (m4 !! ref) ↔ is_Some (m3 !! ref)) by (rewrite <- !elem_of_dom; by rewrite Hd).
  specialize (H3 ref). destruct (decide (ref ∈ refs)); rewrite ?fmap_is_Some, H4;
    destruct (conns !! ref); inversion H3; split; by eauto.
Qed.

(** The state after a flush of all closed and active connections. *)
Lemma flushed_inv maps s refs m3 m4 s' :
  analyzer_inv s → maps_ok maps → NoDup refs → 
  (∀ ref, ref ∈ an_closed s → ref ∈ refs) → (∀ k ref, an_active s !! k = Some ref → ref ∈ refs) →
  (∀ ref c, ref ∈ refs → an_conns s !! ref = Some c → ConnectionClosed c = false → settled c) →
  (∀ ref, option_Forall2 steady (if decide (ref ∈ refs) then prepared_conn maps <$> an_conns s !! ref
                                 else an_conns s !! ref) (m3 !! ref)) →
  combined_store refs m3 m4 →
  an_conns s' = PostFlushConnectionMetrics refs m4 →
  an_active s' = foldl (λ m k, delete k m) (an_active s) (refs ≫= at_ref (looked_gone maps) [] (an_conns s)) →
  an_next s' = an_next s → an_closed s' = an_closed s → sockParseQueue s' = sockParseQueue s →
  flushClosedEvents s' = flushClosedEvents s →
  analyzer_inv s'.
Proof.
  intros Hi Hok Hnd Hcl Hact Hset H3 H4 Hconns Hactive Hnext Hclosed Hqueue Hevents.
  assert (Hin : ∀ ref c, ref ∈ refs → an_conns s !! ref = Some c → ∃ c', an_conns s' !! ref = Some c' ∧
    conn_key c' = conn_key c ∧ settled c' ∧ in_width (write_cur c') ∧
    ConnectionClosed c' = match looked_gone maps c with [] => ConnectionClosed c | _ => true end ∧
    metrics_indexable (cc_Metrics c')).
  { intros ref c Hr Hc. destruct (flush_stages maps refs _ m3 m4 ref c Hnd Hr Hc H3 H4) as (c3 & c4 & c5 & _ & Hc5 & Hs).
    exists c5. rewrite Hconns. split; [done|].
    destruct (flush_step_fields maps c c3 c4 c5 Hs (Hset ref c Hr Hc) (ai_width s Hi ref c Hc) Hok) as (? & ? & ? & ? & _ & Hb & _).
    split_and!; try done. by apply Hb, (ai_buckets s Hi ref). }
  assert (Hout : ∀ ref, ref ∉ refs → option_Forall2 steady (an_conns s !! ref) (an_conns s' !! ref)).
  { intros ref Hr. rewrite Hconns. by apply (flush_others maps _ _ m3). }
  assert (Hdom : ∀ ref, is_Some (an_conns s' !! ref) ↔ is_Some (an_conns s !! ref)).
  { intros ref. rewrite Hconns. by apply (flush_dom maps _ _ m3). }
  split.
  - intros ref Hr. rewrite Hnext. by apply (ai_fresh s Hi), Hdom.
  - intros ref c' Hc'. destruct (decide (ref ∈ refs)) as [Hr|Hr].
    + destruct (proj1 (Hdom ref) (ltac:(by rewrite Hc'))) as [c Hc].
      destruct (Hin ref c Hr Hc) as (c'' & Hc'' & _ & _ & Hw & _). congruence.
    + specialize (Hout ref Hr). rewrite Hc' in Hout. inversion Hout as [c ? Hst Heq|]; subst.
      destruct Hst as ((_ & _ & _ & -> & _) & _). by apply (ai_width s Hi ref).
  - intros ref c' Hc'. destruct (decide (ref ∈ refs)) as [Hr|Hr].
    + destruct (proj1 (Hdom ref) (ltac:(by rewrite Hc'))) as [c Hc].
      destruct (Hin ref c Hr Hc) as (c'' & Hc'' & _ & _ & _ & _ & Hb). congruence.
    + specialize (Hout ref Hr). rewrite Hc' in Hout. inversion Hout as [c ? Hst Heq|]; subst.
      destruct Hst as ((_ & _ & _ & _ & Hb) & _). by apply Hb, (ai_buckets s Hi ref).
  - intros k ref Hk. rewrite Hactive in Hk. apply foldl_delete_Some in Hk as [Hk Hgone].
    destruct (ai_active s Hi k ref Hk) as (c & Hc & Hclc & Hkey & _). pose proof (Hact k ref Hk) as Hr.
    destruct (Hin ref c Hr Hc) as (c' & Hc' & Hkey' & Hset' & _ & Hcl' & _). exists c'. split_and!; [done| |congruence|done].
    rewrite Hcl'. destruct (looked_gone maps c) as [|k' l] eqn:Hg; [done|]. destruct Hgone.
    apply list_elem_of_bind. exists ref. split; [|done]. unfold at_ref. rewrite Hc, Hg.
    unfold looked_gone in Hg. repeat case_match; try done. injection Hg as <- <-. rewrite Hkey. left.
  - intros ref Hr. rewrite Hclosed in Hr. destruct (ai_closed s Hi ref Hr) as (c & Hc & Hclc).
    destruct (Hin ref c (Hcl ref Hr) Hc) as (c' & Hc' & _ & _ & _ & Hcl' & _). exists c'. split; [done|].
    rewrite Hcl', Hclc. by case_match.
  - rewrite Hclosed. apply (ai_nodup s Hi).
  - intros ref Hr. rewrite Hqueue in Hr. by apply Hdom, (ai_queue s Hi).
  - rewrite Hevents. apply (ai_events s Hi).
Qed.

(** The flush without the cached close events. *)
Definition flush_rest (maps : bpf_maps) (builder : MetricsBuilder) : anm flushed :=
  ccs ← GetAllConnectionWithContext;
  match ccs with
  | [] => mret (MkFlushed [] builder [])
  | _ =>
    deleted ← prepareToFlushMetrics maps ccs;
    s ← get;
    '(traffics, t, conns, ports) ← lift (must_ok
       (CombineConnectionToTraffics ExeName hostAddresses (an_processes s) ccs (an_conns s) (an_ports s)));
    _ ← modify (set_conns (λ _, conns));
    _ ← modify (set_ports ports);
    builder ← lift (must_ok (FlushMetrics hostAddresses t traffics builder));
    _ ← modify (set_conns (PostFlushConnectionMetrics ccs));
    mret (MkFlushed traffics builder deleted)
  end.

(** The written bytes that a flush reports of a process. *)
Definition written (pid : Z) (f : flushed) : Z :=
  zsum ((λ tr, if pt_LocalPid tr =? pid then ct_Bytes (ct_Cur (WriteCounter (pt_Metrics tr))) else 0) <$> fl_traffics f).

(** What the combination adds of a connection is what is due of it, and the refresh keeps
    the numbers for the next flush. *)
Lemma flush_due maps refs (conns conns2 m3 m4 : connections) pid ref :
  NoDup refs → ref ∈ refs → maps_ok maps → store_rel steady conns conns2 →
  (∀ c, conns2 !! ref = Some c → in_width (write_cur c) ∧ (ConnectionClosed c = false → settled c)) →
  (∀ ref, option_Forall2 steady (if decide (ref ∈ refs) then prepared_conn maps <$> conns2 !! ref else conns2 !! ref)
            (m3 !! ref)) →
  combined_store refs m3 m4 → is_Some (conns !! ref) →
  added_of m3 pid ref = due maps conns pid ref ∧
  ∃ c', PostFlushConnectionMetrics refs m4 !! ref = Some c' ∧ write_pre c' = write_cur c' ∧
    Some (write_cur c') = known maps <$> conns !! ref.
Proof.
  intros Hnd Hr Hok Hst Hc2 H3 H4 [c Hc]. destruct (store_rel_lookup _ _ _ _ _ Hst Hc) as (c2 & Hc2' & Hs).
  destruct (Hc2 c2 Hc2') as [Hw Hset].
  destruct (flush_stages maps refs conns2 m3 m4 ref c2 Hnd Hr Hc2' H3 H4) as (c3 & c4 & c5 & Hc3 & Hc5 & Hstep).
  destruct (flush_step_fields maps c2 c3 c4 c5 Hstep Hset Hw Hok) as (_ & Hset5 & _ & _ & Hpid & _ & Hw5 & Hadd).
  pose proof (steady_remote _ _ Hs) as Hrem. destruct Hs as ((_ & Hcl & Hp & Hcur & _) & _ & _ & Hpid2 & Hid).
  assert (Hknown : known maps c2 = known maps c) by (unfold known; by rewrite Hcl, Hcur, Hid).
  unfold added_of, due, of_process. rewrite Hc3, Hc, Hadd, Hpid, Hrem, Hpid2, Hknown, Hp. split.
  - by destruct (remote_known c), (LocalPid c =? pid).
  - exists c5. split_and!; [done|done|]. cbn. by rewrite Hw5, Hknown.
Qed.

(** The prepared connections are there, with buckets that index the bounds. *)
Lemma prepared_some maps (refs : list positive) (conns m3 : connections) :
  (∀ ref, option_Forall2 steady (if decide (ref ∈ refs) then prepared_conn maps <$> conns !! ref else conns !! ref)
            (m3 !! ref)) →
  Forall (λ ref, is_Some (conns !! ref)) refs → Forall (λ ref, is_Some (m3 !! ref)) refs.
Proof.
  intros H3. rewrite !Forall_forall. intros Hall ref Hr. destruct (Hall ref Hr) as [c Hc].
  specialize (H3 ref). rewrite decide_True, Hc in H3 by done. inversion H3. eauto.
Qed.

Lemma prepared_indexable maps (refs : list positive) s (m3 : connections) :
  analyzer_inv s → maps_ok maps →
  (∀ ref c, ref ∈ refs → an_conns s !! ref = Some c → ConnectionClosed c = false → settled c) →
  (∀ ref, option_Forall2 steady (if decide (ref ∈ refs) then prepared_conn maps <$> an_conns s !! ref
                                 else an_conns s !! ref) (m3 !! ref)) →
  ∀ ref c, m3 !! ref = Some c → metrics_indexable (cc_Metrics c).
Proof.
  intros Hi Hok Hset H3 ref c3 Hc3. specialize (H3 ref). rewrite Hc3 in H3.
  inversion H3 as [c ? Hst Heq|]; subst. symmetry in Heq. apply Hst.
  destruct (decide (ref ∈ refs)) as [Hr|Hr]; [|by apply (ai_buckets s Hi ref)].
  apply fmap_Some in Heq as (c0 & Hc0 & ->).
  apply (prepared_fields maps c0); [by apply (Hset ref)|by apply (ai_width s Hi ref)|done|by apply (ai_buckets s Hi ref)].
Qed.

Lemma flush_rest_exact maps builder s :
  analyzer_inv s → maps_ok maps →
  ∃ f s', flush_rest maps builder s = (Ok f, s') ∧ analyzer_inv s' ∧
    (∀ ref, ref ∈ flush_refs s → ∃ c', an_conns s' !! ref = Some c' ∧ write_pre c' = write_cur c' ∧
       Some (write_cur c') = known maps <$> an_conns s !! ref) ∧
    ∀ pid, (2 ^ 64 | written pid f - zsum (due maps (an_conns s) pid <$> flush_refs s)).
Proof.
  intros Hi Hok. destruct (flushClosed_run s Hi) as (s2 & Hrun & Hi2 & Hst & Hact & Hcl).
  destruct (flush_refs_ok s Hi) as [Hnd Hall].
  assert (Hget : GetAllConnectionWithContext s = (Ok (flush_refs s), s2)).
  { unfold GetAllConnectionWithContext. rewrite (bind_ok _ _ _ _ _ Hrun). step_act. by rewrite Hact. }
  unfold flush_rest. rewrite (bind_ok _ _ _ _ _ Hget).
  destruct (decide (flush_refs s = [])) as [Hnil|Hne].
  { rewrite Hnil. eexists _, s2. split; [done|]. split; [done|]. split; [by intros ref ?%not_elem_of_nil|].
    intros pid. apply Z.divide_0_r. }
  assert (Hset2 : ∀ ref c, ref ∈ flush_refs s → an_conns s2 !! ref = Some c → ConnectionClosed c = false → settled c).
  { intros ref c2 Hr Hc2 Hcl2. destruct (store_rel_back _ _ _ _ _ Hst Hc2) as (c & Hc & Hs & _).
    apply (calm_settled c c2 Hs), (flush_ref_settled s ref); try done. destruct Hs as (_ & Heq & _). congruence. }
  assert (Hall2 : Forall (λ ref, is_Some (an_conns s2 !! ref)) (flush_refs s)).
  { eapply Forall_impl; [exact Hall|]. intros ref [c Hc]. by destruct (store_rel_lookup _ _ _ _ _ Hst Hc) as (c2 & -> & _). }
  destruct (prepare_run maps (flush_refs s) s2 Hok Hnd Hall2) as (deleted & s3 & Hprep & H3 & Ha3 & Hn3 & Hc3 & Hq3 & He3 & Hp3).
  destruct (combine_conserves ExeName hostAddresses (an_processes s3) (flush_refs s) (an_conns s3) (an_ports s3) Hnd)
    as (traffics & t & m4 & ports' & Hcomb & Hsum & H4).
  { apply (prepared_some maps (flush_refs s) (an_conns s2)); done. }
  destruct (FlushMetrics_total hostAddresses t traffics builder) as [builder' Hmeters].
  { refine (combine_holds _ _ _ metrics_indexable _ _ _ _ _ _ _ new_indexable merge_indexable _ Hcomb).
    by apply (prepared_indexable maps (flush_refs s) s2). }
  set (s5 := set_conns (PostFlushConnectionMetrics (flush_refs s)) (set_ports ports' (set_conns (λ _, m4) s3))).
  assert (Hdue : ∀ ref pid, ref ∈ flush_refs s → added_of (an_conns s3) pid ref = due maps (an_conns s) pid ref ∧
    ∃ c', an_conns s5 !! ref = Some c' ∧ write_pre c' = write_cur c' ∧ Some (write_cur c') = known maps <$> an_conns s !! ref).
  { intros ref pid Hr. apply (flush_due maps _ _ (an_conns s2)); try done.
    - intros c Hc. split; [by apply (ai_width s2 Hi2 ref)|by apply (Hset2 ref)].
    - rewrite Forall_forall in Hall. by apply Hall. }
  exists (MkFlushed traffics builder' deleted), s5. split_and!.
  - destruct (flush_refs s); [done|]. rewrite (bind_ok _ _ _ _ _ Hprep), bind_get, Hcomb.
    cbn [must_ok]. rewrite bind_lift_ok. step_act. rewrite Hmeters. cbn [must_ok]. by step_act.
  - apply (flushed_inv maps s2 (flush_refs s) (an_conns s3) m4 s5); try done.
    + intros ref Hr. apply elem_of_app. left. by apply Hcl.
    + intros k ref Hk. apply elem_of_app. right. apply active_refs. exists k. congruence.
  - intros ref Hr. by apply (Hdue ref 0).
  - intros pid. specialize (Hsum pid). unfold same_weight in Hsum. cbn [modulus write_laws] in Hsum.
    rewrite (list_fmap_ext (due maps (an_conns s) pid) (added_of (an_conns s3) pid)); [exact Hsum|].
    intros i ref Hr. symmetry. apply Hdue. by apply list_elem_of_lookup_2 in Hr.
Qed.

Lemma flush_split maps prefix s :
  FlushAllMetrics ExeName hostAddresses maps prefix s =
  (_ ← processCachedCloseEvents; flush_rest maps (NewMetricsBuilder prefix)) s.
Proof. done. Qed.

Lemma cached_run s : analyzer_inv s →
  ∃ s1, processCachedCloseEvents s = (Ok tt, s1) ∧ analyzer_inv s1.
Proof.
  intros Hi. unfold processCachedCloseEvents. step_act. apply cached_loop_keeps; [done|apply (ai_events s Hi)].
Qed.

(** What can happen to the analyzer. *)
Inductive analyzer_op : Type :=
| OpConnect (event : NetConnectEvent)
| OpClose (event : NetCloseEvent)
| OpParse (ParseSocket : Z → Z → option SocketPair)
| OpException (pid : Z) (a : socket_addresses) (type : SocketExceptionOperationType)
| OpFlush (maps : bpf_maps) (prefix : string).

Definition analyzer_perform (op : analyzer_op) : anm unit :=
  match op with
  | OpConnect event => handleSocketConnectEvent event
  | OpClose event => handleSocketCloseEvent event
  | OpParse ParseSocket => handleSocketParseQueue ParseSocket
  | OpException pid a type =>
    modify (λ s, set_exceptions (handleSocketExceptionOperationEvent pid a type (socketExceptionStatics s)) s)
  | OpFlush maps prefix => _ ← FlushAllMetrics ExeName hostAddresses maps prefix; mret tt
  end.

(** The numbers of the kernel have their width. *)
Definition op_ok (op : analyzer_op) : Prop :=
  match op with
  | OpClose event => stats_ok (cl_stats event)
  | OpFlush maps _ => maps_ok maps
  | _ => True
  end.

Lemma perform_keeps op s : analyzer_inv s → op_ok op → keeps (analyzer_perform op s).
Proof.
  intros Hi Hok. destruct op as [event|event|ParseSocket|pid a type|maps prefix]; cbn [analyzer_perform].
  - by apply connect_keeps.
  - by apply close_keeps.
  - by apply parse_keeps.
  - by apply inv_exceptions.
  - destruct (cached_run s Hi) as (s1 & Hrun & Hi1).
    destruct (flush_rest_exact maps (NewMetricsBuilder prefix) s1 Hi1 Hok) as (f & s2 & Hf & Hi2 & _).
    assert (Hflush : FlushAllMetrics ExeName hostAddresses maps prefix s = (Ok f, s2)).
    { by rewrite flush_split, (bind_ok _ _ _ _ _ Hrun). }
    by rewrite (bind_ok _ _ _ _ _ Hflush).
Qed.

(** The states after some operations; one that blocks leaves its state. *)
Inductive reachable_analyzer (processes : gmap Z (list positive)) : AnalyzerContext → Prop :=
| reach_new : reachable_analyzer processes (NewAnalyzerContext processes)
| reach_op s op : reachable_analyzer processes s → op_ok op →
    reachable_analyzer processes (snd (analyzer_perform op s)).

Lemma reachable_analyzer_inv processes s : reachable_analyzer processes s → analyzer_inv s.
Proof.
  induction 1 as [|s op Hr IH Hok].
  - by split; cbn; try constructor; try (intros ref; rewrite lookup_empty; intros [? ?]);
      try (intros ref ?; by rewrite lookup_empty); try (intros ? ? ?%lookup_empty_Some); try (intros ? ?%not_elem_of_nil).
  - pose proof (perform_keeps op s IH Hok) as Hk. destruct (analyzer_perform op s) as [[| |] s']; done.
Qed.

(** C17: In every state the analyzer can reach with the listener of layer 4, with events and
    flushes in any order, no operation panics when the kernel's buckets are not negative as
    an [int]; the active connections are stored under their own ids and are not closed, no
    connection is flushed twice at once, and nothing was written to an active connection
    since it was flushed. *)
Theorem analyzer_never_panics procs s :
  reachable_analyzer procs s →
  (∀ op, op_ok op → fst (analyzer_perform op s) ≠ Panic) ∧
  NoDup (flush_refs s) ∧
  (∀ k ref, an_active s !! k = Some ref →
     ∃ c, an_conns s !! ref = Some c ∧ ConnectionClosed c = false ∧ k = conn_key c ∧ settled c).
Proof.
  intros Hi%reachable_analyzer_inv. split_and!; [|by apply flush_refs_ok|apply (ai_active s Hi)].
  intros op Hok. pose proof (perform_keeps op s Hi Hok) as Hk. by destruct (analyzer_perform op s) as [[| |] s'].
Qed.

(** C11: A flush reports to every process what its connections wrote since the last flush,
    as far as it is known.  In every reachable state the flush returns.  After the close
    events that waited, the bytes written in the traffics of a process are, up to the width
    of 64 bits, the sum over its closed and active connections with a known remote address of
    the bytes known now without those of the last flush; known are those of the close event
    or, of a connection that is not closed, those of the kernel's map.  The next flush starts
    from what was known.  And a close event of an active connection leaves it closed, with
    the bytes of the event known and those of the last flush before them.  The bytes of a
    connection that the kernel forgot before its close event is read are not known, see
    [bytes_of_a_late_close_are_lost]. *)
Theorem flush_reports_growth procs s maps prefix :
  reachable_analyzer procs s → maps_ok maps →
  (∃ s1 f s', processCachedCloseEvents s = (Ok tt, s1) ∧
    FlushAllMetrics ExeName hostAddresses maps prefix s = (Ok f, s') ∧
    (∀ pid, (2 ^ 64 | written pid f - zsum (due maps (an_conns s1) pid <$> flush_refs s1))) ∧
    (∀ ref, ref ∈ flush_refs s1 → ∃ c', an_conns s' !! ref = Some c' ∧ write_pre c' = write_cur c' ∧
       Some (write_cur c') = known maps <$> an_conns s1 !! ref)) ∧
  (∀ event ref c, an_active s !! generateConnectionKey (cl_ConID event) (cl_RandomID event) = Some ref →
     an_conns s !! ref = Some c →
     ∃ s' c', handleSocketCloseEvent event s = (Ok tt, s') ∧ ref ∈ flush_refs s' ∧
       an_conns s' !! ref = Some c' ∧ ConnectionClosed c' = true ∧ write_pre c' = write_cur c ∧
       write_cur c' = WriteBytes (cl_stats event) ∧ remote_known c' = remote_known c ∧ LocalPid c' = LocalPid c).
Proof.
  intros Hi%reachable_analyzer_inv Hok. split.
  - destruct (cached_run s Hi) as (s1 & Hrun & Hi1).
    destruct (flush_rest_exact maps (NewMetricsBuilder prefix) s1 Hi1 Hok) as (f & s' & Hf & _ & Hset & Hsum).
    exists s1, f, s'. split_and!; [done| |done|done]. by rewrite flush_split, (bind_ok _ _ _ _ _ Hrun).
  - intros event ref c Hk Hc. eexists (close_active event _ ref s), (combineClosedConnection event c).
    split_and!; try done.
    + unfold handleSocketCloseEvent, socketClosedEvent0, foundAndDeleteConnection, appendClosedConnection.
      step_act. rewrite Hk. by step_act.
    + apply elem_of_app. left. cbn. apply elem_of_app. right. left.
    + cbn. by rewrite lookup_alter_eq, Hc.
Qed.

End flush.

(** ** Samples *)

Module AnalyzerSamples.

#[local] Existing Instance keys_order.

#[local] Instance sample_processes : Processes := {|
  p_ID p := if bool_decide (p = 1%positive) then "one" else "two";
  p_Pid p := Z.pos p;
  p_Entity p := MkProcessEntity "GENERAL" "shop" "shop-1" "app" []
|}.

Definition addresses (port : Z) : socket_addresses :=
  MkAddresses 2 16777226 [] 80 33554442 [] port.

Definition connect_event : NetConnectEvent := MkNetConnect 11 5 3 0 1 7 ConnectionRoleClient (addresses 4000).
Definition numbers (bytes : Z) : transfer_stats := MkStats bytes 1 1 0 0 0 0 0.
Definition close_event (bytes : Z) : NetCloseEvent :=
  MkNetClose 11 5 9 1 7 0 0 ConnectionRoleClient (addresses 4000) (numbers bytes).
Definition kernel (bytes : Z) : bpf_maps :=
  MkBpfMaps (λ _, LookupFound (MkActiveInBPF ConnectionRoleClient 0 0 (numbers bytes))) [].
Definition gone : bpf_maps := MkBpfMaps (λ _, LookupNotExist) [].

Definition start : AnalyzerContext := NewAnalyzerContext {[ 1 := [1%positive] ]}.
Definition do (op : analyzer_op) (s : AnalyzerContext) : AnalyzerContext :=
  snd (analyzer_perform (λ _, None) ∅ op s).
Definition bytes_of (maps : bpf_maps) (s : AnalyzerContext) : option Z :=
  match FlushAllMetrics (λ _, None) ∅ maps "rover" s with
  | (Ok f, _) => Some (written 1 f)
  | _ => None
  end.

Definition connected : AnalyzerContext := do (OpConnect connect_event) start.
Definition flushed_once : AnalyzerContext := do (OpFlush (kernel 100) "rover") connected.

(** 100 bytes, then what was added until the close event, and nothing more. *)
Example reports_of_a_connection :
  (bytes_of (kernel 100) connected, bytes_of (kernel 130) flushed_once,
   bytes_of gone (do (OpClose (close_event 150)) flushed_once),
   bytes_of gone (do (OpFlush gone "rover") (do (OpClose (close_event 150)) flushed_once)))
  = (Some 100, Some 30, Some 50, Some 0).
Proof. vm_compute. reflexivity. Qed.

Lemma kernel_ok bytes : 0 ≤ bytes < 2 ^ 64 → maps_ok (kernel bytes).
Proof. intros Hb. split; [|by constructor]. intros id a Ha. by injection Ha as <-. Qed.

Lemma reachable_flushed_once : reachable_analyzer (λ _, None) ∅ {[ 1 := [1%positive] ]} flushed_once.
Proof.
  unfold flushed_once, do, connected. apply reach_op.
  - apply reach_op; [apply reach_new|exact I].
  - apply kernel_ok. lia.
Qed.

Lemma analyzer_never_panics_witness : NoDup (flush_refs flushed_once).
Proof. apply (analyzer_never_panics (λ _, None) ∅ {[ 1 := [1%positive] ]} flushed_once reachable_flushed_once). Defined.

Lemma flush_reports_growth_witness :
  ∃ s1 f s', processCachedCloseEvents flushed_once = (Ok tt, s1) ∧
    FlushAllMetrics (λ _, None) ∅ (kernel 130) "rover" flushed_once = (Ok f, s') ∧
    (2 ^ 64 | written 1 f - zsum (due (kernel 130) (an_conns s1) 1 <$> flush_refs s1)).
Proof.
  destruct (flush_reports_growth (λ _, None) ∅ {[ 1 := [1%positive] ]} flushed_once (kernel 130) "rover")
    as [(s1 & f & s' & H1 & H2 & H3 & _) _].
  - exact reachable_flushed_once.
  - apply kernel_ok. lia.
  - exists s1, f, s'. split; [exact H1|]. split; [exact H2|exact (H3 1)].
Defined.

(** The sum of the theorem there: 30 bytes. *)
Example due_of_a_connection : (due (kernel 130) (an_conns flushed_once) 1 <$> flush_refs flushed_once) = [30].
Proof. vm_compute. reflexivity. Qed.

(** A histogram with a bucket that is negative as an [int] panics when it is flushed. *)
Definition negative_bucket : bpf_maps :=
  MkBpfMaps (ActiveConnectionMap (kernel 130))
    [(MkHistogramKey 11 5 (2 ^ 63) DirectionEgress StaticsRTT, 1)].

Example negative_bucket_panics :
  fst (FlushAllMetrics (λ _, None) ∅ negative_bucket "rover" flushed_once) = Panic.
Proof. vm_compute. reflexivity. Qed.

(** When the kernel forgot the connection before its close event was read, the bytes since
    the last flush are not reported: the context of the event has no remote port. *)
Example bytes_of_a_late_close_are_lost :
  let s := do (OpFlush gone "rover") flushed_once in
  (bytes_of gone flushed_once, bytes_of gone (do (OpClose (close_event 150)) s)) = (Some 0, Some 0).
Proof. vm_compute. reflexivity. Qed.

(** The close of a connection is counted only if it was never flushed before. *)
Definition closes (s : AnalyzerContext) : list Z :=
  match FlushAllMetrics (λ _, None) ∅ gone "rover" s with
  | (Ok f, _) => (λ tr, ct_Count (ct_Cur (CloseCounter (pt_Metrics tr)))) <$> fl_traffics f
  | _ => []
  end.

Example close_counted_before_the_first_flush_only :
  (closes (do (OpClose (close_event 150)) connected), closes (do (OpClose (close_event 150)) flushed_once))
  = ([1], [0]).
Proof. vm_compute. reflexivity. Qed.

(** Two connections to one address: the retransmission of the first one is counted for the
    second one, since the local address of the event is not kept. *)
Definition second_event : NetConnectEvent := MkNetConnect 12 6 3 0 1 8 ConnectionRoleClient (addresses 5000).
Definition two_connected : AnalyzerContext := do (OpConnect second_event) connected.

Definition retransmits (s : AnalyzerContext) : list (Z * Z) :=
  (λ '(_, c), (LocalPort c, ct_Count (ct_Cur (RetransmitCounter (cc_Metrics c))))) <$> map_to_list (an_conns s).

Example retransmission_of_another_connection :
  retransmits (do (OpFlush (kernel 100) "rover")
                 (do (OpException 1 (addresses 4000) SocketExceptionOperationRetransmit) two_connected))
  = [(5000, 1); (4000, 0)].
Proof. vm_compute. reflexivity. Qed.

End AnalyzerSamples.
